(* ===== verification/_CoqProject ===== *)
-Q . S2P
Prelude.v
Text.v
Strings.v
Messages.v
Compactor.v
External.v
Verifier.v
OutputExit.v
Domain.v
Workflow.v
Scheduler.v
Tables.v
Signals.v
Artifacts.v
StoreBase.v
StoreGoals.v
StoreWork.v
StoreExtend.v
Replay.v
Engine.v
Worker.v
Handlers.v
Order.v
History.v
Registry.v
Operations.v
Settlement.v
GoalLife.v
Leases.v
Deps.v
Integrity.v
GoalOps.v
Approval.v
WorkOps.v
Progress.v
Trajectories.v
Instances.v
Scenario.v
Witnesses.v
MemBase.v
Jobs.v
Outbox.v
Conversation.v
Floats.v
Recall.v
Sidecar.v
ContextBudget.v
TimeQuery.v
SwarmAudit.v
TrajStore.v
TrajFacts.v
EvoDomain.v
Skills.v
SkillStore.v
SkillFacts.v
EvoStore.v
EvoFacts.v
Harness.v
RunLog.v
RunFacts.v
ToolLoop.v
CodeMode.v
ToolLoopFacts.v
CodeModeFacts.v
Swarm.v
Markdown.v
Delivery.v
SwarmDurable.v
EvoEngine.v
EvoCycle.v
EngineFacts.v
MemWitnesses.v
SwarmFacts.v
SwarmWitnesses.v
GroupRules.v
Groups.v
Turn.v
TurnFacts.v
TurnWitnesses.v
