(* ===== verification/Prelude.v ===== *)
(** * The core of xiaomaolv: loop engine, memory, evolution, and the turn of a conversation

    This library models the parts of xiaomaolv that must not go wrong when workers
    crash, race or are retried: the loop engine under src/src/harness/loop_engine,
    which stores goals, reviewed workflows, work items, attempts, checkpoints,
    signals and artifacts in SQLite and hands work out under fenced leases; the
    scheduling policy of src/src/scheduler.rs; the tables of src/src/memory.rs that
    hold scheduler jobs, Telegram updates and messages, conversations and recorded
    runs; the evolution of the prompt under src/src/harness, which proposes,
    evaluates, approves, deploys and rolls back patches; and what answers a message:
    the pipeline of src/src/service.rs with its tool loop, code mode and swarm.

    ** Parts and how they interact

    A client (HTTP handler, channel, worker loop, janitor) calls a method of
    [LoopEngine] (engine.rs).  The method validates its arguments (domain.rs,
    signals.rs, artifacts.rs), then runs one or more transactions of
    [SqliteLoopStore] (store.rs); resolving a parked item and recovering expired
    leases also read and write signals (signals.rs).  All shared state is the
    database, and every write is inside a [BEGIN IMMEDIATE] transaction or is one
    statement, so the model is a monad over a database value ([M], below) whose
    [transaction] drops the changes of a body that fails.  Time and ids come from
    a clock that may read anything and a process-wide counter, so every theorem
    holds for every clock, also one that runs backwards.

    [LoopWorker] (worker.rs) is such a client: it claims an item, looks its handler up
    in a registry, runs it phase by phase under a lease that a heartbeat renews, and
    settles the attempt.  Handlers call the engine themselves.  Replay (replay.rs)
    records the provider calls of an attempt and checks them later.  Around the loop
    stand the pieces a conversation goes through: the messages it is made of, the
    compactor that shortens it, the verifier that checks tool calls and answers, and
    the exit that enforces the verdict.

    The memory store (memory.rs) is a second set of tables in the same database, each
    group of them with its own client: the job runner claims due jobs under leases, the
    Telegram edge admits updates and queues messages it could not send, the conversation
    service appends and recalls messages, the harness records runs and scores them.  The
    groups share no table, so each is a state of its own with its own operations.  The
    evolution store (harness/store.rs) keeps candidates, evaluations and deployments;
    a deployment replaces the active one and a rollback restores it.

    A turn of the service ties them together: it stores the message, recalls a context
    from the memory - SQLite alone or with a vector store beside it -, shortens it, and has
    it answered by the clock, by a swarm of agents (in process, or as work items of the loop
    engine), by code mode, which plans all tool calls at once, by the tool loop or by the
    provider alone; the answer is verified, shown and stored, and the run is recorded.

    A turn starts in a channel and ends there.  A message of a Telegram group is judged
    first: it is answered, kept or ignored.  The reply, whole or as a stream of deltas, is
    rendered to parts a message can hold; what cannot be sent waits in the outbound queue.

    ** Files that model the code

    - Prelude: results, the store monad, SQL statements as list functions, and the
      program logic ([stable] for two-state properties, [wp] for outcomes) with its
      tactics and hint database [stab].
    - Text, Strings: the [str] functions and SQL [LIKE].  External: [serde_json],
      SHA-256 and the Unicode tables as type classes, without laws (Verifier states
      the two laws of JSON objects it needs), and the frames of recorded trajectories.
    - Domain: domain.rs of the loop engine and the request types of signals.rs and
      artifacts.rs (statuses with their column names, requests with their validation,
      records).  Workflow: [WorkflowSpec::validate_with_policy], with Kahn's algorithm.
    - Tables: the rows of the harness tables and the database [Db].
    - Signals, Artifacts: signals.rs and artifacts.rs.  StoreBase: decoding,
      events, claim checks, reconciling, unlocking, goal status, lease recovery and
      [resume_goal].  StoreGoals: admission, planning, approval, cancel, reject,
      re-plan, pause, expiry, verification, provider budget.  StoreWork: claims,
      checkpoints, completion, failure, blocking, deferral, phases, operator
      verdicts.  StoreExtend: dynamic extension and the listings.  Replay: self_test.rs
      and replay.rs.  Engine: the methods of [LoopEngine].
    - Worker: the registry, [process_claim] with its phase loop,
      [run_goal_until_idle] and the children of [run_goal_concurrent] (worker.rs).
      Handlers: the built-in handlers and [with_builtins].
    - Scheduler: scheduler.rs; time zones and cron expressions are a type class.
    - Messages: [StoredMessage] (src/domain.rs) and json_utils.rs.  Compactor:
      compactor.rs.  Verifier, OutputExit: verifier.rs, output_exit.rs.
    - MemBase: the SQL statements only memory.rs uses, and a component's store as a
      transition system ([op_steps], [op_reachable]).  Jobs: scheduler jobs, their runs
      and pending intents.  Outbox: admissions of updates, outbound messages and their
      queue, with the janitor's tick of http.rs.  Conversation: messages, summaries,
      chunks with the sidecar outbox, aliases and profiles.  Recall: what is recalled for
      a turn, by keywords and by score.  Sidecar: the backend that also hands its texts to
      a vector store, as steps between which the process may stop.  SwarmAudit: the swarm
      tables.  Floats: binary32 and binary64 numbers of the Standard Library's SpecFloat.
      TrajStore: recorded runs and their scores (trajectory.rs and memory.rs).
    - EvoDomain: the types and pure operations of evolution.rs.  EvoStore:
      [SqliteEvolutionStore] of harness/store.rs.  Harness: the three stores put together,
      and what crosses them: feedback and its spike signal, the signal of a low score.
      RunLog: [TrajectoryLogger], [TrajectoryRun] and [AgentRun] (trajectory.rs, run.rs).
      EvoEngine, EvoCycle: [EvolutionEngine] of evolution.rs: evaluation at once and step
      by step, the operator's decisions; proposals, the review of a deployment, the cycle.

    - ToolLoop: tool_protocol.rs and the loops of service/completion.  CodeMode:
      code_mode.rs and its path through the completion.  Swarm, SwarmDurable:
      service/swarm.rs, in process and as work items of the loop engine.  ContextBudget,
      TimeQuery: the budget of a context and the questions about the time.  Turn: the
      pipeline of service.rs that answers a message.
    - Skills: skills.rs up to its registry: the text of a skill, the scan of a directory,
      the choice of the skills that fit a query and their prompt.  SkillStore: the registry
      of skills.rs, the catalogs, and skills_commands.rs; the file system, the network and
      the TOML and JSON formats are type classes.
    - Markdown: channel/telegram_markdown.rs; the events of pulldown_cmark are a type class.
      Delivery: [TelegramSender] and [ChannelOutboundSender] of channel.rs and the sink of
      channel/telegram_stream.rs, over a Bot API whose answers are a type class.  GroupRules:
      channel/telegram_rules.rs.  Groups: channel/group_pipeline.rs.

    ** Files that prove

    - History: the store as a transition system; [atom] lists the write transactions,
      [steps] is any interleaving of them with any arguments, [reachable] what can
      be reached from an empty database.  Operations: every engine method and every
      worker, failing or not, is made of [steps] (given handlers that are, which the
      built-in ones are), so what is proved of [steps] holds of them.
    - Order, and again History: [db_le], the order every step respects (tables that
      only grow, rows that keep their identity, statuses that move along the edges
      of their life cycles), and what it says of finished work, ended attempts,
      committed outcomes and the audit tables.  GoalLife: the same for goal statuses.
    - Leases: what a claim hands out; the invariant that ties lease tokens, fencing tokens and live
      attempts; stale claims are refused for ever; the retry budget.  WorkOps: completion, failure, lease recovery, parked items, checkpoints and
      phase progress.
    - Deps: work waits for its dependencies; the recursive query of
      [fail_attempt] is the transitive closure.
    - Approval: an approval binds the reviewed plan; extension stays in
      the approved effects and node budget.  GoalOps: provider calls and bytes,
      admission, cancel, verification, the status of a goal from its items.
      Integrity: the engine's own core self-test passes in every reachable store, and
      ready work is handed out.
      Registry: duplicate signals and artifact versions, and that column
      names round-trip.
    - Settlement: the handler registry; a processed claim is settled, a gated one runs no
      handler.  Progress: the phase loop ends.  Trajectories: recorded calls
      are immutable, and what a replay decides.
    - Text, Workflow, Scheduler, Handlers, Compactor, Verifier, OutputExit and Messages
      carry their own theorems.
    - Jobs, Outbox and Conversation also prove: what a claim of jobs hands out and what a
      lost lease settles; that an update is taken up at most three times and what a tick of
      the janitor does; recall and summaries.  Recall: the merge keeps the best.  Sidecar:
      no text is lost on the way to the vector store.  TrajFacts: the score is the
      documented formula; batched listings.  EvoFacts: the stack of deployments, the gate,
      rollback.  RunFacts: a run followed through [AgentRun] is read back as it was.
      EngineFacts: what the engine does without a human, that it serves the stored policy,
      and that an evaluation by steps agrees with one in one go.
    - ToolLoopFacts: a turn with tools ends, with its run closed, and runs offered tools
      only.  CodeModeFacts: the executor and the circuit, and which records of its calls an
      answer of code mode was verified against.  SwarmFacts: a swarm finishes every node it
      starts within its budget and never waits for itself, and the janitor's attempts at a
      reply that was deferred.  TurnFacts: what a
      turn leaves in any memory, that nobody sees an unverified answer, and what the key of
      a stored summary stands for.
    - SkillFacts: the choice of skills is the best and does not depend on their order, the
      prompt fits its budget, the scan of a directory is exact, a command that asks for no
      reload has changed nothing, what is installed is served and what is switched off is
      not; with a concrete file system and the runs on it.
    - Markdown, Delivery, GroupRules and Groups carry their theorems: text never turns into
      markup and parts fit a message; what could not be sent is queued, a stream ends showing
      the reply, a session names its chat; a mention is a word; what becomes of a group
      message, and that the names learned for the bot stay few.
    - Instances: an executable environment.  Scenario: a goal run from admission to
      achievement, and the same by a worker.  Witnesses, MemWitnesses, SwarmWitnesses,
      TurnWitnesses: the theorems with hypotheses, applied to concrete runs, and runs
      that end where the documentation says they cannot.

    ** Choices

    - An [UPDATE], [INSERT], [DELETE] or [SELECT] is a function on the list of rows in
      rowid order; [INSERT] is refused on a clash of primary key or unique index.
      Column values are decoded: an enumeration or JSON column holds the value, not
      its text.   SQLite
      integers are [Z] and the narrowing conversions of the
      decoders ([try_u8], [try_u32], [try_u64]) are explicit; the sums of a clock
      reading and a bounded delay stay far below 2^63 and are not wrapped.  An [ORDER BY] that
      leaves a tie takes rowid order.
    - The database errors that no statement of the code can provoke (I/O, lock
      timeouts) are not modelled: a transaction that fails for one of those changes
      nothing, like any error.
    - In the stores of memory.rs and of evolution every process-wide counter is the one
      id counter of the world, an AUTOINCREMENT id is one more than the largest so far,
      and [DateTime<Utc>] is its nanoseconds.
    - Strings are UTF-8 bytes.  The Jaccard score is an exact fraction: both sides of
      the comparison with 0.9 are correctly rounded and sets of tokens are far too
      small for the rounding to matter.
    - tokio is the class [Runtime]: it may run the heartbeat and a handler in any
      interleaving and give up at any point ([RuntimeLaws] says that it does no more
      than that).  A handler is any computation over the store; the children of a
      concurrent run are modelled turn by turn, since [steps] interleaves freely.
    - What a theorem says was sent, asked, executed or shown is read off lists that the
      model keeps beside the state: the calls of the Bot API ([tg_calls]), the requests,
      tool calls with their answers and deltas of a turn ([tn_asked], [tn_called],
      [tn_shown]), the attempts at a deferred reply ([sv_attempts]).  Nothing reads them.
    - A deferred reply of the swarm goes out through [ChannelOutboundSender] as it is wired
      for Telegram; the outbound handler of the loop takes any sender.
    - Confidences of the verifier are the constants of the code in hundredths.
    - A method of the evolution engine is one step: the cycle and the evaluations hold
      the engine's locks; for activation and rollback, which hold none while the served
      policy is replaced, it is an assumption that two of them do not interleave.
    - Fuel: [kahn_fuel] is one more than the number of steps and [kahn] visits each
      step once ([validate_with_policy_exact] covers its termination); the recursive
      query [downstream] has one more than the number of dependency rows
      ([downstream_is_transitive_dependents]); [claim_loop] runs three rounds as the
      code does; [hex] has one more than the number of bits; [phase_fuel] is one more
      than [MAX_PHASE_CONTINUES] ([phase_loop_terminates]).

    ** Not modelled

    Schema migration, event broadcast, tracing and self-test timings; the handler that
    evaluates an evolution candidate; the JSON schema text of scheduler.rs; and what is
    mostly input and output: the polling of Telegram and its commands, HTTP routes, the
    provider clients, the MCP transports, configuration and the command line.  What of
    them the modelled code calls is a type class of the file that calls it. *)

From stdpp Require Export base tactics option list gmap strings numbers relations.

(** ** Results

    [anyhow::Result<A>]: a value, or an error that carries its message. *)

Inductive res (A : Type) : Type :=
| Ok (a : A)
| Err (e : string).
Arguments Ok {A} a.
Arguments Err {A} e.

#[export] Instance res_ret : MRet res := @Ok.

#[export] Instance res_bind : MBind res := λ A B f r,
  match r with Ok a => f a | Err e => Err e end.

Definition is_ok {A} (r : res A) : bool :=
  match r with Ok _ => true | Err _ => false end.

(** [ensure!] and [Option::context] in the pure error monad. *)
Definition guard_res (b : bool) (e : string) : res unit :=
  if b then Ok tt else Err e.

Definition context_res {A} (e : string) (o : option A) : res A :=
  match o with Some a => Ok a | None => Err e end.

(** A [for] loop whose body may return early with an error. *)
Fixpoint for_res {A St} (f : A → St → res St) (l : list A) (st : St) : res St :=
  match l with
  | [] => Ok st
  | x :: l' => st' ← f x st; for_res f l' st'
  end.

(** ** The store monad

    A computation runs against a store [S] (the SQLite database), a clock that
    is read a number of times ([w_tick] counts the readings) and the process
    wide id counter.  A failed computation keeps the effects it had: only
    [transaction] rolls back. *)

Record world (S : Type) : Type := World {
  w_db : S;
  w_tick : nat;
  w_ids : N
}.
Arguments World {S} w_db w_tick w_ids.
Arguments w_db {S} w.
Arguments w_tick {S} w.
Arguments w_ids {S} w.

Definition M (S A : Type) : Type := world S → res A * world S.

#[export] Instance M_ret S : MRet (M S) := λ A a w, (Ok a, w).

#[export] Instance M_bind S : MBind (M S) := λ A B f m w,
  match m w with
  | (Ok a, w') => f a w'
  | (Err e, w') => (Err e, w')
  end.

Definition throw {S A} (e : string) : M S A := λ w, (Err e, w).

Definition ensure {S} (b : bool) (e : string) : M S unit :=
  if b then mret tt else throw e.

Definition context {S A} (e : string) (o : option A) : M S A :=
  match o with Some a => mret a | None => throw e end.

Definition lift_res {S A} (r : res A) : M S A :=
  match r with Ok a => mret a | Err e => throw e end.

Definition get_db {S} : M S S := λ w, (Ok (w_db w), w).

Definition put_db {S} (s : S) : M S unit :=
  λ w, (Ok tt, World s (w_tick w) (w_ids w)).

Fixpoint foreach {S A} (l : list A) (f : A → M S unit) : M S unit :=
  match l with
  | [] => mret tt
  | x :: l' => f x ;; foreach l' f
  end.

(** [if let Err(_) = ... { warn!(..) }]: the error is logged and dropped. *)
Definition ignore_error {S A} (m : M S A) : M S unit := λ w, (Ok tt, (m w).2).

(** The result of a computation as a value, for a [match] on it. *)
Definition catch {S A} (m : M S A) : M S (res A) := λ w, (Ok (m w).1, (m w).2).

(** What a transaction body asks for at its end. *)
Inductive tx_end (A : Type) : Type :=
| Commit (a : A)
| Rollback (a : A).
Arguments Commit {A} a.
Arguments Rollback {A} a.

(** [begin_with("BEGIN IMMEDIATE")] .. [commit]/[rollback]; a [?] inside drops
    the transaction and so rolls the store back.  Clock readings and drawn ids
    are not part of the store. *)
Definition transaction_end {S A} (m : M S (tx_end A)) : M S A := λ w,
  match m w with
  | (Ok (Commit a), w') => (Ok a, w')
  | (Ok (Rollback a), w') => (Ok a, World (w_db w) (w_tick w') (w_ids w'))
  | (Err e, w') => (Err e, World (w_db w) (w_tick w') (w_ids w'))
  end.

Definition transaction {S A} (m : M S A) : M S A :=
  transaction_end (a ← m; mret (Commit a)).

(** ** Clock and ids *)

(** The system clock: the nanoseconds since the epoch of each reading. *)
Class Clock : Type := clock_nanos : nat → Z.

Definition tick {S} : M S nat := λ w,
  (Ok (w_tick w), World (w_db w) (w_tick w + 1) (w_ids w)).

(** [SystemTime::now().duration_since(UNIX_EPOCH).unwrap_or_default()]. *)
Definition now_nanos `{Clock} {S} : M S Z :=
  n ← tick; mret (Z.max 0 (clock_nanos n)).

(** [unix_now]; SQLite's [unixepoch()] reads the same clock. *)
Definition unix_now `{Clock} {S} : M S Z :=
  n ← now_nanos; mret (n / 1000000000)%Z.

Definition hex_digit (d : N) : Ascii.ascii :=
  Ascii.ascii_of_N (if (d <? 10)%N then 48 + d else 87 + d).

Fixpoint hex_go (fuel : nat) (n : N) (acc : string) : string :=
  match fuel with
  | O => acc
  | S fuel' =>
      let acc' := String (hex_digit (n mod 16)) acc in
      if (n <? 16)%N then acc' else hex_go fuel' (n / 16)%N acc'
  end.

(** [format!("{n:x}")]. *)
Definition hex (n : N) : string := hex_go (S (N.to_nat (N.size n))) n "".

(** [format!("{byte:02x}")]. *)
Definition hex2 (n : N) : string :=
  if (n <? 16)%N then "0" +:+ hex n else hex n.

(** [LOOP_ID_COUNTER.fetch_add(1)]. *)
Definition draw_id {S} : M S N := λ w,
  (Ok (w_ids w), World (w_db w) (w_tick w) ((w_ids w + 1) mod 2 ^ 64)%N).

(** [new_loop_id]: prefix, clock reading, process wide counter. *)
Definition new_loop_id `{Clock} {S} (prefix : string) : M S string :=
  nanos ← now_nanos;
  counter ← draw_id;
  mret (prefix +:+ "_" +:+ hex (Z.to_N nanos) +:+ "_" +:+ hex counter).

(** ** Tables

    A table is a list of rows in rowid order.  [UPDATE .. WHERE], [INSERT] with
    its uniqueness constraints, [SELECT .. WHERE] and [ORDER BY] are list
    functions; they are lifted to the monad through a lens. *)

Record table (S Row : Type) : Type := Table {
  tget : S → list Row;
  tset : list Row → S → S
}.
Arguments Table {S Row} tget tset.
Arguments tget {S Row} t s.
Arguments tset {S Row} t l s.

Definition update_where {Row} (p : Row → bool) (f : Row → Row) (l : list Row) : list Row :=
  map (λ r, if p r then f r else r) l.

Definition count_where {Row} (p : Row → bool) (l : list Row) : Z :=
  Z.of_nat (length (List.filter p l)).

Fixpoint insert_by {Row} (le : Row → Row → bool) (r : Row) (l : list Row) : list Row :=
  match l with
  | [] => [r]
  | x :: l' => if le r x then r :: l else x :: insert_by le r l'
  end.

(** [ORDER BY]: stable, so rows the key does not separate keep rowid order. *)
Fixpoint order_by {Row} (le : Row → Row → bool) (l : list Row) : list Row :=
  match l with
  | [] => []
  | x :: l' => insert_by le x (order_by le l')
  end.

Section sql.
  Context {S Row : Type} (t : table S Row).

  (** [UPDATE t SET f WHERE p]; the value is [rows_affected]. *)
Definition sql_update (p : Row → bool) (f : Row → Row) : M S Z :=
    s ← get_db;
    put_db (tset t (update_where p f (tget t s)) s) ;;
    mret (count_where p (tget t s)).

  (** [INSERT INTO t]: refused when an existing row clashes with the new one. *)
Definition sql_insert (clash : Row → bool) (r : Row) : M S unit :=
    s ← get_db;
    ensure (negb (existsb clash (tget t s))) "UNIQUE constraint failed" ;;
    put_db (tset t (tget t s ++ [r]) s).

Definition sql_delete (p : Row → bool) : M S unit :=
    s ← get_db;
    put_db (tset t (List.filter (λ r, negb (p r)) (tget t s)) s).

Definition sql_select (p : Row → bool) : M S (list Row) :=
    s ← get_db; mret (List.filter p (tget t s)).

Definition sql_first (p : Row → bool) : M S (option Row) :=
    s ← get_db; mret (List.find p (tget t s)).

Definition sql_count (p : Row → bool) : M S Z :=
    s ← get_db; mret (count_where p (tget t s)).
End sql.

(** ** Lemmas on results and tables *)

Lemma guard_res_bind {B} b e (f : unit → res B) :
  (guard_res b e ≫= f) = if b then f tt else Err e.
Proof. by destruct b. Qed.

Lemma guard_res_ok b e : guard_res b e = Ok tt ↔ b = true.
Proof. destruct b; cbn; intuition congruence. Qed.

Lemma bind_ok {A B} (m : res A) (f : A → res B) b :
  (m ≫= f) = Ok b ↔ ∃ a, m = Ok a ∧ f a = Ok b.
Proof.
  destruct m as [a|e]; cbn; split; [by eauto|intros (? & [= <-] & ?); done|done|].
  by intros (? & ? & ?).
Qed.

Lemma guard_then_ok {B} b e (f : unit → res B) r :
  (guard_res b e ≫= f) = Ok r ↔ b = true ∧ f tt = Ok r.
Proof. destruct b; cbn; intuition congruence. Qed.

Lemma insert_by_perm {Row} (le : Row → Row → bool) r l : insert_by le r l ≡ₚ r :: l.
Proof.
  induction l as [|x l IH]; cbn; [done|]. destruct (le r x); [done|].
  rewrite IH. apply Permutation_swap.
Qed.

Lemma order_by_perm {Row} (le : Row → Row → bool) l : order_by le l ≡ₚ l.
Proof. induction l as [|x l IH]; cbn; [done|]. by rewrite insert_by_perm, IH. Qed.

(** What [LIMIT 1] takes is a least row. *)
Lemma order_by_least {Row} (le : Row → Row → bool) l x :
  (∀ a b, le a b = false → le b a = true) → (∀ a b c, le a b = true → le b c = true → le a c = true) →
  head (order_by le l) = Some x → x ∈ l ∧ ∀ y, y ∈ l → le x y = true.
Proof.
  intros Htot Htrans. assert (Hrefl : ∀ a, le a a = true) by (intros a; destruct (le a a) eqn:E; [done|]; pose proof (Htot a a E); congruence).
  revert x. induction l as [|z l IH]; intros x; cbn; [done|].
  destruct (order_by le l) as [|y0 l0] eqn:E; cbn.
  - intros [= <-]. split; [left|]. intros y [->|Hy]%elem_of_cons; [apply Hrefl|].
    rewrite <- (order_by_perm le l), E in Hy. inversion Hy.
  - destruct (IH y0 eq_refl) as [Hin Hmin]. destruct (le z y0) eqn:Ez; cbn; intros [= <-].
    + split; [left|]. intros y [->|Hy]%elem_of_cons; [apply Hrefl|]. eapply Htrans; [exact Ez|by apply Hmin].
    + split; [by right|]. intros y [->|Hy]%elem_of_cons; [by apply Htot|by apply Hmin].
Qed.

Lemma count_where_le {Row} (p q : Row → bool) (f : Row → Row) l :
  (∀ r, q (f r) = true → p r = true) →
  (count_where q (map f l) ≤ count_where p l)%Z.
Proof.
  intros H. unfold count_where. induction l as [|r l IH]; cbn; [lia|].
  specialize (H r). destruct (q (f r)), (p r); cbn in *; lia || (specialize (H eq_refl); done).
Qed.

Lemma count_where_none {Row} (p : Row → bool) l :
  (∀ r, r ∈ l → p r = false) → count_where p l = 0%Z.
Proof.
  unfold count_where. induction l as [|r l IH]; intros H; cbn; [done|].
  rewrite (H r); [|left]. apply IH. intros x Hx. apply H. by right.
Qed.

Lemma update_where_none {Row} (p : Row → bool) f l :
  (∀ r, r ∈ l → p r = false) → update_where p f l = l.
Proof.
  induction l as [|r l IH]; intros H; cbn; [done|]. rewrite (H r); [|left].
  f_equal. apply IH. intros x Hx. apply H. by right.
Qed.

Lemma update_where_ext {Row} (p q : Row → bool) f l :
  (∀ r, p r = q r) → update_where p f l = update_where q f l.
Proof. intros H. apply map_ext. intros r. by rewrite H. Qed.

Lemma count_where_app {Row} (p : Row → bool) l l' :
  count_where p (l ++ l') = (count_where p l + count_where p l')%Z.
Proof. unfold count_where. rewrite List.filter_app, length_app. lia. Qed.

Lemma count_where_nonneg {Row} (p : Row → bool) l : (0 ≤ count_where p l)%Z.
Proof. unfold count_where. lia. Qed.

Lemma count_where_pos {Row} (p : Row → bool) l :
  count_where p l ≠ 0%Z → ∃ r, r ∈ l ∧ p r = true.
Proof.
  unfold count_where. destruct (List.filter p l) as [|r l'] eqn:E; [done|]. intros _.
  exists r. assert (H : In r (List.filter p l)) by (rewrite E; by left).
  apply List.filter_In in H as [H1 H2]. split; [by apply list_elem_of_In|done].
Qed.

Lemma elem_update_where {Row} p f (l : list Row) r :
  r ∈ update_where p f l ↔ ∃ x, x ∈ l ∧ r = if p x then f x else x.
Proof. unfold update_where. rewrite list_elem_of_fmap. firstorder. Qed.

Lemma lookup_update_where {Row} p f (l : list Row) i r :
  update_where p f l !! i = Some r → ∃ x, l !! i = Some x ∧ r = if p x then f x else x.
Proof.
  unfold update_where. intros H. apply list_lookup_fmap_Some in H as (x & Hr & Hx).
  by exists x.
Qed.

(** ** Program logic

    [stable R m]: whatever the result, running [m] relates the store before to
    the store after by [R].  With [R] a preorder it composes over every control
    structure, so a two-state property of an operation follows from the same
    property of its SQL statements.  [wp m Q s] is the weakest precondition for
    proofs that need the values read on the way. *)

Definition stable {S A} (R : relation S) (m : M S A) : Prop :=
  ∀ w, R (w_db w) (w_db (m w).2).

Definition wp {S A} (m : M S A) (Q : res A → S → Prop) (s : S) : Prop :=
  ∀ w, w_db w = s → Q (m w).1 (w_db (m w).2).

Create HintDb stab discriminated.

(** An invariant of the store, as a relation that composes. *)
Definition keeps {S} (I : S → Prop) : relation S := λ s s', I s → I s'.

#[export] Instance keeps_preorder {S} (I : S → Prop) : PreOrder (keeps I).
Proof. split; repeat intro; auto. Qed.

Section stable.
  Context {S : Type} (R : relation S) `{!PreOrder R}.

Lemma stable_ret {A} (a : A) : stable R (mret a : M S A).
Proof. intros w; cbn; reflexivity. Qed.

Lemma stable_throw {A} e : stable R (throw e : M S A).
Proof. intros w; cbn; reflexivity. Qed.

Lemma stable_bind {A B} (m : M S A) (f : A → M S B) :
  stable R m → (∀ a, stable R (f a)) → stable R (m ≫= f).
Proof.
  intros Hm Hf w. specialize (Hm w). unfold mbind, M_bind.
  destruct (m w) as [[a|e] w']; cbn in *; [|done].
  etrans; [exact Hm|apply Hf].
Qed.

Lemma stable_ensure b e : stable R (ensure b e : M S unit).
Proof. destruct b; [apply stable_ret|apply stable_throw]. Qed.

(** What [ensure] checked is known to the rest of the computation. *)
Lemma stable_bind_ensure {B} b e (f : unit → M S B) :
  (b = true → stable R (f tt)) → stable R (ensure b e ≫= f).
Proof. destruct b; intros H; [exact (H eq_refl)|]. intros w; cbn; reflexivity. Qed.

(** So is the value of a pure step that did not fail. *)
Lemma stable_bind_res {A B} (r : res A) (f : A → M S B) :
  (∀ a, r = Ok a → stable R (f a)) → stable R (lift_res r ≫= f).
Proof. destruct r; intros H; [exact (H _ eq_refl)|]. intros w; cbn; reflexivity. Qed.

Lemma stable_context {A} e (o : option A) : stable R (context e o : M S A).
Proof. destruct o; [apply stable_ret|apply stable_throw]. Qed.

Lemma stable_lift_res {A} (r : res A) : stable R (lift_res r : M S A).
Proof. destruct r; [apply stable_ret|apply stable_throw]. Qed.

Lemma stable_get_db : stable R (get_db : M S S).
Proof. intros w; cbn; reflexivity. Qed.

Lemma stable_unix_now `{Clock} : stable R (unix_now : M S Z).
Proof. intros w; cbn; reflexivity. Qed.

Lemma stable_tick : stable R (tick : M S nat).
Proof. intros w; cbn; reflexivity. Qed.

Lemma stable_new_loop_id `{Clock} p : stable R (new_loop_id p : M S string).
Proof. intros w; cbn; reflexivity. Qed.

Lemma stable_foreach {A} (l : list A) (f : A → M S unit) :
  (∀ a, stable R (f a)) → stable R (foreach l f).
Proof.
  intros Hf. induction l as [|x l IH]; cbn; [apply stable_ret|].
  apply stable_bind; [apply Hf|intros _; apply IH].
Qed.

Lemma stable_catch {A} (m : M S A) : stable R m → stable R (catch m).
Proof. intros H w. apply H. Qed.

Lemma stable_ignore_error {A} (m : M S A) : stable R m → stable R (ignore_error m).
Proof. intros Hm w. apply Hm. Qed.

Lemma stable_transaction_end {A} (m : M S (tx_end A)) :
  stable R m → stable R (transaction_end m).
Proof.
  intros Hm w. specialize (Hm w). unfold transaction_end.
  destruct (m w) as [[[a|a]|e] w']; cbn in *; try done; reflexivity.
Qed.

Lemma stable_transaction {A} (m : M S A) : stable R m → stable R (transaction m).
Proof.
  intros Hm. apply stable_transaction_end, stable_bind; [done|].
  intros; apply stable_ret.
Qed.

Section stable_sql.
  Context {Row : Type} (t : table S Row).

Lemma stable_sql_update p f :
  (∀ s, R s (tset t (update_where p f (tget t s)) s)) → stable R (sql_update t p f).
Proof. intros H w. cbn. apply H. Qed.

Lemma stable_sql_insert clash r :
  (∀ s, existsb clash (tget t s) = false → R s (tset t (tget t s ++ [r]) s)) →
  stable R (sql_insert t clash r).
Proof.
  intros H w. unfold sql_insert, mbind, M_bind, get_db, ensure.
  destruct (existsb clash (tget t (w_db w))) eqn:E; cbn; [reflexivity|by apply H].
Qed.

Lemma stable_sql_delete p :
  (∀ s, R s (tset t (List.filter (λ r, negb (p r)) (tget t s)) s)) →
  stable R (sql_delete t p).
Proof. intros H w. cbn. apply H. Qed.

Lemma stable_sql_select p : stable R (sql_select t p).
Proof. intros w; cbn; reflexivity. Qed.

Lemma stable_sql_first p : stable R (sql_first t p).
Proof. intros w; cbn; reflexivity. Qed.

Lemma stable_sql_count p : stable R (sql_count t p).
Proof. intros w; cbn; reflexivity. Qed.
End stable_sql.

(** From [wp] back to [stable]. *)
Lemma stable_of_wp {A} (m : M S A) : (∀ s, wp m (λ _ s', R s s') s) → stable R m.
Proof. intros H w. by apply (H (w_db w) w). Qed.

Lemma wp_of_stable {A} (m : M S A) s : stable R m → wp m (λ _ s', R s s') s.
Proof. intros H w <-. apply H. Qed.
End stable.

(** Walks a computation down to its SQL statements. *)
Ltac stable_step :=
  lazymatch goal with
  | |- stable _ (mbind _ (ensure _ _)) => apply stable_bind_ensure; [typeclasses eauto|intros ?]
  | |- stable _ (mbind _ _) => apply stable_bind; [typeclasses eauto| |intros ?]
  | |- stable _ (mret _) => apply stable_ret; typeclasses eauto
  | |- stable _ (throw _) => apply stable_throw; typeclasses eauto
  | |- stable _ (ensure _ _) => apply stable_ensure; typeclasses eauto
  | |- stable _ (context _ _) => apply stable_context; typeclasses eauto
  | |- stable _ (lift_res _) => apply stable_lift_res; typeclasses eauto
  | |- stable _ get_db => apply stable_get_db; typeclasses eauto
  | |- stable _ unix_now => apply stable_unix_now; typeclasses eauto
  | |- stable _ tick => apply stable_tick; typeclasses eauto
  | |- stable _ (new_loop_id _) => apply stable_new_loop_id; typeclasses eauto
  | |- stable _ (sql_select _ _) => apply stable_sql_select; typeclasses eauto
  | |- stable _ (sql_first _ _) => apply stable_sql_first; typeclasses eauto
  | |- stable _ (sql_count _ _) => apply stable_sql_count; typeclasses eauto
  | |- stable _ (foreach _ _) => apply stable_foreach; [typeclasses eauto|intros ?]
  | |- stable _ (transaction _) => apply stable_transaction; [typeclasses eauto|]
  | |- stable _ (transaction_end _) => apply stable_transaction_end; [typeclasses eauto|]
  | |- stable _ (ignore_error _) => apply stable_ignore_error
  | |- stable _ (catch _) => apply stable_catch
  | |- stable _ (match ?x with _ => _ end) => destruct x
  | |- stable _ (let '(_, _) := ?x in _) => destruct x
  | |- stable _ _ => solve [eauto 2 with stab]
  end.
Ltac stable_go := repeat stable_step.

Section wp.
  Context {S : Type}.
  Implicit Types s : S.

Lemma wp_run {A} (m : M S A) (Q : res A → S → Prop) w r w' :
  wp m Q (w_db w) → m w = (r, w') → Q r (w_db w').
Proof. intros H E. specialize (H w eq_refl). by rewrite E in H. Qed.

Lemma wp_mono {A} (m : M S A) (Q Q' : res A → S → Prop) s :
  wp m Q s → (∀ r s', Q r s' → Q' r s') → wp m Q' s.
Proof. intros H HQ w Hw. apply HQ, H, Hw. Qed.

Lemma wp_and {A} (m : M S A) (Q Q' : res A → S → Prop) s :
  wp m Q s → wp m Q' s → wp m (λ r s', Q r s' ∧ Q' r s') s.
Proof. intros H H' w Hw. split; [by apply H|by apply H']. Qed.

Lemma wp_imp {A} (P : Prop) (m : M S A) (Q : res A → S → Prop) s :
  (P → wp m Q s) → wp m (λ r s', P → Q r s') s.
Proof. intros H w Hw HP. by apply H. Qed.

Lemma wp_ret {A} (a : A) (Q : res A → S → Prop) s : Q (Ok a) s → wp (mret a) Q s.
Proof. intros H w <-. exact H. Qed.

Lemma wp_throw {A} e (Q : res A → S → Prop) s : Q (Err e) s → wp (throw e) Q s.
Proof. intros H w <-. exact H. Qed.

Lemma wp_bind {A B} (m : M S A) (f : A → M S B) Q s :
  wp m (λ r s', match r with Ok a => wp (f a) Q s' | Err e => Q (Err e) s' end) s →
  wp (m ≫= f) Q s.
Proof.
  intros H w Hw. specialize (H w Hw). unfold mbind, M_bind.
  destruct (m w) as [[a|e] w']; cbn in *; [by apply H|done].
Qed.

Lemma wp_ensure b e (Q : res unit → S → Prop) s :
  (b = true → Q (Ok tt) s) → (b = false → Q (Err e) s) → wp (ensure b e) Q s.
Proof. intros H1 H2. destruct b; [apply wp_ret|apply wp_throw]; auto. Qed.

Lemma wp_context {A} e (o : option A) (Q : res A → S → Prop) s :
  (∀ a, o = Some a → Q (Ok a) s) → (o = None → Q (Err e) s) → wp (context e o) Q s.
Proof. intros H1 H2. destruct o; [apply wp_ret|apply wp_throw]; auto. Qed.

Lemma wp_lift_res {A} (r : res A) (Q : res A → S → Prop) s :
  Q r s → wp (lift_res r) Q s.
Proof. intros H. destruct r; [by apply wp_ret|by apply wp_throw]. Qed.

Lemma wp_get_db (Q : res S → S → Prop) s : Q (Ok s) s → wp get_db Q s.
Proof. intros H w <-. exact H. Qed.

Lemma wp_unix_now `{Clock} (Q : res Z → S → Prop) s :
  (∀ t, (0 ≤ t)%Z → Q (Ok t) s) → wp unix_now Q s.
Proof.
  intros HQ w <-. cbn. apply HQ. apply Z.div_pos; lia.
Qed.

(** [t] is what the clock read at some moment, in seconds. *)
Definition clock_reading `{Clock} (t : Z) : Prop := ∃ n, t = (Z.max 0 (clock_nanos n) / 1000000000)%Z.

Lemma wp_unix_now_reading `{Clock} (Q : res Z → S → Prop) s :
  (∀ t, clock_reading t → Q (Ok t) s) → wp unix_now Q s.
Proof. intros HQ w <-. apply HQ. by eexists. Qed.

Lemma wp_new_loop_id `{Clock} p (Q : res string → S → Prop) s :
  (∀ i, Q (Ok i) s) → wp (new_loop_id p) Q s.
Proof. intros HQ w <-. cbn. apply HQ. Qed.

Lemma wp_catch {A} (m : M S A) (Q : res (res A) → S → Prop) s :
  wp m (λ r s', Q (Ok r) s') s → wp (catch m) Q s.
Proof. intros H w Hw. by apply H. Qed.

Lemma wp_transaction_end {A} (m : M S (tx_end A)) (Q : res A → S → Prop) s :
  wp m (λ r s', match r with
                | Ok (Commit a) => Q (Ok a) s'
                | Ok (Rollback a) => Q (Ok a) s
                | Err e => Q (Err e) s end) s →
  wp (transaction_end m) Q s.
Proof.
  intros H w <-. specialize (H w eq_refl). unfold transaction_end.
  by destruct (m w) as [[[a|a]|e] w'].
Qed.

Lemma wp_transaction {A} (m : M S A) (Q : res A → S → Prop) s :
  wp m (λ r s', match r with Ok a => Q (Ok a) s' | Err e => Q (Err e) s end) s →
  wp (transaction m) Q s.
Proof.
  intros H. apply wp_transaction_end, wp_bind.
  eapply wp_mono; [exact H|]. intros [a|e] s' HQ; [by apply wp_ret|done].
Qed.

(** A prefix of which only a two-state property is needed. *)
Lemma wp_bind_stable {A B} (R : relation S) (m : M S A) (f : A → M S B) Q s :
  stable R m → (∀ e s', R s s' → Q (Err e) s') →
  (∀ a s', R s s' → wp (f a) Q s') → wp (m ≫= f) Q s.
Proof.
  intros Hm He Hf. apply wp_bind. eapply wp_mono; [apply (wp_of_stable R m s Hm)|].
  cbv beta. intros [a|e] s' HR; auto.
Qed.

(** Loop rule: an invariant of the store, for a body that may fail. *)
Lemma wp_foreach {A} (l : list A) (f : A → M S unit) (I : S → Prop) Q s :
  I s →
  (∀ x s', x ∈ l → I s' → wp (f x) (λ r s'', match r with Ok _ => I s'' | Err e => Q (Err e) s'' end) s') →
  (∀ s', I s' → Q (Ok tt) s') →
  wp (foreach l f) Q s.
Proof.
  revert s. induction l as [|x l IH]; intros s HI Hf HQ; cbn.
  - apply wp_ret; auto.
  - apply wp_bind. eapply wp_mono; [apply Hf; [left|done]|].
    intros [[]|e] s'; [|done]. intros HI'. apply IH; [done| |done].
    intros y s'' Hy. apply Hf. by right.
Qed.

Section wp_sql.
  Context {Row : Type} (t : table S Row).

Lemma wp_sql_update p f (Q : res Z → S → Prop) s :
  Q (Ok (count_where p (tget t s))) (tset t (update_where p f (tget t s)) s) →
  wp (sql_update t p f) Q s.
Proof. intros H w <-. exact H. Qed.

Lemma wp_sql_insert clash r (Q : res unit → S → Prop) s :
  (existsb clash (tget t s) = false → Q (Ok tt) (tset t (tget t s ++ [r]) s)) →
  (existsb clash (tget t s) = true → Q (Err "UNIQUE constraint failed") s) →
  wp (sql_insert t clash r) Q s.
Proof.
  intros H1 H2 w <-. unfold sql_insert, mbind, M_bind, get_db, ensure.
  destruct (existsb clash (tget t (w_db w))); cbn; auto.
Qed.

(** A table without a uniqueness constraint. *)
Lemma wp_sql_insert_free r (Q : res unit → S → Prop) s :
  Q (Ok tt) (tset t (tget t s ++ [r]) s) → wp (sql_insert t (λ _, false) r) Q s.
Proof.
  intros H. apply wp_sql_insert; intros E; [done|]. exfalso.
  apply existsb_exists in E as (? & _ & ?). done.
Qed.

Lemma wp_sql_delete p (Q : res unit → S → Prop) s :
  Q (Ok tt) (tset t (List.filter (λ r, negb (p r)) (tget t s)) s) →
  wp (sql_delete t p) Q s.
Proof. intros H w <-. exact H. Qed.

Lemma wp_sql_select p (Q : res (list Row) → S → Prop) s :
  Q (Ok (List.filter p (tget t s))) s → wp (sql_select t p) Q s.
Proof. intros H w <-. exact H. Qed.

Lemma wp_sql_first p (Q : res (option Row) → S → Prop) s :
  Q (Ok (List.find p (tget t s))) s → wp (sql_first t p) Q s.
Proof. intros H w <-. exact H. Qed.

Lemma wp_sql_count p (Q : res Z → S → Prop) s :
  Q (Ok (count_where p (tget t s))) s → wp (sql_count t p) Q s.
Proof. intros H w <-. exact H. Qed.
End wp_sql.
End wp.

(** One step of symbolic execution of the goal's computation. *)
Ltac wp_step :=
  lazymatch goal with
  | |- wp (mbind _ _) _ _ => apply wp_bind
  | |- wp (mret _) _ _ => apply wp_ret
  | |- wp (throw _) _ _ => apply wp_throw
  | |- wp (ensure _ _) _ _ => apply wp_ensure; intros ?
  | |- wp (context _ _) _ _ => apply wp_context; [intros ? ?|intros ?]
  | |- wp (lift_res _) _ _ => apply wp_lift_res
  | |- wp get_db _ _ => apply wp_get_db
  | |- wp unix_now _ _ => apply wp_unix_now; intros ? ?
  | |- wp (new_loop_id _) _ _ => apply wp_new_loop_id; intros ?
  | |- wp (catch _) _ _ => apply wp_catch
  | |- wp (transaction _) _ _ => apply wp_transaction
  | |- wp (transaction_end _) _ _ => apply wp_transaction_end
  | |- wp (sql_update _ _ _) _ _ => apply wp_sql_update
  | |- wp (sql_insert _ (λ _, false) _) _ _ => apply wp_sql_insert_free
  | |- wp (sql_insert _ _ _) _ _ => apply wp_sql_insert; intros ?
  | |- wp (sql_delete _ _) _ _ => apply wp_sql_delete
  | |- wp (sql_select _ _) _ _ => apply wp_sql_select
  | |- wp (sql_first _ _) _ _ => apply wp_sql_first
  | |- wp (sql_count _ _) _ _ => apply wp_sql_count
  end.
(** Case analysis on what the computation branches on. *)
Ltac wp_case :=
  lazymatch goal with
  | |- wp (match ?x with _ => _ end) _ _ => let E := fresh "E" in destruct x eqn:E
  | |- match ?r with Ok _ => _ | Err _ => _ end => let E := fresh "E" in destruct r eqn:E
  end.
Ltac wp_go := repeat (first [wp_step | wp_case]; cbv beta iota).
