(* ===== verification/Text.v ===== *)
(** * Text

    The Rust [str] functions and the SQL [LIKE] operator the program uses.  A
    string is its UTF-8 bytes; functions on [char]s recognise the code points
    by their encodings, so they agree with Rust on every valid UTF-8 string. *)

From S2P Require Import Prelude.
From Stdlib Require Import Ascii.
#[local] Open Scope char_scope.
#[local] Open Scope nat_scope.

Abbreviation byte_of a := (Ascii.nat_of_ascii a).

(** ** Lengths in bytes and in characters *)

(** A continuation byte [10xxxxxx] does not start a character. *)
Definition is_cont (a : ascii) : bool :=
  (128 <=? byte_of a) && (byte_of a <? 192).

(** [s.chars().count()]. *)
Fixpoint chars_count (s : string) : nat :=
  match s with
  | EmptyString => 0
  | String a s' => (if is_cont a then 0 else 1) + chars_count s'
  end.

(** [s.chars().take(n).collect::<String>()]. *)
Fixpoint take_chars (n : nat) (s : string) : string :=
  match s with
  | EmptyString => EmptyString
  | String a s' =>
      if is_cont a then String a (take_chars n s')
      else match n with
           | O => EmptyString
           | S n' => String a (take_chars n' s')
           end
  end.

(** ** [trim]: the Unicode property White_Space *)

Definition ws1 (a : ascii) : bool :=
  let n := byte_of a in ((9 <=? n) && (n <=? 13)) || (n =? 32).

(** U+0085 and U+00A0. *)
Definition ws2 (a b : ascii) : bool :=
  (byte_of a =? 194) && ((byte_of b =? 133) || (byte_of b =? 160)).

(** U+1680, U+2000..U+200A, U+2028, U+2029, U+202F, U+205F, U+3000. *)
Definition ws3 (a b c : ascii) : bool :=
  let x := byte_of a in let y := byte_of b in let z := byte_of c in
  ((x =? 225) && (y =? 154) && (z =? 128)) ||
  ((x =? 226) && (y =? 128) &&
     (((128 <=? z) && (z <=? 138)) || (z =? 168) || (z =? 169) || (z =? 175))) ||
  ((x =? 226) && (y =? 129) && (z =? 159)) ||
  ((x =? 227) && (y =? 128) && (z =? 128)).

(** Drops white space from the front; [w2] and [w3] recognise the two- and
    three-byte encodings in the direction of travel. *)
Fixpoint trim_with (w2 : ascii → ascii → bool) (w3 : ascii → ascii → ascii → bool)
    (s : list ascii) : list ascii :=
  match s with
  | [] => []
  | a :: s1 =>
      if ws1 a then trim_with w2 w3 s1 else
      match s1 with
      | [] => s
      | b :: s2 =>
          if w2 a b then trim_with w2 w3 s2 else
          match s2 with
          | [] => s
          | c :: s3 => if w3 a b c then trim_with w2 w3 s3 else s
          end
      end
  end.

Definition trim_start : list ascii → list ascii := trim_with ws2 ws3.

(** The same on the reversed bytes. *)
Definition trim_start_rev : list ascii → list ascii :=
  trim_with (λ a b, ws2 b a) (λ a b c, ws3 c b a).

Definition bytes (s : string) : list ascii := String.list_ascii_of_string s.
Definition of_bytes (l : list ascii) : string := String.string_of_list_ascii l.

Definition trim (s : string) : string :=
  of_bytes (rev (trim_start_rev (rev (trim_start (bytes s))))).

(** [s.trim().is_empty()]. *)
Definition is_blank (s : string) : bool :=
  match trim s with EmptyString => true | _ => false end.

(** [!s.trim().is_empty() && s.len() <= n]: the identifier check used all
    over the domain types. *)
Definition bounded_nonblank (n : nat) (s : string) : bool :=
  negb (is_blank s) && (String.length s <=? n).

(** ** Case *)

Definition ascii_lower (a : ascii) : ascii :=
  let n := byte_of a in
  if (65 <=? n) && (n <=? 90) then Ascii.ascii_of_nat (n + 32) else a.

(** [s.to_ascii_lowercase()]. *)
Fixpoint to_ascii_lowercase (s : string) : string :=
  match s with
  | EmptyString => EmptyString
  | String a s' => String (ascii_lower a) (to_ascii_lowercase s')
  end.

(** ** Prefixes, and [split_whitespace().count()] *)

Definition starts_with (s p : string) : bool := String.prefix p s.

(** Counts maximal runs of characters that are not white space;
    [inside] tells whether the previous character belonged to such a run. *)
Fixpoint count_fields (inside : bool) (s : list ascii) : nat :=
  match s with
  | [] => 0
  | a :: s1 =>
      let here := (if inside then 0 else 1) + count_fields true s1 in
      if ws1 a then count_fields false s1 else
      match s1 with
      | [] => here
      | b :: s2 =>
          if ws2 a b then count_fields false s2 else
          match s2 with
          | [] => here
          | c :: s3 => if ws3 a b c then count_fields false s3 else here
          end
      end
  end.

Definition split_whitespace_count (s : string) : nat := count_fields false (bytes s).

(** ** SQL [LIKE .. ESCAPE '\'] *)

Abbreviation backslash := (Ascii false false true true true false true false).

(** [value.replace(c, d + c)] for a one-character pattern. *)
Fixpoint escape_char (c : ascii) (s : list ascii) : list ascii :=
  match s with
  | [] => []
  | a :: s' =>
      if Ascii.eqb a c then backslash :: a :: escape_char c s'
      else a :: escape_char c s'
  end.

Definition escape_like (value : string) : string :=
  of_bytes (escape_char "_" (escape_char "%" (escape_char backslash (bytes value)))).

Definition like_eq (a b : ascii) : bool := Ascii.eqb (ascii_lower a) (ascii_lower b).

(** The rest of a character after its first byte. *)
Fixpoint drop_cont (s : list ascii) : list ascii :=
  match s with
  | a :: s' => if is_cont a then drop_cont s' else s
  | [] => []
  end.

(** SQLite's [LIKE]: ASCII case-insensitive, [%] matches any run, [_] one
    character, and [\] makes the next pattern byte literal. *)
Fixpoint like (pat s : list ascii) : bool :=
  match pat with
  | [] => match s with [] => true | _ => false end
  | p :: pat1 =>
      if Ascii.eqb p backslash then
        match pat1 with
        | [] => false
        | q :: pat2 =>
            match s with
            | [] => false
            | a :: s' => like_eq q a && like pat2 s'
            end
        end
      else if Ascii.eqb p "%" then
        (fix any (s : list ascii) : bool :=
           like pat1 s || match s with [] => false | _ :: s' => any s' end) s
      else if Ascii.eqb p "_" then
        match s with
        | [] => false
        | _ :: s' => like pat1 (drop_cont s')
        end
      else
        match s with
        | [] => false
        | a :: s' => like_eq p a && like pat1 s'
        end
  end.

Definition sql_like (s pat : string) : bool := like (bytes pat) (bytes s).

(** A NULL operand makes [LIKE] NULL, which a WHERE clause treats as false. *)
Definition sql_like_opt (s : option string) (pat : string) : bool :=
  match s with Some s => sql_like s pat | None => false end.

(** ** Lemmas *)

Definition like_prefix (p s : list ascii) : bool :=
  (length p <=? length s) && forallb (λ '(a, b), like_eq a b) (combine p s).

Lemma any_of_nil (s : list ascii) :
  (fix any (s : list ascii) : bool :=
     like [] s || match s with [] => false | _ :: s' => any s' end) s = true.
Proof. induction s as [|a s IH]; cbn; [done|exact IH]. Qed.

Lemma like_percent (s : list ascii) : like ["%"%char] s = true.
Proof. apply any_of_nil. Qed.

(** Escaping in three passes is escaping every special byte in one. *)
Definition like_special (a : ascii) : bool :=
  Ascii.eqb a backslash || Ascii.eqb a "%" || Ascii.eqb a "_".

Fixpoint escape_all (s : list ascii) : list ascii :=
  match s with
  | [] => []
  | a :: s' => if like_special a then backslash :: a :: escape_all s' else a :: escape_all s'
  end.

Lemma escape_char_fuse (s : list ascii) :
  escape_char "_" (escape_char "%" (escape_char backslash s)) = escape_all s.
Proof.
  induction s as [|a s IH]; cbn; [done|].
  unfold like_special.
  destruct (Ascii.eqb_spec a backslash) as [->|H1]; cbn; [by rewrite IH|].
  destruct (Ascii.eqb_spec a "%") as [->|H2]; cbn; [by rewrite IH|].
  destruct (Ascii.eqb_spec a "_") as [->|H3]; cbn; by rewrite IH.
Qed.

Lemma like_escape_all (p s : list ascii) :
  like (escape_all p ++ ["%"%char]) s = like_prefix p s.
Proof.
  revert s. induction p as [|a p IH]; intros s; [by rewrite like_percent|].
  cbn [escape_all]. unfold like_special.
  destruct (Ascii.eqb_spec a backslash) as [->|H1]; [|
  destruct (Ascii.eqb_spec a "%") as [->|H2]; [|
  destruct (Ascii.eqb_spec a "_") as [->|H3]]].
  1-3: cbn; destruct s as [|b s]; [done|]; rewrite IH; unfold like_prefix; cbn;
       by rewrite !andb_assoc, (andb_comm (like_eq _ b)).
  cbn. rewrite (proj2 (Ascii.eqb_neq a backslash) H1).
  rewrite (proj2 (Ascii.eqb_neq a "%") H2), (proj2 (Ascii.eqb_neq a "_") H3).
  destruct s as [|b s]; [done|]; rewrite IH; unfold like_prefix; cbn.
  by rewrite !andb_assoc, (andb_comm (like_eq _ b)).
Qed.

Lemma bytes_app (s t : string) : bytes (s +:+ t) = bytes s ++ bytes t.
Proof.
  induction s as [|a s IH]; [done|].
  change (a :: bytes (s +:+ t) = a :: bytes s ++ bytes t). by rewrite IH.
Qed.

Lemma bytes_of_bytes (l : list ascii) : bytes (of_bytes l) = l.
Proof. apply String.list_ascii_of_string_of_list_ascii. Qed.

Lemma of_bytes_bytes (s : string) : of_bytes (bytes s) = s.
Proof. apply String.string_of_list_ascii_of_string. Qed.

(** Matching a column against an escaped prefix is an ASCII
    case-insensitive prefix test. *)
Theorem sql_like_escaped_prefix (s p : string) :
  sql_like s (escape_like p +:+ "%") = like_prefix (bytes p) (bytes s).
Proof.
  unfold sql_like, escape_like.
  by rewrite bytes_app, bytes_of_bytes, escape_char_fuse, like_escape_all.
Qed.

(** *** [trim] is idempotent and commutes with lower-casing *)

Definition starts_ws (w2 : ascii → ascii → bool) (w3 : ascii → ascii → ascii → bool)
    (s : list ascii) : bool :=
  match s with
  | [] => false
  | a :: s1 =>
      ws1 a || match s1 with
               | [] => false
               | b :: s2 => w2 a b || match s2 with [] => false | c :: _ => w3 a b c end
               end
  end.

Section trim_with.
  Context (w2 : ascii → ascii → bool) (w3 : ascii → ascii → ascii → bool).

(** Induction that follows the three recursive calls. *)
Lemma trim_with_ind (P : list ascii → Prop) :
  P [] → (∀ a s, P s → (∀ b s', s = b :: s' → P s') →
    (∀ b c s', s = b :: c :: s' → P s') → P (a :: s)) → ∀ s, P s.
Proof.
  intros H0 Hc s.
  enough (P s ∧ (∀ b s', s = b :: s' → P s') ∧ (∀ b c s', s = b :: c :: s' → P s')) by tauto.
  induction s as [|a s (IH1 & IH2 & IH3)]; [done|].
  split; [by apply Hc|]. split; [by intros b s' [= <- <-]|].
  intros b c s' [= <- ->]. by eapply IH2.
Qed.

Lemma trim_with_head s : starts_ws w2 w3 (trim_with w2 w3 s) = false.
Proof.
  induction s as [|a s IH1 IH2 IH3] using trim_with_ind; [done|]. cbn.
  destruct (ws1 a) eqn:E1; [done|].
  destruct s as [|b s]; [cbn; by rewrite E1|].
  destruct (w2 a b) eqn:E2; [by eapply IH2|].
  destruct s as [|c s]; [cbn; by rewrite E1, E2|].
  destruct (w3 a b c) eqn:E3; [by eapply IH3|]. cbn. by rewrite E1, E2, E3.
Qed.

Lemma trim_with_fix s : starts_ws w2 w3 s = false → trim_with w2 w3 s = s.
Proof.
  destruct s as [|a [|b [|c s]]]; cbn; [done|..]; rewrite ?orb_false_iff; [by intros [-> _]|..].
  - by intros (-> & -> & _).
  - by intros (-> & -> & ->).
Qed.

Lemma trim_with_suffix s : ∃ k, s = k ++ trim_with w2 w3 s.
Proof.
  induction s as [|a s IH1 IH2 IH3] using trim_with_ind; [by exists []|]. cbn.
  destruct (ws1 a); [destruct IH1 as [k Hk]; exists (a :: k); cbn; by rewrite <- Hk|].
  destruct s as [|b s]; [by exists []|].
  destruct (w2 a b).
  { destruct (IH2 b s eq_refl) as [k Hk]. exists (a :: b :: k). cbn. by rewrite <- Hk. }
  destruct s as [|c s]; [by exists []|].
  destruct (w3 a b c); [|by exists []].
  destruct (IH3 b c s eq_refl) as [k Hk]. exists (a :: b :: c :: k). cbn. by rewrite <- Hk.
Qed.

Lemma starts_ws_prefix s k : starts_ws w2 w3 (s ++ k) = false → starts_ws w2 w3 s = false.
Proof.
  destruct s as [|a [|b [|c s]]]; cbn; rewrite ?orb_false_iff; [done|..].
  - by intros [-> _].
  - by intros (-> & -> & _).
  - tauto.
Qed.

Lemma trim_with_map (g : ascii → ascii) s :
  (∀ a, ws1 (g a) = ws1 a) → (∀ a b, w2 (g a) (g b) = w2 a b) →
  (∀ a b c, w3 (g a) (g b) (g c) = w3 a b c) →
  trim_with w2 w3 (map g s) = map g (trim_with w2 w3 s).
Proof.
  intros H1 H2 H3. induction s as [|a s IH1 IH2 IH3] using trim_with_ind; [done|]. cbn.
  rewrite H1. destruct (ws1 a); [done|]. destruct s as [|b s]; [done|]. cbn.
  rewrite H2. destruct (w2 a b); [by eapply IH2|]. destruct s as [|c s]; [done|]. cbn.
  rewrite H3. destruct (w3 a b c); [by eapply IH3|done].
Qed.
End trim_with.

Definition trim_bytes (l : list ascii) : list ascii :=
  rev (trim_start_rev (rev (trim_start l))).

Lemma trim_trim_bytes s : trim s = of_bytes (trim_bytes (bytes s)).
Proof. reflexivity. Qed.

Lemma trim_bytes_idem l : trim_bytes (trim_bytes l) = trim_bytes l.
Proof.
  unfold trim_bytes. set (m := trim_start l).
  destruct (trim_with_suffix (λ a b, ws2 b a) (λ a b c, ws3 c b a) (rev m)) as [k Hk].
  fold trim_start_rev in Hk. set (r := trim_start_rev (rev m)) in *.
  assert (m = rev r ++ rev k) as Hm.
  { rewrite <- rev_app_distr, <- Hk. by rewrite rev_involutive. }
  assert (trim_start (rev r) = rev r) as Hs.
  { apply trim_with_fix, (starts_ws_prefix _ _ _ (rev k)). rewrite <- Hm. apply trim_with_head. }
  rewrite Hs, rev_involutive. f_equal. apply trim_with_fix, trim_with_head.
Qed.

Lemma trim_idem s : trim (trim s) = trim s.
Proof. rewrite !trim_trim_bytes, bytes_of_bytes. by rewrite trim_bytes_idem. Qed.

Lemma bytes_lower s : bytes (to_ascii_lowercase s) = map ascii_lower (bytes s).
Proof. induction s as [|a s IH]; [done|]. cbn. f_equal. exact IH. Qed.

Lemma lower_bytes_inj s t : bytes s = bytes t → s = t.
Proof. intros H. by rewrite <- (of_bytes_bytes s), H, of_bytes_bytes. Qed.

Lemma ascii_lower_cases a :
  ascii_lower a = a ∨ (65 ≤ byte_of a ≤ 90 ∧ byte_of (ascii_lower a) = byte_of a + 32).
Proof.
  unfold ascii_lower. destruct ((65 <=? byte_of a) && (byte_of a <=? 90)) eqn:E; [|by left].
  apply andb_true_iff in E as [H1%Nat.leb_le H2%Nat.leb_le]. right. split; [done|].
  rewrite Ascii.nat_ascii_embedding; lia.
Qed.

Lemma lower_eqb a n : 128 ≤ n → (byte_of (ascii_lower a) =? n) = (byte_of a =? n).
Proof.
  intros Hn. destruct (ascii_lower_cases a) as [->|[H E]]; [done|].
  apply eq_true_iff_eq. rewrite !Nat.eqb_eq. lia.
Qed.

Lemma lower_leb a n : 128 ≤ n → (n <=? byte_of (ascii_lower a)) = (n <=? byte_of a).
Proof.
  intros Hn. destruct (ascii_lower_cases a) as [->|[H E]]; [done|].
  apply eq_true_iff_eq. rewrite !Nat.leb_le. lia.
Qed.

Lemma lower_leb_r a n : 128 ≤ n → (byte_of (ascii_lower a) <=? n) = (byte_of a <=? n).
Proof.
  intros Hn. destruct (ascii_lower_cases a) as [->|[H E]]; [done|].
  apply eq_true_iff_eq. rewrite !Nat.leb_le. lia.
Qed.

Lemma ws1_lower a : ws1 (ascii_lower a) = ws1 a.
Proof.
  unfold ws1. destruct (ascii_lower_cases a) as [->|[H ->]]; [done|].
  apply eq_true_iff_eq. rewrite !orb_true_iff, !andb_true_iff, !Nat.leb_le, !Nat.eqb_eq. lia.
Qed.

Lemma ws2_lower a b : ws2 (ascii_lower a) (ascii_lower b) = ws2 a b.
Proof. unfold ws2. by rewrite !lower_eqb by lia. Qed.

Lemma ws3_lower a b c : ws3 (ascii_lower a) (ascii_lower b) (ascii_lower c) = ws3 a b c.
Proof. unfold ws3. cbv zeta. by rewrite !lower_eqb, lower_leb, lower_leb_r by lia. Qed.

Lemma trim_lower s : trim (to_ascii_lowercase s) = to_ascii_lowercase (trim s).
Proof.
  apply lower_bytes_inj. rewrite bytes_lower, !trim_trim_bytes, !bytes_of_bytes, bytes_lower.
  unfold trim_bytes, trim_start, trim_start_rev.
  rewrite trim_with_map by auto using ws1_lower, ws2_lower, ws3_lower.
  rewrite <- map_rev, trim_with_map, <- map_rev; auto using ws1_lower, ws2_lower, ws3_lower.
Qed.

Lemma ascii_lower_idem a : ascii_lower (ascii_lower a) = ascii_lower a.
Proof. destruct a as [[] [] [] [] [] [] [] []]; reflexivity. Qed.

Lemma lower_idem s : to_ascii_lowercase (to_ascii_lowercase s) = to_ascii_lowercase s.
Proof. induction s as [|a s IH]; cbn; [done|]. by rewrite ascii_lower_idem, IH. Qed.
