(* ===== verification/Strings.v ===== *)
(** * Searching and replacing in strings

    [str::contains], [str::replace], [join] and their lemmas, shared by the text
    components.  Patterns are searched byte by byte, which for UTF-8 finds the same
    occurrences as a search by characters. *)

From S2P Require Import Prelude Text.
From stdpp Require Import pretty.
From Stdlib Require Import Ascii.

(** [s.contains(p)]. *)
Fixpoint contains (p s : string) : bool :=
  starts_with s p ||
  match s with
  | EmptyString => false
  | String _ s' => contains p s'
  end.

(** [s.replace(p, r)] for a non-empty [p]; [skip] bytes belong to the last match. *)
Fixpoint replace_go (p r : string) (skip : nat) (s : string) : string :=
  match s with
  | EmptyString => EmptyString
  | String a s' =>
      match skip with
      | S skip' => replace_go p r skip' s'
      | O => if starts_with s p then r +:+ replace_go p r (String.length p - 1) s'
             else String a (replace_go p r 0 s')
      end
  end.

Definition replace (p r s : string) : string := replace_go p r 0 s.

(** [l.join(sep)]. *)
Definition join_with (sep : string) (l : list string) : string := String.concat sep l.

Definition strip_prefix (p s : string) : option string :=
  if starts_with s p then Some (String.substring (String.length p) (String.length s - String.length p) s) else None.

Definition ends_with (s p : string) : bool :=
  starts_with (of_bytes (rev (bytes s))) (of_bytes (rev (bytes p))).

Definition strip_suffix (p s : string) : option string :=
  if ends_with s p then Some (String.substring 0 (String.length s - String.length p) s) else None.

(** [s.trim_start_matches(p)]; [fuel] is the length of [s]. *)
Fixpoint trim_start_matches_go (fuel : nat) (p s : string) : string :=
  match fuel, strip_prefix p s with
  | S fuel', Some rest => trim_start_matches_go fuel' p rest
  | _, _ => s
  end.

Definition trim_start_matches (p s : string) : string := trim_start_matches_go (String.length s) p s.

(** [str::split_once] at a separator. *)
Fixpoint split_once (sep s : string) : option (string * string) :=
  if starts_with s sep then Some ("", String.substring (String.length sep) (String.length s) s)
  else match s with
       | EmptyString => None
       | String a s' => (λ p, (String a p.1, p.2)) <$> split_once sep s'
       end.

(** ** Characters of a string *)

Definition in_string (a : ascii) (s : string) : bool :=
  existsb (Ascii.eqb a) (bytes s).

(** The two strings have no character in common. *)
Definition disjoint_chars (p s : string) : bool :=
  forallb (λ a, negb (in_string a s)) (bytes p).

Lemma starts_with_cons a s b p :
  starts_with (String a s) (String b p) = Ascii.eqb b a && starts_with s p.
Proof.
  unfold starts_with. cbn. destruct (Ascii.ascii_dec b a) as [->|Hne].
  - by rewrite Ascii.eqb_refl.
  - by apply Ascii.eqb_neq in Hne as ->.
Qed.

Lemma starts_with_nil s : starts_with s "" = true.
Proof. by destruct s. Qed.

Lemma in_string_cons a b s : in_string a (String b s) = Ascii.eqb a b || in_string a s.
Proof. done. Qed.

Lemma disjoint_cons a p s :
  disjoint_chars (String a p) s = negb (in_string a s) && disjoint_chars p s.
Proof. done. Qed.

(** A pattern that shares no character with [r] does not start inside [r]. *)
Lemma starts_with_app_disjoint q r s :
  q ≠ "" → r ≠ "" → disjoint_chars q r = true → starts_with (r +:+ s) q = false.
Proof.
  destruct q as [|a q]; [done|]. destruct r as [|b r]; [done|]. intros _ _ H.
  change (String b r +:+ s) with (String b (r +:+ s)). rewrite starts_with_cons.
  rewrite disjoint_cons, in_string_cons in H.
  destruct (Ascii.eqb a b); [done|]. done.
Qed.

Lemma contains_app_disjoint_l q r s :
  q ≠ "" → disjoint_chars q r = true → contains q (r +:+ s) = contains q s.
Proof.
  intros Hq. induction r as [|b r IH]; intros H; [done|].
  change (String b r +:+ s) with (String b (r +:+ s)). cbn [contains].
  change (String b (r +:+ s)) with (String b r +:+ s).
  rewrite (starts_with_app_disjoint q (String b r) s) by done. cbn [orb]. apply IH.
  unfold disjoint_chars in *. rewrite forallb_forall in *. intros a Ha.
  specialize (H a Ha). rewrite in_string_cons in H. by destruct (Ascii.eqb a b).
Qed.

(** A pattern that shares no character with the suffix [r] lies in the part before. *)
Lemma starts_with_app_r q s r :
  disjoint_chars q r = true → starts_with (s +:+ r) q = true → starts_with s q = true.
Proof.
  revert s. induction q as [|a q IH]; intros s Hd H; [apply starts_with_nil|].
  destruct s as [|b s].
  - exfalso. destruct r as [|c r]; [done|].
    change ("" +:+ String c r) with (String c r) in H. rewrite starts_with_cons in H.
    rewrite disjoint_cons, in_string_cons in Hd. by destruct (Ascii.eqb a c).
  - change (String b s +:+ r) with (String b (s +:+ r)) in H.
    rewrite starts_with_cons in *. rewrite disjoint_cons in Hd.
    apply andb_true_iff in H as [-> H], Hd as [_ Hd]. by apply IH.
Qed.

Lemma contains_app_disjoint_r q s r :
  disjoint_chars q r = true → contains q (s +:+ r) = true → contains q s = true.
Proof.
  intros Hd. induction s as [|b s IH]; intros H.
  - destruct q as [|a q]; [done|]. exfalso.
    change ("" +:+ r) with r in H. clear -Hd H. induction r as [|c r IHr]; [done|].
    cbn [contains] in H. apply orb_true_iff in H as [H|H].
    + rewrite starts_with_cons in H. rewrite disjoint_cons, in_string_cons in Hd.
      by destruct (Ascii.eqb a c).
    + apply IHr; [|done]. unfold disjoint_chars in *. rewrite forallb_forall in *.
      intros x Hx. specialize (Hd x Hx). rewrite in_string_cons in Hd.
      by destruct (Ascii.eqb x c).
  - change (String b s +:+ r) with (String b (s +:+ r)) in H. cbn [contains] in *.
    apply orb_true_iff in H as [H|H]; apply orb_true_iff; [left|right; auto].
    change (String b (s +:+ r)) with (String b s +:+ r) in H. by eapply starts_with_app_r.
Qed.

(** ** [replace] removes its pattern and makes no other *)

Section replace.
  Context (p r : string).
  Hypothesis r_some : r ≠ "".

Lemma replace_starts q s :
  disjoint_chars q r = true → starts_with (replace_go p r 0 s) q = true →
  starts_with s q = true.
Proof.
  revert q. induction s as [|a s IH]; intros q Hd H; [done|].
  destruct q as [|b q]; [apply starts_with_nil|]. cbn [replace_go] in H.
  destruct (starts_with (String a s) p).
  - by rewrite starts_with_app_disjoint in H.
  - rewrite starts_with_cons in *. rewrite disjoint_cons in Hd.
    apply andb_true_iff in H as [-> H], Hd as [_ Hd]. by apply IH.
Qed.

(** Replacing makes no occurrence of a pattern that avoids [r]. *)
Lemma replace_contains q k s :
  q ≠ "" → disjoint_chars q r = true → contains q (replace_go p r k s) = true →
  contains q s = true.
Proof.
  intros Hq Hd. revert k. induction s as [|a s IH]; intros k H; [done|].
  cbn [replace_go] in H. cbn [contains]. apply orb_true_iff.
  destruct k as [|k]; [|by right; eauto].
  destruct (starts_with (String a s) p) eqn:E.
  - rewrite contains_app_disjoint_l in H by done. right. eauto.
  - cbn [contains] in H. apply orb_true_iff in H as [H|H]; [left|right; eauto].
    apply replace_starts; [done|]. cbn [replace_go]. by rewrite E.
Qed.

(** Replacing leaves no occurrence of the pattern itself. *)
Lemma replace_removes k s :
  p ≠ "" → disjoint_chars p r = true → contains p (replace_go p r k s) = false.
Proof.
  intros Hp Hd. revert k. induction s as [|a s IH]; intros k.
  - cbn. by destruct p.
  - cbn [replace_go]. destruct k as [|k]; [|done].
    destruct (starts_with (String a s) p) eqn:E.
    + by rewrite contains_app_disjoint_l.
    + cbn [contains]. rewrite IH, orb_false_r. apply not_true_iff_false. intros H.
      assert (H2 : starts_with (replace_go p r 0 (String a s)) p = true)
        by (cbn [replace_go]; by rewrite E).
      apply replace_starts in H2; [congruence|done].
Qed.
End replace.

(** A prefix by characters contains what the whole contains, at most. *)
Lemma take_chars_starts q n s : starts_with (take_chars n s) q = true → starts_with s q = true.
Proof.
  revert n q. induction s as [|a s IH]; intros n q H; [done|].
  destruct q as [|b q]; [apply starts_with_nil|]. cbn [take_chars] in H.
  destruct (is_cont a); [|destruct n; [done|]]; rewrite starts_with_cons in *;
    apply andb_true_iff in H as [-> H]; by eapply IH.
Qed.

Lemma take_chars_contains q n s : q ≠ "" → contains q (take_chars n s) = true → contains q s = true.
Proof.
  intros Hq. revert n. induction s as [|a s IH]; intros n H; [done|].
  assert (Hs : starts_with (take_chars n (String a s)) q = true → starts_with (String a s) q = true)
    by apply take_chars_starts.
  cbn [take_chars] in *. cbn [contains]. apply orb_true_iff.
  destruct (is_cont a); [|destruct n; [by destruct q|]];
    cbn [contains] in H; apply orb_true_iff in H as [H|H]; eauto.
Qed.

(** A string between double quotes, as JSON text has it. *)
Definition dquoted (s : string) : string :=
  String (ascii_of_nat 34) (s +:+ String (ascii_of_nat 34) "").

Definition newline : string := String (ascii_of_nat 10) "".

(** ** Truncation at a character boundary *)

(** [s.is_char_boundary(n)]. *)
Definition is_char_boundary (s : string) (n : nat) : bool :=
  (n =? 0) || (n =? String.length s) ||
  match String.get n s with Some a => negb (is_cont a) | None => false end.

(** [while !value.is_char_boundary(boundary) { boundary -= 1 }]. *)
Fixpoint boundary_below (s : string) (n : nat) : nat :=
  if is_char_boundary s n then n
  else match n with O => O | S n' => boundary_below s n' end.

Lemma boundary_below_spec s n :
  boundary_below s n ≤ n ∧ is_char_boundary s (boundary_below s n) = true ∧
  ∀ m, m ≤ n → is_char_boundary s m = true → m ≤ boundary_below s n.
Proof.
  induction n as [|n (IH1 & IH2 & IH3)]; [done|]. cbn [boundary_below].
  destruct (is_char_boundary s (S n)) eqn:E; split_and!; try lia; [done|done|].
  intros m Hm Hb. destruct (decide (m = S n)) as [->|]; [congruence|]. apply IH3; [lia|done].
Qed.

Lemma string_length_app (a b : string) : String.length (a +:+ b) = String.length a + String.length b.
Proof. induction a as [|x a IH]; [done|]. exact (f_equal S IH). Qed.

Lemma string_app_nil_r s : s +:+ "" = s.
Proof. induction s as [|a s IH]; [done|]. change (String a (s +:+ "") = String a s). by rewrite IH. Qed.

Lemma substring_prefix n s : n ≤ String.length s →
  ∃ rest, s = String.substring 0 n s +:+ rest ∧ String.length (String.substring 0 n s) = n.
Proof.
  revert s. induction n as [|n IH]; intros s Hn; [by exists s; destruct s|].
  destruct s as [|a s]; cbn in *; [lia|]. destruct (IH s) as (rest & Hs & Hl); [lia|].
  exists rest. rewrite Hl. split; [|done]. rewrite Hs at 1. done.
Qed.

Lemma substring_full s : String.substring 0 (String.length s) s = s.
Proof. induction s as [|a s IH]; cbn; congruence. Qed.

Lemma chars_count_app a b : chars_count (a +:+ b) = chars_count a + chars_count b.
Proof.
  induction a as [|c a IH]; [done|]. change (String c a +:+ b) with (String c (a +:+ b)).
  cbn [chars_count]. rewrite IH. lia.
Qed.

Lemma string_app_assoc a b c : a +:+ b +:+ c = (a +:+ b) +:+ c.
Proof. induction a as [|x a IH]; [done|]. exact (f_equal (String x) IH). Qed.

(** ** Numbers in texts *)

Definition digits (s : string) : Prop := Forall (λ a, a ∈ bytes "0123456789") (bytes s).

Lemma pretty_go_digits n s : digits s → digits (pretty_N_go n s).
Proof.
  revert s. induction (N.lt_wf_0 n) as [n _ IH]; intros s Hs. destruct (decide (0 < n)%N) as [Hn|Hn].
  - rewrite pretty_N_go_step by done. apply IH; [by apply N.div_lt|]. constructor; [|done].
    assert (n `mod` 10 < 10)%N as Hm by by apply N.mod_lt. revert Hm. generalize (n `mod` 10)%N. clear.
    intros m Hm. unfold pretty_N_char. repeat case_match; cbn; set_solver.
  - assert (n = 0)%N as -> by lia. by rewrite pretty_N_go_0.
Qed.

Lemma pretty_N_digits (n : N) : digits (pretty n).
Proof.
  unfold pretty, pretty_N. destruct (decide _); [|apply pretty_go_digits; constructor].
  constructor; [cbn; set_solver|constructor].
Qed.

Lemma pretty_digits (n : nat) : digits (pretty n).
Proof. apply pretty_N_digits. Qed.

Lemma pretty_nonempty (n : N) : pretty n ≠ "".
Proof.
  unfold pretty, pretty_N. destruct (decide (n = 0%N)) as [->|Hn]; [done|].
  assert (H : ∀ m s, s ≠ "" → pretty_N_go m s ≠ "").
  { intros m. induction (N.lt_wf_0 m) as [m _ IH]; intros s Hs. destruct (decide (0 < m)%N).
    - rewrite pretty_N_go_step by done. apply IH; [by apply N.div_lt|done].
    - by assert (m = 0)%N as -> by lia. }
  rewrite pretty_N_go_step by lia. by apply H.
Qed.

Lemma bytes_length s : length (bytes s) = String.length s.
Proof. induction s as [|a s IH]; cbn; [done|]. by f_equal. Qed.
