(* ===== verification/Messages.v ===== *)
(** * Messages

    src/domain.rs: the roles and messages exchanged with a chat provider. *)

From S2P Require Import Prelude Text.
From Stdlib Require Import Ascii.

Inductive MessageRole : Type := User | Assistant | System.

#[export] Instance MessageRole_eq_dec : EqDecision MessageRole.
Proof. solve_decision. Defined.

Definition role_as_str (r : MessageRole) : string :=
  match r with User => "user" | Assistant => "assistant" | System => "system" end.

(** Unknown texts are read as a user's. *)
Definition role_from_db (value : string) : MessageRole :=
  if String.eqb value "assistant" then Assistant
  else if String.eqb value "system" then System
  else User.

Record StoredMessage : Type := {
  role : MessageRole;
  content : string
}.

#[export] Instance StoredMessage_eq_dec : EqDecision StoredMessage.
Proof. solve_decision. Defined.

(** * JSON in free text

    src/json_utils.rs: the first bracketed segment of a model's answer that parses as
    JSON.  Parsing is external; the scanner that finds the end of a segment is
    compared with a grammar of bracketed text. *)

#[local] Open Scope list_scope.

Definition quote_char : ascii := Ascii.ascii_of_nat 34.
Definition escape_mark : ascii := Ascii.ascii_of_nat 92.
Definition open_curly : ascii := "{"%char.
Definition close_curly : ascii := "}"%char.
Definition open_square : ascii := "["%char.
Definition close_square : ascii := "]"%char.

(** The loop of [find_json_segment_end]; the characters it looks at are ASCII, so it
    runs on bytes.  [stack] is the stack of open brackets. *)
Fixpoint segment_end (stack : list ascii) (in_str escaped : bool) (offset : nat)
    (input : list ascii) : option nat :=
  match input with
  | [] => None
  | ch :: input' =>
      let continue := segment_end in
      if in_str then
        if escaped then continue stack true false (S offset) input'
        else if Ascii.eqb ch escape_mark then continue stack true true (S offset) input'
        else if Ascii.eqb ch quote_char then continue stack false false (S offset) input'
        else continue stack true false (S offset) input'
      else if Ascii.eqb ch quote_char then continue stack true escaped (S offset) input'
      else if Ascii.eqb ch open_curly || Ascii.eqb ch open_square then
        continue (ch :: stack) false escaped (S offset) input'
      else if Ascii.eqb ch close_curly || Ascii.eqb ch close_square then
        let expected := if Ascii.eqb ch close_curly then open_curly else open_square in
        match stack with
        | top :: stack' =>
            if Ascii.eqb top expected then
              match stack' with
              | [] => Some (S offset)
              | _ => continue stack' false escaped (S offset) input'
              end
            else None
        | [] => None
        end
      else continue stack false escaped (S offset) input'
  end.

Definition find_json_segment_end (input : list ascii) : option nat :=
  segment_end [] false false 0 input.

Section parser.
  (** [serde_json::from_str::<Value>(s).is_ok()]. *)
  Context (is_json : list ascii → bool).

(** The loop over the start positions. *)
Fixpoint first_segment (text : list ascii) : option (list ascii) :=
  match text with
  | [] => None
  | ch :: text' =>
      if Ascii.eqb ch open_curly || Ascii.eqb ch open_square then
        match find_json_segment_end text with
        | Some end_offset =>
            let candidate := trim_bytes (firstn end_offset text) in
            if is_json candidate then Some candidate else first_segment text'
        | None => first_segment text'
        end
      else first_segment text'
  end.

Definition extract_json_payload (text : list ascii) : option (list ascii) :=
  let trimmed := trim_bytes text in
  match trimmed with
  | [] => None
  | _ => if is_json trimmed then Some trimmed else first_segment trimmed
  end.
End parser.

(** ** The grammar of bracketed text *)

Definition special (c : ascii) : bool :=
  existsb (Ascii.eqb c) [quote_char; open_curly; close_curly; open_square; close_square].

Definition closes (o c : ascii) : Prop :=
  (o = open_curly ∧ c = close_curly) ∨ (o = open_square ∧ c = close_square).

(** The rest of a string literal, its closing quote included. *)
Inductive literal : bool → list ascii → Prop :=
| lit_end : literal false [quote_char]
| lit_escaped c q : literal false q → literal true (c :: q)
| lit_escape q : literal true q → literal false (escape_mark :: q)
| lit_char c q : c ≠ quote_char → c ≠ escape_mark → literal false q → literal false (c :: q).

Inductive body : list ascii → Prop :=
| body_nil : body []
| body_char c l : special c = false → body l → body (c :: l)
| body_literal q l : literal false q → body l → body (quote_char :: q ++ l)
| body_nest o c l1 l2 : closes o c → body l1 → body l2 → body (o :: l1 ++ c :: l2).

(** A bracketed segment. *)
Inductive segment : list ascii → Prop :=
| segment_intro o c l : closes o c → body l → segment (o :: l ++ [c]).

(** The text that closes the open brackets of a stack, innermost first. *)
Inductive closing : list ascii → list ascii → Prop :=
| closing_last o c l : closes o c → body l → closing [o] (l ++ [c])
| closing_more o c st l p : closes o c → body l → closing st p →
    closing (o :: st) (l ++ c :: p).

(** ** The scanner is exact *)

Ltac ascii_case := repeat match goal with
  | |- context [Ascii.eqb ?a ?b] => destruct (Ascii.eqb_spec a b); [subst|]
  | H : context [Ascii.eqb ?a ?b] |- _ => destruct (Ascii.eqb_spec a b); [subst|]
  end.

Lemma scan_literal esc q stack off rest :
  literal esc q →
  segment_end stack true esc off (q ++ rest) = segment_end stack false false (off + length q) rest.
Proof.
  intros H. revert off. induction H as [|c q _ IH|q _ IH|c q H1 H2 _ IH]; intros off; cbn.
  - by rewrite Nat.add_1_r.
  - rewrite IH. f_equal. lia.
  - rewrite IH. f_equal. lia.
  - apply Ascii.eqb_neq in H1, H2. rewrite H1, H2, IH. f_equal. lia.
Qed.

Lemma scan_open o stack off rest : (∃ c, closes o c) →
  segment_end stack false false off (o :: rest) = segment_end (o :: stack) false false (S off) rest.
Proof. by intros [c [[-> ->]|[-> ->]]]. Qed.

Lemma scan_close o c stack off rest : closes o c →
  segment_end (o :: stack) false false off (c :: rest) =
  match stack with [] => Some (S off) | _ => segment_end stack false false (S off) rest end.
Proof. by intros [[-> ->]|[-> ->]]. Qed.

Lemma scan_char c stack off rest : special c = false →
  segment_end stack false false off (c :: rest) = segment_end stack false false (S off) rest.
Proof.
  unfold special. cbn [existsb segment_end]. rewrite !orb_false_iff.
  intros (-> & -> & -> & -> & -> & _). done.
Qed.

Lemma scan_body l stack off rest :
  body l → stack ≠ [] →
  segment_end stack false false off (l ++ rest) = segment_end stack false false (off + length l) rest.
Proof.
  intros H. revert stack off rest.
  induction H as [|c l Hc _ IH|q l Hq _ IH|o c l1 l2 Hc _ IH1 _ IH2]; intros stack off rest Hst.
  - by rewrite Nat.add_0_r.
  - cbn [app]. rewrite scan_char, IH by done. f_equal. cbn. lia.
  - cbn [app]. rewrite <- app_assoc. cbn [segment_end]. cbn [Ascii.eqb quote_char].
    change (Ascii.eqb quote_char quote_char) with true. cbv iota.
    rewrite scan_literal, IH by done. f_equal. cbn. rewrite length_app. lia.
  - cbn [app]. rewrite <- app_assoc. rewrite scan_open by eauto.
    rewrite IH1 by done. cbn [app]. rewrite scan_close by done.
    destruct stack as [|s0 stack]; [done|]. rewrite IH2 by done.
    f_equal. cbn. rewrite length_app. cbn. lia.
Qed.

Lemma find_segment p rest : segment p → find_json_segment_end (p ++ rest) = Some (length p).
Proof.
  intros [o c l Hc Hl]. unfold find_json_segment_end. cbn [app].
  rewrite scan_open by eauto. rewrite <- app_assoc, scan_body by done. cbn [app].
  rewrite scan_close by done. cbn. by rewrite length_app, Nat.add_1_r.
Qed.

Lemma closing_char c st p : special c = false → closing st p → closing st (c :: p).
Proof.
  intros Hc [o c' l Ho Hl|o c' st' l p' Ho Hl Hp].
  - change (c :: l ++ [c']) with ((c :: l) ++ [c']). constructor; [done|by constructor].
  - change (c :: l ++ c' :: p') with ((c :: l) ++ c' :: p'). constructor; [done|by constructor|done].
Qed.

Lemma closing_literal q st p :
  literal false q → closing st p → closing st (quote_char :: q ++ p).
Proof.
  intros Hq [o c' l Ho Hl|o c' st' l p' Ho Hl Hp].
  - rewrite app_assoc, app_comm_cons. constructor; [done|by constructor].
  - rewrite app_assoc, app_comm_cons. constructor; [done|by constructor|done].
Qed.

Lemma closing_open o o' st p : closing (o :: o' :: st) p → closing (o' :: st) (o :: p).
Proof.
  intros H. inversion H as [|? c ? l p' Hc Hl Hp]; subst.
  inversion Hp as [? c' l' Hc' Hl'|? c' ? l' p'' Hc' Hl' Hp']; subst.
  - replace (o :: l ++ c :: l' ++ [c']) with ((o :: l ++ c :: l') ++ [c'])
      by (cbn; by rewrite <- app_assoc).
    constructor; [done|by constructor].
  - replace (o :: l ++ c :: l' ++ c' :: p'') with ((o :: l ++ c :: l') ++ c' :: p'')
      by (cbn; by rewrite <- app_assoc).
    constructor; [done|by constructor|done].
Qed.

(** What is found closes the stack; inside a literal, after the rest of it. *)
Definition found (stack : list ascii) (in_str escaped : bool) (off n : nat) (s : list ascii) : Prop :=
  if in_str then
    ∃ q p rest, s = q ++ p ++ rest ∧ literal escaped q ∧ closing stack p ∧
                n = off + length q + length p
  else ∃ p rest, s = p ++ rest ∧ closing stack p ∧ n = off + length p.

Lemma scan_found s stack in_str escaped off n :
  stack ≠ [] → (in_str = false → escaped = false) →
  segment_end stack in_str escaped off s = Some n → found stack in_str escaped off n s.
Proof.
  revert stack in_str escaped off.
  induction s as [|c s IH]; intros stack in_str escaped off Hst He H; [done|].
  cbn [segment_end] in H. destruct in_str.
  - (* inside a literal *)
    unfold found. destruct escaped;
      [|destruct (Ascii.eqb_spec c escape_mark) as [->|N1];
        [|destruct (Ascii.eqb_spec c quote_char) as [->|N2]]];
      apply IH in H; try done.
    + destruct H as (q & p & rest & -> & Hq & Hp & ->).
      exists (c :: q), p, rest. split_and!; [done|by constructor|done|cbn; lia].
    + destruct H as (q & p & rest & -> & Hq & Hp & ->).
      exists (escape_mark :: q), p, rest. split_and!; [done|by constructor|done|cbn; lia].
    + destruct H as (p & rest & -> & Hp & ->).
      exists [quote_char], p, rest. split_and!; [done|constructor|done|cbn; lia].
    + destruct H as (q & p & rest & -> & Hq & Hp & ->).
      exists (c :: q), p, rest. split_and!; [done|by constructor|done|cbn; lia].
  - rewrite He in * by done. unfold found.
    destruct (Ascii.eqb_spec c quote_char) as [->|N1].
    { apply IH in H as (q & p & rest & -> & Hq & Hp & ->); [|done..].
      exists (quote_char :: q ++ p), rest. split_and!.
      - cbn. by rewrite <- app_assoc.
      - by apply closing_literal.
      - cbn. rewrite length_app. lia. }
    destruct (Ascii.eqb c open_curly || Ascii.eqb c open_square) eqn:Eo.
    { apply IH in H as (p & rest & -> & Hp & ->); [|done..].
      destruct stack as [|o stack]; [done|].
      exists (c :: p), rest. split_and!; [done|by apply closing_open|cbn; lia]. }
    destruct (Ascii.eqb c close_curly || Ascii.eqb c close_square) eqn:Ec.
    { destruct stack as [|o stack]; [done|].
      destruct (Ascii.eqb_spec o (if Ascii.eqb c close_curly then open_curly else open_square))
        as [Eq|]; [|done].
      assert (Ho : closes o c).
      { subst o. apply orb_true_iff in Ec as [E|E]; apply Ascii.eqb_eq in E as ->; cbn;
          [by left|by right]. }
      destruct stack as [|o' stack].
      - injection H as <-. exists [c], s. split_and!; [done| |cbn; lia].
        change [c] with ([] ++ [c]). constructor; [done|constructor].
      - apply IH in H as (p & rest & -> & Hp & ->); [|done..].
        exists (c :: p), rest. split_and!; [done| |cbn; lia].
        change (c :: p) with ([] ++ c :: p). constructor; [done|constructor|done]. }
    apply IH in H as (p & rest & -> & Hp & ->); [|done..].
    exists (c :: p), rest. split_and!; [done| |cbn; lia].
    apply closing_char; [|done]. unfold special. cbn [existsb].
    apply Ascii.eqb_neq in N1. rewrite N1.
    apply orb_false_iff in Eo as [-> ->], Ec as [-> ->]. done.
Qed.

(** The scanner is exact: from an opening bracket, [find_json_segment_end] returns
    [n] exactly when the first [n] bytes are a bracketed segment of the grammar, in which
    brackets match and those inside string literals do not count. *)
Lemma find_json_segment_end_exact o text n :
  o = open_curly ∨ o = open_square →
  find_json_segment_end (o :: text) = Some n ↔
  ∃ p rest, o :: text = p ++ rest ∧ segment p ∧ n = length p.
Proof.
  intros Ho. split.
  - intros H. unfold find_json_segment_end in H.
    rewrite scan_open in H by (destruct Ho as [->| ->]; [exists close_curly; by left
                                                       |exists close_square; by right]).
    apply scan_found in H as (p & rest & -> & Hp & ->); [|done..].
    inversion Hp as [? c l Hc Hl|? ? ? ? ? ? ? Hp']; subst; [|inversion Hp'].
    exists (o :: l ++ [c]), rest. split_and!; [done|by constructor|done].
  - intros (p & rest & -> & Hp & ->). by apply find_segment.
Qed.

Lemma segment_opens p : segment p → ∃ o l, p = o :: l ∧ (o = open_curly ∨ o = open_square).
Proof. intros [o c l [[-> _]|[-> _]] _]; eauto. Qed.

Lemma segment_prefix_unique p p' rest rest' :
  segment p → segment p' → p ++ rest = p' ++ rest' → p = p' ∧ rest = rest'.
Proof.
  intros H H' E. pose proof (find_segment p rest H) as F. rewrite E, find_segment in F by done.
  injection F as F. by apply app_inj_1.
Qed.

Section extract.
  Context (is_json : list ascii → bool).

(** [r] is the first bracketed segment of [t] that parses, trimmed. *)
Definition first_parsing (t : list ascii) (r : option (list ascii)) : Prop :=
  match r with
  | Some payload =>
      is_json payload = true ∧
      ∃ pre p post, t = pre ++ p ++ post ∧ segment p ∧ payload = trim_bytes p ∧
        ∀ pre' p' post', t = pre' ++ p' ++ post' → segment p' →
          length pre' < length pre → is_json (trim_bytes p') = false
  | None => ∀ pre p post, t = pre ++ p ++ post → segment p → is_json (trim_bytes p) = false
  end.

Lemma first_parsing_skip c t r :
  (∀ p post, c :: t = p ++ post → segment p → is_json (trim_bytes p) = false) →
  first_parsing t r → first_parsing (c :: t) r.
Proof.
  intros Hhere. destruct r as [payload|]; cbn.
  - intros [Hok (pre & p & post & -> & Hp & -> & Hmin)]. split; [done|].
    exists (c :: pre), p, post. split_and!; [done..|].
    intros [|c' pre'] p' post' E Hp' Hlt; [by eapply Hhere|].
    injection E as -> E. eapply Hmin; [exact E|done|]. cbn in Hlt. lia.
  - intros Hno [|c' pre] p post E Hp; [by eapply Hhere|]. injection E as -> E. by eapply Hno.
Qed.

Lemma first_segment_spec t : first_parsing t (first_segment is_json t).
Proof.
  induction t as [|c t IH].
  { intros pre p post E Hp. apply segment_opens in Hp as (o & l & -> & _). by destruct pre. }
  cbn [first_segment]. destruct (Ascii.eqb c open_curly || Ascii.eqb c open_square) eqn:Eo; cycle 1.
  { apply first_parsing_skip; [|done]. intros p post E Hp.
    apply segment_opens in Hp as (o & l & -> & Ho).
    injection E as -> _. apply orb_false_iff in Eo as [E1 E2].
    apply Ascii.eqb_neq in E1, E2. by destruct Ho. }
  assert (Ho : c = open_curly ∨ c = open_square).
  { apply orb_true_iff in Eo as [E|E]; apply Ascii.eqb_eq in E; auto. }
  destruct (find_json_segment_end (c :: t)) as [n|] eqn:En.
  - apply find_json_segment_end_exact in En as (p & rest & E & Hp & ->); [|done].
    rewrite E, take_app_length. destruct (is_json (trim_bytes p)) eqn:Epj.
    + split; [done|]. exists [], p, rest. split_and!; [done..|].
      intros pre' p' post' _ _ Hlt. cbn in Hlt. lia.
    + rewrite <- E. apply first_parsing_skip; [|done]. intros p' post' E' Hp'. rewrite E in E'.
      apply segment_prefix_unique in E' as [<- _]; done.
  - apply first_parsing_skip; [|done]. intros p post E Hp.
    by rewrite E, find_segment in En.
Qed.

(** [extract_json_payload] returns the trimmed text itself when it parses, and
    otherwise the first bracketed segment that parses, where brackets match and those
    inside string literals do not count; it gives up only when there is none. *)
Theorem extract_json_payload_exact text :
  match extract_json_payload is_json text with
  | Some payload =>
      is_json payload = true ∧
      (payload = trim_bytes text ∨
       is_json (trim_bytes text) = false ∧ first_parsing (trim_bytes text) (Some payload))
  | None => trim_bytes text = [] ∨
      is_json (trim_bytes text) = false ∧ first_parsing (trim_bytes text) None
  end.
Proof.
  unfold extract_json_payload. cbv zeta. destruct (trim_bytes text) as [|a t]; [by left|].
  destruct (is_json (a :: t)) eqn:Ej; [split; [done|by left]|].
  pose proof (first_segment_spec (a :: t)) as H.
  destruct (first_segment is_json (a :: t)) as [payload|]; [|by right].
  split; [apply H|by right].
Qed.
End extract.
