(* ===== verification/Compactor.v ===== *)
(** * Context compaction

    src/harness/compactor.rs: a long message history is shortened by replacing its
    middle or its oldest part with one system message that holds a summary.  The
    summary comes from a chat provider, which is a function of the request here; a
    strategy calls it at most once. *)

From S2P Require Import Prelude Text Strings Messages.
From stdpp Require Import pretty.

Inductive CompactionStrategy : Type :=
| HeadTail (head_count tail_count : nat)
| AgeBased (max_age_days : nat)
| BudgetBased (max_tokens : nat).

Record CompactionMessageMetadata : Type := {
  md_source_id : option Z;
  md_created_at : option Z
}.

Record CompactionRequest : Type := {
  cr_messages : list StoredMessage;
  cr_strategy : CompactionStrategy;
  cr_metadata : list CompactionMessageMetadata;
  cr_now_unix : option Z;
  cr_min_recent_messages : nat
}.

Definition compaction_request (messages : list StoredMessage) (strategy : CompactionStrategy)
    : CompactionRequest :=
  {| cr_messages := messages; cr_strategy := strategy; cr_metadata := [];
     cr_now_unix := None; cr_min_recent_messages := 0 |}.

Record CompactionResult : Type := {
  compacted_messages : list StoredMessage;
  tokens_saved : nat;
  summary : string
}.

Definition unchanged (messages : list StoredMessage) : CompactionResult :=
  {| compacted_messages := messages; tokens_saved := 0; summary := "" |}.

Definition estimate_message_tokens (msg : StoredMessage) : nat :=
  Nat.max ((chars_count (content msg) + 3) / 4) 1 + 4.

Definition estimate_messages_tokens (messages : list StoredMessage) : nat :=
  list_sum (estimate_message_tokens <$> messages).

(** [i64::saturating_mul] and [i64::saturating_sub]. *)
Definition saturate (z : Z) : Z := Z.max (- 2 ^ 63) (Z.min (2 ^ 63 - 1) z).

Fixpoint take_while {A} (p : A → bool) (l : list A) : list A :=
  match l with
  | [] => []
  | x :: l' => if p x then x :: take_while p l' else []
  end.

Definition age_based_compact_count (message_count : nat)
    (metadata : list CompactionMessageMetadata) (max_age_days : nat) (now_unix : Z)
    (min_recent_messages : nat) : nat :=
  let retained_tail := Nat.max 6 min_recent_messages in
  if (message_count <=? retained_tail) || negb (length metadata =? message_count) then 0
  else
    let max_age_secs := saturate (Z.of_nat max_age_days * 86400) in
    let cutoff := saturate (now_unix - max_age_secs) in
    let stale_prefix := length (take_while (λ meta,
      match md_created_at meta with Some t => (t <? cutoff)%Z | None => false end) metadata) in
    Nat.min stale_prefix (message_count - retained_tail).

Definition summary_markers : list string :=
  ["MCP_TOOL_RESULT_JSON"; "MCP_TOOL_VERIFICATION_FAILED_JSON"; "CODE_MODE_TOOL_RESULT_JSON"].

Definition sanitize_summary (s : string) : string :=
  let s := trim s in
  let s := if String.eqb s "" then "Summary unavailable." else s in
  let s := fold_left (λ s marker, replace marker "[tool-json]" s) summary_markers s in
  if 4000 <? chars_count s then take_chars 4000 s +:+ "...(truncated)" else s.

(** [head], one system message, [tail]; common to the three strategies. *)
Definition splice (messages : list StoredMessage) (head_count tail_count : nat) (note : string)
    : list StoredMessage :=
  firstn head_count messages ++ [{| role := System; content := note |}] ++
  skipn (length messages - tail_count) messages.

Definition with_savings (messages compacted : list StoredMessage) (s : string)
    : CompactionResult :=
  {| compacted_messages := compacted;
     tokens_saved := estimate_messages_tokens messages - estimate_messages_tokens compacted;
     summary := s |}.

Definition compact_head_tail_with_summary (messages : list StoredMessage)
    (head_count tail_count : nat) (s : string) : CompactionResult :=
  if length messages <=? head_count + tail_count then unchanged messages
  else
    let middle_len := length messages - head_count - tail_count in
    let middle_summary := sanitize_summary s in
    with_savings messages
      (splice messages head_count tail_count
         ("[Earlier " +:+ pretty middle_len +:+ " messages summarized: " +:+
          middle_summary +:+ "]")) middle_summary.

Definition budget_tail (messages : list StoredMessage) (min_recent_messages : nat) : nat :=
  Nat.min (length messages - 1) (Nat.max 6 min_recent_messages).

Definition compact_budget_based_with_summary (messages : list StoredMessage)
    (max_tokens min_recent_messages : nat) (s : string) : CompactionResult :=
  if (estimate_messages_tokens messages <=? max_tokens) || (length messages <=? 3) then
    unchanged messages
  else
    let tail_count := budget_tail messages min_recent_messages in
    if length messages <=? 1 + tail_count then unchanged messages
    else
      let middle_len := length messages - 1 - tail_count in
      let s := sanitize_summary s in
      with_savings messages
        (splice messages 1 tail_count
           ("[Budget compacted " +:+ pretty middle_len +:+ " earlier messages: " +:+ s +:+ "]")) s.

Definition compact_age_based_with_summary (messages : list StoredMessage)
    (metadata : list CompactionMessageMetadata) (max_age_days : nat) (now_unix : Z)
    (min_recent_messages : nat) (s : string) : CompactionResult :=
  let compact_count := age_based_compact_count (length messages) metadata max_age_days now_unix
                         min_recent_messages in
  if compact_count =? 0 then unchanged messages
  else
    let s := sanitize_summary s in
    with_savings messages
      (splice messages 0 (length messages - compact_count)
         ("[Age compacted " +:+ pretty compact_count +:+ " messages older than " +:+
          pretty max_age_days +:+ " days: " +:+ s +:+ "]")) s.

Section compactor.
  (** [ChatProvider::complete], and the clock. *)
  Context (complete : list StoredMessage → res string) (unix_ts : Z).

Definition summarize (messages : list StoredMessage) : res string :=
  match messages with
  | [] => Ok ""
  | _ =>
      let conversation := join_with newline
        ((λ m, role_as_str (role m) +:+ ": " +:+ content m) <$> messages) in
      complete [{| role := User;
                   content := "Summarize the following conversation in 2-3 sentences:" +:+
                              newline +:+ conversation |}]
  end.

(** [messages[from..to]]. *)
Definition slice (from to : nat) (messages : list StoredMessage) : list StoredMessage :=
  skipn from (firstn to messages).

Definition compact_head_tail (messages : list StoredMessage) (head_count tail_count : nat)
    : res CompactionResult :=
  if length messages <=? head_count + tail_count then Ok (unchanged messages)
  else
    middle_summary ← summarize (slice head_count (length messages - tail_count) messages);
    Ok (compact_head_tail_with_summary messages head_count tail_count middle_summary).

Definition compact_budget_based (messages : list StoredMessage)
    (max_tokens min_recent_messages : nat) : res CompactionResult :=
  if (estimate_messages_tokens messages <=? max_tokens) || (length messages <=? 3) then
    Ok (unchanged messages)
  else
    let tail_count := budget_tail messages min_recent_messages in
    if length messages <=? 1 + tail_count then Ok (unchanged messages)
    else
      s ← summarize (slice 1 (length messages - tail_count) messages);
      Ok (compact_budget_based_with_summary messages max_tokens min_recent_messages
            (sanitize_summary s)).

Definition compact_age_based (messages : list StoredMessage)
    (metadata : list CompactionMessageMetadata) (max_age_days : nat) (now_unix : Z)
    (min_recent_messages : nat) : res CompactionResult :=
  let compact_count := age_based_compact_count (length messages) metadata max_age_days now_unix
                         min_recent_messages in
  if compact_count =? 0 then Ok (unchanged messages)
  else
    s ← summarize (slice 0 compact_count messages);
    Ok (compact_age_based_with_summary messages metadata max_age_days now_unix
          min_recent_messages (sanitize_summary s)).

Definition compact (enabled : bool) (request : CompactionRequest) : res CompactionResult :=
  let messages := cr_messages request in
  let min_recent := cr_min_recent_messages request in
  if negb enabled then Ok (unchanged messages)
  else
    match cr_strategy request with
    | HeadTail head_count tail_count =>
        compact_head_tail messages head_count (Nat.max tail_count min_recent)
    | AgeBased max_age_days =>
        compact_age_based messages (cr_metadata request) max_age_days
          (default unix_ts (cr_now_unix request)) min_recent
    | BudgetBased max_tokens => compact_budget_based messages max_tokens min_recent
    end.

Definition compact_with_summary (enabled : bool) (request : CompactionRequest) (s : string)
    : CompactionResult :=
  let messages := cr_messages request in
  let min_recent := cr_min_recent_messages request in
  if negb enabled then unchanged messages
  else
    let s := sanitize_summary s in
    match cr_strategy request with
    | HeadTail head_count tail_count =>
        compact_head_tail_with_summary messages head_count (Nat.max tail_count min_recent) s
    | AgeBased max_age_days =>
        compact_age_based_with_summary messages (cr_metadata request) max_age_days
          (default unix_ts (cr_now_unix request)) min_recent s
    | BudgetBased max_tokens =>
        compact_budget_based_with_summary messages max_tokens min_recent s
    end.

End compactor.

(** ** Proofs *)

(** The messages are cut into a head, a middle that is not empty and a tail of at
    least [min_recent] messages, and the middle becomes one system message. *)
Definition spliced (messages : list StoredMessage) (min_recent : nat) (r : CompactionResult) : Prop :=
  ∃ head middle tail note, messages = head ++ middle ++ tail ∧ middle ≠ [] ∧
    min_recent ≤ length tail ∧
    compacted_messages r = head ++ [{| role := System; content := note |}] ++ tail ∧
    tokens_saved r = estimate_messages_tokens messages
                     - estimate_messages_tokens (compacted_messages r).

Lemma splice_spliced messages h t note min_recent s :
  h + t < length messages → min_recent ≤ t →
  spliced messages min_recent (with_savings messages (splice messages h t note) s).
Proof.
  intros Hlen Hmin. unfold splice.
  exists (firstn h messages), (slice h (length messages - t) messages),
    (skipn (length messages - t) messages), note.
  split_and!; [| |rewrite length_skipn; lia|done|done].
  - assert (E : firstn h messages = firstn h (firstn (length messages - t) messages)).
    { rewrite take_take. f_equal. lia. }
    unfold slice. rewrite E at 1. symmetry. rewrite app_assoc, take_drop. apply take_drop.
  - intros E. apply (f_equal length) in E. unfold slice in E.
    rewrite length_skipn, length_firstn in E. cbn in E. lia.
Qed.

Lemma age_count_bound n md days now k :
  age_based_compact_count n md days now k ≠ 0 →
  age_based_compact_count n md days now k + Nat.max 6 k ≤ n.
Proof.
  unfold age_based_compact_count.
  destruct (n <=? Nat.max 6 k) eqn:E; cbn [orb]; [done|]. apply Nat.leb_gt in E.
  destruct (negb _); [done|]. lia.
Qed.

Section theorems.
  Context (complete : list StoredMessage → res string) (unix_ts : Z).

(** Compaction keeps the recent context: whatever the strategy and whatever the
    provider answers, the result is the history itself with nothing saved, or the
    history with one non-empty middle (or oldest) part replaced by one system message;
    everything before and after it is kept verbatim, and at least
    [min_recent_messages] messages follow it. The reported saving is exact. *)
Theorem compaction_keeps_recent enabled request result :
  compact complete unix_ts enabled request = Ok result →
  result = unchanged (cr_messages request) ∨
  enabled = true ∧
  spliced (cr_messages request) (cr_min_recent_messages request) result.
Proof.
  unfold compact. destruct enabled; cbn [negb]; [|intros [= <-]; by left].
  destruct (cr_strategy request) as [h t|days|max].
  - unfold compact_head_tail, compact_head_tail_with_summary.
    destruct (_ <=? _) eqn:E; [intros [= <-]; by left|]. apply Nat.leb_gt in E.
    destruct (summarize _ _) as [s|]; cbn; intros [= <-]. right. split; [done|].
    apply splice_spliced; lia.
  - unfold compact_age_based, compact_age_based_with_summary.
    destruct (_ =? 0) eqn:E; [intros [= <-]; by left|]. apply Nat.eqb_neq in E.
    pose proof (age_count_bound _ _ _ _ _ E).
    destruct (summarize _ _) as [s|]; cbn; intros [= <-]. right. split; [done|].
    apply splice_spliced; lia.
  - unfold compact_budget_based, compact_budget_based_with_summary, budget_tail.
    destruct (_ || _); [intros [= <-]; by left|].
    destruct (_ <=? _) eqn:E; [intros [= <-]; by left|]. apply Nat.leb_gt in E.
    destruct (summarize _ _) as [s|]; cbn [mbind res_bind]; intros [= <-]. right. split; [done|].
    apply splice_spliced; lia.
Qed.
End theorems.

(** A sanitised summary never carries a tool protocol marker, so a summary cannot
    smuggle a tool result into the model's context. *)
Theorem summary_has_no_marker s marker :
  marker ∈ summary_markers → contains marker (sanitize_summary s) = false.
Proof.
  intros Hm. unfold sanitize_summary. cbv zeta.
  set (t := if String.eqb (trim s) "" then _ else _). clearbody t.
  assert (Hd : ∀ m, m ∈ summary_markers → m ≠ "" ∧ disjoint_chars m "[tool-json]" = true ∧
                    disjoint_chars m "...(truncated)" = true).
  { intros m Hin. unfold summary_markers in Hin. set_unfold in Hin.
    destruct_or! Hin; subst m; try done; by vm_compute. }
  assert (Hf : contains marker (fold_left (λ s m, replace m "[tool-json]" s) summary_markers t)
               = false).
  { assert (Hgen : ∀ l t, (∀ m, m ∈ l → m ∈ summary_markers) →
      marker ∈ l ∨ contains marker t = false →
      contains marker (fold_left (λ s m, replace m "[tool-json]" s) l t) = false).
    { intros l. induction l as [|m l IH]; intros u Hl Hu; cbn [fold_left].
      - destruct Hu as [Hu|Hu]; [inversion Hu|done].
      - apply IH; [intros x Hx; apply Hl; by right|].
        destruct (Hd marker Hm) as (H1 & H2 & _).
        destruct (decide (marker = m)) as [<-|Hne].
        + right. by apply replace_removes.
        + destruct Hu as [Hu|Hu]; [inversion Hu; subst; [done|by left]|].
          right. apply not_true_iff_false. intros Hc.
          apply replace_contains in Hc; [congruence|done..]. }
    apply Hgen; [done|by left]. }
  destruct (Hd marker Hm) as (H1 & _ & H3).
  destruct (_ <? _); [|done]. apply not_true_iff_false. intros Hc.
  apply contains_app_disjoint_r in Hc; [|done]. apply take_chars_contains in Hc; [congruence|done].
Qed.
