(* ===== verification/External.v ===== *)
(** * External code and recorded frames

    The frames of recorded trajectories are in the second part.  First, the third-party
    code the modelled functions call, as type classes: the [serde_json] value type and serialiser, and the SHA-256 digest.  Nothing is
    assumed of them beyond their types; a theorem that needs a documented law
    takes it as a hypothesis. *)

From S2P Require Import Prelude Messages.
From Stdlib Require Import Ascii.

(** The constructors of [serde_json::Value]. *)
Inductive jkind : Type := JKNull | JKBool | JKNumber | JKString | JKArray | JKObject.

(** [serde_json::Value] with the accessors and constructors the program uses. *)
Class JsonValue : Type := {
  json : Type;
  json_eq_dec :: EqDecision json;
  json_get : json → string → option json;
  json_as_bool : json → option bool;
  json_as_str : json → option string;
  json_as_u64 : json → option N;
  json_as_array : json → option (list json);
  json_object_keys : json → option (list string);
  json_as_i64 : json → option Z;
  json_string : string → json;
  json_null : json;
  json_int : Z → json;
  json_bool : bool → json;
  json_array : list json → json;
  json_object : list (string * json) → json;
  (** [Map::insert] on an object. *)
  json_insert : json → string → json → json;
  (** The constructor of the value. *)
  json_kind : json → jkind
}.

(** [serde_json::to_vec] at one type. *)
Class Serialize (T : Type) : Type := to_vec : T → res (list ascii).

(** [Sha256::digest]: the digest's bytes. *)
Class Sha256 : Type := sha256_digest : list ascii → list ascii.

(** [serde_json::to_vec(v)?.len() <= n]. *)
Definition serialized_within `{Serialize T} (n : N) (v : T) : res bool :=
  encoded ← to_vec v; Ok (N.of_nat (length encoded) <=? n)%N.

(** [hash_serializable] of domain.rs. *)
Definition hash_serializable `{Sha256} `{Serialize T} (value : T) : res string :=
  encoded ← to_vec value;
  let hex := foldr (λ b acc, hex2 (Ascii.N_of_ascii b) +:+ acc) ""
               (sha256_digest encoded) in
  Ok ("sha256:" +:+ hex).

(** The literal object given to [json!] for an event's details. *)
Inductive jlit : Type :=
| JNull
| JBool (b : bool)
| JInt (z : Z)
| JStr (s : string)
| JOpt (s : option string)
| JStrs (l : list string).

Abbreviation details := (list (string * jlit)).

(** [char::is_alphanumeric] and [char::to_lowercase]: Unicode tables.  A character
    is given by its UTF-8 bytes. *)
Class Unicode : Type := {
  char_is_alphanumeric : string → bool;
  char_to_lowercase : string → string
}.

(** * Trajectory frames and replay runs: data

    The types of src/harness/loop_engine/replay.rs: the recorded provider calls of
    a trajectory and the result of replaying them. *)

Inductive TrajectoryFrameCapture : Type := Full | Redacted | Truncated.

#[export] Instance TrajectoryFrameCapture_eq_dec : EqDecision TrajectoryFrameCapture.
Proof. solve_decision. Defined.

Definition capture_as_str (c : TrajectoryFrameCapture) : string :=
  match c with Full => "full" | Redacted => "redacted" | Truncated => "truncated" end.

Definition capture_from_db (value : string) : res TrajectoryFrameCapture :=
  if String.eqb value "full" then Ok Full
  else if String.eqb value "redacted" then Ok Redacted
  else if String.eqb value "truncated" then Ok Truncated
  else Err ("unknown trajectory frame capture: " +:+ value).

Record TrajectoryFrameDraft : Type := {
  dr_trajectory_id : string;
  dr_call_index : N;
  dr_model : string;
  dr_provider_fingerprint : string;
  dr_request_messages : list StoredMessage;
  dr_request_was_json : bool;
  dr_response : string;
  dr_capture : TrajectoryFrameCapture
}.

Record TrajectoryFrame : Type := {
  fr_id : string;
  fr_trajectory_id : string;
  fr_call_index : N;
  fr_model : string;
  fr_provider_fingerprint : string;
  fr_request_messages : list StoredMessage;
  fr_request_was_json : bool;
  fr_request_hash : string;
  fr_response : string;
  fr_response_hash : string;
  fr_capture : TrajectoryFrameCapture;
  fr_created_at : Z
}.

Inductive ReplayMode : Type := Structural | ShadowComparative.

Definition replay_mode_as_str (m : ReplayMode) : string :=
  match m with Structural => "structural" | ShadowComparative => "shadow_comparative" end.

Inductive ReplayStatus : Type := ReplayPassed | ReplayFailed | ReplayComparative.

#[export] Instance ReplayStatus_eq_dec : EqDecision ReplayStatus.
Proof. solve_decision. Defined.

Definition replay_status_as_str (s : ReplayStatus) : string :=
  match s with
  | ReplayPassed => "passed"
  | ReplayFailed => "failed"
  | ReplayComparative => "comparative"
  end.

Record ReplayCaseResult : Type := {
  rc_frame_id : string;
  rc_call_index : N;
  rc_passed : bool;
  rc_details : string
}.
