(* ===== verification/Verifier.v ===== *)
(** * Verification of tool calls and answers

    Models src/harness/verifier.rs: the argument check against a tool's input
    schema, the checks on results, their composition, and the deterministic check of
    a final answer.  A confidence is the constant of the code in hundredths; the two
    floating-point products of the timing check are arguments. *)

From S2P Require Import Prelude Text Strings Messages External.
From stdpp Require Import pretty.

(** [serde_json::from_str]. *)
Class JsonParse `{JsonValue} : Type := json_parse : string → option json.

(** What [serde_json::Value] promises about objects. *)
Class JsonLaws `{JsonValue} : Prop := {
  object_keys_kind v : is_Some (json_object_keys v) ↔ json_kind v = JKObject;
  object_keys_get v keys k : json_object_keys v = Some keys → (k ∈ keys ↔ is_Some (json_get v k))
}.

#[export] Instance jkind_eq_dec : EqDecision jkind.
Proof. solve_decision. Defined.

Inductive IssueSeverity : Type := Warning | Error | Critical.

Definition severity_as_str (s : IssueSeverity) : string :=
  match s with Warning => "warning" | Error => "error" | Critical => "critical" end.

Record VerificationIssue : Type := {
  vi_severity : IssueSeverity;
  vi_code : string;
  vi_message : string
}.

Record VerificationResult : Type := {
  vr_passed : bool;
  vr_confidence : nat;
  vr_issues : list VerificationIssue;
  vr_suggestion : option string
}.

Definition issue (severity : IssueSeverity) (code message : string) : VerificationIssue :=
  {| vi_severity := severity; vi_code := code; vi_message := message |}.

Definition failed_result (issues : list VerificationIssue) : VerificationResult :=
  {| vr_passed := false; vr_confidence := 100; vr_issues := issues; vr_suggestion := None |}.

Definition passed_result (confidence : nat) : VerificationResult :=
  {| vr_passed := true; vr_confidence := confidence; vr_issues := []; vr_suggestion := None |}.

Section verifier.
  Context `{JV : JsonValue}.

Record ToolCallRecord : Type := {
  tc_call_index : nat;
  tc_server : string;
  tc_tool : string;
  tc_arguments : json;
  tc_result : json;
  tc_ok : bool;
  tc_duration_ms : N;
  tc_iteration : nat
}.

(** What a tool may need, as src/mcp.rs has it. *)
Record McpToolCapabilities : Type := {
  mc_network : bool;
  mc_filesystem : bool;
  mc_env : bool
}.

Record McpToolInfo : Type := {
  mt_server : string;
  mt_name : string;
  mt_description : option string;
  mt_input_schema : json;
  mt_code_mode_capabilities : option McpToolCapabilities
}.

(** ** Accessors of [serde_json::Value] *)

Definition is_kind (k : jkind) (v : json) : bool := bool_decide (json_kind v = k).

(** [as_object]: the value itself, when it is an object. *)
Definition as_object (v : json) : option json :=
  if is_kind JKObject v then Some v else None.

Definition contains_key (map : json) (key : string) : bool :=
  match json_get map key with Some _ => true | None => false end.

Definition keys (map : json) : list string := default [] (json_object_keys map).

(** ** Tool arguments *)

Definition json_type_matches (value : json) (expected_type : string) : bool :=
  if String.eqb expected_type "null" then is_kind JKNull value
  else if String.eqb expected_type "boolean" then is_kind JKBool value
  else if String.eqb expected_type "integer" then
    match json_as_i64 value, json_as_u64 value with None, None => false | _, _ => true end
  else if String.eqb expected_type "number" then is_kind JKNumber value
  else if String.eqb expected_type "string" then is_kind JKString value
  else if String.eqb expected_type "array" then is_kind JKArray value
  else if String.eqb expected_type "object" then is_kind JKObject value
  else true.

Definition tool_label (tool : McpToolInfo) : string := mt_server tool +:+ "::" +:+ mt_name tool.

Definition schema_type (schema : json) : option string :=
  json_get schema "type" ≫= json_as_str.

Definition schema_properties (schema : json) : option json :=
  json_get schema "properties" ≫= as_object.

(** The names of [required] that are strings. *)
Definition required_names (schema : json) : list string :=
  match json_get schema "required" ≫= json_as_array with
  | Some required => omap json_as_str required
  | None => []
  end.

Definition root_issues (schema : json) : list VerificationIssue :=
  match schema_type schema with
  | Some expected_type =>
      if String.eqb expected_type "object" then []
      else [issue Warning "UNSUPPORTED_SCHEMA_ROOT"
              ("Only object input schemas are validated, got root type '" +:+ expected_type +:+ "'")]
  | None => []
  end.

Definition required_issues (tool : McpToolInfo) (args : json) : list VerificationIssue :=
  (λ name, issue Error "MISSING_REQUIRED_ARGUMENT"
     ("Missing required argument '" +:+ name +:+ "' for " +:+ tool_label tool))
  <$> List.filter (λ name, negb (contains_key args name)) (required_names (mt_input_schema tool)).

(** The declared type of a property that its value does not have. *)
Definition mismatch (properties args : json) (name : string) : option string :=
  value ← json_get args name;
  expected_type ← (json_get properties name ≫= schema_type);
  if json_type_matches value expected_type then None else Some expected_type.

Definition type_issues (tool : McpToolInfo) (args : json) : list VerificationIssue :=
  match schema_properties (mt_input_schema tool) with
  | Some properties =>
      omap (λ name,
        (λ expected_type, issue Error "ARGUMENT_TYPE_MISMATCH"
           ("Argument '" +:+ name +:+ "' for " +:+ tool_label tool +:+ " must be " +:+ expected_type))
        <$> mismatch properties args name) (keys args)
  | None => []
  end.

Definition closed_schema (schema : json) : bool :=
  bool_decide (json_get schema "additionalProperties" ≫= json_as_bool = Some false).

Definition unknown_issues (tool : McpToolInfo) (args : json) : list VerificationIssue :=
  match schema_properties (mt_input_schema tool) with
  | Some properties =>
      if closed_schema (mt_input_schema tool) then
        (λ name, issue Error "UNKNOWN_ARGUMENT"
           ("Unknown argument '" +:+ name +:+ "' for " +:+ tool_label tool))
        <$> List.filter (λ name, negb (contains_key properties name)) (keys args)
      else []
  | None => []
  end.

Definition is_warning (i : VerificationIssue) : bool :=
  match vi_severity i with Warning => true | _ => false end.

Definition verify_arguments (tool : McpToolInfo) (arguments : json) : VerificationResult :=
  if negb (is_kind JKObject arguments)
  then failed_result [issue Error "ARGUMENTS_NOT_OBJECT"
         ("Arguments for " +:+ tool_label tool +:+ " must be an object")]
  else
    let issues := root_issues (mt_input_schema tool) ++ required_issues tool arguments ++
                  type_issues tool arguments ++ unknown_issues tool arguments in
    if existsb (λ i, negb (is_warning i)) issues then failed_result issues
    else {| vr_passed := true;
            vr_confidence := match issues with [] => 100 | _ => 85 end;
            vr_issues := issues; vr_suggestion := None |}.

(** ** Tool results *)

(** [ToolCallVerifier]. *)
Definition ToolCallVerifier : Type := ToolCallRecord → VerificationResult.

Definition empty_result (what : string) : VerificationIssue :=
  issue Error "EMPTY_RESULT" ("Tool result is an empty " +:+ what).

Definition shape_issues (result : json) : list VerificationIssue :=
  match json_kind result with
  | JKNull => [issue Error "NULL_RESULT" "Tool result is null"]
  | JKString =>
      match json_as_str result with
      | Some value => if is_blank value then [empty_result "string"] else []
      | None => []
      end
  | JKArray =>
      match json_as_array result with
      | Some [] => [empty_result "array"]
      | _ => []
      end
  | JKObject =>
      (match keys result with [] => [empty_result "object"] | _ => [] end) ++
      (if contains_key result "error"
       then [issue Error "ERROR_OBJECT_RESULT" "Tool result contains an error field"] else []) ++
      (if contains_key result "truncated"
       then [issue Error "TRUNCATED_RESULT" "Tool result was truncated"] else [])
  | _ => []
  end.

Definition result_shape_verify : ToolCallVerifier := λ call,
  let issues :=
    (if tc_ok call then []
     else [issue Error "TOOL_ERROR"
             ("Tool " +:+ tc_server call +:+ "::" +:+ tc_tool call +:+ " returned an error")]) ++
    shape_issues (tc_result call) in
  match issues with [] => passed_result 100 | _ => failed_result issues end.

(** [warn_threshold] is [(max_duration_ms as f64 * warn_ratio) as u64] and
    [warn_percent] the text of [warn_ratio * 100.0]. *)
Record TimingVerifier : Type := {
  tv_max_duration_ms : N;
  tv_warn_threshold : N;
  tv_warn_percent : string
}.

Definition slow_tool (confidence : nat) (message : string) : VerificationResult :=
  {| vr_passed := true; vr_confidence := confidence;
     vr_issues := [issue Warning "SLOW_TOOL" message];
     vr_suggestion := Some "Consider caching this result" |}.

Definition timing_verify (self : TimingVerifier) : ToolCallVerifier := λ call,
  if (tv_max_duration_ms self <? tc_duration_ms call)%N then
    slow_tool 80 ("Tool took " +:+ pretty (tc_duration_ms call) +:+ "ms (>" +:+
                  pretty (tv_max_duration_ms self) +:+ "ms threshold)")
  else if (tv_warn_threshold self <? tc_duration_ms call)%N then
    slow_tool 90 ("Tool took " +:+ pretty (tc_duration_ms call) +:+ "ms (>" +:+
                  tv_warn_percent self +:+ "% of " +:+ pretty (tv_max_duration_ms self) +:+
                  "ms threshold)")
  else passed_result 100.

Definition schema_verify : ToolCallVerifier := λ _, passed_result 100.

(** A placeholder in the code too. *)
Definition semantic_verify : ToolCallVerifier := λ _, passed_result 70.

(** The loop of [CompositeVerifier::verify]. *)
Fixpoint composite_go (verifiers : list ToolCallVerifier) (call : ToolCallRecord)
    (issues : list VerificationIssue) (confidence : nat) (passed : bool) : VerificationResult :=
  match verifiers with
  | [] => {| vr_passed := passed; vr_confidence := confidence; vr_issues := issues;
             vr_suggestion := None |}
  | verifier :: verifiers' =>
      let result := verifier call in
      composite_go verifiers' call (issues ++ vr_issues result)
        (Nat.min confidence (vr_confidence result)) (passed && vr_passed result)
  end.

Definition composite_verify (verifiers : list ToolCallVerifier) : ToolCallVerifier := λ call,
  composite_go verifiers call [] 100 true.

(** ** Final answers *)

Record OutputVerificationRequest : Type := {
  ov_final_answer : string;
  ov_recent_history : list StoredMessage;
  ov_tool_calls : list ToolCallRecord;
  ov_channel : string;
  ov_required_format : option string
}.

Record OutputVerificationResult : Type := {
  or_passed : bool;
  or_confidence : nat;
  or_issues : list VerificationIssue;
  or_suggested_revision : option string
}.

Context `{JP : !JsonParse}.

Definition looks_like_unresolved_tool_call (answer : string) : bool :=
  let trimmed := trim answer in
  match json_parse trimmed with
  | Some value =>
      contains_key value "server" && (contains_key value "tool" || contains_key value "arguments")
  | None =>
      contains "MCP_TOOL_CALL_JSON" trimmed ||
      contains (dquoted "server") trimmed && contains (dquoted "tool") trimmed &&
      contains (dquoted "arguments") trimmed
  end.

Definition mentions_tool_failure (answer : string) : bool :=
  let lower := to_ascii_lowercase answer in
  contains "tool" lower &&
  (contains "fail" lower || contains "error" lower || contains "unavailable" lower).

Definition tool_failed (call : ToolCallRecord) : bool :=
  negb (tc_ok call) ||
  bool_decide (json_get (tc_result call) "verification_failed" ≫= json_as_bool = Some true).

Definition unreliable_answer : string :=
  "I could not produce a reliable final answer from the available tool results.".

Definition output_issues (req : OutputVerificationRequest) : list VerificationIssue :=
  let answer := trim (ov_final_answer req) in
  (if String.eqb answer "" then [issue Error "EMPTY_ANSWER" "Final answer is empty"] else []) ++
  (if looks_like_unresolved_tool_call answer
   then [issue Error "UNRESOLVED_TOOL_CALL"
           "Final answer appears to expose an unresolved MCP tool call"] else []) ++
  (if existsb tool_failed (ov_tool_calls req) && negb (mentions_tool_failure answer)
   then [issue Error "HIDDEN_TOOL_ERROR"
           "Final answer does not disclose a failed tool result"] else []) ++
  (if bool_decide (ov_required_format req = Some "json") &&
      match json_parse answer with Some _ => false | None => true end
   then [issue Error "REQUIRED_FORMAT_MISMATCH" "Final answer is not valid JSON"] else []).

Definition output_verify (req : OutputVerificationRequest) : OutputVerificationResult :=
  let issues := output_issues req in
  let passed := match issues with [] => true | _ => false end in
  {| or_passed := passed; or_confidence := if passed then 100 else 95; or_issues := issues;
     or_suggested_revision := if passed then None else Some unreliable_answer |}.

(** ** Theorems *)

(** The types of JSON Schema: each by the constructors it admits; a type without a meaning
    admits every value. *)
Inductive has_json_type (value : json) : string → Prop :=
| type_null : json_kind value = JKNull → has_json_type value "null"
| type_boolean : json_kind value = JKBool → has_json_type value "boolean"
| type_signed z : json_as_i64 value = Some z → has_json_type value "integer"
| type_unsigned n : json_as_u64 value = Some n → has_json_type value "integer"
| type_number : json_kind value = JKNumber → has_json_type value "number"
| type_string : json_kind value = JKString → has_json_type value "string"
| type_array : json_kind value = JKArray → has_json_type value "array"
| type_object : json_kind value = JKObject → has_json_type value "object"
| type_other ty :
    ty ∉ ["null"; "boolean"; "integer"; "number"; "string"; "array"; "object"] → has_json_type value ty.

(** The schema lists its properties as the object [properties]. *)
Definition lists_properties (schema properties : json) : Prop :=
  json_get schema "properties" = Some properties ∧ json_kind properties = JKObject.

(** What the input schema asks of the arguments. *)
Record conforms (tool : McpToolInfo) (args : json) : Prop := {
  cf_object : json_kind args = JKObject;
  cf_required listed names j name :
    json_get (mt_input_schema tool) "required" = Some listed → json_as_array listed = Some names →
    j ∈ names → json_as_str j = Some name → is_Some (json_get args name);
  cf_types properties name value property declared ty :
    lists_properties (mt_input_schema tool) properties →
    json_get args name = Some value → json_get properties name = Some property →
    json_get property "type" = Some declared → json_as_str declared = Some ty → has_json_type value ty;
  cf_known properties closed name value :
    lists_properties (mt_input_schema tool) properties →
    json_get (mt_input_schema tool) "additionalProperties" = Some closed → json_as_bool closed = Some false →
    json_get args name = Some value → is_Some (json_get properties name)
}.

Lemma json_type_matches_spec value ty : json_type_matches value ty = true ↔ has_json_type value ty.
Proof.
  unfold json_type_matches, is_kind. split.
  - repeat lazymatch goal with
    | |- context [String.eqb ty ?s] => destruct (String.eqb_spec ty s) as [->|?]
    end; intros H; try (apply bool_decide_eq_true in H; by constructor).
    + destruct (json_as_i64 value) eqn:E; [by eapply type_signed|].
      destruct (json_as_u64 value) eqn:E'; [by eapply type_unsigned|discriminate].
    + apply type_other. rewrite !not_elem_of_cons. repeat (split; [done|]). apply not_elem_of_nil.
  - intros []; cbn; try (by apply bool_decide_eq_true).
    + by rewrite H.
    + rewrite H. by destruct (json_as_i64 value).
    + rewrite !not_elem_of_cons in H. destruct H as (H1 & H2 & H3 & H4 & H5 & H6 & H7 & _).
      apply String.eqb_neq in H1, H2, H3, H4, H5, H6, H7. by rewrite H1, H2, H3, H4, H5, H6, H7.
Qed.

Lemma schema_properties_spec schema properties :
  schema_properties schema = Some properties ↔ lists_properties schema properties.
Proof.
  unfold schema_properties, lists_properties, as_object, is_kind.
  destruct (json_get schema "properties") as [ps|]; cbn; [|split; [done|by intros [? _]]].
  destruct (bool_decide_reflect (json_kind ps = JKObject)) as [Hk|Hk]; split.
  - by intros [= <-].
  - by intros [[= <-] _].
  - done.
  - by intros [[= <-] ?].
Qed.

Lemma closed_schema_spec schema :
  closed_schema schema = true ↔
    ∃ closed, json_get schema "additionalProperties" = Some closed ∧ json_as_bool closed = Some false.
Proof. unfold closed_schema. by rewrite bool_decide_eq_true, bind_Some. Qed.

Lemma schema_type_spec schema ty :
  schema_type schema = Some ty ↔ ∃ declared, json_get schema "type" = Some declared ∧ json_as_str declared = Some ty.
Proof. unfold schema_type. by rewrite bind_Some. Qed.

Lemma required_names_spec schema name :
  name ∈ required_names schema ↔ ∃ listed names j, json_get schema "required" = Some listed ∧
    json_as_array listed = Some names ∧ j ∈ names ∧ json_as_str j = Some name.
Proof.
  unfold required_names. destruct (json_get schema "required") as [listed|]; cbn.
  - destruct (json_as_array listed) as [names|] eqn:E.
    + rewrite list_elem_of_omap. split; [intros (j & Hj & Hs); by exists listed, names, j|].
      intros (? & ? & j & [= <-] & Hn & Hj & Hs). rewrite E in Hn. injection Hn as <-. by exists j.
    + split; [by intros ?%elem_of_nil|]. intros (? & ? & j & [= <-] & Hn & _). congruence.
  - split; [by intros ?%elem_of_nil|]. by intros (? & ? & ? & ? & _).
Qed.

Lemma contains_key_spec map key : contains_key map key = true ↔ is_Some (json_get map key).
Proof. unfold contains_key. destruct (json_get map key); split; try done; by intros []. Qed.

Lemma no_filter {A} (p : A → bool) l : List.filter p l = [] ↔ ∀ x, x ∈ l → p x = false.
Proof.
  induction l as [|a l IH]; cbn; [split; [intros _ x Hx; inversion Hx|done]|].
  destruct (p a) eqn:E; [|rewrite IH]; split.
  - done.
  - intros H. specialize (H a ltac:(left)). congruence.
  - intros H x [->|Hx]%elem_of_cons; [done|auto].
  - intros H x Hx. apply H. by right.
Qed.

Lemma no_omap {A B} (f : A → option B) l : omap f l = [] ↔ ∀ x, x ∈ l → f x = None.
Proof.
  induction l as [|a l IH]; cbn; [split; [intros _ x Hx; inversion Hx|done]|].
  destruct (f a) eqn:E; [|rewrite IH]; split.
  - done.
  - intros H. specialize (H a ltac:(left)). congruence.
  - intros H x [->|Hx]%elem_of_cons; [done|auto].
  - intros H x Hx. apply H. by right.
Qed.

Lemma keys_spec `{JL : !JsonLaws} args name :
  json_kind args = JKObject → name ∈ keys args ↔ is_Some (json_get args name).
Proof.
  intros H. apply object_keys_kind in H as [ks Hks]. unfold keys. rewrite Hks. cbn.
  by apply object_keys_get.
Qed.

Lemma errors_only l :
  (∀ i, i ∈ l → is_warning i = false) → existsb (λ i, negb (is_warning i)) l = false ↔ l = [].
Proof.
  intros H. destruct l as [|i l]; [done|]. split; [|done]. cbn. by rewrite (H i) by left.
Qed.

Lemma required_issues_none tool args :
  required_issues tool args = [] ↔
  ∀ name, name ∈ required_names (mt_input_schema tool) → is_Some (json_get args name).
Proof.
  unfold required_issues.
  transitivity (List.filter (λ name, negb (contains_key args name))
    (required_names (mt_input_schema tool)) = []).
  { by destruct (List.filter _ _). }
  rewrite no_filter. setoid_rewrite negb_false_iff. by setoid_rewrite contains_key_spec.
Qed.

Lemma type_issues_none `{JL : !JsonLaws} tool args :
  json_kind args = JKObject → type_issues tool args = [] ↔
  ∀ name value properties property ty,
    schema_properties (mt_input_schema tool) = Some properties →
    json_get args name = Some value → json_get properties name = Some property →
    schema_type property = Some ty → json_type_matches value ty = true.
Proof.
  intros Hk. unfold type_issues. destruct (schema_properties _) as [ps|]; [|split; [done|done]].
  rewrite no_omap. split.
  - intros H name value ? property ty [= <-] Hv Hp Ht.
    assert (Hn : name ∈ keys args) by (apply keys_spec; eauto).
    specialize (H name Hn). apply fmap_None in H. unfold mismatch in H.
    rewrite Hv, Hp in H. cbn in H. rewrite Ht in H. cbn in H. by destruct (json_type_matches value ty).
  - intros H name Hn. apply fmap_None. unfold mismatch.
    destruct (json_get args name) as [value|] eqn:Hv; [|done].
    destruct (json_get ps name) as [property|] eqn:Hp; [|done]. cbn.
    destruct (schema_type property) as [ty|] eqn:Ht; [|done]. cbn. by erewrite H.
Qed.

Lemma unknown_issues_none `{JL : !JsonLaws} tool args :
  json_kind args = JKObject → unknown_issues tool args = [] ↔
  ∀ name value properties, closed_schema (mt_input_schema tool) = true →
    schema_properties (mt_input_schema tool) = Some properties →
    json_get args name = Some value → is_Some (json_get properties name).
Proof.
  intros Hk. unfold unknown_issues. destruct (schema_properties _) as [ps|]; [|split; [intros; simplify_eq|done]].
  destruct (closed_schema _); [|split; [intros; simplify_eq|done]].
  transitivity (List.filter (λ name, negb (contains_key ps name)) (keys args) = []).
  { by destruct (List.filter _ _). }
  rewrite no_filter. split.
  - intros H name value ? _ [= <-] Hv. apply contains_key_spec, negb_false_iff, H.
    apply keys_spec; eauto.
  - intros H name Hn. apply negb_false_iff, contains_key_spec.
    apply keys_spec in Hn as [value Hv]; [|done]. by eapply H.
Qed.

Lemma issues_pass tool args :
  existsb (λ i, negb (is_warning i)) (root_issues (mt_input_schema tool) ++ required_issues tool args ++
    type_issues tool args ++ unknown_issues tool args) = false ↔
  required_issues tool args = [] ∧ type_issues tool args = [] ∧ unknown_issues tool args = [].
Proof.
  rewrite !existsb_app, !orb_false_iff, (errors_only (required_issues _ _)),
    (errors_only (type_issues _ _)), (errors_only (unknown_issues _ _)).
  - split; [by intros (_ & ?)|]. intros H. split; [|done].
    unfold root_issues. destruct (schema_type _) as [ty|]; [destruct (String.eqb ty _)|]; done.
  - unfold unknown_issues. repeat case_match; intros i Hi; [|by inversion Hi..].
    by apply list_elem_of_fmap in Hi as (? & -> & _).
  - unfold type_issues. case_match; intros i Hi; [|by inversion Hi].
    apply list_elem_of_omap in Hi as (? & _ & (? & _ & ->)%fmap_Some_1). done.
  - unfold required_issues. intros i Hi. by apply list_elem_of_fmap in Hi as (? & -> & _).
Qed.

Lemma passing_arguments_conform `{JL : !JsonLaws} tool args :
  vr_passed (verify_arguments tool args) = true ↔ conforms tool args.
Proof.
  unfold verify_arguments, is_kind. destruct (bool_decide_reflect (json_kind args = JKObject)) as [Hk|Hk];
    cbn [negb]; [|split; [done|by intros []]].
  set (issues := _ ++ _). transitivity (existsb (λ i, negb (is_warning i)) issues = false).
  { by destruct (existsb _ _). }
  unfold issues. rewrite issues_pass, required_issues_none, type_issues_none, unknown_issues_none by done.
  setoid_rewrite required_names_spec. setoid_rewrite schema_properties_spec. setoid_rewrite closed_schema_spec.
  setoid_rewrite schema_type_spec. setoid_rewrite json_type_matches_spec. split.
  - intros (H1 & H2 & H3). split; [done| | |].
    + intros listed names j name ????. apply H1. by exists listed, names, j.
    + intros ps name value property declared ty ?????. eapply H2; eauto.
    + intros ps closed name value ????. eapply H3; eauto.
  - intros [_ H1 H2 H3]. split_and!.
    + intros name (listed & names & j & ? & ? & ? & ?). by eapply H1.
    + intros name value ps property ty ??? (declared & ? & ?). by eapply H2.
    + intros name value ps (closed & ? & ?) ??. by eapply H3.
Qed.

(** C12: Type soundness of the argument check: a tool call's arguments pass exactly
    when they conform to the tool's input schema - an object, with every required
    argument, each declared argument of its declared JSON type and, when the schema
    is closed and lists its properties, no other argument. *)
Theorem verify_arguments_exact `{JL : !JsonLaws} tool args :
  vr_passed (verify_arguments tool args) = true ↔ conforms tool args.
Proof. apply passing_arguments_conform. Qed.

Lemma composite_go_spec verifiers call issues confidence passed :
  composite_go verifiers call issues confidence passed =
    {| vr_passed := passed && forallb (λ v, vr_passed (v call)) verifiers;
       vr_confidence := foldr (λ v c, Nat.min (vr_confidence (v call)) c) confidence verifiers;
       vr_issues := issues ++ concat ((λ v : ToolCallVerifier, vr_issues (v call)) <$> verifiers);
       vr_suggestion := None |}.
Proof.
  revert issues confidence passed.
  induction verifiers as [|v verifiers IH]; intros issues confidence passed; cbn [composite_go].
  { cbn. by rewrite andb_true_r, app_nil_r. }
  rewrite IH. cbn. f_equal; [by rewrite andb_assoc| |by rewrite app_assoc].
  clear. induction verifiers as [|u verifiers IH]; cbn; [lia|]. rewrite IH. lia.
Qed.

(** A composed verifier is the conjunction of its parts: it passes exactly when
    every part passes, reports the issues of all parts in order - also of those after
    a failure - and is as confident as the least confident part. *)
Theorem composite_verify_exact verifiers call :
  let r := composite_verify verifiers call in
  (vr_passed r = true ↔ ∀ v, v ∈ verifiers → vr_passed (v call) = true) ∧
  vr_issues r = concat ((λ v : ToolCallVerifier, vr_issues (v call)) <$> verifiers) ∧
  (∀ v, v ∈ verifiers → vr_confidence r ≤ vr_confidence (v call)) ∧ vr_confidence r ≤ 100.
Proof.
  cbv zeta. unfold composite_verify. rewrite composite_go_spec. cbn [vr_passed vr_issues vr_confidence].
  split_and!; [|done| |].
  - cbn [andb]. rewrite forallb_forall. by setoid_rewrite list_elem_of_In.
  - induction verifiers as [|u verifiers IH]; intros v Hv; [inversion Hv|].
    apply elem_of_cons in Hv as [->|Hv]; cbn; [lia|]. specialize (IH v Hv). lia.
  - induction verifiers as [|u verifiers IH]; cbn; lia.
Qed.

(** What the deterministic check of an answer asks. *)
Record reliable (req : OutputVerificationRequest) : Prop := {
  rl_nonempty : trim (ov_final_answer req) ≠ "";
  rl_resolved : looks_like_unresolved_tool_call (trim (ov_final_answer req)) = false;
  rl_disclosed call : call ∈ ov_tool_calls req → tool_failed call = true →
    mentions_tool_failure (trim (ov_final_answer req)) = true;
  rl_format : ov_required_format req = Some "json" → is_Some (json_parse (trim (ov_final_answer req)))
}.

Lemma app_nil_iff {A} (l l' : list A) : l ++ l' = [] ↔ l = [] ∧ l' = [].
Proof. split; [apply app_nil|by intros [-> ->]]. Qed.

Lemma if_nil {A} (b : bool) (x : A) : (if b then [x] else []) = [] ↔ b = false.
Proof. by destruct b. Qed.

Lemma output_verify_exact req : or_passed (output_verify req) = true ↔ reliable req.
Proof.
  transitivity (output_issues req = []).
  { unfold output_verify. cbn. by destruct (output_issues req). }
  unfold output_issues. rewrite !app_nil_iff, !if_nil, !andb_false_iff, negb_false_iff.
  rewrite String.eqb_neq, bool_decide_eq_false. split.
  - intros (H1 & H2 & H3 & H4). split; [done|done| |].
    + intros call Hc Hf. destruct H3 as [H3|H3]; [|done].
      rewrite <- not_true_iff_false in H3. exfalso. apply H3, existsb_exists.
      exists call. by rewrite <- list_elem_of_In.
    + intros Hj. destruct H4 as [H4|H4]; [done|]. by destruct (json_parse _).
  - intros [H1 H2 H3 H4]. split_and!; [done|done| |].
    + destruct (existsb tool_failed (ov_tool_calls req)) eqn:E; [right|by left].
      apply existsb_exists in E as (call & Hc & Hf). apply (H3 call); [by apply list_elem_of_In|done].
    + destruct (decide (ov_required_format req = Some "json")) as [Hj|Hj]; [right|by left].
      by destruct (H4 Hj) as [? ->].
Qed.

End verifier.
