(* ===== verification/OutputExit.v ===== *)
(** * The exit of an answer

    Models src/harness/output_exit.rs: a final answer is verified and, by mode,
    passed on, replaced by a fallback or revised once by the chat provider.  The
    provider and the JSON text of a verification are external. *)

From S2P Require Import Prelude Text Strings Messages External Verifier.

(** src/config.rs. *)
Inductive OutputVerificationMode : Type := Off | Observe | ReviseOnce | Block.

Section output_exit.
  Context `{JV : JsonValue} `{JP : !JsonParse}.

(** [serde_json::to_string] of a verification, [None] when it fails. *)
Variable result_text : OutputVerificationResult → option string.

Record OutputExit : Type := {
  oe_provider : list StoredMessage → res string;
  oe_verifier : bool;
  oe_mode : OutputVerificationMode;
  oe_llm_enabled : bool;
  oe_max_prompt_chars : nat;
  oe_max_result_chars : nat
}.

Record OutputExitRequest : Type := {
  oq_history : list StoredMessage;
  oq_channel : string;
  oq_final_answer : string;
  oq_tool_calls : list ToolCallRecord;
  oq_required_format : option string
}.

Record OutputExitResult : Type := {
  ox_text : string;
  ox_verified : bool;
  ox_blocked_or_revised : bool;
  ox_issue_codes : list string
}.

Definition truncate_output_verification_text (input : string) (max_chars : nat) : string :=
  let max_chars := Nat.max max_chars 1 in
  if chars_count input <=? max_chars then input
  else take_chars max_chars input +:+ "...(truncated)".

Definition empty_verification : string :=
  "{" +:+ dquoted "passed" +:+ ":false," +:+ dquoted "issues" +:+ ":[]}".

Definition output_revision_prompt (verification : OutputVerificationResult) (max_chars : nat)
    : string :=
  let payload := default empty_verification (result_text verification) in
  let payload := truncate_output_verification_text payload max_chars in
  "OUTPUT_VERIFICATION_FAILED_JSON:" +:+ newline +:+ payload +:+ newline +:+ newline +:+
  "Revise the previous assistant answer once. Return only the corrected final answer for the user. Do not expose tool-call JSON or verification internals.".

Definition default_output_verification_fallback : string :=
  "I could not produce a reliable final answer.".

Definition fallback (verification : OutputVerificationResult) : string :=
  default default_output_verification_fallback (or_suggested_revision verification).

(** The request for the verification of [answer]. *)
Definition verification_request (req : OutputExitRequest) (answer : string)
    : OutputVerificationRequest :=
  {| ov_final_answer := answer; ov_recent_history := oq_history req;
     ov_tool_calls := oq_tool_calls req; ov_channel := oq_channel req;
     ov_required_format := oq_required_format req |}.

(** The history the provider is asked to revise. *)
Definition revision_history (self : OutputExit) (req : OutputExitRequest)
    (verification : OutputVerificationResult) : list StoredMessage :=
  oq_history req ++
  [ {| role := Assistant;
       content := truncate_output_verification_text (oq_final_answer req) (oe_max_result_chars self) |};
    {| role := System; content := output_revision_prompt verification (oe_max_prompt_chars self) |} ].

Definition finalize (self : OutputExit) (req : OutputExitRequest) : res OutputExitResult :=
  let result text verified revised codes :=
    Ok {| ox_text := text; ox_verified := verified; ox_blocked_or_revised := revised;
          ox_issue_codes := codes |} in
  if negb (oe_verifier self) then result (oq_final_answer req) false false []
  else
    let verification := output_verify (verification_request req (oq_final_answer req)) in
    if or_passed verification then result (oq_final_answer req) true false []
    else
      let issue_codes := vi_code <$> or_issues verification in
      match oe_mode self with
      | Off | Observe => result (oq_final_answer req) true false issue_codes
      | Block => result (fallback verification) true true issue_codes
      | ReviseOnce =>
          if negb (oe_llm_enabled self)
          then result (fallback verification) true true issue_codes
          else
            match oe_provider self (revision_history self req verification) with
            | Err _ => Err "provider completion failed during output verification revision"
            | Ok revised =>
                let revised := truncate_output_verification_text (trim revised)
                                 (oe_max_result_chars self) in
                let revised_verification := output_verify (verification_request req revised) in
                if or_passed revised_verification then result revised true true issue_codes
                else result (fallback revised_verification) true true issue_codes
            end
      end.

(** ** Theorems *)

Lemma fallback_failed req :
  or_passed (output_verify req) = false → fallback (output_verify req) = unreliable_answer.
Proof. unfold output_verify, fallback. cbn. by destruct (output_issues req). Qed.

Lemma failed_codes req :
  or_passed (output_verify req) = false → vi_code <$> or_issues (output_verify req) ≠ [].
Proof. unfold output_verify. cbn [or_passed or_issues]. by destruct (output_issues req). Qed.

(** What an enforcing exit lets out. *)
Lemma enforcing_exit_lets_out self req r :
  oe_verifier self = true → oe_mode self = Block ∨ oe_mode self = ReviseOnce → finalize self req = Ok r →
  reliable (verification_request req (ox_text r)) ∨ ox_text r = unreliable_answer.
Proof.
  intros Hv Hm. unfold finalize. rewrite Hv. cbn [negb].
  set (q := verification_request req (oq_final_answer req)).
  destruct (or_passed (output_verify q)) eqn:E.
  { intros [= <-]. left. by apply output_verify_exact. }
  rewrite (fallback_failed q E). destruct Hm as [-> | ->]; [intros [= <-]; by right|].
  destruct (oe_llm_enabled self); cbn [negb]; [|intros [= <-]; by right].
  destruct (oe_provider self _) as [revised|e]; [|done].
  set (t := truncate_output_verification_text _ _).
  destruct (or_passed (output_verify (verification_request req t))) eqn:Er; intros [= <-].
  - left. by apply output_verify_exact.
  - right. by apply fallback_failed.
Qed.

(** C13: Nothing unreliable leaves an enforcing exit: with a verifier and the mode
    [Block] or [ReviseOnce], the text that leaves is reliable for the tool calls and
    format of the request, or it is the fixed fallback; an answer that was reliable
    leaves unchanged with no issue reported, and any other leaves marked as blocked
    or revised with the codes of its issues.  The exit fails only when the provider
    fails during a revision. *)
Theorem enforcing_exit_is_reliable self req :
  oe_verifier self = true → oe_mode self = Block ∨ oe_mode self = ReviseOnce →
  match finalize self req with
  | Ok r =>
      (reliable (verification_request req (ox_text r)) ∨ ox_text r = unreliable_answer) ∧
      ox_verified r = true ∧
      (reliable (verification_request req (oq_final_answer req)) →
         ox_text r = oq_final_answer req ∧ ox_issue_codes r = []) ∧
      (¬ reliable (verification_request req (oq_final_answer req)) →
         ox_issue_codes r ≠ []) ∧
      (ox_blocked_or_revised r = true ↔
         ¬ reliable (verification_request req (oq_final_answer req)))
  | Err e => e = "provider completion failed during output verification revision" ∧
      oe_mode self = ReviseOnce ∧ oe_llm_enabled self = true ∧
      ¬ reliable (verification_request req (oq_final_answer req)) ∧
      ∃ history, is_ok (oe_provider self history) = false
  end.
Proof.
  intros Hv Hm. unfold finalize. rewrite Hv. cbn [negb].
  set (q := verification_request req (oq_final_answer req)).
  destruct (or_passed (output_verify q)) eqn:E.
  { apply output_verify_exact in E. cbn. split_and!; [by left|done|done|done|]. by split. }
  assert (Hn : ¬ reliable q) by (rewrite <- output_verify_exact, E; done).
  assert (Hc : vi_code <$> or_issues (output_verify q) ≠ []).
  { by apply failed_codes. }
  rewrite (fallback_failed q E).
  destruct Hm as [-> | ->]; [cbn; split_and!; [by right|done..]|].
  destruct (oe_llm_enabled self); cbn [negb]; [|by cbn; split_and!; auto].
  destruct (oe_provider self _) as [revised|e] eqn:Ep.
  - set (t := truncate_output_verification_text _ _).
    destruct (or_passed (output_verify (verification_request req t))) eqn:Er.
    + apply output_verify_exact in Er. cbn. split_and!; [by left|done..].
    + rewrite (fallback_failed _ Er). cbn. split_and!; [by right|done..].
  - split_and!; [done..|]. eexists. by rewrite Ep.
Qed.

(** An exit that only watches changes nothing: without a verifier, or in the
    modes [Off] and [Observe], the answer leaves as it came and the exit never
    fails. *)
Theorem observing_exit_changes_nothing self req :
  oe_verifier self = false ∨ oe_mode self = Off ∨ oe_mode self = Observe →
  ∃ r, finalize self req = Ok r ∧ ox_text r = oq_final_answer req ∧
       ox_blocked_or_revised r = false.
Proof.
  intros H. unfold finalize. destruct (oe_verifier self); cbn [negb]; [|by eexists].
  destruct (or_passed _); [by eexists|]. destruct H as [H|[-> | ->]]; [done|by eexists..].
Qed.
End output_exit.
