(* ===== verification/Domain.v ===== *)
(** * Domain types of the loop engine

    Models src/harness/loop_engine/domain.rs: the status enumerations with
    their database spelling, the request and record types, their validation,
    the external-write gate and the internal approval policy. *)

From S2P Require Import Prelude Text Messages External.
From stdpp Require Import pretty.

(** ** Status enumerations *)

Inductive GoalStatus : Type :=
| Proposed | Planning | ReviewReady | Approved | Active | Verifying | Achieved
| Rejected | Canceled | Paused | Blocked | Failed | Replan.

#[export] Instance GoalStatus_eq_dec : EqDecision GoalStatus.
Proof. solve_decision. Defined.

Definition goal_status_as_str (s : GoalStatus) : string :=
  match s with
  | Proposed => "proposed"
  | Planning => "planning"
  | ReviewReady => "review_ready"
  | Approved => "approved"
  | Active => "active"
  | Verifying => "verifying"
  | Achieved => "achieved"
  | Rejected => "rejected"
  | Canceled => "canceled"
  | Paused => "paused"
  | Blocked => "blocked"
  | Failed => "failed"
  | Replan => "replan"
  end.

Definition goal_status_from_db (value : string) : res GoalStatus :=
  if String.eqb value "proposed" then Ok Proposed
  else if String.eqb value "planning" then Ok Planning
  else if String.eqb value "review_ready" then Ok ReviewReady
  else if String.eqb value "approved" then Ok Approved
  else if String.eqb value "active" then Ok Active
  else if String.eqb value "verifying" then Ok Verifying
  else if String.eqb value "achieved" then Ok Achieved
  else if String.eqb value "rejected" then Ok Rejected
  else if String.eqb value "canceled" then Ok Canceled
  else if String.eqb value "paused" then Ok Paused
  else if String.eqb value "blocked" then Ok Blocked
  else if String.eqb value "failed" then Ok Failed
  else if String.eqb value "replan" then Ok Replan
  else Err ("unknown goal status: " +:+ value).

Inductive WorkItemStatus : Type :=
| WPending | WReady | WRunning | WWaitingConfirmation | WSucceeded | WFailed
| WCanceled | WBlocked.

#[export] Instance WorkItemStatus_eq_dec : EqDecision WorkItemStatus.
Proof. solve_decision. Defined.

(** [#[serde(rename_all = "snake_case")]]: also the spelling the SQL uses. *)
Definition work_status_name (s : WorkItemStatus) : string :=
  match s with
  | WPending => "pending"
  | WReady => "ready"
  | WRunning => "running"
  | WWaitingConfirmation => "waiting_confirmation"
  | WSucceeded => "succeeded"
  | WFailed => "failed"
  | WCanceled => "canceled"
  | WBlocked => "blocked"
  end.

Definition work_status_from_db (value : string) : res WorkItemStatus :=
  if String.eqb value "pending" then Ok WPending
  else if String.eqb value "ready" then Ok WReady
  else if String.eqb value "running" then Ok WRunning
  else if String.eqb value "waiting_confirmation" then Ok WWaitingConfirmation
  else if String.eqb value "succeeded" then Ok WSucceeded
  else if String.eqb value "failed" then Ok WFailed
  else if String.eqb value "canceled" then Ok WCanceled
  else if String.eqb value "blocked" then Ok WBlocked
  else Err ("unknown work item status: " +:+ value).

Inductive AttemptStatus : Type :=
| ARunning | ACommitting | ASucceeded | AFailed | AAbandoned
| AWaitingConfirmation | AVoid.

#[export] Instance AttemptStatus_eq_dec : EqDecision AttemptStatus.
Proof. solve_decision. Defined.

Definition attempt_status_name (s : AttemptStatus) : string :=
  match s with
  | ARunning => "running"
  | ACommitting => "committing"
  | ASucceeded => "succeeded"
  | AFailed => "failed"
  | AAbandoned => "abandoned"
  | AWaitingConfirmation => "waiting_confirmation"
  | AVoid => "void"
  end.

Definition attempt_status_from_db (value : string) : res AttemptStatus :=
  if String.eqb value "running" then Ok ARunning
  else if String.eqb value "committing" then Ok ACommitting
  else if String.eqb value "succeeded" then Ok ASucceeded
  else if String.eqb value "failed" then Ok AFailed
  else if String.eqb value "abandoned" then Ok AAbandoned
  else if String.eqb value "waiting_confirmation" then Ok AWaitingConfirmation
  else if String.eqb value "void" then Ok AVoid
  else Err ("unknown attempt status: " +:+ value).

Inductive CheckpointPhase : Type :=
| Prepared | Committed | Reconciled | Voided.

#[export] Instance CheckpointPhase_eq_dec : EqDecision CheckpointPhase.
Proof. solve_decision. Defined.

Definition checkpoint_phase_name (s : CheckpointPhase) : string :=
  match s with
  | Prepared => "prepared"
  | Committed => "committed"
  | Reconciled => "reconciled"
  | Voided => "voided"
  end.

Definition checkpoint_phase_from_db (value : string) : res CheckpointPhase :=
  if String.eqb value "prepared" then Ok Prepared
  else if String.eqb value "committed" then Ok Committed
  else if String.eqb value "reconciled" then Ok Reconciled
  else if String.eqb value "voided" then Ok Voided
  else Err ("unknown checkpoint phase: " +:+ value).

Inductive EffectClass : Type := Pure | Read | LocalWrite | ExternalWrite.

#[export] Instance EffectClass_eq_dec : EqDecision EffectClass.
Proof. solve_decision. Defined.

Definition effect_as_str (e : EffectClass) : string :=
  match e with
  | Pure => "pure"
  | Read => "read"
  | LocalWrite => "local_write"
  | ExternalWrite => "external_write"
  end.

Definition effect_from_db (value : string) : res EffectClass :=
  if String.eqb value "pure" then Ok Pure
  else if String.eqb value "read" then Ok Read
  else if String.eqb value "local_write" then Ok LocalWrite
  else if String.eqb value "external_write" then Ok ExternalWrite
  else Err ("unknown effect class: " +:+ value).

(** The derived [Ord]: declaration order. *)
Definition effect_rank (e : EffectClass) : nat :=
  match e with Pure => 0 | Read => 1 | LocalWrite => 2 | ExternalWrite => 3 end.

Definition effect_le (a b : EffectClass) : bool := effect_rank a <=? effect_rank b.

Definition is_external_write (e : EffectClass) : bool :=
  match e with ExternalWrite => true | _ => false end.

(** ** Workflow types *)

Record RetryPolicy : Type := {
  max_attempts : N;
  backoff_secs : N
}.

Record ExecutionBudget : Type := {
  max_provider_calls : N;
  deadline_secs : N;
  max_response_bytes : N
}.

Record WorkflowEdge : Type := { edge_from : string; edge_to : string }.

Record WorkflowStep `{JsonValue} : Type := {
  step_id : string;
  step_handler : string;
  step_effect : EffectClass;
  step_input : json;
  step_retry : RetryPolicy
}.

Record WorkflowSpec `{JsonValue} : Type := {
  wf_steps : list WorkflowStep;
  wf_edges : list WorkflowEdge;
  wf_budget : ExecutionBudget
}.

Definition ALLOWED_WORKFLOW_HANDLERS : list string :=
  [ "goal_planner"; "provider_analysis"; "session_replay"; "self_test_suite";
    "evolution_evaluate"; "manual_gate"; "channel_send"; "wait"; "swarm_node" ].

Definition INTERNAL_ACTOR_PREFIX : string := "internal:".

Definition INTERNAL_AUTO_ACTOR : string := "internal:auto".

(** [Iterator::any(|x| x == s)] and set membership on strings. *)
Definition str_mem (s : string) (l : list string) : bool := existsb (String.eqb s) l.

(** ** Internal approval policy *)

Record InternalApprovalPolicy : Type := {
  pol_max_effect : EffectClass;
  pol_max_provider_calls : N
}.

Definition default_internal_policy : InternalApprovalPolicy :=
  {| pol_max_effect := Read; pol_max_provider_calls := 16 |}.

Definition effect_class_from_name (name : string) : res EffectClass :=
  let other := to_ascii_lowercase (trim name) in
  if String.eqb other "pure" then Ok Pure
  else if String.eqb other "read" then Ok Read
  else if String.eqb other "local_write" then Ok LocalWrite
  else if String.eqb other "external_write" then Ok ExternalWrite
  else Err ("unknown effect class ceiling: " +:+ other).

Definition check_plan `{JsonValue} (self : InternalApprovalPolicy)
    (workflow : WorkflowSpec) (manifest : list EffectClass) : res unit :=
  for_res (λ effect _,
    guard_res (effect_le effect (pol_max_effect self))
      ("internal auto-approval rejected: plan effect '" +:+ effect_as_str effect +:+
       "' exceeds ceiling '" +:+ effect_as_str (pol_max_effect self) +:+ "'"))
    manifest tt ;;
  guard_res (max_provider_calls (wf_budget workflow) <=? pol_max_provider_calls self)%N
    ("internal auto-approval rejected: provider call budget " +:+
     pretty (max_provider_calls (wf_budget workflow)) +:+ " exceeds ceiling " +:+
     pretty (pol_max_provider_calls self)).

(** ** Operator verdicts *)

Inductive ConfirmationResolution : Type := Confirmed | Retry | Abandoned.

Definition confirmation_parse (value : string) : res ConfirmationResolution :=
  let other := to_ascii_lowercase (trim value) in
  if String.eqb other "confirmed" then Ok Confirmed
  else if String.eqb other "retry" then Ok Retry
  else if String.eqb other "abandoned" then Ok Abandoned
  else Err ("unknown confirmation resolution: " +:+ other +:+
            " (expected confirmed|retry|abandoned)").

Definition confirmation_as_str (r : ConfirmationResolution) : string :=
  match r with
  | Confirmed => "confirmed"
  | Retry => "retry"
  | Abandoned => "abandoned"
  end.

(** ** External-write gate *)

Record ExternalWritePolicy : Type := {
  ew_enabled : bool;
  ew_allowed_handlers : gset string
}.

Definition default_external_write : ExternalWritePolicy :=
  {| ew_enabled := false; ew_allowed_handlers := ∅ |}.

Definition ew_allows (self : ExternalWritePolicy) (handler : string) : bool :=
  ew_enabled self && bool_decide (handler ∈ ew_allowed_handlers self).

(** The check made per step at planning, approval and extension. *)
Definition ew_step_ok `{JsonValue} (p : ExternalWritePolicy) (s : WorkflowStep) : bool :=
  negb (is_external_write (step_effect s)) || ew_allows p (step_handler s).

(** ** Requests *)

Inductive AcceptanceCriterion : Type :=
| SelfTestSuite (suite : string)
| ArtifactExists (artifact_type : string)
| ManualApproval (label : string).

Definition criterion_value (c : AcceptanceCriterion) : string :=
  match c with
  | SelfTestSuite suite => suite
  | ArtifactExists artifact_type => artifact_type
  | ManualApproval label => label
  end.

Definition criterion_validate (c : AcceptanceCriterion) : res unit :=
  guard_res (bounded_nonblank 160 (criterion_value c))
    "acceptance criterion value must be 1..=160 bytes".

Record PlanGoalRequest `{JsonValue} : Type := {
  plan_workflow : WorkflowSpec;
  plan_acceptance : list AcceptanceCriterion
}.

(** [collect::<BTreeSet<_>>()]: ordered, without repetitions. *)
Definition effect_manifest `{JsonValue} (self : PlanGoalRequest) : list EffectClass :=
  List.filter (λ e, existsb (λ s, bool_decide (step_effect s = e)) (wf_steps (plan_workflow self)))
    [Pure; Read; LocalWrite; ExternalWrite].

Record ApproveGoalRequest : Type := {
  expected_goal_revision : N;
  expected_plan_hash : string
}.

Record CreateGoalRequest : Type := {
  cg_objective : string;
  cg_source_signal_ids : list string;
  cg_request_id : option string;
  cg_internal_only : bool
}.

Definition create_goal_validate (self : CreateGoalRequest) : res unit :=
  let objective := trim (cg_objective self) in
  guard_res (negb (String.eqb objective "")) "goal objective must not be empty" ;;
  guard_res (N.of_nat (chars_count objective) <=? 4096)%N
    "goal objective must not exceed 4096 characters" ;;
  guard_res (length (cg_source_signal_ids self) <=? 64)
    "goal cannot reference more than 64 source signals" ;;
  for_res (λ signal_id _, guard_res (bounded_nonblank 160 signal_id)
    "source signal id must be 1..=160 bytes") (cg_source_signal_ids self) tt ;;
  match cg_request_id self with
  | Some request_id =>
      guard_res (bounded_nonblank 160 request_id) "request_id must be 1..=160 bytes"
  | None => Ok tt
  end.

(** ** Work outcomes and continuations *)

Record WorkContinuation `{JsonValue} : Type := {
  cont_phase : string;
  cont_state : json;
  cont_delay_secs : option N
}.

Record WorkPhaseProgress `{JsonValue} : Type := {
  prog_phase : string;
  prog_state : json;
  prog_continues : N
}.

Definition MAX_PHASE_CONTINUES : N := 64.

Definition continuation_validate `{JsonValue} `{!Serialize json}
    (self : WorkContinuation) : res unit :=
  guard_res (negb (is_blank (cont_phase self)) && (chars_count (cont_phase self) <=? 64))
    "continuation phase must contain between 1 and 64 characters" ;;
  guard_res (match serialized_within 16384 (cont_state self) with Ok b => b | Err _ => false end)
    "continuation state cannot exceed 16384 bytes" ;;
  guard_res (match cont_delay_secs self with
             | None => true
             | Some delay => (1 <=? delay)%N && (delay <=? 86400)%N
             end)
    "continuation delay must be between 1 and 86400 seconds".

Record WorkOutcome `{JsonValue} : Type := {
  out_summary : string;
  out_artifact_ids : list string;
  out_evidence : json;
  out_sleep_until : option Z;
  out_continuation : option WorkContinuation
}.

Definition is_some {A} (o : option A) : bool :=
  match o with Some _ => true | None => false end.

Definition outcome_validate `{JsonValue} `{!Serialize json} (self : WorkOutcome) : res unit :=
  guard_res (negb (is_some (out_sleep_until self) && is_some (out_continuation self)))
    "work outcome cannot hold both sleep_until and a continuation" ;;
  match out_continuation self with
  | Some c => continuation_validate c
  | None => Ok tt
  end ;;
  guard_res (N.of_nat (chars_count (out_summary self)) <=? 8192)%N
    "work outcome summary cannot exceed 8192 characters" ;;
  guard_res (length (out_artifact_ids self) <=? 64)
    "work outcome cannot reference more than 64 artifacts" ;;
  for_res (λ artifact_id _, guard_res (bounded_nonblank 160 artifact_id)
    "artifact id must be 1..=160 bytes") (out_artifact_ids self) tt ;;
  ok ← serialized_within 16384 (out_evidence self);
  guard_res ok "work outcome evidence cannot exceed 16384 bytes".

Definition validate_actor (actor : string) : res unit :=
  guard_res (bounded_nonblank 160 actor) "actor must be 1..=160 bytes".

(** ** Signal and artifact requests

    [CreateSignalRequest] of signals.rs; [metadata] is a [BTreeMap]. *)

Inductive SignalKind : Type :=
| KTrajectory | KUserFeedback | KDeveloperFeedback | KCommunity | KSelfTest
| KSessionReplay | KDeploymentOutcome | KManual.

Inductive SignalTrust : Type := TInternal | TAuthenticated | TExternal.

Inductive SignalStatus : Type := SObserved | STriaged | SProposed | SIgnored.

#[export] Instance SignalKind_eq_dec : EqDecision SignalKind.
Proof. solve_decision. Defined.
#[export] Instance SignalTrust_eq_dec : EqDecision SignalTrust.
Proof. solve_decision. Defined.
#[export] Instance SignalStatus_eq_dec : EqDecision SignalStatus.
Proof. solve_decision. Defined.

Record CreateSignalRequest : Type := {
  cs_kind : SignalKind;
  cs_trust : SignalTrust;
  cs_source : string;
  cs_external_id : option string;
  cs_content : string;
  cs_metadata : list (string * string)
}.

Inductive ArtifactKind : Type :=
| GoalTemplate | DynamicWorkflow | EvalSuite | SkillManifest | ReplayCorpus
| DesktopView | AnalysisReport | SelfTestReport | EvolutionEvaluation | PromptPolicyRef.

#[export] Instance ArtifactKind_eq_dec : EqDecision ArtifactKind.
Proof. solve_decision. Defined.

Record PublishArtifactRequest `{JsonValue} : Type := {
  pa_kind : ArtifactKind;
  pa_name : string;
  pa_version : string;
  pa_content : json;
  pa_source_goal_id : option string;
  pa_parent_artifact_id : option string
}.

(** ** Records returned by the store *)

Record GoalRecord : Type := {
  gr_id : string;
  gr_objective : string;
  gr_status : GoalStatus;
  gr_revision : N;
  gr_source_signal_ids : list string;
  gr_created_by : string;
  gr_created_at : Z;
  gr_updated_at : Z;
  gr_internal_only : bool
}.

Record WorkItemRecord `{JsonValue} : Type := {
  wir_id : string;
  wir_goal_id : string;
  wir_status : WorkItemStatus;
  wir_step_id : string;
  wir_handler : string;
  wir_effect : EffectClass;
  wir_input : json;
  wir_max_attempts : N;
  wir_ordinal : N;
  wir_dependency_ids : list string;
  wir_created_at : Z;
  wir_progress : option WorkPhaseProgress
}.

Record AttemptRecord : Type := {
  atr_id : string;
  atr_goal_id : string;
  atr_work_item_id : string;
  atr_number : N;
  atr_status : AttemptStatus;
  atr_worker_id : string;
  atr_lease_token : string;
  atr_fencing_token : N;
  atr_started_at : Z;
  atr_finished_at : option Z;
  atr_error : option string
}.

Record WorkClaim `{JsonValue} : Type := {
  wc_item : WorkItemRecord;
  wc_attempt : AttemptRecord;
  wc_lease_until : Z;
  wc_budget : ExecutionBudget
}.

Record CheckpointRecord `{JsonValue} : Type := {
  cpr_id : string;
  cpr_goal_id : string;
  cpr_work_item_id : string;
  cpr_attempt_id : string;
  cpr_phase : CheckpointPhase;
  cpr_idempotency_key : string;
  cpr_replay_safe : bool;
  cpr_outcome : option WorkOutcome;
  cpr_created_at : Z;
  cpr_updated_at : Z
}.

Record ResumeReport `{JsonValue} : Type := {
  rr_goal : GoalRecord;
  rr_work_items : list WorkItemRecord;
  rr_attempts : list AttemptRecord;
  rr_latest_checkpoint : option CheckpointRecord
}.

Record PlannedGoal `{JsonValue} : Type := {
  pg_goal : GoalRecord;
  pg_plan_hash : string;
  pg_workflow : WorkflowSpec;
  pg_acceptance : list AcceptanceCriterion;
  pg_effect_manifest : list EffectClass
}.

Record GoalVerificationReport : Type := {
  vr_goal : GoalRecord;
  vr_achieved : bool;
  vr_unmet : list string
}.

Record ProviderBudgetReservation : Type := {
  pb_deadline_at : Z;
  pb_remaining_provider_calls : N;
  pb_remaining_response_bytes : N
}.

(** The external code the loop engine runs against. *)
Class LoopEnv : Type := {
  env_json :: JsonValue;
  env_clock :: Clock;
  env_sha :: Sha256;
  env_unicode :: Unicode;
  env_ser_json :: Serialize json;
  env_ser_string :: Serialize string;
  env_ser_pair :: Serialize (string * string);
  env_ser_metadata :: Serialize (list (string * string));
  env_ser_workflow :: Serialize WorkflowSpec;
  env_ser_plan :: Serialize PlanGoalRequest;
  env_ser_effects :: Serialize (list EffectClass);
  env_ser_acceptance :: Serialize (list AcceptanceCriterion);
  env_ser_budget :: Serialize ExecutionBudget;
  env_ser_signal :: Serialize CreateSignalRequest;
  env_ser_messages :: Serialize (list StoredMessage);
  env_ser_request :: Serialize (list StoredMessage * bool)
}.

(** ** Narrowing conversions ([try_from]) *)

Definition try_u8 (z : Z) : option N :=
  if ((0 <=? z) && (z <? 256))%Z then Some (Z.to_N z) else None.

Definition try_u32 (z : Z) : option N :=
  if ((0 <=? z) && (z <? 4294967296))%Z then Some (Z.to_N z) else None.

Definition try_u64 (z : Z) : option N :=
  if ((0 <=? z) && (z <? 18446744073709551616))%Z then Some (Z.to_N z) else None.

Definition i64_max_z : Z := 9223372036854775807.

Definition try_i64 (n : N) : option Z :=
  if (Z.of_N n <=? i64_max_z)%Z then Some (Z.of_N n) else None.

(** [ensure_valid_id] of store.rs. *)
Definition ensure_valid_id (value label : string) : res unit :=
  guard_res (bounded_nonblank 160 value) (label +:+ " must be 1..=160 bytes").
