(* ===== verification/Workflow.v ===== *)
(** * Workflow validation

    Models [WorkflowSpec::validate_with_policy] and
    [PlanGoalRequest::validate_with_policy] of domain.rs, Kahn's algorithm
    included, and proves that the acyclicity test is exact. *)

From S2P Require Import Prelude Text External Domain.
From stdpp Require Import pretty.

(** ** The step loop *)

(** [step_ids] is a [BTreeSet<&str>]: here the list of its elements in the
    order they were inserted, and [sorted_ids] for iterations in key order. *)
Definition validate_step `{JsonValue} `{!Serialize json} (external_write : ExternalWritePolicy)
    (step : WorkflowStep) (step_ids : list string) : res (list string) :=
  guard_res (bounded_nonblank 96 (step_id step)) "workflow step id must be 1..=96 bytes" ;;
  guard_res (negb (str_mem (step_id step) step_ids)) "duplicate workflow step id" ;;
  guard_res (str_mem (step_handler step) ALLOWED_WORKFLOW_HANDLERS)
    ("unregistered workflow handler: " +:+ step_handler step) ;;
  guard_res (ew_step_ok external_write step)
    ("external_write step '" +:+ step_handler step +:+
     "' requires external_write_enabled and an allowlisted handler") ;;
  guard_res ((1 <=? max_attempts (step_retry step))%N && (max_attempts (step_retry step) <=? 10)%N)
    "retry max_attempts must be 1..=10" ;;
  guard_res (backoff_secs (step_retry step) <=? 3600)%N
    "retry backoff cannot exceed 3600 seconds" ;;
  ok ← serialized_within 8192 (step_input step);
  guard_res ok "workflow step input cannot exceed 8192 bytes" ;;
  Ok (step_ids ++ [step_id step]).

(** ** The edge loop *)

Record dag_state : Type := DagState {
  indegree : gmap string nat;
  outgoing : gmap string (list string);
  unique_edges : list (string * string)
}.

Definition edge_mem (a b : string) (l : list (string * string)) : bool :=
  existsb (λ e, String.eqb a e.1 && String.eqb b e.2) l.

Definition validate_edge (step_ids : list string) (edge : WorkflowEdge) (d : dag_state)
    : res dag_state :=
  let from := edge_from edge in
  let to := edge_to edge in
  guard_res (str_mem from step_ids) "edge source does not exist" ;;
  guard_res (str_mem to step_ids) "edge target does not exist" ;;
  guard_res (negb (String.eqb from to)) "workflow step cannot depend on itself" ;;
  guard_res (negb (edge_mem from to (unique_edges d))) "duplicate workflow edge" ;;
  degree ← context_res "validated target" (indegree d !! to);
  Ok (DagState (<[to := S degree]> (indegree d))
        (<[from := default [] (outgoing d !! from) ++ [to]]> (outgoing d))
        (unique_edges d ++ [(from, to)])).

(** ** The topological sort *)

(** One [for target in outgoing.get(id)] pass: decrements the targets and
    queues those that reach zero.  A missing target or a degree below zero is a
    panic in the code. *)
Fixpoint relax (targets : list string) (deg : gmap string nat) (queue : list string)
    : res (gmap string nat * list string) :=
  match targets with
  | [] => Ok (deg, queue)
  | target :: targets' =>
      match deg !! target with
      | Some (S degree) =>
          relax targets' (<[target := degree]> deg)
            (if degree =? 0 then queue ++ [target] else queue)
      | Some O => Err "panic: attempt to subtract with overflow"
      | None => Err "panic: validated target"
      end
  end.

(** The [while let Some(id) = queue.pop_front()] loop; [None] is running out of
    [fuel]. *)
Fixpoint kahn (fuel : nat) (out : gmap string (list string)) (deg : gmap string nat)
    (queue : list string) (visited : nat) : option (res nat) :=
  match queue with
  | [] => Some (Ok visited)
  | id :: queue' =>
      match fuel with
      | O => None
      | S fuel' =>
          match relax (default [] (out !! id)) deg queue' with
          | Ok (deg', queue'') => kahn fuel' out deg' queue'' (S visited)
          | Err e => Some (Err e)
          end
      end
  end.

(** Iteration order of a [BTreeSet<&str>]. *)
Definition sorted_ids (ids : list string) : list string := order_by String.leb ids.

Definition initial_queue (ids : list string) (deg : gmap string nat) : list string :=
  List.filter (λ id, bool_decide (deg !! id = Some 0)) (sorted_ids ids).

(** Every step enters the queue at most once, so this much fuel is enough
    ([kahn_terminates]). *)
Definition kahn_fuel (ids : list string) : nat := S (length ids).

Definition validate_graph (ids : list string) (edges : list WorkflowEdge) : res nat :=
  d ← for_res (validate_edge ids) edges
        (DagState (list_to_map ((λ id, (id, 0)) <$> ids)) ∅ []);
  default (Err "out of fuel")
    (kahn (kahn_fuel ids) (outgoing d) (indegree d) (initial_queue ids (indegree d)) 0).

Definition budget_checks (b : ExecutionBudget) : res unit :=
  guard_res (max_provider_calls b <=? 64)%N "provider call budget cannot exceed 64" ;;
  guard_res ((1 <=? deadline_secs b) && (deadline_secs b <=? 86400))%N
    "workflow deadline must be 1..=86400 seconds" ;;
  guard_res ((1 <=? max_response_bytes b) && (max_response_bytes b <=? 10485760))%N
    "response byte budget must be 1..=10485760".

Definition validate_with_policy `{JsonValue} `{!Serialize json} `{!Serialize WorkflowSpec}
    (self : WorkflowSpec) (external_write : ExternalWritePolicy) : res unit :=
  guard_res ((1 <=? length (wf_steps self)) && (length (wf_steps self) <=? 32))
    "workflow must contain 1..=32 steps" ;;
  guard_res (length (wf_edges self) <=? 64) "workflow cannot exceed 64 edges" ;;
  budget_checks (wf_budget self) ;;
  step_ids ← for_res (validate_step external_write) (wf_steps self) [];
  visited ← validate_graph step_ids (wf_edges self);
  guard_res (visited =? length (wf_steps self)) "workflow graph must be acyclic" ;;
  ok ← serialized_within 32768 self;
  guard_res ok "workflow cannot exceed 32768 serialized bytes".

Definition plan_validate_with_policy `{JsonValue} `{!Serialize json} `{!Serialize WorkflowSpec}
    (self : PlanGoalRequest) (external_write : ExternalWritePolicy) : res unit :=
  validate_with_policy (plan_workflow self) external_write ;;
  guard_res ((1 <=? length (plan_acceptance self)) && (length (plan_acceptance self) <=? 16))
    "plan must contain 1..=16 acceptance criteria" ;;
  for_res (λ criterion _, criterion_validate criterion) (plan_acceptance self) tt.

(** ** Specification *)

Definition edge_pairs (edges : list WorkflowEdge) : list (string * string) :=
  (λ e, (edge_from e, edge_to e)) <$> edges.

(** [depends es u v]: step [v] waits for step [u]. *)
Definition depends (es : list (string * string)) (u v : string) : Prop := (u, v) ∈ es.

Definition acyclic (es : list (string * string)) : Prop :=
  ∀ v, ¬ tc (depends es) v v.

(** ** Kahn's algorithm is exact *)

Lemma pending_snoc_list P i v (l : list (string * string)) :
  NoDup l → i ∉ P →
  length (filter (λ e, e.2 = v ∧ e.1 ∉ P) l) =
  length (filter (λ e, e.2 = v ∧ e.1 ∉ P ++ [i]) l) + (if decide ((i, v) ∈ l) then 1 else 0).
Proof.
  intros Hnd Hi. induction Hnd as [|[a b] l Hin _ IH]; [done|].
  rewrite !filter_cons; cbn [fst snd].
  destruct (decide (b = v)) as [->|Hb].
  - destruct (decide (a = i)) as [->|Ha].
    + rewrite (decide_True (P := v = v ∧ i ∉ P)) by done.
      rewrite (decide_False (P := v = v ∧ i ∉ P ++ [i])) by set_solver.
      rewrite (decide_True (P := (i, v) ∈ (i, v) :: l)) by set_solver.
      rewrite (decide_False (P := (i, v) ∈ l)) in IH by done. cbn. lia.
    + assert ((i, v) ∈ (a, v) :: l ↔ (i, v) ∈ l) as E by set_solver.
      rewrite (decide_ext ((i, v) ∈ (a, v) :: l) ((i, v) ∈ l)) by exact E.
      destruct (decide (a ∈ P)).
      * rewrite !decide_False by set_solver. exact IH.
      * rewrite !(decide_True (P := _ ∧ _)) by set_solver. cbn. lia.
  - rewrite !(decide_False (P := _ ∧ _)) by tauto.
    rewrite (decide_ext ((i, v) ∈ (a, b) :: l) ((i, v) ∈ l)) by set_solver. exact IH.
Qed.

(** One [relax] pass decrements exactly the targets and queues, in target
    order, those whose degree was one. *)
Lemma relax_spec T (deg : gmap string nat) queue :
  NoDup T → (∀ t, t ∈ T → ∃ d, deg !! t = Some (S d)) →
  ∃ deg',
    relax T deg queue = Ok (deg', queue ++ filter (λ t, deg !! t = Some 1) T) ∧
    ∀ v, deg' !! v = if decide (v ∈ T) then pred <$> deg !! v else deg !! v.
Proof.
  intros Hnd. revert deg queue. induction Hnd as [|t T Ht _ IH]; intros deg queue Hpos.
  { exists deg. split; [by rewrite app_nil_r|done]. }
  destruct (Hpos t ltac:(left)) as [d Hd]. cbn [relax]. rewrite Hd.
  destruct (IH (<[t:=d]> deg) (if d =? 0 then queue ++ [t] else queue)) as (deg' & -> & Hdeg').
  { intros u Hu. rewrite lookup_insert_ne by set_solver. apply Hpos. by right. }
  exists deg'. split.
  - f_equal. f_equal. rewrite filter_cons, Hd.
    assert (filter (λ t0, <[t:=d]> deg !! t0 = Some 1) T = filter (λ t0, deg !! t0 = Some 1) T) as ->.
    { clear -Ht. induction T as [|u T IH]; [done|]. rewrite !filter_cons.
      rewrite lookup_insert_ne by set_solver. rewrite IH by set_solver. done. }
    destruct d as [|d]; cbn.
    + rewrite decide_True by done. by rewrite <- app_assoc.
    + rewrite decide_False by congruence. done.
  - intros v. rewrite Hdeg'. destruct (decide (v = t)) as [->|Hvt].
    + rewrite decide_False by done. rewrite lookup_insert_eq, decide_True by set_solver.
      by rewrite Hd.
    + rewrite lookup_insert_ne by done.
      rewrite (decide_ext (v ∈ t :: T) (v ∈ T)) by set_solver. done.
Qed.

Lemma snoc_cons_app {A} (P Q F : list A) i : (P ++ [i]) ++ Q ++ F = (P ++ i :: Q) ++ F.
Proof. by rewrite <- !app_assoc. Qed.

Section kahn.
  Context (ids : list string) (es : list (string * string)).
  Hypothesis ids_nodup : NoDup ids.
  Hypothesis es_nodup : NoDup es.
  Hypothesis es_ids : ∀ u v, (u, v) ∈ es → u ∈ ids ∧ v ∈ ids.

(** In-edges of [v] whose source has not been popped. *)
Definition pending (P : list string) (v : string) : nat :=
    length (filter (λ e, e.2 = v ∧ e.1 ∉ P) es).

Definition targets (u : string) : list string := (filter (λ e, e.1 = u) es).*2.

(** The loop invariant: [P] has been popped, in topological order. *)
Record kahn_inv (P queue : list string) (deg : gmap string nat) : Prop := {
    ki_deg : ∀ v, v ∈ ids → deg !! v = Some (pending P v);
    ki_nodup : NoDup (P ++ queue);
    ki_ids : ∀ v, v ∈ P ++ queue → v ∈ ids;
    ki_zero : ∀ v, v ∈ ids → pending P v = 0 → v ∈ P ++ queue;
    ki_queue : ∀ v, v ∈ queue → pending P v = 0;
    ki_topo : ∀ P1 x P2 u, P = P1 ++ x :: P2 → (u, x) ∈ es → u ∈ P1
  }.

Lemma targets_spec u v : v ∈ targets u ↔ (u, v) ∈ es.
Proof.
  unfold targets. rewrite list_elem_of_fmap. split.
  - intros ([a b] & -> & H). apply list_elem_of_filter in H as [<- H]. done.
  - intros H. exists (u, v). split; [done|]. by apply list_elem_of_filter.
Qed.

Lemma targets_nodup u : NoDup (targets u).
Proof.
  unfold targets. apply NoDup_fmap_2_strong; [|by apply NoDup_filter].
  intros [a b] [c d] H1 H2 ?.
  apply list_elem_of_filter in H1 as [<- _]. apply list_elem_of_filter in H2 as [? _].
  cbn in *. congruence.
Qed.

Lemma pending_zero P v : pending P v = 0 ↔ ∀ u, (u, v) ∈ es → u ∈ P.
Proof.
  unfold pending. rewrite length_zero_iff_nil. split.
  - intros H u Hu. destruct (decide (u ∈ P)) as [|Hn]; [done|].
    assert ((u, v) ∈ filter (λ e : string * string, e.2 = v ∧ e.1 ∉ P) es) as Hin
      by (by apply list_elem_of_filter).
    rewrite H in Hin. by apply not_elem_of_nil in Hin.
  - intros H. apply elem_of_nil_inv.
    intros [a b] Hin. apply list_elem_of_filter in Hin as [[<- Hn] Hin]. by apply Hn, H.
Qed.

Lemma pending_snoc P i v :
  i ∉ P → pending P v = pending (P ++ [i]) v + (if decide (v ∈ targets i) then 1 else 0).
Proof.
  intros Hi. unfold pending. rewrite (pending_snoc_list P i v es) by done.
  rewrite (decide_ext ((i, v) ∈ es) (v ∈ targets i)); [done|].
  by rewrite targets_spec.
Qed.

Lemma kahn_pop P i queue deg :
  kahn_inv P (i :: queue) deg →
  ∃ deg' queue',
    relax (targets i) deg queue = Ok (deg', queue') ∧ kahn_inv (P ++ [i]) queue' deg'.
Proof.
  intros [Hdeg Hnd Hids Hzero Hq Htopo].
  assert (i ∉ P) as HiP.
  { intros H. apply NoDup_app in Hnd as (_ & Hd & _). apply (Hd i H). left. }
  assert (∀ t, t ∈ targets i → t ∈ ids ∧ ∃ d, deg !! t = Some (S d)) as Hpos.
  { intros t Ht. assert (t ∈ ids) as Hti.
    { apply targets_spec in Ht. by apply es_ids in Ht as [_ ?]. }
    split; [done|]. rewrite (Hdeg t Hti), (pending_snoc P i t HiP).
    rewrite decide_True by done. exists (pending (P ++ [i]) t). f_equal. lia. }
  destruct (relax_spec (targets i) deg queue (targets_nodup i)) as (deg' & Hr & Hdeg').
  { intros t Ht. by apply Hpos. }
  eexists deg', _. split; [exact Hr|]. clear Hr.
  assert (∀ v, v ∈ ids → deg' !! v = Some (pending (P ++ [i]) v)) as Hdeg2.
  { intros v Hv. rewrite Hdeg', (Hdeg v Hv), (pending_snoc P i v HiP).
    destruct (decide (v ∈ targets i)); cbn [fmap option_fmap option_map]; f_equal; lia. }
  assert (∀ t, t ∈ targets i → deg !! t = Some 1 → pending (P ++ [i]) t = 0) as Hone.
  { intros t Ht H1. destruct (Hpos t Ht) as [Hti _].
    rewrite (Hdeg t Hti), (pending_snoc P i t HiP), decide_True in H1 by done.
    injection H1. lia. }
  split.
  - exact Hdeg2.
  - rewrite snoc_cons_app. apply NoDup_app. split; [done|]. split; [|apply NoDup_filter, targets_nodup].
    intros x Hx Hf. apply list_elem_of_filter in Hf as [H1 Ht].
    assert (pending P x = 0 ∨ x ∈ P) as [H0|HP].
    { apply elem_of_app in Hx as [?|?]; [by right|left; by apply Hq]. }
    + destruct (Hpos x Ht) as [Hxi _]. rewrite (Hdeg x Hxi), H0 in H1. done.
    + apply targets_spec in Ht. apply list_elem_of_split in HP as (P1 & P2 & E). apply HiP.
      rewrite E. apply elem_of_app; left. by eapply Htopo.
  - intros v Hv. rewrite snoc_cons_app in Hv. apply elem_of_app in Hv as [Hv|Hv].
    + by apply Hids.
    + apply list_elem_of_filter in Hv as [_ Ht]. by apply Hpos.
  - intros v Hv H0. rewrite snoc_cons_app. apply elem_of_app.
    destruct (decide (v ∈ targets i)) as [Ht|Ht].
    + right. apply list_elem_of_filter. split; [|done].
      rewrite (Hdeg v Hv), (pending_snoc P i v HiP), decide_True by done. f_equal. lia.
    + left. apply Hzero; [done|]. rewrite (pending_snoc P i v HiP), decide_False by done. lia.
  - intros v Hv. apply elem_of_app in Hv as [Hv|Hv].
    + assert (pending P v = 0) as H0 by (apply Hq; by right).
      rewrite (pending_snoc P i v HiP) in H0. lia.
    + apply list_elem_of_filter in Hv as [H1 Ht]. by apply Hone.
  - intros P1 x P2 u E Hux. destruct P2 as [|y P2 _] using rev_ind.
    + apply app_inj_tail in E as [-> ->]. apply (pending_zero P1 x); [|done].
      apply Hq. left.
    + rewrite app_comm_cons, app_assoc in E. apply app_inj_tail in E as [-> _].
      by eapply Htopo.
Qed.

(** The queue empties within [length ids] pops, and no degree underflows. *)
Lemma kahn_terminates out deg queue P fuel :
  (∀ u, default [] (out !! u) = targets u) →
  kahn_inv P queue deg → length ids - length P ≤ fuel →
  ∃ P' deg', kahn fuel out deg queue (length P) = Some (Ok (length P')) ∧ kahn_inv P' [] deg'.
Proof.
  intros Hout. revert P queue deg. induction fuel as [|fuel IH]; intros P queue deg Hinv Hf.
  all: destruct queue as [|i queue]; [by exists P, deg|].
  all: assert (length (P ++ i :: queue) ≤ length ids) as Hlen
         by (apply submseteq_length, NoDup_submseteq; [by eapply ki_nodup|by eapply ki_ids]).
  all: rewrite length_app in Hlen; cbn in Hlen.
  { lia. }
  destruct (kahn_pop P i queue deg Hinv) as (deg' & queue' & Hr & Hinv').
  cbn. rewrite Hout, Hr.
  replace (S (length P)) with (length (P ++ [i])) by (rewrite length_app; cbn; lia).
  apply IH; [done|]. rewrite length_app. cbn. lia.
Qed.

Lemma topo_tc P deg u v P1 P2 :
  kahn_inv P [] deg → tc (depends es) u v → P = P1 ++ v :: P2 → u ∈ P1.
Proof.
  intros Hinv Ht. revert P1 P2. induction Ht as [u v H|u y v H _ IH]; intros P1 P2 E.
  - by eapply ki_topo.
  - specialize (IH P1 P2 E). apply list_elem_of_split in IH as (A & B & ->).
    rewrite <- app_assoc in E. cbn in E.
    apply elem_of_app; left. by eapply ki_topo.
Qed.

Lemma kahn_all_acyclic P deg :
  kahn_inv P [] deg → length P = length ids → acyclic es.
Proof.
  intros Hinv Hlen v Hv.
  assert (v ∈ ids) as Hvi.
  { clear -Hv es_ids. induction Hv as [u v H|? ? ? H]; by apply es_ids in H as [_ ?] || done. }
  assert (P ⊆+ ids) as Hsub.
  { pose proof (ki_nodup _ _ _ Hinv) as Hnd. pose proof (ki_ids _ _ _ Hinv) as Hin.
    rewrite app_nil_r in Hnd, Hin. by apply NoDup_submseteq. }
  apply submseteq_length_Permutation in Hsub; [|lia].
  rewrite <- Hsub in Hvi. apply list_elem_of_split in Hvi as (P1 & P2 & E).
  pose proof (topo_tc P deg v v P1 P2 Hinv Hv E) as HP1.
  pose proof (ki_nodup _ _ _ Hinv) as Hnd. rewrite app_nil_r, E in Hnd.
  apply NoDup_app in Hnd as (_ & Hd & _). apply (Hd v HP1). left.
Qed.

Lemma tc_flip {A} (R : relation A) x y : tc (flip R) x y → tc R y x.
Proof. induction 1; [by apply tc_once|]. eapply tc_r; eauto. Qed.

Lemma acyclic_all_kahn P deg :
  kahn_inv P [] deg → acyclic es → length P = length ids.
Proof.
  intros Hinv Hac.
  assert (∀ v, sn (flip (depends es)) v) as Hsn.
  { intros v. apply tc_finite_sn; [intros x Hx; eapply Hac; by apply tc_flip|].
    exists (es.*1). intros x Hx. apply list_elem_of_fmap.
    apply tc_flip in Hx. induction Hx as [a b H|a b c H _ _]; by eexists (_, _). }
  assert (∀ v, v ∈ ids → v ∈ P) as Hall.
  { intros v. induction (Hsn v) as [v _ IH]. intros Hv.
    rewrite <- (app_nil_r P). apply (ki_zero _ _ _ Hinv v Hv). apply pending_zero.
    intros u Hu. apply IH; [done|]. by apply es_ids in Hu as [? _]. }
  pose proof (ki_nodup _ _ _ Hinv) as Hnd. pose proof (ki_ids _ _ _ Hinv) as Hin.
  rewrite app_nil_r in Hnd, Hin. apply Nat.le_antisymm.
  - by apply submseteq_length, NoDup_submseteq.
  - by apply submseteq_length, NoDup_submseteq.
Qed.

End kahn.

(** *** From the edge loop to the invariant *)

Record edges_inv (ids : list string) (es : list (string * string)) (d : dag_state) : Prop := {
  ei_unique : unique_edges d = es;
  ei_nodup : NoDup es;
  ei_ids : ∀ u v, (u, v) ∈ es → u ∈ ids ∧ v ∈ ids;
  ei_neq : ∀ u v, (u, v) ∈ es → u ≠ v;
  ei_deg : ∀ v, v ∈ ids → indegree d !! v = Some (pending es [] v);
  ei_out : ∀ u, default [] (outgoing d !! u) = targets es u
}.

Lemma str_mem_spec s l : str_mem s l = true ↔ s ∈ l.
Proof.
  unfold str_mem. rewrite existsb_exists, list_elem_of_In. split.
  - intros (x & Hx & E). apply String.eqb_eq in E. by subst.
  - intros H. exists s. by rewrite String.eqb_refl.
Qed.

Lemma edge_mem_spec a b l : edge_mem a b l = true ↔ (a, b) ∈ l.
Proof.
  unfold edge_mem. rewrite existsb_exists, list_elem_of_In. split.
  - intros ([x y] & Hx & E). cbn in E. apply andb_true_iff in E as [E1 E2].
    apply String.eqb_eq in E1, E2. by subst.
  - intros H. exists (a, b). cbn. by rewrite !String.eqb_refl.
Qed.

Lemma targets_snoc es a b u :
  targets (es ++ [(a, b)]) u = targets es u ++ (if decide (a = u) then [b] else []).
Proof.
  unfold targets. rewrite filter_app, fmap_app. f_equal.
  rewrite filter_cons, filter_nil. cbn [fst]. by destruct (decide (a = u)).
Qed.

Lemma pending_nil_snoc es a b v :
  pending (es ++ [(a, b)]) [] v = pending es [] v + (if decide (b = v) then 1 else 0).
Proof.
  unfold pending. rewrite filter_app, length_app. f_equal.
  rewrite filter_cons, filter_nil. cbn [fst snd].
  destruct (decide (b = v)).
  - rewrite decide_True; [done|]. split; [done|apply not_elem_of_nil].
  - rewrite decide_False; [done|tauto].
Qed.

Definition edges_ok (ids : list string) (es : list (string * string)) : Prop :=
  NoDup es ∧ ∀ u v, (u, v) ∈ es → u ∈ ids ∧ v ∈ ids ∧ u ≠ v.

Lemma edges_ok_app_l ids es es' : edges_ok ids (es ++ es') → edges_ok ids es.
Proof.
  intros [Hnd H]. split; [by apply NoDup_app in Hnd as (? & _)|].
  intros u v Hin. apply H. apply elem_of_app; by left.
Qed.

Lemma edges_inv_init ids :
  edges_inv ids [] (DagState (list_to_map ((λ id, (id, 0)) <$> ids)) ∅ []).
Proof.
  split; cbn; [done|constructor|..].
  - intros u v H. by apply not_elem_of_nil in H.
  - intros u v H. by apply not_elem_of_nil in H.
  - intros v Hv. apply elem_of_list_to_map_1' || idtac.
    + intros y Hy. apply list_elem_of_fmap in Hy as (? & [= -> ->] & _). done.
    + apply list_elem_of_fmap. by exists v.
  - intros u. by rewrite lookup_empty.
Qed.

Lemma validate_edge_inv ids es d e :
  edges_inv ids es d →
  match validate_edge ids e d with
  | Ok d' => edges_inv ids (es ++ [(edge_from e, edge_to e)]) d'
  | Err _ => ¬ edges_ok ids (es ++ [(edge_from e, edge_to e)])
  end.
Proof.
  intros [Hu Hnd Hids Hneq Hdeg Hout]. unfold validate_edge. cbv zeta. rewrite !guard_res_bind.
  destruct e as [a b]; cbn [edge_from edge_to].
  assert ((a, b) ∈ es ++ [(a, b)]) as Hlast by (apply elem_of_app; right; left).
  destruct (str_mem a ids) eqn:Ea; [apply str_mem_spec in Ea|].
  2: { intros [_ H]. apply H in Hlast as (Ha & _). apply str_mem_spec in Ha. congruence. }
  destruct (str_mem b ids) eqn:Eb; [apply str_mem_spec in Eb|].
  2: { intros [_ H]. apply H in Hlast as (_ & Hb & _). apply str_mem_spec in Hb. congruence. }
  destruct (String.eqb_spec a b) as [->|Hab]; cbn [negb].
  { intros [_ H]. apply H in Hlast as (_ & _ & ?). done. }
  rewrite Hu. destruct (edge_mem a b es) eqn:Em; cbn [negb].
  { apply edge_mem_spec in Em. intros [Hn _].
    apply NoDup_app in Hn as (_ & Hd & _). apply (Hd _ Em). left. }
  assert ((a, b) ∉ es) as Hnew by (intros H; apply edge_mem_spec in H; congruence).
  rewrite (Hdeg b Eb). cbn. split; cbn.
  - done.
  - apply NoDup_app. split; [done|]. split; [|apply NoDup_singleton].
    intros x Hx Hy. apply list_elem_of_singleton in Hy as ->. done.
  - intros u v [H|H]%elem_of_app; [by apply Hids|].
    apply list_elem_of_singleton in H as [= -> ->]. done.
  - intros u v [H|H]%elem_of_app; [by apply Hneq|].
    apply list_elem_of_singleton in H as [= -> ->]. done.
  - intros v Hv. rewrite pending_nil_snoc. destruct (decide (b = v)) as [<-|Hbv].
    + rewrite lookup_insert_eq. f_equal. lia.
    + rewrite lookup_insert_ne by done. rewrite (Hdeg v Hv). f_equal. lia.
  - intros u. rewrite targets_snoc. destruct (decide (a = u)) as [<-|Hau].
    + rewrite lookup_insert_eq. cbn. by rewrite Hout.
    + rewrite lookup_insert_ne by done. by rewrite Hout, app_nil_r.
Qed.

Lemma edges_loop ids edges es d :
  edges_inv ids es d →
  match for_res (validate_edge ids) edges d with
  | Ok d' => edges_inv ids (es ++ edge_pairs edges) d'
  | Err _ => ¬ edges_ok ids (es ++ edge_pairs edges)
  end.
Proof.
  revert es d. induction edges as [|e edges IH]; intros es d Hinv.
  { cbn. by rewrite app_nil_r. }
  cbn [for_res].
  pose proof (validate_edge_inv ids es d e Hinv) as He.
  replace (es ++ edge_pairs (e :: edges))
    with ((es ++ [(edge_from e, edge_to e)]) ++ edge_pairs edges) by (by rewrite <- app_assoc).
  destruct (validate_edge ids e d) as [d'|m]; cbn [mbind res_bind].
  - by apply IH.
  - intros H. by apply edges_ok_app_l in H.
Qed.

Lemma kahn_inv_init ids es d :
  NoDup ids → edges_inv ids es d →
  kahn_inv ids es [] (initial_queue ids (indegree d)) (indegree d).
Proof.
  intros Hnd [_ _ _ _ Hdeg _].
  assert (∀ v, v ∈ initial_queue ids (indegree d) ↔ v ∈ ids ∧ pending es [] v = 0) as Hq.
  { intros v. unfold initial_queue, sorted_ids.
    rewrite list_elem_of_In, filter_In, <- list_elem_of_In, order_by_perm, bool_decide_eq_true.
    split; intros [Hv H]; (split; [done|]); rewrite (Hdeg v Hv) in *; congruence. }
  split; cbn.
  - exact Hdeg.
  - unfold initial_queue, sorted_ids. apply NoDup_ListNoDup, List.NoDup_filter.
    apply NoDup_ListNoDup. by rewrite order_by_perm.
  - intros v Hv. by apply Hq in Hv as [? _].
  - intros v Hv H0. by apply Hq.
  - intros v Hv. by apply Hq in Hv as [_ ?].
  - intros P1 x P2 u E. by destruct P1.
Qed.

(** The graph part of the validation: it fails exactly on malformed edges and
    otherwise returns a visit count that reaches every step exactly on acyclic
    graphs. *)
Lemma validate_graph_spec ids edges :
  NoDup ids →
  match validate_graph ids edges with
  | Ok n => edges_ok ids (edge_pairs edges) ∧ (n = length ids ↔ acyclic (edge_pairs edges))
  | Err _ => ¬ edges_ok ids (edge_pairs edges)
  end.
Proof.
  intros Hnd. unfold validate_graph.
  pose proof (edges_loop ids edges [] _ (edges_inv_init ids)) as Hloop. cbn [app] in Hloop.
  destruct (for_res (validate_edge ids) edges _) as [d|m]; cbn [mbind res_bind]; [|done].
  pose proof (kahn_inv_init ids _ d Hnd Hloop) as Hinit.
  destruct Hloop as [_ Hes Hids Hneq _ Hout].
  destruct (kahn_terminates ids (edge_pairs edges) Hes Hids (outgoing d) (indegree d)
    _ [] (kahn_fuel ids) Hout Hinit) as (P & deg & Hk & Hfin).
  { unfold kahn_fuel. cbn. lia. }
  cbn [length] in Hk. rewrite Hk. cbn. split.
  { split; [done|]. intros u v H. destruct (Hids u v H). eauto. }
  split.
  - by apply (kahn_all_acyclic ids (edge_pairs edges) Hids P deg).
  - by apply (acyclic_all_kahn ids (edge_pairs edges) Hnd Hids P deg).
Qed.

(** ** The whole validation *)

Section validation.
  Context `{JV : JsonValue} `{SJ : !Serialize json} `{SW : !Serialize WorkflowSpec}.

Definition step_ok (ew : ExternalWritePolicy) (step : WorkflowStep) : Prop :=
  bounded_nonblank 96 (step_id step) = true ∧
  step_handler step ∈ ALLOWED_WORKFLOW_HANDLERS ∧
  (step_effect step = ExternalWrite →
     ew_enabled ew = true ∧ step_handler step ∈ ew_allowed_handlers ew) ∧
  (1 ≤ max_attempts (step_retry step) ≤ 10)%N ∧
  (backoff_secs (step_retry step) ≤ 3600)%N ∧
  serialized_within 8192 (step_input step) = Ok true.

Definition budget_ok (b : ExecutionBudget) : Prop :=
  (max_provider_calls b ≤ 64 ∧ 1 ≤ deadline_secs b ≤ 86400 ∧
   1 ≤ max_response_bytes b ≤ 10485760)%N.

(** What an accepted workflow is, the order of the checks aside. *)
Record workflow_ok (ew : ExternalWritePolicy) (self : WorkflowSpec) : Prop := {
  wo_steps : 1 ≤ length (wf_steps self) ≤ 32;
  wo_edges : length (wf_edges self) ≤ 64;
  wo_budget : budget_ok (wf_budget self);
  wo_ids : NoDup (step_id <$> wf_steps self);
  wo_step : ∀ step, step ∈ wf_steps self → step_ok ew step;
  wo_edge : edges_ok (step_id <$> wf_steps self) (edge_pairs (wf_edges self));
  wo_acyclic : acyclic (edge_pairs (wf_edges self));
  wo_size : serialized_within 32768 self = Ok true
}.

Lemma ew_step_ok_spec ew step :
  ew_step_ok ew step = true ↔
  (step_effect step = ExternalWrite →
     ew_enabled ew = true ∧ step_handler step ∈ ew_allowed_handlers ew).
Proof.
  unfold ew_step_ok, ew_allows.
  destruct (step_effect step), (ew_enabled ew); cbn;
    rewrite ?bool_decide_eq_true; intuition congruence.
Qed.

Lemma validate_step_ok ew step ids ids' :
  validate_step ew step ids = Ok ids' ↔
  step_ok ew step ∧ step_id step ∉ ids ∧ ids' = ids ++ [step_id step].
Proof.
  unfold validate_step, step_ok. rewrite !guard_then_ok, bind_ok.
  setoid_rewrite guard_then_ok.
  rewrite <- str_mem_spec, ew_step_ok_spec, <- str_mem_spec, andb_true_iff, !N.leb_le.
  destruct (str_mem (step_id step) ids); cbn; naive_solver.
Qed.

Lemma validate_steps_ok ew steps ids ids' :
  NoDup ids →
  for_res (validate_step ew) steps ids = Ok ids' ↔
  ids' = ids ++ (step_id <$> steps) ∧ NoDup ids' ∧ ∀ step, step ∈ steps → step_ok ew step.
Proof.
  revert ids. induction steps as [|step steps IH]; intros ids Hnd; cbn [for_res].
  { rewrite app_nil_r. split.
    - intros [= <-]. split; [done|]. split; [done|].
      intros step H. by apply not_elem_of_nil in H.
    - by intros [-> _]. }
  rewrite bind_ok. setoid_rewrite validate_step_ok. split.
  - intros (ids1 & (Hok & Hnew & ->) & Hrest). apply IH in Hrest as (-> & Hnd' & Hall).
    + rewrite <- app_assoc. split; [done|]. split; [by rewrite <- app_assoc in Hnd'|].
      intros s [->|Hs]%elem_of_cons; auto.
    + apply NoDup_app. split; [done|]. split; [|apply NoDup_singleton].
      intros x Hx Hy. apply list_elem_of_singleton in Hy as ->. done.
  - intros (-> & Hnd' & Hall). exists (ids ++ [step_id step]).
    assert (step_id step ∉ ids) as Hnew.
    { intros H. apply NoDup_app in Hnd' as (_ & Hd & _). apply (Hd _ H). left. }
    split; [split; [apply Hall; left|done]|]. apply IH.
    + apply NoDup_app. split; [done|]. split; [|apply NoDup_singleton].
      intros x Hx Hy. apply list_elem_of_singleton in Hy as ->. done.
    + rewrite <- app_assoc. split; [done|]. split; [done|].
      intros s Hs. apply Hall. by right.
Qed.

Lemma budget_checks_ok b : budget_checks b = Ok tt ↔ budget_ok b.
Proof.
  unfold budget_checks, budget_ok.
  rewrite !guard_then_ok, guard_res_ok, !andb_true_iff, !N.leb_le. tauto.
Qed.

(** C4: [validate_with_policy] accepts a workflow exactly when every bound of the
    domain holds, the step ids are distinct, the external-write gate admits each
    external write, the edges are well formed and the dependency graph has no
    cycle.  In particular Kahn's loop always ends and never underflows. *)
Theorem validate_with_policy_exact (self : WorkflowSpec) (ew : ExternalWritePolicy) :
  validate_with_policy self ew = Ok tt ↔ workflow_ok ew self.
Proof.
  unfold validate_with_policy.
  rewrite !guard_then_ok, !bind_ok, andb_true_iff, !Nat.leb_le.
  split.
  - intros (Hs & He & [] & Hb & Hrest).
    apply bind_ok in Hrest as (ids & Hids & Hrest).
    apply bind_ok in Hrest as (n & Hg & Hrest).
    apply guard_then_ok in Hrest as (Hn & Hrest).
    apply bind_ok in Hrest as (ok & Hsz & Hok). apply guard_res_ok in Hok as ->.
    apply budget_checks_ok in Hb.
    apply validate_steps_ok in Hids as (-> & Hnd & Hall); [|constructor]. cbn [app] in *.
    pose proof (validate_graph_spec _ (wf_edges self) Hnd) as Hspec.
    rewrite Hg in Hspec. destruct Hspec as [Hedges Hac].
    apply Nat.eqb_eq in Hn. rewrite length_fmap in Hac.
    split; try done. by apply Hac.
  - intros [Hs He Hb Hnd Hall Hedges Hac Hsz]. split; [done|]. split; [done|].
    exists tt. split; [by apply budget_checks_ok|].
    apply bind_ok. exists (step_id <$> wf_steps self). split; [by apply validate_steps_ok; [constructor|]|].
    pose proof (validate_graph_spec _ (wf_edges self) Hnd) as Hspec.
    destruct (validate_graph _ _) as [n|m]; [|done].
    destruct Hspec as [_ Hn]. apply bind_ok. exists n. split; [done|].
    apply Hn in Hac as ->. rewrite length_fmap, Nat.eqb_refl. cbn.
    by rewrite Hsz.
Qed.

End validation.
