(* ===== verification/Scheduler.v ===== *)
(** * Scheduler

    Models src/scheduler.rs: the scheduling policy, its validation and
    normalisation, the execution state machine, retry back-off, and the plans
    made after a run.  Time zones and cron expressions are external. *)

From S2P Require Import Prelude Text.
From stdpp Require Import pretty.

(** [chrono_tz::Tz] and [cron::Schedule]. *)
Class Calendar : Type := {
  tz : Type;
  schedule : Type;
  tz_parse : string → option tz;
  schedule_parse : string → option schedule;
  (** [tz.timestamp_opt(t, 0)] is [LocalResult::Single]. *)
  tz_single : tz → Z → bool;
  (** [schedule.after(&dt).next()], as Unix seconds, for the instant [t] in the zone. *)
  schedule_after : schedule → tz → Z → option Z
}.

Inductive ScheduleSpec : Type :=
| SpecOnce (run_at_unix : Z)
| SpecCron (expr : string).

Inductive SchedulerPolicyTrigger : Type :=
| TOnce (run_at_unix : Z) (timezone : string)
| TCron (expr : string) (timezone : string).

Record SchedulerBackoffPolicy : Type := {
  strategy : string;
  base_secs : Z;
  max_secs : Z
}.

Record SchedulerExecutionPolicy : Type := {
  max_failure_streak_before_pause : N;
  backoff : SchedulerBackoffPolicy
}.

Record SchedulerPolicy : Type := {
  version : string;
  trigger : SchedulerPolicyTrigger;
  execution : SchedulerExecutionPolicy
}.

Inductive SchedulerExecutionState : Type := SActive | SPaused | SCompleted | SCanceled.

#[export] Instance SchedulerExecutionState_eq_dec : EqDecision SchedulerExecutionState.
Proof. solve_decision. Defined.

Definition scheduler_state_as_str (s : SchedulerExecutionState) : string :=
  match s with
  | SActive => "active"
  | SPaused => "paused"
  | SCompleted => "completed"
  | SCanceled => "canceled"
  end.

Inductive SchedulerExecutionEvent : Type :=
| ManualPause | ManualResume | ManualCancel | RunSucceededKeepActive
| RunSucceededComplete | RunFailedRetry | RunFailedPause.

Record SchedulerSuccessPlan : Type := {
  sp_next_state : SchedulerExecutionState;
  sp_mark_completed : bool;
  sp_next_run : option Z
}.

Record SchedulerFailurePlan : Type := {
  fp_next_state : SchedulerExecutionState;
  fp_pause_job : bool;
  fp_next_run : option Z;
  fp_backoff : option Z
}.

(** ** Defaults *)

Definition default_scheduler_policy_version : string := "1.0".
Definition default_max_failure_streak_before_pause : N := 8.
Definition default_backoff_strategy : string := "exponential".
Definition default_backoff_base_secs : Z := 1.
Definition default_backoff_max_secs : Z := 300.

Definition default_backoff_policy : SchedulerBackoffPolicy :=
  {| strategy := default_backoff_strategy;
     base_secs := default_backoff_base_secs;
     max_secs := default_backoff_max_secs |}.

Definition default_execution_policy : SchedulerExecutionPolicy :=
  {| max_failure_streak_before_pause := default_max_failure_streak_before_pause;
     backoff := default_backoff_policy |}.

Definition default_scheduler_policy (t : SchedulerPolicyTrigger) : SchedulerPolicy :=
  {| version := default_scheduler_policy_version;
     trigger := t;
     execution := default_execution_policy |}.

(** ** Normalisation *)

Definition normalize_cron_expr (raw : string) : string :=
  let trimmed := trim raw in
  if split_whitespace_count trimmed =? 5 then "0 " +:+ trimmed else trimmed.

Definition normalize_backoff_policy (policy : SchedulerBackoffPolicy) : SchedulerBackoffPolicy :=
  let strategy' :=
    if is_blank (strategy policy) then default_backoff_strategy
    else to_ascii_lowercase (trim (strategy policy)) in
  let base := Z.max (base_secs policy) 1 in
  {| strategy := strategy';
     base_secs := base;
     max_secs := if (max_secs policy <? base)%Z then base else max_secs policy |}.

Definition normalize_trigger (t : SchedulerPolicyTrigger) : SchedulerPolicyTrigger :=
  match t with
  | TOnce run_at timezone => TOnce run_at (trim timezone)
  | TCron expr timezone => TCron (trim expr) (trim timezone)
  end.

Definition normalize_policy (policy : SchedulerPolicy) : SchedulerPolicy :=
  {| version := if is_blank (version policy) then default_scheduler_policy_version
                else trim (version policy);
     trigger := normalize_trigger (trigger policy);
     execution :=
       {| max_failure_streak_before_pause :=
            max_failure_streak_before_pause (execution policy);
          backoff := normalize_backoff_policy (backoff (execution policy)) |} |}.

(** ** Validation *)

Definition validate_backoff_policy (policy : SchedulerBackoffPolicy) : res unit :=
  let strategy' := to_ascii_lowercase (trim (strategy policy)) in
  guard_res (String.eqb strategy' "exponential" || String.eqb strategy' "fixed")
    ("unsupported backoff strategy '" +:+ strategy policy +:+ "', expected exponential|fixed") ;;
  guard_res (0 <? base_secs policy)%Z "backoff.base_secs must be >= 1" ;;
  guard_res (0 <? max_secs policy)%Z "backoff.max_secs must be >= 1" ;;
  guard_res (base_secs policy <=? max_secs policy)%Z
    "backoff.max_secs must be >= backoff.base_secs".

Definition parse_tz `{Calendar} (timezone : string) : res tz :=
  context_res ("invalid timezone '" +:+ timezone +:+ "'") (tz_parse timezone).

Definition parse_schedule `{Calendar} (expr : string) : res schedule :=
  context_res ("invalid cron expression '" +:+ expr +:+ "'")
    (schedule_parse (normalize_cron_expr expr)).

Definition validate_policy_trigger `{Calendar} (t : SchedulerPolicyTrigger) : res unit :=
  match t with
  | TOnce run_at timezone =>
      guard_res (0 <? run_at)%Z "trigger.run_at_unix must be positive" ;;
      _ ← parse_tz timezone; Ok tt
  | TCron expr timezone =>
      guard_res (negb (is_blank expr)) "trigger.expr cannot be empty" ;;
      _ ← parse_tz timezone;
      _ ← parse_schedule expr; Ok tt
  end.

Definition validate_scheduler_policy `{Calendar} (policy : SchedulerPolicy) : res unit :=
  let streak := max_failure_streak_before_pause (execution policy) in
  guard_res (String.eqb (trim (version policy)) default_scheduler_policy_version)
    ("unsupported scheduler policy version '" +:+ version policy +:+ "', expected " +:+
     default_scheduler_policy_version) ;;
  guard_res (negb (streak =? 0)%N) "execution.max_failure_streak_before_pause must be >= 1" ;;
  guard_res (streak <=? 1024)%N "execution.max_failure_streak_before_pause must be <= 1024" ;;
  validate_backoff_policy (backoff (execution policy)) ;;
  validate_policy_trigger (trigger policy).

(** [from_str] is [serde_json::from_str] at [SchedulerPolicy]. *)
Definition parse_scheduler_policy_json `{Calendar} (from_str : string → res SchedulerPolicy)
    (raw : string) : res SchedulerPolicy :=
  policy ← from_str raw;
  let policy := normalize_policy policy in
  validate_scheduler_policy policy ;;
  Ok policy.

Definition encode_scheduler_policy_json `{Calendar} (to_string : SchedulerPolicy → res string)
    (policy : SchedulerPolicy) : res string :=
  validate_scheduler_policy policy ;;
  to_string policy.

(** ** Next run *)

Definition compute_next_run_at_unix `{Calendar} (spec : ScheduleSpec) (now_unix : Z)
    (timezone : string) : res (option Z) :=
  zone ← parse_tz timezone;
  match spec with
  | SpecOnce run_at =>
      Ok (if (run_at <=? now_unix)%Z then None else Some run_at)
  | SpecCron expr =>
      sched ← parse_schedule expr;
      guard_res (tz_single zone now_unix)
        ("invalid local timestamp for timezone '" +:+ timezone +:+ "'") ;;
      Ok (schedule_after sched zone (now_unix + 1))
  end.

Definition compute_next_run_from_policy `{Calendar} (policy : SchedulerPolicy) (now_unix : Z)
    : res (option Z) :=
  validate_scheduler_policy policy ;;
  match trigger policy with
  | TOnce run_at timezone => compute_next_run_at_unix (SpecOnce run_at) now_unix timezone
  | TCron expr timezone => compute_next_run_at_unix (SpecCron expr) now_unix timezone
  end.

(** ** Back-off *)

Definition i64_max : Z := 9223372036854775807.

Definition i64_saturating_mul (a b : Z) : Z :=
  Z.max (- i64_max - 1) (Z.min i64_max (a * b)).

(** [2_i64.saturating_pow(n)]. *)
Definition saturating_pow2 (n : N) : Z := Z.min i64_max (2 ^ Z.of_N n).

Definition clamp (lo hi x : Z) : Z :=
  if (x <? lo)%Z then lo else if (hi <? x)%Z then hi else x.

Definition compute_retry_backoff_secs_with_policy (policy : SchedulerBackoffPolicy)
    (attempt : N) : Z :=
  let normalized := normalize_backoff_policy policy in
  let base := Z.max (base_secs normalized) 1 in
  let max := Z.max (max_secs normalized) base in
  if String.eqb (strategy normalized) "fixed" then clamp 1 max base
  else if (attempt =? 0)%N then clamp 1 max 1
  else clamp 1 max (i64_saturating_mul base (saturating_pow2 (N.min attempt 20))).

Definition compute_retry_backoff_secs (attempt : N) : Z :=
  compute_retry_backoff_secs_with_policy default_backoff_policy attempt.

(** ** State machine and plans *)

Definition scheduler_event_debug (e : SchedulerExecutionEvent) : string :=
  match e with
  | ManualPause => "ManualPause"
  | ManualResume => "ManualResume"
  | ManualCancel => "ManualCancel"
  | RunSucceededKeepActive => "RunSucceededKeepActive"
  | RunSucceededComplete => "RunSucceededComplete"
  | RunFailedRetry => "RunFailedRetry"
  | RunFailedPause => "RunFailedPause"
  end.

Definition apply_scheduler_state_transition (current : SchedulerExecutionState)
    (event : SchedulerExecutionEvent) : res SchedulerExecutionState :=
  match current, event with
  | SActive, ManualPause => Ok SPaused
  | SPaused, ManualResume => Ok SActive
  | SActive, ManualCancel | SPaused, ManualCancel => Ok SCanceled
  | SActive, RunSucceededKeepActive => Ok SActive
  | SActive, RunSucceededComplete => Ok SCompleted
  | SActive, RunFailedRetry => Ok SActive
  | SActive, RunFailedPause => Ok SPaused
  | _, _ => Err ("invalid scheduler transition " +:+ scheduler_state_as_str current +:+
                 " + " +:+ scheduler_event_debug event)
  end.

Definition plan_success_transition `{Calendar} (policy : SchedulerPolicy) (now_unix : Z)
    (run_count_after : Z) (max_runs : option Z) : res SchedulerSuccessPlan :=
  validate_scheduler_policy policy ;;
  let max_runs_reached :=
    match max_runs with Some max => (max <=? run_count_after)%Z | None => false end in
  let once := match trigger policy with TOnce _ _ => true | TCron _ _ => false end in
  let complete :=
    next_state ← apply_scheduler_state_transition SActive RunSucceededComplete;
    Ok {| sp_next_state := next_state; sp_mark_completed := true; sp_next_run := None |} in
  if once || max_runs_reached then complete
  else
    next_run ← compute_next_run_from_policy policy now_unix;
    match next_run with
    | None => complete
    | Some _ =>
        next_state ← apply_scheduler_state_transition SActive RunSucceededKeepActive;
        Ok {| sp_next_state := next_state; sp_mark_completed := false;
              sp_next_run := next_run |}
    end.

Definition plan_failure_transition `{Calendar} (policy : SchedulerPolicy) (now_unix : Z)
    (failure_streak_after : Z) : res SchedulerFailurePlan :=
  validate_scheduler_policy policy ;;
  let threshold :=
    Z.of_N (N.max (max_failure_streak_before_pause (execution policy)) 1) in
  if (threshold <=? failure_streak_after)%Z then
    next_state ← apply_scheduler_state_transition SActive RunFailedPause;
    Ok {| fp_next_state := next_state; fp_pause_job := true; fp_next_run := None;
          fp_backoff := None |}
  else
    let attempt := Z.to_N (Z.max failure_streak_after 0 mod 2 ^ 32) in
    let backoff_secs := Z.max
      (compute_retry_backoff_secs_with_policy (backoff (execution policy)) attempt) 1 in
    next_state ← apply_scheduler_state_transition SActive RunFailedRetry;
    Ok {| fp_next_state := next_state; fp_pause_job := false;
          fp_next_run := Some (now_unix + backoff_secs)%Z;
          fp_backoff := Some backoff_secs |}.

(** The states a job goes through under a sequence of events. *)
Fixpoint run_events (s : SchedulerExecutionState) (es : list SchedulerExecutionEvent)
    : res SchedulerExecutionState :=
  match es with
  | [] => Ok s
  | e :: es' => s' ← apply_scheduler_state_transition s e; run_events s' es'
  end.

(** ** Back-off: exact value, bounds, monotonicity *)

Definition i64 (z : Z) : Prop := (- i64_max - 1 ≤ z ≤ i64_max)%Z.

Lemma clamp_bounds lo hi x : (lo ≤ hi → lo ≤ clamp lo hi x ≤ hi)%Z.
Proof. unfold clamp. intros. destruct (Z.ltb_spec x lo); [lia|]. destruct (Z.ltb_spec hi x); lia. Qed.

Lemma clamp_mono lo hi x y : (lo ≤ hi → x ≤ y → clamp lo hi x ≤ clamp lo hi y)%Z.
Proof.
  unfold clamp. intros.
  repeat match goal with |- context [(?a <? ?b)%Z] => destruct (Z.ltb_spec a b) end; lia.
Qed.

(** Where the cap of the policy sits after normalisation. *)
Definition backoff_cap (p : SchedulerBackoffPolicy) : Z :=
  Z.max (max_secs p) (Z.max (base_secs p) 1).

Lemma normalize_backoff_cap p :
  Z.max (max_secs (normalize_backoff_policy p)) (Z.max (base_secs (normalize_backoff_policy p)) 1)
    = backoff_cap p.
Proof. unfold backoff_cap; cbn. destruct (Z.ltb_spec (max_secs p) (Z.max (base_secs p) 1)); lia. Qed.

Lemma pow2_attempt_bounds (n : N) : (1 ≤ 2 ^ Z.of_N (N.min n 20) ≤ 1048576)%Z.
Proof.
  split; [apply (Z.pow_le_mono_r 2 0); lia|].
  change 1048576%Z with (2 ^ 20)%Z. apply Z.pow_le_mono_r; lia.
Qed.

Lemma saturating_pow2_attempt (n : N) : saturating_pow2 (N.min n 20) = (2 ^ Z.of_N (N.min n 20))%Z.
Proof. unfold saturating_pow2, i64_max. pose proof (pow2_attempt_bounds n). lia. Qed.

Lemma i64_mul_pow_min base (n : N) :
  (1 ≤ base)%Z →
  i64_saturating_mul base (saturating_pow2 (N.min n 20)) =
  Z.min i64_max (base * 2 ^ Z.of_N (N.min n 20)).
Proof.
  intros Hb. rewrite saturating_pow2_attempt. unfold i64_saturating_mul, i64_max.
  pose proof (pow2_attempt_bounds n). nia.
Qed.

Lemma retry_backoff (p : SchedulerBackoffPolicy) (attempt : N)
    (Hb : i64 (base_secs p)) (Hm : i64 (max_secs p)) :
  let r := compute_retry_backoff_secs_with_policy p attempt in
  let base := Z.max (base_secs p) 1 in
  (1 ≤ r ≤ backoff_cap p)%Z ∧
  (strategy (normalize_backoff_policy p) = "fixed" → r = base) ∧
  (strategy (normalize_backoff_policy p) ≠ "fixed" → (0 < attempt)%N →
     r = Z.min (backoff_cap p) (base * 2 ^ Z.of_N (N.min attempt 20))).
Proof.
  cbv zeta. unfold compute_retry_backoff_secs_with_policy. rewrite normalize_backoff_cap.
  replace (Z.max (base_secs (normalize_backoff_policy p)) 1) with (Z.max (base_secs p) 1) by (cbn; lia).
  assert (1 ≤ backoff_cap p ≤ i64_max)%Z as Hcap by (unfold backoff_cap, i64, i64_max in *; lia).
  assert (Z.max (base_secs p) 1 ≤ backoff_cap p)%Z as Hbase by (unfold backoff_cap; lia).
  split; [|split].
  - repeat case_match; apply clamp_bounds; lia.
  - intros ->. cbn. unfold clamp. destruct (Z.ltb_spec (Z.max (base_secs p) 1) 1); [lia|].
    destruct (Z.ltb_spec (backoff_cap p) (Z.max (base_secs p) 1)); lia.
  - intros Hs Ha. destruct (String.eqb_spec (strategy (normalize_backoff_policy p)) "fixed"); [done|].
    destruct (N.eqb_spec attempt 0); [lia|]. rewrite i64_mul_pow_min by lia.
    pose proof (pow2_attempt_bounds attempt). unfold clamp.
    destruct (Z.ltb_spec (Z.min i64_max (Z.max (base_secs p) 1 * 2 ^ Z.of_N (N.min attempt 20))) 1); [nia|].
    destruct (Z.ltb_spec (backoff_cap p)
      (Z.min i64_max (Z.max (base_secs p) 1 * 2 ^ Z.of_N (N.min attempt 20)))); lia.
Qed.

(** The retry delay of any policy whose fields are [i64]s lies between one
    second and the policy's cap; a fixed policy always waits its base; an
    exponential one waits [min (cap, base * 2^min(attempt,20))], computed
    without overflow. *)
Theorem retry_backoff_exact (p : SchedulerBackoffPolicy) (attempt : N)
    (Hb : i64 (base_secs p)) (Hm : i64 (max_secs p)) :
  let r := compute_retry_backoff_secs_with_policy p attempt in
  let base := Z.max (base_secs p) 1 in
  (1 ≤ r ≤ backoff_cap p)%Z ∧
  (strategy (normalize_backoff_policy p) = "fixed" → r = base) ∧
  (strategy (normalize_backoff_policy p) ≠ "fixed" → (0 < attempt)%N →
     r = Z.min (backoff_cap p) (base * 2 ^ Z.of_N (N.min attempt 20))).
Proof. by apply retry_backoff. Qed.

Lemma retry_backoff_exact_witness :
  i64 5 ∧ i64 300 ∧
  compute_retry_backoff_secs_with_policy
    {| strategy := " Exponential "; base_secs := 5; max_secs := 300 |} 3 = 40%Z.
Proof.
  assert (i64 5) as H5 by (unfold i64, i64_max; lia).
  assert (i64 300) as H300 by (unfold i64, i64_max; lia).
  split; [exact H5|split; [exact H300|]].
  refine (proj2 (proj2 (retry_backoff_exact
    {| strategy := " Exponential "; base_secs := 5; max_secs := 300 |} 3 H5 H300)) _ _).
  - vm_compute. discriminate.
  - reflexivity.
Defined.

Lemma retry_backoff_mono (p : SchedulerBackoffPolicy) (a b : N) :
  i64 (base_secs p) → i64 (max_secs p) → (a ≤ b)%N →
  (compute_retry_backoff_secs_with_policy p a ≤ compute_retry_backoff_secs_with_policy p b)%Z.
Proof.
  intros Hb Hm Hab. unfold compute_retry_backoff_secs_with_policy. rewrite normalize_backoff_cap.
  assert (1 ≤ backoff_cap p)%Z by (unfold backoff_cap; lia).
  set (base := Z.max (base_secs (normalize_backoff_policy p)) 1). assert (1 ≤ base)%Z by lia.
  destruct (String.eqb _ _); [done|].
  assert (2 ^ Z.of_N (N.min a 20) ≤ 2 ^ Z.of_N (N.min b 20))%Z
    by (apply Z.pow_le_mono_r; lia).
  pose proof (pow2_attempt_bounds a). pose proof (pow2_attempt_bounds b).
  destruct (N.eqb_spec a 0), (N.eqb_spec b 0); try lia; rewrite ?i64_mul_pow_min by lia;
    apply clamp_mono; unfold i64_max; nia.
Qed.

(** ** The state machine *)

Definition finished (s : SchedulerExecutionState) : bool :=
  match s with SCompleted | SCanceled => true | _ => false end.

(** [completed] and [canceled] are final: no event is accepted there, so a job
    that has reached one of them stays there under every sequence of events the
    machine accepts; and every other state still accepts a cancel. *)
Theorem scheduler_finished_absorbing (s s' : SchedulerExecutionState)
    (es : list SchedulerExecutionEvent) (Hrun : run_events s es = Ok s') :
  (finished s = true → es = [] ∧ s' = s) ∧
  (finished s = false → apply_scheduler_state_transition s ManualCancel = Ok SCanceled).
Proof.
  split; [|by destruct s].
  intros Hf. destruct es as [|e es]; cbn in Hrun; [by injection Hrun as <-|].
  destruct s, e; cbn in *; discriminate.
Qed.

Lemma scheduler_finished_absorbing_witness :
  run_events SCompleted [] = Ok SCompleted ∧ @nil SchedulerExecutionEvent = [].
Proof.
  split; [reflexivity|].
  exact (proj1 (proj1 (scheduler_finished_absorbing SCompleted SCompleted [] eq_refl) eq_refl)).
Defined.

(** ** Normalisation and parsing *)

Lemma is_blank_trim s : is_blank (trim s) = is_blank s.
Proof. unfold is_blank. by rewrite trim_idem. Qed.

Lemma is_blank_spec s : is_blank s = true ↔ trim s = "".
Proof. unfold is_blank. destruct (trim s); cbn; intuition congruence. Qed.

Lemma is_blank_lower s : is_blank (to_ascii_lowercase s) = is_blank s.
Proof. unfold is_blank. rewrite trim_lower. by destruct (trim s). Qed.

Lemma normalize_backoff_idem p :
  normalize_backoff_policy (normalize_backoff_policy p) = normalize_backoff_policy p.
Proof.
  unfold normalize_backoff_policy; cbn [strategy base_secs max_secs]. f_equal.
  - destruct (is_blank (strategy p)) eqn:E; [done|].
    by rewrite is_blank_lower, is_blank_trim, E, trim_lower, trim_idem, lower_idem.
  - lia.
  - destruct (Z.ltb_spec (max_secs p) (Z.max (base_secs p) 1)).
    + destruct (Z.ltb_spec (Z.max (base_secs p) 1) (Z.max (Z.max (base_secs p) 1) 1)); lia.
    + destruct (Z.ltb_spec (max_secs p) (Z.max (Z.max (base_secs p) 1) 1)); lia.
Qed.

Lemma normalize_policy_idem p : normalize_policy (normalize_policy p) = normalize_policy p.
Proof.
  unfold normalize_policy; cbn [version trigger execution backoff max_failure_streak_before_pause]. f_equal.
  - destruct (is_blank (version p)) eqn:E; [done|]. by rewrite is_blank_trim, E, trim_idem.
  - by destruct (trigger p); cbn [normalize_trigger]; rewrite !trim_idem.
  - f_equal. apply normalize_backoff_idem.
Qed.

Section calendar.
  Context `{CAL : Calendar}.

Lemma validate_deterministic p u v :
  validate_scheduler_policy p = Ok u → validate_scheduler_policy p = Ok v → u = v.
Proof. by destruct u, v. Qed.

(** A policy that parses is normalised and valid, and encoding then parsing it
    again gives it back, when the JSON codec round-trips. *)
Theorem scheduler_policy_roundtrip (from_str : string → res SchedulerPolicy)
    (to_string : SchedulerPolicy → res string) (raw : string) (p : SchedulerPolicy)
    (Hcodec : ∀ q s, to_string q = Ok s → from_str s = Ok q)
    (Hparse : parse_scheduler_policy_json from_str raw = Ok p) :
  normalize_policy p = p ∧ validate_scheduler_policy p = Ok tt ∧
  ∀ s, encode_scheduler_policy_json to_string p = Ok s →
       parse_scheduler_policy_json from_str s = Ok p.
Proof.
  unfold parse_scheduler_policy_json, encode_scheduler_policy_json in *.
  destruct (from_str raw) as [q|e]; cbn in Hparse; [|discriminate].
  destruct (validate_scheduler_policy (normalize_policy q)) as [[]|e] eqn:Ev;
    cbn in Hparse; [|discriminate].
  injection Hparse as <-. split; [apply normalize_policy_idem|]. split; [done|].
  intros s Hs. rewrite Ev in Hs. cbn in Hs. rewrite (Hcodec _ _ Hs). cbn.
  by rewrite normalize_policy_idem, Ev.
Qed.

(** ** Plans *)

Lemma validate_streak p :
  validate_scheduler_policy p = Ok tt →
  (1 ≤ max_failure_streak_before_pause (execution p) ≤ 1024)%N ∧
  (1 ≤ base_secs (backoff (execution p)) ≤ max_secs (backoff (execution p)))%Z.
Proof.
  unfold validate_scheduler_policy, validate_backoff_policy. cbv zeta.
  rewrite !guard_then_ok, bind_ok. intros (_ & Hz & Hs & [] & H & _).
  rewrite !guard_then_ok, guard_res_ok in H. destruct H as (_ & H1 & H2 & H3).
  apply negb_true_iff, N.eqb_neq in Hz. apply N.leb_le in Hs.
  apply Z.ltb_lt in H1, H2. apply Z.leb_le in H3. lia.
Qed.

(** After a failed run of a valid policy the job is paused exactly when the
    failure streak has reached the policy's threshold; otherwise it stays active
    and is retried strictly later, at most [max_secs] from now. *)
Theorem plan_failure_spec (p : SchedulerPolicy) (now streak : Z) (plan : SchedulerFailurePlan)
    (Hm : i64 (max_secs (backoff (execution p))))
    (Hplan : plan_failure_transition p now streak = Ok plan) :
  let threshold := Z.of_N (max_failure_streak_before_pause (execution p)) in
  (fp_pause_job plan = true ↔ (threshold ≤ streak)%Z) ∧
  (fp_pause_job plan = true → fp_next_state plan = SPaused ∧ fp_next_run plan = None) ∧
  (fp_pause_job plan = false →
     fp_next_state plan = SActive ∧
     ∃ d, fp_backoff plan = Some d ∧ fp_next_run plan = Some (now + d)%Z ∧
          (1 ≤ d ≤ max_secs (backoff (execution p)))%Z).
Proof.
  cbv zeta. unfold plan_failure_transition in Hplan.
  destruct (validate_scheduler_policy p) as [[]|e] eqn:Ev; cbn -[Z.max Z.modulo] in Hplan; [|done].
  apply validate_streak in Ev as [Hs Hb]. rewrite N.max_l in Hplan by lia.
  destruct (Z.leb_spec (Z.of_N (max_failure_streak_before_pause (execution p))) streak) as [H|H].
  - injection Hplan as <-. cbn. intuition (lia || discriminate).
  - injection Hplan as <-. cbn -[Z.max Z.modulo]. split; [|split; [done|]].
    + split; [discriminate|lia].
    + intros _. split; [done|]. eexists. split; [reflexivity|]. split; [reflexivity|].
      set (attempt := Z.to_N _).
      destruct (retry_backoff (backoff (execution p)) attempt) as (Hr & _).
      { unfold i64, i64_max in *. lia. }
      { done. }
      unfold backoff_cap in Hr. lia.
Qed.

(** After a successful run: one-shot jobs, jobs at their run limit and jobs with
    no further occurrence complete; every other job stays active with a next run
    strictly in the future, provided the cron iterator yields later instants. *)
Theorem plan_success_spec (p : SchedulerPolicy) (now count : Z) (max_runs : option Z)
    (plan : SchedulerSuccessPlan)
    (Hafter : ∀ s z t t', schedule_after s z t = Some t' → (t < t')%Z)
    (Hplan : plan_success_transition p now count max_runs = Ok plan) :
  (sp_mark_completed plan = true → sp_next_state plan = SCompleted ∧ sp_next_run plan = None) ∧
  (sp_mark_completed plan = false →
     sp_next_state plan = SActive ∧ (∃ expr zone, trigger p = TCron expr zone) ∧
     (∀ m, max_runs = Some m → (count < m)%Z) ∧
     ∃ t, sp_next_run plan = Some t ∧ (now < t)%Z).
Proof.
  unfold plan_success_transition in Hplan.
  destruct (validate_scheduler_policy p) as [[]|e] eqn:Ev; cbn in Hplan; [|done].
  destruct (trigger p) as [run_at zone|expr zone] eqn:Et; cbn in Hplan.
  { injection Hplan as <-. cbn. split; [done|discriminate]. }
  destruct (match max_runs with Some _ => _ | None => false end) eqn:Em.
  { injection Hplan as <-. cbn. split; [done|discriminate]. }
  unfold compute_next_run_from_policy in Hplan. rewrite Ev, Et in Hplan. cbn in Hplan.
  unfold compute_next_run_at_unix in Hplan.
  destruct (parse_tz zone) as [z|e]; cbn in Hplan; [|done].
  destruct (parse_schedule expr) as [s|e]; cbn in Hplan; [|done].
  destruct (tz_single z now); cbn in Hplan; [|done].
  destruct (schedule_after s z (now + 1)) as [t|] eqn:Ea; cbn in Hplan.
  - injection Hplan as <-. cbn. split; [discriminate|]. intros _. split; [done|].
    split; [by eauto|]. split.
    + intros m ->. by apply Z.leb_gt in Em.
    + exists t. split; [done|]. apply Hafter in Ea. lia.
  - injection Hplan as <-. cbn. split; [done|discriminate].
Qed.

End calendar.
