(* ===== verification/Tables.v ===== *)
(** * The loop engine's tables

    The rows of the [harness_*] tables created by
    [initialize_loop_engine_schema] (src/harness/loop_engine/store.rs,
    signals.rs, artifacts.rs) and the store that holds them.  A column that
    stores an enumeration or JSON text holds the decoded value; integer columns
    are SQLite integers ([Z]).  Columns that no statement reads back
    ([created_at] of approvals, [updated_at] of budgets, the time stamps of manual
    verifications, signal events and artifact events) are left out.  An [UPDATE] is a composition of the column
    setters below. *)

From S2P Require Import Prelude Text Messages External Domain.

Section rows.
  Context `{JV : JsonValue}.

(** [harness_goals]. *)
Record goal_row : Type := {
  g_id : string;
  g_objective : string;
  g_status : GoalStatus;
  g_revision : Z;
  g_source_signal_ids : list string;
  g_request_id : option string;
  g_created_by : string;
  g_internal_only : bool;
  g_created_at : Z;
  g_updated_at : Z
}.

(** [harness_workflows]. *)
Record workflow_row : Type := {
  wr_id : string;
  wr_goal_id : string;
  wr_goal_revision : Z;
  wr_plan_hash : string;
  wr_workflow : WorkflowSpec;
  wr_acceptance : list AcceptanceCriterion;
  wr_effect_manifest : list EffectClass;
  wr_created_by : string;
  wr_created_at : Z
}.

(** [harness_goal_approvals]. *)
Record approval_row : Type := {
  ap_id : string;
  ap_goal_id : string;
  ap_goal_revision : Z;
  ap_plan_hash : string;
  ap_workflow_hash : string;
  ap_effect_manifest_hash : string;
  ap_acceptance_hash : string;
  ap_budget_hash : string;
  ap_approved_by : string
}.

(** [harness_goal_budget_usage]. *)
Record budget_row : Type := {
  b_goal_id : string;
  b_max_provider_calls : Z;
  b_deadline_secs : Z;
  b_max_response_bytes : Z;
  b_provider_calls : Z;
  b_response_bytes : Z;
  b_started_at : option Z
}.

(** [harness_work_items]. *)
Record work_row : Type := {
  wi_id : string;
  wi_goal_id : string;
  wi_workflow_id : string;
  wi_step_id : string;
  wi_status : WorkItemStatus;
  wi_handler : string;
  wi_effect : EffectClass;
  wi_input : json;
  wi_max_attempts : Z;
  wi_backoff_secs : Z;
  wi_ordinal : Z;
  wi_lease_token : option string;
  wi_lease_until : option Z;
  wi_fencing_token : Z;
  wi_next_attempt_at : option Z;
  wi_last_error : option string;
  wi_progress : option WorkPhaseProgress;
  wi_created_at : Z;
  wi_updated_at : Z
}.

(** [harness_work_item_dependencies]. *)
Record dep_row : Type := {
  dep_item : string;
  dep_on : string
}.

(** [harness_attempts]. *)
Record attempt_row : Type := {
  at_id : string;
  at_goal_id : string;
  at_work_item_id : string;
  at_number : Z;
  at_status : AttemptStatus;
  at_worker_id : string;
  at_lease_token : string;
  at_fencing_token : Z;
  at_started_at : Z;
  at_finished_at : option Z;
  at_error : option string
}.

(** [harness_checkpoints]; [sequence] is the position in the table. *)
Record checkpoint_row : Type := {
  cp_id : string;
  cp_goal_id : string;
  cp_work_item_id : string;
  cp_attempt_id : string;
  cp_phase : CheckpointPhase;
  cp_idempotency_key : string;
  cp_replay_safe : bool;
  cp_outcome : option WorkOutcome;
  cp_created_at : Z;
  cp_updated_at : Z
}.

(** [harness_events]. *)
Record event_row : Type := {
  ev_goal_id : string;
  ev_type : string;
  ev_actor : string;
  ev_details : details;
  ev_created_at : Z
}.

(** [harness_manual_verifications]. *)
Record manual_row : Type := {
  mv_goal_id : string;
  mv_label : string;
  mv_actor : string
}.

(** [harness_self_test_case_results] without the wall-clock duration. *)
Record SelfTestCaseResult : Type := {
  stc_name : string;
  stc_passed : bool;
  stc_details : string
}.

(** [harness_self_test_runs] with the case results of the run. *)
Record self_test_row : Type := {
  st_id : string;
  st_suite : string;
  st_passed : bool;
  st_cases : list SelfTestCaseResult;
  st_started_at : Z;
  st_finished_at : Z
}.

(** [harness_signals]. *)
Record signal_row : Type := {
  sg_id : string;
  sg_kind : SignalKind;
  sg_trust : SignalTrust;
  sg_source : string;
  sg_external_id : option string;
  sg_content : string;
  sg_content_hash : string;
  sg_fingerprint : string;
  sg_normalized_hash : option string;
  sg_metadata : list (string * string);
  sg_created_by : string;
  sg_created_at : Z
}.

(** [harness_signal_events]. *)
Record signal_event_row : Type := {
  se_signal_id : string;
  se_status : SignalStatus;
  se_actor : string;
  se_details : details
}.

(** [harness_artifacts]. *)
Record artifact_row : Type := {
  ar_id : string;
  ar_kind : ArtifactKind;
  ar_name : string;
  ar_version : string;
  ar_content : json;
  ar_content_hash : string;
  ar_source_goal_id : option string;
  ar_parent_artifact_id : option string;
  ar_created_by : string;
  ar_created_at : Z
}.

(** [harness_artifact_events]. *)
Record artifact_event_row : Type := {
  ae_artifact_id : string;
  ae_type : string;
  ae_actor : string;
  ae_details : details
}.

(** [harness_trajectory_frames]. *)
Record frame_row : Type := {
  tf_id : string;
  tf_trajectory_id : string;
  tf_call_index : Z;
  tf_model : string;
  tf_provider_fingerprint : string;
  tf_request_messages : list StoredMessage;
  tf_request_was_json : bool;
  tf_request_hash : string;
  tf_response : string;
  tf_response_hash : string;
  tf_capture : TrajectoryFrameCapture;
  tf_created_by : string;
  tf_created_at : Z
}.

(** [ReplayRun]. *)
Record ReplayRun : Type := {
  rp_id : string;
  rp_trajectory_id : string;
  rp_mode : ReplayMode;
  rp_status : ReplayStatus;
  rp_exact_replayable : bool;
  rp_live_tools_executed : N;
  rp_cases : list ReplayCaseResult;
  rp_created_at : Z
}.

(** [harness_replay_runs] with the rows of [harness_replay_case_results]. *)
Record replay_row : Type := { rp_run : ReplayRun; rp_created_by : string }.

(** The database. *)
Record Db : Type := {
  db_goals : list goal_row;
  db_workflows : list workflow_row;
  db_approvals : list approval_row;
  db_budgets : list budget_row;
  db_work : list work_row;
  db_deps : list dep_row;
  db_attempts : list attempt_row;
  db_checkpoints : list checkpoint_row;
  db_events : list event_row;
  db_manual : list manual_row;
  db_self_tests : list self_test_row;
  db_signals : list signal_row;
  db_signal_events : list signal_event_row;
  db_artifacts : list artifact_row;
  db_artifact_events : list artifact_event_row;
  db_frames : list frame_row;
  db_replays : list replay_row
}.

Definition empty_db : Db :=
  {| db_goals := []; db_workflows := []; db_approvals := []; db_budgets := [];
     db_work := []; db_deps := []; db_attempts := []; db_checkpoints := []; db_events := [];
     db_manual := []; db_self_tests := []; db_signals := []; db_signal_events := [];
     db_artifacts := []; db_artifact_events := []; db_frames := []; db_replays := [] |}.

(** ** Tables *)

Definition harness_goals : table Db goal_row :=
  Table db_goals (λ l s,
     {| db_goals := l; db_workflows := db_workflows s; db_approvals := db_approvals s;
        db_budgets := db_budgets s; db_work := db_work s; db_deps := db_deps s;
        db_attempts := db_attempts s; db_checkpoints := db_checkpoints s;
        db_events := db_events s; db_manual := db_manual s;
        db_self_tests := db_self_tests s; db_signals := db_signals s;
        db_signal_events := db_signal_events s; db_artifacts := db_artifacts s;
        db_artifact_events := db_artifact_events s; db_frames := db_frames s;
        db_replays := db_replays s |}).

Definition harness_workflows : table Db workflow_row :=
  Table db_workflows (λ l s,
     {| db_goals := db_goals s; db_workflows := l; db_approvals := db_approvals s;
        db_budgets := db_budgets s; db_work := db_work s; db_deps := db_deps s;
        db_attempts := db_attempts s; db_checkpoints := db_checkpoints s;
        db_events := db_events s; db_manual := db_manual s;
        db_self_tests := db_self_tests s; db_signals := db_signals s;
        db_signal_events := db_signal_events s; db_artifacts := db_artifacts s;
        db_artifact_events := db_artifact_events s; db_frames := db_frames s;
        db_replays := db_replays s |}).

Definition harness_goal_approvals : table Db approval_row :=
  Table db_approvals (λ l s,
     {| db_goals := db_goals s; db_workflows := db_workflows s; db_approvals := l;
        db_budgets := db_budgets s; db_work := db_work s; db_deps := db_deps s;
        db_attempts := db_attempts s; db_checkpoints := db_checkpoints s;
        db_events := db_events s; db_manual := db_manual s;
        db_self_tests := db_self_tests s; db_signals := db_signals s;
        db_signal_events := db_signal_events s; db_artifacts := db_artifacts s;
        db_artifact_events := db_artifact_events s; db_frames := db_frames s;
        db_replays := db_replays s |}).

Definition harness_goal_budget_usage : table Db budget_row :=
  Table db_budgets (λ l s,
     {| db_goals := db_goals s; db_workflows := db_workflows s;
        db_approvals := db_approvals s; db_budgets := l; db_work := db_work s;
        db_deps := db_deps s; db_attempts := db_attempts s;
        db_checkpoints := db_checkpoints s; db_events := db_events s;
        db_manual := db_manual s; db_self_tests := db_self_tests s;
        db_signals := db_signals s; db_signal_events := db_signal_events s;
        db_artifacts := db_artifacts s; db_artifact_events := db_artifact_events s;
        db_frames := db_frames s; db_replays := db_replays s |}).

Definition harness_work_items : table Db work_row :=
  Table db_work (λ l s,
     {| db_goals := db_goals s; db_workflows := db_workflows s;
        db_approvals := db_approvals s; db_budgets := db_budgets s; db_work := l;
        db_deps := db_deps s; db_attempts := db_attempts s;
        db_checkpoints := db_checkpoints s; db_events := db_events s;
        db_manual := db_manual s; db_self_tests := db_self_tests s;
        db_signals := db_signals s; db_signal_events := db_signal_events s;
        db_artifacts := db_artifacts s; db_artifact_events := db_artifact_events s;
        db_frames := db_frames s; db_replays := db_replays s |}).

Definition harness_work_item_dependencies : table Db dep_row :=
  Table db_deps (λ l s,
     {| db_goals := db_goals s; db_workflows := db_workflows s;
        db_approvals := db_approvals s; db_budgets := db_budgets s; db_work := db_work s;
        db_deps := l; db_attempts := db_attempts s; db_checkpoints := db_checkpoints s;
        db_events := db_events s; db_manual := db_manual s;
        db_self_tests := db_self_tests s; db_signals := db_signals s;
        db_signal_events := db_signal_events s; db_artifacts := db_artifacts s;
        db_artifact_events := db_artifact_events s; db_frames := db_frames s;
        db_replays := db_replays s |}).

Definition harness_attempts : table Db attempt_row :=
  Table db_attempts (λ l s,
     {| db_goals := db_goals s; db_workflows := db_workflows s;
        db_approvals := db_approvals s; db_budgets := db_budgets s; db_work := db_work s;
        db_deps := db_deps s; db_attempts := l; db_checkpoints := db_checkpoints s;
        db_events := db_events s; db_manual := db_manual s;
        db_self_tests := db_self_tests s; db_signals := db_signals s;
        db_signal_events := db_signal_events s; db_artifacts := db_artifacts s;
        db_artifact_events := db_artifact_events s; db_frames := db_frames s;
        db_replays := db_replays s |}).

Definition harness_checkpoints : table Db checkpoint_row :=
  Table db_checkpoints (λ l s,
     {| db_goals := db_goals s; db_workflows := db_workflows s;
        db_approvals := db_approvals s; db_budgets := db_budgets s; db_work := db_work s;
        db_deps := db_deps s; db_attempts := db_attempts s; db_checkpoints := l;
        db_events := db_events s; db_manual := db_manual s;
        db_self_tests := db_self_tests s; db_signals := db_signals s;
        db_signal_events := db_signal_events s; db_artifacts := db_artifacts s;
        db_artifact_events := db_artifact_events s; db_frames := db_frames s;
        db_replays := db_replays s |}).

Definition harness_events : table Db event_row :=
  Table db_events (λ l s,
     {| db_goals := db_goals s; db_workflows := db_workflows s;
        db_approvals := db_approvals s; db_budgets := db_budgets s; db_work := db_work s;
        db_deps := db_deps s; db_attempts := db_attempts s;
        db_checkpoints := db_checkpoints s; db_events := l; db_manual := db_manual s;
        db_self_tests := db_self_tests s; db_signals := db_signals s;
        db_signal_events := db_signal_events s; db_artifacts := db_artifacts s;
        db_artifact_events := db_artifact_events s; db_frames := db_frames s;
        db_replays := db_replays s |}).

Definition harness_manual_verifications : table Db manual_row :=
  Table db_manual (λ l s,
     {| db_goals := db_goals s; db_workflows := db_workflows s;
        db_approvals := db_approvals s; db_budgets := db_budgets s; db_work := db_work s;
        db_deps := db_deps s; db_attempts := db_attempts s;
        db_checkpoints := db_checkpoints s; db_events := db_events s; db_manual := l;
        db_self_tests := db_self_tests s; db_signals := db_signals s;
        db_signal_events := db_signal_events s; db_artifacts := db_artifacts s;
        db_artifact_events := db_artifact_events s; db_frames := db_frames s;
        db_replays := db_replays s |}).

Definition harness_self_test_runs : table Db self_test_row :=
  Table db_self_tests (λ l s,
     {| db_goals := db_goals s; db_workflows := db_workflows s;
        db_approvals := db_approvals s; db_budgets := db_budgets s; db_work := db_work s;
        db_deps := db_deps s; db_attempts := db_attempts s;
        db_checkpoints := db_checkpoints s; db_events := db_events s;
        db_manual := db_manual s; db_self_tests := l; db_signals := db_signals s;
        db_signal_events := db_signal_events s; db_artifacts := db_artifacts s;
        db_artifact_events := db_artifact_events s; db_frames := db_frames s;
        db_replays := db_replays s |}).

Definition harness_signals : table Db signal_row :=
  Table db_signals (λ l s,
     {| db_goals := db_goals s; db_workflows := db_workflows s;
        db_approvals := db_approvals s; db_budgets := db_budgets s; db_work := db_work s;
        db_deps := db_deps s; db_attempts := db_attempts s;
        db_checkpoints := db_checkpoints s; db_events := db_events s;
        db_manual := db_manual s; db_self_tests := db_self_tests s; db_signals := l;
        db_signal_events := db_signal_events s; db_artifacts := db_artifacts s;
        db_artifact_events := db_artifact_events s; db_frames := db_frames s;
        db_replays := db_replays s |}).

Definition harness_signal_events : table Db signal_event_row :=
  Table db_signal_events (λ l s,
     {| db_goals := db_goals s; db_workflows := db_workflows s;
        db_approvals := db_approvals s; db_budgets := db_budgets s; db_work := db_work s;
        db_deps := db_deps s; db_attempts := db_attempts s;
        db_checkpoints := db_checkpoints s; db_events := db_events s;
        db_manual := db_manual s; db_self_tests := db_self_tests s;
        db_signals := db_signals s; db_signal_events := l; db_artifacts := db_artifacts s;
        db_artifact_events := db_artifact_events s; db_frames := db_frames s;
        db_replays := db_replays s |}).

Definition harness_artifacts : table Db artifact_row :=
  Table db_artifacts (λ l s,
     {| db_goals := db_goals s; db_workflows := db_workflows s;
        db_approvals := db_approvals s; db_budgets := db_budgets s; db_work := db_work s;
        db_deps := db_deps s; db_attempts := db_attempts s;
        db_checkpoints := db_checkpoints s; db_events := db_events s;
        db_manual := db_manual s; db_self_tests := db_self_tests s;
        db_signals := db_signals s; db_signal_events := db_signal_events s;
        db_artifacts := l; db_artifact_events := db_artifact_events s;
        db_frames := db_frames s; db_replays := db_replays s |}).

Definition harness_artifact_events : table Db artifact_event_row :=
  Table db_artifact_events (λ l s,
     {| db_goals := db_goals s; db_workflows := db_workflows s;
        db_approvals := db_approvals s; db_budgets := db_budgets s; db_work := db_work s;
        db_deps := db_deps s; db_attempts := db_attempts s;
        db_checkpoints := db_checkpoints s; db_events := db_events s;
        db_manual := db_manual s; db_self_tests := db_self_tests s;
        db_signals := db_signals s; db_signal_events := db_signal_events s;
        db_artifacts := db_artifacts s; db_artifact_events := l; db_frames := db_frames s;
        db_replays := db_replays s |}).

Definition harness_trajectory_frames : table Db frame_row :=
  Table db_frames (λ l s,
     {| db_goals := db_goals s; db_workflows := db_workflows s;
        db_approvals := db_approvals s; db_budgets := db_budgets s; db_work := db_work s;
        db_deps := db_deps s; db_attempts := db_attempts s;
        db_checkpoints := db_checkpoints s; db_events := db_events s;
        db_manual := db_manual s; db_self_tests := db_self_tests s;
        db_signals := db_signals s; db_signal_events := db_signal_events s;
        db_artifacts := db_artifacts s; db_artifact_events := db_artifact_events s;
        db_frames := l; db_replays := db_replays s |}).

Definition harness_replay_runs : table Db replay_row :=
  Table db_replays (λ l s,
     {| db_goals := db_goals s; db_workflows := db_workflows s;
        db_approvals := db_approvals s; db_budgets := db_budgets s; db_work := db_work s;
        db_deps := db_deps s; db_attempts := db_attempts s;
        db_checkpoints := db_checkpoints s; db_events := db_events s;
        db_manual := db_manual s; db_self_tests := db_self_tests s;
        db_signals := db_signals s; db_signal_events := db_signal_events s;
        db_artifacts := db_artifacts s; db_artifact_events := db_artifact_events s;
        db_frames := db_frames s; db_replays := l |}).

(** ** Column setters *)

Definition set_goal_status (st : GoalStatus) (now : Z) (r : goal_row) : goal_row :=
  {| g_id := g_id r; g_objective := g_objective r; g_status := st;
     g_revision := g_revision r; g_source_signal_ids := g_source_signal_ids r;
     g_request_id := g_request_id r; g_created_by := g_created_by r;
     g_internal_only := g_internal_only r; g_created_at := g_created_at r;
     g_updated_at := now |}.

Definition set_goal_revision (rev : Z) (r : goal_row) : goal_row :=
  {| g_id := g_id r; g_objective := g_objective r; g_status := g_status r;
     g_revision := rev; g_source_signal_ids := g_source_signal_ids r;
     g_request_id := g_request_id r; g_created_by := g_created_by r;
     g_internal_only := g_internal_only r; g_created_at := g_created_at r;
     g_updated_at := g_updated_at r |}.

Definition set_budget_calls (calls : Z) (r : budget_row) : budget_row :=
  {| b_goal_id := b_goal_id r; b_max_provider_calls := b_max_provider_calls r;
     b_deadline_secs := b_deadline_secs r; b_max_response_bytes := b_max_response_bytes r;
     b_provider_calls := calls; b_response_bytes := b_response_bytes r;
     b_started_at := b_started_at r |}.

Definition set_budget_bytes (n : Z) (r : budget_row) : budget_row :=
  {| b_goal_id := b_goal_id r; b_max_provider_calls := b_max_provider_calls r;
     b_deadline_secs := b_deadline_secs r; b_max_response_bytes := b_max_response_bytes r;
     b_provider_calls := b_provider_calls r; b_response_bytes := n;
     b_started_at := b_started_at r |}.

Definition set_budget_started (t : option Z) (r : budget_row) : budget_row :=
  {| b_goal_id := b_goal_id r; b_max_provider_calls := b_max_provider_calls r;
     b_deadline_secs := b_deadline_secs r; b_max_response_bytes := b_max_response_bytes r;
     b_provider_calls := b_provider_calls r; b_response_bytes := b_response_bytes r;
     b_started_at := t |}.

Definition set_work_status (st : WorkItemStatus) (now : Z) (r : work_row) : work_row :=
  {| wi_id := wi_id r; wi_goal_id := wi_goal_id r; wi_workflow_id := wi_workflow_id r;
     wi_step_id := wi_step_id r; wi_status := st; wi_handler := wi_handler r;
     wi_effect := wi_effect r; wi_input := wi_input r;
     wi_max_attempts := wi_max_attempts r; wi_backoff_secs := wi_backoff_secs r;
     wi_ordinal := wi_ordinal r; wi_lease_token := wi_lease_token r;
     wi_lease_until := wi_lease_until r; wi_fencing_token := wi_fencing_token r;
     wi_next_attempt_at := wi_next_attempt_at r; wi_last_error := wi_last_error r;
     wi_progress := wi_progress r; wi_created_at := wi_created_at r;
     wi_updated_at := now |}.

Definition set_lease (token : option string) (until : option Z) (r : work_row) : work_row :=
  {| wi_id := wi_id r; wi_goal_id := wi_goal_id r; wi_workflow_id := wi_workflow_id r;
     wi_step_id := wi_step_id r; wi_status := wi_status r; wi_handler := wi_handler r;
     wi_effect := wi_effect r; wi_input := wi_input r;
     wi_max_attempts := wi_max_attempts r; wi_backoff_secs := wi_backoff_secs r;
     wi_ordinal := wi_ordinal r; wi_lease_token := token; wi_lease_until := until;
     wi_fencing_token := wi_fencing_token r; wi_next_attempt_at := wi_next_attempt_at r;
     wi_last_error := wi_last_error r; wi_progress := wi_progress r;
     wi_created_at := wi_created_at r; wi_updated_at := wi_updated_at r |}.

Definition set_fencing (n : Z) (r : work_row) : work_row :=
  {| wi_id := wi_id r; wi_goal_id := wi_goal_id r; wi_workflow_id := wi_workflow_id r;
     wi_step_id := wi_step_id r; wi_status := wi_status r; wi_handler := wi_handler r;
     wi_effect := wi_effect r; wi_input := wi_input r;
     wi_max_attempts := wi_max_attempts r; wi_backoff_secs := wi_backoff_secs r;
     wi_ordinal := wi_ordinal r; wi_lease_token := wi_lease_token r;
     wi_lease_until := wi_lease_until r; wi_fencing_token := n;
     wi_next_attempt_at := wi_next_attempt_at r; wi_last_error := wi_last_error r;
     wi_progress := wi_progress r; wi_created_at := wi_created_at r;
     wi_updated_at := wi_updated_at r |}.

Definition set_next_attempt (t : option Z) (r : work_row) : work_row :=
  {| wi_id := wi_id r; wi_goal_id := wi_goal_id r; wi_workflow_id := wi_workflow_id r;
     wi_step_id := wi_step_id r; wi_status := wi_status r; wi_handler := wi_handler r;
     wi_effect := wi_effect r; wi_input := wi_input r;
     wi_max_attempts := wi_max_attempts r; wi_backoff_secs := wi_backoff_secs r;
     wi_ordinal := wi_ordinal r; wi_lease_token := wi_lease_token r;
     wi_lease_until := wi_lease_until r; wi_fencing_token := wi_fencing_token r;
     wi_next_attempt_at := t; wi_last_error := wi_last_error r;
     wi_progress := wi_progress r; wi_created_at := wi_created_at r;
     wi_updated_at := wi_updated_at r |}.

Definition set_last_error (e : option string) (r : work_row) : work_row :=
  {| wi_id := wi_id r; wi_goal_id := wi_goal_id r; wi_workflow_id := wi_workflow_id r;
     wi_step_id := wi_step_id r; wi_status := wi_status r; wi_handler := wi_handler r;
     wi_effect := wi_effect r; wi_input := wi_input r;
     wi_max_attempts := wi_max_attempts r; wi_backoff_secs := wi_backoff_secs r;
     wi_ordinal := wi_ordinal r; wi_lease_token := wi_lease_token r;
     wi_lease_until := wi_lease_until r; wi_fencing_token := wi_fencing_token r;
     wi_next_attempt_at := wi_next_attempt_at r; wi_last_error := e;
     wi_progress := wi_progress r; wi_created_at := wi_created_at r;
     wi_updated_at := wi_updated_at r |}.

Definition set_progress (p : option WorkPhaseProgress) (r : work_row) : work_row :=
  {| wi_id := wi_id r; wi_goal_id := wi_goal_id r; wi_workflow_id := wi_workflow_id r;
     wi_step_id := wi_step_id r; wi_status := wi_status r; wi_handler := wi_handler r;
     wi_effect := wi_effect r; wi_input := wi_input r;
     wi_max_attempts := wi_max_attempts r; wi_backoff_secs := wi_backoff_secs r;
     wi_ordinal := wi_ordinal r; wi_lease_token := wi_lease_token r;
     wi_lease_until := wi_lease_until r; wi_fencing_token := wi_fencing_token r;
     wi_next_attempt_at := wi_next_attempt_at r; wi_last_error := wi_last_error r;
     wi_progress := p; wi_created_at := wi_created_at r;
     wi_updated_at := wi_updated_at r |}.

Definition touch_work (now : Z) (r : work_row) : work_row :=
  {| wi_id := wi_id r; wi_goal_id := wi_goal_id r; wi_workflow_id := wi_workflow_id r;
     wi_step_id := wi_step_id r; wi_status := wi_status r; wi_handler := wi_handler r;
     wi_effect := wi_effect r; wi_input := wi_input r;
     wi_max_attempts := wi_max_attempts r; wi_backoff_secs := wi_backoff_secs r;
     wi_ordinal := wi_ordinal r; wi_lease_token := wi_lease_token r;
     wi_lease_until := wi_lease_until r; wi_fencing_token := wi_fencing_token r;
     wi_next_attempt_at := wi_next_attempt_at r; wi_last_error := wi_last_error r;
     wi_progress := wi_progress r; wi_created_at := wi_created_at r;
     wi_updated_at := now |}.

Definition set_attempt_status (st : AttemptStatus) (r : attempt_row) : attempt_row :=
  {| at_id := at_id r; at_goal_id := at_goal_id r; at_work_item_id := at_work_item_id r;
     at_number := at_number r; at_status := st; at_worker_id := at_worker_id r;
     at_lease_token := at_lease_token r; at_fencing_token := at_fencing_token r;
     at_started_at := at_started_at r; at_finished_at := at_finished_at r;
     at_error := at_error r |}.

Definition finish_attempt_row (now : Z) (e : option string) (r : attempt_row) : attempt_row :=
  {| at_id := at_id r; at_goal_id := at_goal_id r; at_work_item_id := at_work_item_id r;
     at_number := at_number r; at_status := at_status r; at_worker_id := at_worker_id r;
     at_lease_token := at_lease_token r; at_fencing_token := at_fencing_token r;
     at_started_at := at_started_at r; at_finished_at := Some now; at_error := e |}.

Definition set_phase (ph : CheckpointPhase) (now : Z) (r : checkpoint_row) : checkpoint_row :=
  {| cp_id := cp_id r; cp_goal_id := cp_goal_id r; cp_work_item_id := cp_work_item_id r;
     cp_attempt_id := cp_attempt_id r; cp_phase := ph;
     cp_idempotency_key := cp_idempotency_key r; cp_replay_safe := cp_replay_safe r;
     cp_outcome := cp_outcome r; cp_created_at := cp_created_at r; cp_updated_at := now |}.

Definition set_outcome (o : option WorkOutcome) (r : checkpoint_row) : checkpoint_row :=
  {| cp_id := cp_id r; cp_goal_id := cp_goal_id r; cp_work_item_id := cp_work_item_id r;
     cp_attempt_id := cp_attempt_id r; cp_phase := cp_phase r;
     cp_idempotency_key := cp_idempotency_key r; cp_replay_safe := cp_replay_safe r;
     cp_outcome := o; cp_created_at := cp_created_at r; cp_updated_at := cp_updated_at r |}.

End rows.
