(* ===== verification/Signals.v ===== *)
(** * Signals

    Models src/harness/loop_engine/signals.rs: validation, the three layers of
    deduplication on ingest, and the signal life cycle, an append-only event
    list whose last entry is the signal's status. *)

From S2P Require Import Prelude Text External Domain Tables.
From Stdlib Require Import Ascii.

(** ** Enumerations *)

Definition signal_kind_as_str (k : SignalKind) : string :=
  match k with
  | KTrajectory => "trajectory"
  | KUserFeedback => "user_feedback"
  | KDeveloperFeedback => "developer_feedback"
  | KCommunity => "community"
  | KSelfTest => "self_test"
  | KSessionReplay => "session_replay"
  | KDeploymentOutcome => "deployment_outcome"
  | KManual => "manual"
  end.

Definition signal_kind_from_db (value : string) : res SignalKind :=
  if String.eqb value "trajectory" then Ok KTrajectory
  else if String.eqb value "user_feedback" then Ok KUserFeedback
  else if String.eqb value "developer_feedback" then Ok KDeveloperFeedback
  else if String.eqb value "community" then Ok KCommunity
  else if String.eqb value "self_test" then Ok KSelfTest
  else if String.eqb value "session_replay" then Ok KSessionReplay
  else if String.eqb value "deployment_outcome" then Ok KDeploymentOutcome
  else if String.eqb value "manual" then Ok KManual
  else Err ("unknown signal kind: " +:+ value).

Definition signal_trust_as_str (t : SignalTrust) : string :=
  match t with
  | TInternal => "internal"
  | TAuthenticated => "authenticated"
  | TExternal => "external"
  end.

Definition signal_trust_from_db (value : string) : res SignalTrust :=
  if String.eqb value "internal" then Ok TInternal
  else if String.eqb value "authenticated" then Ok TAuthenticated
  else if String.eqb value "external" then Ok TExternal
  else Err ("unknown signal trust: " +:+ value).

Definition signal_status_as_str (s : SignalStatus) : string :=
  match s with
  | SObserved => "observed"
  | STriaged => "triaged"
  | SProposed => "proposed"
  | SIgnored => "ignored"
  end.

Definition signal_status_from_db (value : string) : res SignalStatus :=
  if String.eqb value "observed" then Ok SObserved
  else if String.eqb value "triaged" then Ok STriaged
  else if String.eqb value "proposed" then Ok SProposed
  else if String.eqb value "ignored" then Ok SIgnored
  else Err ("unknown signal status: " +:+ value).

Record SignalRecord : Type := {
  sr_id : string;
  sr_kind : SignalKind;
  sr_trust : SignalTrust;
  sr_status : SignalStatus;
  sr_source : string;
  sr_external_id : option string;
  sr_content : string;
  sr_content_hash : string;
  sr_metadata : list (string * string);
  sr_created_at : Z
}.

Record SignalIngestResult : Type := {
  si_signal : SignalRecord;
  si_deduplicated : bool
}.

(** ** Validation *)

Definition signal_validate `{!Serialize (list (string * string))}
    (self : CreateSignalRequest) : res unit :=
  guard_res (bounded_nonblank 160 (cs_source self)) "signal source must be 1..=160 bytes" ;;
  match cs_external_id self with
  | Some external_id =>
      guard_res (bounded_nonblank 200 external_id) "signal external id must be 1..=200 bytes"
  | None => Ok tt
  end ;;
  guard_res (negb (is_blank (cs_content self)) &&
             (N.of_nat (chars_count (cs_content self)) <=? 16384)%N)
    "signal content must be 1..=16384 characters" ;;
  guard_res (length (cs_metadata self) <=? 64) "signal metadata cannot exceed 64 entries" ;;
  for_res (λ '(key, value) _,
    guard_res (bounded_nonblank 96 key && (N.of_nat (String.length value) <=? 1024)%N)
      "signal metadata key/value exceeds limits") (cs_metadata self) tt ;;
  ok ← serialized_within 8192 (cs_metadata self);
  guard_res ok "signal metadata cannot exceed 8192 bytes".

(** ** Normalisation and similarity *)

(** [s.chars()]: each character as its bytes. *)
Fixpoint chars_go (cur : string) (s : string) : list string :=
  match s with
  | EmptyString => if String.eqb cur "" then [] else [cur]
  | String a s' =>
      if is_cont a then chars_go (cur +:+ String a EmptyString) s'
      else (if String.eqb cur "" then [] else [cur]) ++ chars_go (String a EmptyString) s'
  end.

Definition chars (s : string) : list string := chars_go "" s.

(** The loop of [normalize_for_tokens]. *)
Fixpoint normalize_go `{Unicode} (cs : list string) (normalized : string)
    (pending_space : bool) : string :=
  match cs with
  | [] => normalized
  | ch :: cs' =>
      if char_is_alphanumeric ch then
        let normalized :=
          if pending_space && negb (String.eqb normalized "") then normalized +:+ " "
          else normalized in
        normalize_go cs' (normalized +:+ char_to_lowercase ch) false
      else normalize_go cs' normalized true
  end.

Definition normalize_for_tokens `{Unicode} (content : string) : string :=
  normalize_go (chars (trim content)) "" false.

(** [split(' ')] on bytes. *)
Fixpoint split_space (cur : string) (s : string) : list string :=
  match s with
  | EmptyString => [cur]
  | String a s' =>
      if Ascii.eqb a " "%char then cur :: split_space "" s'
      else split_space (cur +:+ String a EmptyString) s'
  end.

Definition signal_tokens `{Unicode} (content : string) : gset string :=
  list_to_set (List.filter (λ t, negb (String.eqb t ""))
                 (split_space "" (normalize_for_tokens content))).

Definition normalized_signal_hash `{Unicode} `{Sha256} `{!Serialize (string * string)}
    (kind : SignalKind) (content : string) : string :=
  let normalized := normalize_for_tokens content in
  let hash_input := if String.eqb normalized "" then trim content else normalized in
  match hash_serializable (signal_kind_as_str kind, hash_input) with
  | Ok h => h
  | Err _ => ""
  end.

(** [jaccard_similarity] as an exact fraction (intersection, union).  The code
    divides two [f64]s; token counts stay far below 2^26, where the rounded
    quotients of different fractions differ and keep their order, and the
    quotient of 9/10 is the literal [0.9]. *)
Definition jaccard_similarity (left right : gset string) : nat * nat :=
  if decide (left = ∅ ∨ right = ∅) then (0, 1)
  else (size (left ∩ right), size (left ∪ right)).

(** [score >= NEAR_DUPLICATE_SIMILARITY]. *)
Definition near_duplicate (score : nat * nat) : bool := 9 * score.2 <=? 10 * score.1.

Definition score_gt (a b : nat * nat) : bool := b.1 * a.2 <? a.1 * b.2.

(** [max_by(total_cmp)] keeps the last of equal maxima. *)
Fixpoint max_by_score (best : option (string * (nat * nat)))
    (l : list (string * (nat * nat))) : option (string * (nat * nat)) :=
  match l with
  | [] => best
  | x :: l' =>
      let best' := match best with
                   | None => x
                   | Some b => if score_gt b.2 x.2 then b else x
                   end in
      max_by_score (Some best') l'
  end.

Definition NEAR_DUPLICATE_SCAN_LIMIT : nat := 128.

Section signals.
  Context `{ENV : LoopEnv}.

Abbreviation DB := (M Db).

(** ** Reads *)

(** [COALESCE((SELECT e.status .. ORDER BY e.sequence DESC LIMIT 1), 'observed')]. *)
Definition signal_status_of (s : Db) (signal_id : string) : SignalStatus :=
  match last (List.filter (λ e, String.eqb (se_signal_id e) signal_id) (db_signal_events s)) with
  | Some e => se_status e
  | None => SObserved
  end.

Definition decode_signal (s : Db) (r : signal_row) : SignalRecord :=
  {| sr_id := sg_id r; sr_kind := sg_kind r; sr_trust := sg_trust r;
     sr_status := signal_status_of s (sg_id r); sr_source := sg_source r;
     sr_external_id := sg_external_id r; sr_content := sg_content r;
     sr_content_hash := sg_content_hash r; sr_metadata := sg_metadata r;
     sr_created_at := sg_created_at r |}.

Definition get_signal (signal_id : string) : DB (option SignalRecord) :=
  row ← sql_first harness_signals (λ r, String.eqb (sg_id r) signal_id);
  s ← get_db;
  mret (decode_signal s <$> row).

Definition signal_newest_first (a b : signal_row) : bool :=
  (sg_created_at b <? sg_created_at a)%Z ||
  ((sg_created_at b =? sg_created_at a)%Z && String.leb (sg_id b) (sg_id a)).

Definition list_signals (limit : nat) (status : option SignalStatus) : DB (list SignalRecord) :=
  s ← get_db;
  rows ← sql_select harness_signals (λ r,
    match status with
    | Some st => bool_decide (signal_status_of s (sg_id r) = st)
    | None => true
    end);
  mret (decode_signal s <$> take (Nat.min (Nat.max limit 1) 500) (order_by signal_newest_first rows)).

(** ** Life cycle *)

(** [signal_id REFERENCES harness_signals(id)]: sqlx opens SQLite with foreign
    keys on.  This is the one insert whose referenced row the same transaction
    has not read or written before. *)
Definition insert_signal_event_tx (signal_id : string) (status : SignalStatus)
    (actor : string) (d : details) : DB unit :=
  s ← get_db;
  ensure (existsb (λ r, String.eqb (sg_id r) signal_id) (db_signals s))
    "FOREIGN KEY constraint failed" ;;
  sql_insert harness_signal_events (λ _, false)
    {| se_signal_id := signal_id; se_status := status; se_actor := actor; se_details := d |}.

Definition open_signal (st : SignalStatus) : bool :=
  match st with SObserved | STriaged => true | _ => false end.

Definition ignore_signal (signal_id reason actor : string) : DB SignalRecord :=
  ensure (negb (is_blank reason) && (chars_count reason <=? 512))
    "signal ignore reason must be 1..=512 characters" ;;
  signal ← get_signal signal_id;
  signal ← context "signal not found" signal;
  ensure (open_signal (sr_status signal))
    ("signal cannot be ignored from status '" +:+
     signal_status_as_str (sr_status signal) +:+ "'") ;;
  transaction (insert_signal_event_tx signal_id SIgnored actor
    [("reason", JStr (trim reason))]) ;;
  signal ← get_signal signal_id;
  context "ignored signal disappeared" signal.

Definition triage_signal (signal_id actor : string) : DB SignalRecord :=
  signal ← get_signal signal_id;
  signal ← context "signal not found" signal;
  if decide (sr_status signal = STriaged) then mret signal
  else
    ensure (bool_decide (sr_status signal = SObserved))
      ("signal cannot be triaged from status '" +:+
       signal_status_as_str (sr_status signal) +:+ "'") ;;
    transaction (insert_signal_event_tx signal_id STriaged actor []) ;;
    signal ← get_signal signal_id;
    context "triaged signal disappeared" signal.

Definition mark_signal_proposed (signal_id goal_id actor : string) : DB unit :=
  transaction (
    exists_ ← sql_count harness_signals (λ r, String.eqb (sg_id r) signal_id);
    ensure (exists_ =? 1)%Z "signal not found" ;;
    insert_signal_event_tx signal_id SProposed actor [("goal_id", JStr goal_id)]).

(** ** Ingest *)

Definition signal_oldest_first (a b : signal_row) : bool :=
  (sg_created_at a <=? sg_created_at b)%Z.

(** Layer one: the same external id or the same fingerprint. *)
Definition find_exact (request : CreateSignalRequest) (fingerprint : string)
    : DB (option string) :=
  rows ← sql_select harness_signals (λ r,
    String.eqb (sg_source r) (trim (cs_source request)) &&
    (match cs_external_id request with
     | Some external_id => bool_decide (sg_external_id r = Some external_id)
     | None => false
     end || String.eqb (sg_fingerprint r) fingerprint));
  mret (sg_id <$> head (order_by signal_oldest_first rows)).

(** Layer two: the same normalised content. *)
Definition find_normalized (request : CreateSignalRequest) (normalized_hash : string)
    : DB (option string) :=
  rows ← sql_select harness_signals (λ r,
    String.eqb (sg_source r) (trim (cs_source request)) &&
    bool_decide (sg_normalized_hash r = Some normalized_hash));
  mret (sg_id <$> head (order_by signal_oldest_first rows)).

(** Layer three: near-duplicates among the most recent signals. *)
Definition find_near (request : CreateSignalRequest) : DB (option string) :=
  let tokens := signal_tokens (cs_content request) in
  if decide (tokens = ∅) then mret None
  else
    rows ← sql_select harness_signals (λ r,
      String.eqb (sg_source r) (trim (cs_source request)) &&
      bool_decide (sg_kind r = cs_kind request));
    let recent := take NEAR_DUPLICATE_SCAN_LIMIT (order_by signal_newest_first rows) in
    let scored := (λ r, (sg_id r, jaccard_similarity tokens (signal_tokens (sg_content r))))
                  <$> recent in
    mret (fst <$> max_by_score None (List.filter (λ x, near_duplicate x.2) scored)).

Definition find_duplicate (request : CreateSignalRequest) (fingerprint normalized_hash : string)
    : DB (option string) :=
  exact ← find_exact request fingerprint;
  normalized ← find_normalized request normalized_hash;
  match exact, normalized with
  | Some id, _ => mret (Some id)
  | None, Some id => mret (Some id)
  | None, None => find_near request
  end.

Definition signal_clash (r x : signal_row) : bool :=
  String.eqb (sg_id x) (sg_id r) ||
  (String.eqb (sg_source x) (sg_source r) &&
   (String.eqb (sg_fingerprint x) (sg_fingerprint r) ||
    match sg_external_id x, sg_external_id r with
    | Some a, Some b => String.eqb a b
    | _, _ => false
    end ||
    match sg_normalized_hash x, sg_normalized_hash r with
    | Some a, Some b => String.eqb a b
    | _, _ => false
    end)).

Definition insert_signal (request : CreateSignalRequest)
    (fingerprint content_hash normalized_hash actor : string) : DB string :=
  id ← new_loop_id "signal";
  now ← unix_now;
  let row := {| sg_id := id; sg_kind := cs_kind request; sg_trust := cs_trust request;
                sg_source := trim (cs_source request);
                sg_external_id := cs_external_id request;
                sg_content := trim (cs_content request); sg_content_hash := content_hash;
                sg_fingerprint := fingerprint; sg_normalized_hash := Some normalized_hash;
                sg_metadata := cs_metadata request; sg_created_by := actor;
                sg_created_at := now |} in
  sql_insert harness_signals (signal_clash row) row ;;
  insert_signal_event_tx id SObserved actor [("fingerprint", JStr fingerprint)] ;;
  mret id.

(** The transaction of [ingest_signal]: the signal's id, and whether it was there. *)
Definition ingest_tx (request : CreateSignalRequest)
    (fingerprint content_hash normalized_hash actor : string) : DB (string * bool) :=
  transaction (
    existing ← find_duplicate request fingerprint normalized_hash;
    match existing with
    | Some id => mret (id, true)
    | None =>
        id ← insert_signal request fingerprint content_hash normalized_hash actor;
        mret (id, false)
    end).

Definition ingest_signal (request : CreateSignalRequest) (actor : string)
    : DB SignalIngestResult :=
  fingerprint ← lift_res (hash_serializable request);
  content_hash ← lift_res (hash_serializable (cs_content request));
  let normalized_hash := normalized_signal_hash (cs_kind request) (cs_content request) in
  '(id, deduplicated) ← ingest_tx request fingerprint content_hash normalized_hash actor;
  signal ← get_signal id;
  signal ← context (if deduplicated : bool then "deduplicated signal disappeared"
                    else "created signal disappeared") signal;
  mret {| si_signal := signal; si_deduplicated := deduplicated |}.

End signals.
