(* ===== verification/Artifacts.v ===== *)
(** * Artifacts

    Models src/harness/loop_engine/artifacts.rs: validation of a publish
    request, and the registry keyed by (kind, name, version). *)

From S2P Require Import Prelude Text External Domain Tables.

Definition artifact_kind_as_str (k : ArtifactKind) : string :=
  match k with
  | GoalTemplate => "goal_template"
  | DynamicWorkflow => "dynamic_workflow"
  | EvalSuite => "eval_suite"
  | SkillManifest => "skill_manifest"
  | ReplayCorpus => "replay_corpus"
  | DesktopView => "desktop_view"
  | AnalysisReport => "analysis_report"
  | SelfTestReport => "self_test_report"
  | EvolutionEvaluation => "evolution_evaluation"
  | PromptPolicyRef => "prompt_policy_ref"
  end.

Definition artifact_kind_from_db (value : string) : res ArtifactKind :=
  if String.eqb value "goal_template" then Ok GoalTemplate
  else if String.eqb value "dynamic_workflow" then Ok DynamicWorkflow
  else if String.eqb value "eval_suite" then Ok EvalSuite
  else if String.eqb value "skill_manifest" then Ok SkillManifest
  else if String.eqb value "replay_corpus" then Ok ReplayCorpus
  else if String.eqb value "desktop_view" then Ok DesktopView
  else if String.eqb value "analysis_report" then Ok AnalysisReport
  else if String.eqb value "self_test_report" then Ok SelfTestReport
  else if String.eqb value "evolution_evaluation" then Ok EvolutionEvaluation
  else if String.eqb value "prompt_policy_ref" then Ok PromptPolicyRef
  else Err ("unknown artifact kind: " +:+ value).

Section artifacts.
  Context `{ENV : LoopEnv}.

Abbreviation DB := (M Db).

(** The extra shape of a [prompt_policy_ref]: lifecycle references only. *)
Definition prompt_policy_validate (content : json) : res unit :=
  keys ← context_res "prompt_policy_ref content must be an object" (json_object_keys content);
  guard_res (forallb (λ key, str_mem key ["evolution_candidate_id"; "deployment_id"]) keys)
    "prompt_policy_ref may only contain evolution lifecycle references" ;;
  let candidate_id := default "" (json_get content "evolution_candidate_id" ≫= json_as_str) in
  guard_res (bounded_nonblank 160 candidate_id)
    "prompt_policy_ref requires evolution_candidate_id" ;;
  match json_get content "deployment_id" ≫= json_as_str with
  | Some deployment_id =>
      guard_res (bounded_nonblank 160 deployment_id) "deployment_id must be 1..=160 bytes"
  | None => Ok tt
  end.

Definition optional_id_validate (value : option string) (label : string) : res unit :=
  match value with
  | Some value => guard_res (bounded_nonblank 160 value) (label +:+ " must be 1..=160 bytes")
  | None => Ok tt
  end.

Definition artifact_validate (self : PublishArtifactRequest) : res unit :=
  guard_res (bounded_nonblank 160 (pa_name self)) "artifact name must be 1..=160 bytes" ;;
  guard_res (bounded_nonblank 80 (pa_version self)) "artifact version must be 1..=80 bytes" ;;
  ok ← serialized_within 32768 (pa_content self);
  guard_res ok "artifact content cannot exceed 32768 bytes" ;;
  optional_id_validate (pa_source_goal_id self) "source goal id" ;;
  optional_id_validate (pa_parent_artifact_id self) "parent artifact id" ;;
  if decide (pa_kind self = PromptPolicyRef) then prompt_policy_validate (pa_content self)
  else Ok tt.

(** [kind = ?1 AND name = ?2 AND version = ?3]. *)
Definition artifact_key (kind : ArtifactKind) (name version : string) (r : artifact_row) : bool :=
  bool_decide (ar_kind r = kind) && String.eqb (ar_name r) name &&
  String.eqb (ar_version r) version.

Definition artifact_clash (r x : artifact_row) : bool :=
  String.eqb (ar_id x) (ar_id r) || artifact_key (ar_kind r) (ar_name r) (ar_version r) x.

(** The transaction of [publish_artifact]: the row, and whether it was there. *)
Definition publish_artifact (request : PublishArtifactRequest) (actor : string)
    : DB (artifact_row * bool) :=
  content_hash ← lift_res (hash_serializable (pa_content request));
  transaction (
    match pa_source_goal_id request with
    | Some source_goal_id =>
        exists_ ← sql_count harness_goals (λ g, String.eqb (g_id g) source_goal_id);
        ensure (exists_ =? 1)%Z "source goal not found"
    | None => mret tt
    end ;;
    match pa_parent_artifact_id request with
    | Some parent_id =>
        exists_ ← sql_count harness_artifacts (λ a, String.eqb (ar_id a) parent_id);
        ensure (exists_ =? 1)%Z "parent artifact not found"
    | None => mret tt
    end ;;
    existing ← sql_first harness_artifacts
      (artifact_key (pa_kind request) (trim (pa_name request)) (trim (pa_version request)));
    match existing with
    | Some existing =>
        ensure (String.eqb (ar_content_hash existing) content_hash)
          "artifact version already exists with different content" ;;
        mret (existing, true)
    | None =>
        id ← new_loop_id "artifact";
        now ← unix_now;
        let row := {| ar_id := id; ar_kind := pa_kind request;
                      ar_name := trim (pa_name request);
                      ar_version := trim (pa_version request);
                      ar_content := pa_content request; ar_content_hash := content_hash;
                      ar_source_goal_id := pa_source_goal_id request;
                      ar_parent_artifact_id := pa_parent_artifact_id request;
                      ar_created_by := actor; ar_created_at := now |} in
        sql_insert harness_artifacts (artifact_clash row) row ;;
        sql_insert harness_artifact_events (λ _, false)
          {| ae_artifact_id := id; ae_type := "artifact.published"; ae_actor := actor;
             ae_details := [("content_hash", JStr content_hash)] |} ;;
        artifact ← sql_first harness_artifacts (λ a, String.eqb (ar_id a) id);
        artifact ← context "no rows returned" artifact;
        mret (artifact, false)
    end).

Definition get_artifact (artifact_id : string) : DB (option artifact_row) :=
  sql_first harness_artifacts (λ a, String.eqb (ar_id a) artifact_id).

Definition artifact_newest_first (a b : artifact_row) : bool :=
  (ar_created_at b <? ar_created_at a)%Z ||
  ((ar_created_at b =? ar_created_at a)%Z && String.leb (ar_id b) (ar_id a)).

Definition list_artifacts (limit : nat) : DB (list artifact_row) :=
  rows ← sql_select harness_artifacts (λ _, true);
  mret (take (Nat.min (Nat.max limit 1) 500) (order_by artifact_newest_first rows)).

Definition find_artifact (kind : ArtifactKind) (name version : string)
    : DB (option artifact_row) :=
  sql_first harness_artifacts (artifact_key kind name version).

End artifacts.
