(* ===== verification/StoreBase.v ===== *)
(** * The loop store: rows, claims and shared transaction steps

    Models the helpers of src/harness/loop_engine/store.rs: decoding of rows,
    event insertion, the claim check, checkpoint reconciliation, unlocking of
    ready work, the goal status refresh, and the crash recovery that runs before
    every claim and resume. *)

From S2P Require Import Prelude Text External Domain Tables Signals.

Section store.
  Context `{ENV : LoopEnv}.

Abbreviation DB := (M Db).

Definition mapM_res {A B} (f : A → res B) : list A → res (list B) :=
  fix go l :=
    match l with
    | [] => Ok []
    | x :: l' => y ← f x; ys ← go l'; Ok (y :: ys)
    end.

(** ** Decoding *)

Definition decode_goal (row : goal_row) : res GoalRecord :=
  revision ← context_res "invalid goal revision" (try_u32 (g_revision row));
  Ok {| gr_id := g_id row; gr_objective := g_objective row; gr_status := g_status row;
        gr_revision := revision; gr_source_signal_ids := g_source_signal_ids row;
        gr_created_by := g_created_by row; gr_created_at := g_created_at row;
        gr_updated_at := g_updated_at row; gr_internal_only := g_internal_only row |}.

Definition decode_work_item (row : work_row) : res WorkItemRecord :=
  max_attempts ← context_res "invalid max attempts" (try_u8 (wi_max_attempts row));
  ordinal ← context_res "invalid work item ordinal" (try_u32 (wi_ordinal row));
  Ok {| wir_id := wi_id row; wir_goal_id := wi_goal_id row; wir_status := wi_status row;
        wir_step_id := wi_step_id row; wir_handler := wi_handler row;
        wir_effect := wi_effect row; wir_input := wi_input row;
        wir_max_attempts := max_attempts; wir_ordinal := ordinal; wir_dependency_ids := [];
        wir_created_at := wi_created_at row; wir_progress := wi_progress row |}.

Definition decode_checkpoint (row : checkpoint_row) : CheckpointRecord :=
  {| cpr_id := cp_id row; cpr_goal_id := cp_goal_id row;
     cpr_work_item_id := cp_work_item_id row; cpr_attempt_id := cp_attempt_id row;
     cpr_phase := cp_phase row; cpr_idempotency_key := cp_idempotency_key row;
     cpr_replay_safe := cp_replay_safe row; cpr_outcome := cp_outcome row;
     cpr_created_at := cp_created_at row; cpr_updated_at := cp_updated_at row |}.

Definition decode_attempt (row : attempt_row) : res AttemptRecord :=
  number ← context_res "invalid attempt number" (try_u8 (at_number row));
  fencing ← context_res "invalid fencing token" (try_u64 (at_fencing_token row));
  Ok {| atr_id := at_id row; atr_goal_id := at_goal_id row;
        atr_work_item_id := at_work_item_id row; atr_number := number;
        atr_status := at_status row; atr_worker_id := at_worker_id row;
        atr_lease_token := at_lease_token row; atr_fencing_token := fencing;
        atr_started_at := at_started_at row; atr_finished_at := at_finished_at row;
        atr_error := at_error row |}.

(** ** Row predicates *)

Definition is_goal (goal_id : string) (g : goal_row) : bool := String.eqb (g_id g) goal_id.
Definition is_work (id : string) (w : work_row) : bool := String.eqb (wi_id w) id.
Definition of_goal (goal_id : string) (w : work_row) : bool := String.eqb (wi_goal_id w) goal_id.
Definition is_attempt (id : string) (a : attempt_row) : bool := String.eqb (at_id a) id.
Definition is_checkpoint (id : string) (c : checkpoint_row) : bool := String.eqb (cp_id c) id.

Definition goal_in (l : list GoalStatus) (g : goal_row) : bool := bool_decide (g_status g ∈ l).
Definition work_in (l : list WorkItemStatus) (w : work_row) : bool := bool_decide (wi_status w ∈ l).
Definition attempt_in (l : list AttemptStatus) (a : attempt_row) : bool := bool_decide (at_status a ∈ l).
Definition phase_is (p : CheckpointPhase) (c : checkpoint_row) : bool := bool_decide (cp_phase c = p).

(** [status IN ('running', 'committing')]: an attempt whose worker is alive. *)
Definition live_attempt : attempt_row → bool := attempt_in [ARunning; ACommitting].

(** [COUNT( * ) FROM harness_attempts WHERE work_item_id = .. AND status != 'void']. *)
Definition attempt_count (s : Db) (work_item_id : string) : Z :=
  count_where (λ a, String.eqb (at_work_item_id a) work_item_id &&
                    negb (attempt_in [AVoid] a)) (db_attempts s).

(** ** Small steps *)

Definition insert_event (goal_id event_type actor : string) (d : details) : DB unit :=
  now ← unix_now;
  sql_insert harness_events (λ _, false)
    {| ev_goal_id := goal_id; ev_type := event_type; ev_actor := actor;
       ev_details := d; ev_created_at := now |}.

Definition goal_row_tx (goal_id : string) : DB goal_row :=
  g ← sql_first harness_goals (is_goal goal_id);
  context "goal not found" g.

Definition get_goal (goal_id : string) : DB (option GoalRecord) :=
  lift_res (ensure_valid_id goal_id "goal id") ;;
  row ← sql_first harness_goals (is_goal goal_id);
  match row with
  | None => mret None
  | Some row => g ← lift_res (decode_goal row); mret (Some g)
  end.

(** The read after a commit that every goal operation ends with. *)
Definition reload_goal (goal_id : string) : DB GoalRecord :=
  row ← sql_first harness_goals (is_goal goal_id);
  row ← context "no rows returned" row;
  lift_res (decode_goal row).

Definition set_goal_status_tx (goal_id : string) (st : GoalStatus) : DB Z :=
  now ← unix_now;
  sql_update harness_goals (is_goal goal_id) (set_goal_status st now).

(** ** Claims *)

(** The join row that [ensure_claim_current] counts. *)
Definition claim_matches (claim : WorkClaim) (fencing_token now : Z)
    (w : work_row) (a : attempt_row) : bool :=
  let c := wc_attempt claim in
  String.eqb (at_work_item_id a) (wi_id w) &&
  String.eqb (wi_id w) (wir_id (wc_item claim)) &&
  String.eqb (wi_goal_id w) (atr_goal_id c) &&
  work_in [WRunning] w &&
  bool_decide (wi_lease_token w = Some (atr_lease_token c)) &&
  (wi_fencing_token w =? fencing_token)%Z &&
  match wi_lease_until w with Some until => (now <=? until)%Z | None => false end &&
  String.eqb (at_id a) (atr_id c) &&
  String.eqb (at_lease_token a) (atr_lease_token c) &&
  (at_fencing_token a =? fencing_token)%Z &&
  live_attempt a.

Definition claim_count (s : Db) (claim : WorkClaim) (fencing_token now : Z) : Z :=
  count_where (λ '(w, a), claim_matches claim fencing_token now w a)
    (list_prod (db_work s) (db_attempts s)).

Definition ensure_claim_current (claim : WorkClaim) : DB unit :=
  fencing_token ← context "fencing token exceeds sqlite range"
    (try_i64 (atr_fencing_token (wc_attempt claim)));
  now ← unix_now;
  s ← get_db;
  ensure (claim_count s claim fencing_token now =? 1)%Z
    "work claim is stale or its lease expired".

(** ** Checkpoints *)

Definition load_checkpoint_tx (checkpoint_id : string) : DB CheckpointRecord :=
  row ← sql_first harness_checkpoints (is_checkpoint checkpoint_id);
  row ← context "checkpoint not found" row;
  mret (decode_checkpoint row).

(** [SET status, lease_token = NULL, lease_until = NULL, next_attempt_at, last_error]:
    how a running or parked item leaves its lease. *)
Definition release_work (st : WorkItemStatus) (next : option Z) (e : option string)
    (now : Z) (w : work_row) : work_row :=
  set_last_error e (set_next_attempt next (set_lease None None (set_work_status st now w))).

Definition end_attempt (st : AttemptStatus) (now : Z) (e : option string)
    (a : attempt_row) : attempt_row :=
  finish_attempt_row now e (set_attempt_status st a).

Definition void_prepared_tx (attempt_id : string) (now : Z) : DB Z :=
  sql_update harness_checkpoints
    (λ c, phase_is Prepared c && String.eqb (cp_attempt_id c) attempt_id)
    (set_phase Voided now).

Definition reconcile_checkpoint_tx (checkpoint : CheckpointRecord) : DB unit :=
  ensure (bool_decide (cpr_phase checkpoint = Committed))
    "only committed checkpoints can be reconciled" ;;
  now ← unix_now;
  sql_update harness_checkpoints
    (λ c, is_checkpoint (cpr_id checkpoint) c && phase_is Committed c)
    (set_phase Reconciled now) ;;
  now ← unix_now;
  sql_update harness_attempts
    (λ a, is_attempt (cpr_attempt_id checkpoint) a && live_attempt a)
    (end_attempt ASucceeded now None) ;;
  now ← unix_now;
  sql_update harness_work_items
    (λ w, is_work (cpr_work_item_id checkpoint) w && work_in [WRunning] w)
    (λ w, set_progress None (release_work WSucceeded None None now w)) ;;
  mret tt.

(** ** Ready work *)

(** [NOT EXISTS] an unfinished predecessor. *)
Definition deps_satisfied (s : Db) (candidate : work_row) : bool :=
  negb (existsb (λ d, String.eqb (dep_item d) (wi_id candidate) &&
    existsb (λ p, String.eqb (wi_id p) (dep_on d) && negb (work_in [WSucceeded] p))
      (db_work s)) (db_deps s)).

Definition unlock_ready_work_tx (goal_id : string) : DB Z :=
  now ← unix_now;
  s ← get_db;
  sql_update harness_work_items
    (λ c, of_goal goal_id c && work_in [WPending] c && deps_satisfied s c)
    (set_work_status WReady now).

(** ** Goal status refresh *)

(** [(SELECT MAX(goal_revision) FROM harness_goal_approvals WHERE goal_id = ..)]. *)
Definition approved_revision (s : Db) (goal_id : string) : option Z :=
  foldr (λ a acc, if String.eqb (ap_goal_id a) goal_id then
      Some (match acc with Some m => Z.max m (ap_goal_revision a) | None => ap_goal_revision a end)
    else acc) None (db_approvals s).

(** The workflow of the latest approved revision. *)
Definition approved_workflow (s : Db) (goal_id : string) : option string :=
  revision ← approved_revision s goal_id;
  w ← List.find (λ w, String.eqb (wr_goal_id w) goal_id &&
                      (wr_goal_revision w =? revision)%Z) (db_workflows s);
  Some (wr_id w).

Definition current_items (s : Db) (goal_id : string) : list work_row :=
  List.filter (λ w, of_goal goal_id w &&
    bool_decide (approved_workflow s goal_id = Some (wi_workflow_id w))) (db_work s).

Definition next_goal_status (items : list work_row) : option GoalStatus :=
  let total := Z.of_nat (length items) in
  let succeeded := count_where (work_in [WSucceeded]) items in
  let failed := count_where (work_in [WFailed]) items in
  let progressed := count_where (work_in [WRunning; WSucceeded; WWaitingConfirmation]) items in
  if ((0 <? total) && (succeeded =? total))%Z then Some Verifying
  else if (0 <? failed)%Z then Some Failed
  else if (0 <? progressed)%Z then Some Active
  else None.

Definition refresh_goal (st : GoalStatus) (now : Z) (g : goal_row) : goal_row :=
  set_goal_revision (if decide (g_status g = st) then g_revision g else g_revision g + 1)%Z
    (set_goal_status st now g).

Definition refresh_goal_status_tx (goal_id : string) : DB unit :=
  s ← get_db;
  match next_goal_status (current_items s goal_id) with
  | Some next_status =>
      now ← unix_now;
      sql_update harness_goals
        (λ g, is_goal goal_id g && goal_in [Approved; Active; Verifying; Failed] g)
        (refresh_goal next_status now) ;;
      mret tt
  | None => mret tt
  end.

(** ** Crash recovery *)

(** One row of the [expired] query. *)
Record expired_row : Type := {
  ex_id : string;
  ex_effect : EffectClass;
  ex_max_attempts : Z;
  ex_attempt_count : Z;
  ex_backoff_secs : Z;
  ex_has_prepared : bool;
  ex_has_unsafe_prepared : bool
}.

(** A prepared checkpoint of a live attempt on the item. *)
Definition prepared_live (s : Db) (work_item_id : string) (c : checkpoint_row) : bool :=
  String.eqb (cp_work_item_id c) work_item_id && phase_is Prepared c &&
  existsb (λ a, is_attempt (cp_attempt_id c) a && live_attempt a) (db_attempts s).

Definition expired_query (s : Db) (goal_id : string) (now : Z) : list expired_row :=
  (λ w, {| ex_id := wi_id w; ex_effect := wi_effect w; ex_max_attempts := wi_max_attempts w;
           ex_attempt_count := attempt_count s (wi_id w); ex_backoff_secs := wi_backoff_secs w;
           ex_has_prepared := existsb (prepared_live s (wi_id w)) (db_checkpoints s);
           ex_has_unsafe_prepared :=
             existsb (λ c, prepared_live s (wi_id w) c && negb (cp_replay_safe c))
               (db_checkpoints s) |})
  <$> List.filter (λ w, of_goal goal_id w && work_in [WRunning] w &&
        match wi_lease_until w with Some until => (until <? now)%Z | None => false end)
      (db_work s).

Definition expired_parked (e : expired_row) : bool :=
  (is_external_write (ex_effect e) && ex_has_prepared e) || ex_has_unsafe_prepared e.

(** The verdict on an expired item: work status, attempt status, error, next attempt. *)
Definition expired_verdict (e : expired_row) (now : Z)
    : WorkItemStatus * AttemptStatus * string * option Z :=
  if expired_parked e then
    (WWaitingConfirmation, AWaitingConfirmation,
     "ambiguous effect outcome requires confirmation", None)
  else if (ex_max_attempts e <=? ex_attempt_count e)%Z then
    (WFailed, AFailed, "attempt budget exhausted after lease expiry", None)
  else
    (WReady, AAbandoned, "worker lease expired before commit",
     Some (now + ex_backoff_secs e)%Z).

Definition recover_expired_tx (now : Z) (e : expired_row) : DB unit :=
  let '(work_status, attempt_status, error, next_attempt_at) := expired_verdict e now in
  (if expired_parked e then mret 0%Z
   else
     s ← get_db;
     let dying := at_id <$> List.filter (λ a,
       String.eqb (at_work_item_id a) (ex_id e) && live_attempt a) (db_attempts s) in
     sql_update harness_checkpoints
       (λ c, phase_is Prepared c && str_mem (cp_attempt_id c) dying)
       (set_phase Voided now)) ;;
  sql_update harness_attempts
    (λ a, String.eqb (at_work_item_id a) (ex_id e) && live_attempt a)
    (end_attempt attempt_status now (Some error)) ;;
  now' ← unix_now;
  sql_update harness_work_items
    (λ w, is_work (ex_id e) w && work_in [WRunning] w)
    (release_work work_status next_attempt_at (Some error) now') ;;
  mret tt.

(** The transaction of [recover_goal_state]: the parked items. *)
Definition recover_tx (goal_id actor : string) : DB (list string) :=
  transaction (
    exists_ ← sql_count harness_goals (is_goal goal_id);
    if (exists_ =? 0)%Z then mret []
    else
      committed ← sql_select harness_checkpoints
        (λ c, String.eqb (cp_goal_id c) goal_id && phase_is Committed c);
      foreach committed (λ row, reconcile_checkpoint_tx (decode_checkpoint row)) ;;
      now ← unix_now;
      s ← get_db;
      let expired := expired_query s goal_id now in
      foreach expired (recover_expired_tx now) ;;
      let recovered := Z.of_nat (length committed + length expired) in
      unlocked ← unlock_ready_work_tx goal_id;
      refresh_goal_status_tx goal_id ;;
      (if ((0 <? recovered) || (0 <? unlocked))%Z then
         insert_event goal_id "goal.recovered" actor
           [("reconciled_or_expired", JInt recovered); ("unlocked_work_items", JInt unlocked)]
       else mret tt) ;;
      mret (ex_id <$> List.filter expired_parked expired)).

Definition confirmation_request (goal_id work_item_id : string) : CreateSignalRequest :=
  {| cs_kind := KManual; cs_trust := TInternal; cs_source := "internal:confirmation";
     cs_external_id := Some ("confirm:" +:+ work_item_id);
     cs_content := "goal " +:+ goal_id +:+ ": work item " +:+ work_item_id +:+
       " parked awaiting confirmation — an external effect may or may not have landed before the crash";
     cs_metadata := [("goal_id", goal_id); ("work_item_id", work_item_id)] |}.

Definition recover_goal_state (goal_id actor : string) : DB unit :=
  lift_res (ensure_valid_id goal_id "goal id") ;;
  parked ← recover_tx goal_id actor;
  foreach parked (λ work_item_id,
    ignore_error (ingest_signal (confirmation_request goal_id work_item_id) actor)).

(** ** Resume *)

Definition work_order (a b : work_row) : bool :=
  (wi_ordinal a <? wi_ordinal b)%Z ||
  ((wi_ordinal a =? wi_ordinal b)%Z && String.leb (wi_id a) (wi_id b)).

Definition load_goal_work_items (goal_id : string) : DB (list WorkItemRecord) :=
  rows ← sql_select harness_work_items (of_goal goal_id);
  s ← get_db;
  lift_res (mapM_res (λ row,
    item ← decode_work_item row;
    Ok {| wir_id := wir_id item; wir_goal_id := wir_goal_id item;
          wir_status := wir_status item; wir_step_id := wir_step_id item;
          wir_handler := wir_handler item; wir_effect := wir_effect item;
          wir_input := wir_input item; wir_max_attempts := wir_max_attempts item;
          wir_ordinal := wir_ordinal item;
          wir_dependency_ids := order_by String.leb
            (dep_on <$> List.filter (λ d, String.eqb (dep_item d) (wir_id item)) (db_deps s));
          wir_created_at := wir_created_at item; wir_progress := wir_progress item |})
    (order_by work_order rows)).

Definition attempt_started_order (a b : attempt_row) : bool :=
  (at_started_at a <? at_started_at b)%Z ||
  ((at_started_at a =? at_started_at b)%Z && String.leb (at_id a) (at_id b)).

Definition resume_goal (goal_id actor : string) : DB (option ResumeReport) :=
  recover_goal_state goal_id actor ;;
  goal ← get_goal goal_id;
  match goal with
  | None => mret None
  | Some goal =>
      work_items ← load_goal_work_items goal_id;
      rows ← sql_select harness_attempts (λ a, String.eqb (at_goal_id a) goal_id);
      attempts ← lift_res (mapM_res decode_attempt (order_by attempt_started_order rows));
      checkpoints ← sql_select harness_checkpoints (λ c, String.eqb (cp_goal_id c) goal_id);
      events ← sql_select harness_events (λ e, String.eqb (ev_goal_id e) goal_id);
      (if decide ((ev_type <$> last events) = Some "goal.resumed") then mret tt
       else insert_event goal_id "goal.resumed" actor []) ;;
      mret (Some {| rr_goal := goal; rr_work_items := work_items; rr_attempts := attempts;
                    rr_latest_checkpoint := decode_checkpoint <$> last checkpoints |})
  end.

Definition resume_or (e goal_id actor : string) : DB ResumeReport :=
  report ← resume_goal goal_id actor;
  context e report.

End store.
