(* ===== verification/StoreGoals.v ===== *)
(** * The loop store: goals

    Models the goal-level operations of [SqliteLoopStore]
    (src/harness/loop_engine/store.rs): admission, planning, approval, the
    operator's cancel, pause, reject and replan, expiry, verification and the
    provider budget. *)

From S2P Require Import Prelude Text External Domain Tables Signals StoreBase.

Section goals.
  Context `{ENV : LoopEnv}.

Abbreviation DB := (M Db).

(** ** Admission *)

Definition goal_clash (r x : goal_row) : bool :=
  String.eqb (g_id x) (g_id r) ||
  match g_request_id x, g_request_id r with
  | Some a, Some b => String.eqb a b
  | _, _ => false
  end.

Definition with_request_id (request_id : string) (g : goal_row) : bool :=
  bool_decide (g_request_id g = Some request_id).

Definition get_goal_by_request_id (request_id : string) : DB (option GoalRecord) :=
  row ← sql_first harness_goals (with_request_id request_id);
  match row with
  | None => mret None
  | Some row => g ← lift_res (decode_goal row); mret (Some g)
  end.

(** The transaction of [create_goal_admission]: [inl] an existing goal's id,
    [inr] the new one.  [BEGIN IMMEDIATE] serialises writers, so the insert that
    follows the lookup cannot lose a race; a refused insert is the error case. *)
Definition admission_tx (request : CreateGoalRequest) (id actor : string)
    : DB (string + string) :=
  transaction (
    existing ← match cg_request_id request with
               | Some request_id => sql_first harness_goals (with_request_id request_id)
               | None => mret None
               end;
    match existing with
    | Some g => mret (inl (g_id g))
    | None =>
        now ← unix_now;
        let row := {| g_id := id; g_objective := trim (cg_objective request);
                      g_status := Proposed; g_revision := 1;
                      g_source_signal_ids := cg_source_signal_ids request;
                      g_request_id := cg_request_id request; g_created_by := actor;
                      g_internal_only := cg_internal_only request;
                      g_created_at := now; g_updated_at := now |} in
        sql_insert harness_goals (goal_clash row) row ;;
        insert_event id "goal.created" actor [] ;;
        mret (inr id)
    end).

Definition create_goal_admission (request : CreateGoalRequest) (actor : string)
    : DB (GoalRecord * bool) :=
  id ← new_loop_id "goal";
  admitted ← admission_tx request id actor;
  match admitted with
  | inl existing_id =>
      goal ← get_goal existing_id;
      goal ← context "goal admitted under request_id disappeared" goal;
      mret (goal, false)
  | inr id =>
      goal ← get_goal id;
      goal ← context "created goal disappeared" goal;
      mret (goal, true)
  end.

(** ** Listing *)

Definition goal_newest_first (a b : goal_row) : bool :=
  (g_updated_at b <? g_updated_at a)%Z ||
  ((g_updated_at b =? g_updated_at a)%Z && String.leb (g_id b) (g_id a)).

Definition list_goals (limit : nat) : DB (list GoalRecord) :=
  rows ← sql_select harness_goals (λ _, true);
  lift_res (mapM_res decode_goal
    (take (Nat.min (Nat.max limit 1) 500) (order_by goal_newest_first rows))).

(** [b.started_at + b.deadline_secs < now] for the goal's budget. *)
Definition overdue (s : Db) (now : Z) (g : goal_row) : bool :=
  existsb (λ b, String.eqb (b_goal_id b) (g_id g) &&
    match b_started_at b with
    | Some started => (started + b_deadline_secs b <? now)%Z
    | None => false
    end) (db_budgets s).

Definition goal_oldest_first (a b : goal_row) : bool :=
  (g_created_at a <? g_created_at b)%Z ||
  ((g_created_at a =? g_created_at b)%Z && String.leb (g_id a) (g_id b)).

Definition list_dispatchable_goal_ids (limit : nat) : DB (list string) :=
  now ← unix_now;
  s ← get_db;
  rows ← sql_select harness_goals (λ g,
    goal_in [Approved; Active; Verifying] g && negb (g_internal_only g) &&
    negb (overdue s now g));
  mret (g_id <$> take (Nat.min (Nat.max limit 1) 500) (order_by goal_oldest_first rows)).

(** [expire_overdue_goals]: at most [limit] goals, in rowid order. *)
Definition expire_overdue_goals (limit : nat) : DB (list string) :=
  now ← unix_now;
  transaction (
    s ← get_db;
    rows ← sql_select harness_goals (λ g,
      goal_in [Approved; Active; Blocked; Verifying] g && negb (g_internal_only g) &&
      overdue s now g);
    let overdue_ids := g_id <$> take (Nat.min (Nat.max limit 1) 128) rows in
    foreach overdue_ids (λ goal_id,
      set_goal_status_tx goal_id Failed ;;
      insert_event goal_id "goal.expired" "internal:janitor"
        [("reason", JStr "deadline_exceeded"); ("now", JInt now)]) ;;
    mret overdue_ids).

(** ** Operator transitions *)

Definition reason_ok (reason : string) : bool :=
  negb (String.eqb reason "") && (N.of_nat (String.length reason) <=? 512)%N.

(** [cancel_goal] and [mark_goal_for_replan] first stop everything that runs. *)
Definition abandon_attempts_tx (goal_id error : string) (now : Z) : DB Z :=
  sql_update harness_attempts
    (λ a, String.eqb (at_goal_id a) goal_id &&
          attempt_in [ARunning; ACommitting; AWaitingConfirmation] a)
    (end_attempt AAbandoned now (Some error)).

Definition cancel_goal (goal_id reason actor : string) : DB GoalRecord :=
  lift_res (ensure_valid_id goal_id "goal id") ;;
  let reason := trim reason in
  ensure (reason_ok reason) "cancel reason must be 1..=512 characters" ;;
  now ← unix_now;
  transaction (
    g ← goal_row_tx goal_id;
    ensure (goal_in [Proposed; Planning; ReviewReady; Approved; Active; Blocked; Verifying] g)
      ("goal is already terminal: " +:+ goal_status_as_str (g_status g)) ;;
    abandon_attempts_tx goal_id ("goal canceled: " +:+ reason) now ;;
    sql_update harness_work_items
      (λ w, of_goal goal_id w && negb (work_in [WSucceeded; WFailed] w))
      (release_work WFailed None (Some ("goal canceled: " +:+ reason)) now) ;;
    set_goal_status_tx goal_id Canceled ;;
    insert_event goal_id "goal.canceled" actor [("reason", JStr reason)]) ;;
  reload_goal goal_id.

Definition reject_goal (goal_id reason actor : string) : DB GoalRecord :=
  lift_res (ensure_valid_id goal_id "goal id") ;;
  let reason := trim reason in
  ensure (reason_ok reason) "rejection reason must be 1..=512 characters" ;;
  transaction (
    g ← goal_row_tx goal_id;
    ensure (goal_in [Proposed; Planning; ReviewReady] g)
      ("goal cannot be rejected from status '" +:+ goal_status_as_str (g_status g) +:+ "'") ;;
    set_goal_status_tx goal_id Rejected ;;
    insert_event goal_id "goal.rejected" actor [("reason", JStr reason)]) ;;
  reload_goal goal_id.

Definition mark_goal_for_replan (goal_id reason actor : string) : DB GoalRecord :=
  lift_res (ensure_valid_id goal_id "goal id") ;;
  let reason := trim reason in
  ensure (reason_ok reason) "replan reason must be 1..=512 characters" ;;
  now ← unix_now;
  transaction (
    g ← goal_row_tx goal_id;
    ensure (goal_in [Failed; Canceled; Rejected; Blocked] g)
      ("goal cannot be replanned from status '" +:+ goal_status_as_str (g_status g) +:+ "'") ;;
    abandon_attempts_tx goal_id "superseded by replan" now ;;
    sql_update harness_work_items
      (λ w, of_goal goal_id w && negb (work_in [WSucceeded; WFailed; WCanceled] w))
      (release_work WCanceled None (Some ("superseded by replan: " +:+ reason)) now) ;;
    set_goal_status_tx goal_id Replan ;;
    insert_event goal_id "goal.replan" actor [("reason", JStr reason)]) ;;
  reload_goal goal_id.

Definition set_goal_paused (goal_id : string) (paused : bool) (reason : option string)
    (actor : string) : DB GoalRecord :=
  lift_res (ensure_valid_id goal_id "goal id") ;;
  match reason with
  | Some reason => ensure (reason_ok (trim reason)) "pause reason must be 1..=512 characters"
  | None => mret tt
  end ;;
  transaction (
    g ← goal_row_tx goal_id;
    ensure (if paused then goal_in [Approved; Active; Blocked; Verifying] g
            else goal_in [Paused] g)
      ("goal cannot " +:+ (if paused then "pause" else "unpause") +:+ " from status '" +:+
       goal_status_as_str (g_status g) +:+ "'") ;;
    set_goal_status_tx goal_id (if paused then Paused else Active) ;;
    insert_event goal_id (if paused then "goal.paused" else "goal.unpaused") actor
      [("reason", JOpt (trim <$> reason))]) ;;
  reload_goal goal_id.

Definition pause_goal (goal_id reason actor : string) : DB GoalRecord :=
  set_goal_paused goal_id true (Some reason) actor.

Definition unpause_goal (goal_id actor : string) : DB GoalRecord :=
  set_goal_paused goal_id false None actor.

(** ** Verification *)

(** The workflow of the highest revision. *)
Definition latest_workflow (s : Db) (goal_id : string) : option workflow_row :=
  head (order_by (λ a b, (wr_goal_revision b <=? wr_goal_revision a)%Z)
    (List.filter (λ w, String.eqb (wr_goal_id w) goal_id) (db_workflows s))).

Definition reconciled_outcomes (s : Db) (goal_id : string) : list WorkOutcome :=
  omap cp_outcome (List.filter
    (λ c, String.eqb (cp_goal_id c) goal_id && phase_is Reconciled c) (db_checkpoints s)).

(** [kind_name] is [ArtifactKind::as_str], the column's text. *)
Definition criterion_met (kind_name : ArtifactKind → string) (s : Db) (goal_id : string)
    (outcomes : list WorkOutcome) (c : AcceptanceCriterion) : bool :=
  match c with
  | ArtifactExists artifact_type =>
      existsb (λ artifact_id,
        match List.find (λ a, String.eqb (ar_id a) artifact_id) (db_artifacts s) with
        | Some a => String.eqb (kind_name (ar_kind a)) artifact_type
        | None => false
        end) (flat_map out_artifact_ids outcomes)
  | SelfTestSuite suite =>
      let run_ids := omap (λ o,
        if decide ((json_get (out_evidence o) "suite" ≫= json_as_str) = Some suite)
        then json_get (out_evidence o) "self_test_run_id" ≫= json_as_str
        else None) outcomes in
      existsb (λ run_id,
        (count_where (λ r, String.eqb (st_id r) run_id && String.eqb (st_suite r) suite &&
                           st_passed r) (db_self_tests s) =? 1)%Z) run_ids
  | ManualApproval label =>
      negb (count_where (λ m, String.eqb (mv_goal_id m) goal_id && String.eqb (mv_label m) label)
              (db_manual s) =? 0)%Z
  end.

Definition criterion_label (c : AcceptanceCriterion) : string :=
  match c with
  | ArtifactExists artifact_type => "artifact_exists:" +:+ artifact_type
  | SelfTestSuite suite => "self_test_suite:" +:+ suite
  | ManualApproval label => "manual_approval:" +:+ label
  end.

Definition unmet_criteria (kind_name : ArtifactKind → string) (s : Db) (goal_id : string)
    (criteria : list AcceptanceCriterion) : list string :=
  criterion_label <$> List.filter
    (λ c, negb (criterion_met kind_name s goal_id (reconciled_outcomes s goal_id) c)) criteria.

(** The transaction of [verify_goal]: the unmet criteria. *)
Definition verify_tx (kind_name : ArtifactKind → string) (goal_id actor : string)
    : DB (list string) :=
  transaction (
    g ← goal_row_tx goal_id;
    if decide (g_status g = Achieved) then mret []
    else
      ensure (goal_in [Verifying] g) "goal is not ready for verification" ;;
      s ← get_db;
      w ← context "no rows returned" (latest_workflow s goal_id);
      let unmet := unmet_criteria kind_name s goal_id (wr_acceptance w) in
      let achieved := match unmet with [] => true | _ => false end in
      (if achieved then
         now ← unix_now;
         sql_update harness_goals (λ g, is_goal goal_id g && goal_in [Verifying] g)
           (λ g, set_goal_revision (g_revision g + 1)%Z (set_goal_status Achieved now g))
       else mret 0%Z) ;;
      insert_event goal_id
        (if achieved then "goal.achieved" else "goal.verification_pending") actor
        [("unmet_criteria", JStrs unmet)] ;;
      mret unmet).

Definition verify_goal (kind_name : ArtifactKind → string) (goal_id actor : string)
    : DB GoalVerificationReport :=
  lift_res (ensure_valid_id goal_id "goal id") ;;
  unmet ← verify_tx kind_name goal_id actor;
  goal ← get_goal goal_id;
  goal ← context "goal disappeared" goal;
  mret {| vr_goal := goal;
          vr_achieved := match unmet with [] => true | _ => false end;
          vr_unmet := unmet |}.

Definition is_manual (label : string) (c : AcceptanceCriterion) : bool :=
  match c with ManualApproval expected => String.eqb expected label | _ => false end.

Definition record_manual_verification (goal_id label actor : string) : DB GoalRecord :=
  lift_res (ensure_valid_id goal_id "goal id") ;;
  let label := trim label in
  ensure (negb (String.eqb label "") && (N.of_nat (String.length label) <=? 160)%N)
    "manual verification label must be 1..=160 bytes" ;;
  transaction (
    g ← goal_row_tx goal_id;
    ensure (goal_in [Verifying; Achieved] g) "goal is not ready for manual verification" ;;
    s ← get_db;
    w ← context "no rows returned" (latest_workflow s goal_id);
    ensure (existsb (is_manual label) (wr_acceptance w))
      "manual verification label is not part of the approved acceptance criteria" ;;
    let key := λ m, String.eqb (mv_goal_id m) goal_id && String.eqb (mv_label m) label in
    (* INSERT OR IGNORE *)
    if existsb key (db_manual s) then mret tt
    else
      sql_insert harness_manual_verifications key
        {| mv_goal_id := goal_id; mv_label := label; mv_actor := actor |} ;;
      insert_event goal_id "goal.manual_verified" actor [("label", JStr label)]) ;;
  goal ← get_goal goal_id;
  context "verified goal disappeared" goal.

(** ** Provider budget *)

Definition is_budget (goal_id : string) (b : budget_row) : bool :=
  String.eqb (b_goal_id b) goal_id.

Definition reserve_provider_call (goal_id : string) : DB ProviderBudgetReservation :=
  lift_res (ensure_valid_id goal_id "goal id") ;;
  now ← unix_now;
  transaction (
    row ← sql_first harness_goal_budget_usage (is_budget goal_id);
    row ← context "goal execution budget not found" row;
    let started_at := default now (b_started_at row) in
    let deadline_at := (started_at + b_deadline_secs row)%Z in
    ensure (now <=? deadline_at)%Z "goal execution deadline is exhausted" ;;
    ensure (b_provider_calls row <? b_max_provider_calls row)%Z
      "goal provider call budget is exhausted" ;;
    sql_update harness_goal_budget_usage
      (λ b, is_budget goal_id b && (b_provider_calls b <? b_max_provider_calls b)%Z)
      (λ b, set_budget_started (Some (default now (b_started_at b)))
              (set_budget_calls (b_provider_calls b + 1)%Z b)) ;;
    mret (deadline_at, (b_max_provider_calls row - b_provider_calls row - 1)%Z,
          (b_max_response_bytes row - b_response_bytes row)%Z))
  ≫= λ '(deadline_at, calls, bytes),
  calls ← context "invalid remaining provider calls" (try_u32 calls);
  bytes ← context "invalid remaining response bytes" (try_u32 bytes);
  mret {| pb_deadline_at := deadline_at; pb_remaining_provider_calls := calls;
          pb_remaining_response_bytes := bytes |}.

Definition record_provider_response_bytes (goal_id : string) (response_bytes : N) : DB unit :=
  lift_res (ensure_valid_id goal_id "goal id") ;;
  affected ← sql_update harness_goal_budget_usage
    (λ b, is_budget goal_id b &&
          (b_response_bytes b + Z.of_N response_bytes <=? b_max_response_bytes b)%Z)
    (λ b, set_budget_bytes (b_response_bytes b + Z.of_N response_bytes)%Z b);
  ensure (affected =? 1)%Z "goal provider response byte budget is exhausted".

(** ** Planning *)

Definition workflow_clash (r x : workflow_row) : bool :=
  String.eqb (wr_id x) (wr_id r) ||
  (String.eqb (wr_goal_id x) (wr_goal_id r) && (wr_goal_revision x =? wr_goal_revision r)%Z).

Definition plan_goal (goal_id : string) (request : PlanGoalRequest) (actor : string)
    : DB PlannedGoal :=
  lift_res (ensure_valid_id goal_id "goal id") ;;
  plan_hash ← lift_res (hash_serializable request);
  let manifest := effect_manifest request in
  plan_id ← new_loop_id "plan";
  transaction (
    g ← goal_row_tx goal_id;
    ensure (goal_in [Proposed; Replan] g)
      ("goal cannot be planned from status " +:+ goal_status_as_str (g_status g)) ;;
    let revision := g_revision g in
    let next_revision := (revision + 1)%Z in
    now ← unix_now;
    let row := {| wr_id := plan_id; wr_goal_id := goal_id; wr_goal_revision := next_revision;
                  wr_plan_hash := plan_hash; wr_workflow := plan_workflow request;
                  wr_acceptance := plan_acceptance request;
                  wr_effect_manifest := manifest; wr_created_by := actor;
                  wr_created_at := now |} in
    sql_insert harness_workflows (workflow_clash row) row ;;
    now ← unix_now;
    updated ← sql_update harness_goals
      (λ x, is_goal goal_id x && (g_revision x =? revision)%Z &&
            bool_decide (g_status x = g_status g))
      (λ x, set_goal_revision next_revision (set_goal_status ReviewReady now x));
    ensure (updated =? 1)%Z "goal changed while being planned" ;;
    insert_event goal_id "goal.planned" actor
      [("plan_hash", JStr plan_hash); ("goal_revision", JInt next_revision)]) ;;
  goal ← get_goal goal_id;
  goal ← context "planned goal disappeared" goal;
  mret {| pg_goal := goal; pg_plan_hash := plan_hash; pg_workflow := plan_workflow request;
          pg_acceptance := plan_acceptance request; pg_effect_manifest := manifest |}.

Definition plan_newest_first (a b : workflow_row) : bool :=
  (wr_created_at b <? wr_created_at a)%Z ||
  ((wr_created_at b =? wr_created_at a)%Z && String.leb (wr_id b) (wr_id a)).

Definition latest_plan (goal_id : string) : DB (option PlannedGoal) :=
  goal ← get_goal goal_id;
  match goal with
  | None => mret None
  | Some goal =>
      rows ← sql_select harness_workflows (λ w, String.eqb (wr_goal_id w) goal_id);
      mret ((λ w, {| pg_goal := goal; pg_plan_hash := wr_plan_hash w;
                     pg_workflow := wr_workflow w; pg_acceptance := wr_acceptance w;
                     pg_effect_manifest := wr_effect_manifest w |})
            <$> head (order_by plan_newest_first rows))
  end.

(** ** Approval *)

Definition approval_clash (r x : approval_row) : bool :=
  String.eqb (ap_id x) (ap_id r) ||
  (String.eqb (ap_goal_id x) (ap_goal_id r) && (ap_goal_revision x =? ap_goal_revision r)%Z).

Definition work_clash (r x : work_row) : bool :=
  String.eqb (wi_id x) (wi_id r) ||
  (String.eqb (wi_workflow_id x) (wi_workflow_id r) && String.eqb (wi_step_id x) (wi_step_id r)).

Definition dep_clash (r x : dep_row) : bool :=
  String.eqb (dep_item x) (dep_item r) && String.eqb (dep_on x) (dep_on r).

(** A freshly materialised work item. *)
Definition new_work_row (id goal_id workflow_id : string) (step : WorkflowStep)
    (status : WorkItemStatus) (ordinal now : Z) : work_row :=
  {| wi_id := id; wi_goal_id := goal_id; wi_workflow_id := workflow_id;
     wi_step_id := step_id step; wi_status := status; wi_handler := step_handler step;
     wi_effect := step_effect step; wi_input := step_input step;
     wi_max_attempts := Z.of_N (max_attempts (step_retry step));
     wi_backoff_secs := Z.of_N (backoff_secs (step_retry step)); wi_ordinal := ordinal;
     wi_lease_token := None; wi_lease_until := None; wi_fencing_token := 0;
     wi_next_attempt_at := None; wi_last_error := None; wi_progress := None;
     wi_created_at := now; wi_updated_at := now |}.

(** The first loop of the materialisation: one work item per step; the result
    maps step ids to work ids. *)
Fixpoint materialize_steps (goal_id workflow_id : string) (edges : list WorkflowEdge)
    (ordinal : Z) (steps : list WorkflowStep) (work_ids : gmap string string)
    : DB (gmap string string) :=
  match steps with
  | [] => mret work_ids
  | step :: steps' =>
      work_id ← new_loop_id "work";
      let incoming := existsb (λ e, String.eqb (edge_to e) (step_id step)) edges in
      let status := if incoming then WPending else WReady in
      now ← unix_now;
      let row := new_work_row work_id goal_id workflow_id step status ordinal now in
      sql_insert harness_work_items (work_clash row) row ;;
      materialize_steps goal_id workflow_id edges (ordinal + 1)%Z steps'
        (<[step_id step := work_id]> work_ids)
  end.

Definition insert_dep (item on : string) : DB unit :=
  let row := {| dep_item := item; dep_on := on |} in
  sql_insert harness_work_item_dependencies (dep_clash row) row.

Definition materialize_edges (work_ids : gmap string string) (edges : list WorkflowEdge)
    : DB unit :=
  foreach edges (λ e,
    item ← context "panic: validated target" (work_ids !! edge_to e);
    on ← context "panic: validated source" (work_ids !! edge_from e);
    insert_dep item on).

(** [INSERT OR REPLACE INTO harness_goal_budget_usage]. *)
Definition reset_budget (goal_id : string) (b : ExecutionBudget) : DB unit :=
  sql_delete harness_goal_budget_usage (is_budget goal_id) ;;
  sql_insert harness_goal_budget_usage (is_budget goal_id)
    {| b_goal_id := goal_id; b_max_provider_calls := Z.of_N (max_provider_calls b);
       b_deadline_secs := Z.of_N (deadline_secs b);
       b_max_response_bytes := Z.of_N (max_response_bytes b);
       b_provider_calls := 0; b_response_bytes := 0; b_started_at := None |}.

(** The reviewed plan: status, revision, hash, external-write gate and, for the
    generic internal actor, the internal approval policy. *)
Definition reviewed_plan (policy : InternalApprovalPolicy) (goal_id : string)
    (request : ApproveGoalRequest) (actor : string) (external_write : ExternalWritePolicy)
    : DB workflow_row :=
  g ← goal_row_tx goal_id;
  ensure (goal_in [ReviewReady] g) "goal is not review_ready" ;;
  ensure (g_revision g =? Z.of_N (expected_goal_revision request))%Z
    "goal revision changed after review" ;;
  rows ← sql_select harness_workflows (λ w,
    String.eqb (wr_goal_id w) goal_id && (wr_goal_revision w =? g_revision g)%Z);
  plan ← context "reviewed workflow not found"
    (head (order_by (λ a b, (wr_created_at b <=? wr_created_at a)%Z) rows));
  ensure (String.eqb (wr_plan_hash plan) (expected_plan_hash request))
    "reviewed plan hash does not match approval" ;;
  foreach (wf_steps (wr_workflow plan)) (λ step,
    ensure (ew_step_ok external_write step)
      ("external_write step '" +:+ step_handler step +:+
       "' requires external_write_enabled and an allowlisted handler")) ;;
  (if String.eqb actor INTERNAL_AUTO_ACTOR
   then lift_res (check_plan policy (wr_workflow plan) (wr_effect_manifest plan))
   else mret tt) ;;
  mret plan.

Definition bind_approval (approval_id goal_id actor : string) (plan : workflow_row) : DB unit :=
  workflow_hash ← lift_res (hash_serializable (wr_workflow plan));
  effect_hash ← lift_res (hash_serializable (wr_effect_manifest plan));
  acceptance_hash ← lift_res (hash_serializable (wr_acceptance plan));
  budget_hash ← lift_res (hash_serializable (wf_budget (wr_workflow plan)));
  let row := {| ap_id := approval_id; ap_goal_id := goal_id;
                ap_goal_revision := wr_goal_revision plan; ap_plan_hash := wr_plan_hash plan;
                ap_workflow_hash := workflow_hash; ap_effect_manifest_hash := effect_hash;
                ap_acceptance_hash := acceptance_hash; ap_budget_hash := budget_hash;
                ap_approved_by := actor |} in
  sql_insert harness_goal_approvals (approval_clash row) row.

Definition approve_tx (policy : InternalApprovalPolicy) (goal_id : string)
    (request : ApproveGoalRequest) (actor : string) (external_write : ExternalWritePolicy)
    : DB unit :=
  transaction (
    plan ← reviewed_plan policy goal_id request actor external_write;
    let revision := wr_goal_revision plan in
    let workflow := wr_workflow plan in
    approval_id ← new_loop_id "approval";
    bind_approval approval_id goal_id actor plan ;;
    reset_budget goal_id (wf_budget workflow) ;;
    work_ids ← materialize_steps goal_id (wr_id plan) (wf_edges workflow) 0
      (wf_steps workflow) ∅;
    materialize_edges work_ids (wf_edges workflow) ;;
    now ← unix_now;
    updated ← sql_update harness_goals
      (λ g, is_goal goal_id g && goal_in [ReviewReady] g && (g_revision g =? revision)%Z)
      (λ g, set_goal_revision (g_revision g + 1)%Z (set_goal_status Approved now g));
    ensure (updated =? 1)%Z "goal changed while being approved" ;;
    insert_event goal_id "goal.approved" actor
      [("plan_hash", JStr (wr_plan_hash plan)); ("approval_id", JStr approval_id)]).

Definition approve_goal (policy : InternalApprovalPolicy) (goal_id : string)
    (request : ApproveGoalRequest) (actor : string) (external_write : ExternalWritePolicy)
    : DB ResumeReport :=
  lift_res (ensure_valid_id goal_id "goal id") ;;
  ensure (starts_with (expected_plan_hash request) "sha256:")
    "expected plan hash must be sha256" ;;
  approve_tx policy goal_id request actor external_write ;;
  resume_or "approved goal disappeared" goal_id actor.

End goals.
