(* ===== verification/StoreWork.v ===== *)
(** * The loop store: work

    Models the work-level operations of [SqliteLoopStore]
    (src/harness/loop_engine/store.rs): claiming with a lease and a fencing
    token, the two-phase checkpoint, finishing, failing, deferring, continuing,
    parking and operator confirmation, and dynamic workflow extension. *)

From S2P Require Import Prelude Text External Domain Tables Signals StoreBase StoreGoals.
From stdpp Require Import pretty.

Section work.
  Context `{ENV : LoopEnv}.

Abbreviation DB := (M Db).

(** ** Claiming *)

(** The WHERE clause shared by both claim queries. *)
Definition claimable (s : Db) (goal_id : string) (now : Z) (w : work_row) : bool :=
  of_goal goal_id w && work_in [WReady] w &&
  match wi_next_attempt_at w with None => true | Some t => (t <=? now)%Z end &&
  (attempt_count s (wi_id w) <? wi_max_attempts w)%Z.

(** [step_id = None] picks the lowest ordinal. *)
Definition claim_candidate (s : Db) (goal_id : string) (step : option string) (now : Z)
    : option work_row :=
  match step with
  | Some step => List.find (λ w, claimable s goal_id now w && String.eqb (wi_step_id w) step)
                   (db_work s)
  | None => head (order_by work_order (List.filter (claimable s goal_id now) (db_work s)))
  end.

Definition attempt_clash (r x : attempt_row) : bool :=
  String.eqb (at_id x) (at_id r) ||
  (String.eqb (at_work_item_id x) (at_work_item_id r) && (at_number x =? at_number r)%Z).

(** What the claim transaction hands to the code after the commit. *)
Record claimed : Type := {
  cl_item : WorkItemRecord;
  cl_attempt : attempt_row;
  cl_lease_until : Z;
  cl_budget : ExecutionBudget
}.

(** One round of the claim loop; [Rollback None] is the lost race. *)
Definition claim_round (goal_id : string) (step : option string) (worker_id : string)
    (lease_secs : N) (actor : string) : DB (option (option claimed)) :=
  now ← unix_now;
  let lease_until := (now + Z.of_N lease_secs)%Z in
  transaction_end (
    g ← goal_row_tx goal_id;
    ensure (goal_in [Approved; Active] g) "goal is not dispatchable" ;;
    (match step with
     | None => ensure (negb (g_internal_only g))
                 "internal_only goal is not claimable by a generic worker"
     | Some _ => mret tt
     end) ;;
    s ← get_db;
    match claim_candidate s goal_id step now with
    | None => mret (Commit (Some None))
    | Some row =>
        item ← lift_res (decode_work_item row);
        wf ← sql_first harness_workflows (λ w, String.eqb (wr_id w) (wi_workflow_id row));
        wf ← context "no rows returned" wf;
        lease_token ← new_loop_id "lease";
        t ← unix_now;
        updated ← sql_update harness_work_items
          (λ w, is_work (wi_id row) w && work_in [WReady] w)
          (λ w, set_fencing (wi_fencing_token w + 1)%Z
                  (set_lease (Some lease_token) (Some lease_until) (set_work_status WRunning t w)));
        if negb (updated =? 1)%Z then mret (Rollback None)
        else
          w ← sql_first harness_work_items (is_work (wi_id row));
          w ← context "no rows returned" w;
          count ← sql_count harness_attempts (λ a, String.eqb (at_work_item_id a) (wi_id row));
          attempt_id ← new_loop_id "attempt";
          let attempt :=
            {| at_id := attempt_id; at_goal_id := goal_id; at_work_item_id := wi_id row;
               at_number := (count + 1)%Z; at_status := ARunning; at_worker_id := worker_id;
               at_lease_token := lease_token; at_fencing_token := wi_fencing_token w;
               at_started_at := now; at_finished_at := None; at_error := None |} in
          sql_insert harness_attempts (attempt_clash attempt) attempt ;;
          t ← unix_now;
          sql_update harness_goals (λ g, is_goal goal_id g && goal_in [Approved] g)
            (set_goal_status Active t) ;;
          insert_event goal_id "work.claimed" actor
            [("work_item_id", JStr (wi_id row)); ("attempt_id", JStr attempt_id);
             ("worker_id", JStr worker_id); ("fencing_token", JInt (wi_fencing_token w))] ;;
          mret (Commit (Some (Some {| cl_item := item; cl_attempt := attempt;
                                      cl_lease_until := lease_until;
                                      cl_budget := wf_budget (wr_workflow wf) |})))
    end).

(** The conversions made after the commit: they can fail with the claim stored. *)
Definition claim_result (c : claimed) : res WorkClaim :=
  let item := cl_item c in
  attempt ← decode_attempt (cl_attempt c);
  Ok {| wc_item :=
          {| wir_id := wir_id item; wir_goal_id := wir_goal_id item; wir_status := WRunning;
             wir_step_id := wir_step_id item; wir_handler := wir_handler item;
             wir_effect := wir_effect item; wir_input := wir_input item;
             wir_max_attempts := wir_max_attempts item; wir_ordinal := wir_ordinal item;
             wir_dependency_ids := wir_dependency_ids item;
             wir_created_at := wir_created_at item; wir_progress := wir_progress item |};
        wc_attempt := attempt; wc_lease_until := cl_lease_until c; wc_budget := cl_budget c |}.

(** [for _ in 0..3]. *)
Fixpoint claim_loop (rounds : nat) (goal_id : string) (step : option string)
    (worker_id : string) (lease_secs : N) (actor : string) : DB (option WorkClaim) :=
  match rounds with
  | O => mret None
  | S rounds' =>
      r ← claim_round goal_id step worker_id lease_secs actor;
      match r with
      | None => claim_loop rounds' goal_id step worker_id lease_secs actor
      | Some None => mret None
      | Some (Some c) => claim ← lift_res (claim_result c); mret (Some claim)
      end
  end.

Definition claim_ready_work_item (goal_id : string) (step : option string)
    (worker_id : string) (lease_secs : N) (actor : string) : DB (option WorkClaim) :=
  lift_res (ensure_valid_id goal_id "goal id") ;;
  recover_goal_state goal_id actor ;;
  claim_loop 3 goal_id step worker_id lease_secs actor.

Definition claim_goal_work (goal_id worker_id : string) (lease_secs : N) (actor : string)
    : DB (option WorkClaim) :=
  claim_ready_work_item goal_id None worker_id lease_secs actor.

Definition claim_work_item (goal_id step_id worker_id : string) (lease_secs : N)
    (actor : string) : DB (option WorkClaim) :=
  lift_res (ensure_valid_id step_id "step id") ;;
  claim_ready_work_item goal_id (Some step_id) worker_id lease_secs actor.

Definition renew_claim (claim : WorkClaim) (lease_secs : N) : DB Z :=
  ensure ((1 <=? lease_secs) && (lease_secs <=? 3600))%N "invalid lease duration" ;;
  now ← unix_now;
  let lease_until := (now + Z.of_N lease_secs)%Z in
  fencing_token ← context "fencing token exceeds sqlite range"
    (try_i64 (atr_fencing_token (wc_attempt claim)));
  t ← unix_now;
  updated ← sql_update harness_work_items
    (λ w, is_work (wir_id (wc_item claim)) w && work_in [WRunning] w &&
          bool_decide (wi_lease_token w = Some (atr_lease_token (wc_attempt claim))) &&
          (wi_fencing_token w =? fencing_token)%Z &&
          match wi_lease_until w with Some until => (now <=? until)%Z | None => false end)
    (λ w, touch_work t (set_lease (wi_lease_token w) (Some lease_until) w));
  ensure (updated =? 1)%Z "cannot renew stale work claim" ;;
  mret lease_until.

(** ** Checkpoints *)

Definition checkpoint_clash (r x : checkpoint_row) : bool :=
  String.eqb (cp_id x) (cp_id r) ||
  (String.eqb (cp_work_item_id x) (cp_work_item_id r) &&
   String.eqb (cp_idempotency_key x) (cp_idempotency_key r)).

Definition prepare_checkpoint (claim : WorkClaim) (idempotency_key : string)
    (replay_safe : bool) (actor : string) : DB CheckpointRecord :=
  ensure (bounded_nonblank 200 idempotency_key) "idempotency key must be 1..=200 bytes" ;;
  let attempt := wc_attempt claim in
  let item_id := wir_id (wc_item claim) in
  transaction (
    ensure_claim_current claim ;;
    existing ← sql_first harness_checkpoints (λ c,
      String.eqb (cp_work_item_id c) item_id &&
      String.eqb (cp_idempotency_key c) idempotency_key);
    match existing with
    | Some row =>
        ensure (String.eqb (cp_attempt_id row) (atr_id attempt))
          "idempotency key belongs to another attempt" ;;
        mret (decode_checkpoint row)
    | None =>
        checkpoint_id ← new_loop_id "checkpoint";
        now ← unix_now;
        let row := {| cp_id := checkpoint_id; cp_goal_id := atr_goal_id attempt;
                      cp_work_item_id := item_id; cp_attempt_id := atr_id attempt;
                      cp_phase := Prepared; cp_idempotency_key := idempotency_key;
                      cp_replay_safe := replay_safe; cp_outcome := None;
                      cp_created_at := now; cp_updated_at := now |} in
        sql_insert harness_checkpoints (checkpoint_clash row) row ;;
        insert_event (atr_goal_id attempt) "checkpoint.prepared" actor
          [("checkpoint_id", JStr checkpoint_id); ("attempt_id", JStr (atr_id attempt))] ;;
        load_checkpoint_tx checkpoint_id
    end).

(** [current.outcome.as_ref() == Some(&outcome)] is the derived equality. *)
Definition outcome_eqb (a b : option WorkOutcome) : bool :=
  let cont_eqb (x y : WorkContinuation) :=
    String.eqb (cont_phase x) (cont_phase y) &&
    bool_decide (cont_state x = cont_state y) &&
    bool_decide (cont_delay_secs x = cont_delay_secs y) in
  match a, b with
  | Some x, Some y =>
      String.eqb (out_summary x) (out_summary y) &&
      bool_decide (out_artifact_ids x = out_artifact_ids y) &&
      bool_decide (out_evidence x = out_evidence y) &&
      bool_decide (out_sleep_until x = out_sleep_until y) &&
      match out_continuation x, out_continuation y with
      | Some c, Some d => cont_eqb c d
      | None, None => true
      | _, _ => false
      end
  | None, None => true
  | _, _ => false
  end.

Definition commit_checkpoint (claim : WorkClaim) (checkpoint_id : string)
    (outcome : WorkOutcome) (actor : string) : DB CheckpointRecord :=
  lift_res (ensure_valid_id checkpoint_id "checkpoint id") ;;
  let attempt := wc_attempt claim in
  transaction (
    ensure_claim_current claim ;;
    current ← load_checkpoint_tx checkpoint_id;
    ensure (String.eqb (cpr_attempt_id current) (atr_id attempt))
      "checkpoint belongs to another attempt" ;;
    if decide (cpr_phase current = Committed) then
      ensure (outcome_eqb (cpr_outcome current) (Some outcome))
        "checkpoint was committed with a different outcome" ;;
      mret current
    else
      ensure (bool_decide (cpr_phase current = Prepared)) "checkpoint is not prepared" ;;
      now ← unix_now;
      updated ← sql_update harness_checkpoints
        (λ c, is_checkpoint checkpoint_id c && phase_is Prepared c &&
              String.eqb (cp_attempt_id c) (atr_id attempt))
        (λ c, set_outcome (Some outcome) (set_phase Committed now c));
      ensure (updated =? 1)%Z "checkpoint changed while committing" ;;
      sql_update harness_attempts (λ a, is_attempt (atr_id attempt) a && attempt_in [ARunning] a)
        (set_attempt_status ACommitting) ;;
      insert_event (atr_goal_id attempt) "checkpoint.committed" actor
        [("checkpoint_id", JStr checkpoint_id)] ;;
      load_checkpoint_tx checkpoint_id).

Definition finish_tx (claim : WorkClaim) (checkpoint_id actor : string) : DB unit :=
  let attempt := wc_attempt claim in
  transaction (
    ensure_claim_current claim ;;
    checkpoint ← load_checkpoint_tx checkpoint_id;
    ensure (String.eqb (cpr_attempt_id checkpoint) (atr_id attempt) &&
            bool_decide (cpr_phase checkpoint = Committed))
      "attempt has no committed checkpoint" ;;
    reconcile_checkpoint_tx checkpoint ;;
    unlock_ready_work_tx (atr_goal_id attempt) ;;
    refresh_goal_status_tx (atr_goal_id attempt) ;;
    insert_event (atr_goal_id attempt) "attempt.finished" actor
      [("attempt_id", JStr (atr_id attempt)); ("checkpoint_id", JStr checkpoint_id)]).

Definition finish_attempt (claim : WorkClaim) (checkpoint_id actor : string) : DB ResumeReport :=
  finish_tx claim checkpoint_id actor ;;
  resume_or "goal disappeared after attempt completion"
    (atr_goal_id (wc_attempt claim)) actor.

(** ** Failing *)

(** One round of the recursive CTE: dependents of [frontier] not seen yet. *)
Definition dependents (deps : list dep_row) (seen frontier : list string) : list string :=
  remove_dups (List.filter (λ x, negb (str_mem x seen))
    (dep_item <$> List.filter (λ d, str_mem (dep_on d) frontier) deps)).

Fixpoint downstream_go (fuel : nat) (deps : list dep_row) (seen frontier : list string)
    : list string :=
  match fuel with
  | O => seen
  | S fuel' =>
      let new := dependents deps seen frontier in
      downstream_go fuel' deps (seen ++ new) new
  end.

(** [WITH RECURSIVE downstream]: a new id enters [seen] in every round but the
    last, and there are at most as many ids as dependency rows. *)
Definition downstream (deps : list dep_row) (work_item_id : string) : list string :=
  let first := dependents deps [] [work_item_id] in
  downstream_go (S (length deps)) deps first first.

Definition fail_tx (claim : WorkClaim) (error : string) (retryable : bool) (actor : string)
    : DB unit :=
  let attempt := wc_attempt claim in
  let item_id := wir_id (wc_item claim) in
  transaction (
    ensure_claim_current claim ;;
    row ← sql_first harness_work_items (is_work item_id);
    row ← context "no rows returned" row;
    s ← get_db;
    let will_retry := retryable && (attempt_count s item_id <? wi_max_attempts row)%Z in
    now ← unix_now;
    sql_update harness_attempts (λ a, is_attempt (atr_id attempt) a && live_attempt a)
      (end_attempt AFailed now (Some error)) ;;
    retry_now ← unix_now;
    now ← unix_now;
    sql_update harness_work_items (λ w, is_work item_id w && work_in [WRunning] w)
      (release_work (if will_retry then WReady else WFailed)
         (if will_retry then Some (retry_now + wi_backoff_secs row)%Z else None)
         (Some error) now) ;;
    (if will_retry then mret 0%Z
     else
       now ← unix_now;
       s ← get_db;
       sql_update harness_work_items
         (λ w, str_mem (wi_id w) (downstream (db_deps s) item_id) &&
               work_in [WPending; WReady] w)
         (set_work_status WBlocked now)) ;;
    refresh_goal_status_tx (atr_goal_id attempt) ;;
    insert_event (atr_goal_id attempt) "attempt.failed" actor
      [("attempt_id", JStr (atr_id attempt)); ("retryable", JBool retryable);
       ("will_retry", JBool will_retry); ("error", JStr error)]).

Definition fail_attempt (claim : WorkClaim) (error : string) (retryable : bool)
    (actor : string) : DB ResumeReport :=
  let error := take_chars (N.to_nat 2000) error in
  fail_tx claim error retryable actor ;;
  resume_or "goal disappeared after attempt failure" (atr_goal_id (wc_attempt claim)) actor.

(** ** Parking, deferring, continuing *)

Definition block_work_item (claim : WorkClaim) (reason actor : string) : DB WorkItemRecord :=
  let reason := take_chars (N.to_nat 2000) reason in
  let attempt := wc_attempt claim in
  let item_id := wir_id (wc_item claim) in
  now ← unix_now;
  transaction (
    ensure_claim_current claim ;;
    void_prepared_tx (atr_id attempt) now ;;
    sql_update harness_attempts (λ a, is_attempt (atr_id attempt) a && live_attempt a)
      (end_attempt AVoid now (Some reason)) ;;
    updated ← sql_update harness_work_items (λ w, is_work item_id w && work_in [WRunning] w)
      (release_work WBlocked None (Some reason) now);
    ensure (updated =? 1)%Z "work item is not running" ;;
    insert_event (atr_goal_id attempt) "work.blocked" actor
      [("work_item_id", JStr item_id); ("attempt_id", JStr (atr_id attempt));
       ("handler", JStr (wir_handler (wc_item claim))); ("reason", JStr reason)]) ;;
  row ← sql_first harness_work_items (is_work item_id);
  row ← context "no rows returned" row;
  lift_res (decode_work_item row).

Definition requeue_blocked_items (goal_id reason_prefix : string) (handlers : list string)
    (actor : string) : DB Z :=
  lift_res (ensure_valid_id goal_id "goal id") ;;
  ensure (String.length reason_prefix <=? 120) "block reason prefix cannot exceed 120 bytes" ;;
  if decide (handlers = []) then mret 0%Z
  else
    ensure (length handlers <=? 64) "handler list cannot exceed 64 entries" ;;
    transaction (
      now ← unix_now;
      requeued ← sql_update harness_work_items
        (λ w, of_goal goal_id w && work_in [WBlocked] w &&
              sql_like_opt (wi_last_error w) (escape_like reason_prefix +:+ "%") &&
              str_mem (wi_handler w) handlers)
        (λ w, set_last_error None (set_next_attempt None (set_work_status WReady now w)));
      (if (0 <? requeued)%Z then
         insert_event goal_id "work.requeued" actor
           [("requeued_work_items", JInt requeued); ("reason_prefix", JStr reason_prefix)]
       else mret tt) ;;
      mret requeued).

Definition defer_tx (claim : WorkClaim) (until_unix : Z) (actor : string) : DB unit :=
  let attempt := wc_attempt claim in
  let item_id := wir_id (wc_item claim) in
  now ← unix_now;
  transaction (
    ensure_claim_current claim ;;
    void_prepared_tx (atr_id attempt) now ;;
    sql_update harness_attempts (λ a, is_attempt (atr_id attempt) a && live_attempt a)
      (end_attempt AVoid now (Some ("deferred until " +:+ pretty until_unix))) ;;
    sql_update harness_work_items (λ w, is_work item_id w && work_in [WRunning] w)
      (release_work WReady (Some until_unix) None now) ;;
    insert_event (atr_goal_id attempt) "attempt.deferred" actor
      [("work_item_id", JStr item_id); ("attempt_id", JStr (atr_id attempt));
       ("until_unix", JInt until_unix)]).

Definition defer_attempt (claim : WorkClaim) (until_unix : Z) (actor : string) : DB ResumeReport :=
  ensure (0 <? until_unix)%Z "deferred wake time must be positive" ;;
  defer_tx claim until_unix actor ;;
  resume_or "goal disappeared after attempt deferral" (atr_goal_id (wc_attempt claim)) actor.

Definition next_phase_progress (work_item_id : string) (continuation : WorkContinuation)
    : DB WorkPhaseProgress :=
  row ← sql_first harness_work_items (is_work work_item_id);
  row ← context "no rows returned" row;
  let current := match wi_progress row with Some p => prog_continues p | None => 0%N end in
  let continues := N.min (current + 1) 4294967295 in
  ensure (continues <=? MAX_PHASE_CONTINUES)%N
    "phase continuation budget exhausted (64 committed boundaries)" ;;
  mret {| prog_phase := cont_phase continuation; prog_state := cont_state continuation;
          prog_continues := continues |}.

Definition record_phase_progress (claim : WorkClaim) (continuation : WorkContinuation)
    (actor : string) : DB WorkPhaseProgress :=
  lift_res (continuation_validate continuation) ;;
  let attempt := wc_attempt claim in
  let item_id := wir_id (wc_item claim) in
  now ← unix_now;
  transaction (
    ensure_claim_current claim ;;
    progress ← next_phase_progress item_id continuation;
    sql_update harness_work_items (is_work item_id)
      (λ w, touch_work now (set_progress (Some progress) w)) ;;
    insert_event (atr_goal_id attempt) "attempt.phase_progressed" actor
      [("work_item_id", JStr item_id); ("attempt_id", JStr (atr_id attempt));
       ("phase", JStr (prog_phase progress));
       ("continues", JInt (Z.of_N (prog_continues progress)))] ;;
    mret progress).

Definition i64_saturating_add (a b : Z) : Z :=
  Z.max (- i64_max_z - 1) (Z.min i64_max_z (a + b)).

Definition continue_tx (claim : WorkClaim) (continuation : WorkContinuation) (actor : string)
    : DB unit :=
  let attempt := wc_attempt claim in
  let item_id := wir_id (wc_item claim) in
  now ← unix_now;
  let until_unix :=
    (λ delay, i64_saturating_add now (Z.of_N delay)) <$> cont_delay_secs continuation in
  transaction (
    ensure_claim_current claim ;;
    progress ← next_phase_progress item_id continuation;
    void_prepared_tx (atr_id attempt) now ;;
    sql_update harness_attempts (λ a, is_attempt (atr_id attempt) a && live_attempt a)
      (end_attempt AVoid now (Some ("continued: " +:+ cont_phase continuation))) ;;
    requeued ← sql_update harness_work_items (λ w, is_work item_id w && work_in [WRunning] w)
      (λ w, set_progress (Some progress) (release_work WReady until_unix None now w));
    ensure (requeued =? 1)%Z "claimed work item is no longer running" ;;
    insert_event (atr_goal_id attempt) "attempt.continued" actor
      [("work_item_id", JStr item_id); ("attempt_id", JStr (atr_id attempt));
       ("phase", JStr (prog_phase progress));
       ("continues", JInt (Z.of_N (prog_continues progress)));
       ("until_unix", match until_unix with Some t => JInt t | None => JNull end)]).

Definition continue_attempt (claim : WorkClaim) (continuation : WorkContinuation)
    (actor : string) : DB ResumeReport :=
  lift_res (continuation_validate continuation) ;;
  continue_tx claim continuation actor ;;
  resume_or "goal disappeared after attempt continuation"
    (atr_goal_id (wc_attempt claim)) actor.

(** ** Outcomes *)

Definition outcome_newest_first (a b : checkpoint_row) : bool :=
  (cp_updated_at b <? cp_updated_at a)%Z ||
  ((cp_updated_at b =? cp_updated_at a)%Z && String.leb (cp_id b) (cp_id a)).

Definition has_outcome (work_item_id : string) (c : checkpoint_row) : bool :=
  String.eqb (cp_work_item_id c) work_item_id &&
  bool_decide (cp_phase c ∈ [Committed; Reconciled]) && is_some (cp_outcome c).

Definition latest_outcome (s : Db) (work_item_id : string) : option WorkOutcome :=
  head (order_by outcome_newest_first (List.filter (has_outcome work_item_id) (db_checkpoints s)))
    ≫= cp_outcome.

Definition work_item_outcome (work_item_id : string) : DB (option WorkOutcome) :=
  s ← get_db; mret (latest_outcome s work_item_id).

(** Keyed by dependency step id; a later row wins, as in [BTreeMap::insert]. *)
Definition upstream_outcomes (work_item_id : string) : DB (gmap string WorkOutcome) :=
  s ← get_db;
  let dep_ids := dep_on <$> List.filter (λ d, String.eqb (dep_item d) work_item_id) (db_deps s) in
  mret (foldl (λ m dep_id,
    match List.find (is_work dep_id) (db_work s), latest_outcome s dep_id with
    | Some w, Some o => <[wi_step_id w := o]> m
    | _, _ => m
    end) ∅ dep_ids).

(** ** Operator confirmation *)

(** What the verdict is about: the parked item, its attempt, its checkpoint. *)
Definition parked_attempt (s : Db) (work_item_id : string) : option attempt_row :=
  head (order_by (λ a b, (at_number b <=? at_number a)%Z)
    (List.filter (λ a, String.eqb (at_work_item_id a) work_item_id &&
                       attempt_in [AWaitingConfirmation] a) (db_attempts s))).

Definition prepared_checkpoint (s : Db) (attempt_id : string) : option checkpoint_row :=
  last (List.filter (λ c, String.eqb (cp_attempt_id c) attempt_id && phase_is Prepared c)
    (db_checkpoints s)).

Definition load_parked (goal_id work_item_id : string)
    : DB (WorkItemRecord * AttemptRecord * CheckpointRecord) :=
  row ← sql_first harness_work_items (λ w, is_work work_item_id w && of_goal goal_id w);
  row ← context "work item not found" row;
  item ← lift_res (decode_work_item row);
  ensure (bool_decide (wir_status item = WWaitingConfirmation))
    "work item is not awaiting confirmation" ;;
  s ← get_db;
  attempt ← context "no attempt is parked in waiting_confirmation"
    (parked_attempt s work_item_id);
  attempt ← lift_res (decode_attempt attempt);
  checkpoint ← context "parked attempt has no prepared checkpoint"
    (prepared_checkpoint s (atr_id attempt));
  let checkpoint := decode_checkpoint checkpoint in
  ensure (is_external_write (wir_effect item) || negb (cpr_replay_safe checkpoint))
    "waiting_confirmation requires an ambiguous effect" ;;
  mret (item, attempt, checkpoint).

Definition confirmed_outcome (reason : string) : WorkOutcome :=
  {| out_summary := "operator confirmed external delivery: " +:+ reason;
     out_artifact_ids := [];
     out_evidence := json_object [("confirmation", json_string "operator");
       ("resolution", json_string "confirmed"); ("reason", json_string reason)];
     out_sleep_until := None; out_continuation := None |}.

(** [UPDATE .. WHERE id = ? AND status = 'waiting_confirmation'] on both tables. *)
Definition settle_parked (attempt_id work_item_id : string) (ast : AttemptStatus)
    (aerr : option string) (wst : WorkItemStatus) (next : option Z) (werr : option string)
    (now : Z) : DB unit :=
  sql_update harness_attempts
    (λ a, is_attempt attempt_id a && attempt_in [AWaitingConfirmation] a)
    (end_attempt ast now aerr) ;;
  sql_update harness_work_items
    (λ w, is_work work_item_id w && work_in [WWaitingConfirmation] w)
    (release_work wst next werr now) ;;
  mret tt.

Definition apply_resolution (resolution : ConfirmationResolution) (reason : string)
    (item : WorkItemRecord) (attempt_id checkpoint_id : string) (now : Z) : DB unit :=
  let work_item_id := wir_id item in
  let void := sql_update harness_checkpoints
    (λ c, is_checkpoint checkpoint_id c && phase_is Prepared c) (set_phase Voided now) in
  match resolution with
  | Confirmed =>
      sql_update harness_checkpoints
        (λ c, is_checkpoint checkpoint_id c && phase_is Prepared c)
        (λ c, set_outcome (Some (confirmed_outcome reason)) (set_phase Committed now c)) ;;
      sql_update harness_checkpoints
        (λ c, is_checkpoint checkpoint_id c && phase_is Committed c)
        (set_phase Reconciled now) ;;
      settle_parked attempt_id work_item_id ASucceeded None WSucceeded None None now
  | Retry =>
      void ;;
      sql_update harness_attempts
        (λ a, is_attempt attempt_id a && attempt_in [AWaitingConfirmation] a)
        (end_attempt AAbandoned now
           (Some ("operator: effect not delivered, retry authorized (" +:+ reason +:+ ")"))) ;;
      s ← get_db;
      let exhausted := (Z.of_N (wir_max_attempts item) <=? attempt_count s work_item_id)%Z in
      sql_update harness_work_items
        (λ w, is_work work_item_id w && work_in [WWaitingConfirmation] w)
        (if exhausted
         then release_work WFailed None
                (Some "attempt budget exhausted after operator retry") now
         else release_work WReady (Some now) (Some ("retry authorized: " +:+ reason)) now) ;;
      mret tt
  | Abandoned =>
      void ;;
      settle_parked attempt_id work_item_id AFailed (Some ("operator abandoned: " +:+ reason))
        WFailed None (Some ("operator abandoned: " +:+ reason)) now
  end.

(** The confirmation signal of the item, when it is still open. *)
Definition pending_confirmation (s : Db) (work_item_id : string) : option string :=
  sg_id <$> head (order_by (λ a b, (sg_created_at b <=? sg_created_at a)%Z)
    (List.filter (λ r, String.eqb (sg_source r) "internal:confirmation" &&
       bool_decide (sg_external_id r = Some ("confirm:" +:+ work_item_id)) &&
       open_signal (signal_status_of s (sg_id r))) (db_signals s))).

Definition resolve_tx (goal_id work_item_id : string) (resolution : ConfirmationResolution)
    (reason actor : string) : DB unit :=
  transaction (
    '(item, attempt, checkpoint) ← load_parked goal_id work_item_id;
    now ← unix_now;
    apply_resolution resolution reason item (atr_id attempt) (cpr_id checkpoint) now ;;
    unlock_ready_work_tx (wir_goal_id item) ;;
    refresh_goal_status_tx (wir_goal_id item) ;;
    insert_event (wir_goal_id item) "confirmation.resolved" actor
      [("work_item_id", JStr work_item_id); ("attempt_id", JStr (atr_id attempt));
       ("checkpoint_id", JStr (cpr_id checkpoint));
       ("resolution", JStr (confirmation_as_str resolution)); ("reason", JStr reason)]).

Definition resolve_waiting_confirmation (goal_id work_item_id : string)
    (resolution : ConfirmationResolution) (reason actor : string) : DB WorkItemRecord :=
  lift_res (ensure_valid_id goal_id "goal id") ;;
  lift_res (ensure_valid_id work_item_id "work item id") ;;
  let reason := trim reason in
  ensure (reason_ok reason) "confirmation reason must be 1..=512 characters" ;;
  resolve_tx goal_id work_item_id resolution reason actor ;;
  s ← get_db;
  match pending_confirmation s work_item_id with
  | Some signal_id => ignore_error (ignore_signal signal_id "confirmation resolved" actor)
  | None => mret tt
  end ;;
  row ← sql_first harness_work_items (is_work work_item_id);
  row ← context "no rows returned" row;
  lift_res (decode_work_item row).

End work.
