(* ===== verification/StoreExtend.v ===== *)
(** * The loop store: dynamic workflow extension and listings

    Models [extend_workflow] of [SqliteLoopStore]
    (src/harness/loop_engine/store.rs), which appends work items to an approved
    swarm workflow while it runs, and the remaining listings.  Each block of the
    function is a definition; [extend_workflow] composes them in one transaction. *)

From S2P Require Import Prelude Text External Domain Tables StoreBase StoreGoals.

Section extend.
  Context `{ENV : LoopEnv}.

Abbreviation DB := (M Db).

(** ** Authorisation *)

(** A step whose input carries ["swarm_root": true]. *)
Definition is_swarm_root (step : WorkflowStep) : bool :=
  match json_get (step_input step) "swarm_root" with
  | Some value => bool_decide (json_as_bool value = Some true)
  | None => false
  end.

(** [max_nodes] of the first swarm root of the approved workflow. *)
Definition swarm_budget (spec : WorkflowSpec) : res N :=
  root ← context_res "approved workflow does not authorize dynamic extension"
    (List.find is_swarm_root (wf_steps spec));
  context_res "swarm root step is missing a max_nodes budget"
    (json_get (step_input root) "max_nodes" ≫= json_as_u64).

(** The items of the goal that are not canceled. *)
Definition open_items (s : Db) (goal_id : string) : list work_row :=
  List.filter (λ w, of_goal goal_id w && negb (work_in [WCanceled] w)) (db_work s).

(** [COALESCE(MAX(ordinal), -1)]. *)
Definition max_ordinal (items : list work_row) : Z :=
  match items with
  | [] => -1
  | w :: items' => foldr (λ w m, Z.max (wi_ordinal w) m) (wi_ordinal w) items'
  end.

(** The workflow that may be extended, once the goal and the expansion budget
    have been checked. *)
Definition extensible_workflow (goal_id : string) (steps : list WorkflowStep) : DB workflow_row :=
  g ← goal_row_tx goal_id;
  ensure (goal_in [Approved; Active; Verifying] g) "goal is not extensible" ;;
  s ← get_db;
  wf ← context "goal has no workflow to extend" (latest_workflow s goal_id);
  max_nodes ← lift_res (swarm_budget (wr_workflow wf));
  ensure (N.of_nat (length (open_items s goal_id) + length steps) <=? N.min max_nodes 32)%N
    "workflow extension exceeds the approved expansion budget" ;;
  mret wf.

(** ** Step checks *)

(** One round of the first loop over [steps]; [step_ids] holds the ids seen. *)
Definition extension_step (manifest : list EffectClass) (external_write : ExternalWritePolicy)
    (step : WorkflowStep) (step_ids : list string) : res (list string) :=
  guard_res (bounded_nonblank 96 (step_id step)) "workflow step id must be 1..=96 bytes" ;;
  guard_res (negb (str_mem (step_id step) step_ids)) "duplicate workflow step id" ;;
  guard_res (str_mem (step_handler step) ALLOWED_WORKFLOW_HANDLERS)
    "unregistered workflow handler" ;;
  guard_res (ew_step_ok external_write step)
    ("external_write step '" +:+ step_handler step +:+
     "' requires external_write_enabled and an allowlisted handler") ;;
  guard_res (bool_decide (step_effect step ∈ manifest))
    "step effect is outside the approved effect manifest" ;;
  guard_res ((1 <=? max_attempts (step_retry step)) && (max_attempts (step_retry step) <=? 10))%N
    "max_attempts must be 1..=10" ;;
  guard_res (backoff_secs (step_retry step) <=? 3600)%N "backoff cannot exceed 3600 seconds" ;;
  ok ← serialized_within 8192 (step_input step);
  guard_res ok "step input cannot exceed 8192 bytes" ;;
  Ok (step_ids ++ [step_id step]).

(** [input.depends_on] as a list of strings; other elements are skipped. *)
Definition declared_deps (step : WorkflowStep) : list string :=
  match json_get (step_input step) "depends_on" ≫= json_as_array with
  | Some values => omap json_as_str values
  | None => []
  end.

(** The second loop: every dependency names a step already known. *)
Fixpoint extension_deps (steps : list WorkflowStep) (known : list string)
    : res (list (list string)) :=
  match steps with
  | [] => Ok []
  | step :: steps' =>
      let deps := declared_deps step in
      guard_res (length deps <=? 16) "a step may declare at most 16 dependencies" ;;
      for_res (λ dep _,
        guard_res (str_mem dep known) ("depends_on references unknown step '" +:+ dep +:+ "'") ;;
        guard_res (negb (String.eqb dep (step_id step))) "a step cannot depend on itself")
        deps tt ;;
      rest ← extension_deps steps' (known ++ [step_id step]);
      Ok (deps :: rest)
  end.

(** ** Materialisation *)

(** The third loop: one work item per step, [pending] when it has dependencies. *)
Fixpoint extend_items (goal_id workflow_id : string) (ordinal : Z)
    (steps : list (WorkflowStep * list string)) : DB (list WorkItemRecord) :=
  match steps with
  | [] => mret []
  | (step, deps) :: steps' =>
      work_id ← new_loop_id "work";
      let status := match deps with [] => WReady | _ => WPending end in
      now ← unix_now;
      let row := new_work_row work_id goal_id workflow_id step status ordinal now in
      sql_insert harness_work_items (work_clash row) row ;;
      ord ← context "invalid work item ordinal" (try_u32 ordinal);
      created ← unix_now;
      rest ← extend_items goal_id workflow_id (ordinal + 1)%Z steps';
      mret ({| wir_id := work_id; wir_goal_id := goal_id; wir_status := status;
               wir_step_id := step_id step; wir_handler := step_handler step;
               wir_effect := step_effect step; wir_input := step_input step;
               wir_max_attempts := max_attempts (step_retry step); wir_ordinal := ord;
               wir_dependency_ids := []; wir_created_at := created;
               wir_progress := None |} :: rest)
  end.

(** A step id in the batch, or else any item of the goal with that step id. *)
Definition resolve_dep (s : Db) (goal_id : string) (records : list WorkItemRecord)
    (dep : string) : option string :=
  match List.find (λ r, String.eqb (wir_step_id r) dep) records with
  | Some r => Some (wir_id r)
  | None => wi_id <$> List.find (λ w, of_goal goal_id w && String.eqb (wi_step_id w) dep) (db_work s)
  end.

Definition extend_deps (goal_id : string) (records : list WorkItemRecord)
    (depends_on : list (list string)) : DB unit :=
  foreach (zip records depends_on) (λ '(record, deps),
    foreach deps (λ dep,
      s ← get_db;
      on ← context "failed to resolve depends_on step" (resolve_dep s goal_id records dep);
      insert_dep (wir_id record) on)).

(** The transaction of [extend_workflow]. *)
Definition extend_tx (goal_id : string) (steps : list WorkflowStep) (actor : string)
    (external_write : ExternalWritePolicy) : DB (list WorkItemRecord) :=
  transaction (
    wf ← extensible_workflow goal_id steps;
    s ← get_db;
    let existing := wi_step_id <$> open_items s goal_id in
    lift_res (for_res (extension_step (wr_effect_manifest wf) external_write) steps existing) ;;
    depends_on ← lift_res (extension_deps steps existing);
    records ← extend_items goal_id (wr_id wf) (max_ordinal (open_items s goal_id) + 1)%Z
      (zip steps depends_on);
    extend_deps goal_id records depends_on ;;
    insert_event goal_id "workflow.extended" actor
      [("workflow_id", JStr (wr_id wf)); ("step_ids", JStrs (step_id <$> steps))] ;;
    refresh_goal_status_tx goal_id ;;
    mret records).

Definition extend_workflow (goal_id : string) (steps : list WorkflowStep) (actor : string)
    (external_write : ExternalWritePolicy) : DB (list WorkItemRecord) :=
  lift_res (ensure_valid_id goal_id "goal id") ;;
  ensure (starts_with actor INTERNAL_ACTOR_PREFIX)
    "extend_workflow requires an internal actor" ;;
  ensure ((1 <=? length steps) && (length steps <=? 32))
    "extend_workflow requires 1..=32 steps" ;;
  extend_tx goal_id steps actor external_write.

(** ** Listings *)

Definition attempt_number_order (a b : attempt_row) : bool :=
  (at_number a <? at_number b)%Z ||
  ((at_number a =? at_number b)%Z && String.leb (at_id a) (at_id b)).

Definition list_attempts (goal_id : string) : DB (list AttemptRecord) :=
  lift_res (ensure_valid_id goal_id "goal id") ;;
  rows ← sql_select harness_attempts (λ a, String.eqb (at_goal_id a) goal_id);
  lift_res (mapM_res decode_attempt (order_by attempt_number_order rows)).

Definition list_checkpoints (goal_id : string) : DB (list CheckpointRecord) :=
  lift_res (ensure_valid_id goal_id "goal id") ;;
  rows ← sql_select harness_checkpoints (λ c, String.eqb (cp_goal_id c) goal_id);
  mret (decode_checkpoint <$> rows).

(** [sequence] is the position of the event in the table, from 1. *)
Definition numbered_events (s : Db) : list (Z * event_row) :=
  imap (λ i e, (Z.of_nat i + 1, e)%Z) (db_events s).

Definition list_goal_events (goal_id : string) (after_sequence : Z) (limit : nat)
    : DB (list (Z * event_row)) :=
  lift_res (ensure_valid_id goal_id "goal id") ;;
  ensure (0 <=? after_sequence)%Z "event cursor cannot be negative" ;;
  s ← get_db;
  mret (take (Nat.min (Nat.max limit 1) 500)
    (List.filter (λ '(seq, e), String.eqb (ev_goal_id e) goal_id && (after_sequence <? seq)%Z)
       (numbered_events s))).

End extend.
