(* ===== verification/Replay.v ===== *)
(** * Self tests and replay

    Models replay.rs in its second part, and first
    src/harness/loop_engine/self_test.rs: the [core] suite, six read-only count checks over the store, and the run that is persisted.  The two checks
    on the schema itself count rows of [sqlite_master] and of the migration
    table, which are not part of the modelled store: their counts are arguments. *)

From S2P Require Import Prelude Text Messages External Domain Tables StoreBase.
From stdpp Require Import pretty.

Section self_test.
  Context `{ENV : LoopEnv}.

Abbreviation DB := (M Db).

(** [count_case]; the query itself cannot fail here. *)
Definition count_case (name : string) (actual expected : Z) (success_details : string)
    : SelfTestCaseResult :=
  if (actual =? expected)%Z
  then {| stc_name := name; stc_passed := true; stc_details := success_details |}
  else {| stc_name := name; stc_passed := false;
          stc_details := "expected count " +:+ pretty expected +:+ ", observed " +:+ pretty actual |}.

(** Work items whose goal or workflow is missing. *)
Definition dangling_work_items (s : Db) : Z :=
  count_where (λ w,
    negb (existsb (is_goal (wi_goal_id w)) (db_goals s)) ||
    negb (existsb (λ p, String.eqb (wr_id p) (wi_workflow_id w)) (db_workflows s))) (db_work s).

(** Committed or reconciled checkpoints without an outcome. *)
Definition missing_outcomes (s : Db) : Z :=
  count_where (λ c, bool_decide (cp_phase c ∈ [Committed; Reconciled]) &&
                    negb (is_some (cp_outcome c))) (db_checkpoints s).

(** Signal events whose signal is missing. *)
Definition dangling_signal_events (s : Db) : Z :=
  count_where (λ e, negb (existsb (λ r, String.eqb (sg_id r) (se_signal_id e)) (db_signals s)))
    (db_signal_events s).

Definition approval_of (a : approval_row) (p : workflow_row) : bool :=
  String.eqb (wr_goal_id p) (ap_goal_id a) && (wr_goal_revision p =? ap_goal_revision a)%Z.

(** Approvals whose reviewed workflow is missing or has another hash. *)
Definition unbound_approvals (s : Db) : Z :=
  count_where (λ a, match List.find (approval_of a) (db_workflows s) with
                    | Some p => negb (String.eqb (wr_plan_hash p) (ap_plan_hash a))
                    | None => true
                    end) (db_approvals s).

(** The suite; each query is its own read, all of them on the store [s]. *)
Definition core_cases (schema_tables schema_versions : Z) (s : Db) : list SelfTestCaseResult :=
  [ count_case "required_schema" schema_tables 20 "all durable loop tables are present";
    count_case "schema_version" schema_versions 1 "loop engine schema version 1 is applied";
    count_case "work_item_references" (dangling_work_items s) 0
      "all work items reference a goal and immutable workflow";
    count_case "checkpoint_outcomes" (missing_outcomes s) 0
      "committed checkpoints always retain their durable outcome";
    count_case "signal_event_references" (dangling_signal_events s) 0
      "append-only signal events always reference immutable signals";
    count_case "approval_bindings" (unbound_approvals s) 0
      "every approval still resolves to the reviewed workflow hash" ].

Definition persist_run (run : self_test_row) : DB unit :=
  transaction (sql_insert harness_self_test_runs (λ r, String.eqb (st_id r) (st_id run)) run).

Definition run_self_tests (schema_tables schema_versions : Z) (suite : string)
    : DB self_test_row :=
  ensure (String.eqb suite "core") ("unknown self-test suite: " +:+ suite) ;;
  started_at ← unix_now;
  s ← get_db;
  let cases := core_cases schema_tables schema_versions s in
  id ← new_loop_id "selftest";
  finished_at ← unix_now;
  let run := {| st_id := id; st_suite := suite; st_passed := forallb stc_passed cases;
                st_cases := cases; st_started_at := started_at;
                st_finished_at := finished_at |} in
  persist_run run ;;
  mret run.

Definition get_self_test_run (run_id : string) : DB (option self_test_row) :=
  sql_first harness_self_test_runs (λ r, String.eqb (st_id r) run_id).

End self_test.

(** * Structural replay

    Models the store operations of src/harness/loop_engine/replay.rs: recording a
    provider call of a trajectory, listing a trajectory, and the replay that
    recomputes the hashes of every frame without executing anything. *)

Section replay.
  Context `{ENV : LoopEnv}.

Abbreviation DB := (M Db).

Definition draft_validate (self : TrajectoryFrameDraft) : res unit :=
  guard_res (bounded_nonblank 160 (dr_trajectory_id self)) "trajectory id must be 1..=160 bytes" ;;
  guard_res (dr_call_index self <=? 1024)%N "provider call index cannot exceed 1024" ;;
  guard_res (bounded_nonblank 200 (dr_model self)) "model must be 1..=200 bytes" ;;
  guard_res (bounded_nonblank 300 (dr_provider_fingerprint self))
    "provider fingerprint must be 1..=300 bytes" ;;
  guard_res (match dr_request_messages self with [] => false | l => length l <=? 256 end)
    "trajectory frame must contain 1..=256 request messages" ;;
  ok ← serialized_within 131072 (dr_request_messages self);
  guard_res ok "trajectory frame request cannot exceed 131072 bytes" ;;
  guard_res (N.of_nat (String.length (dr_response self)) <=? 262144)%N
    "trajectory frame response cannot exceed 262144 bytes".

Definition request_hash (messages : list StoredMessage) (request_was_json : bool) : res string :=
  hash_serializable (messages, request_was_json).

Definition decode_frame (row : frame_row) : res TrajectoryFrame :=
  call_index ← context_res "invalid provider call index" (try_u32 (tf_call_index row));
  Ok {| fr_id := tf_id row; fr_trajectory_id := tf_trajectory_id row;
        fr_call_index := call_index; fr_model := tf_model row;
        fr_provider_fingerprint := tf_provider_fingerprint row;
        fr_request_messages := tf_request_messages row;
        fr_request_was_json := tf_request_was_json row;
        fr_request_hash := tf_request_hash row; fr_response := tf_response row;
        fr_response_hash := tf_response_hash row; fr_capture := tf_capture row;
        fr_created_at := tf_created_at row |}.

Definition of_trajectory (trajectory_id : string) (r : frame_row) : bool :=
  String.eqb (tf_trajectory_id r) trajectory_id.

(** [WHERE trajectory_id = ?1 AND call_index = ?2]. *)
Definition same_call (trajectory_id : string) (call_index : Z) (r : frame_row) : bool :=
  of_trajectory trajectory_id r && (tf_call_index r =? call_index)%Z.

(** [PRIMARY KEY] and [UNIQUE(trajectory_id, call_index)]. *)
Definition frame_clash (r x : frame_row) : bool :=
  String.eqb (tf_id x) (tf_id r) || same_call (tf_trajectory_id r) (tf_call_index r) x.

Definition new_frame_row (id : string) (draft : TrajectoryFrameDraft)
    (request_hash response_hash actor : string) (now : Z) : frame_row :=
  {| tf_id := id; tf_trajectory_id := dr_trajectory_id draft;
     tf_call_index := Z.of_N (dr_call_index draft); tf_model := dr_model draft;
     tf_provider_fingerprint := dr_provider_fingerprint draft;
     tf_request_messages := dr_request_messages draft;
     tf_request_was_json := dr_request_was_json draft; tf_request_hash := request_hash;
     tf_response := dr_response draft; tf_response_hash := response_hash;
     tf_capture := dr_capture draft; tf_created_by := actor; tf_created_at := now |}.

Definition record_trajectory_frame (draft : TrajectoryFrameDraft) (actor : string)
    : DB TrajectoryFrame :=
  request_hash ← lift_res (request_hash (dr_request_messages draft) (dr_request_was_json draft));
  response_hash ← lift_res (hash_serializable (dr_response draft));
  transaction (
    existing ← sql_first harness_trajectory_frames
      (same_call (dr_trajectory_id draft) (Z.of_N (dr_call_index draft)));
    match existing with
    | Some row =>
        existing ← lift_res (decode_frame row);
        ensure (String.eqb (fr_request_hash existing) request_hash &&
                String.eqb (fr_response_hash existing) response_hash)
          "provider call index was already recorded with different content" ;;
        mret existing
    | None =>
        id ← new_loop_id "frame";
        lift_res (to_vec (dr_request_messages draft)) ;;
        now ← unix_now;
        let row := new_frame_row id draft request_hash response_hash actor now in
        sql_insert harness_trajectory_frames (frame_clash row) row ;;
        row ← sql_first harness_trajectory_frames (λ r, String.eqb (tf_id r) id);
        row ← context "no rows returned" row;
        lift_res (decode_frame row)
    end).

Definition call_order (a b : frame_row) : bool := (tf_call_index a <=? tf_call_index b)%Z.

Definition list_frames (trajectory_id : string) : DB (list TrajectoryFrame) :=
  rows ← sql_select harness_trajectory_frames (of_trajectory trajectory_id);
  lift_res (mapM_res decode_frame (order_by call_order rows)).

Definition bool_text (b : bool) : string := if b then "true" else "false".

(** The body of the replay loop for the frame at position [expected_index]. *)
Definition replay_case (expected_index : nat) (frame : TrajectoryFrame) : res ReplayCaseResult :=
  expected_index ← context_res "too many replay frames" (try_u32 (Z.of_nat expected_index));
  request ← request_hash (fr_request_messages frame) (fr_request_was_json frame);
  let request_matches := String.eqb request (fr_request_hash frame) in
  response ← hash_serializable (fr_response frame);
  let response_matches := String.eqb response (fr_response_hash frame) in
  let ordered := (fr_call_index frame =? expected_index)%N in
  let passed := ordered && request_matches && response_matches in
  Ok {| rc_frame_id := fr_id frame; rc_call_index := fr_call_index frame; rc_passed := passed;
        rc_details :=
          if passed then "frame hashes and order are intact; no live tools executed"
          else "ordered=" +:+ bool_text ordered +:+ ", request_hash_valid=" +:+
               bool_text request_matches +:+ ", response_hash_valid=" +:+
               bool_text response_matches |}.

Fixpoint replay_cases (expected_index : nat) (frames : list TrajectoryFrame)
    : res (list ReplayCaseResult) :=
  match frames with
  | [] => Ok []
  | frame :: frames' =>
      case ← replay_case expected_index frame;
      cases ← replay_cases (S expected_index) frames';
      Ok (case :: cases)
  end.

Definition persist_replay (run : ReplayRun) (actor : string) : DB unit :=
  transaction (
    sql_insert harness_replay_runs (λ r, String.eqb (rp_id (rp_run r)) (rp_id run))
      {| rp_run := run; rp_created_by := actor |} ;;
    foreach (imap (λ i _, i) (rp_cases run)) (λ i,
      context "too many replay cases" (try_i64 (N.of_nat i)) ;; mret tt)).

Definition run_structural_replay (trajectory_id actor : string) : DB ReplayRun :=
  frames ← list_frames trajectory_id;
  first ← context "trajectory has no provider frames" (head frames);
  let exact_replayable := forallb (λ frame,
    bool_decide (fr_capture frame = Full) &&
    String.eqb (fr_provider_fingerprint frame) (fr_provider_fingerprint first)) frames in
  cases ← lift_res (replay_cases 0 frames);
  let status := if forallb rc_passed cases then ReplayPassed else ReplayFailed in
  id ← new_loop_id "replay";
  now ← unix_now;
  let run := {| rp_id := id; rp_trajectory_id := trajectory_id; rp_mode := Structural;
                rp_status := status; rp_exact_replayable := exact_replayable;
                rp_live_tools_executed := 0; rp_cases := cases; rp_created_at := now |} in
  persist_replay run actor ;;
  mret run.

End replay.
