(* ===== verification/Engine.v ===== *)
(** * The loop engine

    Models [LoopEngine] (src/harness/loop_engine/engine.rs): the validation that
    stands between callers and the store.  Methods that only forward to the store
    have no definition here.  The broadcast notifications are wake-up hints that
    no method reads back; they are left out. *)

From S2P Require Import Prelude Text External Domain Workflow Tables Signals Artifacts.
From S2P Require Import StoreBase StoreGoals StoreWork StoreExtend Replay.

(** The engine's policy and the approval policy of the store it owns. *)
Record LoopEngine : Type := {
  external_write_policy : ExternalWritePolicy;
  internal_policy : InternalApprovalPolicy
}.

Section engine.
  Context `{ENV : LoopEnv}.
  Variable self : LoopEngine.

Abbreviation DB := (M Db).

Definition engine_create_goal_admission (request : CreateGoalRequest) (actor : string)
    : DB (GoalRecord * bool) :=
  lift_res (create_goal_validate request) ;;
  lift_res (validate_actor actor) ;;
  create_goal_admission request actor.

Definition engine_create_goal (request : CreateGoalRequest) (actor : string) : DB GoalRecord :=
  r ← engine_create_goal_admission request actor; mret r.1.

Definition engine_ingest_signal (request : CreateSignalRequest) (actor : string)
    : DB SignalIngestResult :=
  lift_res (signal_validate request) ;;
  lift_res (validate_actor actor) ;;
  ingest_signal request actor.

Definition engine_ignore_signal (signal_id reason actor : string) : DB SignalRecord :=
  lift_res (validate_actor actor) ;; ignore_signal signal_id reason actor.

Definition engine_triage_signal (signal_id actor : string) : DB SignalRecord :=
  lift_res (validate_actor actor) ;; triage_signal signal_id actor.

(** The request id makes the create and mark pair idempotent. *)
Definition signal_goal_request (signal_id objective : string) : CreateGoalRequest :=
  {| cg_objective := objective; cg_source_signal_ids := [signal_id];
     cg_request_id := Some ("signal:" +:+ signal_id); cg_internal_only := false |}.

Definition propose_goal_from_signal (signal_id objective actor : string) : DB GoalRecord :=
  lift_res (validate_actor actor) ;;
  signal ← get_signal signal_id;
  signal ← context "signal not found" signal;
  ensure (bool_decide (sr_status signal ∈ [SObserved; STriaged]))
    ("signal cannot be proposed from status '" +:+
     signal_status_as_str (sr_status signal) +:+ "'") ;;
  goal ← engine_create_goal (signal_goal_request signal_id objective) actor;
  mark_signal_proposed signal_id (gr_id goal) actor ;;
  mret goal.

(** [join(", ")]. *)
Fixpoint join_comma (l : list string) : string :=
  match l with
  | [] => ""
  | [x] => x
  | x :: l' => x +:+ ", " +:+ join_comma l'
  end.

Definition failed_cases (run : self_test_row) : string :=
  join_comma (stc_name <$> List.filter (λ c, negb (stc_passed c)) (st_cases run)).

Definition engine_run_self_tests (schema_tables schema_versions : Z) (suite actor : string)
    : DB self_test_row :=
  lift_res (validate_actor actor) ;;
  run ← run_self_tests schema_tables schema_versions suite;
  if st_passed run then mret run
  else
    let failed := failed_cases run in
    failure_digest ← lift_res (hash_serializable (suite, failed));
    ignore_error (engine_ingest_signal
      {| cs_kind := KSelfTest; cs_trust := TInternal; cs_source := "harness:self-test";
         cs_external_id := Some (suite +:+ ":" +:+ failure_digest);
         cs_content := "Self-test suite " +:+ suite +:+ " failed: " +:+ failed;
         cs_metadata := [("run_id", st_id run); ("suite", suite)] |} actor) ;;
    mret run.

Definition engine_record_trajectory_frame (draft : TrajectoryFrameDraft) (actor : string)
    : DB TrajectoryFrame :=
  lift_res (draft_validate draft) ;;
  lift_res (validate_actor actor) ;;
  record_trajectory_frame draft actor.

Definition engine_run_structural_replay (trajectory_id actor : string) : DB ReplayRun :=
  lift_res (validate_actor actor) ;; run_structural_replay trajectory_id actor.

Definition engine_plan_goal (goal_id : string) (request : PlanGoalRequest) (actor : string)
    : DB PlannedGoal :=
  lift_res (plan_validate_with_policy request (external_write_policy self)) ;;
  lift_res (validate_actor actor) ;;
  plan_goal goal_id request actor.

(** The plan of [plan_goal_recommended]. *)
Definition recommended_plan (objective : string) : PlanGoalRequest :=
  let retry := {| max_attempts := 2; backoff_secs := 2 |} in
  {| plan_workflow :=
       {| wf_steps :=
            [ {| step_id := "analyze-goal"; step_handler := "provider_analysis";
                 step_effect := LocalWrite;
                 step_input := json_object [("objective", json_string objective)];
                 step_retry := retry |};
              {| step_id := "run-core-self-tests"; step_handler := "self_test_suite";
                 step_effect := LocalWrite;
                 step_input := json_object [("suite", json_string "core")];
                 step_retry := retry |} ];
          wf_edges := [ {| edge_from := "analyze-goal"; edge_to := "run-core-self-tests" |} ];
          wf_budget := {| max_provider_calls := 2; deadline_secs := 300;
                          max_response_bytes := 262144 |} |};
     plan_acceptance := [ArtifactExists "analysis_report"; SelfTestSuite "core"] |}.

Definition plan_goal_recommended (goal_id actor : string) : DB PlannedGoal :=
  goal ← get_goal goal_id;
  goal ← context ("goal not found: " +:+ goal_id) goal;
  engine_plan_goal goal_id (recommended_plan (gr_objective goal)) actor.

Definition engine_approve_goal (goal_id : string) (request : ApproveGoalRequest)
    (actor : string) : DB ResumeReport :=
  lift_res (validate_actor actor) ;;
  approve_goal (internal_policy self) goal_id request actor (external_write_policy self).

Definition lease_ok (lease_secs : N) : bool := ((1 <=? lease_secs) && (lease_secs <=? 3600))%N.

Definition engine_claim_goal_work (goal_id worker_id : string) (lease_secs : N)
    (actor : string) : DB (option WorkClaim) :=
  lift_res (validate_actor worker_id) ;;
  lift_res (validate_actor actor) ;;
  ensure (lease_ok lease_secs) "lease must be 1..=3600 seconds" ;;
  claim_goal_work goal_id worker_id lease_secs actor.

Definition engine_claim_work_item (goal_id step_id worker_id : string) (lease_secs : N)
    (actor : string) : DB (option WorkClaim) :=
  lift_res (validate_actor worker_id) ;;
  lift_res (validate_actor actor) ;;
  ensure (lease_ok lease_secs) "lease must be 1..=3600 seconds" ;;
  claim_work_item goal_id step_id worker_id lease_secs actor.

Definition engine_extend_workflow (goal_id : string) (steps : list WorkflowStep)
    (actor : string) : DB (list WorkItemRecord) :=
  lift_res (validate_actor actor) ;;
  extend_workflow goal_id steps actor (external_write_policy self).

Definition engine_publish_artifact (request : PublishArtifactRequest) (actor : string)
    : DB (artifact_row * bool) :=
  lift_res (artifact_validate request) ;;
  lift_res (validate_actor actor) ;;
  publish_artifact request actor.

Definition engine_verify_goal (goal_id actor : string) : DB GoalVerificationReport :=
  lift_res (validate_actor actor) ;; verify_goal artifact_kind_as_str goal_id actor.

Definition engine_record_manual_verification (goal_id label actor : string) : DB GoalRecord :=
  lift_res (validate_actor actor) ;; record_manual_verification goal_id label actor.

Definition engine_prepare_checkpoint (claim : WorkClaim) (idempotency_key : string)
    (replay_safe : bool) (actor : string) : DB CheckpointRecord :=
  lift_res (validate_actor actor) ;; prepare_checkpoint claim idempotency_key replay_safe actor.

Definition engine_commit_checkpoint (claim : WorkClaim) (checkpoint_id : string)
    (outcome : WorkOutcome) (actor : string) : DB CheckpointRecord :=
  lift_res (validate_actor actor) ;;
  lift_res (outcome_validate outcome) ;;
  commit_checkpoint claim checkpoint_id outcome actor.

Definition engine_finish_attempt (claim : WorkClaim) (checkpoint_id actor : string)
    : DB ResumeReport :=
  lift_res (validate_actor actor) ;; finish_attempt claim checkpoint_id actor.

Definition engine_fail_attempt (claim : WorkClaim) (error : string) (retryable : bool)
    (actor : string) : DB ResumeReport :=
  lift_res (validate_actor actor) ;; fail_attempt claim error retryable actor.

Definition engine_resume_goal (goal_id actor : string) : DB ResumeReport :=
  lift_res (validate_actor actor) ;;
  resume_or ("goal not found: " +:+ goal_id) goal_id actor.

Definition engine_record_phase_progress (claim : WorkClaim) (continuation : WorkContinuation)
    (actor : string) : DB WorkPhaseProgress :=
  lift_res (validate_actor actor) ;; record_phase_progress claim continuation actor.

Definition engine_continue_attempt (claim : WorkClaim) (continuation : WorkContinuation)
    (actor : string) : DB ResumeReport :=
  lift_res (validate_actor actor) ;; continue_attempt claim continuation actor.

Definition engine_resolve_waiting_confirmation (goal_id work_item_id : string)
    (resolution : ConfirmationResolution) (reason actor : string) : DB WorkItemRecord :=
  lift_res (validate_actor actor) ;;
  resolve_waiting_confirmation goal_id work_item_id resolution reason actor.

Definition engine_block_work_item (claim : WorkClaim) (reason actor : string)
    : DB WorkItemRecord :=
  lift_res (validate_actor actor) ;; block_work_item claim reason actor.

Definition engine_requeue_blocked_items (goal_id reason_prefix : string)
    (handlers : list string) (actor : string) : DB Z :=
  lift_res (validate_actor actor) ;; requeue_blocked_items goal_id reason_prefix handlers actor.

Definition engine_defer_attempt (claim : WorkClaim) (until_unix : Z) (actor : string)
    : DB ResumeReport :=
  lift_res (validate_actor actor) ;; defer_attempt claim until_unix actor.

End engine.
