(* ===== verification/Worker.v ===== *)
(** * The loop worker

    Models src/harness/loop_engine/worker.rs: the handler registry, the dispatch
    of one claim ([process_claim]) with its phase loop, the loop that runs a goal
    until it is idle, and what [run_goal_concurrent] does with the reports of its
    children.  A handler is a record of the trait's methods; [execute] is any
    computation on the store.

    tokio's [timeout_at] and [spawn] are external: [timeout_at deadline background
    m] runs [m] with the lease heartbeat in the background and answers [None] when
    the deadline passes first.  Renewals that happen between two executions of the
    handler commute with the single transaction there and are counted to the
    neighbouring execution.  An [anyhow] error is its message. *)

From S2P Require Import Prelude Text Strings Messages External Domain Tables Signals.
From S2P Require Import Artifacts StoreBase StoreGoals StoreWork StoreExtend Replay.
From S2P Require Import Engine.
From stdpp Require Import pretty.

Definition MISSING_HANDLER_REASON_PREFIX : string := "unregistered workflow handler: ".

Section worker.
  Context `{ENV : LoopEnv}.

Abbreviation DB := (M Db).

(** ** Handlers *)

(** The engine of the context is the one the worker was built with. *)
Record WorkHandlerContext : Type := {
  ctx_claim : WorkClaim;
  ctx_resume : option WorkPhaseProgress;
  ctx_upstream : gmap string WorkOutcome
}.

Record WorkHandler : Type := {
  wh_name : string;
  wh_effect_class : EffectClass;
  wh_retryable : string → bool;
  wh_replay_safe : bool;
  wh_execute : WorkHandlerContext → DB WorkOutcome
}.

Record WorkHandlerRegistry : Type := {
  reg_handlers : gmap string WorkHandler;
  reg_allowlist : gset string
}.

(** [WorkHandlerRegistry::default().with_external_write_allowlist(allowlist)]. *)
Definition empty_registry (allowlist : gset string) : WorkHandlerRegistry :=
  {| reg_handlers := ∅; reg_allowlist := allowlist |}.

(** The name is replaced before the check that it was free, so the registry comes
    back with the error. *)
Definition register (self : WorkHandlerRegistry) (handler : WorkHandler)
    : res unit * WorkHandlerRegistry :=
  let name := wh_name handler in
  if negb (negb (is_external_write (wh_effect_class handler)) ||
           bool_decide (name ∈ reg_allowlist self))
  then (Err ("external_write handler '" +:+ name +:+ "' is not in the allowlist"), self)
  else if is_blank name then (Err "handler name cannot be empty", self)
  else
    let self' := {| reg_handlers := <[name := handler]> (reg_handlers self);
                    reg_allowlist := reg_allowlist self |} in
    match reg_handlers self !! name with
    | None => (Ok tt, self')
    | Some _ => (Err ("workflow handler is already registered: " +:+ name), self')
    end.

Definition registry_get (self : WorkHandlerRegistry) (name : string) : option WorkHandler :=
  reg_handlers self !! name.

Definition handler_names (self : WorkHandlerRegistry) : list string :=
  (map_to_list (reg_handlers self)).*1.

(** ** The worker *)

Record LoopWorker : Type := {
  lw_engine : LoopEngine;
  lw_handlers : WorkHandlerRegistry;
  lw_worker_id : string;
  lw_lease_secs : N
}.

Definition with_registry (engine : LoopEngine) (handlers : WorkHandlerRegistry)
    (worker_id : string) (lease_secs : N) : res LoopWorker :=
  guard_res (lease_ok lease_secs) "invalid worker lease" ;;
  guard_res (bounded_nonblank 160 worker_id) "worker id must be 1..=160 bytes" ;;
  Ok {| lw_engine := engine; lw_handlers := handlers; lw_worker_id := worker_id;
        lw_lease_secs := lease_secs |}.

Definition with_runtime_options (self : LoopWorker) (worker_id : string) (lease_secs : N)
    : res LoopWorker :=
  guard_res (lease_ok lease_secs) "invalid worker lease" ;;
  guard_res (bounded_nonblank 160 worker_id) "worker id must be 1..=160 bytes" ;;
  Ok {| lw_engine := lw_engine self; lw_handlers := lw_handlers self;
        lw_worker_id := worker_id; lw_lease_secs := lease_secs |}.

Definition with_extra_handler (self : LoopWorker) (handler : WorkHandler) : res LoopWorker :=
  let '(r, handlers) := register (lw_handlers self) handler in
  r ;;
  Ok {| lw_engine := lw_engine self; lw_handlers := handlers;
        lw_worker_id := lw_worker_id self; lw_lease_secs := lw_lease_secs self |}.

Definition is_terminal (status : GoalStatus) : bool :=
  bool_decide (status ∈ [Achieved; Failed; Blocked; Canceled; Rejected]).

(** tokio. *)
Class Runtime : Type := {
  instant : Type;
  deadline_after : N → DB instant;
  timeout_at : instant → DB unit → DB WorkOutcome → DB (option (res WorkOutcome))
}.

Context `{RT : Runtime}.

(** One turn of [run_lease_heartbeat]; the loop ends with its first error. *)
Definition heartbeat (claim : WorkClaim) (lease_secs : N) : DB unit :=
  renew_claim claim lease_secs ;; mret tt.

(** How the phase loop ends: with the report of a settled attempt, or with an
    outcome to defer or commit. *)
Inductive phase_end : Type :=
| Settled (report : ResumeReport)
| Completed (outcome : WorkOutcome).

Section dispatch.
  Variable self : LoopWorker.

(** The [loop] of [process_claim]; [None] when the fuel runs out. *)
Fixpoint phase_loop (fuel : nat) (handler : WorkHandler) (claim : WorkClaim)
    (attempt_deadline : instant) (upstream : gmap string WorkOutcome)
    (resume : option WorkPhaseProgress) (actor : string) : DB (option phase_end) :=
  match fuel with
  | O => mret None
  | S fuel' =>
      let context := {| ctx_claim := claim; ctx_resume := resume; ctx_upstream := upstream |} in
      execution ← timeout_at attempt_deadline (heartbeat claim (lw_lease_secs self))
                    (wh_execute handler context);
      match execution with
      | None =>
          report ← engine_fail_attempt claim "workflow handler deadline exceeded" true actor;
          mret (Some (Settled report))
      | Some (Err error) =>
          report ← engine_fail_attempt claim error (wh_retryable handler error) actor;
          mret (Some (Settled report))
      | Some (Ok outcome) =>
          match outcome_validate outcome with
          | Err error =>
              report ← engine_fail_attempt claim
                ("handler returned an invalid outcome: " +:+ error) false actor;
              mret (Some (Settled report))
          | Ok _ =>
              match out_continuation outcome with
              | None => mret (Some (Completed outcome))
              | Some continuation =>
                  if is_some (cont_delay_secs continuation) then
                    report ← engine_continue_attempt claim continuation actor;
                    mret (Some (Settled report))
                  else
                    r ← catch (engine_record_phase_progress claim continuation actor);
                    match r with
                    | Ok progress =>
                        phase_loop fuel' handler claim attempt_deadline upstream
                          (Some progress) actor
                    | Err error =>
                        report ← engine_fail_attempt claim error false actor;
                        mret (Some (Settled report))
                    end
              end
          end
      end
  end.

(** One execution per committed boundary and one more. *)
Definition phase_fuel : nat := 65.

Definition checkpoint_key (claim : WorkClaim) : string :=
  wir_id (wc_item claim) +:+ ":" +:+ atr_id (wc_attempt claim) +:+ ":v1".

(** The signal for a work item whose handler is missing. *)
Definition blocked_signal (claim : WorkClaim) : CreateSignalRequest :=
  let goal_id := atr_goal_id (wc_attempt claim) in
  let item := wc_item claim in
  {| cs_kind := KManual; cs_trust := TInternal; cs_source := "internal:blocked";
     cs_external_id := Some ("blocked:" +:+ wir_id item);
     cs_content := "goal " +:+ goal_id +:+ ": work item " +:+ wir_id item +:+
       " blocked — handler '" +:+ wir_handler item +:+ "' is not registered";
     cs_metadata := [("goal_id", goal_id); ("handler", wir_handler item);
                     ("work_item_id", wir_id item)] |}.

(** The part of [process_claim] from the prepared checkpoint on. *)
Definition run_handler (handler : WorkHandler) (claim : WorkClaim) (actor : string)
    : DB ResumeReport :=
  checkpoint ← engine_prepare_checkpoint claim (checkpoint_key claim)
                 (wh_replay_safe handler) actor;
  attempt_deadline ← deadline_after (deadline_secs (wc_budget claim));
  upstream ← catch (upstream_outcomes (wir_id (wc_item claim)));
  let upstream := match upstream with Ok m => m | Err _ => ∅ end in
  r ← phase_loop phase_fuel handler claim attempt_deadline upstream
        (wir_progress (wc_item claim)) actor;
  match r with
  | None => throw "phase loop did not end"
  | Some (Settled report) => mret report
  | Some (Completed outcome) =>
      match out_sleep_until outcome with
      | Some until_unix => engine_defer_attempt claim until_unix actor
      | None =>
          engine_commit_checkpoint claim (cpr_id checkpoint) outcome actor ;;
          engine_finish_attempt claim (cpr_id checkpoint) actor
      end
  end.

Definition process_claim (claim : WorkClaim) (actor : string) : DB ResumeReport :=
  let item := wc_item claim in
  if is_external_write (wir_effect item) && negb (ew_enabled (external_write_policy (lw_engine self)))
  then engine_fail_attempt claim "external_write is disabled" false actor
  else
    match registry_get (lw_handlers self) (wir_handler item) with
    | None =>
        engine_block_work_item claim (MISSING_HANDLER_REASON_PREFIX +:+ wir_handler item) actor ;;
        ignore_error (engine_ingest_signal (blocked_signal claim) actor) ;;
        engine_resume_goal (atr_goal_id (wc_attempt claim)) actor
    | Some handler =>
        if negb (bool_decide (wh_effect_class handler = wir_effect item))
        then engine_fail_attempt claim
               "approved effect class does not match registered handler" false actor
        else run_handler handler claim actor
    end.

(** ** Running a goal *)

Definition not_dispatchable (error : string) : bool := contains "not dispatchable" error.

(** The [for _ in 0..max_steps] of [run_goal_until_idle]. *)
Fixpoint idle_loop (steps : nat) (goal_id actor : string) (report : ResumeReport)
    : DB ResumeReport :=
  match steps with
  | O => engine_resume_goal goal_id actor
  | S steps' =>
      report ← (if decide (gr_status (rr_goal report) = Verifying)
                then engine_verify_goal goal_id actor ;; engine_resume_goal goal_id actor
                else mret report);
      if is_terminal (gr_status (rr_goal report)) then mret report
      else
        ignore_error (engine_requeue_blocked_items goal_id MISSING_HANDLER_REASON_PREFIX
                        (handler_names (lw_handlers self)) actor) ;;
        claim ← catch (engine_claim_goal_work goal_id (lw_worker_id self)
                         (lw_lease_secs self) actor);
        match claim with
        | Err error =>
            report ← engine_resume_goal goal_id actor;
            if is_terminal (gr_status (rr_goal report)) ||
               bool_decide (gr_status (rr_goal report) = Verifying) ||
               negb (not_dispatchable error)
            then (if negb (not_dispatchable error) then throw error else mret report)
            else throw error
        | Ok None => engine_resume_goal goal_id actor
        | Ok (Some claim) =>
            report ← process_claim claim actor;
            idle_loop steps' goal_id actor report
        end
  end.

Definition run_goal_until_idle (goal_id : string) (max_steps : nat) : DB ResumeReport :=
  ensure ((1 <=? max_steps) && (max_steps <=? 128)) "max_steps must be 1..=128" ;;
  let actor := "runtime:" +:+ lw_worker_id self in
  report ← engine_resume_goal goal_id actor;
  idle_loop max_steps goal_id actor report.

Definition dispatchable_goal_ids (limit : nat) : DB (list string) :=
  list_dispatchable_goal_ids limit.
End dispatch.

(** ** Concurrent children *)

Definition child (self : LoopWorker) (index : nat) : LoopWorker :=
  {| lw_engine := lw_engine self; lw_handlers := lw_handlers self;
     lw_worker_id := lw_worker_id self +:+ ":c" +:+ pretty index;
     lw_lease_secs := lw_lease_secs self |}.

Definition in_flight (report : ResumeReport) : bool :=
  existsb (λ item, bool_decide (wir_status item ∈ [WRunning; WReady])) (rr_work_items report).

(** One turn of a child's loop: its result, or the retries so far. *)
Definition child_turn (self : LoopWorker) (goal_id : string) (max_steps : nat) (retries : nat)
    : DB (res ResumeReport + nat) :=
  r ← catch (run_goal_until_idle self goal_id max_steps);
  outcome ← match r with
            | Ok report => mret (Ok report)
            | Err _ => catch (engine_resume_goal goal_id "runtime:concurrent")
            end;
  match outcome with
  | Ok next =>
      if is_terminal (gr_status (rr_goal next)) || negb (in_flight next)
      then mret (inl (Ok next)) else mret (inr retries)
  | Err error => if 10 <? S retries then mret (inl (Err error)) else mret (inr (S retries))
  end.

Definition succeeded_count (report : ResumeReport) : nat :=
  length (List.filter (λ i, bool_decide (wir_status i = WSucceeded)) (rr_work_items report)).

(** The join of all children: [None] is a child that panicked. *)
Fixpoint join_children (handles : list (option (res ResumeReport))) (best : option ResumeReport)
    (first_error : option string) : option ResumeReport * option string :=
  match handles with
  | [] => (best, first_error)
  | handle :: handles' =>
      match handle with
      | Some (Ok report) =>
          let dominated := match best with
                           | Some current => succeeded_count report <=? succeeded_count current
                           | None => false
                           end in
          join_children handles' (if dominated then best else Some report) first_error
      | Some (Err error) =>
          join_children handles' best
            (match first_error with None => Some error | Some _ => first_error end)
      | None =>
          join_children handles' best
            (match first_error with None => Some "concurrent worker task panicked"
                               | Some _ => first_error end)
      end
  end.

Definition concurrent_result (handles : list (option (res ResumeReport))) : res ResumeReport :=
  match join_children handles None None with
  | (Some report, _) => Ok report
  | (None, Some error) => Err error
  | (None, None) => Err "no concurrent worker produced a report"
  end.

(** [concurrency.clamp(1, 8)]. *)
Definition worker_count (concurrency : nat) : nat := Nat.min 8 (Nat.max 1 concurrency).

End worker.
