(* ===== verification/Handlers.v ===== *)
(** * The built-in handlers

    The handlers that src/harness/loop_engine/worker.rs registers by default, as
    values of [WorkHandler].  The chat provider and the outbound sender are external:
    what they answer may depend on the moment of the call.  The handler that
    evaluates an evolution candidate belongs to harness/evolution.rs; without that
    engine the worker registers [bounded_evolution_unavailable]. *)

From S2P Require Import Prelude Text Strings Messages External Domain Tables Signals.
From S2P Require Import Artifacts StoreBase StoreGoals StoreWork StoreExtend Replay.
From S2P Require Import Engine Worker.
From stdpp Require Import pretty.

(** The chat provider: what [complete] answers to messages at a moment, [None] when
    the remaining seconds pass first. *)
Class ChatProvider : Type := {
  provider_complete : nat → N → list StoredMessage → option (res string);
  provider_model_name : option string
}.

(** [serde_json::to_value] at one type. *)
Class ToValue `{JsonValue} (T : Type) : Type := to_value : T → res json.

(** [OutboundSender]. *)
Class OutboundSender `{JsonValue} : Type := {
  sender_send : nat → string → string → string → string → res json;
  sender_supports_channel : string → bool
}.

(** [truncate_utf8]. *)
Definition truncate_utf8 (value : string) (max_bytes : N) : string :=
  if (N.of_nat (String.length value) <=? max_bytes)%N then value
  else String.substring 0 (boundary_below value (N.to_nat max_bytes)) value.

(** Truncation never splits a character: the result is a prefix of at most the
    given number of bytes that ends on a character boundary, and no longer such
    prefix exists. *)
Theorem truncate_utf8_bounds value max_bytes :
  let n := String.length (truncate_utf8 value max_bytes) in
  (∃ rest, value = truncate_utf8 value max_bytes +:+ rest) ∧ (N.of_nat n <= max_bytes)%N ∧
  is_char_boundary value n = true ∧
  ∀ m, m ≤ String.length value → (N.of_nat m <= max_bytes)%N →
       is_char_boundary value m = true → m ≤ n.
Proof.
  cbv zeta. unfold truncate_utf8. destruct (N.leb_spec (N.of_nat (String.length value)) max_bytes).
  - split_and!; [exists ""; by rewrite string_app_nil_r|done| |done].
    unfold is_char_boundary. by rewrite Nat.eqb_refl, orb_true_r.
  - destruct (boundary_below_spec value (N.to_nat max_bytes)) as (H1 & H2 & H3).
    destruct (substring_prefix (boundary_below value (N.to_nat max_bytes)) value) as (rest & Hv & Hl);
      [lia|]. rewrite Hl. split_and!; [by exists rest|lia|done|].
    intros m Hm Hmax. apply H3. lia.
Qed.

Section handlers.
  Context `{ENV : LoopEnv}.

Abbreviation DB := (M Db).

Definition plain_outcome (summary : string) (artifact_ids : list string) (evidence : json)
    : WorkOutcome :=
  {| out_summary := summary; out_artifact_ids := artifact_ids; out_evidence := evidence;
     out_sleep_until := None; out_continuation := None |}.

(** [input.get(key).and_then(Value::as_str)]. *)
Definition input_str (context : WorkHandlerContext) (key : string) : option string :=
  json_get (wir_input (wc_item (ctx_claim context))) key ≫= json_as_str.

Definition input_i64 (context : WorkHandlerContext) (key : string) : option Z :=
  json_get (wir_input (wc_item (ctx_claim context))) key ≫= json_as_i64.

(** The artifact a handler publishes for its work item. *)
Definition publish (context : WorkHandlerContext) (kind : ArtifactKind) (name : string)
    (content : json) (actor : string) : DB artifact_row :=
  r ← engine_publish_artifact
        {| pa_kind := kind; pa_name := name;
           pa_version := wir_id (wc_item (ctx_claim context)); pa_content := content;
           pa_source_goal_id := Some (atr_goal_id (wc_attempt (ctx_claim context)));
           pa_parent_artifact_id := None |} actor;
  mret r.1.

(** The artifact a previous attempt of the item published. *)
Definition published (context : WorkHandlerContext) (kind : ArtifactKind) (name : string)
    : DB (option artifact_row) :=
  find_artifact kind name (wir_id (wc_item (ctx_claim context))).

(** ** [wait] *)

Definition wait_execute (ctx : WorkHandlerContext) : DB WorkOutcome :=
  until ← match input_i64 ctx "until_unix" with
          | Some until => mret until
          | None =>
              delay ← context "wait requires input.until_unix or input.delay_secs"
                (input_i64 ctx "delay_secs");
              ensure ((1 <=? delay) && (delay <=? 2592000))%Z
                "wait delay_secs must be 1..=2592000" ;;
              mret (i64_saturating_add (wir_created_at (wc_item (ctx_claim ctx))) delay)
          end;
  ensure (0 <? until)%Z "wait deadline must be positive" ;;
  now ← unix_now;
  let evidence := json_object [("until_unix", json_int until)] in
  if (now <? until)%Z
  then mret {| out_summary := "sleeping until " +:+ pretty until; out_artifact_ids := [];
               out_evidence := evidence; out_sleep_until := Some until;
               out_continuation := None |}
  else mret (plain_outcome ("wait deadline " +:+ pretty until +:+ " reached") [] evidence).

Definition wait_handler : WorkHandler :=
  {| wh_name := "wait"; wh_effect_class := Pure; wh_retryable := λ _, true;
     wh_replay_safe := true; wh_execute := wait_execute |}.

(** ** [goal_planner], [manual_gate] and the evolution stand-in *)

Definition goal_planner_execute (ctx : WorkHandlerContext) : DB WorkOutcome :=
  artifact ← publish ctx DynamicWorkflow "goal-plan" (wir_input (wc_item (ctx_claim ctx)))
               "handler:goal_planner";
  mret (plain_outcome "goal plan artifact published" [ar_id artifact]
          (json_object [("artifact_kind", json_string "dynamic_workflow")])).

Definition goal_planner : WorkHandler :=
  {| wh_name := "goal_planner"; wh_effect_class := LocalWrite; wh_retryable := λ _, true;
     wh_replay_safe := true; wh_execute := goal_planner_execute |}.

Definition manual_gate : WorkHandler :=
  {| wh_name := "manual_gate"; wh_effect_class := Read; wh_retryable := λ _, true;
     wh_replay_safe := true;
     wh_execute := λ _, mret (plain_outcome
       "manual gate reached; verification still requires operator evidence" []
       (json_object [("manual_gate", json_string "reached")])) |}.

Definition bounded_evolution_unavailable : WorkHandler :=
  {| wh_name := "evolution_evaluate"; wh_effect_class := LocalWrite;
     wh_retryable := λ _, false; wh_replay_safe := true;
     wh_execute := λ _, throw
       "evolution_evaluate requires agent.harness.evolution.enabled=true" |}.

(** ** [self_test_suite]

    [schema_tables] and [schema_versions] are the counts of the two schema checks. *)

Section self_test.
  Context `{!ToValue self_test_row} (schema_tables schema_versions : Z).

Definition suite_evidence (suite run_id : string) : json :=
  json_object [("suite", json_string suite); ("self_test_run_id", json_string run_id)].

Definition self_test_execute (ctx : WorkHandlerContext) : DB WorkOutcome :=
  let suite := default "core" (input_str ctx "suite") in
  let name := suite +:+ "-self-test" in
  existing ← published ctx SelfTestReport name;
  match existing with
  | Some existing =>
      let run_id := default "" (json_get (ar_content existing) "id" ≫= json_as_str) in
      mret (plain_outcome "reused durable self-test report" [ar_id existing]
              (suite_evidence suite run_id))
  | None =>
      run ← engine_run_self_tests schema_tables schema_versions suite "handler:self_test_suite";
      ensure (st_passed run) "self-test suite failed" ;;
      content ← lift_res (to_value run);
      artifact ← publish ctx SelfTestReport name content "handler:self_test_suite";
      mret (plain_outcome ("self-test suite " +:+ suite +:+ " passed") [ar_id artifact]
              (suite_evidence suite (st_id run)))
  end.

Definition self_test_handler : WorkHandler :=
  {| wh_name := "self_test_suite"; wh_effect_class := LocalWrite; wh_retryable := λ _, true;
     wh_replay_safe := true; wh_execute := self_test_execute |}.
End self_test.

(** ** [session_replay] *)

Section session_replay.
  Context `{!ToValue ReplayRun}.

Definition session_replay_execute (ctx : WorkHandlerContext) : DB WorkOutcome :=
  trajectory_id ← context "session_replay requires input.trajectory_id"
    (input_str ctx "trajectory_id");
  let name := "replay-" +:+ trajectory_id in
  existing ← published ctx ReplayCorpus name;
  match existing with
  | Some existing =>
      mret (plain_outcome "reused durable replay artifact" [ar_id existing]
              (json_object [("trajectory_id", json_string trajectory_id)]))
  | None =>
      replay ← engine_run_structural_replay trajectory_id "handler:session_replay";
      content ← lift_res (to_value replay);
      artifact ← publish ctx ReplayCorpus name content "handler:session_replay";
      mret (plain_outcome ("structural replay " +:+ rp_id replay +:+ " completed")
              [ar_id artifact]
              (json_object [("trajectory_id", json_string trajectory_id);
                            ("replay_id", json_string (rp_id replay))]))
  end.

Definition session_replay_handler : WorkHandler :=
  {| wh_name := "session_replay"; wh_effect_class := LocalWrite; wh_retryable := λ _, true;
     wh_replay_safe := true; wh_execute := session_replay_execute |}.
End session_replay.

(** ** [provider_analysis] *)

Section provider_analysis.
  Context `{CP : ChatProvider}.

Definition analysis_messages (objective : string) : list StoredMessage :=
  [ {| role := System;
       content := "Analyze this harness goal. Identify constraints, failure modes, and a bounded next action. Do not invoke tools." |};
    {| role := User; content := objective |} ].

Definition analysis_evidence : json :=
  json_object [("artifact_kind", json_string "analysis_report")].

Definition provider_analysis_execute (ctx : WorkHandlerContext) : DB WorkOutcome :=
  let name := "goal-analysis" in
  let goal_id := atr_goal_id (wc_attempt (ctx_claim ctx)) in
  existing ← published ctx AnalysisReport name;
  match existing with
  | Some existing =>
      mret (plain_outcome "reused durable analysis artifact" [ar_id existing] analysis_evidence)
  | None =>
      objective ← context "provider_analysis requires input.objective"
        (input_str ctx "objective");
      reservation ← reserve_provider_call goal_id;
      let messages := analysis_messages objective in
      now ← unix_now;
      remaining ← context "invalid provider deadline"
        (try_u64 (Z.max (pb_deadline_at reservation - now) 1));
      moment ← tick;
      response ← context "provider analysis deadline exceeded"
        (provider_complete moment remaining messages);
      response ← lift_res response;
      response_bytes ← context "provider response too large"
        (try_u32 (Z.of_nat (String.length response)));
      record_provider_response_bytes goal_id response_bytes ;;
      let model := default "unknown" provider_model_name in
      engine_record_trajectory_frame
        {| dr_trajectory_id := atr_id (wc_attempt (ctx_claim ctx)); dr_call_index := 0;
           dr_model := model;
           dr_provider_fingerprint := "model:" +:+ model +:+ ";seed:unknown;config:unavailable";
           dr_request_messages := messages; dr_request_was_json := false;
           dr_response := truncate_utf8 response 262144; dr_capture := Truncated |}
        "trajectory:loop-worker" ;;
      artifact ← publish ctx AnalysisReport name
        (json_object [("analysis", json_string (truncate_utf8 response 24000));
                      ("model", json_string model)]) "handler:provider_analysis";
      mret (plain_outcome (truncate_utf8 response 8000) [ar_id artifact] analysis_evidence)
  end.

Definition provider_analysis_handler : WorkHandler :=
  {| wh_name := "provider_analysis"; wh_effect_class := LocalWrite; wh_retryable := λ _, true;
     wh_replay_safe := true; wh_execute := provider_analysis_execute |}.
End provider_analysis.

(** ** [channel_send] *)

Section channel_send.
  Context `{OS : !OutboundSender}.

Definition channel_send_execute (ctx : WorkHandlerContext) : DB WorkOutcome :=
  channel ← context "channel_send requires input.channel" (input_str ctx "channel");
  session_id ← context "channel_send requires input.session_id" (input_str ctx "session_id");
  text ← context "channel_send requires input.text" (input_str ctx "text");
  ensure (bounded_nonblank 64 channel) "channel_send channel must be 1..=64 bytes" ;;
  ensure (bounded_nonblank 160 session_id) "channel_send session_id must be 1..=160 bytes" ;;
  ensure (negb (is_blank text) && (N.of_nat (chars_count text) <=? 8192)%N)
    "channel_send text must be 1..=8192 chars" ;;
  let idempotency_key := checkpoint_key (ctx_claim ctx) in
  moment ← tick;
  evidence ← lift_res (sender_send moment channel session_id text idempotency_key);
  let evidence := match json_kind evidence with
                  | JKObject => json_insert evidence "idempotency_key" (json_string idempotency_key)
                  | _ => evidence
                  end in
  mret (plain_outcome ("sent channel message to " +:+ channel +:+ ":" +:+ session_id) []
          (json_object [("channel", json_string channel); ("session_id", json_string session_id);
                        ("send", evidence)])).

Definition channel_send_handler : WorkHandler :=
  {| wh_name := "channel_send"; wh_effect_class := ExternalWrite; wh_retryable := λ _, true;
     wh_replay_safe := false; wh_execute := channel_send_execute |}.
End channel_send.

(** ** [with_builtins], without an evolution engine *)

Section builtins.
  Context `{!ToValue self_test_row} `{!ToValue ReplayRun} `{CP : ChatProvider}.
  Variables schema_tables schema_versions : Z.

(** [expect] and [context] on each registration. *)
Definition register_all (handlers : WorkHandlerRegistry) (l : list WorkHandler)
    : res WorkHandlerRegistry :=
  for_res (λ h handlers, let '(r, handlers) := register handlers h in r ;; Ok handlers) l handlers.

Definition with_builtins (engine : LoopEngine) (process_id : N)
    (outbound : option OutboundSender) : res LoopWorker :=
  handlers ← register_all (empty_registry (ew_allowed_handlers (external_write_policy engine)))
    [ goal_planner; wait_handler; provider_analysis_handler;
      self_test_handler schema_tables schema_versions; session_replay_handler; manual_gate;
      bounded_evolution_unavailable ];
  handlers ← match outbound with
             | Some sender =>
                 match register_all handlers [channel_send_handler (OS := sender)] with
                 | Ok handlers => Ok handlers
                 | Err _ => Err "channel_send requires external_write_enabled and 'channel_send' in external_write_handlers"
                 end
             | None => Ok handlers
             end;
  Ok {| lw_engine := engine; lw_handlers := handlers;
        lw_worker_id := "loop-worker:" +:+ pretty process_id; lw_lease_secs := 30 |}.
End builtins.

End handlers.
