(* ===== verification/Order.v ===== *)
(** * Two-state relations on the store

    [db_le s s'] states what every change of the store respects: events,
    workflows, approvals, dependencies, verifications, signals, signal events,
    artifacts, self-test runs, trajectory frames and replay runs are only appended; work items, attempts and
    checkpoints keep their identity and move along their state machines.  The
    state machines ([work_edge], [attempt_edge], [phase_edge]) are read off the
    statements of src/harness/loop_engine/store.rs, and the lemmas of this file
    show that each SQL statement respects them. *)

From S2P Require Import Prelude Text External Domain Tables.

(** ** Growing tables *)

(** The rows of [l] are still there, in order and related by [R]; new rows come
    after them. *)
Definition tbl_le {A} (R : relation A) (l l' : list A) : Prop :=
  ∃ old new, l' = old ++ new ∧ Forall2 R l old.

Section tbl_le.
  Context {A : Type} (R : relation A) `{!PreOrder R}.

#[export] Instance tbl_le_preorder : PreOrder (tbl_le R).
Proof.
  split.
  - intros l. exists l, []. rewrite app_nil_r. split; [done|]. reflexivity.
  - intros l1 l2 l3 (o1 & n1 & -> & H1) (o2 & n2 & -> & H2).
    apply Forall2_app_inv_l in H2 as (a & b & Ha & Hb & ->).
    exists a, (b ++ n2). split; [by rewrite app_assoc|].
    by etrans.
Qed.

Lemma tbl_le_update p f l :
  (∀ r, p r = true → R r (f r)) → tbl_le R l (update_where p f l).
Proof.
  intros H. exists (update_where p f l), []. rewrite app_nil_r. split; [done|].
  induction l as [|r l IH]; cbn; constructor; [|done].
  destruct (p r) eqn:E; [by apply H|reflexivity].
Qed.

Lemma tbl_le_insert l r : tbl_le R l (l ++ [r]).
Proof.
  exists l, [r]. split; [done|].
  reflexivity.
Qed.
End tbl_le.

Lemma tbl_le_elem {A} (R : relation A) l l' x :
  tbl_le R l l' → x ∈ l → ∃ y, y ∈ l' ∧ R x y.
Proof.
  intros (o & n & -> & HR) Hx. apply list_elem_of_lookup in Hx as [i Hi].
  destruct (Forall2_lookup_l _ _ _ _ _ HR Hi) as (y & Hy & Hxy).
  exists y. split; [|done]. apply elem_of_app. left. by eapply list_elem_of_lookup_2.
Qed.

Lemma tbl_le_lookup {A} (R : relation A) l l' i x :
  tbl_le R l l' → l !! i = Some x → ∃ y, l' !! i = Some y ∧ R x y.
Proof.
  intros (o & n & -> & HR) Hi.
  destruct (Forall2_lookup_l _ _ _ _ _ HR Hi) as (y & Hy & Hxy).
  exists y. split; [|done]. by apply lookup_app_l_Some.
Qed.

(** An append-only table. *)
Lemma tbl_le_eq_prefix {A} (l l' : list A) : tbl_le eq l l' ↔ l `prefix_of` l'.
Proof.
  split.
  - intros (o & n & -> & HR). apply list_eq_Forall2 in HR as <-. by exists n.
  - intros [n ->]. exists l, n. split; [done|]. by apply list_eq_Forall2.
Qed.

(** ** State machines *)

Definition work_edge (a b : WorkItemStatus) : bool :=
  match a, b with
  | WPending, (WReady | WBlocked | WFailed | WCanceled) => true
  | WReady, (WRunning | WBlocked | WFailed | WCanceled) => true
  | WRunning, (WReady | WSucceeded | WFailed | WBlocked | WWaitingConfirmation | WCanceled) => true
  | WWaitingConfirmation, (WReady | WSucceeded | WFailed | WCanceled) => true
  | WBlocked, (WReady | WFailed | WCanceled) => true
  | WCanceled, WFailed => true
  | _, _ => false
  end.

Definition attempt_edge (a b : AttemptStatus) : bool :=
  match a, b with
  | ARunning, (ACommitting | AWaitingConfirmation | ASucceeded | AFailed | AAbandoned | AVoid) => true
  | ACommitting, (AWaitingConfirmation | ASucceeded | AFailed | AAbandoned | AVoid) => true
  | AWaitingConfirmation, (ASucceeded | AFailed | AAbandoned) => true
  | _, _ => false
  end.

Definition phase_edge (a b : CheckpointPhase) : bool :=
  match a, b with
  | Prepared, (Committed | Voided) => true
  | Committed, Reconciled => true
  | _, _ => false
  end.

(** A path in a state machine given by its edges. *)
Definition path {A} (edge : A → A → bool) : relation A := rtc (λ a b, edge a b = true).

Lemma path_edge {A} (edge : A → A → bool) a b : edge a b = true → path edge a b.
Proof. intros H. by apply rtc_once. Qed.

#[export] Instance path_preorder {A} (edge : A → A → bool) : PreOrder (path edge).
Proof. unfold path. apply _. Qed.

(** A set of states that no edge leaves. *)
Lemma path_closed {A} (edge : A → A → bool) (P : A → bool) a b :
  (∀ x y, P x = true → edge x y = true → P y = true) →
  path edge a b → P a = true → P b = true.
Proof. intros H Hp. induction Hp; eauto. Qed.

Lemma path_sink {A} (edge : A → A → bool) a b :
  (∀ y, edge a y = false) → path edge a b → b = a.
Proof. intros H Hp. inversion Hp as [|? y ? E]; subst; [done|]. by rewrite H in E. Qed.

Section rows.
  Context `{JV : JsonValue}.

(** ** Row relations *)

Definition work_static (w : work_row) :=
  (wi_id w, wi_goal_id w, wi_workflow_id w, wi_step_id w, wi_handler w, wi_effect w,
   wi_input w, wi_max_attempts w, wi_backoff_secs w, wi_ordinal w, wi_created_at w).

Record work_rel (w w' : work_row) : Prop := {
  wrel_static : work_static w' = work_static w;
  wrel_fencing : (wi_fencing_token w ≤ wi_fencing_token w')%Z;
  wrel_status : path work_edge (wi_status w) (wi_status w')
}.

Definition attempt_static (a : attempt_row) :=
  (at_id a, at_goal_id a, at_work_item_id a, at_number a, at_worker_id a,
   at_lease_token a, at_fencing_token a, at_started_at a).

Record attempt_rel (a a' : attempt_row) : Prop := {
  arel_static : attempt_static a' = attempt_static a;
  arel_status : path attempt_edge (at_status a) (at_status a')
}.

Definition checkpoint_static (c : checkpoint_row) :=
  (cp_id c, cp_goal_id c, cp_work_item_id c, cp_attempt_id c, cp_idempotency_key c,
   cp_replay_safe c, cp_created_at c).

Record checkpoint_rel (c c' : checkpoint_row) : Prop := {
  crel_static : checkpoint_static c' = checkpoint_static c;
  crel_phase : path phase_edge (cp_phase c) (cp_phase c');
  crel_outcome : cp_phase c ≠ Prepared → cp_outcome c' = cp_outcome c
}.

#[export] Instance work_rel_preorder : PreOrder work_rel.
Proof.
  split.
  - intros w. split; [done|lia|reflexivity].
  - intros a b c [H1 H2 H3] [H4 H5 H6]. split; [congruence|lia|by etrans].
Qed.

#[export] Instance attempt_rel_preorder : PreOrder attempt_rel.
Proof.
  split.
  - intros w. split; [done|reflexivity].
  - intros a b c [H1 H2] [H3 H4]. split; [congruence|by etrans].
Qed.

Lemma phase_not_prepared a b : path phase_edge a b → a ≠ Prepared → b ≠ Prepared.
Proof.
  intros Hp Ha. pose proof (path_closed phase_edge (λ p, negb (bool_decide (p = Prepared))) a b) as H.
  rewrite !negb_true_iff, !bool_decide_eq_false in H. apply H; [|done..].
  intros [] []; rewrite !negb_true_iff, !bool_decide_eq_false; done.
Qed.

Lemma phase_committed b : path phase_edge Committed b → b ∈ [Committed; Reconciled].
Proof.
  intros Hp. inversion Hp as [|? y ? E Hp']; subst; [by left|].
  destruct y; try done. apply path_sink in Hp' as ->; [by right; left|by intros []].
Qed.

#[export] Instance checkpoint_rel_preorder : PreOrder checkpoint_rel.
Proof.
  split.
  - intros w. split; [done|reflexivity|done].
  - intros a b c [H1 H2 H3] [H4 H5 H6]. split; [congruence|by etrans|].
    intros Ha. rewrite H6, H3; [done|done|by eapply phase_not_prepared].
Qed.

(** ** The store *)

Record db_le (s s' : Db) : Prop := {
  le_workflows : db_workflows s `prefix_of` db_workflows s';
  le_approvals : db_approvals s `prefix_of` db_approvals s';
  le_work : tbl_le work_rel (db_work s) (db_work s');
  le_deps : db_deps s `prefix_of` db_deps s';
  le_attempts : tbl_le attempt_rel (db_attempts s) (db_attempts s');
  le_checkpoints : tbl_le checkpoint_rel (db_checkpoints s) (db_checkpoints s');
  le_events : db_events s `prefix_of` db_events s';
  le_manual : db_manual s `prefix_of` db_manual s';
  le_self_tests : db_self_tests s `prefix_of` db_self_tests s';
  le_signals : db_signals s `prefix_of` db_signals s';
  le_signal_events : db_signal_events s `prefix_of` db_signal_events s';
  le_artifacts : db_artifacts s `prefix_of` db_artifacts s';
  le_artifact_events : db_artifact_events s `prefix_of` db_artifact_events s';
  le_frames : db_frames s `prefix_of` db_frames s';
  le_replays : db_replays s `prefix_of` db_replays s'
}.

#[export] Instance db_le_preorder : PreOrder db_le.
Proof.
  split.
  - intros s. split; reflexivity.
  - intros a b c [] []. split; by etrans.
Qed.

(** ** SQL statements respect [db_le] *)

Lemma le_goals_update p f : stable db_le (sql_update harness_goals p f).
Proof. apply stable_sql_update; intros s; split; cbn; reflexivity. Qed.

Lemma le_budgets_update p f : stable db_le (sql_update harness_goal_budget_usage p f).
Proof. apply stable_sql_update; intros s; split; cbn; reflexivity. Qed.

Lemma le_budgets_delete p : stable db_le (sql_delete harness_goal_budget_usage p).
Proof. apply stable_sql_delete; intros s; split; cbn; reflexivity. Qed.

Lemma le_work_update p f :
  (∀ w, p w = true → work_rel w (f w)) → stable db_le (sql_update harness_work_items p f).
Proof.
  intros H. apply stable_sql_update; intros s; split; cbn; try reflexivity.
  by apply (tbl_le_update work_rel).
Qed.

Lemma le_attempts_update p f :
  (∀ a, p a = true → attempt_rel a (f a)) → stable db_le (sql_update harness_attempts p f).
Proof.
  intros H. apply stable_sql_update; intros s; split; cbn; try reflexivity.
  by apply (tbl_le_update attempt_rel).
Qed.

Lemma le_checkpoints_update p f :
  (∀ c, p c = true → checkpoint_rel c (f c)) →
  stable db_le (sql_update harness_checkpoints p f).
Proof.
  intros H. apply stable_sql_update; intros s; split; cbn; try reflexivity.
  by apply (tbl_le_update checkpoint_rel).
Qed.

(** Every table accepts new rows. *)
Ltac le_insert :=
  apply stable_sql_insert; [typeclasses eauto|]; intros s _; split; cbn;
  try reflexivity; first [by eexists|apply (tbl_le_insert _)].

Lemma le_goals_insert c r : stable db_le (sql_insert harness_goals c r).
Proof. le_insert. Qed.
Lemma le_workflows_insert c r : stable db_le (sql_insert harness_workflows c r).
Proof. le_insert. Qed.
Lemma le_approvals_insert c r : stable db_le (sql_insert harness_goal_approvals c r).
Proof. le_insert. Qed.
Lemma le_budgets_insert c r : stable db_le (sql_insert harness_goal_budget_usage c r).
Proof. le_insert. Qed.
Lemma le_work_insert c r : stable db_le (sql_insert harness_work_items c r).
Proof. le_insert. Qed.
Lemma le_deps_insert c r : stable db_le (sql_insert harness_work_item_dependencies c r).
Proof. le_insert. Qed.
Lemma le_attempts_insert c r : stable db_le (sql_insert harness_attempts c r).
Proof. le_insert. Qed.
Lemma le_checkpoints_insert c r : stable db_le (sql_insert harness_checkpoints c r).
Proof. le_insert. Qed.
Lemma le_events_insert c r : stable db_le (sql_insert harness_events c r).
Proof. le_insert. Qed.
Lemma le_manual_insert c r : stable db_le (sql_insert harness_manual_verifications c r).
Proof. le_insert. Qed.
Lemma le_self_tests_insert c r : stable db_le (sql_insert harness_self_test_runs c r).
Proof. le_insert. Qed.
Lemma le_signals_insert c r : stable db_le (sql_insert harness_signals c r).
Proof. le_insert. Qed.
Lemma le_signal_events_insert c r : stable db_le (sql_insert harness_signal_events c r).
Proof. le_insert. Qed.
Lemma le_artifacts_insert c r : stable db_le (sql_insert harness_artifacts c r).
Proof. le_insert. Qed.
Lemma le_artifact_events_insert c r : stable db_le (sql_insert harness_artifact_events c r).
Proof. le_insert. Qed.
Lemma le_frames_insert c r : stable db_le (sql_insert harness_trajectory_frames c r).
Proof. le_insert. Qed.
Lemma le_replays_insert c r : stable db_le (sql_insert harness_replay_runs c r).
Proof. le_insert. Qed.

End rows.

#[export] Hint Resolve le_goals_update le_budgets_update le_budgets_delete
  le_goals_insert le_workflows_insert le_approvals_insert le_budgets_insert
  le_work_insert le_deps_insert le_attempts_insert le_checkpoints_insert
  le_events_insert le_manual_insert le_self_tests_insert le_signals_insert
  le_signal_events_insert le_artifacts_insert le_artifact_events_insert
  le_frames_insert le_replays_insert : stab.
