(* ===== verification/History.v ===== *)
(** * The store as a transition system

    Every change of the store is one atomic transaction of store.rs, signals.rs,
    artifacts.rs, self_test.rs or replay.rs.  [atom] lists them with their arguments, [run]
    is the transaction, [store_step] one such change in any world, and
    [reachable] what any number of clients can reach by interleaving them.  The
    operations themselves are sequences of atoms whatever happens on the way
    ([ops_are_atomic_steps]), and each atom respects [db_le]. *)

From S2P Require Import Prelude Text External Domain Tables Signals Artifacts StoreBase StoreGoals.
From S2P Require Import StoreWork StoreExtend Replay Order.

Section steps.
  Context `{ENV : LoopEnv}.

Abbreviation DB := (M Db).

(** The write transactions, with the arguments their callers give them.  The
    arguments are unrestricted: validation happens before the transaction. *)
Inductive atom : Type :=
| AAdmission (request : CreateGoalRequest) (id actor : string)
| APlan (goal_id : string) (request : PlanGoalRequest) (actor : string)
| AApprove (policy : InternalApprovalPolicy) (goal_id : string) (request : ApproveGoalRequest)
    (actor : string) (external_write : ExternalWritePolicy)
| ACancel (goal_id reason actor : string)
| AReject (goal_id reason actor : string)
| AReplan (goal_id reason actor : string)
| APause (goal_id : string) (paused : bool) (reason : option string) (actor : string)
| AExpire (limit : nat)
| AVerify (goal_id actor : string)
| AManual (goal_id label actor : string)
| AReserve (goal_id : string)
| ABytes (goal_id : string) (response_bytes : N)
| ARecover (goal_id actor : string)
| AClaim (goal_id : string) (step : option string) (worker_id : string) (lease_secs : N)
    (actor : string)
| ARenew (claim : WorkClaim) (lease_secs : N)
| APrepare (claim : WorkClaim) (idempotency_key : string) (replay_safe : bool) (actor : string)
| ACommit (claim : WorkClaim) (checkpoint_id : string) (outcome : WorkOutcome) (actor : string)
| AFinish (claim : WorkClaim) (checkpoint_id actor : string)
| AFail (claim : WorkClaim) (error : string) (retryable : bool) (actor : string)
| ABlock (claim : WorkClaim) (reason actor : string)
| ARequeue (goal_id reason_prefix : string) (handlers : list string) (actor : string)
| ADefer (claim : WorkClaim) (until_unix : Z) (actor : string)
| AProgress (claim : WorkClaim) (continuation : WorkContinuation) (actor : string)
| AContinue (claim : WorkClaim) (continuation : WorkContinuation) (actor : string)
| AResolve (goal_id work_item_id : string) (resolution : ConfirmationResolution)
    (reason actor : string)
| AExtend (goal_id : string) (steps : list WorkflowStep) (actor : string)
    (external_write : ExternalWritePolicy)
| AResumed (goal_id actor : string)
| AIngest (request : CreateSignalRequest) (fingerprint content_hash normalized_hash actor : string)
| ASignalEvent (signal_id : string) (status : SignalStatus) (actor : string) (d : details)
| AProposed (signal_id goal_id actor : string)
| APublish (request : PublishArtifactRequest) (actor : string)
| ASelfTest (row : self_test_row)
| ARecordFrame (draft : TrajectoryFrameDraft) (actor : string)
| AReplayRun (run : ReplayRun) (actor : string).

Definition void {A} (m : DB A) : DB unit := m ;; mret tt.

(** The transaction of [ignore_signal] and [triage_signal]. *)
Definition signal_event_tx (signal_id : string) (status : SignalStatus) (actor : string)
    (d : details) : DB unit :=
  transaction (insert_signal_event_tx signal_id status actor d).

Definition run (a : atom) : DB unit :=
  match a with
  | AAdmission request id actor => void (admission_tx request id actor)
  | APlan goal_id request actor => void (plan_goal goal_id request actor)
  | AApprove policy goal_id request actor external_write =>
      approve_tx policy goal_id request actor external_write
  | ACancel goal_id reason actor => void (cancel_goal goal_id reason actor)
  | AReject goal_id reason actor => void (reject_goal goal_id reason actor)
  | AReplan goal_id reason actor => void (mark_goal_for_replan goal_id reason actor)
  | APause goal_id paused reason actor => void (set_goal_paused goal_id paused reason actor)
  | AExpire limit => void (expire_overdue_goals limit)
  | AVerify goal_id actor => void (verify_tx artifact_kind_as_str goal_id actor)
  | AManual goal_id label actor => void (record_manual_verification goal_id label actor)
  | AReserve goal_id => void (reserve_provider_call goal_id)
  | ABytes goal_id response_bytes => record_provider_response_bytes goal_id response_bytes
  | ARecover goal_id actor => void (recover_tx goal_id actor)
  | AClaim goal_id step worker_id lease_secs actor =>
      void (claim_round goal_id step worker_id lease_secs actor)
  | ARenew claim lease_secs => void (renew_claim claim lease_secs)
  | APrepare claim idempotency_key replay_safe actor =>
      void (prepare_checkpoint claim idempotency_key replay_safe actor)
  | ACommit claim checkpoint_id outcome actor =>
      void (commit_checkpoint claim checkpoint_id outcome actor)
  | AFinish claim checkpoint_id actor => finish_tx claim checkpoint_id actor
  | AFail claim error retryable actor => fail_tx claim error retryable actor
  | ABlock claim reason actor => void (block_work_item claim reason actor)
  | ARequeue goal_id reason_prefix handlers actor =>
      void (requeue_blocked_items goal_id reason_prefix handlers actor)
  | ADefer claim until_unix actor => defer_tx claim until_unix actor
  | AProgress claim continuation actor => void (record_phase_progress claim continuation actor)
  | AContinue claim continuation actor => continue_tx claim continuation actor
  | AResolve goal_id work_item_id resolution reason actor =>
      resolve_tx goal_id work_item_id resolution reason actor
  | AExtend goal_id steps actor external_write =>
      void (extend_tx goal_id steps actor external_write)
  | AResumed goal_id actor => insert_event goal_id "goal.resumed" actor []
  | AIngest request fingerprint content_hash normalized_hash actor =>
      void (ingest_tx request fingerprint content_hash normalized_hash actor)
  | ASignalEvent signal_id status actor d => signal_event_tx signal_id status actor d
  | AProposed signal_id goal_id actor => mark_signal_proposed signal_id goal_id actor
  | APublish request actor => void (publish_artifact request actor)
  | ASelfTest row => persist_run row
  | ARecordFrame draft actor => void (record_trajectory_frame draft actor)
  | AReplayRun run actor => persist_replay run actor
  end.

Definition store_step (s s' : Db) : Prop :=
  ∃ a w, w_db w = s ∧ w_db (run a w).2 = s'.

Definition steps : relation Db := rtc store_step.

Definition reachable (s : Db) : Prop := steps empty_db s.

#[export] Instance steps_preorder : PreOrder steps.
Proof. unfold steps. apply _. Qed.

(** A transaction that an atom runs is a sequence of steps. *)
Lemma stable_run a : stable steps (run a).
Proof. intros w. apply rtc_once. by exists a, w. Qed.

Lemma void_db {A} (m : DB A) w : w_db (void m w).2 = w_db (m w).2.
Proof. unfold void, mbind, M_bind. by destruct (m w) as [[a|e] w']. Qed.

Lemma stable_void {A} R (m : DB A) : stable R (void m) ↔ stable R m.
Proof. split; intros H w; specialize (H w); by rewrite void_db in *. Qed.

(** The proof of a property of every step from a property of every atom. *)
Lemma steps_preserve (R : relation Db) `{!PreOrder R} :
  (∀ a, stable R (run a)) → ∀ s s', steps s s' → R s s'.
Proof.
  intros H s s' Hs. induction Hs as [s|s t u (a & w & <- & <-) _ IH]; [reflexivity|].
  etrans; [apply H|exact IH].
Qed.

Lemma reachable_invariant (I : Db → Prop) :
  I empty_db → (∀ a, stable (keeps I) (run a)) → ∀ s, reachable s → I s.
Proof. intros H0 H s Hs. by apply (steps_preserve (keeps I) H empty_db s Hs). Qed.

Lemma steps_invariant (I : Db → Prop) s s' :
  (∀ a, stable (keeps I) (run a)) → steps s s' → I s → I s'.
Proof. intros H Hs. by apply (steps_preserve (keeps I) H). Qed.

End steps.

(** One goal per transaction. *)
Ltac atom_cases a :=
  destruct a; cbn [run];
  lazymatch goal with
  | |- stable _ (void _) => apply (proj2 (stable_void _ _))
  | _ => idtac
  end.

(** Opens the definition of an atom or operation before [stable_go]. *)
Ltac open_op :=
  unfold run, void, admission_tx, create_goal_admission, plan_goal, approve_goal, approve_tx,
    reviewed_plan, bind_approval, reset_budget, materialize_edges, insert_dep, cancel_goal,
    reject_goal, mark_goal_for_replan, set_goal_paused, abandon_attempts_tx,
    expire_overdue_goals, verify_tx, record_manual_verification, reserve_provider_call,
    record_provider_response_bytes, recover_tx, claim_round, renew_claim, prepare_checkpoint,
    commit_checkpoint, finish_tx, fail_tx, block_work_item, requeue_blocked_items, defer_tx,
    record_phase_progress, continue_tx, resolve_tx, apply_resolution,
    settle_parked, load_parked, extend_tx, extensible_workflow, extend_deps, insert_event,
    ingest_tx, insert_signal, find_duplicate, find_exact, find_normalized, find_near,
    signal_event_tx, mark_signal_proposed, publish_artifact, persist_run, record_trajectory_frame,
    persist_replay, goal_row_tx,
    get_goal, reload_goal, set_goal_status_tx, ensure_claim_current, load_checkpoint_tx,
    void_prepared_tx, next_phase_progress, reconcile_checkpoint_tx.

(** Unless the relation has its own lemma, unlocking is one more UPDATE. *)
#[export] Hint Extern 6 (stable _ (unlock_ready_work_tx _)) =>
  unfold unlock_ready_work_tx; stable_go : stab.
#[export] Hint Extern 6 (stable _ (insert_signal_event_tx _ _ _ _)) =>
  unfold insert_signal_event_tx; stable_go : stab.

(** Rules for the recursive computations. *)
Section recursive.
  Context `{ENV : LoopEnv} (R : relation Db) `{!PreOrder R}.

(** The insert of a freshly materialised item respects [R]. *)
Definition inserts_new_work (goal_id workflow_id : string) : Prop :=
  ∀ id step st ordinal now,
    let r := new_work_row id goal_id workflow_id step st ordinal now in
    stable R (sql_insert harness_work_items (work_clash r) r).

Lemma stable_materialize_steps goal_id workflow_id edges ordinal sts ids :
  inserts_new_work goal_id workflow_id →
  stable R (materialize_steps goal_id workflow_id edges ordinal sts ids).
Proof.
  intros H. revert ordinal ids. induction sts as [|step sts IH]; intros ordinal ids;
    cbn [materialize_steps]; cbv zeta; stable_go; apply H.
Qed.

Lemma stable_extend_items goal_id workflow_id ordinal sts :
  inserts_new_work goal_id workflow_id →
  stable R (extend_items goal_id workflow_id ordinal sts).
Proof.
  intros H. revert ordinal. induction sts as [|[step deps] sts IH]; intros ordinal;
    cbn [extend_items]; cbv zeta; stable_go; apply H.
Qed.
End recursive.

#[export] Hint Extern 2 (stable _ (materialize_steps _ _ _ _ _ _)) =>
  apply stable_materialize_steps; [typeclasses eauto|first [solve [eauto 1 with stab]|intros ??????; stable_step]] : stab.
#[export] Hint Extern 2 (stable _ (extend_items _ _ _ _)) =>
  apply stable_extend_items; [typeclasses eauto|first [solve [eauto 1 with stab]|intros ??????; stable_step]] : stab.

(** Opens a statement for a relation that ignores its table. *)
Ltac frame_sql :=
  first [apply stable_sql_update | apply stable_sql_delete
        | apply stable_sql_insert; [typeclasses eauto|]]; intros.

(** Splits the WHERE clause [H] of an update, and the conditionals of its SET. *)
Ltac row_split H :=
  lazymatch type of H with
  | (_ && _) = true => let H1 := fresh H in let H2 := fresh H in
      apply andb_true_iff in H as [H1 H2]; row_split H1; row_split H2
  | _ => idtac
  end.
Ltac row_case :=
  repeat match goal with
  | |- context [if ?b then _ else _] => destruct b eqn:?
  end.

(** * Every transaction respects the life cycles

    Proves that each atom respects [db_le] of Order.v: every UPDATE
    moves a row along its state machine. *)

Section lifecycle.
  Context `{ENV : LoopEnv}.

(** ** Row updates *)

Definition work_moves (l : list WorkItemStatus) (st : WorkItemStatus) : bool :=
  forallb (λ x, bool_decide (x = st) || work_edge x st) l.

Lemma work_step l w w' :
  work_in l w = true → work_moves l (wi_status w') = true →
  work_static w' = work_static w → (wi_fencing_token w ≤ wi_fencing_token w')%Z →
  work_rel w w'.
Proof.
  unfold work_in, work_moves. rewrite bool_decide_eq_true, forallb_forall. intros Hl Hm Hs Hf.
  split; [done|done|]. apply list_elem_of_In, Hm, orb_true_iff in Hl as [H|H].
  - apply bool_decide_eq_true in H as ->. reflexivity.
  - by apply path_edge.
Qed.

Lemma work_keep w w' :
  wi_status w' = wi_status w → work_static w' = work_static w →
  (wi_fencing_token w ≤ wi_fencing_token w')%Z → work_rel w w'.
Proof. intros H1 H2 H3. split; [done|done|]. rewrite H1. reflexivity. Qed.

(** Everything but the two final states may be stopped. *)
Lemma work_stop l w w' :
  negb (work_in l w) = true → WSucceeded ∈ l → WFailed ∈ l →
  wi_status w' = WFailed ∨ (WCanceled ∈ l ∧ wi_status w' = WCanceled) →
  work_static w' = work_static w → (wi_fencing_token w ≤ wi_fencing_token w')%Z →
  work_rel w w'.
Proof.
  unfold work_in. rewrite negb_true_iff, bool_decide_eq_false. intros Hn Hs Hf Hst Hw Ht.
  split; [done|done|].
  destruct Hst as [->|[Hc ->]]; destruct (wi_status w); try done;
    by apply path_edge || reflexivity.
Qed.

Definition attempt_moves (l : list AttemptStatus) (st : AttemptStatus) : bool :=
  forallb (λ x, bool_decide (x = st) || attempt_edge x st) l.

Lemma attempt_step l a a' :
  attempt_in l a = true → attempt_moves l (at_status a') = true →
  attempt_static a' = attempt_static a → attempt_rel a a'.
Proof.
  unfold attempt_in, attempt_moves. rewrite bool_decide_eq_true, forallb_forall. intros Hl Hm Hs.
  split; [done|]. apply list_elem_of_In, Hm, orb_true_iff in Hl as [H|H].
  - apply bool_decide_eq_true in H as ->. reflexivity.
  - by apply path_edge.
Qed.

Lemma phase_step p c c' :
  phase_is p c = true → phase_edge p (cp_phase c') = true →
  checkpoint_static c' = checkpoint_static c →
  (p ≠ Prepared → cp_outcome c' = cp_outcome c) → checkpoint_rel c c'.
Proof.
  unfold phase_is. rewrite bool_decide_eq_true. intros <- He Hs Ho.
  split; [done|by apply path_edge|done].
Qed.

End lifecycle.

(** Proves that an update moves a row along its state machine. *)
Ltac row_side := first [reflexivity | cbn; lia | by right; split; [set_solver|] | by left
  | set_solver | done].
Ltac row_step :=
  let r := fresh "r" in let H := fresh "H" in
  intros r H; cbv beta in H; row_split H; unfold live_attempt in *; row_case;
  first
    [ eapply work_step; [eassumption|row_side..]
    | eapply work_stop; [eassumption|row_side..]
    | apply work_keep; row_side
    | eapply attempt_step; [eassumption|row_side..]
    | eapply phase_step; [eassumption|row_side..] ].

#[export] Hint Extern 1 (stable db_le (sql_update harness_work_items _ _)) =>
  apply le_work_update; row_step : stab.
#[export] Hint Extern 1 (stable db_le (sql_update harness_attempts _ _)) =>
  apply le_attempts_update; row_step : stab.
#[export] Hint Extern 1 (stable db_le (sql_update harness_checkpoints _ _)) =>
  apply le_checkpoints_update; row_step : stab.

Section history.
  Context `{ENV : LoopEnv}.

Lemma le_recover_expired now e : stable db_le (recover_expired_tx now e).
Proof.
  unfold recover_expired_tx, expired_verdict.
  destruct (expired_parked e), (ex_max_attempts e <=? ex_attempt_count e)%Z;
    cbv zeta iota; stable_go.
Qed.

Lemma le_refresh goal_id : stable db_le (refresh_goal_status_tx goal_id).
Proof. unfold refresh_goal_status_tx. stable_go. Qed.

#[local] Hint Resolve le_recover_expired le_refresh : stab.

Lemma run_le a : stable db_le (run a).
Proof.
  atom_cases a; open_op; cbv zeta; stable_go.
Qed.

Lemma steps_le s s' : steps s s' → db_le s s'.
Proof. apply steps_preserve; [typeclasses eauto|apply run_le]. Qed.

End history.

(** * What any history of the store preserves

    The consequences of [db_le] for every interleaving of transactions: logs and
    immutable rows are only appended, final states stay final, a committed
    checkpoint keeps its outcome. *)

Section history.
  Context `{ENV : LoopEnv}.

(** The audit trail is append-only: whatever transactions run, the events,
    workflows, approvals, dependencies, manual verifications, signals, signal
    events, artifacts, artifact events and self-test runs of an earlier store are
    a prefix of those of a later one. *)
Theorem audit_trail_append_only s s' : steps s s' →
  db_events s `prefix_of` db_events s' ∧ db_workflows s `prefix_of` db_workflows s' ∧
  db_approvals s `prefix_of` db_approvals s' ∧ db_deps s `prefix_of` db_deps s' ∧
  db_manual s `prefix_of` db_manual s' ∧ db_signals s `prefix_of` db_signals s' ∧
  db_signal_events s `prefix_of` db_signal_events s' ∧
  db_artifacts s `prefix_of` db_artifacts s' ∧
  db_artifact_events s `prefix_of` db_artifact_events s' ∧
  db_self_tests s `prefix_of` db_self_tests s'.
Proof. intros H. apply steps_le in H as []. split_and!; done. Qed.

Lemma work_sink st y : st = WSucceeded ∨ st = WFailed → work_edge st y = false.
Proof. intros [-> | ->]; by destruct y. Qed.

Lemma attempt_sink st y :
  st ∈ [ASucceeded; AFailed; AAbandoned; AVoid] → attempt_edge st y = false.
Proof. intros H. destruct st, y; try done; set_solver. Qed.

(** Work that succeeded or failed stays so, and every item keeps its goal,
    step, handler, effect class, input and retry budget: in any later store the
    same row holds an item with the same identity, a fencing token at least as
    high, and the same final status. *)
Theorem finished_work_is_final s s' i w : steps s s' → db_work s !! i = Some w →
  ∃ w', db_work s' !! i = Some w' ∧ work_static w' = work_static w ∧
        (wi_fencing_token w ≤ wi_fencing_token w')%Z ∧
        (wi_status w = WSucceeded ∨ wi_status w = WFailed → wi_status w' = wi_status w).
Proof.
  intros H Hi. apply steps_le in H.
  destruct (tbl_le_lookup _ _ _ _ _ (le_work _ _ H) Hi) as (w' & Hw' & []).
  exists w'. split_and!; [done..|]. intros Hst.
  eapply path_sink; [|done]. intros y. by apply work_sink.
Qed.

(** Attempts are a log: an attempt keeps its item, number, worker, lease and
    fencing token, and one that succeeded, failed, was abandoned or voided never
    changes status again. *)
Theorem ended_attempt_is_final s s' i a : steps s s' → db_attempts s !! i = Some a →
  ∃ a', db_attempts s' !! i = Some a' ∧ attempt_static a' = attempt_static a ∧
        (at_status a ∈ [ASucceeded; AFailed; AAbandoned; AVoid] → at_status a' = at_status a).
Proof.
  intros H Hi. apply steps_le in H.
  destruct (tbl_le_lookup _ _ _ _ _ (le_attempts _ _ H) Hi) as (a' & Ha' & []).
  exists a'. split_and!; [done..|]. intros Hst.
  eapply path_sink; [|done]. intros y. by apply attempt_sink.
Qed.

(** A checkpoint that has been committed keeps its outcome for ever and can
    only become reconciled; a voided or reconciled one never changes phase; its
    idempotency key, attempt and replay flag never change. *)
Theorem committed_outcome_is_immutable s s' i c : steps s s' → db_checkpoints s !! i = Some c →
  ∃ c', db_checkpoints s' !! i = Some c' ∧ checkpoint_static c' = checkpoint_static c ∧
        (cp_phase c ≠ Prepared → cp_outcome c' = cp_outcome c) ∧
        (cp_phase c = Committed → cp_phase c' ∈ [Committed; Reconciled]) ∧
        (cp_phase c ∈ [Reconciled; Voided] → cp_phase c' = cp_phase c).
Proof.
  intros H Hi. apply steps_le in H.
  destruct (tbl_le_lookup _ _ _ _ _ (le_checkpoints _ _ H) Hi) as (c' & Hc' & [Hs Hp Ho]).
  exists c'. split_and!; [done..| |].
  - intros E. rewrite E in Hp. by apply phase_committed.
  - intros Hst. eapply path_sink; [|done]. intros y.
    destruct (cp_phase c), y; try done; set_solver.
Qed.
End history.
