(* ===== verification/Registry.v ===== *)
(** * Signals and artifacts are recorded once

    The unique indexes of [harness_signals] and [harness_artifacts] as invariants,
    and the idempotence they give: a signal that is ingested again is recognised,
    and an artifact version never changes its content.  And the text columns: decoding
    accepts exactly the names the store writes. *)

From S2P Require Import Prelude Text External Domain Tables Signals Artifacts StoreBase StoreGoals.
From S2P Require Import StoreWork StoreExtend Replay Order History.

(** No two rows of a table clash. *)
Definition no_clash {Row} (clash : Row → Row → bool) (l : list Row) : Prop :=
  ∀ i j a b, l !! i = Some a → l !! j = Some b → clash a b = true → i = j.

Lemma no_clash_insert {Row} (clash : Row → Row → bool) l r :
  (∀ a b, clash a b = clash b a) → existsb (clash r) l = false →
  no_clash clash l → no_clash clash (l ++ [r]).
Proof.
  intros Hsym Hc Hl.
  assert (Hn : ∀ x, x ∈ l → clash r x = true → False).
  { intros x Hx Hr. rewrite <- not_true_iff_false in Hc. apply Hc, existsb_exists.
    exists x. by rewrite <- list_elem_of_In. }
  assert (Hcases : ∀ i b, (l ++ [r]) !! i = Some b →
    (l !! i = Some b ∧ b ∈ l) ∨ (b = r ∧ i = length l)).
  { intros i b [Hi|[Hi Hb]]%lookup_app_Some; [left; eauto using list_elem_of_lookup_2|right].
    apply list_lookup_singleton_Some in Hb as [Hb ->]. split; [done|lia]. }
  intros i j a b [[Hi Ha]|[-> ->]]%Hcases [[Hj Hb]|[-> ->]]%Hcases Hclash; [by eapply Hl| | |done].
  - rewrite Hsym in Hclash. by destruct (Hn a Ha).
  - by destruct (Hn b Hb).
Qed.

Lemma no_clash_eq {Row} (clash : Row → Row → bool) l a b :
  no_clash clash l → a ∈ l → b ∈ l → clash a b = true → a = b.
Proof.
  intros Hl Ha Hb Hc. apply list_elem_of_lookup in Ha as [i Hi], Hb as [j Hj].
  assert (i = j) as -> by eauto. congruence.
Qed.

Section registry.
  Context `{ENV : LoopEnv}.

Lemma eqb_sym_opt (a b : option string) :
  match a, b with Some x, Some y => String.eqb x y | _, _ => false end =
  match b, a with Some x, Some y => String.eqb x y | _, _ => false end.
Proof. destruct a, b; try done. apply String.eqb_sym. Qed.

Lemma signal_clash_sym a b : signal_clash a b = signal_clash b a.
Proof.
  unfold signal_clash.
  rewrite (String.eqb_sym (sg_id b)), (String.eqb_sym (sg_source b)),
    (String.eqb_sym (sg_fingerprint b)), (eqb_sym_opt (sg_external_id b)),
    (eqb_sym_opt (sg_normalized_hash b)). done.
Qed.

Lemma artifact_clash_sym a b : artifact_clash a b = artifact_clash b a.
Proof.
  unfold artifact_clash, artifact_key.
  rewrite (String.eqb_sym (ar_id b)), (String.eqb_sym (ar_name b)), (String.eqb_sym (ar_version b)).
  by rewrite (bool_decide_ext (ar_kind b = ar_kind a) (ar_kind a = ar_kind b)).
Qed.

Definition registry_inv (s : Db) : Prop :=
  no_clash signal_clash (db_signals s) ∧ no_clash artifact_clash (db_artifacts s).

Lemma registry_inv_ext s s' :
  db_signals s' = db_signals s → db_artifacts s' = db_artifacts s →
  registry_inv s → registry_inv s'.
Proof. unfold registry_inv. by intros -> ->. Qed.

Lemma registry_signal_insert r :
  stable (keeps registry_inv) (sql_insert harness_signals (signal_clash r) r).
Proof.
  apply stable_sql_insert; [typeclasses eauto|]. intros s Hc [H1 H2]. split; [|done].
  by apply no_clash_insert; [apply signal_clash_sym|..].
Qed.

Lemma registry_artifact_insert r :
  stable (keeps registry_inv) (sql_insert harness_artifacts (artifact_clash r) r).
Proof.
  apply stable_sql_insert; [typeclasses eauto|]. intros s Hc [H1 H2]. split; [done|].
  by apply no_clash_insert; [apply artifact_clash_sym|..].
Qed.
End registry.

#[export] Hint Resolve registry_signal_insert registry_artifact_insert : stab.
#[export] Hint Extern 3 (stable (keeps registry_inv) _) =>
  frame_sql; intros ?; eapply registry_inv_ext; [| |eassumption]; reflexivity : stab.

Section runs.
  Context `{ENV : LoopEnv}.

Lemma registry_recover now e : stable (keeps registry_inv) (recover_expired_tx now e).
Proof. unfold recover_expired_tx. stable_go. Qed.

Lemma registry_refresh goal_id : stable (keeps registry_inv) (refresh_goal_status_tx goal_id).
Proof. unfold refresh_goal_status_tx. stable_go. Qed.

#[local] Hint Resolve registry_recover registry_refresh : stab.

Lemma run_registry_inv a : stable (keeps registry_inv) (run a).
Proof. atom_cases a; open_op; cbv zeta; stable_go. Qed.

Lemma reachable_registry_inv s : reachable s → registry_inv s.
Proof.
  apply reachable_invariant; [|apply run_registry_inv].
  split; intros i j a b Hi; cbn in Hi; by destruct i.
Qed.

Lemma steps_reachable s s' : reachable s → steps s s' → reachable s'.
Proof. unfold reachable. intros H1 H2. by etrans. Qed.

Lemma head_unique {A} (le : A → A → bool) l x :
  x ∈ l → (∀ y, y ∈ l → y = x) → head (order_by le l) = Some x.
Proof.
  intros Hx Hall. destruct (order_by le l) as [|y t] eqn:E.
  - rewrite <- (order_by_perm le), E in Hx. inversion Hx.
  - cbn. f_equal. apply Hall. rewrite <- (order_by_perm le), E. left.
Qed.

(** Ingesting a signal is idempotent: once a signal with the request's source,
    external id and fingerprint is stored, ingesting the request in any later store
    stores nothing and answers with that signal, as deduplicated. *)
Theorem ingest_is_idempotent s s' r request fingerprint content_hash normalized_hash actor :
  reachable s → steps s s' → r ∈ db_signals s → sg_source r = trim (cs_source request) →
  sg_external_id r = cs_external_id request → sg_fingerprint r = fingerprint →
  wp (ingest_tx request fingerprint content_hash normalized_hash actor)
     (λ res s'', s'' = s' ∧ res = Ok (sg_id r, true)) s'.
Proof.
  intros Hr Hs Hin Hsrc Hext Hfp.
  destruct (reachable_registry_inv s') as [Hu _]; [by eapply steps_reachable|].
  assert (Hin' : r ∈ db_signals s').
  { apply (steps_preserve db_le run_le) in Hs as []. by eapply elem_of_prefix. }
  unfold ingest_tx, find_duplicate, find_exact. wp_step. wp_step. wp_step. wp_step. wp_step.
  cbn [tget harness_signals].
  rewrite (head_unique _ _ r); cycle 1.
  - apply list_elem_of_In, List.filter_In. rewrite <- list_elem_of_In. split; [done|].
    by rewrite Hsrc, Hfp, !String.eqb_refl, orb_true_r.
  - intros y Hy. apply list_elem_of_In, List.filter_In in Hy as [Hy Hm].
    rewrite <- list_elem_of_In in Hy. eapply no_clash_eq; [exact Hu|exact Hy|exact Hin'|].
    apply andb_true_iff in Hm as [Hys Hm]. unfold signal_clash. rewrite Hsrc.
    rewrite (String.eqb_sym _ (sg_source y)), Hys.
    apply orb_true_iff. right. cbn [andb]. apply orb_true_iff in Hm as [Hm|Hm].
    + rewrite Hext. destruct (cs_external_id request) as [x|]; [|done].
      apply bool_decide_eq_true in Hm as ->. by rewrite String.eqb_refl, orb_true_r.
    + apply String.eqb_eq in Hm. by rewrite Hm, Hfp, String.eqb_refl.
  - repeat first [wp_step | apply wp_ret | progress unfold find_normalized | progress cbn]. done.
Qed.

(** Artifact versions are immutable: once (kind, name, version) is published,
    publishing it again in any later store stores nothing; it answers with the
    published artifact when the content hash is the same and is refused otherwise. *)
Theorem artifact_versions_are_immutable s s' r request actor :
  reachable s → steps s s' → r ∈ db_artifacts s →
  artifact_key (pa_kind request) (trim (pa_name request)) (trim (pa_version request)) r = true →
  wp (publish_artifact request actor)
     (λ res s'', s'' = s' ∧ match res with
        | Ok (artifact, deduplicated) => artifact = r ∧ deduplicated = true ∧
            hash_serializable (pa_content request) = Ok (ar_content_hash r)
        | Err _ => True end) s'.
Proof.
  intros Hr Hs Hin Hkey.
  destruct (reachable_registry_inv s') as [_ Hu]; [by eapply steps_reachable|].
  assert (Hin' : r ∈ db_artifacts s').
  { apply (steps_preserve db_le run_le) in Hs as []. by eapply elem_of_prefix. }
  assert (Hfind : List.find (artifact_key (pa_kind request) (trim (pa_name request))
    (trim (pa_version request))) (db_artifacts s') = Some r).
  { destruct (List.find _ _) as [x|] eqn:E.
    - apply List.find_some in E as [Hx Hk]. f_equal.
      eapply no_clash_eq; [exact Hu|by apply list_elem_of_In|exact Hin'|].
      unfold artifact_clash, artifact_key in *. rewrite !andb_true_iff, !bool_decide_eq_true in *.
      destruct Hkey as [[K1 K2] K3], Hk as [[K4 K5] K6].
      apply String.eqb_eq in K2, K3, K5, K6. apply orb_true_iff. right.
      rewrite !andb_true_iff, bool_decide_eq_true, !String.eqb_eq. split_and!; congruence.
    - apply list_elem_of_In in Hin'. by rewrite (List.find_none _ _ E r Hin') in Hkey. }
  unfold publish_artifact. wp_go; try done.
  all: cbn [tget harness_artifacts] in *; rewrite Hfind in *; simplify_eq.
  all: split_and!; try done.
  all: match goal with H : String.eqb _ _ = true |- _ => apply String.eqb_eq in H as -> end; done.
Qed.
End runs.

(** ** Names of enumerations

    The text columns: decoding accepts exactly the names the store writes, each
    for its own value. *)

(** [decode] reads exactly what [name] writes. *)
Definition names {A} (name : A → string) (decode : string → res A) : Prop :=
  ∀ v x, decode v = Ok x ↔ v = name x.

Ltac names_go decode :=
  intros v x; split;
  [ unfold decode; intros H;
    repeat match type of H with
    | (if String.eqb v ?s then _ else _) = _ =>
        destruct (String.eqb_spec v s) as [->|]; [by injection H as <-|]
    end; discriminate H
  | intros ->; by destruct x ].

(** Database round trip: for every enumeration the store keeps as text (goal,
    work item, attempt, checkpoint, effect, signal kind, trust and status, artifact
    kind), a text decodes to a value exactly when it is that value's name. *)
Theorem column_names_roundtrip :
  names goal_status_as_str goal_status_from_db ∧
  names work_status_name work_status_from_db ∧
  names attempt_status_name attempt_status_from_db ∧
  names checkpoint_phase_name checkpoint_phase_from_db ∧
  names effect_as_str effect_from_db ∧
  names signal_kind_as_str signal_kind_from_db ∧
  names signal_trust_as_str signal_trust_from_db ∧
  names signal_status_as_str signal_status_from_db ∧
  names artifact_kind_as_str artifact_kind_from_db.
Proof.
  split_and!; [names_go goal_status_from_db|names_go work_status_from_db
    |names_go attempt_status_from_db|names_go checkpoint_phase_from_db|names_go effect_from_db
    |names_go signal_kind_from_db|names_go signal_trust_from_db|names_go signal_status_from_db
    |names_go artifact_kind_from_db].
Qed.
