(* ===== verification/Operations.v ===== *)
(** * Operations refine atomic steps

    Every method of the engine that can change the store, as a value of
    [operation], and the refinement: whatever its result, errors included, a
    method changes the store by a sequence of the atomic steps of History.v and by
    nothing else.  So what holds of every atom holds of every interleaving of the
    methods of any number of processes. *)

From S2P Require Import Prelude Text Strings Messages External Domain Tables Signals Artifacts.
From S2P Require Import StoreBase StoreGoals StoreWork StoreExtend Replay Engine Worker Handlers.
From S2P Require Import Order History.

Section operations.
  Context `{ENV : LoopEnv}.

Abbreviation DB := (M Db).

Inductive operation : Type :=
| OCreateGoal (request : CreateGoalRequest) (actor : string)
| OIngestSignal (request : CreateSignalRequest) (actor : string)
| OIgnoreSignal (signal_id reason actor : string)
| OTriageSignal (signal_id actor : string)
| OProposeGoal (signal_id objective actor : string)
| ORunSelfTests (schema_tables schema_versions : Z) (suite actor : string)
| ORecordFrame (draft : TrajectoryFrameDraft) (actor : string)
| OReplay (trajectory_id actor : string)
| OPlanGoal (goal_id : string) (request : PlanGoalRequest) (actor : string)
| OPlanRecommended (goal_id actor : string)
| OApproveGoal (goal_id : string) (request : ApproveGoalRequest) (actor : string)
| OClaimGoalWork (goal_id worker_id : string) (lease_secs : N) (actor : string)
| OClaimWorkItem (goal_id step_id worker_id : string) (lease_secs : N) (actor : string)
| OExtendWorkflow (goal_id : string) (steps : list WorkflowStep) (actor : string)
| OPublishArtifact (request : PublishArtifactRequest) (actor : string)
| OVerifyGoal (goal_id actor : string)
| OManualVerification (goal_id label actor : string)
| OReserveProviderCall (goal_id : string)
| OResponseBytes (goal_id : string) (response_bytes : N)
| OPrepareCheckpoint (claim : WorkClaim) (idempotency_key : string) (replay_safe : bool)
    (actor : string)
| ORenewClaim (claim : WorkClaim) (lease_secs : N)
| OCommitCheckpoint (claim : WorkClaim) (checkpoint_id : string) (outcome : WorkOutcome)
    (actor : string)
| OFinishAttempt (claim : WorkClaim) (checkpoint_id actor : string)
| OFailAttempt (claim : WorkClaim) (error : string) (retryable : bool) (actor : string)
| OPauseGoal (goal_id reason actor : string)
| OUnpauseGoal (goal_id actor : string)
| ORejectGoal (goal_id reason actor : string)
| OReplanGoal (goal_id reason actor : string)
| OCancelGoal (goal_id reason actor : string)
| OExpireGoals (limit : nat)
| OResumeGoal (goal_id actor : string)
| OPhaseProgress (claim : WorkClaim) (continuation : WorkContinuation) (actor : string)
| OContinueAttempt (claim : WorkClaim) (continuation : WorkContinuation) (actor : string)
| OResolveConfirmation (goal_id work_item_id : string) (resolution : ConfirmationResolution)
    (reason actor : string)
| OBlockWorkItem (claim : WorkClaim) (reason actor : string)
| ORequeueBlocked (goal_id reason_prefix : string) (handlers : list string) (actor : string)
| ODeferAttempt (claim : WorkClaim) (until_unix : Z) (actor : string).

Definition exec (self : LoopEngine) (o : operation) : DB unit :=
  match o with
  | OCreateGoal request actor => void (engine_create_goal request actor)
  | OIngestSignal request actor => void (engine_ingest_signal request actor)
  | OIgnoreSignal signal_id reason actor => void (engine_ignore_signal signal_id reason actor)
  | OTriageSignal signal_id actor => void (engine_triage_signal signal_id actor)
  | OProposeGoal signal_id objective actor =>
      void (propose_goal_from_signal signal_id objective actor)
  | ORunSelfTests tables versions suite actor =>
      void (engine_run_self_tests tables versions suite actor)
  | ORecordFrame draft actor => void (engine_record_trajectory_frame draft actor)
  | OReplay trajectory_id actor => void (engine_run_structural_replay trajectory_id actor)
  | OPlanGoal goal_id request actor => void (engine_plan_goal self goal_id request actor)
  | OPlanRecommended goal_id actor => void (plan_goal_recommended self goal_id actor)
  | OApproveGoal goal_id request actor => void (engine_approve_goal self goal_id request actor)
  | OClaimGoalWork goal_id worker_id lease_secs actor =>
      void (engine_claim_goal_work goal_id worker_id lease_secs actor)
  | OClaimWorkItem goal_id step_id worker_id lease_secs actor =>
      void (engine_claim_work_item goal_id step_id worker_id lease_secs actor)
  | OExtendWorkflow goal_id sts actor => void (engine_extend_workflow self goal_id sts actor)
  | OPublishArtifact request actor => void (engine_publish_artifact request actor)
  | OVerifyGoal goal_id actor => void (engine_verify_goal goal_id actor)
  | OManualVerification goal_id label actor =>
      void (engine_record_manual_verification goal_id label actor)
  | OReserveProviderCall goal_id => void (reserve_provider_call goal_id)
  | OResponseBytes goal_id response_bytes =>
      void (record_provider_response_bytes goal_id response_bytes)
  | OPrepareCheckpoint claim key replay_safe actor =>
      void (engine_prepare_checkpoint claim key replay_safe actor)
  | ORenewClaim claim lease_secs => void (renew_claim claim lease_secs)
  | OCommitCheckpoint claim checkpoint_id outcome actor =>
      void (engine_commit_checkpoint claim checkpoint_id outcome actor)
  | OFinishAttempt claim checkpoint_id actor =>
      void (engine_finish_attempt claim checkpoint_id actor)
  | OFailAttempt claim error retryable actor =>
      void (engine_fail_attempt claim error retryable actor)
  | OPauseGoal goal_id reason actor => void (pause_goal goal_id reason actor)
  | OUnpauseGoal goal_id actor => void (unpause_goal goal_id actor)
  | ORejectGoal goal_id reason actor => void (reject_goal goal_id reason actor)
  | OReplanGoal goal_id reason actor => void (mark_goal_for_replan goal_id reason actor)
  | OCancelGoal goal_id reason actor => void (cancel_goal goal_id reason actor)
  | OExpireGoals limit => void (expire_overdue_goals limit)
  | OResumeGoal goal_id actor => void (engine_resume_goal goal_id actor)
  | OPhaseProgress claim continuation actor =>
      void (engine_record_phase_progress claim continuation actor)
  | OContinueAttempt claim continuation actor =>
      void (engine_continue_attempt claim continuation actor)
  | OResolveConfirmation goal_id work_item_id resolution reason actor =>
      void (engine_resolve_waiting_confirmation goal_id work_item_id resolution reason actor)
  | OBlockWorkItem claim reason actor => void (engine_block_work_item claim reason actor)
  | ORequeueBlocked goal_id prefix handlers actor =>
      void (engine_requeue_blocked_items goal_id prefix handlers actor)
  | ODeferAttempt claim until_unix actor => void (engine_defer_attempt claim until_unix actor)
  end.

End operations.

(** Recognises the transaction of an atom. *)
Ltac by_atom c := exact (proj1 (stable_void steps _) (stable_run c)).
Ltac atom_step :=
  lazymatch goal with
  | |- stable steps (admission_tx ?a ?b ?c) => by_atom (AAdmission a b c)
  | |- stable steps (plan_goal ?a ?b ?c) => by_atom (APlan a b c)
  | |- stable steps (approve_tx ?a ?b ?c ?d ?e) => exact (stable_run (AApprove a b c d e))
  | |- stable steps (cancel_goal ?a ?b ?c) => by_atom (ACancel a b c)
  | |- stable steps (reject_goal ?a ?b ?c) => by_atom (AReject a b c)
  | |- stable steps (mark_goal_for_replan ?a ?b ?c) => by_atom (AReplan a b c)
  | |- stable steps (set_goal_paused ?a ?b ?c ?d) => by_atom (APause a b c d)
  | |- stable steps (expire_overdue_goals ?a) => by_atom (AExpire a)
  | |- stable steps (verify_tx _ ?a ?b) => by_atom (AVerify a b)
  | |- stable steps (record_manual_verification ?a ?b ?c) => by_atom (AManual a b c)
  | |- stable steps (reserve_provider_call ?a) => by_atom (AReserve a)
  | |- stable steps (record_provider_response_bytes ?a ?b) => exact (stable_run (ABytes a b))
  | |- stable steps (recover_tx ?a ?b) => by_atom (ARecover a b)
  | |- stable steps (claim_round ?a ?b ?c ?d ?e) => by_atom (AClaim a b c d e)
  | |- stable steps (renew_claim ?a ?b) => by_atom (ARenew a b)
  | |- stable steps (prepare_checkpoint ?a ?b ?c ?d) => by_atom (APrepare a b c d)
  | |- stable steps (commit_checkpoint ?a ?b ?c ?d) => by_atom (ACommit a b c d)
  | |- stable steps (finish_tx ?a ?b ?c) => exact (stable_run (AFinish a b c))
  | |- stable steps (fail_tx ?a ?b ?c ?d) => exact (stable_run (AFail a b c d))
  | |- stable steps (block_work_item ?a ?b ?c) => by_atom (ABlock a b c)
  | |- stable steps (requeue_blocked_items ?a ?b ?c ?d) => by_atom (ARequeue a b c d)
  | |- stable steps (defer_tx ?a ?b ?c) => exact (stable_run (ADefer a b c))
  | |- stable steps (record_phase_progress ?a ?b ?c) => by_atom (AProgress a b c)
  | |- stable steps (continue_tx ?a ?b ?c) => exact (stable_run (AContinue a b c))
  | |- stable steps (resolve_tx ?a ?b ?c ?d ?e) => exact (stable_run (AResolve a b c d e))
  | |- stable steps (extend_tx ?a ?b ?c ?d) => by_atom (AExtend a b c d)
  | |- stable steps (insert_event ?a _ ?b _) => exact (stable_run (AResumed a b))
  | |- stable steps (ingest_tx ?a ?b ?c ?d ?e) => by_atom (AIngest a b c d e)
  | |- stable steps (mark_signal_proposed ?a ?b ?c) => exact (stable_run (AProposed a b c))
  | |- stable steps (transaction (insert_signal_event_tx ?a ?b ?c ?d)) =>
      exact (stable_run (ASignalEvent a b c d))
  | |- stable steps (publish_artifact ?a ?b) => by_atom (APublish a b)
  | |- stable steps (persist_run ?a) => exact (stable_run (ASelfTest a))
  | |- stable steps (record_trajectory_frame ?a ?b) => by_atom (ARecordFrame a b)
  | |- stable steps (persist_replay ?a ?b) => exact (stable_run (AReplayRun a b))
  end.
Ltac refine_go := repeat first [atom_step | stable_step].

Section refinement.
  Context `{ENV : LoopEnv}.

Lemma ingest_steps request actor : stable steps (ingest_signal request actor).
Proof. unfold ingest_signal, get_signal; cbv zeta; refine_go. Qed.

Lemma recover_steps goal_id actor : stable steps (recover_goal_state goal_id actor).
Proof.
  pose proof ingest_steps. unfold recover_goal_state. refine_go; eauto with stab.
Qed.

Lemma resume_steps e goal_id actor : stable steps (resume_or e goal_id actor).
Proof.
  pose proof recover_steps. unfold resume_or, resume_goal, get_goal, load_goal_work_items.
  refine_go; eauto with stab.
Qed.

Lemma claim_steps goal_id step worker_id lease_secs actor :
  stable steps (claim_ready_work_item goal_id step worker_id lease_secs actor).
Proof.
  pose proof recover_steps. unfold claim_ready_work_item. refine_go.
  generalize 3. intros n. induction n as [|n IH]; cbn [claim_loop]; refine_go.
Qed.

Lemma exec_steps self o : stable steps (exec self o).
Proof.
  pose proof ingest_steps. pose proof recover_steps. pose proof resume_steps.
  pose proof claim_steps.
  destruct o; apply stable_void;
    unfold engine_create_goal, engine_create_goal_admission, create_goal_admission,
      engine_ingest_signal, engine_ignore_signal, ignore_signal, engine_triage_signal,
      triage_signal, propose_goal_from_signal, engine_create_goal, engine_create_goal_admission,
      create_goal_admission, engine_run_self_tests, engine_ingest_signal, run_self_tests,
      engine_record_trajectory_frame, engine_run_structural_replay, run_structural_replay, list_frames,
      engine_plan_goal, plan_goal_recommended, engine_plan_goal, engine_approve_goal,
      approve_goal, engine_claim_goal_work, claim_goal_work, engine_claim_work_item,
      claim_work_item, engine_extend_workflow, extend_workflow, engine_publish_artifact,
      engine_verify_goal, verify_goal, engine_record_manual_verification,
      engine_prepare_checkpoint, engine_commit_checkpoint, engine_finish_attempt,
      finish_attempt, engine_fail_attempt, fail_attempt, pause_goal, unpause_goal,
      engine_resume_goal, engine_record_phase_progress, engine_continue_attempt,
      continue_attempt, engine_resolve_waiting_confirmation, resolve_waiting_confirmation,
      engine_block_work_item, engine_requeue_blocked_items, engine_defer_attempt,
      defer_attempt, ignore_signal, get_signal, get_goal;
    cbv zeta; refine_go; eauto with stab.
Qed.

(** A method of the engine, whatever it returns, moves the store
    along a sequence of atomic transactions. *)
Lemma ops_are_atomic_steps self o : stable steps (exec self o).
Proof. apply exec_steps. Qed.
End refinement.

(** Recognises a method of the engine inside a client's computation. *)
Ltac by_op o := exact (proj1 (stable_void steps _) (exec_steps {| external_write_policy := default_external_write; internal_policy := default_internal_policy |} o)).
Ltac op_step :=
  lazymatch goal with
  | |- stable steps (engine_fail_attempt ?a ?b ?c ?d) => by_op (OFailAttempt a b c d)
  | |- stable steps (engine_continue_attempt ?a ?b ?c) => by_op (OContinueAttempt a b c)
  | |- stable steps (engine_record_phase_progress ?a ?b ?c) => by_op (OPhaseProgress a b c)
  | |- stable steps (engine_prepare_checkpoint ?a ?b ?c ?d) => by_op (OPrepareCheckpoint a b c d)
  | |- stable steps (engine_commit_checkpoint ?a ?b ?c ?d) => by_op (OCommitCheckpoint a b c d)
  | |- stable steps (engine_finish_attempt ?a ?b ?c) => by_op (OFinishAttempt a b c)
  | |- stable steps (engine_defer_attempt ?a ?b ?c) => by_op (ODeferAttempt a b c)
  | |- stable steps (engine_block_work_item ?a ?b ?c) => by_op (OBlockWorkItem a b c)
  | |- stable steps (engine_ingest_signal ?a ?b) => by_op (OIngestSignal a b)
  | |- stable steps (engine_resume_goal ?a ?b) => by_op (OResumeGoal a b)
  | |- stable steps (engine_verify_goal ?a ?b) => by_op (OVerifyGoal a b)
  | |- stable steps (engine_requeue_blocked_items ?a ?b ?c ?d) => by_op (ORequeueBlocked a b c d)
  | |- stable steps (engine_claim_goal_work ?a ?b ?c ?d) => by_op (OClaimGoalWork a b c d)
  | |- stable steps (engine_publish_artifact ?a ?b) => by_op (OPublishArtifact a b)
  | |- stable steps (engine_run_self_tests ?a ?b ?c ?d) => by_op (ORunSelfTests a b c d)
  | |- stable steps (engine_run_structural_replay ?a ?b) => by_op (OReplay a b)
  | |- stable steps (engine_record_trajectory_frame ?a ?b) => by_op (ORecordFrame a b)
  | |- stable steps (reserve_provider_call ?a) => by_op (OReserveProviderCall a)
  | |- stable steps (record_provider_response_bytes ?a ?b) => by_op (OResponseBytes a b)
  | |- stable steps (renew_claim ?a ?b) => by_op (ORenewClaim a b)
  end.
Ltac client_go := repeat first [op_step | stable_step].

(** * The worker only takes the store's steps

    Whatever its handlers answer, the worker changes the store through the engine's
    transactions and nothing else, provided its handlers do: the built-in handlers
    do.  So every invariant of the store holds while any number of workers run. *)

(** What tokio promises: running a computation beside the heartbeat, with a
    deadline, has the effects of the two and no others. *)
Class RuntimeLaws `{ENV : LoopEnv} (RT : Runtime) : Prop := {
  deadline_effects R `{!PreOrder R} secs : stable R (deadline_after secs);
  timeout_effects R `{!PreOrder R} deadline background m :
    stable R background → stable R m → stable R (timeout_at deadline background m)
}.

Section dispatch.
  Context `{ENV : LoopEnv} `{RT : !Runtime} `{RL : !RuntimeLaws RT}.

(** A handler that changes the store through the engine only. *)
Definition handler_steps (h : WorkHandler) : Prop := ∀ ctx, stable steps (wh_execute h ctx).

Definition worker_steps (self : LoopWorker) : Prop :=
  ∀ name h, registry_get (lw_handlers self) name = Some h → handler_steps h.

Lemma heartbeat_steps claim lease_secs : stable steps (heartbeat claim lease_secs).
Proof. unfold heartbeat. client_go. Qed.

Lemma supervised_steps deadline claim lease_secs handler ctx :
  handler_steps handler →
  stable steps (timeout_at deadline (heartbeat claim lease_secs) (wh_execute handler ctx)).
Proof. intros H. apply timeout_effects; [typeclasses eauto|apply heartbeat_steps|apply H]. Qed.

Lemma phase_loop_steps self fuel handler claim deadline upstream resume actor :
  handler_steps handler →
  stable steps (phase_loop self fuel handler claim deadline upstream resume actor).
Proof.
  intros H. revert resume. induction fuel as [|fuel IH]; intros resume; cbn [phase_loop]; client_go.
  by apply supervised_steps.
Qed.

Lemma process_claim_steps self claim actor :
  worker_steps self → stable steps (process_claim self claim actor).
Proof.
  intros H. unfold process_claim. destruct (_ && _); [client_go|].
  destruct (registry_get _ _) as [handler|] eqn:E; [|client_go].
  destruct (negb _); [client_go|]. unfold run_handler. client_go.
  - apply deadline_effects; typeclasses eauto.
  - unfold upstream_outcomes. stable_go.
  - cbv zeta. client_go. apply phase_loop_steps. by eapply H.
Qed.

Lemma idle_loop_steps self n goal_id actor report :
  worker_steps self → stable steps (idle_loop self n goal_id actor report).
Proof.
  intros H. revert report. induction n as [|n IH]; intros report; cbn [idle_loop]; client_go.
  by apply process_claim_steps.
Qed.

(** A worker, whatever its handlers answer and whenever the runtime
    interrupts them, moves the store along a sequence of atomic transactions, errors
    included; so do the children of a concurrent run. *)
Lemma worker_refines_steps self goal_id max_steps retries :
  worker_steps self →
  stable steps (run_goal_until_idle self goal_id max_steps) ∧
  ∀ i, stable steps (child_turn (child self i) goal_id max_steps retries).
Proof.
  intros H. assert (Hrun : ∀ self, worker_steps self →
    stable steps (run_goal_until_idle self goal_id max_steps)).
  { intros self' H'. unfold run_goal_until_idle. client_go. by apply idle_loop_steps. }
  split; [by apply Hrun|]. intros i. unfold child_turn. client_go.
Qed.
End dispatch.

(** ** The built-in handlers *)

Section builtins.
  Context `{ENV : LoopEnv} `{!ToValue self_test_row} `{!ToValue ReplayRun} `{CP : ChatProvider}.
  Variables schema_tables schema_versions : Z.

Lemma find_artifact_steps kind name version : stable steps (find_artifact kind name version).
Proof. unfold find_artifact. stable_go. Qed.

#[local] Hint Resolve find_artifact_steps : stab.

Lemma builtin_steps h (sender : OutboundSender) :
  h ∈ [ goal_planner; wait_handler; provider_analysis_handler;
        self_test_handler schema_tables schema_versions; session_replay_handler; manual_gate;
        bounded_evolution_unavailable; channel_send_handler ] → handler_steps h.
Proof.
  intros Hh ctx. repeat (apply elem_of_cons in Hh as [->|Hh]); [..|by inversion Hh].
  all: cbn [wh_execute goal_planner wait_handler provider_analysis_handler self_test_handler
    session_replay_handler manual_gate bounded_evolution_unavailable channel_send_handler].
  all: unfold goal_planner_execute, wait_execute, provider_analysis_execute, self_test_execute,
    session_replay_execute, channel_send_execute, published, publish; cbv zeta; client_go.
Qed.
End builtins.
