(* ===== verification/Settlement.v ===== *)
(** * Handlers and claims are settled

    The handler registry: a registered handler sits under its own name, and one that writes to the outside
    is on the allowlist; a worker built from the built-in handlers has such a
    registry, only takes the store's steps, and can only fail to start for a sender
    that is not allowed.  And the settlement of a claim: however [process_claim] ends
    without an error, the attempt is no longer live. *)

From S2P Require Import Prelude Text Strings Messages External Domain Tables Signals Artifacts.
From S2P Require Import StoreBase StoreGoals StoreWork StoreExtend Replay Engine Worker Handlers.
From S2P Require Import Order History Operations.

Section registry.
  Context `{ENV : LoopEnv}.

Record handler_ok (self : WorkHandlerRegistry) (name : string) (h : WorkHandler) : Prop := {
  ho_name : wh_name h = name;
  ho_nonblank : is_blank name = false;
  ho_gated : wh_effect_class h = ExternalWrite → name ∈ reg_allowlist self
}.

Definition registry_ok (self : WorkHandlerRegistry) : Prop :=
  ∀ name h, registry_get self name = Some h → handler_ok self name h.

Lemma empty_registry_ok allowlist : registry_ok (empty_registry allowlist).
Proof. intros name h H. unfold registry_get in H; cbn in H; by rewrite lookup_empty in H. Qed.

Lemma register_allowlist self h : reg_allowlist (register self h).2 = reg_allowlist self.
Proof. unfold register. repeat case_match; done. Qed.

(** Registration is safe on every branch: a refused external-write or unnamed
    handler leaves the registry as it was; otherwise exactly the handler's own name
    is bound to it - an error reports the handler it replaced - and a well-formed
    registry stays well-formed, so no external-write handler outside the allowlist is
    ever found. *)
Theorem register_exact self h :
  let '(r, self') := register self h in
  (registry_ok self → registry_ok self') ∧
  if is_external_write (wh_effect_class h) && negb (bool_decide (wh_name h ∈ reg_allowlist self)) ||
     is_blank (wh_name h)
  then is_ok r = false ∧ self' = self
  else is_ok r = negb (is_some (registry_get self (wh_name h))) ∧
       (∀ name, registry_get self' name =
                  if String.eqb name (wh_name h) then Some h else registry_get self name).
Proof.
  destruct (register self h) as [r self'] eqn:E. unfold register in E.
  destruct (is_external_write (wh_effect_class h)) eqn:Ew,
    (bool_decide (wh_name h ∈ reg_allowlist self)) eqn:Eb,
    (is_blank (wh_name h)) eqn:Ebl; cbn [andb orb negb] in *; try by simplify_eq.
  all: assert (Hg : ∀ name, registry_get self' name =
      if String.eqb name (wh_name h) then Some h else registry_get self name)
    by (intros name; unfold registry_get in *;
        destruct (String.eqb_spec name (wh_name h)) as [->|];
        case_match; simplify_eq; cbn; by rewrite ?lookup_insert_eq, ?lookup_insert_ne by done).
  all: assert (Ha : reg_allowlist self' = reg_allowlist self) by (case_match; by simplify_eq).
  all: split; [|split; [unfold registry_get; case_match; by simplify_eq|exact Hg]].
  all: intros Hok name h'; rewrite Hg; destruct (String.eqb_spec name (wh_name h)) as [->|].
  all: intros Hget; try (destruct (Hok _ _ Hget); split; by rewrite ?Ha).
  all: simplify_eq; split; [done|done|intros Hx; rewrite Ha].
  all: first [by rewrite Hx in Ew|by apply bool_decide_eq_true in Eb].
Qed.

Definition may_register (allowlist : gset string) (h : WorkHandler) : Prop :=
  is_blank (wh_name h) = false ∧
  (wh_effect_class h = ExternalWrite → wh_name h ∈ allowlist).

Lemma register_ok self h :
  may_register (reg_allowlist self) h → registry_get self (wh_name h) = None →
  register self h =
    (Ok tt, {| reg_handlers := <[wh_name h := h]> (reg_handlers self);
               reg_allowlist := reg_allowlist self |}).
Proof.
  intros [Hb He] Hn. unfold register, registry_get in *. rewrite Hb, Hn.
  destruct (is_external_write (wh_effect_class h)) eqn:E; cbn; [|done].
  rewrite bool_decide_eq_true_2; [done|]. apply He. by destruct (wh_effect_class h).
Qed.

(** Handlers with names of their own all register. *)
Lemma register_all_ok l self :
  Forall (may_register (reg_allowlist self)) l → NoDup (wh_name <$> l) →
  Forall (λ h, registry_get self (wh_name h) = None) l →
  ∃ self', register_all self l = Ok self' ∧ reg_allowlist self' = reg_allowlist self ∧
    ∀ name h, registry_get self' name = Some h ↔
              registry_get self name = Some h ∨ (h ∈ l ∧ wh_name h = name).
Proof.
  revert self. induction l as [|h l IH]; intros self Hm Hnd Hfree.
  - exists self. split_and!; [done..|]. set_solver.
  - apply Forall_cons in Hm as [Hh Hm], Hfree as [Hf Hfree]. cbn in Hnd.
    apply NoDup_cons in Hnd as [Hnin Hnd]. unfold register_all. cbn [for_res].
    rewrite register_ok by done. cbn [mbind res_bind].
    edestruct (IH {| reg_handlers := <[wh_name h := h]> (reg_handlers self);
                     reg_allowlist := reg_allowlist self |}) as (self' & Heq & Ha & Hget); [done|done| |].
    { apply Forall_forall. intros x Hx. unfold registry_get. cbn. rewrite lookup_insert_ne.
      - by eapply Forall_forall in Hfree.
      - intros E. apply Hnin. rewrite E. by apply list_elem_of_fmap_2. }
    exists self'. split_and!; [exact Heq|exact Ha|]. intros name x. rewrite Hget.
    unfold registry_get in *. cbn. destruct (decide (wh_name h = name)) as [<-|Hne].
    + rewrite lookup_insert_eq, Hf. set_solver.
    + rewrite lookup_insert_ne by done. set_solver.
Qed.
End registry.

Section builtins.
  Context `{ENV : LoopEnv} `{!ToValue self_test_row} `{!ToValue ReplayRun} `{CP : ChatProvider}.
  Variables schema_tables schema_versions : Z.

Definition builtins : list WorkHandler :=
  [ goal_planner; wait_handler; provider_analysis_handler;
    self_test_handler schema_tables schema_versions; session_replay_handler; manual_gate;
    bounded_evolution_unavailable ].

(** The handlers of a default worker. *)
Definition default_handler (outbound : option OutboundSender) (h : WorkHandler) : Prop :=
  h ∈ builtins ∨ ∃ sender, outbound = Some sender ∧ h = channel_send_handler.

Lemma default_handler_ok outbound handlers :
  (∀ name h, registry_get handlers name = Some h ↔ wh_name h = name ∧ default_handler outbound h) →
  (is_some outbound = true → "channel_send" ∈ reg_allowlist handlers) →
  registry_ok handlers ∧ ∀ name h, registry_get handlers name = Some h → handler_steps h.
Proof.
  intros Hget Hal. split; intros name h [<- [Hh|(sender & -> & ->)]]%Hget.
  - unfold builtins in Hh. repeat (apply elem_of_cons in Hh as [->|Hh]; [by split|]). inversion Hh.
  - split; [done|done|]. intros _. by apply Hal.
  - apply (builtin_steps schema_tables schema_versions _
      {| sender_send := λ _ _ _ _ _, Err ""; sender_supports_channel := λ _, false |}).
    apply (elem_of_app builtins [channel_send_handler]). by left.
  - apply (builtin_steps schema_tables schema_versions _ sender).
    apply (elem_of_app builtins [channel_send_handler]). right. by apply list_elem_of_singleton.
Qed.

Lemma builtins_wired engine process_id (outbound : option OutboundSender) :
  let allowed := ew_allowed_handlers (external_write_policy engine) in
  match with_builtins schema_tables schema_versions engine process_id outbound with
  | Ok w => (is_some outbound = true → "channel_send" ∈ allowed) ∧
      (∀ name h, registry_get (lw_handlers w) name = Some h ↔
         wh_name h = name ∧ default_handler outbound h) ∧
      registry_ok (lw_handlers w) ∧ worker_steps w
  | Err _ => is_some outbound = true ∧ "channel_send" ∉ allowed
  end.
Proof.
  cbv zeta. unfold with_builtins. fold builtins.
  set (allowed := ew_allowed_handlers _).
  destruct (register_all_ok builtins (empty_registry allowed)) as (r & Hr & Ha & Hget).
  { repeat constructor; done. }
  { apply (bool_decide_unpack _). by vm_compute. }
  { repeat constructor. }
  rewrite Hr. cbn [mbind res_bind].
  assert (Hbase : ∀ name h, registry_get r name = Some h ↔ wh_name h = name ∧ h ∈ builtins).
  { intros name h. rewrite Hget. unfold registry_get at 1. cbn. rewrite lookup_empty.
    generalize (h ∈ builtins). clear. naive_solver. }
  destruct outbound as [sender|]; cbn [is_some].
  - destruct (decide ("channel_send" ∈ allowed)) as [Hin|Hin].
    + destruct (register_all_ok [channel_send_handler (OS := sender)] r) as (r' & Hr' & Ha' & Hget').
      { rewrite Ha. by repeat constructor. }
      { apply NoDup_singleton. }
      { constructor; [|done]. destruct (registry_get r _) eqn:E; [|done].
        apply Hbase in E as [En Eh]. cbn in En. unfold builtins in Eh.
        repeat (apply elem_of_cons in Eh as [->|Eh]; [discriminate En|]). inversion Eh. }
      rewrite Hr'. cbn [mbind res_bind lw_handlers]. split; [done|].
      assert (Hall : ∀ name h, registry_get r' name = Some h ↔
        wh_name h = name ∧ default_handler (Some sender) h).
      { intros name h. rewrite Hget', Hbase, list_elem_of_singleton. unfold default_handler. generalize (h ∈ builtins). clear. naive_solver. }
      split; [exact Hall|]. apply (default_handler_ok (Some sender)); [exact Hall|].
      intros _. by rewrite Ha', Ha.
    + unfold register_all, register. cbn [for_res wh_name wh_effect_class channel_send_handler is_external_write].
      rewrite Ha, bool_decide_eq_false_2 by done. done.
  - assert (Hall : ∀ name h, registry_get r name = Some h ↔ wh_name h = name ∧ default_handler None h).
    { intros name h. rewrite Hbase. unfold default_handler. generalize (h ∈ builtins). clear. naive_solver. }
    split; [done|]. split; [exact Hall|]. by apply (default_handler_ok None).
Qed.

(** The default worker starts unless it is given a sender that the policy does
    not allow, and then it has exactly the built-in handlers - [channel_send] only
    with an allowed sender - each under its own name, gated by the allowlist, and
    changing the store through the engine only. *)
Theorem builtins_are_wired engine process_id (outbound : option OutboundSender) :
  let allowed := ew_allowed_handlers (external_write_policy engine) in
  match with_builtins schema_tables schema_versions engine process_id outbound with
  | Ok w => (is_some outbound = true → "channel_send" ∈ allowed) ∧
      (∀ name h, registry_get (lw_handlers w) name = Some h ↔
         wh_name h = name ∧ default_handler outbound h) ∧
      registry_ok (lw_handlers w) ∧ worker_steps w
  | Err _ => is_some outbound = true ∧ "channel_send" ∉ allowed
  end.
Proof. apply builtins_wired. Qed.
End builtins.

(** ** A processed claim is settled

    However [process_claim] ends without an error - the handler succeeded, failed,
    timed out, went to sleep, yielded, was missing or not allowed - the attempt of
    the claim is no longer live.  And a handler the policy does not allow has no
    influence on the run. *)

Section settled.
  Context `{ENV : LoopEnv}.

Abbreviation DB := (M Db).

(** The claim's attempts of the first store have ended in the second. *)
Definition settled (claim : WorkClaim) (s s' : Db) : Prop :=
  ∀ i a, db_attempts s !! i = Some a → at_id a = atr_id (wc_attempt claim) →
  ∃ a', db_attempts s' !! i = Some a' ∧ live_attempt a' = false.

Definition dead (st : AttemptStatus) : bool := negb (bool_decide (st ∈ [ARunning; ACommitting])).

Lemma live_dead a : live_attempt a = negb (dead (at_status a)).
Proof. unfold live_attempt, attempt_in, dead. by rewrite negb_involutive. Qed.

Lemma dead_path a b : path attempt_edge a b → dead a = true → dead b = true.
Proof. apply path_closed. by intros [] []. Qed.

Lemma settled_later claim s0 s1 s2 : settled claim s0 s1 → db_le s1 s2 → settled claim s0 s2.
Proof.
  intros H Hle i a Hi Ha. destruct (H i a Hi Ha) as (b & Hb & Hl).
  destruct (tbl_le_lookup _ _ _ _ _ (le_attempts _ _ Hle) Hb) as (c & Hc & [_ Hp]).
  exists c. split; [done|]. rewrite live_dead in *. apply negb_false_iff in Hl.
  by rewrite (dead_path _ _ Hp Hl).
Qed.

Lemma settled_earlier claim s0 s1 s2 : db_le s0 s1 → settled claim s1 s2 → settled claim s0 s2.
Proof.
  intros Hle H i a Hi Ha.
  destruct (tbl_le_lookup _ _ _ _ _ (le_attempts _ _ Hle) Hi) as (b & Hb & [Hs _]).
  apply (H i b Hb). unfold attempt_static in Hs. congruence.
Qed.

(** ** Computations that end the attempt, on the values that satisfy [P] *)

Definition ends_if {A} (claim : WorkClaim) (P : A → bool) (m : DB A) : Prop :=
  ∀ s, wp m (λ r s', ∀ a, r = Ok a → P a = true → settled claim s s') s.

Definition ends {A} (claim : WorkClaim) (m : DB A) : Prop := ends_if claim (λ _, true) m.

Section rules.
  Context {A B : Type} (claim : WorkClaim) (P : A → bool) (Q : B → bool).

Lemma ends_throw e : ends_if claim P (throw e).
Proof. intros s. by apply wp_throw. Qed.

Lemma ends_ret a : P a = false → ends_if claim P (mret a).
Proof. intros H s. apply wp_ret. intros ? [= <-]. by rewrite H. Qed.

Lemma ends_bind_l (m : DB A) (f : A → DB B) :
  stable db_le m → (∀ a, ends_if claim Q (f a)) → ends_if claim Q (m ≫= f).
Proof.
  intros Hm Hf s. apply (wp_bind_stable db_le); [done|done|]. intros a s' Hle.
  eapply wp_mono; [apply Hf|]. cbv beta. intros r s'' H b -> Hb.
  eapply settled_earlier; [exact Hle|by eapply H].
Qed.

Lemma ends_bind_case (m : DB A) (f : A → DB B) :
  stable db_le m → ends_if claim P m → (∀ a, P a = true → stable db_le (f a)) →
  (∀ a, P a = false → ends_if claim Q (f a)) → ends_if claim Q (m ≫= f).
Proof.
  intros Hm He Ht Hf s. apply wp_bind.
  eapply wp_mono; [apply wp_and; [apply (wp_of_stable db_le _ _ Hm)|apply He]|]. cbv beta.
  intros [a|e] s' [Hle Hs]; [|done]. destruct (P a) eqn:E.
  - eapply wp_mono; [apply (wp_of_stable db_le), Ht, E|]. cbv beta. intros r s'' Hle' b -> _.
    eapply settled_later; [by eapply Hs|done].
  - eapply wp_mono; [apply Hf, E|]. cbv beta. intros r s'' H b -> Hb.
    eapply settled_earlier; [exact Hle|by eapply H].
Qed.

Lemma ends_bind_ensure b e (f : unit → DB B) :
  (b = true → ends_if claim Q (f tt)) → ends_if claim Q (ensure b e ≫= f).
Proof. destruct b; intros H; [exact (H eq_refl)|]. intros s. by apply wp_throw. Qed.

Lemma ends_transaction (m : DB A) : ends_if claim P m → ends_if claim P (transaction m).
Proof.
  intros H s. apply wp_transaction. eapply wp_mono; [apply H|]. cbv beta.
  intros [a|e] s' Hs; [exact Hs|done].
Qed.
End rules.

Lemma ends_bind_r {A B} claim (Q : B → bool) (m : DB A) (f : A → DB B) :
  ends claim m → (∀ a, stable db_le (f a)) → ends_if claim Q (m ≫= f).
Proof.
  intros He Hf s. apply wp_bind. eapply wp_mono; [apply He|]. cbv beta.
  intros [a|e] s' Hs; [|done]. eapply wp_mono; [apply (wp_of_stable db_le), Hf|]. cbv beta.
  intros r s'' Hle b -> _. eapply settled_later; [by eapply Hs|done].
Qed.

Lemma ends_update claim attempt_id st now e :
  dead st = true → attempt_id = atr_id (wc_attempt claim) →
  ends claim (sql_update harness_attempts (λ a, is_attempt attempt_id a && live_attempt a)
                (end_attempt st now e)).
Proof.
  intros Hd -> s. apply wp_sql_update. intros ? _ _ i a Hi Ha. cbn.
  eexists. split; [unfold update_where; rewrite list_lookup_fmap, Hi; reflexivity|].
  unfold is_attempt. rewrite Ha, String.eqb_refl. cbn [andb].
  destruct (live_attempt a) eqn:E; [|done]. rewrite live_dead. cbn. by rewrite Hd.
Qed.

Lemma le_of_steps {A} (m : DB A) : stable steps m → stable db_le m.
Proof. intros H w. apply steps_le, H. Qed.

Lemma current_le claim : stable db_le (ensure_claim_current claim).
Proof. unfold ensure_claim_current. stable_go. Qed.

Lemma refresh_le goal_id : stable db_le (refresh_goal_status_tx goal_id).
Proof. unfold refresh_goal_status_tx. stable_go. Qed.

Lemma event_le goal_id ty actor d : stable db_le (insert_event goal_id ty actor d).
Proof. unfold insert_event. stable_go. Qed.

Lemma void_prepared_le attempt_id now : stable db_le (void_prepared_tx attempt_id now).
Proof. unfold void_prepared_tx. stable_go. Qed.

Lemma resume_le e goal_id actor : stable db_le (resume_or e goal_id actor).
Proof. apply le_of_steps, resume_steps. Qed.

Lemma load_checkpoint_le id : stable db_le (load_checkpoint_tx id).
Proof. unfold load_checkpoint_tx. stable_go. Qed.

Lemma unlock_le goal_id : stable db_le (unlock_ready_work_tx goal_id).
Proof. unfold unlock_ready_work_tx. stable_go. Qed.

Lemma next_phase_le id c : stable db_le (next_phase_progress id c).
Proof. unfold next_phase_progress. stable_go. Qed.
End settled.

#[export] Hint Resolve current_le refresh_le event_le void_prepared_le resume_le
  load_checkpoint_le unlock_le next_phase_le : ends.

(** The part of a computation that does not end the attempt. *)
Ltac le_part := first [solve [auto with ends nocore]|solve [cbv zeta; stable_go]].
Ltac ends_step :=
  lazymatch goal with
  | |- ends _ _ => unfold ends
  | |- ends_if _ _ (transaction _) => apply ends_transaction
  | |- ends_if _ _ (throw _) => apply ends_throw
  | |- ends_if _ _ (mbind _ (ensure _ _)) => apply ends_bind_ensure; intros ?
  | |- ends_if _ _ (mbind _ (sql_update harness_attempts _ _)) =>
      apply ends_bind_r; [apply ends_update; [reflexivity|try reflexivity; try congruence]|intros ?; repeat stable_step]
  | |- ends_if _ _ (mbind _ _) => apply ends_bind_l; [le_part|intros ?]
  end.

Section operations.
  Context `{ENV : LoopEnv}.

#[local] Hint Resolve current_le refresh_le event_le void_prepared_le resume_le
  load_checkpoint_le unlock_le next_phase_le : stab.

Lemma ends_fail claim error retryable actor : ends claim (engine_fail_attempt claim error retryable actor).
Proof.
  unfold engine_fail_attempt, fail_attempt. cbv zeta. ends_step. ends_step.
  apply ends_bind_r; [|intros; apply resume_le]. unfold fail_tx. cbv zeta. repeat ends_step.
Qed.

Lemma ends_block claim reason actor : ends claim (engine_block_work_item claim reason actor).
Proof.
  unfold engine_block_work_item, block_work_item. cbv zeta. do 3 ends_step.
  apply ends_bind_r; [|intros; stable_go]. repeat ends_step.
Qed.

Lemma ends_defer claim until_unix actor : ends claim (engine_defer_attempt claim until_unix actor).
Proof.
  unfold engine_defer_attempt, defer_attempt. do 3 ends_step.
  apply ends_bind_r; [|intros; apply resume_le]. unfold defer_tx. cbv zeta. repeat ends_step.
Qed.

Lemma ends_continue claim c actor : ends claim (engine_continue_attempt claim c actor).
Proof.
  unfold engine_continue_attempt, continue_attempt. do 3 ends_step.
  apply ends_bind_r; [|intros; apply resume_le]. unfold continue_tx. cbv zeta. repeat ends_step.
Qed.

Lemma ends_reconcile claim checkpoint :
  cpr_attempt_id checkpoint = atr_id (wc_attempt claim) →
  ends claim (reconcile_checkpoint_tx checkpoint).
Proof. intros E. unfold reconcile_checkpoint_tx. repeat ends_step. Qed.

Lemma ends_finish claim checkpoint_id actor : ends claim (engine_finish_attempt claim checkpoint_id actor).
Proof.
  unfold engine_finish_attempt, finish_attempt. do 2 ends_step.
  apply ends_bind_r; [|intros; apply resume_le]. unfold finish_tx. cbv zeta. do 5 ends_step.
  apply ends_bind_r; [apply ends_reconcile|intros; stable_go].
  match goal with H : _ && _ = true |- _ => apply andb_true_iff in H as [H _] end.
  by apply String.eqb_eq.
Qed.
End operations.

Section process.
  Context `{ENV : LoopEnv} `{RT : !Runtime} `{RL : !RuntimeLaws RT}.

Definition is_settled (r : option phase_end) : bool :=
  match r with Some (Settled _) => true | _ => false end.

Lemma ends_report claim (m : M Db ResumeReport) :
  ends claim m → ends_if claim is_settled (report ← m; mret (Some (Settled report))).
Proof. intros H. apply ends_bind_r; [done|]. intros; stable_go. Qed.

Lemma ends_phase_loop self fuel handler claim deadline upstream resume actor :
  handler_steps handler →
  ends_if claim is_settled (phase_loop self fuel handler claim deadline upstream resume actor).
Proof.
  intros Hh. revert resume. induction fuel as [|fuel IH]; intros resume; cbn [phase_loop].
  { by apply ends_ret. }
  apply ends_bind_l; [by apply le_of_steps, supervised_steps|].
  intros [[outcome|error]|]; [|apply ends_report, ends_fail..].
  destruct (outcome_validate outcome); [|apply ends_report, ends_fail].
  destruct (out_continuation outcome) as [c|]; [|by apply ends_ret].
  destruct (is_some _); [apply ends_report, ends_continue|].
  apply ends_bind_l; [apply le_of_steps; client_go|].
  intros [p|e]; [apply IH|apply ends_report, ends_fail].
Qed.

Lemma ends_run_handler self handler claim actor :
  handler_steps handler → ends claim (run_handler self handler claim actor).
Proof.
  intros Hh. unfold run_handler.
  apply ends_bind_l; [apply le_of_steps; client_go|]; intros checkpoint.
  apply ends_bind_l; [apply deadline_effects; typeclasses eauto|]; intros deadline.
  apply ends_bind_l; [unfold upstream_outcomes; stable_go|]; intros upstream. cbv zeta.
  eapply (ends_bind_case _ is_settled); [|by apply ends_phase_loop| |].
  - by apply le_of_steps, phase_loop_steps.
  - intros [[report|outcome]|]; done.
  - intros [[report|outcome]|]; [done| |intros _; apply ends_throw]. intros _.
    destruct (out_sleep_until outcome); [apply ends_defer|].
    apply ends_bind_l; [apply le_of_steps; client_go|]. intros _. apply ends_finish.
Qed.

(** C9: Every processed claim is settled: when [process_claim] ends without an error,
    the attempt it was given is no longer live, whatever the handler did and whichever
    way it was dispatched. *)
Theorem processed_claim_is_settled self claim actor s :
  worker_steps self →
  wp (process_claim self claim actor)
     (λ r s', is_ok r = true → settled claim s s') s.
Proof.
  intros Hw. assert (He : ends claim (process_claim self claim actor)).
  { unfold process_claim. destruct (_ && _); [apply ends_fail|].
    destruct (registry_get _ _) as [handler|] eqn:E.
    - destruct (negb _); [apply ends_fail|]. apply ends_run_handler. by eapply Hw.
    - apply ends_bind_r; [apply ends_block|]. intros _. apply le_of_steps. client_go. }
  eapply wp_mono; [apply He|]. cbv beta. intros [report|e] s' Hs; [|done]. intros _. by eapply Hs.
Qed.

(** ** Gates *)

(** What [process_claim] refuses to run. *)
Definition gated (self : LoopWorker) (claim : WorkClaim) : bool :=
  is_external_write (wir_effect (wc_item claim)) &&
    negb (ew_enabled (external_write_policy (lw_engine self))) ||
  match registry_get (lw_handlers self) (wir_handler (wc_item claim)) with
  | None => true
  | Some h => negb (bool_decide (wh_effect_class h = wir_effect (wc_item claim)))
  end.

(** The same worker with other code in its handlers. *)
Definition with_code (code : string → WorkHandlerContext → M Db WorkOutcome) (self : LoopWorker)
    : LoopWorker :=
  {| lw_engine := lw_engine self;
     lw_handlers :=
       {| reg_handlers := (λ h, {| wh_name := wh_name h; wh_effect_class := wh_effect_class h;
                                   wh_retryable := wh_retryable h;
                                   wh_replay_safe := wh_replay_safe h;
                                   wh_execute := code (wh_name h) |})
                          <$> reg_handlers (lw_handlers self);
          reg_allowlist := reg_allowlist (lw_handlers self) |};
     lw_worker_id := lw_worker_id self; lw_lease_secs := lw_lease_secs self |}.

(** A gated claim never reaches a handler: when external writes are disabled for
    an external-write item, or the approved effect class is not the handler's, or no
    handler is registered, the run is the same for any code the handlers hold. *)
Theorem gated_claim_runs_no_handler code self claim actor w :
  gated self claim = true →
  process_claim (with_code code self) claim actor w = process_claim self claim actor w.
Proof.
  unfold gated, process_claim, registry_get. cbn [lw_engine lw_handlers reg_handlers with_code].
  destruct (_ && _); [done|]. cbn [orb]. rewrite lookup_fmap.
  destruct (reg_handlers _ !! _) as [h|]; [|done]. cbn. by intros ->.
Qed.
End process.
