(* ===== verification/GoalLife.v ===== *)
(** * The goal life cycle

    [goal_edge] is the state machine of a goal's status, read off the guards and
    UPDATEs of src/harness/loop_engine/store.rs.  Several operations read the row,
    check its status and then update by id alone; that this moves exactly the row
    that was checked needs the primary key, so the two-state relation carries the
    uniqueness of goal ids. *)

From S2P Require Import Prelude Text External Domain Tables Signals Artifacts StoreBase.
From S2P Require Import StoreGoals StoreWork StoreExtend Replay Order History.

Definition goal_edge (a b : GoalStatus) : bool :=
  match a, b with
  | (Proposed | Replan), ReviewReady => true
  | ReviewReady, Approved => true
  | Approved, (Active | Verifying | Failed | Paused) => true
  | Active, (Verifying | Failed | Paused) => true
  | Verifying, (Active | Failed | Paused | Achieved) => true
  | Failed, (Active | Verifying | Replan) => true
  | Blocked, (Failed | Paused | Replan) => true
  | Paused, Active => true
  | (Proposed | Planning | ReviewReady | Approved | Active | Blocked | Verifying), Canceled => true
  | (Proposed | Planning | ReviewReady), Rejected => true
  | (Canceled | Rejected), Replan => true
  | _, _ => false
  end.

Section goal_life.
  Context `{ENV : LoopEnv}.

Definition goal_static (g : goal_row) :=
  (g_id g, g_objective g, g_source_signal_ids g, g_request_id g, g_created_by g,
   g_internal_only g, g_created_at g).

Record goal_rel (g g' : goal_row) : Prop := {
  grel_static : goal_static g' = goal_static g;
  grel_revision : (g_revision g ≤ g_revision g')%Z;
  grel_status : path goal_edge (g_status g) (g_status g')
}.

#[export] Instance goal_rel_preorder : PreOrder goal_rel.
Proof.
  split.
  - intros g. split; [done|lia|reflexivity].
  - intros a b c [H1 H2 H3] [H4 H5 H6]. split; [congruence|lia|by etrans].
Qed.

(** The primary key of [harness_goals]. *)
Definition goal_ids_unique (s : Db) : Prop := NoDup (g_id <$> db_goals s).

Definition goals_le (s s' : Db) : Prop :=
  goal_ids_unique s → goal_ids_unique s' ∧ tbl_le goal_rel (db_goals s) (db_goals s').

#[export] Instance goals_le_preorder : PreOrder goals_le.
Proof.
  split.
  - intros s H. split; [done|reflexivity].
  - intros a b c Hab Hbc Ha. destruct (Hab Ha) as [Hb Hle].
    destruct (Hbc Hb) as [Hc Hle']. split; [done|by etrans].
Qed.

Lemma goals_le_same s s' : db_goals s' = db_goals s → goals_le s s'.
Proof. intros H Hu. unfold goal_ids_unique in *. rewrite H. split; [done|reflexivity]. Qed.

Lemma goal_rel_id g g' : goal_rel g g' → g_id g' = g_id g.
Proof. intros [H _ _]. unfold goal_static in H. congruence. Qed.

Lemma update_where_ids {Row A} (id : Row → A) p f (l : list Row) :
  (∀ r, r ∈ l → p r = true → id (f r) = id r) → id <$> update_where p f l = id <$> l.
Proof.
  induction l as [|r l IH]; intros H; cbn; [done|]. f_equal.
  - destruct (p r) eqn:E; [|done]. apply H; [left|done].
  - apply IH. intros x Hx. apply H. by right.
Qed.

(** An update that moves the rows it selects along the state machine. *)
Lemma goals_le_update p f s s' :
  (∀ g, g ∈ db_goals s → p g = true → goal_rel g (f g)) →
  db_goals s' = update_where p f (db_goals s) → goals_le s s'.
Proof.
  intros H E Hu. unfold goal_ids_unique in *. rewrite E. split.
  - rewrite update_where_ids; [done|]. intros g Hg Hp. by apply goal_rel_id, H.
  - clear E Hu. exists (update_where p f (db_goals s)), []. rewrite app_nil_r. split; [done|].
    induction (db_goals s) as [|g l IH]; cbn; constructor.
    + destruct (p g) eqn:E; [apply H; [left|done]|reflexivity].
    + apply IH. intros x Hx. apply H. by right.
Qed.

Definition goal_moves (l : list GoalStatus) (st : GoalStatus) : bool :=
  forallb (λ x, bool_decide (x = st) || goal_edge x st) l.

Lemma goal_step l g g' :
  goal_in l g = true → goal_moves l (g_status g') = true →
  goal_static g' = goal_static g → (g_revision g ≤ g_revision g')%Z → goal_rel g g'.
Proof.
  unfold goal_in, goal_moves. rewrite bool_decide_eq_true, forallb_forall. intros Hl Hm Hs Hr.
  split; [done|done|]. apply list_elem_of_In, Hm, orb_true_iff in Hl as [H|H].
  - apply bool_decide_eq_true in H as ->. reflexivity.
  - by apply path_edge.
Qed.

(** With unique ids, the row the query found is the row the update selects. *)
Lemma find_goal_unique s goal_id g x :
  goal_ids_unique s → List.find (is_goal goal_id) (db_goals s) = Some g →
  x ∈ db_goals s → is_goal goal_id x = true → x = g.
Proof.
  intros Hu Hf Hx Hp. apply List.find_some in Hf as [Hg Hg']. apply list_elem_of_In in Hg.
  unfold is_goal in *. apply String.eqb_eq in Hp, Hg'.
  unfold goal_ids_unique in Hu.
  apply list_elem_of_lookup in Hx as [i Hi]. apply list_elem_of_lookup in Hg as [j Hj].
  assert (i = j) as ->.
  { eapply NoDup_lookup; [exact Hu|rewrite list_lookup_fmap, Hi; reflexivity|].
    rewrite list_lookup_fmap, Hj. cbn. congruence. }
  congruence.
Qed.

(** ** Statements *)

Lemma goals_update p f :
  (∀ g, p g = true → goal_rel g (f g)) → stable goals_le (sql_update harness_goals p f).
Proof.
  intros H. apply stable_sql_update. intros s. eapply goals_le_update; [|reflexivity]. auto.
Qed.

Lemma goals_insert r : stable goals_le (sql_insert harness_goals (goal_clash r) r).
Proof.
  apply stable_sql_insert; [typeclasses eauto|]. intros s Hc Hu. cbn in *. split.
  - unfold goal_ids_unique in *. cbn. rewrite fmap_app. apply NoDup_app. split_and!; [done| |].
    + intros i Hi Hi'. apply list_elem_of_singleton in Hi' as ->.
      apply list_elem_of_fmap in Hi as (g & Hid & Hg).
      apply list_elem_of_In in Hg. rewrite <- not_true_iff_false in Hc. apply Hc.
      apply existsb_exists. exists g. split; [done|]. unfold goal_clash.
      by rewrite Hid, String.eqb_refl.
    + apply NoDup_singleton.
  - apply (tbl_le_insert goal_rel).
Qed.

End goal_life.

#[export] Hint Resolve goals_insert : stab.
(** A statement on another table. *)
#[export] Hint Extern 3 (stable goals_le _) =>
  frame_sql; apply goals_le_same; reflexivity : stab.

Ltac goal_row_step :=
  let g := fresh "g" in let H := fresh "H" in
  intros g H; cbv beta in H; row_split H; row_case;
  eapply goal_step; [eassumption|reflexivity|reflexivity|cbn; lia].
#[export] Hint Extern 1 (stable goals_le (sql_update harness_goals _ _)) =>
  apply goals_update; goal_row_step : stab.

Section goal_history.
  Context `{ENV : LoopEnv}.

Lemma goals_refresh goal_id : stable goals_le (refresh_goal_status_tx goal_id).
Proof.
  unfold refresh_goal_status_tx. stable_step; [stable_step|].
  destruct (next_goal_status _) as [st|] eqn:E; [|stable_go].
  stable_go. apply goals_update. intros g H. apply andb_true_iff in H as [_ H].
  assert (st = Verifying ∨ st = Failed ∨ st = Active) as Hst.
  { unfold next_goal_status in E. repeat case_match; simplify_eq; auto. }
  eapply goal_step; [exact H| |reflexivity|].
  - destruct Hst as [-> | [-> | ->]]; reflexivity.
  - cbn. destruct (decide _); lia.
Qed.

(** Reading a goal, checking its status, then updating it by id. *)
Lemma checked_update s s' goal_id g l st now :
  List.find (is_goal goal_id) (db_goals s) = Some g → goal_in l g = true →
  goal_moves l st = true →
  db_goals s' = update_where (is_goal goal_id) (set_goal_status st now) (db_goals s) →
  goals_le s s'.
Proof.
  intros Hf Hin Hm E Hu. eapply goals_le_update; [|exact E|done].
  intros x Hx Hp. rewrite (find_goal_unique _ _ _ _ Hu Hf Hx Hp).
  eapply goal_step; [exact Hin|exact Hm|reflexivity|cbn; lia].
Qed.

(** The operations of this shape: run them symbolically, then [checked_update]. *)
Ltac checked_go :=
  apply stable_of_wp; intros ?; open_op; cbv beta iota zeta; wp_go;
  first [apply goals_le_same; reflexivity
        | eapply checked_update; [eassumption|eassumption| |reflexivity]; reflexivity].

Lemma goals_cancel goal_id reason actor : stable goals_le (cancel_goal goal_id reason actor).
Proof. checked_go. Qed.

Lemma goals_reject goal_id reason actor : stable goals_le (reject_goal goal_id reason actor).
Proof. checked_go. Qed.

Lemma goals_replan goal_id reason actor :
  stable goals_le (mark_goal_for_replan goal_id reason actor).
Proof. checked_go. Qed.

Lemma goals_pause goal_id paused reason actor :
  stable goals_le (set_goal_paused goal_id paused reason actor).
Proof. destruct paused, reason; checked_go. Qed.

Abbreviation expirable := [Approved; Active; Blocked; Verifying; Failed].

(** One round of the expiry loop: [id] names expirable goals only. *)
Lemma goals_expire_one s s' id now :
  (∀ g, g ∈ db_goals s → g_id g = id → goal_in expirable g = true) →
  db_goals s' = update_where (is_goal id) (set_goal_status Failed now) (db_goals s) →
  goals_le s s'.
Proof.
  intros H E. eapply goals_le_update; [|exact E]. intros g Hg Hid.
  apply String.eqb_eq in Hid.
  eapply goal_step; [by apply H|reflexivity|reflexivity|cbn; lia].
Qed.

Lemma expire_round_keeps (ids : list string) id now l :
  (∀ g, g ∈ l → g_id g ∈ ids → goal_in expirable g = true) →
  ∀ g, g ∈ update_where (is_goal id) (set_goal_status Failed now) l → g_id g ∈ ids →
       goal_in expirable g = true.
Proof.
  intros H g Hg Hid. apply list_elem_of_fmap in Hg as (x & -> & Hx).
  destruct (is_goal id x); [reflexivity|by apply H].
Qed.

(** The ids the query selected name expirable goals. *)
Lemma selected_expirable s p limit g :
  goal_ids_unique s → g ∈ db_goals s →
  g_id g ∈ (g_id <$> take limit (List.filter (λ g,
    goal_in [Approved; Active; Blocked; Verifying] g && p g) (db_goals s))) →
  goal_in expirable g = true.
Proof.
  intros Hu Hg Hid. apply list_elem_of_fmap in Hid as (x & Hid & Hx).
  apply elem_of_take in Hx as (i & Hi & _). apply list_elem_of_lookup_2 in Hi.
  apply list_elem_of_In, List.filter_In in Hi as [Hx Hp]. apply list_elem_of_In in Hx.
  apply andb_true_iff in Hp as [Hst _].
  assert (x = g) as ->.
  { apply list_elem_of_lookup in Hx as [i' Hi]. apply list_elem_of_lookup in Hg as [j Hj].
    assert (i' = j) as ->; [|congruence].
    eapply NoDup_lookup; [exact Hu|rewrite list_lookup_fmap, Hi; reflexivity|].
    rewrite list_lookup_fmap, Hj. cbn. congruence. }
  unfold goal_in in *. rewrite bool_decide_eq_true in *. set_solver.
Qed.

Lemma goals_expire limit : stable goals_le (expire_overdue_goals limit).
Proof.
  apply stable_of_wp. intros s. unfold goals_le. apply wp_imp. intros Hu.
  unfold expire_overdue_goals. do 4 (wp_step; cbv beta iota). wp_step; cbv beta iota zeta.
  wp_step. wp_step. cbv beta iota zeta.
  match goal with |- context [foreach ?l _] => set (ids := l) end.
  wp_step. apply wp_foreach with (I := λ s', goals_le s s' ∧
    ∀ g, g ∈ db_goals s' → g_id g ∈ ids → goal_in expirable g = true).
  - split; [reflexivity|]. intros g Hg Hid. eapply selected_expirable; [exact Hu|exact Hg|].
    subst ids. cbn in Hid. erewrite List.filter_ext in Hid; [exact Hid|].
    intros x; cbn. by rewrite <- andb_assoc.
  - intros id s' Hid [Hle Hex]. unfold set_goal_status_tx, insert_event. wp_go.
    split.
    + etrans; [exact Hle|]. eapply goals_expire_one; [|reflexivity].
      intros g Hg <-. by apply Hex.
    + cbn. intros g. by apply expire_round_keeps.
  - intros s' [Hle _]. wp_go. by apply Hle.
Qed.

Lemma goals_recover_expired now e : stable goals_le (recover_expired_tx now e).
Proof. unfold recover_expired_tx. stable_go. Qed.

Lemma goals_plan goal_id request actor : stable goals_le (plan_goal goal_id request actor).
Proof.
  open_op. cbv zeta. stable_go. apply goals_update. intros g Hg. row_split Hg.
  apply bool_decide_eq_true in Hg1.
  eapply (goal_step [Proposed; Replan]); [|reflexivity|reflexivity|cbn; lia].
  unfold goal_in in *. by rewrite Hg1.
Qed.

#[local] Hint Resolve goals_recover_expired goals_refresh : stab.

Lemma run_goals a : stable goals_le (run a).
Proof.
  atom_cases a;
    lazymatch goal with
    | |- stable _ (cancel_goal _ _ _) => apply goals_cancel
    | |- stable _ (reject_goal _ _ _) => apply goals_reject
    | |- stable _ (mark_goal_for_replan _ _ _) => apply goals_replan
    | |- stable _ (set_goal_paused _ _ _ _) => apply goals_pause
    | |- stable _ (expire_overdue_goals _) => apply goals_expire
    | |- stable _ (plan_goal _ _ _) => apply goals_plan
    | _ => open_op; cbv zeta; stable_go
    end.
Qed.

Lemma reachable_goal_ids s : reachable s → goal_ids_unique s.
Proof.
  intros H. apply (steps_preserve goals_le run_goals empty_db s H). constructor.
Qed.

End goal_history.
