(* ===== verification/Leases.v ===== *)
(** * Claims, leases and fencing

    The functional specification of one round of [claim_ready_work_item]
    (src/harness/loop_engine/store.rs): either the store is unchanged, or exactly
    one ready item has been leased and one attempt recorded.  Then the invariants behind
    the claim check and the exclusivity of leases, for which it stands instead of the code. *)

From S2P Require Import Prelude Text External Domain Tables Signals Artifacts StoreBase StoreGoals.
From S2P Require Import StoreWork StoreExtend Replay Order History.

Section claim.
  Context `{ENV : LoopEnv}.

Lemma find_update id p f l w :
  (∀ x, wi_id (f x) = wi_id x) → List.find (is_work id) l = Some w →
  List.find (is_work id) (update_where p f l) = Some (if p w then f w else w).
Proof.
  intros Hf. induction l as [|x l IH]; cbn; [done|].
  assert (E : is_work id (if p x then f x else x) = is_work id x)
    by (unfold is_work; destruct (p x); [by rewrite Hf|done]).
  rewrite E. destruct (is_work id x); [by intros [= ->]|exact IH].
Qed.

(** The columns a claim sets on the item. *)
Definition leased (token : string) (until now : Z) (w : work_row) : work_row :=
  set_fencing (wi_fencing_token w + 1)%Z
    (set_lease (Some token) (Some until) (set_work_status WRunning now w)).

(** The store after a successful claim of item [w] at time [now]. *)
Record claim_effect (goal_id : string) (step : option string) (worker_id : string)
    (lease_secs : N) (s s' : Db) (c : claimed) (now t : Z) (w : work_row) : Prop := {
  ce_goal : ∃ g, List.find (is_goal goal_id) (db_goals s) = Some g ∧
              goal_in [Approved; Active] g = true ∧
              (step = None → g_internal_only g = false);
  ce_candidate : claim_candidate s goal_id step now = Some w;
  ce_item : decode_work_item w = Ok (cl_item c);
  ce_lease : cl_lease_until c = (now + Z.of_N lease_secs)%Z;
  ce_work : db_work s' = update_where (λ x, is_work (wi_id w) x && work_in [WReady] x)
              (leased (at_lease_token (cl_attempt c)) (cl_lease_until c) t) (db_work s);
  ce_row : ∃ x, List.find (is_work (wi_id w)) (db_work s') = Some x ∧
             at_fencing_token (cl_attempt c) = wi_fencing_token x;
  ce_attempt : at_goal_id (cl_attempt c) = goal_id ∧ at_work_item_id (cl_attempt c) = wi_id w ∧
             at_status (cl_attempt c) = ARunning ∧ at_worker_id (cl_attempt c) = worker_id ∧
             at_started_at (cl_attempt c) = now;
  ce_fresh : existsb (attempt_clash (cl_attempt c)) (db_attempts s) = false;
  ce_number : at_number (cl_attempt c) =
      (count_where (λ a, String.eqb (at_work_item_id a) (wi_id w)) (db_attempts s) + 1)%Z;
  ce_attempts : db_attempts s' = db_attempts s ++ [cl_attempt c];
  ce_deps : db_deps s' = db_deps s;
  ce_checkpoints : db_checkpoints s' = db_checkpoints s;
  ce_budgets : db_budgets s' = db_budgets s;
  ce_workflows : db_workflows s' = db_workflows s;
  ce_approvals : db_approvals s' = db_approvals s;
  ce_signals : db_signals s' = db_signals s ∧ db_signal_events s' = db_signal_events s;
  ce_goals : ∃ u, db_goals s' = update_where (λ g, is_goal goal_id g && goal_in [Approved] g)
               (set_goal_status Active u) (db_goals s)
}.

(** What follows the commit of the round. *)
Definition claim_outcome goal_id step worker_id lease_secs (s : Db)
    (r : res (option (option claimed))) (s' : Db) : Prop :=
  match r with
  | Ok (Some (Some c)) =>
      ∃ now t w, claim_effect goal_id step worker_id lease_secs s s' c now t w
  | _ => s' = s
  end.

(** What the two claim queries select. *)
Lemma claim_candidate_spec s goal_id step now w :
  claim_candidate s goal_id step now = Some w →
  w ∈ db_work s ∧ claimable s goal_id now w = true ∧
  (∀ st, step = Some st → wi_step_id w = st).
Proof.
  unfold claim_candidate. destruct step as [st|].
  - intros H. apply List.find_some in H as [Hin H]. apply andb_true_iff in H as [Hc Hs].
    split_and!; [by apply list_elem_of_In|done|]. intros ? [= <-]. by apply String.eqb_eq.
  - destruct (order_by work_order _) as [|x l] eqn:E; [done|]. intros [= ->].
    assert (Hin : w ∈ List.filter (claimable s goal_id now) (db_work s)).
    { rewrite <- (order_by_perm work_order), E. left. }
    apply list_elem_of_In, List.filter_In in Hin as [Hin Hc].
    split_and!; [by apply list_elem_of_In|done|done].
Qed.

Lemma claimable_spec s goal_id now w : claimable s goal_id now w = true →
  wi_goal_id w = goal_id ∧ wi_status w = WReady ∧
  (∀ t, wi_next_attempt_at w = Some t → (t ≤ now)%Z) ∧
  (attempt_count s (wi_id w) < wi_max_attempts w)%Z.
Proof.
  unfold claimable, of_goal, work_in. rewrite !andb_true_iff, String.eqb_eq, bool_decide_eq_true.
  intros [[[Hg Hs] Hn] Hc]. split_and!; [done|by apply list_elem_of_singleton| |lia].
  intros t E. rewrite E in Hn. lia.
Qed.

Lemma claim_round_spec goal_id step worker_id lease_secs actor s :
  wp (claim_round goal_id step worker_id lease_secs actor)
     (claim_outcome goal_id step worker_id lease_secs s) s.
Proof.
  unfold claim_round, goal_row_tx, insert_event. cbv zeta.
  apply wp_bind, wp_unix_now. intros now _. cbv beta iota.
  wp_go; try reflexivity; eexists now, _, _.
  all: split; cbn; try reflexivity; try done; eauto.
  all: eexists; split_and!; [eassumption|eassumption|done || by intros; apply negb_true_iff].
Qed.
(** The head of an [ORDER BY] has the least key. *)
Lemma order_by_head {Row} (le : Row → Row → bool) (key : Row → Z) l w :
  (∀ a b, le a b = true → (key a ≤ key b)%Z) → (∀ a b, le a b = false → (key b ≤ key a)%Z) →
  head (order_by le l) = Some w → ∀ x, x ∈ l → (key w ≤ key x)%Z.
Proof.
  intros H1 H2. revert w. induction l as [|y l IH]; intros w; cbn; [done|].
  intros Hw x Hx. destruct (order_by le l) as [|h t] eqn:E; cbn in Hw.
  - injection Hw as <-. apply elem_of_cons in Hx as [->|Hx]; [lia|].
    rewrite <- (order_by_perm le), E in Hx. inversion Hx.
  - assert (Hh : ∀ z, z ∈ l → (key h ≤ key z)%Z) by (by apply IH).
    destruct (le y h) eqn:Ele; cbn in Hw; injection Hw as <-.
    + apply H1 in Ele. apply elem_of_cons in Hx as [->|Hx]; [lia|]. specialize (Hh x Hx). lia.
    + apply H2 in Ele. apply elem_of_cons in Hx as [->|Hx]; [lia|]. by apply Hh.
Qed.

Lemma claim_first s goal_id now w :
  claim_candidate s goal_id None now = Some w →
  ∀ x, x ∈ db_work s → claimable s goal_id now x = true → (wi_ordinal w ≤ wi_ordinal x)%Z.
Proof.
  intros Hw x Hx Hc.
  apply (order_by_head work_order wi_ordinal
    (List.filter (claimable s goal_id now) (db_work s)) w); [| |exact Hw|].
  - intros a b. unfold work_order. rewrite orb_true_iff, andb_true_iff. lia.
  - intros a b. unfold work_order. rewrite orb_false_iff. lia.
  - apply list_elem_of_In, List.filter_In. by rewrite <- list_elem_of_In.
Qed.

(** C2: What a claim hands out. Unless a round of the claim loop hands out nothing
    and changes nothing: the goal is approved or active, and not internal-only for a
    generic worker; the item was ready, due, of that goal, with attempts left, the
    requested step or the claimable item of least ordinal; it is now running under
    the new lease with a fencing token one higher; and one running attempt carrying
    that lease and token has been recorded. *)
Theorem claim_hands_out_ready_work goal_id step worker_id lease_secs actor s :
  wp (claim_round goal_id step worker_id lease_secs actor)
     (λ r s', match r with
      | Ok (Some (Some c)) => ∃ now w g,
          List.find (is_goal goal_id) (db_goals s) = Some g ∧
          goal_in [Approved; Active] g = true ∧ (step = None → g_internal_only g = false) ∧
          w ∈ db_work s ∧ wi_goal_id w = goal_id ∧ wi_status w = WReady ∧
          (∀ t, wi_next_attempt_at w = Some t → (t ≤ now)%Z) ∧
          (attempt_count s (wi_id w) < wi_max_attempts w)%Z ∧
          match step with
          | Some st => wi_step_id w = st
          | None => ∀ x, x ∈ db_work s → claimable s goal_id now x = true →
                         (wi_ordinal w ≤ wi_ordinal x)%Z
          end ∧
          (∃ w', w' ∈ db_work s' ∧ wi_id w' = wi_id w ∧ wi_status w' = WRunning ∧
             wi_lease_token w' = Some (at_lease_token (cl_attempt c)) ∧
             wi_lease_until w' = Some (now + Z.of_N lease_secs)%Z ∧
             wi_fencing_token w' = (wi_fencing_token w + 1)%Z) ∧
          db_attempts s' = db_attempts s ++ [cl_attempt c] ∧
          at_work_item_id (cl_attempt c) = wi_id w ∧ at_status (cl_attempt c) = ARunning ∧
          at_worker_id (cl_attempt c) = worker_id
      | _ => s' = s
      end) s.
Proof.
  eapply wp_mono; [apply claim_round_spec|]. cbv beta.
  intros [[[c|]|]|e] s' H; [|exact H..]. destruct H as (now & t & w & He).
  destruct (ce_goal _ _ _ _ _ _ _ _ _ _ He) as (g & Hg & Hst & Hint).
  pose proof (ce_candidate _ _ _ _ _ _ _ _ _ _ He) as Hcand.
  destruct (claim_candidate_spec _ _ _ _ _ Hcand) as (Hw & Hcl & Hstep).
  destruct (claimable_spec _ _ _ _ Hcl) as (Hgid & Hready & Hdue & Hcount).
  destruct (ce_attempt _ _ _ _ _ _ _ _ _ _ He) as (_ & Ha & Hast & Hwk & _).
  exists now, w, g. split_and!; try done; [| |by apply He].
  - destruct step as [st|]; [by apply Hstep|by apply claim_first].
  - eexists. split; [rewrite (ce_work _ _ _ _ _ _ _ _ _ _ He); apply elem_update_where;
      exists w; split; [done|reflexivity]|].
    unfold is_work, work_in. rewrite String.eqb_refl, Hready. cbn.
    by rewrite (ce_lease _ _ _ _ _ _ _ _ _ _ He).
Qed.
End claim.

(** * Leases and fencing

    The invariants behind the claim check of store.rs: work ids are unique, every
    attempt belongs to a work item, carries a fencing token no higher than the
    item's and different from those of the item's other attempts, and the attempts
    that count against the retry budget do not exceed it. *)

Section fencing.
  Context `{ENV : LoopEnv}.

Record work_inv (s : Db) : Prop := {
  inv_work_ids : NoDup (wi_id <$> db_work s);
  inv_attempt_ids : NoDup (at_id <$> db_attempts s);
  inv_attempt_item : ∀ a, a ∈ db_attempts s → ∃ w, w ∈ db_work s ∧ wi_id w = at_work_item_id a;
  inv_fencing : ∀ a w, a ∈ db_attempts s → w ∈ db_work s → at_work_item_id a = wi_id w →
                       (at_fencing_token a ≤ wi_fencing_token w)%Z;
  inv_tokens : ∀ i j a b, db_attempts s !! i = Some a → db_attempts s !! j = Some b →
                 at_work_item_id a = at_work_item_id b →
                 at_fencing_token a = at_fencing_token b → i = j;
  inv_budget : ∀ w, w ∈ db_work s → (attempt_count s (wi_id w) ≤ wi_max_attempts w)%Z
}.

(** The invariant reads two tables. *)
Lemma work_inv_ext s s' :
  db_work s' = db_work s → db_attempts s' = db_attempts s → work_inv s → work_inv s'.
Proof.
  intros Hw Ha [H1 H2 H3 H4 H5 H6]. split; try rewrite Hw; try rewrite Ha; [done..|].
  intros w Hin. specialize (H6 w Hin). unfold attempt_count in *. by rewrite Ha.
Qed.

Lemma attempt_count_ext s s' id :
  db_attempts s' = db_attempts s → attempt_count s' id = attempt_count s id.
Proof. unfold attempt_count. by intros ->. Qed.

(** ** Updates *)

Lemma work_rel_fields w w' : work_rel w w' →
  wi_id w' = wi_id w ∧ wi_max_attempts w' = wi_max_attempts w ∧
  (wi_fencing_token w ≤ wi_fencing_token w')%Z.
Proof. intros [H1 H2 _]. unfold work_static in H1. split_and!; congruence || done. Qed.

Lemma attempt_rel_fields a a' : attempt_rel a a' →
  at_id a' = at_id a ∧ at_work_item_id a' = at_work_item_id a ∧
  at_fencing_token a' = at_fencing_token a.
Proof. intros [H1 _]. unfold attempt_static in H1. split_and!; congruence. Qed.

Lemma inv_work_update s p f :
  (∀ w, p w = true → work_rel w (f w)) → work_inv s →
  work_inv (tset harness_work_items (update_where p f (db_work s)) s).
Proof.
  intros H [H1 H2 H3 H4 H5 H6].
  assert (Hf : ∀ w, work_rel w (if p w then f w else w)).
  { intros w. destruct (p w) eqn:E; [by apply H|reflexivity]. }
  split; cbn; [|done| | |done|].
  - replace (wi_id <$> _) with (wi_id <$> db_work s); [done|]. symmetry.
    unfold update_where. rewrite <- list_fmap_compose. apply list_fmap_ext. intros i w _. cbn.
    by apply work_rel_fields.
  - intros a Ha. destruct (H3 a Ha) as (w & Hw & Hid). exists (if p w then f w else w).
    split; [apply elem_update_where; by exists w|]. rewrite <- Hid. by apply work_rel_fields.
  - intros a w' Ha (w & Hw & ->)%elem_update_where Hid.
    destruct (work_rel_fields _ _ (Hf w)) as (Ei & _ & Ef). rewrite Ei in Hid.
    specialize (H4 a w Ha Hw Hid). lia.
  - intros w' (w & Hw & ->)%elem_update_where.
    destruct (work_rel_fields _ _ (Hf w)) as (-> & -> & _). by apply H6.
Qed.

Lemma void_path st : path attempt_edge AVoid st → st = AVoid.
Proof. apply path_sink. by intros []. Qed.

Lemma inv_attempts_update s p f :
  (∀ a, p a = true → attempt_rel a (f a)) → work_inv s →
  work_inv (tset harness_attempts (update_where p f (db_attempts s)) s).
Proof.
  intros H [H1 H2 H3 H4 H5 H6].
  assert (Hf : ∀ a, attempt_rel a (if p a then f a else a)).
  { intros a. destruct (p a) eqn:E; [by apply H|reflexivity]. }
  split; cbn; [done| | | | |].
  - replace (at_id <$> _) with (at_id <$> db_attempts s); [done|]. symmetry.
    unfold update_where. rewrite <- list_fmap_compose. apply list_fmap_ext. intros i w _. cbn.
    by apply attempt_rel_fields.
  - intros a' (a & Ha & ->)%elem_update_where.
    destruct (attempt_rel_fields _ _ (Hf a)) as (_ & -> & _). by apply H3.
  - intros a' w (a & Ha & ->)%elem_update_where Hw.
    destruct (attempt_rel_fields _ _ (Hf a)) as (_ & -> & ->). by apply H4.
  - intros i j a' b' (a & Ha & ->)%lookup_update_where (b & Hb & ->)%lookup_update_where.
    destruct (attempt_rel_fields _ _ (Hf a)) as (_ & -> & ->).
    destruct (attempt_rel_fields _ _ (Hf b)) as (_ & -> & ->). by apply H5.
  - intros w Hw. etrans; [|by apply H6]. unfold attempt_count. cbn. apply count_where_le.
    intros a. rewrite !andb_true_iff, !negb_true_iff.
    destruct (attempt_rel_fields _ _ (Hf a)) as (_ & -> & _). intros [Hi Hs]. split; [done|].
    unfold attempt_in in *. rewrite bool_decide_eq_false in *. intros Hv. apply Hs.
    apply list_elem_of_singleton in Hv. destruct (Hf a) as [_ Hp]. rewrite Hv in Hp.
    apply void_path in Hp as ->. by left.
Qed.

(** A new item: a fresh id, no fencing token handed out yet. *)
Lemma inv_work_insert s r :
  existsb (work_clash r) (db_work s) = false → (0 ≤ wi_max_attempts r)%Z → work_inv s →
  work_inv (tset harness_work_items (db_work s ++ [r]) s).
Proof.
  intros Hc Hm [H1 H2 H3 H4 H5 H6].
  assert (Hn : ∀ w, w ∈ db_work s → wi_id w ≠ wi_id r).
  { intros w Hw E. apply list_elem_of_In in Hw. rewrite <- not_true_iff_false in Hc. apply Hc.
    apply existsb_exists. exists w. split; [done|]. unfold work_clash.
    by rewrite E, String.eqb_refl. }
  assert (Ha : ∀ a, a ∈ db_attempts s → at_work_item_id a ≠ wi_id r).
  { intros a Ha E. destruct (H3 a Ha) as (w & Hw & Hid). apply (Hn w Hw). congruence. }
  split; cbn; [|done| | |done|].
  - rewrite fmap_app. apply NoDup_app. split_and!; [done| |apply NoDup_singleton].
    intros i (w & -> & Hw)%list_elem_of_fmap Hi. apply list_elem_of_singleton in Hi.
    by apply (Hn w).
  - intros a Hin. destruct (H3 a Hin) as (w & Hw & Hid). exists w. split; [|done].
    apply elem_of_app. by left.
  - intros a w Hin [Hw|Hw]%elem_of_app Hid; [by apply H4|].
    apply list_elem_of_singleton in Hw as ->. by apply Ha in Hin.
  - intros w [Hw|Hw]%elem_of_app; [by apply H6|]. apply list_elem_of_singleton in Hw as ->.
    unfold attempt_count. cbn. rewrite count_where_none; [done|].
    intros a Hin. apply Ha in Hin.
    apply String.eqb_neq in Hin. by rewrite Hin.
Qed.

(** ** Every transaction keeps the invariant *)

Lemma keeps_work_update p f :
  (∀ w, p w = true → work_rel w (f w)) →
  stable (keeps work_inv) (sql_update harness_work_items p f).
Proof. intros H. apply stable_sql_update. intros s Hs. by apply inv_work_update. Qed.

Lemma keeps_attempts_update p f :
  (∀ a, p a = true → attempt_rel a (f a)) →
  stable (keeps work_inv) (sql_update harness_attempts p f).
Proof. intros H. apply stable_sql_update. intros s Hs. by apply inv_attempts_update. Qed.

Lemma keeps_new_work goal_id wf : inserts_new_work (keeps work_inv) goal_id wf.
Proof.
  intros id step st ordinal now r. apply stable_sql_insert; [typeclasses eauto|].
  intros s Hc Hs. apply inv_work_insert; [done|cbn; lia|done].
Qed.

End fencing.

#[export] Hint Resolve keeps_new_work : stab.
#[export] Hint Extern 1 (stable (keeps work_inv) (sql_update harness_work_items _ _)) =>
  apply keeps_work_update; row_step : stab.
#[export] Hint Extern 1 (stable (keeps work_inv) (sql_update harness_attempts _ _)) =>
  apply keeps_attempts_update; row_step : stab.
#[export] Hint Extern 3 (stable (keeps work_inv) _) =>
  frame_sql; intros ?; eapply work_inv_ext; [| |eassumption]; reflexivity : stab.

Section claims.
  Context `{ENV : LoopEnv}.

(** A new attempt with a token above those handed out so far. *)
Lemma inv_attempt_insert s a :
  existsb (attempt_clash a) (db_attempts s) = false → at_status a = ARunning →
  (∃ w, w ∈ db_work s ∧ wi_id w = at_work_item_id a) →
  (∀ b, b ∈ db_attempts s → at_work_item_id b = at_work_item_id a →
        (at_fencing_token b < at_fencing_token a)%Z) →
  (∀ w, w ∈ db_work s → wi_id w = at_work_item_id a →
        (at_fencing_token a ≤ wi_fencing_token w ∧
         attempt_count s (wi_id w) < wi_max_attempts w)%Z) →
  work_inv s → work_inv (tset harness_attempts (db_attempts s ++ [a]) s).
Proof.
  intros Hc Hst Hex Hlt Hle [H1 H2 H3 H4 H5 H6]. split; cbn; [done| | | | |].
  - rewrite fmap_app. apply NoDup_app. split_and!; [done| |apply NoDup_singleton].
    intros i (b & -> & Hb)%list_elem_of_fmap Hi. apply list_elem_of_singleton in Hi.
    apply list_elem_of_In in Hb. rewrite <- not_true_iff_false in Hc. apply Hc.
    apply existsb_exists. exists b. split; [done|]. unfold attempt_clash.
    by rewrite Hi, String.eqb_refl.
  - intros b [Hb|Hb]%elem_of_app; [by apply H3|]. by apply list_elem_of_singleton in Hb as ->.
  - intros b w [Hb|Hb]%elem_of_app Hw Hid; [by apply H4|].
    apply list_elem_of_singleton in Hb as ->. by apply Hle.
  - assert (Hcases : ∀ i b, (db_attempts s ++ [a]) !! i = Some b →
      (db_attempts s !! i = Some b ∧ b ∈ db_attempts s) ∨ (b = a ∧ i = length (db_attempts s))).
    { intros i b [Hi|[Hl Hi]]%lookup_app_Some; [left; eauto using list_elem_of_lookup_2|right].
      apply list_lookup_singleton_Some in Hi as [Hi ->]. split; [done|lia]. }
    intros i j b c [[Hi Hb]|[-> ->]]%Hcases [[Hj Hc']|[-> ->]]%Hcases Hid Hf; [by eapply H5| | |done].
    + specialize (Hlt b Hb Hid). lia.
    + specialize (Hlt c Hc' (eq_sym Hid)). lia.
  - intros w Hw. unfold attempt_count. cbn. rewrite count_where_app.
    change (count_where _ (db_attempts s)) with (attempt_count s (wi_id w)).
    assert (Hv : attempt_in [AVoid] a = false) by (unfold attempt_in; by rewrite Hst).
    unfold count_where. cbn [List.filter]. rewrite Hv.
    destruct (String.eqb_spec (at_work_item_id a) (wi_id w)) as [E|E]; cbn.
    + destruct (Hle w Hw (eq_sym E)). lia.
    + specialize (H6 w Hw). lia.
Qed.

Lemma work_unique s w w' :
  work_inv s → w ∈ db_work s → w' ∈ db_work s → wi_id w = wi_id w' → w = w'.
Proof.
  intros Hinv Hw Hw' E. apply list_elem_of_lookup in Hw as [i Hi].
  apply list_elem_of_lookup in Hw' as [j Hj].
  assert (i = j) as ->; [|congruence].
  eapply NoDup_lookup; [exact (inv_work_ids _ Hinv)|rewrite list_lookup_fmap, Hi; reflexivity|].
  rewrite list_lookup_fmap, Hj. cbn. congruence.
Qed.

Lemma leased_rel token until now w : work_in [WReady] w = true → work_rel w (leased token until now w).
Proof. intros H. eapply work_step; [exact H|reflexivity|reflexivity|cbn; lia]. Qed.

Lemma keeps_claim goal_id step worker_id lease_secs actor :
  stable (keeps work_inv) (claim_round goal_id step worker_id lease_secs actor).
Proof.
  apply stable_of_wp. intros s. eapply wp_mono; [apply claim_round_spec|].
  intros [[[c|]|]|e] s'; cbn; [|by intros ->..]. intros (now & t & w & He) Hinv.
  pose proof (ce_work _ _ _ _ _ _ _ _ _ _ He) as Ework.
  pose proof (ce_candidate _ _ _ _ _ _ _ _ _ _ He) as Hcand.
  destruct (ce_row _ _ _ _ _ _ _ _ _ _ He) as (x & Hx & Hfx).
  destruct (ce_attempt _ _ _ _ _ _ _ _ _ _ He) as (_ & Ha & Hst & _ & _).
  apply claim_candidate_spec in Hcand as (Hw & Hcl & _).
  apply claimable_spec in Hcl as (_ & Hready & _ & Hcount).
  set (p := λ x, is_work (wi_id w) x && work_in [WReady] x) in *.
  set (f := leased _ _ _) in *.
  set (s1 := tset harness_work_items (update_where p f (db_work s)) s).
  assert (Hinv1 : work_inv s1).
  { apply inv_work_update; [|done]. intros y Hy. apply andb_true_iff in Hy as [_ Hy].
    by apply leased_rel. }
  assert (Hpw : p w = true).
  { unfold p, is_work, work_in. by rewrite String.eqb_refl, Hready. }
  assert (Hfw : f w ∈ db_work s1) by (apply elem_update_where; exists w; by rewrite Hpw).
  rewrite Ework in Hx. apply List.find_some in Hx as [Hxin Hxid].
  apply list_elem_of_In in Hxin. apply String.eqb_eq in Hxid.
  assert (x = f w) as -> by (eapply (work_unique s1); done).
  eapply (work_inv_ext (tset harness_attempts (db_attempts s1 ++ [cl_attempt c]) s1));
    [exact Ework|by apply He|].
  apply inv_attempt_insert; [by apply He|done|by exists (f w)| | |done].
  - intros b Hb Hid. rewrite Hfx. cbn. rewrite Ha in Hid.
    pose proof (inv_fencing _ Hinv b w Hb Hw Hid). lia.
  - intros y Hy Hid. rewrite Ha in Hid.
    assert (y = f w) as -> by (eapply (work_unique s1); done).
    rewrite Hfx. split; [done|]. exact Hcount.
Qed.

Lemma keeps_recover_expired now e : stable (keeps work_inv) (recover_expired_tx now e).
Proof.
  unfold recover_expired_tx, expired_verdict.
  destruct (expired_parked e), (ex_max_attempts e <=? ex_attempt_count e)%Z;
    cbv zeta iota; stable_go.
Qed.

Lemma keeps_refresh goal_id : stable (keeps work_inv) (refresh_goal_status_tx goal_id).
Proof. unfold refresh_goal_status_tx. stable_go. Qed.

#[local] Hint Resolve keeps_recover_expired keeps_refresh : stab.

Lemma run_work_inv a : stable (keeps work_inv) (run a).
Proof.
  atom_cases a;
    lazymatch goal with
    | |- stable _ (claim_round _ _ _ _ _) => apply keeps_claim
    | _ => open_op; cbv zeta; stable_go
    end.
Qed.

Lemma work_inv_empty : work_inv empty_db.
Proof.
  split; cbn; [constructor|constructor|..].
  - intros a Ha. inversion Ha.
  - intros a w Ha. inversion Ha.
  - done.
  - intros w Hw. inversion Hw.
Qed.

Lemma reachable_work_inv s : reachable s → work_inv s.
Proof. apply reachable_invariant; [apply work_inv_empty|apply run_work_inv]. Qed.

End claims.

(** * Leases are exclusive

    Consequences of the fencing invariant: at most one claim of a work item is
    current, a claim that has been overtaken is refused for ever and has no effect,
    and the retry budget bounds the attempts. *)

Section leases.
  Context `{ENV : LoopEnv}.

(** The claim passes [ensure_claim_current] at time [now]. *)
Definition claim_current (s : Db) (claim : WorkClaim) (now : Z) : Prop :=
  ∃ f, try_i64 (atr_fencing_token (wc_attempt claim)) = Some f ∧
       claim_count s claim f now = 1%Z.

Lemma try_i64_value n f : try_i64 n = Some f → f = Z.of_N n.
Proof. unfold try_i64. destruct (_ <=? _)%Z; by intros [= <-]. Qed.

(** The rows behind a current claim. *)
Lemma claim_rows s claim f now : claim_count s claim f now ≠ 0%Z →
  ∃ w a, w ∈ db_work s ∧ a ∈ db_attempts s ∧ at_work_item_id a = wi_id w ∧
    wi_id w = wir_id (wc_item claim) ∧ wi_status w = WRunning ∧
    wi_fencing_token w = f ∧ at_fencing_token a = f ∧
    at_id a = atr_id (wc_attempt claim) ∧
    at_lease_token a = atr_lease_token (wc_attempt claim) ∧
    (∃ until, wi_lease_until w = Some until ∧ now ≤ until)%Z.
Proof.
  intros H. apply count_where_pos in H as ([w a] & Hin & Hm).
  apply list_elem_of_In, in_prod_iff in Hin as [Hw Ha].
  unfold claim_matches, work_in in Hm.
  rewrite !andb_true_iff, !String.eqb_eq, !Z.eqb_eq, !bool_decide_eq_true in Hm.
  destruct Hm as [[[[[[[[[[H1 H2] H3] H4] H5] H6] H7] H8] H9] H10] H11].
  exists w, a. split_and!; try done; try (by apply list_elem_of_In).
  - by apply list_elem_of_singleton.
  - destruct (wi_lease_until w) as [u|]; [|done]. exists u. split; [done|lia].
Qed.

(** Mutual exclusion: in any reachable store, two claims of one work item
    that both pass the claim check, at whatever times, belong to the same attempt
    and carry the same lease and fencing tokens. *)
Theorem current_claims_agree s c1 c2 t1 t2 :
  reachable s → wir_id (wc_item c1) = wir_id (wc_item c2) →
  claim_current s c1 t1 → claim_current s c2 t2 →
  atr_id (wc_attempt c1) = atr_id (wc_attempt c2) ∧
  atr_lease_token (wc_attempt c1) = atr_lease_token (wc_attempt c2) ∧
  atr_fencing_token (wc_attempt c1) = atr_fencing_token (wc_attempt c2).
Proof.
  intros Hr Hid (f1 & E1 & H1) (f2 & E2 & H2). apply reachable_work_inv in Hr.
  destruct (claim_rows s c1 f1 t1) as (w1 & a1 & Hw1 & Ha1 & Hi1 & Hc1 & _ & Hf1 & Hg1 & Hn1 & Hl1 & _);
    [lia|].
  destruct (claim_rows s c2 f2 t2) as (w2 & a2 & Hw2 & Ha2 & Hi2 & Hc2 & _ & Hf2 & Hg2 & Hn2 & Hl2 & _);
    [lia|].
  assert (w1 = w2) as -> by (eapply work_unique; [done..|congruence]).
  assert (a1 = a2) as ->.
  { apply list_elem_of_lookup in Ha1 as [i Hi], Ha2 as [j Hj].
    assert (i = j) as ->; [|congruence].
    eapply (inv_tokens _ Hr); [done|done|congruence|congruence]. }
  apply try_i64_value in E1, E2. split_and!; [congruence..|].
  apply N2Z.inj. congruence.
Qed.

(** The item has been handed out again since the claim. *)
Definition overtaken (s : Db) (claim : WorkClaim) : Prop :=
  ∃ w, w ∈ db_work s ∧ wi_id w = wir_id (wc_item claim) ∧
       (Z.of_N (atr_fencing_token (wc_attempt claim)) < wi_fencing_token w)%Z.

Lemma overtaken_steps s s' claim : steps s s' → overtaken s claim → overtaken s' claim.
Proof.
  intros Hs (w & Hw & Hid & Hf).
  assert (Hle : tbl_le work_rel (db_work s) (db_work s')).
  { apply (steps_preserve db_le run_le) in Hs as []. done. }
  destruct (tbl_le_elem _ _ _ _ Hle Hw) as (w' & Hw' & Hrel).
  apply work_rel_fields in Hrel as (Hi & _ & Hle'). exists w'. split_and!; [done|congruence|lia].
Qed.

Lemma overtaken_not_current s claim f now :
  work_inv s → overtaken s claim → try_i64 (atr_fencing_token (wc_attempt claim)) = Some f →
  claim_count s claim f now = 0%Z.
Proof.
  intros Hinv (w & Hw & Hid & Hf) E. apply try_i64_value in E as ->.
  destruct (decide (claim_count s claim (Z.of_N (atr_fencing_token (wc_attempt claim))) now = 0%Z))
    as [|Hne]; [done|].
  apply claim_rows in Hne as (w' & a & Hw' & _ & _ & Hid' & _ & Hf' & _).
  assert (w = w') as -> by (eapply work_unique; [done..|congruence]). lia.
Qed.

(** The transactions that act for a claim. *)
Definition claim_of (a : atom) : option WorkClaim :=
  match a with
  | ARenew c _ | APrepare c _ _ _ | ACommit c _ _ _ | AFinish c _ _ | AFail c _ _ _
  | ABlock c _ _ | ADefer c _ _ | AProgress c _ _ | AContinue c _ _ => Some c
  | _ => None
  end.

(** Refused: an error, and nothing stored. *)
Definition refused {A} (m : M Db A) (s : Db) : Prop :=
  wp m (λ r s', is_ok r = false ∧ s' = s) s.

Lemma refused_current s claim :
  (∀ f now, try_i64 (atr_fencing_token (wc_attempt claim)) = Some f →
            claim_count s claim f now = 0%Z) →
  refused (ensure_claim_current claim) s.
Proof.
  intros H. unfold refused, ensure_claim_current. wp_go; try done.
  exfalso. match goal with HH : (_ =? 1)%Z = true |- _ => rewrite H in HH; [done|done] end.
Qed.

Lemma refused_renew s claim lease_secs :
  work_inv s → overtaken s claim → refused (renew_claim claim lease_secs) s.
Proof.
  intros Hinv (w & Hw & Hid & Hf). unfold refused, renew_claim. cbv zeta. wp_go; try done.
  all: match goal with HH : try_i64 _ = Some _ |- _ => apply try_i64_value in HH as -> end.
  all: cbn [tget tset harness_work_items] in *.
  all: match goal with HH : (count_where ?p ?l =? 1)%Z = _ |- _ =>
         assert (Hnone : ∀ x, x ∈ l → p x = false) end.
  1, 3: intros x Hx; apply not_true_iff_false; intros Hp;
    rewrite !andb_true_iff, Z.eqb_eq in Hp; destruct Hp as [[[[Hi _] _] Hg] _];
    apply String.eqb_eq in Hi;
    assert (x = w) as -> by (eapply work_unique; [done..|congruence]); lia.
  - by rewrite (count_where_none _ _ Hnone) in *.
  - split; [done|]. rewrite (update_where_none _ _ _ Hnone). by destruct s.
Qed.

(** C1: Fencing: once a work item has been handed out again, the older claim is
    refused for ever. In every later store each transaction made on its behalf
    (renewing, preparing, committing, finishing, failing, blocking, deferring,
    recording progress, continuing) returns an error and stores nothing. *)
Theorem overtaken_claim_is_refused s s' claim a :
  reachable s → overtaken s claim → steps s s' → claim_of a = Some claim →
  refused (run a) s'.
Proof.
  intros Hr Ho Hs Hc. pose proof (overtaken_steps _ _ _ Hs Ho) as Ho'.
  assert (Hinv : work_inv s') by (apply reachable_work_inv; unfold reachable in *; by etrans).
  assert (Hcur : refused (ensure_claim_current claim) s').
  { apply refused_current. intros. by eapply overtaken_not_current. }
  assert (Hren : ∀ n, refused (renew_claim claim n) s') by (intros; by apply refused_renew).
  unfold refused in *. destruct a; try discriminate Hc; injection Hc as ->; cbn [run];
    unfold void, prepare_checkpoint, commit_checkpoint, finish_tx, fail_tx, block_work_item,
      defer_tx, record_phase_progress, continue_tx; cbv zeta; wp_go; try done.
  all: (eapply wp_mono; [apply Hren || apply Hcur|]); cbv beta;
    intros [x|e] s2 [Hok ->]; cbn in *; by try discriminate.
Qed.

(** C7: The retry budget bounds the attempts: in any reachable store an item has
    at most [max_attempts] attempts that count, however its claims interleave with
    failures, crashes and operator verdicts. *)
Theorem attempts_within_budget s w :
  reachable s → w ∈ db_work s → (attempt_count s (wi_id w) ≤ wi_max_attempts w)%Z.
Proof. intros Hr. by apply inv_budget, reachable_work_inv. Qed.

End leases.
