(* ===== verification/Deps.v ===== *)
(** * The downstream of a failure

    [fail_attempt] blocks the downstream of a failed item with a recursive CTE.
    The bounded iteration that models it computes exactly the transitive
    dependents: the fuel is enough. *)

From S2P Require Import Prelude Text External Domain Tables Signals Artifacts StoreBase StoreGoals.
From S2P Require Import StoreWork StoreExtend Replay Order History.

(** [b] waits directly for [a]. *)
Definition waits_on (deps : list dep_row) (a b : string) : Prop :=
  ∃ d, d ∈ deps ∧ dep_on d = a ∧ dep_item d = b.

Lemma str_mem_true s l : str_mem s l = true ↔ s ∈ l.
Proof.
  unfold str_mem. rewrite existsb_exists, list_elem_of_In. split.
  - intros (x & Hx & E). apply String.eqb_eq in E as ->. done.
  - intros H. exists s. split; [done|apply String.eqb_refl].
Qed.

Lemma elem_dependents deps seen frontier x :
  x ∈ dependents deps seen frontier ↔
  x ∉ seen ∧ ∃ y, y ∈ frontier ∧ waits_on deps y x.
Proof.
  unfold dependents. rewrite elem_of_remove_dups, list_elem_of_In, List.filter_In.
  rewrite negb_true_iff, <- not_true_iff_false, str_mem_true, <- list_elem_of_In, list_elem_of_fmap.
  split.
  - intros [(d & -> & Hd) Hx]. split; [done|].
    apply list_elem_of_In, List.filter_In in Hd as [Hd Hm]. apply str_mem_true in Hm.
    exists (dep_on d). split; [done|]. exists d. by rewrite list_elem_of_In.
  - intros [Hx (y & Hy & d & Hd & <- & <-)]. split; [|done]. exists d. split; [done|].
    apply list_elem_of_In, List.filter_In. split; [by apply list_elem_of_In|by apply str_mem_true].
Qed.

Lemma downstream_go_sound fuel deps root seen frontier :
  (∀ x, x ∈ seen → tc (waits_on deps) root x) → (∀ x, x ∈ frontier → x ∈ seen) →
  ∀ x, x ∈ downstream_go fuel deps seen frontier → tc (waits_on deps) root x.
Proof.
  revert seen frontier. induction fuel as [|fuel IH]; intros seen frontier Hs Hf x; cbn; [apply Hs|].
  apply IH.
  - intros y [Hy|Hy]%elem_of_app; [by apply Hs|].
    apply elem_dependents in Hy as [_ (z & Hz & Hw)]. eapply tc_r; [by apply Hs, Hf|done].
  - intros y Hy. apply elem_of_app. by right.
Qed.

(** Only the frontier may still have dependents outside [seen]. *)
Definition closed_but (deps : list dep_row) (root : string) (seen frontier : list string) : Prop :=
  ∀ y x, y = root ∨ y ∈ seen → y ∉ frontier → waits_on deps y x → x ∈ seen.

Lemma seen_bound deps (seen : list string) :
  NoDup seen → (∀ x, x ∈ seen → x ∈ dep_item <$> deps) → length seen ≤ length deps.
Proof.
  intros Hn Hs. rewrite <- (length_fmap dep_item deps). by apply submseteq_length, NoDup_submseteq.
Qed.

Lemma downstream_go_closed fuel deps root seen frontier :
  NoDup seen → (∀ x, x ∈ seen → x ∈ dep_item <$> deps) →
  closed_but deps root seen frontier →
  frontier = [] ∨ length deps < fuel + length seen →
  let all := downstream_go fuel deps seen frontier in
  (∀ x, x ∈ seen → x ∈ all) ∧ closed_but deps root all [].
Proof.
  cbv zeta. revert seen frontier. induction fuel as [|fuel IH]; intros seen frontier Hn Hs Hc Hm; cbn.
  { split; [done|]. destruct Hm as [->|Hm]; [done|]. pose proof (seen_bound _ _ Hn Hs). lia. }
  set (new := dependents deps seen frontier).
  destruct (IH (seen ++ new) new) as [Hsub Hcl].
  - apply NoDup_app. split_and!; [done| |apply NoDup_remove_dups].
    intros x Hx Hx'. by apply elem_dependents in Hx' as [? _].
  - intros x [Hx|Hx]%elem_of_app; [by apply Hs|].
    apply elem_dependents in Hx as [_ (y & _ & d & Hd & _ & <-)].
    apply list_elem_of_fmap. by exists d.
  - intros y x Hy Hny Hw. apply elem_of_app.
    destruct (decide (y ∈ frontier)) as [Hyf|Hyf].
    + destruct (decide (x ∈ seen)) as [|Hx]; [by left|]. right. apply elem_dependents. eauto.
    + left. apply (Hc y x); [|done|done]. destruct Hy as [->|[Hy|Hy]%elem_of_app]; auto. done.
  - rewrite length_app. destruct new as [|z l] eqn:E; [by left|right; cbn].
    destruct Hm as [->|Hm]; [|lia].
    assert (Hz : z ∈ new) by (rewrite E; left). unfold new in Hz.
    apply elem_dependents in Hz as [_ (y & Hy & _)]. inversion Hy.
  - split; [|exact Hcl]. intros x Hx. apply Hsub, elem_of_app. by left.
Qed.

Lemma downstream_waits deps work_item_id x :
  x ∈ downstream deps work_item_id ↔ tc (waits_on deps) work_item_id x.
Proof.
  unfold downstream. set (first := dependents deps [] [work_item_id]).
  assert (Hfirst : ∀ y, y ∈ first ↔ waits_on deps work_item_id y).
  { intros y. unfold first. rewrite elem_dependents. split.
    - intros [_ (z & ->%list_elem_of_singleton & Hw)]. done.
    - intros Hw. split; [by intros H; inversion H|]. exists work_item_id. split; [by left|done]. }
  split.
  - apply downstream_go_sound; [|done]. intros y Hy. apply tc_once, Hfirst, Hy.
  - destruct (downstream_go_closed (S (length deps)) deps work_item_id first first) as [Hsub Hcl].
    + apply NoDup_remove_dups.
    + intros y Hy. apply Hfirst in Hy as (d & Hd & _ & <-). apply list_elem_of_fmap. by exists d.
    + intros y z [->|Hy] Hny Hw; [by apply Hfirst|done].
    + right. lia.
    + assert (Hall : ∀ a b, tc (waits_on deps) a b →
        a = work_item_id ∨ a ∈ downstream_go (S (length deps)) deps first first →
        b ∈ downstream_go (S (length deps)) deps first first).
      { intros a b Htc. induction Htc as [a b Hw|a b c Hw _ IH]; intros Ha.
        - eapply Hcl; [exact Ha| |exact Hw]. intros H; inversion H.
        - apply IH. right. eapply Hcl; [exact Ha| |exact Hw]. intros H; inversion H. }
      intros Htc. eapply Hall; [exact Htc|by left].
Qed.

(** A failure blocks exactly what depends on it: the computed downstream of an
    item is the set of items that wait for it through one or more dependencies,
    also when the dependency rows contain cycles. *)
Theorem downstream_is_transitive_dependents deps work_item_id x :
  x ∈ downstream deps work_item_id ↔ tc (waits_on deps) work_item_id x.
Proof. apply downstream_waits. Qed.

(** * Dependencies are respected

    The invariant that a work item leaves [pending] only when everything it
    depends on has succeeded: through materialisation, unlocking, retries,
    blocking and requeueing, recovery, operator verdicts and extension. *)

Section deps.
  Context `{ENV : LoopEnv}.

Abbreviation started := [WReady; WRunning; WWaitingConfirmation; WSucceeded].

(** Everything the item [id] depends on has succeeded. *)
Definition deps_done (s : Db) (id : string) : Prop :=
  ∀ d p, d ∈ db_deps s → dep_item d = id → p ∈ db_work s → wi_id p = dep_on d →
         wi_status p = WSucceeded.

(** An item that is past its dependencies: started, or parked in [blocked] by its
    own handler, which leaves an error behind. *)
Definition cleared (w : work_row) : bool :=
  work_in started w || (work_in [WBlocked] w && is_some (wi_last_error w)).

Definition pending_clean (w : work_row) : Prop :=
  wi_status w = WPending → wi_last_error w = None.

Record dep_inv (s : Db) : Prop := {
  di_item : ∀ d, d ∈ db_deps s → ∃ w, w ∈ db_work s ∧ wi_id w = dep_item d;
  di_on : ∀ d, d ∈ db_deps s → ∃ p, p ∈ db_work s ∧ wi_id p = dep_on d;
  di_cleared : ∀ w, w ∈ db_work s → cleared w = true → deps_done s (wi_id w);
  di_pending : ∀ w, w ∈ db_work s → pending_clean w
}.

Lemma dep_inv_ext s s' :
  db_work s' = db_work s → db_deps s' = db_deps s → dep_inv s → dep_inv s'.
Proof.
  intros Hw Hd [H1 H2 H3 H4]. split; unfold deps_done in *; by rewrite ?Hw, ?Hd.
Qed.

(** What an update may do to a row: move along the state machine, and become
    cleared only if it was, or if its dependencies are done. *)
Definition clears (s : Db) (w w' : work_row) : Prop :=
  work_rel w w' ∧ (pending_clean w → pending_clean w') ∧
  (pending_clean w → cleared w' = true → cleared w = true ∨ deps_done s (wi_id w)).

Lemma clears_refl s w : clears s w w.
Proof. split_and!; [reflexivity|done|]. by left. Qed.

Lemma succeeded_stays w w' : work_rel w w' → wi_status w = WSucceeded → wi_status w' = WSucceeded.
Proof.
  intros [_ _ Hp] E. rewrite E in Hp. apply path_sink in Hp; [done|]. by intros [].
Qed.

Lemma dep_work_update s p f :
  (∀ w, w ∈ db_work s → p w = true → clears s w (f w)) → dep_inv s →
  dep_inv (tset harness_work_items (update_where p f (db_work s)) s).
Proof.
  intros H [H1 H2 H3 H4].
  assert (Hf : ∀ w, w ∈ db_work s → clears s w (if p w then f w else w)).
  { intros w Hw. destruct (p w) eqn:E; [by apply H|apply clears_refl]. }
  assert (Hid : ∀ w, w ∈ db_work s → wi_id (if p w then f w else w) = wi_id w).
  { intros w Hw. destruct (Hf w Hw) as ([Hs _ _] & _). unfold work_static in Hs. congruence. }
  assert (Hex : ∀ i, (∃ w, w ∈ db_work s ∧ wi_id w = i) →
                     ∃ w, w ∈ update_where p f (db_work s) ∧ wi_id w = i).
  { intros i (w & Hw & <-). exists (if p w then f w else w). split; [|by apply Hid].
    apply elem_update_where. by exists w. }
  assert (Hdone : ∀ i, deps_done s i →
    deps_done (tset harness_work_items (update_where p f (db_work s)) s) i).
  { intros i Hd d q Hin Hi (x & Hx & ->)%elem_update_where Hq. cbn in *.
    rewrite Hid in Hq by done.
    eapply succeeded_stays; [by apply Hf|by eapply Hd]. }
  split; cbn.
  - intros d Hd. by apply Hex, H1.
  - intros d Hd. by apply Hex, H2.
  - intros w' (w & Hw & ->)%elem_update_where Hc. rewrite Hid by done. apply Hdone.
    destruct (Hf w Hw) as (_ & _ & Hcl). destruct (Hcl (H4 w Hw) Hc); auto.
  - intros w' (w & Hw & ->)%elem_update_where. destruct (Hf w Hw) as (_ & Hp & _). by apply Hp, H4.
Qed.

Lemma fresh_id s r :
  existsb (work_clash r) (db_work s) = false → ∀ w, w ∈ db_work s → wi_id w ≠ wi_id r.
Proof.
  intros Hc w Hw E. apply list_elem_of_In in Hw. rewrite <- not_true_iff_false in Hc. apply Hc.
  apply existsb_exists. exists w. split; [done|]. unfold work_clash. by rewrite E, String.eqb_refl.
Qed.

(** A new item has no dependencies yet. *)
Lemma dep_work_insert s r :
  existsb (work_clash r) (db_work s) = false → pending_clean r → dep_inv s →
  dep_inv (tset harness_work_items (db_work s ++ [r]) s).
Proof.
  intros Hc Hp [H1 H2 H3 H4]. pose proof (fresh_id _ _ Hc) as Hfresh.
  assert (Hex : ∀ i, (∃ w, w ∈ db_work s ∧ wi_id w = i) →
                     ∃ w, w ∈ db_work s ++ [r] ∧ wi_id w = i).
  { intros i (w & Hw & <-). exists w. split; [|done]. apply elem_of_app. by left. }
  assert (Hdone : ∀ i, deps_done s i → deps_done (tset harness_work_items (db_work s ++ [r]) s) i).
  { intros i Hd d q Hin Hi [Hq|Hq]%elem_of_app Hon; [by eapply Hd|].
    apply list_elem_of_singleton in Hq as ->. destruct (H2 d Hin) as (p & Hpin & Hpid).
    exfalso. apply (Hfresh p Hpin). congruence. }
  split; cbn.
  - intros d Hd. by apply Hex, H1.
  - intros d Hd. by apply Hex, H2.
  - intros w [Hw|Hw]%elem_of_app Hcl; [by apply Hdone, H3|].
    apply list_elem_of_singleton in Hw as ->. intros d q Hin Hi. cbn in Hin.
    destruct (H1 d Hin) as (v & Hv & Hvid). exfalso. apply (Hfresh v Hv). congruence.
  - intros w [Hw|Hw]%elem_of_app; [by apply H4|]. by apply list_elem_of_singleton in Hw as ->.
Qed.

(** The rows of an item: there is one, and all have status [st]. *)
Definition rows_with (s : Db) (id : string) (st : WorkItemStatus) : Prop :=
  (∃ w, w ∈ db_work s ∧ wi_id w = id) ∧
  ∀ w, w ∈ db_work s → wi_id w = id → wi_status w = st.

(** A dependency may be added to an item that is still pending. *)
Lemma dep_dep_insert s item on :
  rows_with s item WPending → (∃ p, p ∈ db_work s ∧ wi_id p = on) → dep_inv s →
  dep_inv (tset harness_work_item_dependencies
             (db_deps s ++ [{| dep_item := item; dep_on := on |}]) s).
Proof.
  intros [Hrow Hpend] Hon [H1 H2 H3 H4]. split; cbn; [| | |done].
  - intros d [Hd|Hd]%elem_of_app; [by apply H1|]. by apply list_elem_of_singleton in Hd as ->.
  - intros d [Hd|Hd]%elem_of_app; [by apply H2|]. by apply list_elem_of_singleton in Hd as ->.
  - intros w Hw Hcl d p [Hd|Hd]%elem_of_app Hi Hp Hpon; [by eapply (H3 w Hw Hcl)|].
    apply list_elem_of_singleton in Hd as ->. cbn in Hi. symmetry in Hi.
    pose proof (Hpend w Hw Hi) as E. exfalso. revert Hcl.
    unfold cleared, work_in. by rewrite E.
Qed.

(** ** Statements *)

Lemma keeps_dep_update p f :
  (∀ s w, p w = true → clears s w (f w)) →
  stable (keeps dep_inv) (sql_update harness_work_items p f).
Proof. intros H. apply stable_sql_update. intros s Hs. apply dep_work_update; auto. Qed.

Lemma keeps_dep_new_work goal_id wf : inserts_new_work (keeps dep_inv) goal_id wf.
Proof.
  intros id step st ordinal now r. apply stable_sql_insert; [typeclasses eauto|].
  intros s Hc Hs. by apply dep_work_insert.
Qed.

(** [clears] for an update that selects by status. *)
Lemma clears_step s l w w' :
  work_in l w = true → work_rel w w' → forallb (λ st, bool_decide (st ∈ started)) l = true →
  wi_status w' ≠ WPending → clears s w w'.
Proof.
  intros Hl Hrel Hall Hp. split_and!; [done|by intros _ ?|]. intros _ _. left.
  unfold cleared, work_in in *. rewrite bool_decide_eq_true in Hl.
  rewrite forallb_forall in Hall. by rewrite Hall by (by apply list_elem_of_In).
Qed.

Lemma clears_stop s w w' :
  work_rel w w' → wi_status w' = WFailed ∨ wi_status w' = WCanceled → clears s w w'.
Proof.
  intros Hrel Hst. split_and!; [done| |]; unfold pending_clean, cleared, work_in;
    by destruct Hst as [-> | ->].
Qed.

Lemma clears_keep s w w' :
  work_rel w w' → wi_status w' = wi_status w → wi_last_error w' = wi_last_error w →
  clears s w w'.
Proof.
  intros Hrel Hst He. split_and!; [done| |]; unfold pending_clean, cleared, work_in;
    rewrite Hst, He; [done|]. by left.
Qed.

(** The downstream of a failure is blocked without an error of its own. *)
Lemma clears_block s w now :
  work_in [WPending; WReady] w = true → clears s w (set_work_status WBlocked now w).
Proof.
  intros Hl. split_and!; [eapply work_step; [exact Hl|reflexivity|reflexivity|cbn; lia]|done|].
  intros Hp. unfold cleared, work_in in *. rewrite bool_decide_eq_true in Hl. cbn.
  destruct (wi_status w) eqn:E; try (exfalso; set_solver); [|by left].
  rewrite (Hp E). done.
Qed.

(** Requeueing selects by the error text, so there is one. *)
Lemma clears_requeue s w pat now :
  work_in [WBlocked] w = true → sql_like_opt (wi_last_error w) pat = true →
  clears s w (set_last_error None (set_next_attempt None (set_work_status WReady now w))).
Proof.
  intros Hl Hk. split_and!; [eapply work_step; [exact Hl|reflexivity|reflexivity|cbn; lia]|done|].
  intros _ _. left. unfold cleared. rewrite Hl. destruct (wi_last_error w); [|done].
  by rewrite orb_true_r.
Qed.

Lemma keeps_dep_unlock goal_id : stable (keeps dep_inv) (unlock_ready_work_tx goal_id).
Proof.
  apply stable_of_wp. intros s. unfold unlock_ready_work_tx. wp_go. intros Hinv.
  apply dep_work_update; [|done]. intros w Hw Hp. row_split Hp. split_and!; [|done|].
  - eapply work_step; [eassumption|reflexivity|reflexivity|cbn; lia].
  - intros _ _. right. intros d p Hd Hi Hpin Hon.
    apply negb_true_iff, not_true_iff_false in Hp1. apply dec_stable. intros Hne. apply Hp1.
    apply existsb_exists. exists d. split; [by apply list_elem_of_In|].
    rewrite Hi, String.eqb_refl. apply existsb_exists. exists p.
    split; [by apply list_elem_of_In|]. rewrite Hon, String.eqb_refl. cbn. unfold work_in.
    rewrite negb_true_iff, bool_decide_eq_false. set_solver.
Qed.

Lemma keeps_dep_refresh goal_id : stable (keeps dep_inv) (refresh_goal_status_tx goal_id).
Proof.
  unfold refresh_goal_status_tx. stable_go. apply stable_sql_update. intros s Hs.
  by apply (dep_inv_ext s).
Qed.
End deps.

Ltac dep_row :=
  let s := fresh "s" in let w := fresh "w" in let H := fresh "H" in
  intros s w H; cbv beta in H; row_split H; row_case;
  first
    [ eapply clears_step; [eassumption|eapply work_step; [eassumption|row_side..]|reflexivity|done]
    | apply clears_stop; [eapply work_step; [eassumption|row_side..]|row_side]
    | apply clears_stop; [eapply work_stop; [eassumption|row_side..]|row_side]
    | apply clears_keep; [apply work_keep; row_side|reflexivity|reflexivity]
    | apply clears_block; eassumption
    | eapply clears_requeue; eassumption ].

#[export] Hint Resolve keeps_dep_new_work keeps_dep_unlock keeps_dep_refresh : stab.
#[export] Hint Extern 1 (stable (keeps dep_inv) (sql_update harness_work_items _ _)) =>
  apply keeps_dep_update; dep_row : stab.
#[export] Hint Extern 3 (stable (keeps dep_inv) _) =>
  frame_sql; intros ?; eapply dep_inv_ext; [| |eassumption]; reflexivity : stab.

Section runs.
  Context `{ENV : LoopEnv}.

(** Items are only added, under ids that were not in use. *)
Definition fresh_ext (s s' : Db) : Prop :=
  (∀ w, w ∈ db_work s → w ∈ db_work s') ∧
  (∀ w, w ∈ db_work s' → w ∈ db_work s ∨ ∀ v, v ∈ db_work s → wi_id v ≠ wi_id w).

#[export] Instance fresh_ext_preorder : PreOrder fresh_ext.
Proof.
  split.
  - intros s. split; [done|]. by left.
  - intros a b c [H1 H2] [H3 H4]. split; [auto|]. intros w Hw.
    destruct (H4 w Hw) as [Hb|Hb]; [by apply H2|]. right. intros v Hv. by apply Hb, H1.
Qed.

Lemma rows_with_ext s s' id st : fresh_ext s s' → rows_with s id st → rows_with s' id st.
Proof.
  intros [H1 H2] [(w & Hw & Hid) Hall]. split; [exists w; by auto|].
  intros v Hv Hvid. destruct (H2 v Hv) as [Hs|Hs]; [by apply Hall|].
  exfalso. apply (Hs w Hw). congruence.
Qed.

Lemma insert_fresh_ext s r :
  existsb (work_clash r) (db_work s) = false →
  fresh_ext s (tset harness_work_items (db_work s ++ [r]) s) ∧
  rows_with (tset harness_work_items (db_work s ++ [r]) s) (wi_id r) (wi_status r).
Proof.
  intros Hc. pose proof (fresh_id _ _ Hc) as Hf. split; split; cbn.
  - intros w Hw. apply elem_of_app. by left.
  - intros w [Hw|Hw]%elem_of_app; [by left|]. apply list_elem_of_singleton in Hw as ->. by right.
  - exists r. split; [|done]. apply elem_of_app. right. by left.
  - intros w [Hw|Hw]%elem_of_app Hid; [by destruct (Hf w Hw)|].
    by apply list_elem_of_singleton in Hw as ->.
Qed.

(** The status an item of step [k] is created with. *)
Definition initial_status (edges : list WorkflowEdge) (k : string) : WorkItemStatus :=
  if existsb (λ e, String.eqb (edge_to e) k) edges then WPending else WReady.

Definition ids_ok (edges : list WorkflowEdge) (s : Db) (ids : gmap string string) : Prop :=
  ∀ k id, ids !! k = Some id → rows_with s id (initial_status edges k).

(** What the materialisation loop leaves behind. *)
Lemma materialize_steps_spec goal_id wf edges ordinal sts ids s :
  dep_inv s → ids_ok edges s ids →
  wp (materialize_steps goal_id wf edges ordinal sts ids)
     (λ r s', dep_inv s' ∧ match r with Ok ids' => ids_ok edges s' ids' | Err _ => True end) s.
Proof.
  revert ordinal ids s. induction sts as [|step sts IH]; intros ordinal ids s Hinv Hids;
    cbn [materialize_steps]; cbv zeta; [by wp_go|]. wp_go; [|by split].
  match goal with H : existsb (work_clash ?r) _ = false |- _ =>
    destruct (insert_fresh_ext s r H) as [Hext Hrow];
    assert (Hinv' : dep_inv (tset harness_work_items (db_work s ++ [r]) s))
      by (by apply dep_work_insert) end.
  apply IH; [exact Hinv'|]. intros k id Hk.
  apply lookup_insert_Some in Hk as [[<- <-]|[_ Hk]]; [exact Hrow|].
  eapply rows_with_ext; [exact Hext|by apply Hids].
Qed.

Lemma materialize_edges_spec edges es ids s :
  dep_inv s → ids_ok edges s ids → (∀ e, e ∈ es → e ∈ edges) →
  wp (materialize_edges ids es) (λ r s', dep_inv s') s.
Proof.
  intros Hinv Hids Hes. unfold materialize_edges.
  apply wp_foreach with (I := λ s', dep_inv s' ∧ db_work s' = db_work s).
  - done.
  - intros e s' He [Hs' Hw]. unfold insert_dep. cbv zeta. wp_go; try done. split; [|done].
    apply dep_dep_insert; [| |done].
    + assert (Hi : initial_status edges (edge_to e) = WPending).
      { unfold initial_status. rewrite (proj2 (List.existsb_exists _ _)); [done|].
        exists e. split; [apply list_elem_of_In; auto|apply String.eqb_refl]. }
      rewrite <- Hi. unfold rows_with. rewrite Hw. by apply Hids.
    + rewrite Hw. by eapply (Hids (edge_from e)).
  - intros s' [Hs' _]. exact Hs'.
Qed.

Lemma extend_items_spec goal_id wf ordinal sts s :
  dep_inv s →
  wp (extend_items goal_id wf ordinal sts)
     (λ r s', dep_inv s' ∧ fresh_ext s s' ∧
        match r with
        | Ok recs => Forall2 (λ rec sd, rows_with s' (wir_id rec)
                       (match sd.2 with [] => WReady | _ => WPending end)) recs sts
        | Err _ => True
        end) s.
Proof.
  revert ordinal s. induction sts as [|[step deps] sts IH]; intros ordinal s Hinv;
    cbn [extend_items]; cbv zeta.
  { wp_go. split_and!; [done|reflexivity|constructor]. }
  wp_go; [| |by split_and!; [|reflexivity|]].
  all: match goal with H : existsb (work_clash ?r) _ = false |- _ =>
    destruct (insert_fresh_ext s r H) as [Hext Hrow];
    assert (Hinv' : dep_inv (tset harness_work_items (db_work s ++ [r]) s))
      by (by apply dep_work_insert) end.
  2: { by split_and!. }
  eapply wp_mono; [by apply IH|]. cbv beta. intros [recs|e] s' (Hs' & Hext' & Hf).
  - apply wp_ret. split_and!; [done|by etrans|]. constructor; [|exact Hf].
    by eapply rows_with_ext.
  - split_and!; [done|by etrans|done].
Qed.

Lemma elem_of_zip_lookup {A B} (l : list A) (k : list B) p :
  p ∈ zip l k → ∃ i, l !! i = Some p.1 ∧ k !! i = Some p.2.
Proof.
  intros H. apply list_elem_of_lookup in H as [i Hi]. exists i.
  apply lookup_zip_with_Some in Hi as (x & y & -> & Hx & Hy). done.
Qed.

Lemma resolve_dep_exists s goal_id recs dep on :
  (∀ rec, rec ∈ recs → ∃ p, p ∈ db_work s ∧ wi_id p = wir_id rec) →
  resolve_dep s goal_id recs dep = Some on → ∃ p, p ∈ db_work s ∧ wi_id p = on.
Proof.
  intros Hrecs. unfold resolve_dep. destruct (List.find _ recs) as [r|] eqn:E.
  - intros [= <-]. apply List.find_some in E as [Hr _]. apply Hrecs. by apply list_elem_of_In.
  - intros H. apply fmap_Some in H as (w & Hw & ->).
    apply List.find_some in Hw as [Hw _]. exists w. split; [by apply list_elem_of_In|done].
Qed.

Lemma extend_deps_spec goal_id recs sts s :
  dep_inv s →
  Forall2 (λ rec (sd : WorkflowStep * list string), rows_with s (wir_id rec)
             (match sd.2 with [] => WReady | _ => WPending end)) recs sts →
  wp (extend_deps goal_id recs (snd <$> sts)) (λ r s', dep_inv s') s.
Proof.
  intros Hinv Hf. unfold extend_deps.
  apply wp_foreach with (I := λ s', dep_inv s' ∧ db_work s' = db_work s); [done| |by intros ? []].
  intros [rec deps] s' (i & Hr & Hd)%elem_of_zip_lookup [Hs' Hw]. cbn [fst snd] in Hr, Hd.
  apply list_lookup_fmap_Some in Hd as ([step deps'] & -> & Hsd). cbn [snd].
  pose proof (Forall2_lookup_lr _ _ _ _ _ _ Hf Hr Hsd) as Hrow. cbn [snd] in Hrow.
  apply wp_foreach with (I := λ s', dep_inv s' ∧ db_work s' = db_work s); [done| |done].
  intros dep s2 Hdep [Hs2 Hw2]. unfold insert_dep. cbv zeta. wp_go; try done. split; [|done].
  apply dep_dep_insert; [| |done].
  - unfold rows_with in *. rewrite Hw2. by destruct deps'; [inversion Hdep|].
  - eapply resolve_dep_exists; [|done]. intros r Hrin. rewrite Hw2.
    apply list_elem_of_lookup in Hrin as [j Hj].
    destruct (Forall2_lookup_l _ _ _ _ _ Hf Hj) as (? & _ & [Hex _]). exact Hex.
Qed.

Lemma extension_deps_length sts known l :
  extension_deps sts known = Ok l → length sts = length l.
Proof.
  revert known l. induction sts as [|step sts IH]; intros known l; cbn [extension_deps].
  { by intros [= <-]. }
  cbv zeta. intros H. apply guard_then_ok in H as [_ H].
  apply bind_ok in H as ([] & _ & H). apply bind_ok in H as (rest & Hr & H).
  injection H as <-. cbn. f_equal. by eapply IH.
Qed.

Lemma keeps_dep_approve policy goal_id request actor ew :
  stable (keeps dep_inv) (approve_tx policy goal_id request actor ew).
Proof.
  apply stable_transaction; [typeclasses eauto|]. apply stable_bind; [typeclasses eauto| |].
  { open_op. cbv zeta. stable_go. }
  intros plan. cbv zeta. stable_step; [stable_go|]. stable_step; [open_op; cbv zeta; stable_go|].
  stable_step; [open_op; stable_go|]. apply stable_of_wp. intros s. apply wp_imp. intros Hs.
  apply wp_bind. eapply wp_mono.
  { apply materialize_steps_spec; [exact Hs|]. intros k id Hk. by rewrite lookup_empty in Hk. }
  cbv beta. intros [ids|e] s' [Hs' Hids]; [|done]. apply wp_bind.
  eapply wp_mono; [by eapply materialize_edges_spec|]. cbv beta. intros [[]|e] s2 Hs2; [|done].
  assert (Hrest : ∀ m : M Db unit, stable (keeps dep_inv) m → wp m (λ _ s', dep_inv s') s2).
  { intros m Hm w <-. by apply Hm. }
  apply Hrest. unfold insert_event. stable_go.
Qed.

Lemma keeps_dep_extend goal_id sts actor ew :
  stable (keeps dep_inv) (extend_tx goal_id sts actor ew).
Proof.
  apply stable_transaction; [typeclasses eauto|]. apply stable_bind; [typeclasses eauto| |].
  { open_op. cbv zeta. stable_go. }
  intros wf. apply stable_of_wp. intros s. apply wp_imp. intros Hs. cbv zeta. wp_go; try done.
  match goal with H : extension_deps _ _ = Ok ?d |- _ =>
    pose proof (extension_deps_length _ _ _ H) as Hlen; set (deps := d) in * end.
  eapply wp_mono; [by apply extend_items_spec|]. cbv beta.
  intros [recs|e] s' (Hs' & _ & Hrecs); [|done]. apply wp_bind.
  assert (Hsnd : deps = snd <$> zip sts deps) by (by rewrite snd_zip by lia).
  rewrite Hsnd at 1. eapply wp_mono; [by apply extend_deps_spec|]. cbv beta.
  intros [[]|e] s2 Hs2; [|done].
  assert (Hrest : ∀ A (m : M Db A), stable (keeps dep_inv) m → wp m (λ _ s', dep_inv s') s2).
  { intros A m Hm w <-. by apply Hm. }
  apply Hrest. unfold insert_event. stable_go.
Qed.

Lemma keeps_dep_recover now e : stable (keeps dep_inv) (recover_expired_tx now e).
Proof.
  unfold recover_expired_tx, expired_verdict.
  destruct (expired_parked e), (ex_max_attempts e <=? ex_attempt_count e)%Z;
    cbv zeta iota; stable_go.
Qed.

#[local] Hint Resolve keeps_dep_recover : stab.

Lemma run_dep_inv a : stable (keeps dep_inv) (run a).
Proof.
  atom_cases a;
    lazymatch goal with
    | |- stable _ (approve_tx _ _ _ _ _) => apply keeps_dep_approve
    | |- stable _ (extend_tx _ _ _ _) => apply keeps_dep_extend
    | _ => open_op; cbv zeta; stable_go
    end.
Qed.

Lemma reachable_dep_inv s : reachable s → dep_inv s.
Proof.
  apply reachable_invariant; [|apply run_dep_inv].
  split; cbn; intros ? H; inversion H.
Qed.

(** C3: Dependency safety: in any reachable store, an item that is ready, running,
    parked for confirmation or succeeded has all its dependencies succeeded; every
    dependency names an existing item. *)
Theorem work_waits_for_dependencies s w d :
  reachable s → w ∈ db_work s →
  wi_status w ∈ [WReady; WRunning; WWaitingConfirmation; WSucceeded] →
  d ∈ db_deps s → dep_item d = wi_id w →
  ∃ p, p ∈ db_work s ∧ wi_id p = dep_on d ∧ wi_status p = WSucceeded.
Proof.
  intros Hr Hw Hst Hd Hi. pose proof (reachable_dep_inv _ Hr) as Hinv.
  destruct (di_on _ Hinv d Hd) as (p & Hp & Hpid). exists p. split_and!; [done|done|].
  eapply (di_cleared _ Hinv w Hw); [|done..].
  unfold cleared, work_in. by rewrite (bool_decide_eq_true_2 _ Hst).
Qed.
End runs.
