(* ===== verification/Integrity.v ===== *)
(** * The store passes its own self tests

    src/harness/loop_engine/self_test.rs checks at run time that work items,
    signal events and approvals reference what they should, and that committed
    checkpoints retain their outcome.  These are invariants of the store: the four
    checks pass in every reachable state.  With them, a claim of ready work succeeds. *)

From S2P Require Import Prelude Text External Domain Tables Signals Artifacts StoreBase StoreGoals.
From S2P Require Import StoreWork StoreExtend Replay Order History Leases.

Section integrity.
  Context `{ENV : LoopEnv}.

Definition has_goal (s : Db) (goal_id : string) : Prop :=
  ∃ g, g ∈ db_goals s ∧ g_id g = goal_id.

Definition has_workflow (s : Db) (workflow_id : string) : Prop :=
  ∃ p, p ∈ db_workflows s ∧ wr_id p = workflow_id.

Definition bound (s : Db) (a : approval_row) : Prop :=
  ∃ p, p ∈ db_workflows s ∧ wr_goal_id p = ap_goal_id a ∧
       wr_goal_revision p = ap_goal_revision a ∧ wr_plan_hash p = ap_plan_hash a.

Definition outcome_kept (c : checkpoint_row) : Prop :=
  cp_phase c ∈ [Committed; Reconciled] → is_some (cp_outcome c) = true.

(** What the transaction at hand knows: a goal and a workflow of it. *)
Definition context_ok (o : option (string * workflow_row)) (s : Db) : Prop :=
  match o with
  | Some (goal_id, plan) =>
      has_goal s goal_id ∧ plan ∈ db_workflows s ∧ wr_goal_id plan = goal_id
  | None => True
  end.

Record ref_inv (o : option (string * workflow_row)) (s : Db) : Prop := {
  ri_context : context_ok o s;
  ri_work : ∀ w, w ∈ db_work s → has_goal s (wi_goal_id w) ∧ has_workflow s (wi_workflow_id w);
  ri_outcome : ∀ c, c ∈ db_checkpoints s → outcome_kept c;
  ri_signal : ∀ e, e ∈ db_signal_events s → ∃ r, r ∈ db_signals s ∧ sg_id r = se_signal_id e;
  ri_revisions : NoDup ((λ p, (wr_goal_id p, wr_goal_revision p)) <$> db_workflows s);
  ri_approval : ∀ a, a ∈ db_approvals s → bound s a
}.

Lemma ref_inv_ext o s s' :
  db_goals s' = db_goals s → db_workflows s' = db_workflows s → db_work s' = db_work s →
  db_checkpoints s' = db_checkpoints s → db_signals s' = db_signals s →
  db_signal_events s' = db_signal_events s → db_approvals s' = db_approvals s →
  ref_inv o s → ref_inv o s'.
Proof.
  intros E1 E2 E3 E4 E5 E6 E7 [H1 H2 H3 H4 H5 H6].
  split; unfold bound, has_goal, has_workflow, context_ok in *; unfold has_goal in *;
    rewrite ?E1, ?E2, ?E3, ?E4, ?E5, ?E6, ?E7; done.
Qed.

Lemma ref_inv_weaken o s : ref_inv o s → ref_inv None s.
Proof. intros [H1 H2 H3 H4 H5 H6]. by split. Qed.

(** ** Statements *)

Lemma ref_goals_update o p f :
  (∀ g, g_id (f g) = g_id g) → stable (keeps (ref_inv o)) (sql_update harness_goals p f).
Proof.
  intros Hf. apply stable_sql_update. intros s [H1 H2 H3 H4 H5 H6].
  assert (Hg : ∀ i, has_goal s i →
    has_goal (tset harness_goals (update_where p f (db_goals s)) s) i).
  { intros i (g & Hg & <-). exists (if p g then f g else g). split.
    - apply elem_update_where. by exists g.
    - by destruct (p g). }
  split; cbn; [|intros w Hw; destruct (H2 w Hw); split; [by apply Hg|done]|done..].
  destruct o as [[gid plan]|]; [|done]. destruct H1 as (Ha & Hb & Hc).
  split_and!; [by apply Hg|done|done].
Qed.

Lemma ref_goals_insert o c r : stable (keeps (ref_inv o)) (sql_insert harness_goals c r).
Proof.
  apply stable_sql_insert; [typeclasses eauto|]. intros s _ [H1 H2 H3 H4 H5 H6].
  assert (Hg : ∀ i, has_goal s i → has_goal (tset harness_goals (db_goals s ++ [r]) s) i).
  { intros i (g & Hg & <-). exists g. split; [|done]. apply elem_of_app. by left. }
  split; cbn; [|intros w Hw; destruct (H2 w Hw); split; [by apply Hg|done]|done..].
  destruct o as [[gid plan]|]; [|done]. destruct H1 as (Ha & Hb & Hc).
  split_and!; [by apply Hg|done|done].
Qed.

Lemma ref_workflows_insert o r :
  stable (keeps (ref_inv o)) (sql_insert harness_workflows (workflow_clash r) r).
Proof.
  apply stable_sql_insert; [typeclasses eauto|]. intros s Hc [H1 H2 H3 H4 H5 H6].
  assert (Hin : ∀ p, p ∈ db_workflows s → p ∈ db_workflows s ++ [r]).
  { intros p Hp. apply elem_of_app. by left. }
  split; cbn; [| |done|done| |].
  - destruct o as [[gid plan]|]; [|done]. destruct H1 as (Ha & Hb & Hd).
    split_and!; [done|by apply Hin|done].
  - intros w Hw. destruct (H2 w Hw) as [Hg (p & Hp & Hid)]. split; [done|].
    exists p. split; [by apply Hin|done].
  - rewrite fmap_app. apply NoDup_app. split_and!; [done| |apply NoDup_singleton].
    intros k (p & -> & Hp)%list_elem_of_fmap Hk. apply list_elem_of_singleton in Hk.
    injection Hk as Hg Hr. rewrite <- not_true_iff_false in Hc. apply Hc, existsb_exists.
    exists p. split; [by apply list_elem_of_In|]. unfold workflow_clash.
    by rewrite Hg, Hr, String.eqb_refl, Z.eqb_refl, orb_true_r.
  - intros a Ha. destruct (H6 a Ha) as (p & Hp & Hrest). exists p. split; [by apply Hin|done].
Qed.

Lemma ref_approval_insert goal_id plan c r :
  ap_goal_id r = goal_id → ap_goal_revision r = wr_goal_revision plan →
  ap_plan_hash r = wr_plan_hash plan →
  stable (keeps (ref_inv (Some (goal_id, plan)))) (sql_insert harness_goal_approvals c r).
Proof.
  intros E1 E2 E3. apply stable_sql_insert; [typeclasses eauto|].
  intros s _ [H1 H2 H3 H4 H5 H6]. split; cbn; [done..|].
  intros a [Ha|Ha]%elem_of_app; [by apply H6|]. apply list_elem_of_singleton in Ha as ->.
  destruct H1 as (_ & Hp & Hg). exists plan. split_and!; [done|congruence..].
Qed.

Lemma ref_work_update o p f :
  (∀ w, wi_goal_id (f w) = wi_goal_id w ∧ wi_workflow_id (f w) = wi_workflow_id w) →
  stable (keeps (ref_inv o)) (sql_update harness_work_items p f).
Proof.
  intros Hf. apply stable_sql_update. intros s [H1 H2 H3 H4 H5 H6]. split; cbn; [done| |done..].
  intros w' (w & Hw & ->)%elem_update_where. destruct (Hf w) as [Eg Ew].
  destruct (p w); rewrite ?Eg, ?Ew; by apply H2.
Qed.

Lemma ref_new_work goal_id plan :
  inserts_new_work (keeps (ref_inv (Some (goal_id, plan)))) goal_id (wr_id plan).
Proof.
  intros id step st ordinal now r. apply stable_sql_insert; [typeclasses eauto|].
  intros s _ [H1 H2 H3 H4 H5 H6]. split; cbn; [done| |done..].
  intros w [Hw|Hw]%elem_of_app; [by apply H2|]. apply list_elem_of_singleton in Hw as ->.
  destruct H1 as (Hg & Hp & _). split; [done|]. by exists plan.
Qed.

Lemma ref_checkpoints_update o p f :
  (∀ c, p c = true → outcome_kept c → outcome_kept (f c)) →
  stable (keeps (ref_inv o)) (sql_update harness_checkpoints p f).
Proof.
  intros Hf. apply stable_sql_update. intros s [H1 H2 H3 H4 H5 H6].
  split; cbn; [done|done| |done..].
  intros c' (c & Hc & ->)%elem_update_where. destruct (p c) eqn:E; [apply Hf|]; auto.
Qed.

Lemma ref_checkpoints_insert o c r :
  cp_phase r = Prepared → stable (keeps (ref_inv o)) (sql_insert harness_checkpoints c r).
Proof.
  intros Hr. apply stable_sql_insert; [typeclasses eauto|].
  intros s _ [H1 H2 H3 H4 H5 H6]. split; cbn; [done|done| |done..].
  intros x [Hx|Hx]%elem_of_app; [by apply H3|]. apply list_elem_of_singleton in Hx as ->.
  unfold outcome_kept. rewrite Hr. set_solver.
Qed.

Lemma ref_signals_insert o c r : stable (keeps (ref_inv o)) (sql_insert harness_signals c r).
Proof.
  apply stable_sql_insert; [typeclasses eauto|]. intros s _ [H1 H2 H3 H4 H5 H6].
  split; cbn; [done..| |done|done].
  intros e He. destruct (H4 e He) as (x & Hx & Hid). exists x. split; [|done].
  apply elem_of_app. by left.
Qed.

Lemma ref_signal_event o signal_id st actor d :
  stable (keeps (ref_inv o)) (insert_signal_event_tx signal_id st actor d).
Proof.
  apply stable_of_wp. intros s. unfold insert_signal_event_tx. wp_go; try done.
  intros [H1 H2 H3 H4 H5 H6]. split; cbn; [done..| |done|done].
  intros e [He|He]%elem_of_app; [by apply H4|]. apply list_elem_of_singleton in He as ->. cbn.
  match goal with H : existsb _ _ = true |- _ => apply existsb_exists in H as (r & Hr & Hid) end.
  exists r. split; [by apply list_elem_of_In|by apply String.eqb_eq].
Qed.
End integrity.

Ltac outcome_step :=
  let c := fresh "c" in let H := fresh "H" in
  intros c H; cbv beta in H; row_split H; unfold phase_is in *;
  repeat match goal with
  | HH : bool_decide _ = true |- _ => apply bool_decide_eq_true in HH
  end;
  unfold outcome_kept; cbn; intros ? ?;
  first [done | set_solver | match goal with
  | HO : cp_phase ?c ∈ _ → _, HP : cp_phase ?c = _ |- _ => apply HO; rewrite HP; set_solver end].

#[export] Hint Resolve ref_goals_insert ref_workflows_insert ref_new_work ref_signals_insert
  ref_signal_event : stab.
#[export] Hint Extern 1 (stable (keeps (ref_inv _)) (sql_update harness_goals _ _)) =>
  apply ref_goals_update; reflexivity : stab.
#[export] Hint Extern 1 (stable (keeps (ref_inv _)) (sql_update harness_work_items _ _)) =>
  apply ref_work_update; intros ?; row_case; split; reflexivity : stab.
#[export] Hint Extern 1 (stable (keeps (ref_inv _)) (sql_update harness_checkpoints _ _)) =>
  apply ref_checkpoints_update; outcome_step : stab.
#[export] Hint Extern 1 (stable (keeps (ref_inv _)) (sql_insert harness_checkpoints _ _)) =>
  apply ref_checkpoints_insert; reflexivity : stab.
#[export] Hint Extern 1 (stable (keeps (ref_inv _)) (sql_insert harness_goal_approvals _ _)) =>
  apply ref_approval_insert; reflexivity : stab.
#[export] Hint Extern 3 (stable (keeps (ref_inv _)) _) =>
  frame_sql; intros ?; eapply ref_inv_ext; [| | | | | | |eassumption]; reflexivity : stab.

Section runs.
  Context `{ENV : LoopEnv}.

Lemma ref_recover o now e : stable (keeps (ref_inv o)) (recover_expired_tx now e).
Proof. unfold recover_expired_tx. stable_go. Qed.

Lemma ref_refresh o goal_id : stable (keeps (ref_inv o)) (refresh_goal_status_tx goal_id).
Proof. unfold refresh_goal_status_tx. stable_go. Qed.

#[local] Hint Resolve ref_recover ref_refresh : stab.

(** The goal and the plan that the review reads. *)
Lemma reviewed_plan_spec policy goal_id request actor ew s :
  wp (reviewed_plan policy goal_id request actor ew)
     (λ r s', s' = s ∧ match r with
                       | Ok plan => context_ok (Some (goal_id, plan)) s
                       | Err _ => True
                       end) s.
Proof.
  unfold reviewed_plan, goal_row_tx.
  assert (Hread : ∀ A (m : M Db A) (Q : res A → Prop), stable eq m →
    (∀ w, Q (m w).1) → wp m (λ r s', s' = s ∧ Q r) s).
  { intros A m Q Hm HQ w <-. split; [symmetry; apply Hm|apply HQ]. }
  wp_go; try done.
  match goal with H : List.find _ _ = Some ?g |- _ =>
    apply List.find_some in H as [Hg Hid]; apply String.eqb_eq in Hid end.
  match goal with H : head (order_by ?le ?l) = Some ?p |- _ =>
    assert (Hp : p ∈ l) by (rewrite <- (order_by_perm le l); destruct (order_by le l);
      [done|injection H as ->; left]) end.
  apply list_elem_of_In, List.filter_In in Hp as [Hp Hq].
  apply andb_true_iff in Hq as [Hq _]. apply String.eqb_eq in Hq.
  assert (Hctx : context_ok (Some (goal_id, a0)) s).
  { split_and!; [|by apply list_elem_of_In|done]. eexists. split; [by apply list_elem_of_In|done]. }
  eapply wp_mono; [apply (Hread _ _ (λ _, True))|]; [stable_go|done|].
  cbv beta. intros [[]|e] s' [-> _]; [|done]. apply wp_bind.
  eapply wp_mono; [apply (Hread _ _ (λ _, True))|]; [stable_go|done|].
  cbv beta. intros [[]|e] s' [-> _]; [|done]. by apply wp_ret.
Qed.

Lemma ref_approve policy goal_id request actor ew :
  stable (keeps (ref_inv None)) (approve_tx policy goal_id request actor ew).
Proof.
  apply stable_transaction; [typeclasses eauto|]. apply stable_of_wp. intros s.
  apply wp_imp. intros Hs. apply wp_bind.
  eapply wp_mono; [apply reviewed_plan_spec|]. cbv beta. intros [plan|e] s' [-> Hctx]; [|done].
  cbv zeta.
  assert (Hs' : ref_inv (Some (goal_id, plan)) s) by (destruct Hs; by split).
  assert (Hrest : ∀ A (m : M Db A), stable (keeps (ref_inv (Some (goal_id, plan)))) m →
    wp m (λ _ s', ref_inv None s') s).
  { intros A m Hm w <-. eapply ref_inv_weaken, Hm, Hs'. }
  apply Hrest. unfold bind_approval, reset_budget, materialize_edges, insert_dep, insert_event.
  cbv zeta. stable_go.
Qed.

Lemma latest_workflow_newest s goal_id p :
  latest_workflow s goal_id = Some p → p ∈ db_workflows s ∧ wr_goal_id p = goal_id ∧
    ∀ w, w ∈ db_workflows s → wr_goal_id w = goal_id → (wr_goal_revision w ≤ wr_goal_revision p)%Z.
Proof.
  unfold latest_workflow. intros H.
  apply order_by_least in H as [Hp Hmax]; [|intros *; rewrite ?Z.leb_le, ?Z.leb_gt; lia..].
  apply list_elem_of_In, List.filter_In in Hp as [Hp Hq].
  split_and!; [by apply list_elem_of_In|by apply String.eqb_eq|]. intros w Hw Hg. apply Z.leb_le, Hmax.
  apply list_elem_of_In, List.filter_In. split; [by apply list_elem_of_In|by apply String.eqb_eq].
Qed.

Lemma latest_workflow_spec s goal_id p :
  latest_workflow s goal_id = Some p → p ∈ db_workflows s ∧ wr_goal_id p = goal_id.
Proof. intros H%latest_workflow_newest. tauto. Qed.

Lemma extensible_workflow_spec goal_id sts s :
  wp (extensible_workflow goal_id sts)
     (λ r s', s' = s ∧ match r with
                       | Ok plan => context_ok (Some (goal_id, plan)) s
                       | Err _ => True
                       end) s.
Proof.
  unfold extensible_workflow, goal_row_tx. wp_go; try done. split; [done|].
  match goal with H : List.find _ _ = Some ?g |- _ =>
    apply List.find_some in H as [Hg Hid]; apply String.eqb_eq in Hid end.
  match goal with H : latest_workflow _ _ = Some _ |- _ =>
    apply latest_workflow_spec in H as [Hp Hpg] end.
  split_and!; [|done|done]. eexists. split; [by apply list_elem_of_In|done].
Qed.

Lemma ref_extend goal_id sts actor ew :
  stable (keeps (ref_inv None)) (extend_tx goal_id sts actor ew).
Proof.
  apply stable_transaction; [typeclasses eauto|]. apply stable_of_wp. intros s.
  apply wp_imp. intros Hs. apply wp_bind.
  eapply wp_mono; [apply extensible_workflow_spec|]. cbv beta. intros [plan|e] s' [-> Hctx]; [|done].
  cbv zeta.
  assert (Hs' : ref_inv (Some (goal_id, plan)) s) by (destruct Hs; by split).
  assert (Hrest : ∀ A (m : M Db A), stable (keeps (ref_inv (Some (goal_id, plan)))) m →
    wp m (λ _ s', ref_inv None s') s).
  { intros A m Hm w <-. eapply ref_inv_weaken, Hm, Hs'. }
  apply Hrest. unfold extend_deps, insert_dep, insert_event. cbv zeta. stable_go.
Qed.

Lemma run_ref_inv a : stable (keeps (ref_inv None)) (run a).
Proof.
  atom_cases a;
    lazymatch goal with
    | |- stable _ (approve_tx _ _ _ _ _) => apply ref_approve
    | |- stable _ (extend_tx _ _ _ _) => apply ref_extend
    | _ => open_op; cbv zeta; stable_go
    end.
Qed.

Lemma reachable_ref_inv s : reachable s → ref_inv None s.
Proof.
  apply reachable_invariant; [|apply run_ref_inv].
  split; cbn; [done|intros ? H; inversion H..|constructor|intros ? H; inversion H].
Qed.

Lemma no_unbound s a :
  ref_inv None s → a ∈ db_approvals s →
  match List.find (approval_of a) (db_workflows s) with
  | Some p => negb (String.eqb (wr_plan_hash p) (ap_plan_hash a))
  | None => true
  end = false.
Proof.
  intros Hinv Ha. destruct (ri_approval _ _ Hinv a Ha) as (p & Hp & Hg & Hr & Hh).
  assert (Hm : approval_of a p = true).
  { unfold approval_of. by rewrite Hg, Hr, String.eqb_refl, Z.eqb_refl. }
  destruct (List.find (approval_of a) (db_workflows s)) as [q|] eqn:E.
  - apply List.find_some in E as [Hq Hqm]. unfold approval_of in Hqm.
    apply andb_true_iff in Hqm as [Hqg Hqr]. apply String.eqb_eq in Hqg. apply Z.eqb_eq in Hqr.
    apply list_elem_of_In, list_elem_of_lookup in Hq as [i Hi].
    apply list_elem_of_lookup in Hp as [j Hj].
    assert (i = j) as ->.
    { eapply NoDup_lookup; [exact (ri_revisions _ _ Hinv)|rewrite list_lookup_fmap, Hi; reflexivity|].
      rewrite list_lookup_fmap, Hj. cbn. congruence. }
    simplify_eq. by rewrite Hh, String.eqb_refl.
  - apply list_elem_of_In in Hp. by rewrite (List.find_none _ _ E p Hp) in Hm.
Qed.

(** C8: The store passes its own self tests: in any reachable store the four data
    checks of the [core] suite count no offending row, so the suite passes whenever
    the schema checks do. *)
Theorem core_suite_passes s tables versions :
  reachable s →
  dangling_work_items s = 0%Z ∧ missing_outcomes s = 0%Z ∧
  dangling_signal_events s = 0%Z ∧ unbound_approvals s = 0%Z ∧
  forallb stc_passed (core_cases tables versions s) =
    ((tables =? 20) && (versions =? 1))%Z.
Proof.
  intros Hr. apply reachable_ref_inv in Hr as Hinv.
  assert (Hw : dangling_work_items s = 0%Z).
  { apply count_where_none. intros w Hw. destruct (ri_work _ _ Hinv w Hw) as [(g & Hg & Hgid) (p & Hp & Hpid)].
    apply orb_false_iff. rewrite !negb_false_iff, !existsb_exists. split.
    - exists g. split; [by apply list_elem_of_In|]. by apply String.eqb_eq.
    - exists p. split; [by apply list_elem_of_In|]. by apply String.eqb_eq. }
  assert (Ho : missing_outcomes s = 0%Z).
  { apply count_where_none. intros c Hc. pose proof (ri_outcome _ _ Hinv c Hc) as H.
    apply not_true_iff_false. rewrite andb_true_iff, bool_decide_eq_true, negb_true_iff.
    intros [Hp Hn]. rewrite (H Hp) in Hn. done. }
  assert (Hs : dangling_signal_events s = 0%Z).
  { apply count_where_none. intros e He. destruct (ri_signal _ _ Hinv e He) as (r & Hrin & Hid).
    apply negb_false_iff, existsb_exists. exists r. split; [by apply list_elem_of_In|].
    by apply String.eqb_eq. }
  assert (Ha : unbound_approvals s = 0%Z).
  { apply count_where_none. intros a Ha. by apply no_unbound. }
  split_and!; [done..|]. unfold core_cases. rewrite Hw, Ho, Hs, Ha. unfold count_case. cbn.
  by destruct (tables =? 20)%Z, (versions =? 1)%Z.
Qed.
End runs.

(** * Ready work is claimed

    Attempts of a work item are numbered within their count, so the uniqueness
    constraints of [harness_attempts] never stand in the way of a claim: in a
    reachable store a claim of work that is ready succeeds. *)

Lemma bind_run {S A B} (m : M S A) (f : A → M S B) w a w' :
  m w = (Ok a, w') → (m ≫= f) w = f a w'.
Proof. intros H. unfold mbind, M_bind. by rewrite H. Qed.

Lemma bind_first {S Row B} (t : table S Row) p r (f : option Row → M S B) w :
  List.find p (tget t (w_db w)) = Some r → (sql_first t p ≫= f) w = f (Some r) w.
Proof. intros H. apply bind_run. unfold sql_first, mbind, M_bind, get_db. by rewrite H. Qed.

Lemma insert_run {S Row} (t : table S Row) clash r (w : world S) :
  existsb clash (tget t (w_db w)) = false →
  sql_insert t clash r w = (Ok tt, World (tset t (tget t (w_db w) ++ [r]) (w_db w)) (w_tick w) (w_ids w)).
Proof. intros H. unfold sql_insert, mbind, M_bind, get_db. by rewrite H. Qed.

Lemma existsb_never {A} (l : list A) : existsb (λ _, false) l = false.
Proof. by induction l. Qed.

(** Runs the next primitive step in a given world. *)
Ltac run_step := erewrite bind_run; [|reflexivity]; cbn [w_db w_tick w_ids].

Section numbers.
  Context `{ENV : LoopEnv}.

Definition item_attempts (s : Db) (work_item_id : string) : Z :=
  count_where (λ a, String.eqb (at_work_item_id a) work_item_id) (db_attempts s).

Definition numbers_inv (s : Db) : Prop :=
  ∀ a, a ∈ db_attempts s → (at_number a ≤ item_attempts s (at_work_item_id a))%Z.

Lemma numbers_ext s s' : db_attempts s' = db_attempts s → numbers_inv s → numbers_inv s'.
Proof. unfold numbers_inv, item_attempts. by intros ->. Qed.

Lemma numbers_update p f :
  (∀ a, p a = true → attempt_rel a (f a)) →
  stable (keeps numbers_inv) (sql_update harness_attempts p f).
Proof.
  intros Hf. apply stable_sql_update. intros s Hinv a' Ha.
  apply elem_update_where in Ha as (a & Ha & ->).
  assert (Hst : ∀ x, attempt_static (if p x then f x else x) = attempt_static x).
  { intros x. destruct (p x) eqn:E; [by destruct (Hf x E)|done]. }
  assert (Hcount : ∀ id l, count_where (λ a, String.eqb (at_work_item_id a) id) (update_where p f l) =
    count_where (λ a, String.eqb (at_work_item_id a) id) l).
  { intros id l. unfold count_where. f_equal. induction l as [|x l IH]; cbn; [done|].
    pose proof (Hst x) as Hx. unfold attempt_static in Hx. injection Hx as _ _ -> _ _ _ _ _.
    destruct (String.eqb _ _); cbn; [f_equal|]; exact IH. }
  change (at_number (if p a then f a else a) ≤ count_where (λ x, String.eqb (at_work_item_id x) (at_work_item_id (if p a then f a else a))) (update_where p f (db_attempts s)))%Z.
  rewrite Hcount.
  pose proof (Hst a) as Hx. unfold attempt_static in Hx. injection Hx as _ _ -> -> _ _ _ _.
  by apply Hinv.
Qed.

Lemma numbers_claim goal_id step worker_id lease_secs actor :
  stable (keeps numbers_inv) (claim_round goal_id step worker_id lease_secs actor).
Proof.
  apply stable_of_wp. intros s. eapply wp_mono; [apply claim_round_spec|].
  intros [[[c|]|]|e] s'; cbn; [|by intros ->..]. intros (now & t & w & He) Hinv a Ha.
  destruct (ce_attempt _ _ _ _ _ _ _ _ _ _ He) as (_ & Hid & _).
  unfold item_attempts. rewrite (ce_attempts _ _ _ _ _ _ _ _ _ _ He) in *.
  rewrite count_where_app. apply elem_of_app in Ha as [Ha|Ha].
  - specialize (Hinv a Ha). unfold item_attempts in Hinv.
    pose proof (count_where_nonneg (λ x, String.eqb (at_work_item_id x) (at_work_item_id a)) [cl_attempt c]). lia.
  - apply list_elem_of_singleton in Ha as ->. rewrite (ce_number _ _ _ _ _ _ _ _ _ _ He), Hid.
    unfold count_where at 3. cbn. rewrite Hid, String.eqb_refl. cbn. lia.
Qed.
End numbers.

#[export] Hint Extern 1 (stable (keeps numbers_inv) (sql_update harness_attempts _ _)) =>
  apply numbers_update; row_step : stab.
#[export] Hint Extern 3 (stable (keeps numbers_inv) _) =>
  frame_sql; intros ?; eapply numbers_ext; [|eassumption]; reflexivity : stab.

Section runs.
  Context `{ENV : LoopEnv}.

Lemma numbers_recover now e : stable (keeps numbers_inv) (recover_expired_tx now e).
Proof.
  unfold recover_expired_tx, expired_verdict.
  destruct (expired_parked e), (ex_max_attempts e <=? ex_attempt_count e)%Z;
    cbv zeta iota; stable_go.
Qed.

Lemma numbers_refresh goal_id : stable (keeps numbers_inv) (refresh_goal_status_tx goal_id).
Proof. unfold refresh_goal_status_tx. stable_go. Qed.

#[local] Hint Resolve numbers_recover numbers_refresh : stab.

Lemma run_numbers a : stable (keeps numbers_inv) (run a).
Proof.
  atom_cases a;
    lazymatch goal with
    | |- stable _ (claim_round _ _ _ _ _) => apply numbers_claim
    | _ => open_op; cbv zeta; stable_go
    end.
Qed.

Lemma reachable_numbers s : reachable s → numbers_inv s.
Proof. apply reachable_invariant; [intros a Ha; inversion Ha|apply run_numbers]. Qed.

(** ** Liveness of a claim *)

Lemma goal_row_run goal_id g (w : world Db) :
  List.find (is_goal goal_id) (db_goals (w_db w)) = Some g → goal_row_tx goal_id w = (Ok g, w).
Proof.
  intros H. unfold goal_row_tx, sql_first, mbind, M_bind, get_db, mret, M_ret.
  cbn [tget harness_goals]. by rewrite H.
Qed.

(** No attempt carries the id a claim in world [w] draws for its attempt. *)
Definition attempt_id_fresh (w : world Db) : Prop :=
  ∀ a n, a ∈ db_attempts (w_db w) →
    at_id a ≠ "attempt" +:+ "_" +:+ hex n +:+ "_" +:+ hex ((w_ids w + 1) mod 2 ^ 64)%N.

Lemma fresh_of_none w : db_attempts (w_db w) = [] → attempt_id_fresh w.
Proof. intros E a n Ha. rewrite E in Ha. by apply not_elem_of_nil in Ha. Qed.

(** The time at which a claim in world [w] compares wake times. *)
Definition claim_time (w : world Db) : Z := (Z.max 0 (clock_nanos (w_tick w)) / 1000000000)%Z.

Lemma find_unique_work s x : work_inv s → x ∈ db_work s →
  List.find (is_work (wi_id x)) (db_work s) = Some x.
Proof.
  intros Hinv Hx. destruct (List.find _ _) as [y|] eqn:E.
  - apply List.find_some in E as [Hy Hid]. apply String.eqb_eq in Hid.
    f_equal. eapply work_unique; [done|by apply list_elem_of_In|done|done].
  - apply list_elem_of_In in Hx. pose proof (List.find_none _ _ E _ Hx) as Hn.
    unfold is_work in Hn. by rewrite String.eqb_refl in Hn.
Qed.

Lemma count_unique_work s x p : work_inv s → x ∈ db_work s → p x = true →
  count_where (λ y, is_work (wi_id x) y && p y) (db_work s) = 1%Z.
Proof.
  intros Hinv Hx Hp. apply list_elem_of_split in Hx as (l1 & l2 & E).
  pose proof (inv_work_ids _ Hinv) as Hnd. rewrite E in *.
  rewrite fmap_app, fmap_cons in Hnd. apply NoDup_app in Hnd as (_ & Hd & Hnd).
  apply NoDup_cons in Hnd as [Hn _].
  assert (Hnone : ∀ l, (∀ y, y ∈ l → wi_id y ≠ wi_id x) →
    count_where (λ y, is_work (wi_id x) y && p y) l = 0%Z).
  { intros l Hl. apply count_where_none. intros y Hy. unfold is_work.
    by rewrite (proj2 (String.eqb_neq _ _) (Hl y Hy)). }
  rewrite (count_where_app _ l1 (x :: l2)), (Hnone l1).
  - change (x :: l2) with ([x] ++ l2). rewrite count_where_app, (Hnone l2).
    + unfold count_where, is_work. cbn. by rewrite String.eqb_refl, Hp.
    + intros y Hy Hid. apply Hn. rewrite <- Hid. by apply list_elem_of_fmap_2.
  - intros y Hy Hid. apply (Hd (wi_id y)); [by apply list_elem_of_fmap_2|]. rewrite Hid. left.
Qed.

(** Ids of different kinds of drawing: the clash check of the new attempt passes. *)
Lemma new_attempt_free s a :
  numbers_inv s → (∀ b, b ∈ db_attempts s → at_id b ≠ at_id a) →
  at_number a = (item_attempts s (at_work_item_id a) + 1)%Z →
  existsb (attempt_clash a) (db_attempts s) = false.
Proof.
  intros Hn Hid Hnum. apply not_true_iff_false. intros H.
  apply existsb_exists in H as (b & Hb & Hc). apply list_elem_of_In in Hb.
  unfold attempt_clash in Hc. apply orb_true_iff in Hc as [Hc|Hc].
  - apply String.eqb_eq in Hc. by apply (Hid b Hb).
  - apply andb_true_iff in Hc as [H1 H2]. apply String.eqb_eq in H1. apply Z.eqb_eq in H2.
    specialize (Hn b Hb). rewrite H1 in Hn. lia.
Qed.

(** Ready work is claimed: in a reachable store, when the goal is dispatchable and
    an item of it is claimable, one round of the claim loop hands out that item - no
    error, no lost race and no uniqueness constraint can refuse it - as long as the
    attempt id drawn is new. *)
Theorem ready_work_is_claimed goal_id step worker_id lease_secs actor w g x item :
  reachable (w_db w) →
  List.find (is_goal goal_id) (db_goals (w_db w)) = Some g →
  goal_in [Approved; Active] g = true → (step = None → g_internal_only g = false) →
  claim_candidate (w_db w) goal_id step (claim_time w) = Some x →
  decode_work_item x = Ok item → attempt_id_fresh w →
  ∃ c w', claim_round goal_id step worker_id lease_secs actor w = (Ok (Some (Some c)), w') ∧
    cl_item c = item ∧ at_work_item_id (cl_attempt c) = wi_id x.
Proof.
  intros Hr Hg Hst Hint Hcand Hdec Hfresh.
  pose proof (reachable_work_inv _ Hr) as Hinv. pose proof (reachable_numbers _ Hr) as Hnum.
  destruct (claim_candidate_spec _ _ _ _ _ Hcand) as (Hx & Hcl & _).
  apply claimable_spec in Hcl as (_ & Hready & _).
  destruct (ri_work _ _ (reachable_ref_inv _ Hr) x Hx) as [_ (p & Hp & Hpid)].
  assert (Hwf : ∃ wf, List.find (λ r, String.eqb (wr_id r) (wi_workflow_id x)) (db_workflows (w_db w)) = Some wf).
  { destruct (List.find _ (db_workflows _)) as [wf|] eqn:E; [by exists wf|]. apply list_elem_of_In in Hp.
    pose proof (List.find_none _ _ E _ Hp) as Hn. cbv beta in Hn; by rewrite Hpid, String.eqb_refl in Hn. }
  destruct Hwf as [wf Hwf].
  unfold claim_round, transaction_end.
  run_step. cbv zeta. erewrite bind_run; [|apply goal_row_run; exact Hg].
  erewrite bind_run; [|rewrite Hst; reflexivity].
  erewrite bind_run; [|destruct step; [reflexivity|rewrite Hint by done; reflexivity]]. run_step.
  change (claim_candidate _ goal_id step _) with (claim_candidate (w_db w) goal_id step (claim_time w)).
  rewrite Hcand. erewrite bind_run; [|rewrite Hdec; reflexivity].
  rewrite (bind_first _ _ wf) by exact Hwf. do 4 run_step.
  cbn [tget harness_work_items]. rewrite (count_unique_work _ x (work_in [WReady])); [|done|done|].
  2: { unfold work_in. by rewrite Hready. }
  cbn [Z.eqb Pos.eqb negb].
  erewrite (bind_first _ _); [|cbn; apply find_update; [done|by apply find_unique_work]]. 
  do 3 run_step. cbv zeta.
  erewrite bind_run; [|apply insert_run; apply new_attempt_free; cbn].
  - do 2 run_step. cbn [Z.eqb]. unfold insert_event.
    erewrite (bind_run (_ ≫= _)); [|erewrite bind_run; [|reflexivity]; apply insert_run; cbn; apply existsb_never].
    eexists _, _. split; [reflexivity|]. done.
  - exact Hnum.
  - intros b Hb. by apply Hfresh.
  - done.
Qed.
End runs.
