(* ===== verification/GoalOps.v ===== *)
(** * Provider budgets

    The counters of [harness_goal_budget_usage] never pass their limits, and what a
    reservation reports is what is left. *)

From S2P Require Import Prelude Text External Domain Tables Signals Artifacts StoreBase StoreGoals.
From S2P Require Import StoreWork StoreExtend Replay Order History GoalLife.

Section budget.
  Context `{ENV : LoopEnv}.

Definition budget_ok (b : budget_row) : Prop :=
  (0 ≤ b_provider_calls b ≤ b_max_provider_calls b ∧
   0 ≤ b_response_bytes b ≤ b_max_response_bytes b)%Z.

Definition budget_inv (s : Db) : Prop :=
  NoDup (b_goal_id <$> db_budgets s) ∧ ∀ b, b ∈ db_budgets s → budget_ok b.

Lemma budget_inv_ext s s' : db_budgets s' = db_budgets s → budget_inv s → budget_inv s'.
Proof. unfold budget_inv. by intros ->. Qed.

Lemma budget_update p f s :
  (∀ b, p b = true → budget_ok b → budget_ok (f b) ∧ b_goal_id (f b) = b_goal_id b) →
  budget_inv s →
  budget_inv (tset harness_goal_budget_usage (update_where p f (db_budgets s)) s).
Proof.
  intros H [Hn Hb]. split; cbn.
  - replace (b_goal_id <$> _) with (b_goal_id <$> db_budgets s); [done|]. symmetry.
    unfold update_where. rewrite <- list_fmap_compose. apply list_fmap_ext.
    intros i b Hi. cbn. destruct (p b) eqn:E; [|done]. apply H; [done|].
    eapply Hb, list_elem_of_lookup_2, Hi.
  - intros b' (b & Hin & ->)%elem_update_where. destruct (p b) eqn:E; [apply H|]; auto.
Qed.

Lemma budget_delete p s :
  budget_inv s →
  budget_inv (tset harness_goal_budget_usage
                (List.filter (λ r, negb (p r)) (db_budgets s)) s).
Proof.
  intros [Hn Hb]. split; cbn.
  - induction (db_budgets s) as [|b l IH]; cbn in *; [constructor|].
    apply NoDup_cons in Hn as [Hb' Hn]. destruct (negb (p b)); cbn; [|apply IH; [done|]].
    + constructor; [|apply IH; [done|]].
      * intros (x & Hx & Hin)%list_elem_of_fmap. apply list_elem_of_In, List.filter_In in Hin as [Hin _].
        apply Hb', list_elem_of_fmap. exists x. split; [done|by apply list_elem_of_In].
      * intros x Hx. apply Hb. by right.
    + intros x Hx. apply Hb. by right.
  - intros b Hin. apply list_elem_of_In, List.filter_In in Hin as [Hin _]. apply Hb.
    by apply list_elem_of_In.
Qed.

Lemma budget_insert s goal_id r :
  existsb (is_budget goal_id) (db_budgets s) = false → b_goal_id r = goal_id → budget_ok r →
  budget_inv s → budget_inv (tset harness_goal_budget_usage (db_budgets s ++ [r]) s).
Proof.
  intros Hc Hid Hr [Hn Hb]. split; cbn.
  - rewrite fmap_app. apply NoDup_app. split_and!; [done| |apply NoDup_singleton].
    intros i (b & -> & Hin)%list_elem_of_fmap Hi. apply list_elem_of_singleton in Hi.
    rewrite <- not_true_iff_false in Hc. apply Hc, existsb_exists. exists b.
    split; [by apply list_elem_of_In|]. unfold is_budget. apply String.eqb_eq. congruence.
  - intros b [Hin|Hin]%elem_of_app; [by apply Hb|]. by apply list_elem_of_singleton in Hin as ->.
Qed.

Lemma keeps_reset_budget goal_id b : stable (keeps budget_inv) (reset_budget goal_id b).
Proof.
  unfold reset_budget. stable_step.
  - apply stable_sql_delete. intros s Hs. by apply budget_delete.
  - apply stable_sql_insert; [typeclasses eauto|]. intros s Hc Hs.
    eapply budget_insert; [exact Hc|done| |done]. unfold budget_ok. cbn. lia.
Qed.

Lemma keeps_reserve goal_id : stable (keeps budget_inv) (reserve_provider_call goal_id).
Proof.
  unfold reserve_provider_call. cbv zeta. stable_go. apply stable_sql_update. intros s Hs.
  apply budget_update; [|done]. intros b Hp Hb. apply andb_true_iff in Hp as [_ Hp].
  apply Z.ltb_lt in Hp. unfold budget_ok in *. cbn. split; [lia|done].
Qed.

Lemma keeps_bytes goal_id n : stable (keeps budget_inv) (record_provider_response_bytes goal_id n).
Proof.
  unfold record_provider_response_bytes. stable_go. apply stable_sql_update. intros s Hs.
  apply budget_update; [|done]. intros b Hp Hb. apply andb_true_iff in Hp as [_ Hp].
  apply Z.leb_le in Hp. unfold budget_ok in *. cbn. split; [lia|done].
Qed.
End budget.

#[export] Hint Resolve keeps_reset_budget : stab.
#[export] Hint Extern 3 (stable (keeps budget_inv) _) =>
  frame_sql; intros ?; eapply budget_inv_ext; [|eassumption]; reflexivity : stab.

Section runs.
  Context `{ENV : LoopEnv}.

Lemma keeps_budget_approve policy goal_id request actor ew :
  stable (keeps budget_inv) (approve_tx policy goal_id request actor ew).
Proof.
  unfold approve_tx, reviewed_plan, goal_row_tx, bind_approval, materialize_edges, insert_dep,
    insert_event. cbv zeta. stable_go.
Qed.

Lemma keeps_budget_recover now e : stable (keeps budget_inv) (recover_expired_tx now e).
Proof. unfold recover_expired_tx. stable_go. Qed.

Lemma keeps_budget_refresh goal_id : stable (keeps budget_inv) (refresh_goal_status_tx goal_id).
Proof. unfold refresh_goal_status_tx. stable_go. Qed.

#[local] Hint Resolve keeps_budget_recover keeps_budget_refresh : stab.

Lemma run_budget_inv a : stable (keeps budget_inv) (run a).
Proof.
  atom_cases a;
    lazymatch goal with
    | |- stable _ (approve_tx _ _ _ _ _) => apply keeps_budget_approve
    | |- stable _ (reserve_provider_call _) => apply keeps_reserve
    | |- stable _ (record_provider_response_bytes _ _) => apply keeps_bytes
    | _ => open_op; cbv zeta; stable_go
    end.
Qed.

Lemma reachable_budget_inv s : reachable s → budget_inv s.
Proof.
  apply reachable_invariant; [|apply run_budget_inv]. split; [constructor|].
  cbn; intros ? H; inversion H.
Qed.

(** Provider budgets hold: in any reachable store no goal has used more
    provider calls or more response bytes than its approved budget allows, and the
    counters are never negative. *)
Theorem provider_budget_never_exceeded s b :
  reachable s → b ∈ db_budgets s →
  (0 ≤ b_provider_calls b ≤ b_max_provider_calls b)%Z ∧
  (0 ≤ b_response_bytes b ≤ b_max_response_bytes b)%Z.
Proof. intros Hr. apply (reachable_budget_inv _ Hr). Qed.

End runs.

(** * What the goal operations do

    Functional specifications of the goal-level operations: the status a goal takes
    from its items, idempotent admission, cancellation, and verification. *)

Section goal_ops.
  Context `{ENV : LoopEnv}.

(** ** Status refresh *)

Lemma work_in_true l w : work_in l w = true ↔ wi_status w ∈ l.
Proof. unfold work_in. apply bool_decide_eq_true. Qed.

Lemma count_where_all {Row} (p : Row → bool) l :
  count_where p l = Z.of_nat (length l) → ∀ r, r ∈ l → p r = true.
Proof.
  unfold count_where. induction l as [|x l IH]; intros H r Hr; [inversion Hr|].
  pose proof (List.filter_length_le p l) as Hle. cbn in H. destruct (p x) eqn:E; cbn in H; [|lia].
  apply elem_of_cons in Hr as [->|Hr]; [done|]. apply IH; [lia|done].
Qed.

Lemma count_where_not_all {Row} (p : Row → bool) l :
  count_where p l ≠ Z.of_nat (length l) → ∃ r, r ∈ l ∧ p r = false.
Proof.
  unfold count_where. induction l as [|x l IH]; intros H; [done|].
  cbn in H. destruct (p x) eqn:E; [|exists x; split; [left|done]].
  destruct IH as (r & Hr & Hp); [cbn in H; lia|]. exists r. split; [by right|done].
Qed.

Lemma count_where_zero {Row} (p : Row → bool) l r :
  (0 <? count_where p l)%Z = false → r ∈ l → p r = false.
Proof.
  intros H Hr. apply not_true_iff_false. intros Hp. apply Z.ltb_ge in H.
  assert (Hin : In r (List.filter p l)) by (apply List.filter_In; by rewrite <- list_elem_of_In).
  unfold count_where in H. destruct (List.filter p l); [done|cbn in H; lia].
Qed.

(** The status a goal takes from the items of its approved workflow: verifying
    when there are items and all succeeded; else failed when one failed; else active
    when one runs, succeeded or waits for confirmation; otherwise unchanged. *)
Theorem goal_status_of_items items :
  match next_goal_status items with
  | Some Verifying => items ≠ [] ∧ ∀ w, w ∈ items → wi_status w = WSucceeded
  | Some Failed => ∃ w, w ∈ items ∧ wi_status w = WFailed
  | Some Active =>
      (∀ w, w ∈ items → wi_status w ≠ WFailed) ∧
      (∃ w, w ∈ items ∧ wi_status w ≠ WSucceeded) ∧
      ∃ w, w ∈ items ∧ wi_status w ∈ [WRunning; WSucceeded; WWaitingConfirmation]
  | None => ∀ w, w ∈ items → wi_status w ∈ [WPending; WReady; WBlocked; WCanceled]
  | Some _ => False
  end.
Proof.
  unfold next_goal_status.
  destruct (0 <? Z.of_nat (length items))%Z eqn:Hlen; cbn [andb].
  2: { destruct items; [|done]. intros w Hw. inversion Hw. }
  destruct (count_where (work_in [WSucceeded]) items =? _)%Z eqn:Hall.
  { split; [by intros ->|]. intros w Hw. apply Z.eqb_eq in Hall.
    apply (count_where_all _ _ Hall), work_in_true, list_elem_of_singleton in Hw. done. }
  destruct (0 <? count_where (work_in [WFailed]) items)%Z eqn:Hf.
  { destruct (count_where_pos (work_in [WFailed]) items) as (w & Hw & Hp); [lia|].
    exists w. by apply work_in_true, list_elem_of_singleton in Hp. }
  assert (Hnf : ∀ w, w ∈ items → wi_status w ≠ WFailed).
  { intros w Hw E. pose proof (count_where_zero _ _ _ Hf Hw) as H.
    apply not_true_iff_false in H. apply H, work_in_true. rewrite E. by left. }
  destruct (0 <? count_where (work_in [WRunning; _; _]) items)%Z eqn:Hp.
  - split_and!; [done| |].
    + apply Z.eqb_neq, count_where_not_all in Hall as (w & Hw & Hn). exists w. split; [done|].
      intros E. apply not_true_iff_false in Hn. apply Hn, work_in_true. rewrite E. by left.
    + destruct (count_where_pos (work_in [WRunning; WSucceeded; WWaitingConfirmation]) items)
        as (w & Hw & Hpw); [lia|]. exists w. by apply work_in_true in Hpw.
  - intros w Hw. pose proof (count_where_zero _ _ _ Hp Hw) as H. specialize (Hnf w Hw).
    apply not_true_iff_false in H. rewrite work_in_true in H.
    destruct (wi_status w); set_solver.
Qed.

(** ** Admission *)

Lemma find_tbl_le {A} (R : relation A) (p : A → bool) l l' x :
  (∀ a b, R a b → p b = p a) → tbl_le R l l' → List.find p l = Some x →
  ∃ y, List.find p l' = Some y ∧ R x y.
Proof.
  intros Hp (o & n & -> & HR) Hf. revert Hf. induction HR as [|a b l o Hab HR IH]; [done|].
  cbn. rewrite (Hp _ _ Hab). destruct (p a); [|done]. intros [= ->]. by exists b.
Qed.

(** Idempotent admission: once a goal carries a request id, admitting any
    request with that id, in any later store, creates nothing; it returns the same
    goal with [created = false] (or the decoding error of its revision) and leaves
    the store as it is. *)
Theorem admission_is_idempotent s s' request_id g request actor :
  reachable s → steps s s' →
  List.find (with_request_id request_id) (db_goals s) = Some g →
  cg_request_id request = Some request_id →
  wp (create_goal_admission request actor)
     (λ r s'', s'' = s' ∧ match r with
                          | Ok (goal, created) => gr_id goal = g_id g ∧ created = false
                          | Err _ => True
                          end) s'.
Proof.
  intros Hr Hs Hg Hreq.
  assert (Hle : tbl_le goal_rel (db_goals s) (db_goals s')).
  { by apply (steps_preserve goals_le run_goals s s' Hs), reachable_goal_ids. }
  assert (Hp : ∀ a b, goal_rel a b → with_request_id request_id b = with_request_id request_id a).
  { intros a b [Hst _ _]. unfold goal_static in Hst. unfold with_request_id.
    replace (g_request_id b) with (g_request_id a) by congruence. done. }
  destruct (find_tbl_le _ _ _ _ _ Hp Hle Hg) as (g' & Hg' & Hrel).
  apply goal_rel_id in Hrel as Hid. unfold create_goal_admission, admission_tx. rewrite Hreq.
  wp_step. wp_step. wp_step. wp_step. wp_step. wp_step. cbn [tget harness_goals]. rewrite Hg'.
  cbv beta iota. unfold get_goal. wp_go; try done; split; try done.
  match goal with HF : List.find (is_goal (g_id g')) _ = Some ?x, HD : decode_goal ?x = Ok ?r |- _ =>
    apply List.find_some in HF as [_ HF]; apply String.eqb_eq in HF;
    unfold decode_goal in HD; apply bind_ok in HD as (? & _ & HD); injection HD as <- end.
  simplify_eq/=. split; [congruence|done].
Qed.

(** ** Cancellation *)

Abbreviation stoppable := [ARunning; ACommitting; AWaitingConfirmation].

Lemma cancel_effect goal_id reason actor s :
  wp (cancel_goal goal_id reason actor)
     (λ r s', s' = s ∧ is_ok r = false ∨ ∃ now t e,
       db_goals s' = update_where (is_goal goal_id) (set_goal_status Canceled t) (db_goals s) ∧
       db_attempts s' = update_where
         (λ a, String.eqb (at_goal_id a) goal_id && attempt_in stoppable a)
         (end_attempt AAbandoned now e) (db_attempts s) ∧
       db_work s' = update_where
         (λ w, of_goal goal_id w && negb (work_in [WSucceeded; WFailed] w))
         (release_work WFailed None e now) (db_work s)) s.
Proof.
  unfold cancel_goal, goal_row_tx, abandon_attempts_tx, set_goal_status_tx, insert_event,
    reload_goal. cbv zeta. wp_go; try (by left); right; do 3 eexists; split_and!; reflexivity.
Qed.

(** Cancelling a goal stops it: unless the request is refused and nothing
    changes, the goal's row becomes [canceled], none of its attempts is left running,
    committing or waiting, every item of it has succeeded or failed, and rows of
    other goals are as before. *)
Theorem cancel_stops_the_goal goal_id reason actor s :
  wp (cancel_goal goal_id reason actor)
     (λ r s', s' = s ∧ is_ok r = false ∨
       (∀ g, g ∈ db_goals s' → g_id g = goal_id → g_status g = Canceled) ∧
       (∀ a, a ∈ db_attempts s' → at_goal_id a = goal_id →
             at_status a ∉ [ARunning; ACommitting; AWaitingConfirmation]) ∧
       (∀ w, w ∈ db_work s' → wi_goal_id w = goal_id →
             wi_status w ∈ [WSucceeded; WFailed]) ∧
       (∀ w, w ∈ db_work s → wi_goal_id w ≠ goal_id → w ∈ db_work s')) s.
Proof.
  eapply wp_mono; [apply cancel_effect|]. cbv beta.
  intros r s' [[-> H]|(now & t & e & Eg & Ea & Ew)]; [by left|right].
  rewrite Eg, Ea, Ew. split_and!.
  - intros g (x & Hx & ->)%elem_update_where Hid. unfold is_goal in *.
    destruct (String.eqb_spec (g_id x) goal_id); [done|by destruct Hid].
  - intros a (x & Hx & ->)%elem_update_where Hid.
    destruct (String.eqb_spec (at_goal_id x) goal_id) as [_|Hn];
      [|by destruct Hn; destruct (attempt_in _ x)].
    destruct (attempt_in stoppable x) eqn:E; cbn; [set_solver|].
    unfold attempt_in in E. by apply bool_decide_eq_false in E.
  - intros w (x & Hx & ->)%elem_update_where Hid. unfold of_goal in *.
    destruct (String.eqb_spec (wi_goal_id x) goal_id) as [_|Hn];
      [|by destruct Hn; destruct (work_in _ x)].
    destruct (work_in [WSucceeded; WFailed] x) eqn:E; cbn; [by apply work_in_true in E|set_solver].
  - intros w Hw Hid. apply elem_update_where. exists w. split; [done|]. unfold of_goal.
    by apply String.eqb_neq in Hid as ->.
Qed.

(** ** Verification *)

Abbreviation met := (criterion_met artifact_kind_as_str).

Lemma unmet_nil s goal_id criteria :
  unmet_criteria artifact_kind_as_str s goal_id criteria = [] ↔
  ∀ c, c ∈ criteria → met s goal_id (reconciled_outcomes s goal_id) c = true.
Proof.
  unfold unmet_criteria. split.
  - intros H c Hc. apply fmap_nil_inv in H. apply not_false_iff_true. intros Hf.
    assert (Hin : In c []); [|done]. rewrite <- H. apply List.filter_In.
    rewrite Hf. split; [by apply list_elem_of_In|done].
  - intros H. destruct (List.filter _ criteria) as [|c l] eqn:E; [done|].
    assert (Hc : In c (c :: l)) by (by left). rewrite <- E in Hc.
    apply List.filter_In in Hc as [Hc Hf]. rewrite H in Hf; [done|by apply list_elem_of_In].
Qed.

Lemma not_all_met s goal_id (criteria : list AcceptanceCriterion) :
  ¬ (∀ c, c ∈ criteria → met s goal_id (reconciled_outcomes s goal_id) c = true) →
  ∃ c, c ∈ criteria ∧ met s goal_id (reconciled_outcomes s goal_id) c = false.
Proof.
  intros H. rewrite <- Forall_forall in H.
  apply not_Forall_Exists in H; [|intros c; apply _].
  apply Exists_exists in H as (c & Hc & Hn). exists c. split; [done|by apply not_true_iff_false].
Qed.

(** Verification is exact: on a verifying goal it answers with the labels of
    the acceptance criteria of the latest workflow that are not met, and the goal
    becomes achieved, with a new revision, exactly when there is none; otherwise
    only the event log grows. *)
Theorem verification_is_exact goal_id actor s g p :
  List.find (is_goal goal_id) (db_goals s) = Some g → g_status g = Verifying →
  latest_workflow s goal_id = Some p →
  wp (verify_tx artifact_kind_as_str goal_id actor)
     (λ r s',
       r = Ok (criterion_label <$> List.filter
                (λ c, negb (criterion_met artifact_kind_as_str s goal_id
                              (reconciled_outcomes s goal_id) c)) (wr_acceptance p)) ∧
       (∃ ev, db_events s' = db_events s ++ [ev] ∧ ev_goal_id ev = goal_id) ∧
       ((∀ c, c ∈ wr_acceptance p → criterion_met artifact_kind_as_str s goal_id
                (reconciled_outcomes s goal_id) c = true) ∧
        (∃ t, db_goals s' = update_where (λ g, is_goal goal_id g && goal_in [Verifying] g)
           (λ g, set_goal_revision (g_revision g + 1)%Z (set_goal_status Achieved t g))
           (db_goals s)) ∨
        (∃ c, c ∈ wr_acceptance p ∧ criterion_met artifact_kind_as_str s goal_id
                (reconciled_outcomes s goal_id) c = false) ∧ db_goals s' = db_goals s)) s.
Proof.
  intros Hg Hst Hp. unfold verify_tx, goal_row_tx, insert_event.
  wp_step. wp_step. wp_step. wp_step. cbn [tget harness_goals]. rewrite Hg. cbv beta iota.
  apply wp_context; [intros ? [= <-]|done]. rewrite decide_False by congruence. cbv beta iota.
  wp_step. wp_step.
  2: { exfalso. match goal with H : goal_in _ _ = false |- _ => revert H end.
       unfold goal_in. by rewrite Hst. }
  wp_step. wp_step. wp_step. rewrite Hp. apply wp_context; [intros ? [= <-]|done].
  cbv zeta.
  pose proof (unmet_nil s goal_id (wr_acceptance p)) as Hnil.
  destruct (unmet_criteria artifact_kind_as_str s goal_id (wr_acceptance p)) as [|x ul] eqn:E;
    wp_go; try done; (split; [unfold unmet_criteria in E; by rewrite E|]); (split; [by eexists|]).
  - left. split; [by apply Hnil|]. by eexists.
  - right. split; [|done]. apply not_all_met. intros Hall. by apply Hnil in Hall.
Qed.

End goal_ops.
