(* ===== verification/Approval.v ===== *)
(** * Approval

    What [approve_goal] (src/harness/loop_engine/store.rs) guarantees: only the
    reviewed plan is approved, under the policies in force, and what is materialised
    is the reviewed workflow graph; and that dynamic extension stays within it. *)

From S2P Require Import Prelude Text External Domain Tables Signals Artifacts StoreBase StoreGoals.
From S2P Require Import StoreWork StoreExtend Replay Order History Deps Integrity.

(** ** The internal approval policy *)

(** A loop of guards passes when every guard does. *)
Lemma for_res_guard {A} (p : A → bool) (err : A → string) l :
  for_res (λ x (_ : unit), guard_res (p x) (err x)) l tt = Ok tt ↔ ∀ x, x ∈ l → p x = true.
Proof.
  induction l as [|x l IH]; cbn [for_res].
  - split; [|done]. intros _ y Hy. inversion Hy.
  - rewrite guard_then_ok, IH. split.
    + intros [H1 H2] y [->|Hy]%elem_of_cons; auto.
    + intros Hl. split; [apply Hl; left|]. intros y Hy. apply Hl. by right.
Qed.

(** The internal approval policy accepts a plan exactly when every effect of
    its manifest is within the ceiling and its provider budget within the cap. *)
Theorem check_plan_exact `{JsonValue} self workflow manifest :
  check_plan self workflow manifest = Ok tt ↔
  (∀ e, e ∈ manifest → effect_rank e ≤ effect_rank (pol_max_effect self)) ∧
  (max_provider_calls (wf_budget workflow) ≤ pol_max_provider_calls self)%N.
Proof.
  unfold check_plan, effect_le. rewrite bind_ok. split.
  - intros ([] & H1 & H2). apply guard_res_ok, N.leb_le in H2. split; [|done].
    intros e He. by apply Nat.leb_le, (proj1 (for_res_guard _ _ _) H1).
  - intros [H1 H2]. exists tt. split; [|by apply guard_res_ok, N.leb_le].
    apply for_res_guard. intros e He. by apply Nat.leb_le, H1.
Qed.

Lemma manifest_has `{JsonValue} request e :
  e ∈ effect_manifest request ↔
  ∃ step, step ∈ wf_steps (plan_workflow request) ∧ step_effect step = e.
Proof.
  unfold effect_manifest. rewrite list_elem_of_In, List.filter_In, existsb_exists. split.
  - intros [_ (step & Hs & He)]. apply bool_decide_eq_true in He. exists step.
    by rewrite list_elem_of_In.
  - intros (step & Hs & <-). split; [by destruct (step_effect step); cbn; auto|].
    exists step. rewrite <- list_elem_of_In. split; [done|by apply bool_decide_eq_true].
Qed.

(** The effect manifest of a plan lists exactly the effect classes of its steps,
    each once. *)
Theorem effect_manifest_exact `{JsonValue} request :
  (∀ e, e ∈ effect_manifest request ↔
        ∃ step, step ∈ wf_steps (plan_workflow request) ∧ step_effect step = e) ∧
  NoDup (effect_manifest request).
Proof.
  split; [intros e; apply manifest_has|].
  unfold effect_manifest. apply NoDup_ListNoDup, List.NoDup_filter, NoDup_ListNoDup.
  apply (bool_decide_unpack _). vm_compute. exact I.
Qed.

Section approval.
  Context `{ENV : LoopEnv}.

(** ** Materialisation *)

(** The work item of a step. *)
Definition item_for (goal_id workflow_id : string) (edges : list WorkflowEdge)
    (w : work_row) (step : WorkflowStep) : Prop :=
  ∃ id ordinal now, w = new_work_row id goal_id workflow_id step
    (initial_status edges (step_id step)) ordinal now.

Lemma materialize_items goal_id wf edges ordinal sts ids s :
  wp (materialize_steps goal_id wf edges ordinal sts ids)
     (λ r s', match r with
              | Ok ids' => ∃ items, s' = tset harness_work_items (db_work s ++ items) s ∧
                  Forall2 (item_for goal_id wf edges) items sts ∧
                  ∀ k i, ids' !! k = Some i → ids !! k = Some i ∨
                         ∃ w, w ∈ items ∧ wi_step_id w = k ∧ wi_id w = i
              | Err _ => True
              end) s.
Proof.
  revert ordinal ids s. induction sts as [|step sts IH]; intros ordinal ids s;
    cbn [materialize_steps]; cbv zeta.
  { wp_go. exists []. rewrite app_nil_r. split_and!; [by destruct s|constructor|by left]. }
  wp_go; [|done]. eapply wp_mono; [apply IH|]. cbv beta. intros [ids'|e] s'; [|done].
  intros (items & -> & Hf & Hids). cbn. eexists (_ :: items). split_and!.
  - rewrite <- app_assoc. reflexivity.
  - constructor; [by do 3 eexists|exact Hf].
  - intros k j Hk. destruct (Hids k j Hk) as [Hk'|(w & Hw & Hrest)].
    + apply lookup_insert_Some in Hk' as [[<- <-]|[_ Hk']]; [|by left].
      right. eexists. split; [left|]. done.
    + right. exists w. split; [by right|done].
Qed.

Lemma materialize_deps ids edges s :
  wp (materialize_edges ids edges)
     (λ r s', match r with
              | Ok _ => ∃ ds, s' = tset harness_work_item_dependencies (db_deps s ++ ds) s ∧
                  Forall2 (λ d e, ids !! edge_to e = Some (dep_item d) ∧
                                  ids !! edge_from e = Some (dep_on d)) ds edges
              | Err _ => True
              end) s.
Proof.
  unfold materialize_edges, insert_dep. cbv zeta. revert s.
  induction edges as [|e edges IH]; intros s; cbn [foreach].
  { wp_go. exists []. rewrite app_nil_r. split; [by destruct s|constructor]. }
  wp_go; try done. eapply wp_mono; [apply IH|]. cbv beta. intros [[]|err] s'; [|done].
  intros (ds & -> & Hf). cbn. eexists (_ :: ds). split; [rewrite <- app_assoc; reflexivity|].
  by constructor.
Qed.

(** ** The approved store *)

(** What the approval checked. *)
Record approval_checked (policy : InternalApprovalPolicy) (goal_id : string)
    (request : ApproveGoalRequest) (actor : string) (ew : ExternalWritePolicy)
    (s : Db) (g : goal_row) (plan : workflow_row) : Prop := {
  ac_goal : List.find (is_goal goal_id) (db_goals s) = Some g;
  ac_status : g_status g = ReviewReady;
  ac_revision : g_revision g = Z.of_N (expected_goal_revision request);
  ac_plan : plan ∈ db_workflows s ∧ wr_goal_id plan = goal_id ∧
            wr_goal_revision plan = g_revision g;
  ac_newest : ∀ w, w ∈ db_workflows s → wr_goal_id w = goal_id → wr_goal_revision w = g_revision g →
                (wr_created_at w ≤ wr_created_at plan)%Z;
  ac_hash : wr_plan_hash plan = expected_plan_hash request;
  ac_external : ∀ step, step ∈ wf_steps (wr_workflow plan) →
                  step_effect step = ExternalWrite → ew_allows ew (step_handler step) = true;
  ac_internal : actor = INTERNAL_AUTO_ACTOR →
                check_plan policy (wr_workflow plan) (wr_effect_manifest plan) = Ok tt
}.

(** What the approval wrote. *)
Record approval_stored (goal_id : string) (actor : string) (s s' : Db) (plan : workflow_row)
    : Prop := {
  as_approval : ∃ a, db_approvals s' = db_approvals s ++ [a] ∧ ap_goal_id a = goal_id ∧
                  ap_goal_revision a = wr_goal_revision plan ∧
                  ap_plan_hash a = wr_plan_hash plan ∧ ap_approved_by a = actor ∧
                  hash_serializable (wr_workflow plan) = Ok (ap_workflow_hash a) ∧
                  hash_serializable (wr_effect_manifest plan) = Ok (ap_effect_manifest_hash a) ∧
                  hash_serializable (wr_acceptance plan) = Ok (ap_acceptance_hash a) ∧
                  hash_serializable (wf_budget (wr_workflow plan)) = Ok (ap_budget_hash a);
  as_items : ∃ items ds, db_work s' = db_work s ++ items ∧ db_deps s' = db_deps s ++ ds ∧
               Forall2 (item_for goal_id (wr_id plan) (wf_edges (wr_workflow plan))) items
                 (wf_steps (wr_workflow plan)) ∧
               Forall2 (λ d e, ∃ w v, w ∈ items ∧ v ∈ items ∧
                   wi_step_id w = edge_to e ∧ wi_id w = dep_item d ∧
                   wi_step_id v = edge_from e ∧ wi_id v = dep_on d) ds
                 (wf_edges (wr_workflow plan));
  as_goal : ∃ t, db_goals s' = update_where (λ x, is_goal goal_id x && goal_in [ReviewReady] x &&
                (g_revision x =? wr_goal_revision plan)%Z)
              (λ x, set_goal_revision (g_revision x + 1)%Z (set_goal_status Approved t x))
              (db_goals s);
  as_budget : let granted := wf_budget (wr_workflow plan) in
              ∃ others, db_budgets s' = others ++
                [{| b_goal_id := goal_id; b_max_provider_calls := Z.of_N (max_provider_calls granted);
                    b_deadline_secs := Z.of_N (deadline_secs granted);
                    b_max_response_bytes := Z.of_N (max_response_bytes granted);
                    b_provider_calls := 0; b_response_bytes := 0; b_started_at := None |}] ∧
                ∀ b, b ∈ others ↔ b ∈ db_budgets s ∧ b_goal_id b ≠ goal_id;
  as_event : ∃ e, db_events s' = db_events s ++ [e] ∧ ev_goal_id e = goal_id ∧ ev_actor e = actor;
  as_workflows : db_workflows s' = db_workflows s;
  as_attempts : db_attempts s' = db_attempts s ∧ db_checkpoints s' = db_checkpoints s
}.

Lemma foreach_ensure {A} (l : list A) (p : A → bool) (e : A → string) (s : Db) :
  wp (foreach l (λ x, ensure (p x) (e x)))
     (λ r s', s' = s ∧ (is_ok r = true → ∀ x, x ∈ l → p x = true)) s.
Proof.
  induction l as [|x l IH]; cbn [foreach].
  { apply wp_ret. split; [done|]. intros _ x Hx. inversion Hx. }
  wp_go; [|done]. eapply wp_mono; [exact IH|]. cbv beta. intros r s' [-> Hr]. split; [done|].
  intros Hok y [->|Hy]%elem_of_cons; auto.
Qed.

Lemma review_gate policy goal_id request actor ew s :
  wp (reviewed_plan policy goal_id request actor ew)
     (λ r s', s' = s ∧ match r with
                       | Ok plan => ∃ g, approval_checked policy goal_id request actor ew s g plan
                       | Err _ => True
                       end) s.
Proof.
  unfold reviewed_plan, goal_row_tx. wp_go; try done.
  eapply wp_mono; [apply foreach_ensure|]. cbv beta. intros [[]|e] s' [-> Hext]; [|done].
  match goal with H : head (order_by _ _) = Some _ |- _ =>
    apply order_by_least in H as [Hp Hnew]; [|intros *; rewrite ?Z.leb_le, ?Z.leb_gt; lia..] end.
  apply list_elem_of_In, List.filter_In in Hp as [Hp Hq].
  apply andb_true_iff in Hq as [Hq Hrev]. apply String.eqb_eq in Hq. apply Z.eqb_eq in Hrev.
  assert (Hchk : ∀ g plan, List.find (is_goal goal_id) (db_goals s) = Some g →
    goal_in [ReviewReady] g = true →
    (g_revision g =? Z.of_N (expected_goal_revision request))%Z = true →
    In plan (db_workflows s) → wr_goal_id plan = goal_id → wr_goal_revision plan = g_revision g →
    (∀ w, w ∈ List.filter (λ w, String.eqb (wr_goal_id w) goal_id && (wr_goal_revision w =? g_revision g)%Z)
            (db_workflows s) → (wr_created_at w <=? wr_created_at plan)%Z = true) →
    String.eqb (wr_plan_hash plan) (expected_plan_hash request) = true →
    (∀ x, x ∈ wf_steps (wr_workflow plan) → ew_step_ok ew x = true) →
    (actor = INTERNAL_AUTO_ACTOR →
      check_plan policy (wr_workflow plan) (wr_effect_manifest plan) = Ok tt) →
    approval_checked policy goal_id request actor ew s g plan).
  { intros g plan Hg Hst Hr Hin Hgid Hrv Hnw Hh He Hi. unfold goal_in in Hst.
    apply bool_decide_eq_true, list_elem_of_singleton in Hst. apply Z.eqb_eq in Hr.
    apply String.eqb_eq in Hh. rewrite <- list_elem_of_In in Hin. split; try done.
    - intros w Hw Hwg Hwr. apply Z.leb_le, Hnw, list_elem_of_In, List.filter_In.
      split; [by apply list_elem_of_In|]. by rewrite Hwg, Hwr, String.eqb_refl, Z.eqb_refl.
    - intros step Hs Hx. specialize (He step Hs). unfold ew_step_ok in He. by rewrite Hx in He. }
  destruct (String.eqb_spec actor INTERNAL_AUTO_ACTOR) as [Ha|Ha]; wp_go; try done;
    (split; [done|]); eexists; eapply Hchk; try eassumption; try (by apply Hext); try done.
  by destruct a1.
Qed.

Lemma approve_spec policy goal_id request actor ew s :
  wp (approve_tx policy goal_id request actor ew)
     (λ r s', (∃ e, r = Err e) ∧ s' = s ∨
        r = Ok tt ∧ ∃ g plan, approval_checked policy goal_id request actor ew s g plan ∧
          approval_stored goal_id actor s s' plan) s.
Proof.
  unfold approve_tx. apply wp_transaction, wp_bind.
  eapply wp_mono; [apply review_gate|]. cbv beta. intros [plan|e] s0 [-> Hchk]; [|left; eauto].
  destruct Hchk as (g & Hchk). cbv zeta. unfold bind_approval, reset_budget. cbv zeta.
  wp_go; try (left; by eauto).
  eapply wp_mono; [apply materialize_items|]. cbv beta.
  intros [ids|e] s1; [|left; eauto]. intros (items & -> & Hf & Hids). apply wp_bind.
  eapply wp_mono; [apply materialize_deps|]. cbv beta.
  intros [[]|e] s2; [|left; eauto]. intros (ds & -> & Hds). unfold insert_event.
  wp_go; try (left; by eauto). right. split; [done|]. exists g, plan. split; [done|].
  split; cbn in *.
  - eexists. split_and!; try reflexivity; try (by apply Hchk); assumption.
  - exists items, ds. split_and!; [done|done|done|].
    eapply Forall2_impl; [exact Hds|]. intros d e [Ht Hfr].
    apply Hids in Ht as [Ht|(w & Hw & Hw1 & Hw2)]; [by rewrite lookup_empty in Ht|].
    apply Hids in Hfr as [Hfr|(v & Hv & Hv1 & Hv2)]; [by rewrite lookup_empty in Hfr|].
    by exists w, v.
  - by eexists.
  - eexists. split; [reflexivity|]. intros b. rewrite list_elem_of_In, List.filter_In, <- list_elem_of_In.
    unfold is_budget. by rewrite negb_true_iff, String.eqb_neq.
  - by eexists.
  - done.
  - done.
Qed.

(** C5: Approval approves what was reviewed. Either the request is refused and
    nothing changes, or: the goal was [review_ready] at the expected revision; the
    stored plan of that revision has the expected hash; each external-write step is
    allowed by the external-write policy; the generic internal actor passed the
    internal policy; and the store gains one binding approval, one work item per
    step (ready exactly when no edge enters it), one dependency per edge between the
    items of its ends, the fresh budget of the plan in place of any other of the goal, one
    event, and the goal is approved.  The approval carries the hash of the plan and those of
    its workflow, effects, acceptance criteria and budget. *)
Theorem approval_binds_reviewed_plan policy goal_id request actor ew s :
  wp (approve_tx policy goal_id request actor ew)
     (λ r s', (∃ e, r = Err e) ∧ s' = s ∨
        r = Ok tt ∧ ∃ g plan, approval_checked policy goal_id request actor ew s g plan ∧
          approval_stored goal_id actor s s' plan) s.
Proof. apply approve_spec. Qed.

End approval.

(** * Dynamic extension stays within the approval

    What [extend_workflow] (src/harness/loop_engine/store.rs) may add to an approved
    workflow, and the invariant that every work item's effect is in the manifest
    that was reviewed. *)

Section extension.
  Context `{ENV : LoopEnv}.

(** What the first loop checks of a step. *)
Record step_admitted (manifest : list EffectClass) (ew : ExternalWritePolicy)
    (step : WorkflowStep) : Prop := {
  sa_handler : step_handler step ∈ ALLOWED_WORKFLOW_HANDLERS;
  sa_external : step_effect step = ExternalWrite → ew_allows ew (step_handler step) = true;
  sa_effect : step_effect step ∈ manifest;
  sa_attempts : (1 ≤ max_attempts (step_retry step) ≤ 10)%N;
  sa_backoff : (backoff_secs (step_retry step) ≤ 3600)%N
}.

Lemma str_mem_elem s l : str_mem s l = true ↔ s ∈ l.
Proof.
  unfold str_mem. rewrite existsb_exists, list_elem_of_In. split.
  - intros (x & Hx & E). by apply String.eqb_eq in E as ->.
  - intros H. exists s. split; [done|apply String.eqb_refl].
Qed.

Lemma extension_step_ok manifest ew step ids ids' :
  extension_step manifest ew step ids = Ok ids' →
  step_admitted manifest ew step ∧ step_id step ∉ ids ∧ ids' = ids ++ [step_id step].
Proof.
  unfold extension_step. rewrite !guard_then_ok, bind_ok.
  intros (_ & Hd & Hh & He & Hm & Ha & Hb & ok & _ & H).
  apply guard_then_ok in H as [_ H]. injection H as <-.
  apply negb_true_iff, not_true_iff_false in Hd. rewrite str_mem_elem in *.
  split; [|done]. apply bool_decide_eq_true in Hm. apply N.leb_le in Hb.
  apply andb_true_iff in Ha as [Ha1 Ha2]. apply N.leb_le in Ha1, Ha2. split; try done.
  unfold ew_step_ok in He. intros E. by rewrite E in He.
Qed.

Lemma extension_steps_ok manifest ew sts ids ids' :
  for_res (extension_step manifest ew) sts ids = Ok ids' →
  Forall (step_admitted manifest ew) sts ∧ NoDup (step_id <$> sts) ∧
  (∀ step, step ∈ sts → step_id step ∉ ids) ∧ ids' = ids ++ (step_id <$> sts).
Proof.
  revert ids ids'. induction sts as [|step sts IH]; intros ids ids'; cbn [for_res].
  - intros [= <-]. rewrite app_nil_r. split_and!; [constructor|constructor| |done].
    intros step Hs. inversion Hs.
  - intros H. apply bind_ok in H as (ids1 & H1 & H).
    apply extension_step_ok in H1 as (Hadm & Hnew & ->).
    apply IH in H as (Hf & Hn & Hfresh & ->). split_and!; [by constructor| | |].
    + cbn. constructor; [|done]. intros (x & E & Hx)%list_elem_of_fmap.
      apply (Hfresh x Hx), elem_of_app. right. rewrite <- E. left.
    + intros x [->|Hx]%elem_of_cons; [done|]. intros Hin. by apply (Hfresh x Hx), elem_of_app; left.
    + by rewrite <- app_assoc.
Qed.

Definition extension_item (goal_id workflow_id : string) (w : work_row)
    (sd : WorkflowStep * list string) : Prop :=
  ∃ id ordinal now, w = new_work_row id goal_id workflow_id sd.1
    (match sd.2 with [] => WReady | _ => WPending end) ordinal now.

Lemma extend_items_shape goal_id wf ordinal sts s :
  wp (extend_items goal_id wf ordinal sts)
     (λ r s', match r with
              | Ok recs => ∃ items, s' = tset harness_work_items (db_work s ++ items) s ∧
                  Forall2 (extension_item goal_id wf) items sts
              | Err _ => True
              end) s.
Proof.
  revert ordinal s. induction sts as [|[step deps] sts IH]; intros ordinal s;
    cbn [extend_items]; cbv zeta.
  { wp_go. exists []. rewrite app_nil_r. split; [by destruct s|constructor]. }
  wp_go; try done. eapply wp_mono; [apply IH|]. cbv beta. intros [recs|e] s'; [|done].
  intros (items & -> & Hf). wp_go. cbn. eexists (_ :: items).
  split; [rewrite <- app_assoc; reflexivity|]. constructor; [by do 3 eexists|exact Hf].
Qed.

Lemma extend_deps_shape goal_id recs depends_on s :
  wp (extend_deps goal_id recs depends_on)
     (λ r s', ∃ ds, s' = tset harness_work_item_dependencies (db_deps s ++ ds) s) s.
Proof.
  assert (Hnil : ∃ ds, s = tset harness_work_item_dependencies (db_deps s ++ ds) s).
  { exists []. rewrite app_nil_r. by destruct s. }
  assert (Hone : ∀ rec dep s1,
    (∃ ds, s1 = tset harness_work_item_dependencies (db_deps s ++ ds) s) →
    wp (s ← get_db;
        on ← context "failed to resolve depends_on step" (resolve_dep s goal_id recs dep);
        insert_dep (wir_id rec) on)
       (λ r s', ∃ ds, s' = tset harness_work_item_dependencies (db_deps s ++ ds) s) s1).
  { intros rec dep s1 [ds ->]. unfold insert_dep. cbv zeta. wp_go; try by eexists.
    eexists. cbn. by rewrite <- app_assoc. }
  unfold extend_deps.
  apply wp_foreach with (I := λ s', ∃ ds, s' = tset harness_work_item_dependencies (db_deps s ++ ds) s);
    [done| |done].
  intros [rec deps] s1 _ Hs1. cbv beta iota.
  apply wp_foreach with (I := λ s', ∃ ds, s' = tset harness_work_item_dependencies (db_deps s ++ ds) s);
    [done| |done].
  intros dep s2 _ Hs2. eapply wp_mono; [by apply Hone|]. by intros [[]|e] s3.
Qed.

(** What [extensible_workflow] checks. *)
Record extension_checked (goal_id : string) (sts : list WorkflowStep) (s : Db)
    (plan : workflow_row) : Prop := {
  ec_goal : ∃ g, List.find (is_goal goal_id) (db_goals s) = Some g ∧
              goal_in [Approved; Active; Verifying] g = true;
  ec_plan : plan ∈ db_workflows s ∧ wr_goal_id plan = goal_id;
  ec_latest : ∀ w, w ∈ db_workflows s → wr_goal_id w = goal_id → (wr_goal_revision w ≤ wr_goal_revision plan)%Z;
  ec_budget : ∃ max_nodes, swarm_budget (wr_workflow plan) = Ok max_nodes ∧
                (N.of_nat (length (open_items s goal_id) + length sts) ≤ N.min max_nodes 32)%N
}.

Lemma extensible_checked goal_id sts s :
  wp (extensible_workflow goal_id sts)
     (λ r s', s' = s ∧ match r with
                       | Ok plan => extension_checked goal_id sts s plan
                       | Err _ => True
                       end) s.
Proof.
  unfold extensible_workflow, goal_row_tx. wp_go; try done. split; [done|].
  match goal with H : (_ <=? _)%N = true |- _ => apply N.leb_le in H end.
  match goal with H : latest_workflow _ _ = Some _ |- _ => apply latest_workflow_newest in H as (? & ? & ?) end.
  split; [by eexists|done|done|by eexists].
Qed.

(** The tables of work items and workflows are left alone. *)
Definition same_work (s s' : Db) : Prop :=
  db_work s' = db_work s ∧ db_workflows s' = db_workflows s.

#[local] Instance same_work_preorder : PreOrder same_work.
Proof. split; [done|]. intros a b c [H1 H2] [H3 H4]. split; congruence. Qed.

Lemma refresh_same_work goal_id : stable same_work (refresh_goal_status_tx goal_id).
Proof. unfold refresh_goal_status_tx. stable_go. by apply stable_sql_update. Qed.

Lemma extend_spec goal_id sts actor ew s :
  wp (extend_tx goal_id sts actor ew)
     (λ r s', (∃ e, r = Err e) ∧ s' = s ∨
        ∃ plan items, extension_checked goal_id sts s plan ∧
          Forall (step_admitted (wr_effect_manifest plan) ew) sts ∧
          NoDup (step_id <$> sts) ∧
          (∀ step, step ∈ sts → step_id step ∉ (wi_step_id <$> open_items s goal_id)) ∧
          db_work s' = db_work s ++ items ∧ db_workflows s' = db_workflows s ∧
          Forall2 (λ w step, ∃ id ordinal now st,
            w = new_work_row id goal_id (wr_id plan) step st ordinal now ∧
            (st = WReady ∨ st = WPending)) items sts) s.
Proof.
  unfold extend_tx. apply wp_transaction, wp_bind.
  eapply wp_mono; [apply extensible_checked|]. cbv beta. intros [plan|e] s0 [-> Hchk]; [|left; eauto].
  wp_go; try (left; by eauto).
  match goal with H : for_res _ _ _ = Ok _ |- _ =>
    apply extension_steps_ok in H as (Hadm & Hnd & Hfresh & _) end.
  match goal with H : extension_deps _ _ = Ok ?d |- _ =>
    pose proof (extension_deps_length _ _ _ H) as Hlen; set (deps := d) in * end.
  eapply wp_mono; [apply extend_items_shape|]. cbv beta.
  intros [recs|e] s1; [|left; eauto]. intros (items & -> & Hf). apply wp_bind.
  eapply wp_mono; [apply extend_deps_shape|]. cbv beta.
  intros [[]|e] s2 [ds ->]; [|left; eauto]. unfold insert_event. wp_go.
  eapply wp_mono; [apply wp_of_stable, refresh_same_work|]. cbv beta.
  intros [[]|e] s3 [Hw Hwf]; [|left; eauto]. wp_go. right. exists plan, items.
  split_and!; try done.
  assert (Hs : Forall2 (λ w sd, ∃ id ordinal now st,
            w = new_work_row id goal_id (wr_id plan) (sd : WorkflowStep * list string).1 st ordinal now ∧
            (st = WReady ∨ st = WPending)) items (zip sts deps)).
  { eapply Forall2_impl; [exact Hf|]. intros w sd (id & ord & now & ->).
    do 4 eexists. split; [done|]. destruct sd.2; auto. }
  rewrite <- (fst_zip sts deps) at 1 by lia. apply Forall2_fmap_r. exact Hs.
Qed.

(** C15: Extension stays within what was approved: either it is refused and nothing
    changes, or the goal is approved, active or verifying, its workflow of the latest
    revision authorises extension and the open items stay within its [max_nodes] and 32; every new
    step has a registered handler, an effect of the approved manifest, a handler the
    external-write policy allows when it writes externally, 1..=10 attempts, a
    bounded backoff and a step id not in use; and exactly one item per step is added,
    ready or pending. *)
Theorem extension_within_approval goal_id sts actor ew s :
  wp (extend_tx goal_id sts actor ew)
     (λ r s', (∃ e, r = Err e) ∧ s' = s ∨
        ∃ plan items, extension_checked goal_id sts s plan ∧
          Forall (step_admitted (wr_effect_manifest plan) ew) sts ∧
          NoDup (step_id <$> sts) ∧
          (∀ step, step ∈ sts → step_id step ∉ (wi_step_id <$> open_items s goal_id)) ∧
          db_work s' = db_work s ++ items ∧ db_workflows s' = db_workflows s ∧
          Forall2 (λ w step, ∃ id ordinal now st,
            w = new_work_row id goal_id (wr_id plan) step st ordinal now ∧
            (st = WReady ∨ st = WPending)) items sts) s.
Proof. apply extend_spec. Qed.

(** ** Effects *)

(** Manifests are exact, and items stay within them. *)
Definition effect_inv (s : Db) : Prop :=
  (∀ p, p ∈ db_workflows s → ∀ step, step ∈ wf_steps (wr_workflow p) →
        step_effect step ∈ wr_effect_manifest p) ∧
  (∀ w, w ∈ db_work s → ∃ p, p ∈ db_workflows s ∧ wr_id p = wi_workflow_id w ∧
        wr_goal_id p = wi_goal_id w ∧ wi_effect w ∈ wr_effect_manifest p).

Lemma effect_inv_ext s s' :
  db_work s' = db_work s → db_workflows s' = db_workflows s → effect_inv s → effect_inv s'.
Proof. unfold effect_inv. by intros -> ->. Qed.

Lemma effect_work_update p f :
  (∀ w, wi_goal_id (f w) = wi_goal_id w ∧ wi_workflow_id (f w) = wi_workflow_id w ∧
        wi_effect (f w) = wi_effect w) →
  stable (keeps effect_inv) (sql_update harness_work_items p f).
Proof.
  intros Hf. apply stable_sql_update. intros s [H1 H2]. split; [exact H1|].
  intros w' (w & Hw & ->)%elem_update_where. destruct (Hf w) as (E1 & E2 & E3).
  destruct (p w); rewrite ?E1, ?E2, ?E3; by apply H2.
Qed.

Lemma effect_grow s s' items p :
  db_work s' = db_work s ++ items → db_workflows s' = db_workflows s → p ∈ db_workflows s →
  (∀ w, w ∈ items → wi_workflow_id w = wr_id p ∧ wi_goal_id w = wr_goal_id p ∧
        wi_effect w ∈ wr_effect_manifest p) →
  effect_inv s → effect_inv s'.
Proof.
  intros Ew Ewf Hp Hitems [H1 H2]. split; rewrite ?Ew, Ewf; [done|].
  intros w [Hw|Hw]%elem_of_app; [by apply H2|]. destruct (Hitems w Hw) as (E1 & E2 & E3).
  exists p. done.
Qed.

Lemma effect_workflow_insert r c :
  (∀ step, step ∈ wf_steps (wr_workflow r) → step_effect step ∈ wr_effect_manifest r) →
  stable (keeps effect_inv) (sql_insert harness_workflows c r).
Proof.
  intros Hr. apply stable_sql_insert; [typeclasses eauto|]. intros s _ [H1 H2]. split; cbn.
  - intros p [Hp|Hp]%elem_of_app; [by apply H1|]. apply list_elem_of_singleton in Hp as ->.
    exact Hr.
  - intros w Hw. destruct (H2 w Hw) as (p & Hp & Hrest). exists p.
    split; [apply elem_of_app; by left|done].
Qed.
End extension.

#[export] Hint Extern 1 (stable (keeps effect_inv) (sql_update harness_work_items _ _)) =>
  apply effect_work_update; intros ?; row_case; split_and!; reflexivity : stab.
#[export] Hint Extern 1 (stable (keeps effect_inv) (sql_insert harness_workflows _ _)) =>
  apply effect_workflow_insert; intros ? ?; apply manifest_has; by eexists : stab.
#[export] Hint Extern 3 (stable (keeps effect_inv) _) =>
  frame_sql; intros ?; eapply effect_inv_ext; [| |eassumption]; reflexivity : stab.

Section effects.
  Context `{ENV : LoopEnv}.

Lemma effect_approve policy goal_id request actor ew :
  stable (keeps effect_inv) (approve_tx policy goal_id request actor ew).
Proof.
  apply stable_of_wp. intros s. eapply wp_mono; [apply approve_spec|]. cbv beta.
  intros r s' [[_ ->]|(_ & g & plan & Hc & Hs)]; [done|]. intros Hinv.
  destruct (as_items _ _ _ _ _ Hs) as (items & ds & Hw & _ & Hf & _).
  destruct (ac_plan _ _ _ _ _ _ _ _ Hc) as (Hp & Hg & _).
  apply (effect_grow s s' items plan); [exact Hw|by apply Hs|exact Hp| |exact Hinv].
  intros w Hin. apply list_elem_of_lookup in Hin as [i Hi].
  destruct (Forall2_lookup_l _ _ _ _ _ Hf Hi) as (step & Hstep & id & ord & now & ->).
  split_and!; [done|done|]. cbn. apply Hinv; [done|by eapply list_elem_of_lookup_2].
Qed.

Lemma effect_extend goal_id sts actor ew :
  stable (keeps effect_inv) (extend_tx goal_id sts actor ew).
Proof.
  apply stable_of_wp. intros s. eapply wp_mono; [apply extend_spec|]. cbv beta.
  intros r s' [[_ ->]|(plan & items & Hc & Hadm & _ & _ & Hw & Hwf & Hf)]; [done|]. intros Hinv.
  destruct (ec_plan _ _ _ _ Hc) as (Hp & Hg).
  apply (effect_grow s s' items plan); [exact Hw|exact Hwf|exact Hp| |exact Hinv].
  intros w Hin. apply list_elem_of_lookup in Hin as [i Hi].
  destruct (Forall2_lookup_l _ _ _ _ _ Hf Hi) as (step & Hstep & id & ord & now & st & -> & _).
  split_and!; [done|done|]. cbn. rewrite Forall_forall in Hadm.
  eapply sa_effect, Hadm, list_elem_of_lookup_2, Hstep.
Qed.

Lemma effect_recover now e : stable (keeps effect_inv) (recover_expired_tx now e).
Proof. unfold recover_expired_tx. stable_go. Qed.

Lemma effect_refresh goal_id : stable (keeps effect_inv) (refresh_goal_status_tx goal_id).
Proof. unfold refresh_goal_status_tx. stable_go. Qed.

#[local] Hint Resolve effect_recover effect_refresh : stab.

Lemma run_effect_inv a : stable (keeps effect_inv) (run a).
Proof.
  atom_cases a;
    lazymatch goal with
    | |- stable _ (approve_tx _ _ _ _ _) => apply effect_approve
    | |- stable _ (extend_tx _ _ _ _) => apply effect_extend
    | _ => open_op; cbv zeta; stable_go
    end.
Qed.

(** No effect outside the reviewed manifest: in any reachable store every work
    item, dynamically added ones included, belongs to a stored workflow of its goal
    and has an effect class listed in that workflow's effect manifest. *)
Theorem items_stay_within_manifest s w :
  reachable s → w ∈ db_work s →
  ∃ p, p ∈ db_workflows s ∧ wr_id p = wi_workflow_id w ∧ wr_goal_id p = wi_goal_id w ∧
       wi_effect w ∈ wr_effect_manifest p.
Proof.
  intros Hr. assert (Hinv : effect_inv s); [|by apply Hinv]. revert s Hr.
  apply reachable_invariant; [|apply run_effect_inv].
  split; cbn; intros ? H; inversion H.
Qed.
End effects.
