(* ===== verification/WorkOps.v ===== *)
(** * Work operations: parked items, checkpoints and completion

    First, that ambiguous effects wait for the operator; then checkpoints, completion and
    what the work operations do.

    Crash recovery parks an item whose external effect may or may not have landed.
    This file shows when it parks, and that nothing but an operator's verdict (or a
    cancel or replan of the whole goal) moves a parked item. *)

From S2P Require Import Prelude Text External Domain Tables Signals Artifacts StoreBase StoreGoals.
From S2P Require Import StoreWork StoreExtend Replay Order History Leases Deps.

Section parked.
  Context `{ENV : LoopEnv}.

Definition stays_parked (w w' : work_row) : Prop :=
  wi_status w = WWaitingConfirmation → wi_status w' = WWaitingConfirmation.

#[export] Instance stays_parked_preorder : PreOrder stays_parked.
Proof. split; repeat intro; auto. Qed.

Definition parked_le (s s' : Db) : Prop := tbl_le stays_parked (db_work s) (db_work s').

#[export] Instance parked_le_preorder : PreOrder parked_le.
Proof.
  split; [intros s; unfold parked_le; reflexivity|].
  intros a b c. unfold parked_le. intros. by etrans.
Qed.

Lemma parked_same s s' : db_work s' = db_work s → parked_le s s'.
Proof. unfold parked_le. intros ->. reflexivity. Qed.

Lemma parked_update p f :
  (∀ w, p w = true → stays_parked w (f w)) →
  stable parked_le (sql_update harness_work_items p f).
Proof. intros H. apply stable_sql_update. intros s. by apply (tbl_le_update stays_parked). Qed.

Lemma parked_insert c r : stable parked_le (sql_insert harness_work_items c r).
Proof.
  apply stable_sql_insert; [typeclasses eauto|]. intros s _. apply (tbl_le_insert stays_parked).
Qed.

(** An update whose WHERE clause leaves parked items out. *)
Lemma parked_unselected l w w' :
  work_in l w = true → WWaitingConfirmation ∉ l → stays_parked w w'.
Proof.
  unfold work_in. rewrite bool_decide_eq_true. intros Hl Hn E. rewrite E in Hl. done.
Qed.

(** What an operator does to a goal or an item. *)
Definition operator_action (a : atom) : bool :=
  match a with AResolve _ _ _ _ _ | ACancel _ _ _ | AReplan _ _ _ => true | _ => false end.

Definition unattended_step (s s' : Db) : Prop :=
  ∃ a w, operator_action a = false ∧ w_db w = s ∧ w_db (run a w).2 = s'.

(** The statement that ends [recover_expired_tx]. *)
Lemma recover_expired_spec now e s :
  wp (recover_expired_tx now e)
     (λ r s', r = Ok tt ∧ ∃ t, let '(st, _, error, next) := expired_verdict e now in
        db_work s' = update_where (λ w, is_work (ex_id e) w && work_in [WRunning] w)
          (release_work st next (Some error) t) (db_work s)) s.
Proof.
  unfold recover_expired_tx. destruct (expired_verdict e now) as [[[st ast] error] next].
  wp_go; split; try done; eexists; reflexivity.
Qed.
End parked.

Ltac parked_row :=
  let w := fresh "w" in let H := fresh "H" in
  intros w H; cbv beta in H; row_split H;
  first [ eapply parked_unselected; [eassumption|set_solver] | intros ?; assumption ].

#[export] Hint Resolve parked_insert : stab.
#[export] Hint Extern 1 (stable parked_le (sql_update harness_work_items _ _)) =>
  apply parked_update; parked_row : stab.
#[export] Hint Extern 3 (stable parked_le _) =>
  frame_sql; apply parked_same; reflexivity : stab.

Section runs.
  Context `{ENV : LoopEnv}.

Lemma parked_recover now e : stable parked_le (recover_expired_tx now e).
Proof. unfold recover_expired_tx. stable_go. Qed.

Lemma parked_refresh goal_id : stable parked_le (refresh_goal_status_tx goal_id).
Proof. unfold refresh_goal_status_tx. stable_go. Qed.

#[local] Hint Resolve parked_recover parked_refresh : stab.

Lemma run_parked a : operator_action a = false → stable parked_le (run a).
Proof. intros Ha. atom_cases a; try discriminate Ha; open_op; cbv zeta; stable_go. Qed.

Lemma unattended_parked s s' : rtc unattended_step s s' → parked_le s s'.
Proof.
  intros H. induction H as [s|s t u (a & w & Ha & <- & <-) _ IH]; [reflexivity|].
  etrans; [by apply run_parked|exact IH].
Qed.

(** An item parked for confirmation waits for an operator: through any number
    of recoveries, claims, completions, failures, expiries and extensions by anyone,
    its row stays in [waiting_confirmation]. *)
Theorem parked_item_waits_for_operator s s' i w :
  rtc unattended_step s s' → db_work s !! i = Some w →
  wi_status w = WWaitingConfirmation →
  ∃ w', db_work s' !! i = Some w' ∧ wi_status w' = WWaitingConfirmation.
Proof.
  intros Hs%unattended_parked Hi Hst.
  destruct (tbl_le_lookup _ _ _ _ _ Hs Hi) as (w' & Hw' & Hp). exists w'. auto.
Qed.

(** Recovery of an expired lease: an item with an effect that may have landed
    (an external write or a replay-unsafe handler with a prepared checkpoint) is
    parked for confirmation and not run again; otherwise it fails once its attempts
    are used up, and else becomes ready after its backoff. No other row changes. *)
Theorem expired_lease_recovery now e s :
  wp (recover_expired_tx now e)
     (λ r s', r = Ok tt ∧ ∃ t error, db_work s' =
        update_where (λ w, is_work (ex_id e) w && work_in [WRunning] w)
          (if (is_external_write (ex_effect e) && ex_has_prepared e) || ex_has_unsafe_prepared e
           then release_work WWaitingConfirmation None (Some error) t
           else if (ex_max_attempts e <=? ex_attempt_count e)%Z
           then release_work WFailed None (Some error) t
           else release_work WReady (Some (now + ex_backoff_secs e)%Z) (Some error) t)
          (db_work s)) s.
Proof.
  eapply wp_mono; [apply recover_expired_spec|]. cbv beta. unfold expired_verdict, expired_parked.
  intros r s' [-> [t H]]. split; [done|]. exists t.
  destruct (_ || _); [|destruct (_ <=? _)%Z]; eexists; exact H.
Qed.
End runs.

(** * Checkpoints and completion

    Every checkpoint belongs to an attempt on the checkpoint's own work item. With
    that, finishing an attempt settles exactly the claimed work; preparing and
    committing are idempotent; phase progress is capped. *)

Section checkpoints.
  Context `{ENV : LoopEnv}.

(** The attempt of a checkpoint, and the cap on recorded phase boundaries. *)
Record ck_inv (s : Db) : Prop := {
  ci_attempt : ∀ c, c ∈ db_checkpoints s → ∃ a, a ∈ db_attempts s ∧
                 at_id a = cp_attempt_id c ∧ at_work_item_id a = cp_work_item_id c;
  ci_progress : ∀ w p, w ∈ db_work s → wi_progress w = Some p →
                  (prog_continues p ≤ MAX_PHASE_CONTINUES)%N
}.

Lemma ck_inv_ext s s' :
  db_checkpoints s' = db_checkpoints s → db_attempts s' = db_attempts s →
  db_work s' = db_work s → ck_inv s → ck_inv s'.
Proof. intros E1 E2 E3 [H1 H2]. split; by rewrite ?E1, ?E2, ?E3. Qed.

Lemma ck_work_update p f s :
  (∀ w q, wi_progress (f w) = Some q → wi_progress w = Some q ∨
          (prog_continues q ≤ MAX_PHASE_CONTINUES)%N) →
  ck_inv s → ck_inv (tset harness_work_items (update_where p f (db_work s)) s).
Proof.
  intros Hf [H1 H2]. split; [exact H1|]. cbn. intros w' q (w & Hw & ->)%elem_update_where Hq.
  destruct (p w); [|by eapply H2]. apply Hf in Hq as [Hq|Hq]; [by eapply H2|done].
Qed.

Lemma ck_attempts_update p f s :
  (∀ a, p a = true → attempt_rel a (f a)) → ck_inv s →
  ck_inv (tset harness_attempts (update_where p f (db_attempts s)) s).
Proof.
  intros Hf [H1 H2]. split; [|exact H2]. cbn. intros c Hc.
  destruct (H1 c Hc) as (a & Ha & Hid & Hit). exists (if p a then f a else a).
  split; [apply elem_update_where; by exists a|].
  destruct (p a) eqn:E; [|done]. destruct (attempt_rel_fields _ _ (Hf a E)) as (-> & -> & _). done.
Qed.

Lemma ck_attempts_insert r s :
  ck_inv s → ck_inv (tset harness_attempts (db_attempts s ++ [r]) s).
Proof.
  intros [H1 H2]. split; [|exact H2]. cbn. intros c Hc. destruct (H1 c Hc) as (a & Ha & Hrest).
  exists a. split; [apply elem_of_app; by left|done].
Qed.

Lemma ck_checkpoints_update p f s :
  (∀ c, p c = true → checkpoint_rel c (f c)) → ck_inv s →
  ck_inv (tset harness_checkpoints (update_where p f (db_checkpoints s)) s).
Proof.
  intros Hf [H1 H2]. split; [|exact H2]. cbn. intros c' (c & Hc & ->)%elem_update_where.
  destruct (H1 c Hc) as (a & Ha & Hid & Hit). exists a. split; [done|].
  destruct (p c) eqn:E; [|done]. destruct (Hf c E) as [Hs _ _]. unfold checkpoint_static in Hs.
  split; congruence.
Qed.

Lemma ck_new_work goal_id wf : inserts_new_work (keeps ck_inv) goal_id wf.
Proof.
  intros id step st ordinal now r. apply stable_sql_insert; [typeclasses eauto|].
  intros s _ [H1 H2]. split; [exact H1|]. cbn. intros w p [Hw|Hw]%elem_of_app; [by apply H2|].
  by apply list_elem_of_singleton in Hw as ->.
Qed.

(** The current claim's attempt row. *)
Lemma current_attempt s claim f now :
  claim_count s claim f now = 1%Z →
  ∃ a, a ∈ db_attempts s ∧ at_id a = atr_id (wc_attempt claim) ∧
       at_work_item_id a = wir_id (wc_item claim).
Proof.
  intros H. destruct (claim_rows s claim f now) as (w & a & Hw & Ha & Hi & Hid & _ & _ & _ & Hn & _);
    [lia|]. exists a. split_and!; [done..|congruence].
Qed.

Lemma ck_prepare claim key replay_safe actor :
  stable (keeps ck_inv) (prepare_checkpoint claim key replay_safe actor).
Proof.
  apply stable_of_wp. intros s. apply wp_imp. intros Hinv.
  unfold prepare_checkpoint, ensure_claim_current, load_checkpoint_tx, insert_event. cbv zeta.
  wp_go; try done. all: destruct Hinv as [Hca Hcp]; split; [|exact Hcp]; cbn.
  all: intros c [Hc|Hc]%elem_of_app; [by apply Hca|]; apply list_elem_of_singleton in Hc as ->; cbn.
  all: match goal with H : (claim_count _ _ _ _ =? 1)%Z = true |- _ =>
    apply Z.eqb_eq, current_attempt in H end; done.
Qed.

(** What [next_phase_progress] returns. *)
Lemma next_phase_progress_spec work_item_id continuation s :
  wp (next_phase_progress work_item_id continuation)
     (λ r s', s' = s ∧ match r with
        | Ok p => (prog_continues p ≤ MAX_PHASE_CONTINUES)%N ∧
                  prog_phase p = cont_phase continuation
        | Err _ => True end) s.
Proof.
  unfold next_phase_progress. cbv zeta. wp_go; try done. split_and!; [done| |done].
  by apply N.leb_le.
Qed.

Lemma ck_progress claim continuation actor :
  stable (keeps ck_inv) (record_phase_progress claim continuation actor).
Proof.
  apply stable_of_wp. intros s. apply wp_imp. intros Hinv.
  unfold record_phase_progress, ensure_claim_current, insert_event. cbv zeta.
  wp_go; try done. eapply wp_mono; [apply next_phase_progress_spec|]. cbv beta.
  intros [p|e] s' [-> Hp]; [|done]. wp_go.
  apply (ck_inv_ext (tset harness_work_items (update_where (is_work (wir_id (wc_item claim)))
    (λ w, touch_work t (set_progress (Some p) w)) (db_work s)) s)); try done.
  apply ck_work_update; [|done]. cbn. intros w q [= <-]. right. apply Hp.
Qed.

Lemma ck_continue claim continuation actor :
  stable (keeps ck_inv) (continue_tx claim continuation actor).
Proof.
  apply stable_of_wp. intros s. apply wp_imp. intros Hinv.
  unfold continue_tx, ensure_claim_current, void_prepared_tx, insert_event. cbv zeta.
  wp_go; try done. eapply wp_mono; [apply next_phase_progress_spec|]. cbv beta.
  intros [p|e] s' [-> Hp]; [|done]. wp_go; try done.
  eapply ck_inv_ext; [| | |apply ck_work_update; [|apply ck_attempts_update;
    [|apply ck_checkpoints_update; [|exact Hinv]]]]; try reflexivity.
  - cbn. intros w q [= <-]. right. apply Hp.
  - row_step.
  - row_step.
Qed.
End checkpoints.

Ltac ck_row := intros ? ?; row_case; cbn; (by left) || done.

#[export] Hint Resolve ck_new_work : stab.
#[export] Hint Extern 1 (stable (keeps ck_inv) (sql_update harness_work_items _ _)) =>
  apply stable_sql_update; intros ? ?; apply ck_work_update; [ck_row|assumption] : stab.
#[export] Hint Extern 1 (stable (keeps ck_inv) (sql_update harness_attempts _ _)) =>
  apply stable_sql_update; intros ? ?; apply ck_attempts_update; [row_step|assumption] : stab.
#[export] Hint Extern 1 (stable (keeps ck_inv) (sql_update harness_checkpoints _ _)) =>
  apply stable_sql_update; intros ? ?; apply ck_checkpoints_update; [row_step|assumption] : stab.
#[export] Hint Extern 1 (stable (keeps ck_inv) (sql_insert harness_attempts _ _)) =>
  apply stable_sql_insert; [typeclasses eauto|]; intros ? _ ?; by apply ck_attempts_insert : stab.
#[export] Hint Extern 3 (stable (keeps ck_inv) _) =>
  frame_sql; intros ?; eapply ck_inv_ext; [| | |eassumption]; reflexivity : stab.

Section runs.
  Context `{ENV : LoopEnv}.

Lemma ck_recover now e : stable (keeps ck_inv) (recover_expired_tx now e).
Proof.
  unfold recover_expired_tx, expired_verdict.
  destruct (expired_parked e), (ex_max_attempts e <=? ex_attempt_count e)%Z;
    cbv zeta iota; stable_go.
Qed.

Lemma ck_refresh goal_id : stable (keeps ck_inv) (refresh_goal_status_tx goal_id).
Proof. unfold refresh_goal_status_tx. stable_go. Qed.

#[local] Hint Resolve ck_recover ck_refresh : stab.

Lemma run_ck_inv a : stable (keeps ck_inv) (run a).
Proof.
  atom_cases a;
    lazymatch goal with
    | |- stable _ (prepare_checkpoint _ _ _ _) => apply ck_prepare
    | |- stable _ (record_phase_progress _ _ _) => apply ck_progress
    | |- stable _ (continue_tx _ _ _) => apply ck_continue
    | _ => open_op; cbv zeta; stable_go
    end.
Qed.

Lemma reachable_ck_inv s : reachable s → ck_inv s.
Proof.
  apply reachable_invariant; [|apply run_ck_inv].
  split; cbn; [intros ? H|intros ? ? H]; inversion H.
Qed.

(** Phase progress is capped: in any reachable store no work item has recorded
    more than [MAX_PHASE_CONTINUES] phase boundaries. *)
Theorem phase_progress_is_capped s w p :
  reachable s → w ∈ db_work s → wi_progress w = Some p →
  (prog_continues p ≤ MAX_PHASE_CONTINUES)%N.
Proof. intros Hr. apply (ci_progress _ (reachable_ck_inv _ Hr)). Qed.
End runs.

(** * What the work operations do

    Functional specifications of the operations a worker makes with a claim:
    preparing, committing, finishing and failing. *)

Section work_ops.
  Context `{ENV : LoopEnv}.

(** A claim that passed the check, in a reachable store: its rows. *)
Record claim_holds (s : Db) (claim : WorkClaim) (w : work_row) (a : attempt_row) : Prop := {
  ch_work : w ∈ db_work s;
  ch_attempt : a ∈ db_attempts s;
  ch_item : wi_id w = wir_id (wc_item claim);
  ch_attempt_item : at_work_item_id a = wi_id w;
  ch_id : at_id a = atr_id (wc_attempt claim);
  ch_running : work_in [WRunning] w = true;
  ch_live : live_attempt a = true;
  ch_token : wi_lease_token w = Some (atr_lease_token (wc_attempt claim));
  ch_fenced : wi_fencing_token w = at_fencing_token a
}.

Lemma current_holds s claim f now :
  claim_count s claim f now = 1%Z → ∃ w a, claim_holds s claim w a.
Proof.
  intros H. assert (Hp : claim_count s claim f now ≠ 0%Z) by lia.
  apply count_where_pos in Hp as ([w a] & Hin & Hm).
  apply list_elem_of_In, in_prod_iff in Hin as [Hw Ha]. rewrite <- !list_elem_of_In in *.
  unfold claim_matches in Hm. rewrite !andb_true_iff, !String.eqb_eq in Hm.
  exists w, a. destruct Hm as [[[[[[[[[[H1 H2] H3] H4] H5] H6] H7] H8] H9] H10] H11].
  apply bool_decide_eq_true in H5. apply Z.eqb_eq in H6, H10. split; congruence.
Qed.

Lemma current_spec claim s :
  wp (ensure_claim_current claim)
     (λ r s', s' = s ∧ match r with
        | Ok _ => ∃ w a, claim_holds s claim w a
        | Err _ => True end) s.
Proof.
  unfold ensure_claim_current. wp_go; try done. split; [done|].
  match goal with H : (_ =? 1)%Z = true |- _ => apply Z.eqb_eq in H end.
  by eapply current_holds.
Qed.

Lemma attempt_unique s a b :
  work_inv s → a ∈ db_attempts s → b ∈ db_attempts s → at_id a = at_id b → a = b.
Proof.
  intros Hinv Ha Hb E. apply list_elem_of_lookup in Ha as [i Hi], Hb as [j Hj].
  assert (i = j) as ->; [|congruence].
  eapply NoDup_lookup; [exact (inv_attempt_ids _ Hinv)|rewrite list_lookup_fmap, Hi; reflexivity|].
  rewrite list_lookup_fmap, Hj. cbn. congruence.
Qed.

(** A checkpoint of the claim's attempt is a checkpoint of the claim's item. *)
Lemma checkpoint_item s claim w a c :
  reachable s → claim_holds s claim w a → c ∈ db_checkpoints s →
  cp_attempt_id c = atr_id (wc_attempt claim) → cp_work_item_id c = wi_id w.
Proof.
  intros Hr Hh Hc E. destruct (ci_attempt _ (reachable_ck_inv _ Hr) c Hc) as (b & Hb & Hid & Hit).
  assert (a = b) as ->.
  { eapply attempt_unique; [by apply reachable_work_inv|apply Hh|done|].
    rewrite (ch_id _ _ _ _ Hh). congruence. }
  rewrite <- Hit. apply Hh.
Qed.

(** Goals and events may change; nothing else. *)
Definition same_rows (s s' : Db) : Prop :=
  db_work s' = db_work s ∧ db_attempts s' = db_attempts s ∧
  db_checkpoints s' = db_checkpoints s ∧ db_deps s' = db_deps s.

#[local] Instance same_rows_preorder : PreOrder same_rows.
Proof.
  split; [done|]. intros a b c (H1 & H2 & H3 & H4) (H5 & H6 & H7 & H8).
  split_and!; congruence.
Qed.

Lemma refresh_same_rows goal_id : stable same_rows (refresh_goal_status_tx goal_id).
Proof. unfold refresh_goal_status_tx. stable_go. by apply stable_sql_update. Qed.

Lemma event_same_rows goal_id ty actor d : stable same_rows (insert_event goal_id ty actor d).
Proof.
  unfold insert_event. stable_go. by apply stable_sql_insert; [typeclasses eauto|].
Qed.

Lemma elem_update_keep {Row} (p : Row → bool) f l r :
  r ∈ l → p r = false → r ∈ update_where p f l.
Proof. intros Hr Hp. apply elem_update_where. exists r. by rewrite Hp. Qed.

Lemma elem_update_move {Row} (p : Row → bool) f l r :
  r ∈ l → p r = true → f r ∈ update_where p f l.
Proof. intros Hr Hp. apply elem_update_where. exists r. by rewrite Hp. Qed.

(** The tables after a finish, as updates of the tables before. *)
Lemma finish_effect claim checkpoint_id actor s :
  wp (finish_tx claim checkpoint_id actor)
     (λ r s', (∃ e, r = Err e) ∧ s' = s ∨
        r = Ok tt ∧ ∃ w a c t1 t2 t3 t4 p,
          claim_holds s claim w a ∧ c ∈ db_checkpoints s ∧ cp_id c = checkpoint_id ∧
          cp_attempt_id c = atr_id (wc_attempt claim) ∧ cp_phase c = Committed ∧
          db_checkpoints s' = update_where (λ x, is_checkpoint checkpoint_id x && phase_is Committed x)
            (set_phase Reconciled t1) (db_checkpoints s) ∧
          db_attempts s' = update_where
            (λ x, is_attempt (atr_id (wc_attempt claim)) x && live_attempt x)
            (end_attempt ASucceeded t2 None) (db_attempts s) ∧
          db_work s' = update_where (λ x, work_in [WPending] x && p x) (set_work_status WReady t4)
            (update_where (λ x, is_work (cp_work_item_id c) x && work_in [WRunning] x)
              (λ x, set_progress None (release_work WSucceeded None None t3 x)) (db_work s))) s.
Proof.
  unfold finish_tx. cbv zeta. apply wp_transaction, wp_bind.
  eapply wp_mono; [apply current_spec|]. cbv beta. intros [[]|e] s0 [-> Hh]; [|left; eauto].
  destruct Hh as (w & a & Hh). unfold load_checkpoint_tx, reconcile_checkpoint_tx, unlock_ready_work_tx.
  wp_go; try (left; by eauto).
  match goal with H : List.find _ _ = Some ?c0 |- _ => rename H into Hfind, c0 into c end.
  apply List.find_some in Hfind as [Hc Hcid]. apply list_elem_of_In in Hc.
  apply String.eqb_eq in Hcid.
  match goal with H : (_ && _) = true |- _ => apply andb_true_iff in H as [Hatt Hph] end.
  cbn in Hatt, Hph. apply String.eqb_eq in Hatt. apply bool_decide_eq_true in Hph.
  eapply wp_mono; [apply wp_of_stable, refresh_same_rows|]. cbv beta.
  intros [[]|e] s1 (E1 & E2 & E3 & _); [|left; eauto].
  eapply wp_mono; [apply wp_of_stable, event_same_rows|]. cbv beta.
  intros [[]|e] s2 (F1 & F2 & F3 & _); [|left; eauto]. right. split; [done|].
  rewrite F1, F2, F3, E1, E2, E3. cbn. rewrite Hcid, Hatt.
  exists w, a, c. do 4 eexists. eexists (λ x, of_goal _ x && deps_satisfied _ x).
  split_and!; try done. apply update_where_ext. intros x.
  rewrite (andb_comm (of_goal _ x)), <- andb_assoc. reflexivity.
Qed.

(** C6: Finishing settles the claimed work and nothing else that was started. In a
    reachable store, either it is refused and nothing changes, or the claim was
    current, the checkpoint was a committed one of its attempt and keeps its outcome
    as a reconciled one, the attempt and the item have succeeded, the item's lease
    and progress are cleared, and every other item that was not pending is as it was. *)
Theorem finish_settles_the_claim claim checkpoint_id actor s :
  reachable s →
  wp (finish_tx claim checkpoint_id actor)
     (λ r s', (∃ e, r = Err e) ∧ s' = s ∨
        r = Ok tt ∧ ∃ w a c w' a' c',
          claim_holds s claim w a ∧
          c ∈ db_checkpoints s ∧ cp_id c = checkpoint_id ∧ cp_phase c = Committed ∧
          cp_attempt_id c = at_id a ∧
          c' ∈ db_checkpoints s' ∧ cp_id c' = checkpoint_id ∧ cp_phase c' = Reconciled ∧
          cp_outcome c' = cp_outcome c ∧
          a' ∈ db_attempts s' ∧ at_id a' = at_id a ∧ at_status a' = ASucceeded ∧
          w' ∈ db_work s' ∧ wi_id w' = wi_id w ∧ wi_status w' = WSucceeded ∧
          wi_lease_token w' = None ∧ wi_progress w' = None ∧
          (∀ x, x ∈ db_work s → wi_id x ≠ wi_id w → wi_status x ≠ WPending → x ∈ db_work s')) s.
Proof.
  intros Hr. eapply wp_mono; [apply finish_effect|]. cbv beta.
  intros r s' [H|(-> & w & a & c & t1 & t2 & t3 & t4 & p & Hh & Hc & Hcid & Hatt & Hph & Eck & Eat & Ew)];
    [by left|right; split; [done|]].
  pose proof (checkpoint_item _ _ _ _ _ Hr Hh Hc Hatt) as Hitem.
  pose proof (ch_running _ _ _ _ Hh) as Hrun. pose proof (ch_id _ _ _ _ Hh) as Hid.
  assert (Hwk : is_work (cp_work_item_id c) w && work_in [WRunning] w = true).
  { unfold is_work. by rewrite Hitem, String.eqb_refl. }
  exists w, a, c, (set_progress None (release_work WSucceeded None None t3 w)),
    (end_attempt ASucceeded t2 None a), (set_phase Reconciled t1 c).
  split_and!; try done; try congruence.
  - rewrite Eck. apply (elem_update_move _ (set_phase Reconciled t1)); [exact Hc|].
    unfold is_checkpoint, phase_is. by rewrite Hcid, String.eqb_refl, Hph.
  - rewrite Eat. apply (elem_update_move _ (end_attempt ASucceeded t2 None)); [apply Hh|].
    unfold is_attempt. by rewrite Hid, String.eqb_refl, (ch_live _ _ _ _ Hh).
  - rewrite Ew. apply elem_update_keep; [|done].
    by apply (elem_update_move _ (λ x, set_progress None (release_work WSucceeded None None t3 x)));
      [apply Hh|].
  - intros x Hx Hne Hst. rewrite Ew. apply elem_update_keep; [apply elem_update_keep; [done|]|].
    + unfold is_work. rewrite Hitem. by apply String.eqb_neq in Hne as ->.
    + unfold work_in. rewrite bool_decide_eq_false_2; [done|]. set_solver.
Qed.

Lemma find_work_unique s w x :
  work_inv s → w ∈ db_work s → List.find (is_work (wi_id w)) (db_work s) = Some x → x = w.
Proof.
  intros Hinv Hw Hf. apply List.find_some in Hf as [Hx Hid]. apply String.eqb_eq in Hid.
  eapply work_unique; [done|by apply list_elem_of_In|done|done].
Qed.

(** Two rows of one item: the same task, at the same place of the same workflow. *)
Record same_task (x x' : work_row) : Prop := {
  st_id : wi_id x' = wi_id x;
  st_goal : wi_goal_id x' = wi_goal_id x ∧ wi_workflow_id x' = wi_workflow_id x ∧ wi_step_id x' = wi_step_id x;
  st_call : wi_handler x' = wi_handler x ∧ wi_effect x' = wi_effect x ∧ wi_input x' = wi_input x;
  st_retry : wi_max_attempts x' = wi_max_attempts x ∧ wi_backoff_secs x' = wi_backoff_secs x;
  st_place : wi_ordinal x' = wi_ordinal x ∧ wi_created_at x' = wi_created_at x;
  st_progress : wi_fencing_token x' = wi_fencing_token x ∧ wi_progress x' = wi_progress x
}.

(** The row of the item whose attempt failed at [t]. *)
Record failed_item (retry : Prop) (error : string) (t : Z) (x x' : work_row) : Prop := {
  fi_task : same_task x x';
  fi_lease : wi_lease_token x' = None ∧ wi_lease_until x' = None;
  fi_error : wi_last_error x' = Some error;
  fi_retry : retry → wi_status x' = WReady ∧ wi_next_attempt_at x' = Some (t + wi_backoff_secs x)%Z;
  fi_final : ¬ retry → wi_status x' = WFailed ∧ wi_next_attempt_at x' = None
}.

(** The row of an item that was not started and waits for the failed one. *)
Record blocked_item (x x' : work_row) : Prop := {
  bi_task : same_task x x';
  bi_status : wi_status x' = WBlocked;
  bi_lease : wi_lease_token x' = wi_lease_token x ∧ wi_lease_until x' = wi_lease_until x;
  bi_rest : wi_next_attempt_at x' = wi_next_attempt_at x ∧ wi_last_error x' = wi_last_error x
}.

(** Through one dependency row or several, and not started. *)
Definition held_up_by (s : Db) (w x : work_row) : Prop :=
  tc (waits_on (db_deps s)) (wi_id w) (wi_id x) ∧ (wi_status x = WPending ∨ wi_status x = WReady).

Definition after_failure (retry : Prop) (s : Db) (w : work_row) (error : string) (t : Z) (x x' : work_row) : Prop :=
  (wi_id x = wi_id w → failed_item retry error t x x') ∧
  (wi_id x ≠ wi_id w → ¬ retry → held_up_by s w x → blocked_item x x') ∧
  (wi_id x ≠ wi_id w → retry ∨ ¬ held_up_by s w x → x' = x).

Definition after_failed_attempt (a : attempt_row) (error : string) (x x' : attempt_row) : Prop :=
  (at_id x = at_id a → at_status x' = AFailed ∧ at_error x' = Some error ∧ is_Some (at_finished_at x') ∧
     at_id x' = at_id x ∧ at_work_item_id x' = at_work_item_id x ∧ at_number x' = at_number x) ∧
  (at_id x ≠ at_id a → x' = x).

Lemma Forall2_map_in {Row} (P : Row → Row → Prop) (f : Row → Row) (l : list Row) :
  (∀ x, x ∈ l → P x (f x)) → Forall2 P l (map f l).
Proof.
  induction l as [|x l IH]; intros H; constructor; [apply H; left|]. apply IH. intros y Hy. apply H. by right.
Qed.

Lemma held_up_spec s w x :
  str_mem (wi_id x) (downstream (db_deps s) (wi_id w)) && work_in [WPending; WReady] x = true ↔ held_up_by s w x.
Proof.
  unfold held_up_by, work_in. rewrite andb_true_iff, str_mem_true, downstream_waits, bool_decide_eq_true.
  rewrite !elem_of_cons, elem_of_nil. tauto.
Qed.

Lemma failed_attempt_rows s a t error :
  work_inv s → a ∈ db_attempts s → live_attempt a = true →
  Forall2 (after_failed_attempt a error) (db_attempts s)
    (update_where (λ x, is_attempt (at_id a) x && live_attempt x) (end_attempt AFailed t (Some error)) (db_attempts s)).
Proof.
  intros Hinv Ha Hl. apply Forall2_map_in. intros x Hx. unfold is_attempt. split.
  - intros E. assert (x = a) as -> by (by eapply attempt_unique). by rewrite String.eqb_refl, Hl.
  - intros E%String.eqb_neq. by rewrite E.
Qed.

Lemma retried_rows s w t t' error (retry : Prop) :
  work_inv s → w ∈ db_work s → work_in [WRunning] w = true → retry →
  Forall2 (after_failure retry s w error t) (db_work s)
    (update_where (λ x, is_work (wi_id w) x && work_in [WRunning] x)
       (release_work WReady (Some (t + wi_backoff_secs w)%Z) (Some error) t') (db_work s)).
Proof.
  intros Hinv Hw Hrun Hretry. apply Forall2_map_in. intros x Hx. unfold is_work. split_and!.
  - intros E. assert (x = w) as -> by (by eapply work_unique). rewrite String.eqb_refl, Hrun. by repeat split.
  - by intros _ H.
  - intros E%String.eqb_neq _. by rewrite E.
Qed.

Lemma blocked_rows s w t t' t4 error (retry : Prop) :
  work_inv s → w ∈ db_work s → work_in [WRunning] w = true → ¬ retry →
  Forall2 (after_failure retry s w error t) (db_work s)
    (update_where (λ x, str_mem (wi_id x) (downstream (db_deps s) (wi_id w)) && work_in [WPending; WReady] x)
       (set_work_status WBlocked t4)
       (update_where (λ x, is_work (wi_id w) x && work_in [WRunning] x) (release_work WFailed None (Some error) t')
          (db_work s))).
Proof.
  intros Hinv Hw Hrun Hfinal. unfold update_where. rewrite map_map. apply Forall2_map_in.
  intros x Hx. unfold is_work. split_and!.
  - intros E. assert (x = w) as -> by (by eapply work_unique). rewrite String.eqb_refl, Hrun. cbn [andb].
    assert (Hst : work_in [WPending; WReady] (release_work WFailed None (Some error) t' w) = false) by done.
    rewrite Hst, andb_false_r. by repeat split.
  - intros E%String.eqb_neq _ Hheld%held_up_spec. rewrite E. cbn [andb]. rewrite Hheld. by repeat split.
  - intros E%String.eqb_neq [?|Hheld]; [done|]. rewrite E. cbn [andb].
    destruct (str_mem _ _ && _) eqn:Eh; [|done]. by apply held_up_spec in Eh.
Qed.

(** C14: Failing an attempt: in a reachable store, either it is refused and nothing
    changes, or the claim was current, its attempt has failed with the error and no other
    attempt or checkpoint has changed.  While a retryable failure has attempts left, the
    item is ready after its backoff, counted from the clock; otherwise it has failed, and
    of the others exactly those that had not started and wait for it, directly or through
    others, are blocked.  Every other item is as it was. *)
Theorem failure_retries_or_blocks claim error retryable actor s :
  reachable s →
  wp (fail_tx claim error retryable actor)
     (λ r s', (∃ e, r = Err e) ∧ s' = s ∨
        r = Ok tt ∧ ∃ w a t,
          claim_holds s claim w a ∧ clock_reading t ∧
          Forall2 (after_failed_attempt a error) (db_attempts s) (db_attempts s') ∧
          db_checkpoints s' = db_checkpoints s ∧
          Forall2 (after_failure (retryable = true ∧ (attempt_count s (wi_id w) < wi_max_attempts w)%Z) s w error t)
            (db_work s) (db_work s')) s.
Proof.
  intros Hr. apply reachable_work_inv in Hr as Hinv. unfold fail_tx. cbv zeta.
  apply wp_transaction, wp_bind.
  eapply wp_mono; [apply current_spec|]. cbv beta. intros [[]|e] s0 [-> Hh]; [|left; eauto].
  destruct Hh as (w & a & Hh). pose proof (ch_item _ _ _ _ Hh) as Hid.
  pose proof (ch_id _ _ _ _ Hh) as Haid. rewrite <- Hid, <- Haid.
  do 4 wp_step; cbv beta iota; [|left; by eauto].
  match goal with H : List.find _ _ = Some ?x |- _ =>
    assert (x = w) as -> by (eapply find_work_unique; [exact Hinv|apply Hh|exact H]) end.
  wp_step. wp_step. cbv beta iota zeta.
  assert (Hretry : retryable && (attempt_count s (wi_id w) <? wi_max_attempts w)%Z = true ↔
                   retryable = true ∧ (attempt_count s (wi_id w) < wi_max_attempts w)%Z)
    by (by rewrite andb_true_iff, Z.ltb_lt).
  set (retry := retryable && _) in *.
  do 4 wp_step. apply wp_bind, wp_unix_now_reading. intros tr Htr. cbv beta iota.
  destruct retry eqn:Eretry; wp_go.
  all: eapply wp_mono; [apply wp_of_stable, refresh_same_rows|]; cbv beta;
    intros [[]|e] s1 (E1 & E2 & E3 & _); [|left; eauto];
    eapply wp_mono; [apply wp_of_stable, event_same_rows|]; cbv beta;
    intros [[]|e] s2 (F1 & F2 & F3 & _); [|left; eauto]; right; split; [done|];
    exists w, a, tr; rewrite F1, F2, F3, E1, E2, E3; cbn;
    (split_and!; [done|done|apply failed_attempt_rows; [done|apply Hh..]|done|]).
  - apply retried_rows; [done|apply Hh..|by apply Hretry].
  - apply blocked_rows; [done|apply Hh..|]. by rewrite <- Hretry.
Qed.

(** Checkpoints are idempotent: preparing again under a key the item already
    used stores nothing and answers with the existing checkpoint, or is refused when
    it belongs to another attempt; committing a committed checkpoint again stores
    nothing and answers with it, or is refused when the outcome differs. *)
Theorem checkpoints_are_idempotent claim key replay_safe outcome actor s c :
  (List.find (λ c, String.eqb (cp_work_item_id c) (wir_id (wc_item claim)) &&
                   String.eqb (cp_idempotency_key c) key) (db_checkpoints s) = Some c →
   wp (prepare_checkpoint claim key replay_safe actor)
      (λ r s', s' = s ∧ match r with
         | Ok checkpoint => checkpoint = decode_checkpoint c ∧
                            cp_attempt_id c = atr_id (wc_attempt claim)
         | Err _ => True end) s) ∧
  (List.find (is_checkpoint (cp_id c)) (db_checkpoints s) = Some c → cp_phase c = Committed →
   wp (commit_checkpoint claim (cp_id c) outcome actor)
      (λ r s', s' = s ∧ match r with
         | Ok checkpoint => checkpoint = decode_checkpoint c ∧
                            outcome_eqb (cp_outcome c) (Some outcome) = true
         | Err _ => True end) s).
Proof.
  split.
  - intros Hc. unfold prepare_checkpoint. cbv zeta. wp_go; try done.
    eapply wp_mono; [apply current_spec|]. cbv beta. intros [[]|e] s0 [-> _]; [|done].
    wp_step. wp_step. cbn [tget harness_checkpoints]. rewrite Hc. cbv beta iota.
    wp_go; try done. split_and!; [done|done|by apply String.eqb_eq].
  - intros Hc Hph. unfold commit_checkpoint. cbv zeta. wp_step. wp_step. cbv beta.
    destruct (ensure_valid_id _ _); [|done]. apply wp_transaction, wp_bind.
    eapply wp_mono; [apply current_spec|]. cbv beta. intros [[]|e] s0 [-> _]; [|done].
    unfold load_checkpoint_tx. do 3 wp_step. cbn [tget harness_checkpoints]. rewrite Hc.
    wp_step. apply wp_context; [intros ? [= <-]|done]. wp_step. wp_step. wp_step; [|done].
    cbn [cpr_phase decode_checkpoint]. rewrite decide_True by done. by wp_go.
Qed.
End work_ops.
