(* ===== verification/Progress.v ===== *)
(** * Phase progress only grows, so the phase loop ends

    The count of committed phase boundaries of a work item never decreases while
    the item has not succeeded, whatever transactions run.  A worker's phase loop
    commits one boundary per turn, and the store refuses the 65th: the [loop] of
    [process_claim] runs its handler at most 65 times, for any handler that changes
    the store through the engine only. *)

From S2P Require Import Prelude Text Strings Messages External Domain Tables Signals.
From S2P Require Import Artifacts StoreBase StoreGoals StoreWork StoreExtend Replay.
From S2P Require Import Engine Worker Order History Operations Leases.
From S2P Require Import WorkOps.

Section progress.
  Context `{ENV : LoopEnv}.

Definition continues (w : work_row) : N :=
  match wi_progress w with Some p => prog_continues p | None => 0%N end.

Record prog_rel (w w' : work_row) : Prop := {
  pr_id : wi_id w' = wi_id w;
  pr_done : wi_status w = WSucceeded → wi_status w' = WSucceeded;
  pr_continues : wi_status w' = WSucceeded ∨ (continues w ≤ continues w')%N
}.

#[export] Instance prog_rel_preorder : PreOrder prog_rel.
Proof.
  split; [intros w; split; [done|done|by right]|].
  intros a b c [I1 D1 C1] [I2 D2 C2]. split; [congruence|auto|].
  destruct C1 as [C1|C1]; [auto|]. destruct C2 as [C2|C2]; [auto|right; lia].
Qed.

(** The item with the id is still there and has moved by [prog_rel]. *)
Definition prog_le (id : string) (s s' : Db) : Prop :=
  ∀ w, List.find (is_work id) (db_work s) = Some w →
  ∃ w', List.find (is_work id) (db_work s') = Some w' ∧ prog_rel w w'.

#[export] Instance prog_le_preorder id : PreOrder (prog_le id).
Proof.
  split; [intros s w Hw; exists w; by split|].
  intros a b c H1 H2 w Hw. destruct (H1 w Hw) as (x & Hx & Hwx).
  destruct (H2 x Hx) as (y & Hy & Hxy). exists y. split; [done|by etrans].
Qed.

Lemma prog_le_ext id s s' : db_work s' = db_work s → prog_le id s s'.
Proof. intros E w Hw. exists w. rewrite E. by split. Qed.

Lemma prog_work_update id p f s :
  (∀ x, wi_id (f x) = wi_id x) → (∀ w, is_work id w = true → p w = true → prog_rel w (f w)) →
  prog_le id s (tset harness_work_items (update_where p f (db_work s)) s).
Proof.
  intros Hid Hf w Hw. exists (if p w then f w else w). split; [by apply find_update|].
  apply List.find_some in Hw as [_ Hw]. destruct (p w) eqn:E; [by apply Hf|reflexivity].
Qed.

Lemma prog_new_work id goal_id wf : inserts_new_work (prog_le id) goal_id wf.
Proof.
  intros i step st ordinal now r. apply stable_sql_insert; [typeclasses eauto|].
  intros s _ w Hw. exists w. split; [|reflexivity]. cbn.
  revert Hw. induction (db_work s) as [|x l IH]; cbn; [done|]. by destruct (is_work id x).
Qed.

(** ** The two operations that record a boundary *)

Lemma next_phase_exact work_item_id continuation s :
  wp (next_phase_progress work_item_id continuation)
     (λ r s', s' = s ∧ match r with
        | Ok p => ∃ w, List.find (is_work work_item_id) (db_work s) = Some w ∧
            prog_continues p = (continues w + 1)%N ∧ (continues w + 1 <= MAX_PHASE_CONTINUES)%N
        | Err _ => True end) s.
Proof.
  unfold next_phase_progress, continues, MAX_PHASE_CONTINUES. cbv zeta. wp_go; try done.
  split; [done|]. eexists. split; [eassumption|]. cbn [prog_continues]. rewrite N.leb_le in *. lia.
Qed.

Lemma prog_set id item p f q s :
  (∀ x, wi_id (f x) = wi_id x) → (∀ x, wi_status x = WSucceeded → q x = true → wi_status (f x) = WSucceeded) →
  (∀ x, wi_progress (f x) = Some p) →
  (∃ w, List.find (is_work item) (db_work s) = Some w ∧ prog_continues p = (continues w + 1)%N) →
  prog_le id s (tset harness_work_items (update_where (λ x, is_work item x && q x) f (db_work s)) s).
Proof.
  intros Hid Hst Hp (w & Hw & Hc) x Hx. eexists. split; [by apply find_update|].
  destruct (is_work item x && q x) eqn:E; [|reflexivity]. apply andb_true_iff in E as [Ei Eq].
  apply List.find_some in Hx as Hx'. destruct Hx' as [_ Hi].
  unfold is_work in Hi, Ei. apply String.eqb_eq in Hi, Ei. rewrite Hi in Ei. subst item.
  rewrite Hx in Hw. injection Hw as ->. split; [apply Hid|by intros; apply Hst|].
  right. unfold continues at 2. rewrite Hp, Hc. lia.
Qed.

Lemma prog_record id claim continuation actor :
  stable (prog_le id) (record_phase_progress claim continuation actor).
Proof.
  apply stable_of_wp. intros s. unfold record_phase_progress, ensure_claim_current, insert_event.
  cbv zeta. wp_go; try reflexivity. eapply wp_mono; [apply next_phase_exact|]. cbv beta.
  intros [p|e] s' [-> Hp]; [|reflexivity]. destruct Hp as (w & Hw & Hc & _). wp_go.
  etrans; [|by apply prog_le_ext]. 
  rewrite (update_where_ext (is_work (wir_id (wc_item claim)))
    (λ x, is_work (wir_id (wc_item claim)) x && true)) by (intros x; by rewrite andb_true_r).
  apply (prog_set id _ p _ (λ _, true)); [done|done|done|by exists w].
Qed.

Lemma prog_continue id claim continuation actor :
  stable (prog_le id) (continue_tx claim continuation actor).
Proof.
  apply stable_of_wp. intros s. unfold continue_tx, ensure_claim_current, void_prepared_tx, insert_event.
  cbv zeta. wp_go; try reflexivity. eapply wp_mono; [apply next_phase_exact|]. cbv beta.
  intros [p|e] s' [-> Hp]; [|reflexivity]. destruct Hp as (w & Hw & Hc & _). wp_go; try reflexivity.
  etrans; [|by apply prog_le_ext].
  etrans; [apply (prog_set id (wir_id (wc_item claim)) p
    (λ w, set_progress (Some p) (release_work WReady ((λ delay, i64_saturating_add t (Z.of_N delay)) <$>
      cont_delay_secs continuation) None t w)) (work_in [WRunning]))|by apply prog_le_ext];
    [done| |done|by exists w].
  intros x Hx Hr. unfold work_in in Hr. apply bool_decide_eq_true, list_elem_of_singleton in Hr. congruence.
Qed.
End progress.

(** Updates that keep the progress, or clear it with success. *)
Ltac prog_row :=
  let r := fresh "r" in let Hi := fresh "Hi" in let H := fresh "H" in
  intros r Hi H; cbv beta in H; row_split H; row_case;
  (split; [reflexivity|let E := fresh "E" in intros E; unfold work_in in *; cbn in *;
          rewrite ?E in *; first [reflexivity|assumption|discriminate]
         |first [by left|right; apply N.le_refl]]).

#[export] Hint Resolve prog_new_work prog_record prog_continue : stab.
#[export] Hint Extern 1 (stable (prog_le _) (sql_update harness_work_items _ _)) =>
  apply stable_sql_update; intros ?; apply prog_work_update;
  [intros ?; row_case; reflexivity|prog_row] : stab.
#[export] Hint Extern 3 (stable (prog_le _) _) =>
  frame_sql; apply prog_le_ext; reflexivity : stab.

Section runs.
  Context `{ENV : LoopEnv}.

Lemma prog_recover id now e : stable (prog_le id) (recover_expired_tx now e).
Proof.
  unfold recover_expired_tx, expired_verdict.
  destruct (expired_parked e), (ex_max_attempts e <=? ex_attempt_count e)%Z;
    cbv zeta iota; stable_go.
Qed.

Lemma prog_refresh id goal_id : stable (prog_le id) (refresh_goal_status_tx goal_id).
Proof. unfold refresh_goal_status_tx. stable_go. Qed.

#[local] Hint Resolve prog_recover prog_refresh : stab.

Lemma run_prog id a : stable (prog_le id) (run a).
Proof.
  atom_cases a;
    lazymatch goal with
    | |- stable _ (record_phase_progress _ _ _) => apply prog_record
    | |- stable _ (continue_tx _ _ _) => apply prog_continue
    | _ => open_op; cbv zeta; stable_go
    end.
Qed.

Lemma steps_prog id s s' : steps s s' → prog_le id s s'.
Proof. apply steps_preserve; [typeclasses eauto|apply run_prog]. Qed.
End runs.

(** ** Termination of the phase loop *)

Section termination.
  Context `{ENV : LoopEnv} `{RT : !Runtime} `{RL : !RuntimeLaws RT}.

(** A recorded boundary counts, and only a running item has one. *)
Lemma record_counts claim continuation actor s :
  reachable s →
  wp (engine_record_phase_progress claim continuation actor)
     (λ r s', match r with
        | Ok _ => ∃ w w', List.find (is_work (wir_id (wc_item claim))) (db_work s) = Some w ∧
            List.find (is_work (wir_id (wc_item claim))) (db_work s') = Some w' ∧
            wi_status w ≠ WSucceeded ∧ continues w' = (continues w + 1)%N ∧
            (continues w' <= MAX_PHASE_CONTINUES)%N
        | Err _ => True end) s.
Proof.
  intros Hr. apply reachable_work_inv in Hr as Hinv.
  unfold engine_record_phase_progress, record_phase_progress, insert_event. cbv zeta.
  wp_step. wp_step. wp_case; [|done]. wp_step. wp_step. wp_case; [|done]. wp_step. wp_step.
  wp_step. wp_step. eapply wp_mono; [apply current_spec|]. cbv beta.
  intros [[]|e] s0 [-> Hh]; [|done]. destruct Hh as (w & att & Hh). wp_step.
  eapply wp_mono; [apply next_phase_exact|]. cbv beta. intros [p|e] s0 [-> Hp]; [|done].
  destruct Hp as (w0 & Hw0 & Hc & Hle). rewrite <- (ch_item _ _ _ _ Hh) in *.
  assert (w0 = w) as -> by (eapply find_work_unique; [exact Hinv|apply Hh|exact Hw0]).
  wp_go. exists w. eexists. split; [exact Hw0|]. split; [by apply find_update|].
  pose proof (ch_running _ _ _ _ Hh) as Hrun. unfold work_in in Hrun.
  apply bool_decide_eq_true, list_elem_of_singleton in Hrun.
  assert (is_work (wi_id w) w = true) as -> by apply String.eqb_refl.
  unfold continues at 1 3. cbn. rewrite Hc. split_and!; congruence || done.
Qed.

(** Fuel for the boundaries the item has left. *)
Definition enough_fuel (fuel : nat) (claim : WorkClaim) (s : Db) : Prop :=
  ∃ w, List.find (is_work (wir_id (wc_item claim))) (db_work s) = Some w ∧
       (wi_status w = WSucceeded ∨ (MAX_PHASE_CONTINUES < continues w + N.of_nat fuel)%N).

Lemma enough_fuel_steps fuel claim s s' :
  steps s s' → enough_fuel fuel claim s → enough_fuel fuel claim s'.
Proof.
  intros Hs (w & Hw & Hf). destruct (steps_prog _ _ _ Hs _ Hw) as (w' & Hw' & [_ Hd Hc]).
  exists w'. split; [done|]. destruct Hf as [Hf|Hf]; [by auto|]. destruct Hc as [Hc|Hc]; [by left|].
  right. lia.
Qed.

Lemma wp_settled (m : M Db ResumeReport) s :
  wp (report ← m; mret (Some (Settled report))) (λ r _, r ≠ Ok None) s.
Proof. intros w _. unfold mbind, M_bind. by destruct (m w) as [[]]. Qed.

Lemma phase_loop_ends self fuel handler claim deadline upstream resume actor s :
  reachable s → handler_steps handler → 0 < fuel → enough_fuel fuel claim s →
  wp (phase_loop self fuel handler claim deadline upstream resume actor)
     (λ r _, r ≠ Ok None) s.
Proof.
  intros Hr Hh. revert s resume Hr. induction fuel as [|fuel IH]; intros s resume Hr Hpos Hf; [lia|].
  cbn [phase_loop]. wp_step.
  eapply wp_mono; [apply (wp_of_stable steps), supervised_steps, Hh|]. cbv beta.
  intros [[[outcome|error]|]|e] s1 Hs1; [..|done].
  2,3: apply wp_settled.
  assert (Hr1 : reachable s1) by (unfold reachable in *; by etrans).
  apply (enough_fuel_steps _ _ _ _ Hs1) in Hf as (w1 & Hw1 & Hf).
  destruct (outcome_validate outcome); [|apply wp_settled].
  destruct (out_continuation outcome) as [c|]; [|by wp_step].
  destruct (is_some _); [apply wp_settled|].
  wp_step. wp_step.
  eapply wp_mono; [apply wp_and; [apply (record_counts claim c actor s1 Hr1)|
    apply (wp_of_stable steps); client_go]|]. cbv beta.
  intros [p|e] s2 [Hrec Hs2]; [|apply wp_settled].
  destruct Hrec as (w & w2 & Hw & Hw2 & Hst & Hc & Hle). rewrite Hw1 in Hw. injection Hw as ->.
  destruct Hf as [Hf|Hf]; [done|]. apply IH.
  - unfold reachable in *. by etrans.
  - unfold MAX_PHASE_CONTINUES in *. lia.
  - exists w2. split; [done|]. right. lia.
Qed.

(** More fuel than needed changes nothing. *)
Lemma phase_loop_more self fuel more handler claim deadline upstream resume actor w :
  (phase_loop self fuel handler claim deadline upstream resume actor w).1 ≠ Ok None →
  phase_loop self (fuel + more) handler claim deadline upstream resume actor w =
  phase_loop self fuel handler claim deadline upstream resume actor w.
Proof.
  revert resume w. induction fuel as [|fuel IH]; intros resume w; [done|].
  cbn [phase_loop Nat.add]. unfold mbind, M_bind, catch.
  destruct (timeout_at _ _ _ w) as [[[[outcome|error]|]|e] w1]; try done.
  destruct (outcome_validate outcome); [|done].
  destruct (out_continuation outcome) as [c|]; [|done].
  destruct (is_some _); [done|].
  destruct ((engine_record_phase_progress claim c actor w1).1); [apply IH|done].
Qed.

(** C10: Termination: the phase loop of a claimed item ends. For every handler that
    changes the store through the engine only - whatever it answers, for however
    long - 65 turns are enough: the loop returns a result there, and any further
    turns leave that result as it is. *)
Theorem phase_loop_terminates self handler claim deadline upstream resume actor w :
  reachable (w_db w) → handler_steps handler →
  (∃ item, item ∈ db_work (w_db w) ∧ wi_id item = wir_id (wc_item claim)) →
  (phase_loop self phase_fuel handler claim deadline upstream resume actor w).1 ≠ Ok None ∧
  ∀ fuel, phase_fuel ≤ fuel →
    phase_loop self fuel handler claim deadline upstream resume actor w =
    phase_loop self phase_fuel handler claim deadline upstream resume actor w.
Proof.
  intros Hr Hh (item & Hin & Hid).
  assert (Hend : (phase_loop self phase_fuel handler claim deadline upstream resume actor w).1 ≠ Ok None).
  { apply (phase_loop_ends self phase_fuel handler claim deadline upstream resume actor (w_db w));
      [done|done|unfold phase_fuel; lia| |done].
    destruct (List.find (is_work (wir_id (wc_item claim))) (db_work (w_db w))) as [x|] eqn:E.
    - exists x. split; [done|]. right. unfold MAX_PHASE_CONTINUES, phase_fuel. lia.
    - apply list_elem_of_In in Hin. pose proof (List.find_none _ _ E _ Hin) as Hn.
      unfold is_work in Hn. by rewrite Hid, String.eqb_refl in Hn. }
  split; [exact Hend|]. intros fuel Hf.
  replace fuel with (phase_fuel + (fuel - phase_fuel)) by lia. by apply phase_loop_more.
Qed.
End termination.
