(* ===== verification/Trajectories.v ===== *)
(** * Recorded trajectories

    What replay.rs promises: a provider call is recorded once, and a structural
    replay passes exactly when the recorded calls of the trajectory are complete,
    in order and unaltered.  In a store that only the program has written, the
    hashes always match, so the verdict is about gaps alone. *)

From S2P Require Import Prelude Text Messages External Domain Tables StoreBase.
From S2P Require Import StoreGoals StoreWork StoreExtend Replay Order History.
From S2P Require Import Registry.

Section frames.
  Context `{ENV : LoopEnv}.

(** ** The frames of a reachable store *)

Definition frame_intact (r : frame_row) : Prop :=
  (0 ≤ tf_call_index r)%Z ∧
  request_hash (tf_request_messages r) (tf_request_was_json r) = Ok (tf_request_hash r) ∧
  hash_serializable (tf_response r) = Ok (tf_response_hash r).

Definition frames_inv (s : Db) : Prop :=
  no_clash frame_clash (db_frames s) ∧ Forall frame_intact (db_frames s).

Lemma frames_inv_ext s s' : db_frames s' = db_frames s → frames_inv s → frames_inv s'.
Proof. unfold frames_inv. by intros ->. Qed.

Lemma frame_clash_sym a b : frame_clash a b = frame_clash b a.
Proof.
  unfold frame_clash, same_call, of_trajectory.
  by rewrite (String.eqb_sym (tf_id b)), (String.eqb_sym (tf_trajectory_id b)), (Z.eqb_sym (tf_call_index b)).
Qed.

Lemma frames_insert r :
  frame_intact r →
  stable (keeps frames_inv) (sql_insert harness_trajectory_frames (frame_clash r) r).
Proof.
  intros Hr. apply stable_sql_insert; [typeclasses eauto|]. intros s Hc [H1 H2]. split.
  - by apply no_clash_insert; [apply frame_clash_sym|..].
  - cbn. apply Forall_app. by split; [|constructor].
Qed.

Lemma frames_record draft actor : stable (keeps frames_inv) (record_trajectory_frame draft actor).
Proof.
  unfold record_trajectory_frame.
  apply stable_bind_res; [typeclasses eauto|]; intros request_hash Hq.
  apply stable_bind_res; [typeclasses eauto|]; intros response_hash Hr.
  cbv zeta. stable_go. apply frames_insert. split; [cbn; lia|done].
Qed.
End frames.

#[export] Hint Extern 3 (stable (keeps frames_inv) _) =>
  frame_sql; intros ?; eapply frames_inv_ext; [|eassumption]; reflexivity : stab.
#[export] Hint Resolve frames_record : stab.

Section runs.
  Context `{ENV : LoopEnv}.

Lemma frames_recover now e : stable (keeps frames_inv) (recover_expired_tx now e).
Proof. unfold recover_expired_tx. stable_go. Qed.

Lemma frames_refresh goal_id : stable (keeps frames_inv) (refresh_goal_status_tx goal_id).
Proof. unfold refresh_goal_status_tx. stable_go. Qed.

#[local] Hint Resolve frames_recover frames_refresh : stab.

Lemma run_frames_inv a : stable (keeps frames_inv) (run a).
Proof.
  atom_cases a; first [apply frames_record|open_op; cbv zeta; stable_go].
Qed.

Lemma reachable_frames_inv s : reachable s → frames_inv s.
Proof.
  apply reachable_invariant; [|apply run_frames_inv].
  split; [intros i j a b Hi; by destruct i|constructor].
Qed.

(** A call has one frame. *)
Lemma find_frame s row trajectory_id call_index :
  frames_inv s → row ∈ db_frames s → same_call trajectory_id call_index row = true →
  List.find (same_call trajectory_id call_index) (db_frames s) = Some row.
Proof.
  intros [Hu _] Hin Hk. destruct (List.find _ _) as [x|] eqn:E.
  - apply List.find_some in E as [Hx Hk']. f_equal.
    eapply no_clash_eq; [exact Hu|by apply list_elem_of_In|exact Hin|].
    unfold frame_clash, same_call, of_trajectory in *. rewrite !andb_true_iff in *.
    destruct Hk as [K1 K2], Hk' as [K3 K4]. apply String.eqb_eq in K1, K3. apply Z.eqb_eq in K2, K4.
    apply orb_true_iff. right. apply andb_true_iff.
    rewrite String.eqb_eq, Z.eqb_eq. split; congruence.
  - apply list_elem_of_In in Hin. by rewrite (List.find_none _ _ E row Hin) in Hk.
Qed.

(** A provider call is recorded once: when the store holds a frame for the
    draft's trajectory and call index, recording the draft in any later store
    changes nothing; it answers with that frame exactly when the request and the
    response have the recorded hashes, and is refused otherwise. *)
Theorem recorded_calls_are_immutable s s' row frame draft actor :
  reachable s → steps s s' → row ∈ db_frames s →
  same_call (dr_trajectory_id draft) (Z.of_N (dr_call_index draft)) row = true →
  decode_frame row = Ok frame →
  wp (record_trajectory_frame draft actor)
     (λ r s'', s'' = s' ∧
        (r = Ok frame ↔
           request_hash (dr_request_messages draft) (dr_request_was_json draft) =
             Ok (fr_request_hash frame) ∧
           hash_serializable (dr_response draft) = Ok (fr_response_hash frame)) ∧
        (is_ok r = true → r = Ok frame)) s'.
Proof.
  intros Hr Hs Hin Hk Hd. pose proof Hs as Hle. apply (steps_preserve db_le run_le) in Hle as [].
  assert (Hi : frames_inv s') by (apply reachable_frames_inv; by eapply steps_reachable).
  assert (Hfind := find_frame s' row _ _ Hi (elem_of_prefix _ _ _ Hin ltac:(done)) Hk).
  unfold record_trajectory_frame. wp_step. wp_step. wp_case; [|naive_solver].
  wp_step. wp_step. wp_case; [|naive_solver].
  wp_step. wp_step. wp_step. cbn [tget harness_trajectory_frames]. rewrite Hfind.
  wp_step. wp_step. rewrite Hd. wp_step. wp_step.
  - wp_step. rewrite andb_true_iff, !String.eqb_eq in *. naive_solver.
  - split_and!; [done| |done]. split; [done|]. intros [[= ->] [= ->]].
    by rewrite !String.eqb_refl in *.
Qed.
End runs.

(** ** The verdict of a replay *)

Section verdict.
  Context `{ENV : LoopEnv}.

(** The frame at position [i] of a trajectory is the [i]-th call, unaltered. *)
Definition frame_ok (i : nat) (f : TrajectoryFrame) : Prop :=
  fr_call_index f = N.of_nat i ∧
  request_hash (fr_request_messages f) (fr_request_was_json f) = Ok (fr_request_hash f) ∧
  hash_serializable (fr_response f) = Ok (fr_response_hash f).

Lemma replay_case_ok i f c :
  replay_case i f = Ok c →
  rc_frame_id c = fr_id f ∧ rc_call_index c = fr_call_index f ∧ (rc_passed c = true ↔ frame_ok i f).
Proof.
  unfold replay_case, frame_ok, try_u32. destruct (_ && _); [|done]. cbn [context_res].
  intros (i' & [= <-] & (q & -> & (h & -> & [= <-])%bind_ok)%bind_ok)%bind_ok.
  cbn. split_and!; [done..|].
  rewrite !andb_true_iff, N.eqb_eq, !String.eqb_eq.
  replace (Z.to_N (Z.of_nat i)) with (N.of_nat i) by lia. naive_solver.
Qed.

Lemma replay_cases_ok n frames cases :
  replay_cases n frames = Ok cases →
  rc_frame_id <$> cases = fr_id <$> frames ∧ rc_call_index <$> cases = fr_call_index <$> frames ∧
  (forallb rc_passed cases = true ↔ ∀ i f, frames !! i = Some f → frame_ok (n + i) f).
Proof.
  revert n cases. induction frames as [|f frames IH]; intros n cases; cbn [replay_cases].
  - intros [= <-]. done.
  - intros (c & Hc & (cs & Hcs & [= <-])%bind_ok)%bind_ok.
    apply replay_case_ok in Hc as (H1 & H2 & H3). apply IH in Hcs as (H4 & H5 & H6).
    cbn. rewrite H1, H2, H4, H5, andb_true_iff, H3, H6. split_and!; [done..|]. split.
    + intros [Hf Hfs] [|i] g; cbn.
      * intros [= ->]. by rewrite Nat.add_0_r.
      * intros Hi. rewrite Nat.add_succ_r. by apply (Hfs i).
    + intros Hall. split; [rewrite <- (Nat.add_0_r n); by apply (Hall 0)|].
      intros i g Hi. replace (S n + i) with (n + S i) by lia. by apply Hall.
Qed.

Lemma wp_list_frames trajectory_id (Q : res (list TrajectoryFrame) → Db → Prop) s :
  Q (mapM_res decode_frame (order_by call_order
       (List.filter (of_trajectory trajectory_id) (db_frames s)))) s →
  wp (list_frames trajectory_id) Q s.
Proof. intros H. unfold list_frames. repeat wp_step. exact H. Qed.

Lemma list_frames_run trajectory_id w :
  list_frames trajectory_id w =
    (mapM_res decode_frame (order_by call_order
       (List.filter (of_trajectory trajectory_id) (db_frames (w_db w)))), w).
Proof.
  unfold list_frames, sql_select, lift_res, mbind, M_bind, get_db, mret, M_ret.
  cbn [tget harness_trajectory_frames]. by destruct (mapM_res _ _).
Qed.

Lemma replay_verdict trajectory_id actor s :
  wp (run_structural_replay trajectory_id actor)
     (λ r s', match r with
        | Ok run => s' = tset harness_replay_runs (db_replays s ++ [{| rp_run := run; rp_created_by := actor |}]) s ∧
            ∃ frames, list_frames trajectory_id (World s 0 0) = (Ok frames, World s 0 0) ∧
              frames ≠ [] ∧ rc_frame_id <$> rp_cases run = fr_id <$> frames ∧
              rp_status run ≠ ReplayComparative ∧
              (rp_status run = ReplayPassed ↔ ∀ i f, frames !! i = Some f → frame_ok i f)
        | Err _ => s' = s
        end) s.
Proof.
  unfold run_structural_replay. wp_step. apply wp_list_frames. wp_case; [|done].
  wp_step. wp_step; [|done]. wp_step. wp_step. wp_case; [|done]. cbv zeta.
  wp_step. wp_step. wp_step. wp_step. wp_step.
  unfold persist_replay. wp_step. wp_step. wp_step; [|done].
  lazymatch goal with |- wp _ _ ?st => apply (wp_foreach _ _ (λ s', s' = st)); [done| |] end.
  - intros ? s' _ ->. repeat wp_step; done.
  - intros s' ->. wp_step. split; [done|]. eexists. split.
    { rewrite list_frames_run. cbn [w_db]. by rewrite E. }
    apply replay_cases_ok in E0 as (Hids & _ & Hpass). cbn [rp_cases rp_status].
    split_and!; [by intros ->|done|by destruct (forallb _ _)|].
    rewrite <- Hpass. by destruct (forallb _ _).
Qed.

(** A structural replay decides the integrity of a trajectory: it stores one run,
    which passed exactly when the recorded frames in call order are the calls
    0, 1, 2, .. with no gap and every request and response still has its recorded
    hash; its cases name those frames in order, and a replay that fails stores
    nothing.  No store is assumed: altered rows are found. *)
Theorem replay_verdict_exact trajectory_id actor s :
  wp (run_structural_replay trajectory_id actor)
     (λ r s', match r with
        | Ok run => s' = tset harness_replay_runs (db_replays s ++ [{| rp_run := run; rp_created_by := actor |}]) s ∧
            ∃ frames, list_frames trajectory_id (World s 0 0) = (Ok frames, World s 0 0) ∧
              frames ≠ [] ∧ rc_frame_id <$> rp_cases run = fr_id <$> frames ∧
              rp_status run ≠ ReplayComparative ∧
              (rp_status run = ReplayPassed ↔ ∀ i f, frames !! i = Some f → frame_ok i f)
        | Err _ => s' = s
        end) s.
Proof. apply replay_verdict. Qed.

Lemma mapM_res_forall {A B} (f : A → res B) l l' :
  mapM_res f l = Ok l' → Forall2 (λ a b, f a = Ok b) l l'.
Proof.
  revert l'. induction l as [|a l IH]; intros l'; cbn; [by intros [= <-]|].
  intros (b & Hb & (bs & Hbs & [= <-])%bind_ok)%bind_ok. constructor; auto.
Qed.

Lemma decode_frame_ok row f : decode_frame row = Ok f →
  Z.of_N (fr_call_index f) = tf_call_index row ∧
  (frame_intact row → ∀ i, fr_call_index f = N.of_nat i → frame_ok i f).
Proof.
  unfold decode_frame, try_u32. destruct (_ && _) eqn:E; [|done].
  intros (i & [= <-] & [= <-])%bind_ok. cbn. split; [lia|].
  intros (_ & H1 & H2) j Hj. done.
Qed.

(** The call indices of a trajectory, in call order. *)
Definition call_indices (s : Db) (trajectory_id : string) : list Z :=
  tf_call_index <$> order_by call_order (List.filter (of_trajectory trajectory_id) (db_frames s)).

(** C11: Round trip from recording to replay: in a store that only transactions of
    the program have written, a replay of a trajectory passes exactly when its
    recorded call indices are 0, 1, .., n-1; the hashes never fail. *)
Theorem recorded_trajectory_replays s trajectory_id actor :
  reachable s →
  wp (run_structural_replay trajectory_id actor)
     (λ r s', ∀ run, r = Ok run →
        (rp_status run = ReplayPassed ↔
         call_indices s trajectory_id =
           Z.of_nat <$> seq 0 (length (call_indices s trajectory_id)))) s.
Proof.
  intros Hr. apply reachable_frames_inv in Hr as [_ Hi].
  eapply wp_mono; [apply replay_verdict|]. intros r s' H run ->.
  destruct H as (_ & frames & Hl & _ & _ & _ & ->).
  assert (Hdec : mapM_res decode_frame (order_by call_order
    (List.filter (of_trajectory trajectory_id) (db_frames s))) = Ok frames).
  { rewrite list_frames_run in Hl. cbn [w_db] in Hl. congruence. }
  unfold call_indices. set (rows := order_by _ _) in *.
  assert (Hin : Forall frame_intact rows).
  { unfold rows. rewrite order_by_perm. apply Forall_forall. intros x Hx.
    apply list_elem_of_In, List.filter_In in Hx as [Hx _].
    eapply Forall_forall in Hi; [exact Hi|by apply list_elem_of_In]. }
  clearbody rows. apply mapM_res_forall in Hdec. clear -Hdec Hin. rewrite length_fmap. split.
  - intros Hall. apply list_eq. intros i. rewrite !list_lookup_fmap.
    destruct (rows !! i) as [row|] eqn:Ei.
    + destruct (Forall2_lookup_l _ _ _ _ _ Hdec Ei) as (f & Hf & Hd).
      apply decode_frame_ok in Hd as [Hz _]. destruct (Hall i f Hf) as [Hn _].
      rewrite lookup_seq_lt by (by eapply lookup_lt_Some). cbn. f_equal. lia.
    + rewrite lookup_seq_ge; [done|by apply lookup_ge_None].
  - intros Heq i f Hf. destruct (Forall2_lookup_r _ _ _ _ _ Hdec Hf) as (row & Hrow & Hd).
    apply decode_frame_ok in Hd as [Hz Hok]. apply Hok.
    + eapply Forall_lookup; [exact Hin|exact Hrow].
    + assert (Hi : (tf_call_index <$> rows) !! i = Some (tf_call_index row))
        by (by rewrite list_lookup_fmap, Hrow).
      rewrite Heq, list_lookup_fmap, lookup_seq_lt in Hi by (by eapply lookup_lt_Some).
      cbn in Hi. simplify_eq. lia.
Qed.
End verdict.
