(* ===== verification/Instances.v ===== *)
(** * A concrete environment

    Executable instances of the external interfaces ([JsonValue], [Serialize],
    [Sha256], [Clock], [Unicode], [Calendar]), for running the model on concrete
    inputs.  JSON is a tree printed as text whose numbers are
    unbounded integers, the clock ticks once per second, the
    digest is the identity, the alphabet is ASCII and the calendar knows UTC and a
    schedule that fires every minute. *)

From S2P Require Import Prelude Text Messages External Domain Workflow Scheduler.
From Stdlib Require Import Ascii.
From stdpp Require Import pretty.

(** ** JSON *)

Inductive value : Type :=
| VNull
| VBool (b : bool)
| VNumber (n : Z)
| VString (s : string)
| VArray (l : list value)
| VObject (fields : list (string * value)).

Definition value_eq_dec : EqDecision value.
Proof.
  refine (fix go (x y : value) : Decision (x = y) :=
    let rec : EqDecision value := go in
    match x, y with
    | VNull, VNull => left eq_refl
    | VBool a, VBool b => if decide (a = b) then left _ else right _
    | VNumber a, VNumber b => if decide (a = b) then left _ else right _
    | VString a, VString b => if decide (a = b) then left _ else right _
    | VArray a, VArray b => if decide (a = b) then left _ else right _
    | VObject a, VObject b => if decide (a = b) then left _ else right _
    | _, _ => right _
    end); congruence.
Defined.

Definition value_get (v : value) (key : string) : option value :=
  match v with
  | VObject fields => snd <$> List.find (λ f, String.eqb f.1 key) fields
  | _ => None
  end.

Definition value_insert (v : value) (key : string) (x : value) : value :=
  match v with
  | VObject fields => VObject (List.filter (λ f, negb (String.eqb f.1 key)) fields ++ [(key, x)])
  | _ => v
  end.

#[export] Instance value_json : JsonValue := {|
  json := value;
  json_eq_dec := value_eq_dec;
  json_get := value_get;
  json_as_bool v := match v with VBool b => Some b | _ => None end;
  json_as_str v := match v with VString s => Some s | _ => None end;
  json_as_u64 v := match v with VNumber (Zneg _) => None | VNumber n => Some (Z.to_N n) | _ => None end;
  json_as_i64 v := match v with VNumber n => Some n | _ => None end;
  json_as_array v := match v with VArray l => Some l | _ => None end;
  json_object_keys v := match v with VObject fields => Some (fst <$> fields) | _ => None end;
  json_string := VString;
  json_null := VNull;
  json_int := VNumber;
  json_bool := VBool;
  json_array := VArray;
  json_object := VObject;
  json_insert := value_insert;
  json_kind v := match v with
    | VNull => JKNull | VBool _ => JKBool | VNumber _ => JKNumber | VString _ => JKString
    | VArray _ => JKArray | VObject _ => JKObject
    end
|}.

Definition quote : string := String (ascii_of_nat 34) "".

Definition quoted (s : string) : string := quote +:+ s +:+ quote.

Definition commas (l : list string) : string :=
  match l with
  | [] => ""
  | x :: l' => x +:+ String.concat "" (String.append "," <$> l')
  end.

(** Compact text, without the escapes of JSON strings. *)
Fixpoint value_text (v : value) : string :=
  match v with
  | VNull => "null"
  | VBool b => if b then "true" else "false"
  | VNumber n => pretty n
  | VString s => quoted s
  | VArray l => "[" +:+ commas (map value_text l) +:+ "]"
  | VObject fields => "{" +:+ commas (map (λ f, quoted f.1 +:+ ":" +:+ value_text f.2) fields) +:+ "}"
  end.

(** ** Encoders of the program's types *)

Definition value_option {A} (f : A → value) (o : option A) : value :=
  match o with Some a => f a | None => VNull end.

Definition value_of_budget (b : ExecutionBudget) : value :=
  VObject [("max_provider_calls", VNumber (Z.of_N (max_provider_calls b)));
           ("deadline_secs", VNumber (Z.of_N (deadline_secs b)));
           ("max_response_bytes", VNumber (Z.of_N (max_response_bytes b)))].

Definition value_of_step (s : WorkflowStep) : value :=
  VObject [("id", VString (step_id s)); ("handler", VString (step_handler s));
           ("effect", VString (effect_as_str (step_effect s))); ("input", step_input s);
           ("retry", VObject [("max_attempts", VNumber (Z.of_N (max_attempts (step_retry s))));
                              ("backoff_secs", VNumber (Z.of_N (backoff_secs (step_retry s))))])].

Definition value_of_workflow (w : WorkflowSpec) : value :=
  VObject [("steps", VArray (value_of_step <$> wf_steps w));
           ("edges", VArray ((λ e, VObject [("from", VString (edge_from e));
                                            ("to", VString (edge_to e))]) <$> wf_edges w));
           ("budget", value_of_budget (wf_budget w))].

Definition value_of_criterion (c : AcceptanceCriterion) : value :=
  match c with
  | SelfTestSuite suite => VObject [("type", VString "self_test_suite"); ("suite", VString suite)]
  | ArtifactExists t => VObject [("type", VString "artifact_exists"); ("artifact_type", VString t)]
  | ManualApproval label => VObject [("type", VString "manual_approval"); ("label", VString label)]
  end.

Definition value_of_strings (l : list (string * string)) : value :=
  VObject ((λ p, (p.1, VString p.2)) <$> l).

(** The program's enum tables are checked by [column_names_roundtrip]; the kind's
    number is enough here. *)
Definition value_of_signal (r : CreateSignalRequest) : value :=
  VObject [("source", VString (cs_source r));
           ("external_id", value_option VString (cs_external_id r));
           ("content", VString (cs_content r));
           ("metadata", value_of_strings (cs_metadata r))].

Definition value_of_messages (l : list StoredMessage) : value :=
  VArray ((λ m, VObject [("role", VString (role_as_str (role m)));
                         ("content", VString (content m))]) <$> l).

Definition encode {T} (f : T → value) : Serialize T := λ t, Ok (bytes (value_text (f t))).

#[export] Instance concrete_clock : Clock := λ n, (Z.of_nat n * 1000000000)%Z.

Definition is_alnum (c : string) : bool :=
  match c with
  | String a EmptyString =>
      let n := N_of_ascii a in
      ((48 <=? n) && (n <=? 57) || (65 <=? n) && (n <=? 90) || (97 <=? n) && (n <=? 122))%N
  | _ => false
  end.

#[export] Instance ascii_unicode : Unicode :=
  {| char_is_alphanumeric := is_alnum; char_to_lowercase := to_ascii_lowercase |}.

#[export] Instance concrete_env : LoopEnv := {|
  env_json := value_json;
  env_clock := concrete_clock;
  env_sha := λ l, l;
  env_unicode := ascii_unicode;
  env_ser_json := encode (λ v, v);
  env_ser_string := encode VString;
  env_ser_pair := encode (λ p, VArray [VString p.1; VString p.2]);
  env_ser_metadata := encode value_of_strings;
  env_ser_workflow := encode value_of_workflow;
  env_ser_plan := encode (λ p, VObject [("workflow", value_of_workflow (plan_workflow p));
                              ("acceptance", VArray (value_of_criterion <$> plan_acceptance p))]);
  env_ser_effects := encode (λ l, VArray ((λ e, VString (effect_as_str e)) <$> l));
  env_ser_acceptance := encode (λ l, VArray (value_of_criterion <$> l));
  env_ser_budget := encode value_of_budget;
  env_ser_signal := encode value_of_signal;
  env_ser_messages := encode value_of_messages;
  env_ser_request := encode (λ r, VArray [value_of_messages r.1; VBool r.2])
|}.

(** ** A calendar *)

(** UTC only; the one schedule fires at every full minute. *)
#[export] Instance utc_calendar : Calendar := {|
  tz := unit;
  schedule := unit;
  tz_parse s := if String.eqb s "UTC" then Some tt else None;
  schedule_parse s := if String.eqb s "0 * * * * *" then Some tt else None;
  tz_single _ _ := true;
  schedule_after _ _ t := Some ((t / 60 + 1) * 60)%Z
|}.

Lemma utc_calendar_later s z t t' : schedule_after s z t = Some t' → (t < t')%Z.
Proof. cbn. intros [= <-]. pose proof (Z.mod_pos_bound t 60). pose proof (Z.div_mod t 60). lia. Qed.
