(* ===== verification/Scenario.v ===== *)
(** * A concrete run

    One goal with two dependent steps, driven through the store by the atoms of
    History.v in the environment of Instances.v: admission, planning, approval, a
    claim, its checkpoint and completion, a second claim that crashes and is
    recovered, and the goal's verification.  [at_step n] is the store after [n]
    transactions; every one of them is reachable. *)

From S2P Require Import Prelude Text Strings Messages External Domain Workflow Tables Signals.
From S2P Require Import Artifacts StoreBase StoreGoals StoreWork StoreExtend Replay Engine Worker.
From S2P Require Import Handlers Order History Operations Settlement Instances.

(** One transaction at clock reading [tick]; its arguments may be read from the store. *)
Record event : Type := Event { ev_tick : nat; ev_atom : Db → atom }.

Definition play_one (s : Db) (e : event) : Db :=
  w_db (run (ev_atom e s) (World s (ev_tick e) (N.of_nat (ev_tick e)))).2.

Definition play (s : Db) (l : list event) : Db := fold_left play_one l s.

Lemma play_steps l s : steps s (play s l).
Proof.
  revert s. induction l as [|e l IH]; intros s; [apply rtc_refl|].
  eapply rtc_l; [|apply IH].
  exists (ev_atom e s), (World s (ev_tick e) (N.of_nat (ev_tick e))). done.
Qed.

Definition goal_id (s : Db) : string := default "" (g_id <$> head (db_goals s)).

Definition step_of (id handler : string) : WorkflowStep :=
  {| step_id := id; step_handler := handler; step_effect := Read; step_input := VObject [];
     step_retry := {| max_attempts := 3; backoff_secs := 5 |} |}.

Definition two_steps : WorkflowSpec :=
  {| wf_steps := [step_of "analyse" "provider_analysis"; step_of "check" "self_test_suite"];
     wf_edges := [{| edge_from := "analyse"; edge_to := "check" |}];
     wf_budget := {| max_provider_calls := 2; deadline_secs := 3600; max_response_bytes := 1000 |} |}.

Definition two_step_plan : PlanGoalRequest :=
  {| plan_workflow := two_steps; plan_acceptance := [ManualApproval "looks right"] |}.

Definition goal_request : CreateGoalRequest :=
  {| cg_objective := "tidy the notes"; cg_source_signal_ids := []; cg_request_id := Some "req-1";
     cg_internal_only := false |}.

(** The approval of the plan the store holds. *)
Definition approval (s : Db) : ApproveGoalRequest :=
  {| expected_goal_revision := default 0%N (Z.to_N <$> (g_revision <$> head (db_goals s)));
     expected_plan_hash := default "" (wr_plan_hash <$> last (db_workflows s)) |}.

(** The claim behind attempt number [n] of the table. *)
Definition nth_attempt (n : nat) (s : Db) : AttemptRecord :=
  match db_attempts s !! n with
  | Some a =>
      {| atr_id := at_id a; atr_goal_id := at_goal_id a; atr_work_item_id := at_work_item_id a;
         atr_number := Z.to_N (at_number a); atr_status := at_status a;
         atr_worker_id := at_worker_id a; atr_lease_token := at_lease_token a;
         atr_fencing_token := Z.to_N (at_fencing_token a); atr_started_at := at_started_at a;
         atr_finished_at := at_finished_at a; atr_error := at_error a |}
  | None =>
      {| atr_id := ""; atr_goal_id := ""; atr_work_item_id := ""; atr_number := 0;
         atr_status := AVoid; atr_worker_id := ""; atr_lease_token := ""; atr_fencing_token := 0;
         atr_started_at := 0; atr_finished_at := None; atr_error := None |}
  end.

Definition nth_claim (n : nat) (s : Db) : WorkClaim :=
  let a := nth_attempt n s in
  {| wc_item := {| wir_id := atr_work_item_id a; wir_goal_id := atr_goal_id a;
                   wir_status := WRunning; wir_step_id := ""; wir_handler := ""; wir_effect := Read;
                   wir_input := VNull; wir_max_attempts := 3; wir_ordinal := 0;
                   wir_dependency_ids := []; wir_created_at := 0; wir_progress := None |};
     wc_attempt := a; wc_lease_until := 0; wc_budget := wf_budget two_steps |}.

Definition nth_checkpoint (n : nat) (s : Db) : string :=
  default "" (cp_id <$> db_checkpoints s !! n).

Definition outcome : WorkOutcome :=
  {| out_summary := "done"; out_artifact_ids := []; out_evidence := VNull;
     out_sleep_until := None; out_continuation := None |}.

Definition next_phase : WorkContinuation :=
  {| cont_phase := "collect"; cont_state := VNull; cont_delay_secs := None |}.

Definition claim_at (tick : nat) : event :=
  Event tick (λ s, AClaim (goal_id s) None "worker-1" 60 "operator").

Definition recover_at (tick : nat) : event :=
  Event tick (λ s, ARecover (goal_id s) "operator").

Definition script : list event :=
  [ (* 0 *) Event 100 (λ _, AAdmission goal_request "goal_1" "operator");
    (* 1 *) Event 110 (λ s, APlan (goal_id s) two_step_plan "operator");
    (* 2 *) Event 120 (λ s, AApprove default_internal_policy (goal_id s) (approval s) "operator"
                              default_external_write);
    (* 3 *) claim_at 140;
    (* 4 *) Event 150 (λ s, APrepare (nth_claim 0 s) "key-1" false "worker-1");
    (* 5 *) Event 160 (λ s, ACommit (nth_claim 0 s) (nth_checkpoint 0 s) outcome "worker-1");
    (* 6 *) Event 170 (λ s, AFinish (nth_claim 0 s) (nth_checkpoint 0 s) "worker-1");
    (* 7 *) claim_at 180;
    (* 8 *) Event 190 (λ s, AProgress (nth_claim 1 s) next_phase "worker-1");
    (* 9 *) recover_at 300;
    (* 10 *) claim_at 310;
    (* 11 *) Event 320 (λ s, APrepare (nth_claim 2 s) "key-2" false "worker-1");
    (* 12 *) Event 330 (λ s, ACommit (nth_claim 2 s) (nth_checkpoint 1 s) outcome "worker-1");
    (* 13 *) Event 340 (λ s, AFinish (nth_claim 2 s) (nth_checkpoint 1 s) "worker-1");
    (* 14 *) Event 350 (λ s, AManual (goal_id s) "looks right" "operator");
    (* 15 *) Event 360 (λ s, AVerify (goal_id s) "operator") ].

Definition at_step (n : nat) : Db := play empty_db (firstn n script).

Lemma at_step_reachable n : reachable (at_step n).
Proof. apply play_steps. Qed.

Lemma at_step_steps n m : n ≤ m → steps (at_step n) (at_step m).
Proof.
  intros H. unfold at_step. rewrite <- (take_drop n (take m script)), take_take.
  rewrite Nat.min_l by done. unfold play at 2. rewrite fold_left_app. apply play_steps.
Qed.

(** The store where the second claim has died with an uncommitted, unsafe effect. *)
Definition parked_store : Db :=
  play (at_step 8)
    [ Event 190 (λ s, APrepare (nth_claim 1 s) "key-2" false "worker-1"); recover_at 300 ].

(** The whole run succeeds. *)
Example script_achieves_the_goal :
  (g_status <$> db_goals (at_step 16)) = [Achieved] ∧
  (wi_status <$> db_work (at_step 16)) = [WSucceeded; WSucceeded] ∧
  (wi_status <$> db_work parked_store) = [WSucceeded; WWaitingConfirmation].
Proof. vm_compute. done. Qed.

(** * A concrete worker

    The built-in handlers on the store of Instances.v, with a provider that answers
    at once and a runtime without timeouts: a goal is planned, approved, run by a
    worker until it is idle, and achieved. *)

(** The heartbeat beats once, then the handler runs to its end. *)
#[export] Instance direct_runtime : Runtime := {|
  instant := unit;
  deadline_after _ := mret tt;
  timeout_at _ background m := ignore_error background ;; r ← catch m; mret (Some r)
|}.

#[export] Instance direct_runtime_laws : RuntimeLaws direct_runtime.
Proof.
  split; intros; cbn; stable_go.
Qed.

#[export] Instance terse_provider : ChatProvider :=
  {| provider_complete _ _ _ := Some (Ok "keep it small"); provider_model_name := Some "m1" |}.

#[export] Instance self_test_value : ToValue self_test_row := λ r, Ok (VObject [("id", VString (st_id r))]).
#[export] Instance replay_value : ToValue ReplayRun := λ r, Ok (VObject [("id", VString (rp_id r))]).

Definition open_engine : LoopEngine :=
  {| external_write_policy := default_external_write; internal_policy := default_internal_policy |}.

Definition demo_worker : LoopWorker :=
  match with_builtins 20 1 open_engine 7 None with
  | Ok w => w
  | Err _ => {| lw_engine := open_engine; lw_handlers := empty_registry ∅; lw_worker_id := "";
                lw_lease_secs := 30 |}
  end.

Lemma demo_worker_steps : worker_steps demo_worker.
Proof.
  pose proof (builtins_wired 20 1 open_engine 7 None) as H. unfold demo_worker.
  destruct (with_builtins _ _ _ _ _); [apply H|].
  intros name h Hn. unfold registry_get in Hn. cbn in Hn. by rewrite lookup_empty in Hn.
Qed.

Definition after (o : operation) (w : world Db) : world Db := (exec open_engine o w).2.

Lemma after_reachable o w : reachable (w_db w) → reachable (w_db (after o w)).
Proof. unfold reachable. intros H. etrans; [exact H|apply (exec_steps open_engine o w)]. Qed.

(** Admission, the recommended plan and its approval. *)
Definition admitted_world : world Db := after (OCreateGoal goal_request "operator") (World empty_db 100 0).

Definition planned_world : world Db :=
  after (OPlanRecommended (goal_id (w_db admitted_world)) "operator") admitted_world.

Definition approved_world : world Db :=
  after (OApproveGoal (goal_id (w_db planned_world)) (approval (w_db planned_world)) "operator")
    planned_world.

Lemma approved_world_reachable : reachable (w_db approved_world).
Proof. do 3 apply after_reachable. unfold reachable. reflexivity. Qed.

Definition worked_world : res ResumeReport * world Db :=
  run_goal_until_idle demo_worker (goal_id (w_db approved_world)) 8 approved_world.

(** The worker drives the approved goal to [achieved]. *)
Example worker_achieves_the_goal :
  match worked_world.1 with Ok r => gr_status (rr_goal r) | Err e => Proposed end = Achieved.
Proof. vm_compute. reflexivity. Qed.

Definition no_deadline : instant := tt.
