(* ===== verification/Witnesses.v ===== *)
(** * The theorems at work

    Each theorem that has hypotheses, applied to the run of Scenario.v (or to a
    concrete policy): the hypotheses hold there, by evaluation. *)

From S2P Require Import Prelude Text Strings Messages Compactor External Verifier OutputExit Domain.
From S2P Require Import Workflow Scheduler Tables Signals Artifacts StoreBase StoreGoals StoreWork.
From S2P Require Import StoreExtend Replay Engine Worker Handlers Order History Operations Settlement.
From S2P Require Import GoalLife Leases Deps Integrity GoalOps.
From S2P Require Import Approval WorkOps Progress Registry Trajectories Instances Scenario.

(** ** The store *)

Lemma at_lookup {A} (l : list A) i x : l !! i = Some x → x ∈ l.
Proof. apply list_elem_of_lookup_2. Qed.

(** Names a row by its place in the table. *)
Ltac by_lookup := eexists; split; [vm_compute; reflexivity|].
Ltac by_place i := apply (at_lookup _ i); vm_compute; reflexivity.

Lemma audit_trail_append_only_witness : db_events (at_step 5) `prefix_of` db_events (at_step 9).
Proof. apply (audit_trail_append_only _ _ (at_step_steps 5 9 ltac:(lia))). Defined.

Lemma finished_work_is_final_witness : ∃ w, db_work (at_step 7) !! 0 = Some w ∧
  ∃ w', db_work (at_step 16) !! 0 = Some w' ∧ wi_status w' = WSucceeded.
Proof.
  by_lookup. edestruct (finished_work_is_final (ENV := concrete_env) (at_step 7) (at_step 16) 0) as (w' & H & _ & _ & Hf).
  - apply at_step_steps; lia.
  - vm_compute; reflexivity.
  - exists w'. split; [exact H|]. apply Hf. by left.
Defined.

Lemma ended_attempt_is_final_witness : ∃ a, db_attempts (at_step 10) !! 1 = Some a ∧
  ∃ a', db_attempts (at_step 16) !! 1 = Some a' ∧ at_status a' = at_status a.
Proof.
  by_lookup. edestruct (ended_attempt_is_final (ENV := concrete_env) (at_step 10) (at_step 16) 1) as (a' & H & _ & Hf).
  - apply at_step_steps; lia.
  - vm_compute; reflexivity.
  - exists a'. split; [exact H|]. apply Hf. vm_compute. right; right; left.
Defined.

Lemma committed_outcome_is_immutable_witness : ∃ c, db_checkpoints (at_step 6) !! 0 = Some c ∧
  ∃ c', db_checkpoints (at_step 16) !! 0 = Some c' ∧ cp_outcome c' = Some outcome.
Proof.
  by_lookup.
  edestruct (committed_outcome_is_immutable (ENV := concrete_env) (at_step 6) (at_step 16) 0) as (c' & H & _ & Hf & _).
  - apply at_step_steps; lia.
  - vm_compute; reflexivity.
  - exists c'. split; [exact H|]. etrans; [apply Hf; discriminate|reflexivity].
Defined.


Lemma work_waits_for_dependencies_witness : ∃ w d,
  db_work (at_step 8) !! 1 = Some w ∧ db_deps (at_step 8) !! 0 = Some d ∧ dep_item d = wi_id w ∧
  ∃ p, p ∈ db_work (at_step 8) ∧ wi_id p = dep_on d ∧ wi_status p = WSucceeded.
Proof.
  eexists _, _. split; [vm_compute; reflexivity|]. split; [vm_compute; reflexivity|].
  split; [reflexivity|]. eapply (work_waits_for_dependencies (ENV := concrete_env) (at_step 8)).
  - apply at_step_reachable.
  - by_place 1.
  - right; left.
  - by_place 0.
  - reflexivity.
Defined.

Lemma provider_budget_never_exceeded_witness : ∃ b, db_budgets (at_step 4) !! 0 = Some b ∧
  (0 ≤ b_provider_calls b ≤ b_max_provider_calls b)%Z.
Proof.
  by_lookup. eapply (provider_budget_never_exceeded (ENV := concrete_env) (at_step 4)).
  - apply at_step_reachable.
  - by_place 0.
Defined.

Lemma phase_progress_is_capped_witness : ∃ w p,
  db_work (at_step 9) !! 1 = Some w ∧ wi_progress w = Some p ∧
  (prog_continues p ≤ MAX_PHASE_CONTINUES)%N.
Proof.
  eexists _, _. split; [vm_compute; reflexivity|]. split; [reflexivity|].
  eapply (phase_progress_is_capped (ENV := concrete_env) (at_step 9)).
  - apply at_step_reachable.
  - by_place 1.
  - reflexivity.
Defined.

Lemma items_stay_within_manifest_witness : ∃ w, db_work (at_step 3) !! 0 = Some w ∧
  ∃ p, p ∈ db_workflows (at_step 3) ∧ wi_effect w ∈ wr_effect_manifest p.
Proof.
  by_lookup. edestruct (items_stay_within_manifest (ENV := concrete_env) (at_step 3)) as (p & H & _ & _ & He).
  - apply at_step_reachable.
  - by_place 0.
  - exists p. split; [exact H|exact He].
Defined.

Lemma core_suite_passes_witness : ∃ tables versions,
  forallb stc_passed (core_cases tables versions (at_step 16)) = true.
Proof.
  exists 20%Z, 1%Z. apply (core_suite_passes (ENV := concrete_env) (at_step 16) 20 1), at_step_reachable.
Defined.

Lemma attempts_within_budget_witness : ∃ w, db_work (at_step 11) !! 1 = Some w ∧
  (attempt_count (at_step 11) (wi_id w) ≤ wi_max_attempts w)%Z.
Proof.
  by_lookup. eapply (attempts_within_budget (ENV := concrete_env) (at_step 11)).
  - apply at_step_reachable.
  - by_place 1.
Defined.

Lemma current_claims_agree_witness :
  let c := nth_claim 0 (at_step 5) in
  claim_current (at_step 5) c 141%Z ∧
  atr_lease_token (wc_attempt c) = atr_lease_token (wc_attempt (nth_claim 0 (at_step 4))).
Proof.
  assert (H1 : claim_current (at_step 5) (nth_claim 0 (at_step 5)) 141%Z).
  { eexists. split; vm_compute; reflexivity. }
  assert (H2 : claim_current (at_step 5) (nth_claim 0 (at_step 4)) 150%Z).
  { eexists. split; vm_compute; reflexivity. }
  cbv zeta. split; [exact H1|].
  eapply (current_claims_agree (ENV := concrete_env) (at_step 5)); [apply at_step_reachable| |exact H1|exact H2].
  vm_compute. reflexivity.
Defined.

(** The worker of attempt 1 died; attempt 2 has the item when it tries to finish. *)
Lemma overtaken_claim_is_refused_witness :
  refused (run (AFinish (nth_claim 1 (at_step 8)) (nth_checkpoint 1 (at_step 13)) "worker-1"))
    (at_step 13).
Proof.
  eapply (overtaken_claim_is_refused (ENV := concrete_env) (at_step 11) (at_step 13)
    (nth_claim 1 (at_step 8))).
  - apply at_step_reachable.
  - eexists. split; [by_place 1|]. split; vm_compute; reflexivity.
  - apply at_step_steps; lia.
  - reflexivity.
Defined.

Lemma play_unattended l s :
  Forall (λ e, ∀ s, operator_action (ev_atom e s) = false) l → rtc unattended_step s (play s l).
Proof.
  intros H. revert s. induction H as [|e l He _ IH]; intros s; [apply rtc_refl|].
  eapply rtc_l; [|apply IH].
  exists (ev_atom e s), (World s (ev_tick e) (N.of_nat (ev_tick e))).
  split; [apply He|split; reflexivity].
Qed.

Lemma parked_item_waits_for_operator_witness :
  ∃ w', db_work (play parked_store [recover_at 400; claim_at 410]) !! 1 = Some w' ∧
        wi_status w' = WWaitingConfirmation.
Proof.
  eapply (parked_item_waits_for_operator (ENV := concrete_env) parked_store).
  - apply play_unattended. repeat constructor.
  - vm_compute. reflexivity.
  - reflexivity.
Defined.

(** The request of the run, sent a second time. *)
Lemma admission_is_idempotent_witness : ∃ g,
  List.find (with_request_id "req-1") (db_goals (at_step 1)) = Some g ∧
  wp (create_goal_admission goal_request "operator")
     (λ r s'', s'' = at_step 16 ∧
        match r with Ok (goal, created) => gr_id goal = g_id g ∧ created = false | Err _ => True end)
     (at_step 16).
Proof.
  by_lookup. eapply (admission_is_idempotent (ENV := concrete_env) (at_step 1) (at_step 16) "req-1").
  - apply at_step_reachable.
  - apply at_step_steps; lia.
  - vm_compute. reflexivity.
  - reflexivity.
Defined.

Lemma verification_is_exact_witness :
  wp (verify_tx artifact_kind_as_str "goal_1" "operator")
     (λ r s', r = Ok [] ∧ (∃ ev, db_events s' = db_events (at_step 15) ++ [ev])) (at_step 15).
Proof.
  eapply wp_mono.
  - eapply (verification_is_exact (ENV := concrete_env) "goal_1" "operator" (at_step 15)); vm_compute; reflexivity.
  - intros r s' (Hr & (ev & He & _) & _). split; [|by exists ev].
    etrans; [exact Hr|]. vm_compute. reflexivity.
Defined.

Lemma finish_settles_the_claim_witness :
  wp (finish_tx (nth_claim 0 (at_step 6)) (nth_checkpoint 0 (at_step 6)) "worker-1")
     (λ r s', is_ok r = true → ∃ w, w ∈ db_work s' ∧ wi_status w = WSucceeded) (at_step 6).
Proof.
  eapply wp_mono.
  - eapply (finish_settles_the_claim (ENV := concrete_env) (nth_claim 0 (at_step 6))), at_step_reachable.
  - intros r s' [[[e ->] _]|(_ & w & a & c & w' & a' & c' & H)] Hok; [discriminate|].
    exists w'. repeat lazymatch goal with HH : _ ∧ _ |- _ => destruct HH end. split; assumption.
Defined.

Lemma failure_retries_or_blocks_witness :
  wp (fail_tx (nth_claim 0 (at_step 4)) "boom" true "worker-1")
     (λ r s', is_ok r = true → db_checkpoints s' = db_checkpoints (at_step 4)) (at_step 4).
Proof.
  eapply wp_mono.
  - eapply (failure_retries_or_blocks (ENV := concrete_env) (nth_claim 0 (at_step 4))), at_step_reachable.
  - intros r s' [[[e ->] _]|(_ & w & a & t & _ & _ & _ & H & _)] Hok; [discriminate|].
    exact H.
Defined.

Lemma checkpoints_are_idempotent_witness : ∃ c, db_checkpoints (at_step 6) !! 0 = Some c ∧
  wp (commit_checkpoint (nth_claim 0 (at_step 6)) (cp_id c) outcome "worker-1")
     (λ r s', s' = at_step 6 ∧ match r with
        | Ok checkpoint => checkpoint = decode_checkpoint c ∧
                           outcome_eqb (cp_outcome c) (Some outcome) = true
        | Err _ => True end) (at_step 6).
Proof.
  by_lookup. lazymatch goal with |- context [decode_checkpoint ?c] =>
    pose proof (checkpoints_are_idempotent (ENV := concrete_env) (nth_claim 0 (at_step 6)) "key-1"
      false outcome "worker-1" (at_step 6) c) as [_ H] end.
  apply H; vm_compute; reflexivity.
Defined.

(** ** Signals and artifacts *)

Definition report : CreateSignalRequest :=
  {| cs_kind := KUserFeedback; cs_trust := TAuthenticated; cs_source := "chat";
     cs_external_id := Some "msg-7"; cs_content := "the summary is too long"; cs_metadata := [] |}.

Definition template : PublishArtifactRequest :=
  {| pa_kind := GoalTemplate; pa_name := "weekly"; pa_version := "1"; pa_content := VObject [];
     pa_source_goal_id := None; pa_parent_artifact_id := None |}.

Definition ingest_at (tick : nat) : event := Event tick (λ _, AIngest report "fp" "ch" "nh" "chat").

Definition registry_store : Db :=
  play empty_db [ingest_at 10; Event 20 (λ _, APublish template "operator")].

Lemma ingest_is_idempotent_witness : ∃ r, db_signals registry_store !! 0 = Some r ∧
  wp (ingest_tx report "fp" "ch" "nh" "chat")
     (λ res s'', s'' = registry_store ∧ res = Ok (sg_id r, true)) registry_store.
Proof.
  by_lookup. eapply (ingest_is_idempotent (ENV := concrete_env) registry_store registry_store _ report).
  - apply play_steps.
  - apply rtc_refl.
  - by_place 0.
  - vm_compute. reflexivity.
  - reflexivity.
  - reflexivity.
Defined.

Lemma artifact_versions_are_immutable_witness : ∃ r, db_artifacts registry_store !! 0 = Some r ∧
  wp (publish_artifact template "someone")
     (λ res s'', s'' = registry_store ∧ match res with
        | Ok (artifact, deduplicated) => artifact = r ∧ deduplicated = true ∧
            hash_serializable (T := @json env_json) (pa_content template) = Ok (ar_content_hash r)
        | Err _ => True end) registry_store.
Proof.
  by_lookup. eapply (artifact_versions_are_immutable (ENV := concrete_env) registry_store registry_store).
  - apply play_steps.
  - apply rtc_refl.
  - by_place 0.
  - vm_compute. reflexivity.
Defined.

(** ** The scheduler *)

Definition nightly : SchedulerPolicy :=
  {| version := "1.0"; trigger := TCron "0 * * * * *" "UTC";
     execution := {| max_failure_streak_before_pause := 3;
                     backoff := {| strategy := "exponential"; base_secs := 10; max_secs := 600 |} |} |}.

(** A one-policy codec. *)
Definition nightly_from_str (s : string) : res SchedulerPolicy :=
  if String.eqb s "nightly" then Ok nightly else Err "unknown policy".

#[export] Instance SchedulerPolicy_eq_dec : EqDecision SchedulerPolicy.
Proof.
  intros p q. unfold Decision. decide equality; repeat (apply N.eq_dec || apply Z.eq_dec ||
    apply String.string_dec || decide equality).
Defined.

Definition nightly_to_string (p : SchedulerPolicy) : res string :=
  if decide (p = nightly) then Ok "nightly" else Err "unknown policy".

Lemma nightly_codec q s : nightly_to_string q = Ok s → nightly_from_str s = Ok q.
Proof. unfold nightly_to_string. destruct (decide (q = nightly)) as [->|]; by intros [= <-]. Qed.

Lemma scheduler_policy_roundtrip_witness :
  encode_scheduler_policy_json nightly_to_string nightly = Ok "nightly" ∧
  parse_scheduler_policy_json nightly_from_str "nightly" = Ok nightly.
Proof.
  split; [vm_compute; reflexivity|].
  eapply (scheduler_policy_roundtrip nightly_from_str nightly_to_string "nightly" nightly);
    [exact nightly_codec|vm_compute; reflexivity..].
Defined.

Lemma plan_failure_spec_witness : ∃ plan, plan_failure_transition nightly 1000 1 = Ok plan ∧
  (fp_pause_job plan = true ↔ (3 ≤ 1)%Z).
Proof.
  by_lookup. eapply (plan_failure_spec nightly 1000 1); [|vm_compute; reflexivity].
  unfold i64, i64_max. cbn. lia.
Defined.

Lemma plan_success_spec_witness : ∃ plan, plan_success_transition nightly 1000 1 (Some 5%Z) = Ok plan ∧
  (sp_mark_completed plan = true → sp_next_state plan = SCompleted ∧ sp_next_run plan = None).
Proof.
  by_lookup. eapply (plan_success_spec nightly 1000 1 (Some 5%Z)); [|vm_compute; reflexivity].
  apply utc_calendar_later.
Defined.

(** * The worker's theorems at work

    The theorems about the worker, replays and compaction, applied to the runs of
    Scenario.v and Scenario.v. *)

(** ** Replays *)

Definition recorded (index : N) (text : string) : TrajectoryFrameDraft :=
  {| dr_trajectory_id := "traj-1"; dr_call_index := index; dr_model := "m1";
     dr_provider_fingerprint := "model:m1"; dr_request_messages := [{| role := User; content := "hi" |}];
     dr_request_was_json := false; dr_response := text; dr_capture := Full |}.

Definition recorded_store : Db :=
  play empty_db [ Event 10 (λ _, ARecordFrame (recorded 1 "b") "worker-1"); Event 20 (λ _, ARecordFrame (recorded 0 "a") "worker-1") ].

Lemma recorded_calls_are_immutable_witness : ∃ row, db_frames recorded_store !! 1 = Some row ∧
  ∃ frame, decode_frame row = Ok frame ∧
  wp (record_trajectory_frame (recorded 0 "a") "worker-2")
     (λ r s'', s'' = recorded_store ∧ (is_ok r = true → r = Ok frame)) recorded_store.
Proof.
  by_lookup. by_lookup. eapply wp_mono.
  { eapply (recorded_calls_are_immutable (ENV := concrete_env) recorded_store recorded_store _ _ _ "worker-2").
    - apply play_steps.
    - apply rtc_refl.
    - by_place 1.
    - reflexivity.
    - vm_compute. reflexivity. }
  intros r s'' (H1 & _ & H3). exact (conj H1 H3).
Defined.

Lemma recorded_trajectory_replays_witness :
  wp (run_structural_replay "traj-1" "operator")
     (λ r s', ∀ run, r = Ok run → rp_status run = ReplayPassed) recorded_store.
Proof.
  eapply wp_mono; [apply (recorded_trajectory_replays (ENV := concrete_env) recorded_store "traj-1" "operator")|].
  - apply play_steps.
  - intros r s' H run Hr. apply (H run Hr). vm_compute. reflexivity.
Defined.

(** ** The worker *)

Lemma worker_refines_steps_witness :
  stable steps (run_goal_until_idle demo_worker "goal_1" 8).
Proof. apply (worker_refines_steps (ENV := concrete_env) demo_worker "goal_1" 8 0), demo_worker_steps. Defined.

(** The goal of Scenario.v has its first item claimed after four transactions. *)
Definition claimed_world : world Db := World (at_step 4) 145 145.

Lemma claimed_db : w_db claimed_world = at_step 4.
Proof. reflexivity. Qed.

Definition first_claim : WorkClaim := nth_claim 0 (at_step 4).

Lemma wait_steps : handler_steps wait_handler.
Proof. intros ctx. cbn [wh_execute wait_handler]. unfold wait_execute. cbv zeta. client_go. Qed.

Lemma phase_loop_terminates_witness :
  (phase_loop demo_worker phase_fuel wait_handler first_claim no_deadline ∅ None "worker-1" claimed_world).1
    ≠ Ok None.
Proof.
  apply (phase_loop_terminates (ENV := concrete_env) demo_worker wait_handler first_claim no_deadline ∅ None
    "worker-1" claimed_world).
  - apply at_step_reachable.
  - apply wait_steps.
  - eexists. split; [by_place 0|reflexivity].
Defined.

Lemma processed_claim_is_settled_witness :
  is_ok (process_claim demo_worker first_claim "worker-1" claimed_world).1 = true ∧
  settled first_claim (at_step 4) (w_db (process_claim demo_worker first_claim "worker-1" claimed_world).2).
Proof.
  assert (H : is_ok (process_claim demo_worker first_claim "worker-1" claimed_world).1 = true)
    by (vm_compute; reflexivity).
  split; [exact H|].
  exact (processed_claim_is_settled (ENV := concrete_env) demo_worker first_claim "worker-1" (at_step 4)
    demo_worker_steps claimed_world claimed_db H).
Defined.

Lemma gated_claim_runs_no_handler_witness :
  process_claim (with_code (λ _ _, throw "never") demo_worker) first_claim "worker-1" claimed_world =
  process_claim demo_worker first_claim "worker-1" claimed_world.
Proof.
  apply (gated_claim_runs_no_handler (ENV := concrete_env)). vm_compute. reflexivity.
Defined.

Lemma unclaimed : db_attempts (at_step 3) = [].
Proof. vm_compute. reflexivity. Qed.

Lemma ready_work_is_claimed_witness : ∃ x, db_work (at_step 3) !! 0 = Some x ∧
  ∃ c w', claim_round "goal_1" None "worker-1" 60 "operator" (World (at_step 3) 140 140) =
            (Ok (Some (Some c)), w') ∧ at_work_item_id (cl_attempt c) = wi_id x.
Proof.
  by_lookup.
  edestruct (ready_work_is_claimed (ENV := concrete_env) "goal_1" None "worker-1" 60 "operator"
    (World (at_step 3) 140 140)) as (c & w' & H1 & _ & H2).
  - apply at_step_reachable.
  - vm_compute. reflexivity.
  - reflexivity.
  - reflexivity.
  - vm_compute. reflexivity.
  - vm_compute. reflexivity.
  - apply fresh_of_none, unclaimed.
  - exists c, w'. split; [exact H1|exact H2].
Defined.

(** ** Compaction *)

Definition note (n : nat) : StoredMessage :=
  {| role := User; content := "note " +:+ hex (N.of_nat n) |}.

Definition long_history : CompactionRequest :=
  compaction_request (note <$> seq 0 12) (HeadTail 2 3).

Lemma compaction_keeps_recent_witness : ∃ result,
  compact (λ _, Ok "they talked") 1000 true long_history = Ok result ∧
  (result = unchanged (cr_messages long_history) ∨
   true = true ∧ spliced (cr_messages long_history) (cr_min_recent_messages long_history) result).
Proof.
  by_lookup. eapply (compaction_keeps_recent (λ _, Ok "they talked") 1000 true long_history).
  vm_compute. reflexivity.
Defined.

Lemma summary_has_no_marker_witness :
  contains "MCP_TOOL_RESULT_JSON" (sanitize_summary "see MCP_TOOL_RESULT_JSON") = false.
Proof. apply (summary_has_no_marker _ "MCP_TOOL_RESULT_JSON"). left. Defined.

(** ** Answers *)

#[export] Instance value_laws : @JsonLaws value_json.
Proof.
  split.
  - intros v. destruct v; cbn; split; try done; by intros [].
  - intros v ks k. destruct v as [| | | | |fields]; try done. intros [= <-]. cbn. clear.
    induction fields as [|[key x] fields IH]; cbn; [split; [set_solver|by intros []]|].
    rewrite elem_of_cons, IH. destruct (String.eqb_spec key k) as [->|Hne]; cbn.
    + split; [by eauto|by left].
    + split; [intros [->|H]; [done|exact H]|by right].
Qed.

(** Knows the empty object only. *)
#[export] Instance tiny_parse : @JsonParse value_json :=
  λ s, if String.eqb s "{}" then Some (VObject []) else None.

Definition search_tool : McpToolInfo :=
  {| mt_server := "notes"; mt_name := "search"; mt_description := None;
     mt_input_schema := VObject
       [("type", VString "object");
        ("properties", VObject [("query", VObject [("type", VString "string")])]);
        ("required", VArray [VString "query"]); ("additionalProperties", VBool false)];
     mt_code_mode_capabilities := Some {| mc_network := false; mc_filesystem := true; mc_env := false |} |}.

(** A closed schema that lists no properties admits any key. *)
Definition closed_tool : McpToolInfo :=
  {| mt_server := "notes"; mt_name := "now"; mt_description := None;
     mt_input_schema := VObject [("type", VString "object"); ("additionalProperties", VBool false)];
     mt_code_mode_capabilities := None |}.

Example closed_schema_without_properties_is_open :
  vr_passed (verify_arguments closed_tool (VObject [("query", VString "tea")])) = true.
Proof. vm_compute. reflexivity. Qed.

Lemma verify_arguments_exact_witness :
  conforms search_tool (VObject [("query", VString "tea")]) ∧
  ¬ conforms search_tool (VObject [("query", VNumber 3)]).
Proof.
  split.
  - apply (verify_arguments_exact search_tool). vm_compute. reflexivity.
  - intros H. apply (verify_arguments_exact search_tool) in H. vm_compute in H. discriminate.
Defined.

Definition strict_exit : OutputExit :=
  {| oe_provider := λ _, Ok "The search tool failed."; oe_verifier := true; oe_mode := ReviseOnce;
     oe_llm_enabled := true; oe_max_prompt_chars := 500; oe_max_result_chars := 500 |}.

Definition broken_call : ToolCallRecord :=
  {| tc_call_index := 0; tc_server := "notes"; tc_tool := "search"; tc_arguments := VObject [];
     tc_result := VNull; tc_ok := false; tc_duration_ms := 5; tc_iteration := 1 |}.

Definition glossed_over : OutputExitRequest :=
  {| oq_history := []; oq_channel := "cli"; oq_final_answer := "All done."; oq_tool_calls := [broken_call];
     oq_required_format := None |}.

Lemma enforcing_exit_is_reliable_witness : ∃ r,
  finalize (λ _, None) strict_exit glossed_over = Ok r ∧
  (reliable (verification_request glossed_over (ox_text r)) ∨ ox_text r = unreliable_answer).
Proof.
  pose proof (enforcing_exit_is_reliable (λ _, None) strict_exit glossed_over eq_refl (or_intror eq_refl)) as H.
  destruct (finalize (λ _, None) strict_exit glossed_over) as [r|e] eqn:E.
  - exists r. split; [reflexivity|exact (proj1 H)].
  - vm_compute in E. discriminate.
Defined.

Lemma observing_exit_changes_nothing_witness : ∃ r,
  finalize (λ _, None) {| oe_provider := λ _, Err "off"; oe_verifier := true; oe_mode := Observe;
    oe_llm_enabled := true; oe_max_prompt_chars := 1; oe_max_result_chars := 1 |} glossed_over = Ok r ∧
  ox_text r = "All done.".
Proof.
  edestruct (observing_exit_changes_nothing (λ _, None) {| oe_provider := λ _, Err "off";
    oe_verifier := true; oe_mode := Observe; oe_llm_enabled := true; oe_max_prompt_chars := 1;
    oe_max_result_chars := 1 |} glossed_over) as (r & H1 & H2 & _).
  - right. right. reflexivity.
  - exists r. split; [exact H1|exact H2].
Defined.
