(* ===== verification/MemBase.v ===== *)
(** * Foundations of the memory store

    The SQL statements of src/memory.rs that the loop engine does not use, and the
    store of a component as a transition system: any sequence of its operations,
    with any arguments, under any clock. *)

From S2P Require Import Prelude.
From Stdlib Require Import Sorting.Sorted.

Section sql.
  Context {S Row : Type} (t : table S Row).

(** [INSERT OR IGNORE]; the value is [rows_affected]. *)
Definition sql_insert_or_ignore (clash : Row → bool) (r : Row) : M S Z :=
  s ← get_db;
  if existsb clash (tget t s) then mret 0%Z
  else put_db (tset t (tget t s ++ [r]) s) ;; mret 1%Z.

(** [INSERT OR REPLACE]: the rows in conflict go, the new one gets a new rowid. *)
Definition sql_replace (clash : Row → bool) (r : Row) : M S unit :=
  s ← get_db;
  put_db (tset t (List.filter (λ x, negb (clash x)) (tget t s) ++ [r]) s).

(** [INSERT .. ON CONFLICT(key) DO UPDATE SET f]; [clash] is a conflict with another
    uniqueness constraint, which the row under [key] cannot cause. *)
Definition sql_upsert (key clash : Row → bool) (r : Row) (f : Row → Row) : M S unit :=
  s ← get_db;
  ensure (negb (existsb (λ x, negb (key x) && clash x) (tget t s))) "UNIQUE constraint failed" ;;
  put_db (tset t (if existsb key (tget t s) then update_where key f (tget t s)
                  else tget t s ++ [r]) s).
End sql.

Section rules.
  Context {S Row : Type} (t : table S Row).

Lemma stable_sql_insert_or_ignore (R : relation S) `{!PreOrder R} clash r :
  (∀ s, existsb clash (tget t s) = false → R s (tset t (tget t s ++ [r]) s)) →
  stable R (sql_insert_or_ignore t clash r).
Proof.
  intros H w. unfold sql_insert_or_ignore, mbind, M_bind, get_db.
  destruct (existsb clash (tget t (w_db w))) eqn:E; cbn; [reflexivity|by apply H].
Qed.

Lemma stable_sql_replace (R : relation S) clash r :
  (∀ s, R s (tset t (List.filter (λ x, negb (clash x)) (tget t s) ++ [r]) s)) →
  stable R (sql_replace t clash r).
Proof. intros H w. cbn. apply H. Qed.

Lemma stable_sql_upsert (R : relation S) `{!PreOrder R} key clash r f :
  (∀ s, existsb (λ x, negb (key x) && clash x) (tget t s) = false →
     R s (tset t (if existsb key (tget t s) then update_where key f (tget t s)
                  else tget t s ++ [r]) s)) →
  stable R (sql_upsert t key clash r f).
Proof.
  intros H w. unfold sql_upsert, mbind, M_bind, get_db, ensure.
  destruct (existsb _ (tget t (w_db w))) eqn:E; cbn; [reflexivity|by apply H].
Qed.

Lemma wp_sql_insert_or_ignore clash r (Q : res Z → S → Prop) s :
  (existsb clash (tget t s) = true → Q (Ok 0%Z) s) →
  (existsb clash (tget t s) = false → Q (Ok 1%Z) (tset t (tget t s ++ [r]) s)) →
  wp (sql_insert_or_ignore t clash r) Q s.
Proof.
  intros H1 H2 w <-. unfold sql_insert_or_ignore, mbind, M_bind, get_db.
  destruct (existsb clash (tget t (w_db w))); cbn; auto.
Qed.

Lemma wp_sql_replace clash r (Q : res unit → S → Prop) s :
  Q (Ok tt) (tset t (List.filter (λ x, negb (clash x)) (tget t s) ++ [r]) s) →
  wp (sql_replace t clash r) Q s.
Proof. intros H w <-. exact H. Qed.

Lemma wp_sql_upsert key clash r f (Q : res unit → S → Prop) s :
  (existsb (λ x, negb (key x) && clash x) (tget t s) = true →
     Q (Err "UNIQUE constraint failed") s) →
  (existsb (λ x, negb (key x) && clash x) (tget t s) = false →
     Q (Ok tt) (tset t (if existsb key (tget t s) then update_where key f (tget t s)
                        else tget t s ++ [r]) s)) →
  wp (sql_upsert t key clash r f) Q s.
Proof.
  intros H1 H2 w <-. unfold sql_upsert, mbind, M_bind, get_db, ensure.
  destruct (existsb _ (tget t (w_db w))); cbn; auto.
Qed.
End rules.

(** ** Operations as steps *)

Section machine.
  Context {S Op : Type} (exec : Op → M S unit) (init : S).

Definition op_step (s s' : S) : Prop := ∃ op w, w_db w = s ∧ w_db (exec op w).2 = s'.

Definition op_steps : relation S := rtc op_step.

Definition op_reachable (s : S) : Prop := op_steps init s.

Lemma op_steps_preserve (R : relation S) `{!PreOrder R} :
  (∀ op, stable R (exec op)) → ∀ s s', op_steps s s' → R s s'.
Proof.
  intros H s s' Hs. induction Hs as [s|s t u (op & w & <- & <-) _ IH]; [reflexivity|].
  etrans; [apply H|exact IH].
Qed.

Lemma op_reachable_invariant (I : S → Prop) :
  I init → (∀ op, stable (keeps I) (exec op)) → ∀ s, op_reachable s → I s.
Proof. intros H0 H s Hs. by apply (op_steps_preserve (keeps I) H init s Hs). Qed.

Lemma op_stable op : stable op_steps (exec op).
Proof. intros w. apply rtc_once. by exists op, w. Qed.
End machine.

(** Steps by operations that satisfy [P] only. *)
Section restricted.
  Context {S Op : Type} (exec : Op → M S unit) (P : Op → Prop).

Definition op_steps_where : relation S :=
  rtc (λ s s', ∃ op w, P op ∧ w_db w = s ∧ w_db (exec op w).2 = s').

Lemma op_steps_where_preserve (R : relation S) `{!PreOrder R} :
  (∀ op, P op → stable R (exec op)) → ∀ s s', op_steps_where s s' → R s s'.
Proof.
  intros H s s' Hs. induction Hs as [s|s t u (op & w & Hop & <- & <-) _ IH]; [reflexivity|].
  etrans; [by apply H|exact IH].
Qed.

Lemma op_steps_where_steps s s' : op_steps_where s s' → op_steps exec s s'.
Proof.
  intros H. eapply rtc_subrel; [|exact H]. intros x y (op & w & _ & ? & ?). by exists op, w.
Qed.
End restricted.

(** ** Sorting and rows *)

Section order.
  Context {Row : Type} (le : Row → Row → bool).
  Hypothesis le_total : ∀ x y, le x y = false → le y x = true.
  Hypothesis le_trans : ∀ x y z, le x y = true → le y z = true → le x z = true.

Lemma insert_by_sorted r l :
  StronglySorted (λ x y, le x y = true) l → StronglySorted (λ x y, le x y = true) (insert_by le r l).
Proof using le_total le_trans.
  induction 1 as [|x l Hl IH Hx]; cbn; [by repeat constructor|].
  destruct (le r x) eqn:E.
  - constructor; [by constructor|]. constructor; [done|].
    eapply Forall_impl; [exact Hx|]. intros y Hy. by eapply le_trans.
  - constructor; [done|]. rewrite insert_by_perm. constructor; [by apply le_total|done].
Qed.

Lemma order_by_sorted l : StronglySorted (λ x y, le x y = true) (order_by le l).
Proof using le_total le_trans. induction l; cbn; [constructor|by apply insert_by_sorted]. Qed.

(** What [LIMIT] leaves out comes after what it keeps. *)
Lemma order_by_take_drop n l x y :
  x ∈ take n (order_by le l) → y ∈ drop n (order_by le l) → le x y = true.
Proof using le_total le_trans.
  pose proof (order_by_sorted l) as H. revert H. generalize (order_by le l). clear.
  intros l H. revert n. induction H as [|z l Hl IH Hz]; intros [|n]; cbn;
    rewrite ?elem_of_nil; [done..|].
  rewrite elem_of_cons. intros [->|Hx] Hy; [|by eapply IH].
  rewrite Forall_forall in Hz. apply Hz. rewrite <- (take_drop n l). apply elem_of_app. by right.
Qed.
End order.

(** [ORDER BY] a text column. *)
Lemma string_leb_trans a b c :
  String.leb a b = true → String.leb b c = true → String.leb a c = true.
Proof.
  unfold String.leb. revert b c. induction a as [|x a IH]; intros [|y b] [|z c]; cbn; try done.
  unfold Ascii.compare. specialize (IH b c).
  destruct (N.compare_spec (Ascii.N_of_ascii x) (Ascii.N_of_ascii y)) as [->|Hxy|Hxy],
    (N.compare_spec (Ascii.N_of_ascii y) (Ascii.N_of_ascii z)) as [Hyz|Hyz|Hyz]; try done; try apply IH.
  - rewrite <- Hyz. by apply N.compare_lt_iff in Hxy as ->.
  - intros _ _. assert (Hxz : (Ascii.N_of_ascii x < Ascii.N_of_ascii z)%N) by lia.
    by apply N.compare_lt_iff in Hxz as ->.
Qed.

Lemma string_leb_total a b : String.leb a b = false → String.leb b a = true.
Proof. destruct (String.leb_total a b); [congruence|done]. Qed.

Lemma string_leb_antisym a b : String.leb a b = true → String.leb b a = true → a = b.
Proof.
  unfold String.leb. rewrite (String.compare_antisym b a).
  destruct (String.compare a b) eqn:E; cbn; intros; try done. by apply String.compare_eq_iff.
Qed.

(** Sorting and filtering commute when the kept rows are ordered alike. *)
Lemma filter_order_by {Row} (le le' : Row → Row → bool) (p : Row → bool) l :
  (∀ x y, le x y = false → le y x = true) →
  (∀ x y z, le x y = true → le y z = true → le x z = true) →
  (∀ x y, p x = true → p y = true → le x y = le' x y) →
  List.filter p (order_by le l) = order_by le' (List.filter p l).
Proof.
  intros Htotal Htrans Hp. induction l as [|x l IH]; [done|]. cbn [order_by List.filter].
  assert (Hs := order_by_sorted le Htotal Htrans l).
  transitivity (if p x then insert_by le' x (List.filter p (order_by le l)) else List.filter p (order_by le l));
    [|by destruct (p x); cbn; rewrite IH].
  clear IH. induction Hs as [|y k Hk IH Hy]; cbn [insert_by List.filter].
  - cbn. by destruct (p x).
  - destruct (le x y) eqn:Exy; cbn [List.filter].
    + destruct (p x) eqn:Ex; [|done]. destruct (p y) eqn:Ey.
      * cbn. by rewrite <- Hp, Exy.
      * assert (Hall : Forall (λ z, le x z = true) k).
        { eapply Forall_impl; [exact Hy|]. intros z Hz. by eapply Htrans. }
        clear -Hall Ex Hp. induction Hall as [|z k Hz _ IH]; cbn; [done|].
        destruct (p z) eqn:Ez; [|done]. cbn. by rewrite <- Hp, Hz.
    + rewrite IH. destruct (p x) eqn:Ex, (p y) eqn:Ey; cbn; try done. by rewrite <- Hp, Exy.
Qed.

Lemma nodup_key_inj {Row K} (key : Row → K) (l : list Row) x y :
  NoDup (key <$> l) → x ∈ l → y ∈ l → key x = key y → x = y.
Proof.
  intros Hn (i & Hi)%list_elem_of_lookup (j & Hj)%list_elem_of_lookup Hk.
  assert (i = j) as ->; [|congruence].
  eapply (NoDup_lookup (key <$> l)); [done|by rewrite list_lookup_fmap, Hi|].
  by rewrite list_lookup_fmap, Hj, Hk.
Qed.

Lemma Forall2_impl_in {A B} (P Q : A → B → Prop) l k :
  Forall2 P l k → (∀ x y, x ∈ l → P x y → Q x y) → Forall2 Q l k.
Proof.
  induction 1 as [|x y l k H _ IH]; intros HQ; constructor; [apply HQ; [left|done]|].
  apply IH. intros x' y' Hx. apply HQ. by right.
Qed.

Lemma nodup_key_filter {Row K} (key : Row → K) p (l : list Row) :
  NoDup (key <$> l) → NoDup (key <$> List.filter p l).
Proof.
  intros H. eapply sublist_NoDup; [exact H|]. apply fmap_sublist. clear H.
  induction l; cbn; [constructor|case_match; by constructor].
Qed.

Lemma nodup_key_snoc {Row K} (key : Row → K) (l : list Row) r :
  NoDup (key <$> l) → key r ∉ key <$> l → NoDup (key <$> l ++ [r]).
Proof.
  intros H Hr. rewrite fmap_app. apply NoDup_app. split_and!; [done| |by apply NoDup_singleton].
  intros k Hk ->%list_elem_of_singleton. by apply Hr.
Qed.

Lemma existsb_false {Row} (p : Row → bool) (l : list Row) :
  existsb p l = false → ∀ r, r ∈ l → p r = false.
Proof.
  intros H r Hr. destruct (p r) eqn:E; [|done].
  assert (existsb p l = true) as Ht by (apply existsb_exists; exists r; by rewrite <- list_elem_of_In).
  congruence.
Qed.

Lemma fmap_update_where {Row K} (key : Row → K) p f (l : list Row) :
  (∀ r, key (f r) = key r) → key <$> update_where p f l = key <$> l.
Proof.
  intros H. unfold update_where. rewrite <- list_fmap_compose. apply list_fmap_ext.
  intros _ r _. cbn. destruct (p r); [apply H|done].
Qed.

Lemma nodup_update_where {Row K} (key : Row → K) p f (l : list Row) :
  (∀ r, key (f r) = key r) → NoDup (key <$> l) → NoDup (key <$> update_where p f l).
Proof. intros H. by rewrite fmap_update_where. Qed.

Lemma fmap_update_where_on {Row K} (key : Row → K) p f (l : list Row) :
  (∀ r, p r = true → key (f r) = key r) → key <$> update_where p f l = key <$> l.
Proof.
  intros H. unfold update_where. rewrite <- list_fmap_compose. apply list_fmap_ext.
  intros _ r _. cbn. destruct (p r) eqn:E; [by apply H|done].
Qed.

(** An update that gives the one row it matches a new key, which no other row has. *)
Lemma nodup_update_one {Row K} (key : Row → K) (p : Row → bool) f (l : list Row) k x :
  NoDup (key <$> l) → x ∈ l → (∀ r, r ∈ l → p r = true → r = x) →
  (∀ r, r ∈ l → p r = false → key r ≠ k) → (∀ r, key (f r) = k) →
  NoDup (key <$> update_where p f l).
Proof.
  intros Hn Hx Hp Hk Hf. unfold update_where. rewrite <- list_fmap_compose.
  apply NoDup_alt. intros i i' y. rewrite !list_lookup_fmap.
  destruct (l !! i) as [r|] eqn:Hi, (l !! i') as [r'|] eqn:Hi'; cbn; try done.
  pose proof (list_elem_of_lookup_2 _ _ _ Hi). pose proof (list_elem_of_lookup_2 _ _ _ Hi').
  rewrite NoDup_alt in Hn.
  assert (r = r' → i = i').
  { intros ->. apply (Hn _ _ (key r')); by rewrite list_lookup_fmap, ?Hi, ?Hi'. }
  destruct (p r) eqn:E, (p r') eqn:E'; rewrite ?Hf; intros Ha Hb; rewrite <- Hb in Ha;
    apply (inj Some) in Ha as Heq.
  - apply H1. rewrite (Hp r), (Hp r'); done.
  - symmetry in Heq. by apply Hk in Heq.
  - by apply Hk in Heq.
  - apply (Hn _ _ (key r)); rewrite list_lookup_fmap, ?Hi, ?Hi'; cbn; by rewrite ?Heq.
Qed.

Lemma filter_update_where {Row} (p q : Row → bool) f (l : list Row) :
  (∀ r, r ∈ l → p r = true → q (f r) = true) → (∀ r, r ∈ l → p r = false → q r = false) →
  List.filter q (update_where p f l) = f <$> List.filter p l.
Proof.
  unfold update_where. intros H1 H2. induction l as [|r l IH]; cbn; [done|].
  rewrite IH by (intros; (apply H1 || apply H2); [by right|done]).
  destruct (p r) eqn:E.
  - by rewrite (H1 r (list_elem_of_here _ _) E).
  - by rewrite (H2 r (list_elem_of_here _ _) E).
Qed.

Lemma stable_draw_id {S} (R : relation S) `{!PreOrder R} : stable R (draw_id : M S N).
Proof. intros w; cbn; reflexivity. Qed.

#[export] Hint Extern 1 (stable _ draw_id) => apply stable_draw_id; typeclasses eauto : stab.

Lemma stable_now_nanos `{Clock} {S} (R : relation S) `{!PreOrder R} : stable R (now_nanos : M S Z).
Proof. intros w; cbn; reflexivity. Qed.

#[export] Hint Extern 1 (stable _ now_nanos) => apply stable_now_nanos; typeclasses eauto : stab.

Lemma wp_now_nanos `{Clock} {S} (Q : res Z → S → Prop) s : (∀ n, Q (Ok n) s) → wp now_nanos Q s.
Proof. intros HQ w <-. cbn. apply HQ. Qed.

Lemma wp_draw_id {S} (Q : res N → S → Prop) s : (∀ n, Q (Ok n) s) → wp draw_id Q s.
Proof. intros H w <-. cbn. apply H. Qed.

Lemma wp_tick {S} (Q : res nat → S → Prop) s : (∀ n, Q (Ok n) s) → wp tick Q s.
Proof. intros H w <-. cbn. apply H. Qed.

Lemma wp_ignore_error {S A} (m : M S A) (Q : res unit → S → Prop) s :
  wp m (λ _ s', Q (Ok tt) s') s → wp (ignore_error m) Q s.
Proof. intros H w Hw. by apply H. Qed.

(** The effect of an operation without its value. *)
Definition unit_of {S A} (m : M S A) : M S unit := m ;; mret tt.

Lemma unit_of_db {S A} (m : M S A) w : w_db (unit_of m w).2 = w_db (m w).2.
Proof. unfold unit_of, mbind, M_bind. by destruct (m w) as [[a|e] w']. Qed.

Lemma stable_unit_of {S A} (R : relation S) (m : M S A) : stable R m → stable R (unit_of m).
Proof. intros H w. rewrite unit_of_db. apply H. Qed.

#[export] Hint Resolve stable_unit_of : stab.

(** ** Components inside a larger store *)

(** A computation over the part of a store that [get] reads and [put] writes back. *)
Definition zoom {S T A} (get : T → S) (put : S → T → T) (m : M S A) : M T A := λ w,
  let '(r, w') := m (World (get (w_db w)) (w_tick w) (w_ids w)) in
  (r, World (put (w_db w') (w_db w)) (w_tick w') (w_ids w')).

Section zoom.
  Context {S T A : Type} (get : T → S) (put : S → T → T).

Lemma stable_zoom (R : relation S) (R' : relation T) (m : M S A) :
  (∀ t s', R (get t) s' → R' t (put s' t)) → stable R m → stable R' (zoom get put m).
Proof.
  intros H Hm w. unfold zoom. specialize (Hm (World (get (w_db w)) (w_tick w) (w_ids w))).
  destruct (m _) as [r w']. by apply H.
Qed.

Lemma wp_zoom (m : M S A) (Q : res A → T → Prop) t :
  wp m (λ r s, Q r (put s t)) (get t) → wp (zoom get put m) Q t.
Proof.
  intros H w <-. unfold zoom.
  specialize (H (World (get (w_db w)) (w_tick w) (w_ids w)) eq_refl).
  by destruct (m _) as [r w'].
Qed.
End zoom.

(** ** Computations that cannot fail *)

(** The calls that cannot fail. *)
Definition infallible {S A} (m : M S A) : Prop := ∀ w, is_ok (m w).1 = true.

Lemma ignore_infallible {S A} (m : M S A) : infallible (ignore_error m).
Proof. intros w. unfold ignore_error. by destruct (m w). Qed.

Lemma infallible_bind {S A B} (m : M S A) (f : A → M S B) :
  infallible m → (∀ a, infallible (f a)) → infallible (m ≫= f).
Proof.
  intros Hm Hf w. specialize (Hm w). unfold mbind, M_bind. destruct (m w) as [[a|e] w']; [apply Hf|done].
Qed.

Lemma infallible_catch {S A} (m : M S A) : infallible (catch m).
Proof. intros w. unfold catch. by destruct (m w). Qed.

Lemma infallible_zoom {S T A} (get : T → S) (put : S → T → T) (m : M S A) : infallible m → infallible (zoom get put m).
Proof. intros H w. unfold zoom. specialize (H (World (get (w_db w)) (w_tick w) (w_ids w))). by destruct (m _). Qed.

Lemma wp_infallible {S A} (R : relation S) (m : M S A) s :
  stable R m → infallible m → wp m (λ r s', ∃ a, r = Ok a ∧ R s s') s.
Proof. intros Hm Hi w <-. specialize (Hi w). specialize (Hm w). destruct (m w) as [[a|e] w']; [by exists a|done]. Qed.

Lemma wp_put_db {S} (Q : res unit → S → Prop) s s' : Q (Ok tt) s' → wp (put_db s') Q s.
Proof. intros H w <-. exact H. Qed.

(** [Result::with_context] on a computation. *)
Definition wrap_error {S A} (e : string) (m : M S A) : M S A := λ w,
  match m w with (Err _, w') => (Err e, w') | x => x end.

Lemma wp_wrap_error {S A} e (m : M S A) (Q : res A → S → Prop) s :
  wp m (λ r s', match r with Ok a => Q (Ok a) s' | Err _ => Q (Err e) s' end) s → wp (wrap_error e m) Q s.
Proof. intros H w Hw. specialize (H w Hw). unfold wrap_error. by destruct (m w) as [[]]. Qed.

Lemma stable_wrap_error {S A} (R : relation S) e (m : M S A) : stable R m → stable R (wrap_error e m).
Proof. intros H w. specialize (H w). unfold wrap_error. by destruct (m w) as [[]]. Qed.
