(* ===== verification/Jobs.v ===== *)
(** * Scheduled jobs

    The job tables of src/memory.rs: creation, listing, status changes by the owner,
    leased claims, completion, failure, and the pending intents that wait for a
    confirmation; with what a claim hands out and what a lost lease can settle. *)

From S2P Require Import Prelude Text MemBase.

Inductive TelegramSchedulerJobStatus : Type := JobActive | JobPaused | JobCompleted | JobCanceled.

#[export] Instance TelegramSchedulerJobStatus_eq_dec : EqDecision TelegramSchedulerJobStatus.
Proof. solve_decision. Defined.

Definition job_status_as_str (s : TelegramSchedulerJobStatus) : string :=
  match s with
  | JobActive => "active" | JobPaused => "paused" | JobCompleted => "completed"
  | JobCanceled => "canceled"
  end.

Definition job_status_from_db (value : string) : TelegramSchedulerJobStatus :=
  if String.eqb value "paused" then JobPaused
  else if String.eqb value "completed" then JobCompleted
  else if String.eqb value "canceled" then JobCanceled else JobActive.

Inductive TelegramSchedulerTaskKind : Type := TaskReminder | TaskAgent.

Definition task_kind_as_str (k : TelegramSchedulerTaskKind) : string :=
  match k with TaskReminder => "reminder" | TaskAgent => "agent" end.

Definition task_kind_from_db (value : string) : TelegramSchedulerTaskKind :=
  if String.eqb value "agent" then TaskAgent else TaskReminder.

Inductive TelegramSchedulerScheduleKind : Type := KindOnce | KindCron.

Definition schedule_kind_as_str (k : TelegramSchedulerScheduleKind) : string :=
  match k with KindOnce => "once" | KindCron => "cron" end.

Definition schedule_kind_from_db (value : string) : TelegramSchedulerScheduleKind :=
  if String.eqb value "cron" then KindCron else KindOnce.

(** A row of [telegram_scheduler_jobs]. *)
Record TelegramSchedulerJobRecord : Type := {
  jb_id : string;
  jb_channel : string;
  jb_chat_id : Z;
  jb_thread_id : option Z;
  jb_owner : Z;
  jb_status : TelegramSchedulerJobStatus;
  jb_task_kind : TelegramSchedulerTaskKind;
  jb_payload : string;
  jb_schedule_kind : TelegramSchedulerScheduleKind;
  jb_timezone : string;
  jb_run_at : option Z;
  jb_cron_expr : option string;
  jb_policy_json : option string;
  jb_next_run : option Z;
  jb_last_run : option Z;
  jb_last_error : option string;
  jb_run_count : Z;
  jb_failure_streak : Z;
  jb_max_runs : option Z;
  jb_lease_token : option string;
  jb_lease_until : option Z;
  jb_created_at : Z;
  jb_updated_at : Z
}.

Record CreateTelegramSchedulerJobRequest : Type := {
  cj_id : string;
  cj_channel : string;
  cj_chat_id : Z;
  cj_thread_id : option Z;
  cj_owner : Z;
  cj_status : TelegramSchedulerJobStatus;
  cj_task_kind : TelegramSchedulerTaskKind;
  cj_payload : string;
  cj_schedule_kind : TelegramSchedulerScheduleKind;
  cj_timezone : string;
  cj_run_at : option Z;
  cj_cron_expr : option string;
  cj_policy_json : option string;
  cj_next_run : option Z;
  cj_max_runs : option Z
}.

(** A row of [telegram_scheduler_runs]; its id is the rowid. *)
Record scheduler_run : Type := {
  sr_job_id : string;
  sr_channel : string;
  sr_chat_id : Z;
  sr_started_at : Z;
  sr_finished_at : Z;
  sr_ok : bool;
  sr_error : option string
}.

Record TelegramSchedulerPendingIntentRecord : Type := {
  pi_id : string;
  pi_channel : string;
  pi_chat_id : Z;
  pi_owner : Z;
  pi_draft_json : string;
  pi_expires_at : Z;
  pi_created_at : Z;
  pi_updated_at : Z
}.

Record JobsDb : Type := {
  jobs : list TelegramSchedulerJobRecord;
  job_runs : list scheduler_run;
  intents : list TelegramSchedulerPendingIntentRecord
}.

Definition empty_jobs : JobsDb := {| jobs := []; job_runs := []; intents := [] |}.

Definition telegram_scheduler_jobs : table JobsDb TelegramSchedulerJobRecord :=
  Table jobs (λ l s, {| jobs := l; job_runs := job_runs s; intents := intents s |}).

Definition telegram_scheduler_runs : table JobsDb scheduler_run :=
  Table job_runs (λ l s, {| jobs := jobs s; job_runs := l; intents := intents s |}).

Definition telegram_scheduler_pending_intents
    : table JobsDb TelegramSchedulerPendingIntentRecord :=
  Table intents (λ l s, {| jobs := jobs s; job_runs := job_runs s; intents := l |}).

Section jobs.
  Context `{CLK : Clock}.

Abbreviation DB := (M JobsDb).

(** ** Creating and reading *)

Definition new_job (req : CreateTelegramSchedulerJobRequest) (now : Z) : TelegramSchedulerJobRecord :=
  {| jb_id := cj_id req; jb_channel := cj_channel req; jb_chat_id := cj_chat_id req;
     jb_thread_id := cj_thread_id req; jb_owner := cj_owner req; jb_status := cj_status req;
     jb_task_kind := cj_task_kind req; jb_payload := cj_payload req;
     jb_schedule_kind := cj_schedule_kind req; jb_timezone := cj_timezone req;
     jb_run_at := cj_run_at req; jb_cron_expr := cj_cron_expr req;
     jb_policy_json := cj_policy_json req; jb_next_run := cj_next_run req;
     jb_last_run := None; jb_last_error := None; jb_run_count := 0; jb_failure_streak := 0;
     jb_max_runs := cj_max_runs req; jb_lease_token := None; jb_lease_until := None;
     jb_created_at := now; jb_updated_at := now |}.

Definition is_job (job_id : string) (j : TelegramSchedulerJobRecord) : bool :=
  String.eqb (jb_id j) job_id.

Definition create_telegram_scheduler_job (req : CreateTelegramSchedulerJobRequest) : DB unit :=
  now ← unix_now;
  sql_insert telegram_scheduler_jobs (is_job (cj_id req)) (new_job req now).

Definition newest_job_first (a b : TelegramSchedulerJobRecord) : bool :=
  (jb_created_at b <=? jb_created_at a)%Z.

Definition owned_by (channel : string) (chat_id owner : Z) (j : TelegramSchedulerJobRecord) : bool :=
  String.eqb (jb_channel j) channel && (jb_chat_id j =? chat_id)%Z && (jb_owner j =? owner)%Z.

Definition list_telegram_scheduler_jobs_by_owner (channel : string) (chat_id owner : Z)
    (limit : nat) : DB (list TelegramSchedulerJobRecord) :=
  rows ← sql_select telegram_scheduler_jobs (owned_by channel chat_id owner);
  mret (take (Nat.max limit 1) (order_by newest_job_first rows)).

Definition lease_free (now : Z) (j : TelegramSchedulerJobRecord) : bool :=
  match jb_lease_until j with None => true | Some until => (until <=? now)%Z end.

(** The WHERE clause of a due job. *)
Definition due (channel : string) (now : Z) (j : TelegramSchedulerJobRecord) : bool :=
  String.eqb (jb_channel j) channel && bool_decide (jb_status j = JobActive) &&
  match jb_next_run j with None => false | Some at_ => (at_ <=? now)%Z end && lease_free now j.

Record TelegramSchedulerStats : Type := {
  jobs_total : Z;
  jobs_active : Z;
  jobs_paused : Z;
  jobs_completed : Z;
  jobs_canceled : Z;
  jobs_due : Z
}.

Definition query_telegram_scheduler_stats (channel : string) (now : Z)
    : DB TelegramSchedulerStats :=
  rows ← sql_select telegram_scheduler_jobs (λ j, String.eqb (jb_channel j) channel);
  let status s := count_where (λ j, bool_decide (jb_status j = s)) rows in
  mret {| jobs_total := Z.of_nat (length rows); jobs_active := status JobActive;
          jobs_paused := status JobPaused; jobs_completed := status JobCompleted;
          jobs_canceled := status JobCanceled; jobs_due := count_where (due channel now) rows |}.

Definition load_telegram_scheduler_job (channel job_id : string)
    : DB (option TelegramSchedulerJobRecord) :=
  sql_first telegram_scheduler_jobs (λ j, String.eqb (jb_channel j) channel && is_job job_id j).

(** ** Status changes, claims and runs *)

(** [status = s], lease released. *)
Definition set_job_status (s : TelegramSchedulerJobStatus) (now : Z) (j : TelegramSchedulerJobRecord)
    : TelegramSchedulerJobRecord :=
  {| jb_id := jb_id j; jb_channel := jb_channel j; jb_chat_id := jb_chat_id j;
     jb_thread_id := jb_thread_id j; jb_owner := jb_owner j; jb_status := s;
     jb_task_kind := jb_task_kind j; jb_payload := jb_payload j;
     jb_schedule_kind := jb_schedule_kind j; jb_timezone := jb_timezone j;
     jb_run_at := jb_run_at j; jb_cron_expr := jb_cron_expr j;
     jb_policy_json := jb_policy_json j; jb_next_run := jb_next_run j;
     jb_last_run := jb_last_run j; jb_last_error := jb_last_error j;
     jb_run_count := jb_run_count j; jb_failure_streak := jb_failure_streak j;
     jb_max_runs := jb_max_runs j; jb_lease_token := None; jb_lease_until := None;
     jb_created_at := jb_created_at j; jb_updated_at := now |}.

Definition job_finished (j : TelegramSchedulerJobRecord) : bool :=
  bool_decide (jb_status j ∈ [JobCompleted; JobCanceled]).

Definition update_telegram_scheduler_job_status (channel : string) (chat_id owner : Z)
    (job_id : string) (status : TelegramSchedulerJobStatus) : DB bool :=
  now ← unix_now;
  updated ← sql_update telegram_scheduler_jobs
    (λ j, owned_by channel chat_id owner j && is_job job_id j && negb (job_finished j))
    (set_job_status status now);
  mret (0 <? updated)%Z.

Definition set_job_lease (token : string) (until now : Z) (j : TelegramSchedulerJobRecord)
    : TelegramSchedulerJobRecord :=
  {| jb_id := jb_id j; jb_channel := jb_channel j; jb_chat_id := jb_chat_id j;
     jb_thread_id := jb_thread_id j; jb_owner := jb_owner j; jb_status := jb_status j;
     jb_task_kind := jb_task_kind j; jb_payload := jb_payload j;
     jb_schedule_kind := jb_schedule_kind j; jb_timezone := jb_timezone j;
     jb_run_at := jb_run_at j; jb_cron_expr := jb_cron_expr j;
     jb_policy_json := jb_policy_json j; jb_next_run := jb_next_run j;
     jb_last_run := jb_last_run j; jb_last_error := jb_last_error j;
     jb_run_count := jb_run_count j; jb_failure_streak := jb_failure_streak j;
     jb_max_runs := jb_max_runs j; jb_lease_token := Some token; jb_lease_until := Some until;
     jb_created_at := jb_created_at j; jb_updated_at := now |}.

Definition earliest_run_first (a b : TelegramSchedulerJobRecord) : bool :=
  match jb_next_run a, jb_next_run b with
  | None, _ => true
  | Some _, None => false
  | Some x, Some y => (x <=? y)%Z
  end.

Definition str_in (x : string) (l : list string) : bool := existsb (String.eqb x) l.

Definition has_lease (token : string) (j : TelegramSchedulerJobRecord) : bool :=
  bool_decide (jb_lease_token j = Some token).

Definition claim_due_telegram_scheduler_jobs (channel : string) (now_unix : Z) (limit : nat)
    (lease_secs : Z) (lease_token : string) : DB (list TelegramSchedulerJobRecord) :=
  transaction (
    rows ← sql_select telegram_scheduler_jobs (due channel now_unix);
    let job_ids := jb_id <$> take (Nat.max limit 1) (order_by earliest_run_first rows) in
    match job_ids with
    | [] => mret []
    | _ =>
        let lease_until := (now_unix + Z.max lease_secs 1)%Z in
        now ← unix_now;
        sql_update telegram_scheduler_jobs
          (λ j, String.eqb (jb_channel j) channel && bool_decide (jb_status j = JobActive) &&
                str_in (jb_id j) job_ids && lease_free now_unix j)
          (set_job_lease lease_token lease_until now) ;;
        sql_select telegram_scheduler_jobs
          (λ j, String.eqb (jb_channel j) channel && has_lease lease_token j)
    end).

(** The SET clause of a finished run. *)
Definition settle_job (status : TelegramSchedulerJobStatus) (next_run : option Z) (last_run : Z)
    (error : option string) (streak : Z → Z) (now : Z) (j : TelegramSchedulerJobRecord)
    : TelegramSchedulerJobRecord :=
  {| jb_id := jb_id j; jb_channel := jb_channel j; jb_chat_id := jb_chat_id j;
     jb_thread_id := jb_thread_id j; jb_owner := jb_owner j; jb_status := status;
     jb_task_kind := jb_task_kind j; jb_payload := jb_payload j;
     jb_schedule_kind := jb_schedule_kind j; jb_timezone := jb_timezone j;
     jb_run_at := jb_run_at j; jb_cron_expr := jb_cron_expr j;
     jb_policy_json := jb_policy_json j; jb_next_run := next_run;
     jb_last_run := Some last_run; jb_last_error := error;
     jb_run_count := jb_run_count j + 1; jb_failure_streak := streak (jb_failure_streak j);
     jb_max_runs := jb_max_runs j; jb_lease_token := None; jb_lease_until := None;
     jb_created_at := jb_created_at j; jb_updated_at := now |}.

(** The job a worker holds under a lease token. *)
Definition held (channel : string) (chat_id : Z) (job_id token : string)
    (j : TelegramSchedulerJobRecord) : bool :=
  String.eqb (jb_channel j) channel && (jb_chat_id j =? chat_id)%Z && is_job job_id j &&
  has_lease token j.

Record CompleteTelegramSchedulerJobRunRequest : Type := {
  co_channel : string;
  co_chat_id : Z;
  co_job_id : string;
  co_lease_token : string;
  co_started_at : Z;
  co_finished_at : Z;
  co_next_run : option Z;
  co_mark_completed : bool
}.

Definition complete_telegram_scheduler_job_run (req : CompleteTelegramSchedulerJobRunRequest)
    : DB unit :=
  transaction (
    sql_insert telegram_scheduler_runs (λ _, false)
      {| sr_job_id := co_job_id req; sr_channel := co_channel req; sr_chat_id := co_chat_id req;
         sr_started_at := co_started_at req; sr_finished_at := co_finished_at req;
         sr_ok := true; sr_error := None |} ;;
    let next_status := if co_mark_completed req then JobCompleted else JobActive in
    now ← unix_now;
    updated ← sql_update telegram_scheduler_jobs
      (held (co_channel req) (co_chat_id req) (co_job_id req) (co_lease_token req))
      (settle_job next_status (co_next_run req) (co_finished_at req) None (λ _, 0%Z) now);
    ensure (negb (updated =? 0)%Z) "scheduler job completion rejected due to missing lease").

Record FailTelegramSchedulerJobRunRequest : Type := {
  fj_channel : string;
  fj_chat_id : Z;
  fj_job_id : string;
  fj_lease_token : string;
  fj_started_at : Z;
  fj_finished_at : Z;
  fj_next_run : option Z;
  fj_pause_job : bool;
  fj_error : string
}.

Definition fail_telegram_scheduler_job_run (req : FailTelegramSchedulerJobRunRequest) : DB unit :=
  transaction (
    sql_insert telegram_scheduler_runs (λ _, false)
      {| sr_job_id := fj_job_id req; sr_channel := fj_channel req; sr_chat_id := fj_chat_id req;
         sr_started_at := fj_started_at req; sr_finished_at := fj_finished_at req;
         sr_ok := false; sr_error := Some (fj_error req) |} ;;
    let status := if fj_pause_job req then JobPaused else JobActive in
    now ← unix_now;
    updated ← sql_update telegram_scheduler_jobs
      (held (fj_channel req) (fj_chat_id req) (fj_job_id req) (fj_lease_token req))
      (settle_job status (fj_next_run req) (fj_finished_at req) (Some (fj_error req))
         (λ n, n + 1)%Z now);
    ensure (negb (updated =? 0)%Z)
      "scheduler job failure update rejected due to missing lease").

(** ** Pending intents *)

Record UpsertTelegramSchedulerPendingIntentRequest : Type := {
  ui_id : string;
  ui_channel : string;
  ui_chat_id : Z;
  ui_owner : Z;
  ui_draft_json : string;
  ui_expires_at : Z
}.

Definition intent_of (channel : string) (chat_id owner : Z)
    (i : TelegramSchedulerPendingIntentRecord) : bool :=
  String.eqb (pi_channel i) channel && (pi_chat_id i =? chat_id)%Z && (pi_owner i =? owner)%Z.

Definition upsert_telegram_scheduler_pending_intent
    (req : UpsertTelegramSchedulerPendingIntentRequest) : DB unit :=
  now ← unix_now;
  let row created := {| pi_id := ui_id req; pi_channel := ui_channel req;
                        pi_chat_id := ui_chat_id req; pi_owner := ui_owner req;
                        pi_draft_json := ui_draft_json req; pi_expires_at := ui_expires_at req;
                        pi_created_at := created; pi_updated_at := now |} in
  sql_upsert telegram_scheduler_pending_intents
    (intent_of (ui_channel req) (ui_chat_id req) (ui_owner req))
    (λ i, String.eqb (pi_id i) (ui_id req))
    (row now) (λ i, row (pi_created_at i)).

Definition load_telegram_scheduler_pending_intent (channel : string) (chat_id owner now_unix : Z)
    : DB (option TelegramSchedulerPendingIntentRecord) :=
  sql_first telegram_scheduler_pending_intents
    (λ i, intent_of channel chat_id owner i && (now_unix <? pi_expires_at i)%Z).

Definition delete_telegram_scheduler_pending_intent (channel : string) (chat_id owner : Z)
    : DB bool :=
  deleted ← sql_count telegram_scheduler_pending_intents (intent_of channel chat_id owner);
  sql_delete telegram_scheduler_pending_intents (intent_of channel chat_id owner) ;;
  mret (0 <? deleted)%Z.

(** ** The job store as a transition system *)

Inductive job_op : Type :=
| JCreate (req : CreateTelegramSchedulerJobRequest)
| JStatus (channel : string) (chat_id owner : Z) (job_id : string)
    (status : TelegramSchedulerJobStatus)
| JClaim (channel : string) (now_unix : Z) (limit : nat) (lease_secs : Z) (lease_token : string)
| JComplete (req : CompleteTelegramSchedulerJobRunRequest)
| JFail (req : FailTelegramSchedulerJobRunRequest)
| JIntent (req : UpsertTelegramSchedulerPendingIntentRequest)
| JDrop (channel : string) (chat_id owner : Z).

Definition job_exec (op : job_op) : DB unit :=
  match op with
  | JCreate req => create_telegram_scheduler_job req
  | JStatus channel chat_id owner job_id status =>
      unit_of (update_telegram_scheduler_job_status channel chat_id owner job_id status)
  | JClaim channel now_unix limit lease_secs lease_token =>
      unit_of (claim_due_telegram_scheduler_jobs channel now_unix limit lease_secs lease_token)
  | JComplete req => complete_telegram_scheduler_job_run req
  | JFail req => fail_telegram_scheduler_job_run req
  | JIntent req => upsert_telegram_scheduler_pending_intent req
  | JDrop channel chat_id owner =>
      unit_of (delete_telegram_scheduler_pending_intent channel chat_id owner)
  end.

Definition job_steps : relation JobsDb := op_steps job_exec.

Definition jobs_reachable (s : JobsDb) : Prop := op_reachable job_exec empty_jobs s.
End jobs.

(** * What the job store guarantees

    The invariant of the job tables, what a claim hands out, that a finished job stays
    as it is, and that a lost lease never settles a run. *)

Implicit Types s : JobsDb.
Implicit Types j : TelegramSchedulerJobRecord.

(** ** The invariant *)

Definition runs_of (job_id : string) (rs : list scheduler_run) : list scheduler_run :=
  List.filter (λ r, String.eqb (sr_job_id r) job_id) rs.

(** The failures since the last success. *)
Definition streak (rs : list scheduler_run) : Z :=
  foldl (λ n r, if sr_ok r then 0 else n + 1)%Z 0%Z rs.

(** The counters of a job tell its recorded runs, and only an active job is leased. *)
Definition job_ok (rs : list scheduler_run) (j : TelegramSchedulerJobRecord) : Prop :=
  jb_run_count j = Z.of_nat (length (runs_of (jb_id j) rs)) ∧
  jb_failure_streak j = streak (runs_of (jb_id j) rs) ∧
  (jb_lease_token j ≠ None → jb_status j = JobActive) ∧
  (jb_lease_token j = None ↔ jb_lease_until j = None).

Definition intent_owner (i : TelegramSchedulerPendingIntentRecord) : string * Z * Z :=
  (pi_channel i, pi_chat_id i, pi_owner i).

Record jobs_inv (s : JobsDb) : Prop := {
  ji_ids : NoDup (jb_id <$> jobs s);
  ji_jobs : Forall (job_ok (job_runs s)) (jobs s);
  ji_runs : Forall (λ r, sr_job_id r ∈ jb_id <$> jobs s) (job_runs s);
  ji_owners : NoDup (intent_owner <$> intents s);
  ji_intents : NoDup (pi_id <$> intents s)
}.

Lemma jobs_inv_empty : jobs_inv empty_jobs.
Proof. split; cbn; constructor. Qed.

(** An update of the jobs that keeps ids and the facts of each row. *)
Lemma jobs_inv_update p f s :
  (∀ j, jb_id (f j) = jb_id j) →
  (∀ j, p j = true → job_ok (job_runs s) j → job_ok (job_runs s) (f j)) →
  jobs_inv s → jobs_inv (tset telegram_scheduler_jobs (update_where p f (jobs s)) s).
Proof.
  intros Hid Hok [H1 H2 H3 H4 H5]. split; cbn; rewrite ?fmap_update_where by done; [done| |done..].
  apply Forall_forall. intros x (y & Hy & ->)%elem_update_where.
  rewrite Forall_forall in H2. destruct (p y) eqn:E; [apply Hok; auto|auto].
Qed.

Lemma runs_of_app job_id rs r :
  runs_of job_id (rs ++ [r]) =
    runs_of job_id rs ++ (if String.eqb (sr_job_id r) job_id then [r] else []).
Proof. unfold runs_of. rewrite List.filter_app. cbn. by destruct (String.eqb _ _). Qed.

Lemma job_ok_other rs r j : sr_job_id r ≠ jb_id j → job_ok rs j → job_ok (rs ++ [r]) j.
Proof.
  intros Hne. unfold job_ok. apply String.eqb_neq in Hne. by rewrite runs_of_app, Hne, app_nil_r.
Qed.

Lemma has_lease_spec token j : has_lease token j = true ↔ jb_lease_token j = Some token.
Proof. apply bool_decide_eq_true. Qed.

Lemma held_spec channel chat_id job_id token j :
  held channel chat_id job_id token j = true ↔
  jb_channel j = channel ∧ jb_chat_id j = chat_id ∧ jb_id j = job_id ∧
  jb_lease_token j = Some token.
Proof.
  unfold held, is_job. rewrite !andb_true_iff, !String.eqb_eq, Z.eqb_eq, has_lease_spec. tauto.
Qed.

(** A settled run: the run row, and the one job that held the lease. *)
Lemma jobs_inv_settle s r channel chat_id token status next_run last_run error streak' now :
  (∀ n, streak' n = if sr_ok r then 0 else n + 1)%Z →
  jobs_inv s →
  count_where (held channel chat_id (sr_job_id r) token) (jobs s) ≠ 0%Z →
  jobs_inv (tset telegram_scheduler_jobs
    (update_where (held channel chat_id (sr_job_id r) token)
       (settle_job status next_run last_run error streak' now) (jobs s))
    (tset telegram_scheduler_runs (job_runs s ++ [r]) s)).
Proof.
  intros Hstreak [H1 H2 H3 H4 H5] (j0 & Hj0 & Hheld)%count_where_pos.
  pose proof Hheld as (Hc & Hch & Hid & Htok)%held_spec.
  split; cbn; rewrite ?fmap_update_where by done; [done| | |done..].
  - apply Forall_forall. intros x (j & Hj & ->)%elem_update_where.
    rewrite Forall_forall in H2. destruct (held _ _ _ _ j) eqn:E.
    + apply held_spec in E as (_ & _ & Hjid & _). destruct (H2 j Hj) as (Hn & Hs & _).
      unfold job_ok. cbn. rewrite runs_of_app, <- Hjid, String.eqb_refl. split_and!; [| |done|done].
      * rewrite length_app, Hn. cbn. lia.
      * unfold streak in *. rewrite foldl_app, <- Hs. cbn. by rewrite Hstreak.
    + apply job_ok_other; [|by apply H2]. intros Heq.
      assert (j = j0) as -> by (apply (nodup_key_inj jb_id (jobs s)); auto; congruence).
      by rewrite Hheld in E.
  - apply Forall_app. split; [done|]. constructor; [|done].
    apply list_elem_of_fmap. by exists j0.
Qed.

Lemma jobs_inv_filter_intents p s :
  jobs_inv s → jobs_inv (tset telegram_scheduler_pending_intents (List.filter p (intents s)) s).
Proof.
  intros [H1 H2 H3 H4 H5]. split; cbn; [done..| |]; by apply nodup_key_filter.
Qed.

Section history.
  Context `{CLK : Clock}.

Lemma inv_create req : stable (keeps jobs_inv) (create_telegram_scheduler_job req).
Proof.
  unfold create_telegram_scheduler_job. stable_go. apply stable_sql_insert; [apply _|].
  intros s E [H1 H2 H3 H4 H5].
  assert (Hnew : cj_id req ∉ jb_id <$> jobs s).
  { intros (j & Hj & Hin)%list_elem_of_fmap. pose proof (existsb_false _ _ E j Hin) as Hn.
    unfold is_job in Hn. by rewrite Hj, String.eqb_refl in Hn. }
  split; cbn; [by apply nodup_key_snoc| | |done..].
  - apply Forall_app. split; [done|]. constructor; [|done].
    assert (Hr : runs_of (cj_id req) (job_runs s) = []).
    { unfold runs_of. clear -H3 Hnew. induction H3 as [|r rs Hr _ IH]; cbn; [done|].
      destruct (String.eqb_spec (sr_job_id r) (cj_id req)) as [Heq|]; [|done].
      rewrite Heq in Hr. by apply Hnew in Hr. }
    unfold job_ok. cbn. by rewrite Hr.
  - eapply Forall_impl; [exact H3|]. cbn. intros r Hr. rewrite fmap_app.
    apply elem_of_app. by left.
Qed.

Lemma inv_status channel chat_id owner job_id status :
  stable (keeps jobs_inv)
    (update_telegram_scheduler_job_status channel chat_id owner job_id status).
Proof.
  unfold update_telegram_scheduler_job_status. stable_go. apply stable_sql_update. intros s Hi.
  apply jobs_inv_update; [done| |done]. intros j _ (Hn & Hs & _). unfold job_ok. cbn. done.
Qed.

Lemma inv_claim channel now_unix limit lease_secs lease_token :
  stable (keeps jobs_inv)
    (claim_due_telegram_scheduler_jobs channel now_unix limit lease_secs lease_token).
Proof.
  unfold claim_due_telegram_scheduler_jobs. cbv zeta. stable_go.
  apply stable_sql_update. intros s' Hi. apply jobs_inv_update; [done| |done].
  intros j Hp (Hn & Hs & _). rewrite !andb_true_iff, bool_decide_eq_true in Hp.
  unfold job_ok. cbn. destruct Hp as [[[_ Ha] _] _]. done.
Qed.

Lemma inv_complete req : stable (keeps jobs_inv) (complete_telegram_scheduler_job_run req).
Proof.
  apply stable_of_wp. intros s. unfold complete_telegram_scheduler_job_run. cbv zeta.
  do 3 wp_step. wp_step. wp_step. wp_step. wp_step. wp_step; [|by intros Hi].
  intros Hi. apply (jobs_inv_settle s (Build_scheduler_run _ _ _ _ _ true _)); try done.
  by apply negb_true_iff, Z.eqb_neq in H0.
Qed.

Lemma inv_fail req : stable (keeps jobs_inv) (fail_telegram_scheduler_job_run req).
Proof.
  apply stable_of_wp. intros s. unfold fail_telegram_scheduler_job_run. cbv zeta.
  do 3 wp_step. wp_step. wp_step. wp_step. wp_step. wp_step; [|by intros Hi].
  intros Hi. apply (jobs_inv_settle s (Build_scheduler_run _ _ _ _ _ false _)); try done.
  by apply negb_true_iff, Z.eqb_neq in H0.
Qed.

Lemma inv_intent req : stable (keeps jobs_inv) (upsert_telegram_scheduler_pending_intent req).
Proof.
  unfold upsert_telegram_scheduler_pending_intent. cbv zeta. stable_go.
  apply stable_sql_upsert; [apply _|]. intros s Hother [H1 H2 H3 H4 H5].
  pose proof (existsb_false _ _ Hother) as Hfree. clear Hother.
  cbn [tget telegram_scheduler_pending_intents] in *.
  assert (Hkey : ∀ i, intent_of (ui_channel req) (ui_chat_id req) (ui_owner req) i = true ↔
    intent_owner i = (ui_channel req, ui_chat_id req, ui_owner req)).
  { intros i. unfold intent_of, intent_owner. rewrite !andb_true_iff, String.eqb_eq, !Z.eqb_eq.
    split; [by intros [[-> ->] ->]|by intros [= -> -> ->]]. }
  destruct (existsb _ (intents s)) eqn:E; split; cbn; try done.
  - rewrite fmap_update_where_on; [done|]. intros i Hi%Hkey. by rewrite Hi.
  - apply existsb_exists in E as (i0 & Hi0%list_elem_of_In & Hk0).
    apply nodup_update_one with (k := ui_id req) (x := i0); [done..| | |done].
    + intros i Hi Hk%Hkey. apply Hkey in Hk0.
      apply (nodup_key_inj intent_owner (intents s)); [done..|congruence].
    + intros i Hi Hk. specialize (Hfree i Hi). rewrite Hk in Hfree. cbn in Hfree.
      by apply String.eqb_neq in Hfree.
  - apply nodup_key_snoc; [done|]. intros (i & Hk & Hi)%list_elem_of_fmap.
    pose proof (existsb_false _ _ E i Hi) as Hn. apply not_true_iff_false in Hn. apply Hn, Hkey.
    by rewrite <- Hk.
  - apply nodup_key_snoc; [done|]. intros (i & Hk & Hi)%list_elem_of_fmap.
    specialize (Hfree i Hi). rewrite (existsb_false _ _ E i Hi), <- Hk in Hfree. cbn in Hfree.
    by rewrite String.eqb_refl in Hfree.
Qed.

Lemma inv_drop channel chat_id owner :
  stable (keeps jobs_inv) (delete_telegram_scheduler_pending_intent channel chat_id owner).
Proof.
  unfold delete_telegram_scheduler_pending_intent. stable_go. apply stable_sql_delete. intros s Hi.
  by apply jobs_inv_filter_intents.
Qed.

Lemma job_exec_inv op : stable (keeps jobs_inv) (job_exec op).
Proof.
  destruct op; cbn; try apply stable_unit_of;
    auto using inv_create, inv_status, inv_claim, inv_complete, inv_fail, inv_intent, inv_drop.
Qed.

Lemma jobs_reachable_inv s : jobs_reachable s → jobs_inv s.
Proof. apply op_reachable_invariant; [apply jobs_inv_empty|apply job_exec_inv]. Qed.

(** The job tables agree with each other: in any reachable store job ids are unique,
    every job's run count and failure streak are those of its recorded runs, every run
    belongs to a job, only active jobs are leased, and an owner has one pending intent. *)
Theorem job_tables_agree s : jobs_reachable s → jobs_inv s.
Proof. apply jobs_reachable_inv. Qed.

(** ** Finished jobs *)

(** What any sequence of operations keeps of a job. *)
Definition job_le (j j' : TelegramSchedulerJobRecord) : Prop :=
  (jb_id j', jb_channel j', jb_chat_id j', jb_owner j', jb_payload j', jb_max_runs j') =
    (jb_id j, jb_channel j, jb_chat_id j, jb_owner j, jb_payload j, jb_max_runs j) ∧
  (jb_run_count j ≤ jb_run_count j')%Z ∧ (job_finished j = true → j' = j).

#[export] Instance job_le_preorder : PreOrder job_le.
Proof.
  split; [by intros j|]. intros j1 j2 j3 (H1 & H2 & H3) (H4 & H5 & H6).
  split_and!; [congruence|lia|]. intros H. rewrite (H3 H) in *. auto.
Qed.

Record jobs_le (s s' : JobsDb) : Prop := {
  jl_jobs : ∃ l, Forall2 job_le (jobs s) l ∧ l `prefix_of` jobs s';
  jl_runs : job_runs s `prefix_of` job_runs s'
}.

#[export] Instance jobs_le_preorder : PreOrder jobs_le.
Proof.
  split.
  - intros s. split; [|done]. exists (jobs s). split; [|done]. by apply Forall_Forall2_diag, Forall_forall.
  - intros s1 s2 s3 [(l1 & H1 & H2) H3] [(l2 & H4 & H5) H6]. split; [|by etrans].
    destruct H2 as [k Hk]. rewrite Hk in H4. apply Forall2_app_inv_l in H4 as (a & b & Ha & Hb & ->).
    exists a. split; [by etrans|]. etrans; [by apply prefix_app_r|exact H5].
Qed.

(** The invariant travels along. *)
Definition jobs_run (s s' : JobsDb) : Prop := jobs_inv s → jobs_inv s' ∧ jobs_le s s'.

#[export] Instance jobs_run_preorder : PreOrder jobs_run.
Proof.
  split; [by intros s|]. intros s1 s2 s3 H1 H2 Hi. destruct (H1 Hi) as [Hi2 L1].
  destruct (H2 Hi2) as [Hi3 L2]. split; [done|by etrans].
Qed.

Lemma jobs_le_update p f s rs :
  (∀ j, j ∈ jobs s → p j = true → job_le j (f j)) → job_runs s `prefix_of` rs →
  jobs_le s (tset telegram_scheduler_jobs (update_where p f (jobs s))
               (tset telegram_scheduler_runs rs s)).
Proof.
  intros H Hr. split; [|exact Hr]. exists (update_where p f (jobs s)). split; [|done].
  unfold update_where. apply Forall2_fmap_r, Forall_Forall2_diag, Forall_forall.
  intros j Hj. unfold compose. destruct (p j) eqn:E; [auto|reflexivity].
Qed.

Lemma run_of_le {A} (m : M JobsDb A) :
  stable (keeps jobs_inv) m → (∀ s, jobs_inv s → wp m (λ _ s', jobs_le s s') s) → stable jobs_run m.
Proof. intros Hk Hle w Hi. split; [by apply Hk|]. by apply (Hle (w_db w) Hi w). Qed.

(** A job under a lease is active, so a settled run leaves finished jobs alone. *)
Lemma settle_le s channel chat_id job_id token status next_run last_run error streak' now j :
  jobs_inv s → j ∈ jobs s → held channel chat_id job_id token j = true →
  job_le j (settle_job status next_run last_run error streak' now j).
Proof.
  intros Hi Hj (_ & _ & _ & Ht)%held_spec. split_and!; [done|cbn; lia|].
  pose proof (ji_jobs s Hi) as H. rewrite Forall_forall in H. destruct (H j Hj) as (_ & _ & Ha & _).
  unfold job_finished. rewrite Ha by (by rewrite Ht). done.
Qed.

Lemma run_settle channel chat_id job_id token r status next_run last_run error streak' e :
  let m := transaction (
    sql_insert telegram_scheduler_runs (λ _, false) r ;;
    now ← unix_now;
    updated ← sql_update telegram_scheduler_jobs (held channel chat_id job_id token)
      (settle_job status next_run last_run error streak' now);
    ensure (negb (updated =? 0)%Z) e) in
  stable (keeps jobs_inv) m → stable jobs_run m.
Proof.
  intros m Hk. apply run_of_le; [exact Hk|]. intros s Hi. unfold m.
  do 3 wp_step. do 4 wp_step. wp_step; [|done].
  apply (jobs_le_update _ _ s (job_runs s ++ [r])); [|by apply prefix_app_r].
  intros j Hj Hh. by eapply settle_le.
Qed.

Lemma job_exec_run op : stable jobs_run (job_exec op).
Proof.
  pose proof (job_exec_inv op) as Hk. destruct op; cbn in *.
  - apply run_of_le; [done|]. intros s Hi. unfold create_telegram_scheduler_job.
    do 3 wp_step; [|done]. split; [|done]. exists (jobs s).
    split; [by apply Forall_Forall2_diag, Forall_forall|by apply prefix_app_r].
  - apply run_of_le; [done|]. intros s Hi. apply (wp_of_stable jobs_le).
    apply stable_unit_of. unfold update_telegram_scheduler_job_status. stable_go.
    apply stable_sql_update. intros s'. apply (jobs_le_update _ _ s' (job_runs s')); [|done].
    intros j _ Hp. rewrite !andb_true_iff, negb_true_iff in Hp. destruct Hp as [_ Hf].
    split_and!; [done|cbn; lia|congruence].
  - apply run_of_le; [done|]. intros s Hi. apply (wp_of_stable jobs_le).
    apply stable_unit_of. unfold claim_due_telegram_scheduler_jobs. cbv zeta. stable_go.
    apply stable_sql_update. intros s'. apply (jobs_le_update _ _ s' (job_runs s')); [|done].
    intros j _ Hp. rewrite !andb_true_iff, bool_decide_eq_true in Hp. destruct Hp as [[[_ Ha] _] _].
    split_and!; [done|cbn; lia|]. unfold job_finished. by rewrite Ha.
  - by apply run_settle.
  - by apply run_settle.
  - apply run_of_le; [done|]. intros s Hi. apply (wp_of_stable jobs_le).
    unfold upsert_telegram_scheduler_pending_intent. cbv zeta. stable_go.
    apply stable_sql_upsert; [apply _|]. intros s' _. by split; [exists (jobs s')|].
  - apply run_of_le; [done|]. intros s Hi. apply (wp_of_stable jobs_le).
    apply stable_unit_of. unfold delete_telegram_scheduler_pending_intent. stable_go.
    apply stable_sql_delete. intros s'. by split; [exists (jobs s')|].
Qed.

(** A finished job is final: in any later store every job keeps its identity and its
    run count never falls, a completed or canceled job is exactly what it was, and
    recorded runs stay. *)
Theorem finished_jobs_are_final s s' i j :
  jobs_reachable s → job_steps s s' → jobs s !! i = Some j →
  (∃ j', jobs s' !! i = Some j' ∧ job_le j j') ∧ job_runs s `prefix_of` job_runs s'.
Proof.
  intros Hr Hs Hj. apply jobs_reachable_inv in Hr.
  destruct (op_steps_preserve _ jobs_run job_exec_run s s' Hs Hr) as [_ [(l & H1 & H2) H3]].
  split; [|done]. destruct (Forall2_lookup_l _ _ _ _ _ H1 Hj) as (j' & Hj' & Hle).
  exists j'. split; [by eapply prefix_lookup_Some|done].
Qed.

(** ** Claims *)

Lemma earliest_total a b : earliest_run_first a b = false → earliest_run_first b a = true.
Proof. unfold earliest_run_first. destruct (jb_next_run a), (jb_next_run b); try done. lia. Qed.

Lemma earliest_trans a b c :
  earliest_run_first a b = true → earliest_run_first b c = true → earliest_run_first a c = true.
Proof.
  unfold earliest_run_first. destruct (jb_next_run a), (jb_next_run b), (jb_next_run c); try done. lia.
Qed.

Lemma str_in_spec x l : str_in x l = true ↔ x ∈ l.
Proof.
  unfold str_in. rewrite existsb_exists. split.
  - by intros (y & Hy%list_elem_of_In & ->%String.eqb_eq).
  - intros H. exists x. split; [by apply list_elem_of_In|apply String.eqb_refl].
Qed.

(** The jobs a claim picks. *)
Definition picked (channel : string) (now_unix : Z) (limit : nat) (s : JobsDb) :
    list TelegramSchedulerJobRecord :=
  take (Nat.max limit 1) (order_by earliest_run_first (List.filter (due channel now_unix) (jobs s))).

Lemma picked_due channel now_unix limit s j :
  j ∈ picked channel now_unix limit s → j ∈ jobs s ∧ due channel now_unix j = true.
Proof.
  unfold picked. intros H. apply (subseteq_take _ _) in H. rewrite order_by_perm in H.
  apply list_elem_of_In, List.filter_In in H as [H ?]. split; [by apply list_elem_of_In|done].
Qed.

(** The WHERE clause of the claim's UPDATE selects the picked jobs. *)
Lemma claim_where channel now_unix limit s j :
  NoDup (jb_id <$> jobs s) → j ∈ jobs s →
  String.eqb (jb_channel j) channel && bool_decide (jb_status j = JobActive) &&
    str_in (jb_id j) (jb_id <$> picked channel now_unix limit s) && lease_free now_unix j = true ↔
  j ∈ picked channel now_unix limit s.
Proof.
  intros Hn Hj. rewrite !andb_true_iff, str_in_spec. split.
  - intros [[_ (j' & Hid & Hj')%list_elem_of_fmap] _].
    assert (j = j') as ->; [|done]. apply picked_due in Hj' as [? _].
    by apply (nodup_key_inj jb_id (jobs s)).
  - intros Hp. pose proof Hp as [_ Hd]%picked_due. unfold due in Hd.
    rewrite !andb_true_iff in Hd. destruct Hd as [[[-> ->] _] ->]. split_and!; try done.
    apply list_elem_of_fmap. by exists j.
Qed.

Lemma picked_length channel now_unix limit s :
  length (picked channel now_unix limit s) =
  Nat.min (Nat.max limit 1) (length (List.filter (due channel now_unix) (jobs s))).
Proof. unfold picked. rewrite length_take. by rewrite (Permutation_length (order_by_perm _ _)). Qed.

Lemma picked_nodup channel now_unix limit s :
  NoDup (jb_id <$> jobs s) → NoDup (picked channel now_unix limit s).
Proof.
  intros Hn. unfold picked. eapply sublist_NoDup; [|apply sublist_take].
  rewrite order_by_perm. apply NoDup_ListNoDup, List.NoDup_filter, NoDup_ListNoDup.
  by eapply NoDup_fmap_1.
Qed.

(** The rows that the claim's last SELECT finds. *)
Lemma leased_rows channel token until t s chosen :
  NoDup (jb_id <$> jobs s) → NoDup chosen →
  (∀ j, j ∈ chosen → j ∈ jobs s ∧ jb_channel j = channel) →
  (∀ j, j ∈ jobs s → jb_lease_token j ≠ Some token) →
  List.filter (λ j, String.eqb (jb_channel j) channel && has_lease token j)
    (update_where (λ j, bool_decide (jb_id j ∈ jb_id <$> chosen)) (set_job_lease token until t) (jobs s))
  ≡ₚ set_job_lease token until t <$> chosen.
Proof.
  intros Hn Hc Hin Hfresh.
  assert (Hmem : ∀ j, j ∈ jobs s → jb_id j ∈ jb_id <$> chosen → j ∈ chosen).
  { intros j Hj (j' & Hid & Hj')%list_elem_of_fmap.
    assert (j = j') as ->; [|done]. destruct (Hin j' Hj').
    by apply (nodup_key_inj jb_id (jobs s)). }
  rewrite filter_update_where.
  - apply fmap_Permutation, NoDup_Permutation; [|done|].
    + apply NoDup_ListNoDup, List.NoDup_filter, NoDup_ListNoDup. by eapply NoDup_fmap_1.
    + intros j. rewrite list_elem_of_In, List.filter_In, <- list_elem_of_In, bool_decide_eq_true.
      split; [intros []; auto|]. intros Hj. split; [by apply Hin|].
      apply list_elem_of_fmap. by exists j.
  - intros j Hj Hp%bool_decide_eq_true. destruct (Hin j (Hmem j Hj Hp)) as [_ <-].
    cbn. rewrite String.eqb_refl. cbn. by apply has_lease_spec.
  - intros j Hj _. apply andb_false_iff. right. apply not_true_iff_false.
    rewrite has_lease_spec. by apply Hfresh.
Qed.

(** What a claim hands out: with a token no job holds, it leases exactly the earliest
    due jobs of the channel, as many as the limit allows - due jobs are active, past
    their run time and not under a running lease - and answers with them; a due job it
    leaves runs no earlier than any it took, and nothing else changes. *)
Theorem claim_hands_out_due_jobs channel now_unix limit lease_secs token s :
  jobs_reachable s → (∀ j, j ∈ jobs s → jb_lease_token j ≠ Some token) →
  wp (claim_due_telegram_scheduler_jobs channel now_unix limit lease_secs token)
     (λ r s', ∃ chosen t,
        let leased := set_job_lease token (now_unix + Z.max lease_secs 1) t in
        NoDup chosen ∧
        length chosen = Nat.min (Nat.max limit 1)
                          (length (List.filter (due channel now_unix) (jobs s))) ∧
        (∀ j, j ∈ chosen → j ∈ jobs s ∧ due channel now_unix j = true) ∧
        (∀ j j', j ∈ chosen → j' ∈ jobs s → due channel now_unix j' = true → j' ∉ chosen →
           earliest_run_first j j' = true) ∧
        (∃ claimed, r = Ok claimed ∧ claimed ≡ₚ leased <$> chosen) ∧
        jobs s' = (λ j, if bool_decide (jb_id j ∈ jb_id <$> chosen) then leased j else j) <$> jobs s ∧
        job_runs s' = job_runs s ∧ intents s' = intents s) s.
Proof.
  intros Hr Hfresh. pose proof (ji_ids s (jobs_reachable_inv s Hr)) as Hn.
  unfold claim_due_telegram_scheduler_jobs. do 3 wp_step. cbv zeta.
  cbn [tget telegram_scheduler_jobs]. fold (picked channel now_unix limit s).
  set (chosen := picked channel now_unix limit s).
  assert (Hchosen : NoDup chosen ∧ length chosen = Nat.min (Nat.max limit 1)
      (length (List.filter (due channel now_unix) (jobs s))) ∧
    (∀ j, j ∈ chosen → j ∈ jobs s ∧ due channel now_unix j = true) ∧
    (∀ j j', j ∈ chosen → j' ∈ jobs s → due channel now_unix j' = true → j' ∉ chosen →
       earliest_run_first j j' = true)).
  { split_and!; [by apply picked_nodup|apply picked_length|intros j; apply picked_due|].
    intros j j' Hj Hj' Hd Hnot. eapply order_by_take_drop;
      [apply earliest_total|apply earliest_trans|exact Hj|].
    assert (Hin : j' ∈ order_by earliest_run_first (List.filter (due channel now_unix) (jobs s))).
    { rewrite order_by_perm. apply list_elem_of_In, List.filter_In.
      split; [by apply list_elem_of_In|done]. }
    rewrite <- (take_drop (Nat.max limit 1)) in Hin. by apply elem_of_app in Hin as [?|?]. }
  destruct Hchosen as (C1 & C2 & C3 & C4).
  destruct (jb_id <$> chosen) as [|i ids] eqn:E.
  { apply fmap_nil_inv in E. wp_step. exists [], 0%Z. cbn. rewrite E in *.
    split_and!; try done; [by exists []|].
    by rewrite (list_fmap_id (jobs s)) at 1. }
  rewrite <- E. clear i ids E. wp_step. apply wp_unix_now. intros time _. do 2 wp_step.
  assert (Hup : ∀ now, update_where (λ j, String.eqb (jb_channel j) channel &&
      bool_decide (jb_status j = JobActive) && str_in (jb_id j) (jb_id <$> chosen) &&
      lease_free now_unix j) (set_job_lease token (now_unix + Z.max lease_secs 1) now) (jobs s) =
    update_where (λ j, bool_decide (jb_id j ∈ jb_id <$> chosen))
      (set_job_lease token (now_unix + Z.max lease_secs 1) now) (jobs s)).
  { intros now. apply list_fmap_ext. intros ? j Hj%list_elem_of_lookup_2.
    apply (f_equal (λ b : bool,
      if b then set_job_lease token (now_unix + Z.max lease_secs 1) now j else j)).
    apply eq_true_iff_eq. rewrite bool_decide_eq_true. etrans; [by apply claim_where|]. split.
    - intros Hp. apply list_elem_of_fmap. by exists j.
    - intros (j' & Hid & Hj')%list_elem_of_fmap.
      assert (j = j') as ->; [|done]. apply (nodup_key_inj jb_id (jobs s)); [done..| |done].
      by apply C3. }
  wp_step. cbn [tget telegram_scheduler_jobs tset jobs job_runs intents].
  exists chosen, time. cbv zeta. rewrite Hup. split_and!; try done. eexists. split; [done|].
  apply leased_rows; [done..| |done]. intros j Hj. destruct (C3 j Hj) as [? Hd]. split; [done|].
  unfold due in Hd. rewrite !andb_true_iff, String.eqb_eq in Hd. tauto.
Qed.

(** ** Lost leases *)

(** Nobody holds the job under the token. *)
Definition lost (channel : string) (chat_id : Z) (job_id token : string) (s : JobsDb) : Prop :=
  ∀ j, j ∈ jobs s →
    ¬ (jb_channel j = channel ∧ jb_chat_id j = chat_id ∧ jb_id j = job_id ∧ jb_lease_token j = Some token).

Definition claims_with (token : string) (op : job_op) : Prop :=
  match op with JClaim _ _ _ _ token' => token' = token | _ => False end.

Lemma lost_update channel chat_id job_id token p f s s' :
  (∀ j, p j = true → jb_lease_token (f j) ≠ Some token) →
  jobs s' = update_where p f (jobs s) → lost channel chat_id job_id token s →
  lost channel chat_id job_id token s'.
Proof.
  intros Hf Hs Hl j. rewrite Hs. intros (x & Hx & ->)%elem_update_where.
  destruct (p x) eqn:E; [|by apply Hl]. intros (_ & _ & _ & H). by apply (Hf x).
Qed.

Lemma lost_stays channel chat_id job_id token op :
  ¬ claims_with token op → stable (keeps (lost channel chat_id job_id token)) (job_exec op).
Proof.
  assert (Hsettle : ∀ channel' chat_id' job_id' token' r status next_run last_run error streak' e,
    stable (keeps (lost channel chat_id job_id token)) (transaction (
      sql_insert telegram_scheduler_runs (λ _, false) r ;;
      now ← unix_now;
      updated ← sql_update telegram_scheduler_jobs (held channel' chat_id' job_id' token')
        (settle_job status next_run last_run error streak' now);
      ensure (negb (updated =? 0)%Z) e))).
  { intros. stable_go.
    - apply stable_sql_insert; [apply _|]. intros s _ Hl. exact Hl.
    - apply stable_sql_update. intros s Hl.
    eapply lost_update; [|reflexivity|exact Hl].
      by intros j _. }
  intros Hop. destruct op; cbn in *; try (apply stable_unit_of); try apply Hsettle.
  - unfold create_telegram_scheduler_job. stable_go. apply stable_sql_insert; [apply _|].
    intros s _ Hl j. cbn. intros [Hj| ->%list_elem_of_singleton]%elem_of_app; [by apply Hl|].
    by intros (_ & _ & _ & H).
  - unfold update_telegram_scheduler_job_status. stable_go. apply stable_sql_update. intros s Hl.
    eapply lost_update; [|reflexivity|exact Hl]. by intros j _.
  - unfold claim_due_telegram_scheduler_jobs. cbv zeta. stable_go. apply stable_sql_update.
    intros s0 Hl.
    eapply lost_update; [|reflexivity|exact Hl]. intros j _. cbn. congruence.
  - unfold upsert_telegram_scheduler_pending_intent. cbv zeta. stable_go.
    apply stable_sql_upsert; [apply _|]. intros s _ Hl. exact Hl.
  - unfold delete_telegram_scheduler_pending_intent. stable_go. apply stable_sql_delete. intros s Hl. exact Hl.
Qed.

Lemma lost_count channel chat_id job_id token s :
  lost channel chat_id job_id token s → count_where (held channel chat_id job_id token) (jobs s) = 0%Z.
Proof.
  intros H. apply count_where_none. intros j Hj. apply not_true_iff_false. rewrite held_spec. by apply H.
Qed.

(** C25: Safety: a lost lease settles nothing: once no job is held under a token - its run was
    settled, the owner changed the job, or another claim took it over - then whatever
    happens, unless that token is used for a new claim, both outcomes of the old run are
    refused and leave the store as it was. *)
Theorem lost_lease_settles_nothing s s' done_ failed :
  lost (co_channel done_) (co_chat_id done_) (co_job_id done_) (co_lease_token done_) s →
  lost (fj_channel failed) (fj_chat_id failed) (fj_job_id failed) (fj_lease_token failed) s →
  co_lease_token done_ = fj_lease_token failed →
  op_steps_where job_exec (λ op, ¬ claims_with (co_lease_token done_) op) s s' →
  wp (complete_telegram_scheduler_job_run done_)
     (λ r s'', r = Err "scheduler job completion rejected due to missing lease" ∧ s'' = s') s' ∧
  wp (fail_telegram_scheduler_job_run failed)
     (λ r s'', r = Err "scheduler job failure update rejected due to missing lease" ∧ s'' = s') s'.
Proof.
  intros H1 H2 Ht Hs.
  pose proof (op_steps_where_preserve _ _ _ (lost_stays _ _ _ _) _ _ Hs H1) as H1'.
  rewrite Ht in Hs.
  pose proof (op_steps_where_preserve _ _ _ (lost_stays _ _ _ _) _ _ Hs H2) as H2'.
  apply lost_count in H1', H2'. split.
  - unfold complete_telegram_scheduler_job_run. cbv zeta. do 7 wp_step. cbn [tget telegram_scheduler_jobs tset telegram_scheduler_runs jobs].
    rewrite ?H1'. by wp_step.
  - unfold fail_telegram_scheduler_job_run. cbv zeta. do 7 wp_step. cbn [tget telegram_scheduler_jobs tset telegram_scheduler_runs jobs].
    rewrite ?H2'. by wp_step.
Qed.

(** A re-claim takes the job away from every other token. *)
Lemma lost_after_claim channel chat_id job_id token token' s j :
  jobs_inv s → j ∈ jobs s → jb_id j = job_id → jb_lease_token j = Some token' → token' ≠ token →
  lost channel chat_id job_id token s.
Proof.
  intros Hi Hj Hid Ht Hne j' Hj' (_ & _ & Hid' & Ht'). assert (j = j') as ->; [|congruence].
  apply (nodup_key_inj jb_id (jobs s)); [by apply ji_ids|done..|congruence].
Qed.
End history.
