(* ===== verification/Outbox.v ===== *)
(** * The Telegram edge: admissions and outbound messages

    The tables of src/memory.rs at the channel boundary: which updates were taken up,
    which session a sent message belongs to, and the queue of messages to send again,
    with the pass of src/http.rs that drains it; how often an update is taken up, and what a
    pass settles. *)

From S2P Require Import Prelude Text MemBase.
From stdpp Require Import pretty.

(** A row of [telegram_admissions]. *)
Record admission_row : Type := {
  ad_update_id : Z;
  ad_status : string;
  ad_kind : string;
  ad_summary_json : string;
  ad_detail : option string;
  ad_attempts : Z;
  ad_lease_until : Z;
  ad_created_at : Z;
  ad_updated_at : Z
}.

(** A row of [telegram_outbound_messages]. *)
Record outbound_message : Type := {
  om_chat_id : Z;
  om_message_id : Z;
  om_session_id : string;
  om_sent_at : Z
}.

(** A row of [telegram_outbound_queue]. *)
Record TelegramOutboundQueueRecord : Type := {
  qr_id : string;
  qr_channel : string;
  qr_chat_id : Z;
  qr_thread_id : option Z;
  qr_reply_to : option Z;
  qr_text : string;
  qr_status : string;
  qr_attempts : Z;
  qr_next_attempt_at : Z;
  qr_last_error : option string;
  qr_session_id : option string;
  qr_created_at : Z;
  qr_sent_at : option Z
}.

Record ChannelDb : Type := {
  admissions : list admission_row;
  outbound_messages : list outbound_message;
  outbound_queue : list TelegramOutboundQueueRecord
}.

Definition empty_channel : ChannelDb :=
  {| admissions := []; outbound_messages := []; outbound_queue := [] |}.

Definition telegram_admissions : table ChannelDb admission_row :=
  Table admissions (λ l s, {| admissions := l; outbound_messages := outbound_messages s;
                              outbound_queue := outbound_queue s |}).

Definition telegram_outbound_messages : table ChannelDb outbound_message :=
  Table outbound_messages (λ l s, {| admissions := admissions s; outbound_messages := l;
                                     outbound_queue := outbound_queue s |}).

Definition telegram_outbound_queue : table ChannelDb TelegramOutboundQueueRecord :=
  Table outbound_queue (λ l s, {| admissions := admissions s;
                                  outbound_messages := outbound_messages s;
                                  outbound_queue := l |}).

Definition TELEGRAM_ADMISSION_MAX_ATTEMPTS : Z := 3.

Section channel.
  Context `{CLK : Clock}.

Abbreviation DB := (M ChannelDb).

(** ** Admissions *)

Definition is_update (update_id : Z) (a : admission_row) : bool := (ad_update_id a =? update_id)%Z.

Definition processing (a : admission_row) : bool := String.eqb (ad_status a) "processing".

(** [SET status, detail, updated_at]. *)
Definition close_admission (status : string) (detail : option string) (now : Z) (a : admission_row)
    : admission_row :=
  {| ad_update_id := ad_update_id a; ad_status := status; ad_kind := ad_kind a;
     ad_summary_json := ad_summary_json a; ad_detail := detail; ad_attempts := ad_attempts a;
     ad_lease_until := ad_lease_until a; ad_created_at := ad_created_at a; ad_updated_at := now |}.

Definition reclaim (lease_until now : Z) (a : admission_row) : admission_row :=
  {| ad_update_id := ad_update_id a; ad_status := "processing"; ad_kind := ad_kind a;
     ad_summary_json := ad_summary_json a; ad_detail := None; ad_attempts := ad_attempts a + 1;
     ad_lease_until := lease_until; ad_created_at := ad_created_at a; ad_updated_at := now |}.

Definition reclaimable (update_id now : Z) (a : admission_row) : bool :=
  is_update update_id a && processing a && (ad_lease_until a <? now)%Z &&
  (ad_attempts a <? TELEGRAM_ADMISSION_MAX_ATTEMPTS)%Z.

Definition admit_telegram_update (update_id : Z) (kind summary_json : string) (lease_secs : Z)
    : DB bool :=
  now ← unix_now;
  transaction (
    created ← unix_now;
    inserted ← sql_insert_or_ignore telegram_admissions (is_update update_id)
      {| ad_update_id := update_id; ad_status := "processing"; ad_kind := kind;
         ad_summary_json := summary_json; ad_detail := None; ad_attempts := 1;
         ad_lease_until := now + lease_secs; ad_created_at := created; ad_updated_at := created |};
    if (inserted =? 1)%Z then mret true
    else
      reclaimed ← sql_update telegram_admissions (reclaimable update_id now)
                    (reclaim (now + lease_secs) now);
      mret (reclaimed =? 1)%Z).

Definition finish_telegram_admission (update_id : Z) (detail : string) : DB unit :=
  now ← unix_now;
  sql_update telegram_admissions (λ a, is_update update_id a && processing a)
    (close_admission "done" (Some detail) now) ;;
  mret tt.

Definition fail_telegram_admission (update_id : Z) (error : string) : DB unit :=
  now ← unix_now;
  sql_update telegram_admissions (λ a, is_update update_id a && processing a)
    (close_admission "failed" (Some (take_chars 2000 error)) now) ;;
  mret tt.

Definition stale (stale_before : Z) (a : admission_row) : bool :=
  processing a && (ad_lease_until a <? stale_before)%Z.

Definition sweep_stale_telegram_admissions (older_than_secs : Z) : DB (list Z) :=
  now ← unix_now;
  let stale_before := (now - older_than_secs)%Z in
  transaction (
    found ← sql_select telegram_admissions (stale stale_before);
    updated ← unix_now;
    sql_update telegram_admissions (stale stale_before)
      (close_admission "failed" (Some "lost mid-processing") updated) ;;
    mret (ad_update_id <$> found)).

(** ** Sent messages *)

Definition is_message (chat_id message_id : Z) (m : outbound_message) : bool :=
  (om_chat_id m =? chat_id)%Z && (om_message_id m =? message_id)%Z.

Definition record_telegram_outbound_message_at (chat_id message_id : Z) (session_id : string)
    (sent_at : Z) : DB unit :=
  sql_replace telegram_outbound_messages (is_message chat_id message_id)
    {| om_chat_id := chat_id; om_message_id := message_id; om_session_id := session_id;
       om_sent_at := sent_at |}.

Definition record_telegram_outbound_message (chat_id message_id : Z) (session_id : string) : DB unit :=
  now ← unix_now;
  record_telegram_outbound_message_at chat_id message_id session_id now.

(** The value is [TelegramOutboundRef]. *)
Definition telegram_outbound_ref (chat_id message_id : Z) : DB (option (string * Z)) :=
  row ← sql_first telegram_outbound_messages (is_message chat_id message_id);
  mret ((λ m, (om_session_id m, om_sent_at m)) <$> row).

(** ** The queue *)

Record EnqueueTelegramOutboundRequest : Type := {
  eq_channel : string;
  eq_chat_id : Z;
  eq_thread_id : option Z;
  eq_reply_to : option Z;
  eq_text : string;
  eq_session_id : option string
}.

(** [format!("{n:04}")]. *)
Definition pad4 (n : N) : string :=
  let s := pretty n in
  match String.length s with 1 => "000" +:+ s | 2 => "00" +:+ s | 3 => "0" +:+ s | _ => s end.

Definition is_queued (id : string) (q : TelegramOutboundQueueRecord) : bool := String.eqb (qr_id q) id.

(** [draw_id] is the counter [OUT_SEQ] here. *)
Definition enqueue (req : EnqueueTelegramOutboundRequest) : DB unit :=
  ts ← unix_now;
  n ← draw_id;
  let id := "out_" +:+ pretty ts +:+ "_" +:+ pad4 (n mod 10000) in
  now ← unix_now;
  sql_insert telegram_outbound_queue (is_queued id)
    {| qr_id := id; qr_channel := eq_channel req; qr_chat_id := eq_chat_id req;
       qr_thread_id := eq_thread_id req; qr_reply_to := eq_reply_to req; qr_text := eq_text req;
       qr_status := "pending"; qr_attempts := 0; qr_next_attempt_at := now;
       qr_last_error := None; qr_session_id := eq_session_id req; qr_created_at := now;
       qr_sent_at := None |}.

Definition oldest_queued_first (a b : TelegramOutboundQueueRecord) : bool :=
  (qr_created_at a <=? qr_created_at b)%Z.

Definition queue_due (channel : string) (now : Z) (q : TelegramOutboundQueueRecord) : bool :=
  String.eqb (qr_channel q) channel && String.eqb (qr_status q) "pending" &&
  (qr_next_attempt_at q <=? now)%Z.

Definition list_due (channel : string) (now : Z) (limit : nat)
    : DB (list TelegramOutboundQueueRecord) :=
  rows ← sql_select telegram_outbound_queue (queue_due channel now);
  mret (take limit (order_by oldest_queued_first rows)).

(** [SET status, attempts, next_attempt_at, last_error, sent_at]. *)
Definition set_queued (status : string) (attempts next_attempt_at : Z) (last_error : option string)
    (sent_at : option Z) (q : TelegramOutboundQueueRecord) : TelegramOutboundQueueRecord :=
  {| qr_id := qr_id q; qr_channel := qr_channel q; qr_chat_id := qr_chat_id q;
     qr_thread_id := qr_thread_id q; qr_reply_to := qr_reply_to q; qr_text := qr_text q;
     qr_status := status; qr_attempts := attempts; qr_next_attempt_at := next_attempt_at;
     qr_last_error := last_error; qr_session_id := qr_session_id q;
     qr_created_at := qr_created_at q; qr_sent_at := sent_at |}.

Definition mark_sent (id : string) : DB unit :=
  now ← unix_now;
  sql_update telegram_outbound_queue (is_queued id)
    (λ q, set_queued "sent" (qr_attempts q) (qr_next_attempt_at q) None (Some now) q) ;;
  mret tt.

Definition mark_retry (id error : string) (next_attempt_at : Z) : DB unit :=
  sql_update telegram_outbound_queue (is_queued id)
    (λ q, set_queued (qr_status q) (qr_attempts q + 1) next_attempt_at (Some error)
            (qr_sent_at q) q) ;;
  mret tt.

Definition mark_dead (id error : string) : DB unit :=
  sql_update telegram_outbound_queue (is_queued id)
    (λ q, set_queued "dead" (qr_attempts q) (qr_next_attempt_at q) (Some error) (qr_sent_at q) q) ;;
  mret tt.

(** ** The drain of the queue (src/http.rs) *)

(** [sender.send_message] of a queued row at a moment. *)
Class OutboundSend : Type := send_queued : nat → TelegramOutboundQueueRecord → res unit.

Context `{SEND : OutboundSend}.

(** [1i64 << row.attempts.min(8)]; a shift by a negative amount does not occur. *)
Definition retry_backoff_secs (attempts : Z) : Z := 10 * Z.shiftl 1 (Z.min attempts 8).

Definition drain_row (now : Z) (row : TelegramOutboundQueueRecord) : DB unit :=
  n ← tick;
  match send_queued n row with
  | Ok _ => ignore_error (mark_sent (qr_id row))
  | Err err_text =>
      if (48 <=? qr_attempts row)%Z then ignore_error (mark_dead (qr_id row) err_text)
      else ignore_error (mark_retry (qr_id row) err_text (now + retry_backoff_secs (qr_attempts row)))
  end.

(** One tick of the janitor. *)
Definition drain_outbound_queue : DB unit :=
  now ← unix_now;
  due ← list_due "telegram" now 16;
  foreach due (drain_row now).
End channel.

(** * What the Telegram edge guarantees

    An update is taken up at most three times and never after it was settled; a queued
    message is sent, given up, or tried again later. *)

Section admissions.
  Context `{CLK : Clock}.

Implicit Types a : admission_row.

Definition admissions_unique (s : ChannelDb) : Prop := NoDup (ad_update_id <$> admissions s).

Lemma is_update_spec id a : is_update id a = true ↔ ad_update_id a = id.
Proof. apply Z.eqb_eq. Qed.

Lemma unique_update p f s :
  (∀ a, ad_update_id (f a) = ad_update_id a) → admissions_unique s →
  admissions_unique (tset telegram_admissions (update_where p f (admissions s)) s).
Proof. intros H. unfold admissions_unique. cbn. by rewrite fmap_update_where. Qed.

Lemma unique_insert a s :
  existsb (is_update (ad_update_id a)) (admissions s) = false → admissions_unique s →
  admissions_unique (tset telegram_admissions (admissions s ++ [a]) s).
Proof.
  intros E H. apply nodup_key_snoc; [done|]. intros (b & Hb & Hin)%list_elem_of_fmap.
  pose proof (existsb_false _ _ E b Hin) as Hn. apply Z.eqb_neq in Hn. congruence.
Qed.

(** The row of an update. *)
Definition admission (id : Z) (s : ChannelDb) : option admission_row :=
  List.find (is_update id) (admissions s).

Lemma admission_spec id s a :
  admissions_unique s → (admission id s = Some a ↔ a ∈ admissions s ∧ ad_update_id a = id).
Proof.
  intros Hn. unfold admission. split.
  - intros [Hin Hid]%List.find_some. split; [by apply list_elem_of_In|by apply is_update_spec].
  - intros [Hin Hid]. destruct (List.find _ _) as [b|] eqn:E.
    + apply List.find_some in E as [Hb Hidb%is_update_spec]. f_equal.
      apply (nodup_key_inj ad_update_id (admissions s)); [done|by apply list_elem_of_In|done|congruence].
    + apply list_elem_of_In in Hin. apply (List.find_none _ _ E) in Hin.
      by apply Z.eqb_neq in Hin.
Qed.

Lemma admission_none id s : admission id s = None ↔ existsb (is_update id) (admissions s) = false.
Proof.
  unfold admission. split; intros H.
  - apply not_true_iff_false. intros (b & Hb & Hp)%existsb_exists.
    by rewrite (List.find_none _ _ H b Hb) in Hp.
  - destruct (List.find _ _) as [b|] eqn:E; [|done]. apply List.find_some in E as [Hb Hp].
    apply not_true_iff_false in H. exfalso. apply H, existsb_exists. by exists b.
Qed.

(** An update of the rows, seen at one update id. *)
Lemma admission_update id p f s :
  (∀ a, ad_update_id (f a) = ad_update_id a) →
  admission id (tset telegram_admissions (update_where p f (admissions s)) s) =
    (λ a, if p a then f a else a) <$> admission id s.
Proof.
  intros H. unfold admission, update_where. cbn. induction (admissions s) as [|b l IH]; cbn; [done|].
  assert (Hb : is_update id (if p b then f b else b) = is_update id b)
    by (destruct (p b); unfold is_update; by rewrite ?H).
  rewrite Hb. by destruct (is_update id b).
Qed.

Lemma admission_insert id a s :
  existsb (is_update (ad_update_id a)) (admissions s) = false →
  admission id (tset telegram_admissions (admissions s ++ [a]) s) =
    if (ad_update_id a =? id)%Z then Some a else admission id s.
Proof.
  intros E. unfold admission. cbn. destruct (Z.eqb_spec (ad_update_id a) id) as [<-|Hne].
  - pose proof (proj2 (admission_none _ _) E) as Hn. unfold admission in Hn.
    induction (admissions s) as [|b l IH]; cbn in *; [unfold is_update; by rewrite Z.eqb_refl|].
    destruct (is_update (ad_update_id a) b); [done|]. by apply IH.
  - clear E. induction (admissions s) as [|b l IH]; cbn; [|by rewrite IH].
    unfold is_update. by apply Z.eqb_neq in Hne as ->.
Qed.

(** ** Grants *)

(** The result of an admission and the row it leaves, from the row it found. *)
Definition admitted (id now lease_secs : Z) (old : option admission_row) (owns : bool)
    (new : option admission_row) : Prop :=
  match old with
  | None => owns = true ∧ ∃ a, new = Some a ∧ ad_status a = "processing" ∧ ad_attempts a = 1%Z ∧
                                ad_lease_until a = (now + lease_secs)%Z
  | Some a =>
      if reclaimable id now a then owns = true ∧ new = Some (reclaim (now + lease_secs) now a)
      else owns = false ∧ new = Some a
  end.

Lemma count_unique (s : ChannelDb) id p :
  admissions_unique s → (∀ a, p a = true → ad_update_id a = id) →
  count_where p (admissions s) =
    match admission id s with Some a => if p a then 1 else 0 | None => 0 end%Z.
Proof.
  intros Hn Hp. destruct (admission id s) as [a|] eqn:E.
  - apply admission_spec in E as [Hin Hid]; [|done].
    apply list_elem_of_split in Hin as (l1 & l2 & Hl). unfold admissions_unique in Hn.
    rewrite Hl, fmap_app, fmap_cons in Hn. apply NoDup_app in Hn as (_ & H1 & [H2 _]%NoDup_cons).
    rewrite Hl, count_where_app.
    assert (Hz : ∀ l, ad_update_id a ∉ ad_update_id <$> l → count_where p l = 0%Z).
    { intros l Hnot. apply count_where_none. intros b Hb. apply not_true_iff_false. intros Hpb.
      apply Hnot, list_elem_of_fmap. exists b. split; [|done]. by rewrite Hid, (Hp b Hpb). }
    rewrite (Hz l1), Z.add_0_l by (intros Hb; eapply H1; [exact Hb|by left]).
    change (a :: l2) with ([a] ++ l2). rewrite count_where_app, (Hz l2), Z.add_0_r by done.
    unfold count_where. cbn. by destruct (p a).
  - apply count_where_none. intros b Hb. apply not_true_iff_false. intros Hpb.
    pose proof (proj1 (admission_none _ _) E) as He.
    pose proof (existsb_false _ _ He b Hb) as Hx. apply Z.eqb_neq in Hx. by apply Hp in Hpb.
Qed.

(** Who owns an update: an admission is granted exactly for an update never seen,
    or for one in processing whose lease has run out and that was taken up fewer than
    three times; it then holds a fresh lease.  Otherwise the store stays as it was. *)
Theorem admit_exact id kind summary lease_secs s :
  admissions_unique s →
  wp (admit_telegram_update id kind summary lease_secs)
     (λ r s', ∃ now owns, r = Ok owns ∧
        admitted id now lease_secs (admission id s) owns (admission id s') ∧
        (∀ id', id' ≠ id → admission id' s' = admission id' s) ∧
        admissions_unique s' ∧ outbound_messages s' = outbound_messages s ∧
        outbound_queue s' = outbound_queue s) s.
Proof.
  intros Hn. unfold admit_telegram_update. wp_step. apply wp_unix_now. intros time _. do 4 wp_step.
  apply wp_sql_insert_or_ignore; intros E; cbn [tget telegram_admissions] in E.
  - change (0 =? 1)%Z with false. cbv iota. do 3 wp_step. cbn [tget telegram_admissions].
    exists time. eexists. split; [reflexivity|]. split_and!; [| |by apply unique_update|done|done].
    + rewrite admission_update, (count_unique s id) by
        (done || (intros b; unfold reclaimable; rewrite !andb_true_iff, is_update_spec; tauto)).
      destruct (admission id s) as [b|] eqn:Eb; cbn.
      * destruct (reclaimable id time b) eqn:Er; cbn; [done|by split].
      * apply admission_none in Eb. congruence.
    + intros id' Hne. rewrite admission_update by done.
      destruct (admission id' s) as [b|] eqn:Eb; cbn; [|done].
      apply admission_spec in Eb as [_ Hid]; [|done]. unfold reclaimable, is_update.
      rewrite Hid. by apply Z.eqb_neq in Hne as ->.
  - change (1 =? 1)%Z with true. cbv iota. wp_step. exists time, true. split; [done|]. split_and!; [| |by apply unique_insert|done|done].
    + rewrite admission_insert by done. cbn [ad_update_id]. rewrite Z.eqb_refl.
      apply admission_none in E. rewrite E. cbn. split; [done|]. eexists. split; [done|]. done.
    + intros id' Hne. rewrite admission_insert by done. cbn [ad_update_id].
      apply not_eq_sym, Z.eqb_neq in Hne. by rewrite Hne.
Qed.

(** ** Histories *)

Context `{SEND : OutboundSend}.

Inductive edge_op : Type :=
| EAdmit (update_id : Z) (kind summary_json : string) (lease_secs : Z)
| EFinish (update_id : Z) (detail : string)
| EFail (update_id : Z) (error : string)
| ESweep (older_than_secs : Z)
| ERecord (chat_id message_id : Z) (session_id : string) (sent_at : option Z)
| EEnqueue (req : EnqueueTelegramOutboundRequest)
| EDrain.

Definition edge_exec (op : edge_op) : M ChannelDb bool :=
  match op with
  | EAdmit id kind summary lease_secs => admit_telegram_update id kind summary lease_secs
  | EFinish id detail => finish_telegram_admission id detail ;; mret false
  | EFail id error => fail_telegram_admission id error ;; mret false
  | ESweep older => sweep_stale_telegram_admissions older ;; mret false
  | ERecord chat message session None =>
      record_telegram_outbound_message chat message session ;; mret false
  | ERecord chat message session (Some t) =>
      record_telegram_outbound_message_at chat message session t ;; mret false
  | EEnqueue req => enqueue req ;; mret false
  | EDrain => drain_outbound_queue ;; mret false
  end.

(** Whether the operation took the update up. *)
Definition takes_up (id : Z) (op : edge_op) : M ChannelDb nat :=
  r ← catch (edge_exec op);
  mret (match op, r with
        | EAdmit id' _ _ _, Ok true => if (id' =? id)%Z then 1 else 0
        | _, _ => 0
        end).

(** How often a history of operations took the update up. *)
Fixpoint times_taken_up (id : Z) (ops : list edge_op) : M ChannelDb nat :=
  match ops with
  | [] => mret 0
  | op :: ops' => n ← takes_up id op; m ← times_taken_up id ops'; mret (n + m)
  end.

Definition attempts_of (id : Z) (s : ChannelDb) : Z :=
  match admission id s with Some a => ad_attempts a | None => 0 end.

(** The admissions are left as they were. *)
Definition same_admissions (s s' : ChannelDb) : Prop := admissions s' = admissions s.

#[local] Instance same_admissions_preorder : PreOrder same_admissions.
Proof. split; repeat intro; unfold same_admissions in *; congruence. Qed.

Lemma drain_admissions : stable same_admissions drain_outbound_queue.
Proof.
  unfold drain_outbound_queue, list_due, drain_row, mark_sent, mark_dead, mark_retry. stable_go.
  all: by apply stable_sql_update.
Qed.

Lemma enqueue_admissions req : stable same_admissions (enqueue req).
Proof. unfold enqueue. cbv zeta. stable_go. by apply stable_sql_insert; [apply _|]. Qed.

(** What closing updates does to the row of one update. *)
Definition closes (s s' : ChannelDb) : Prop :=
  admissions_unique s → admissions_unique s' ∧
  ∀ id, admission id s' = admission id s ∨
        ∃ a status detail t, admission id s = Some a ∧ processing a = true ∧
          admission id s' = Some (close_admission status detail t a).

#[local] Instance closes_preorder : PreOrder closes.
Proof.
  split; [by split; [|left]|]. intros s1 s2 s3 H1 H2 Hu. destruct (H1 Hu) as [Hu2 F1].
  destruct (H2 Hu2) as [Hu3 F2]. split; [done|]. intros id.
  destruct (F2 id) as [->|(a & st & d & t & Ha & Hp & ->)]; [apply F1|]. right.
  destruct (F1 id) as [<-|(b & st' & d' & t' & Hb & Hpb & Heq)]; [by exists a, st, d, t|].
  rewrite Ha in Heq. injection Heq as ->. exists b, st, d, t. by split_and!.
Qed.

Lemma closes_update p status detail t :
  (∀ a, p a = true → processing a = true) →
  stable closes (sql_update telegram_admissions p (close_admission status detail t)).
Proof.
  intros Hp. apply stable_sql_update. intros s Hu. split; [by apply unique_update|].
  intros id. cbn [tget telegram_admissions]. rewrite admission_update by done.
  destruct (admission id s) as [a|]; cbn; [|by left].
  destruct (p a) eqn:E; [|by left]. right. exists a, status, detail, t. auto.
Qed.

Lemma closes_of_same {A} (m : M ChannelDb A) : stable same_admissions m → stable closes m.
Proof.
  intros H w Hu. specialize (H w). unfold same_admissions, admissions_unique, admission in *.
  rewrite H. split; [done|]. by left.
Qed.

Lemma edge_closes op :
  match op with EAdmit _ _ _ _ => True | _ => stable closes (edge_exec op) end.
Proof.
  destruct op; cbn; [done|..].
  - unfold finish_telegram_admission. stable_go. apply closes_update.
    intros b [_ H]%andb_true_iff. exact H.
  - unfold fail_telegram_admission. stable_go. apply closes_update.
    intros b [_ H]%andb_true_iff. exact H.
  - unfold sweep_stale_telegram_admissions. cbv zeta. stable_go. apply closes_update.
    intros b [H _]%andb_true_iff. exact H.
  - apply closes_of_same. unfold record_telegram_outbound_message, record_telegram_outbound_message_at.
    destruct sent_at; stable_go; by apply stable_sql_replace.
  - apply closes_of_same. stable_go. apply enqueue_admissions.
  - apply closes_of_same. stable_go. apply drain_admissions.
Qed.

Lemma takes_up_spec id op s :
  admissions_unique s → (attempts_of id s ≤ TELEGRAM_ADMISSION_MAX_ATTEMPTS)%Z →
  wp (takes_up id op) (λ r s', ∃ n, r = Ok n ∧ admissions_unique s' ∧
     attempts_of id s' = (attempts_of id s + Z.of_nat n)%Z ∧
     (attempts_of id s' ≤ TELEGRAM_ADMISSION_MAX_ATTEMPTS)%Z) s.
Proof.
  intros Hu Hle. unfold takes_up. pose proof (edge_closes op) as Hc.
  destruct op as [id' kind summary lease_secs| | | | | |].
  { do 2 wp_step. eapply wp_mono; [by apply admit_exact|]. cbv beta.
    intros r s' (time & owns & -> & Hadm & Hother & Hu' & _). wp_step. eexists. split; [done|].
    split; [done|]. unfold attempts_of. destruct (Z.eqb_spec id' id) as [->|Hne].
    - revert Hadm. unfold admitted, attempts_of in *. destruct (admission id s) as [a|] eqn:Ea.
      + destruct (reclaimable id time a) eqn:Er; intros [-> ->]; cbn; [|lia].
        unfold reclaimable in Er. rewrite !andb_true_iff in Er. lia.
      + intros (-> & a & -> & _ & -> & _). unfold TELEGRAM_ADMISSION_MAX_ATTEMPTS. lia.
    - rewrite (Hother id) by done. unfold attempts_of in Hle. destruct owns; cbn; lia. }
  all: do 2 wp_step; (eapply wp_mono; [by apply (wp_of_stable closes)|]); cbv beta;
    intros r s' Hcl; wp_step; destruct (Hcl Hu) as [Hu' F]; (exists 0); split; [done|];
    split; [done|]; unfold attempts_of in *;
    destruct (F id) as [->|(a & st & d & t & Ha & _ & ->)]; rewrite ?Ha in *; cbn; lia.
Qed.

(** C24: An update is taken up at most three times: over any history of channel
    operations - deliveries, completions, failures, sweeps, in any order and under any
    clock - at most [TELEGRAM_ADMISSION_MAX_ATTEMPTS] admissions of it are granted. *)
Theorem update_taken_up_at_most_thrice id ops w :
  admissions (w_db w) = [] →
  ∃ n, (times_taken_up id ops w).1 = Ok n ∧ (Z.of_nat n ≤ TELEGRAM_ADMISSION_MAX_ATTEMPTS)%Z.
Proof.
  intros H0. set (s := w_db w). assert (Hw : w_db w = s) by done.
  assert (Hs : admissions_unique s ∧ attempts_of id s = 0%Z).
  { unfold admissions_unique, attempts_of, admission, s. rewrite H0. split; [constructor|done]. }
  cut (∀ s, admissions_unique s → (attempts_of id s ≤ TELEGRAM_ADMISSION_MAX_ATTEMPTS)%Z →
    wp (times_taken_up id ops) (λ r s', ∃ n, r = Ok n ∧
      (attempts_of id s + Z.of_nat n ≤ TELEGRAM_ADMISSION_MAX_ATTEMPTS)%Z) s).
  { intros H. destruct Hs as [Hu Ha]. destruct (H s Hu) with (w := w) as (n & Hn & Hle); [|done|].
    - rewrite Ha. done.
    - exists n. split; [done|lia]. }
  clear. induction ops as [|op ops IH]; intros s Hu Hle; cbn [times_taken_up].
  - wp_step. exists 0. split; [done|lia].
  - wp_step. eapply wp_mono; [by apply takes_up_spec|]. cbv beta.
    intros r s' (n & -> & Hu' & Heq & Hle'). wp_step. eapply wp_mono; [by apply IH|]. cbv beta.
    intros r s'' (m & -> & Hm). wp_step. exists (n + m). split; [done|lia].
Qed.

Lemma settled_final id a op :
  processing a = false →
  stable (λ s s', admissions_unique s → admissions_unique s' ∧
            (admission id s = Some a → admission id s' = Some a)) (unit_of (edge_exec op)).
Proof.
  intros Hp w Hu. rewrite unit_of_db. pose proof (edge_closes op) as Hc.
  destruct op as [id' kind summary lease_secs| | | | | |].
  { destruct (admit_exact id' kind summary lease_secs (w_db w) Hu w eq_refl)
      as (time & owns & _ & Hadm & Hother & Hu' & _). cbn [edge_exec]. split; [done|]. intros Ha.
    destruct (decide (id = id')) as [<-|Hne]; [|by rewrite (Hother id)].
    revert Hadm. rewrite Ha. unfold admitted, reclaimable. rewrite Hp, andb_false_r. cbn. by intros [_ ->]. }
  all: destruct (Hc w Hu) as [Hu' F]; split; [done|]; intros Ha;
    destruct (F id) as [->|(b & st & d & t & Hb & Hpb & _)]; [done|congruence].
Qed.

(** A settled update is never taken up again: once its admission is done or failed,
    the row stays exactly as it is whatever operations follow. *)
Theorem settled_update_is_final id a s s' :
  admissions_unique s → admission id s = Some a → processing a = false →
  op_steps (λ op, unit_of (edge_exec op)) s s' → admission id s' = Some a.
Proof.
  intros Hu Ha Hp Hs. revert Hu Ha. induction Hs as [s|s t u (op & w & <- & <-) _ IH]; [done|].
  intros Hu Ha. destruct (settled_final id a op Hp w Hu) as [Hu' Ha']. auto.
Qed.
End admissions.

(** ** The queue *)

Section queue.
  Context `{CLK : Clock} `{SEND : OutboundSend}.

Implicit Types q : TelegramOutboundQueueRecord.

(** What a tick makes of a row it picked. *)
Definition drained (now : Z) q q' : Prop :=
  (∃ t, q' = set_queued "sent" (qr_attempts q) (qr_next_attempt_at q) None (Some t) q) ∨
  (∃ e, (48 ≤ qr_attempts q)%Z ∧
        q' = set_queued "dead" (qr_attempts q) (qr_next_attempt_at q) (Some e) (qr_sent_at q) q) ∨
  (∃ e, (qr_attempts q < 48)%Z ∧
        q' = set_queued (qr_status q) (qr_attempts q + 1)
               (now + retry_backoff_secs (qr_attempts q)) (Some e) (qr_sent_at q) q).

Definition queue_ids (s : ChannelDb) : list string := qr_id <$> outbound_queue s.

(** The rows of [due] are drained, the others stay. *)
Definition drained_rows (now : Z) (due : list TelegramOutboundQueueRecord) (s s' : ChannelDb) : Prop :=
  Forall2 (λ q q', qr_id q' = qr_id q ∧ (q ∈ due → drained now q q') ∧
                   (qr_id q ∉ qr_id <$> due → q' = q)) (outbound_queue s) (outbound_queue s').

Lemma wp_drain_row now q s :
  wp (drain_row now q) (λ r s', r = Ok tt ∧ ∃ f, (∀ x, qr_id (f x) = qr_id x) ∧
    (qr_id q ∈ queue_ids s → drained now q (f q)) ∧
    s' = tset telegram_outbound_queue (update_where (is_queued (qr_id q)) f (outbound_queue s)) s) s.
Proof.
  unfold drain_row. wp_step. apply wp_tick. intros n. wp_case.
  - apply wp_ignore_error. unfold mark_sent. do 4 wp_step. wp_step. split; [done|].
    eexists. split; [|split; [|reflexivity]]; [done|]. left. by eexists.
  - destruct (Z.leb_spec 48 (qr_attempts q)); apply wp_ignore_error.
    + unfold mark_dead. do 3 wp_step. split; [done|].
      eexists. split; [|split; [|reflexivity]]; [done|]. right. left. by eexists.
    + unfold mark_retry. do 3 wp_step. split; [done|].
      eexists. split; [|split; [|reflexivity]]; [done|]. right. right. by eexists.
Qed.

Lemma wp_drain_rows now due s :
  NoDup (queue_ids s) → NoDup (qr_id <$> due) → (∀ q, q ∈ due → q ∈ outbound_queue s) →
  wp (foreach due (drain_row now)) (λ r s', r = Ok tt ∧ drained_rows now due s s') s.
Proof.
  revert s. induction due as [|q due IH]; intros s Hn Hd Hin; cbn [foreach].
  - wp_step. split; [done|]. unfold drained_rows. apply Forall_Forall2_diag, Forall_forall.
    intros x _. split_and!; [done|by intros ?%elem_of_nil|done].
  - apply NoDup_cons in Hd as [Hq Hd]. wp_step. eapply wp_mono; [apply wp_drain_row|]. cbv beta.
    intros r s' (-> & f & Hid & Hf & ->).
    assert (Hqin : q ∈ outbound_queue s) by (apply Hin; by left).
    specialize (Hf ltac:(by apply list_elem_of_fmap_2)).
    set (s' := tset _ _ s).
    assert (Hsame : ∀ x, x ∈ outbound_queue s → is_queued (qr_id q) x = true → x = q).
    { intros x Hx He%String.eqb_eq. by apply (nodup_key_inj qr_id (outbound_queue s)). }
    eapply wp_mono; [apply IH| ]; cbv beta.
    + unfold queue_ids, s'. cbn. by rewrite fmap_update_where.
    + done.
    + intros x Hx. unfold s'. cbn. apply elem_update_where. exists x. split; [apply Hin; by right|].
      destruct (is_queued (qr_id q) x) eqn:E; [|done]. exfalso. apply Hq.
      apply list_elem_of_fmap. exists x. by apply String.eqb_eq in E.
    + intros r s'' [-> H]. split; [done|]. unfold drained_rows in *.
      unfold s' in H. cbn in H. unfold update_where in H. apply Forall2_fmap_l in H.
      eapply Forall2_impl_in; [exact H|]. intros x y Hx (H1 & H2 & H3). unfold compose in *.
      destruct (is_queued (qr_id q) x) eqn:E.
      * rewrite Hid in *. rewrite (Hsame x Hx E) in *. rewrite (H3 Hq). split_and!; [done|done|].
        intros Hnot. exfalso. apply Hnot. by left.
      * split_and!; [done| |].
        -- intros [->|Hx']%elem_of_cons; [|auto]. unfold is_queued in E. by rewrite String.eqb_refl in E.
        -- intros Hnot. apply H3. intros Hm. apply Hnot. by right.
Qed.

(** What a tick of the outbound janitor does: of the oldest 16 due messages every one
    is sent, given up after 48 retries, or put off by its growing delay with one more
    attempt counted; every other message of the queue stays as it is, and a failing
    transport never makes the tick fail. *)
Theorem drain_settles_or_puts_off s :
  NoDup (queue_ids s) →
  wp drain_outbound_queue (λ r s', r = Ok tt ∧ ∃ now due,
    due = take 16 (order_by oldest_queued_first
                     (List.filter (queue_due "telegram" now) (outbound_queue s))) ∧
    drained_rows now due s s' ∧
    (∀ q, q ∈ due → qr_attempts q < 48 → 0 ≤ qr_attempts q →
       now < now + retry_backoff_secs (qr_attempts q) ≤ now + 2560)%Z) s.
Proof.
  intros Hn. unfold drain_outbound_queue, list_due. wp_step. apply wp_unix_now. intros now _.
  do 4 wp_step. cbn [tget telegram_outbound_queue].
  set (due := take 16 _).
  assert (Hdue : ∀ q, q ∈ due → q ∈ outbound_queue s).
  { intros q Hq. apply (subseteq_take _ _) in Hq. rewrite order_by_perm in Hq.
    apply list_elem_of_In, List.filter_In in Hq as [Hq _]. by apply list_elem_of_In. }
  eapply wp_mono; [apply wp_drain_rows; [done| |done]|]; cbv beta.
  - unfold due. eapply sublist_NoDup; [|apply fmap_sublist, sublist_take].
    rewrite order_by_perm. by apply nodup_key_filter.
  - intros r s' [-> H]. split; [done|]. exists now, due. split_and!; [done|done|].
    intros q _ H1 H2. unfold retry_backoff_secs. rewrite Z.shiftl_1_l.
    assert (1 ≤ 2 ^ Z.min (qr_attempts q) 8 ≤ 2 ^ 8)%Z; [|lia].
    split; [lia|]. apply Z.pow_le_mono_r; lia.
Qed.
End queue.
