(* ===== verification/Conversation.v ===== *)
(** * Conversations

    The tables of src/memory.rs for messages, compaction summaries, memory chunks with
    their outbox, and what is learned of groups: aliases and user names; with what recall
    and summaries answer. *)

From S2P Require Import Prelude Text Strings Messages MemBase.
From Stdlib Require Import Ascii.
From Stdlib Require Import Sorting.Sorted.

(** A row of [messages]. *)
Record message_row : Type := {
  ms_id : Z;
  ms_session_id : string;
  ms_message : StoredMessage;
  ms_created_at : Z
}.

(** [StoredMessageRecord]. *)
Record StoredMessageRecord : Type := {
  mr_id : Z;
  mr_message : StoredMessage;
  mr_created_at : Z
}.

Record CompactionSummaryUpsertRequest : Type := {
  us_session_id : string;
  us_strategy : string;
  us_source_hash : string;
  us_source_message_ids : list Z;
  us_source_first_message_id : option Z;
  us_source_last_message_id : option Z;
  us_source_message_count : N;
  us_summary : string;
  us_tokens_saved : N
}.

(** A row of [compaction_summaries]. *)
Record summary_row : Type := {
  cs_row_session_id : string;
  cs_row_strategy : string;
  cs_row_source_hash : string;
  cs_row_source_message_ids : list Z;
  cs_row_first_message_id : option Z;
  cs_row_last_message_id : option Z;
  cs_row_message_count : Z;
  cs_row_summary : string;
  cs_row_tokens_saved : Z;
  cs_row_invalidated_at : option Z;
  cs_row_created_at : Z;
  cs_row_updated_at : Z
}.

Record CompactionSummaryRecord : Type := {
  sm_session_id : string;
  sm_strategy : string;
  sm_source_hash : string;
  sm_source_message_ids : list Z;
  sm_source_first_message_id : option Z;
  sm_source_last_message_id : option Z;
  sm_source_message_count : N;
  sm_summary : string;
  sm_tokens_saved : N;
  sm_invalidated_at : option Z;
  sm_created_at : Z;
  sm_updated_at : Z
}.

(** A row of [memory_chunks]. *)
Record MemoryChunkRecord : Type := {
  ck_id : string;
  ck_session_id : string;
  ck_user_id : string;
  ck_channel : string;
  ck_role : MessageRole;
  ck_text : string;
  ck_created_at : Z
}.

Record MemoryChunkCandidateRecord : Type := {
  cc_role : MessageRole;
  cc_text : string;
  cc_created_at : Z
}.

(** A row of [memory_sidecar_outbox]. *)
Record outbox_row : Type := {
  ob_chunk_id : string;
  ob_doc_json : string;
  ob_attempts : Z;
  ob_last_error : option string;
  ob_created_at : Z;
  ob_last_attempt_at : option Z
}.

(** A row of [telegram_group_aliases]. *)
Record alias_row : Type := {
  al_channel : string;
  al_chat_id : Z;
  al_alias : string;
  al_learned_at : Z
}.

(** A row of [telegram_group_user_profiles]. *)
Record profile_row : Type := {
  pf_channel : string;
  pf_chat_id : Z;
  pf_user_id : Z;
  pf_preferred_name : string;
  pf_username : option string;
  pf_updated_at : Z
}.

Record GroupUserProfileRecord : Type := {
  up_user_id : Z;
  up_preferred_name : string;
  up_username : option string;
  up_updated_at : Z
}.

Record ConvDb : Type := {
  db_messages : list message_row;
  db_summaries : list summary_row;
  db_chunks : list MemoryChunkRecord;
  db_outbox : list outbox_row;
  db_aliases : list alias_row;
  db_profiles : list profile_row
}.

Definition empty_conv : ConvDb :=
  {| db_messages := []; db_summaries := []; db_chunks := []; db_outbox := []; db_aliases := [];
     db_profiles := [] |}.

Definition messages : table ConvDb message_row :=
  Table db_messages (λ l s,
    {| db_messages := l; db_summaries := db_summaries s; db_chunks := db_chunks s;
       db_outbox := db_outbox s; db_aliases := db_aliases s; db_profiles := db_profiles s |}).

Definition compaction_summaries : table ConvDb summary_row :=
  Table db_summaries (λ l s,
    {| db_messages := db_messages s; db_summaries := l; db_chunks := db_chunks s;
       db_outbox := db_outbox s; db_aliases := db_aliases s; db_profiles := db_profiles s |}).

Definition memory_chunks : table ConvDb MemoryChunkRecord :=
  Table db_chunks (λ l s,
    {| db_messages := db_messages s; db_summaries := db_summaries s; db_chunks := l;
       db_outbox := db_outbox s; db_aliases := db_aliases s; db_profiles := db_profiles s |}).

Definition memory_sidecar_outbox : table ConvDb outbox_row :=
  Table db_outbox (λ l s,
    {| db_messages := db_messages s; db_summaries := db_summaries s; db_chunks := db_chunks s;
       db_outbox := l; db_aliases := db_aliases s; db_profiles := db_profiles s |}).

Definition telegram_group_aliases : table ConvDb alias_row :=
  Table db_aliases (λ l s,
    {| db_messages := db_messages s; db_summaries := db_summaries s; db_chunks := db_chunks s;
       db_outbox := db_outbox s; db_aliases := l; db_profiles := db_profiles s |}).

Definition telegram_group_user_profiles : table ConvDb profile_row :=
  Table db_profiles (λ l s,
    {| db_messages := db_messages s; db_summaries := db_summaries s; db_chunks := db_chunks s;
       db_outbox := db_outbox s; db_aliases := db_aliases s; db_profiles := l |}).

(** [n as i64] of a [usize], and [z.max(0) as usize]. *)
Definition usize_as_i64 (n : N) : Z :=
  let z := (Z.of_N n mod 2 ^ 64)%Z in if (z <? 2 ^ 63)%Z then z else (z - 2 ^ 64)%Z.

Definition i64_as_usize (z : Z) : N := Z.to_N (Z.max z 0).

(** [v.trim().trim_start_matches('@')], dropped when nothing is left. *)
Fixpoint trim_start_at (s : string) : string :=
  match s with
  | String c s' => if Ascii.eqb c "@"%char then trim_start_at s' else s
  | EmptyString => ""
  end.

Definition normalized_username (username : option string) : option string :=
  match username with
  | None => None
  | Some v => let v := trim_start_at (trim v) in
              match v with EmptyString => None | _ => Some v end
  end.

Section conversation.
  Context `{CLK : Clock}.

Abbreviation DB := (M ConvDb).

(** ** Messages *)

(** AUTOINCREMENT: one more than the largest id so far; no message is ever deleted. *)
Definition next_message_id (l : list message_row) : Z :=
  foldr Z.max 0%Z (ms_id <$> l) + 1.

Definition append (session_id : string) (message : StoredMessage) : DB unit :=
  now ← unix_now;
  s ← get_db;
  sql_insert messages (λ _, false)
    {| ms_id := next_message_id (db_messages s); ms_session_id := session_id;
       ms_message := message; ms_created_at := now |}.

Definition latest_first (a b : message_row) : bool := (ms_id b <=? ms_id a)%Z.

Definition in_session (session_id : string) (m : message_row) : bool :=
  String.eqb (ms_session_id m) session_id.

Definition recent_rows (session_id : string) (limit : nat) : DB (list message_row) :=
  rows ← sql_select messages (in_session session_id);
  mret (rev (take limit (order_by latest_first rows))).

Definition load_recent (session_id : string) (limit : nat) : DB (list StoredMessage) :=
  rows ← recent_rows session_id limit;
  mret (ms_message <$> rows).

Definition load_recent_records (session_id : string) (limit : nat) : DB (list StoredMessageRecord) :=
  rows ← recent_rows session_id limit;
  mret ((λ m, {| mr_id := ms_id m; mr_message := ms_message m; mr_created_at := ms_created_at m |})
          <$> rows).

(** ** Compaction summaries *)

Definition is_summary (session_id strategy source_hash : string) (r : summary_row) : bool :=
  String.eqb (cs_row_session_id r) session_id && String.eqb (cs_row_strategy r) strategy &&
  String.eqb (cs_row_source_hash r) source_hash.

Definition load_compaction_summary (session_id strategy source_hash : string)
    : DB (option CompactionSummaryRecord) :=
  row ← sql_first compaction_summaries
    (λ r, is_summary session_id strategy source_hash r &&
          bool_decide (cs_row_invalidated_at r = None));
  mret ((λ r,
    {| sm_session_id := cs_row_session_id r; sm_strategy := cs_row_strategy r;
       sm_source_hash := cs_row_source_hash r;
       sm_source_message_ids := cs_row_source_message_ids r;
       sm_source_first_message_id := cs_row_first_message_id r;
       sm_source_last_message_id := cs_row_last_message_id r;
       sm_source_message_count := i64_as_usize (cs_row_message_count r);
       sm_summary := cs_row_summary r; sm_tokens_saved := i64_as_usize (cs_row_tokens_saved r);
       sm_invalidated_at := cs_row_invalidated_at r; sm_created_at := cs_row_created_at r;
       sm_updated_at := cs_row_updated_at r |}) <$> row).

(** The row of a request; [updated_at] is now. *)
Definition new_summary_row (req : CompactionSummaryUpsertRequest) (now created : Z) : summary_row :=
  {| cs_row_session_id := us_session_id req; cs_row_strategy := us_strategy req;
     cs_row_source_hash := us_source_hash req;
     cs_row_source_message_ids := us_source_message_ids req;
     cs_row_first_message_id := us_source_first_message_id req;
     cs_row_last_message_id := us_source_last_message_id req;
     cs_row_message_count := usize_as_i64 (us_source_message_count req);
     cs_row_summary := us_summary req; cs_row_tokens_saved := usize_as_i64 (us_tokens_saved req);
     cs_row_invalidated_at := None; cs_row_created_at := created; cs_row_updated_at := now |}.

Definition upsert_compaction_summary (req : CompactionSummaryUpsertRequest) : DB unit :=
  now ← unix_now;
  sql_upsert compaction_summaries
    (is_summary (us_session_id req) (us_strategy req) (us_source_hash req)) (λ _, false)
    (new_summary_row req now now) (λ r, new_summary_row req now (cs_row_created_at r)).

(** ** Chunks and their outbox *)

Definition is_chunk (chunk_id : string) (c : MemoryChunkRecord) : bool := String.eqb (ck_id c) chunk_id.

Definition is_outbox (chunk_id : string) (o : outbox_row) : bool := String.eqb (ob_chunk_id o) chunk_id.

Definition append_chunk (chunk : MemoryChunkRecord) : DB unit :=
  sql_replace memory_chunks (is_chunk (ck_id chunk)) chunk.

Definition append_chunk_and_outbox (chunk : MemoryChunkRecord) (doc_json : string) : DB unit :=
  transaction (
    sql_replace memory_chunks (is_chunk (ck_id chunk)) chunk ;;
    now ← unix_now;
    sql_replace memory_sidecar_outbox (is_outbox (ck_id chunk))
      {| ob_chunk_id := ck_id chunk; ob_doc_json := doc_json; ob_attempts := 0;
         ob_last_error := None; ob_created_at := now; ob_last_attempt_at := None |}).

Definition delete_sidecar_outbox (chunk_id : string) : DB unit :=
  sql_delete memory_sidecar_outbox (is_outbox chunk_id).

Definition oldest_outbox_first (a b : outbox_row) : bool := (ob_created_at a <=? ob_created_at b)%Z.

Definition list_sidecar_outbox (limit : nat) : DB (list outbox_row) :=
  rows ← sql_select memory_sidecar_outbox (λ _, true);
  mret (take limit (order_by oldest_outbox_first rows)).

Definition bump_sidecar_outbox_attempt (chunk_id error : string) : DB unit :=
  now ← unix_now;
  sql_update memory_sidecar_outbox (is_outbox chunk_id)
    (λ o, {| ob_chunk_id := ob_chunk_id o; ob_doc_json := ob_doc_json o;
             ob_attempts := ob_attempts o + 1; ob_last_error := Some error;
             ob_created_at := ob_created_at o; ob_last_attempt_at := Some now |}) ;;
  mret tt.

Definition newest_chunk_first (a b : MemoryChunkRecord) : bool :=
  (ck_created_at b <=? ck_created_at a)%Z.

Definition chunk_candidate (user_id channel : string) (min_created_at : Z) (max_created_at : option Z)
    (c : MemoryChunkRecord) : bool :=
  String.eqb (ck_user_id c) user_id && String.eqb (ck_channel c) channel &&
  (Z.max min_created_at 0 <=? ck_created_at c)%Z &&
  match max_created_at with None => true | Some t => (ck_created_at c <? t)%Z end.

Definition load_chunk_candidates (user_id channel : string) (min_created_at : Z)
    (max_created_at : option Z) (limit : nat) : DB (list MemoryChunkCandidateRecord) :=
  rows ← sql_select memory_chunks (chunk_candidate user_id channel min_created_at max_created_at);
  mret ((λ c, {| cc_role := ck_role c; cc_text := ck_text c; cc_created_at := ck_created_at c |})
          <$> take (Nat.max limit 1) (order_by newest_chunk_first rows)).

(** ** Groups *)

Definition is_alias (channel : string) (chat_id : Z) (alias : string) (a : alias_row) : bool :=
  String.eqb (al_channel a) channel && (al_chat_id a =? chat_id)%Z && String.eqb (al_alias a) alias.

(** The rows of a batch are inserted in order, whatever the size of the statements. *)
Definition upsert_group_aliases (channel : string) (chat_id : Z) (aliases : list string) : DB unit :=
  let normalized := List.filter (λ a, negb (is_blank a)) (trim <$> aliases) in
  match normalized with
  | [] => mret tt
  | _ =>
      transaction (
        now ← unix_now;
        foreach normalized (λ alias,
          sql_insert_or_ignore telegram_group_aliases (is_alias channel chat_id alias)
            {| al_channel := channel; al_chat_id := chat_id; al_alias := alias;
               al_learned_at := now |} ;;
          mret tt))
  end.

Definition in_chat (channel : string) (chat_id : Z) (a : alias_row) : bool :=
  String.eqb (al_channel a) channel && (al_chat_id a =? chat_id)%Z.

Definition newest_alias_first (a b : alias_row) : bool := (al_learned_at b <=? al_learned_at a)%Z.

Definition load_group_aliases (channel : string) (chat_id : Z) (limit : nat) : DB (list string) :=
  rows ← sql_select telegram_group_aliases (in_chat channel chat_id);
  mret (al_alias <$> take (Nat.max limit 1) (order_by newest_alias_first rows)).

Definition is_profile (channel : string) (chat_id user_id : Z) (p : profile_row) : bool :=
  String.eqb (pf_channel p) channel && (pf_chat_id p =? chat_id)%Z && (pf_user_id p =? user_id)%Z.

Definition upsert_group_user_profile (channel : string) (chat_id user_id : Z)
    (preferred_name : string) (username : option string) : DB unit :=
  if is_blank preferred_name then mret tt
  else
    now ← unix_now;
    let row username :=
      {| pf_channel := channel; pf_chat_id := chat_id; pf_user_id := user_id;
         pf_preferred_name := trim preferred_name; pf_username := username; pf_updated_at := now |} in
    let given := normalized_username username in
    sql_upsert telegram_group_user_profiles (is_profile channel chat_id user_id) (λ _, false)
      (row given) (λ p, row (match given with None => pf_username p | Some _ => given end)).

Definition newest_profile_first (a b : profile_row) : bool := (pf_updated_at b <=? pf_updated_at a)%Z.

Definition load_group_user_profiles (channel : string) (chat_id : Z) (limit : nat)
    : DB (list GroupUserProfileRecord) :=
  rows ← sql_select telegram_group_user_profiles
    (λ p, String.eqb (pf_channel p) channel && (pf_chat_id p =? chat_id)%Z);
  mret ((λ p, {| up_user_id := pf_user_id p; up_preferred_name := pf_preferred_name p;
                 up_username := pf_username p; up_updated_at := pf_updated_at p |})
          <$> take (Nat.max limit 1) (order_by newest_profile_first rows)).
End conversation.

(** * What the conversation tables guarantee

    Recent messages are the end of the session in order, summaries round-trip, an
    outbox row never stands without its chunk, and aliases and names are kept apart. *)

Section conversation.
  Context `{CLK : Clock}.

Implicit Types s : ConvDb.

(** ** Operations *)

Inductive conv_op : Type :=
| VAppend (session_id : string) (message : StoredMessage)
| VSummary (req : CompactionSummaryUpsertRequest)
| VChunk (chunk : MemoryChunkRecord)
| VChunkOutbox (chunk : MemoryChunkRecord) (doc_json : string)
| VDelivered (chunk_id : string)
| VBump (chunk_id error : string)
| VAliases (channel : string) (chat_id : Z) (aliases : list string)
| VProfile (channel : string) (chat_id user_id : Z) (preferred_name : string)
    (username : option string).

Definition conv_exec (op : conv_op) : M ConvDb unit :=
  match op with
  | VAppend session_id message => append session_id message
  | VSummary req => upsert_compaction_summary req
  | VChunk chunk => append_chunk chunk
  | VChunkOutbox chunk doc_json => append_chunk_and_outbox chunk doc_json
  | VDelivered chunk_id => delete_sidecar_outbox chunk_id
  | VBump chunk_id error => bump_sidecar_outbox_attempt chunk_id error
  | VAliases channel chat_id aliases => upsert_group_aliases channel chat_id aliases
  | VProfile channel chat_id user_id preferred_name username =>
      upsert_group_user_profile channel chat_id user_id preferred_name username
  end.

Definition conv_reachable (s : ConvDb) : Prop := op_reachable conv_exec empty_conv s.

(** ** The invariant *)

Definition alias_key (a : alias_row) : string * Z * string := (al_channel a, al_chat_id a, al_alias a).

Definition summary_key (r : summary_row) : string * string * string :=
  (cs_row_session_id r, cs_row_strategy r, cs_row_source_hash r).

Record conv_inv (s : ConvDb) : Prop := {
  vi_messages : StronglySorted (λ a b, ms_id a < ms_id b)%Z (db_messages s);
  vi_outbox : Forall (λ o, ob_chunk_id o ∈ ck_id <$> db_chunks s) (db_outbox s);
  vi_chunks : NoDup (ck_id <$> db_chunks s);
  vi_outbox_ids : NoDup (ob_chunk_id <$> db_outbox s);
  vi_summaries : NoDup (summary_key <$> db_summaries s);
  vi_aliases : NoDup (alias_key <$> db_aliases s);
  vi_named : Forall (λ a, is_blank (al_alias a) = false) (db_aliases s)
}.

Lemma conv_inv_empty : conv_inv empty_conv.
Proof. split; cbn; constructor. Qed.

Lemma next_id_above l m : m ∈ l → (ms_id m < next_message_id l)%Z.
Proof.
  unfold next_message_id. induction l as [|x l IH]; [by intros ?%elem_of_nil|].
  intros [->|H]%elem_of_cons; cbn; [lia|]. specialize (IH H). lia.
Qed.

Lemma sorted_snoc l m :
  StronglySorted (λ a b, ms_id a < ms_id b)%Z l → (∀ x, x ∈ l → (ms_id x < ms_id m)%Z) →
  StronglySorted (λ a b, ms_id a < ms_id b)%Z (l ++ [m]).
Proof.
  induction 1 as [|x l Hl IH Hx]; intros Hm; cbn; [by repeat constructor|].
  constructor; [apply IH; intros y Hy; apply Hm; by right|].
  apply Forall_app. split; [done|]. constructor; [|done]. apply Hm. by left.
Qed.

Lemma nodup_replace {Row K} `{!EqDecision K} (key : Row → K) (clash : Row → bool) (l : list Row) r :
  (∀ x, clash x = true ↔ key x = key r) → NoDup (key <$> l) →
  NoDup (key <$> List.filter (λ x, negb (clash x)) l ++ [r]).
Proof.
  intros Hc Hn. apply nodup_key_snoc; [by apply nodup_key_filter|].
  intros (x & Hk & Hx)%list_elem_of_fmap. apply list_elem_of_In, List.filter_In in Hx as [_ Hx].
  apply negb_true_iff in Hx. symmetry in Hk. apply Hc in Hk. congruence.
Qed.

Lemma replaced_keeps {Row K} (key : Row → K) (clash : Row → bool) (l : list Row) r k :
  (∀ x, clash x = true → key x = key r) → k ∈ key <$> l →
  k ∈ key <$> List.filter (λ x, negb (clash x)) l ++ [r].
Proof.
  intros Hc (x & -> & Hx)%list_elem_of_fmap. rewrite fmap_app. apply elem_of_app.
  destruct (clash x) eqn:E; [right; rewrite (Hc x E); by left|left].
  apply list_elem_of_fmap. exists x. split; [done|].
  apply list_elem_of_In, List.filter_In. rewrite E. split; [by apply list_elem_of_In|done].
Qed.

Lemma upsert_nodup {Row K} (key : Row → K) (sel : Row → bool) (l : list Row) r f :
  (∀ x, sel x = true ↔ key x = key r) → (∀ x, sel x = true → key (f x) = key x) →
  NoDup (key <$> l) → NoDup (key <$> if existsb sel l then update_where sel f l else l ++ [r]).
Proof.
  intros Hk Hf Hn. destruct (existsb sel l) eqn:E; [by rewrite fmap_update_where_on|].
  apply nodup_key_snoc; [done|]. intros (x & Hx & Hin)%list_elem_of_fmap.
  pose proof (existsb_false _ _ E x Hin) as Hno. symmetry in Hx. apply Hk in Hx. congruence.
Qed.

Lemma chunk_clash id x : is_chunk id x = true ↔ ck_id x = id.
Proof. apply String.eqb_eq. Qed.

Lemma outbox_clash id x : is_outbox id x = true ↔ ob_chunk_id x = id.
Proof. apply String.eqb_eq. Qed.

Lemma inv_chunk chunk : stable (keeps conv_inv) (sql_replace memory_chunks (is_chunk (ck_id chunk)) chunk).
Proof.
  apply stable_sql_replace. intros s [H1 H2 H3 H4 H5 H6 H7]. split; cbn; [done| | |done..].
  - eapply Forall_impl; [exact H2|]. cbn. intros o Ho.
    apply (replaced_keeps ck_id); [|done]. intros x. by apply chunk_clash.
  - apply (nodup_replace ck_id); [|done]. intros x. apply chunk_clash.
Qed.

Lemma inv_chunk_outbox chunk doc_json :
  stable (keeps conv_inv) (append_chunk_and_outbox chunk doc_json).
Proof.
  apply stable_of_wp. intros s. unfold append_chunk_and_outbox. do 2 wp_step.
  apply wp_sql_replace. cbv beta iota. do 2 wp_step. apply wp_sql_replace. cbn.
  intros [H1 H2 H3 H4 H5 H6 H7]. split; cbn; [done| | | |done..].
  - apply Forall_app. split.
    + apply Forall_forall. intros o Ho%list_elem_of_In. apply List.filter_In in Ho as [Ho%list_elem_of_In _].
      rewrite Forall_forall in H2. apply (replaced_keeps ck_id); [|by apply H2].
      intros x. by apply chunk_clash.
    + constructor; [|done]. cbn. rewrite fmap_app. apply elem_of_app. right. by left.
  - apply (nodup_replace ck_id); [|done]. intros x. apply chunk_clash.
  - apply (nodup_replace ob_chunk_id); [|done]. intros x. apply outbox_clash.
Qed.

Lemma inv_aliases channel chat_id l :
  Forall (λ a, is_blank a = false) l → ∀ now,
  stable (keeps conv_inv) (foreach l (λ alias,
    sql_insert_or_ignore telegram_group_aliases (is_alias channel chat_id alias)
      {| al_channel := channel; al_chat_id := chat_id; al_alias := alias; al_learned_at := now |} ;;
    mret tt)).
Proof.
  intros Hl now. induction Hl as [|alias l Ha _ IH]; cbn; [apply stable_ret, _|].
  apply stable_bind; [apply _| |intros _; exact IH]. stable_go.
  apply stable_sql_insert_or_ignore; [apply _|].
  intros s E [H1 H2 H3 H4 H5 H6 H7]. split; cbn; [done..| |].
  - apply nodup_key_snoc; [done|]. intros (x & Hx & Hin)%list_elem_of_fmap.
    pose proof (existsb_false _ _ E x Hin) as Hno. unfold alias_key in Hx. cbn in Hx.
    injection Hx as -> -> ->. unfold is_alias in Hno.
    by rewrite !String.eqb_refl, Z.eqb_refl in Hno.
  - apply Forall_app. split; [done|]. by constructor.
Qed.

Lemma conv_exec_inv op : stable (keeps conv_inv) (conv_exec op).
Proof.
  destruct op; cbn.
  - apply stable_of_wp. intros s. unfold append. do 4 wp_step. wp_step.
    intros [H1 H2 H3 H4 H5 H6 H7]. split; cbn; [|done..]. apply sorted_snoc; [done|].
    intros x. apply next_id_above.
  - unfold upsert_compaction_summary. cbv zeta. stable_go. apply stable_sql_upsert; [apply _|].
    intros s _ [H1 H2 H3 H4 H5 H6 H7]. split; cbn; [done..| |done|done].
    apply (upsert_nodup summary_key); [| |done].
    + intros x. unfold is_summary, summary_key. cbn. rewrite !andb_true_iff, !String.eqb_eq.
      split; [by intros [[-> ->] ->]|by intros [= -> -> ->]].
    + intros x. unfold is_summary, summary_key. rewrite !andb_true_iff, !String.eqb_eq. cbn.
      by intros [[-> ->] ->].
  - apply inv_chunk.
  - apply inv_chunk_outbox.
  - unfold delete_sidecar_outbox. apply stable_sql_delete.
    intros s [H1 H2 H3 H4 H5 H6 H7]. split; cbn; [done| |done| |done..].
    + apply Forall_forall. intros o [Ho%list_elem_of_In _]%list_elem_of_In%List.filter_In.
      rewrite Forall_forall in H2. by apply H2.
    + by apply nodup_key_filter.
  - unfold bump_sidecar_outbox_attempt. stable_go. apply stable_sql_update.
    intros s [H1 H2 H3 H4 H5 H6 H7]. split; cbn; [done| |done| |done..].
    + apply Forall_forall. intros o (x & Hx & ->)%elem_update_where.
      rewrite Forall_forall in H2. destruct (is_outbox _ x); exact (H2 x Hx).
    + by apply (nodup_update_where ob_chunk_id).
  - unfold upsert_group_aliases. cbv zeta.
    assert (Hl : Forall (λ a, is_blank a = false)
              (List.filter (λ a, negb (is_blank a)) (trim <$> aliases))).
    { apply Forall_forall. intros a [_ Ha]%list_elem_of_In%List.filter_In. by apply negb_true_iff. }
    destruct (List.filter _ _) as [|a l]; [apply stable_ret, _|].
    apply stable_transaction; [apply _|]. apply stable_bind; [apply _|stable_go|].
    intros now. by apply inv_aliases.
  - unfold upsert_group_user_profile. cbv zeta. stable_go. apply stable_sql_upsert; [apply _|].
    intros s _ [H1 H2 H3 H4 H5 H6 H7]. by split.
Qed.

Lemma conv_reachable_inv s : conv_reachable s → conv_inv s.
Proof. apply op_reachable_invariant; [apply conv_inv_empty|apply conv_exec_inv]. Qed.

(** The conversation tables agree: in any reachable store message ids ascend, every
    row of the outbox has its chunk - so what a crash leaves undelivered can be replayed -
    and chunks, outbox rows, summaries and aliases are unique under their keys. *)
Theorem conversation_tables_agree s : conv_reachable s → conv_inv s.
Proof. apply conv_reachable_inv. Qed.

(** ** Recent messages *)

(** The messages of a session, in the order they were appended. *)
Definition session_messages (session_id : string) (s : ConvDb) : list StoredMessage :=
  ms_message <$> List.filter (in_session session_id) (db_messages s).

Lemma append_logs session_id message s :
  wp (append session_id message) (λ r s', r = Ok tt ∧ ∀ session,
    session_messages session s' = session_messages session s ++
      (if String.eqb session_id session then [message] else [])) s.
Proof.
  unfold append. do 5 wp_step. split; [done|]. intros session. unfold session_messages. cbn.
  rewrite List.filter_app, fmap_app. f_equal. cbn. unfold in_session. cbn. by destruct (String.eqb session_id session).
Qed.

Lemma insert_by_last {Row} (le : Row → Row → bool) r l :
  (∀ x, x ∈ l → le r x = false) → insert_by le r l = l ++ [r].
Proof.
  induction l as [|x l IH]; intros H; cbn; [done|].
  rewrite (H x (list_elem_of_here _ _)), IH; [done|]. intros y Hy. apply H. by right.
Qed.

Lemma order_latest_first l :
  StronglySorted (λ a b, ms_id a < ms_id b)%Z l → order_by latest_first l = rev l.
Proof.
  induction 1 as [|x l _ IH Hx]; cbn; [done|]. rewrite IH. apply insert_by_last.
  intros y Hy%list_elem_of_In%in_rev%list_elem_of_In. rewrite Forall_forall in Hx.
  specialize (Hx y Hy). unfold latest_first. lia.
Qed.

Lemma sorted_filter p l :
  StronglySorted (λ a b, ms_id a < ms_id b)%Z l →
  StronglySorted (λ a b, ms_id a < ms_id b)%Z (List.filter p l).
Proof.
  induction 1 as [|x l _ IH Hx]; cbn; [constructor|]. destruct (p x); [|done].
  constructor; [done|]. rewrite Forall_forall in *. intros y [Hy _]%list_elem_of_In%List.filter_In.
  apply Hx. by apply list_elem_of_In.
Qed.

(** The last [limit] elements. *)
Definition last_n {A} (limit : nat) (l : list A) : list A := drop (length l - limit) l.

Lemma wp_recent_rows session_id limit s :
  conv_inv s →
  wp (recent_rows session_id limit)
     (λ r s', s' = s ∧ r = Ok (last_n limit (List.filter (in_session session_id) (db_messages s)))) s.
Proof.
  intros Hi. unfold recent_rows. do 3 wp_step. split; [done|]. f_equal.
  cbn [tget messages]. rewrite order_latest_first by apply sorted_filter, Hi.
  unfold last_n. by rewrite List.firstn_rev, rev_involutive.
Qed.

(** A conversation is recalled as it was held: in any reachable store loading recent
    messages answers with the last ones of the session in the order they were appended,
    as records and as messages, and appending adds one at the end of its session only. *)
Theorem recent_messages_are_the_session_end session_id limit s :
  conv_reachable s →
  wp (load_recent session_id limit)
     (λ r s', s' = s ∧ r = Ok (last_n limit (session_messages session_id s))) s ∧
  wp (load_recent_records session_id limit)
     (λ r s', s' = s ∧ ∃ records, r = Ok records ∧
        mr_message <$> records = last_n limit (session_messages session_id s)) s ∧
  ∀ to_session message,
    wp (append to_session message) (λ r s', r = Ok tt ∧ conv_reachable s' ∧
      session_messages session_id s' = session_messages session_id s ++
        (if String.eqb to_session session_id then [message] else [])) s.
Proof.
  intros Hr. pose proof (conv_reachable_inv s Hr) as Hi. split_and!.
  - unfold load_recent. wp_step. eapply wp_mono; [by apply wp_recent_rows|]. cbv beta.
    intros r s' [-> ->]. wp_step. split; [done|]. f_equal. unfold last_n, session_messages.
    by rewrite <- fmap_drop, length_fmap.
  - unfold load_recent_records. wp_step. eapply wp_mono; [by apply wp_recent_rows|]. cbv beta.
    intros r s' [-> ->]. wp_step. split; [done|]. eexists. split; [done|].
    rewrite <- list_fmap_compose. unfold last_n, session_messages.
    by rewrite length_fmap, <- fmap_drop.
  - intros to_session message.
    assert (Hstep : wp (append to_session message) (λ _ s', conv_reachable s') s).
    { intros w <-. eapply rtc_r; [exact Hr|]. by exists (VAppend to_session message), w. }
    assert (Hq : wp (append to_session message) (λ r s', r = Ok tt ∧
      session_messages session_id s' = session_messages session_id s ++
        (if String.eqb to_session session_id then [message] else [])) s).
    { eapply wp_mono; [apply append_logs|]. cbv beta. intros r s' [-> H]. by split. }
    eapply wp_mono; [apply (wp_and _ _ _ _ Hstep Hq)|]. by intros r s' (? & ? & ?).
Qed.

(** ** Summaries *)

Lemma i64_as_usize_back n : (n < 2 ^ 63)%N → i64_as_usize (usize_as_i64 n) = n.
Proof.
  intros H. unfold i64_as_usize, usize_as_i64. rewrite Z.mod_small by lia.
  destruct (Z.ltb_spec (Z.of_N n) (2 ^ 63)); lia.
Qed.

(** A compaction summary round-trips: what is stored for a session, strategy and
    source is what is loaded for them, stored again or not, and other keys keep theirs. *)
Theorem compaction_summary_roundtrip req s :
  conv_reachable s → (us_source_message_count req < 2 ^ 63)%N → (us_tokens_saved req < 2 ^ 63)%N →
  wp (upsert_compaction_summary req ;;
      load_compaction_summary (us_session_id req) (us_strategy req) (us_source_hash req))
     (λ r s', ∃ record, r = Ok (Some record) ∧
        (sm_session_id record, sm_strategy record, sm_source_hash record) =
          (us_session_id req, us_strategy req, us_source_hash req) ∧
        sm_source_message_ids record = us_source_message_ids req ∧
        sm_source_first_message_id record = us_source_first_message_id req ∧
        sm_source_last_message_id record = us_source_last_message_id req ∧
        sm_source_message_count record = us_source_message_count req ∧
        sm_summary record = us_summary req ∧ sm_tokens_saved record = us_tokens_saved req ∧
        sm_invalidated_at record = None) s.
Proof.
  intros Hr H1 H2. unfold upsert_compaction_summary. wp_step. wp_step. apply wp_unix_now.
  intros now _. cbv zeta. apply wp_sql_upsert; intros Hno.
  { exfalso. apply existsb_exists in Hno as (x & _ & Hx). by rewrite andb_false_r in Hx. }
  clear Hno. unfold load_compaction_summary. do 2 wp_step. wp_step. cbn [tget tset compaction_summaries db_summaries].
  assert (Hfind : ∀ (row : Z → summary_row) l,
    (∀ c, is_summary (us_session_id req) (us_strategy req) (us_source_hash req) (row c) = true ∧
          cs_row_invalidated_at (row c) = None) →
    ∃ c, List.find (λ r, is_summary (us_session_id req) (us_strategy req) (us_source_hash req) r &&
                         bool_decide (cs_row_invalidated_at r = None))
           (if existsb (is_summary (us_session_id req) (us_strategy req) (us_source_hash req)) l
            then update_where (is_summary (us_session_id req) (us_strategy req) (us_source_hash req))
                   (λ r, row (cs_row_created_at r)) l
            else l ++ [row now]) = Some (row c)).
  { intros row l Hrow.
    assert (Hp : ∀ c, is_summary (us_session_id req) (us_strategy req) (us_source_hash req) (row c) &&
      bool_decide (cs_row_invalidated_at (row c) = None) = true).
    { intros c. destruct (Hrow c) as [-> ->]. done. }
    induction l as [|x l IH]; cbn; [rewrite Hp; by exists now|].
    destruct (is_summary _ _ _ x) eqn:E; cbn.
    - rewrite Hp. by eexists.
    - destruct (existsb _ l); cbn; by rewrite E. }
  edestruct (Hfind (new_summary_row req now)) as (c & Hc); [|rewrite Hc; cbn; eexists; split; [reflexivity|]].
  { intros c. cbn. unfold is_summary. cbn. by rewrite !String.eqb_refl. }
  cbn. by rewrite !i64_as_usize_back.
Qed.
End conversation.
