(* ===== verification/Floats.v ===== *)
(** * Binary floating point

    [f64] of Rust: IEEE 754 double precision, as the Standard Library's executable
    specification of floats.  Conversions from integers and the operations are
    correctly rounded; a decimal literal is the correctly rounded quotient of the
    integers that spell it. *)

From S2P Require Import Prelude.
From stdpp Require Import pretty.
From Stdlib Require Import SpecFloat.
#[local] Open Scope Z_scope.

Abbreviation f64 := spec_float.

Definition f64_prec : Z := 53.
Definition f64_emax : Z := 1024.

Definition f64_of_Z (z : Z) : f64 := binary_normalize f64_prec f64_emax z 0 false.
Definition f64_add (x y : f64) : f64 := SFadd f64_prec f64_emax x y.
Definition f64_sub (x y : f64) : f64 := SFsub f64_prec f64_emax x y.
Definition f64_mul (x y : f64) : f64 := SFmul f64_prec f64_emax x y.
Definition f64_div (x y : f64) : f64 := SFdiv f64_prec f64_emax x y.
Definition f64_zero : f64 := S754_zero false.

(** The literal [n / d]. *)
Definition f64_lit (n d : Z) : f64 := f64_div (f64_of_Z n) (f64_of_Z d).

Definition f64_lt (x y : f64) : bool := SFltb x y.
Definition f64_le (x y : f64) : bool := SFleb x y.

Definition f64_is_finite (x : f64) : bool :=
  match x with S754_zero _ | S754_finite _ _ _ => true | _ => false end.

(** [f64::clamp]. *)
Definition f64_clamp (lo hi x : f64) : f64 :=
  if f64_lt x lo then lo else if f64_lt hi x then hi else x.

(** [f64::round]: to the nearest integer, halves away from zero. *)
Definition f64_round (x : f64) : f64 :=
  match x with
  | S754_finite s m e =>
      if 0 <=? e then x
      else
        let q := (Z.pos m + 2 ^ (- e - 1)) / 2 ^ (- e) in
        if q =? 0 then S754_zero s
        else binary_normalize f64_prec f64_emax (if s then - q else q) 0 s
  | _ => x
  end.

Definition i64_min : Z := - 2 ^ 63.
Definition i64_max : Z := 2 ^ 63 - 1.

(** [as i64]: towards zero, saturating; NaN is 0. *)
Definition f64_as_i64 (x : f64) : Z :=
  match x with
  | S754_zero _ | S754_nan => 0
  | S754_infinity s => if s then i64_min else i64_max
  | S754_finite s m e =>
      let v := if 0 <=? e then Z.pos m * 2 ^ e else Z.pos m / 2 ^ (- e) in
      Z.max i64_min (Z.min i64_max (if s then - v else v))
  end.

(** [Iterator::sum::<f64>]: the sum starts from -0.0. *)
Definition f64_sum (l : list f64) : f64 := foldl f64_add (S754_zero true) l.

(** The nearest integer, halves to even. *)
Definition round_half_even (n d : Z) : Z :=
  let q := n / d in
  let r := n mod d in
  if (2 * r <? d) || ((2 * r =? d) && Z.even q) then q else q + 1.

Definition pad_left (width : nat) (s : string) : string :=
  String.concat "" (repeat "0" (width - String.length s)) +:+ s.

(** [format!("{x:.k}")]: exact decimal expansion, rounded half to even. *)
Definition f64_fixed (k : nat) (x : f64) : string :=
  let digits (s : bool) (n d : Z) :=
    let v := round_half_even (n * 10 ^ Z.of_nat k) d in
    let text := pad_left (S k) (pretty v) in
    let cut := (String.length text - k)%nat in
    (if s then "-" else "") +:+ String.substring 0 cut text +:+
      (if (k =? 0)%nat then "" else "." +:+ String.substring cut k text) in
  match x with
  | S754_nan => "NaN"
  | S754_infinity s => if s then "-inf" else "inf"
  | S754_zero s => digits s 0 1
  | S754_finite s m e =>
      if 0 <=? e then digits s (Z.pos m * 2 ^ e) 1 else digits s (Z.pos m) (2 ^ (- e))
  end.

(** [Display] of an [f64] (the shortest text that reads back), for messages. *)
Class FloatText : Type := float_text : f64 → string.

(** ** Facts *)

Lemma f64_lit_samples :
  f64_as_i64 (f64_round (f64_lit 5 2)) = 3 ∧ f64_as_i64 (f64_round (f64_lit (-5) 2)) = -3 ∧
  f64_fixed 6 (f64_lit 1 3) = "0.333333" ∧ f64_fixed 1 (f64_lit (-1) 4) = "-0.2" ∧
  f64_fixed 0 (f64_of_Z 12) = "12" ∧
  f64_sum [f64_lit 1 10; f64_lit 2 10] = f64_lit 30000000000000004 100000000000000000.
Proof. vm_compute. done. Qed.
