(* ===== verification/Recall.v ===== *)
(** * What is recalled

    The retrieval of src/memory.rs: keyword terms of a query, the ranking of a user's
    chunks in single precision, the window a query names, the merge of recalled texts into
    the context of a turn, and the SQLite backend of the memory. *)

From S2P Require Import Prelude Text Strings Messages External Signals MemBase Conversation Floats.
From stdpp Require Import pretty.
From Stdlib Require Import Ascii SpecFloat Sorting.Sorted.
#[local] Open Scope Z_scope.

(** ** Single precision *)

Abbreviation f32 := spec_float.

Definition f32_of_Z (z : Z) : f32 := binary_normalize 24 128 z 0 false.
Definition f32_add (x y : f32) : f32 := SFadd 24 128 x y.
Definition f32_mul (x y : f32) : f32 := SFmul 24 128 x y.
Definition f32_div (x y : f32) : f32 := SFdiv 24 128 x y.
Definition f32_lit (n d : Z) : f32 := f32_div (f32_of_Z n) (f32_of_Z d).

(** ** Outside of the program *)

(** [str::to_lowercase], the local time zone - the first second of the day some days before
    a moment, and a moment's text - and the hash behind the ids of chunks. *)
Class MemoryEnv : Type := {
  str_to_lowercase : string → string;
  local_day_start : Z → Z → option Z;
  local_rfc3339 : Z → option string;
  default_hash : list string → Z → Z → N
}.

Record MemoryWriteRequest : Type := {
  mw_session_id : string;
  mw_user_id : string;
  mw_channel : string;
  mw_message : StoredMessage
}.

Record MemoryContextRequest : Type := {
  mq_session_id : string;
  mq_user_id : string;
  mq_channel : string;
  mq_query_text : string;
  mq_max_recent_turns : nat;
  mq_max_semantic_memories : nat;
  mq_semantic_lookback_days : Z
}.

Record RankedMemoryCandidate : Type := {
  rc_text : string;
  rc_score : f32;
  rc_source : string;
  rc_created_at : Z
}.

(** The values of a [HashMap] come in an arbitrary order, which depends on the process. *)
Class HashOrder : Type := hash_order : nat → list (string * RankedMemoryCandidate) → list (string * RankedMemoryCandidate).

Class HashOrderLaw (H : HashOrder) : Prop := hash_order_permutes n l : hash_order n l ≡ₚ l.

(** ** Terms *)

Fixpoint utf8_fold (acc : N) (s : string) : N :=
  match s with
  | EmptyString => acc
  | String a s' => utf8_fold (acc * 64 + N.land (Ascii.N_of_ascii a) 63)%N s'
  end.

(** The code point of a character given by its bytes. *)
Definition char_code (c : string) : N :=
  match c with
  | EmptyString => 0
  | String a s' =>
      let n := Ascii.N_of_ascii a in
      let lead := if (n <? 128)%N then n else if (n <? 224)%N then N.land n 31
                  else if (n <? 240)%N then N.land n 15 else N.land n 7 in
      utf8_fold lead s'
  end.

Definition is_cjk_char (c : string) : bool :=
  let n := char_code c in
  ((0x4E00 <=? n) && (n <=? 0x9FFF) || (0x3400 <=? n) && (n <=? 0x4DBF) || (0x20000 <=? n) && (n <=? 0x2A6DF))%N.

Definition is_term_char (c : string) : bool :=
  let n := char_code c in
  ((48 <=? n) && (n <=? 57) || (65 <=? n) && (n <=? 90) || (97 <=? n) && (n <=? 122) || (n =? 95))%N.

Fixpoint windows2 (cs : list string) : list string :=
  match cs with
  | a :: (b :: _) as rest => (a +:+ b) :: windows2 rest
  | _ => []
  end.

(** [push_cjk_terms]: what it adds. *)
Definition cjk_terms (cs : list string) : list string :=
  match cs with [] => [] | [c] => [c] | _ => windows2 cs end.

Definition ascii_term (buf : list string) : list string :=
  if (2 <=? length buf)%nat then [String.concat "" buf] else [].

(** The loop over the characters with its two buffers. *)
Fixpoint terms_go (cs ascii_buf cjk_buf : list string) : list string :=
  match cs with
  | [] => ascii_term ascii_buf ++ cjk_terms cjk_buf
  | c :: cs' =>
      if is_term_char c then cjk_terms cjk_buf ++ terms_go cs' (ascii_buf ++ [to_ascii_lowercase c]) []
      else if is_cjk_char c then ascii_term ascii_buf ++ terms_go cs' [] (cjk_buf ++ [c])
      else ascii_term ascii_buf ++ cjk_terms cjk_buf ++ terms_go cs' [] []
  end.

(** The first 40 distinct terms. *)
Fixpoint dedup_terms (left : nat) (seen terms : list string) : list string :=
  match left, terms with
  | S left', t :: terms' =>
      if bool_decide (t ∈ seen) then dedup_terms left seen terms' else t :: dedup_terms left' (t :: seen) terms'
  | _, _ => []
  end.

Definition keyword_terms (query : string) : list string := dedup_terms 40 [] (terms_go (chars query) [] []).

(** ** Scores *)

Definition normalize_memory_score (score : f32) : f32 :=
  if f64_is_finite score then f64_clamp f64_zero (f32_of_Z 1) score else f64_zero.

Definition term_weight (term : string) : f32 :=
  let len := chars_count term in
  if (6 <=? len)%nat then f32_of_Z 2 else if (4 <=? len)%nat then f32_lit 14 10
  else if (2 <=? len)%nat then f32_of_Z 1 else f32_lit 6 10.

Section recall.
  Context `{CLK : Clock} `{ME : MemoryEnv}.

Abbreviation DB := (M ConvDb).

Definition keyword_overlap_score (text : string) (terms : list string) : f32 :=
  let hay := str_to_lowercase text in
  let '(hit, total) := foldl (λ '(hit, total) term,
      let weight := term_weight term in
      (if contains term hay then f32_add hit weight else hit, f32_add total weight))
    (f64_zero, f64_zero) terms in
  match terms with
  | [] => f64_zero
  | _ => if f64_le total f64_zero then f64_zero else f64_clamp f64_zero (f32_of_Z 1) (f32_div hit total)
  end.

Definition role_weight (role : MessageRole) : f32 :=
  match role with User => f32_of_Z 1 | Assistant => f32_lit 9 10 | System => f32_lit 7 10 end.

(** The score of a chunk; times are not negative, so the age is within an [i64]. *)
Definition chunk_score (now : Z) (lexical : f32) (row : MemoryChunkCandidateRecord) : f32 :=
  let age_secs := f32_of_Z (now - Z.max (cc_created_at row) 0) in
  let age_days := f32_div age_secs (f32_of_Z 86400) in
  let recency := f32_div (f32_of_Z 1) (f32_add (f32_of_Z 1) (f32_div age_days (f32_of_Z 7))) in
  normalize_memory_score
    (f32_mul (f32_add (f32_mul lexical (f32_lit 82 100)) (f32_mul recency (f32_lit 18 100))) (role_weight (cc_role row))).

(** The comparison of [sort_by]: higher scores first, then the newer. *)
Definition better_first (a b : RankedMemoryCandidate) : bool :=
  match SFcompare (rc_score b) (rc_score a) with
  | Some Lt => true
  | Some Gt => false
  | _ => rc_created_at b <=? rc_created_at a
  end.

Definition rank_row (now : Z) (terms : list string) (min_score : f32) (row : MemoryChunkCandidateRecord)
    : option RankedMemoryCandidate :=
  let text := trim (cc_text row) in
  let lexical := keyword_overlap_score text terms in
  if f64_le lexical f64_zero then None
  else
    let score := chunk_score now lexical row in
    if f64_lt score min_score then None
    else Some {| rc_text := text; rc_score := score; rc_source := "kw"; rc_created_at := cc_created_at row |}.

(** The first row of each text. *)
Fixpoint first_of_text (seen : list string) (rows : list MemoryChunkCandidateRecord) : list MemoryChunkCandidateRecord :=
  match rows with
  | [] => []
  | row :: rows' =>
      let text := trim (cc_text row) in
      if String.eqb text "" || bool_decide (text ∈ seen) then first_of_text seen rows'
      else row :: first_of_text (text :: seen) rows'
  end.

Definition rank_local_keyword_candidates (now : Z) (query_text : string) (rows : list MemoryChunkCandidateRecord)
    (topk : nat) (min_score : f32) : list RankedMemoryCandidate :=
  match keyword_terms query_text with
  | [] => []
  | terms => take topk (order_by better_first (omap (rank_row now terms min_score) (first_of_text [] rows)))
  end.

(** *** The day a query names *)

Definition named_days_ago (query : string) : option Z :=
  let lower := to_ascii_lowercase query in
  if contains "前天" query || contains "day before yesterday" lower then Some 2
  else if contains "昨天" query || contains "yesterday" lower then Some 1
  else if contains "今天" query || contains "today" lower then Some 0
  else None.

(** The first second of the window and the first after it. *)
Definition detect_temporal_day_window (now : Z) (query_text : string) : option (Z * Z) :=
  let query := trim query_text in
  if String.eqb query "" then None
  else
    days_ago ← named_days_ago query;
    start ← local_day_start now days_ago;
    Some (start, start + 86400).

Definition in_window (w : option (Z * Z)) (created_at : Z) : bool :=
  match w with Some (start, stop) => (start <=? created_at) && (created_at <? stop) | None => true end.

Definition collect_local_keyword_candidates (req : MemoryContextRequest) (topk candidate_limit : nat)
    (min_score : f32) : DB (list RankedMemoryCandidate) :=
  if (topk =? 0)%nat || is_blank (mq_query_text req) then mret []
  else
    now ← unix_now;
    today ← unix_now;
    let min_created_at := now - Z.max (mq_semantic_lookback_days req) 1 * 86400 in
    let load min_created_at max_created_at :=
      rows ← load_chunk_candidates (mq_user_id req) (mq_channel req) min_created_at max_created_at
        (Nat.max candidate_limit topk);
      later ← unix_now;
      mret (rank_local_keyword_candidates later (mq_query_text req) rows topk min_score) in
    match detect_temporal_day_window today (mq_query_text req) with
    | Some (start, stop) =>
        let min_created_at := Z.max min_created_at start in
        if stop <=? min_created_at then mret [] else load min_created_at (Some stop)
    | None => load min_created_at None
    end.

(** ** The merge *)

(** [split_whitespace]. *)
Fixpoint fields_go (cur : list Ascii.ascii) (s : list Ascii.ascii) : list (list Ascii.ascii) :=
  let flush := match cur with [] => [] | _ => [cur] end in
  match s with
  | [] => flush
  | a :: s1 =>
      if ws1 a then flush ++ fields_go [] s1 else
      match s1 with
      | [] => fields_go (cur ++ [a]) s1
      | b :: s2 =>
          if ws2 a b then flush ++ fields_go [] s2 else
          match s2 with
          | [] => fields_go (cur ++ [a]) s1
          | c :: s3 => if ws3 a b c then flush ++ fields_go [] s3 else fields_go (cur ++ [a]) s1
          end
      end
  end.

Definition split_whitespace (s : string) : list string := of_bytes <$> fields_go [] (bytes s).

Definition normalize_memory_text_key (text : string) : string :=
  str_to_lowercase (trim (String.concat " " (split_whitespace text))).

(** [split('+')]. *)
Fixpoint split_plus (cur s : string) : list string :=
  match s with
  | EmptyString => [cur]
  | String a s' => if Ascii.eqb a "+"%char then cur :: split_plus "" s' else split_plus (cur +:+ String a "") s'
  end.

Definition merge_source_tag (current next : string) : string :=
  if String.eqb current next then current
  else if contains next current then current
  else if contains current next then next
  else
    let tags := List.filter (λ t, negb (String.eqb t "")) (trim <$> split_plus "" current) in
    String.concat "+" (if existsb (String.eqb next) tags then tags else tags ++ [next]).

Definition merge_candidate (existing candidate : RankedMemoryCandidate) : RankedMemoryCandidate :=
  {| rc_text := if (chars_count (rc_text existing) <? chars_count (rc_text candidate))%nat
                then rc_text candidate else rc_text existing;
     rc_score := if f64_lt (rc_score existing) (rc_score candidate) then rc_score candidate else rc_score existing;
     rc_source := merge_source_tag (rc_source existing) (rc_source candidate);
     rc_created_at := if rc_created_at existing <? rc_created_at candidate then rc_created_at candidate
                      else rc_created_at existing |}.

(** The map from keys to candidates. *)
Definition add_candidate (min_score : f32) (recent_seen : list string)
    (merged : list (string * RankedMemoryCandidate)) (candidate : RankedMemoryCandidate)
    : list (string * RankedMemoryCandidate) :=
  if f64_lt (rc_score candidate) min_score then merged
  else
    let key := normalize_memory_text_key (rc_text candidate) in
    if String.eqb key "" || bool_decide (key ∈ recent_seen) then merged
    else if existsb (λ p, String.eqb p.1 key) merged
         then update_where (λ p, String.eqb p.1 key) (λ p, (p.1, merge_candidate p.2 candidate)) merged
         else merged ++ [(key, candidate)].

Definition recent_keys (recent : list StoredMessage) : list string :=
  List.filter (λ k, negb (String.eqb k "")) ((λ m, normalize_memory_text_key (content m)) <$> recent).

Definition truncate_chars (input : string) (max_chars : nat) : string := take_chars max_chars input.

Definition format_memory_timestamp (ts : Z) : string := default ("unix:" +:+ pretty ts) (local_rfc3339 ts).

Definition memory_message (snippet_max : nat) (c : RankedMemoryCandidate) : StoredMessage :=
  {| role := System;
     content := "[memory score=" +:+ f64_fixed 3 (normalize_memory_score (rc_score c)) +:+ " src=" +:+ rc_source c +:+
                " at=" +:+ format_memory_timestamp (rc_created_at c) +:+ "] " +:+
                truncate_chars (rc_text c) (Nat.max snippet_max 120) |}.

(** The candidates that are kept, in their order. *)
Definition kept_candidates `{HO : HashOrder} (seed : nat) (recent : list StoredMessage)
    (semantic keyword : list RankedMemoryCandidate) (max_memories : nat) (min_score : f32)
    : list RankedMemoryCandidate :=
  let merged := foldl (add_candidate min_score (recent_keys recent)) [] (semantic ++ keyword) in
  take max_memories (order_by better_first (snd <$> hash_order seed merged)).

Definition merge_memory_candidates_into_context `{HO : HashOrder} (seed : nat) (recent : list StoredMessage)
    (semantic keyword : list RankedMemoryCandidate) (max_memories snippet_max : nat) (min_score : f32)
    : list StoredMessage :=
  if (max_memories =? 0)%nat then recent
  else (memory_message snippet_max <$> kept_candidates seed recent semantic keyword max_memories min_score) ++ recent.

(** ** The SQLite backend *)

Definition stable_chunk_id (req : MemoryWriteRequest) (ts_secs nanos : Z) : string :=
  "mem-" +:+ hex (default_hash [mw_session_id req; mw_user_id req; mw_channel req;
                                role_as_str (role (mw_message req)); content (mw_message req)] ts_secs nanos).

Definition chunk_of (req : MemoryWriteRequest) (chunk_id : string) (created_at : Z) : MemoryChunkRecord :=
  {| ck_id := chunk_id; ck_session_id := mw_session_id req; ck_user_id := mw_user_id req; ck_channel := mw_channel req;
     ck_role := role (mw_message req); ck_text := content (mw_message req); ck_created_at := created_at |}.

(** A backend of the memory: the operations a turn uses. *)
Record MemoryBackend (S : Type) : Type := {
  mb_append : MemoryWriteRequest → M S unit;
  mb_load_context : MemoryContextRequest → M S (list StoredMessage);
  mb_load_recent_records : string → nat → M S (list StoredMessageRecord);
  mb_load_compaction_summary : string → string → string → M S (option CompactionSummaryRecord);
  mb_upsert_compaction_summary : CompactionSummaryUpsertRequest → M S unit;
  mb_reconcile_sidecar_outbox : nat → M S nat
}.

Definition sqlite_append (req : MemoryWriteRequest) : DB unit :=
  append (mw_session_id req) (mw_message req) ;;
  if is_blank (content (mw_message req)) then mret tt
  else
    created_at ← unix_now;
    nanos ← now_nanos;
    append_chunk (chunk_of req (stable_chunk_id req created_at nanos) created_at).

Definition default_min_score : f32 := f32_lit 18 100.

Definition sqlite_load_context `{HO : HashOrder} (req : MemoryContextRequest) : DB (list StoredMessage) :=
  recent ← load_recent (mq_session_id req) (mq_max_recent_turns req);
  if (mq_max_semantic_memories req =? 0)%nat || is_blank (mq_query_text req) then mret recent
  else
    let keyword_limit := Nat.max (mq_max_semantic_memories req) 1 in
    keyword ← collect_local_keyword_candidates req keyword_limit
                (Nat.max 64 (Nat.min 512 (keyword_limit * 24))) default_min_score;
    seed ← tick;
    mret (merge_memory_candidates_into_context seed recent [] keyword (mq_max_semantic_memories req) 420
            default_min_score).

Definition SqliteMemoryBackend `{HO : HashOrder} : MemoryBackend ConvDb :=
  {| mb_append := sqlite_append;
     mb_load_context := sqlite_load_context;
     mb_load_recent_records := load_recent_records;
     mb_load_compaction_summary := load_compaction_summary;
     mb_upsert_compaction_summary := upsert_compaction_summary;
     mb_reconcile_sidecar_outbox := λ _, mret 0%nat |}.
End recall.

#[global] Arguments mb_append {S}.
#[global] Arguments mb_load_context {S}.
#[global] Arguments mb_load_recent_records {S}.
#[global] Arguments mb_load_compaction_summary {S}.
#[global] Arguments mb_upsert_compaction_summary {S}.
#[global] Arguments mb_reconcile_sidecar_outbox {S}.

(** ** The order of scores *)

(** Numbers that are not NaN are ordered as the triples below. *)
Fixpoint lex (a b : list Z) : comparison :=
  match a, b with
  | x :: a', y :: b' => match Z.compare x y with Eq => lex a' b' | c => c end
  | [], [] => Eq
  | [], _ => Lt
  | _, [] => Gt
  end.

Lemma lex_antisym a b : lex b a = CompOpp (lex a b).
Proof.
  revert b. induction a as [|x a IH]; intros [|y b]; cbn; [done..|]. rewrite (Z.compare_antisym x y).
  destruct (Z.compare_spec x y); cbn; [apply IH|done..].
Qed.

Lemma lex_trans a b c : lex a b ≠ Gt → lex b c ≠ Gt → lex a c ≠ Gt.
Proof.
  revert b c. induction a as [|x a IH]; intros [|y b] [|z c]; cbn; try done.
  destruct (Z.compare_spec x y), (Z.compare_spec y z), (Z.compare_spec x z); subst; try lia; try done; apply IH.
Qed.

Definition score_key (x : f32) : list Z :=
  match x with
  | S754_zero _ | S754_nan => [0; 0; 0]
  | S754_infinity s => [if s then -2 else 2; 0; 0]
  | S754_finite s m e => if s then [-1; - e; - Z.pos m] else [1; e; Z.pos m]
  end.

Lemma compare_opp (x y : Z) : (- x ?= - y) = CompOpp (x ?= y).
Proof. destruct (Z.compare_spec x y), (Z.compare_spec (- x) (- y)); cbn; lia || done. Qed.

Lemma compare_key x y :
  f64_is_finite x = true → f64_is_finite y = true → SFcompare x y = Some (lex (score_key x) (score_key y)).
Proof.
  destruct x as [s|s| |s m e], y as [s'|s'| |s' m' e']; cbn; try done.
  - by destruct s'.
  - by destruct s.
  - intros _ _. destruct s, s'; cbn; try done.
    + rewrite compare_opp. change (- Z.pos m ?= - Z.pos m') with (CompOpp (Pos.compare_cont Eq m m')).
      destruct (e ?= e'); cbn; try done. by destruct (Pos.compare_cont Eq m m').
    + destruct (e ?= e'); try done.
      change (Some (Pos.compare_cont Eq m m') = Some match Pos.compare_cont Eq m m' with Eq => Eq | Lt => Lt | Gt => Gt end).
      by destruct (Pos.compare_cont Eq m m').
Qed.

Definition candidate_key (c : RankedMemoryCandidate) : list Z := score_key (rc_score c) ++ [rc_created_at c].

Definition finite_score (c : RankedMemoryCandidate) : Prop := f64_is_finite (rc_score c) = true.

Lemma score_key_shape x : ∃ a b c, score_key x = [a; b; c].
Proof. destruct x as [s|s| |[] m e]; cbn; eauto. Qed.

Lemma better_first_key a b :
  finite_score a → finite_score b → better_first a b = true ↔ lex (candidate_key b) (candidate_key a) ≠ Gt.
Proof.
  intros Ha Hb. unfold better_first, candidate_key. rewrite compare_key by done.
  destruct (score_key_shape (rc_score a)) as (a1 & a2 & a3 & ->), (score_key_shape (rc_score b)) as (b1 & b2 & b3 & ->).
  cbn. destruct (b1 ?= a1), (b2 ?= a2), (b3 ?= a3); cbn; try done.
  destruct (Z.compare_spec (rc_created_at b) (rc_created_at a)), (Z.leb_spec (rc_created_at b) (rc_created_at a)); done || lia.
Qed.

Lemma lt_key x y :
  f64_is_finite x = true → f64_is_finite y = true → f64_lt x y = true ↔ lex (score_key x) (score_key y) = Lt.
Proof. intros Hx Hy. unfold f64_lt, SFltb. rewrite compare_key by done. by destruct (lex _ _). Qed.

(** Sorting where only the rows at hand are comparable. *)
Section sorted_on.
  Context {Row : Type} (le : Row → Row → bool) (P : Row → Prop).
  Hypothesis le_total_on : ∀ x y, P x → P y → le x y = false → le y x = true.
  Hypothesis le_trans_on : ∀ x y z, P x → P y → P z → le x y = true → le y z = true → le x z = true.

Lemma insert_by_sorted_on r l :
  P r → Forall P l → StronglySorted (λ x y, le x y = true) l → StronglySorted (λ x y, le x y = true) (insert_by le r l).
Proof using le_total_on le_trans_on.
  intros Hr HP. induction 1 as [|x l Hl IH Hx]; cbn; [by repeat constructor|]. apply Forall_cons in HP as [HPx HP].
  destruct (le r x) eqn:E.
  - constructor; [by constructor|]. constructor; [done|]. rewrite Forall_forall in Hx, HP |- *.
    intros y Hy. apply (le_trans_on _ x); auto.
  - constructor; [by apply IH|]. rewrite insert_by_perm. constructor; [by apply le_total_on|done].
Qed.

Lemma order_by_sorted_on l : Forall P l → StronglySorted (λ x y, le x y = true) (order_by le l).
Proof using le_total_on le_trans_on.
  induction l as [|x l IH]; cbn; [constructor|]. intros [Hx Hl]%Forall_cons. apply insert_by_sorted_on; [done| |auto].
  by rewrite order_by_perm.
Qed.
End sorted_on.

Lemma best_first_sorted l : Forall finite_score l → StronglySorted (λ x y, better_first x y = true) (order_by better_first l).
Proof.
  apply order_by_sorted_on.
  - intros x y Hx Hy H. rewrite better_first_key by done. apply not_true_iff_false in H.
    rewrite better_first_key, lex_antisym in H by done. destruct (lex _ _); naive_solver.
  - intros x y z Hx Hy Hz. rewrite !better_first_key by done. intros H1 H2. by eapply lex_trans.
Qed.

Lemma sorted_take_drop {A} (R : A → A → Prop) n (l : list A) x y :
  StronglySorted R l → x ∈ take n l → y ∈ drop n l → R x y.
Proof.
  intros H. revert n. induction H as [|z l Hl IH Hz]; intros [|n]; cbn; rewrite ?elem_of_nil; [done..|].
  rewrite elem_of_cons. intros [->|Hx] Hy; [|by eapply IH].
  rewrite Forall_forall in Hz. apply Hz. rewrite <- (take_drop n l). apply elem_of_app. by right.
Qed.

Lemma sorted_take {A} (R : A → A → Prop) n (l : list A) : StronglySorted R l → StronglySorted R (take n l).
Proof.
  intros H. revert n. induction H as [|z l Hl IH Hz]; intros [|n]; cbn; constructor; [done|].
  apply Forall_forall. intros x Hx. rewrite Forall_forall in Hz. apply Hz. rewrite <- (take_drop n l).
  apply elem_of_app. by left.
Qed.

Lemma elem_of_drop_length {A} n (l : list A) x : x ∈ drop n l → (n < length l)%nat.
Proof. intros H. destruct (Nat.lt_ge_cases n (length l)); [done|]. rewrite drop_ge in H by done. by apply not_elem_of_nil in H. Qed.

(** No score is above a better one's. *)
Lemma better_score a b : finite_score a → finite_score b → better_first a b = true → f64_lt (rc_score a) (rc_score b) = false.
Proof.
  intros Ha Hb H. apply not_true_iff_false. rewrite lt_key by done. apply better_first_key in H; [|done..].
  unfold candidate_key in H. rewrite lex_antisym in H. intros Hlt. apply H. clear H. revert Hlt.
  destruct (score_key_shape (rc_score a)) as (a1 & a2 & a3 & ->), (score_key_shape (rc_score b)) as (b1 & b2 & b3 & ->).
  cbn. by destruct (a1 ?= b1), (a2 ?= b2), (a3 ?= b3).
Qed.

(** ** What the merge keeps *)

Section merge.
  Context `{ME : MemoryEnv}.

Definition memory_key (c : RankedMemoryCandidate) : string := normalize_memory_text_key (rc_text c).

(** A candidate that is good enough, has a text, and is not in the recent messages. *)
Definition admissible (min_score : f32) (seen : list string) (c : RankedMemoryCandidate) : Prop :=
  f64_lt (rc_score c) min_score = false ∧ memory_key c ≠ "" ∧ memory_key c ∉ seen.

Lemma not_below_trans x y z :
  f64_is_finite x = true → f64_is_finite y = true → f64_is_finite z = true →
  f64_lt x y = false → f64_lt y z = false → f64_lt x z = false.
Proof.
  intros Hx Hy Hz H1 H2. apply not_true_iff_false in H1, H2. apply not_true_iff_false.
  rewrite lt_key in * by done. rewrite lex_antisym in H1, H2 |- *. intros H3.
  apply (lex_trans (score_key z) (score_key y) (score_key x)).
  - by destruct (lex (score_key z) (score_key y)).
  - by destruct (lex (score_key y) (score_key x)).
  - by destruct (lex (score_key z) (score_key x)).
Qed.

Lemma lt_irrefl x : f64_is_finite x = true → f64_lt x x = false.
Proof.
  intros H. apply not_true_iff_false. rewrite lt_key by done. generalize (lex_antisym (score_key x) (score_key x)).
  by destruct (lex _ _).
Qed.

Lemma lt_asym x y : f64_is_finite x = true → f64_is_finite y = true → f64_lt x y = true → f64_lt y x = false.
Proof.
  intros Hx Hy. rewrite lt_key by done. intros H. apply not_true_iff_false. rewrite lt_key by done.
  by rewrite lex_antisym, H.
Qed.

(** The map after some candidates. *)
Record merged_from (min_score : f32) (seen : list string) (cands : list RankedMemoryCandidate)
    (merged : list (string * RankedMemoryCandidate)) : Prop := {
  mf_keys : NoDup (fst <$> merged);
  mf_sound p : p ∈ merged → memory_key p.2 = p.1 ∧ finite_score p.2 ∧ admissible min_score seen p.2 ∧
    ∃ c, c ∈ cands ∧ rc_text c = rc_text p.2;
  mf_complete c : c ∈ cands → admissible min_score seen c →
    ∃ p, p ∈ merged ∧ p.1 = memory_key c ∧ f64_lt (rc_score p.2) (rc_score c) = false
}.

Lemma merge_candidate_score a b :
  finite_score a → finite_score b →
  finite_score (merge_candidate a b) ∧ f64_lt (rc_score (merge_candidate a b)) (rc_score a) = false ∧
  f64_lt (rc_score (merge_candidate a b)) (rc_score b) = false.
Proof.
  intros Ha Hb. unfold finite_score, merge_candidate in *. cbn. destruct (f64_lt (rc_score a) (rc_score b)) eqn:E.
  - split_and!; [done|by apply lt_asym|by apply lt_irrefl].
  - split_and!; [done|by apply lt_irrefl|done].
Qed.

Lemma merge_candidate_text a b :
  rc_text (merge_candidate a b) = rc_text a ∨ rc_text (merge_candidate a b) = rc_text b.
Proof. unfold merge_candidate. cbn [rc_text]. destruct (Nat.ltb _ _); auto. Qed.

Lemma merged_skip min_score seen cands merged c :
  merged_from min_score seen cands merged → ¬ admissible min_score seen c → merged_from min_score seen (cands ++ [c]) merged.
Proof.
  intros [K1 K2 K3] Hn. split; [done| |].
  - intros p Hp. destruct (K2 p Hp) as (? & ? & ? & c0 & ? & ?). split_and!; [done..|]. exists c0.
    rewrite elem_of_app. auto.
  - intros c0 [Hin| ->%list_elem_of_singleton]%elem_of_app Ha; [by apply K3|done].
Qed.

Lemma merged_pair min_score seen cands merged c p :
  f64_is_finite min_score = true → finite_score c → merged_from min_score seen cands merged → p ∈ merged →
  p.1 = memory_key c →
  memory_key (merge_candidate p.2 c) = p.1 ∧ finite_score (merge_candidate p.2 c) ∧
  admissible min_score seen (merge_candidate p.2 c) ∧
  ∃ c0, c0 ∈ cands ++ [c] ∧ rc_text c0 = rc_text (merge_candidate p.2 c).
Proof.
  intros Hm Hc [_ K2 _] Hp Hpk. destruct (K2 p Hp) as (J1 & J2 & (J3 & J4 & J5) & c0 & J6 & J7).
  destruct (merge_candidate_score p.2 c J2 Hc) as (F1 & F2 & F3).
  assert (Hmk : memory_key (merge_candidate p.2 c) = p.1).
  { unfold memory_key. destruct (merge_candidate_text p.2 c) as [-> | ->]; [exact J1|by rewrite Hpk]. }
  split_and!; [done..| |].
  - split_and!; [by apply (not_below_trans _ (rc_score p.2))|by rewrite Hmk, <- J1|by rewrite Hmk, <- J1].
  - destruct (merge_candidate_text p.2 c) as [-> | ->]; [exists c0|exists c]; rewrite elem_of_app, ?list_elem_of_singleton; auto.
Qed.

Lemma merged_update min_score seen cands merged c q :
  f64_is_finite min_score = true → Forall finite_score (cands ++ [c]) → merged_from min_score seen cands merged →
  q ∈ merged → q.1 = memory_key c →
  merged_from min_score seen (cands ++ [c])
    (update_where (λ p, String.eqb p.1 (memory_key c)) (λ p, (p.1, merge_candidate p.2 c)) merged).
Proof.
  intros Hm [Hf [Hc _]%Forall_cons]%Forall_app Hmf Hq Hqk.
  pose proof (λ p, merged_pair _ _ _ _ c p Hm Hc Hmf) as Hup. destruct Hmf as [K1 K2 K3].
  pose proof (λ p Hp, merge_candidate_score p.2 c (proj1 (proj2 (K2 p Hp))) Hc) as Hsc. split.
  - replace (fst <$> update_where _ _ merged) with (fst <$> merged); [done|].
    unfold update_where. clear. induction merged as [|p l IH]; [done|]. cbn. rewrite <- IH. by destruct (String.eqb p.1 _).
  - intros p (p0 & Hp0 & ->)%elem_update_where. cbv beta. destruct (String.eqb_spec p0.1 (memory_key c)) as [e|_].
    { cbn [fst snd]. by apply Hup. }
    destruct (K2 p0 Hp0) as (? & ? & ? & c0 & ? & ?). split_and!; [done..|]. exists c0. rewrite elem_of_app. auto.
  - intros c0 Hin Ha. apply elem_of_app in Hin as [Hin| ->%list_elem_of_singleton].
    + destruct (K3 c0 Hin Ha) as (p & Hp & Hpk & Hps).
      exists (if String.eqb p.1 (memory_key c) then (p.1, merge_candidate p.2 c) else p).
      split; [apply elem_update_where; by exists p|]. destruct (String.eqb_spec p.1 (memory_key c)); [|done].
      split; [done|]. destruct (Hsc p Hp) as (F1 & F2 & _). rewrite Forall_forall in Hf.
      apply (not_below_trans _ (rc_score p.2)); try done; [by apply (K2 p Hp)|by apply Hf].
    + exists (q.1, merge_candidate q.2 c). split; [|split; [done|by apply Hsc]].
      apply elem_update_where. exists q. split; [done|]. by rewrite Hqk, String.eqb_refl.
Qed.

Lemma merged_new min_score seen cands merged c :
  finite_score c → admissible min_score seen c → merged_from min_score seen cands merged →
  existsb (λ p, String.eqb p.1 (memory_key c)) merged = false →
  merged_from min_score seen (cands ++ [c]) (merged ++ [(memory_key c, c)]).
Proof.
  intros Hc Ha [K1 K2 K3] He. split.
  - rewrite fmap_app. apply NoDup_app. split_and!; [done| |apply NoDup_singleton].
    intros k (p & -> & Hp)%list_elem_of_fmap Hk%list_elem_of_singleton. cbn in Hk.
    apply (existsb_false _ _ He) in Hp. apply String.eqb_neq in Hp. done.
  - intros p [Hp| ->%list_elem_of_singleton]%elem_of_app.
    + destruct (K2 p Hp) as (? & ? & ? & c0 & ? & ?). split_and!; [done..|]. exists c0. rewrite elem_of_app. auto.
    + split_and!; [done..|]. exists c. rewrite elem_of_app, list_elem_of_singleton. auto.
  - intros c0 [Hin| ->%list_elem_of_singleton]%elem_of_app Ha0.
    + destruct (K3 c0 Hin Ha0) as (p & Hp & ? & ?). exists p. rewrite elem_of_app. auto.
    + exists (memory_key c, c). rewrite elem_of_app, list_elem_of_singleton.
      split; [auto|]. split; [done|by apply lt_irrefl].
Qed.

Lemma merged_step min_score seen cands merged c :
  f64_is_finite min_score = true → Forall finite_score (cands ++ [c]) → merged_from min_score seen cands merged →
  merged_from min_score seen (cands ++ [c]) (add_candidate min_score seen merged c).
Proof.
  intros Hm Hf Hmf. unfold add_candidate. fold (memory_key c).
  destruct (f64_lt (rc_score c) min_score) eqn:Es.
  { apply merged_skip; [done|]. intros [H _]. congruence. }
  destruct (String.eqb_spec (memory_key c) ""); cbn [orb].
  { apply merged_skip; [done|]. by intros (_ & ? & _). }
  destruct (bool_decide_reflect (memory_key c ∈ seen)).
  { apply merged_skip; [done|]. by intros (_ & _ & ?). }
  destruct (existsb _ merged) eqn:Ee.
  - apply existsb_exists in Ee as (q & Hq%list_elem_of_In & Hqk%String.eqb_eq). by apply (merged_update _ _ _ _ _ q).
  - apply Forall_app in Hf as [_ [Hc _]%Forall_cons]. apply merged_new; [done| |done..]. unfold admissible. by split_and!.
Qed.

Lemma merged_all min_score seen cands :
  f64_is_finite min_score = true → Forall finite_score cands →
  merged_from min_score seen cands (foldl (add_candidate min_score seen) [] cands).
Proof.
  intros Hm. induction cands as [|c cands IH] using rev_ind; intros Hf.
  - split; [constructor|by intros p Hp%not_elem_of_nil|by intros c Hc%not_elem_of_nil].
  - rewrite foldl_app. cbn [foldl]. apply merged_step; [done..|]. apply IH. by apply Forall_app in Hf as [? _].
Qed.

Context `{HO : HashOrder} `{HL : !HashOrderLaw HO}.

Lemma merge_kept_sound seed recent semantic keyword max_memories min_score :
  f64_is_finite min_score = true → Forall finite_score (semantic ++ keyword) →
  let kept := kept_candidates seed recent semantic keyword max_memories min_score in
  (length kept ≤ max_memories)%nat ∧ ∀ c, c ∈ kept → ∃ c0, c0 ∈ semantic ++ keyword ∧ rc_text c0 = rc_text c.
Proof.
  intros Hm Hf kept. destruct (merged_all min_score (recent_keys recent) _ Hm Hf) as [_ K2 _]. split.
  - unfold kept, kept_candidates. rewrite length_take. lia.
  - intros c Hc. apply elem_of_take in Hc as (i & Hc & _). apply list_elem_of_lookup_2 in Hc.
    rewrite order_by_perm, hash_order_permutes in Hc. apply list_elem_of_fmap in Hc as (p & -> & Hp). by apply K2.
Qed.

(** Merging recalled texts: whatever order the hash map gives its values in, the
    memories put before the recent messages are at most the limit, best score first, with
    distinct texts that are in no recent message, each the text of a candidate and good
    enough; and every good enough candidate that is not recent has its text among them
    with a score not below its own, or the limit is reached by memories none of which
    scores below it. *)
Theorem merge_keeps_the_best seed recent semantic keyword max_memories snippet_max min_score :
  f64_is_finite min_score = true → Forall finite_score (semantic ++ keyword) →
  let kept := kept_candidates seed recent semantic keyword max_memories min_score in
  let seen := recent_keys recent in
  (max_memories ≠ 0%nat →
     merge_memory_candidates_into_context seed recent semantic keyword max_memories snippet_max min_score =
     (memory_message snippet_max <$> kept) ++ recent) ∧
  (length kept ≤ max_memories)%nat ∧ NoDup (memory_key <$> kept) ∧ StronglySorted (λ a b, better_first a b = true) kept ∧
  (∀ c, c ∈ kept → admissible min_score seen c ∧ ∃ c0, c0 ∈ semantic ++ keyword ∧ rc_text c0 = rc_text c) ∧
  (∀ c, c ∈ semantic ++ keyword → admissible min_score seen c →
     (∃ k, k ∈ kept ∧ memory_key k = memory_key c ∧ f64_lt (rc_score k) (rc_score c) = false) ∨
     (length kept = max_memories ∧ ∀ k, k ∈ kept → f64_lt (rc_score k) (rc_score c) = false)).
Proof.
  intros Hm Hf kept seen. destruct (merged_all min_score seen _ Hm Hf) as [K1 K2 K3].
  unfold kept_candidates in kept. fold seen in kept. set (merged := foldl _ _ _) in *.
  set (sorted := order_by better_first (snd <$> hash_order seed merged)) in kept.
  assert (Hperm : sorted ≡ₚ snd <$> merged) by (unfold sorted; by rewrite order_by_perm, hash_order_permutes).
  assert (Hin : ∀ c, c ∈ sorted ↔ ∃ p, p ∈ merged ∧ p.2 = c).
  { intros c. rewrite Hperm, list_elem_of_fmap. split; intros (p & H1 & H2); exists p; by split. }
  assert (Hfin : Forall finite_score sorted).
  { apply Forall_forall. intros c (p & Hp & <-)%Hin. by apply K2. }
  assert (Hsort : StronglySorted (λ a b, better_first a b = true) sorted).
  { apply best_first_sorted. unfold sorted in Hfin. by rewrite order_by_perm in Hfin. }
  assert (Hkeys : NoDup (memory_key <$> sorted)).
  { rewrite Hperm, <- list_fmap_compose. replace ((memory_key ∘ snd) <$> merged) with (fst <$> merged); [done|].
    apply list_fmap_ext. intros i p Hp. symmetry. apply K2. by eapply list_elem_of_lookup_2. }
  assert (Hsub : ∀ c, c ∈ kept → c ∈ sorted).
  { intros c Hc. rewrite <- (take_drop max_memories sorted). apply elem_of_app. by left. }
  split_and!.
  - intros H0%Nat.eqb_neq. unfold merge_memory_candidates_into_context. rewrite H0. reflexivity.
  - unfold kept. rewrite length_take. lia.
  - unfold kept. rewrite fmap_take. by apply sublist_NoDup with (memory_key <$> sorted); [|apply sublist_take].
  - by apply sorted_take.
  - intros c (p & Hp & <-)%Hsub%Hin. destruct (K2 p Hp) as (_ & _ & Ha & Hc). done.
  - intros c Hc Ha. destruct (K3 c Hc Ha) as (p & Hp & Hpk & Hps).
    assert (Hps' : p.2 ∈ sorted) by (apply Hin; by exists p).
    rewrite <- (take_drop max_memories sorted) in Hps'. apply elem_of_app in Hps' as [Hk|Hd].
    + left. exists p.2. split_and!; [done|by rewrite (proj1 (K2 p Hp))|done].
    + right. split.
      * unfold kept. rewrite length_take. apply elem_of_drop_length in Hd. lia.
      * intros k Hk. rewrite Forall_forall in Hf, Hfin. apply (not_below_trans _ (rc_score p.2)); try done.
        -- by apply Hfin, Hsub.
        -- by apply (K2 p Hp).
        -- by apply Hf.
        -- apply better_score; [by apply Hfin, Hsub|by apply (K2 p Hp)|]. 
           exact (sorted_take_drop _ max_memories sorted k p.2 Hsort Hk Hd).
Qed.

(** ** The SQLite backend *)

Context `{CLK : Clock}.

Lemma normalized_finite x : f64_is_finite (normalize_memory_score x) = true.
Proof.
  unfold normalize_memory_score. destruct (f64_is_finite x) eqn:E; [|done]. unfold f64_clamp.
  destruct (f64_lt x f64_zero); [done|]. by destruct (f64_lt (f32_of_Z 1) x).
Qed.

Lemma rank_row_sound now terms min_score row c :
  rank_row now terms min_score row = Some c → rc_text c = trim (cc_text row) ∧ finite_score c.
Proof.
  unfold rank_row. destruct (f64_le _ _); [done|]. destruct (f64_lt _ _); [done|]. intros [= <-].
  split; [done|]. apply normalized_finite.
Qed.

Lemma first_of_text_sub seen rows row : row ∈ first_of_text seen rows → row ∈ rows.
Proof.
  induction rows as [|x rows IH] in seen |- *; cbn; [done|]. rewrite elem_of_cons.
  destruct (_ || _); [by eauto|]. intros [-> |H]%elem_of_cons; [by left|right; by eapply IH].
Qed.

Lemma ranked_sound now query rows topk min_score c :
  c ∈ rank_local_keyword_candidates now query rows topk min_score →
  (∃ row, row ∈ rows ∧ rc_text c = trim (cc_text row)) ∧ finite_score c.
Proof.
  unfold rank_local_keyword_candidates. destruct (keyword_terms query) as [|t l]; [by intros ?%not_elem_of_nil|].
  intros Hc. apply elem_of_take in Hc as (i & Hc & _). apply list_elem_of_lookup_2 in Hc. rewrite order_by_perm in Hc.
  apply list_elem_of_omap in Hc as (row & Hr%first_of_text_sub & Hs). apply rank_row_sound in Hs as [Ht Hf].
  split; [by exists row|done].
Qed.

(** The chunks a user wrote or was answered in a channel. *)
Definition chunk_of_user (req : MemoryContextRequest) (s : ConvDb) (text : string) : Prop :=
  ∃ c, c ∈ db_chunks s ∧ ck_user_id c = mq_user_id req ∧ ck_channel c = mq_channel req ∧ text = trim (ck_text c).

Lemma wp_collect_keyword req topk limit min_score s :
  wp (collect_local_keyword_candidates req topk limit min_score)
     (λ r s', s' = s ∧ ∃ l, r = Ok l ∧ Forall finite_score l ∧ ∀ c, c ∈ l → chunk_of_user req s (rc_text c)) s.
Proof.
  assert (Hnone : ∃ l, @Ok (list RankedMemoryCandidate) [] = Ok l ∧ Forall finite_score l ∧
      ∀ c, c ∈ l → chunk_of_user req s (rc_text c)).
  { exists []. split_and!; [done|constructor|by intros c ?%not_elem_of_nil]. }
  unfold collect_local_keyword_candidates. destruct (_ || _); [by wp_step|].
  do 4 wp_step. cbv zeta.
  assert (Hload : ∀ from to, wp (rows ← load_chunk_candidates (mq_user_id req) (mq_channel req) from to (Nat.max limit topk);
      later ← unix_now; mret (rank_local_keyword_candidates later (mq_query_text req) rows topk min_score))
    (λ r s', s' = s ∧ ∃ l, r = Ok l ∧ Forall finite_score l ∧ ∀ c, c ∈ l → chunk_of_user req s (rc_text c)) s).
  { intros from to. wp_step. unfold load_chunk_candidates. do 6 wp_step. split; [done|]. eexists. split; [done|]. split.
    - apply Forall_forall. by intros c [_ Hc]%ranked_sound.
    - intros c [(row & Hr & ->) _]%ranked_sound. apply list_elem_of_fmap in Hr as (ck & -> & Hck).
      apply elem_of_take in Hck as (i & Hck & _). apply list_elem_of_lookup_2 in Hck. rewrite order_by_perm in Hck.
      apply list_elem_of_In, List.filter_In in Hck as [Hck%list_elem_of_In Hp]. unfold chunk_candidate in Hp.
      apply andb_prop in Hp as [[[Hu%String.eqb_eq Hc%String.eqb_eq]%andb_prop _]%andb_prop _]. by exists ck. }
  destruct (detect_temporal_day_window _ _) as [[start stop]|]; [|apply Hload].
  destruct (_ <=? _); [by wp_step|apply Hload].
Qed.

(** Safety: the context of a turn is the end of its session with at most the allowed
    memories before it, and every memory is the text of a chunk of the same user in the
    same channel: nothing of another user or channel is recalled.  Loading it never fails
    and changes nothing. *)
Theorem recall_stays_with_its_user req s :
  conv_reachable s →
  wp (sqlite_load_context req)
     (λ r s', s' = s ∧ ∃ memories,
        r = Ok ((memory_message 420 <$> memories) ++
                last_n (mq_max_recent_turns req) (session_messages (mq_session_id req) s)) ∧
        (length memories ≤ mq_max_semantic_memories req)%nat ∧
        ∀ m, m ∈ memories → ∃ c, c ∈ db_chunks s ∧ ck_user_id c = mq_user_id req ∧
          ck_channel c = mq_channel req ∧ rc_text m = trim (ck_text c)) s.
Proof.
  intros Hr%conv_reachable_inv. unfold sqlite_load_context, load_recent. do 2 wp_step.
  eapply wp_mono; [by apply wp_recent_rows|]. cbv beta. intros r s' [-> ->]. wp_step.
  replace (ms_message <$> last_n _ _) with (last_n (mq_max_recent_turns req) (session_messages (mq_session_id req) s));
    [|by unfold last_n, session_messages; rewrite <- fmap_drop, length_fmap].
  set (recent := last_n _ _).
  destruct (_ || _).
  { wp_step. split; [done|]. exists []. split_and!; [done|cbn; lia|by intros m ?%not_elem_of_nil]. }
  wp_step. eapply wp_mono; [apply wp_collect_keyword|]. cbv beta. intros r s' (-> & l & -> & Hf & Hl). wp_step.
  apply wp_tick. intros seed. wp_step. split; [done|].
  pose proof (merge_kept_sound seed recent [] l (mq_max_semantic_memories req) default_min_score
                ltac:(vm_compute; reflexivity) Hf) as [Hlen Hin].
  unfold merge_memory_candidates_into_context. destruct (Nat.eqb_spec (mq_max_semantic_memories req) 0) as [H0|H0].
  { exists []. split_and!; [done|cbn; lia|by intros m ?%not_elem_of_nil]. }
  eexists. split; [done|]. split; [exact Hlen|]. intros m Hm. destruct (Hin m Hm) as (c & Hc & <-). by apply Hl.
Qed.
End merge.
