(* ===== verification/Sidecar.v ===== *)
(** * The hybrid memory

    The backend of src/memory.rs that keeps messages in SQLite and hands every text to a
    vector store, the sidecar: a text and its place in the outbox are stored together, a
    spawned task hands it over, and the reconciler hands over what is left.  Recall asks
    the sidecar and the local chunks.  The process can stop between any two of these. *)

From S2P Require Import Prelude Text Strings Messages External MemBase Conversation Floats Recall.
From Stdlib Require Import SpecFloat.
#[local] Open Scope Z_scope.

Record SidecarMemoryDoc : Type := {
  sd_id : string;
  sd_text : string;
  sd_role : string;
  sd_session_id : string;
  sd_user_id : string;
  sd_channel : string;
  sd_created_at : Z;
  sd_importance : f32
}.

Record SidecarMemoryHit : Type := {
  sh_text : option string;
  sh_content : option string;
  sh_message : option string;
  sh_score : f32;
  sh_created_at : option Z;
  sh_timestamp : option Z;
  sh_ts : option Z
}.

Record SidecarQueryResponse : Type := {
  sq_hits : list SidecarMemoryHit;
  sq_result : option (list SidecarMemoryHit);
  sq_data : option (list SidecarMemoryHit)
}.

(** The sidecar at a moment: whether it takes a document, and the status and the decoded
    body it answers a query with on a path. *)
Class SidecarService : Type := {
  sidecar_takes : nat → SidecarMemoryDoc → res unit;
  sidecar_answers : nat → string → MemoryContextRequest → nat → res (Z * res SidecarQueryResponse)
}.

(** serde_json on documents. *)
Class DocJson : Type := {
  doc_text : SidecarMemoryDoc → res string;
  doc_parse : string → res SidecarMemoryDoc
}.

(** A document is read back as it was written. *)
Class DocJsonLaw (J : DocJson) : Prop := doc_reads_back d t : doc_text d = Ok t → doc_parse t = Ok d.

Record ZvecSidecarConfig : Type := { zc_query_topk : nat; zc_query_path : string }.

Record HybridRetrievalOptions : Type := {
  ho_keyword_enabled : bool;
  ho_keyword_topk : nat;
  ho_keyword_candidate_limit : nat;
  ho_memory_snippet_max_chars : nat;
  ho_min_score : f32
}.

Definition default_retrieval : HybridRetrievalOptions :=
  {| ho_keyword_enabled := true; ho_keyword_topk := 8; ho_keyword_candidate_limit := 256;
     ho_memory_snippet_max_chars := 420; ho_min_score := f32_lit 18 100 |}.

(** The tables, the tasks spawned and not yet done, and the documents the sidecar took. *)
Record HybridState : Type := {
  hy_conv : ConvDb;
  hy_spawned : list (string * SidecarMemoryDoc);
  hy_taken : list SidecarMemoryDoc
}.

Definition empty_hybrid : HybridState := {| hy_conv := empty_conv; hy_spawned := []; hy_taken := [] |}.

Section hybrid.
  Context `{CLK : Clock} `{ME : MemoryEnv} `{SS : SidecarService} `{DJ : DocJson}.

Abbreviation DB := (M HybridState).

Definition on_conv {A} : M ConvDb A → DB A :=
  zoom hy_conv (λ c s, {| hy_conv := c; hy_spawned := hy_spawned s; hy_taken := hy_taken s |}).

(** *** Documents *)

Definition doc_of_chunk (c : MemoryChunkRecord) : SidecarMemoryDoc :=
  {| sd_id := ck_id c; sd_text := ck_text c; sd_role := role_as_str (ck_role c); sd_session_id := ck_session_id c;
     sd_user_id := ck_user_id c; sd_channel := ck_channel c; sd_created_at := ck_created_at c;
     sd_importance := f32_lit 1 2 |}.

(** [ZvecSidecarClient::upsert]. *)
Definition sidecar_upsert (doc : SidecarMemoryDoc) : DB (res unit) :=
  n ← tick;
  match sidecar_takes n doc with
  | Ok _ =>
      s ← get_db;
      put_db {| hy_conv := hy_conv s; hy_spawned := hy_spawned s; hy_taken := hy_taken s ++ [doc] |} ;;
      mret (Ok tt)
  | Err e => mret (Err e)
  end.

Definition spawn_upsert (chunk_id : string) (doc : SidecarMemoryDoc) : DB unit :=
  s ← get_db;
  put_db {| hy_conv := hy_conv s; hy_spawned := hy_spawned s ++ [(chunk_id, doc)]; hy_taken := hy_taken s |}.

(** A document is handed over, and its outbox row settled; the errors are ignored. *)
Definition hand_over (chunk_id : string) (doc : SidecarMemoryDoc) : DB bool :=
  r ← sidecar_upsert doc;
  match r with
  | Ok _ => ignore_error (on_conv (delete_sidecar_outbox chunk_id)) ;; mret true
  | Err e => ignore_error (on_conv (bump_sidecar_outbox_attempt chunk_id e)) ;; mret false
  end.

Definition hybrid_append (req : MemoryWriteRequest) : DB unit :=
  on_conv (append (mw_session_id req) (mw_message req)) ;;
  if is_blank (content (mw_message req)) then mret tt
  else
    created_at ← unix_now;
    nanos ← now_nanos;
    let chunk := chunk_of req (stable_chunk_id req created_at nanos) created_at in
    let doc := doc_of_chunk chunk in
    doc_json ← lift_res (doc_text doc);
    on_conv (append_chunk_and_outbox chunk doc_json) ;;
    spawn_upsert (ck_id chunk) doc.

(** The task spawned by an append runs; it is the [i]-th of those that wait. *)
Definition run_spawned (i : nat) : DB unit :=
  s ← get_db;
  match hy_spawned s !! i with
  | None => mret tt
  | Some (chunk_id, doc) =>
      put_db {| hy_conv := hy_conv s; hy_spawned := delete i (hy_spawned s); hy_taken := hy_taken s |} ;;
      hand_over chunk_id doc ;;
      mret tt
  end.

(** The process stops, or stopped: what was spawned is lost. *)
Definition restart : DB unit :=
  s ← get_db;
  put_db {| hy_conv := hy_conv s; hy_spawned := []; hy_taken := hy_taken s |}.

(** The process stops after an append stored the message and before it stored the text. *)
Definition append_stopped (req : MemoryWriteRequest) : DB unit :=
  on_conv (append (mw_session_id req) (mw_message req)) ;; restart.

(** The process stops after the sidecar answered for a document - that of a task, or that of
    a row the reconciler came to - and before the row was settled. *)
Definition task_stopped (i : nat) : DB unit :=
  s ← get_db;
  match hy_spawned s !! i with
  | None => mret tt
  | Some (_, doc) => sidecar_upsert doc ;; restart
  end.

Definition row_stopped (i : nat) : DB unit :=
  s ← get_db;
  match db_outbox (hy_conv s) !! i with
  | None => mret tt
  | Some row => doc ← lift_res (doc_parse (ob_doc_json row)); sidecar_upsert doc ;; restart
  end.

Fixpoint reconcile_rows (rows : list outbox_row) (delivered : nat) : DB nat :=
  match rows with
  | [] => mret delivered
  | row :: rows' =>
      match doc_parse (ob_doc_json row) with
      | Err e =>
          ignore_error (on_conv (bump_sidecar_outbox_attempt (ob_chunk_id row) ("corrupt outbox doc: " +:+ e))) ;;
          reconcile_rows rows' delivered
      | Ok doc =>
          taken ← hand_over (ob_chunk_id row) doc;
          reconcile_rows rows' (if taken : bool then S delivered else delivered)
      end
  end.

Definition hybrid_reconcile (limit : nat) : DB nat :=
  pending ← on_conv (list_sidecar_outbox limit);
  reconcile_rows pending 0.

(** *** Recall *)

Definition resolved_text (hit : SidecarMemoryHit) : option string :=
  match sh_text hit with
  | Some t => Some t
  | None => match sh_content hit with Some t => Some t | None => sh_message hit end
  end.

Definition resolved_created_at (hit : SidecarMemoryHit) : option Z :=
  match sh_created_at hit with
  | Some t => Some t
  | None => match sh_timestamp hit with Some t => Some t | None => sh_ts hit end
  end.

Definition into_hits (r : SidecarQueryResponse) : list SidecarMemoryHit :=
  match sq_hits r with
  | _ :: _ => sq_hits r
  | [] => match sq_result r with
          | Some ((_ :: _) as hits) => hits
          | _ => default [] (sq_data r)
          end
  end.

Definition LEGACY_PATH : string := "/v1/memory/search".

(** [error_for_status]: 4xx and 5xx. *)
Definition is_error_status (status : Z) : bool := (400 <=? status) && (status <=? 599).

Definition query_text (error : string) (status : Z) (body : res SidecarQueryResponse) : res SidecarQueryResponse :=
  if is_error_status status then Err error
  else match body with Ok b => Ok b | Err _ => Err "failed to decode zvec sidecar query response" end.

(** [ZvecSidecarClient::query]. *)
Definition sidecar_query (cfg : ZvecSidecarConfig) (req : MemoryContextRequest) : DB (list SidecarMemoryHit) :=
  let topk := Nat.max (mq_max_semantic_memories req) (zc_query_topk cfg) in
  n ← tick;
  match sidecar_answers n (zc_query_path cfg) req topk with
  | Err _ => throw "failed to call zvec sidecar query"
  | Ok (status, body) =>
      if (status =? 404) && negb (String.eqb (zc_query_path cfg) LEGACY_PATH) then
        n ← tick;
        match sidecar_answers n LEGACY_PATH req topk with
        | Err _ => throw "failed to call zvec sidecar legacy search endpoint"
        | Ok (status, body) =>
            b ← lift_res (query_text "zvec sidecar legacy search returned error" status body); mret (into_hits b)
        end
      else b ← lift_res (query_text "zvec sidecar query returned error" status body); mret (into_hits b)
  end.

(** The candidates among the hits; a hit without a time was made now. *)
Fixpoint hit_candidates (query : string) (min_score : f32) (hits : list SidecarMemoryHit)
    : DB (list RankedMemoryCandidate) :=
  match hits with
  | [] => mret []
  | hit :: hits' =>
      let others := hit_candidates query min_score hits' in
      let text := trim (default "" (resolved_text hit)) in
      if String.eqb text "" then others
      else
        created_at ← match resolved_created_at hit with Some t => mret t | None => unix_now end;
        today ← unix_now;
        let score := normalize_memory_score (sh_score hit) in
        if negb (in_window (detect_temporal_day_window today query) created_at) || f64_lt score min_score then others
        else
          rest ← others;
          mret ({| rc_text := text; rc_score := score; rc_source := "vec"; rc_created_at := created_at |} :: rest)
  end.

Definition hybrid_load_context `{HO : HashOrder} (cfg : ZvecSidecarConfig) (options : HybridRetrievalOptions)
    (req : MemoryContextRequest) : DB (list StoredMessage) :=
  recent ← on_conv (load_recent (mq_session_id req) (mq_max_recent_turns req));
  if (mq_max_semantic_memories req =? 0)%nat || is_blank (mq_query_text req) then mret recent
  else
    hits ← catch (sidecar_query cfg req);
    semantic ← match hits with
               | Ok hits => hit_candidates (mq_query_text req) (ho_min_score options) hits
               | Err _ => mret []
               end;
    keyword ← (if ho_keyword_enabled options
               then catch (on_conv (collect_local_keyword_candidates req
                      (Nat.max (ho_keyword_topk options) (mq_max_semantic_memories req))
                      (ho_keyword_candidate_limit options) (ho_min_score options)))
               else mret (Ok []));
    seed ← tick;
    mret (merge_memory_candidates_into_context seed recent semantic
            (match keyword with Ok l => l | Err _ => [] end) (mq_max_semantic_memories req)
            (ho_memory_snippet_max_chars options) (ho_min_score options)).

Definition HybridSqliteZvecMemoryBackend `{HO : HashOrder} (cfg : ZvecSidecarConfig) (options : HybridRetrievalOptions)
    : MemoryBackend HybridState :=
  {| mb_append := hybrid_append;
     mb_load_context := hybrid_load_context cfg options;
     mb_load_recent_records := λ session limit, on_conv (load_recent_records session limit);
     mb_load_compaction_summary := λ session strategy hash, on_conv (load_compaction_summary session strategy hash);
     mb_upsert_compaction_summary := λ req, on_conv (upsert_compaction_summary req);
     mb_reconcile_sidecar_outbox := hybrid_reconcile |}.

(** *** Steps *)

Inductive hybrid_op : Type :=
| HyAppend (req : MemoryWriteRequest)
| HyTask (i : nat)
| HyReconcile (limit : nat)
| HyRestart
| HyAppendStopped (req : MemoryWriteRequest)
| HyTaskStopped (i : nat)
| HyRowStopped (i : nat).

Definition hybrid_exec (op : hybrid_op) : DB unit :=
  match op with
  | HyAppend req => hybrid_append req
  | HyTask i => run_spawned i
  | HyReconcile limit => unit_of (hybrid_reconcile limit)
  | HyRestart => restart
  | HyAppendStopped req => append_stopped req
  | HyTaskStopped i => task_stopped i
  | HyRowStopped i => row_stopped i
  end.

(** Steps in which no chunk is replaced: the hashes behind the ids do not collide. *)
Definition hybrid_step (s s' : HybridState) : Prop :=
  op_step hybrid_exec s s' ∧ ∀ c, c ∈ db_chunks (hy_conv s) → c ∈ db_chunks (hy_conv s').

Definition hybrid_reachable : HybridState → Prop := rtc hybrid_step empty_hybrid.
End hybrid.

(** ** Facts *)

Section facts.
  Context `{CLK : Clock} `{ME : MemoryEnv} `{SS : SidecarService} `{DJ : DocJson} `{DL : !DocJsonLaw DJ}.
  Implicit Types s : HybridState.

(** The outbox row of a chunk. *)
Definition queued (c : MemoryChunkRecord) (o : outbox_row) : Prop :=
  ob_chunk_id o = ck_id c ∧ doc_text (doc_of_chunk c) = Ok (ob_doc_json o).

Record hybrid_inv s : Prop := {
  hi_ids : NoDup (ck_id <$> db_chunks (hy_conv s));
  hi_kept c : c ∈ db_chunks (hy_conv s) →
    (∃ o, o ∈ db_outbox (hy_conv s) ∧ queued c o) ∨ doc_of_chunk c ∈ hy_taken s;
  hi_rows o : o ∈ db_outbox (hy_conv s) → ∃ c, c ∈ db_chunks (hy_conv s) ∧ queued c o;
  hi_tasks id doc : (id, doc) ∈ hy_spawned s → ∃ c, c ∈ db_chunks (hy_conv s) ∧ id = ck_id c ∧ doc = doc_of_chunk c;
  hi_taken d : d ∈ hy_taken s → ∃ c, c ∈ db_chunks (hy_conv s) ∧ d = doc_of_chunk c
}.

Lemma hybrid_inv_empty : hybrid_inv empty_hybrid.
Proof. split; cbn; [constructor|..]; intros *; by intros ?%not_elem_of_nil. Qed.

(** A failed attempt is noted in the row and changes nothing else. *)
Lemma wp_bump s id error :
  hybrid_inv s →
  wp (on_conv (bump_sidecar_outbox_attempt id error))
     (λ _ s', hybrid_inv s' ∧ db_chunks (hy_conv s') = db_chunks (hy_conv s) ∧
        ob_chunk_id <$> db_outbox (hy_conv s') = ob_chunk_id <$> db_outbox (hy_conv s)) s.
Proof.
  intros [I1 I2 I3 I4 I5]. apply wp_zoom. unfold bump_sidecar_outbox_attempt. do 5 wp_step.
  cbn [hy_conv hy_spawned hy_taken tget tset memory_sidecar_outbox db_outbox db_chunks].
  match goal with |- context [update_where _ ?g _] => set (f := g) end. set (l := db_outbox (hy_conv s)) in *.
  assert (Hf : ∀ c o, queued c (f o) ↔ queued c o) by done. split; [|split; [done|]].
  - split; cbn; [done| | |done|done].
    + intros c Hc. destruct (I2 c Hc) as [(o & Ho & Hq)|Ht]; [left|by right].
      exists (if is_outbox id o then f o else o). split; [apply elem_update_where; by exists o|].
      destruct (is_outbox id o); [by apply (Hf c o)|done].
    + intros o' (o & Ho & ->)%elem_update_where. destruct (I3 o Ho) as (c & Hc & Hq). exists c. split; [done|].
      destruct (is_outbox id o); [by apply (Hf c o)|done].
  - unfold update_where. clear. induction l as [|o l IH]; [done|]. cbn. rewrite IH. by destruct (is_outbox id o).
Qed.

(** The sidecar takes every document. *)
Definition willing : Prop := ∀ n doc, sidecar_takes n doc = Ok tt.

(** A document of a chunk is handed over. *)
Lemma wp_hand_over c s :
  hybrid_inv s → c ∈ db_chunks (hy_conv s) →
  wp (hand_over (ck_id c) (doc_of_chunk c))
     (λ r s', hybrid_inv s' ∧ db_chunks (hy_conv s') = db_chunks (hy_conv s) ∧
        ((r = Ok true ∧ db_outbox (hy_conv s') = List.filter (λ o, negb (is_outbox (ck_id c) o)) (db_outbox (hy_conv s))) ∨
         (r = Ok false ∧ ob_chunk_id <$> db_outbox (hy_conv s') = ob_chunk_id <$> db_outbox (hy_conv s) ∧ ¬ willing))) s.
Proof.
  intros Hi Hc. pose proof Hi as [I1 I2 I3 I4 I5]. unfold hand_over, sidecar_upsert. do 2 wp_step. apply wp_tick. intros n.
  destruct (sidecar_takes n _) as [[]|e] eqn:Et.
  - do 3 wp_step. apply wp_put_db. do 2 wp_step. apply wp_ignore_error, wp_zoom. unfold delete_sidecar_outbox. do 2 wp_step.
    cbn. split; [|split; [done|by left]]. split; cbn; [done| | |done|].
    + intros c0 Hc0. destruct (I2 c0 Hc0) as [(o & Ho & Hq)|Ht]; [|right; apply elem_of_app; by left].
      destruct (is_outbox (ck_id c) o) eqn:E; [right|left].
      * apply outbox_clash in E. destruct Hq as [Hq _]. rewrite E in Hq.
        assert (c0 = c) as -> by (eapply (nodup_key_inj ck_id); eauto). apply elem_of_app. right. by left.
      * exists o. split; [|done]. apply list_elem_of_In, List.filter_In. rewrite E. split; [by apply list_elem_of_In|done].
    + intros o Ho%list_elem_of_In%List.filter_In. apply I3, list_elem_of_In, Ho.
    + intros d [Hd| ->%list_elem_of_singleton]%elem_of_app; [by apply I5|by exists c].
  - do 2 wp_step. apply wp_ignore_error. eapply wp_mono; [by apply (wp_bump s)|]. cbv beta.
    intros r s' (H1 & H2 & H3). wp_step. split; [exact H1|]. split; [exact H2|]. right.
    split_and!; [done..|]. intros Hw. by rewrite Hw in Et.
Qed.

Lemma hybrid_inv_conv s conv :
  db_chunks conv = db_chunks (hy_conv s) → db_outbox conv = db_outbox (hy_conv s) → hybrid_inv s →
  hybrid_inv {| hy_conv := conv; hy_spawned := hy_spawned s; hy_taken := hy_taken s |}.
Proof. intros H1 H2 [I1 I2 I3 I4 I5]. by split; cbn; rewrite ?H1, ?H2. Qed.

(** The tasks may be any of those that wait. *)
Lemma hybrid_inv_tasks s tasks :
  (∀ t, t ∈ tasks → t ∈ hy_spawned s) → hybrid_inv s →
  hybrid_inv {| hy_conv := hy_conv s; hy_spawned := tasks; hy_taken := hy_taken s |}.
Proof. intros H [I1 I2 I3 I4 I5]. split; cbn; auto. Qed.

(** A chunk stored with its row, which replaces no other chunk. *)
Lemma hybrid_inv_stored s conv chunk row :
  hybrid_inv s → queued chunk row →
  db_chunks conv = List.filter (λ c, negb (is_chunk (ck_id chunk) c)) (db_chunks (hy_conv s)) ++ [chunk] →
  db_outbox conv = List.filter (λ o, negb (is_outbox (ck_id chunk) o)) (db_outbox (hy_conv s)) ++ [row] →
  (∀ c, c ∈ db_chunks (hy_conv s) → c ∈ db_chunks conv) →
  hybrid_inv {| hy_conv := conv; hy_spawned := hy_spawned s ++ [(ck_id chunk, doc_of_chunk chunk)]; hy_taken := hy_taken s |}.
Proof.
  intros [I1 I2 I3 I4 I5] Hq Hc Ho Hkeep.
  assert (Hnew : chunk ∈ db_chunks conv) by (rewrite Hc; apply elem_of_app; right; by left).
  split; cbn [hy_conv hy_spawned hy_taken].
  - rewrite Hc. apply (nodup_replace ck_id); [|done]. intros x. apply chunk_clash.
  - intros c. rewrite Hc. intros [Hin| ->%list_elem_of_singleton]%elem_of_app.
    + apply list_elem_of_In, List.filter_In in Hin as [Hin%list_elem_of_In Hne].
      destruct (I2 c Hin) as [(o & Hoin & Hoq)|Ht]; [left|by right]. exists o. split; [|done]. rewrite Ho.
      apply elem_of_app. left. apply list_elem_of_In, List.filter_In. split; [by apply list_elem_of_In|].
      unfold is_outbox, is_chunk in *. by destruct Hoq as [-> _].
    + left. exists row. split; [|done]. rewrite Ho. apply elem_of_app. right. by left.
  - intros o. rewrite Ho. intros [Hin| ->%list_elem_of_singleton]%elem_of_app; [|by exists chunk].
    apply list_elem_of_In, List.filter_In in Hin as [Hin%list_elem_of_In _]. destruct (I3 o Hin) as (c & ? & ?).
    exists c. auto.
  - intros id doc [Hin|Hin%list_elem_of_singleton]%elem_of_app.
    + destruct (I4 id doc Hin) as (c & ? & ?). exists c. auto.
    + injection Hin as -> ->. by exists chunk.
  - intros d Hd. destruct (I5 d Hd) as (c & ? & ?). exists c. auto.
Qed.

(** The chunks the steps may not lose. *)
Definition keeps_chunks s s' : Prop := ∀ c, c ∈ db_chunks (hy_conv s) → c ∈ db_chunks (hy_conv s').

Lemma append_inv req s : hybrid_inv s → wp (hybrid_append req) (λ _ s', keeps_chunks s s' → hybrid_inv s') s.
Proof.
  intros Hi. unfold hybrid_append, append. wp_step. apply wp_zoom. do 5 wp_step.
  cbn [tget tset messages hy_conv db_messages db_chunks db_outbox].
  set (s1 := {| hy_conv := _; hy_spawned := _; hy_taken := _ |}).
  assert (Hi1 : hybrid_inv s1) by by apply hybrid_inv_conv.
  destruct (is_blank _); [by wp_step|]. do 2 wp_step. wp_step. apply wp_now_nanos. intros nanos. cbv zeta.
  set (chunk := chunk_of _ _ _).
  do 2 wp_step. destruct (doc_text _) as [json|e] eqn:Ej; [|done]. wp_step. apply wp_zoom.
  unfold append_chunk_and_outbox. do 2 wp_step. apply wp_sql_replace. cbv beta iota. do 2 wp_step. apply wp_sql_replace.
  cbn [tget tset memory_chunks memory_sidecar_outbox hy_conv db_chunks db_outbox].
  unfold spawn_upsert. do 2 wp_step. apply wp_put_db. intros Hkeep.
  eapply (hybrid_inv_stored s1 _ chunk); [exact Hi1| |reflexivity|reflexivity|exact Hkeep]. by split.
Qed.

Lemma task_inv i s : hybrid_inv s → wp (run_spawned i) (λ _ s', hybrid_inv s') s.
Proof.
  intros Hi. unfold run_spawned. do 2 wp_step. destruct (hy_spawned s !! i) as [[id doc]|] eqn:E; [|by wp_step].
  pose proof (delete_Permutation _ _ _ E) as Hperm. apply list_elem_of_lookup_2 in E. pose proof (hi_tasks _ Hi _ _ E) as (c & Hc & -> & ->).
  wp_step. apply wp_put_db. wp_step. eapply wp_mono; [apply wp_hand_over; [|exact Hc]|].
  - apply hybrid_inv_tasks; [|done]. intros t Ht. rewrite Hperm. by right.
  - cbv beta. intros [a|e] s' (H1 & _ & H3); [by wp_step|done].
Qed.

Lemma restart_inv s : hybrid_inv s → wp restart (λ _ s', hybrid_inv s') s.
Proof.
  intros Hi. unfold restart. do 2 wp_step. apply wp_put_db. apply hybrid_inv_tasks; [|done]. by intros t ?%not_elem_of_nil.
Qed.

Lemma append_stopped_inv req s : hybrid_inv s → wp (append_stopped req) (λ _ s', hybrid_inv s') s.
Proof.
  intros Hi. unfold append_stopped, append. wp_step. apply wp_zoom. do 5 wp_step.
  eapply wp_mono; [apply restart_inv|done]. by apply hybrid_inv_conv.
Qed.

(** A document of a chunk that the sidecar took, and then the process stops. *)
Lemma taken_and_stopped c s :
  hybrid_inv s → c ∈ db_chunks (hy_conv s) →
  wp (sidecar_upsert (doc_of_chunk c) ;; restart) (λ _ s', hybrid_inv s') s.
Proof.
  intros Hi Hc. unfold sidecar_upsert. do 2 wp_step. apply wp_tick. intros n. destruct (sidecar_takes n _) as [u|e].
  - do 3 wp_step. apply wp_put_db. wp_step. eapply wp_mono; [apply restart_inv|done].
    destruct Hi as [I1 I2 I3 I4 I5]. split; cbn; [done| |done|done|].
    + intros c0 Hc0. destruct (I2 c0 Hc0) as [?|?]; [by left|right]. apply elem_of_app. by left.
    + intros d [Hd| ->%list_elem_of_singleton]%elem_of_app; [by apply I5|by exists c].
  - wp_step. eapply wp_mono; [by apply restart_inv|done].
Qed.

Lemma task_stopped_inv i s : hybrid_inv s → wp (task_stopped i) (λ _ s', hybrid_inv s') s.
Proof.
  intros Hi. unfold task_stopped. do 2 wp_step. destruct (hy_spawned s !! i) as [[id doc]|] eqn:E; [|by wp_step].
  apply list_elem_of_lookup_2 in E. destruct (hi_tasks _ Hi _ _ E) as (c & Hc & _ & ->). by apply taken_and_stopped.
Qed.

Lemma row_stopped_inv i s : hybrid_inv s → wp (row_stopped i) (λ _ s', hybrid_inv s') s.
Proof.
  intros Hi. unfold row_stopped. do 2 wp_step. destruct (db_outbox (hy_conv s) !! i) as [row|] eqn:E; [|by wp_step].
  apply list_elem_of_lookup_2 in E. destruct (hi_rows _ Hi _ E) as (c & Hc & _ & Hj).
  rewrite (doc_reads_back _ _ Hj). do 2 wp_step. by apply taken_and_stopped.
Qed.

(** The rows that are not among those handed over. *)
Definition left_over (rows outbox : list outbox_row) : list outbox_row :=
  List.filter (λ o, negb (existsb (λ x, is_outbox (ob_chunk_id x) o) rows)) outbox.

(** The rows a reconciler works on are rows of chunks, also after other rows changed. *)
Lemma wp_reconcile_rows rows delivered s :
  hybrid_inv s → (∀ o, o ∈ rows → ∃ c, c ∈ db_chunks (hy_conv s) ∧ queued c o) →
  wp (reconcile_rows rows delivered)
     (λ r s', hybrid_inv s' ∧ db_chunks (hy_conv s') = db_chunks (hy_conv s) ∧
        (willing → r = Ok (delivered + length rows)%nat ∧
           db_outbox (hy_conv s') = left_over rows (db_outbox (hy_conv s)))) s.
Proof.
  induction rows as [|o rows IH] in delivered, s |- *; intros Hi Hr; cbn [reconcile_rows].
  { wp_step. split; [done|]. split; [done|]. intros _. rewrite Nat.add_0_r. split; [done|].
    unfold left_over. cbn. generalize (db_outbox (hy_conv s)). intros l. induction l as [|x l IHl]; cbn; congruence. }
  destruct (Hr o) as (c & Hc & Hid & Hjson); [by left|]. rewrite (doc_reads_back _ _ Hjson), Hid. wp_step.
  eapply wp_mono; [by apply wp_hand_over|]. cbv beta. intros r s1 (Hi1 & Hc1 & Hcase).
  assert (Hr1 : ∀ x, x ∈ rows → ∃ c, c ∈ db_chunks (hy_conv s1) ∧ queued c x).
  { intros x Hx. rewrite Hc1. apply Hr. by right. }
  destruct Hcase as [[-> Ho]|(-> & _ & Hn)].
  - eapply wp_mono; [by apply IH|]. cbv beta. intros r s2 (Hi2 & Hc2 & Hw2). split; [done|]. split; [congruence|].
    intros Hw. destruct (Hw2 Hw) as [-> ->]. split; [cbn; f_equal; lia|]. rewrite Ho. unfold left_over. cbn [existsb].
    rewrite Hid. generalize (db_outbox (hy_conv s)). intros l. induction l as [|x l IHl]; [done|]. cbn.
    destruct (is_outbox (ck_id c) x); cbn; [done|]. by rewrite IHl.
  - eapply wp_mono; [by apply IH|]. cbv beta. intros r s2 (Hi2 & Hc2 & _). split; [done|]. split; [congruence|]. done.
Qed.

Lemma wp_list_outbox limit s :
  wp (on_conv (list_sidecar_outbox limit))
     (λ r s', s' = s ∧ r = Ok (take limit (order_by oldest_outbox_first (db_outbox (hy_conv s))))) s.
Proof.
  apply wp_zoom. unfold list_sidecar_outbox. do 3 wp_step. split; [by destruct s|]. cbn. do 3 f_equal.
  generalize (db_outbox (hy_conv s)). intros l. induction l as [|x l IHl]; cbn; congruence.
Qed.

Lemma wp_reconcile limit s :
  hybrid_inv s →
  wp (hybrid_reconcile limit)
     (λ r s', hybrid_inv s' ∧ (willing →
        let batch := take limit (order_by oldest_outbox_first (db_outbox (hy_conv s))) in
        r = Ok (length batch) ∧ db_outbox (hy_conv s') = left_over batch (db_outbox (hy_conv s)))) s.
Proof.
  intros Hi. unfold hybrid_reconcile. wp_step. eapply wp_mono; [apply wp_list_outbox|]. cbv beta. intros r s1 [-> ->].
  eapply wp_mono; [apply wp_reconcile_rows; [done|]|].
  - intros o (i & Ho & _)%elem_of_take. apply list_elem_of_lookup_2 in Ho. rewrite order_by_perm in Ho. by apply hi_rows.
  - cbv beta zeta. intros r s2 (H1 & _ & H2). done.
Qed.

Lemma hybrid_step_inv s s' : hybrid_step s s' → hybrid_inv s → hybrid_inv s'.
Proof.
  intros [(op & w & <- & <-) Hkeep] Hi. destruct op as [req|i|limit| |req|i|i]; cbn [hybrid_exec] in *.
  - by apply (append_inv req (w_db w) Hi w eq_refl).
  - by apply (task_inv i (w_db w) Hi w eq_refl).
  - rewrite unit_of_db in *. by apply (wp_reconcile limit (w_db w) Hi w eq_refl).
  - by apply (restart_inv (w_db w) Hi w eq_refl).
  - by apply (append_stopped_inv req (w_db w) Hi w eq_refl).
  - by apply (task_stopped_inv i (w_db w) Hi w eq_refl).
  - by apply (row_stopped_inv i (w_db w) Hi w eq_refl).
Qed.

Lemma hybrid_reachable_inv s : hybrid_reachable s → hybrid_inv s.
Proof.
  intros H. unfold hybrid_reachable in H. remember empty_hybrid as s0. revert Heqs0.
  assert (Hgen : ∀ a b, rtc hybrid_step a b → hybrid_inv a → hybrid_inv b).
  { intros a b Hab. induction Hab; [done|]. intros Ha. apply IHHab. by eapply hybrid_step_inv. }
  intros ->. by eapply Hgen, hybrid_inv_empty.
Qed.

(** C36: Invariant: nothing the memory stored for the sidecar is lost, whatever the
    sidecar answers, in whichever order the spawned tasks and the reconciler run, and
    wherever the process stops: every text stored has its document among those the
    sidecar took, or waits in the outbox as the text that is read back as that document;
    and the sidecar never took a document of anything else. *)
Theorem no_memory_is_lost_to_the_sidecar s :
  hybrid_reachable s →
  (∀ c, c ∈ db_chunks (hy_conv s) →
     doc_of_chunk c ∈ hy_taken s ∨
     ∃ o, o ∈ db_outbox (hy_conv s) ∧ ob_chunk_id o = ck_id c ∧ doc_parse (ob_doc_json o) = Ok (doc_of_chunk c)) ∧
  (∀ d, d ∈ hy_taken s → ∃ c, c ∈ db_chunks (hy_conv s) ∧ d = doc_of_chunk c).
Proof.
  intros Hi%hybrid_reachable_inv. split; [|apply Hi]. intros c Hc.
  destruct (hi_kept _ Hi c Hc) as [(o & Ho & Hid & Hj)|Ht]; [right|by left]. exists o. split_and!; [done..|].
  by apply doc_reads_back.
Qed.

(** C37: Liveness: once the sidecar takes documents again, a round of the reconciler hands
    over the oldest rows of the outbox, as many as its limit allows, so a round with a
    limit of the outbox's length empties it, and then the sidecar has every text the
    memory stored. *)
Theorem reconciler_catches_up limit s :
  hybrid_reachable s → (∀ n doc, sidecar_takes n doc = Ok tt) → (length (db_outbox (hy_conv s)) ≤ limit)%nat →
  wp (hybrid_reconcile limit)
     (λ r s', r = Ok (length (db_outbox (hy_conv s))) ∧ db_outbox (hy_conv s') = [] ∧
        ∀ c, c ∈ db_chunks (hy_conv s') → doc_of_chunk c ∈ hy_taken s') s.
Proof.
  intros Hi%hybrid_reachable_inv Hw Hl. eapply wp_mono; [by apply wp_reconcile|]. cbv beta zeta.
  intros r s' [Hi' H]. destruct (H Hw) as [-> Ho]. clear H.
  assert (Hlen : length (order_by oldest_outbox_first (db_outbox (hy_conv s))) = length (db_outbox (hy_conv s)))
    by by rewrite order_by_perm.
  rewrite take_ge in * by lia. assert (Hnone : db_outbox (hy_conv s') = []).
  { rewrite Ho. apply elem_of_nil_inv. intros o Hin%list_elem_of_In%List.filter_In. destruct Hin as [Hin Hf].
    apply negb_true_iff, not_true_iff_false in Hf. apply Hf, existsb_exists. exists o.
    split; [apply list_elem_of_In; rewrite order_by_perm; by apply list_elem_of_In|apply String.eqb_refl]. }
  split_and!; [by rewrite Hlen|done|]. intros c Hc. destruct (hi_kept _ Hi' c Hc) as [(o & Hin & _)|?]; [|done].
  rewrite Hnone in Hin. by apply not_elem_of_nil in Hin.
Qed.
End facts.
