(* ===== verification/ContextBudget.v ===== *)
(** * The context budget of a turn

    [apply_context_budget] of src/service.rs: which messages of a history go to the
    provider when the history is longer than the context window allows.  Token counts are
    [usize]; the score of a memory message is an [f32] read from its text. *)

From S2P Require Import Prelude Text Strings Messages MemBase Floats.
From Stdlib Require Import Ascii.
#[local] Open Scope N_scope.

(** [str::parse::<f32>]. *)
Class ParseF32 : Type := parse_f32 : string → option f64.

Definition usize_limit : N := 2 ^ 64 - 1.

(** [estimate_text_tokens] and [estimate_message_tokens]. *)
Definition estimate_text_tokens (text : string) : N := N.max ((N.of_nat (chars_count text) + 3) / 4) 1.
Definition message_tokens (msg : StoredMessage) : N := estimate_text_tokens (content msg) + 4.

Definition total_tokens (l : list StoredMessage) : N := foldr (λ m n, message_tokens m + n) 0 l.

(** [truncate_message_to_token_budget]. *)
Definition truncate_message_to_token_budget (msg : StoredMessage) (max_tokens : N) : StoredMessage :=
  if max_tokens =? 0 then {| role := role msg; content := "" |}
  else if message_tokens msg <=? max_tokens then msg
  else
    let max_chars := N.min usize_limit (max_tokens * 4) - 12 in
    let content := take_chars (N.to_nat (N.max max_chars 8)) (content msg) in
    {| role := role msg;
       content := if String.eqb content "" then "" else content +:+ " ...(truncated)" |}.

(** The text behind the first occurrence of a marker. *)
Fixpoint after_first (marker s : string) : option string :=
  if starts_with s marker then Some (String.substring (String.length marker) (String.length s) s)
  else match s with EmptyString => None | String _ s' => after_first marker s' end.

(** The text before the first of the given characters. *)
Fixpoint until_any (stops : list ascii) (s : string) : option string :=
  match s with
  | EmptyString => None
  | String a s' =>
      if existsb (Ascii.eqb a) stops then Some EmptyString else String a <$> until_any stops s'
  end.

Section budget.
  Context `{PF : ParseF32}.

Definition parse_memory_score (content : string) : option f64 :=
  tail ← after_first "[memory score=" content;
  score ← until_any [" "%char; "]"%char] tail;
  parse_f32 (trim score).

(** [b.score.partial_cmp(&a.score).unwrap_or(Equal).then(b.idx.cmp(&a.idx))] is not greater. *)
Definition candidate_le (a b : nat * f64) : bool :=
  if f64_lt a.2 b.2 then false else if f64_lt b.2 a.2 then true else (b.1 <=? a.1)%nat.

Definition memory_candidates (messages : list StoredMessage) : list (nat * f64) :=
  order_by candidate_le
    (omap id (imap (λ idx msg,
       match role msg with
       | System => (λ score, (idx, score)) <$> parse_memory_score (content msg)
       | _ => None
       end) messages)).

(** The selection so far: for each message what is sent in its place, the tokens counted,
    the recent messages kept. *)
Record selection : Type := {
  sl_chosen : list (option StoredMessage);
  sl_used : N;
  sl_kept : nat
}.

Definition chosen_at (s : selection) (idx : nat) : bool :=
  match sl_chosen s !! idx with Some (Some _) => true | _ => false end.

(** [selected[idx] = true], with [msg] in its place. *)
Definition choose (idx : nat) (msg : StoredMessage) (used : N) (kept : nat) (s : selection) : selection :=
  {| sl_chosen := <[idx := Some msg]> (sl_chosen s); sl_used := used; sl_kept := kept |}.

Definition choose_memory (messages : list StoredMessage) (memory_budget : N) (s : selection) (idx : nat) : selection :=
  match messages !! idx with
  | Some msg =>
      if memory_budget <? sl_used s + message_tokens msg then s
      else choose idx msg (sl_used s + message_tokens msg) (sl_kept s) s
  | None => s
  end.

(** The loop over the recent messages, newest first. *)
Fixpoint choose_recent (messages : list StoredMessage) (input_budget : N) (min_recent : nat) (idxs : list nat)
    (s : selection) : selection :=
  match idxs with
  | [] => s
  | idx :: idxs' =>
      let continue := choose_recent messages input_budget min_recent idxs' in
      match messages !! idx with
      | None => continue s
      | Some msg =>
          if chosen_at s idx then continue s
          else
            let tokens := message_tokens msg in
            if input_budget <? sl_used s + tokens then
              if (sl_kept s <? min_recent)%nat then
                let remain := input_budget - sl_used s in
                if 12 <? remain then
                  let truncated := truncate_message_to_token_budget msg remain in
                  let truncated_tokens := message_tokens truncated in
                  continue
                    (if 0 <? truncated_tokens
                     then choose idx truncated (N.min input_budget (sl_used s + truncated_tokens)) (S (sl_kept s)) s
                     else {| sl_chosen := sl_chosen s; sl_used := sl_used s; sl_kept := S (sl_kept s) |})
                else continue s
              else continue s
            else
              let s' := choose idx msg (sl_used s + tokens) (S (sl_kept s)) s in
              if input_budget <=? sl_used s' then s' else continue s'
      end
  end.

(** The last loop, which fills what is left. *)
Fixpoint fill (messages : list StoredMessage) (input_budget : N) (idxs : list nat) (s : selection) : selection :=
  match idxs with
  | [] => s
  | idx :: idxs' =>
      if input_budget <=? sl_used s then s
      else
        match messages !! idx with
        | None => fill messages input_budget idxs' s
        | Some msg =>
            if chosen_at s idx || (input_budget <? sl_used s + message_tokens msg)
            then fill messages input_budget idxs' s
            else fill messages input_budget idxs' (choose idx msg (sl_used s + message_tokens msg) (sl_kept s) s)
        end
  end.

Definition apply_context_budget (messages : list StoredMessage) (context_window_tokens context_reserved_tokens : N)
    (memory_budget_ratio : N) (min_recent_messages : nat) : list StoredMessage :=
  match last messages with
  | None => messages
  | Some latest =>
      if context_window_tokens =? 0 then messages
      else
        let input_budget := context_window_tokens - context_reserved_tokens in
        if input_budget =? 0 then [latest]
        else if total_tokens messages <=? input_budget then messages
        else
          let memory_budget := N.min usize_limit (input_budget * N.min memory_budget_ratio 80) / 100 in
          let newest_first := rev (seq 0 (length messages)) in
          let start := {| sl_chosen := (λ _, None) <$> messages; sl_used := 0; sl_kept := 0 |} in
          let s := foldl (choose_memory messages memory_budget) start (fst <$> memory_candidates messages) in
          let s := choose_recent messages input_budget min_recent_messages newest_first s in
          let s := fill messages input_budget newest_first s in
          match omap id (sl_chosen s) with
          | [] => [latest]
          | sent => sent
          end
  end.

(** ** Theorems *)

Lemma chars_count_take n s : (chars_count (take_chars n s) <= n)%nat.
Proof.
  induction s as [|c s IH] in n |- *; cbn; [lia|]. destruct (is_cont c) eqn:E; cbn; [rewrite E; apply IH|].
  destruct n as [|n]; cbn; [lia|]. rewrite E. specialize (IH n). lia.
Qed.

(** A truncated message is at most 5 tokens longer than asked for. *)
Lemma truncated_tokens msg remain :
  12 < remain → message_tokens (truncate_message_to_token_budget msg remain) <= remain + 5.
Proof.
  intros Hr. unfold truncate_message_to_token_budget. destruct (N.eqb_spec remain 0); [lia|].
  destruct (N.leb_spec (message_tokens msg) remain); [lia|]. cbv zeta. unfold message_tokens, estimate_text_tokens.
  set (k := N.to_nat _). cbn [content]. destruct (String.eqb _ "").
  { cbn [chars_count]. change ((N.of_nat 0 + 3) / 4) with 0. lia. }
  rewrite chars_count_app. pose proof (chars_count_take k (content msg)) as Hc.
  assert (Hn : N.of_nat k <= 4 * remain - 12) by (unfold k, usize_limit; lia).
  assert (Hl : N.of_nat (chars_count (take_chars k (content msg)) + chars_count " ...(truncated)") + 3 <= 4 * remain + 6)
    by (change (chars_count " ...(truncated)") with 15%nat; lia).
  apply (N.Div0.div_le_mono _ _ 4) in Hl. assert (Hq : (4 * remain + 6) / 4 = remain + 1).
  { rewrite N.add_comm, N.mul_comm, N.div_add by done. change (6 / 4) with 1. lia. }
  lia.
Qed.

Lemma message_tokens_pos msg : 5 <= message_tokens msg.
Proof. unfold message_tokens, estimate_text_tokens. lia. Qed.

Lemma total_tokens_insert (l : list (option StoredMessage)) idx m :
  l !! idx = Some None → total_tokens (omap id (<[idx := Some m]> l)) = message_tokens m + total_tokens (omap id l).
Proof.
  assert (Hsum : ∀ l : list (option StoredMessage), total_tokens (omap id l) =
            foldr (λ o n, if o is Some m then message_tokens m + n else n) 0 l).
  { clear. induction l as [|[m|] l IH]; [done|..]; cbn [foldr]; rewrite <- IH; done. }
  rewrite !Hsum. clear Hsum. induction l as [|o l IH] in idx |- *; [done|]. destruct idx as [|idx].
  - by intros [= ->].
  - intros H. change (<[S idx := Some m]> (o :: l)) with (o :: <[idx := Some m]> l). cbn [foldr].
    rewrite IH by done. destruct o; lia.
Qed.

Section fixed.
  Context (messages : list StoredMessage) (budget : N).

(** What may stand in a message's place. *)
Definition sent_for (m : StoredMessage) (o : option StoredMessage) : Prop :=
  o = None ∨ o = Some m ∨ ∃ remain, 12 < remain ∧ o = Some (truncate_message_to_token_budget m remain).

(** The count is exact until the budget is used up. *)
Definition within_budget (s : selection) : Prop :=
  Forall2 sent_for messages (sl_chosen s) ∧
  let total := total_tokens (omap id (sl_chosen s)) in
  (total = sl_used s ∧ sl_used s <= budget) ∨ (sl_used s = budget ∧ total <= budget + 5).

Lemma within_choose idx msg m used kept s :
  within_budget s → messages !! idx = Some msg → chosen_at s idx = false → sent_for msg (Some m) →
  total_tokens (omap id (sl_chosen s)) = sl_used s →
  (message_tokens m + sl_used s = used ∧ used <= budget) ∨
  (used = budget ∧ message_tokens m + sl_used s <= budget + 5) →
  within_budget (choose idx m used kept s).
Proof.
  intros [Hf _] Hm Hc Hs Ht Hu. unfold chosen_at in Hc.
  assert (Hnone : sl_chosen s !! idx = Some None).
  { eapply Forall2_lookup_l in Hf as (o & Ho & _); [|exact Hm]. rewrite Ho in *. by destruct o. }
  assert (Hf' : Forall2 sent_for messages (<[idx := Some m]> (sl_chosen s))).
  { rewrite <- (list_insert_id messages idx msg) by done. by apply Forall2_insert. }
  split; [done|]. cbn. rewrite (total_tokens_insert _ _ _ Hnone), Ht. lia.
Qed.

(** Nothing more fits once the budget is used up. *)
Lemma within_full s : within_budget s → sl_used s < budget → total_tokens (omap id (sl_chosen s)) = sl_used s.
Proof. intros [_ [[H _]|[H _]]]; [done|lia]. Qed.

Lemma within_add idx msg kept s :
  within_budget s → messages !! idx = Some msg → chosen_at s idx = false →
  sl_used s + message_tokens msg <= budget → within_budget (choose idx msg (sl_used s + message_tokens msg) kept s).
Proof.
  intros Hw Hm Hc Hb. pose proof (message_tokens_pos msg). eapply within_choose; try done; [by right; left|..].
  - apply within_full; [done|lia].
  - left. lia.
Qed.

Lemma within_memory limit s idx :
  limit <= budget → chosen_at s idx = false → within_budget s → within_budget (choose_memory messages limit s idx).
Proof.
  intros Hl Hc Hw. unfold choose_memory. destruct (messages !! idx) as [msg|] eqn:Hm; [|done].
  destruct (N.ltb_spec limit (sl_used s + message_tokens msg)); [done|]. apply within_add; try done. lia.
Qed.

Lemma within_recent min_recent idxs s :
  within_budget s → within_budget (choose_recent messages budget min_recent idxs s).
Proof.
  induction idxs as [|idx idxs IH] in s |- *; cbn [choose_recent]; [done|]. intros Hw. cbv zeta.
  destruct (messages !! idx) as [msg|] eqn:Hm; [|by apply IH]. destruct (chosen_at s idx) eqn:Hc; [by apply IH|].
  destruct (N.ltb_spec budget (sl_used s + message_tokens msg)) as [Hbig|Hfit].
  2:{ assert (Hw' := within_add idx msg (S (sl_kept s)) s Hw Hm Hc Hfit). destruct (_ <=? _); [done|by apply IH]. }
  destruct (_ <? _)%nat; [|by apply IH]. destruct (N.ltb_spec 12 (budget - sl_used s)) as [Hr|]; [|by apply IH].
  apply IH. pose proof (truncated_tokens msg _ Hr) as Ht.
  set (t := truncate_message_to_token_budget msg (budget - sl_used s)) in *.
  pose proof (message_tokens_pos t). destruct (N.ltb_spec 0 (message_tokens t)); [|lia].
  eapply within_choose; try done; [right; right; eauto|apply within_full; [done|lia]|]. lia.
Qed.

Lemma within_fill idxs s : within_budget s → within_budget (fill messages budget idxs s).
Proof.
  induction idxs as [|idx idxs IH] in s |- *; cbn [fill]; [done|]. intros Hw. destruct (_ <=? _); [done|].
  destruct (messages !! idx) as [msg|] eqn:Hm; [|by apply IH]. destruct (chosen_at s idx) eqn:Hc; cbn [orb]; [by apply IH|].
  destruct (N.ltb_spec budget (sl_used s + message_tokens msg)); [by apply IH|]. by apply IH, within_add.
Qed.

Lemma within_memories limit idxs s :
  limit <= budget → NoDup idxs → (∀ idx, idx ∈ idxs → chosen_at s idx = false) → within_budget s →
  within_budget (foldl (choose_memory messages limit) s idxs).
Proof.
  intros Hl. induction idxs as [|idx idxs IH] in s |- *; cbn [foldl]; [done|]. intros Hn Hc Hw.
  apply NoDup_cons in Hn as [Hnot Hn]. apply IH; [done| |apply within_memory; [done|apply Hc; left|done]].
  intros j Hj. assert (Hj' : chosen_at s j = false) by (apply Hc; by right). unfold choose_memory.
  destruct (messages !! idx); [|done]. destruct (_ <? _); [done|]. unfold chosen_at in *. cbn.
  rewrite list_lookup_insert_ne; [done|]. by intros ->.
Qed.
End fixed.

Lemma memory_candidates_nodup messages : NoDup (fst <$> memory_candidates messages).
Proof.
  unfold memory_candidates. rewrite order_by_perm.
  assert (H : ∀ (l : list StoredMessage) k (f : nat → StoredMessage → option (nat * f64)),
            (∀ i m p, f i m = Some p → p.1 = (k + i)%nat) → NoDup (fst <$> omap id (imap f l)) ∧
            ∀ j, j ∈ fst <$> omap id (imap f l) → (k <= j)%nat).
  { induction l as [|m l IH]; intros k f Hf; cbn; [split; [constructor|intros j Hj; inversion Hj]|].
    destruct (IH (S k) (f ∘ S)) as [I1 I2]; [intros i x p Hp; cbn in Hp; apply Hf in Hp; lia|].
    destruct (f 0%nat m) as [p|] eqn:Ep; cbn.
    - apply Hf in Ep. split; [constructor; [intros Hin; apply I2 in Hin; lia|done]|].
      intros j [->|Hj]%elem_of_cons; [lia|apply I2 in Hj; lia].
    - split; [done|]. intros j Hj. apply I2 in Hj. lia. }
  apply (H messages 0%nat). intros i m p. destruct (role m); try done. destruct (parse_memory_score _); [|done].
  by intros [= <-].
Qed.

(** Bounds: what is sent of a history keeps its order, each message whole or truncated,
    and within a positive context budget it counts at most five tokens more than the
    budget - the overshoot of one truncation -, unless it is the latest message alone; a
    history within the budget is sent as it is. *)
Theorem context_budget_respected messages window reserved ratio min_recent :
  reserved < window →
  let sent := apply_context_budget messages window reserved ratio min_recent in
  (∃ chosen, Forall2 sent_for messages chosen ∧ sent = omap id chosen) ∧
  (total_tokens sent <= window - reserved + 5 ∨ ∃ latest, last messages = Some latest ∧ sent = [latest]) ∧
  (total_tokens messages <= window - reserved → sent = messages).
Proof.
  intros Hw. cbv zeta. unfold apply_context_budget. set (budget := window - reserved).
  assert (Hb : budget ≠ 0) by (unfold budget; lia).
  assert (Hall : ∀ l, Forall2 sent_for l (Some <$> l) ∧ omap id (Some <$> l) = l).
  { clear. induction l as [|m l [IH1 IH2]]; [done|]. split; [constructor; [by right; left|done]|].
    cbn. f_equal. exact IH2. }
  assert (Hlatest : ∀ latest, last messages = Some latest →
            ∃ chosen, Forall2 sent_for messages chosen ∧ [latest] = omap id chosen).
  { intros latest (l & ->)%last_Some. exists (((λ _, None) <$> l) ++ [Some latest]). split.
    - apply Forall2_app; [|by constructor; [by right; left|]]. apply Forall2_fmap_r, Forall_Forall2_diag, Forall_forall.
      by left.
    - rewrite omap_app. clear. induction l; [done|]. by cbn. }
  destruct (last messages) as [latest|] eqn:El.
  2:{ apply last_None in El as ->. split_and!; [by exists []|left; cbn; lia|done]. }
  destruct (N.eqb_spec window 0); [lia|]. destruct (N.eqb_spec budget 0); [lia|].
  destruct (N.leb_spec (total_tokens messages) budget) as [Hfit|Hover].
  { split_and!; [eexists; split; [apply Hall|symmetry; apply Hall]|left; lia|done]. }
  set (start := Build_selection _ 0 0). set (mem := foldl _ _ _). set (rec := choose_recent _ _ _ _ _).
  set (s := fill _ _ _ _).
  assert (Hstart : within_budget messages budget start).
  { split; cbn.
    - apply Forall2_fmap_r, Forall_Forall2_diag, Forall_forall. by left.
    - left. split; [|lia]. clear. induction messages as [|m l IH]; [done|exact IH]. }
  assert (Hs : within_budget messages budget s).
  { apply within_fill, within_recent, within_memories; [|apply memory_candidates_nodup| |done].
    - apply N.Div0.div_le_upper_bound. pose proof (N.mul_le_mono_l (N.min ratio 80) 80 budget ltac:(lia)). lia.
    - intros idx _. unfold chosen_at. cbn. rewrite list_lookup_fmap. by destruct (messages !! idx). }
  destruct Hs as [Hf Ht]. destruct (omap id (sl_chosen s)) as [|m sent] eqn:Es.
  - split_and!; [by apply Hlatest|right; by exists latest|lia].
  - split_and!; [by exists (sl_chosen s)|left; cbn zeta in Ht; lia|lia].
Qed.
End budget.
