(* ===== verification/TimeQuery.v ===== *)
(** * Questions about the time

    src/service/time_query.rs: which messages ask for the current time, the time zone they
    name, and the answer made from the built-in tool's result. *)

From stdpp Require Import pretty.
From Stdlib Require Import Ascii.
From S2P Require Import Prelude Text Strings External.
#[local] Open Scope Z_scope.

Record TimezoneHint : Type := {
  th_timezone : string;
  th_display : string;
  th_source : string;
  th_note : option string
}.

(** [str::lines]. *)
Fixpoint lines_go (cur : string) (s : string) : list string :=
  match s with
  | EmptyString => match cur with EmptyString => [] | _ => [cur] end
  | String a s' =>
      if Ascii.eqb a (ascii_of_nat 10) then cur :: lines_go "" s'
      else if Ascii.eqb a (ascii_of_nat 13) && starts_with s' newline then
        match s' with String _ s'' => cur :: lines_go "" s'' | EmptyString => [cur] end
      else lines_go (cur +:+ String a "") s'
  end.

Definition str_lines (s : string) : list string := lines_go "" s.

(** [.iter().any(|kw| text.contains(kw))]. *)
Definition any_in (kws : list string) (text : string) : bool := existsb (λ kw, contains kw text) kws.

Definition any_in_either (kws : list string) (text lower : string) : bool :=
  existsb (λ kw, contains kw text || contains kw lower) kws.

Fixpoint original_message (ls : list string) : option string :=
  match ls with
  | [] => None
  | l :: ls' =>
      match strip_prefix "原始消息:" (trim l) with
      | Some raw => if String.eqb (trim raw) "" then original_message ls' else Some (trim raw)
      | None => original_message ls'
      end
  end.

Definition extract_primary_user_text (text : string) : string := default (trim text) (original_message (str_lines text)).

Definition time_words_en : list string :=
  ["what time"; "current time"; "time now"; "today"; "date"; "year"; "weekday"; "zodiac"; "now"].

Definition time_words_zh : list string :=
  ["几点"; "时间"; "现在"; "今天"; "日期"; "几号"; "今年"; "年份"; "星期"; "周几"; "生肖"; "蛇年"; "龙年"; "马年"; "羊年";
   "猴年"; "鸡年"; "狗年"; "猪年"; "鼠年"; "牛年"; "虎年"; "兔年"].

Definition looks_like_time_query (text : string) : bool :=
  let trimmed := trim (extract_primary_user_text text) in
  if String.eqb trimmed "" then false
  else any_in time_words_en (to_ascii_lowercase trimmed) || any_in time_words_zh trimmed.

Definition reminder_words : list string :=
  ["提醒"; "分钟后"; "小时后"; "之后"; "定时"; "闹钟"; "every "; "cron"; "remind"; "schedule"].

Definition explicit_cn : list string := ["几点"; "星期几"; "周几"; "几号"; "日期"; "哪年"; "今年"; "生肖"].

Definition explicit_en : list string :=
  ["what time"; "time is it"; "current time"; "what date"; "what day"; "weekday"; "what year"; "zodiac"].

Definition is_explicit_current_time_query (text : string) : bool :=
  let trimmed := trim (extract_primary_user_text text) in
  let lower := to_ascii_lowercase trimmed in
  if String.eqb trimmed "" || negb (looks_like_time_query trimmed) then false
  else if any_in_either reminder_words trimmed lower then false
  else if any_in explicit_cn trimmed || any_in explicit_en lower then true
  else (contains "现在" trimmed || contains "now" lower) && (contains "时间" trimmed || contains "time" lower) &&
       (contains "？" trimmed || contains "?" trimmed || ends_with trimmed "吗").

Definition hint (timezone display source : string) (note : option string) : TimezoneHint :=
  {| th_timezone := timezone; th_display := display; th_source := source; th_note := note |}.

(** The words of each zone, in the order they are tried. *)
Definition zone_words : list (list string * TimezoneHint) :=
  [(["美西"; "洛杉矶"; "pacific"; "los angeles"; "pst"; "pdt"], hint "America/Los_Angeles" "美国西部时间" "us_west" None);
   (["美东"; "纽约"; "eastern"; "new york"; "est"; "edt"], hint "America/New_York" "美国东部时间" "us_east" None);
   (["美国"; "美利坚"; "america"; "usa"; "us time"; "united states"],
    hint "America/New_York" "美国东部时间" "us_default" (Some "美国有多个时区，当前默认按美国东部时间。"));
   (["中国"; "国内"; "北京时间"; "北京"; "china"; "beijing"], hint "Asia/Shanghai" "北京时间" "china" None);
   (["日本"; "东京"; "japan"; "tokyo"; "jst"], hint "Asia/Tokyo" "日本时间" "japan" None);
   (["韩国"; "首尔"; "korea"; "seoul"; "kst"], hint "Asia/Seoul" "韩国时间" "korea" None);
   (["英国"; "伦敦"; "uk"; "britain"; "london"], hint "Europe/London" "英国时间" "uk" None)].

Definition infer_timezone_from_time_query (text : string) : option TimezoneHint :=
  let trimmed := trim (extract_primary_user_text text) in
  let lower := to_ascii_lowercase trimmed in
  if String.eqb trimmed "" then None
  else
    match List.find (λ z, any_in_either z.1 trimmed lower) zone_words with
    | Some (_, h) => Some h
    | None => if any_in ["utc"; "gmt"] lower then Some (hint "UTC" "UTC" "utc" None) else None
    end.

Definition weekday_to_chinese (weekday_en : string) : string :=
  if String.eqb weekday_en "Monday" then "一" else if String.eqb weekday_en "Tuesday" then "二"
  else if String.eqb weekday_en "Wednesday" then "三" else if String.eqb weekday_en "Thursday" then "四"
  else if String.eqb weekday_en "Friday" then "五" else if String.eqb weekday_en "Saturday" then "六"
  else if String.eqb weekday_en "Sunday" then "日" else "?".

Definition SIGNS : list string :=
  ["鼠年"; "牛年"; "虎年"; "兔年"; "龙年"; "蛇年"; "马年"; "羊年"; "猴年"; "鸡年"; "狗年"; "猪年"].

Definition zodiac_for_year (year : Z) : string :=
  if year <=? 0 then "未知生肖" else nth (Z.to_nat ((year - 4) mod 12)) SIGNS "".

(** [as i32] of an [i64]. *)
Definition as_i32 (z : Z) : Z := let m := z mod 2 ^ 32 in if m <? 2 ^ 31 then m else m - 2 ^ 32.

Section answer.
  Context `{JV : JsonValue}.

(** [Value::as_i64]. *)
Context (json_as_i64 : json → option Z).

Definition build_builtin_time_tool_arguments (timezone_hint : option TimezoneHint) : json :=
  match timezone_hint with
  | Some h => json_object [("timezone", json_string (th_timezone h))]
  | None => json_object []
  end.

Definition text_field (v : json) (key fallback : string) : string := default fallback (json_get v key ≫= json_as_str).

Definition render_fast_time_answer (query_text : string) (tool_result : json) (timezone_hint : option TimezoneHint)
    : string :=
  let query := trim (extract_primary_user_text query_text) in
  let lower := to_ascii_lowercase query in
  let local_time := text_field tool_result "local_time" "--:--:--" in
  let local_date := text_field tool_result "local_date" "----/--/--" in
  let weekday_zh := weekday_to_chinese (text_field tool_result "local_weekday" "Unknown") in
  let local_year := default 0 (json_get tool_result "local_year" ≫= json_as_i64) in
  let zodiac := zodiac_for_year (as_i32 local_year) in
  let timezone := text_field tool_result "timezone" (from_option th_timezone "local" timezone_hint) in
  let display := from_option th_display "本地时间" timezone_hint in
  let wants kws := any_in_either kws query lower in
  let wants_time := wants ["几点"; "时间"; "what time"; "time now"; "current time"] in
  let wants_date := wants ["几号"; "日期"; "today"; "date"] in
  let wants_weekday := wants ["星期"; "周几"; "weekday"; "what day"] in
  let wants_year := wants ["今年"; "年份"; "哪年"; "year"] in
  let wants_zodiac := wants ("生肖" :: "zodiac" :: ["蛇年"; "龙年"; "马年"; "羊年"; "猴年"; "鸡年"; "狗年"; "猪年"; "鼠年";
                                                  "牛年"; "虎年"; "兔年"]) in
  let parts :=
    (if wants_time || negb (wants_date || wants_weekday || wants_year || wants_zodiac)
     then ["当前" +:+ display +:+ "（" +:+ timezone +:+ "）是 " +:+ local_time] else []) ++
    (if wants_date then ["当前日期是 " +:+ local_date] else []) ++
    (if wants_weekday then ["今天是星期" +:+ weekday_zh] else []) ++
    (if wants_year || wants_zodiac then ["当前年份是 " +:+ pretty local_year +:+ " 年（" +:+ zodiac +:+ "）"] else []) in
  let parts := match parts with
               | [] => ["当前" +:+ display +:+ "（" +:+ timezone +:+ "）是 " +:+ local_date +:+ " " +:+ local_time +:+
                        "，星期" +:+ weekday_zh]
               | _ => parts
               end in
  String.concat "；" parts +:+
    match timezone_hint ≫= th_note with Some note => "。" +:+ note | None => "" end.
End answer.

(** ** Facts *)

(** The fast path answers a subset of the time queries, and never a reminder. *)
Lemma explicit_query_is_time_query text :
  is_explicit_current_time_query text = true →
  looks_like_time_query (trim (extract_primary_user_text text)) = true ∧
  any_in_either reminder_words (trim (extract_primary_user_text text))
    (to_ascii_lowercase (trim (extract_primary_user_text text))) = false.
Proof.
  unfold is_explicit_current_time_query. destruct (String.eqb _ ""); [done|].
  destruct (looks_like_time_query _); [|done]. by destruct (any_in_either reminder_words _ _).
Qed.

Lemma zodiac_turns year : 0 < year → zodiac_for_year (year + 12) = zodiac_for_year year.
Proof.
  intros H. unfold zodiac_for_year. destruct (Z.leb_spec year 0), (Z.leb_spec (year + 12) 0); try lia.
  do 2 f_equal. replace (year + 12 - 4) with (year - 4 + 1 * 12) by lia. by rewrite Z_mod_plus_full.
Qed.

Example zodiac_samples :
  zodiac_for_year 2024 = "龙年" ∧ zodiac_for_year 2025 = "蛇年" ∧ zodiac_for_year 1900 = "鼠年".
Proof. vm_compute. done. Qed.

(** The zone's words are looked for inside other words: the [est] of latest. *)
Example latest_is_eastern :
  th_source <$> infer_timezone_from_time_query "what is the latest news and current time" = Some "us_east".
Proof. vm_compute. reflexivity. Qed.

Example lines_samples :
  str_lines ("a" +:+ newline +:+ newline +:+ "b" +:+ newline) = ["a"; ""; "b"] ∧
  extract_primary_user_text ("x" +:+ newline +:+ " 原始消息: 几点了 ") = "几点了".
Proof. vm_compute. done. Qed.
