(* ===== verification/SwarmAudit.v ===== *)
(** * The audit of agent swarms

    The swarm tables of src/memory.rs: runs, the nodes of their trees, the flag of a
    reply that is still owed, and the cleanup of old runs. *)

From S2P Require Import Prelude Text MemBase.

Inductive AgentSwarmRunStatus : Type := RunRunning | RunCompleted | RunPartial | RunFailed.

#[export] Instance AgentSwarmRunStatus_eq_dec : EqDecision AgentSwarmRunStatus.
Proof. solve_decision. Defined.

Definition run_status_as_str (s : AgentSwarmRunStatus) : string :=
  match s with
  | RunRunning => "running" | RunCompleted => "completed" | RunPartial => "partial"
  | RunFailed => "failed"
  end.

Definition run_status_from_db (value : string) : AgentSwarmRunStatus :=
  if String.eqb value "completed" then RunCompleted
  else if String.eqb value "partial" then RunPartial
  else if String.eqb value "failed" then RunFailed else RunRunning.

Inductive AgentSwarmNodeState : Type := NodeRunning | NodeExited.

Definition node_state_as_str (s : AgentSwarmNodeState) : string :=
  match s with NodeRunning => "running" | NodeExited => "exited" end.

Definition node_state_from_db (value : string) : AgentSwarmNodeState :=
  if String.eqb value "exited" then NodeExited else NodeRunning.

Inductive AgentSwarmNodeExitStatus : Type :=
| ExitSuccess | ExitFailed | ExitTimeout | ExitPartial | ExitSkipped.

Definition exit_status_as_str (s : AgentSwarmNodeExitStatus) : string :=
  match s with
  | ExitSuccess => "success" | ExitFailed => "failed" | ExitTimeout => "timeout"
  | ExitPartial => "partial" | ExitSkipped => "skipped"
  end.

Definition exit_status_from_db (value : string) : AgentSwarmNodeExitStatus :=
  if String.eqb value "failed" then ExitFailed
  else if String.eqb value "timeout" then ExitTimeout
  else if String.eqb value "partial" then ExitPartial
  else if String.eqb value "skipped" then ExitSkipped else ExitSuccess.

(** A row of [agent_swarm_runs]. *)
Record swarm_run_row : Type := {
  sw_run_id : string;
  sw_channel : string;
  sw_session_id : string;
  sw_user_id : string;
  sw_root_task : string;
  sw_status : AgentSwarmRunStatus;
  sw_started_at : Z;
  sw_finished_at : option Z;
  sw_error : option string;
  sw_awaiting_reply : bool;
  sw_created_at : Z;
  sw_updated_at : Z
}.

(** [AgentSwarmRunRecord]: the row and the number of its nodes. *)
Record AgentSwarmRunRecord : Type := {
  rn_run : swarm_run_row;
  rn_agent_count : Z
}.

(** A row of [agent_swarm_nodes]. *)
Record AgentSwarmNodeRecord : Type := {
  nd_agent_id : string;
  nd_run_id : string;
  nd_channel : string;
  nd_parent_agent_id : option string;
  nd_depth : Z;
  nd_nickname : string;
  nd_role_name : string;
  nd_role_definition : string;
  nd_task : string;
  nd_state : AgentSwarmNodeState;
  nd_exit_status : option AgentSwarmNodeExitStatus;
  nd_summary : option string;
  nd_error : option string;
  nd_started_at : Z;
  nd_finished_at : option Z;
  nd_created_at : Z;
  nd_updated_at : Z
}.

Record CreateAgentSwarmRunRequest : Type := {
  cw_run_id : string;
  cw_channel : string;
  cw_session_id : string;
  cw_user_id : string;
  cw_root_task : string;
  cw_status : AgentSwarmRunStatus;
  cw_started_at : Z
}.

Record UpsertAgentSwarmNodeRequest : Type := {
  un_agent_id : string;
  un_run_id : string;
  un_channel : string;
  un_parent_agent_id : option string;
  un_depth : nat;
  un_nickname : string;
  un_role_name : string;
  un_role_definition : string;
  un_task : string;
  un_state : AgentSwarmNodeState;
  un_exit_status : option AgentSwarmNodeExitStatus;
  un_summary : option string;
  un_error : option string;
  un_started_at : Z;
  un_finished_at : option Z
}.

Record SwarmDb : Type := {
  swarm_runs : list swarm_run_row;
  swarm_nodes : list AgentSwarmNodeRecord
}.

Definition empty_swarm : SwarmDb := {| swarm_runs := []; swarm_nodes := [] |}.

Definition agent_swarm_runs : table SwarmDb swarm_run_row :=
  Table swarm_runs (λ l s, {| swarm_runs := l; swarm_nodes := swarm_nodes s |}).

Definition agent_swarm_nodes : table SwarmDb AgentSwarmNodeRecord :=
  Table swarm_nodes (λ l s, {| swarm_runs := swarm_runs s; swarm_nodes := l |}).

Section swarm.
  Context `{CLK : Clock}.

Abbreviation DB := (M SwarmDb).

Definition is_run (channel run_id : string) (r : swarm_run_row) : bool :=
  String.eqb (sw_channel r) channel && String.eqb (sw_run_id r) run_id.

Definition create_agent_swarm_run (req : CreateAgentSwarmRunRequest) : DB unit :=
  now ← unix_now;
  sql_insert agent_swarm_runs (λ r, String.eqb (sw_run_id r) (cw_run_id req))
    {| sw_run_id := cw_run_id req; sw_channel := cw_channel req;
       sw_session_id := cw_session_id req; sw_user_id := cw_user_id req;
       sw_root_task := cw_root_task req; sw_status := cw_status req;
       sw_started_at := cw_started_at req; sw_finished_at := None; sw_error := None;
       sw_awaiting_reply := false; sw_created_at := now; sw_updated_at := now |}.

(** [SET status, finished_at_unix, error, awaiting_reply, updated_at]. *)
Definition set_run (status : AgentSwarmRunStatus) (finished_at : option Z) (error : option string)
    (awaiting : bool) (now : Z) (r : swarm_run_row) : swarm_run_row :=
  {| sw_run_id := sw_run_id r; sw_channel := sw_channel r; sw_session_id := sw_session_id r;
     sw_user_id := sw_user_id r; sw_root_task := sw_root_task r; sw_status := status;
     sw_started_at := sw_started_at r; sw_finished_at := finished_at; sw_error := error;
     sw_awaiting_reply := awaiting; sw_created_at := sw_created_at r; sw_updated_at := now |}.

Definition finish_agent_swarm_run (channel run_id : string) (status : AgentSwarmRunStatus)
    (finished_at : Z) (error : option string) : DB bool :=
  now ← unix_now;
  updated ← sql_update agent_swarm_runs (is_run channel run_id)
    (λ r, set_run status (Some finished_at) error (sw_awaiting_reply r) now r);
  mret (0 <? updated)%Z.

Definition is_node (agent_id : string) (n : AgentSwarmNodeRecord) : bool :=
  String.eqb (nd_agent_id n) agent_id.

Definition upsert_agent_swarm_node (req : UpsertAgentSwarmNodeRequest) : DB unit :=
  now ← unix_now;
  let row created :=
    {| nd_agent_id := un_agent_id req; nd_run_id := un_run_id req; nd_channel := un_channel req;
       nd_parent_agent_id := un_parent_agent_id req; nd_depth := Z.of_nat (un_depth req);
       nd_nickname := un_nickname req; nd_role_name := un_role_name req;
       nd_role_definition := un_role_definition req; nd_task := un_task req;
       nd_state := un_state req; nd_exit_status := un_exit_status req;
       nd_summary := un_summary req; nd_error := un_error req;
       nd_started_at := un_started_at req; nd_finished_at := un_finished_at req;
       nd_created_at := created; nd_updated_at := now |} in
  sql_upsert agent_swarm_nodes (is_node (un_agent_id req)) (λ _, false)
    (row now) (λ n, row (nd_created_at n)).

Definition set_swarm_run_awaiting_reply (channel run_id : string) (awaiting : bool) : DB unit :=
  now ← unix_now;
  sql_update agent_swarm_runs (is_run channel run_id)
    (λ r, set_run (sw_status r) (sw_finished_at r) (sw_error r) awaiting now r) ;;
  mret tt.

(** ** Listings *)

Definition in_run (channel run_id : string) (n : AgentSwarmNodeRecord) : bool :=
  String.eqb (nd_channel n) channel && String.eqb (nd_run_id n) run_id.

Definition oldest_run_first (a b : swarm_run_row) : bool := (sw_started_at a <=? sw_started_at b)%Z.

Definition newest_run_first (a b : swarm_run_row) : bool := (sw_started_at b <=? sw_started_at a)%Z.

(** The rows with the subquery that counts the nodes. *)
Definition counted (rows : list swarm_run_row) : DB (list AgentSwarmRunRecord) :=
  s ← get_db;
  mret ((λ r, {| rn_run := r;
                 rn_agent_count := count_where (in_run (sw_channel r) (sw_run_id r)) (swarm_nodes s) |})
          <$> rows).

Definition list_running_agent_swarm_runs (limit : nat) : DB (list AgentSwarmRunRecord) :=
  rows ← sql_select agent_swarm_runs (λ r, bool_decide (sw_status r = RunRunning));
  counted (take limit (order_by oldest_run_first rows)).

Definition list_awaiting_reply_swarm_runs (limit : nat) : DB (list AgentSwarmRunRecord) :=
  rows ← sql_select agent_swarm_runs sw_awaiting_reply;
  counted (take limit (order_by oldest_run_first rows)).

Definition list_agent_swarm_runs (channel : string) (user_id : option string) (limit : nat)
    : DB (list AgentSwarmRunRecord) :=
  rows ← sql_select agent_swarm_runs
    (λ r, String.eqb (sw_channel r) channel &&
          match user_id with None => true | Some u => String.eqb (sw_user_id r) u end);
  counted (take (Nat.max limit 1) (order_by newest_run_first rows)).

(** [ORDER BY depth, started_at_unix, agent_id]. *)
Definition tree_order (a b : AgentSwarmNodeRecord) : bool :=
  if (nd_depth a =? nd_depth b)%Z then
    if (nd_started_at a =? nd_started_at b)%Z then String.leb (nd_agent_id a) (nd_agent_id b)
    else (nd_started_at a <? nd_started_at b)%Z
  else (nd_depth a <? nd_depth b)%Z.

Definition load_agent_swarm_nodes_by_run (channel run_id : string) : DB (list AgentSwarmNodeRecord) :=
  rows ← sql_select agent_swarm_nodes (in_run channel run_id);
  mret (order_by tree_order rows).

Definition load_agent_swarm_node (channel agent_id : string) : DB (option AgentSwarmNodeRecord) :=
  sql_first agent_swarm_nodes (λ n, String.eqb (nd_channel n) channel && is_node agent_id n).

Definition old_run (channel : string) (before : Z) (r : swarm_run_row) : bool :=
  String.eqb (sw_channel r) channel && (sw_started_at r <? before)%Z.

Definition cleanup_agent_swarm_audit (channel : string) (before : Z) : DB Z :=
  transaction (
    old ← sql_select agent_swarm_runs (old_run channel before);
    sql_delete agent_swarm_nodes
      (λ n, String.eqb (nd_channel n) channel &&
            existsb (λ r, String.eqb (sw_run_id r) (nd_run_id n)) old) ;;
    sql_delete agent_swarm_runs (old_run channel before) ;;
    mret (Z.of_nat (length old))).

(** ** The audit as a transition system *)

Inductive swarm_op : Type :=
| WCreate (req : CreateAgentSwarmRunRequest)
| WFinish (channel run_id : string) (status : AgentSwarmRunStatus) (finished_at : Z)
    (error : option string)
| WNode (req : UpsertAgentSwarmNodeRequest)
| WAwait (channel run_id : string) (awaiting : bool)
| WCleanup (channel : string) (before : Z).

Definition swarm_exec (op : swarm_op) : DB unit :=
  match op with
  | WCreate req => create_agent_swarm_run req
  | WFinish channel run_id status finished_at error =>
      unit_of (finish_agent_swarm_run channel run_id status finished_at error)
  | WNode req => upsert_agent_swarm_node req
  | WAwait channel run_id awaiting => set_swarm_run_awaiting_reply channel run_id awaiting
  | WCleanup channel before => unit_of (cleanup_agent_swarm_audit channel before)
  end.

(** ** Theorems *)

Record swarm_inv (s : SwarmDb) : Prop := {
  wi_runs : NoDup (sw_run_id <$> swarm_runs s);
  wi_nodes : NoDup (nd_agent_id <$> swarm_nodes s);
  wi_depths : Forall (λ n, 0 ≤ nd_depth n)%Z (swarm_nodes s)
}.

Lemma swarm_exec_inv op : stable (keeps swarm_inv) (swarm_exec op).
Proof.
  destruct op; cbn [swarm_exec].
  - unfold create_agent_swarm_run. stable_go. apply stable_sql_insert; [apply _|].
    intros s E [H1 H2 H3]. split; cbn; [|done..]. apply nodup_key_snoc; [done|].
    intros (r & Hr & Hin)%list_elem_of_fmap. pose proof (existsb_false _ _ E r Hin) as Hn.
    cbn in *. by rewrite Hr, String.eqb_refl in Hn.
  - apply stable_unit_of. unfold finish_agent_swarm_run. stable_go. apply stable_sql_update.
    intros s [H1 H2 H3]. split; [by apply (nodup_update_where sw_run_id)|done..].
  - unfold upsert_agent_swarm_node. cbv zeta. stable_go. apply stable_sql_upsert; [apply _|].
    intros s _ [H1 H2 H3]. cbn [tget tset agent_swarm_nodes].
    destruct (existsb (is_node (un_agent_id req)) (swarm_nodes s)) eqn:E; split; cbn [swarm_runs swarm_nodes]; try done.
    + rewrite fmap_update_where_on; [done|]. by intros n ->%String.eqb_eq.
    + apply Forall_forall. intros n (x & Hx & ->)%elem_update_where.
      rewrite Forall_forall in H3. destruct (is_node _ x); [cbn; lia|by apply H3].
    + apply nodup_key_snoc; [done|]. intros (r & Hr & Hin)%list_elem_of_fmap.
      pose proof (existsb_false _ _ E r Hin) as Hn. unfold is_node in Hn. cbn in Hr.
      by rewrite <- Hr, String.eqb_refl in Hn.
    + apply Forall_app. split; [done|]. constructor; [cbn; lia|done].
  - unfold set_swarm_run_awaiting_reply. stable_go. apply stable_sql_update.
    intros s [H1 H2 H3]. split; [by apply (nodup_update_where sw_run_id)|done..].
  - apply stable_unit_of. unfold cleanup_agent_swarm_audit. stable_go; apply stable_sql_delete;
      intros s [H1 H2 H3]; split; cbn; try done; try by apply nodup_key_filter.
    apply Forall_forall. intros n [Hn _]%list_elem_of_In%List.filter_In.
    rewrite Forall_forall in H3. apply H3. by apply list_elem_of_In.
Qed.

(** Cleanup forgets whole runs and nothing else: it answers with the number of runs of
    the channel that began before the given time, removes exactly those and the nodes of
    the channel that belong to them, and leaves every other run and node as it was. *)
Theorem cleanup_forgets_old_runs channel before s :
  wp (cleanup_agent_swarm_audit channel before)
     (λ r s', r = Ok (count_where (old_run channel before) (swarm_runs s)) ∧
        (∀ x, x ∈ swarm_runs s' ↔ x ∈ swarm_runs s ∧ old_run channel before x = false) ∧
        (∀ n, n ∈ swarm_nodes s' ↔ n ∈ swarm_nodes s ∧
           ¬ (nd_channel n = channel ∧ ∃ x, x ∈ swarm_runs s ∧ old_run channel before x = true ∧
                                            sw_run_id x = nd_run_id n))) s.
Proof.
  unfold cleanup_agent_swarm_audit. repeat wp_step. cbn. split_and!; [done| |].
  - intros x. by rewrite list_elem_of_In, List.filter_In, negb_true_iff, <- list_elem_of_In.
  - intros n. rewrite list_elem_of_In, List.filter_In, negb_true_iff, <- list_elem_of_In.
    rewrite <- not_true_iff_false, andb_true_iff, String.eqb_eq, existsb_exists.
    assert (Hiff : (∃ x, In x (List.filter (old_run channel before) (swarm_runs s)) ∧
        String.eqb (sw_run_id x) (nd_run_id n) = true) ↔
      (∃ x, x ∈ swarm_runs s ∧ old_run channel before x = true ∧ sw_run_id x = nd_run_id n)).
    { f_equiv. intros x. rewrite List.filter_In, String.eqb_eq, <- list_elem_of_In. tauto. }
    by rewrite Hiff.
Qed.
End swarm.

(** Every status, state and exit status is read back from its column. *)
Lemma swarm_columns_roundtrip r n e :
  run_status_from_db (run_status_as_str r) = r ∧ node_state_from_db (node_state_as_str n) = n ∧
  exit_status_from_db (exit_status_as_str e) = e.
Proof. by destruct r, n, e. Qed.
