(* ===== verification/TrajStore.v ===== *)
(** * Recorded runs and their scores

    src/harness/trajectory.rs: the record of an agent run, its deterministic score and
    the limits of its queries; and the tables of src/memory.rs that hold runs, their
    tool calls and their scorecards, with every operation on them. *)

From S2P Require Import Prelude Text External Verifier Domain MemBase Floats.

#[local] Open Scope Z_scope.

(** A [DateTime<Utc>] is its nanoseconds since the epoch. *)

(** [DateTime::from_timestamp(secs, 0)]: [None] out of chrono's range. *)
Class DateTimes : Type := from_timestamp : Z → option Z.

Definition timestamp (t : Z) : Z := t / 1000000000.

(** [(b - a).num_milliseconds()]. *)
Definition milliseconds_between (a b : Z) : Z := Z.quot (b - a) 1000000.

(** [as i64] of a [usize], and its reading back with [max(0)]. *)
Definition usize_to_i64 (n : N) : Z :=
  let z := Z.of_N n in if z <=? i64_max_z then z else z - 2 ^ 64.

Definition i64_to_usize (z : Z) : N := Z.to_N (Z.max z 0).

(** ** Exit reasons *)

Inductive TrajectoryExitReason : Type :=
| FinalAnswer | MaxIterations | ToolError | ExitTimeout | InternalError.

#[export] Instance TrajectoryExitReason_eq_dec : EqDecision TrajectoryExitReason.
Proof. solve_decision. Defined.

Definition exit_reason_as_str (e : TrajectoryExitReason) : string :=
  match e with
  | FinalAnswer => "final_answer"
  | MaxIterations => "max_iterations"
  | ToolError => "tool_error"
  | ExitTimeout => "timeout"
  | InternalError => "internal_error"
  end.

Definition exit_reason_from_db (value : string) : TrajectoryExitReason :=
  if String.eqb value "max_iterations" then MaxIterations
  else if String.eqb value "tool_error" then ToolError
  else if String.eqb value "timeout" then ExitTimeout
  else if String.eqb value "internal_error" then InternalError
  else FinalAnswer.

Definition LOW_RUN_SCORE : Z := 40.
Definition DEFAULT_TRAJECTORY_QUERY_LIMIT : nat := 100.
Definition MAX_TRAJECTORY_QUERY_LIMIT : nat := 500.

Definition clamp_trajectory_query_limit (limit : nat) : nat :=
  if (limit =? 0)%nat then DEFAULT_TRAJECTORY_QUERY_LIMIT
  else Nat.min limit MAX_TRAJECTORY_QUERY_LIMIT.

(** ** Scorecards *)

Record RunScorecard : Type := {
  sc_trajectory_id : string;
  sc_score : Z;
  sc_completion : f64;
  sc_answer_quality : f64;
  sc_tool_health : f64;
  sc_speed : f64;
  sc_tool_calls : Z;
  sc_failed_tool_calls : Z;
  sc_verification_failures : Z;
  sc_iterations : Z;
  sc_latency_ms : Z;
  sc_computed_at : Z
}.

Definition completion_of (e : TrajectoryExitReason) : f64 :=
  match e with
  | FinalAnswer => f64_of_Z 1
  | MaxIterations => f64_lit 4 10
  | ToolError | ExitTimeout => f64_lit 1 10
  | InternalError => f64_zero
  end.

Definition answer_quality_of (answered : bool) : f64 :=
  if answered then f64_of_Z 1 else f64_zero.

Definition tool_health_of (tool_calls failed : Z) : f64 :=
  if tool_calls =? 0 then f64_of_Z 1
  else f64_clamp f64_zero (f64_of_Z 1) (f64_div (f64_of_Z (tool_calls - failed)) (f64_of_Z tool_calls)).

Definition speed_of (latency_ms : Z) : f64 :=
  if latency_ms <? 10000 then f64_of_Z 1
  else if latency_ms <? 60000 then f64_lit 6 10
  else if latency_ms <? 300000 then f64_lit 3 10
  else f64_zero.

(** The composite. *)
Definition raw_score (completion answer_quality tool_health speed : f64)
    (failed verification_failures : Z) : f64 :=
  f64_sub
    (f64_sub
      (f64_add (f64_add (f64_add (f64_mul completion (f64_of_Z 60))
                                 (f64_mul answer_quality (f64_of_Z 10)))
                        (f64_mul tool_health (f64_of_Z 15)))
               (f64_mul speed (f64_of_Z 15)))
      (f64_mul (f64_of_Z (Z.min failed 5)) (f64_of_Z 4)))
    (f64_mul (f64_of_Z (Z.min verification_failures 3)) (f64_of_Z 5)).

Definition score_of (raw : f64) : Z :=
  f64_as_i64 (f64_clamp f64_zero (f64_of_Z 100) (f64_round raw)).

Section trajectory.
  Context `{ENV : LoopEnv}.

Record TrajectoryRecord : Type := {
  tj_id : string;
  tj_session_id : string;
  tj_channel : string;
  tj_user_id : string;
  tj_started_at : Z;
  tj_finished_at : option Z;
  tj_tool_calls : list ToolCallRecord;
  tj_final_answer : option string;
  tj_exit_reason : TrajectoryExitReason;
  tj_model : string;
  tj_total_tokens : option N
}.

Definition answered (a : option string) : bool :=
  match a with Some answer => negb (is_blank answer) | None => false end.

(** [call.result.get("verification_failed").and_then(as_bool).unwrap_or(false)]. *)
Definition verification_failed (c : ToolCallRecord) : bool :=
  match json_get (tc_result c) "verification_failed" with
  | Some v => default false (json_as_bool v)
  | None => false
  end.

(** [map(|call| call.iteration).max().map_or(0, |max| max.saturating_add(1)) as i64]. *)
Definition iterations_of (calls : list ToolCallRecord) : Z :=
  match calls with
  | [] => 0
  | _ => usize_to_i64 (N.min (N.of_nat (foldr Nat.max O (tc_iteration <$> calls)) + 1) (2 ^ 64 - 1))
  end.

Definition latency_of (record : TrajectoryRecord) : Z :=
  match tj_finished_at record with
  | Some finished => Z.max (milliseconds_between (tj_started_at record) finished) 0
  | None => 0
  end.

Definition compute_run_scorecard (record : TrajectoryRecord) (computed_at_unix : Z) : RunScorecard :=
  let completion := completion_of (tj_exit_reason record) in
  let answer_quality := answer_quality_of (answered (tj_final_answer record)) in
  let tool_calls := Z.of_nat (length (tj_tool_calls record)) in
  let failed := count_where (λ c, negb (tc_ok c)) (tj_tool_calls record) in
  let verification_failures := count_where verification_failed (tj_tool_calls record) in
  let tool_health := tool_health_of tool_calls failed in
  let latency_ms := latency_of record in
  let speed := speed_of latency_ms in
  {| sc_trajectory_id := tj_id record;
     sc_score := score_of (raw_score completion answer_quality tool_health speed failed
                             verification_failures);
     sc_completion := completion; sc_answer_quality := answer_quality;
     sc_tool_health := tool_health; sc_speed := speed; sc_tool_calls := tool_calls;
     sc_failed_tool_calls := failed; sc_verification_failures := verification_failures;
     sc_iterations := iterations_of (tj_tool_calls record); sc_latency_ms := latency_ms;
     sc_computed_at := computed_at_unix |}.

(** ** The tables *)

(** A row of mcp_trajectories. *)
Record trajectory_row : Type := {
  tr_id : string;
  tr_session_id : string;
  tr_channel : string;
  tr_user_id : option string;
  tr_started_at : Z;
  tr_finished_at : option Z;
  tr_final_answer : option string;
  tr_exit_reason : TrajectoryExitReason;
  tr_model : string;
  tr_total_tokens : option Z
}.

(** A row of mcp_trajectory_tool_calls; the JSON columns hold the value. *)
Record tool_call_row : Type := {
  tl_trajectory_id : string;
  tl_call_index : Z;
  tl_iteration : Z;
  tl_server : string;
  tl_tool : string;
  tl_arguments : json;
  tl_result : json;
  tl_ok : bool;
  tl_duration_ms : Z
}.

Record TrajDb : Type := {
  trajectories : list trajectory_row;
  tool_calls : list tool_call_row;
  scorecards : list RunScorecard
}.

Definition empty_traj : TrajDb := {| trajectories := []; tool_calls := []; scorecards := [] |}.

Definition mcp_trajectories : table TrajDb trajectory_row :=
  Table trajectories (λ l s, {| trajectories := l; tool_calls := tool_calls s; scorecards := scorecards s |}).

Definition mcp_trajectory_tool_calls : table TrajDb tool_call_row :=
  Table tool_calls (λ l s, {| trajectories := trajectories s; tool_calls := l; scorecards := scorecards s |}).

Definition mcp_trajectory_scorecards : table TrajDb RunScorecard :=
  Table scorecards (λ l s, {| trajectories := trajectories s; tool_calls := tool_calls s; scorecards := l |}).
End trajectory.

Section store.
  Context `{ENV : LoopEnv} `{DT : DateTimes}.

Abbreviation DB := (M TrajDb).

Definition is_trajectory (id : string) (r : trajectory_row) : bool := String.eqb (tr_id r) id.

Definition is_call_of (id : string) (c : tool_call_row) : bool := String.eqb (tl_trajectory_id c) id.

(** UNIQUE(trajectory_id, call_index). *)
Definition same_tool_call (id : string) (call_index : Z) (c : tool_call_row) : bool :=
  is_call_of id c && (tl_call_index c =? call_index).

Definition call_row (id : string) (c : ToolCallRecord) : tool_call_row :=
  {| tl_trajectory_id := id; tl_call_index := usize_to_i64 (N.of_nat (tc_call_index c));
     tl_iteration := usize_to_i64 (N.of_nat (tc_iteration c)); tl_server := tc_server c;
     tl_tool := tc_tool c; tl_arguments := tc_arguments c; tl_result := tc_result c;
     tl_ok := tc_ok c; tl_duration_ms := usize_to_i64 (tc_duration_ms c) |}.

Definition trajectory_tool_call_from_row (r : tool_call_row) : ToolCallRecord :=
  {| tc_call_index := N.to_nat (i64_to_usize (tl_call_index r)); tc_server := tl_server r;
     tc_tool := tl_tool r; tc_arguments := tl_arguments r; tc_result := tl_result r;
     tc_ok := tl_ok r; tc_duration_ms := i64_to_usize (tl_duration_ms r);
     tc_iteration := N.to_nat (i64_to_usize (tl_iteration r)) |}.

(** [trajectory_id REFERENCES mcp_trajectories(id)]; foreign keys are on. *)
Definition insert_trajectory_tool_call (trajectory_id : string) (record : ToolCallRecord) : DB unit :=
  s ← get_db;
  ensure (existsb (is_trajectory trajectory_id) (trajectories s)) "FOREIGN KEY constraint failed" ;;
  sql_insert mcp_trajectory_tool_calls
    (same_tool_call trajectory_id (usize_to_i64 (N.of_nat (tc_call_index record))))
    (call_row trajectory_id record).

Definition start_trajectory (trajectory_id session_id channel user_id model : string) : DB unit :=
  now ← unix_now;
  sql_insert mcp_trajectories (is_trajectory trajectory_id)
    {| tr_id := trajectory_id; tr_session_id := session_id; tr_channel := channel;
       tr_user_id := Some user_id; tr_started_at := now; tr_finished_at := None;
       tr_final_answer := None; tr_exit_reason := FinalAnswer; tr_model := model;
       tr_total_tokens := None |}.

(** ** Reading a run *)

Definition call_order (a b : tool_call_row) : bool := tl_call_index a <=? tl_call_index b.

Definition load_trajectory_tool_calls (trajectory_id : string) : DB (list ToolCallRecord) :=
  rows ← sql_select mcp_trajectory_tool_calls (is_call_of trajectory_id);
  mret (trajectory_tool_call_from_row <$> order_by call_order rows).

Definition trajectory_from_row (r : trajectory_row) (started : Z) (calls : list ToolCallRecord)
    : TrajectoryRecord :=
  {| tj_id := tr_id r; tj_session_id := tr_session_id r; tj_channel := tr_channel r;
     tj_user_id := default "" (tr_user_id r); tj_started_at := started;
     tj_finished_at := tr_finished_at r ≫= from_timestamp; tj_tool_calls := calls;
     tj_final_answer := tr_final_answer r; tj_exit_reason := tr_exit_reason r;
     tj_model := tr_model r;
     tj_total_tokens := (λ v, Z.to_N (v mod 2 ^ 64)) <$> tr_total_tokens r |}.

(** [DateTime::from_timestamp(started_at, 0).unwrap_or_else(Utc::now)]. *)
Definition started_of (secs : Z) : DB Z :=
  match from_timestamp secs with Some t => mret t | None => now_nanos end.

Definition get_trajectory (trajectory_id : string) : DB (option TrajectoryRecord) :=
  row ← sql_first mcp_trajectories (is_trajectory trajectory_id);
  match row with
  | None => mret None
  | Some r =>
      calls ← load_trajectory_tool_calls (tr_id r);
      started ← started_of (tr_started_at r);
      mret (Some (trajectory_from_row r started calls))
  end.

(** ** Finishing a run *)

Definition is_scorecard (id : string) (c : RunScorecard) : bool := String.eqb (sc_trajectory_id c) id.

(** [trajectory_id REFERENCES mcp_trajectories(id)]. *)
Definition upsert_run_scorecard (scorecard : RunScorecard) : DB unit :=
  s ← get_db;
  ensure (existsb (is_trajectory (sc_trajectory_id scorecard)) (trajectories s))
    "FOREIGN KEY constraint failed" ;;
  sql_upsert mcp_trajectory_scorecards (is_scorecard (sc_trajectory_id scorecard)) (λ _, false)
    scorecard (λ _, scorecard).

Definition close_trajectory (now : Z) (final_answer : option string)
    (exit_reason : TrajectoryExitReason) (r : trajectory_row) : trajectory_row :=
  {| tr_id := tr_id r; tr_session_id := tr_session_id r; tr_channel := tr_channel r;
     tr_user_id := tr_user_id r; tr_started_at := tr_started_at r; tr_finished_at := Some now;
     tr_final_answer := final_answer; tr_exit_reason := exit_reason; tr_model := tr_model r;
     tr_total_tokens := tr_total_tokens r |}.

Definition finish_trajectory (trajectory_id : string) (final_answer : option string)
    (exit_reason : TrajectoryExitReason) : DB unit :=
  now ← unix_now;
  sql_update mcp_trajectories (is_trajectory trajectory_id)
    (close_trajectory now final_answer exit_reason) ;;
  record ← get_trajectory trajectory_id;
  match record with
  | Some record =>
      ts ← unix_now;
      upsert_run_scorecard (compute_run_scorecard record ts)
  | None => mret tt
  end.

(** [finished_at.map(|f| f.timestamp()).unwrap_or_else(unix_ts)]. *)
Definition finished_or_now (record : TrajectoryRecord) : DB Z :=
  match tj_finished_at record with Some f => mret (timestamp f) | None => unix_now end.

Definition newest_finished_first (a b : trajectory_row) : bool :=
  default 0 (tr_finished_at b) <=? default 0 (tr_finished_at a).

Definition lacks_scorecard (s : TrajDb) (r : trajectory_row) : bool :=
  match tr_finished_at r with Some _ => true | None => false end &&
  negb (existsb (is_scorecard (tr_id r)) (scorecards s)).

Fixpoint fill_scorecards (ids : list string) (filled : nat) : DB nat :=
  match ids with
  | [] => mret filled
  | trajectory_id :: ids' =>
      record ← get_trajectory trajectory_id;
      match record with
      | Some record =>
          finished ← finished_or_now record;
          upsert_run_scorecard (compute_run_scorecard record finished) ;;
          fill_scorecards ids' (S filled)
      | None => fill_scorecards ids' filled
      end
  end.

Definition backfill_run_scorecards (limit : nat) : DB nat :=
  s ← get_db;
  rows ← sql_select mcp_trajectories (lacks_scorecard s);
  fill_scorecards (tr_id <$> take limit (order_by newest_finished_first rows)) 0.

Definition get_run_scorecard (trajectory_id : string) : DB (option RunScorecard) :=
  row ← sql_first mcp_trajectory_scorecards (is_scorecard trajectory_id);
  match row with
  | Some card => mret (Some card)
  | None =>
      record ← get_trajectory trajectory_id;
      match record with
      | None => mret None
      | Some record =>
          match tj_finished_at record with
          | None => mret None
          | Some _ =>
              computed ← finished_or_now record;
              let scorecard := compute_run_scorecard record computed in
              upsert_run_scorecard scorecard ;;
              mret (Some scorecard)
          end
      end
  end.
End store.

(** * Queries over recorded runs

    The rest of the run tables of src/memory.rs: the filtered listings of runs and of
    scorecards, the summary of a time window, the search for the run a user's feedback is
    about, and the import of a finished run. *)

#[local] Open Scope Z_scope.

Record RunScorecardFilter : Type := {
  rf_channel : option string;
  rf_model : option string;
  rf_since : option Z;
  rf_until : option Z;
  rf_min_score : option Z;
  rf_max_score : option Z;
  rf_ascending : bool;
  rf_limit : nat
}.

Record ScorecardSummary : Type := {
  su_window_start : Z;
  su_window_end : Z;
  su_run_count : Z;
  su_mean_score : option f64;
  su_low_count : Z;
  su_mid_count : Z;
  su_high_count : Z;
  su_failed_tool_calls : Z;
  su_verification_failures : Z;
  su_exit_reasons : gmap string Z
}.

Record TrajectoryFilter : Type := {
  tf_session_id : option string;
  tf_channel : option string;
  tf_user_id : option string;
  tf_exit_reason : option TrajectoryExitReason;
  tf_has_tool_errors : option bool;
  tf_limit : nat
}.

(** A condition that is only added when the filter has a value. *)
Definition given {A} (o : option A) (p : A → bool) : bool :=
  match o with Some a => p a | None => true end.

(** SQL comparisons with NULL are not true. *)
Definition known {A} (o : option A) (p : A → bool) : bool :=
  match o with Some a => p a | None => false end.

Section query.
  Context `{ENV : LoopEnv} `{DT : DateTimes}.

Abbreviation DB := (M TrajDb).

(** ** Scorecards *)

Definition scored (s : TrajDb) : list (RunScorecard * trajectory_row) :=
  flat_map (λ c, (pair c) <$> List.filter (is_trajectory (sc_trajectory_id c)) (trajectories s))
    (scorecards s).

Definition score_matches (f : RunScorecardFilter) (p : RunScorecard * trajectory_row) : bool :=
  let '(c, t) := p in
  given (rf_channel f) (String.eqb (tr_channel t)) &&
  given (rf_model f) (String.eqb (tr_model t)) &&
  given (rf_since f) (λ since, known (tr_finished_at t) (λ z, since <=? z)) &&
  given (rf_until f) (λ until, known (tr_finished_at t) (λ z, z <? until)) &&
  given (rf_min_score f) (λ m, m <=? sc_score c) &&
  given (rf_max_score f) (λ m, sc_score c <=? m).

(** [ORDER BY t.finished_at, s.trajectory_id]; NULL comes before every integer. *)
Definition finished_le (a b : option Z) : bool :=
  match a, b with None, _ => true | Some _, None => false | Some x, Some y => x <=? y end.

Definition earlier_scored (a b : RunScorecard * trajectory_row) : bool :=
  if bool_decide (tr_finished_at a.2 = tr_finished_at b.2) then
    String.leb (sc_trajectory_id a.1) (sc_trajectory_id b.1)
  else finished_le (tr_finished_at a.2) (tr_finished_at b.2).

Definition later_scored (a b : RunScorecard * trajectory_row) : bool := earlier_scored b a.

Definition query_run_scorecards (filter : RunScorecardFilter) : DB (list RunScorecard) :=
  s ← get_db;
  let rows := List.filter (score_matches filter) (scored s) in
  let sorted := order_by (if rf_ascending filter then earlier_scored else later_scored) rows in
  mret (take (clamp_trajectory_query_limit (rf_limit filter)) sorted).*1.

Definition count_exit (m : gmap string Z) (reason : string) : gmap string Z :=
  <[reason := default 0 (m !! reason) + 1]> m.

(** One row of the loop of [run_scorecard_summary]. *)
Definition add_run (acc : ScorecardSummary * f64) (row : RunScorecard * trajectory_row)
    : ScorecardSummary * f64 :=
  let '(u, total) := acc in
  let '(c, t) := row in
  let score := sc_score c in
  let low := (0 <=? score) && (score <=? 49) in
  let mid := (50 <=? score) && (score <=? 79) in
  ({| su_window_start := su_window_start u; su_window_end := su_window_end u;
      su_run_count := su_run_count u; su_mean_score := su_mean_score u;
      su_low_count := su_low_count u + (if low then 1 else 0);
      su_mid_count := su_mid_count u + (if mid then 1 else 0);
      su_high_count := su_high_count u + (if low || mid then 0 else 1);
      su_failed_tool_calls := su_failed_tool_calls u + sc_failed_tool_calls c;
      su_verification_failures := su_verification_failures u + sc_verification_failures c;
      su_exit_reasons := count_exit (su_exit_reasons u) (exit_reason_as_str (tr_exit_reason t)) |},
   f64_add total (f64_of_Z score)).

Definition set_mean (u : ScorecardSummary) (total : f64) : ScorecardSummary :=
  {| su_window_start := su_window_start u; su_window_end := su_window_end u;
     su_run_count := su_run_count u;
     su_mean_score := if 0 <? su_run_count u then Some (f64_div total (f64_of_Z (su_run_count u)))
                      else su_mean_score u;
     su_low_count := su_low_count u; su_mid_count := su_mid_count u;
     su_high_count := su_high_count u; su_failed_tool_calls := su_failed_tool_calls u;
     su_verification_failures := su_verification_failures u;
     su_exit_reasons := su_exit_reasons u |}.

Definition in_window (since_unix until_unix : Z) (p : RunScorecard * trajectory_row) : bool :=
  known (tr_finished_at p.2) (λ z, (since_unix <=? z) && (z <? until_unix)).

Definition run_scorecard_summary (since_unix until_unix : Z) : DB ScorecardSummary :=
  backfill_run_scorecards 512 ;;
  s ← get_db;
  let rows := List.filter (in_window since_unix until_unix) (scored s) in
  let start := {| su_window_start := since_unix; su_window_end := until_unix;
                  su_run_count := Z.of_nat (length rows); su_mean_score := None;
                  su_low_count := 0; su_mid_count := 0; su_high_count := 0;
                  su_failed_tool_calls := 0; su_verification_failures := 0;
                  su_exit_reasons := ∅ |} in
  let '(summary, total) := foldl add_run (start, f64_zero) rows in
  mret (set_mean summary total).

(** ** The run that feedback is about *)

(** [ORDER BY finished_at DESC, id DESC]. *)
Definition latest_run_first (a b : trajectory_row) : bool :=
  if bool_decide (tr_finished_at a = tr_finished_at b) then String.leb (tr_id b) (tr_id a)
  else finished_le (tr_finished_at b) (tr_finished_at a).

(** [LIMIT 1] of the rows that satisfy [p]. *)
Definition latest_where (p : trajectory_row → bool) : DB (option TrajectoryRecord) :=
  rows ← sql_select mcp_trajectories p;
  match head (order_by latest_run_first rows) with
  | None => mret None
  | Some r => get_trajectory (tr_id r)
  end.

Definition latest_finished_trajectory (session_prefix : string) (min_finished_unix : Z)
    : DB (option TrajectoryRecord) :=
  let escaped := escape_like session_prefix in
  latest_where (λ r, sql_like (tr_session_id r) (escaped +:+ "%") &&
                     known (tr_finished_at r) (λ z, min_finished_unix <=? z)).

Definition latest_finished_trajectory_before (session_id : string) (before_unix : Z)
    : DB (option TrajectoryRecord) :=
  latest_where (λ r, String.eqb (tr_session_id r) session_id &&
                     known (tr_finished_at r) (λ z, z <=? before_unix)).

(** ** Import of a finished run *)

Definition imported_row (record : TrajectoryRecord) : trajectory_row :=
  {| tr_id := tj_id record; tr_session_id := tj_session_id record;
     tr_channel := tj_channel record; tr_user_id := Some (tj_user_id record);
     tr_started_at := timestamp (tj_started_at record);
     tr_finished_at := timestamp <$> tj_finished_at record;
     tr_final_answer := tj_final_answer record; tr_exit_reason := tj_exit_reason record;
     tr_model := tj_model record; tr_total_tokens := usize_to_i64 <$> tj_total_tokens record |}.

Definition record_finished_trajectory (record : TrajectoryRecord) : DB unit :=
  transaction (
    sql_upsert mcp_trajectories (is_trajectory (tj_id record)) (λ _, false)
      (imported_row record) (λ _, imported_row record) ;;
    sql_delete mcp_trajectory_tool_calls (is_call_of (tj_id record)) ;;
    foreach (tj_tool_calls record) (λ call,
      sql_insert mcp_trajectory_tool_calls
        (same_tool_call (tj_id record) (usize_to_i64 (N.of_nat (tc_call_index call))))
        (call_row (tj_id record) call))) ;;
  match tj_finished_at record with
  | Some finished => upsert_run_scorecard (compute_run_scorecard record (timestamp finished))
  | None => mret tt
  end.

(** ** Listing runs *)

Definition run_matches (s : TrajDb) (f : TrajectoryFilter) (r : trajectory_row) : bool :=
  given (tf_session_id f) (String.eqb (tr_session_id r)) &&
  given (tf_channel f) (String.eqb (tr_channel r)) &&
  given (tf_user_id f) (λ u, known (tr_user_id r) (String.eqb u)) &&
  given (tf_exit_reason f) (λ e, bool_decide (tr_exit_reason r = e)) &&
  given (tf_has_tool_errors f) (λ b,
    Bool.eqb b (existsb (λ c, is_call_of (tr_id r) c && negb (tl_ok c)) (tool_calls s))).

Definition newest_started_first (a b : trajectory_row) : bool :=
  if tr_started_at a =? tr_started_at b then String.leb (tr_id b) (tr_id a)
  else tr_started_at b <=? tr_started_at a.

Definition batch_order (a b : tool_call_row) : bool :=
  if String.eqb (tl_trajectory_id a) (tl_trajectory_id b) then call_order a b
  else String.leb (tl_trajectory_id a) (tl_trajectory_id b).

(** The map of the tool calls of several runs. *)
Definition load_trajectory_tool_calls_for_ids (trajectory_ids : list string)
    : DB (gmap string (list ToolCallRecord)) :=
  match trajectory_ids with
  | [] => mret ∅
  | _ =>
      rows ← sql_select mcp_trajectory_tool_calls
        (λ c, existsb (String.eqb (tl_trajectory_id c)) trajectory_ids);
      mret (foldl (λ m c, <[tl_trajectory_id c :=
                default [] (m !! tl_trajectory_id c) ++ [trajectory_tool_call_from_row c]]> m)
             ∅ (order_by batch_order rows))
  end.

Fixpoint collect_runs (rows : list trajectory_row) (calls : gmap string (list ToolCallRecord))
    : DB (list TrajectoryRecord) :=
  match rows with
  | [] => mret []
  | r :: rows' =>
      started ← started_of (tr_started_at r);
      rest ← collect_runs rows' (delete (tr_id r) calls);
      mret (trajectory_from_row r started (default [] (calls !! tr_id r)) :: rest)
  end.

Definition query_trajectories (filter : TrajectoryFilter) : DB (list TrajectoryRecord) :=
  s ← get_db;
  rows ← sql_select mcp_trajectories (run_matches s filter);
  let rows := take (clamp_trajectory_query_limit (tf_limit filter)) (order_by newest_started_first rows) in
  calls ← load_trajectory_tool_calls_for_ids (tr_id <$> rows);
  collect_runs rows calls.
End query.
