(* ===== verification/TrajFacts.v ===== *)
(** * Facts about recorded runs

    The score is the documented formula; the tables of runs agree with each other; what
    is logged is read back; the batch reader agrees with the single one. *)

From S2P Require Import Prelude Text External Verifier Domain MemBase Floats TrajStore.
#[local] Open Scope Z_scope.

(** ** The score *)

(** The documented composite over exact numbers, times [20 * n] with [n] the number of
    tool calls (1 when there are none, all of them healthy). *)
Definition completion_tenths (e : TrajectoryExitReason) : Z :=
  match e with FinalAnswer => 10 | MaxIterations => 4 | ToolError | ExitTimeout => 1 | InternalError => 0 end.

Definition speed_tenths (latency_ms : Z) : Z :=
  if latency_ms <? 10000 then 10 else if latency_ms <? 60000 then 6
  else if latency_ms <? 300000 then 3 else 0.

Definition contract_score (completion : Z) (answer : bool) (tool_calls failed verification speed : Z) : Z :=
  let n := if tool_calls =? 0 then 1 else tool_calls in
  let healthy := if tool_calls =? 0 then 1 else tool_calls - failed in
  let twentyn := 20 * n in
  let raw := 2 * n * (60 * completion) + (if answer then 200 * n else 0) + 300 * healthy
             + 2 * n * (15 * speed) - twentyn * (4 * Z.min failed 5) - twentyn * (5 * Z.min verification 3) in
  Z.max 0 (Z.min 100 ((2 * raw + twentyn) / (2 * twentyn))).

Definition upto (n : nat) : list Z := Z.of_nat <$> seq 0 n.

Definition exits : list TrajectoryExitReason := [FinalAnswer; MaxIterations; ToolError; InternalError].

(** What each part of the score adds, computed once. *)
Definition base_parts : list (f64 * Z * bool) :=
  flat_map (λ e, (λ a : bool, (f64_add (f64_mul (completion_of e) (f64_of_Z 60))
      (f64_mul (answer_quality_of a) (f64_of_Z 10)), completion_tenths e, a)) <$> [true; false]) exits.

Definition health_part (n f : Z) : f64 := f64_mul (tool_health_of n f) (f64_of_Z 15).

Definition speed_parts : list (f64 * Z) :=
  (λ l, (f64_mul (speed_of l) (f64_of_Z 15), speed_tenths l)) <$> [0; 10000; 60000; 300000].

Definition verification_parts : list (f64 * Z) :=
  (λ v, (f64_mul (f64_of_Z (Z.min v 3)) (f64_of_Z 5), v)) <$> upto 4.

Definition failure_part (f : Z) : f64 := f64_mul (f64_of_Z (Z.min f 5)) (f64_of_Z 4).

Definition scores_agree (calls : list Z) (bases : list (f64 * Z * bool))
    (speeds verifications : list (f64 * Z)) : bool :=
  forallb (λ n, forallb (λ f,
    let health := health_part n f in
    let failures := failure_part f in
    forallb (λ b, let bh := f64_add b.1.1 health in
      forallb (λ s, let bhs := f64_sub (f64_add bh s.1) failures in
        forallb (λ v, score_of (f64_sub bhs v.1) =? contract_score b.1.2 b.2 n f v.2 s.2)
          verifications) speeds) bases)
    (upto (S (Z.to_nat n)))) calls.

Lemma scores_agree_8 : scores_agree (upto 9) base_parts speed_parts verification_parts = true.
Proof. vm_compute. reflexivity. Qed.

Lemma scores_agree_at calls bases speeds verifications n f b s v :
  scores_agree calls bases speeds verifications = true →
  In n calls → In f (upto (S (Z.to_nat n))) → In b bases → In s speeds → In v verifications →
  score_of (f64_sub (f64_sub (f64_add (f64_add b.1.1 (health_part n f)) s.1) (failure_part f)) v.1) =
  contract_score b.1.2 b.2 n f v.2 s.2.
Proof.
  unfold scores_agree. intros H Hn Hf Hb Hs Hv. do 5 setoid_rewrite forallb_forall in H.
  by apply Z.eqb_eq, H.
Qed.

Lemma in_upto n k : 0 ≤ k < Z.of_nat n → In k (upto n).
Proof.
  intros H. apply list_elem_of_In, list_elem_of_fmap. exists (Z.to_nat k).
  rewrite elem_of_seq. lia.
Qed.

Lemma speed_band l : ∃ l', In l' [0; 10000; 60000; 300000] ∧
  speed_of l' = speed_of l ∧ speed_tenths l' = speed_tenths l.
Proof.
  unfold speed_of, speed_tenths. destruct (l <? 10000); [exists 0|].
  2: destruct (l <? 60000); [exists 10000|]. 3: destruct (l <? 300000); [exists 60000|exists 300000].
  all: split_and!; [cbn; tauto|done..].
Qed.

Lemma in_base_parts e a :
  In (f64_add (f64_mul (completion_of e) (f64_of_Z 60)) (f64_mul (answer_quality_of a) (f64_of_Z 10)),
      completion_tenths e, a) base_parts.
Proof.
  unfold base_parts. destruct e, a;
    cbn [exits flat_map fmap list_fmap app In completion_of completion_tenths]; tauto.
Qed.

Lemma scores_agree_spec e a n f v l :
  0 ≤ f ≤ n → n ≤ 8 → 0 ≤ v →
  score_of (raw_score (completion_of e) (answer_quality_of a) (tool_health_of n f) (speed_of l) f v) =
  contract_score (completion_tenths e) a n f v (speed_tenths l).
Proof.
  intros Hf Hn Hv. destruct (speed_band l) as (l' & Hl & <- & <-).
  assert (Hmin : Z.min (Z.min v 3) 3 = Z.min v 3) by lia.
  pose proof (scores_agree_at _ _ _ _ n f
    (f64_add (f64_mul (completion_of e) (f64_of_Z 60)) (f64_mul (answer_quality_of a) (f64_of_Z 10)),
     completion_tenths e, a)
    (f64_mul (speed_of l') (f64_of_Z 15), speed_tenths l')
    (f64_mul (f64_of_Z (Z.min (Z.min v 3) 3)) (f64_of_Z 5), Z.min v 3) scores_agree_8) as H.
  cbn [fst snd] in H. rewrite Hmin in H. unfold raw_score. etrans; [apply H|].
  - apply (in_upto 9). lia.
  - apply in_upto. lia.
  - apply in_base_parts.
  - by apply list_elem_of_In, (list_elem_of_fmap_2 (λ l, (f64_mul (speed_of l) (f64_of_Z 15), speed_tenths l))),
      list_elem_of_In.
  - apply list_elem_of_In, list_elem_of_fmap. exists (Z.min v 3). rewrite Hmin. split; [done|].
    apply list_elem_of_In, (in_upto 4). lia.
  - unfold contract_score. by rewrite Hmin.
Qed.

Lemma count_where_length {A} (p : A → bool) l : count_where p l ≤ Z.of_nat (length l).
Proof. unfold count_where. apply Nat2Z.inj_le. induction l; cbn; [lia|case_match; cbn; lia]. Qed.

Section facts.
  Context `{ENV : LoopEnv} `{DT : DateTimes}.

(** The score of a run is the documented formula, computed exactly and rounded to the
    nearest integer: for every run of at most eight tool calls, the binary floating point
    of the code loses nothing, and the score is between 0 and 100. *)
Theorem score_is_the_documented_formula record now :
  (length (tj_tool_calls record) ≤ 8)%nat →
  let calls := tj_tool_calls record in
  let score := sc_score (compute_run_scorecard record now) in
  score = contract_score (completion_tenths (tj_exit_reason record)) (answered (tj_final_answer record))
            (Z.of_nat (length calls)) (count_where (λ c, negb (tc_ok c)) calls)
            (count_where verification_failed calls) (speed_tenths (latency_of record)) ∧
  0 ≤ score ≤ 100.
Proof.
  intros Hn calls score. assert (score = contract_score (completion_tenths (tj_exit_reason record))
    (answered (tj_final_answer record)) (Z.of_nat (length calls)) (count_where (λ c, negb (tc_ok c)) calls)
    (count_where verification_failed calls) (speed_tenths (latency_of record))) as E.
  { subst score calls. apply scores_agree_spec; [|lia|apply count_where_nonneg].
    split; [apply count_where_nonneg|apply count_where_length]. }
  split; [done|]. rewrite E. unfold contract_score. lia.
Qed.
End facts.

(** ** The tables of runs *)

Section tables.
  Context `{ENV : LoopEnv} `{DT : DateTimes}.

Lemma stable_started (R : relation TrajDb) `{!PreOrder R} secs : stable R (started_of secs).
Proof. unfold started_of. destruct (from_timestamp secs); [stable_go|]. intros w. cbn. reflexivity. Qed.

#[local] Hint Extern 1 (stable _ (started_of _)) => apply stable_started; typeclasses eauto : stab.

Lemma stable_get_trajectory (R : relation TrajDb) `{!PreOrder R} id : stable R (get_trajectory id).
Proof. unfold get_trajectory, load_trajectory_tool_calls. stable_go. Qed.

#[local] Hint Extern 1 (stable _ (get_trajectory _)) => apply stable_get_trajectory; typeclasses eauto : stab.

Inductive traj_op : Type :=
| TStart (trajectory_id session_id channel user_id model : string)
| TCall (trajectory_id : string) (record : ToolCallRecord)
| TFinish (trajectory_id : string) (final_answer : option string) (reason : TrajectoryExitReason)
| TBackfill (limit : nat)
| TScore (trajectory_id : string)
| TSummary (since_unix until_unix : Z)
| TImport (record : TrajectoryRecord).

Definition traj_exec (op : traj_op) : M TrajDb unit :=
  match op with
  | TStart trajectory_id session_id channel user_id model =>
      start_trajectory trajectory_id session_id channel user_id model
  | TCall trajectory_id record => insert_trajectory_tool_call trajectory_id record
  | TFinish trajectory_id final_answer reason => finish_trajectory trajectory_id final_answer reason
  | TBackfill limit => unit_of (backfill_run_scorecards limit)
  | TScore trajectory_id => unit_of (get_run_scorecard trajectory_id)
  | TSummary since_unix until_unix => unit_of (run_scorecard_summary since_unix until_unix)
  | TImport record => record_finished_trajectory record
  end.

Definition traj_reachable : TrajDb → Prop := op_reachable traj_exec empty_traj.

Definition call_key (c : tool_call_row) : string * Z := (tl_trajectory_id c, tl_call_index c).

Definition run_ids (s : TrajDb) : list string := tr_id <$> trajectories s.

Record traj_inv (s : TrajDb) : Prop := {
  ti_runs : NoDup (run_ids s);
  ti_calls : NoDup (call_key <$> tool_calls s);
  ti_cards : NoDup (sc_trajectory_id <$> scorecards s);
  ti_call_runs : Forall (λ c, tl_trajectory_id c ∈ run_ids s) (tool_calls s);
  ti_card_runs : Forall (λ c, sc_trajectory_id c ∈ run_ids s) (scorecards s)
}.

Lemma run_exists id s : existsb (is_trajectory id) (trajectories s) = true ↔ id ∈ run_ids s.
Proof.
  unfold run_ids. rewrite existsb_exists, list_elem_of_fmap. split.
  - intros (r & Hr & E%String.eqb_eq). exists r. by rewrite list_elem_of_In.
  - intros (r & -> & Hr). exists r. unfold is_trajectory. by rewrite <- list_elem_of_In, String.eqb_refl.
Qed.

Lemma stable_get_db_bind {B} (R : relation TrajDb) (f : TrajDb → M TrajDb B) :
  (∀ s, wp (f s) (λ _ s', R s s') s) → stable R (get_db ≫= f).
Proof. intros H w. by apply (H (w_db w) w). Qed.

Lemma traj_inv_cards s cards :
  traj_inv s → NoDup (sc_trajectory_id <$> cards) → Forall (λ c, sc_trajectory_id c ∈ run_ids s) cards →
  traj_inv (tset mcp_trajectory_scorecards cards s).
Proof. intros []. by split. Qed.

Lemma upsert_card_inv c : stable (keeps traj_inv) (upsert_run_scorecard c).
Proof.
  apply stable_get_db_bind. intros s. wp_step. wp_step; [|by intros].
  apply wp_sql_upsert; intros _; [by intros|].
  match goal with H : _ = true |- _ => apply run_exists in H as Hrun end.
  intros Hi. apply traj_inv_cards; [done|..]; cbn [tget mcp_trajectory_scorecards].
  - destruct (existsb _ (scorecards s)) eqn:E.
    + rewrite fmap_update_where_on; [by destruct Hi|]. by intros r Hr%String.eqb_eq.
    + apply nodup_key_snoc; [by destruct Hi|]. intros (r & Hr & Hin)%list_elem_of_fmap.
      apply (existsb_false _ _ E) in Hin. unfold is_scorecard in Hin. by rewrite Hr, String.eqb_refl in Hin.
  - destruct (existsb _ (scorecards s)).
    + apply Forall_forall. intros x (y & Hy & ->)%elem_update_where.
      destruct (is_scorecard _ y); [done|]. destruct Hi as [_ _ _ _ H5].
      rewrite Forall_forall in H5. by apply H5.
    + apply Forall_app. split; [by destruct Hi|]. by repeat constructor.
Qed.

#[local] Hint Resolve upsert_card_inv : stab.

Lemma traj_inv_calls s calls :
  traj_inv s → NoDup (call_key <$> calls) → Forall (λ c, tl_trajectory_id c ∈ run_ids s) calls →
  traj_inv (tset mcp_trajectory_tool_calls calls s).
Proof. intros []. by split. Qed.

Lemma call_inserted id c s :
  traj_inv s → id ∈ run_ids s → existsb (same_tool_call id (usize_to_i64 (N.of_nat (tc_call_index c)))) (tool_calls s) = false →
  traj_inv (tset mcp_trajectory_tool_calls (tool_calls s ++ [call_row id c]) s).
Proof.
  intros Hi Hrun E. apply traj_inv_calls; [done|..].
  - apply nodup_key_snoc; [by destruct Hi|]. intros (r & Hr & Hin)%list_elem_of_fmap.
    apply (existsb_false _ _ E) in Hin. unfold same_tool_call, is_call_of in Hin.
    injection Hr as E1 E2. by rewrite <- E1, <- E2, String.eqb_refl, Z.eqb_refl in Hin.
  - apply Forall_app. split; [by destruct Hi|]. by repeat constructor.
Qed.

Lemma fill_inv ids n : stable (keeps traj_inv) (fill_scorecards ids n).
Proof.
  revert n. induction ids as [|id ids IH]; intros n; cbn [fill_scorecards]; [stable_go|].
  stable_go; try apply IH. unfold finished_or_now. stable_go.
Qed.

#[local] Hint Resolve fill_inv : stab.

Lemma backfill_inv limit : stable (keeps traj_inv) (backfill_run_scorecards limit).
Proof. unfold backfill_run_scorecards. stable_go. Qed.

Lemma traj_inv_runs s runs :
  traj_inv s → NoDup (tr_id <$> runs) → (∀ id, id ∈ run_ids s → id ∈ tr_id <$> runs) →
  traj_inv (tset mcp_trajectories runs s).
Proof.
  intros [] Hn Hsub. split; cbn; try done.
  - eapply Forall_impl; [done|]. cbn. auto.
  - eapply Forall_impl; [done|]. cbn. auto.
Qed.

Lemma start_inv id session channel user model :
  stable (keeps traj_inv) (start_trajectory id session channel user model).
Proof.
  unfold start_trajectory. stable_go. apply stable_sql_insert; [apply _|]. intros s E Hi.
  apply traj_inv_runs; [done|..].
  - apply nodup_key_snoc; [by destruct Hi|]. intros Hin. cbn in Hin. apply run_exists in Hin.
    cbn in E. congruence.
  - intros x Hx. rewrite fmap_app. apply elem_of_app. by left.
Qed.

Lemma close_inv p now a e : stable (keeps traj_inv) (sql_update mcp_trajectories p (close_trajectory now a e)).
Proof.
  apply stable_sql_update. intros s Hi. apply traj_inv_runs; [done|..]; cbn [tget mcp_trajectories].
  - apply nodup_update_where; [done|]. by destruct Hi.
  - intros x. by rewrite fmap_update_where.
Qed.

#[local] Hint Resolve close_inv : stab.

Lemma insert_call_inv id c : stable (keeps traj_inv) (insert_trajectory_tool_call id c).
Proof.
  apply stable_get_db_bind. intros s. wp_step. wp_step; [|by intros].
  match goal with H : _ = true |- _ => apply run_exists in H as Hrun end.
  wp_step; intros Hi; [by apply call_inserted|done].
Qed.

(** The runs in [s] include [id]. *)
Definition with_run (id : string) (s : TrajDb) : Prop := traj_inv s ∧ id ∈ run_ids s.

Lemma import_calls_inv record : stable (keeps (with_run (tj_id record)))
  (sql_delete mcp_trajectory_tool_calls (is_call_of (tj_id record)) ;;
   foreach (tj_tool_calls record) (λ call,
     sql_insert mcp_trajectory_tool_calls
       (same_tool_call (tj_id record) (usize_to_i64 (N.of_nat (tc_call_index call))))
       (call_row (tj_id record) call))).
Proof.
  stable_go.
  - apply stable_sql_delete. intros s [Hi Hr]. split; [|done].
    apply traj_inv_calls; [done|by apply nodup_key_filter; destruct Hi|].
    destruct Hi as [_ _ _ H4 _]. rewrite Forall_forall in *. intros c Hc.
    apply list_elem_of_In, List.filter_In in Hc as [Hc _]. by apply H4, list_elem_of_In.
  - apply stable_sql_insert; [apply _|]. intros s E [Hi Hr]. split; [by apply call_inserted|done].
Qed.

Lemma import_run_inv record s :
  traj_inv s →
  with_run (tj_id record) (tset mcp_trajectories
    (if existsb (is_trajectory (tj_id record)) (trajectories s)
     then update_where (is_trajectory (tj_id record)) (λ _, imported_row record) (trajectories s)
     else trajectories s ++ [imported_row record]) s).
Proof.
  intros Hi. destruct (existsb _ _) eqn:E; split; try apply traj_inv_runs; try done; cbn.
  - rewrite fmap_update_where_on; [by destruct Hi|]. by intros r Hr%String.eqb_eq.
  - intros x. rewrite fmap_update_where_on; [done|]. by intros r Hr%String.eqb_eq.
  - unfold run_ids. cbn. rewrite fmap_update_where_on; [by apply run_exists|]. by intros r Hr%String.eqb_eq.
  - apply nodup_key_snoc; [by destruct Hi|]. intros Hin. cbn in Hin. apply run_exists in Hin. congruence.
  - intros x Hx. rewrite fmap_app. apply elem_of_app. by left.
  - unfold run_ids. cbn. rewrite fmap_app. apply elem_of_app. right. by left.
Qed.

Lemma import_inv record : stable (keeps traj_inv) (record_finished_trajectory record).
Proof.
  unfold record_finished_trajectory. apply stable_bind; [apply _| |intros _; stable_go].
  apply stable_transaction; [apply _|]. apply stable_of_wp. intros s. apply wp_bind, wp_sql_upsert; intros _; [by intros|]. cbv beta iota.
  eapply wp_mono; [apply wp_of_stable, import_calls_inv|]. cbv beta. intros _ s' H Hi.
  apply H. by apply import_run_inv.
Qed.

Lemma traj_exec_inv op : stable (keeps traj_inv) (traj_exec op).
Proof.
  destruct op; cbn [traj_exec].
  - apply start_inv.
  - apply insert_call_inv.
  - unfold finish_trajectory. stable_go.
  - apply stable_unit_of, backfill_inv.
  - apply stable_unit_of. unfold get_run_scorecard, finished_or_now. cbv zeta. stable_go.
  - apply stable_unit_of. unfold run_scorecard_summary. cbv zeta.
    apply stable_bind; [apply _|apply backfill_inv|intros _]. stable_go.
  - apply import_inv.
Qed.

Lemma traj_reachable_inv s : traj_reachable s → traj_inv s.
Proof. apply op_reachable_invariant; [by repeat constructor|apply traj_exec_inv]. Qed.

(** Whatever operations run in whatever order, the tables of runs agree: a run has one
    row and at most one scorecard, a tool call one position in its run, and every call and
    every scorecard belongs to a recorded run. *)
Theorem run_tables_agree s : traj_reachable s → traj_inv s.
Proof. apply traj_reachable_inv. Qed.
End tables.

(** ** The batch reader *)

Section batch.
  Context `{ENV : LoopEnv} `{DT : DateTimes}.

Lemma batch_order_total a b : batch_order a b = false → batch_order b a = true.
Proof.
  unfold batch_order. rewrite (String.eqb_sym (tl_trajectory_id b)).
  destruct (String.eqb _ _); [unfold call_order; lia|apply string_leb_total].
Qed.

Lemma batch_order_trans a b c :
  batch_order a b = true → batch_order b c = true → batch_order a c = true.
Proof.
  unfold batch_order, call_order. destruct (String.eqb_spec (tl_trajectory_id a) (tl_trajectory_id b)) as [E|E],
    (String.eqb_spec (tl_trajectory_id b) (tl_trajectory_id c)) as [E'|E'];
    rewrite ?E, <- ?E', ?String.eqb_refl; try (lia || done).
  - by destruct (String.eqb_spec (tl_trajectory_id b) (tl_trajectory_id c)).
  - by destruct (String.eqb_spec (tl_trajectory_id a) (tl_trajectory_id b)).
  - intros H1 H2. destruct (String.eqb_spec (tl_trajectory_id a) (tl_trajectory_id c)) as [E''|_].
    + rewrite E'' in *. by destruct E'; apply string_leb_antisym.
    + by eapply string_leb_trans.
Qed.

(** The calls of a run, as [load_trajectory_tool_calls] reads them. *)
Definition calls_of (id : string) (s : TrajDb) : list ToolCallRecord :=
  trajectory_tool_call_from_row <$> order_by call_order (List.filter (is_call_of id) (tool_calls s)).

Lemma grouped_calls id rows (m : gmap string (list ToolCallRecord)) :
  default [] (foldl (λ m c, <[tl_trajectory_id c :=
      default [] (m !! tl_trajectory_id c) ++ [trajectory_tool_call_from_row c]]> m) m rows !! id) =
  default [] (m !! id) ++ (trajectory_tool_call_from_row <$> List.filter (is_call_of id) rows).
Proof.
  revert m. induction rows as [|c rows IH]; intros m; cbn; [by rewrite app_nil_r|].
  rewrite IH. unfold is_call_of. destruct (String.eqb_spec (tl_trajectory_id c) id) as [<-|Hne].
  - rewrite lookup_insert_eq. cbn. by rewrite <- app_assoc.
  - by rewrite lookup_insert_ne.
Qed.

Lemma filter_filter_in id ids (rows : list tool_call_row) :
  id ∈ ids →
  List.filter (is_call_of id) (List.filter (λ c, existsb (String.eqb (tl_trajectory_id c)) ids) rows) =
  List.filter (is_call_of id) rows.
Proof.
  intros Hin. induction rows as [|c rows IH]; cbn; [done|].
  destruct (existsb _ ids) eqn:E; cbn; rewrite IH; [done|].
  destruct (is_call_of id c) eqn:Ec; [|done]. unfold is_call_of in Ec. apply String.eqb_eq in Ec.
  rewrite Ec in E. apply (existsb_false _ _ E) in Hin. by rewrite String.eqb_refl in Hin.
Qed.

(** The calls [calls] holds for [ids] are those of the store. *)
Definition holds_calls (s : TrajDb) (ids : list string) (calls : gmap string (list ToolCallRecord)) : Prop :=
  ∀ id, id ∈ ids → default [] (calls !! id) = calls_of id s.

Lemma wp_load_batch ids s :
  wp (load_trajectory_tool_calls_for_ids ids)
     (λ r s', s' = s ∧ ∃ calls, r = Ok calls ∧ holds_calls s ids calls) s.
Proof.
  unfold load_trajectory_tool_calls_for_ids. destruct ids as [|id0 ids0] eqn:E.
  { wp_step. split; [done|]. exists ∅. split; [done|]. intros id Hid. by apply elem_of_nil in Hid. }
  rewrite <- E. wp_step. wp_step. wp_step. split; [done|]. eexists. split; [done|]. intros id Hid.
  rewrite grouped_calls, lookup_empty. cbn [default from_option app].
  rewrite (filter_order_by batch_order call_order), filter_filter_in; [done|done|..].
  - apply batch_order_total.
  - apply batch_order_trans.
  - intros x y Hx%String.eqb_eq Hy%String.eqb_eq. unfold batch_order. by rewrite Hx, Hy, String.eqb_refl.
Qed.

(** Times that chrono can hold. *)
Definition readable_times (s : TrajDb) : Prop :=
  Forall (λ r, is_Some (from_timestamp (tr_started_at r))) (trajectories s).

Definition read_run (s : TrajDb) (r : trajectory_row) : TrajectoryRecord :=
  trajectory_from_row r (default 0 (from_timestamp (tr_started_at r))) (calls_of (tr_id r) s).

Lemma wp_collect rows calls s :
  NoDup (tr_id <$> rows) → Forall (λ r, is_Some (from_timestamp (tr_started_at r))) rows →
  holds_calls s (tr_id <$> rows) calls →
  wp (collect_runs rows calls) (λ r s', s' = s ∧ r = Ok (read_run s <$> rows)) s.
Proof.
  revert calls. induction rows as [|r rows IH]; intros calls Hn Ht Hc; cbn [collect_runs]; [by wp_step|].
  apply Forall_cons in Ht as [[t Ht] Hts]. apply NoDup_cons in Hn as [Hnot Hn].
  assert (Hr : default [] (calls !! tr_id r) = calls_of (tr_id r) s) by (apply Hc; left).
  assert (Hrun : read_run s r = trajectory_from_row r t (default [] (calls !! tr_id r)))
    by (unfold read_run; by rewrite Ht, Hr).
  unfold started_of. rewrite Ht. wp_step. wp_step. cbv beta iota. wp_step.
  eapply wp_mono; [apply IH; [done|done|]|].
  - intros id Hid. rewrite lookup_delete_ne; [apply Hc; by right|]. intros <-. by apply Hnot.
  - intros rr s' [-> ->]. wp_step. split; [done|]. by rewrite <- Hrun.
Qed.

Lemma wp_get_run s r id :
  readable_times s → List.find (is_trajectory id) (trajectories s) = Some r →
  wp (get_trajectory id) (λ res s', s' = s ∧ res = Ok (Some (read_run s r))) s.
Proof.
  intros Ht Hf. unfold get_trajectory, load_trajectory_tool_calls, started_of. wp_step. wp_step.
  cbn [tget mcp_trajectories]. rewrite Hf. wp_step. wp_step. wp_step. wp_step. wp_step.
  apply List.find_some in Hf as [Hin _]. unfold readable_times in Ht. rewrite Forall_forall in Ht.
  destruct (Ht r) as [t E]; [by apply list_elem_of_In|]. rewrite E. wp_step. wp_step.
  unfold read_run. by rewrite E.
Qed.

Lemma find_unique_run s r :
  NoDup (run_ids s) → r ∈ trajectories s → List.find (is_trajectory (tr_id r)) (trajectories s) = Some r.
Proof.
  intros Hn Hr. destruct (List.find _ _) as [x|] eqn:E.
  - apply List.find_some in E as [Hx Hk%String.eqb_eq]. f_equal.
    eapply (nodup_key_inj tr_id); [done|by apply list_elem_of_In|done|done].
  - apply list_elem_of_In in Hr. pose proof (List.find_none _ _ E r Hr) as H. unfold is_trajectory in H.
    by rewrite String.eqb_refl in H.
Qed.

(** Listing runs is the same as reading them one by one: in a store that the program
    has written, the answer to a query has exactly the matching runs in order, up to the
    limit, and each of its records, tool calls included, is the one that [get_trajectory]
    gives for that run.  Neither changes the store. *)
Theorem listed_runs_are_the_runs_read s filter :
  traj_reachable s → readable_times s →
  let rows := take (clamp_trajectory_query_limit (tf_limit filter))
                (order_by newest_started_first (List.filter (run_matches s filter) (trajectories s))) in
  wp (query_trajectories filter)
     (λ r s', s' = s ∧ ∃ records, r = Ok records ∧
        Forall2 (λ row record, wp (get_trajectory (tr_id row))
                                 (λ r' s'', s'' = s ∧ r' = Ok (Some record)) s) rows records) s.
Proof.
  intros Hr Ht rows. apply traj_reachable_inv in Hr as [Hn _ _ _ _].
  assert (Hrows : ∀ r, r ∈ rows → r ∈ trajectories s).
  { intros r Hin. apply elem_of_take in Hin as (i & Hi & _). apply list_elem_of_lookup_2 in Hi.
    rewrite order_by_perm, list_elem_of_In, List.filter_In in Hi. apply list_elem_of_In, Hi. }
  unfold query_trajectories. wp_step. wp_step. wp_step. wp_step. wp_step. fold rows.
  eapply wp_mono; [apply wp_load_batch|]. intros _ s' (-> & calls & -> & Hc).
  eapply wp_mono; [apply wp_collect; [|apply Forall_forall|exact Hc]|].
  - eapply sublist_NoDup; [|apply fmap_sublist, sublist_take].
    rewrite order_by_perm. by apply nodup_key_filter.
  - intros r Hin. unfold readable_times in Ht. rewrite Forall_forall in Ht. by apply Ht, Hrows.
  - intros r s' [-> ->]. split; [done|]. eexists. split; [done|].
    rewrite Forall2_fmap_r. apply Forall_Forall2_diag, Forall_forall. intros row Hin. cbn.
    apply wp_get_run; [done|]. by apply find_unique_run, Hrows.
Qed.
End batch.
