(* ===== verification/EvoDomain.v ===== *)
(** * Evolution: patches, cases, scores, gates

    The types of src/harness/evolution.rs and their pure operations: prompt patches and
    the markers they may not contain, evaluation cases and their assertions, the scorer of
    a shadow evaluation, the promotion gate, the life cycle of a candidate, and the checks
    on drafts, actors and reasons. *)

From S2P Require Import Prelude Text Strings External Verifier Floats.
From Stdlib Require Import Ascii.
From stdpp Require Import pretty.

Definition ABSOLUTE_MAX_PROMPT_PATCH_CHARS : nat := N.to_nat 16000.
Definition MAX_ENABLED_EVOLUTION_EVAL_CASES : nat := 50.
Definition MAX_EVAL_OUTPUT_EXCERPT_CHARS : nat := N.to_nat 2000.
Definition MAX_EVAL_CASE_INPUT_CHARS : nat := N.to_nat 8000.
Definition MAX_PROPOSAL_RESPONSE_CHARS : nat := N.to_nat 20000.
Definition MAX_CANDIDATE_RATIONALE_CHARS : nat := N.to_nat 4000.

Definition RESERVED_HARNESS_MARKERS : list string :=
  ["MCP_TOOL_RESULT_JSON"; "MCP_TOOL_VERIFICATION_FAILED_JSON"; "CODE_MODE_TOOL_RESULT_JSON";
   "MCP_TOOLS_JSON"].

(** [Result::with_context]. *)
Definition with_context {A} (e : string) (r : res A) : res A :=
  match r with Ok a => Ok a | Err _ => Err e end.

(** ** Prompt patches *)

Record PromptPatch : Type := { pp_text : string }.

#[export] Instance PromptPatch_eq_dec : EqDecision PromptPatch.
Proof. solve_decision. Defined.

Definition new_prompt_patch (value : string) (max_chars : nat) : res PromptPatch :=
  let trimmed := trim value in
  guard_res (negb (is_blank value)) "prompt patch cannot be empty" ;;
  let effective_max := Nat.min max_chars ABSOLUTE_MAX_PROMPT_PATCH_CHARS in
  guard_res (chars_count trimmed <=? effective_max)
    ("prompt patch exceeds the configured limit of " +:+ pretty effective_max +:+ " characters") ;;
  match List.find (λ marker, contains marker trimmed) RESERVED_HARNESS_MARKERS with
  | Some marker => Err ("prompt patch contains reserved harness marker '" +:+ marker +:+ "'")
  | None => Ok {| pp_text := trimmed |}
  end.

(** ** Evaluation cases *)

Record EvolutionCaseAssertions : Type := {
  ea_required_substrings : list string;
  ea_forbidden_substrings : list string;
  ea_require_json : bool;
  ea_max_output_chars : option N
}.

Record EvolutionEvalCase : Type := {
  ec_id : string;
  ec_name : string;
  ec_input : string;
  ec_assertions : EvolutionCaseAssertions;
  ec_weight : f64;
  ec_enabled : bool
}.

Definition is_empty {A} (l : list A) : bool := match l with [] => true | _ => false end.

(** [EvolutionEvalCase::validate]. *)
Definition validate_case (c : EvolutionEvalCase) : res unit :=
  let a := ec_assertions c in
  let substrings := ea_required_substrings a ++ ea_forbidden_substrings a in
  guard_res (negb (is_blank (ec_id c))) "eval case id cannot be empty" ;;
  guard_res (String.length (ec_id c) <=? 128) "eval case id cannot exceed 128 bytes" ;;
  guard_res (negb (is_blank (ec_name c))) "eval case name cannot be empty" ;;
  guard_res (chars_count (ec_name c) <=? 256) "eval case name cannot exceed 256 characters" ;;
  guard_res (negb (is_blank (ec_input c))) "eval case input cannot be empty" ;;
  guard_res (chars_count (ec_input c) <=? MAX_EVAL_CASE_INPUT_CHARS)
    "eval case input cannot exceed 8000 characters" ;;
  guard_res (f64_is_finite (ec_weight c) && negb (f64_le (ec_weight c) f64_zero) &&
             negb (f64_lt (f64_of_Z 100) (ec_weight c)))
    "eval case weight must be finite, greater than zero, and at most 100" ;;
  guard_res (negb (is_empty (ea_required_substrings a) && is_empty (ea_forbidden_substrings a) &&
                   negb (ea_require_json a) &&
                   match ea_max_output_chars a with None => true | Some _ => false end))
    "eval case must define at least one assertion" ;;
  guard_res (match ea_max_output_chars a with
             | Some n => (1 <=? n)%N && (n <=? 1048576)%N | None => true end)
    "eval case max_output_chars must be 1..=1048576" ;;
  guard_res (length substrings <=? 64)
    "eval case cannot define more than 64 substring assertions" ;;
  guard_res (forallb (λ v, negb (is_blank v) && (chars_count v <=? 512)) substrings)
    "eval case substrings must contain between 1 and 512 characters".

Record EvolutionBenchmarkSuite : Type := {
  bs_id : string;
  bs_version : string;
  bs_cases : list EvolutionEvalCase
}.

Definition suite_label (s : EvolutionBenchmarkSuite) : string := bs_id s +:+ "@" +:+ bs_version s.

(** [EvolutionBenchmarkSuite::validate]; the state of the loop is the set of ids seen. *)
Definition validate_suite (s : EvolutionBenchmarkSuite) : res unit :=
  guard_res (bounded_nonblank 64 (bs_id s)) "benchmark suite id must be 1..=64 bytes" ;;
  guard_res (bounded_nonblank 64 (bs_version s)) "benchmark suite version must be 1..=64 bytes" ;;
  guard_res (negb (is_empty (bs_cases s)) && (length (bs_cases s) <=? 16))
    "benchmark suite must contain 1..=16 cases" ;;
  for_res (λ c seen,
    with_context ("invalid benchmark case '" +:+ ec_id c +:+ "'") (validate_case c) ;;
    guard_res (negb (existsb (String.eqb (ec_id c)) seen)) "duplicate benchmark case id" ;;
    Ok (ec_id c :: seen)) (bs_cases s) [] ;;
  Ok tt.

(** ** Scores *)

Record EvolutionCaseResult : Type := {
  er_case_id : string;
  er_case_name : string;
  er_input : string;
  er_weight : f64;
  er_assertions : EvolutionCaseAssertions;
  er_baseline_passed : bool;
  er_candidate_passed : bool;
  er_baseline_issues : list string;
  er_candidate_issues : list string;
  er_baseline_output_excerpt : string;
  er_candidate_output_excerpt : string;
  er_baseline_output_sha256 : string;
  er_candidate_output_sha256 : string;
  er_benchmark : bool
}.

Record EvolutionScorecard : Type := {
  es_baseline_score : f64;
  es_candidate_score : f64;
  es_score_delta : f64;
  es_regressions : nat;
  es_benchmark_regressions : nat;
  es_benchmark_suite : option string;
  es_baseline_passed_cases : nat;
  es_candidate_passed_cases : nat;
  es_total_cases : nat;
  es_case_results : list EvolutionCaseResult
}.

(** [truncate_chars]. *)
Definition truncate_chars (value : string) (max_chars : nat) : string :=
  take_chars max_chars value +:+ (if max_chars <? chars_count value then "…" else "").

(** [format!("{:x}", Sha256::digest(value))]. *)
Definition sha256_hex `{Sha256} (value : string) : string :=
  foldr (λ b acc, hex2 (Ascii.N_of_ascii b) +:+ acc) "" (sha256_digest (bytes value)).

Definition issue_if (b : bool) (text : string) : list string := if b then [text] else [].

Definition evaluate_assertions `{JsonParse} (a : EvolutionCaseAssertions) (output : string)
    : list string :=
  flat_map (λ r, issue_if (negb (contains r output)) ("missing required substring '" +:+ r +:+ "'"))
    (ea_required_substrings a) ++
  flat_map (λ f, issue_if (contains f output) ("contains forbidden substring '" +:+ f +:+ "'"))
    (ea_forbidden_substrings a) ++
  issue_if (ea_require_json a && match json_parse output with None => true | Some _ => false end)
    "output is not valid JSON" ++
  match ea_max_output_chars a with
  | Some n => issue_if (n <? N.of_nat (chars_count output))%N
                ("output exceeds " +:+ pretty n +:+ " characters")
  | None => []
  end.

(** The sums of the scoring loop. *)
Record score_acc : Type := {
  sa_baseline_weight : f64;
  sa_candidate_weight : f64;
  sa_total_weight : f64;
  sa_baseline_passed : nat;
  sa_candidate_passed : nat;
  sa_regressions : nat;
  sa_benchmark_regressions : nat;
  sa_results : list EvolutionCaseResult
}.

Definition start_score : score_acc :=
  {| sa_baseline_weight := f64_zero; sa_candidate_weight := f64_zero; sa_total_weight := f64_zero;
     sa_baseline_passed := 0; sa_candidate_passed := 0; sa_regressions := 0;
     sa_benchmark_regressions := 0; sa_results := [] |}.

Section scorer.
  Context `{JP : JsonParse} `{SHA : Sha256}.

Definition case_result (c : EvolutionEvalCase) (benchmark : bool) (baseline candidate : string)
    : EvolutionCaseResult :=
  let baseline_issues := evaluate_assertions (ec_assertions c) baseline in
  let candidate_issues := evaluate_assertions (ec_assertions c) candidate in
  {| er_case_id := ec_id c; er_case_name := ec_name c; er_input := ec_input c;
     er_weight := ec_weight c; er_assertions := ec_assertions c;
     er_baseline_passed := is_empty baseline_issues;
     er_candidate_passed := is_empty candidate_issues;
     er_baseline_issues := baseline_issues; er_candidate_issues := candidate_issues;
     er_baseline_output_excerpt := truncate_chars baseline MAX_EVAL_OUTPUT_EXCERPT_CHARS;
     er_candidate_output_excerpt := truncate_chars candidate MAX_EVAL_OUTPUT_EXCERPT_CHARS;
     er_baseline_output_sha256 := sha256_hex baseline;
     er_candidate_output_sha256 := sha256_hex candidate;
     er_benchmark := benchmark |}.

Definition add_result (r : EvolutionCaseResult) (a : score_acc) : score_acc :=
  let base := er_baseline_passed r in
  let cand := er_candidate_passed r in
  let regressed := base && negb cand in
  {| sa_baseline_weight := if base then f64_add (sa_baseline_weight a) (er_weight r) else sa_baseline_weight a;
     sa_candidate_weight := if cand then f64_add (sa_candidate_weight a) (er_weight r) else sa_candidate_weight a;
     sa_total_weight := f64_add (sa_total_weight a) (er_weight r);
     sa_baseline_passed := sa_baseline_passed a + (if base then 1 else 0);
     sa_candidate_passed := sa_candidate_passed a + (if cand then 1 else 0);
     sa_regressions := sa_regressions a + (if regressed then 1 else 0);
     sa_benchmark_regressions := sa_benchmark_regressions a + (if regressed && er_benchmark r then 1 else 0);
     sa_results := sa_results a ++ [r] |}.

(** One round of the scoring loop. *)
Definition score_case (baseline_outputs candidate_outputs : gmap string string)
    (p : EvolutionEvalCase * bool) (a : score_acc) : res score_acc :=
  let '(c, benchmark) := p in
  with_context ("invalid eval case '" +:+ ec_id c +:+ "'") (validate_case c) ;;
  baseline ← context_res ("missing baseline output for eval case '" +:+ ec_id c +:+ "'")
    (baseline_outputs !! ec_id c);
  candidate ← context_res ("missing candidate output for eval case '" +:+ ec_id c +:+ "'")
    (candidate_outputs !! ec_id c);
  Ok (add_result (case_result c benchmark baseline candidate) a).

Definition scorecard_of (suite : option EvolutionBenchmarkSuite) (a : score_acc) : EvolutionScorecard :=
  let baseline_score := f64_div (sa_baseline_weight a) (sa_total_weight a) in
  let candidate_score := f64_div (sa_candidate_weight a) (sa_total_weight a) in
  {| es_baseline_score := baseline_score; es_candidate_score := candidate_score;
     es_score_delta := f64_sub candidate_score baseline_score;
     es_regressions := sa_regressions a;
     es_benchmark_regressions := sa_benchmark_regressions a;
     es_benchmark_suite := suite_label <$> suite;
     es_baseline_passed_cases := sa_baseline_passed a;
     es_candidate_passed_cases := sa_candidate_passed a;
     es_total_cases := length (sa_results a); es_case_results := sa_results a |}.

Definition scored_cases (cases : list EvolutionEvalCase) (suite : option EvolutionBenchmarkSuite)
    : list (EvolutionEvalCase * bool) :=
  ((λ c, (c, false)) <$> List.filter ec_enabled cases) ++
  ((λ c, (c, true)) <$> List.filter ec_enabled (match suite with Some s => bs_cases s | None => [] end)).

Definition score_with_benchmark (cases : list EvolutionEvalCase)
    (suite : option EvolutionBenchmarkSuite) (baseline_outputs candidate_outputs : gmap string string)
    : res EvolutionScorecard :=
  match suite with Some s => validate_suite s | None => Ok tt end ;;
  guard_res (negb (is_empty (scored_cases cases suite))) "at least one enabled eval case is required" ;;
  guard_res (length (List.filter ec_enabled cases) <=? MAX_ENABLED_EVOLUTION_EVAL_CASES)
    "enabled eval cases exceed the maximum of 50" ;;
  a ← for_res (score_case baseline_outputs candidate_outputs) (scored_cases cases suite) start_score;
  Ok (scorecard_of suite a).
End scorer.

(** ** The gate *)

Record EvolutionGateConfig : Type := {
  gc_min_eval_cases : nat;
  gc_min_candidate_score : f64;
  gc_min_score_delta : f64;
  gc_max_regressions : nat;
  gc_max_prompt_patch_chars : nat;
  gc_require_human_approval : bool
}.

Definition default_gate : EvolutionGateConfig :=
  {| gc_min_eval_cases := 3; gc_min_candidate_score := f64_lit 8 10;
     gc_min_score_delta := f64_lit 5 100; gc_max_regressions := 0;
     gc_max_prompt_patch_chars := N.to_nat 4000; gc_require_human_approval := true |}.

Definition validate_unit_interval (name : string) (value : f64) : res unit :=
  guard_res (f64_is_finite value && f64_le f64_zero value && f64_le value (f64_of_Z 1))
    (name +:+ " must be finite and between 0 and 1").

(** [EvolutionGateConfig::validate]. *)
Definition validate_gate (g : EvolutionGateConfig) : res unit :=
  guard_res (negb (gc_min_eval_cases g =? 0)) "min_eval_cases must be greater than zero" ;;
  guard_res (gc_min_eval_cases g <=? MAX_ENABLED_EVOLUTION_EVAL_CASES) "min_eval_cases cannot exceed 50" ;;
  validate_unit_interval "min_candidate_score" (gc_min_candidate_score g) ;;
  guard_res (f64_is_finite (gc_min_score_delta g) && f64_le (f64_of_Z (-1)) (gc_min_score_delta g) &&
             f64_le (gc_min_score_delta g) (f64_of_Z 1))
    "min_score_delta must be finite and between -1 and 1" ;;
  guard_res (negb (gc_max_prompt_patch_chars g =? 0) &&
             (gc_max_prompt_patch_chars g <=? ABSOLUTE_MAX_PROMPT_PATCH_CHARS))
    "max_prompt_patch_chars must be between 1 and 16000".

Inductive EvolutionPromotionDecision : Type :=
| DecisionReady
| DecisionRejected (reasons : list string).

(** [EvolutionGateConfig::decide]. *)
Definition gate_reasons (g : EvolutionGateConfig) (s : EvolutionScorecard) : list string :=
  issue_if (es_total_cases s <? gc_min_eval_cases g)
    ("minimum eval cases not met: " +:+ pretty (es_total_cases s) +:+ " < " +:+ pretty (gc_min_eval_cases g)) ++
  issue_if (f64_lt (es_candidate_score s) (gc_min_candidate_score g))
    ("candidate score " +:+ f64_fixed 6 (es_candidate_score s) +:+ " is below minimum " +:+
     f64_fixed 6 (gc_min_candidate_score g)) ++
  issue_if (f64_lt (es_score_delta s) (gc_min_score_delta g))
    ("score delta " +:+ f64_fixed 6 (es_score_delta s) +:+ " is below minimum " +:+
     f64_fixed 6 (gc_min_score_delta g)) ++
  issue_if (gc_max_regressions g <? es_regressions s)
    ("regressions " +:+ pretty (es_regressions s) +:+ " exceed maximum " +:+ pretty (gc_max_regressions g)) ++
  issue_if (0 <? es_benchmark_regressions s)
    ("benchmark scenario regressions are not tolerated: " +:+ pretty (es_benchmark_regressions s)).

Definition decide_promotion (g : EvolutionGateConfig) (s : EvolutionScorecard)
    : EvolutionPromotionDecision :=
  match gate_reasons g s with [] => DecisionReady | reasons => DecisionRejected reasons end.

Definition decision_ready (d : EvolutionPromotionDecision) : bool :=
  match d with DecisionReady => true | DecisionRejected _ => false end.

(** ** Candidates *)

Inductive EvolutionCandidateStatus : Type :=
| CandDraft | CandEvaluating | CandReady | CandRejected | CandApproved | CandFailed.

#[export] Instance EvolutionCandidateStatus_eq_dec : EqDecision EvolutionCandidateStatus.
Proof. solve_decision. Defined.

Definition candidate_status_as_str (s : EvolutionCandidateStatus) : string :=
  match s with
  | CandDraft => "draft" | CandEvaluating => "evaluating" | CandReady => "ready"
  | CandRejected => "rejected" | CandApproved => "approved" | CandFailed => "failed"
  end.

Definition candidate_status_parse (value : string) : res EvolutionCandidateStatus :=
  if String.eqb value "draft" then Ok CandDraft
  else if String.eqb value "evaluating" then Ok CandEvaluating
  else if String.eqb value "ready" then Ok CandReady
  else if String.eqb value "rejected" then Ok CandRejected
  else if String.eqb value "approved" then Ok CandApproved
  else if String.eqb value "failed" then Ok CandFailed
  else Err ("unsupported evolution candidate status '" +:+ value +:+ "'").

Definition can_transition_to (current next : EvolutionCandidateStatus) : bool :=
  match current, next with
  | CandDraft, (CandEvaluating | CandRejected | CandFailed)
  | CandEvaluating, (CandReady | CandRejected | CandFailed)
  | CandReady, (CandApproved | CandRejected | CandEvaluating)
  | (CandRejected | CandFailed | CandApproved), CandEvaluating => true
  | _, _ => false
  end.

Definition transition_event_type (next : EvolutionCandidateStatus) : string :=
  match next with
  | CandEvaluating => "evaluation_started" | CandReady => "candidate_ready"
  | CandRejected => "candidate_rejected" | CandApproved => "candidate_approved"
  | CandFailed => "candidate_failed" | CandDraft => "candidate_drafted"
  end.

Record EvolutionCandidateDraft : Type := {
  cd_id : string;
  cd_parent_candidate_id : option string;
  cd_evidence_fingerprint : option string;
  cd_prompt_patch : PromptPatch;
  cd_rationale : string;
  cd_source_trajectory_ids : list string
}.

Definition is_ascii_hexdigit (a : ascii) : bool :=
  let n := nat_of_ascii a in
  ((48 <=? n) && (n <=? 57)) || ((65 <=? n) && (n <=? 70)) || ((97 <=? n) && (n <=? 102)).

(** [EvolutionCandidateDraft::validate]. *)
Definition validate_draft (d : EvolutionCandidateDraft) : res unit :=
  guard_res (negb (is_blank (cd_id d))) "candidate id cannot be empty" ;;
  guard_res (negb (is_blank (cd_rationale d))) "candidate rationale cannot be empty" ;;
  guard_res (chars_count (trim (cd_rationale d)) <=? MAX_CANDIDATE_RATIONALE_CHARS)
    "candidate rationale cannot exceed 4000 characters" ;;
  guard_res (match cd_parent_candidate_id d with Some id => negb (is_blank id) | None => true end)
    "parent candidate id cannot be empty" ;;
  guard_res (match cd_evidence_fingerprint d with
             | Some v => (String.length v =? 64) && forallb is_ascii_hexdigit (bytes v)
             | None => true end)
    "evidence fingerprint must be a 64-character SHA-256 hex digest" ;;
  guard_res (forallb (λ id, negb (is_blank id)) (cd_source_trajectory_ids d))
    "source trajectory ids cannot contain empty values" ;;
  guard_res (length (cd_source_trajectory_ids d) <=? 100)
    "candidate cannot reference more than 100 source trajectories" ;;
  guard_res (forallb (λ id, String.length id <=? 256) (cd_source_trajectory_ids d))
    "source trajectory ids cannot exceed 256 bytes".

(** ** Evaluations, feedback, deployments *)

Record EvolutionEvaluationDraft : Type := {
  vd_id : string;
  vd_candidate_id : string;
  vd_baseline_candidate_id : option string;
  vd_scorecard : EvolutionScorecard;
  vd_decision : EvolutionPromotionDecision;
  vd_gate_config : EvolutionGateConfig
}.

Record EvolutionFeedbackDraft : Type := {
  fd_trajectory_id : string;
  fd_score : f64;
  fd_tags : list string;
  fd_comment : option string
}.

(** [EvolutionFeedbackDraft::validate]. *)
Definition validate_feedback (d : EvolutionFeedbackDraft) : res unit :=
  guard_res (negb (is_blank (fd_trajectory_id d))) "feedback trajectory id cannot be empty" ;;
  guard_res (String.length (fd_trajectory_id d) <=? 256) "feedback trajectory id cannot exceed 256 bytes" ;;
  guard_res (f64_is_finite (fd_score d) && f64_le (f64_of_Z (-1)) (fd_score d) &&
             f64_le (fd_score d) (f64_of_Z 1)) "feedback score must be finite and between -1 and 1" ;;
  guard_res (length (fd_tags d) <=? 16) "feedback cannot contain more than 16 tags" ;;
  guard_res (forallb (λ t, negb (is_blank t) && (chars_count (trim t) <=? 64)) (fd_tags d))
    "feedback tags must contain between 1 and 64 characters" ;;
  guard_res (match fd_comment d with Some c => chars_count c <=? N.to_nat 2000 | None => true end)
    "feedback comment cannot exceed 2000 characters".

Record ActiveEvolutionPolicy : Type := {
  ap_deployment_id : string;
  ap_candidate_id : string;
  ap_prompt_patch : PromptPatch
}.

Definition render_evolution_policy_message (candidate_id deployment_id : string)
    (prompt_patch : PromptPatch) : string :=
  "ACTIVE_EVOLUTION_POLICY" +:+ newline +:+ "candidate_id=" +:+ candidate_id +:+ newline +:+
  "deployment_id=" +:+ deployment_id +:+ newline +:+ "Instructions:" +:+ newline +:+
  pp_text prompt_patch.

Record EvolutionRollbackResult : Type := {
  rb_deployment_id : string;
  rb_candidate_id : string;
  rb_restored_policy : option ActiveEvolutionPolicy
}.

(** The frozen cursor of a shadow evaluation. *)
Record EvolutionEvalRun : Type := {
  ev_id : string;
  ev_candidate_id : string;
  ev_cases : list EvolutionEvalCase;
  ev_benchmark_tail : nat;
  ev_baseline : option (string * string * PromptPatch);
  ev_case_index : nat;
  ev_baseline_outputs : gmap string string;
  ev_candidate_outputs : gmap string string;
  ev_response_bytes : N
}.

(** ** Actors and reasons *)

Inductive EvolutionActor : Type :=
| Human (id : string)
| SystemActor (id : string).

(** [s.chars().any(char::is_control)]: U+0000..U+001F, U+007F..U+009F. *)
Fixpoint has_control (s : list ascii) : bool :=
  match s with
  | [] => false
  | a :: s' =>
      let n := nat_of_ascii a in
      (n <? 32) || (n =? 127) ||
      match s' with
      | b :: _ => (n =? 194) && (128 <=? nat_of_ascii b) && (nat_of_ascii b <=? 159)
      | [] => false
      end || has_control s'
  end.

(** [EvolutionActor::audit_label]. *)
Definition audit_label (a : EvolutionActor) : res string :=
  let '(prefix, id) := match a with Human id => ("human", id) | SystemActor id => ("system", id) end in
  let id := trim id in
  guard_res (negb (String.eqb id "")) "evolution actor id cannot be empty" ;;
  guard_res ((String.length id <=? 128) && negb (has_control (bytes id)))
    "evolution actor id cannot exceed 128 bytes or contain control characters" ;;
  Ok (prefix +:+ ":" +:+ id).

Definition is_human (a : EvolutionActor) : bool := match a with Human _ => true | SystemActor _ => false end.

Definition validate_actor (actor : string) : res unit :=
  let actor := trim actor in
  guard_res (negb (String.eqb actor "")) "evolution actor cannot be empty" ;;
  guard_res ((String.length actor <=? 160) && negb (has_control (bytes actor)))
    "evolution actor cannot exceed 160 bytes or contain control characters".

Definition validate_audit_fields (event_type actor : string) : res unit :=
  validate_actor actor ;;
  guard_res (negb (is_blank event_type) && (String.length (trim event_type) <=? 128))
    "evolution audit event type must contain between 1 and 128 bytes".

Definition validate_reason (reason : string) : res unit :=
  guard_res (negb (is_blank reason)) "evolution reason cannot be empty" ;;
  guard_res (chars_count (trim reason) <=? N.to_nat 2000) "evolution reason cannot exceed 2000 characters".

Definition validate_operator_reason (action reason : string) : res unit :=
  guard_res (negb (is_blank reason)) (action +:+ " reason cannot be empty") ;;
  guard_res (chars_count (trim reason) <=? N.to_nat 2000)
    (action +:+ " reason cannot exceed 2000 characters").

Definition clamp_evolution_limit (limit : nat) : nat :=
  if limit =? 0 then 100 else Nat.min limit 500.

(** ** What a patch is *)

(** A patch that was made once is made again from its text, under any limit it fits. *)
Lemma prompt_patch_again value max_chars p limit :
  new_prompt_patch value max_chars = Ok p → (chars_count (pp_text p) ≤ limit)%nat →
  new_prompt_patch (pp_text p) limit = Ok p ∧ (chars_count (pp_text p) ≤ max_chars)%nat.
Proof.
  unfold new_prompt_patch. intros H Hl.
  rewrite guard_then_ok, guard_then_ok in H. destruct H as (Hb & Hc & H).
  destruct (List.find _ _) eqn:Ef; [done|]. injection H as <-. cbn [pp_text] in *.
  rewrite trim_idem, Ef. unfold is_blank in *. rewrite trim_idem. apply Nat.leb_le in Hc.
  split; [|lia]. rewrite guard_then_ok, guard_then_ok. split; [done|]. split; [|done].
  apply Nat.leb_le. lia.
Qed.

(** What [PromptPatch::new] makes: trimmed, not empty, within the limits, and free of the
    markers the harness reserves. *)
Lemma prompt_patch_made value max_chars p :
  new_prompt_patch value max_chars = Ok p →
  pp_text p = trim value ∧ pp_text p ≠ "" ∧
  (chars_count (pp_text p) ≤ Nat.min max_chars ABSOLUTE_MAX_PROMPT_PATCH_CHARS)%nat ∧
  ∀ marker, marker ∈ RESERVED_HARNESS_MARKERS → contains marker (pp_text p) = false.
Proof.
  unfold new_prompt_patch. intros H. rewrite guard_then_ok, guard_then_ok in H. destruct H as (Hb & Hc & H).
  destruct (List.find _ _) eqn:Ef; [done|]. injection H as <-. cbn [pp_text].
  split_and!; [done| |by apply Nat.leb_le|].
  - unfold is_blank in Hb. by destruct (trim value).
  - intros marker Hm. apply (List.find_none _ _ Ef). by apply list_elem_of_In.
Qed.
