(* ===== verification/Skills.v ===== *)
(** * Skills

    src/skills.rs up to its registry: the text of a skill (its front matter, its id, its
    tokens), the scan of a skill's directory, the choice of the skills that fit a query, and
    the prompt they are rendered into. *)

From stdpp Require Import pretty gmap.
From Stdlib Require Import Ascii SpecFloat.
From S2P Require Import Prelude Text Strings Messages External Signals MemBase Floats Recall TimeQuery EvoDomain.
#[local] Open Scope nat_scope.

(** ** Data *)

Inductive SkillActivationMode : Type := SkillSemantic | SkillAlways | SkillOff.
Inductive SkillSourceKind : Type := SkillLocal | SkillCatalog.
Inductive SkillScope : Type := SkillUser | SkillProject.
Inductive SkillListScope : Type := ListUser | ListProject | ListMerged.
Inductive SkillRemoveScope : Type := TargetUser | TargetProject | TargetAll.
Inductive SkillCatalogIndex : Type := IndexOfficial | IndexTeam | IndexAll.

#[export] Instance SkillActivationMode_eq_dec : EqDecision SkillActivationMode.
Proof. solve_decision. Defined.

#[export] Instance SkillSourceKind_eq_dec : EqDecision SkillSourceKind.
Proof. solve_decision. Defined.

Definition mode_text (mode : SkillActivationMode) : string :=
  match mode with SkillSemantic => "semantic" | SkillAlways => "always" | SkillOff => "off" end.

Definition source_kind_text (kind : SkillSourceKind) : string :=
  match kind with SkillLocal => "local" | SkillCatalog => "catalog" end.

Record SkillInstalledConfig : Type := {
  si_enabled : bool;
  si_mode : SkillActivationMode;
  si_source_kind : SkillSourceKind;
  si_source_ref : string;
  si_version : string;
  si_checksum_sha256 : string;
  si_installed_at_unix : Z;
  si_name : string;
  si_description : string;
  si_tags : list string
}.

(** [SkillsConfigFile]: its skills by id. *)
Definition SkillsConfigFile : Type := gmap string SkillInstalledConfig.

Record SkillView : Type := {
  sv_id : string;
  sv_source : string;
  sv_enabled : bool;
  sv_mode : string;
  sv_source_kind : string;
  sv_source_ref : string;
  sv_version : string;
  sv_name : string;
  sv_description : string;
  sv_tags : list string
}.

Record SkillCatalogEntry : Type := {
  sc_id : string;
  sc_name : string;
  sc_description : string;
  sc_tags : list string;
  sc_version : string;
  sc_source_ref : string;
  sc_download_url : string;
  sc_checksum_sha256 : option string;
  sc_keywords : list string;
  sc_catalog : string
}.

Record SkillSearchHit : Type := {
  sh_id : string;
  sh_name : string;
  sh_description : string;
  sh_version : string;
  sh_score : f32;
  sh_source_ref : string;
  sh_catalog : string
}.

Record SkillInstallResult : Type := { sn_id : string; sn_version : string }.

Record SkillUpdateResult : Type := {
  su_touched : nat;
  su_updated : nat;
  su_up_to_date : nat;
  su_skipped_local : nat;
  su_missing : nat
}.

Record ParsedSkillMetadata : Type := { sm_name : string; sm_description : string; sm_tags : list string }.

Definition view_from_config (id source : string) (cfg : SkillInstalledConfig) : SkillView :=
  {| sv_id := id; sv_source := source; sv_enabled := si_enabled cfg; sv_mode := mode_text (si_mode cfg);
     sv_source_kind := source_kind_text (si_source_kind cfg); sv_source_ref := si_source_ref cfg;
     sv_version := si_version cfg; sv_name := si_name cfg; sv_description := si_description cfg;
     sv_tags := si_tags cfg |}.

Definition MAX_SKILL_FILES : nat := 256.
Definition MAX_SKILL_BYTES : N := 2 * 1024 * 1024.
Definition MAX_SKILL_MD_BYTES : N := 200 * 1024.
Definition MAX_SKILL_SNIPPET_CHARS : nat := N.to_nat 2500.

(** ** Text *)

Definition eq_ignore_ascii_case (a b : string) : bool := String.eqb (to_ascii_lowercase a) (to_ascii_lowercase b).

(** The pieces of a text between the characters that satisfy [p]. *)
Fixpoint split_chars (p : string → bool) (cur : string) (cs : list string) : list string :=
  match cs with
  | [] => [cur]
  | c :: cs' => if p c then cur :: split_chars p "" cs' else split_chars p (cur +:+ c) cs'
  end.

(** [s.split(c)] for a character [c]. *)
Definition split_char (c s : string) : list string := split_chars (String.eqb c) "" (chars s).

(** [s.split_once(c)]. *)
Definition split_once (c s : string) : option (string * string) :=
  match split_char c s with
  | a :: (_ :: _) as rest => Some (a, String.concat c rest)
  | _ => None
  end.

Definition reverse_text (s : string) : string := of_bytes (rev (bytes s)).

(** [s.trim_end_matches(c)] and [s.trim_matches(c)] for an ASCII character [c]. *)
Definition trim_end_char (c s : string) : string := reverse_text (trim_start_matches c (reverse_text s)).
Definition trim_char (c s : string) : string := trim_end_char c (trim_start_matches c s).

(** [truncate_chars] of skills.rs. *)
Definition truncate_skill_chars (input : string) (max_chars : nat) : string := take_chars (Nat.max max_chars 1) input.

(** An ASCII letter or digit, [-], [_] or [.]. *)
Definition id_byte (a : ascii) : bool :=
  let n := Ascii.N_of_ascii a in
  ((48 <=? n) && (n <=? 57) || (65 <=? n) && (n <=? 90) || (97 <=? n) && (n <=? 122)
   || (n =? 45) || (n =? 95) || (n =? 46))%N.

Definition is_id_char (c : string) : bool :=
  match c with String a EmptyString => id_byte a | _ => false end.

(** The loop of [normalize_skill_id]. *)
Definition id_char (c : string) : string :=
  if is_id_char c then c else if is_blank c then "-" else "".

Definition normalize_skill_id (raw : string) : res string :=
  let trimmed := to_ascii_lowercase (trim raw) in
  guard_res (negb (String.eqb trimmed "")) "skill id is empty" ;;
  let out := String.concat "" (id_char <$> chars trimmed) in
  guard_res (negb (String.eqb out "")) ("skill id '" +:+ raw +:+ "' has no valid characters") ;;
  Ok out.

Definition scopes_from_remove_scope (scope : SkillRemoveScope) : list SkillScope :=
  match scope with
  | TargetUser => [SkillUser]
  | TargetProject => [SkillProject]
  | TargetAll => [SkillUser; SkillProject]
  end.

(** *** Front matter *)

Definition dquote : string := String (ascii_of_nat 34) "".

Definition parse_tags_line (raw : string) : list string :=
  let trimmed := trim raw in
  let inner := if starts_with trimmed "[" && ends_with trimmed "]"
               then trim_end_char "]" (trim_start_matches "[" trimmed) else trimmed in
  List.filter (λ v, negb (String.eqb v "")) ((λ v, trim_char "'" (trim_char dquote (trim v))) <$> split_char "," inner).

Fixpoint frontmatter_lines (ls : list string) (map : gmap string string) : gmap string string :=
  match ls with
  | [] => map
  | l :: ls' =>
      let line := trim l in
      if String.eqb line "---" then map
      else match split_once ":" line with
           | Some (k, v) => frontmatter_lines ls' (<[to_ascii_lowercase (trim k) := trim v]> map)
           | None => frontmatter_lines ls' map
           end
  end.

Definition parse_frontmatter (markdown : string) : option (gmap string string) :=
  match str_lines markdown with
  | first :: ls => if String.eqb (trim first) "---" then Some (frontmatter_lines ls ∅) else None
  | [] => None
  end.

(** The first line that says something, for the description. *)
Fixpoint described_by (name : string) (ls : list string) : string :=
  match ls with
  | [] => ""
  | l :: ls' =>
      let clean := trim (trim_start_matches "#" (trim l)) in
      if String.eqb clean "" || eq_ignore_ascii_case clean name || starts_with clean "---" then described_by name ls'
      else clean
  end.

Definition parse_skill_markdown_metadata (markdown fallback_id : string) : ParsedSkillMetadata :=
  if String.eqb (trim markdown) "" then {| sm_name := fallback_id; sm_description := ""; sm_tags := [] |}
  else
    let field k := parse_frontmatter markdown ≫= lookup k in
    let name := default "" (field "name") in
    let name := if is_blank name then fallback_id else name in
    let description := default "" (field "description") in
    let description := if is_blank description then described_by name (str_lines markdown) else description in
    let tags := from_option parse_tags_line [] (field "tags") in
    {| sm_name := trim name; sm_description := trim description;
       sm_tags := List.filter (λ v, negb (String.eqb v "")) (trim <$> tags) |}.

(** *** Tokens *)

Section tokens.
  Context `{UC : Unicode}.

Definition is_token_break (c : string) : bool :=
  negb (char_is_alphanumeric c) && negb (String.eqb c "_") && negb (String.eqb c "-").

(** [tokenize_text]: the pieces before they are collected. *)
Definition text_tokens (input : string) : list string :=
  List.filter (λ v, 2 <=? String.length v) ((λ v, to_ascii_lowercase (trim v)) <$> split_chars is_token_break "" (chars input)).

Definition tokenize_text (input : string) : gset string := list_to_set (text_tokens input).

Definition tokens_of (texts : list string) : gset string := list_to_set (texts ≫= text_tokens).

Definition overlap_count (a b : gset string) : nat := size (a ∩ b).

Definition f32_of_nat (n : nat) : f32 := f32_of_Z (Z.of_nat n).

Definition unit_clamp (x : f32) : f32 := f64_clamp f64_zero (f32_of_Z 1) x.

Definition score_catalog_entry (query_raw : string) (query_tokens : gset string) (entry : SkillCatalogEntry) : f32 :=
  let id_lc := to_ascii_lowercase (sc_id entry) in
  let exact_id_boost := if String.eqb query_raw id_lc then f32_of_Z 10
                        else if contains query_raw id_lc then f32_of_Z 4 else f64_zero in
  let name_tokens := tokenize_text (sc_name entry) in
  let tags_tokens := tokens_of (sc_tags entry) in
  let desc_tokens := tokenize_text (sc_description entry) in
  let keyword_tokens := tokens_of (sc_keywords entry) ∪ name_tokens ∪ desc_tokens ∪ tags_tokens in
  let weighted tokens weight := f32_mul (f32_of_nat (overlap_count query_tokens tokens)) (f32_of_Z weight) in
  let raw := f32_add (f32_add (f32_add (f32_add exact_id_boost (weighted name_tokens 5%Z)) (weighted tags_tokens 4%Z))
               (weighted desc_tokens 3%Z)) (weighted keyword_tokens 2%Z) in
  unit_clamp (f32_div raw (f32_of_Z 16)).

Definition build_skill_token_set (id name description : string) (tags : list string) (content : string) : gset string :=
  tokenize_text id ∪ tokenize_text name ∪ tokenize_text description ∪ tokens_of tags
    ∪ tokenize_text (truncate_skill_chars content (N.to_nat 4096)).
End tokens.

(** ** The scan of a directory *)

(** What the walk of a directory finds under it, with the length of each file.  A symbolic
    link is not followed; [Unreadable]: the entry or its metadata cannot be read. *)
Inductive SourceEntry : Type :=
| SourceLink (name : string)
| SourceDir (name : string) (children : option (list SourceEntry))
| SourceFile (name : string) (len : N)
| SourceOther (name : string)
| Unreadable (name : string).

Definition Path : Type := list string.

Definition path_text (p : Path) : string :=
  match p with
  | "/" :: rest => "/" +:+ String.concat "/" rest
  | _ => String.concat "/" p
  end.

(** [PathBuf::join] with one name: a path is its components, among which [.] does not
    count. *)
Definition path_join (p : Path) (name : string) : Path := if String.eqb name "." then p else p ++ [name].

Definition path_parent (p : Path) : option Path :=
  match rev p with
  | [] => None
  | last :: _ => if String.eqb last "/" then None else Some (removelast p)
  end.

(** [Path::file_name]. *)
Definition path_file_name (p : Path) : option string :=
  match rev p with
  | [] => None
  | last :: _ => if String.eqb last "/" || String.eqb last ".." then None else Some last
  end.

Record ScannedLocalFile : Type := { sf_absolute : Path; sf_relative : Path }.

Record LocalSkillScan : Type := { ls_files : list ScannedLocalFile; ls_skill_md_content : string }.

Definition too_many_files : string := "skill package has too many files (> " +:+ pretty (N.of_nat MAX_SKILL_FILES) +:+ ")".

Definition saturating_add_u64 (a b : N) : N := N.min (a + b) (2 ^ 64 - 1).

Section scan.
  Context (root : Path).

(** [scan_local_skill_dir] on one entry below [rel]; the walk of a directory is a loop over
    its entries that stops at the first error. *)
Fixpoint scan_entry (rel : Path) (e : SourceEntry) (acc : list ScannedLocalFile * N) : res (list ScannedLocalFile * N) :=
  match e with
  | SourceLink name => Err ("symlink is not allowed in skill package: " +:+ path_text (root ++ rel ++ [name]))
  | SourceDir name None => Err ("failed to read dir '" +:+ path_text (root ++ rel ++ [name]) +:+ "'")
  | SourceDir name (Some entries) =>
      (fix scan_all (l : list SourceEntry) (acc : list ScannedLocalFile * N) : res (list ScannedLocalFile * N) :=
         match l with
         | [] => Ok acc
         | e' :: l' => match scan_entry (rel ++ [name]) e' acc with Ok acc' => scan_all l' acc' | Err m => Err m end
         end) entries acc
  | SourceFile name len =>
      let relative := rel ++ [name] in
      if existsb (λ c, String.eqb c ".." || String.eqb c "/") relative
      then Err ("invalid path in skill package: " +:+ path_text relative)
      else
        let files := acc.1 ++ [{| sf_absolute := root ++ relative; sf_relative := relative |}] in
        guard_res (length files <=? MAX_SKILL_FILES) too_many_files ;;
        Ok (files, saturating_add_u64 acc.2 len)
  | SourceOther _ => Ok acc
  | Unreadable name => Err ("failed to stat '" +:+ path_text (root ++ rel ++ [name]) +:+ "'")
  end.

(** [scan_local_skill_dir] at the root. *)
Definition scan_local_skill_dir (entries : option (list SourceEntry)) : res (list ScannedLocalFile * N) :=
  l ← context_res ("failed to read dir '" +:+ path_text root +:+ "'") entries;
  for_res (scan_entry []) l ([], 0%N).
End scan.

(** ** The runtime *)

Record SkillRuntimeSelectionSettings : Type := {
  ss_max_selected : nat;
  ss_max_prompt_chars : nat;
  ss_match_min_score : f32
}.

Record SelectedSkill : Type := {
  sl_id : string;
  sl_mode : SkillActivationMode;
  sl_score : f32;
  sl_name : string;
  sl_description : string;
  sl_tags : list string;
  sl_content : string
}.

(** [SkillSelection]: its skills. *)
Definition SkillSelection : Type := list SelectedSkill.

Record SkillRuntimeEntry : Type := {
  sr_id : string;
  sr_enabled : bool;
  sr_mode : SkillActivationMode;
  sr_name : string;
  sr_description : string;
  sr_tags : list string;
  sr_content : string;
  sr_token_set : gset string
}.

(** [SkillRuntime]: its skills. *)
Definition SkillRuntime : Type := list SkillRuntimeEntry.

Definition semantic_skill_runtime_score (query_tokens : gset string) (skill : SkillRuntimeEntry) : f32 :=
  if size query_tokens =? 0 then f64_zero
  else
    let matched := f32_of_nat (overlap_count query_tokens (sr_token_set skill)) in
    unit_clamp (f32_div matched (f32_of_nat (Nat.max (size query_tokens) 1))).

Definition is_always (skill : SkillRuntimeEntry) : bool := bool_decide (sr_mode skill = SkillAlways).

(** The two closures of [select]: the skills in use, and the score of one that fits. *)
Definition in_use (skill : SkillRuntimeEntry) : bool := sr_enabled skill && negb (bool_decide (sr_mode skill = SkillOff)).

Definition skill_score (query_tokens : gset string) (skill : SkillRuntimeEntry) : f32 :=
  match sr_mode skill with
  | SkillAlways => f32_of_Z 2
  | SkillSemantic => semantic_skill_runtime_score query_tokens skill
  | SkillOff => f64_zero
  end.

Definition candidate (query_tokens : gset string) (min_score : f32) (skill : SkillRuntimeEntry)
    : option (SkillRuntimeEntry * f32) :=
  let score := skill_score query_tokens skill in
  if is_always skill || f64_le min_score score then Some (skill, score) else None.

(** The comparison of [sort_by]: skills that are always on, then better scores, then ids. *)
Definition skill_before (a b : SkillRuntimeEntry * f32) : bool :=
  match Bool.compare (is_always b.1) (is_always a.1) with
  | Lt => true
  | Gt => false
  | Eq => match SFcompare b.2 a.2 with
          | Some Lt => true
          | Some Gt => false
          | _ => String.leb (sr_id a.1) (sr_id b.1)
          end
  end.

Definition selected_of (c : SkillRuntimeEntry * f32) : SelectedSkill :=
  let '(skill, score) := c in
  {| sl_id := sr_id skill; sl_mode := sr_mode skill; sl_score := score; sl_name := sr_name skill;
     sl_description := sr_description skill; sl_tags := sr_tags skill; sl_content := sr_content skill |}.

Definition skills_header : string :=
  "SKILLS_CONTEXT:" +:+ newline +:+
  "Follow these installed skill instructions when they are relevant to the user request." +:+ newline.

Definition skill_section (n : nat) (skill : SelectedSkill) : string :=
  newline +:+ "[Skill " +:+ pretty (N.of_nat n) +:+ "]" +:+ newline +:+
  "- id: " +:+ sl_id skill +:+ newline +:+
  "- mode: " +:+ mode_text (sl_mode skill) +:+ newline +:+
  "- score: " +:+ f64_fixed 3 (sl_score skill) +:+ newline +:+
  "- name: " +:+ sl_name skill +:+ newline +:+
  "- description: " +:+ sl_description skill +:+ newline +:+
  "- tags: " +:+ join_with "," (sl_tags skill) +:+ newline +:+
  "Instructions:" +:+ newline +:+ truncate_skill_chars (sl_content skill) MAX_SKILL_SNIPPET_CHARS +:+ newline.

(** The loop over the selection, with what is left of the budget. *)
Fixpoint render_sections (budget idx : nat) (skills : SkillSelection) (out : string) : string :=
  match skills with
  | [] => out
  | skill :: skills' =>
      if budget <? 64 then out
      else
        let section := skill_section (S idx) skill in
        let section_len := chars_count section in
        if budget <? section_len then out
        else render_sections (budget - section_len) (S idx) skills' (out +:+ section)
  end.

Definition render_system_prompt (selection : SkillSelection) (max_prompt_chars : nat) : option string :=
  match selection with
  | [] => None
  | _ =>
      let budget := Nat.max max_prompt_chars 256 in
      if budget <=? chars_count skills_header then None
      else
        let out := render_sections (budget - chars_count skills_header) 0 selection skills_header in
        if String.length "SKILLS_CONTEXT:" <? String.length (trim out) then Some out else None
  end.

Section runtime.
  Context `{UC : Unicode}.

Definition select (skills : SkillRuntime) (query : string) (settings : SkillRuntimeSelectionSettings) : SkillSelection :=
  let query_tokens := tokenize_text query in
  let candidates := omap (candidate query_tokens (ss_match_min_score settings)) (List.filter in_use skills) in
  selected_of <$> take (Nat.max (ss_max_selected settings) 1) (order_by skill_before candidates).

Definition build_system_prompt (skills : SkillRuntime) (query : string) (settings : SkillRuntimeSelectionSettings)
    : option string :=
  render_system_prompt (select skills query settings) (ss_max_prompt_chars settings).
End runtime.
