(* ===== verification/SkillStore.v ===== *)
(** * The skill registry and its commands

    The registry of src/skills.rs - two configuration files, a directory of skills for each,
    the catalogs they are installed from - the runtime that is loaded from it, and
    src/skills_commands.rs, the commands that change it.  The file system, the network, the
    TOML of a configuration and the JSON of a catalog are outside. *)

From stdpp Require Import pretty gmap.
From Stdlib Require Import Ascii SpecFloat.
From S2P Require Import Prelude Text Strings Messages External Domain Signals MemBase Floats Recall TimeQuery EvoDomain Skills.
#[local] Open Scope nat_scope.

(** ** Outside of the program *)

(** The file system at a moment: what can be asked of it, and what it does when it is told
    to; [false]: with an error, maybe half-way. *)
Class SkillDisk (D : Type) : Type := {
  disk_exists : D → Path → bool;
  disk_is_dir : D → Path → bool;
  disk_canonicalize : D → Path → option Path;
  disk_read_to_string : D → Path → option string;
  disk_len : D → Path → option N;
  disk_tree : D → Path → option (list SourceEntry);
  disk_create_dir_all : Path → D → bool * D;
  disk_remove_dir_all : Path → D → bool * D;
  disk_write : Path → string → D → bool * D;
  disk_copy : Path → Path → D → bool * D;
  disk_rename : Path → Path → D → bool * D
}.

(** [toml::from_str] and [toml::to_string_pretty]. *)
Class SkillsToml : Type := {
  toml_parse : string → option SkillsConfigFile;
  toml_text : SkillsConfigFile → option string
}.

(** A [GET]: it cannot be sent, or its body cannot be read, or there is a status and a body. *)
Inductive HttpOutcome : Type :=
| HttpUnsent
| HttpUnread (status : N)
| HttpResponse (status : N) (body : string).

Record TeamCatalogSkill : Type := {
  tk_id : string;
  tk_name : option string;
  tk_description : option string;
  tk_tags : list string;
  tk_version : option string;
  tk_source_ref : option string;
  tk_download_url : option string;
  tk_checksum_sha256 : option string;
  tk_keywords : list string
}.

(** The network at a moment, the text of a status, the two JSON formats - the items of
    GitHub by name and type, the skills of a team - and the variable that names the team's
    index. *)
Class SkillNet : Type := {
  net_get : nat → string → HttpOutcome;
  status_text : N → string;
  official_json : string → option (list (string * string));
  team_json : string → option (list TeamCatalogSkill);
  team_index_url : option string
}.

(** A [HashMap] is walked in an arbitrary order. *)
Class SkillOrder : Type := skill_order : ∀ A, nat → list (string * A) → list (string * A).

Class SkillOrderLaw (SO : SkillOrder) : Prop := skill_order_permutes A n l : skill_order A n l ≡ₚ l.

(** ** Paths *)

Record SkillConfigPaths : Type := {
  cp_user_config : Path;
  cp_project_config : Path;
  cp_user_dir : Path;
  cp_project_dir : Path
}.

(** [SkillConfigPaths::discover], from the environment and the directories of the user. *)
Definition discover (env : string → option Path) (config_dir data_dir : option Path) (cwd : Path) : res SkillConfigPaths :=
  user_config ← match env "XIAOMAOLV_SKILLS_USER_CONFIG" with
                | Some p => Ok p
                | None => base ← context_res "cannot resolve user config directory" config_dir;
                          Ok (path_join (path_join base "xiaomaolv") "skills.toml")
                end;
  let project_config := default (path_join (path_join cwd ".xiaomaolv") "skills.toml")
                          (env "XIAOMAOLV_SKILLS_PROJECT_CONFIG") in
  user_dir ← match env "XIAOMAOLV_SKILLS_USER_DIR" with
             | Some p => Ok p
             | None => base ← context_res "cannot resolve user data directory"
                                (match data_dir with Some d => Some d | None => config_dir end);
                       Ok (path_join (path_join base "xiaomaolv") "skills")
             end;
  let project_dir := default (path_join (path_join cwd ".xiaomaolv") "skills") (env "XIAOMAOLV_SKILLS_PROJECT_DIR") in
  Ok {| cp_user_config := user_config; cp_project_config := project_config; cp_user_dir := user_dir;
        cp_project_dir := project_dir |}.

Section registry.
  Context {D : Type} `{SD : !SkillDisk D} `{ST : SkillsToml} `{SN : SkillNet} `{SO : SkillOrder}.
  Context `{CLK : Clock} `{UC : Unicode} `{SH : Sha256}.
  Context (paths : SkillConfigPaths).

Abbreviation FS := (M D).

(** A step of the file system, with the context of its error. *)
Definition disk_step (e : string) (step : D → bool * D) : FS unit := λ w,
  let '(done, d) := step (w_db w) in (if done then Ok tt else Err e, World d (w_tick w) (w_ids w)).

Definition http_get (url : string) : FS HttpOutcome := n ← tick; mret (net_get n url).

Definition path_for (scope : SkillScope) : Path :=
  match scope with SkillUser => cp_user_config paths | SkillProject => cp_project_config paths end.

Definition skill_dir_for (scope : SkillScope) (id : string) : Path :=
  match scope with SkillUser => path_join (cp_user_dir paths) id | SkillProject => path_join (cp_project_dir paths) id end.

(** ** Configuration files *)

Definition load_scope (scope : SkillScope) : FS SkillsConfigFile :=
  d ← get_db;
  let path := path_for scope in
  if negb (disk_exists d path) then mret ∅
  else
    content ← context ("failed to read skills config " +:+ path_text path) (disk_read_to_string d path);
    context ("failed to parse skills config " +:+ path_text path) (toml_parse content).

Definition save_scope (scope : SkillScope) (file : SkillsConfigFile) : FS unit :=
  let path := path_for scope in
  match path_parent path with
  | Some parent => disk_step ("failed to create skills config dir " +:+ path_text parent) (disk_create_dir_all parent)
  | None => mret tt
  end ;;
  content ← context "failed to serialize skills config" (toml_text file);
  disk_step ("failed to write skills config " +:+ path_text path) (disk_write path content).

Definition load_merged_with_source : FS (gmap string (string * SkillInstalledConfig)) :=
  user ← load_scope SkillUser;
  project ← load_scope SkillProject;
  mret ((pair "project" <$> project) ∪ (pair "user" <$> user)).

Definition load_merged : FS (gmap string SkillInstalledConfig) := merged ← load_merged_with_source; mret (snd <$> merged).

Definition list_skills (scope : SkillListScope) : FS (list SkillView) :=
  match scope with
  | ListUser =>
      file ← load_scope SkillUser; n ← tick;
      mret ((λ '(id, cfg), view_from_config id "user" cfg) <$> skill_order _ n (map_to_list file))
  | ListProject =>
      file ← load_scope SkillProject; n ← tick;
      mret ((λ '(id, cfg), view_from_config id "project" cfg) <$> skill_order _ n (map_to_list file))
  | ListMerged =>
      merged ← load_merged_with_source; n ← tick;
      mret ((λ '(id, (source, cfg)), view_from_config id source cfg) <$> skill_order _ n (map_to_list merged))
  end.

Definition upsert_skill_record (scope : SkillScope) (id : string) (record : SkillInstalledConfig) : FS unit :=
  file ← load_scope scope;
  save_scope scope (<[id := record]> file).

Definition remove_skill_in_scope (scope : SkillScope) (id : string) : FS bool :=
  file ← load_scope scope;
  match file !! id with
  | None => mret false
  | Some _ =>
      save_scope scope (delete id file) ;;
      let dir := skill_dir_for scope id in
      d ← get_db;
      (if disk_exists d dir
       then disk_step ("failed to remove skill dir " +:+ path_text dir) (disk_remove_dir_all dir) else mret tt) ;;
      mret true
  end.

Definition remove_skill (scope : SkillRemoveScope) (id : string) : FS bool :=
  id ← lift_res (normalize_skill_id id);
  match scope with
  | TargetUser => remove_skill_in_scope SkillUser id
  | TargetProject => remove_skill_in_scope SkillProject id
  | TargetAll =>
      user ← remove_skill_in_scope SkillUser id;
      project ← remove_skill_in_scope SkillProject id;
      mret (user || project)
  end.

Definition with_mode (mode : SkillActivationMode) (cfg : SkillInstalledConfig) : SkillInstalledConfig :=
  {| si_enabled := negb (bool_decide (mode = SkillOff)); si_mode := mode; si_source_kind := si_source_kind cfg;
     si_source_ref := si_source_ref cfg; si_version := si_version cfg; si_checksum_sha256 := si_checksum_sha256 cfg;
     si_installed_at_unix := si_installed_at_unix cfg; si_name := si_name cfg; si_description := si_description cfg;
     si_tags := si_tags cfg |}.

(** The loop of [set_skill_mode] over its scopes. *)
Fixpoint set_mode_in (targets : list SkillScope) (id : string) (mode : SkillActivationMode) (changed : nat) : FS nat :=
  match targets with
  | [] => mret changed
  | target :: targets' =>
      file ← load_scope target;
      match file !! id with
      | Some cfg => save_scope target (<[id := with_mode mode cfg]> file) ;; set_mode_in targets' id mode (S changed)
      | None => set_mode_in targets' id mode changed
      end
  end.

Definition set_skill_mode (scope : SkillRemoveScope) (id : string) (mode : SkillActivationMode) : FS nat :=
  id ← lift_res (normalize_skill_id id);
  set_mode_in (scopes_from_remove_scope scope) id mode 0.

(** ** Directories of skills *)

(** The directory in which a new skill is put together, after its parent has been made. *)
Definition make_tmp_dir (dest_dir : Path) : FS Path :=
  parent ← context ("invalid destination dir " +:+ path_text dest_dir) (path_parent dest_dir);
  disk_step ("failed to create dir " +:+ path_text parent) (disk_create_dir_all parent) ;;
  now ← unix_now;
  let tmp_dir := path_join parent (".tmp-" +:+ default "skill" (path_file_name dest_dir) +:+ "-" +:+ pretty now) in
  d ← get_db;
  (if disk_exists d tmp_dir then ignore_error (disk_step "" (disk_remove_dir_all tmp_dir)) else mret tt) ;;
  disk_step ("failed to create tmp dir " +:+ path_text tmp_dir) (disk_create_dir_all tmp_dir) ;;
  mret tmp_dir.

(** The finished directory takes the place of the old one. *)
Definition move_into_place (tmp_dir dest_dir : Path) : FS unit :=
  d ← get_db;
  (if disk_exists d dest_dir
   then disk_step ("failed to remove existing skill dir '" +:+ path_text dest_dir +:+ "'") (disk_remove_dir_all dest_dir)
   else mret tt) ;;
  disk_step ("failed to move tmp skill dir '" +:+ path_text tmp_dir +:+ "' to '" +:+ path_text dest_dir +:+ "'")
    (disk_rename tmp_dir dest_dir).

Definition copy_file (tmp_dir : Path) (file : ScannedLocalFile) : FS unit :=
  let target := tmp_dir ++ sf_relative file in
  match path_parent target with
  | Some parent => disk_step ("failed to create skill subdir " +:+ path_text parent) (disk_create_dir_all parent)
  | None => mret tt
  end ;;
  disk_step ("failed to copy '" +:+ path_text (sf_absolute file) +:+ "' to '" +:+ path_text target +:+ "'")
    (disk_copy (sf_absolute file) target).

Definition write_skill_tree (dest_dir : Path) (files : list ScannedLocalFile) : FS unit :=
  tmp_dir ← make_tmp_dir dest_dir;
  foreach files (copy_file tmp_dir) ;;
  move_into_place tmp_dir dest_dir.

Definition write_catalog_skill_dir (dest_dir : Path) (markdown : string) : FS unit :=
  tmp_dir ← make_tmp_dir dest_dir;
  disk_step ("failed to write catalog skill " +:+ path_text tmp_dir) (disk_write (path_join tmp_dir "SKILL.md") markdown) ;;
  move_into_place tmp_dir dest_dir.

(** ** Installing *)

Definition scan_local_skill_source (root : Path) : FS LocalSkillScan :=
  d ← get_db;
  ensure (disk_is_dir d root) ("'" +:+ path_text root +:+ "' is not a directory") ;;
  scanned ← lift_res (scan_local_skill_dir root (disk_tree d root));
  let '(files, total_bytes) := scanned in
  ensure (length files <=? MAX_SKILL_FILES) too_many_files ;;
  ensure (total_bytes <=? MAX_SKILL_BYTES)%N ("skill package exceeds " +:+ pretty MAX_SKILL_BYTES +:+ " bytes") ;;
  skill_md ← context ("missing SKILL.md in '" +:+ path_text root +:+ "'")
    (List.find (λ f, bool_decide (sf_relative f = ["SKILL.md"])) files);
  len ← context ("failed to stat skill metadata file '" +:+ path_text (sf_absolute skill_md) +:+ "'")
    (disk_len d (sf_absolute skill_md));
  ensure (len <=? MAX_SKILL_MD_BYTES)%N ("SKILL.md exceeds " +:+ pretty MAX_SKILL_MD_BYTES +:+ " bytes") ;;
  content ← context ("failed to read '" +:+ path_text (sf_absolute skill_md) +:+ "'")
    (disk_read_to_string d (sf_absolute skill_md));
  mret {| ls_files := files; ls_skill_md_content := content |}.

Definition install_local_skill (scope : SkillScope) (source_dir : Path) (explicit_id : option string)
    (mode : SkillActivationMode) : FS SkillInstallResult :=
  d ← get_db;
  source_dir ← context ("failed to resolve skill path " +:+ path_text source_dir) (disk_canonicalize d source_dir);
  ensure (disk_is_dir d source_dir) ("skill path '" +:+ path_text source_dir +:+ "' is not a directory") ;;
  scan ← scan_local_skill_source source_dir;
  let derived_id := default (default "skill" (path_file_name source_dir)) explicit_id in
  skill_id ← lift_res (normalize_skill_id derived_id);
  let dest_dir := skill_dir_for scope skill_id in
  let meta := parse_skill_markdown_metadata (ls_skill_md_content scan) skill_id in
  now ← unix_now;
  let version := "local-" +:+ pretty now in
  write_skill_tree dest_dir (ls_files scan) ;;
  upsert_skill_record scope skill_id
    {| si_enabled := negb (bool_decide (mode = SkillOff)); si_mode := mode; si_source_kind := SkillLocal;
       si_source_ref := path_text source_dir; si_version := version;
       si_checksum_sha256 := sha256_hex (ls_skill_md_content scan); si_installed_at_unix := now;
       si_name := sm_name meta; si_description := sm_description meta; si_tags := sm_tags meta |} ;;
  mret {| sn_id := skill_id; sn_version := version |}.

Definition is_success (status : N) : bool := (200 <=? status)%N && (status <? 300)%N.

Definition download_catalog_skill (entry : SkillCatalogEntry) : FS string :=
  response ← http_get (sc_download_url entry);
  match response with
  | HttpUnsent => throw ("failed to fetch skill '" +:+ sc_id entry +:+ "'")
  | HttpUnread _ => throw "failed to decode skill download body"
  | HttpResponse status body =>
      ensure (is_success status)
        ("download skill '" +:+ sc_id entry +:+ "' failed: " +:+ status_text status +:+ " " +:+ body) ;;
      mret body
  end.

(** The checksum a catalog promises is absent, blank, or right. *)
Definition checksum_agrees (expected : option string) (checksum : string) : bool :=
  match expected with
  | Some expect => is_blank expect || eq_ignore_ascii_case expect checksum
  | None => true
  end.

Definition or_else_text (a b : string) : string := if String.eqb a "" then b else a.

Definition catalog_record (entry : SkillCatalogEntry) (markdown skill_id : string)
    (mode_override : option SkillActivationMode) (enabled_override : option bool) (now : Z) : SkillInstalledConfig :=
  let parsed := parse_skill_markdown_metadata markdown skill_id in
  let mode := default SkillSemantic mode_override in
  {| si_enabled := default (negb (bool_decide (mode = SkillOff))) enabled_override; si_mode := mode;
     si_source_kind := SkillCatalog; si_source_ref := sc_source_ref entry; si_version := sc_version entry;
     si_checksum_sha256 := sha256_hex markdown; si_installed_at_unix := now;
     si_name := or_else_text (sm_name parsed) (sc_name entry);
     si_description := or_else_text (sm_description parsed) (sc_description entry);
     si_tags := match sm_tags parsed with [] => sc_tags entry | tags => tags end |}.

Definition install_catalog_skill_with_override (scope : SkillScope) (entry : SkillCatalogEntry)
    (mode_override : option SkillActivationMode) (enabled_override : option bool) : FS SkillInstallResult :=
  skill_id ← lift_res (normalize_skill_id (sc_id entry));
  markdown ← download_catalog_skill entry;
  ensure (checksum_agrees (sc_checksum_sha256 entry) (sha256_hex markdown))
    ("catalog checksum mismatch for skill '" +:+ skill_id +:+ "'") ;;
  ensure (N.of_nat (String.length markdown) <=? MAX_SKILL_MD_BYTES)%N
    ("catalog skill '" +:+ skill_id +:+ "' SKILL.md exceeds " +:+ pretty MAX_SKILL_MD_BYTES +:+ " bytes") ;;
  write_catalog_skill_dir (skill_dir_for scope skill_id) markdown ;;
  now ← unix_now;
  upsert_skill_record scope skill_id (catalog_record entry markdown skill_id mode_override enabled_override now) ;;
  mret {| sn_id := skill_id; sn_version := sc_version entry |}.

Definition install_catalog_skill (scope : SkillScope) (entry : SkillCatalogEntry) (mode : SkillActivationMode)
    : FS SkillInstallResult :=
  install_catalog_skill_with_override scope entry (Some mode) None.

(** ** Catalogs *)

Definition official_api_url : string := "https://api.github.com/repos/openai/skills/contents/skills/.curated".
Definition official_raw_base : string := "https://raw.githubusercontent.com/openai/skills/main/skills/.curated".

Definition official_entry (id : string) : SkillCatalogEntry :=
  let description := "Curated skill '" +:+ id +:+ "' from openai/skills." in
  {| sc_id := id; sc_name := id; sc_description := description;
     sc_tags := List.filter (λ v, negb (String.eqb v ""))
                  (split_chars (λ c, String.eqb c "-" || String.eqb c "_" || String.eqb c ".") "" (chars id));
     sc_version := "main"; sc_source_ref := "openai/skills:skills/.curated/" +:+ id +:+ "@main";
     sc_download_url := official_raw_base +:+ "/" +:+ id +:+ "/SKILL.md"; sc_checksum_sha256 := None;
     sc_keywords := elements (tokenize_text id) ++ elements (tokenize_text description); sc_catalog := "official" |}.

Definition official_item (item : string * string) (out : list SkillCatalogEntry) : res (list SkillCatalogEntry) :=
  let '(name, item_type) := item in
  if negb (String.eqb item_type "dir") then Ok out
  else id ← normalize_skill_id name; Ok (out ++ [official_entry id]).

Definition load_official_catalog : FS (list SkillCatalogEntry) :=
  response ← http_get official_api_url;
  match response with
  | HttpUnsent => throw "failed to fetch official catalog"
  | HttpUnread _ => throw "failed to decode official catalog response"
  | HttpResponse status body =>
      ensure (is_success status) ("official catalog fetch failed: " +:+ status_text status +:+ " " +:+ body) ;;
      items ← context "failed to decode official catalog json" (official_json body);
      lift_res (for_res official_item items [])
  end.

Definition nonblank (s : option string) : option string := v ← s; if is_blank v then None else Some v.

Definition team_entry (id download_url : string) (raw : TeamCatalogSkill) : SkillCatalogEntry :=
  let name := default id (nonblank (tk_name raw)) in
  let description := default "" (tk_description raw) in
  let version := default "latest" (tk_version raw) in
  {| sc_id := id; sc_name := name; sc_description := description; sc_tags := tk_tags raw; sc_version := version;
     sc_source_ref := default ("team:" +:+ id +:+ "@" +:+ version) (nonblank (tk_source_ref raw));
     sc_download_url := download_url; sc_checksum_sha256 := tk_checksum_sha256 raw;
     sc_keywords := tk_keywords raw ++ elements (tokenize_text name) ++ elements (tokenize_text description);
     sc_catalog := "team" |}.

Definition team_item (raw : TeamCatalogSkill) (out : list SkillCatalogEntry) : res (list SkillCatalogEntry) :=
  id ← normalize_skill_id (tk_id raw);
  match nonblank (tk_download_url raw) with
  | None => Ok out
  | Some download_url => Ok (out ++ [team_entry id download_url raw])
  end.

Definition load_team_catalog : FS (list SkillCatalogEntry) :=
  match trim <$> team_index_url with
  | None => mret []
  | Some url =>
      if String.eqb url "" then mret []
      else
        response ← http_get url;
        match response with
        | HttpUnsent => throw ("failed to fetch team catalog from " +:+ url)
        | HttpUnread _ => throw "failed to decode team catalog response"
        | HttpResponse status body =>
            ensure (is_success status) ("team catalog fetch failed: " +:+ status_text status +:+ " " +:+ body) ;;
            payload ← context "failed to decode team catalog json" (team_json body);
            lift_res (for_res team_item payload [])
        end
  end.

Definition load_catalog_entries (index : SkillCatalogIndex) : FS (list SkillCatalogEntry) :=
  match index with
  | IndexOfficial => load_official_catalog
  | IndexTeam => load_team_catalog
  | IndexAll =>
      official ← catch load_official_catalog;
      team ← catch load_team_catalog;
      let entries r := match r with Ok l => l | Err _ => [] end in
      ensure (is_ok official || is_ok team) "failed to load all skill catalogs" ;;
      mret (entries official ++ entries team)
  end.

Definition probe_official_entry_by_id (normalized_id : string) : FS (option SkillCatalogEntry) :=
  let download_url := official_raw_base +:+ "/" +:+ normalized_id +:+ "/SKILL.md" in
  response ← http_get download_url;
  match response with
  | HttpUnsent => throw ("failed to probe official skill '" +:+ normalized_id +:+ "'")
  | HttpUnread status =>
      if (status =? 404)%N then mret None else throw "failed to decode official skill probe response"
  | HttpResponse status body =>
      if (status =? 404)%N then mret None
      else
        ensure (is_success status)
          ("official skill probe failed for '" +:+ normalized_id +:+ "': " +:+ status_text status +:+ " " +:+ body) ;;
        if is_blank body then mret None
        else
          ensure (N.of_nat (String.length body) <=? MAX_SKILL_MD_BYTES)%N
            ("official skill '" +:+ normalized_id +:+ "' SKILL.md exceeds " +:+ pretty MAX_SKILL_MD_BYTES +:+ " bytes") ;;
          let meta := parse_skill_markdown_metadata body normalized_id in
          mret (Some {| sc_id := normalized_id; sc_name := sm_name meta; sc_description := sm_description meta;
            sc_tags := sm_tags meta; sc_version := "main";
            sc_source_ref := "openai/skills:skills/.curated/" +:+ normalized_id +:+ "@main";
            sc_download_url := download_url; sc_checksum_sha256 := Some (sha256_hex body);
            sc_keywords := elements (tokenize_text normalized_id) ++ elements (tokenize_text (sm_name meta))
                             ++ elements (tokenize_text (sm_description meta));
            sc_catalog := "official" |})
  end.

Definition with_id (id : string) (entry : SkillCatalogEntry) : bool := eq_ignore_ascii_case (sc_id entry) id.

Definition find_catalog_entry_exact (id : string) (index : SkillCatalogIndex) : FS (option SkillCatalogEntry) :=
  normalized ← lift_res (normalize_skill_id id);
  let listed :=
    entries ← catch (load_catalog_entries index);
    mret (match entries with Ok l => List.find (with_id normalized) l | Err _ => None end) in
  match index with
  | IndexOfficial => probe_official_entry_by_id normalized
  | IndexAll =>
      probed ← probe_official_entry_by_id normalized;
      match probed with Some entry => mret (Some entry) | None => listed end
  | IndexTeam => listed
  end.

Definition search_hit (query : string) (tokens : gset string) (entry : SkillCatalogEntry) : SkillSearchHit :=
  {| sh_id := sc_id entry; sh_name := sc_name entry; sh_description := sc_description entry;
     sh_version := sc_version entry; sh_score := score_catalog_entry query tokens entry;
     sh_source_ref := sc_source_ref entry; sh_catalog := sc_catalog entry |}.

(** The comparison of [sort_by]: better scores, then ids. *)
Definition hit_before (a b : SkillSearchHit) : bool :=
  match SFcompare (sh_score b) (sh_score a) with
  | Some Lt => true
  | Some Gt => false
  | _ => String.leb (sh_id a) (sh_id b)
  end.

Definition search_catalog (query : string) (top : nat) (index : SkillCatalogIndex) : FS (list SkillSearchHit) :=
  let normalized_query := to_ascii_lowercase (trim query) in
  ensure (negb (String.eqb normalized_query "")) "search query is empty" ;;
  entries ← load_catalog_entries index;
  let hits := search_hit normalized_query (tokenize_text normalized_query) <$> entries in
  mret (take (Nat.max top 1) (order_by hit_before (List.filter (λ h, f64_lt f64_zero (sh_score h)) hits))).

(** ** Updating *)

Definition no_update : SkillUpdateResult :=
  {| su_touched := 0; su_updated := 0; su_up_to_date := 0; su_skipped_local := 0; su_missing := 0 |}.

Definition count_missing (r : SkillUpdateResult) : SkillUpdateResult :=
  {| su_touched := su_touched r; su_updated := su_updated r; su_up_to_date := su_up_to_date r;
     su_skipped_local := su_skipped_local r; su_missing := S (su_missing r) |}.

(** What an installed skill adds: it is updated, up to date, or a local one. *)
Definition count_touched (updated up_to_date skipped_local : nat) (r : SkillUpdateResult) : SkillUpdateResult :=
  {| su_touched := S (su_touched r); su_updated := updated + su_updated r; su_up_to_date := up_to_date + su_up_to_date r;
     su_skipped_local := skipped_local + su_skipped_local r; su_missing := su_missing r |}.

Definition with_checksum (checksum : string) (entry : SkillCatalogEntry) : SkillCatalogEntry :=
  {| sc_id := sc_id entry; sc_name := sc_name entry; sc_description := sc_description entry; sc_tags := sc_tags entry;
     sc_version := sc_version entry; sc_source_ref := sc_source_ref entry; sc_download_url := sc_download_url entry;
     sc_checksum_sha256 := Some checksum; sc_keywords := sc_keywords entry; sc_catalog := sc_catalog entry |}.

Definition update_index (installed : SkillInstalledConfig) (index : SkillCatalogIndex) : SkillCatalogIndex :=
  if starts_with (si_source_ref installed) "openai/skills:" then IndexOfficial
  else if starts_with (si_source_ref installed) "team:" then IndexTeam else index.

(** One scope of [update_skill]. *)
Definition update_in_scope (target : SkillScope) (id : string) (to_version : option string) (latest : bool)
    (index : SkillCatalogIndex) (out : SkillUpdateResult) : FS SkillUpdateResult :=
  file ← load_scope target;
  match file !! id with
  | None => mret (count_missing out)
  | Some installed =>
      if negb (bool_decide (si_source_kind installed = SkillCatalog)) then mret (count_touched 0 0 1 out)
      else
        entries ← load_catalog_entries (update_index installed index);
        entry ← context ("catalog entry '" +:+ id +:+ "' not found") (List.find (with_id id) entries);
        match to_version with
        | Some expect =>
            ensure (eq_ignore_ascii_case (sc_version entry) expect)
              ("catalog version mismatch for '" +:+ id +:+ "': requested " +:+ expect +:+ ", got " +:+ sc_version entry)
        | None => mret tt
        end ;;
        let settled := negb latest && negb (is_some to_version) && String.eqb (si_version installed) (sc_version entry) in
        let install entry :=
          install_catalog_skill_with_override target entry (Some (si_mode installed)) (Some (si_enabled installed)) ;;
          mret (count_touched 1 0 0 out) in
        if settled && eq_ignore_ascii_case (si_checksum_sha256 installed) (default "" (sc_checksum_sha256 entry))
        then mret (count_touched 0 1 0 out)
        else if settled && negb (is_some (sc_checksum_sha256 entry)) then
          markdown ← download_catalog_skill entry;
          let next_checksum := sha256_hex markdown in
          if eq_ignore_ascii_case (si_checksum_sha256 installed) next_checksum then mret (count_touched 0 1 0 out)
          else install (with_checksum next_checksum entry)
        else install entry
  end.

Fixpoint update_in (targets : list SkillScope) (id : string) (to_version : option string) (latest : bool)
    (index : SkillCatalogIndex) (out : SkillUpdateResult) : FS SkillUpdateResult :=
  match targets with
  | [] => mret out
  | target :: targets' =>
      out ← update_in_scope target id to_version latest index out;
      update_in targets' id to_version latest index out
  end.

Definition update_skill (scope : SkillRemoveScope) (id : string) (to_version : option string) (latest : bool)
    (index : SkillCatalogIndex) : FS SkillUpdateResult :=
  ensure (negb (is_some to_version && latest)) "use either --to-version or --latest, not both" ;;
  id ← lift_res (normalize_skill_id id);
  update_in (scopes_from_remove_scope scope) id to_version latest index no_update.

(** ** The runtime of a registry *)

Definition runtime_entry (id : string) (cfg : SkillInstalledConfig) (content : string) : SkillRuntimeEntry :=
  {| sr_id := id; sr_enabled := si_enabled cfg; sr_mode := si_mode cfg; sr_name := si_name cfg;
     sr_description := si_description cfg; sr_tags := si_tags cfg; sr_content := content;
     sr_token_set := build_skill_token_set id (si_name cfg) (si_description cfg) (si_tags cfg) content |}.

Fixpoint load_entries (l : list (string * (string * SkillInstalledConfig))) : FS SkillRuntime :=
  match l with
  | [] => mret []
  | (id, (source, cfg)) :: l' =>
      let dir := skill_dir_for (if String.eqb source "project" then SkillProject else SkillUser) id in
      let path := path_join dir "SKILL.md" in
      d ← get_db;
      if negb (disk_exists d path) then load_entries l'
      else
        content ← context ("failed to read skill content " +:+ path_text path) (disk_read_to_string d path);
        rest ← load_entries l';
        mret (runtime_entry id cfg content :: rest)
  end.

Definition from_registry : FS SkillRuntime :=
  merged ← load_merged_with_source;
  n ← tick;
  load_entries (skill_order _ n (map_to_list merged)).

(** ** Commands *)

Record SkillsInstallArgs : Type := {
  ia_target_or_query : string;
  ia_scope : SkillScope;
  ia_index : SkillCatalogIndex;
  ia_mode : SkillActivationMode;
  ia_yes : bool;
  ia_id : option string
}.

(** [SkillsCommands] with the scopes, modes and indexes its arguments are translated to;
    [--rerank] has no effect. *)
Inductive SkillsCommands : Type :=
| SkillsInstall (args : SkillsInstallArgs)
| SkillsSearch (query : string) (top : nat) (index : SkillCatalogIndex)
| SkillsLs (scope : SkillListScope)
| SkillsUse (id : string) (scope : SkillRemoveScope) (mode : SkillActivationMode)
| SkillsUpdate (id : string) (scope : SkillRemoveScope) (to_version : option string) (latest : bool) (index : SkillCatalogIndex)
| SkillsRm (id : string) (scope : SkillRemoveScope).

Record SkillCommandOutput : Type := { so_text : string; so_reload_runtime : bool }.

Definition output (text : string) (reload : bool) : SkillCommandOutput := {| so_text := text; so_reload_runtime := reload |}.

Definition normalize_skills_command (command : SkillsCommands) : res SkillsCommands :=
  match command with
  | SkillsUpdate _ _ to_version latest _ =>
      guard_res (negb (is_some to_version && latest)) "use either --to-version or --latest, not both" ;; Ok command
  | _ => Ok command
  end.

Definition is_probable_skill_id (raw : string) : bool :=
  let trimmed := trim raw in negb (String.eqb trimmed "") && forallb is_id_char (chars trimmed).

(** [PathBuf::from]: the components, without repeated separators and [.] inside. *)
Definition path_of_text (s : string) : Path :=
  let inside := List.filter (λ c, negb (String.eqb c "" || String.eqb c ".")) in
  match split_char "/" s with
  | "" :: rest => if String.eqb s "" then [] else "/" :: inside rest
  | "." :: rest => "." :: inside rest
  | l => inside l
  end.

(** [{:<w$}]. *)
Definition pad_right (w : nat) (s : string) : string := s +:+ String.concat "" (repeat " " (w - chars_count s)).

Definition ls_line (id source enabled mode version source_ref : string) : string :=
  pad_right 22 id +:+ " " +:+ pad_right 8 source +:+ " " +:+ pad_right 8 enabled +:+ " " +:+ pad_right 8 mode +:+ " "
    +:+ pad_right 12 version +:+ " " +:+ source_ref.

Definition ls_row (row : SkillView) : string :=
  ls_line (sv_id row) (sv_source row) (if sv_enabled row then "yes" else "no") (sv_mode row) (sv_version row)
    (truncate_skill_chars (sv_source_ref row) 60).

Definition numbered (n : nat) : string := pretty (N.of_nat n) +:+ ". ".

Definition search_lines (n : nat) (hit : SkillSearchHit) : list string :=
  (numbered (S n) +:+ sh_id hit +:+ " (score=" +:+ f64_fixed 3 (sh_score hit) +:+ ", version=" +:+ sh_version hit +:+
     ", catalog=" +:+ sh_catalog hit +:+ ")")
  :: (if is_blank (sh_description hit) then [] else ["   " +:+ truncate_skill_chars (sh_description hit) 120]).

Definition candidate_line (n : nat) (hit : SkillSearchHit) : string :=
  numbered (S n) +:+ sh_id hit +:+ " (score=" +:+ f64_fixed 3 (sh_score hit) +:+ ", version=" +:+ sh_version hit +:+ ")".

Definition scope_text (scope : SkillScope) : string := match scope with SkillUser => "user" | SkillProject => "project" end.

Definition f32_sub (x y : f32) : f32 := SFsub 24 128 x y.

(** The best hit is good enough, and far enough ahead of the second. *)
Definition auto_install_ok (top : SkillSearchHit) (rest : list SkillSearchHit) : bool :=
  let diff_ok := match rest with
                 | second :: _ => f64_le (f32_lit 12 100) (f32_sub (sh_score top) (sh_score second))
                 | [] => true
                 end in
  f64_le (f32_lit 72 100) (sh_score top) && diff_ok.

Definition candidates_text (args : SkillsInstallArgs) (top : SkillSearchHit) (hits : list SkillSearchHit) (auto_ok : bool)
    : string :=
  join_with newline
    (["semantic install matched " +:+ pretty (N.of_nat (length hits)) +:+ " candidate(s):"]
     ++ imap candidate_line hits
     ++ [""; "No changes made. Re-run with explicit id to confirm install:";
         "xiaomaolv skills install " +:+ sh_id top +:+ " --scope " +:+ scope_text (ia_scope args) +:+ " --mode "
           +:+ mode_text (ia_mode args) +:+ " --yes"]
     ++ (if ia_yes args && negb auto_ok then ["Auto-install skipped because confidence threshold is not met."] else [])).

(** The end of an installation by a query: its hits, best first. *)
Definition install_from_hits (args : SkillsInstallArgs) (target : string) (hits : list SkillSearchHit)
    : FS SkillCommandOutput :=
  match hits with
  | [] => mret (output ("no skill matched '" +:+ target +:+ "' with confidence >= 0.45") false)
  | top :: rest =>
      let auto_ok := auto_install_ok top rest in
      if negb (ia_yes args) || negb auto_ok then mret (output (candidates_text args top hits auto_ok) false)
      else
        found ← find_catalog_entry_exact (sh_id top) (ia_index args);
        entry ← context ("catalog entry '" +:+ sh_id top +:+ "' not found") found;
        result ← install_catalog_skill (ia_scope args) entry (ia_mode args);
        mret (output ("installed skill '" +:+ sn_id result +:+ "' (" +:+ sn_version result +:+ ")") true)
  end.

Definition execute_install (args : SkillsInstallArgs) : FS SkillCommandOutput :=
  let target := trim (ia_target_or_query args) in
  ensure (negb (String.eqb target "")) "target/query is empty" ;;
  let local_path := path_of_text target in
  d ← get_db;
  if disk_exists d local_path then
    result ← install_local_skill (ia_scope args) local_path (ia_id args) (ia_mode args);
    mret (output ("installed local skill '" +:+ sn_id result +:+ "' (" +:+ sn_version result +:+ ")") true)
  else
    found ← find_catalog_entry_exact target (ia_index args);
    match found with
    | Some entry =>
        result ← install_catalog_skill (ia_scope args) entry (ia_mode args);
        mret (output ("installed catalog skill '" +:+ sn_id result +:+ "' (" +:+ sn_version result +:+ ")") true)
    | None =>
        if is_probable_skill_id target then
          mret (output ("skill '" +:+ target +:+
            "' not found in selected catalog index. try '--index all' or install from local path.") false)
        else
          hits ← catch (search_catalog target 5 (ia_index args));
          match hits with
          | Err err =>
              mret (output ("catalog search unavailable: " +:+ err +:+ newline +:+
                "Tip: set GITHUB_TOKEN/GH_TOKEN, use '--index team', or install from local path.") false)
          | Ok hits => install_from_hits args target (List.filter (λ h, f64_le (f32_lit 45 100) (sh_score h)) hits)
          end
    end.

Definition execute_skills_command (command : SkillsCommands) : FS SkillCommandOutput :=
  command ← lift_res (normalize_skills_command command);
  match command with
  | SkillsLs scope =>
      rows ← list_skills scope;
      mret (output (match rows with
                    | [] => "no skills installed"
                    | _ => join_with newline (ls_line "id" "source" "enabled" "mode" "version" "source_ref" :: (ls_row <$> rows))
                    end) false)
  | SkillsSearch query top index =>
      hits ← search_catalog query (Nat.max top 1) index;
      mret (output (match hits with
                    | [] => "no skill matched '" +:+ query +:+ "'"
                    | _ => join_with newline (("search results for '" +:+ query +:+ "':") :: concat (imap search_lines hits))
                    end) false)
  | SkillsInstall args => execute_install args
  | SkillsUse id scope mode =>
      changed ← set_skill_mode scope id mode;
      mret (output (if changed =? 0 then "skill '" +:+ id +:+ "' not found"
                    else "updated skill '" +:+ id +:+ "' mode in " +:+ pretty (N.of_nat changed) +:+ " scope(s)")
             (0 <? changed))
  | SkillsUpdate id scope to_version latest index =>
      result ← update_skill scope id to_version latest index;
      let n k := pretty (N.of_nat k) in
      mret (output ("update summary: touched=" +:+ n (su_touched result) +:+ ", updated=" +:+ n (su_updated result) +:+
                    ", up_to_date=" +:+ n (su_up_to_date result) +:+ ", skipped_local=" +:+ n (su_skipped_local result) +:+
                    ", missing=" +:+ n (su_missing result)) (0 <? su_updated result))
  | SkillsRm id scope =>
      removed ← remove_skill scope id;
      mret (output (if (removed : bool) then "removed skill '" +:+ id +:+ "'" else "skill '" +:+ id +:+ "' not found") removed)
  end.
End registry.
