(* ===== verification/SkillFacts.v ===== *)
(** * What skills do to a prompt

    The choice of skills is the best there is and does not depend on the order in which they
    are loaded; the prompt stays within its budget; a command that asks for no reload has
    changed nothing; what is installed is served, and what is switched off is not. *)

From stdpp Require Import pretty gmap sorting.
From Stdlib Require Import Ascii SpecFloat Sorting.Sorted.
From S2P Require Import Prelude Text Strings Messages External Domain Signals MemBase Floats ContextBudget Recall TimeQuery EvoDomain.
From S2P Require Import Skills SkillStore Instances.
#[local] Open Scope nat_scope.

(** ** Scores are numbers *)

Lemma iter_pos_ind {A} (P : A → Prop) (f : A → A) n x : (∀ y, P y → P (f y)) → P x → P (SpecFloat.iter_pos f n x).
Proof. intros Hf. revert x. induction n as [n IH|n IH|]; cbn; auto. Qed.

Lemma shr_nonneg mrs e n : (0 <= shr_m mrs)%Z → (0 <= shr_m (shr mrs e n).1)%Z.
Proof.
  intros H. destruct n; cbn; try done. apply (iter_pos_ind (λ m, 0 <= shr_m m)%Z); [|done].
  intros [[|[]|[]] r s]; cbn; lia.
Qed.

Lemma round_not_nan prec emax s m e l : (0 <= m)%Z → binary_round_aux prec emax s m e l ≠ S754_nan.
Proof.
  intros H. unfold binary_round_aux, shr_fexp.
  assert (Hrec : ∀ m l, (0 <= m)%Z → (0 <= shr_m (shr_record_of_loc m l))%Z) by (intros ? [|[]]; done).
  pose proof (shr_nonneg _ e (fexp prec emax (Zdigits2 m + e) - e) (Hrec _ l H)) as H1.
  destruct (shr _ e _) as [r1 e1]. cbn in H1.
  set (m2 := round_nearest_even _ _). assert (H2 : (0 <= m2)%Z).
  { unfold m2, round_nearest_even. repeat case_match; lia. }
  pose proof (shr_nonneg _ e1 (fexp prec emax (Zdigits2 m2 + e1) - e1) (Hrec _ loc_Exact H2)) as H3.
  destruct (shr _ e1 _) as [r2 e2]. cbn in H3. repeat case_match; done || lia.
Qed.

Lemma digits_bound p : (2 ^ (Z.pos (digits2_pos p) - 1) <= Z.pos p)%Z.
Proof.
  induction p as [p IH|p IH|]; cbn [digits2_pos]; [| |done].
  all: replace (Z.pos (Pos.succ (digits2_pos p)) - 1)%Z with (Z.succ (Z.pos (digits2_pos p) - 1)) by lia.
  all: rewrite Z.pow_succ_r by lia; lia.
Qed.

Lemma digits_shift p n : Z.pos (digits2_pos (Pos.iter xO p n)) = (Z.pos (digits2_pos p) + Z.pos n)%Z.
Proof. induction n as [|n IH] using Pos.peano_ind; [cbn; lia|]. rewrite Pos.iter_succ. cbn [digits2_pos]. lia. Qed.

(** Counts below [2^24] are exact. *)
Lemma f32_small p : (Z.pos p < 2 ^ 24)%Z → ∃ m e, f32_of_Z (Z.pos p) = S754_finite false m e.
Proof.
  intros Hp. set (d := Z.pos (digits2_pos p)).
  assert (Hd : (1 <= d <= 24)%Z).
  { pose proof (digits_bound p) as H. fold d in H. split; [lia|]. apply Z.le_ngt. intros Hgt.
    assert (2 ^ 24 <= 2 ^ (d - 1))%Z by (apply Z.pow_le_mono_r; lia). lia. }
  assert (Hf : ∀ x, (-100 <= x)%Z → fexp 24 128 (24 + x) = x) by (intros; unfold fexp, emin; lia).
  assert (Ha : ∀ m e, Z.pos (digits2_pos m) = 24%Z → (-100 <= e <= 0)%Z →
    binary_round_aux 24 128 false (Z.pos m) e loc_Exact = S754_finite false m e).
  { intros m e Hm He. unfold binary_round_aux, shr_fexp. cbn [Zdigits2 shr_record_of_loc].
    rewrite Hm, Hf, Z.sub_diag by lia. cbn [shr shr_m loc_of_shr_record round_nearest_even Zdigits2 shr_record_of_loc].
    rewrite Hm, Hf, Z.sub_diag by lia. cbn [shr shr_m]. destruct (Z.leb_spec e (128 - 24)); [done|lia]. }
  unfold f32_of_Z, binary_normalize, binary_round, shl_align. fold d.
  replace (fexp 24 128 (d + 0)) with (d - 24)%Z by (rewrite <- (Hf (d - 24)%Z) at 1 by lia; f_equal; lia).
  destruct (d - 24 - 0)%Z as [|k|k] eqn:E; [eexists _, _; apply Ha; lia|lia|].
  eexists _, _. apply Ha; [|lia]. rewrite digits_shift. fold d. lia.
Qed.

Lemma div_not_nan m e m' e' s s' : f32_div (S754_finite s m e) (S754_finite s' m' e') ≠ S754_nan.
Proof.
  unfold f32_div, SFdiv, SFdiv_core_binary. set (n := match (_ : Z) with Z0 => _ | Zpos _ => _ | Zneg _ => _ end).
  assert (Hn : (0 <= n)%Z) by (unfold n; case_match; [done|apply Z.shiftl_nonneg; lia|done]).
  pose proof (Z.div_pos n (Z.pos m') Hn eq_refl) as Hq. unfold Z.div in Hq.
  destruct (Z.div_eucl n (Z.pos m')) as [q r]. by apply round_not_nan.
Qed.

Lemma unit_clamp_finite x : x ≠ S754_nan → f64_is_finite (unit_clamp x) = true.
Proof. intros H. unfold unit_clamp, f64_clamp. destruct x as [[]|[]| |[] m e]; try done; repeat case_match; done. Qed.

Lemma f32_of_nat_cases n : (Z.of_nat n < 2 ^ 24)%Z →
  f32_of_nat n = S754_zero false ∧ n = 0 ∨ 0 < n ∧ ∃ m e, f32_of_nat n = S754_finite false m e.
Proof.
  intros H. destruct n as [|n]; [by left|right; split; [lia|]]. apply (f32_small (Pos.of_succ_nat n)).
  by rewrite Zpos_P_of_succ_nat, <- Nat2Z.inj_succ.
Qed.

(** The query has fewer than [2^24] tokens. *)
Definition countable (tokens : gset string) : Prop := (Z.of_nat (size tokens) < 2 ^ 24)%Z.

Lemma skill_score_finite tokens skill : countable tokens → f64_is_finite (skill_score tokens skill) = true.
Proof.
  intros Hc. unfold skill_score, semantic_skill_runtime_score. destruct (sr_mode skill); [|done..].
  destruct (Nat.eqb_spec (size tokens) 0) as [|Hs]; [done|]. apply unit_clamp_finite.
  assert (Hle : overlap_count tokens (sr_token_set skill) <= size tokens) by (apply subseteq_size; set_solver).
  unfold countable in Hc. rewrite Nat.max_l by lia.
  destruct (f32_of_nat_cases (size tokens)) as [[_ ?]|(_ & m' & e' & ->)]; [done..|].
  destruct (f32_of_nat_cases (overlap_count tokens (sr_token_set skill))) as [[-> _]|(_ & m & e & ->)]; [lia|done|].
  apply div_not_nan.
Qed.

(** ** The order of candidates *)

Definition scored (c : SkillRuntimeEntry * f32) : Prop := f64_is_finite c.2 = true.

Definition choice_key (c : SkillRuntimeEntry * f32) : list Z := Z.b2z (is_always c.1) :: score_key c.2.

Lemma lex_eq a b : length a = length b → lex a b = Eq → a = b.
Proof.
  revert b. induction a as [|x a IH]; intros [|y b]; cbn; try done. intros [= Hl].
  destruct (Z.compare_spec x y) as [->| |]; try done. intros H. by rewrite (IH b).
Qed.

Lemma choice_key_length a b : length (choice_key a) = length (choice_key b).
Proof.
  unfold choice_key. destruct (score_key_shape a.2) as (? & ? & ? & ->), (score_key_shape b.2) as (? & ? & ? & ->). done.
Qed.

Lemma skill_before_key a b : scored a → scored b →
  skill_before a b = match lex (choice_key b) (choice_key a) with
                     | Lt => true | Gt => false | Eq => String.leb (sr_id a.1) (sr_id b.1) end.
Proof.
  intros Ha Hb. unfold skill_before, choice_key. cbn [lex]. rewrite compare_key by done.
  destruct (is_always a.1), (is_always b.1); cbn; try done; by destruct (lex _ _).
Qed.

Lemma skill_before_total a b : scored a → scored b → skill_before a b = false → skill_before b a = true.
Proof.
  intros Ha Hb. rewrite !skill_before_key by done. rewrite (lex_antisym (choice_key b) (choice_key a)).
  destruct (lex _ _); cbn; try done. apply string_leb_total.
Qed.

(** A comparison of keys, then of names, is transitive. *)
Lemma lex_chain x y z : length x = length y → length y = length z → lex x y ≠ Gt → lex y z ≠ Gt →
  lex x z = match lex x y with Lt => Lt | _ => lex y z end.
Proof.
  intros Hxy Hyz H1 H2. destruct (lex x y) eqn:E1; [by rewrite (lex_eq _ _ Hxy E1)| |done].
  destruct (lex y z) eqn:E2; [by rewrite <- (lex_eq _ _ Hyz E2)| |done].
  pose proof (lex_trans x y z ltac:(congruence) ltac:(congruence)) as H. destruct (lex x z) eqn:E; [|done..].
  rewrite <- (lex_eq x z) in E2 by (done || congruence). rewrite lex_antisym, E1 in E2. done.
Qed.

Lemma skill_before_trans a b c : scored a → scored b → scored c →
  skill_before a b = true → skill_before b c = true → skill_before a c = true.
Proof.
  intros Ha Hb Hc. rewrite !skill_before_key by done.
  pose proof (lex_chain (choice_key c) (choice_key b) (choice_key a) (choice_key_length _ _) (choice_key_length _ _)) as H.
  destruct (lex (choice_key b) (choice_key a)); [| |done]; destruct (lex (choice_key c) (choice_key b)); try done;
    rewrite H by done; try done. apply string_leb_trans.
Qed.

Lemma filter_bool_perm {A} (p : A → bool) l l' : l ≡ₚ l' → List.filter p l ≡ₚ List.filter p l'.
Proof.
  induction 1 as [|x l l' _ IH|x y l|l l' l'' _ IH1 _ IH2]; cbn; [done| | |by rewrite IH1].
  - destruct (p x); by rewrite IH.
  - destruct (p x), (p y); try done. constructor.
Qed.

Lemma skill_before_antisym a b : scored a → scored b →
  skill_before a b = true → skill_before b a = true → sr_id a.1 = sr_id b.1.
Proof.
  intros Ha Hb. rewrite !skill_before_key by done. rewrite (lex_antisym (choice_key b) (choice_key a)).
  destruct (lex _ _); cbn; try done. apply string_leb_antisym.
Qed.

Section choice.
  Context `{UC : Unicode} (query : string) (settings : SkillRuntimeSelectionSettings).
  Hypothesis Hquery : countable (tokenize_text query).

Abbreviation tokens := (tokenize_text query).

(** A skill that may be selected: in use, and always on or close enough to the query. *)
Definition fits (skill : SkillRuntimeEntry) : Prop :=
  in_use skill = true ∧ (sr_mode skill = SkillAlways ∨ f64_le (ss_match_min_score settings) (skill_score tokens skill) = true).

Definition as_selected (skill : SkillRuntimeEntry) : SelectedSkill := selected_of (skill, skill_score tokens skill).

(** What [sort_by] prefers, on selected skills. *)
Definition preferred (s t : SelectedSkill) : Prop :=
  (sl_mode t = SkillAlways → sl_mode s = SkillAlways) ∧
  (sl_mode s = SkillAlways ↔ sl_mode t = SkillAlways →
   f64_lt (sl_score s) (sl_score t) = false ∧ (f64_lt (sl_score t) (sl_score s) = false → String.leb (sl_id s) (sl_id t) = true)).

Abbreviation candidates skills := (omap (candidate tokens (ss_match_min_score settings)) (List.filter in_use skills)).

Lemma elem_candidates skills c : c ∈ candidates skills ↔ ∃ skill, skill ∈ skills ∧ fits skill ∧ c = (skill, skill_score tokens skill).
Proof.
  rewrite list_elem_of_omap. unfold fits, candidate, is_always. setoid_rewrite list_elem_of_In. setoid_rewrite filter_In.
  setoid_rewrite <- list_elem_of_In. split.
  - intros (skill & [Hin Huse] & Hc). destruct (_ || _) eqn:E; simplify_eq. exists skill. split_and!; [done..| |done].
    apply orb_true_iff in E as [E%bool_decide_eq_true|E]; auto.
  - intros (skill & Hin & [Huse Hfit] & ->). exists skill. split; [done|].
    destruct Hfit as [-> | ->]; [by rewrite bool_decide_true|by rewrite orb_true_r].
Qed.

Lemma candidates_scored skills : Forall scored (candidates skills).
Proof using Hquery.
  apply Forall_forall. intros c (skill & _ & _ & ->)%elem_candidates. by apply skill_score_finite.
Qed.

Lemma candidates_sorted skills :
  StronglySorted (λ x y, skill_before x y = true) (order_by skill_before (candidates skills)).
Proof using Hquery.
  apply (order_by_sorted_on skill_before scored); [|intros x y z; apply skill_before_trans|apply candidates_scored].
  intros x y. apply skill_before_total.
Qed.

Lemma before_preferred a b : scored a → scored b → skill_before a b = true → preferred (selected_of a) (selected_of b).
Proof.
  destruct a as [a sa], b as [b sb]. unfold scored. cbn. intros Ha Hb H. unfold preferred, f64_lt, SFltb. cbn.
  unfold skill_before, is_always in H. cbn in H. rewrite !compare_key in * by done.
  rewrite (lex_antisym (score_key sb) (score_key sa)).
  destruct (decide (sr_mode a = SkillAlways)), (decide (sr_mode b = SkillAlways));
    rewrite ?bool_decide_true, ?bool_decide_false in H by done; cbn in H; try done;
    (split; [tauto|]); intros ?; try tauto; destruct (lex _ _); cbn; try done; tauto.
Qed.

Lemma select_best skills :
  let sel := select skills query settings in
  let limit := Nat.max (ss_max_selected settings) 1 in
  (∀ s, s ∈ sel → ∃ skill, skill ∈ skills ∧ fits skill ∧ s = as_selected skill) ∧
  StronglySorted preferred sel ∧ length sel <= limit ∧
  ∀ skill, skill ∈ skills → fits skill →
    as_selected skill ∈ sel ∨ length sel = limit ∧ ∀ s, s ∈ sel → preferred s (as_selected skill).
Proof using Hquery.
  intros sel limit. set (sorted := order_by skill_before (candidates skills)).
  assert (Hsel : sel = selected_of <$> take limit sorted) by done.
  assert (Helem : ∀ c, c ∈ sorted ↔ c ∈ candidates skills) by (intros c; unfold sorted; by rewrite order_by_perm).
  assert (Hscored : Forall scored sorted) by (unfold sorted; rewrite order_by_perm; apply candidates_scored).
  assert (Hsorted : StronglySorted (λ x y, skill_before x y = true) sorted) by apply candidates_sorted.
  assert (Hpref : ∀ a b, a ∈ sorted → b ∈ sorted → skill_before a b = true → preferred (selected_of a) (selected_of b)).
  { rewrite Forall_forall in Hscored. intros a b Ha Hb. apply before_preferred; auto. }
  assert (Htake : ∀ c, c ∈ take limit sorted → c ∈ sorted) by (intros c (i & Hi & _)%elem_of_take; by eapply list_elem_of_lookup_2).
  split_and!.
  - intros s Hs. rewrite Hsel, list_elem_of_fmap in Hs. destruct Hs as (c & -> & Hc).
    apply Htake, Helem, elem_candidates in Hc as (skill & Hin & Hfit & ->). by exists skill.
  - rewrite Hsel. clear -Hsorted Hpref Htake. apply (sorted_take _ limit) in Hsorted. revert Hsorted Htake.
    generalize (take limit sorted). induction 1 as [|c l Hl IH Hc]; intros Htake; cbn; constructor.
    + apply IH. intros c' Hc'. apply Htake. by right.
    + rewrite Forall_fmap. rewrite Forall_forall in Hc |- *. intros c' Hc'. apply Hpref; [apply Htake; by left| |auto].
      apply Htake. by right.
  - rewrite Hsel, length_fmap, length_take. lia.
  - intros skill Hin Hfit. set (c := (skill, skill_score tokens skill)).
    assert (Hc : c ∈ sorted) by (apply Helem, elem_candidates; by exists skill).
    pose proof Hc as Hc'. rewrite <- (take_drop limit sorted), elem_of_app in Hc'. destruct Hc' as [Hc'|Hc'].
    + left. rewrite Hsel. by apply (list_elem_of_fmap_2 selected_of _ c).
    + right. split.
      * pose proof (elem_of_drop_length _ _ _ Hc'). rewrite Hsel, length_fmap, length_take. lia.
      * intros s Hs. rewrite Hsel, list_elem_of_fmap in Hs. destruct Hs as (b & -> & Hb).
        apply (Hpref b c); [by apply Htake|done|]. exact (sorted_take_drop (λ x y, skill_before x y = true) limit sorted b c Hsorted Hb Hc').
Qed.

Lemma select_order_free skills skills' :
  NoDup (sr_id <$> skills) → skills ≡ₚ skills' → select skills query settings = select skills' query settings.
Proof using Hquery.
  intros Hnodup Hperm. unfold select. f_equal. f_equal. apply (StronglySorted_unique_strong (λ x y, skill_before x y = true)).
  - intros c c'. rewrite !order_by_perm. intros Hc Hc' H H'. pose proof (candidates_scored skills) as Hs.
    pose proof (candidates_scored skills') as Hs'. rewrite Forall_forall in Hs, Hs'.
    pose proof (skill_before_antisym c c' (Hs _ Hc) (Hs' _ Hc') H H') as Hid.
    apply elem_candidates in Hc as (e & He & _ & ->), Hc' as (e' & He' & _ & ->). rewrite <- Hperm in He'.
    by rewrite (nodup_key_inj sr_id skills e e' Hnodup He He' Hid).
  - apply candidates_sorted.
  - apply candidates_sorted.
  - rewrite !order_by_perm. apply omap_Permutation, filter_bool_perm, Hperm.
Qed.
End choice.

(** Of the skills in use that are always on or close enough to the query, the best are selected,
    best first, up to the limit. *)
Theorem selection_is_the_best `{UC : Unicode} skills query settings :
  countable (tokenize_text query) →
  let sel := select skills query settings in
  let limit := Nat.max (ss_max_selected settings) 1 in
  (∀ s, s ∈ sel → ∃ skill, skill ∈ skills ∧ fits query settings skill ∧ s = as_selected query skill) ∧
  StronglySorted preferred sel ∧ length sel <= limit ∧
  ∀ skill, skill ∈ skills → fits query settings skill →
    as_selected query skill ∈ sel ∨ length sel = limit ∧ ∀ s, s ∈ sel → preferred s (as_selected query skill).
Proof. intros H. exact (select_best query settings H skills). Qed.

(** The prompt does not depend on the order in which the skills were loaded, which is that of a
    [HashMap]. *)
Theorem prompt_is_order_free `{UC : Unicode} skills skills' query settings :
  countable (tokenize_text query) → NoDup (sr_id <$> skills) → skills ≡ₚ skills' →
  build_system_prompt skills query settings = build_system_prompt skills' query settings.
Proof. intros H Hn Hp. unfold build_system_prompt. by rewrite (select_order_free query settings H skills skills'). Qed.

(** ** The prompt *)

Lemma text_app_assoc a b c : (a +:+ b) +:+ c = a +:+ (b +:+ c).
Proof. induction a as [|x a IH]; [done|]. change (String x ((a +:+ b) +:+ c) = String x (a +:+ (b +:+ c))). by f_equal. Qed.

(** The sections of skills, numbered from [idx]. *)
Fixpoint sections_text (idx : nat) (skills : SkillSelection) : string :=
  match skills with
  | [] => ""
  | s :: skills' => skill_section (S idx) s +:+ sections_text (S idx) skills'
  end.

Lemma render_sections_fit budget idx skills out : ∃ k,
  render_sections budget idx skills out = out +:+ sections_text idx (take k skills) ∧
  chars_count (sections_text idx (take k skills)) <= budget ∧
  ∀ s, skills !! k = Some s →
    budget < chars_count (sections_text idx (take k skills)) + Nat.max 64 (chars_count (skill_section (S (idx + k)) s)).
Proof.
  revert budget idx out. induction skills as [|s skills IH]; intros budget idx out; cbn [render_sections].
  - exists 0. cbn. rewrite string_app_nil_r. split_and!; [done|lia|done].
  - destruct (Nat.ltb_spec budget 64) as [|H64]; [|destruct (Nat.ltb_spec budget (chars_count (skill_section (S idx) s))) as [|Hlen]].
    + exists 0. cbn. rewrite string_app_nil_r. split_and!; [done|lia|]. intros s' [= <-]. lia.
    + exists 0. cbn. rewrite string_app_nil_r, Nat.add_0_r. split_and!; [done|lia|]. intros s' [= <-]. lia.
    + destruct (IH (budget - chars_count (skill_section (S idx) s)) (S idx) (out +:+ skill_section (S idx) s))
        as (k & -> & Hle & Hmax).
      exists (S k). cbn [take sections_text]. rewrite text_app_assoc, chars_count_app. split_and!; [done|lia|].
      intros s' Hs'. specialize (Hmax s' Hs'). replace (S (idx + S k)) with (S (S idx + k)) by lia. lia.
Qed.

(** The prompt of a selection is its header and the sections of the first selected skills, as many
    as fit; it is never longer than the budget, which is at least 256 characters. *)
Theorem prompt_fits_its_budget selection max_prompt_chars out :
  render_system_prompt selection max_prompt_chars = Some out → ∃ k,
    out = skills_header +:+ sections_text 0 (take k selection) ∧
    chars_count out <= Nat.max max_prompt_chars 256 ∧
    ∀ s, selection !! k = Some s →
      Nat.max max_prompt_chars 256 < chars_count out + Nat.max 64 (chars_count (skill_section (S k) s)).
Proof.
  unfold render_system_prompt. destruct selection as [|s0 selection]; [done|].
  set (budget := Nat.max max_prompt_chars 256). set (skills := s0 :: selection).
  destruct (Nat.leb_spec budget (chars_count skills_header)) as [|Hb]; [done|].
  destruct (render_sections_fit (budget - chars_count skills_header) 0 skills skills_header) as (k & -> & Hle & Hmax).
  destruct (_ <? String.length (trim _)); [|done]. intros [= <-]. exists k.
  rewrite chars_count_app. split_and!; [done|lia|]. intros s Hs. specialize (Hmax s Hs). cbn [Nat.add] in Hmax. lia.
Qed.

(** ** A command that asks for no reload *)

Section commands.
  Context {D : Type} `{SD : !SkillDisk D} `{ST : SkillsToml} `{SN : SkillNet} `{SO : SkillOrder}.
  Context `{CLK : Clock} `{UC : Unicode} `{SH : Sha256}.
  Context (paths : SkillConfigPaths).

(** A computation that changes nothing on the disk. *)
Abbreviation reads m := (stable (S := D) eq m).

Lemma load_scope_reads scope : reads (load_scope paths scope).
Proof. unfold load_scope. stable_go. Qed.

#[local] Hint Resolve load_scope_reads : stab.

Lemma http_get_reads url : reads (http_get url).
Proof. unfold http_get. stable_go. Qed.

#[local] Hint Resolve http_get_reads : stab.

Lemma load_merged_reads : reads (load_merged_with_source paths).
Proof. unfold load_merged_with_source. stable_go. Qed.

#[local] Hint Resolve load_merged_reads : stab.

Lemma list_skills_reads scope : reads (list_skills paths scope).
Proof. unfold list_skills. stable_go. Qed.

#[local] Hint Resolve list_skills_reads : stab.

Lemma load_official_reads : reads (load_official_catalog).
Proof. unfold load_official_catalog. stable_go. Qed.

#[local] Hint Resolve load_official_reads : stab.

Lemma load_team_reads : reads (load_team_catalog).
Proof. unfold load_team_catalog. stable_go. Qed.

#[local] Hint Resolve load_team_reads : stab.

Lemma load_catalog_reads index : reads (load_catalog_entries index).
Proof. unfold load_catalog_entries. stable_go. Qed.

#[local] Hint Resolve load_catalog_reads : stab.

Lemma probe_reads id : reads (probe_official_entry_by_id id).
Proof. unfold probe_official_entry_by_id. stable_go. Qed.

#[local] Hint Resolve probe_reads : stab.

Lemma find_exact_reads id index : reads (find_catalog_entry_exact id index).
Proof. unfold find_catalog_entry_exact. stable_go. Qed.

#[local] Hint Resolve find_exact_reads : stab.

Lemma search_reads query top index : reads (search_catalog query top index).
Proof. unfold search_catalog. stable_go. Qed.

#[local] Hint Resolve search_reads : stab.

Lemma download_reads entry : reads (download_catalog_skill entry).
Proof. unfold download_catalog_skill. stable_go. Qed.

#[local] Hint Resolve download_reads : stab.

(** The result [Ok a] comes with an unchanged disk unless [asks a]. *)
Definition unless {A} (asks : A → bool) (d : D) (r : res A) (d' : D) : Prop := ∀ a, r = Ok a → asks a = false → d' = d.

Lemma wp_unless_read {A B} (m : M D A) (f : A → M D B) asks d :
  reads m → (∀ a, wp (f a) (unless asks d) d) → wp (m ≫= f) (unless asks d) d.
Proof.
  intros Hm Hf. eapply wp_bind_stable; [exact Hm|by intros e s' _ b|]. intros a s' <-. apply Hf.
Qed.

Lemma unless_read {A} (m : M D A) asks d : reads m → wp m (unless asks d) d.
Proof. intros H w <- a _ _. symmetry. apply H. Qed.

Lemma unless_asked {A} (m : M D A) d : wp m (unless (λ _, true) d) d.
Proof. intros w <- a _ [=]. Qed.

(** After a computation that asks whatever it does, the answer says so. *)
Lemma wp_unless_asked {A B} (m : M D A) (b : B) (asks : B → bool) d :
  asks b = true → wp (m ≫= λ _, mret b) (unless asks d) d.
Proof.
  intros Hb w <-. unfold mbind, M_bind. destruct (m w) as [[a|e] w']; cbn; [|done]. intros b' [= <-]. congruence.
Qed.


Lemma set_mode_unless targets id mode n d :
  wp (set_mode_in paths targets id mode n) (λ r d', ∀ k, r = Ok k → n <= k ∧ (k = n → d' = d)) d.
Proof.
  revert n d. induction targets as [|target targets IH]; intros n d; cbn [set_mode_in].
  - wp_step. intros k [= <-]. done.
  - eapply wp_bind_stable; [apply (load_scope_reads target)|by intros|]. intros file d' <-. destruct (file !! id) as [cfg|]; [|apply IH].
    apply wp_bind. intros w <-. destruct (save_scope _ _ _ w) as [[[]|e] w1]; [|done].
    eapply wp_mono; [apply IH|]. cbv beta. intros r d' H k Hk. destruct (H k Hk). lia.
Qed.

Lemma update_scope_unless target id to_version latest index out d :
  wp (update_in_scope paths target id to_version latest index out)
    (λ r d', ∀ k, r = Ok k → su_updated out <= su_updated k ∧ (su_updated k = su_updated out → d' = d)) d.
Proof.
  unfold update_in_scope. eapply wp_bind_stable; [apply (load_scope_reads target)|by intros|]. intros file d' <-.
  assert (Hkeep : ∀ b c, wp (mret (count_touched 0 b c out) : M D _)
    (λ r d', ∀ k, r = Ok k → su_updated out <= su_updated k ∧ (su_updated k = su_updated out → d' = d)) d).
  { intros b c. wp_step. intros k [= <-]. done. }
  assert (Hinst : ∀ m : M D SkillInstallResult, wp (m ;; mret (count_touched 1 0 0 out))
    (λ r d', ∀ k, r = Ok k → su_updated out <= su_updated k ∧ (su_updated k = su_updated out → d' = d)) d).
  { intros m w <-. unfold mbind, M_bind. destruct (m w) as [[a|e] w']; cbn; [|done]. intros k [= <-]. cbn. lia. }
  destruct (file !! id) as [installed|]; [|wp_step; by intros k [= <-]].
  destruct (negb _); [apply Hkeep|].
  eapply wp_bind_stable; [apply load_catalog_reads|by intros|]. intros entries d' <-.
  wp_step. wp_step; [|done]. wp_step. apply (wp_mono _ (λ r d', d' = d)).
  { destruct to_version; [apply wp_ensure; done|by wp_step]. }
  cbv beta. intros [[]|e] d' ->; [|done]. destruct (_ && eq_ignore_ascii_case _ _); [apply Hkeep|].
  destruct (_ && negb _); [|apply Hinst].
  eapply wp_bind_stable; [apply download_reads|by intros|]. intros markdown d' <-.
  destruct (eq_ignore_ascii_case _ _); [apply Hkeep|apply Hinst].
Qed.

Lemma update_unless targets id to_version latest index out d :
  wp (update_in paths targets id to_version latest index out)
    (λ r d', ∀ k, r = Ok k → su_updated out <= su_updated k ∧ (su_updated k = su_updated out → d' = d)) d.
Proof.
  revert out d. induction targets as [|target targets IH]; intros out d; cbn [update_in].
  - wp_step. by intros k [= <-].
  - apply wp_bind. eapply wp_mono; [apply update_scope_unless|]. cbv beta. intros [out1|e] d1 H1; [|done].
    eapply wp_mono; [apply IH|]. cbv beta. intros r d2 H2 k Hk. destruct (H1 _ eq_refl) as [Hle1 Hd1], (H2 k Hk) as [Hle2 Hd2].
    split; [lia|]. intros E. rewrite Hd2, Hd1 by lia. done.
Qed.

Lemma wp_any {A} (m : M D A) (Q : res A → D → Prop) d : (∀ r d', Q r d') → wp m Q d.
Proof. intros H w _. apply H. Qed.

Lemma remove_scope_unless scope id d : wp (remove_skill_in_scope paths scope id) (unless Datatypes.id d) d.
Proof.
  unfold remove_skill_in_scope. apply wp_unless_read; [apply load_scope_reads|]. intros file.
  destruct (file !! id); [|apply unless_read; stable_go].
  apply wp_bind, wp_any. intros [[]|e] d1; [|done]. wp_step. wp_step. apply wp_bind, wp_any.
  intros [[]|e] d2; [|done]. wp_step. by intros b [= <-].
Qed.

Lemma remove_unless scope id d : wp (remove_skill paths scope id) (unless Datatypes.id d) d.
Proof.
  unfold remove_skill. apply wp_unless_read; [stable_go|]. intros id'. destruct scope; [apply remove_scope_unless..|].
  apply wp_bind. eapply wp_mono; [apply remove_scope_unless|]. cbv beta. intros [user|e] d1 H1; [|done].
  apply wp_bind. eapply wp_mono; [apply remove_scope_unless|]. cbv beta. intros [project|e] d2 H2; [|done].
  wp_step. intros b [= <-] [Hu Hp]%orb_false_iff. rewrite (H2 _ eq_refl Hp). exact (H1 _ eq_refl Hu).
Qed.

Lemma install_hits_unless args target hits d :
  wp (install_from_hits paths args target hits) (unless so_reload_runtime d) d.
Proof.
  unfold install_from_hits. destruct hits as [|top rest]; [by wp_step; intros b [= <-]|].
  destruct (_ || _); [by wp_step; intros b [= <-]|].
  apply wp_unless_read; [apply find_exact_reads|]. intros found. apply wp_unless_read; [stable_go|]. intros entry.
  apply wp_bind, wp_any. intros [r|e] d'; [|done]. wp_step. by intros b [= <-].
Qed.

Lemma install_unless args d : wp (execute_install paths args) (unless so_reload_runtime d) d.
Proof.
  assert (Hinst : ∀ (m : M D SkillInstallResult) (f : SkillInstallResult → string),
    wp (r ← m; mret (output (f r) true)) (unless so_reload_runtime d) d).
  { intros m f. apply wp_bind, wp_any. intros [r|e] d'; [|done]. wp_step. by intros b [= <-]. }
  unfold execute_install. apply wp_unless_read; [stable_go|]. intros _. wp_step. wp_step.
  destruct (disk_exists _ _); [apply Hinst|].
  apply wp_unless_read; [apply find_exact_reads|]. intros [entry|]; [apply Hinst|].
  destruct (is_probable_skill_id _); [by wp_step; intros b [= <-]|].
  apply wp_unless_read; [stable_go|]. intros [hits|e]; [apply install_hits_unless|]. wp_step. by intros b [= <-].
Qed.

Lemma set_skill_mode_unless scope id mode d :
  wp (set_skill_mode paths scope id mode) (unless (λ k, 0 <? k) d) d.
Proof.
  unfold set_skill_mode. apply wp_unless_read; [stable_go|]. intros id'. eapply wp_mono; [apply set_mode_unless|].
  cbv beta. intros r d' H k Hk Hz%Nat.ltb_ge. destruct (H k Hk) as [_ Hd]. apply Hd. lia.
Qed.

Lemma update_skill_unless scope id to_version latest index d :
  wp (update_skill paths scope id to_version latest index) (unless (λ k, 0 <? su_updated k) d) d.
Proof.
  unfold update_skill. do 2 (apply wp_unless_read; [stable_go|]; intros ?). eapply wp_mono; [apply update_unless|].
  cbv beta. intros r d' H k Hk Hz%Nat.ltb_ge. destruct (H k Hk) as [_ Hd]. apply Hd. cbn. lia.
Qed.

Lemma command_unless command d : wp (execute_skills_command paths command) (unless so_reload_runtime d) d.
Proof.
  unfold execute_skills_command. apply wp_unless_read; [stable_go|].
  intros [args|query top index|scope|id scope mode|id scope to_version latest index|id scope].
  - apply install_unless.
  - apply unless_read. stable_go.
  - apply unless_read. stable_go.
  - apply wp_bind. eapply wp_mono; [apply set_skill_mode_unless|]. cbv beta. intros [k|e] d1 H; [|done].
    wp_step. intros out [= <-] Hk. by apply (H k).
  - apply wp_bind. eapply wp_mono; [apply update_skill_unless|]. cbv beta. intros [k|e] d1 H; [|done].
    wp_step. intros out [= <-] Hk. by apply (H k).
  - apply wp_bind. eapply wp_mono; [apply remove_unless|]. cbv beta. intros [removed|e] d1 H; [|done].
    wp_step. intros out [= <-] Hr. by apply (H removed).
Qed.

(** A command that does not ask for a reload of the runtime has left the disk as it was. *)
Theorem no_reload_no_change command w out w' :
  execute_skills_command paths command w = (Ok out, w') → so_reload_runtime out = false → w_db w' = w_db w.
Proof. intros H Hr. pose proof (command_unless command (w_db w) w eq_refl) as Hu. rewrite H in Hu. exact (Hu out eq_refl Hr). Qed.
End commands.

(** ** The scan *)

(** The files under an entry, and whether all of it may be installed: no link, nothing that cannot
    be read, no name that leads elsewhere. *)
Definition plain_name (c : string) : bool := negb (String.eqb c ".." || String.eqb c "/").

Fixpoint files_below (rel : Path) (e : SourceEntry) : list (Path * N) :=
  match e with
  | SourceDir name (Some entries) => concat (map (files_below (rel ++ [name])) entries)
  | SourceFile name len => [(rel ++ [name], len)]
  | _ => []
  end.

Fixpoint installable (rel : Path) (e : SourceEntry) : bool :=
  match e with
  | SourceDir name (Some entries) => forallb (installable (rel ++ [name])) entries
  | SourceFile name _ => forallb plain_name (rel ++ [name])
  | SourceOther _ => true
  | _ => false
  end.

Fixpoint SourceEntry_nested_ind (P : SourceEntry → Prop)
    (Hlink : ∀ n, P (SourceLink n)) (Hclosed : ∀ n, P (SourceDir n None))
    (Hdir : ∀ n l, Forall P l → P (SourceDir n (Some l))) (Hfile : ∀ n len, P (SourceFile n len))
    (Hother : ∀ n, P (SourceOther n)) (Hbad : ∀ n, P (Unreadable n)) (e : SourceEntry) : P e :=
  match e with
  | SourceLink n => Hlink n
  | SourceDir n None => Hclosed n
  | SourceDir n (Some l) => Hdir n l
      ((fix go l : Forall P l := match l with
        | [] => Forall_nil_2 P
        | e' :: l' => Forall_cons_2 P e' l' (SourceEntry_nested_ind P Hlink Hclosed Hdir Hfile Hother Hbad e') (go l')
        end) l)
  | SourceFile n len => Hfile n len
  | SourceOther n => Hother n
  | Unreadable n => Hbad n
  end.

Section scan_facts.
  Context (root : Path).

Definition scanned_file (f : Path * N) : ScannedLocalFile := {| sf_absolute := root ++ f.1; sf_relative := f.1 |}.

Definition total_len (l : list (Path * N)) : N := foldr (λ f acc, f.2 + acc)%N 0%N l.

(** The walk adds the files [l] to what it has, within the limit, or fails. *)
Definition walks (fine : bool) (l : list (Path * N)) (scan : list ScannedLocalFile * N → res (list ScannedLocalFile * N)) : Prop :=
  ∀ files total, length files <= MAX_SKILL_FILES → (total < 2 ^ 64)%N →
    if fine && (length files + length l <=? MAX_SKILL_FILES)
    then scan (files, total) = Ok (files ++ map scanned_file l, saturating_add_u64 total (total_len l))
    else is_ok (scan (files, total)) = false.

Lemma total_len_app l l' : total_len (l ++ l') = (total_len l + total_len l')%N.
Proof. induction l as [|f l IH]; cbn [total_len foldr app]; [done|]. fold (total_len (l ++ l')) (total_len l). lia. Qed.

Lemma saturating_lt a b : (saturating_add_u64 a b < 2 ^ 64)%N.
Proof. unfold saturating_add_u64. assert (0 < 2 ^ 64)%N as H by done. revert H. generalize (2 ^ 64)%N. lia. Qed.

Lemma saturating_zero a : (a < 2 ^ 64)%N → saturating_add_u64 a 0 = a.
Proof. unfold saturating_add_u64. generalize (2 ^ 64)%N. lia. Qed.

Lemma saturating_assoc a b c : saturating_add_u64 (saturating_add_u64 a b) c = saturating_add_u64 a (b + c).
Proof. unfold saturating_add_u64. generalize (2 ^ 64)%N. lia. Qed.

Lemma walks_nil : walks true [] (λ acc, Ok acc).
Proof.
  intros files total Hf Ht. cbn [andb length]. rewrite Nat.add_0_r. apply Nat.leb_le in Hf as ->. cbn [map].
  rewrite app_nil_r. cbn [total_len foldr]. by rewrite saturating_zero.
Qed.

Lemma walks_seq b b' l l' s s' : walks b l s → walks b' l' s' →
  walks (b && b') (l ++ l') (λ acc, match s acc with Ok acc' => s' acc' | Err m => Err m end).
Proof.
  intros H H' files total Hf Ht. specialize (H files total Hf Ht). rewrite length_app.
  destruct b; cbn [andb] in *; [|by destruct (s _)].
  destruct (Nat.leb_spec (length files + length l) MAX_SKILL_FILES) as [Hl|Hl].
  - rewrite H. specialize (H' (files ++ map scanned_file l) (saturating_add_u64 total (total_len l))).
    rewrite length_app, length_map in H'. specialize (H' Hl (saturating_lt _ _)).
    rewrite Nat.add_assoc. destruct (b' && _); [|done]. 
    by rewrite H', map_app, app_assoc, saturating_assoc, total_len_app.
  - destruct (Nat.leb_spec (length files + (length l + length l')) MAX_SKILL_FILES); [lia|].
    rewrite andb_false_r. by destruct (s _).
Qed.

Lemma walks_ext b l s s' : (∀ acc, s acc = s' acc) → walks b l s → walks b l s'.
Proof. intros H Hw files total Hf Ht. rewrite <- H. by apply Hw. Qed.

Lemma scan_entry_walks e rel : walks (installable rel e) (files_below rel e) (scan_entry root rel e).
Proof.
  revert rel. induction e as [n|n|n l IH|n len|n|n] using SourceEntry_nested_ind; intros rel; try (intros files total _ _; done).
  - cbn [installable files_below scan_entry]. induction IH as [|e l He _ IHl]; [apply walks_nil|].
    exact (walks_seq _ _ _ _ _ _ (He (rel ++ [n])) IHl).
  - intros files total Hf Ht. cbn [installable files_below scan_entry length map].
    assert (Hp : ∀ l, existsb (λ c, String.eqb c ".." || String.eqb c "/") l = negb (forallb plain_name l)).
    { induction l as [|c l IH]; [done|]. cbn. rewrite IH. unfold plain_name. by destruct (String.eqb c ".."), (String.eqb c "/"). }
    rewrite Hp. destruct (forallb plain_name _); [|done]. cbn. rewrite length_app. cbn [length].
    destruct (length files + 1 <=? MAX_SKILL_FILES); [|done]. cbn. by rewrite N.add_0_r.
  - apply walks_nil.
Qed.

Lemma for_res_walks entries : walks (forallb (installable []) entries) (concat (map (files_below []) entries))
  (for_res (scan_entry root []) entries).
Proof.
  induction entries as [|e entries IH]; [apply walks_nil|]. cbn [forallb map concat].
  eapply walks_ext; [|exact (walks_seq _ _ _ _ _ _ (scan_entry_walks e []) IH)].
  intros acc. cbn. by destruct (scan_entry _ _ _ _).
Qed.

Abbreviation all_files entries := (concat (map (files_below []) entries)).

(** A directory is accepted exactly when nothing in it is a link, unreadable or named to lead
    elsewhere and it has at most 256 files; then all of its files are listed, with their total
    length. *)
Theorem scan_lists_every_file entries files total :
  scan_local_skill_dir root (Some entries) = Ok (files, total) ↔
  Forall (λ e, installable [] e = true) entries ∧ length (all_files entries) <= 256 ∧
  files = map scanned_file (all_files entries) ∧ total = N.min (total_len (all_files entries)) (2 ^ 64 - 1).
Proof.
  pose proof (for_res_walks entries [] 0%N ltac:(cbn; lia) ltac:(done)) as H. cbn [length app Nat.add] in H.
  change (scan_local_skill_dir root (Some entries)) with (for_res (scan_entry root []) entries ([], 0%N)).
  assert (Hall : Forall (λ e, installable [] e = true) entries ↔ forallb (installable []) entries = true).
  { rewrite <- Is_true_true, forallb_True. apply Forall_iff. intros e. by rewrite Is_true_true. }
  rewrite Hall. clear Hall. destruct (forallb _ entries) eqn:E1; cbn [andb] in H; [destruct (Nat.leb_spec (length (all_files entries)) MAX_SKILL_FILES)|].
  - rewrite H. split; [intros [= <- <-]|intros (_ & _ & -> & ->)]; done.
  - unfold MAX_SKILL_FILES in *. split; [|lia]. intros Hs. by rewrite Hs in H.
  - split; [|by intros [? _]]. intros Hs. by rewrite Hs in H.
Qed.
End scan_facts.

(** ** Ids and directories *)

Definition lower_id_byte (a : ascii) : bool := id_byte a && Ascii.eqb (ascii_lower a) a.

Lemma lower_id_byte_plain a : lower_id_byte a = true →
  ws1 a = false ∧ is_cont a = false ∧ byte_of a < 128 ∧ ascii_lower a = a ∧ id_byte a = true ∧ Ascii.eqb a "/" = false.
Proof.
  unfold lower_id_byte. intros [Hid Hlow%Ascii.eqb_eq]%andb_true_iff. split_and!; [..|done|done|]; clear Hlow; revert Hid;
    destruct a as [[] [] [] [] [] [] [] []]; vm_compute; first [done | lia].
Qed.

Definition lower_id (s : string) : Prop := Forall (λ a, lower_id_byte a = true) (bytes s).

Lemma bytes_concat l : bytes (String.concat "" l) = concat (bytes <$> l).
Proof.
  induction l as [|s [|t l] IH]; [done|cbn; by rewrite app_nil_r|].
  change (String.concat "" (s :: t :: l)) with (s +:+ "" +:+ String.concat "" (t :: l)).
  rewrite !bytes_app, IH. done.
Qed.

Lemma concat_chars_go cur s : concat (bytes <$> chars_go cur s) = bytes cur ++ bytes s.
Proof.
  revert cur. induction s as [|a s IH]; intros cur; cbn [chars_go].
  - destruct (String.eqb_spec cur "") as [->|]; cbn; by rewrite ?app_nil_r.
  - destruct (is_cont a).
    + rewrite IH, bytes_app. change (bytes (String a s)) with ([a] ++ bytes s). change (bytes (String a "")) with [a].
      by rewrite app_assoc.
    + rewrite fmap_app, concat_app, IH. change (bytes (String a s)) with ([a] ++ bytes s). change (bytes (String a "")) with [a].
      destruct (String.eqb_spec cur "") as [->|]; cbn; by rewrite ?app_nil_r.
Qed.

Lemma chars_bytes c s : c ∈ chars s → ∀ a, a ∈ bytes c → a ∈ bytes s.
Proof.
  intros Hc a Ha. change (bytes s) with (bytes "" ++ bytes s). rewrite <- concat_chars_go.
  apply list_elem_of_In, in_concat. exists (bytes c). split; apply list_elem_of_In; [by apply list_elem_of_fmap_2|done].
Qed.

Lemma lower_id_chars s : lower_id s → chars s = (λ a, String a "") <$> bytes s.
Proof.
  assert (∀ s cur, lower_id s → chars_go cur s = (if String.eqb cur "" then [] else [cur]) ++ ((λ a, String a "") <$> bytes s)) as H;
    [|intros Hs; by apply (H s "")].
  clear s. intros s. induction s as [|a s IH]; intros cur Hs; cbn [chars_go].
  - by rewrite app_nil_r.
  - apply Forall_cons in Hs as [(_ & -> & _)%lower_id_byte_plain Hs]. by rewrite (IH _ Hs).
Qed.

Lemma ascii_no_ws2 a b : byte_of a < 128 → ws2 a b = false.
Proof. intros H. unfold ws2. by replace (byte_of a =? 194) with false by (symmetry; apply Nat.eqb_neq; lia). Qed.

Lemma ascii_no_ws3 a b c : byte_of a < 128 → ws3 a b c = false.
Proof.
  intros H. unfold ws3. by replace (byte_of a =? 225) with false by (symmetry; apply Nat.eqb_neq; lia);
  replace (byte_of a =? 226) with false by (symmetry; apply Nat.eqb_neq; lia);
  replace (byte_of a =? 227) with false by (symmetry; apply Nat.eqb_neq; lia).
Qed.

Lemma lower_id_no_ws l : Forall (λ a, lower_id_byte a = true) l →
  starts_ws ws2 ws3 l = false ∧ starts_ws (λ a b, ws2 b a) (λ a b c, ws3 c b a) l = false.
Proof.
  intros [|a l' (Ha & _ & Ha' & _)%lower_id_byte_plain Hl]; [done|]. cbn. rewrite Ha.
  destruct Hl as [|b l' (_ & _ & Hb & _)%lower_id_byte_plain Hl]; [done|]. rewrite !ascii_no_ws2 by done.
  destruct Hl as [|c l' (_ & _ & Hc & _)%lower_id_byte_plain Hl]; [done|]. by rewrite !ascii_no_ws3.
Qed.

Lemma lower_id_trim s : lower_id s → trim s = s.
Proof.
  intros Hs. rewrite trim_trim_bytes. unfold trim_bytes, trim_start, trim_start_rev.
  assert (Hr : Forall (λ a, lower_id_byte a = true) (rev (bytes s))) by (rewrite rev_alt; by apply Forall_reverse).
  rewrite (trim_with_fix _ _ (bytes s)) by apply (lower_id_no_ws _ Hs).
  rewrite trim_with_fix by apply (lower_id_no_ws _ Hr). by rewrite rev_involutive, of_bytes_bytes.
Qed.

Lemma lower_id_lower s : lower_id s → to_ascii_lowercase s = s.
Proof.
  intros Hs. apply lower_bytes_inj. rewrite bytes_lower. induction Hs as [|a l Ha _ IH]; [done|]. cbn.
  apply lower_id_byte_plain in Ha as (_ & _ & _ & -> & _). by rewrite IH.
Qed.

Lemma lower_id_again s : lower_id s → s ≠ "" → normalize_skill_id s = Ok s.
Proof.
  intros Hs Hne. unfold normalize_skill_id. rewrite lower_id_trim, lower_id_lower by done.
  assert (String.concat "" (id_char <$> chars s) = s) as Hout.
  { apply lower_bytes_inj. rewrite bytes_concat, lower_id_chars by done. rewrite <- !list_fmap_compose.
    unfold lower_id in Hs. induction Hs as [|a l Ha _ IH]; [done|]. cbn [fmap list_fmap concat]. rewrite IH. cbn.
    apply lower_id_byte_plain in Ha as (_ & _ & _ & _ & Hid & _). unfold id_char. cbn [is_id_char]. by rewrite Hid. }
  rewrite Hout. apply String.eqb_neq in Hne. rewrite Hne. done.
Qed.

Lemma lowered_byte s a : a ∈ bytes (to_ascii_lowercase s) → ascii_lower a = a.
Proof.
  rewrite bytes_lower. intros (b & -> & _)%list_elem_of_fmap. destruct b as [[] [] [] [] [] [] [] []]; reflexivity.
Qed.

Lemma normalized_lower_id raw id : normalize_skill_id raw = Ok id → lower_id id ∧ id ≠ "".
Proof.
  unfold normalize_skill_id. rewrite guard_then_ok. intros [_ [Hne H]%guard_then_ok]. injection H as <-. split.
  - unfold lower_id. rewrite bytes_concat. apply Forall_concat, Forall_fmap, Forall_fmap, Forall_forall.
    intros c Hc. cbn. unfold id_char. destruct (is_id_char c) eqn:E.
    + destruct c as [|a [|]]; try done. constructor; [|constructor]. unfold lower_id_byte. cbn in E. rewrite E. cbn.
      apply Ascii.eqb_eq, (lowered_byte (trim raw)), (chars_bytes _ _ Hc). by left.
    + destruct (is_blank c); by repeat constructor.
  - intros E. by rewrite E in Hne.
Qed.

Lemma lower_id_component s : lower_id s → contains "/" s = false.
Proof.
  induction s as [|a s IH]; [done|]. intros [(_ & _ & _ & _ & _ & Ha)%lower_id_byte_plain Hs]%Forall_cons.
  change (contains "/" (String a s)) with ((if ascii_dec "/" a then String.prefix "" s else false) || contains "/" s).
  destruct (ascii_dec "/" a) as [<-|]; [done|]. by apply IH.
Qed.

(** An id that the registry accepts is normal already, has no separator, and - but for [.] and
    [..], which pass the normalisation - names a directory right below the directory of its
    scope. *)
Theorem skill_dirs_are_children paths scope raw id :
  normalize_skill_id raw = Ok id →
  normalize_skill_id id = Ok id ∧ contains "/" id = false ∧
  (id ≠ "." → id ≠ ".." →
   path_parent (skill_dir_for paths scope id) =
     Some (match scope with SkillUser => cp_user_dir paths | SkillProject => cp_project_dir paths end) ∧
   path_file_name (skill_dir_for paths scope id) = Some id).
Proof.
  intros [Hid Hne]%normalized_lower_id. pose proof (lower_id_component id Hid) as Hsep. split_and!; [by apply lower_id_again|done|].
  intros H1 H2. assert (id ≠ "/") as H3 by (by intros ->).
  apply String.eqb_neq in H1, H2, H3. destruct scope; cbn [skill_dir_for]; unfold path_join, path_parent, path_file_name;
    rewrite H1, rev_app_distr; cbn [rev app]; by rewrite H3, ?H2, removelast_last.
Qed.

(** ** What is served *)

(** What is asked of a file system whose paths, without [..], name different files: a step
    changes what it is told to change. *)
Definition plain (p : Path) : Prop := ".." ∉ p.

Definition same_file `{SkillDisk D} (d d' : D) (q : Path) : Prop :=
  disk_exists d' q = disk_exists d q ∧ disk_read_to_string d' q = disk_read_to_string d q.

Class SkillDiskLaws {D} (SD : SkillDisk D) : Prop := {
  written_is_read d p c d' : disk_write p c d = (true, d') → disk_exists d' p = true ∧ disk_read_to_string d' p = Some c;
  write_elsewhere d p c b d' q : plain p → plain q → p ≠ q → disk_write p c d = (b, d') → same_file d d' q;
  create_elsewhere d p b d' q : plain p → plain q → ¬ q `prefix_of` p → disk_create_dir_all p d = (b, d') → same_file d d' q;
  remove_elsewhere d p b d' q : plain p → plain q → ¬ p `prefix_of` q → disk_remove_dir_all p d = (b, d') → same_file d d' q;
  renamed_is_moved d p p' d' x : plain (p ++ x) → plain (p' ++ x) → disk_rename p p' d = (true, d') →
    disk_exists d' (p' ++ x) = disk_exists d (p ++ x) ∧ disk_read_to_string d' (p' ++ x) = disk_read_to_string d (p ++ x)
}.

Class SkillsTomlLaw (ST : SkillsToml) : Prop := toml_round f c : toml_text f = Some c → toml_parse c = Some f.

(** The two configurations are files of their own, outside of the directories of skills. *)
Record separate (paths : SkillConfigPaths) : Prop := {
  separate_user_config : plain (cp_user_config paths);
  separate_project_config : plain (cp_project_config paths);
  separate_user_dir : plain (cp_user_dir paths);
  separate_project_dir : plain (cp_project_dir paths);
  separate_configs : ¬ cp_user_config paths `prefix_of` cp_project_config paths
    ∧ ¬ cp_project_config paths `prefix_of` cp_user_config paths;
  separate_dirs : ∀ c d, c ∈ [cp_user_config paths; cp_project_config paths] → d ∈ [cp_user_dir paths; cp_project_dir paths] →
    ¬ d `prefix_of` c
}.

Section served.
  Context {D : Type} `{SD : !SkillDisk D} `{ST : SkillsToml} `{SN : SkillNet} `{SO : SkillOrder}.
  Context `{CLK : Clock} `{UC : Unicode} `{SH : Sha256}.
  Context `{SL : !SkillDiskLaws SD} `{TL : !SkillsTomlLaw ST} `{OL : !SkillOrderLaw SO}.
  Context (paths : SkillConfigPaths) (Hsep : separate paths).

(** The configuration of a scope on a disk. *)
Definition scope_file (d : D) (scope : SkillScope) : res SkillsConfigFile := (load_scope paths scope (World d 0 0)).1.

Lemma load_scope_run scope (w : world D) : load_scope paths scope w = (scope_file (w_db w) scope, w).
Proof.
  destruct w as [d t i]. unfold scope_file, load_scope, mbind, M_bind, get_db. cbn.
  destruct (disk_exists d _); cbn; [|done]. unfold context. destruct (disk_read_to_string d _); cbn; [|done].
  by destruct (toml_parse _).
Qed.

Lemma scope_file_same d d' scope : same_file d d' (path_for paths scope) → scope_file d' scope = scope_file d scope.
Proof.
  intros [He Hr]. unfold scope_file, load_scope, mbind, M_bind, get_db. cbn. rewrite He.
  destruct (disk_exists d _); cbn; [|done]. rewrite Hr. unfold context. destruct (disk_read_to_string d _); cbn; [|done].
  by destruct (toml_parse _).
Qed.

Lemma config_plain scope : plain (path_for paths scope).
Proof using Hsep. destruct scope; [by apply separate_user_config|by apply separate_project_config]. Qed.

Lemma parent_prefix p q : path_parent p = Some q → q `prefix_of` p.
Proof.
  unfold path_parent. destruct (rev p) as [|x l] eqn:E; [done|]. apply (f_equal (@rev string)) in E. rewrite rev_involutive in E.
  subst p. destruct (String.eqb x "/"); [done|]. intros [= <-]. cbn [rev]. rewrite removelast_last. by eexists.
Qed.

Lemma plain_prefix p q : q `prefix_of` p → plain p → plain q.
Proof. intros [k ->] Hp Hq. apply Hp, elem_of_app. by left. Qed.

(** A step of a computation that ends well. *)
Lemma bind_done {A B} (m : M D A) (f : A → M D B) w b w' : (m ≫= f) w = (Ok b, w') → ∃ a w1, m w = (Ok a, w1) ∧ f a w1 = (Ok b, w').
Proof. unfold mbind, M_bind. destruct (m w) as [[a|e] w1]; [by eauto|done]. Qed.

Lemma step_done e step (w : world D) w' : disk_step e step w = (Ok tt, w') → step (w_db w) = (true, w_db w').
Proof. unfold disk_step. destruct (step (w_db w)) as [[] d]; [by intros [= <-]|done]. Qed.

(** A configuration that was saved is the one that is loaded; what lies elsewhere stays. *)
Lemma save_scope_done scope f w w' : save_scope paths scope f w = (Ok tt, w') →
  scope_file (w_db w') scope = Ok f ∧
  ∀ q, plain q → ¬ q `prefix_of` path_for paths scope → same_file (w_db w) (w_db w') q.
Proof using SL TL Hsep.
  pose proof (config_plain scope) as Hp. set (p := path_for paths scope) in *. unfold save_scope. fold p.
  intros ([] & w1 & H1 & H)%bind_done. apply bind_done in H as (c & w2 & H2 & H).
  assert (Hc : toml_text f = Some c ∧ w2 = w1) by (unfold context in H2; destruct (toml_text f); [by injection H2 as -> ->|done]).
  destruct Hc as [Hc ->]. apply step_done in H. pose proof (written_is_read _ _ _ _ H) as [He Hr]. split.
  - unfold scope_file, load_scope, mbind, M_bind, get_db. cbn. fold p. rewrite He. cbn. rewrite Hr. cbn. by rewrite (toml_round f c Hc).
  - intros q Hq Hn. assert (Hw : same_file (w_db w1) (w_db w') q).
    { apply (write_elsewhere _ p c true); try done. by intros ->. }
    destruct (path_parent p) as [parent|] eqn:E; [|by injection H1 as <-].
    apply parent_prefix in E. apply step_done in H1.
    assert (Hcr : same_file (w_db w) (w_db w1) q).
    { apply (create_elsewhere _ parent true); try done; [by apply (plain_prefix p)|]. intros Hqp. apply Hn. by etrans. }
    destruct Hw, Hcr. split; congruence.
Qed.

Lemma configs_apart scope scope' : scope ≠ scope' → ¬ path_for paths scope `prefix_of` path_for paths scope'.
Proof using Hsep. destruct (separate_configs _ Hsep). by destruct scope, scope'. Qed.

Lemma save_other scope scope' f w w' : scope ≠ scope' → save_scope paths scope f w = (Ok tt, w') →
  scope_file (w_db w') scope' = scope_file (w_db w) scope'.
Proof using SL TL Hsep.
  intros Hne (_ & H)%save_scope_done. apply scope_file_same, H; [apply config_plain|by apply configs_apart].
Qed.

(** The skill with this id, if any, has the mode. *)
Definition has_mode (d : D) (scope : SkillScope) (id : string) (mode : SkillActivationMode) : Prop :=
  ∀ f cfg, scope_file d scope = Ok f → f !! id = Some cfg → si_mode cfg = mode.

Lemma set_mode_done targets id mode n w k w' : NoDup targets → set_mode_in paths targets id mode n w = (Ok k, w') →
  (∀ scope, scope ∈ targets → has_mode (w_db w') scope id mode) ∧
  ∀ scope, scope ∉ targets → scope_file (w_db w') scope = scope_file (w_db w) scope.
Proof using SL TL Hsep.
  intros Hnd. revert n w. induction Hnd as [|target targets Hnin _ IH]; intros n w; cbn [set_mode_in].
  - intros [= <- <-]. split; [by intros scope ?%elem_of_nil|done].
  - intros (file & w1 & H1 & H)%bind_done. rewrite load_scope_run in H1. injection H1 as Hfile <-.
    assert (∃ n1 w2, set_mode_in paths targets id mode n1 w2 = (Ok k, w') ∧ has_mode (w_db w2) target id mode ∧
      ∀ scope, scope ≠ target → scope_file (w_db w2) scope = scope_file (w_db w) scope) as (n1 & w2 & Hrest & Hmode & Hother).
    { destruct (file !! id) as [cfg|] eqn:E.
      - apply bind_done in H as ([] & w2 & H2 & H). exists (S n), w2. split; [done|]. split.
        + apply save_scope_done in H2 as [H2 _]. intros f c Hf Hc. rewrite H2 in Hf. injection Hf as <-.
          pose proof (lookup_insert_eq (M := gmap string) file id (with_mode mode cfg)) as Hl.
          assert (Some c = Some (with_mode mode cfg)) as [= ->] by (rewrite <- Hl; symmetry; exact Hc). done.
        + intros scope Hs. by eapply save_other.
      - exists n, w. split; [done|]. split; [|done]. intros f c Hf Hc. congruence. }
    apply IH in Hrest as [Hin Hout]. split.
    + intros scope [->|Hs]%elem_of_cons; [|by apply Hin]. intros f c. rewrite Hout by done. apply Hmode.
    + intros scope [Hs1 Hs2]%not_elem_of_cons. rewrite Hout by done. by apply Hother.
Qed.

(** An entry of the runtime, if its file is there. *)
Definition entry_of (d : D) (p : string * (string * SkillInstalledConfig)) : option SkillRuntimeEntry :=
  let '(id, (source, cfg)) := p in
  let path := path_join (skill_dir_for paths (if String.eqb source "project" then SkillProject else SkillUser) id) "SKILL.md" in
  if disk_exists d path then runtime_entry id cfg <$> disk_read_to_string d path else None.

Lemma load_entries_done l (w : world D) rt w' : load_entries paths l w = (Ok rt, w') → w' = w ∧ rt = omap (entry_of (w_db w)) l.
Proof.
  revert rt w'. induction l as [|[id [source cfg]] l IH]; intros rt w'; cbn [load_entries]; [by intros [= <- <-]|].
  intros (d & w1 & H1 & H)%bind_done. injection H1 as <- <-. set (path := path_join _ "SKILL.md") in H.
  change (omap (entry_of (w_db w)) ((id, (source, cfg)) :: l)) with
    (match (if disk_exists (w_db w) path then runtime_entry id cfg <$> disk_read_to_string (w_db w) path else None) with
     | Some e => e :: omap (entry_of (w_db w)) l | None => omap (entry_of (w_db w)) l end).
  destruct (disk_exists (w_db w) path); cbn [negb] in H; [|by apply IH].
  apply bind_done in H as (content & w1 & H1 & H). apply bind_done in H as (rest & w2 & H2 & H).
  unfold context in H1. destruct (disk_read_to_string _ path); [|done]. injection H1 as -> <-.
  apply IH in H2 as [-> ->]. by injection H as <- <-.
Qed.

Lemma from_registry_done w rt w' : from_registry paths w = (Ok rt, w') → ∃ user project,
  scope_file (w_db w) SkillUser = Ok user ∧ scope_file (w_db w) SkillProject = Ok project ∧
  ∀ e, e ∈ rt ↔ ∃ p, entry_of (w_db w) p = Some e ∧ ((pair "project" <$> project) ∪ (pair "user" <$> user)) !! p.1 = Some p.2.
Proof using OL.
  unfold from_registry, load_merged_with_source. intros (merged & w1 & H1 & H)%bind_done.
  apply bind_done in H1 as (user & wa & Ha & H1). apply bind_done in H1 as (project & wb & Hb & H1).
  rewrite load_scope_run in Ha, Hb. injection Ha as Ha <-. injection Hb as Hb <-. injection H1 as <- <-.
  apply bind_done in H as (n & w2 & Hn & H). unfold tick in Hn. injection Hn as <- <-. apply load_entries_done in H as [_ ->].
  exists user, project. split_and!; [done..|]. intros e. rewrite list_elem_of_omap. cbn [w_db].
  setoid_rewrite skill_order_permutes. split; intros (p & H1 & H2); exists p; destruct p as [id sc]; split;
    first [done | by apply elem_of_map_to_list].
Qed.

Lemma merged_lookup (user project : gmap string SkillInstalledConfig) id sc :
  ((pair "project" <$> project) ∪ (pair "user" <$> user) : gmap string (string * SkillInstalledConfig)) !! id = Some sc →
  (∃ cfg, project !! id = Some cfg ∧ sc = ("project", cfg)) ∨
  (project !! id = None ∧ ∃ cfg, user !! id = Some cfg ∧ sc = ("user", cfg)).
Proof.
  rewrite lookup_union, !lookup_fmap. destruct (project !! id) as [cfg|]; cbn.
  - rewrite union_Some_l. intros [= <-]. left. by exists cfg.
  - rewrite option_union_left_id. destruct (user !! id) as [cfg|]; [|done]. intros [= <-]. right. split; [done|]. by exists cfg.
Qed.

Lemma merged_user (user project : gmap string SkillInstalledConfig) id cfg : project !! id = None → user !! id = Some cfg →
  ((pair "project" <$> project) ∪ (pair "user" <$> user) : gmap string (string * SkillInstalledConfig)) !! id = Some ("user", cfg).
Proof. intros Hp Hu. by rewrite lookup_union, !lookup_fmap, Hp, Hu. Qed.

Lemma merged_project (user project : gmap string SkillInstalledConfig) id cfg : project !! id = Some cfg →
  ((pair "project" <$> project) ∪ (pair "user" <$> user) : gmap string (string * SkillInstalledConfig)) !! id = Some ("project", cfg).
Proof. intros Hp. rewrite lookup_union, !lookup_fmap, Hp. cbn. by rewrite union_Some_l. Qed.

Lemma select_in_use rt query settings s : s ∈ select rt query settings → ∃ e, e ∈ rt ∧ in_use e = true ∧ sl_id s = sr_id e.
Proof.
  unfold select. intros (c & -> & (i & Hi & _)%elem_of_take)%list_elem_of_fmap.
  apply list_elem_of_lookup_2 in Hi. rewrite order_by_perm in Hi.
  apply elem_candidates in Hi as (e & He & [Huse _] & ->). by exists e.
Qed.

(** A skill that was switched off in both scopes is in no later selection. *)
Theorem switched_off_is_silent raw id w n w1 w2 rt w3 :
  normalize_skill_id raw = Ok id → set_skill_mode paths TargetAll raw SkillOff w = (Ok n, w1) →
  w_db w2 = w_db w1 → from_registry paths w2 = (Ok rt, w3) →
  ∀ query settings s, s ∈ select rt query settings → sl_id s ≠ id.
Proof using SL TL OL Hsep.
  intros Hid Hset Hw Hrt query settings s Hs Hsid. unfold set_skill_mode in Hset. rewrite Hid in Hset.
  apply set_mode_done in Hset as [Hoff _]; [|repeat constructor; set_solver].
  apply select_in_use in Hs as (e & He & Huse & Hse). rewrite Hsid in Hse.
  apply from_registry_done in Hrt as (user & project & Hu & Hp & Hrt). rewrite Hw in *.
  apply Hrt in He as ([id' sc] & He & Hl). cbn [fst snd] in Hl.
  assert (id' = id ∧ sr_mode e = si_mode sc.2) as [-> Hmode].
  { destruct sc as [source cfg]. cbn in He. destruct (disk_exists _ _); [|done]. destruct (disk_read_to_string _ _); [|done].
    injection He as <-. done. }
  assert (si_mode sc.2 = SkillOff) as Hsc.
  { apply merged_lookup in Hl as [(cfg & Hc & ->)|(_ & cfg & Hc & ->)]; cbn.
    - by apply (Hoff SkillProject ltac:(set_solver) project).
    - by apply (Hoff SkillUser ltac:(set_solver) user). }
  unfold in_use in Huse. rewrite Hmode, Hsc in Huse. by destruct (sr_enabled e).
Qed.

(** *** An installed skill *)

Lemma same_trans d d1 d2 q : same_file d d1 q → same_file d1 d2 q → same_file d d2 q.
Proof. intros [] []. split; congruence. Qed.

Lemma same_exists d d' q : same_file d d' q → disk_exists d' q = disk_exists d q.
Proof. by intros []. Qed.

(** The directory that is put together is a neighbour of the one it replaces. *)
Lemma tmp_dir_apart dest parent suffix : path_parent dest = Some parent →
  let tmp := path_join parent (".tmp-" +:+ default "skill" (path_file_name dest) +:+ suffix) in
  (∀ k, ¬ dest `prefix_of` tmp ++ k) ∧ (plain dest → plain tmp).
Proof.
  unfold path_parent, path_file_name. destruct (rev dest) as [|x l] eqn:E; [done|]. apply (f_equal (@rev string)) in E.
  rewrite rev_involutive in E. subst dest. cbn [rev]. destruct (String.eqb x "/") eqn:Ex; [done|]. cbn [orb].
  intros [= <-]. rewrite removelast_last. set (name := default _ _). cbn zeta.
  change (path_join (rev l) (".tmp-" +:+ name +:+ suffix)) with (rev l ++ [".tmp-" +:+ name +:+ suffix]). split.
  - intros k. rewrite <- app_assoc. intros Hp%prefix_app_inv. apply prefix_cons_inv_1 in Hp. unfold name in Hp.
    destruct (String.eqb_spec x "..") as [->|]; cbn in Hp; [done|].
    apply (f_equal String.length) in Hp. rewrite string_length_app in Hp. cbn [String.length] in Hp.
    rewrite string_length_app in Hp. lia.
  - intros Hp [Hr|Hr%list_elem_of_singleton]%elem_of_app; [|done]. apply Hp, elem_of_app. by left.
Qed.

Lemma catalog_dir_done dest markdown w w' : plain dest → write_catalog_skill_dir dest markdown w = (Ok tt, w') →
  disk_exists (w_db w') (path_join dest "SKILL.md") = true ∧ disk_read_to_string (w_db w') (path_join dest "SKILL.md") = Some markdown.
Proof using SL.
  intros Hdest. unfold write_catalog_skill_dir. intros (tmp & w1 & H1 & H)%bind_done.
  assert (Htmp : (∀ k, ¬ dest `prefix_of` tmp ++ k) ∧ plain tmp).
  { unfold make_tmp_dir in H1. apply bind_done in H1 as (parent & wa & Ha & H1). unfold context in Ha.
    destruct (path_parent dest) as [q|] eqn:Eq; [|done]. injection Ha as -> <-.
    apply bind_done in H1 as (? & wb & _ & H1). apply bind_done in H1 as (now & wc & _ & H1).
    apply bind_done in H1 as (d & wd & _ & H1). apply bind_done in H1 as (? & we & _ & H1).
    apply bind_done in H1 as (? & wf & _ & H1). injection H1 as <- _.
    pose proof (tmp_dir_apart dest parent ("-" +:+ pretty now) Eq) as [Hk Hp]. split; [exact Hk|by apply Hp]. }
  clear H1. destruct Htmp as [Hapart Hplain]. change (path_join tmp "SKILL.md") with (tmp ++ ["SKILL.md"]) in H.
  change (path_join dest "SKILL.md") with (dest ++ ["SKILL.md"]).
  assert (Hfile : ∀ p, plain p → plain (p ++ ["SKILL.md"])).
  { intros p Hp [?|Hr%list_elem_of_singleton]%elem_of_app; [by apply Hp|done]. }
  apply bind_done in H as ([] & w2 & H2 & H). apply step_done in H2. apply written_is_read in H2 as [He Hr].
  unfold move_into_place in H. apply bind_done in H as (d & w3 & H3 & H). injection H3 as <- <-.
  apply bind_done in H as ([] & w3 & H3 & H). apply step_done, (renamed_is_moved _ _ _ _ ["SKILL.md"]) in H as [-> ->]; [|by apply Hfile..].
  destruct (disk_exists (w_db w2) dest); [|by injection H3 as <-].
  apply step_done, (remove_elsewhere _ _ _ _ (tmp ++ ["SKILL.md"])) in H3 as [-> ->]; auto.
Qed.

(** What the registry keeps about a skill from a catalog. *)
Record kept (entry : SkillCatalogEntry) (mode : SkillActivationMode) (text : string) (record : SkillInstalledConfig) : Prop := {
  kp_mode : si_mode record = mode;
  kp_enabled : si_enabled record = true ↔ mode ≠ SkillOff;
  kp_source : si_source_kind record = SkillCatalog ∧ si_source_ref record = sc_source_ref entry;
  kp_version : si_version record = sc_version entry;
  kp_checksum : si_checksum_sha256 record = sha256_hex text
}.

Lemma catalog_record_kept entry mode text id now : kept entry mode text (catalog_record entry text id (Some mode) None now).
Proof. split; try done. cbn. rewrite negb_true_iff. case_bool_decide; naive_solver. Qed.

Lemma downloaded entry (w : world D) text w' : download_catalog_skill entry w = (Ok text, w') →
  ∃ status, net_get (w_tick w) (sc_download_url entry) = HttpResponse status text ∧ (200 <= status < 300)%N.
Proof.
  unfold download_catalog_skill, http_get, mbind, M_bind, tick. cbn [mret M_ret].
  destruct (net_get _ _) as [| |status body]; [done..|]. unfold ensure.
  destruct (is_success status) eqn:E; [|done]. intros [= <- <-]. exists status. split; [done|].
  unfold is_success in E. apply andb_true_iff in E as [?%N.leb_le ?%N.ltb_lt]. done.
Qed.

(** C33: A skill that was installed from a catalog is the text that the address of its entry
    answered with, and is served with exactly this text, under the id of the entry and in the
    mode that was asked for - unless the project has a skill of that id and it was installed
    for the user.  A checksum that the entry promises is the text's, the text is no longer than
    the limit, and the registry of the scope keeps the text's own checksum, the mode, the
    source and the version. *)
Theorem installed_skill_is_served scope entry mode w r w1 w2 rt w3 :
  normalize_skill_id (sc_id entry) ≠ Ok ".." →
  install_catalog_skill paths scope entry mode w = (Ok r, w1) →
  w_db w2 = w_db w1 → from_registry paths w2 = (Ok rt, w3) →
  (scope = SkillUser → ∀ f, scope_file (w_db w1) SkillProject = Ok f → f !! sn_id r = None) →
  normalize_skill_id (sc_id entry) = Ok (sn_id r) ∧ sn_version r = sc_version entry ∧
  ∃ status text, net_get (w_tick w) (sc_download_url entry) = HttpResponse status text ∧ (200 <= status < 300)%N ∧
    (N.of_nat (String.length text) <= MAX_SKILL_MD_BYTES)%N ∧
    (∀ promised, sc_checksum_sha256 entry = Some promised → is_blank promised = false →
       to_ascii_lowercase promised = to_ascii_lowercase (sha256_hex text)) ∧
    (∃ file record, scope_file (w_db w1) scope = Ok file ∧ file !! sn_id r = Some record ∧ kept entry mode text record) ∧
    ∃ skill, skill ∈ rt ∧ sr_id skill = sn_id r ∧ sr_content skill = text ∧ sr_mode skill = mode ∧
      (sr_enabled skill = true ↔ mode ≠ SkillOff).
Proof using SL TL OL Hsep.
  unfold install_catalog_skill, install_catalog_skill_with_override. intros Hdots (id & wa & Ha & H)%bind_done Hw Hrt Huser.
  unfold lift_res in Ha. destruct (normalize_skill_id (sc_id entry)) as [id'|] eqn:Hid; [|done]. injection Ha as -> <-.
  apply bind_done in H as (markdown & wb & Hb & H). apply bind_done in H as ([] & wc & Hc & H).
  assert (checksum_agrees (sc_checksum_sha256 entry) (sha256_hex markdown) = true ∧ wc = wb) as [Hsum ->].
  { unfold ensure in Hc. destruct (checksum_agrees _ _); [|done]. by injection Hc as <-. }
  apply bind_done in H as ([] & wd & Hlen & H). apply bind_done in H as ([] & we & He & H).
  apply bind_done in H as (now & wf & Hf & H). apply bind_done in H as ([] & wg & Hg & H). injection H as <- <-.
  set (dest := skill_dir_for paths scope id) in *. set (path := path_join dest "SKILL.md").
  assert (Hdir : ∃ dir, dir ∈ [cp_user_dir paths; cp_project_dir paths] ∧ plain dir ∧ dest = path_join dir id).
  { destruct scope; eexists; (split; [|split; [|reflexivity]]); [set_solver|by apply separate_user_dir|set_solver|by apply separate_project_dir]. }
  destruct Hdir as (dir & Hin & Hdir & Hdest).
  assert (Hplain : plain dest).
  { rewrite Hdest. unfold path_join. destruct (String.eqb id "."); [done|].
    intros [Hd|Hd%list_elem_of_singleton]%elem_of_app; [by apply Hdir|]. apply Hdots. by rewrite Hd. }
  apply catalog_dir_done in He as [Hex Hrd]; [|done]. fold path in Hex, Hrd.
  assert (Hdb : w_db wf = w_db we) by (by injection Hf as _ <-).
  unfold upsert_skill_record in Hg. apply bind_done in Hg as (file & wh & Hh & Hg). rewrite load_scope_run in Hh. injection Hh as Hfile <-.
  apply save_scope_done in Hg as [Hsaved Hsame].
  assert (same_file (w_db wf) (w_db wg) path) as [Hex' Hrd'].
  { apply Hsame.
    - intros [Hd|Hd%list_elem_of_singleton]%elem_of_app; [by apply Hplain|done].
    - intros Hpre. apply (separate_dirs _ Hsep (path_for paths scope) dir); [destruct scope; set_solver|done|].
      etrans; [|exact Hpre]. unfold path. rewrite Hdest. unfold path_join. destruct (String.eqb id "."); cbn;
        [by eexists|rewrite <- app_assoc; by eexists]. }
  rewrite Hdb in *. cbn [sn_id sn_version] in *. split; [done|]. split; [done|].
  apply downloaded in Hb as (status & Hnet & Hok). exists status, markdown. split; [done|]. split; [done|].
  split; [unfold ensure in Hlen; destruct (N.leb_spec (N.of_nat (String.length markdown)) MAX_SKILL_MD_BYTES); done|].
  split.
  { intros promised Hpr Hbl. unfold checksum_agrees in Hsum. rewrite Hpr, Hbl in Hsum. by apply String.eqb_eq in Hsum. }
  split.
  { exists (<[id := catalog_record entry markdown id (Some mode) None now]> file). eexists. split; [exact Hsaved|].
    split; [exact (lookup_insert_eq (M := gmap string) file id _)|apply catalog_record_kept]. }
  exists (runtime_entry id (catalog_record entry markdown id (Some mode) None now) markdown).
  split; [|split; [done|]; split; [done|]; split; [done|]; apply (kp_enabled _ _ _ _ (catalog_record_kept entry mode markdown id now))].
  apply from_registry_done in Hrt as (user & project & Hu & Hp & Hrt). rewrite Hw in *. apply Hrt.
  set (rec := catalog_record entry markdown id (Some mode) None now) in *.
  exists (id, (match scope with SkillUser => "user" | SkillProject => "project" end, rec)). split.
  - unfold entry_of. replace (skill_dir_for _ _ id) with dest by (by destruct scope). fold path. by rewrite Hex', Hrd', Hex, Hrd.
  - cbn [fst snd]. destruct scope.
    + apply merged_user; [exact (Huser eq_refl project Hp)|]. rewrite Hsaved in Hu. injection Hu as <-.
      exact (lookup_insert_eq (M := gmap string) file id rec).
    + apply merged_project. rewrite Hsaved in Hp. injection Hp as <-. exact (lookup_insert_eq (M := gmap string) file id rec).
Qed.
End served.

(** ** A concrete file system *)

Inductive Node : Type := DirNode | FileNode (content : string).

Definition Disk : Type := list (Path * Node).

(** [..] leads back. *)
Definition resolve (p : Path) : Path := rev (foldl (λ acc c, if String.eqb c ".." then tail acc else c :: acc) [] p).

Definition node_at (d : Disk) (q : Path) : option Node := snd <$> List.find (λ e, bool_decide (e.1 = q)) d.

Definition is_file (n : option Node) : bool := match n with Some (FileNode _) => true | _ => false end.

Definition above (p q : Path) : bool := bool_decide (p `prefix_of` q).

Definition without (p : Path → bool) (d : Disk) : Disk := List.filter (λ e, negb (p e.1)) d.

Definition make_dirs (q : Path) (d : Disk) : Disk :=
  foldl (λ d i, let p := take i q in match node_at d p with Some _ => d | None => (p, DirNode) :: d end) d (seq 1 (length q)).

Definition moved (a b : Path) (e : Path * Node) : Path * Node :=
  if above a e.1 then (b ++ drop (length a) e.1, e.2) else e.

Fixpoint tree_at (fuel : nat) (d : Disk) (p : Path) : list SourceEntry :=
  match fuel with
  | O => []
  | S fuel' => omap (λ e : Path * Node,
      match path_file_name e.1 with
      | Some name => if bool_decide (e.1 = p ++ [name])
                     then Some match e.2 with
                               | FileNode c => SourceFile name (N.of_nat (String.length c))
                               | DirNode => SourceDir name (Some (tree_at fuel' d e.1))
                               end
                     else None
      | None => None
      end) d
  end.

(** Like that of Linux: a directory named by [..] is emptied before its removal fails. *)
#[export] Instance listed_disk : SkillDisk Disk := {|
  disk_exists d p := is_some (node_at d (resolve p));
  disk_is_dir d p := match node_at d (resolve p) with Some DirNode => true | _ => false end;
  disk_canonicalize d p := _ ← node_at d (resolve p); Some (resolve p);
  disk_read_to_string d p := match node_at d (resolve p) with Some (FileNode c) => Some c | _ => None end;
  disk_len d p := match node_at d (resolve p) with Some (FileNode c) => Some (N.of_nat (String.length c)) | _ => None end;
  disk_tree d p := match node_at d (resolve p) with Some DirNode => Some (tree_at (length d) d (resolve p)) | _ => None end;
  disk_create_dir_all p d :=
    let q := resolve p in
    if existsb (λ i, is_file (node_at d (take i q))) (seq 1 (length q)) then (false, d) else (true, make_dirs q d);
  disk_remove_dir_all p d := (negb (String.eqb (List.last p "") ".."), without (above (resolve p)) d);
  disk_write p c d :=
    let q := resolve p in
    match node_at d q, path_parent q ≫= node_at d with
    | Some DirNode, _ => (false, d)
    | _, Some DirNode => (true, (q, FileNode c) :: without (λ k, bool_decide (k = q)) d)
    | _, _ => (false, d)
    end;
  disk_copy a b d :=
    let q := resolve b in
    match node_at d (resolve a), node_at d q with
    | Some (FileNode c), None => (true, (q, FileNode c) :: d)
    | Some (FileNode c), Some (FileNode _) => (true, (q, FileNode c) :: without (λ k, bool_decide (k = q)) d)
    | _, _ => (false, d)
    end;
  disk_rename a b d :=
    let a := resolve a in let b := resolve b in
    if is_some (node_at d a) && negb (existsb (λ e, above b e.1) d) then (true, map (moved a b) d) else (false, d)
|}.

Lemma resolve_plain p : plain p → resolve p = p.
Proof.
  unfold resolve. enough (∀ acc, plain p → foldl (λ acc c, if String.eqb c ".." then tail acc else c :: acc) acc p = rev p ++ acc) as H.
  { intros Hp. rewrite H by done. by rewrite app_nil_r, rev_involutive. }
  clear. induction p as [|c p IH]; intros acc Hp; [done|]. cbn.
  assert (c ≠ "..") as Hc%String.eqb_neq by (intros ->; apply Hp; by left). rewrite Hc, IH.
  - by rewrite <- app_assoc.
  - intros H. apply Hp. by right.
Qed.

Lemma node_at_same d d' q : plain q → node_at d' q = node_at d q → same_file d d' q.
Proof. intros Hq H. split; cbn; by rewrite resolve_plain, H. Qed.

Lemma node_at_without p d q : p q = false → node_at (without p d) q = node_at d q.
Proof.
  intros Hp. unfold node_at, without. induction d as [|e d IH]; [done|]. cbn [List.filter List.find].
  destruct (decide (e.1 = q)) as [<-|Hne].
  - rewrite Hp. cbn. by rewrite bool_decide_true.
  - rewrite (bool_decide_false _ Hne). destruct (p e.1); cbn; [done|]. by rewrite (bool_decide_false _ Hne).
Qed.

Lemma node_at_cons p n d q : p ≠ q → node_at ((p, n) :: d) q = node_at d q.
Proof. intros H. unfold node_at. cbn. by rewrite bool_decide_false. Qed.

Lemma node_at_make_dirs p d q : ¬ q `prefix_of` p → node_at (make_dirs p d) q = node_at d q.
Proof.
  intros Hq. unfold make_dirs. cbv zeta. generalize (seq 1 (length p)). intros l. revert d. induction l as [|i l IH]; intros d; [done|].
  cbn [foldl]. etrans; [apply IH|]. destruct (node_at d (take i p)) eqn:E; [done|]. apply node_at_cons. intros <-. apply Hq. exists (drop i p). by rewrite take_drop.
Qed.

Lemma node_at_moved a b d x : existsb (λ e, above b e.1) d = false → node_at (map (moved a b) d) (b ++ x) = node_at d (a ++ x).
Proof.
  unfold node_at. induction d as [|[k n] d IH]; [done|]. cbn [existsb map List.find]. intros [Hk Hd]%orb_false_iff.
  set (rest := map (moved a b) d) in *. unfold above in *. apply bool_decide_eq_false in Hk. cbn [fst] in Hk.
  specialize (IH Hd). unfold moved, above. cbn [fst snd]. destruct (decide (a `prefix_of` k)) as [[y ->]|Ha].
  - rewrite (bool_decide_true (a `prefix_of` a ++ y)) by (by eexists). cbn [fst]. rewrite drop_app_length.
    destruct (decide (y = x)) as [->|Hy]; [by rewrite !bool_decide_true|].
    rewrite !bool_decide_false; [done|by intros ?%app_inv_head..].
  - rewrite (bool_decide_false (a `prefix_of` k)) by done. cbn [fst]. rewrite !bool_decide_false; [done| |].
    + intros ->. apply Ha. by eexists.
    + intros ->. apply Hk. by eexists.
Qed.

#[export] Instance listed_disk_laws : SkillDiskLaws listed_disk.
Proof.
  split.
  - intros d p c d'. cbn. intros H. assert (d' = (resolve p, FileNode c) :: without (λ k, bool_decide (k = resolve p)) d) as ->
      by (repeat case_match; by simplify_eq).
    unfold node_at. cbn. by rewrite bool_decide_true.
  - intros d p c b d' q Hp Hq Hne H. apply node_at_same; [done|]. cbn in H.
    rewrite resolve_plain in H by done. repeat case_match; simplify_eq; try done;
      rewrite node_at_cons, node_at_without; done || by apply bool_decide_false.
  - intros d p b d' q Hp Hq Hne H. apply node_at_same; [done|]. cbn in H.
    rewrite resolve_plain in H by done. case_match; simplify_eq; [done|]. by apply node_at_make_dirs.
  - intros d p b d' q Hp Hq Hne H. apply node_at_same; [done|]. cbn in H. injection H as _ <-.
    rewrite resolve_plain by done. apply node_at_without. unfold above. by apply bool_decide_false.
  - intros d p p' d' x Hp Hp' H. cbn in H.
    assert (plain p ∧ plain p') as [? ?] by (split; intros Hd; [apply Hp|apply Hp']; apply elem_of_app; by left).
    rewrite (resolve_plain p), (resolve_plain p') in H by done.
    destruct (_ && _) eqn:E; [|done]. injection H as <-. apply andb_true_iff in E as [_ E%negb_true_iff].
    cbn. rewrite !resolve_plain by done. by rewrite node_at_moved.
Qed.

(** ** Concrete runs *)

#[local] Instance skill_in_order : SkillOrder := λ _ _ l, rev l.

#[local] Instance skill_in_order_law : SkillOrderLaw skill_in_order.
Proof. intros A n l. symmetry. apply Permutation_rev. Qed.

Definition verse_text : string :=
  "---" +:+ newline +:+ "name: Poet" +:+ newline +:+ "description: answers in verse" +:+ newline +:+ "tags: [verse, 'poem']"
    +:+ newline +:+ "---" +:+ newline +:+ "Always answer in verse." +:+ newline.

Definition verse_url : string := "https://skills.example/poet/SKILL.md".

Definition verse_entry (id : string) : SkillCatalogEntry :=
  {| sc_id := id; sc_name := "Poet"; sc_description := ""; sc_tags := []; sc_version := "1"; sc_source_ref := "team:poet@1";
     sc_download_url := verse_url; sc_checksum_sha256 := None; sc_keywords := []; sc_catalog := "team" |}.

Definition verse_record (mode : SkillActivationMode) : SkillInstalledConfig :=
  catalog_record (verse_entry "Poet") verse_text "poet" (Some mode) None 2.

#[local] Instance SkillInstalledConfig_eq_dec : EqDecision SkillInstalledConfig.
Proof. solve_decision. Defined.

(** The TOML of the configurations of these runs. *)
Definition documents : list (string * gmap string SkillInstalledConfig) :=
  [("", ∅); ("[skills.poet] always", {[ "poet" := verse_record SkillAlways ]});
   ("[skills.poet] off", {[ "poet" := with_mode SkillOff (verse_record SkillAlways) ]})].

#[local] Instance listed_toml : SkillsToml :=
  {| toml_parse s := snd <$> List.find (λ e, String.eqb e.1 s) documents;
     toml_text f := fst <$> List.find (λ e, bool_decide (e.2 = f)) documents |}.

#[local] Instance listed_toml_law : SkillsTomlLaw listed_toml.
Proof.
  intros f c. unfold toml_text, listed_toml. destruct (List.find (λ e, bool_decide (e.2 = f)) documents) as [[c' f']|] eqn:E; [|done]. intros [= <-].
  apply find_some in E as [Hin Hf%bool_decide_eq_true]. cbn in Hf. subst f'.
  destruct Hin as [Hin|[Hin|[Hin|[]]]]; injection Hin as <- <-; reflexivity.
Qed.

#[local] Instance one_page : SkillNet :=
  {| net_get n url := if String.eqb url verse_url then HttpResponse 200 verse_text else HttpUnsent;
     status_text n := pretty n; official_json _ := None; team_json _ := None; team_index_url := None |}.

Definition home : SkillConfigPaths :=
  {| cp_user_config := ["/"; "u"; "xiaomaolv"; "skills.toml"]; cp_project_config := ["/"; "p"; ".xiaomaolv"; "skills.toml"];
     cp_user_dir := ["/"; "u"; "xiaomaolv"; "skills"]; cp_project_dir := ["/"; "p"; ".xiaomaolv"; "skills"] |}.

Lemma home_separate : separate home.
Proof.
  split; try (intros H; cbn in H; set_solver).
  - split; intros [k Hk]; discriminate.
  - intros c d Hc Hd. repeat (apply elem_of_cons in Hc as [->|Hc]; [|try by apply elem_of_nil in Hc]);
      repeat (apply elem_of_cons in Hd as [->|Hd]; [|try by apply elem_of_nil in Hd]); intros [k Hk]; discriminate.
Qed.

Definition bare_disk : Disk := [(["/"], DirNode); (["/"; "u"], DirNode); (["/"; "p"], DirNode)].

Definition booted (d : Disk) : world Disk := World d 0 0.

Definition after {A} (m : M Disk A) (d : Disk) : Disk := w_db (m (booted d)).2.

Definition with_poet : Disk := after (install_catalog_skill home SkillProject (verse_entry "Poet") SkillAlways) bare_disk.

Definition served_on (d : Disk) : SkillRuntime :=
  match (from_registry home (booted d)).1 with Ok rt => rt | Err _ => [] end.

Definition three_skills : SkillRuntimeSelectionSettings :=
  {| ss_max_selected := 3; ss_max_prompt_chars := 600; ss_match_min_score := f32_lit 45 100 |}.

(** *** The theorems at work *)

Lemma skill_dirs_are_children_witness :
  normalize_skill_id " My Poet/2 " = Ok "my-poet2" ∧
  path_file_name (skill_dir_for home SkillUser "my-poet2") = Some "my-poet2".
Proof.
  assert (H : normalize_skill_id " My Poet/2 " = Ok "my-poet2") by reflexivity.
  split; [exact H|]. exact (proj2 (proj2 (proj2 (skill_dirs_are_children home SkillUser _ _ H)) ltac:(done) ltac:(done))).
Defined.

Definition poet_skill (id : string) (mode : SkillActivationMode) : SkillRuntimeEntry :=
  runtime_entry id (with_mode mode (verse_record SkillAlways)) verse_text.

(** Two skills that fit a query, one that is off, and room for one. *)
Definition troupe : SkillRuntime := [poet_skill "bard" SkillSemantic; poet_skill "poet" SkillAlways; poet_skill "mime" SkillOff].

Definition one_skill : SkillRuntimeSelectionSettings :=
  {| ss_max_selected := 1; ss_max_prompt_chars := 600; ss_match_min_score := f32_lit 45 100 |}.

Lemma verse_query_countable : countable (tokenize_text "answers in verse").
Proof. vm_compute. reflexivity. Qed.

Lemma selection_is_the_best_witness :
  sl_id <$> select troupe "answers in verse" one_skill = ["poet"] ∧
  ∀ s, s ∈ select troupe "answers in verse" one_skill →
    preferred s (as_selected "answers in verse" (poet_skill "bard" SkillSemantic)).
Proof.
  pose proof (selection_is_the_best troupe "answers in verse" one_skill verse_query_countable) as (_ & _ & _ & H).
  assert (Hsel : sl_id <$> select troupe "answers in verse" one_skill = ["poet"]) by (vm_compute; reflexivity).
  split; [exact Hsel|]. destruct (H (poet_skill "bard" SkillSemantic)) as [Hin|[_ Hall]].
  - left.
  - split; [reflexivity|]. right. vm_compute. reflexivity.
  - exfalso. apply (list_elem_of_fmap_2 sl_id) in Hin. rewrite Hsel in Hin. apply list_elem_of_singleton in Hin. discriminate Hin.
  - exact Hall.
Defined.

Lemma prompt_is_order_free_witness :
  NoDup (sr_id <$> troupe) ∧
  build_system_prompt troupe "answers in verse" three_skills = build_system_prompt (rev troupe) "answers in verse" three_skills.
Proof.
  assert (H : NoDup (sr_id <$> troupe)) by (repeat constructor; set_solver).
  split; [exact H|]. apply (prompt_is_order_free troupe (rev troupe) _ three_skills verse_query_countable H). apply Permutation_rev.
Defined.

Lemma prompt_fits_its_budget_witness :
  ∃ out, build_system_prompt troupe "answers in verse" three_skills = Some out ∧ chars_count out <= 600.
Proof.
  destruct (build_system_prompt troupe "answers in verse" three_skills) as [out|] eqn:E; [|vm_compute in E; discriminate E].
  exists out. split; [reflexivity|]. destruct (prompt_fits_its_budget _ _ _ E) as (k & _ & H & _). exact H.
Defined.

Lemma no_reload_no_change_witness :
  after (execute_skills_command home (SkillsUse "mime" TargetAll SkillOff)) with_poet = with_poet.
Proof.
  assert (H : (execute_skills_command home (SkillsUse "mime" TargetAll SkillOff) (booted with_poet)).1
              = Ok (output "skill 'mime' not found" false)) by (vm_compute; reflexivity).
  unfold after. destruct (execute_skills_command _ _ _) as [r w'] eqn:E. cbn in H. subst r.
  exact (no_reload_no_change home _ _ _ _ E eq_refl).
Defined.

Definition with_poet_off : Disk := after (set_skill_mode home TargetAll "Poet" SkillOff) with_poet.

Lemma switched_off_is_silent_witness :
  (sr_id <$> served_on with_poet_off = ["poet"]) ∧
  ∀ query s, s ∈ select (served_on with_poet_off) query three_skills → sl_id s ≠ "poet".
Proof.
  split; [vm_compute; reflexivity|]. intros query s Hs.
  destruct (set_skill_mode home TargetAll "Poet" SkillOff (booted with_poet)) as [r1 w1] eqn:E1.
  assert (Hr1 : r1 = Ok 1) by (change r1 with (r1, w1).1; rewrite <- E1; vm_compute; reflexivity). subst r1.
  assert (Hw1 : w_db w1 = with_poet_off) by (change w1 with (Ok 1, w1).2; rewrite <- E1; reflexivity).
  destruct (from_registry home (booted with_poet_off)) as [r2 w2] eqn:E2.
  assert (Hr2 : r2 = Ok (served_on with_poet_off)) by (change r2 with (r2, w2).1; rewrite <- E2; vm_compute; reflexivity). subst r2.
  exact (switched_off_is_silent home home_separate "Poet" "poet" _ _ w1 (booted with_poet_off) _ _ eq_refl E1 (eq_sym Hw1) E2 query _ s Hs).
Defined.

Lemma installed_skill_is_served_witness :
  ∃ skill, skill ∈ served_on with_poet ∧ sr_id skill = "poet" ∧ sr_content skill = verse_text ∧ sr_mode skill = SkillAlways.
Proof.
  destruct (install_catalog_skill home SkillProject (verse_entry "Poet") SkillAlways (booted bare_disk)) as [r1 w1] eqn:E1.
  assert (Hr1 : r1 = Ok {| sn_id := "poet"; sn_version := "1" |})
    by (change r1 with (r1, w1).1; rewrite <- E1; vm_compute; reflexivity). subst r1.
  assert (Hw1 : w_db w1 = with_poet) by (unfold with_poet, after; rewrite E1; reflexivity).
  destruct (from_registry home (booted with_poet)) as [r2 w2] eqn:E2.
  assert (Hr2 : r2 = Ok (served_on with_poet)) by (change r2 with (r2, w2).1; rewrite <- E2; vm_compute; reflexivity). subst r2.
  destruct (installed_skill_is_served home home_separate SkillProject (verse_entry "Poet") SkillAlways _ _ _
    (booted with_poet) _ _ ltac:(done) E1 (eq_sym Hw1) E2 ltac:(done))
    as (_ & _ & status & text & Hnet & _ & _ & _ & _ & skill & Hin & Hid & Ht & Hm & _).
  exists skill. split; [exact Hin|]. split; [exact Hid|]. split; [|exact Hm].
  rewrite Ht. vm_compute in Hnet. injection Hnet as _ <-. reflexivity.
Defined.

(** ** Runs that should end otherwise *)

(** Installing a skill whose id is [..] fails, but only after everything next to the directory of
    skills is gone: the other skills and the configuration. *)
Example dots_wipe_the_parent :
  fst <$> with_poet =
    [["/"; "p"; ".xiaomaolv"; "skills.toml"]; ["/"; "p"; ".xiaomaolv"; "skills"; "poet"; "SKILL.md"];
     ["/"; "p"; ".xiaomaolv"; "skills"; "poet"]; ["/"; "p"; ".xiaomaolv"; "skills"]; ["/"; "p"; ".xiaomaolv"];
     ["/"]; ["/"; "u"]; ["/"; "p"]] ∧
  let m := install_catalog_skill home SkillProject (verse_entry "..") SkillAlways in
  (m (booted with_poet)).1 = Err "failed to remove existing skill dir '/p/.xiaomaolv/skills/..'" ∧
  fst <$> after m with_poet = [["/"]; ["/"; "u"]; ["/"; "p"]].
Proof. vm_compute. done. Qed.

(** Without a description of its own, a skill is described by its front matter. *)
Example front_matter_describes :
  sm_description (parse_skill_markdown_metadata
    ("---" +:+ newline +:+ "name: poet" +:+ newline +:+ "---" +:+ newline +:+ "Always answer in verse.") "poet") = "name: poet".
Proof. reflexivity. Qed.

(** A prompt that announces skills and has none: the header alone passes the check for an empty one. *)
Example prompt_without_skills :
  build_system_prompt troupe "answers in verse"
    {| ss_max_selected := 3; ss_max_prompt_chars := 256; ss_match_min_score := f32_lit 45 100 |} = Some skills_header.
Proof. vm_compute. reflexivity. Qed.
