(* ===== verification/EvoStore.v ===== *)
(** * The evolution store

    src/harness/store.rs, [SqliteEvolutionStore]: candidates, evaluation cases,
    evaluations, deployments, evaluation cursors and the audit log, each operation with
    its checks and its transaction. *)

From S2P Require Import Prelude Text External Verifier MemBase Floats TrajStore EvoDomain.
From Stdlib Require Import Ascii.

#[local] Open Scope Z_scope.

(** ** The tables *)

Record candidate_row : Type := {
  ca_id : string;
  ca_parent_candidate_id : option string;
  ca_evidence_fingerprint : option string;
  ca_prompt_patch : string;
  ca_rationale : string;
  ca_source_trajectory_ids : list string;
  ca_status : EvolutionCandidateStatus;
  ca_created_at : Z;
  ca_updated_at : Z
}.

Record evaluation_row : Type := {
  va_id : string;
  va_candidate_id : string;
  va_baseline_candidate_id : option string;
  va_scorecard : EvolutionScorecard;
  va_decision : EvolutionPromotionDecision;
  va_gate_config : EvolutionGateConfig;
  va_created_at : Z
}.

Record deployment_row : Type := {
  de_id : string;
  de_candidate_id : string;
  de_previous_deployment_id : option string;
  de_activated_by : string;
  de_reason : string;
  de_activated_at : Z;
  de_rolled_back_at : option Z;
  de_rolled_back_by : option string;
  de_rollback_reason : option string
}.

Record feedback_row : Type := {
  fb_id : Z;
  fb_trajectory_id : string;
  fb_score : f64;
  fb_tags : list string;
  fb_comment : option string;
  fb_actor : string;
  fb_created_at : Z
}.

(** The literal object of an audit event. *)
Inductive edetail : Type :=
| EStr (s : string)
| EOpt (s : option string)
| EStrs (l : list string)
| EInt (z : Z)
| EBool (b : bool)
| EF64 (f : f64)
| EDecision (d : EvolutionPromotionDecision).

Abbreviation edetails := (list (string * edetail)).

Record audit_row : Type := {
  au_candidate_id : option string;
  au_deployment_id : option string;
  au_event_type : string;
  au_actor : string;
  au_details : edetails;
  au_created_at : Z
}.

(** [evo_active] is the one row of evolution_runtime_state. *)
Record EvoDb : Type := {
  evo_candidates : list candidate_row;
  evo_cases : list EvolutionEvalCase;
  evo_evaluations : list evaluation_row;
  evo_deployments : list deployment_row;
  evo_active : option string;
  evo_feedback : list feedback_row;
  evo_runs : list EvolutionEvalRun;
  evo_audit : list audit_row
}.

Definition empty_evo : EvoDb :=
  {| evo_candidates := []; evo_cases := []; evo_evaluations := []; evo_deployments := [];
     evo_active := None; evo_feedback := []; evo_runs := []; evo_audit := [] |}.

Definition evolution_candidates : table EvoDb candidate_row :=
  Table evo_candidates (λ l s, {| evo_candidates := l; evo_cases := evo_cases s;
    evo_evaluations := evo_evaluations s; evo_deployments := evo_deployments s;
    evo_active := evo_active s; evo_feedback := evo_feedback s; evo_runs := evo_runs s;
    evo_audit := evo_audit s |}).

Definition evolution_eval_cases : table EvoDb EvolutionEvalCase :=
  Table evo_cases (λ l s, {| evo_candidates := evo_candidates s; evo_cases := l;
    evo_evaluations := evo_evaluations s; evo_deployments := evo_deployments s;
    evo_active := evo_active s; evo_feedback := evo_feedback s; evo_runs := evo_runs s;
    evo_audit := evo_audit s |}).

Definition evolution_evaluations : table EvoDb evaluation_row :=
  Table evo_evaluations (λ l s, {| evo_candidates := evo_candidates s; evo_cases := evo_cases s;
    evo_evaluations := l; evo_deployments := evo_deployments s;
    evo_active := evo_active s; evo_feedback := evo_feedback s; evo_runs := evo_runs s;
    evo_audit := evo_audit s |}).

Definition evolution_deployments : table EvoDb deployment_row :=
  Table evo_deployments (λ l s, {| evo_candidates := evo_candidates s; evo_cases := evo_cases s;
    evo_evaluations := evo_evaluations s; evo_deployments := l;
    evo_active := evo_active s; evo_feedback := evo_feedback s; evo_runs := evo_runs s;
    evo_audit := evo_audit s |}).

Definition evolution_feedback : table EvoDb feedback_row :=
  Table evo_feedback (λ l s, {| evo_candidates := evo_candidates s; evo_cases := evo_cases s;
    evo_evaluations := evo_evaluations s; evo_deployments := evo_deployments s;
    evo_active := evo_active s; evo_feedback := l; evo_runs := evo_runs s;
    evo_audit := evo_audit s |}).

Definition evolution_eval_runs : table EvoDb EvolutionEvalRun :=
  Table evo_runs (λ l s, {| evo_candidates := evo_candidates s; evo_cases := evo_cases s;
    evo_evaluations := evo_evaluations s; evo_deployments := evo_deployments s;
    evo_active := evo_active s; evo_feedback := evo_feedback s; evo_runs := l;
    evo_audit := evo_audit s |}).

Definition evolution_audit_events : table EvoDb audit_row :=
  Table evo_audit (λ l s, {| evo_candidates := evo_candidates s; evo_cases := evo_cases s;
    evo_evaluations := evo_evaluations s; evo_deployments := evo_deployments s;
    evo_active := evo_active s; evo_feedback := evo_feedback s; evo_runs := evo_runs s;
    evo_audit := l |}).

Definition with_active (a : option string) (s : EvoDb) : EvoDb :=
  {| evo_candidates := evo_candidates s; evo_cases := evo_cases s;
     evo_evaluations := evo_evaluations s; evo_deployments := evo_deployments s;
     evo_active := a; evo_feedback := evo_feedback s; evo_runs := evo_runs s;
     evo_audit := evo_audit s |}.

Section evolution.
  Context `{CLK : Clock} `{DT : DateTimes} `{SER : Serialize edetails}.

Abbreviation DB := (M EvoDb).

Definition evolution_timestamp (value : Z) : Z := default 0 (from_timestamp value).

(** The counter [EVOLUTION_ID_COUNTER] is [draw_id] here. *)
Definition new_evolution_id {S} (prefix : string) : M S string :=
  now ← now_nanos;
  sequence ← draw_id;
  mret (prefix +:+ "-" +:+ hex (Z.to_N now) +:+ "-" +:+ hex sequence).

(** ** The audit log *)

Definition is_candidate (id : string) (r : candidate_row) : bool := String.eqb (ca_id r) id.

Definition is_deployment (id : string) (r : deployment_row) : bool := String.eqb (de_id r) id.

(** [REFERENCES]: NULL, or the key of a row. *)
Definition refers {Row} (o : option string) (key : string → Row → bool) (l : list Row) : bool :=
  match o with None => true | Some id => existsb (key id) l end.

Definition insert_audit_event (candidate_id deployment_id : option string) (event_type actor : string)
    (details : edetails) : DB unit :=
  lift_res (validate_audit_fields event_type actor) ;;
  details_json ← lift_res (to_vec details);
  ensure (N.of_nat (length details_json) <=? 65536)%N "evolution audit details cannot exceed 65536 bytes" ;;
  s ← get_db;
  ensure (refers candidate_id is_candidate (evo_candidates s) &&
          refers deployment_id is_deployment (evo_deployments s)) "FOREIGN KEY constraint failed" ;;
  now ← unix_now;
  sql_insert evolution_audit_events (λ _, false)
    {| au_candidate_id := candidate_id; au_deployment_id := deployment_id;
       au_event_type := event_type; au_actor := actor; au_details := details; au_created_at := now |}.

Definition record_audit_event (candidate_id deployment_id : option string) (event_type actor : string)
    (details : edetails) : DB unit :=
  lift_res (validate_audit_fields event_type actor) ;;
  transaction (insert_audit_event candidate_id deployment_id event_type actor details).

(** [ORDER BY created_at DESC, id DESC LIMIT ?1]. *)
Definition newest_audit_first (a b : audit_row) : bool := au_created_at b <=? au_created_at a.

Definition list_audit_events (limit : nat) : DB (list audit_row) :=
  rows ← sql_select evolution_audit_events (λ _, true);
  mret (take (clamp_evolution_limit limit) (order_by newest_audit_first (rev rows))).

(** ** Candidates *)

Record EvolutionCandidateRecord : Type := {
  cn_id : string;
  cn_parent_candidate_id : option string;
  cn_evidence_fingerprint : option string;
  cn_prompt_patch : PromptPatch;
  cn_rationale : string;
  cn_source_trajectory_ids : list string;
  cn_status : EvolutionCandidateStatus;
  cn_created_at : Z;
  cn_updated_at : Z
}.

Definition candidate_from_row (r : candidate_row) : res EvolutionCandidateRecord :=
  patch ← new_prompt_patch (ca_prompt_patch r) ABSOLUTE_MAX_PROMPT_PATCH_CHARS;
  Ok {| cn_id := ca_id r; cn_parent_candidate_id := ca_parent_candidate_id r;
        cn_evidence_fingerprint := ca_evidence_fingerprint r; cn_prompt_patch := patch;
        cn_rationale := ca_rationale r; cn_source_trajectory_ids := ca_source_trajectory_ids r;
        cn_status := ca_status r; cn_created_at := evolution_timestamp (ca_created_at r);
        cn_updated_at := evolution_timestamp (ca_updated_at r) |}.

(** [row.map(candidate_from_row).transpose()]. *)
Definition optional {A B} (f : A → res B) (o : option A) : res (option B) :=
  match o with None => Ok None | Some a => b ← f a; Ok (Some b) end.

Fixpoint map_res {A B} (f : A → res B) (l : list A) : res (list B) :=
  match l with
  | [] => Ok []
  | a :: l' => b ← f a; bs ← map_res f l'; Ok (b :: bs)
  end.

Definition get_candidate (candidate_id : string) : DB (option EvolutionCandidateRecord) :=
  row ← sql_first evolution_candidates (is_candidate candidate_id);
  lift_res (optional candidate_from_row row).

Definition newest_candidate_first (a b : candidate_row) : bool := ca_created_at b <=? ca_created_at a.

Definition list_candidates (limit : nat) : DB (list EvolutionCandidateRecord) :=
  rows ← sql_select evolution_candidates (λ _, true);
  lift_res (map_res candidate_from_row
    (take (clamp_evolution_limit limit) (order_by newest_candidate_first (rev rows)))).

Definition has_fingerprint (fingerprint : string) (r : candidate_row) : bool :=
  bool_decide (ca_evidence_fingerprint r = Some fingerprint).

Definition find_candidate_by_evidence (fingerprint : string) : DB (option EvolutionCandidateRecord) :=
  row ← sql_first evolution_candidates (has_fingerprint fingerprint);
  lift_res (optional candidate_from_row row).

(** The primary key, and the unique index on the fingerprints that are not NULL. *)
Definition candidate_clash (r x : candidate_row) : bool :=
  String.eqb (ca_id x) (ca_id r) ||
  match ca_evidence_fingerprint r with Some f => has_fingerprint f x | None => false end.

Definition create_candidate (draft : EvolutionCandidateDraft) (actor : string)
    : DB EvolutionCandidateRecord :=
  lift_res (validate_draft draft) ;;
  lift_res (validate_actor actor) ;;
  ensure (negb (bool_decide (cd_parent_candidate_id draft = Some (cd_id draft))))
    "candidate cannot be its own parent" ;;
  transaction (
    match cd_parent_candidate_id draft with
    | Some parent_id =>
        n ← sql_count evolution_candidates (is_candidate parent_id);
        ensure (negb (n =? 0)) ("parent evolution candidate '" +:+ parent_id +:+ "' does not exist")
    | None => mret tt
    end ;;
    now ← unix_now;
    let row := {| ca_id := cd_id draft; ca_parent_candidate_id := cd_parent_candidate_id draft;
                  ca_evidence_fingerprint := cd_evidence_fingerprint draft;
                  ca_prompt_patch := pp_text (cd_prompt_patch draft);
                  ca_rationale := trim (cd_rationale draft);
                  ca_source_trajectory_ids := cd_source_trajectory_ids draft;
                  ca_status := CandDraft; ca_created_at := now; ca_updated_at := now |} in
    sql_insert evolution_candidates (candidate_clash row) row ;;
    insert_audit_event (Some (cd_id draft)) None "candidate_created" actor
      [("parent_candidate_id", EOpt (cd_parent_candidate_id draft));
       ("evidence_fingerprint", EOpt (cd_evidence_fingerprint draft));
       ("source_trajectory_ids", EStrs (cd_source_trajectory_ids draft))]) ;;
  created ← get_candidate (cd_id draft);
  context "created evolution candidate is missing" created.

Definition set_candidate_status (next : EvolutionCandidateStatus) (now : Z) (r : candidate_row)
    : candidate_row :=
  {| ca_id := ca_id r; ca_parent_candidate_id := ca_parent_candidate_id r;
     ca_evidence_fingerprint := ca_evidence_fingerprint r; ca_prompt_patch := ca_prompt_patch r;
     ca_rationale := ca_rationale r; ca_source_trajectory_ids := ca_source_trajectory_ids r;
     ca_status := next; ca_created_at := ca_created_at r; ca_updated_at := now |}.

Definition transition_candidate (candidate_id : string) (expected next : EvolutionCandidateStatus)
    (actor : string) (details : edetails) : DB EvolutionCandidateRecord :=
  lift_res (validate_actor actor) ;;
  ensure (can_transition_to expected next)
    ("invalid evolution candidate transition '" +:+ candidate_status_as_str expected +:+ " -> " +:+
     candidate_status_as_str next +:+ "'") ;;
  transaction (
    now ← unix_now;
    updated ← sql_update evolution_candidates
      (λ r, is_candidate candidate_id r && bool_decide (ca_status r = expected))
      (set_candidate_status next now);
    (if negb (updated =? 1) then
       actual ← sql_first evolution_candidates (is_candidate candidate_id);
       match actual with
       | Some r => throw ("candidate '" +:+ candidate_id +:+ "' expected status '" +:+
                     candidate_status_as_str expected +:+ "' but is '" +:+
                     candidate_status_as_str (ca_status r) +:+ "'")
       | None => throw ("evolution candidate '" +:+ candidate_id +:+ "' does not exist")
       end
     else mret tt) ;;
    insert_audit_event (Some candidate_id) None (transition_event_type next) actor details) ;;
  record ← get_candidate candidate_id;
  context "transitioned evolution candidate is missing" record.

(** ** Evaluation cases *)

Definition is_case (id : string) (c : EvolutionEvalCase) : bool := String.eqb (ec_id c) id.

Definition upsert_eval_case (eval_case : EvolutionEvalCase) (actor : string) : DB unit :=
  lift_res (validate_case eval_case) ;;
  lift_res (validate_actor actor) ;;
  transaction (
    (if ec_enabled eval_case then
       n ← sql_count evolution_eval_cases (λ c, ec_enabled c && negb (is_case (ec_id eval_case) c));
       ensure (negb (Z.of_nat MAX_ENABLED_EVOLUTION_EVAL_CASES <=? n))
         "enabled eval cases cannot exceed 50"
     else mret tt) ;;
    sql_upsert evolution_eval_cases (is_case (ec_id eval_case)) (λ _, false) eval_case (λ _, eval_case) ;;
    insert_audit_event None None "eval_case_upserted" actor [("eval_case_id", EStr (ec_id eval_case))]).

Definition case_order (a b : EvolutionEvalCase) : bool := String.leb (ec_id a) (ec_id b).

Definition list_eval_cases (enabled_only : bool) : DB (list EvolutionEvalCase) :=
  rows ← sql_select evolution_eval_cases (λ c, if enabled_only then ec_enabled c else true);
  mret (order_by case_order rows).
End evolution.

(** * Evaluations and deployments of the evolution store

    The rest of [SqliteEvolutionStore]: recorded evaluations, the durable cursor of a
    shadow evaluation, the activation of an approved candidate and the rollback of the
    active deployment. *)

#[local] Open Scope Z_scope.

Section evolution.
  Context `{CLK : Clock} `{DT : DateTimes} `{SER : Serialize edetails}.

Abbreviation DB := (M EvoDb).

(** ** Evaluations *)

Definition is_evaluation (id : string) (r : evaluation_row) : bool := String.eqb (va_id r) id.

Definition evaluation_from_row (r : evaluation_row) : evaluation_row :=
  {| va_id := va_id r; va_candidate_id := va_candidate_id r;
     va_baseline_candidate_id := va_baseline_candidate_id r; va_scorecard := va_scorecard r;
     va_decision := va_decision r; va_gate_config := va_gate_config r;
     va_created_at := evolution_timestamp (va_created_at r) |}.

(** [SqliteEvolutionStore::get_evaluation]. *)
Definition get_evaluation (evaluation_id : string) : DB (option evaluation_row) :=
  row ← sql_first evolution_evaluations (is_evaluation evaluation_id);
  mret (evaluation_from_row <$> row).

Definition record_evaluation (draft : EvolutionEvaluationDraft) : DB evaluation_row :=
  ensure (negb (is_blank (vd_id draft) || is_blank (vd_candidate_id draft)))
    "evaluation id and candidate id cannot be empty" ;;
  lift_res (validate_gate (vd_gate_config draft)) ;;
  transaction (
    n ← sql_count evolution_candidates (is_candidate (vd_candidate_id draft));
    ensure (negb (n =? 0)) ("evolution candidate '" +:+ vd_candidate_id draft +:+ "' does not exist") ;;
    s ← get_db;
    ensure (refers (vd_baseline_candidate_id draft) is_candidate (evo_candidates s))
      "FOREIGN KEY constraint failed" ;;
    now ← unix_now;
    sql_insert evolution_evaluations (is_evaluation (vd_id draft))
      {| va_id := vd_id draft; va_candidate_id := vd_candidate_id draft;
         va_baseline_candidate_id := vd_baseline_candidate_id draft;
         va_scorecard := vd_scorecard draft; va_decision := vd_decision draft;
         va_gate_config := vd_gate_config draft; va_created_at := now |} ;;
    insert_audit_event (Some (vd_candidate_id draft)) None "evaluation_recorded"
      "system:evolution-engine"
      [("evaluation_id", EStr (vd_id draft)); ("decision", EDecision (vd_decision draft))]) ;;
  recorded ← get_evaluation (vd_id draft);
  context "recorded evolution evaluation is missing" recorded.

Definition newest_evaluation_first (a b : evaluation_row) : bool := va_created_at b <=? va_created_at a.

(** [ORDER BY created_at DESC, rowid DESC LIMIT 1]. *)
Definition newest_evaluation (candidate_id : string) (l : list evaluation_row) : option evaluation_row :=
  head (order_by newest_evaluation_first
          (rev (List.filter (λ v, String.eqb (va_candidate_id v) candidate_id) l))).

Definition latest_evaluation (candidate_id : string) : DB (option evaluation_row) :=
  s ← get_db;
  mret (evaluation_from_row <$> newest_evaluation candidate_id (evo_evaluations s)).

(** ** The cursor of a shadow evaluation *)

Definition run_of (candidate_id : string) (r : EvolutionEvalRun) : bool :=
  String.eqb (ev_candidate_id r) candidate_id.

Definition upsert_eval_run (run : EvolutionEvalRun) : DB unit :=
  sql_upsert evolution_eval_runs (run_of (ev_candidate_id run))
    (λ r, String.eqb (ev_id r) (ev_id run)) run (λ _, run).

Definition get_eval_run (candidate_id : string) : DB (option EvolutionEvalRun) :=
  sql_first evolution_eval_runs (run_of candidate_id).

Definition clear_eval_run (candidate_id : string) : DB unit :=
  sql_delete evolution_eval_runs (run_of candidate_id).

(** ** Deployments *)

Definition deployment_from_row (r : deployment_row) : deployment_row :=
  {| de_id := de_id r; de_candidate_id := de_candidate_id r;
     de_previous_deployment_id := de_previous_deployment_id r; de_activated_by := de_activated_by r;
     de_reason := de_reason r; de_activated_at := evolution_timestamp (de_activated_at r);
     de_rolled_back_at := evolution_timestamp <$> de_rolled_back_at r;
     de_rolled_back_by := de_rolled_back_by r; de_rollback_reason := de_rollback_reason r |}.

(** [UPDATE evolution_runtime_state SET active_deployment_id = ?1]. *)
Definition set_active (id : option string) : DB unit :=
  s ← get_db;
  ensure (refers id is_deployment (evo_deployments s)) "FOREIGN KEY constraint failed" ;;
  put_db (with_active id s).

(** The deployment the runtime state points at. *)
Definition active_row (s : EvoDb) : option deployment_row :=
  id ← evo_active s; List.find (is_deployment id) (evo_deployments s).

Definition not_rolled_back (d : deployment_row) : bool :=
  match de_rolled_back_at d with None => true | Some _ => false end.

Definition activate_candidate (candidate_id actor reason : string) : DB deployment_row :=
  lift_res (validate_actor actor) ;;
  lift_res (validate_reason reason) ;;
  deployment_id ← new_evolution_id "deployment";
  transaction (
    candidate ← sql_first evolution_candidates (is_candidate candidate_id);
    match candidate with
    | None => throw ("evolution candidate '" +:+ candidate_id +:+ "' does not exist")
    | Some r => ensure (bool_decide (ca_status r = CandApproved))
        ("candidate '" +:+ candidate_id +:+ "' must be approved before activation; current status is '" +:+
         candidate_status_as_str (ca_status r) +:+ "'")
    end ;;
    s ← get_db;
    let current_active_candidate_id := de_candidate_id <$> active_row s in
    evaluation ← context "approved candidate has no evaluation"
      (newest_evaluation candidate_id (evo_evaluations s));
    ensure (decision_ready (va_decision evaluation)) "approved candidate latest evaluation is not ready" ;;
    ensure (bool_decide (va_baseline_candidate_id evaluation = current_active_candidate_id))
      ("candidate '" +:+ candidate_id +:+
       "' was evaluated against a stale baseline and must be re-evaluated and re-approved") ;;
    let previous_deployment_id := evo_active s in
    ensure (refers previous_deployment_id is_deployment (evo_deployments s)) "FOREIGN KEY constraint failed" ;;
    now ← unix_now;
    sql_insert evolution_deployments (is_deployment deployment_id)
      {| de_id := deployment_id; de_candidate_id := candidate_id;
         de_previous_deployment_id := previous_deployment_id; de_activated_by := actor;
         de_reason := trim reason; de_activated_at := now; de_rolled_back_at := None;
         de_rolled_back_by := None; de_rollback_reason := None |} ;;
    set_active (Some deployment_id) ;;
    row ← sql_first evolution_deployments (is_deployment deployment_id);
    row ← context "created evolution deployment is missing" row;
    insert_audit_event (Some candidate_id) (Some deployment_id) "candidate_activated" actor
      [("reason", EStr (trim reason)); ("previous_deployment_id", EOpt previous_deployment_id)] ;;
    mret (deployment_from_row row)).

Definition policy_of (d : deployment_row) (c : candidate_row) : res ActiveEvolutionPolicy :=
  patch ← new_prompt_patch (ca_prompt_patch c) ABSOLUTE_MAX_PROMPT_PATCH_CHARS;
  Ok {| ap_deployment_id := de_id d; ap_candidate_id := de_candidate_id d; ap_prompt_patch := patch |}.

(** The deployment with its candidate: the [JOIN]s of the policy queries. *)
Definition live_pair (id : string) (s : EvoDb) : option (deployment_row * candidate_row) :=
  d ← List.find (λ d, is_deployment id d && not_rolled_back d) (evo_deployments s);
  c ← List.find (is_candidate (de_candidate_id d)) (evo_candidates s);
  Some (d, c).

Definition active_policy : DB (option ActiveEvolutionPolicy) :=
  s ← get_db;
  lift_res (optional (λ p, policy_of p.1 p.2) (evo_active s ≫= λ id, live_pair id s)).

Definition active_deployment : DB (option deployment_row) :=
  s ← get_db;
  mret (deployment_from_row <$>
    (id ← evo_active s; List.find (λ d, is_deployment id d && not_rolled_back d) (evo_deployments s))).

(** [ORDER BY rolled_back_at DESC, id DESC]. *)
Definition newest_rollback_first (a b : deployment_row) : bool :=
  let at_ d := default 0 (de_rolled_back_at d) in
  if at_ a =? at_ b then String.leb (de_id b) (de_id a) else at_ b <=? at_ a.

Definition list_recent_rollbacks (limit : nat) : DB (list deployment_row) :=
  rows ← sql_select evolution_deployments (λ d, negb (not_rolled_back d));
  mret (deployment_from_row <$> take (Nat.min limit 100) (order_by newest_rollback_first rows)).

Definition mark_rolled_back (now : Z) (actor reason : string) (d : deployment_row) : deployment_row :=
  {| de_id := de_id d; de_candidate_id := de_candidate_id d;
     de_previous_deployment_id := de_previous_deployment_id d; de_activated_by := de_activated_by d;
     de_reason := de_reason d; de_activated_at := de_activated_at d; de_rolled_back_at := Some now;
     de_rolled_back_by := Some actor; de_rollback_reason := Some reason |}.

Definition rollback_active (actor reason : string) : DB EvolutionRollbackResult :=
  lift_res (validate_actor actor) ;;
  lift_res (validate_reason reason) ;;
  transaction (
    s ← get_db;
    active ← context "there is no active evolution deployment to roll back" (active_row s);
    ensure (not_rolled_back active)
      ("active evolution deployment '" +:+ de_id active +:+ "' is already rolled back") ;;
    restored ← match de_previous_deployment_id active with
      | Some previous_id =>
          p ← context "previous evolution deployment is unavailable for rollback" (live_pair previous_id s);
          policy ← lift_res (policy_of p.1 p.2);
          mret (Some policy)
      | None => mret None
      end;
    now ← unix_now;
    sql_update evolution_deployments (λ d, is_deployment (de_id active) d && not_rolled_back d)
      (mark_rolled_back now actor (trim reason)) ;;
    set_active (de_previous_deployment_id active) ;;
    insert_audit_event (Some (de_candidate_id active)) (Some (de_id active)) "deployment_rolled_back" actor
      [("reason", EStr (trim reason)); ("restored_deployment_id", EOpt (de_previous_deployment_id active))] ;;
    mret {| rb_deployment_id := de_id active; rb_candidate_id := de_candidate_id active;
            rb_restored_policy := restored |}).
End evolution.
