(* ===== verification/EvoFacts.v ===== *)
(** * Facts about the evolution store

    The tables agree; a deployment is pushed on a stack of live deployments, only after a
    ready evaluation against the policy it replaces, and a rollback pops it; candidates
    keep what was evaluated and move along the edges of their life cycle. *)

From S2P Require Import Prelude Text External Verifier MemBase Floats TrajStore EvoDomain EvoStore.
#[local] Open Scope Z_scope.

Section facts.
  Context `{CLK : Clock} `{DT : DateTimes} `{SER : Serialize edetails}.

(** ** The store as a transition system *)

Inductive evo_op : Type :=
| ECreate (id : string) (parent fingerprint : option string) (patch : string) (max_chars : nat)
    (rationale : string) (sources : list string) (actor : string)
| ETransition (candidate_id : string) (expected next : EvolutionCandidateStatus) (actor : string)
    (details : edetails)
| ECase (eval_case : EvolutionEvalCase) (actor : string)
| EEvaluation (draft : EvolutionEvaluationDraft)
| ERun (run : EvolutionEvalRun)
| EClear (candidate_id : string)
| EActivate (candidate_id actor reason : string)
| ERollback (actor reason : string)
| EAudit (candidate_id deployment_id : option string) (event_type actor : string) (details : edetails)
| EFeedback (row : feedback_row).

(** A patch is only made by [PromptPatch::new]; the row of a feedback is written by
    [record_feedback] of Harness.v, with its audit event. *)
Definition evo_exec (op : evo_op) : M EvoDb unit :=
  match op with
  | ECreate id parent fingerprint patch max_chars rationale sources actor =>
      prompt_patch ← lift_res (new_prompt_patch patch max_chars);
      unit_of (create_candidate
        {| cd_id := id; cd_parent_candidate_id := parent; cd_evidence_fingerprint := fingerprint;
           cd_prompt_patch := prompt_patch; cd_rationale := rationale;
           cd_source_trajectory_ids := sources |} actor)
  | ETransition candidate_id expected next actor details =>
      unit_of (transition_candidate candidate_id expected next actor details)
  | ECase eval_case actor => upsert_eval_case eval_case actor
  | EEvaluation draft => unit_of (record_evaluation draft)
  | ERun run => upsert_eval_run run
  | EClear candidate_id => clear_eval_run candidate_id
  | EActivate candidate_id actor reason => unit_of (activate_candidate candidate_id actor reason)
  | ERollback actor reason => unit_of (rollback_active actor reason)
  | EAudit candidate_id deployment_id event_type actor details =>
      record_audit_event candidate_id deployment_id event_type actor details
  | EFeedback row => sql_insert evolution_feedback (λ x, fb_id x =? fb_id row) row
  end.

Definition evo_reachable : EvoDb → Prop := op_reachable evo_exec empty_evo.

(** ** The invariant *)

(** The live deployments, newest first. *)
Definition live_deployments (s : EvoDb) : list deployment_row :=
  rev (List.filter not_rolled_back (evo_deployments s)).

(** [active] is the first of [ds], and each one replaced the next. *)
Fixpoint linked (active : option string) (ds : list deployment_row) : Prop :=
  match ds with
  | [] => active = None
  | d :: ds' => active = Some (de_id d) ∧ linked (de_previous_deployment_id d) ds'
  end.

(** The candidate deployed under an id. *)
Definition candidate_of (id : option string) (l : list deployment_row) : option string :=
  i ← id; d ← List.find (is_deployment i) l; Some (de_candidate_id d).

(** A ready evaluation of the candidate, against the candidate it replaced. *)
Definition evaluated_ready (s : EvoDb) (d : deployment_row) : Prop :=
  ∃ v, v ∈ evo_evaluations s ∧ va_candidate_id v = de_candidate_id d ∧
       decision_ready (va_decision v) = true ∧
       va_baseline_candidate_id v = candidate_of (de_previous_deployment_id d) (evo_deployments s).

Definition known_candidate (s : EvoDb) (id : string) : Prop := id ∈ ca_id <$> evo_candidates s.

(** The patch of a candidate is one that [PromptPatch::new] made. *)
Definition patch_made (c : candidate_row) : Prop :=
  ∃ value max_chars p, new_prompt_patch value max_chars = Ok p ∧ ca_prompt_patch c = pp_text p.

Definition enabled_cases (s : EvoDb) : Z := count_where ec_enabled (evo_cases s).

Record evo_inv (s : EvoDb) : Prop := {
  ei_candidates : NoDup (ca_id <$> evo_candidates s);
  ei_patches : Forall patch_made (evo_candidates s);
  ei_deployments : NoDup (de_id <$> evo_deployments s);
  ei_deployed : Forall (λ d, known_candidate s (de_candidate_id d)) (evo_deployments s);
  ei_stack : linked (evo_active s) (live_deployments s);
  ei_ready : Forall (evaluated_ready s) (evo_deployments s);
  ei_previous : Forall (λ d, refers (de_previous_deployment_id d) is_deployment (evo_deployments s) = true)
                  (evo_deployments s);
  ei_cases : NoDup (ec_id <$> evo_cases s);
  ei_enabled : enabled_cases s ≤ Z.of_nat MAX_ENABLED_EVOLUTION_EVAL_CASES;
  ei_runs : NoDup (ev_candidate_id <$> evo_runs s)
}.

Lemma evo_inv_frame s s' :
  evo_candidates s' = evo_candidates s → evo_cases s' = evo_cases s →
  evo_evaluations s' = evo_evaluations s → evo_deployments s' = evo_deployments s →
  evo_active s' = evo_active s → evo_runs s' = evo_runs s → evo_inv s → evo_inv s'.
Proof.
  intros E1 E2 E3 E4 E5 E6 [K1 K2 K3 K4 K5 K6 K7 K8 K9 K10].
  split; unfold live_deployments, enabled_cases in *; rewrite ?E1, ?E2, ?E4, ?E5, ?E6; try done.
  - eapply Forall_impl; [exact K4|]. intros d. unfold known_candidate. by rewrite E1.
  - eapply Forall_impl; [exact K6|]. intros d. unfold evaluated_ready. by rewrite E3, E4.
Qed.

Lemma audit_inv c d e a j : stable (keeps evo_inv) (insert_audit_event c d e a j).
Proof.
  unfold insert_audit_event. stable_go. apply stable_sql_insert; [apply _|].
  intros s _ Hi. by eapply evo_inv_frame; [..|exact Hi].
Qed.

#[local] Hint Resolve audit_inv : stab.

(** Changes of the candidates that keep their ids and patches. *)
Lemma evo_inv_candidates s l :
  evo_inv s → NoDup (ca_id <$> l) → Forall patch_made l →
  (∀ id, id ∈ ca_id <$> evo_candidates s → id ∈ ca_id <$> l) →
  evo_inv (tset evolution_candidates l s).
Proof.
  intros [K1 K2 K3 K4 K5 K6 K7 K8 K9 K10] Hn Hp Hsub. split; try done.
  eapply Forall_impl; [exact K4|]. intros d Hd. by apply Hsub.
Qed.

Lemma candidate_inserted s r :
  evo_inv s → patch_made r → existsb (candidate_clash r) (evo_candidates s) = false →
  evo_inv (tset evolution_candidates (evo_candidates s ++ [r]) s).
Proof.
  intros Hi Hr E. apply evo_inv_candidates; [done|..].
  - apply nodup_key_snoc; [by destruct Hi|]. intros (x & Hx & Hin)%list_elem_of_fmap.
    apply (existsb_false _ _ E) in Hin. unfold candidate_clash in Hin.
    by rewrite <- Hx, String.eqb_refl in Hin.
  - apply Forall_app. split; [by destruct Hi|by repeat constructor].
  - intros id Hid. rewrite fmap_app. apply elem_of_app. by left.
Qed.

Lemma create_inv draft actor :
  (∃ value max_chars, new_prompt_patch value max_chars = Ok (cd_prompt_patch draft)) →
  stable (keeps evo_inv) (create_candidate draft actor).
Proof.
  intros (value & max_chars & Hp). unfold create_candidate, get_candidate. cbv zeta. stable_go.
  apply stable_sql_insert; [apply _|]. intros s E Hi. apply candidate_inserted; [done| |done].
  by exists value, max_chars, (cd_prompt_patch draft).
Qed.

Lemma status_update_inv p next now :
  stable (keeps evo_inv) (sql_update evolution_candidates p (set_candidate_status next now)).
Proof.
  apply stable_sql_update. intros s Hi. apply evo_inv_candidates; [done|..]; cbn [tget evolution_candidates].
  - apply nodup_update_where; [done|by destruct Hi].
  - apply Forall_forall. intros r (x & Hx & ->)%elem_update_where. destruct Hi as [_ H _ _ _ _ _ _ _ _].
    rewrite Forall_forall in H. specialize (H x Hx). by destruct (p x).
  - intros id. by rewrite fmap_update_where.
Qed.

#[local] Hint Resolve status_update_inv : stab.

Lemma transition_inv c e n a d : stable (keeps evo_inv) (transition_candidate c e n a d).
Proof. unfold transition_candidate, get_candidate. stable_go. Qed.

(** ** Cases, evaluations, cursors *)

Lemma count_where_cons {Row} (q : Row → bool) r l :
  count_where q (r :: l) = (if q r then 1 else 0) + count_where q l.
Proof. unfold count_where. cbn. destruct (q r); cbn; lia. Qed.

(** An upsert of a row counts it once, and no other row more than before. *)
Lemma count_upsert_le (q : EvolutionEvalCase → bool) c l :
  NoDup (ec_id <$> l) →
  count_where q (if existsb (is_case (ec_id c)) l then update_where (is_case (ec_id c)) (λ _, c) l else l ++ [c]) ≤
  count_where (λ r, q r && negb (is_case (ec_id c) r)) l + (if q c then 1 else 0).
Proof.
  intros Hn.
  assert (Hout : ∀ k, (∀ r, r ∈ k → is_case (ec_id c) r = false) →
    count_where q k = count_where (λ r, q r && negb (is_case (ec_id c) r)) k).
  { intros k Hk. induction k as [|r k IH]; [done|]. rewrite !count_where_cons, (Hk r) by left.
    rewrite andb_true_r, IH; [done|]. intros x Hx. apply Hk. by right. }
  destruct (existsb (is_case (ec_id c)) l) eqn:E.
  - clear E. induction l as [|r l IH]; [unfold count_where; cbn; destruct (q c); lia|].
    apply NoDup_cons in Hn as [Hr Hn]. specialize (IH Hn). cbn [update_where map].
    rewrite !count_where_cons. destruct (is_case (ec_id c) r) eqn:Er; cbn [negb andb].
    + assert (Hl : ∀ x, x ∈ l → is_case (ec_id c) x = false).
      { intros x Hx. apply not_true_iff_false. intros Ex%String.eqb_eq. apply String.eqb_eq in Er.
        apply Hr. cbn. rewrite Er, <- Ex. by apply list_elem_of_fmap_2. }
      fold (update_where (is_case (ec_id c)) (λ _, c) l). rewrite update_where_none by done.
      rewrite (Hout l Hl), andb_false_r. lia.
    + rewrite andb_true_r. fold (update_where (is_case (ec_id c)) (λ _, c) l). lia.
  - rewrite count_where_app, (Hout l), count_where_cons; [change (count_where q []) with 0; lia|]. by apply existsb_false.
Qed.

Lemma count_and_le {Row} (q p : Row → bool) l : count_where (λ r, q r && p r) l ≤ count_where q l.
Proof.
  induction l as [|r l IH]; [done|]. rewrite !count_where_cons. destruct (q r), (p r); cbn; lia.
Qed.

Lemma nodup_upsert {Row} (key : Row → string) (x : Row) l :
  NoDup (key <$> l) →
  NoDup (key <$> if existsb (λ r, String.eqb (key r) (key x)) l
                 then update_where (λ r, String.eqb (key r) (key x)) (λ _, x) l else l ++ [x]).
Proof.
  intros Hn. destruct (existsb _ l) eqn:E.
  - rewrite fmap_update_where_on; [done|]. by intros r Hr%String.eqb_eq.
  - apply nodup_key_snoc; [done|]. intros (r & Hr & Hin)%list_elem_of_fmap.
    apply (existsb_false _ _ E) in Hin. by rewrite Hr, String.eqb_refl in Hin.
Qed.

Lemma evo_inv_cases s l :
  evo_inv s → NoDup (ec_id <$> l) → count_where ec_enabled l ≤ Z.of_nat MAX_ENABLED_EVOLUTION_EVAL_CASES →
  evo_inv (tset evolution_eval_cases l s).
Proof. intros []. by split. Qed.

Lemma case_inv c actor : stable (keeps evo_inv) (upsert_eval_case c actor).
Proof.
  unfold upsert_eval_case. apply stable_bind; [apply _|stable_go|intros _].
  apply stable_bind; [apply _|stable_go|intros _]. apply stable_transaction; [apply _|].
  assert (Hafter : ∀ s, (ec_enabled c = true →
      count_where (λ r, ec_enabled r && negb (is_case (ec_id c) r)) (evo_cases s) <
        Z.of_nat MAX_ENABLED_EVOLUTION_EVAL_CASES) →
    wp (sql_upsert evolution_eval_cases (is_case (ec_id c)) (λ _, false) c (λ _, c) ;;
        insert_audit_event None None "eval_case_upserted" actor [("eval_case_id", EStr (ec_id c))])
      (λ _ s', keeps evo_inv s s') s).
  { intros s Hs. apply wp_bind, wp_sql_upsert; intros _; [by intros|]. cbv beta iota.
    eapply wp_mono; [apply wp_of_stable, audit_inv|]. cbv beta. intros _ s' H Hi. apply H.
    apply evo_inv_cases; [done|apply (nodup_upsert ec_id); by destruct Hi|].
    cbn [tget evolution_eval_cases]. etrans; [apply count_upsert_le; by destruct Hi|].
    pose proof (count_and_le ec_enabled (λ r, negb (is_case (ec_id c) r)) (evo_cases s)) as Hle.
    destruct Hi as [_ _ _ _ _ _ _ _ Hen _]. unfold enabled_cases in Hen.
    destruct (ec_enabled c); [specialize (Hs eq_refl)|]; cbv beta iota in *; lia. }
  apply stable_of_wp. intros s. apply wp_bind. destruct (ec_enabled c) eqn:E.
  - wp_step. wp_step. wp_step; [|by intros]. apply Hafter. intros _.
    match goal with H : _ = true |- _ => cbn [tget evolution_eval_cases] in H; lia end.
  - wp_step. by apply Hafter.
Qed.

Lemma evo_inv_evaluations s l :
  evo_inv s → (∀ v, v ∈ evo_evaluations s → v ∈ l) → evo_inv (tset evolution_evaluations l s).
Proof.
  intros [K1 K2 K3 K4 K5 K6 K7 K8 K9 K10] Hsub. split; try done.
  eapply Forall_impl; [exact K6|]. intros d (v & Hv & H). exists v. split; [by apply Hsub|done].
Qed.

Lemma evaluation_inv draft : stable (keeps evo_inv) (record_evaluation draft).
Proof.
  unfold record_evaluation, get_evaluation. stable_go. apply stable_sql_insert; [apply _|].
  intros s _ Hi. apply evo_inv_evaluations; [done|]. intros v Hv. apply elem_of_app. by left.
Qed.

Lemma evo_inv_runs s l : evo_inv s → NoDup (ev_candidate_id <$> l) → evo_inv (tset evolution_eval_runs l s).
Proof. intros []. by split. Qed.

Lemma run_inv run : stable (keeps evo_inv) (upsert_eval_run run).
Proof.
  apply stable_sql_upsert; [apply _|]. intros s _ Hi. apply evo_inv_runs; [done|].
  apply (nodup_upsert ev_candidate_id). by destruct Hi.
Qed.

Lemma clear_inv c : stable (keeps evo_inv) (clear_eval_run c).
Proof.
  apply stable_sql_delete. intros s Hi. apply evo_inv_runs; [done|].
  apply nodup_key_filter. by destruct Hi.
Qed.

(** ** Activation and rollback *)

(** The event that [insert_audit_event] accepts. *)
Definition audit_fits (event_type actor : string) (details : edetails) : bool :=
  is_ok (validate_audit_fields event_type actor) &&
  match to_vec details with Ok l => (N.of_nat (length l) <=? 65536)%N | Err _ => false end.

Definition add_audit (r : audit_row) (s : EvoDb) : EvoDb :=
  tset evolution_audit_events (evo_audit s ++ [r]) s.

Lemma wp_audit c d e a j s :
  refers c is_candidate (evo_candidates s) = true → refers d is_deployment (evo_deployments s) = true →
  wp (insert_audit_event c d e a j)
     (λ r s', match r with
              | Ok _ => audit_fits e a j = true ∧ ∃ row, au_event_type row = e ∧ au_details row = j ∧
                                                         s' = add_audit row s
              | Err _ => audit_fits e a j = false ∧ s' = s
              end) s.
Proof.
  intros Hc Hd. unfold insert_audit_event, audit_fits.
  wp_step. wp_step. destruct (validate_audit_fields e a) as [[]|]; [|done]. cbn [is_ok andb].
  wp_step. wp_step. destruct (to_vec j) as [l|]; [|done]. wp_step. wp_step; [|done].
  wp_step. wp_step. wp_step. wp_step; [|by rewrite Hc, Hd in *].
  wp_step. wp_step. wp_step. split; [done|]. eexists. by split_and!; [..|reflexivity].
Qed.

Definition find_candidate (id : string) (s : EvoDb) : option candidate_row :=
  List.find (is_candidate id) (evo_candidates s).

(** What the transaction of [activate_candidate] asks for. *)
Definition activation_ready (candidate_id : string) (s : EvoDb) : bool :=
  match find_candidate candidate_id s, newest_evaluation candidate_id (evo_evaluations s) with
  | Some c, Some v =>
      bool_decide (ca_status c = CandApproved) && decision_ready (va_decision v) &&
      bool_decide (va_baseline_candidate_id v = de_candidate_id <$> active_row s)
  | _, _ => false
  end.

Definition push_deployment (d : deployment_row) (s : EvoDb) : EvoDb :=
  with_active (Some (de_id d)) (tset evolution_deployments (evo_deployments s ++ [d]) s).

Definition new_deployment (id candidate_id actor reason : string) (now : Z) (s : EvoDb) : deployment_row :=
  {| de_id := id; de_candidate_id := candidate_id; de_previous_deployment_id := evo_active s;
     de_activated_by := actor; de_reason := trim reason; de_activated_at := now;
     de_rolled_back_at := None; de_rolled_back_by := None; de_rollback_reason := None |}.

Lemma linked_refers s : linked (evo_active s) (live_deployments s) →
  refers (evo_active s) is_deployment (evo_deployments s) = true.
Proof.
  unfold live_deployments. destruct (rev _) as [|d ds] eqn:E; cbn; [by intros ->|]. intros [-> _]. cbn.
  apply existsb_exists. exists d. split; [|apply String.eqb_refl].
  assert (Hin : In d (rev (List.filter not_rolled_back (evo_deployments s)))) by (rewrite E; by left).
  apply in_rev, List.filter_In in Hin. tauto.
Qed.

Lemma find_snoc_new {Row} (p : Row → bool) l r :
  existsb p l = false → p r = true → List.find p (l ++ [r]) = Some r.
Proof.
  intros E Hr. induction l as [|x l IH]; cbn in *; [by rewrite Hr|].
  apply orb_false_iff in E as [-> E]. by apply IH.
Qed.

Lemma refers_candidate id s c : find_candidate id s = Some c → refers (Some id) is_candidate (evo_candidates s) = true.
Proof. intros H. cbn. apply existsb_exists. exists c. by apply List.find_some in H. Qed.

(** The outcome of an activation. *)
Definition activated (candidate_id actor reason : string) (s : EvoDb) (r : res deployment_row) (s' : EvoDb) : Prop :=
  match r with
  | Ok d => ∃ id now row,
      activation_ready candidate_id s = true ∧ existsb (is_deployment id) (evo_deployments s) = false ∧
      d = deployment_from_row (new_deployment id candidate_id actor reason now s) ∧
      s' = add_audit row (push_deployment (new_deployment id candidate_id actor reason now s) s)
  | Err e => s' = s ∧
      (activation_ready candidate_id s = false ∨ is_ok (validate_actor actor ;; validate_reason reason) = false ∨
       e = "UNIQUE constraint failed" ∨
       ∃ previous, audit_fits "candidate_activated" actor
         [("reason", EStr (trim reason)); ("previous_deployment_id", EOpt previous)] = false)
  end.

Lemma wp_set_active id (Q : res unit → EvoDb → Prop) s :
  refers id is_deployment (evo_deployments s) = true → Q (Ok tt) (with_active id s) → wp (set_active id) Q s.
Proof. intros H HQ w <-. unfold set_active, mbind, M_bind, get_db, ensure. by rewrite H. Qed.

Lemma refers_snoc {Row} id (key : string → Row → bool) l r :
  key id r = true → refers (Some id) key (l ++ [r]) = true.
Proof. intros H. cbn. rewrite existsb_app. cbn. by rewrite H, orb_true_r. Qed.

(** The transaction refuses: a condition of [activation_ready] failed. *)
Ltac refused :=
  split; [done|left]; unfold activation_ready, find_candidate;
  repeat match goal with H : ?x = _ |- context [?x] => rewrite H end;
  rewrite ?andb_false_r; repeat case_match; done.

Lemma wp_activate candidate_id actor reason s :
  evo_inv s →
  wp (activate_candidate candidate_id actor reason) (activated candidate_id actor reason s) s.
Proof.
  intros Hi. pose proof (linked_refers s (ei_stack s Hi)) as Hprev.
  unfold activate_candidate, new_evolution_id, now_nanos.
  wp_step. wp_step. destruct (validate_actor actor) as [[]|e] eqn:Ea;
    [|split; [done|right; left]; by rewrite Ea].
  wp_step. wp_step. destruct (validate_reason reason) as [[]|e] eqn:Er;
    [|split; [done|right; left]; by rewrite Ea, Er].
  wp_step. wp_step. wp_step. apply wp_tick; intros n. wp_step. wp_step. apply wp_draw_id; intros k.
  wp_step. set (id := _ +:+ _). wp_step.
  wp_step. wp_step. cbn [tget evolution_candidates]. wp_step.
  destruct (List.find (is_candidate candidate_id) (evo_candidates s)) as [c|] eqn:Ec; [|wp_step; refused].
  wp_step; [|refused]. wp_step. wp_step. cbv zeta. wp_step.
  wp_step; [|refused].
  wp_step. wp_step; [|refused]. wp_step. wp_step; [|refused]. wp_step. wp_step; [|by rewrite Hprev in *].
  wp_step. wp_step. wp_step. wp_step; [|by split; [|right; right; left]].
  set (d := {| de_id := id |}).
  assert (Hid : is_deployment id d = true) by apply String.eqb_refl.
  wp_step. apply wp_set_active; [by apply refers_snoc|]. wp_step. wp_step.
  change (tget evolution_deployments (with_active (Some id) (tset evolution_deployments
    (tget evolution_deployments s ++ [d]) s))) with (evo_deployments s ++ [d]).
  rewrite find_snoc_new by done. wp_step. wp_step; [|done]. wp_step.
  match goal with E : Some d = Some ?x |- _ => assert (x = d) as -> by congruence; clear E end.
  eapply wp_mono; [apply wp_audit; [by eapply refers_candidate|by apply refers_snoc]|].
  intros [[]|e] s'; cbn beta iota.
  - intros (_ & row & _ & _ & ->). wp_step. exists id, t, row. split_and!; try done.
    unfold activation_ready, find_candidate.
    repeat match goal with H : ?x = _ |- context [?x] => rewrite H end. done.
  - intros [Hf ->]. split; [done|]. right. right. right. by exists (evo_active s).
Qed.

Lemma newest_evaluation_elem candidate_id l v :
  newest_evaluation candidate_id l = Some v → v ∈ l ∧ va_candidate_id v = candidate_id.
Proof.
  unfold newest_evaluation. intros H.
  assert (Hin : v ∈ order_by newest_evaluation_first
    (rev (List.filter (λ v, String.eqb (va_candidate_id v) candidate_id) l))).
  { destruct (order_by _ _); [done|]. injection H as ->. by left. }
  rewrite order_by_perm, list_elem_of_In, <- in_rev, List.filter_In, String.eqb_eq in Hin.
  by rewrite list_elem_of_In.
Qed.

Lemma candidate_of_snoc o l d : refers o is_deployment l = true → candidate_of o (l ++ [d]) = candidate_of o l.
Proof.
  destruct o as [i|]; [|done]. cbn. intros H. induction l as [|x l IH]; [done|]. cbn in *.
  destruct (is_deployment i x); [done|by apply IH].
Qed.

Lemma active_candidate s : de_candidate_id <$> active_row s = candidate_of (evo_active s) (evo_deployments s).
Proof. unfold active_row, candidate_of. destruct (evo_active s) as [i|]; [|done]. cbn. by destruct (List.find _ _). Qed.

Lemma live_push d s : not_rolled_back d = true →
  live_deployments (push_deployment d s) = d :: live_deployments s.
Proof.
  intros H. unfold live_deployments, push_deployment. cbn. rewrite List.filter_app, rev_app_distr. cbn. by rewrite H.
Qed.

Lemma push_inv s d candidate_id :
  evo_inv s → activation_ready candidate_id s = true → de_candidate_id d = candidate_id →
  de_previous_deployment_id d = evo_active s → not_rolled_back d = true →
  existsb (is_deployment (de_id d)) (evo_deployments s) = false → evo_inv (push_deployment d s).
Proof.
  intros Hi Hready Hc Hprev Hlive Hnew. pose proof (linked_refers s (ei_stack s Hi)) as Hact.
  unfold activation_ready in Hready. destruct (find_candidate candidate_id s) as [c|] eqn:Ec; [|done].
  destruct (newest_evaluation _ _) as [v|] eqn:Ev; [|done].
  rewrite !andb_true_iff, !bool_decide_eq_true, active_candidate in Hready. destruct Hready as [[_ Hv] Hbase].
  apply newest_evaluation_elem in Ev as [Hin Hvc]. pose proof Hi as [K1 K2 K3 K4 K5 K6 K7 K8 K9 K10].
  split; try done; cbn [push_deployment with_active tset evolution_deployments evo_deployments evo_active].
  - apply nodup_key_snoc; [done|]. intros (x & Hx & Hxin)%list_elem_of_fmap.
    apply (existsb_false _ _ Hnew) in Hxin. unfold is_deployment in Hxin. by rewrite Hx, String.eqb_refl in Hxin.
  - apply Forall_app. split; [done|]. constructor; [|done]. unfold known_candidate. cbn. rewrite Hc.
    apply List.find_some in Ec as [Hcin Hid%String.eqb_eq]. rewrite <- Hid.
    by apply list_elem_of_fmap_2, list_elem_of_In.
  - rewrite live_push by done. cbn. by rewrite Hprev.
  - apply Forall_app. split.
    + rewrite Forall_forall in *. intros x Hx. destruct (K6 x Hx) as (w & Hw & ? & ? & Hwb). exists w.
      split_and!; try done. rewrite Hwb. symmetry. by apply candidate_of_snoc, K7.
    + constructor; [|done]. exists v. split_and!; try done; [by rewrite Hvc, Hc|].
      cbn. rewrite Hbase, Hprev. symmetry. by apply candidate_of_snoc.
  - apply Forall_app. split.
    + rewrite Forall_forall in *. intros x Hx. specialize (K7 x Hx). unfold refers in *.
      destruct (de_previous_deployment_id x); [|done]. by rewrite existsb_app, K7.
    + constructor; [|done]. rewrite Hprev. unfold refers in *. destruct (evo_active s); [|done].
      by rewrite existsb_app, Hact.
Qed.

Lemma activate_inv candidate_id actor reason : stable (keeps evo_inv) (activate_candidate candidate_id actor reason).
Proof.
  intros w Hi. pose proof (wp_activate candidate_id actor reason (w_db w) Hi w eq_refl) as H.
  destruct (activate_candidate candidate_id actor reason w) as [[d|e] w']; cbn in *; [|by destruct H as [-> _]].
  destruct H as (id & now & row & Hready & Hnew & _ & ->).
  set (d' := new_deployment _ _ _ _ _ _).
  apply (evo_inv_frame (push_deployment d' (w_db w))); [reflexivity..|].
  by apply (push_inv _ _ candidate_id).
Qed.

(** ** Rollback *)

Definition pop_deployment (now : Z) (actor reason : string) (d : deployment_row) (s : EvoDb) : EvoDb :=
  with_active (de_previous_deployment_id d)
    (tset evolution_deployments
       (update_where (λ x, is_deployment (de_id d) x && not_rolled_back x)
          (mark_rolled_back now actor reason) (evo_deployments s)) s).

Lemma candidate_of_mark o p now a r l :
  candidate_of o (update_where p (mark_rolled_back now a r) l) = candidate_of o l.
Proof.
  destruct o as [i|]; [|done]. unfold candidate_of. cbn [mbind option_bind].
  induction l as [|x l IH]; [done|]. cbn [update_where map List.find].
  replace (is_deployment i (if p x then mark_rolled_back now a r x else x)) with (is_deployment i x)
    by (by destruct (p x)).
  destruct (is_deployment i x); [by destruct (p x)|exact IH].
Qed.

Lemma refers_mark o p now a r l :
  refers o is_deployment (update_where p (mark_rolled_back now a r) l) = refers o is_deployment l.
Proof.
  destruct o as [i|]; [|done]. cbn. induction l as [|x l IH]; [done|]. cbn. rewrite <- IH.
  by destruct (p x).
Qed.

Lemma active_is_head s : evo_inv s → active_row s = head (live_deployments s).
Proof.
  intros Hi. pose proof (ei_stack s Hi) as H. unfold active_row, live_deployments in *.
  destruct (rev _) as [|d ds] eqn:E; cbn in *; [by rewrite H|]. destruct H as [-> _]. cbn.
  assert (Hin : In d (evo_deployments s)).
  { assert (In d (rev (List.filter not_rolled_back (evo_deployments s)))) as Hr by (rewrite E; by left).
    apply in_rev, List.filter_In in Hr. tauto. }
  destruct (List.find _ _) as [x|] eqn:Ef.
  - apply List.find_some in Ef as [Hx Hid%String.eqb_eq]. f_equal.
    eapply (nodup_key_inj de_id); [apply ei_deployments, Hi|by apply list_elem_of_In..|done].
  - pose proof (List.find_none _ _ Ef d Hin) as Hn. unfold is_deployment in Hn. by rewrite String.eqb_refl in Hn.
Qed.

Lemma live_pop s d ds now actor reason :
  evo_inv s → live_deployments s = d :: ds → live_deployments (pop_deployment now actor reason d s) = ds.
Proof.
  intros Hi Hl. pose proof (ei_deployments s Hi) as Hn. unfold live_deployments, pop_deployment in *. cbn.
  assert (Hf : List.filter not_rolled_back (update_where (λ x, is_deployment (de_id d) x && not_rolled_back x)
      (mark_rolled_back now actor reason) (evo_deployments s)) =
    List.filter (λ x, negb (is_deployment (de_id d) x)) (List.filter not_rolled_back (evo_deployments s))).
  { generalize (evo_deployments s). unfold update_where. intros l. induction l as [|x l IH]; [done|]. cbn.
    destruct (is_deployment (de_id d) x) eqn:E1, (not_rolled_back x) eqn:E2; cbn; rewrite ?E2, ?E1, IH; done. }
  rewrite Hf. apply (f_equal (@rev _)) in Hl. rewrite rev_involutive in Hl. cbn in Hl.
  assert (Hnd : NoDup (de_id <$> rev ds ++ [d])) by (rewrite <- Hl; by apply nodup_key_filter).
  rewrite Hl, List.filter_app, rev_app_distr. cbn. unfold is_deployment at 1. rewrite String.eqb_refl. cbn.
  rewrite <- (rev_involutive ds) at 2. f_equal. rewrite fmap_app in Hnd.
  apply NoDup_app in Hnd as (_ & Hd & _). clear -Hd. induction (rev ds) as [|x l IH]; [done|]. cbn.
  unfold is_deployment at 1. destruct (String.eqb_spec (de_id x) (de_id d)) as [E|_]; cbn.
  - exfalso. apply (Hd (de_id x)); [by left|]. rewrite E. by left.
  - f_equal. apply IH. intros y Hy. apply Hd. by right.
Qed.

(** What [active_policy] answers. *)
Definition stored_policy (s : EvoDb) : res (option ActiveEvolutionPolicy) :=
  optional (λ p, policy_of p.1 p.2) (evo_active s ≫= λ id, live_pair id s).

Lemma live_in s d : d ∈ live_deployments s → d ∈ evo_deployments s ∧ not_rolled_back d = true.
Proof.
  unfold live_deployments. rewrite list_elem_of_In, <- in_rev, List.filter_In. by rewrite list_elem_of_In.
Qed.

(** A live deployment has its candidate, and the candidate a patch. *)
Lemma live_policy s d :
  evo_inv s → d ∈ live_deployments s →
  ∃ c policy, live_pair (de_id d) s = Some (d, c) ∧ c ∈ evo_candidates s ∧
    ca_id c = de_candidate_id d ∧ policy_of d c = Ok policy ∧ ap_deployment_id policy = de_id d ∧
    ap_candidate_id policy = de_candidate_id d ∧ pp_text (ap_prompt_patch policy) = ca_prompt_patch c.
Proof.
  intros Hi [Hd Hlive]%live_in. pose proof Hi as [K1 K2 K3 K4 _ _ _ _ _ _].
  rewrite Forall_forall in K4. pose proof (K4 d Hd) as Hc. unfold known_candidate in Hc.
  apply list_elem_of_fmap in Hc as (c & Hid & Hc).
  assert (Ef : List.find (λ x, is_deployment (de_id d) x && not_rolled_back x) (evo_deployments s) = Some d).
  { destruct (List.find _ (evo_deployments s)) as [x|] eqn:Ef.
    - apply List.find_some in Ef as [Hx Hx']. cbv beta in Hx'. apply andb_true_iff in Hx' as [Hx' _].
      apply String.eqb_eq in Hx'. f_equal.
      eapply (nodup_key_inj de_id); [done|by apply list_elem_of_In|done|done].
    - apply list_elem_of_In in Hd. pose proof (List.find_none _ _ Ef d Hd) as Hn. cbn in Hn.
      unfold is_deployment in Hn. by rewrite String.eqb_refl, Hlive in Hn. }
  assert (Ec : List.find (is_candidate (de_candidate_id d)) (evo_candidates s) = Some c).
  { destruct (List.find (is_candidate _) (evo_candidates s)) as [x|] eqn:Ec.
    - apply List.find_some in Ec as [Hx Hx'%String.eqb_eq]. f_equal.
      eapply (nodup_key_inj ca_id); [done|by apply list_elem_of_In|done|congruence].
    - apply list_elem_of_In in Hc. pose proof (List.find_none _ _ Ec c Hc) as Hn.
      unfold is_candidate in Hn. by rewrite Hid, String.eqb_refl in Hn. }
  rewrite Forall_forall in K2. destruct (K2 c Hc) as (value & max_chars & p & Hp & Ht).
  pose proof (prompt_patch_made _ _ _ Hp) as (_ & _ & Hlen & _).
  destruct (prompt_patch_again _ _ _ ABSOLUTE_MAX_PROMPT_PATCH_CHARS Hp) as [Hagain _]; [lia|].
  exists c. eexists. unfold live_pair. rewrite Ef. cbn [mbind option_bind]. rewrite Ec.
  unfold policy_of. rewrite Ht, Hagain. by split_and!.
Qed.

Lemma live_pair_mark s d id now a r :
  id ≠ de_id d → live_pair id (pop_deployment now a r d s) = live_pair id s.
Proof.
  intros Hne. unfold live_pair, pop_deployment. cbn.
  assert (E : List.find (λ x, is_deployment id x && not_rolled_back x)
      (update_where (λ x, is_deployment (de_id d) x && not_rolled_back x) (mark_rolled_back now a r)
         (evo_deployments s)) =
    List.find (λ x, is_deployment id x && not_rolled_back x) (evo_deployments s)); [|by rewrite E].
  generalize (evo_deployments s). unfold update_where. intros l. induction l as [|x l IH]; [done|]. cbn.
  destruct (is_deployment (de_id d) x) eqn:Ex; cbn.
  - assert (Hn : is_deployment id x = false).
    { apply String.eqb_eq in Ex. apply String.eqb_neq. congruence. }
    rewrite Hn. cbn [andb]. destruct (not_rolled_back x) eqn:E2; cbn [andb].
    + change (is_deployment id (mark_rolled_back now a r x)) with (is_deployment id x). by rewrite Hn.
    + by rewrite Hn.
  - by destruct (is_deployment id x && not_rolled_back x).
Qed.

Definition popped (actor reason : string) (s : EvoDb) (r : res EvolutionRollbackResult) (s' : EvoDb) : Prop :=
  match r with
  | Ok res => ∃ d ds now row,
      live_deployments s = d :: ds ∧ s' = add_audit row (pop_deployment now actor (trim reason) d s) ∧
      rb_deployment_id res = de_id d ∧ rb_candidate_id res = de_candidate_id d ∧
      stored_policy s' = Ok (rb_restored_policy res)
  | Err e => s' = s ∧
      (evo_active s = None ∨ is_ok (validate_actor actor ;; validate_reason reason) = false ∨
       ∃ restored, audit_fits "deployment_rolled_back" actor
         [("reason", EStr (trim reason)); ("restored_deployment_id", EOpt restored)] = false)
  end.

(** The policy that a rollback restores, read before it and after it. *)
Lemma restored_read s d ds :
  evo_inv s → live_deployments s = d :: ds →
  match de_previous_deployment_id d with
  | None => ds = []
  | Some previous_id => ∃ d' ds' c policy, ds = d' :: ds' ∧ previous_id = de_id d' ∧ de_id d' ≠ de_id d ∧
      live_pair previous_id s = Some (d', c) ∧ policy_of d' c = Ok policy
  end.
Proof.
  intros Hi Hl. pose proof (ei_stack s Hi) as H. rewrite Hl in H. destruct H as [_ H].
  destruct ds as [|d' ds']; cbn in H; [by rewrite H|]. destruct H as [-> _].
  assert (Hd' : d' ∈ live_deployments s) by (rewrite Hl; right; left).
  destruct (live_policy s d' Hi Hd') as (c & policy & Hp & _ & _ & Hpol & _).
  exists d', ds', c, policy. split_and!; try done. intros E.
  assert (Hn : NoDup (de_id <$> live_deployments s)).
  { unfold live_deployments.
    apply (NoDup_Permutation_proper _ (de_id <$> List.filter not_rolled_back (evo_deployments s)));
      [by rewrite <- Permutation_rev|]. apply nodup_key_filter, ei_deployments, Hi. }
  rewrite Hl in Hn. cbn in Hn. apply NoDup_cons in Hn as [Hn _]. apply Hn. rewrite E. left.
Qed.

Lemma wp_rollback actor reason s :
  evo_inv s → wp (rollback_active actor reason) (popped actor reason s) s.
Proof.
  intros Hi. pose proof (active_is_head s Hi) as Hhead. pose proof (ei_stack s Hi) as Hst.
  unfold rollback_active.
  wp_step. wp_step. destruct (validate_actor actor) as [[]|e] eqn:Ea;
    [|split; [done|right; left]; by rewrite Ea].
  wp_step. wp_step. destruct (validate_reason reason) as [[]|e] eqn:Er;
    [|split; [done|right; left]; by rewrite Ea, Er].
  wp_step. wp_step. wp_step. wp_step.
  destruct (live_deployments s) as [|d ds] eqn:El; rewrite Hhead; cbn [head].
  { wp_step; [done|]. split; [done|]. by left. }
  wp_step; [|done].
  match goal with E : Some d = Some ?x |- _ => assert (x = d) as -> by congruence; clear E end.
  assert (Hd : d ∈ live_deployments s) by (rewrite El; left).
  wp_step. wp_step; [|apply live_in in Hd as [_ Hd]; congruence].
  wp_step. pose proof (restored_read s d ds Hi El) as Hrest.
  assert (Hrefd : ∀ now, refers (Some (de_id d)) is_deployment
    (evo_deployments (pop_deployment now actor (trim reason) d s)) = true).
  { intros now. cbn [pop_deployment with_active tset evolution_deployments evo_deployments].
    rewrite refers_mark. cbn. apply existsb_exists. exists d. split; [|apply String.eqb_refl].
    apply live_in in Hd as [Hd _]. by apply list_elem_of_In. }
  assert (Hrefc : refers (Some (de_candidate_id d)) is_candidate (evo_candidates s) = true).
  { destruct (live_policy s d Hi Hd) as (c & _ & _ & Hc & Hid & _). cbn. apply existsb_exists.
    exists c. split; [by apply list_elem_of_In|]. rewrite <- Hid. apply String.eqb_refl. }
  assert (Hprev : refers (de_previous_deployment_id d) is_deployment (evo_deployments s) = true).
  { pose proof (ei_previous s Hi) as Hp. rewrite Forall_forall in Hp. apply Hp. by apply live_in in Hd as [Hd _]. }
  assert (Htail : ∀ restored, (∀ now row, stored_policy (add_audit row (pop_deployment now actor (trim reason) d s)) = Ok restored) →
    wp (now ← unix_now;
        sql_update evolution_deployments (λ d0, is_deployment (de_id d) d0 && not_rolled_back d0)
          (mark_rolled_back now actor (trim reason)) ;;
        set_active (de_previous_deployment_id d) ;;
        insert_audit_event (Some (de_candidate_id d)) (Some (de_id d)) "deployment_rolled_back" actor
          [("reason", EStr (trim reason)); ("restored_deployment_id", EOpt (de_previous_deployment_id d))] ;;
        mret {| rb_deployment_id := de_id d; rb_candidate_id := de_candidate_id d;
                rb_restored_policy := restored |})
      (λ r s', match r with
               | Ok a => popped actor reason s (Ok a) s'
               | Err e => popped actor reason s (Err e) s
               end) s).
  { intros restored Hres. wp_step. wp_step. wp_step. wp_step. wp_step.
    apply wp_set_active; [cbn [tget tset evolution_deployments evo_deployments]; by rewrite refers_mark|]. wp_step.
    eapply wp_mono; [apply wp_audit; [exact Hrefc|apply Hrefd]|].
    intros [[]|e] s'; cbn beta iota.
    - intros (_ & row & _ & _ & ->). wp_step. exists d, ds, t, row.
      split_and!; [done|reflexivity|done|done|apply Hres].
    - intros [Hf ->]. split; [done|]. right. right. by exists (de_previous_deployment_id d). }
  destruct (de_previous_deployment_id d) as [previous_id|] eqn:Epd.
  - destruct Hrest as (d' & ds' & c & policy & -> & -> & Hne & Hlp & Hpol).
    wp_step. rewrite Hlp. wp_step; [|done].
    match goal with E : Some (d', c) = Some ?x |- _ => assert (x = (d', c)) as -> by congruence; clear E end.
    cbn [fst snd]. rewrite Hpol. wp_step. wp_step. cbv beta iota. wp_step. apply Htail.
    intros now row. unfold stored_policy. cbn [add_audit tset evolution_audit_events evo_active pop_deployment with_active].
    rewrite Epd. cbn [mbind option_bind].
    change (live_pair (de_id d') _) with (live_pair (de_id d') (pop_deployment now actor (trim reason) d s)).
    rewrite live_pair_mark, Hlp by done. cbn. by rewrite Hpol.
  - wp_step. apply Htail. intros now row. unfold stored_policy. cbn. by rewrite Epd.
Qed.

Lemma pop_inv s d ds now actor reason :
  evo_inv s → live_deployments s = d :: ds → evo_inv (pop_deployment now actor reason d s).
Proof.
  intros Hi Hl. pose proof (ei_stack s Hi) as Hst. rewrite Hl in Hst. destruct Hst as [_ Hst].
  pose proof Hi as [K1 K2 K3 K4 K5 K6 K7 K8 K9 K10].
  split; try done; try (rewrite (live_pop s d ds) by done; done);
    cbn [pop_deployment with_active tset evolution_deployments evo_deployments].
  - by apply nodup_update_where.
  - apply Forall_forall. intros x (y & Hy & ->)%elem_update_where. rewrite Forall_forall in K4.
    specialize (K4 y Hy). by destruct (_ && _).
  - apply Forall_forall. intros x (y & Hy & ->)%elem_update_where. rewrite Forall_forall in K6.
    destruct (K6 y Hy) as (v & Hv & H1 & H2 & H3). exists v. cbn. rewrite candidate_of_mark.
    by destruct (_ && _).
  - apply Forall_forall. intros x (y & Hy & ->)%elem_update_where. rewrite refers_mark.
    rewrite Forall_forall in K7. specialize (K7 y Hy). by destruct (_ && _).
Qed.

Lemma rollback_inv actor reason : stable (keeps evo_inv) (rollback_active actor reason).
Proof.
  intros w Hi. pose proof (wp_rollback actor reason (w_db w) Hi w eq_refl) as H.
  destruct (rollback_active actor reason w) as [[r|e] w']; cbn in *; [|by destruct H as [-> _]].
  destruct H as (d & ds & now & row & Hl & -> & _).
  apply (evo_inv_frame (pop_deployment now actor (trim reason) d (w_db w))); [reflexivity..|].
  by apply (pop_inv _ d ds).
Qed.

Lemma evo_exec_inv op : stable (keeps evo_inv) (evo_exec op).
Proof.
  destruct op; cbn [evo_exec]; try apply stable_unit_of.
  - apply stable_bind_res; [apply _|]. intros p Hp. apply stable_unit_of, create_inv. by exists patch, max_chars.
  - apply transition_inv.
  - apply case_inv.
  - apply evaluation_inv.
  - apply run_inv.
  - apply clear_inv.
  - apply activate_inv.
  - apply rollback_inv.
  - unfold record_audit_event. stable_go.
  - apply stable_sql_insert; [apply _|]. intros s _ Hi. by eapply evo_inv_frame; [..|exact Hi].
Qed.

Lemma evo_reachable_inv s : evo_reachable s → evo_inv s.
Proof.
  apply op_reachable_invariant; [|apply evo_exec_inv]. by split; repeat constructor.
Qed.

(** C22: Whatever operations run in whatever order, the evolution tables agree: every
    deployment is of a known candidate whose latest-at-the-time evaluation was ready and
    was made against the very candidate it replaced; the live deployments form one stack
    whose top is the active deployment; at most fifty evaluation cases are enabled; a
    candidate has at most one evaluation cursor, and a patch that passed the checks of
    [PromptPatch::new]. *)
Theorem evolution_tables_agree s : evo_reachable s → evo_inv s.
Proof. apply evo_reachable_inv. Qed.

(** C17: Nothing reaches production unreviewed: an activation that succeeds found the
    candidate approved, its latest evaluation ready, and that evaluation made against the
    candidate now active; it then adds exactly one deployment, which becomes the active
    one on top of the previous.  An activation that fails changes nothing, and fails only
    for one of these conditions, for a bad actor or reason, for an id already taken, or
    for audit details that are too large. *)
Theorem activation_is_gated candidate_id actor reason s :
  evo_reachable s → wp (activate_candidate candidate_id actor reason) (activated candidate_id actor reason s) s.
Proof. intros Hr. by apply wp_activate, evo_reachable_inv. Qed.

(** ** Candidates over time *)

Definition is_deploy_op (op : evo_op) : bool :=
  match op with EActivate _ _ _ | ERollback _ _ => true | _ => false end.

(** A candidate keeps its identity and its patch; its status moves along the edges. *)
Definition candidate_le (c c' : candidate_row) : Prop :=
  ca_id c' = ca_id c ∧ ca_prompt_patch c' = ca_prompt_patch c ∧
  ca_parent_candidate_id c' = ca_parent_candidate_id c ∧
  ca_evidence_fingerprint c' = ca_evidence_fingerprint c ∧
  ca_source_trajectory_ids c' = ca_source_trajectory_ids c ∧
  rtc (λ a b, can_transition_to a b = true) (ca_status c) (ca_status c').

#[export] Instance candidate_le_preorder : PreOrder candidate_le.
Proof.
  split.
  - intros c. by split_and!.
  - intros a b c (H1 & H2 & H3 & H4 & H5 & H6) (G1 & G2 & G3 & G4 & G5 & G6).
    split_and!; [congruence..|]. by etrans.
Qed.

Definition candidates_le (s s' : EvoDb) : Prop :=
  ∃ new l, evo_candidates s' = l ++ new ∧ Forall2 candidate_le (evo_candidates s) l.

#[export] Instance candidates_le_preorder : PreOrder candidates_le.
Proof.
  split.
  - intros s. exists [], (evo_candidates s). rewrite app_nil_r. split; [done|]. by apply Forall_Forall2_diag, Forall_forall.
  - intros s1 s2 s3 (n & l & E & H) (n' & l' & E' & H'). rewrite E in H'.
    apply Forall2_app_inv_l in H' as (l1 & l2 & H1 & H2 & ->). exists (l2 ++ n'), l1.
    split; [by rewrite E', <- app_assoc|]. revert H1. clear -H. revert l1.
    induction H as [|x y k k' Hxy _ IH]; intros l1 H1; inv H1; constructor; [by etrans|by apply IH].
Qed.

Lemma candidates_same s s' : evo_candidates s' = evo_candidates s → candidates_le s s'.
Proof.
  intros E. exists [], (evo_candidates s). rewrite app_nil_r. split; [done|].
  by apply Forall_Forall2_diag, Forall_forall.
Qed.

#[local] Hint Extern 3 (stable candidates_le _) =>
  first [apply stable_sql_insert; [typeclasses eauto|intros ? _]
        |apply stable_sql_update; intros ?|apply stable_sql_delete; intros ?
        |apply stable_sql_upsert; [typeclasses eauto|intros ? _]]; by apply candidates_same : stab.

Lemma audit_candidates c d e a j : stable candidates_le (insert_audit_event c d e a j).
Proof. unfold insert_audit_event. stable_go. Qed.

#[local] Hint Resolve audit_candidates : stab.

Lemma status_update_le candidate_id expected next now :
  can_transition_to expected next = true →
  stable candidates_le (sql_update evolution_candidates
    (λ r, is_candidate candidate_id r && bool_decide (ca_status r = expected)) (set_candidate_status next now)).
Proof.
  intros Hedge. apply stable_sql_update. intros s. exists []. eexists. rewrite app_nil_r. split; [reflexivity|].
  cbn [tget evolution_candidates]. induction (evo_candidates s) as [|r l IH]; constructor; [|exact IH].
  destruct (is_candidate candidate_id r); cbn; [|done]. case_bool_decide as E; [|done].
  split_and!; try done. apply rtc_once. by rewrite E.
Qed.

Lemma set_active_candidates id : stable candidates_le (set_active id).
Proof.
  unfold set_active. apply stable_of_wp. intros s. wp_step. wp_step. wp_step. wp_step; [|done].
  intros w <-. cbn. by apply candidates_same.
Qed.

#[local] Hint Resolve set_active_candidates : stab.

Lemma evo_exec_candidates op : stable candidates_le (evo_exec op).
Proof.
  destruct op; cbn [evo_exec]; try apply stable_unit_of.
  - apply stable_bind; [apply _|stable_go|intros p]. apply stable_unit_of.
    unfold create_candidate, get_candidate. cbv zeta. stable_go.
    apply stable_sql_insert; [apply _|]. intros s _. eexists _, (evo_candidates s). split; [reflexivity|].
    by apply Forall_Forall2_diag, Forall_forall.
  - unfold transition_candidate, get_candidate. stable_go. by apply status_update_le.
  - unfold upsert_eval_case. stable_go.
  - unfold record_evaluation, get_evaluation. stable_go.
  - unfold upsert_eval_run. stable_go.
  - unfold clear_eval_run. stable_go.
  - unfold activate_candidate, new_evolution_id. cbv zeta. stable_go.
  - unfold rollback_active. stable_go.
  - unfold record_audit_event. stable_go.
  - stable_go.
Qed.

(** What was evaluated is what runs: over any sequence of operations a candidate keeps
    its patch, parent, evidence and sources, is never removed, and its status only moves
    along the edges of [can_transition_to]. *)
Theorem candidates_keep_their_patch s s' c :
  op_steps evo_exec s s' → c ∈ evo_candidates s → ∃ c', c' ∈ evo_candidates s' ∧ candidate_le c c'.
Proof.
  intros Hs Hc. apply (op_steps_preserve _ candidates_le evo_exec_candidates) in Hs as (n & l & E & H).
  apply list_elem_of_lookup in Hc as [i Hi]. destruct (Forall2_lookup_l _ _ _ _ _ H Hi) as (c' & Hi' & Hle).
  exists c'. split; [|done]. rewrite E. apply elem_of_app. left. by eapply list_elem_of_lookup_2.
Qed.

(** ** Activation and rollback are inverse *)

(** Deployments and the active one are as before. *)
Definition same_deployments (s s' : EvoDb) : Prop :=
  evo_deployments s' = evo_deployments s ∧ evo_active s' = evo_active s.

#[export] Instance same_deployments_preorder : PreOrder same_deployments.
Proof. split; [done|]. intros a b c [H1 H2] [G1 G2]. split; congruence. Qed.

#[local] Hint Extern 3 (stable same_deployments _) =>
  first [apply stable_sql_insert; [typeclasses eauto|intros ? _]
        |apply stable_sql_update; intros ?|apply stable_sql_delete; intros ?
        |apply stable_sql_upsert; [typeclasses eauto|intros ? _]]; done : stab.

Lemma audit_deployments c d e a j : stable same_deployments (insert_audit_event c d e a j).
Proof. unfold insert_audit_event. stable_go. Qed.

#[local] Hint Resolve audit_deployments : stab.

Lemma evo_exec_deployments op : is_deploy_op op = false → stable same_deployments (evo_exec op).
Proof.
  destruct op; intros Hop; try discriminate Hop; cbn [evo_exec]; try apply stable_unit_of.
  - apply stable_bind; [apply _|stable_go|intros p]. apply stable_unit_of.
    unfold create_candidate, get_candidate. cbv zeta. stable_go.
  - unfold transition_candidate, get_candidate. stable_go.
  - unfold upsert_eval_case. stable_go.
  - unfold record_evaluation, get_evaluation. stable_go.
  - unfold upsert_eval_run. stable_go.
  - unfold clear_eval_run. stable_go.
  - unfold record_audit_event. stable_go.
  - stable_go.
Qed.

Lemma stored_policy_head s d ds c policy :
  evo_inv s → live_deployments s = d :: ds → live_pair (de_id d) s = Some (d, c) →
  policy_of d c = Ok policy → stored_policy s = Ok (Some policy).
Proof.
  intros Hi Hl Hp Hpol. pose proof (ei_stack s Hi) as H. rewrite Hl in H. destruct H as [Ha _].
  unfold stored_policy. rewrite Ha. cbn [mbind option_bind]. rewrite Hp. cbn. by rewrite Hpol.
Qed.

(** The policy in force depends on the live deployments and the patches only. *)
Lemma stored_policy_le s s' :
  evo_inv s → evo_inv s' → candidates_le s s' → live_deployments s' = live_deployments s →
  stored_policy s' = stored_policy s.
Proof.
  intros Hi Hi' Hle Hl. destruct (live_deployments s) as [|d ds] eqn:E.
  - pose proof (ei_stack s Hi) as H. rewrite E in H. pose proof (ei_stack s' Hi') as H'. rewrite Hl in H'.
    cbn in *. unfold stored_policy. by rewrite H, H'.
  - assert (Hd : d ∈ live_deployments s) by (rewrite E; left).
    assert (Hd' : d ∈ live_deployments s') by (rewrite Hl; left).
    destruct (live_policy s d Hi Hd) as (c & p & Hp & Hc & Hid & Hpol & P1 & P2 & P3).
    destruct (live_policy s' d Hi' Hd') as (c' & p' & Hp' & Hc' & Hid' & Hpol' & P1' & P2' & P3').
    rewrite (stored_policy_head s' d ds c' p'), (stored_policy_head s d ds c p) by done.
    destruct Hle as (n & l & En & Hn). apply list_elem_of_lookup in Hc as [i Hix].
    destruct (Forall2_lookup_l _ _ _ _ _ Hn Hix) as (c2 & Hi2 & Hc2 & Hpp & _).
    assert (c2 = c') as ->.
    { eapply (nodup_key_inj ca_id); [apply ei_candidates, Hi'| |done|congruence].
      rewrite En. apply elem_of_app. left. by eapply list_elem_of_lookup_2. }
    destruct p as [x1 x2 [x3]], p' as [y1 y2 [y3]]. cbn in *. congruence.
Qed.

(** C18: A rollback undoes an activation: after an activation, and any operations that do
    not deploy, a rollback takes down that deployment and puts back the policy that was
    in force before it, patch and all.  It fails only for a bad actor or reason or for
    audit details that are too large, and then changes nothing. *)
Theorem rollback_restores_the_previous_policy candidate_id actor reason actor' reason' w d w' s :
  evo_reachable (w_db w) → activate_candidate candidate_id actor reason w = (Ok d, w') →
  op_steps_where evo_exec (λ op, is_deploy_op op = false) (w_db w') s →
  wp (rollback_active actor' reason')
     (λ r s', match r with
              | Ok res => rb_deployment_id res = de_id d ∧ evo_active s' = evo_active (w_db w) ∧
                          stored_policy (w_db w) = Ok (rb_restored_policy res) ∧
                          stored_policy s' = Ok (rb_restored_policy res)
              | Err _ => s' = s ∧
                  (is_ok (validate_actor actor' ;; validate_reason reason') = false ∨
                   ∃ restored, audit_fits "deployment_rolled_back" actor'
                     [("reason", EStr (trim reason')); ("restored_deployment_id", EOpt restored)] = false)
              end) s.
Proof.
  intros Hr Hact Hsteps. pose proof (evo_reachable_inv _ Hr) as Hi0.
  pose proof (wp_activate candidate_id actor reason (w_db w) Hi0 w eq_refl) as H.
  pose proof (activate_inv candidate_id actor reason w Hi0) as Hi1.
  assert (Hcand : candidates_le (w_db w) s).
  { transitivity (w_db w').
    - pose proof (evo_exec_candidates (EActivate candidate_id actor reason) w) as Hc. cbn [evo_exec] in Hc.
      rewrite unit_of_db, Hact in Hc. exact Hc.
    - by apply (op_steps_preserve _ candidates_le evo_exec_candidates), (op_steps_where_steps _ _ _ _ Hsteps). }
  rewrite Hact in H, Hi1. cbn in H, Hi1. destruct H as (id & now & row & Hready & Hnew & -> & Hw').
  assert (Hi2 : evo_inv s).
  { refine (op_steps_preserve _ (keeps evo_inv) evo_exec_inv _ _ _ Hi1). by eapply op_steps_where_steps. }
  pose proof (op_steps_where_preserve _ _ same_deployments evo_exec_deployments _ _ Hsteps) as [Hdep Hacts].
  set (d := new_deployment id candidate_id actor reason now (w_db w)) in *.
  assert (Hlive : live_deployments s = d :: live_deployments (w_db w)).
  { transitivity (live_deployments (push_deployment d (w_db w))); [|by apply live_push].
    unfold live_deployments. rewrite Hdep, Hw'. reflexivity. }
  pose proof (wp_rollback actor' reason' s Hi2) as Hroll. intros w2 Hw2. specialize (Hroll w2 Hw2).
  assert (Hi3 : evo_inv (w_db (rollback_active actor' reason' w2).2)).
  { apply rollback_inv. by rewrite Hw2. }
  destruct (rollback_active actor' reason' w2) as [[res|e] w3]; cbn in *.
  - destruct Hroll as (d' & ds & now' & row' & Hl & Hw3 & Hid & _ & Hpol). rewrite Hlive in Hl.
    injection Hl as <- <-. split_and!; [done|by rewrite Hw3| |done]. rewrite <- Hpol. symmetry.
    apply stored_policy_le; [done|done| |].
    + etrans; [exact Hcand|]. apply candidates_same. by rewrite Hw3.
    + rewrite Hw3. apply (live_pop s d); [done|exact Hlive].
  - destruct Hroll as [-> [Hnone|H]]; [|done]. rewrite Hacts, Hw' in Hnone. done.
Qed.
End facts.
