(* ===== verification/Harness.v ===== *)
(** * The harness store: one database, three groups of tables

    [SqliteHarnessStore] of src/harness/store.rs and the parts of [SqliteEvolutionStore]
    that reach beyond the evolution tables: a run with a low score and a spike of negative
    feedback raise signals in the loop store, and feedback refers to recorded runs. *)

From S2P Require Import Prelude Text External Messages Verifier Domain Tables Signals Replay.
From S2P Require Import MemBase Floats TrajStore EvoDomain EvoStore.
From stdpp Require Import pretty.
#[local] Open Scope Z_scope.

(** ** The database *)

Record HarnessDb `{ENV : LoopEnv} : Type := {
  hd_loop : Db;
  hd_traj : TrajDb;
  hd_evo : EvoDb
}.

(** [Utc::now().format("fb-spike:%Y%m%d%H")] of chrono, at a number of seconds. *)
Class HourBucket : Type := spike_bucket : Z → string.

Section harness.
  Context `{ENV : LoopEnv} `{DT : DateTimes} `{SER : Serialize edetails} `{FT : FloatText} `{HB : HourBucket}.

Abbreviation DB := (M HarnessDb).

Definition empty_harness : HarnessDb := {| hd_loop := empty_db; hd_traj := empty_traj; hd_evo := empty_evo |}.

Definition put_loop (s : Db) (h : HarnessDb) : HarnessDb :=
  {| hd_loop := s; hd_traj := hd_traj h; hd_evo := hd_evo h |}.

Definition put_traj (s : TrajDb) (h : HarnessDb) : HarnessDb :=
  {| hd_loop := hd_loop h; hd_traj := s; hd_evo := hd_evo h |}.

Definition put_evo (s : EvoDb) (h : HarnessDb) : HarnessDb :=
  {| hd_loop := hd_loop h; hd_traj := hd_traj h; hd_evo := s |}.

Definition on_loop {A} : M Db A → DB A := zoom hd_loop put_loop.
Definition on_traj {A} : M TrajDb A → DB A := zoom hd_traj put_traj.
Definition on_evo {A} : M EvoDb A → DB A := zoom hd_evo put_evo.

(** ** Finishing a run *)

(** The signal about a run whose score is low. *)
Definition low_score_signal (scorecard : RunScorecard) (exit_reason : TrajectoryExitReason)
    (trajectory : option TrajectoryRecord) : CreateSignalRequest :=
  let model := match trajectory with Some r => tj_model r | None => "unknown" end in
  let channel := match trajectory with Some r => tj_channel r | None => "unknown" end in
  let session := match trajectory with Some r => tj_session_id r | None => "" end in
  {| cs_kind := KTrajectory; cs_trust := TInternal; cs_source := "trajectory:scorecard";
     cs_external_id := Some (sc_trajectory_id scorecard);
     cs_content :=
       "low-score run (" +:+ pretty (sc_score scorecard) +:+ "): exit=" +:+ exit_reason_as_str exit_reason +:+
       ", failed_tools=" +:+ pretty (sc_failed_tool_calls scorecard) +:+ "/" +:+
       pretty (sc_tool_calls scorecard) +:+ ", verification_failures=" +:+
       pretty (sc_verification_failures scorecard) +:+ ", iterations=" +:+
       pretty (sc_iterations scorecard) +:+ ", model=" +:+ model +:+ ", channel=" +:+ channel;
     cs_metadata :=
       [("exit_reason", exit_reason_as_str exit_reason);
        ("failed_tool_calls", pretty (sc_failed_tool_calls scorecard));
        ("score", pretty (sc_score scorecard)); ("session_id", session);
        ("trajectory_id", sc_trajectory_id scorecard);
        ("verification_failures", pretty (sc_verification_failures scorecard))] |}.

Definition harness_finish_trajectory (trajectory_id : string) (final_answer : option string)
    (exit_reason : TrajectoryExitReason) : DB unit :=
  on_traj (finish_trajectory trajectory_id final_answer exit_reason) ;;
  card ← catch (on_traj (get_run_scorecard trajectory_id));
  match card with
  | Ok (Some scorecard) =>
      if sc_score scorecard <? LOW_RUN_SCORE then
        trajectory ← on_traj (get_trajectory trajectory_id);
        ignore_error (on_loop (ingest_signal (low_score_signal scorecard exit_reason trajectory)
                                 "system:scorecard"))
      else mret tt
  | Ok None | Err _ => mret tt
  end.

Definition record_provider_frame (draft : TrajectoryFrameDraft) : DB unit :=
  on_loop (record_trajectory_frame draft "trajectory:message-service") ;; mret tt.

(** The last user message of the earliest captured request of a run. *)
Definition trajectory_first_user_input (trajectory_id : string) : DB (option string) :=
  rows ← on_loop (sql_select harness_trajectory_frames (of_trajectory trajectory_id));
  mret match head (order_by Replay.call_order rows) with
       | None => None
       | Some row =>
           content <$> List.find (λ m, match role m with User => true | _ => false end)
                         (rev (tf_request_messages row))
       end.

(** ** Feedback *)

Definition emit_internal_signal (request : CreateSignalRequest) (actor : string) : DB unit :=
  on_loop (ingest_signal request actor) ;; mret tt.

Definition SPIKE_WINDOW_SECS : Z := 6 * 3600.
Definition SPIKE_RUN_THRESHOLD : Z := 3.

(** [score < 0 AND created_at >= since]. *)
Definition flagged_since (since : Z) (f : feedback_row) : bool :=
  f64_lt (fb_score f) f64_zero && (since <=? fb_created_at f).

(** [COUNT(DISTINCT trajectory_id)]. *)
Definition flagged_runs (since : Z) (l : list feedback_row) : Z :=
  Z.of_nat (length (remove_dups (fb_trajectory_id <$> List.filter (flagged_since since) l))).

Definition spike_signal (flagged : Z) (bucket : string) (latest : feedback_row) : CreateSignalRequest :=
  {| cs_kind := KUserFeedback; cs_trust := TInternal; cs_source := "evolution:feedback-spike";
     cs_external_id := Some bucket;
     cs_content := "negative feedback spike: " +:+ pretty flagged +:+
       " distinct runs flagged in the last 6h (latest: " +:+ fb_trajectory_id latest +:+ " score " +:+
       float_text (fb_score latest) +:+ ")";
     cs_metadata := [("flagged_runs", pretty flagged); ("latest_trajectory_id", fb_trajectory_id latest);
                     ("window_secs", pretty SPIKE_WINDOW_SECS)] |}.

Definition maybe_emit_feedback_spike (latest : feedback_row) : DB unit :=
  now ← unix_now;
  rows ← on_evo (sql_select evolution_feedback (λ _, true));
  let flagged := flagged_runs (now - SPIKE_WINDOW_SECS) rows in
  if flagged <? SPIKE_RUN_THRESHOLD then mret tt
  else
    now' ← unix_now;
    emit_internal_signal (spike_signal flagged (spike_bucket now') latest) "system:evolution-store".

(** The next AUTOINCREMENT id. *)
Definition next_feedback_id (l : list feedback_row) : Z := foldr Z.max 0 (fb_id <$> l) + 1.

Definition feedback_from_row (r : feedback_row) : feedback_row :=
  {| fb_id := fb_id r; fb_trajectory_id := fb_trajectory_id r; fb_score := fb_score r;
     fb_tags := fb_tags r; fb_comment := fb_comment r; fb_actor := fb_actor r;
     fb_created_at := evolution_timestamp (fb_created_at r) |}.

Definition is_feedback (id : Z) (r : feedback_row) : bool := fb_id r =? id.

Definition trimmed_comment (comment : option string) : option string :=
  match comment with Some c => if is_blank c then None else Some (trim c) | None => None end.

(** The transaction of [record_feedback]: the run must exist. *)
Definition insert_feedback (draft : EvolutionFeedbackDraft) (actor : string) : DB Z :=
  let tags := trim <$> fd_tags draft in
  transaction (
    n ← on_traj (sql_count mcp_trajectories (is_trajectory (fd_trajectory_id draft)));
    ensure (negb (n =? 0)) ("trajectory '" +:+ fd_trajectory_id draft +:+ "' does not exist") ;;
    now ← unix_now;
    rows ← on_evo (sql_select evolution_feedback (λ _, true));
    let feedback_id := next_feedback_id rows in
    on_evo (sql_insert evolution_feedback (is_feedback feedback_id)
      {| fb_id := feedback_id; fb_trajectory_id := fd_trajectory_id draft; fb_score := fd_score draft;
         fb_tags := tags; fb_comment := trimmed_comment (fd_comment draft); fb_actor := actor;
         fb_created_at := now |}) ;;
    on_evo (insert_audit_event None None "feedback_recorded" actor
      [("feedback_id", EInt feedback_id); ("trajectory_id", EStr (fd_trajectory_id draft));
       ("score", EF64 (fd_score draft)); ("tags", EStrs tags)]) ;;
    mret feedback_id).

Definition record_feedback (draft : EvolutionFeedbackDraft) (actor : string) : DB feedback_row :=
  lift_res (validate_feedback draft) ;;
  lift_res (EvoDomain.validate_actor actor) ;;
  feedback_id ← insert_feedback draft actor;
  row ← on_evo (sql_first evolution_feedback (is_feedback feedback_id));
  row ← context "recorded evolution feedback is missing" row;
  let record := feedback_from_row row in
  (if f64_lt (fd_score draft) f64_zero then ignore_error (maybe_emit_feedback_spike record)
   else mret tt) ;;
  mret record.

(** [ORDER BY created_at DESC, id DESC]. *)
Definition newest_feedback_first (a b : feedback_row) : bool :=
  if fb_created_at a =? fb_created_at b then fb_id b <=? fb_id a
  else fb_created_at b <=? fb_created_at a.

Definition list_feedback (negative_only : bool) (limit : nat) : DB (list feedback_row) :=
  rows ← on_evo (sql_select evolution_feedback
    (λ f, if negative_only then f64_lt (fb_score f) f64_zero else true));
  mret (feedback_from_row <$> take (clamp_evolution_limit limit) (order_by newest_feedback_first rows)).
End harness.
