(* ===== verification/RunLog.v ===== *)
(** * Logging a run

    [TrajectoryLogger] and [TrajectoryRun] of src/harness/trajectory.rs and [AgentRun] of
    src/harness/run.rs: the object that follows an agent run and records its tool calls,
    its provider calls and its end.  A logging failure is reported and dropped; metrics are
    left out. *)

From S2P Require Import Prelude Text Strings Messages External Verifier Domain Tables Replay.
From S2P Require Import Handlers MemBase Floats TrajStore EvoDomain EvoStore Harness.

Section run_log.
  Context `{ENV : LoopEnv} `{DT : DateTimes}.

Abbreviation DB := (M HarnessDb).

(** ** The logger *)

Record TrajectoryLogger : Type := { lg_enabled : bool }.

Definition logger_start_trajectory (l : TrajectoryLogger) (id session_id channel user_id model : string)
    : DB unit :=
  if negb (lg_enabled l) then mret tt
  else on_traj (start_trajectory id session_id channel user_id model).

Definition logger_log_tool_call (l : TrajectoryLogger) (id : string) (record : ToolCallRecord) : DB unit :=
  if negb (lg_enabled l) then mret tt else on_traj (insert_trajectory_tool_call id record).

Definition logger_finish_trajectory (l : TrajectoryLogger) (id : string) (final_answer : option string)
    (exit_reason : TrajectoryExitReason) : DB unit :=
  if negb (lg_enabled l) then mret tt else harness_finish_trajectory id final_answer exit_reason.

Definition logger_log_provider_frame (l : TrajectoryLogger) (draft : TrajectoryFrameDraft) : DB unit :=
  if negb (lg_enabled l) then mret tt else record_provider_frame draft.

(** ** Bounded captures *)

(** The loop over the messages, newest first; [used] counts bytes. *)
Fixpoint select_messages (max_bytes used : N) (newest_first : list StoredMessage) : list StoredMessage :=
  match newest_first with
  | [] => []
  | message :: rest =>
      let remaining := (max_bytes - used)%N in
      if (remaining <? 64)%N then []
      else
        let content := truncate_utf8 (content message) (remaining - 48) in
        {| role := role message; content := content |} ::
        select_messages max_bytes (used + N.of_nat (String.length content) + 48) rest
  end.

Definition bounded_replay_messages (messages : list StoredMessage) (max_bytes : N) : list StoredMessage :=
  match rev (select_messages max_bytes 2 (rev messages)) with
  | [] => [{| role := System; content := "[trajectory request omitted by capture budget]" |}]
  | selected => selected
  end.

(** ** A run *)

Record TrajectoryRun : Type := {
  rn_logger : option TrajectoryLogger;
  rn_id : string;
  rn_started : bool;
  rn_finished : bool;
  rn_tool_calls : nat;
  rn_max_iteration : option nat;
  rn_provider_calls : N;
  rn_model : string
}.

Definition new_trajectory_id : DB string :=
  now ← now_nanos;
  sequence ← draw_id;
  mret ("traj-" +:+ hex (Z.to_N now) +:+ "-" +:+ hex sequence).

Definition start_run (logger : option TrajectoryLogger) (session_id channel user_id model : string)
    : DB TrajectoryRun :=
  id ← new_trajectory_id;
  started ← match logger with
    | Some l =>
        r ← catch (logger_start_trajectory l id session_id channel user_id model);
        mret (is_ok r)
    | None => mret false
    end;
  mret {| rn_logger := logger; rn_id := id; rn_started := started; rn_finished := false;
          rn_tool_calls := 0; rn_max_iteration := None; rn_provider_calls := 0; rn_model := model |}.

Definition observe_iteration (iteration : nat) (run : TrajectoryRun) : TrajectoryRun :=
  {| rn_logger := rn_logger run; rn_id := rn_id run; rn_started := rn_started run;
     rn_finished := rn_finished run; rn_tool_calls := rn_tool_calls run;
     rn_max_iteration := Some (match rn_max_iteration run with
                               | Some current => Nat.max current iteration | None => iteration end);
     rn_provider_calls := rn_provider_calls run; rn_model := rn_model run |}.

Definition count_tool_call (run : TrajectoryRun) : TrajectoryRun :=
  {| rn_logger := rn_logger run; rn_id := rn_id run; rn_started := rn_started run;
     rn_finished := rn_finished run; rn_tool_calls := rn_tool_calls run + 1;
     rn_max_iteration := rn_max_iteration run; rn_provider_calls := rn_provider_calls run;
     rn_model := rn_model run |}.

Definition with_call_index (index : nat) (record : ToolCallRecord) : ToolCallRecord :=
  {| tc_call_index := index; tc_server := tc_server record; tc_tool := tc_tool record;
     tc_arguments := tc_arguments record; tc_result := tc_result record; tc_ok := tc_ok record;
     tc_duration_ms := tc_duration_ms record; tc_iteration := tc_iteration record |}.

(** The run afterwards and the record with its place in the run. *)
Definition log_tool_call (record : ToolCallRecord) (run : TrajectoryRun)
    : DB (TrajectoryRun * ToolCallRecord) :=
  let record := with_call_index (rn_tool_calls run) record in
  let run := count_tool_call (observe_iteration (tc_iteration record) run) in
  (if rn_started run then
     match rn_logger run with
     | Some l => ignore_error (logger_log_tool_call l (rn_id run) record)
     | None => mret tt
     end
   else mret tt) ;;
  mret (run, record).

Definition count_provider_call (run : TrajectoryRun) : TrajectoryRun :=
  {| rn_logger := rn_logger run; rn_id := rn_id run; rn_started := rn_started run;
     rn_finished := rn_finished run; rn_tool_calls := rn_tool_calls run;
     rn_max_iteration := rn_max_iteration run;
     rn_provider_calls := N.min (rn_provider_calls run + 1) (2 ^ 32 - 1); rn_model := rn_model run |}.

Definition provider_draft (messages : list StoredMessage) (request_was_json : bool) (response : string)
    (run : TrajectoryRun) : TrajectoryFrameDraft :=
  {| dr_trajectory_id := rn_id run; dr_call_index := rn_provider_calls run; dr_model := rn_model run;
     dr_provider_fingerprint := "model:" +:+ rn_model run +:+ ";seed:unknown;config:unavailable";
     dr_request_messages := bounded_replay_messages messages 131072;
     dr_request_was_json := request_was_json; dr_response := truncate_utf8 response 262144;
     dr_capture := Truncated |}.

Definition log_provider_call (messages : list StoredMessage) (request_was_json : bool)
    (response : string) (run : TrajectoryRun) : DB TrajectoryRun :=
  match rn_logger run with
  | None => mret run
  | Some l =>
      if negb (rn_started run) then mret run
      else
        ignore_error (logger_log_provider_frame l (provider_draft messages request_was_json response run)) ;;
        mret (count_provider_call run)
  end.

Definition set_finished (run : TrajectoryRun) : TrajectoryRun :=
  {| rn_logger := rn_logger run; rn_id := rn_id run; rn_started := rn_started run; rn_finished := true;
     rn_tool_calls := rn_tool_calls run; rn_max_iteration := rn_max_iteration run;
     rn_provider_calls := rn_provider_calls run; rn_model := rn_model run |}.

Definition finish_run (final_answer : option string) (exit_reason : TrajectoryExitReason)
    (run : TrajectoryRun) : DB TrajectoryRun :=
  if rn_finished run then mret run
  else
    let run := set_finished run in
    (if rn_started run then
       match rn_logger run with
       | Some l => ignore_error (logger_finish_trajectory l (rn_id run) final_answer exit_reason)
       | None => mret tt
       end
     else mret tt) ;;
    mret run.

(** ** [AgentRun] *)

Inductive AgentRunExit : Type :=
| ExitFinalAnswer (answer : string)
| ExitMaxIterations (answer : string)
| ExitToolError (answer : string)
| ExitAgentTimeout
| ExitInternalError.

Definition exit_parts (e : AgentRunExit) : option string * TrajectoryExitReason :=
  match e with
  | ExitFinalAnswer answer => (Some answer, FinalAnswer)
  | ExitMaxIterations answer => (Some answer, MaxIterations)
  | ExitToolError answer => (Some answer, ToolError)
  | ExitAgentTimeout => (None, ExitTimeout)
  | ExitInternalError => (None, InternalError)
  end.

Record AgentRun : Type := {
  ag_trajectory : TrajectoryRun;
  ag_finished : bool
}.

Definition start_agent_run (logger : option TrajectoryLogger) (session_id channel user_id model : string)
    : DB AgentRun :=
  run ← start_run logger session_id channel user_id model;
  mret {| ag_trajectory := run; ag_finished := false |}.

Definition record_tool_call (record : ToolCallRecord) (a : AgentRun) : DB (AgentRun * ToolCallRecord) :=
  '(run, record) ← log_tool_call record (ag_trajectory a);
  mret ({| ag_trajectory := run; ag_finished := ag_finished a |}, record).

Definition record_provider_call (messages : list StoredMessage) (request_was_json : bool)
    (response : string) (a : AgentRun) : DB AgentRun :=
  run ← log_provider_call messages request_was_json response (ag_trajectory a);
  mret {| ag_trajectory := run; ag_finished := ag_finished a |}.

Definition finish_agent_run (exit : AgentRunExit) (a : AgentRun) : DB AgentRun :=
  if ag_finished a then mret a
  else
    let '(answer, reason) := exit_parts exit in
    run ← finish_run answer reason (ag_trajectory a);
    mret {| ag_trajectory := run; ag_finished := true |}.

(** ** A session *)

Inductive run_event : Type :=
| RTool (record : ToolCallRecord)
| RProvider (messages : list StoredMessage) (request_was_json : bool) (response : string).

Definition run_step (e : run_event) (a : AgentRun) : DB AgentRun :=
  match e with
  | RTool record => '(a, _) ← record_tool_call record a; mret a
  | RProvider messages request_was_json response => record_provider_call messages request_was_json response a
  end.

Fixpoint agent_events (es : list run_event) (a : AgentRun) : DB AgentRun :=
  match es with
  | [] => mret a
  | e :: es' => a ← run_step e a; agent_events es' a
  end.
End run_log.
