(* ===== verification/RunFacts.v ===== *)
(** * Recorded runs

    A run is recorded as it happened: what [AgentRun] followed is what the store answers
    with once the run is over, whatever the provider calls in between did. *)

From S2P Require Import Prelude Text Strings Messages External Verifier Domain Tables Signals.
From S2P Require Import Replay Handlers MemBase Floats TrajStore TrajFacts EvoDomain EvoStore.
From S2P Require Import Harness RunLog.
#[local] Open Scope Z_scope.

Section run_facts.
  Context `{ENV : LoopEnv} `{DT : DateTimes}.

(** ** What a session recorded *)

(** The tool calls of a session, each with its place. *)
Fixpoint numbered_calls (n : nat) (es : list run_event) : list ToolCallRecord :=
  match es with
  | [] => []
  | RTool record :: es' => with_call_index n record :: numbered_calls (n + 1) es'
  | RProvider _ _ _ :: es' => numbered_calls n es'
  end.

(** Durations and iterations that fit SQLite's integers. *)
Definition call_fits (c : ToolCallRecord) : Prop :=
  Z.of_N (tc_duration_ms c) ≤ i64_max_z ∧ Z.of_nat (tc_iteration c) ≤ i64_max_z ∧
  Z.of_nat (tc_call_index c) ≤ i64_max_z.

Lemma usize_small n : Z.of_N n ≤ i64_max_z → usize_to_i64 n = Z.of_N n.
Proof. intros H. unfold usize_to_i64. destruct (Z.leb_spec (Z.of_N n) i64_max_z); lia. Qed.

Lemma usize_back n : Z.of_N n ≤ i64_max_z → i64_to_usize (usize_to_i64 n) = n.
Proof. intros H. unfold i64_to_usize. rewrite usize_small by done. lia. Qed.

Lemma call_reads_back id c : call_fits c → trajectory_tool_call_from_row (call_row id c) = c.
Proof.
  intros (H1 & H2 & H3). destruct c. unfold trajectory_tool_call_from_row, call_row. cbn in *.
  rewrite !usize_back by lia. by rewrite !Nat2N.id.
Qed.

(** The run [id] is open, with exactly the calls [calls]. *)
Record recording (id session_id channel user_id model : string) (calls : list ToolCallRecord)
    (s : TrajDb) : Prop := {
  rg_inv : traj_inv s;
  rg_row : ∃ r, r ∈ trajectories s ∧ tr_id r = id ∧ tr_session_id r = session_id ∧
             tr_channel r = channel ∧ tr_user_id r = Some user_id ∧ tr_model r = model;
  rg_calls : List.filter (is_call_of id) (tool_calls s) = call_row id <$> calls
}.

Definition indexed (calls : list ToolCallRecord) : Prop :=
  ∀ i c, calls !! i = Some c → tc_call_index c = i.

Lemma indexed_snoc calls c : indexed calls → indexed (calls ++ [with_call_index (length calls) c]).
Proof.
  intros H i x. rewrite lookup_app. destruct (calls !! i) as [y|] eqn:E.
  - intros [= <-]. by apply H.
  - apply lookup_ge_None in E. destruct (i - length calls)%nat eqn:Ei; [|done]. intros [= <-]. cbn. lia.
Qed.

Lemma no_such_call id calls n s :
  List.filter (is_call_of id) (tool_calls s) = call_row id <$> calls → indexed calls → Forall call_fits calls →
  n = length calls → Z.of_nat n ≤ i64_max_z →
  existsb (same_tool_call id (usize_to_i64 (N.of_nat n))) (tool_calls s) = false.
Proof.
  intros Hf Hi Hc -> Hn. apply not_true_iff_false. rewrite existsb_exists.
  intros (r & Hr & [Hid Hk%Z.eqb_eq]%andb_true_iff).
  assert (Hin : r ∈ call_row id <$> calls).
  { rewrite <- Hf. apply list_elem_of_In, List.filter_In. done. }
  apply list_elem_of_fmap in Hin as (c & -> & Hin). rewrite Forall_forall in Hc.
  destruct (Hc c Hin) as (_ & _ & Hfit). apply list_elem_of_lookup in Hin as [i Hl].
  pose proof (Hi _ _ Hl) as Ei. apply lookup_lt_Some in Hl. cbn in Hk. rewrite !usize_small in Hk by lia. lia.
Qed.

(** ** One event *)

(** The run is the open one, with logging on. *)
Definition follows (id model : string) (n : nat) (run : TrajectoryRun) : Prop :=
  rn_logger run = Some {| lg_enabled := true |} ∧ rn_id run = id ∧ rn_started run = true ∧
  rn_finished run = false ∧ rn_tool_calls run = n ∧ rn_model run = model.

Lemma filter_snoc {Row} (p : Row → bool) l r :
  List.filter p (l ++ [r]) = List.filter p l ++ (if p r then [r] else []).
Proof. rewrite List.filter_app. cbn. by destruct (p r). Qed.

Lemma wp_insert_call id session channel user model calls c s :
  recording id session channel user model calls s → indexed calls → Forall call_fits calls →
  tc_call_index c = length calls → Z.of_nat (length calls) ≤ i64_max_z →
  wp (insert_trajectory_tool_call id c)
     (λ r s', r = Ok tt ∧ recording id session channel user model (calls ++ [c]) s') s.
Proof.
  intros [Hinv (row & Hrow & Hid & Hrest) Hf] Hi Hc Hk Hn. unfold insert_trajectory_tool_call.
  assert (Hrun : existsb (is_trajectory id) (trajectories s) = true).
  { apply run_exists. rewrite <- Hid. by apply list_elem_of_fmap_2. }
  do 3 wp_step. wp_step; [|congruence]. wp_step.
  - split; [done|]. split.
    + apply call_inserted; [done|by apply run_exists|done].
    + by exists row.
    + cbn. rewrite filter_snoc, Hf, fmap_app. unfold is_call_of at 1. cbn. by rewrite String.eqb_refl.
  - match goal with H : existsb _ _ = true |- _ => rewrite Hk in H; cbn [tget mcp_trajectory_tool_calls] in H;
      by rewrite (no_such_call id calls) in H end.
Qed.

(** The run tables are as before. *)
Definition same_traj : relation HarnessDb := λ h h', hd_traj h' = hd_traj h.

#[local] Instance same_traj_preorder : PreOrder same_traj.
Proof. split; [done|]. intros h1 h2 h3. unfold same_traj. congruence. Qed.

Lemma loop_same_traj {A} (m : M Db A) : stable same_traj (on_loop m).
Proof. apply stable_zoom with (R := λ _ _, True); [done|]. by intros w. Qed.

#[local] Hint Resolve loop_same_traj : stab.

Lemma wp_run_step id session channel user model calls e a h :
  recording id session channel user model calls (hd_traj h) → indexed calls → Forall call_fits calls →
  Z.of_nat (length calls) ≤ i64_max_z → follows id model (length calls) (ag_trajectory a) → ag_finished a = false →
  wp (run_step e a) (λ r h', ∃ a', r = Ok a' ∧
      recording id session channel user model (calls ++ numbered_calls (length calls) [e]) (hd_traj h') ∧
      follows id model (length (calls ++ numbered_calls (length calls) [e])) (ag_trajectory a') ∧
      ag_finished a' = false) h.
Proof.
  intros Hr Hi Hc Hn (E1 & E2 & E3 & E4 & E5 & E6) Ha.
  destruct e as [record|messages json response]; cbn [run_step numbered_calls].
  - unfold record_tool_call, log_tool_call. cbv zeta.
    cbn [count_tool_call observe_iteration rn_started rn_logger rn_id rn_tool_calls]. rewrite E1, E2, E3, E5.
    do 3 wp_step. apply wp_ignore_error. unfold logger_log_tool_call. cbn [lg_enabled negb].
    apply wp_zoom. eapply wp_mono; [apply (wp_insert_call id session channel user model calls); done|].
    cbv beta. intros r s' [-> Hr']. do 3 wp_step. eexists. split; [done|]. rewrite length_app. cbn. split_and!; try done.
    split_and!; cbn; try done; lia.
  - unfold record_provider_call, log_provider_call. rewrite E1, E3. cbn [negb]. do 2 wp_step.
    apply wp_ignore_error. unfold logger_log_provider_frame, record_provider_frame. cbn [lg_enabled negb].
    eapply wp_mono; [apply (wp_of_stable same_traj); stable_go|]. cbv beta. intros _ h' E. do 2 wp_step.
    eexists. split; [done|]. rewrite app_nil_r, E. by split_and!.
Qed.

(** ** The whole session *)

Definition event_fits (e : run_event) : Prop :=
  match e with
  | RTool record => Z.of_N (tc_duration_ms record) ≤ i64_max_z ∧ Z.of_nat (tc_iteration record) ≤ i64_max_z
  | RProvider _ _ _ => True
  end.

Lemma numbered_length n es : (length (numbered_calls n es) ≤ length es)%nat.
Proof. revert n. induction es as [|[] es IH]; intros n; cbn; [done|apply le_n_S, IH|apply Nat.le_le_succ_r, IH]. Qed.

Lemma numbered_cons n e es :
  numbered_calls n (e :: es) = numbered_calls n [e] ++ numbered_calls (n + length (numbered_calls n [e])) es.
Proof. destruct e; cbn; [done|by rewrite Nat.add_0_r]. Qed.

Lemma indexed_step calls e :
  indexed calls → Forall call_fits calls → event_fits e → Z.of_nat (length calls) < i64_max_z →
  indexed (calls ++ numbered_calls (length calls) [e]) ∧
  Forall call_fits (calls ++ numbered_calls (length calls) [e]).
Proof.
  intros Hi Hc He Hn. destruct e as [record|]; cbn; [|by rewrite app_nil_r].
  split; [by apply indexed_snoc|]. apply Forall_app. split; [done|]. constructor; [|done].
  destruct He. split_and!; cbn; lia.
Qed.

Lemma wp_run_events id session channel user model es calls a h :
  recording id session channel user model calls (hd_traj h) → indexed calls → Forall call_fits calls →
  Forall event_fits es → Z.of_nat (length calls + length es) ≤ i64_max_z →
  follows id model (length calls) (ag_trajectory a) → ag_finished a = false →
  wp (agent_events es a) (λ r h', ∃ a', r = Ok a' ∧
      let all := calls ++ numbered_calls (length calls) es in
      recording id session channel user model all (hd_traj h') ∧ indexed all ∧ Forall call_fits all ∧
      follows id model (length all) (ag_trajectory a') ∧ ag_finished a' = false) h.
Proof.
  intros Hr Hi Hc He. revert calls a h Hr Hi Hc. induction He as [|e es He _ IH];
    intros calls a h Hr Hi Hc Hn Hf Ha; cbn [agent_events length].
  - wp_step. exists a. cbn. by rewrite app_nil_r.
  - cbn in Hn. wp_step. eapply wp_mono; [apply (wp_run_step id session channel user model calls); try done; lia|].
    cbv beta. intros r h' (a' & -> & Hr' & Hf' & Ha').
    destruct (indexed_step calls e) as [Hi' Hc']; [done..|lia|].
    eapply wp_mono; [apply IH; try done|].
    + rewrite length_app. pose proof (numbered_length (length calls) [e]) as Hl. cbn [length] in Hl. lia.
    + cbv zeta beta. intros r' h'' (a'' & -> & H). exists a''. split; [done|].
      rewrite (numbered_cons (length calls)), app_assoc, <- length_app. exact H.
Qed.

(** ** The end of a run *)

(** The runs and their calls are as before. *)
Definition same_traj_rows : relation TrajDb := λ s s', trajectories s' = trajectories s ∧ tool_calls s' = tool_calls s.

#[local] Instance same_traj_rows_preorder : PreOrder same_traj_rows.
Proof. split; [done|]. intros s1 s2 s3 [] []. split; congruence. Qed.

Lemma card_same_traj_rows c : stable same_traj_rows (upsert_run_scorecard c).
Proof. unfold upsert_run_scorecard. stable_go. apply stable_sql_upsert; [apply _|]. intros s _. done. Qed.

#[local] Hint Resolve card_same_traj_rows : stab.
#[local] Hint Extern 1 (stable _ (get_trajectory _)) => apply stable_get_trajectory; typeclasses eauto : stab.

Lemma get_card_same_traj_rows id : stable same_traj_rows (get_run_scorecard id).
Proof. unfold get_run_scorecard, finished_or_now. cbv zeta. stable_go. Qed.

#[local] Hint Resolve get_card_same_traj_rows : stab.

Definition same_run_rows : relation HarnessDb := λ h h', same_traj_rows (hd_traj h) (hd_traj h').

#[local] Instance same_run_rows_preorder : PreOrder same_run_rows.
Proof. split; [by intros h|]. intros h1 h2 h3 H1 H2. unfold same_run_rows in *. by etrans. Qed.

Lemma stable_traj_rows {A} (m : M TrajDb A) : stable same_traj_rows m → stable same_run_rows (on_traj m).
Proof. intros H. by apply stable_zoom with (R := same_traj_rows). Qed.

Lemma loop_same_rows {A} (m : M Db A) : stable same_run_rows (on_loop m).
Proof. apply stable_zoom with (R := λ _ _, True); [done|]. by intros w. Qed.

#[local] Hint Resolve stable_traj_rows loop_same_rows : stab.

(** What a finished run is read back as. *)
Definition recorded_as (id session_id channel user_id model : string) (calls : list ToolCallRecord)
    (answer : option string) (reason : TrajectoryExitReason) (record : TrajectoryRecord) : Prop :=
  tj_id record = id ∧ tj_session_id record = session_id ∧ tj_channel record = channel ∧
  tj_user_id record = user_id ∧ tj_model record = model ∧ tj_tool_calls record = calls ∧
  tj_final_answer record = answer ∧ tj_exit_reason record = reason.

(** The run [id] is closed, with the calls [calls]. *)
Record closed (id session_id channel user_id model : string) (calls : list ToolCallRecord)
    (answer : option string) (reason : TrajectoryExitReason) (s : TrajDb) : Prop := {
  cl_rows : NoDup (run_ids s);
  cl_row : ∃ r, r ∈ trajectories s ∧ tr_id r = id ∧ tr_session_id r = session_id ∧
             tr_channel r = channel ∧ tr_user_id r = Some user_id ∧ tr_model r = model ∧
             tr_final_answer r = answer ∧ tr_exit_reason r = reason ∧ is_Some (tr_finished_at r);
  cl_calls : List.filter (is_call_of id) (tool_calls s) = call_row id <$> calls
}.

Lemma closed_same_rows id session channel user model calls answer reason s s' :
  same_traj_rows s s' → closed id session channel user model calls answer reason s →
  closed id session channel user model calls answer reason s'.
Proof. intros [E1 E2] [H1 H2 H3]. split; unfold run_ids in *; by rewrite ?E1, ?E2. Qed.

Lemma wp_close id session channel user model calls answer reason s :
  recording id session channel user model calls s →
  wp (finish_trajectory id answer reason)
     (λ _ s', closed id session channel user model calls answer reason s') s.
Proof.
  intros [Hinv (row & Hrow & Hid & H1 & H2 & H3 & H4) Hf]. unfold finish_trajectory.
  do 2 wp_step. do 2 wp_step. eapply wp_mono; [apply (wp_of_stable same_traj_rows); stable_go|].
  cbv beta. intros _ s' Hs. eapply closed_same_rows; [exact Hs|].
  split; unfold run_ids; cbn [tget tset mcp_trajectories trajectories tool_calls].
  - rewrite fmap_update_where; [|done]. by destruct Hinv.
  - exists (close_trajectory t answer reason row). split; [|by split_and!].
    apply elem_update_where. exists row. unfold is_trajectory. by rewrite Hid, String.eqb_refl.
  - done.
Qed.

Lemma in_order_sorted l : (∀ i j x y, l !! i = Some x → l !! j = Some y → (i < j)%nat → call_order x y = true) →
  order_by call_order l = l.
Proof.
  induction l as [|x l IH]; intros H; cbn; [done|]. rewrite IH.
  - destruct l as [|y l]; cbn [insert_by]; [done|]. by rewrite (H 0%nat 1%nat x y) by (done || lia).
  - intros i j a b Ha Hb Hij. apply (H (S i) (S j)); [done..|lia].
Qed.

Lemma closed_calls id calls s :
  List.filter (is_call_of id) (tool_calls s) = call_row id <$> calls → indexed calls → Forall call_fits calls →
  calls_of id s = calls.
Proof.
  intros Hf Hi Hc. unfold calls_of. rewrite Hf, in_order_sorted.
  - rewrite <- list_fmap_compose. rewrite <- (list_fmap_id calls) at 2. apply list_fmap_ext.
    intros i c Hl. cbn. apply call_reads_back. rewrite Forall_forall in Hc. by eapply Hc, list_elem_of_lookup_2.
  - intros i j x y (cx & -> & Hx)%list_lookup_fmap_Some (cy & -> & Hy)%list_lookup_fmap_Some Hij.
    pose proof (Hi _ _ Hx) as Ex. pose proof (Hi _ _ Hy) as Ey. rewrite Forall_forall in Hc.
    destruct (Hc cx (list_elem_of_lookup_2 _ _ _ Hx)) as (_ & _ & F1).
    destruct (Hc cy (list_elem_of_lookup_2 _ _ _ Hy)) as (_ & _ & F2).
    unfold call_order, call_row. cbn [tl_call_index]. rewrite !usize_small by lia. rewrite !nat_N_Z. lia.
Qed.

Lemma wp_read_closed id session channel user model calls answer reason s :
  closed id session channel user model calls answer reason s → indexed calls → Forall call_fits calls →
  wp (get_trajectory id) (λ r s', s' = s ∧ ∃ record, r = Ok (Some record) ∧
      recorded_as id session channel user model calls answer reason record) s.
Proof.
  intros [Hn (row & Hrow & <- & H1 & H2 & H3 & H4 & H5 & H6 & _) Hf] Hi Hc.
  unfold get_trajectory, load_trajectory_tool_calls. do 2 wp_step. cbn [tget mcp_trajectories].
  rewrite find_unique_run by done. do 4 wp_step. cbn [tget mcp_trajectory_tool_calls]. wp_step.
  assert (Hs : wp (started_of (tr_started_at row)) (λ r s', s' = s ∧ ∃ t, r = Ok t) s).
  { unfold started_of. destruct (from_timestamp _); [wp_step; by eauto|]. intros w <-. cbn. by eauto. }
  eapply wp_mono; [exact Hs|]. cbv beta. intros r s' [-> [t ->]]. wp_step. split; [done|].
  eexists. split; [done|]. fold (calls_of (tr_id row) s). rewrite (closed_calls _ calls) by done.
  split_and!; try done. cbn. by rewrite H3.
Qed.

(** A whole run: started, followed through its events, and finished. *)
Definition run_session (session_id channel user_id model : string) (es : list run_event) (exit : AgentRunExit)
    : M HarnessDb AgentRun :=
  a ← start_agent_run (Some {| lg_enabled := true |}) session_id channel user_id model;
  a ← agent_events es a;
  finish_agent_run exit a.

Lemma wp_start session channel user model h :
  traj_inv (hd_traj h) →
  wp (start_agent_run (Some {| lg_enabled := true |}) session channel user model)
     (λ r h', ∃ a, r = Ok a ∧ ag_finished a = false ∧
        (rn_started (ag_trajectory a) = true ∧ follows (rn_id (ag_trajectory a)) model 0 (ag_trajectory a) ∧
         recording (rn_id (ag_trajectory a)) session channel user model [] (hd_traj h') ∨
         rn_started (ag_trajectory a) = false ∧ rn_finished (ag_trajectory a) = false ∧
         hd_traj h' = hd_traj h ∧ rn_id (ag_trajectory a) ∈ run_ids (hd_traj h))) h.
Proof.
  intros Hi. unfold start_agent_run, start_run.
  assert (Hid : wp new_trajectory_id (λ r h', h' = h ∧ ∃ id, r = Ok id) h).
  { intros w <-. unfold new_trajectory_id. cbn. by eauto. }
  do 2 wp_step. eapply wp_mono; [exact Hid|]. cbv beta. intros r h' [-> [id ->]].
  do 2 wp_step. wp_step. unfold logger_start_trajectory. cbn [lg_enabled negb].
  apply wp_zoom. unfold start_trajectory. do 2 wp_step. wp_step; cbn [tget mcp_trajectories] in *.
  - do 3 wp_step. eexists. split; [done|]. split; [done|]. left. split; [done|]. split; [by split_and!|]. cbn.
    split.
    + apply traj_inv_runs; [done|..]; cbn [tget mcp_trajectories].
      * apply nodup_key_snoc; [by destruct Hi|]. intros Hin. cbn in Hin. apply run_exists in Hin. congruence.
      * intros x Hx. rewrite fmap_app. apply elem_of_app. by left.
    + eexists. split; [apply elem_of_app; right; by left|]. by split_and!.
    + cbn. destruct (List.filter _ _) as [|c l] eqn:E; [done|]. exfalso.
      assert (Hc : c ∈ List.filter (is_call_of id) (tool_calls (hd_traj h))) by (rewrite E; by left).
      apply list_elem_of_In, List.filter_In in Hc as [Hc Hk%String.eqb_eq].
      destruct Hi as [_ _ _ H4 _]. rewrite Forall_forall in H4. apply list_elem_of_In in Hc.
      specialize (H4 c Hc). rewrite Hk in H4. apply run_exists in H4. congruence.
  - do 3 wp_step. eexists. split; [done|]. split; [done|]. right. split_and!; try done. cbn. by apply run_exists.
Qed.

Lemma wp_finish exit id session channel user model calls a h :
  recording id session channel user model calls (hd_traj h) → follows id model (length calls) (ag_trajectory a) →
  ag_finished a = false →
  wp (finish_agent_run exit a) (λ r h', ∃ a', r = Ok a' ∧ rn_id (ag_trajectory a') = id ∧
      rn_started (ag_trajectory a') = true ∧
      closed id session channel user model calls (exit_parts exit).1 (exit_parts exit).2 (hd_traj h')) h.
Proof.
  intros Hr (E1 & E2 & E3 & E4 & E5 & E6) Ha. unfold finish_agent_run. rewrite Ha.
  destruct (exit_parts exit) as [answer reason]. unfold finish_run. rewrite E4. cbv zeta. cbn [rn_started rn_logger set_finished rn_id].
  rewrite E1, E2, E3. do 2 wp_step. apply wp_ignore_error. unfold logger_finish_trajectory. cbn [lg_enabled negb].
  unfold harness_finish_trajectory. wp_step. apply wp_zoom.
  eapply wp_mono; [by apply (wp_close id session channel user model calls)|]. cbv beta. intros r s' Hcl.
  assert (Hend : ∀ h' (r' : res unit), closed id session channel user model calls answer reason (hd_traj h') →
    wp (mret (set_finished (ag_trajectory a)))
      (λ r h'', match r with
                | Ok run => wp (mret {| ag_trajectory := run; ag_finished := true |})
                    (λ r h', ∃ a', r = Ok a' ∧ rn_id (ag_trajectory a') = id ∧ rn_started (ag_trajectory a') = true ∧
                       closed id session channel user model calls answer reason (hd_traj h')) h''
                | Err e => ∃ a', Err e = Ok a' ∧ rn_id (ag_trajectory a') = id ∧ rn_started (ag_trajectory a') = true ∧
                       closed id session channel user model calls answer reason (hd_traj h'') end) h').
  { intros h' _ Hc. do 2 wp_step. by eexists. }
  destruct r as [[]|e]; [|by apply (Hend _ (Err e))].
  eapply wp_mono; [apply (wp_of_stable same_run_rows)|].
  - stable_go; try (apply stable_traj_rows; stable_go).
  - cbv beta. intros r' h' Hrows. apply (Hend _ r'). eapply closed_same_rows; [exact Hrows|exact Hcl].
Qed.

(** A run that did not start follows its events without recording anything. *)
Lemma wp_unstarted_events es a h :
  rn_started (ag_trajectory a) = false → rn_finished (ag_trajectory a) = false → ag_finished a = false →
  wp (agent_events es a) (λ r h', ∃ a', r = Ok a' ∧ ag_finished a' = false ∧ rn_started (ag_trajectory a') = false ∧
      rn_finished (ag_trajectory a') = false ∧ rn_id (ag_trajectory a') = rn_id (ag_trajectory a) ∧ h' = h) h.
Proof.
  revert a. induction es as [|e es IH]; intros a Hs Hf Ha; cbn [agent_events]; [wp_step; by exists a|].
  assert (Hstep : wp (run_step e a) (λ r h', ∃ a', r = Ok a' ∧ ag_finished a' = false ∧
    rn_started (ag_trajectory a') = false ∧ rn_finished (ag_trajectory a') = false ∧
    rn_id (ag_trajectory a') = rn_id (ag_trajectory a) ∧ h' = h) h).
  { destruct e as [record|messages json response]; cbn [run_step].
    - unfold record_tool_call, log_tool_call. cbv zeta. cbn [count_tool_call observe_iteration rn_started]. rewrite Hs.
      do 4 wp_step. wp_step. do 2 wp_step. by eexists.
    - unfold record_provider_call, log_provider_call. rewrite Hs. cbn [negb]. wp_step.
      destruct (rn_logger _); do 2 wp_step; by eexists. }
  wp_step. eapply wp_mono; [exact Hstep|]. cbv beta. intros r h' (a' & -> & Ha' & Hs' & Hf' & Hid & ->).
  eapply wp_mono; [by apply IH|]. cbv beta. intros r h' (a'' & -> & H1 & H2 & H3 & H4 & ->).
  exists a''. split_and!; try done. congruence.
Qed.

Lemma wp_unstarted_end exit a h :
  rn_started (ag_trajectory a) = false → ag_finished a = false → rn_finished (ag_trajectory a) = false →
  wp (finish_agent_run exit a) (λ r h', ∃ a', r = Ok a' ∧ rn_started (ag_trajectory a') = false ∧
      rn_id (ag_trajectory a') = rn_id (ag_trajectory a) ∧ h' = h) h.
Proof.
  intros Hs Ha Hf. unfold finish_agent_run. rewrite Ha. destruct (exit_parts exit) as [answer reason].
  unfold finish_run. rewrite Hf. cbv zeta. cbn [rn_started set_finished]. rewrite Hs. do 2 wp_step. wp_step.
  do 2 wp_step. by eexists.
Qed.

(** Reading never fails and never writes. *)
Lemma wp_get_total id s : wp (get_trajectory id) (λ r s', s' = s ∧ ∃ o, r = Ok o) s.
Proof.
  unfold get_trajectory, load_trajectory_tool_calls. do 2 wp_step. destruct (List.find _ _) as [row|].
  - do 4 wp_step. wp_step.
    assert (Hs : wp (started_of (tr_started_at row)) (λ r s', s' = s ∧ ∃ t, r = Ok t) s).
    { unfold started_of. destruct (from_timestamp _); [wp_step; by eauto|]. intros w <-. cbn. by eauto. }
    eapply wp_mono; [exact Hs|]. cbv beta. intros r s' [-> [t ->]]. wp_step. by eauto.
  - wp_step. by eauto.
Qed.

(** A run is recorded as it happened: unless its id was taken - then nothing is recorded -
    reading it after any sequence of tool and provider calls and its end answers with its
    session, model, answer and exit reason and with every tool call in order, numbered from
    zero, however the recording of its provider calls fared. *)
Theorem run_is_recorded session channel user model es exit h :
  traj_reachable (hd_traj h) → Forall event_fits es → Z.of_nat (length es) ≤ i64_max_z →
  wp (a ← run_session session channel user model es exit;
      record ← on_traj (get_trajectory (rn_id (ag_trajectory a)));
      mret (ag_trajectory a, record))
     (λ r h', ∃ run record, r = Ok (run, record) ∧
        (rn_started run = true → ∃ recorded, record = Some recorded ∧
           recorded_as (rn_id run) session channel user model (numbered_calls 0 es)
             (exit_parts exit).1 (exit_parts exit).2 recorded) ∧
        (rn_started run = false → rn_id run ∈ run_ids (hd_traj h) ∧ hd_traj h' = hd_traj h)) h.
Proof.
  intros Hr He Hn. apply traj_reachable_inv in Hr. unfold run_session. wp_step. wp_step.
  eapply wp_mono; [by apply wp_start|]. cbv beta. intros r h0 (a & -> & Ha & [(Hs & Hf & Hrec)|(Hs & Hf & E & Hid)]).
  - wp_step. eapply wp_mono; [apply (wp_run_events (rn_id (ag_trajectory a)) session channel user model es []); try done|].
    cbv beta zeta. cbn [app length]. intros r h1 (a1 & -> & Hrec1 & Hi1 & Hc1 & Hf1 & Ha1).
    eapply wp_mono; [by eapply wp_finish|]. cbv beta. intros r h2 (a2 & -> & Hid2 & Hs2 & Hcl).
    wp_step. apply wp_zoom. rewrite Hid2.
    eapply wp_mono; [by eapply wp_read_closed|]. cbv beta. intros r s3 [-> (record & -> & Hrecord)].
    wp_step. do 2 eexists. split; [done|]. rewrite Hs2, Hid2. split; [|done]. intros _. by eexists.
  - wp_step. eapply wp_mono; [apply (wp_unstarted_events es a h0); done|].
    cbv beta. intros r h1 (a1 & -> & Ha1 & Hs1 & Hf1 & Hid1 & ->).
    eapply wp_mono; [by apply wp_unstarted_end|]. cbv beta. intros r h1 (a2 & -> & Hs2 & Hid2 & ->).
    wp_step. apply wp_zoom. eapply wp_mono; [apply wp_get_total|].
    cbv beta. intros r s' [-> [record ->]]. wp_step. do 2 eexists. split; [done|]. rewrite Hs2. split; [done|].
    intros _. rewrite Hid2, Hid1. split; [done|]. by destruct h0.
Qed.
End run_facts.
