(* ===== verification/ToolLoop.v ===== *)
(** * The tool loop of a turn

    src/harness/tool_protocol.rs, which reads tool calls out of replies and runs them, and
    src/service/completion: the loop that lets the provider call MCP tools, plain or
    streamed, with the one retry after a failed verification, and the completion without
    tools.  The provider, the MCP servers and the receiver of a stream are external; what
    the loop sends them is kept in its state. *)

From S2P Require Import Prelude Text Strings Messages External Verifier OutputExit Domain Tables Replay Handlers.
From S2P Require Import MemBase TrajStore EvoStore Harness RunLog.
From stdpp Require Import pretty.

(** ** Tool calls in replies *)

Inductive ToolVerificationMode : Type := VerifyObserve | VerifyRetry | VerifyBlock.

(** The JSON of a confidence, given in hundredths. *)
Class JsonConfidence `{JsonValue} : Type := json_confidence : nat → json.

Section protocol.
  Context `{JV : JsonValue} `{JP : !JsonParse} `{SJ : !Serialize json} `{TV : !ToValue VerificationResult}.
  Context `{JC : !JsonConfidence}.

Record ParsedToolCall : Type := {
  pc_server : string;
  pc_tool : string;
  pc_arguments : json
}.

Inductive ToolProposal : Type :=
| ProposeTool (call : ParsedToolCall)
| ProposeFinalAnswer
| ProposeParseError (verification : VerificationResult).

Definition split_tool_name (name : string) : option (string * string) :=
  match split_once "::" name with Some p => Some p | None => split_once "/" name end.

(** serde_json reads values of at most 128 levels. *)
Definition json_levels : nat := 128.

Fixpoint parse_tool_call_value (fuel : nat) (value : json) : option ParsedToolCall :=
  match fuel with
  | O => None
  | S fuel' =>
      match json_get value "tool_call" with
      | Some inner => parse_tool_call_value fuel' inner
      | None =>
          match json_get value "mcp_tool_call" with
          | Some inner => parse_tool_call_value fuel' inner
          | None =>
              match json_as_array value with
              | Some items => head items ≫= parse_tool_call_value fuel'
              | None =>
                  obj ← as_object value;
                  let arguments := default (json_object []) (json_get obj "arguments") in
                  match json_get obj "server" ≫= json_as_str, json_get obj "tool" ≫= json_as_str with
                  | Some server, Some tool =>
                      Some {| pc_server := server; pc_tool := tool; pc_arguments := arguments |}
                  | _, _ =>
                      name ← (json_get obj "name" ≫= json_as_str);
                      p ← split_tool_name name;
                      Some {| pc_server := p.1; pc_tool := p.2; pc_arguments := arguments |}
                  end
              end
          end
      end
  end.

Definition looks_like_attempted_mcp_tool_call (reply : string) : bool :=
  let lower := to_ascii_lowercase reply in
  contains "tool_call" lower || contains "mcp_tool_call" lower ||
  (contains "server" lower && contains "tool" lower) || (contains "arguments" lower && contains "tool" lower).

Definition verification_failure_result (code message : string) : VerificationResult :=
  failed_result [issue Error code message].

Definition payload (reply : string) : option string :=
  of_bytes <$> extract_json_payload (λ l, is_some (json_parse (of_bytes l))) (bytes (trim reply)).

Definition parse_tool_call_attempt (reply : string) : ToolProposal :=
  let attempted := looks_like_attempted_mcp_tool_call reply in
  match payload reply with
  | None =>
      if attempted then ProposeParseError
        (verification_failure_result "MALFORMED_TOOL_CALL_JSON" "Tool call JSON could not be extracted")
      else ProposeFinalAnswer
  | Some json_text =>
      match json_parse json_text with
      | None =>
          if attempted then ProposeParseError
            (verification_failure_result "MALFORMED_TOOL_CALL_JSON" "Tool call JSON is malformed")
          else ProposeFinalAnswer
      | Some value =>
          match parse_tool_call_value (S json_levels) value with
          | Some call => ProposeTool call
          | None =>
              if attempted then ProposeParseError
                (verification_failure_result "INVALID_TOOL_CALL_SHAPE"
                  "Tool call JSON is missing server/tool/arguments shape")
              else ProposeFinalAnswer
          end
      end
  end.

Definition is_tool (call : ParsedToolCall) (tool : McpToolInfo) : bool :=
  String.eqb (mt_server tool) (pc_server call) && String.eqb (mt_name tool) (pc_tool call).

(** [ToolProtocol::validate_call]: the failed verification, or nothing. *)
Definition validate_call (tools : list McpToolInfo) (call : ParsedToolCall) : option VerificationResult :=
  match List.find (is_tool call) tools with
  | None =>
      Some (verification_failure_result "UNKNOWN_TOOL"
        ("Requested MCP tool is not available: " +:+ pc_server call +:+ "::" +:+ pc_tool call))
  | Some tool =>
      let verification := verify_arguments tool (pc_arguments call) in
      if vr_passed verification then None else Some verification
  end.

Definition verification_result_json (verification : VerificationResult) : json :=
  match to_value verification with
  | Ok v => v
  | Err _ => json_object [("passed", json_bool (vr_passed verification));
                          ("confidence", json_confidence (vr_confidence verification)); ("issues", json_array [])]
  end.

Definition set_result (ok : bool) (result : json) (record : ToolCallRecord) : ToolCallRecord :=
  {| tc_call_index := tc_call_index record; tc_server := tc_server record; tc_tool := tc_tool record;
     tc_arguments := tc_arguments record; tc_result := result; tc_ok := ok;
     tc_duration_ms := tc_duration_ms record; tc_iteration := tc_iteration record |}.

Definition annotate_record_with_verification_failure (record : ToolCallRecord) (verification : VerificationResult)
    : ToolCallRecord :=
  set_result false
    (json_object [("verification_failed", json_bool true);
                  ("verification", verification_result_json verification); ("original_result", tc_result record)])
    record.

Definition verification_failure_record (call : ParsedToolCall) (verification : VerificationResult) (iteration : nat)
    : ToolCallRecord :=
  let unknown_tool := existsb (λ i, String.eqb (vi_code i) "UNKNOWN_TOOL") (vr_issues verification) in
  {| tc_call_index := 0; tc_server := if unknown_tool then "unknown" else pc_server call;
     tc_tool := if unknown_tool then "invalid" else pc_tool call; tc_arguments := pc_arguments call;
     tc_result := json_object
       ([("verification_failed", json_bool true); ("verification", verification_result_json verification)] ++
        (if unknown_tool then [("requested_server", json_string (pc_server call));
                               ("requested_tool", json_string (pc_tool call))] else []));
     tc_ok := false; tc_duration_ms := 0; tc_iteration := iteration |}.

(** [serde_json::to_string] with its replacement. *)
Definition json_text_or (replacement : string) (v : json) : string :=
  match to_vec v with Ok b => of_bytes b | Err _ => replacement end.

Definition verification_feedback_message (verification : VerificationResult) (mode : ToolVerificationMode)
    : StoredMessage :=
  {| role := System;
     content :=
       "MCP_TOOL_VERIFICATION_FAILED_JSON:" +:+ newline +:+
       json_text_or ("{" +:+ dquoted "passed" +:+ ":false," +:+ dquoted "issues" +:+ ":[]}")
         (verification_result_json verification) +:+ newline +:+ newline +:+
       match mode with
       | VerifyRetry => "The previous MCP tool call failed verification before its result was accepted. Retry once with corrected arguments or provide a final answer without using that failed result."
       | VerifyBlock => "The previous MCP tool call failed verification. Do not call more tools. Provide a safe final answer that explains the tool failure briefly and avoids relying on the failed result."
       | VerifyObserve => "The previous MCP tool call had verification issues. Continue normally."
       end |}.

Definition truncate_json_value (value : json) (max_chars : nat) : json :=
  let encoded := json_text_or "{}" value in
  if chars_count encoded <=? max_chars then value
  else json_object [("truncated", json_string (take_chars max_chars encoded +:+ "...(truncated)"))].
End protocol.

(** ** The world of a turn *)

(** The chat provider at a moment: a reply, or the deltas of a stream and how it ended. *)
Class TurnProvider : Type := {
  turn_complete : nat → list StoredMessage → res string;
  turn_stream : nat → list StoredMessage → list string * res string;
  turn_model : option string
}.

(** The MCP servers at a moment: [None] when the call's time is up. *)
Class ToolRuntime `{JsonValue} : Type := {
  tool_answer : nat → string → string → json → option (res json);
  tool_duration : nat → N
}.

(** Whether the receiver of a stream takes a delta at a moment. *)
Class StreamReceiver : Type := receives : nat → string → bool.

(** The stores, the requests made, the tool calls executed with what the server answered, the
    deltas shown. *)
Record TurnState `{ENV : LoopEnv} : Type := {
  tn_harness : HarnessDb;
  tn_asked : list (list StoredMessage);
  tn_called : list (ParsedToolCall * option (res json));
  tn_shown : list string
}.

Section turn.
  Context `{ENV : LoopEnv} `{DT : DateTimes} `{JP : !JsonParse} `{TV : !ToValue VerificationResult} `{JC : !JsonConfidence}.
  Context `{SLJ : Serialize (list json)} `{PV : TurnProvider} `{RT : !ToolRuntime} `{SR : StreamReceiver}.
  Context (result_text : OutputVerificationResult → option string).

Abbreviation DB := (M TurnState).

Definition put_turn_harness (h : HarnessDb) (s : TurnState) : TurnState :=
  {| tn_harness := h; tn_asked := tn_asked s; tn_called := tn_called s; tn_shown := tn_shown s |}.

Definition on_turn_harness {A} : M HarnessDb A → DB A := zoom tn_harness put_turn_harness.

Definition note_asked (messages : list StoredMessage) : DB unit :=
  s ← get_db;
  put_db {| tn_harness := tn_harness s; tn_asked := tn_asked s ++ [messages]; tn_called := tn_called s;
            tn_shown := tn_shown s |}.

Definition note_called (call : ParsedToolCall) (answer : option (res json)) : DB unit :=
  s ← get_db;
  put_db {| tn_harness := tn_harness s; tn_asked := tn_asked s; tn_called := tn_called s ++ [(call, answer)];
            tn_shown := tn_shown s |}.

(** [sink.on_delta]. *)
Definition show (delta : string) : DB unit :=
  n ← tick;
  if receives n delta then
    s ← get_db;
    put_db {| tn_harness := tn_harness s; tn_asked := tn_asked s; tn_called := tn_called s;
              tn_shown := tn_shown s ++ [delta] |}
  else throw "stream receiver failed".

(** *** Streams *)

Definition STREAM_REPLAY_CHUNK_CHARS : nat := 96.

(** [chunk_text_for_stream_replay]. *)
Fixpoint chunk_chars (fuel limit : nat) (text : string) : list string :=
  match fuel with
  | O => []
  | S fuel' =>
      match text with
      | EmptyString => []
      | _ =>
          let chunk := take_chars limit text in
          chunk :: chunk_chars fuel' limit
                     (String.substring (String.length chunk) (String.length text - String.length chunk) text)
      end
  end.

Definition chunk_text_for_stream_replay (text : string) (max_chars : nat) : list string :=
  chunk_chars (String.length text) (Nat.max max_chars 1) text.

(** [BufferedStreamSink::replay_text]. *)
Definition replay_text (text : string) : DB unit :=
  foreach (chunk_text_for_stream_replay text STREAM_REPLAY_CHUNK_CHARS) show.

(** [resolve_provider_stream_reply], with the deltas the sink kept. *)
Definition resolve_provider_stream_reply (deltas : list string) (provider_reply : string) : string :=
  let streamed := String.concat "" (List.filter (λ d, negb (String.eqb d "")) deltas) in
  if is_blank streamed then provider_reply else streamed.

(** *** Asking the provider *)

(** A run of the loop is plain or streamed. *)
Inductive completion_kind : Type := PlainCompletion | StreamedCompletion.

Definition provider_reply (kind : completion_kind) (n : nat) (messages : list StoredMessage) : res string :=
  match kind with
  | PlainCompletion => turn_complete n messages
  | StreamedCompletion =>
      let '(deltas, reply) := turn_stream n messages in
      match reply with Ok reply => Ok (resolve_provider_stream_reply deltas reply) | Err e => Err e end
  end.

(** [complete_provider_for_run] and [complete_buffered_provider_for_run]. *)
Definition complete_provider_for_run (kind : completion_kind) (run : AgentRun) (messages : list StoredMessage)
    : DB (AgentRun * string) :=
  n ← tick;
  note_asked messages ;;
  reply ← lift_res (provider_reply kind n messages);
  run ← on_turn_harness (record_provider_call messages false reply run);
  mret (run, reply).

(** What of the configuration a turn uses. *)
Record TurnSettings : Type := {
  ts_logger : option TrajectoryLogger;
  ts_max_iterations : nat;
  ts_max_tool_result_chars : nat;
  ts_call_timeout_secs : N;
  ts_tool_verifier : option ToolCallVerifier;
  ts_tool_verification_mode : ToolVerificationMode;
  ts_output_verifier : bool;
  ts_output_mode : OutputVerificationMode;
  ts_output_llm_enabled : bool;
  ts_output_max_prompt_chars : nat;
  ts_output_max_result_chars : nat
}.

(** The message being answered, as far as a run records it. *)
Record TurnSource : Type := {
  to_session_id : string;
  to_channel : string;
  to_user_id : string
}.

Context (settings : TurnSettings) (source : TurnSource).

(** The exit with the provider at a moment; a revision is a request too. *)
Definition output_exit (n : nat) : OutputExit :=
  {| oe_provider := turn_complete n; oe_verifier := ts_output_verifier settings; oe_mode := ts_output_mode settings;
     oe_llm_enabled := ts_output_llm_enabled settings; oe_max_prompt_chars := ts_output_max_prompt_chars settings;
     oe_max_result_chars := ts_output_max_result_chars settings |}.

Definition exit_request (history : list StoredMessage) (answer : string) (tool_calls : list ToolCallRecord)
    : OutputExitRequest :=
  {| oq_history := history; oq_channel := to_channel source; oq_final_answer := answer; oq_tool_calls := tool_calls;
     oq_required_format := None |}.

(** The request of a revision, when there is one. *)
Definition revision_asked (history : list StoredMessage) (answer : string) (tool_calls : list ToolCallRecord)
    : option (list StoredMessage) :=
  let req := exit_request history answer tool_calls in
  let verification := output_verify (verification_request req answer) in
  match ts_output_mode settings with
  | ReviseOnce =>
      if ts_output_verifier settings && negb (or_passed verification) && ts_output_llm_enabled settings
      then Some (revision_history result_text (output_exit 0) req verification) else None
  | _ => None
  end.

Definition verify_final_answer (history : list StoredMessage) (answer : string) (tool_calls : list ToolCallRecord)
    : DB string :=
  n ← tick;
  match revision_asked history answer tool_calls with Some messages => note_asked messages | None => mret tt end ;;
  result ← lift_res (finalize result_text (output_exit n) (exit_request history answer tool_calls));
  mret (ox_text result).

(** *** Running a tool *)

(** [ToolProtocol::execute_validated]: the record and the JSON for the history. *)
Definition execute_validated (call : ParsedToolCall) (iteration : nat) : DB (ToolCallRecord * json) :=
  n ← tick;
  let answer := tool_answer n (pc_server call) (pc_tool call) (pc_arguments call) in
  note_called call answer ;;
  let secs := N.max 1 (ts_call_timeout_secs settings) in
  let result := match answer with
                | Some r => r
                | None => Err ("mcp tool call timed out after " +:+ pretty secs +:+ "s: " +:+ pc_server call +:+ "::" +:+
                                 pc_tool call)
                end in
  let record ok result :=
    {| tc_call_index := 0; tc_server := pc_server call; tc_tool := pc_tool call; tc_arguments := pc_arguments call;
       tc_result := result; tc_ok := ok; tc_duration_ms := tool_duration n; tc_iteration := iteration |} in
  let message ok key value :=
    json_object [("server", json_string (pc_server call)); ("tool", json_string (pc_tool call)); ("ok", json_bool ok);
                 (key, value)] in
  mret match result with
       | Ok value =>
           let result := truncate_json_value value (ts_max_tool_result_chars settings) in
           (record true result, message true "result" result)
       | Err e => (record false (json_object [("error", json_string e)]), message false "error" (json_string e))
       end.

(** *** The loop *)

Section loop.
  Context (kind : completion_kind) (tools : list McpToolInfo).

(** How the loop ends, with the run as it was left. *)
Definition turn_end : Type := AgentRun * res string.

Definition finish_with (exit : AgentRunExit) (result : res string) (run : AgentRun) : DB turn_end :=
  run ← on_turn_harness (finish_agent_run exit run); mret (run, result).

(** The word for a completion in the errors. *)
Definition completion_word : string :=
  match kind with PlainCompletion => "provider completion failed"
             | StreamedCompletion => "provider stream completion failed" end.

(** A reply is verified, shown and the run is finished. *)
Definition deliver (exit : string → AgentRunExit) (after : string) (history : list StoredMessage) (reply : string)
    (tool_calls : list ToolCallRecord) (run : AgentRun) : DB turn_end :=
  verified ← catch (verify_final_answer history reply tool_calls);
  match verified with
  | Err _ => finish_with ExitInternalError (Err ("output verification failed" +:+ after)) run
  | Ok text =>
      shown ← match kind with
              | PlainCompletion => mret (Ok tt)
              | StreamedCompletion => catch (replay_text text)
              end;
      match shown with
      | Ok _ => finish_with (exit text) (Ok text) run
      | Err e => finish_with ExitInternalError (Err e) run
      end
  end.

(** A last request, without tools. *)
Definition last_request (exit : string → AgentRunExit) (after_ask after_verify : string) (history : list StoredMessage)
    (tool_calls : list ToolCallRecord) (run : AgentRun) : DB turn_end :=
  r ← catch (complete_provider_for_run kind run history);
  match r with
  | Err _ => finish_with ExitInternalError (Err (completion_word +:+ after_ask)) run
  | Ok (run, reply) => deliver exit after_verify history reply tool_calls run
  end.

Definition feedback (reply : string) (verification : VerificationResult) (mode : ToolVerificationMode)
    : list StoredMessage :=
  [{| role := Assistant; content := reply |}; verification_feedback_message verification mode].

Definition tool_result_messages (reply : string) (message_json : json) : list StoredMessage :=
  [{| role := Assistant; content := reply |};
   {| role := System;
      content := "MCP_TOOL_RESULT_JSON:" +:+ newline +:+
        json_text_or ("{" +:+ dquoted "ok" +:+ ":false}") message_json |}].

(** What follows a failed verification: one retry in the whole turn, then the end. *)
Definition blocked (after : string) (history : list StoredMessage) (reply : string)
    (verification : VerificationResult) (tool_calls : list ToolCallRecord) (run : AgentRun) : DB turn_end :=
  last_request ExitToolError after after (history ++ feedback reply verification VerifyBlock) tool_calls run.

Definition observe_run (iteration : nat) (run : AgentRun) : AgentRun :=
  {| ag_trajectory := observe_iteration iteration (ag_trajectory run); ag_finished := ag_finished run |}.

(** The turns of the loop from [iteration] on; [left] of them remain. *)
Fixpoint mcp_iterations (left iteration : nat) (retry_used : bool) (history : list StoredMessage)
    (tool_calls : list ToolCallRecord) (run : AgentRun) : DB turn_end :=
  match left with
  | O =>
      last_request ExitMaxIterations "" " after max iterations"
        (history ++ [{| role := System;
           content := "MCP tool loop reached max iterations. Give a final answer based on available context." |}])
        tool_calls run
  | S left' =>
      let retry reply verification := mcp_iterations left' (S iteration) true
            (history ++ feedback reply verification VerifyRetry) in
      r ← catch (complete_provider_for_run kind run history);
      match r with
      | Err _ => finish_with ExitInternalError (Err completion_word) run
      | Ok (run, reply) =>
          let run := observe_run iteration run in
          match parse_tool_call_attempt reply with
          | ProposeFinalAnswer => deliver ExitFinalAnswer "" history reply tool_calls run
          | ProposeParseError verification =>
              if retry_used then blocked " after mcp parse error" history reply verification tool_calls run
              else retry reply verification tool_calls run
          | ProposeTool call =>
              match validate_call tools call with
              | Some verification =>
                  '(run, record) ← on_turn_harness
                    (record_tool_call (verification_failure_record call verification iteration) run);
                  let tool_calls := tool_calls ++ [record] in
                  if retry_used then blocked " after mcp tool validation error" history reply verification tool_calls run
                  else retry reply verification tool_calls run
              | None =>
                  '(record, message_json) ← execute_validated call iteration;
                  let failed := match ts_tool_verifier settings with
                                | Some verify => let v := verify record in if vr_passed v then None else Some v
                                | None => None
                                end in
                  let record := match failed with
                                | Some v => annotate_record_with_verification_failure record v
                                | None => record
                                end in
                  '(run, record) ← on_turn_harness (record_tool_call record run);
                  let tool_calls := tool_calls ++ [record] in
                  let continue := mcp_iterations left' (S iteration) retry_used
                        (history ++ tool_result_messages reply message_json) tool_calls run in
                  match failed with
                  | None => continue
                  | Some verification =>
                      match ts_tool_verification_mode settings with
                      | VerifyObserve => continue
                      | VerifyRetry =>
                          if retry_used
                          then blocked " after tool verification block" history reply verification tool_calls run
                          else retry reply verification tool_calls run
                      | VerifyBlock => blocked " after tool verification block" history reply verification tool_calls run
                      end
                  end
              end
          end
      end
  end.

Definition tool_definition (t : McpToolInfo) : json :=
  json_object [("server", json_string (mt_server t)); ("tool", json_string (mt_name t));
               ("description", match mt_description t with Some d => json_string d | None => json_null end);
               ("input_schema", mt_input_schema t)].

Definition build_mcp_system_prompt : res string :=
  match to_vec (tool_definition <$> take 64 tools) with
  | Err _ => Err "failed to encode mcp tool list"
  | Ok serialized =>
      let example arguments :=
        "{" +:+ dquoted "server" +:+ ":" +:+ dquoted "<server>" +:+ "," +:+ dquoted "tool" +:+ ":" +:+ dquoted "<tool>" +:+
        "," +:+ dquoted "arguments" +:+ ":" +:+ arguments +:+ "}" in
      Ok ("You can use MCP tools." +:+ newline +:+
          "When a tool call is needed, reply with ONLY JSON (no markdown, no extra text): " +:+ example "{...}" +:+ "." +:+
          newline +:+
          "Time rule: when user asks about current time/date/year/today/now/weekday/zodiac, ALWAYS call {" +:+
          dquoted "server" +:+ ":" +:+ dquoted "xiaomaolv_builtin" +:+ "," +:+ dquoted "tool" +:+ ":" +:+
          dquoted "get_current_time" +:+ "," +:+ dquoted "arguments" +:+ ":{}} first (or pass timezone)." +:+ newline +:+
          "Available tools: " +:+ of_bytes serialized +:+ newline +:+
          "If no tool is needed, reply with the final answer directly.")
  end.

(** [complete_with_mcp_loop] and [complete_with_mcp_loop_stream], with the run. *)
Definition mcp_loop (history : list StoredMessage) : DB turn_end :=
  prompt ← lift_res build_mcp_system_prompt;
  run ← on_turn_harness (start_agent_run (ts_logger settings) (to_session_id source) (to_channel source)
          (to_user_id source) (default "unknown" turn_model));
  mcp_iterations (Nat.max 1 (ts_max_iterations settings)) 0 false
    (history ++ [{| role := System; content := prompt |}]) [] run.

Definition complete_with_mcp_loop (history : list StoredMessage) : DB string :=
  '(_, result) ← mcp_loop history; lift_res result.

(** *** Without tools *)

(** [complete_plain_provider]: the reply, not yet verified. *)
Definition complete_plain_provider (history : list StoredMessage) : DB string :=
  run ← on_turn_harness (start_agent_run (ts_logger settings) (to_session_id source) (to_channel source)
          (to_user_id source) (default "unknown" turn_model));
  r ← catch (complete_provider_for_run PlainCompletion run history);
  '(_, result) ← match r with
                 | Err _ => finish_with ExitInternalError (Err "provider completion failed") run
                 | Ok (run, reply) => finish_with (ExitFinalAnswer reply) (Ok reply) run
                 end;
  lift_res result.
End loop.

(** [complete_plain_provider_stream]: without output verification the deltas go straight to
    the receiver. *)
Definition complete_plain_provider_stream (history : list StoredMessage) : DB string :=
  run ← on_turn_harness (start_agent_run (ts_logger settings) (to_session_id source) (to_channel source)
          (to_user_id source) (default "unknown" turn_model));
  '(_, result) ← match ts_output_mode settings with
    | Off =>
        n ← tick;
        note_asked history ;;
        let '(deltas, reply) := turn_stream n history in
        r ← catch (foreach deltas show ;;
                   reply ← lift_res reply;
                   mret (resolve_provider_stream_reply deltas reply));
        match r with
        | Err _ => finish_with ExitInternalError (Err "provider stream completion failed") run
        | Ok reply =>
            run ← on_turn_harness (record_provider_call history false reply run);
            finish_with (ExitFinalAnswer reply) (Ok reply) run
        end
    | _ => last_request StreamedCompletion ExitFinalAnswer "" "" history [] run
    end;
  lift_res result.
End turn.
