(* ===== verification/CodeMode.v ===== *)
(** * Code mode

    src/code_mode.rs, src/harness/execution_environment.rs and
    src/service/completion/code_mode_path.rs: a planner proposes all tool calls of a turn
    at once, a policy admits them by the capabilities of the tools, an executor runs them in
    batches, here or in a child process, and the provider answers from the report.  A circuit
    takes code mode out of use after too many timeouts and tries it again now and then.
    The atomics of the service are a record that is read and written in one turn at a time. *)

From stdpp Require Import pretty.
From Stdlib Require Import Ascii SpecFloat.
From S2P Require Import Prelude Text Strings Messages External Verifier OutputExit Domain Handlers MemBase Floats.
From S2P Require Import TrajStore EvoDomain EvoStore Harness RunLog ToolLoop.

(** ** Settings *)

Inductive CodeModeExecutionMode : Type := Local | Subprocess.

Record AgentCodeModeSettings : Type := {
  cm_enabled : bool;
  cm_shadow_mode : bool;
  cm_max_calls : nat;
  cm_max_parallel : nat;
  cm_max_runtime_ms : Z;
  cm_max_call_timeout_ms : Z;
  cm_timeout_warn_ratio : f64;
  cm_timeout_auto_shadow_enabled : bool;
  cm_timeout_auto_shadow_probe_every : nat;
  cm_timeout_auto_shadow_streak : nat;
  cm_max_result_chars : nat;
  cm_execution_mode : CodeModeExecutionMode;
  cm_subprocess_timeout_secs : Z;
  cm_allow_network : bool;
  cm_allow_filesystem : bool;
  cm_allow_env : bool
}.

Definition default_code_mode_timeout_warn_ratio : f64 := f64_lit 4 10.

Definition default_code_mode : AgentCodeModeSettings :=
  {| cm_enabled := false; cm_shadow_mode := true; cm_max_calls := 6; cm_max_parallel := 2; cm_max_runtime_ms := 2500;
     cm_max_call_timeout_ms := 1200; cm_timeout_warn_ratio := default_code_mode_timeout_warn_ratio;
     cm_timeout_auto_shadow_enabled := false; cm_timeout_auto_shadow_probe_every := 5;
     cm_timeout_auto_shadow_streak := 3; cm_max_result_chars := N.to_nat 12000; cm_execution_mode := Local;
     cm_subprocess_timeout_secs := 8; cm_allow_network := false; cm_allow_filesystem := false; cm_allow_env := false |}.

Definition normalized_timeout_warn_ratio (s : AgentCodeModeSettings) : f64 :=
  if f64_is_finite (cm_timeout_warn_ratio s) then f64_clamp f64_zero (f64_of_Z 1) (cm_timeout_warn_ratio s)
  else default_code_mode_timeout_warn_ratio.

(** [AgentCodeModeSettings { execution_mode: Local, ..settings }]. *)
Definition local_settings (s : AgentCodeModeSettings) : AgentCodeModeSettings :=
  {| cm_enabled := cm_enabled s; cm_shadow_mode := cm_shadow_mode s; cm_max_calls := cm_max_calls s;
     cm_max_parallel := cm_max_parallel s; cm_max_runtime_ms := cm_max_runtime_ms s;
     cm_max_call_timeout_ms := cm_max_call_timeout_ms s; cm_timeout_warn_ratio := cm_timeout_warn_ratio s;
     cm_timeout_auto_shadow_enabled := cm_timeout_auto_shadow_enabled s;
     cm_timeout_auto_shadow_probe_every := cm_timeout_auto_shadow_probe_every s;
     cm_timeout_auto_shadow_streak := cm_timeout_auto_shadow_streak s; cm_max_result_chars := cm_max_result_chars s;
     cm_execution_mode := Local; cm_subprocess_timeout_secs := cm_subprocess_timeout_secs s;
     cm_allow_network := cm_allow_network s; cm_allow_filesystem := cm_allow_filesystem s; cm_allow_env := cm_allow_env s |}.

(** ** The timeout circuit *)

Record CodeModeAuditRecord : Type := {
  ka_planner : string;
  ka_used : bool;
  ka_fallback : bool;
  ka_reason : option string;
  ka_planned_calls : nat;
  ka_executed_calls : nat;
  ka_failed_calls : nat;
  ka_timed_out_calls : nat;
  ka_elapsed_ms : Z
}.

Definition audit_fallback (planner reason : string) : CodeModeAuditRecord :=
  {| ka_planner := planner; ka_used := false; ka_fallback := true; ka_reason := Some reason; ka_planned_calls := 0;
     ka_executed_calls := 0; ka_failed_calls := 0; ka_timed_out_calls := 0; ka_elapsed_ms := 0 |}.

(** [code_mode_timeout_alert_streak], [code_mode_timeout_circuit_open] and
    [code_mode_timeout_probe_counter]. *)
Record CodeModeCircuit : Type := { kt_streak : nat; kt_open : bool; kt_probes : nat }.

Definition closed_circuit : CodeModeCircuit := {| kt_streak := 0; kt_open := false; kt_probes := 0 |}.

Record CodeModeCounters : Type := {
  kn_attempts : nat;
  kn_used : nat;
  kn_fallback : nat;
  kn_timed_out_calls : nat;
  kn_failed_calls : nat;
  kn_probe_attempts : nat;
  kn_opened : nat;
  kn_closed : nat
}.

Definition zero_counters : CodeModeCounters :=
  {| kn_attempts := 0; kn_used := 0; kn_fallback := 0; kn_timed_out_calls := 0; kn_failed_calls := 0;
     kn_probe_attempts := 0; kn_opened := 0; kn_closed := 0 |}.

Inductive CodeModeAttempt : Type := NormalAttempt | ProbeAttempt.
Inductive CodeModeCircuitChange : Type := CircuitKept | CircuitOpened | CircuitClosed.

Definition code_mode_timeout_ratio (record : CodeModeAuditRecord) : option f64 :=
  if ka_executed_calls record =? 0 then None
  else Some (f64_div (f64_of_Z (Z.of_nat (ka_timed_out_calls record))) (f64_of_Z (Z.of_nat (ka_executed_calls record)))).

Definition should_warn_code_mode_timeouts (record : CodeModeAuditRecord) (timeout_warn_ratio : f64) : bool :=
  match code_mode_timeout_ratio record with
  | None => false
  | Some ratio => (0 <? ka_timed_out_calls record) && f64_le timeout_warn_ratio ratio
  end.

Definition next_code_mode_timeout_streak (current : nat) (record : CodeModeAuditRecord) (timeout_warn_ratio : f64) : nat :=
  if should_warn_code_mode_timeouts record timeout_warn_ratio then S current else 0.

Definition should_probe_code_mode_timeout_circuit (probe_count probe_every : nat) : bool :=
  probe_count mod Nat.max probe_every 1 =? 0.

Definition should_open_code_mode_timeout_circuit (timeout_streak : nat) (s : AgentCodeModeSettings) : bool :=
  if negb (cm_timeout_auto_shadow_enabled s) || cm_shadow_mode s then false
  else Nat.max (cm_timeout_auto_shadow_streak s) 1 <=? timeout_streak.

(** [next_code_mode_attempt], on the circuit. *)
Definition next_attempt (s : AgentCodeModeSettings) (c : CodeModeCircuit) : option CodeModeAttempt * CodeModeCircuit :=
  if negb (kt_open c) then (Some NormalAttempt, c)
  else
    let probe_count := S (kt_probes c) in
    (if should_probe_code_mode_timeout_circuit probe_count (cm_timeout_auto_shadow_probe_every s)
     then Some ProbeAttempt else None,
     {| kt_streak := kt_streak c; kt_open := kt_open c; kt_probes := probe_count |}).

(** [update_code_mode_timeout_circuit], on the circuit. *)
Definition update_circuit (s : AgentCodeModeSettings) (record : CodeModeAuditRecord) (c : CodeModeCircuit)
    : CodeModeCircuitChange * CodeModeCircuit :=
  if negb (cm_timeout_auto_shadow_enabled s) || cm_shadow_mode s then (CircuitKept, c)
  else
    let ratio := normalized_timeout_warn_ratio s in
    let next := next_code_mode_timeout_streak (kt_streak c) record ratio in
    if should_open_code_mode_timeout_circuit next s then
      (if kt_open c then CircuitKept else CircuitOpened,
       {| kt_streak := next; kt_open := true; kt_probes := kt_probes c |})
    else if kt_open c && negb (should_warn_code_mode_timeouts record ratio) then (CircuitClosed, closed_circuit)
    else (CircuitKept, {| kt_streak := next; kt_open := kt_open c; kt_probes := kt_probes c |}).

(** [record_code_mode_counters], on the counters. *)
Definition count_attempt (record : CodeModeAuditRecord) (force_shadow : bool) (change : CodeModeCircuitChange)
    (c : CodeModeCounters) : CodeModeCounters :=
  {| kn_attempts := S (kn_attempts c);
     kn_used := kn_used c + Nat.b2n (ka_used record);
     kn_fallback := kn_fallback c + Nat.b2n (ka_fallback record);
     kn_timed_out_calls := kn_timed_out_calls c + ka_timed_out_calls record;
     kn_failed_calls := kn_failed_calls c + ka_failed_calls record;
     kn_probe_attempts := kn_probe_attempts c + Nat.b2n force_shadow;
     kn_opened := kn_opened c + match change with CircuitOpened => 1 | _ => 0 end;
     kn_closed := kn_closed c + match change with CircuitClosed => 1 | _ => 0 end |}.

Section data.
  Context `{JV : JsonValue}.

Record CodeModeToolCall : Type := {
  kc_server : string;
  kc_tool : string;
  kc_arguments : json
}.

(** [CodeModePlan]: its calls. *)
Definition CodeModePlan : Type := list CodeModeToolCall.

Record CodeModeCallResult : Type := {
  kr_server : string;
  kr_tool : string;
  kr_ok : bool;
  kr_result : option json;
  kr_error : option string;
  kr_truncated : bool
}.

Record CodeModeExecutionReport : Type := {
  kp_calls : list CodeModeCallResult;
  kp_failed_calls : nat;
  kp_timed_out_calls : nat;
  kp_truncated_outputs : nat;
  kp_elapsed_ms : Z
}.

Record CodeModeAllowedTool : Type := {
  kl_server : string;
  kl_tool : string;
  kl_code_mode_capabilities : option McpToolCapabilities
}.

Record CodeModeSandboxRequest : Type := {
  kq_protocol_version : N;
  kq_auth_token : string;
  kq_plan : CodeModePlan;
  kq_allowed_tools : list CodeModeAllowedTool;
  kq_settings : AgentCodeModeSettings
}.

Record CodeModeSandboxResponse : Type := {
  ko_ok : bool;
  ko_report : option CodeModeExecutionReport;
  ko_error : option string
}.

(** What becomes of a child process started at a moment: it cannot be talked to, its time
    is up after it began so many calls, or it gets to its servers or not. *)
Inductive ChildFate : Type :=
| ChildUnreachable (e : string)
| ChildSlow (calls : nat)
| ChildRuns (servers : res unit).
End data.

(** The JSON of requests and responses. *)
Class SandboxJson `{JsonValue} : Type := {
  request_text : CodeModeSandboxRequest → res string;
  request_parse : string → res CodeModeSandboxRequest;
  response_text : CodeModeSandboxResponse → res string;
  response_parse : string → res CodeModeSandboxResponse
}.

(** The process and the children it starts. *)
Class CodeModeHost : Type := {
  process_identity : list ascii;
  child_fate : nat → ChildFate
}.

Section code_mode.
  Context `{ENV : LoopEnv} `{DT : DateTimes} `{JP : !JsonParse} `{TV : !ToValue VerificationResult} `{JC : !JsonConfidence}.
  Context `{SLJ : Serialize (list json)} `{PV : TurnProvider} `{RT : !ToolRuntime} `{SR : StreamReceiver}.
  Context `{SJ : !SandboxJson} `{CH : CodeModeHost} `{SER : !Serialize CodeModeExecutionReport}.
  Context (result_text : OutputVerificationResult → option string).

(** ** The plan in a reply *)

Definition fence : string := "```".

(** [extract_json_payload] of code_mode.rs. *)
Definition extract_fenced_payload (text : string) : string :=
  if starts_with text fence then
    let stripped := trim_start_matches fence text in
    let stripped := trim (default stripped (strip_prefix "json" stripped)) in
    trim (default stripped (strip_suffix fence stripped))
  else text.

Definition call_arguments (obj : json) : json := default (json_object []) (json_get obj "arguments").

Definition parse_call (item : json) : res CodeModeToolCall :=
  obj ← context_res "code mode call item must be object" (as_object item);
  server ← context_res "code mode call missing server" (json_get obj "server" ≫= json_as_str);
  tool ← context_res "code mode call missing tool" (json_get obj "tool" ≫= json_as_str);
  Ok {| kc_server := server; kc_tool := tool; kc_arguments := call_arguments obj |}.

Fixpoint parse_calls (items : list json) : res CodeModePlan :=
  match items with
  | [] => Ok []
  | item :: items' => call ← parse_call item; calls ← parse_calls items'; Ok (call :: calls)
  end.

(** [fuel] is more than the depth of a value serde_json reads. *)
Fixpoint parse_plan_from_value (fuel : nat) (value : json) : res CodeModePlan :=
  match fuel with
  | O => Err "recursion limit exceeded"
  | S fuel' =>
      match json_get value "code_mode_plan" with
      | Some inner => parse_plan_from_value fuel' inner
      | None =>
          match json_get value "plan" with
          | Some inner => parse_plan_from_value fuel' inner
          | None =>
              match json_as_array value with
              | Some items => parse_calls items
              | None =>
                  obj ← context_res "code mode planner JSON must be object or array" (as_object value);
                  match json_get obj "calls" ≫= json_as_array with
                  | Some calls => parse_calls calls
                  | None =>
                      match json_get obj "server" ≫= json_as_str, json_get obj "tool" ≫= json_as_str with
                      | Some server, Some tool =>
                          Ok [{| kc_server := server; kc_tool := tool; kc_arguments := call_arguments obj |}]
                      | _, _ => Err "code mode planner JSON missing 'calls' field"
                      end
                  end
              end
          end
      end
  end.

Definition parse_plan_from_reply (reply : string) : res CodeModePlan :=
  let payload := extract_fenced_payload (trim reply) in
  value ← context_res ("invalid code mode planner JSON: " +:+ payload) (json_parse payload);
  parse_plan_from_value (S json_levels) value.

(** ** The policy *)

Section policy.
  Context (s : AgentCodeModeSettings).

Definition validate_tool_capabilities (tool : McpToolInfo) : res unit :=
  let key := tool_label tool in
  capabilities ← context_res ("code mode tool capability metadata missing for " +:+ key) (mt_code_mode_capabilities tool);
  guard_res (negb (mc_network capabilities && negb (cm_allow_network s)))
    ("code mode tool " +:+ key +:+ " requires network access but allow_network=false") ;;
  guard_res (negb (mc_filesystem capabilities && negb (cm_allow_filesystem s)))
    ("code mode tool " +:+ key +:+ " requires filesystem access but allow_filesystem=false") ;;
  guard_res (negb (mc_env capabilities && negb (cm_allow_env s)))
    ("code mode tool " +:+ key +:+ " requires environment access but allow_env=false").

Definition allows_tool (tool : McpToolInfo) : bool := is_ok (validate_tool_capabilities tool).

Definition is_called (call : CodeModeToolCall) (tool : McpToolInfo) : bool :=
  String.eqb (mt_server tool) (kc_server call) && String.eqb (mt_name tool) (kc_tool call).

Definition call_label (call : CodeModeToolCall) : string := kc_server call +:+ "::" +:+ kc_tool call.

Definition validate_planned_call (tools : list McpToolInfo) (call : CodeModeToolCall) : res unit :=
  guard_res (negb (is_blank (kc_server call) || is_blank (kc_tool call))) "code mode plan contains empty server/tool name" ;;
  guard_res (is_some (as_object (kc_arguments call))) ("code mode arguments must be object for " +:+ call_label call) ;;
  tool ← context_res ("code mode plan references unavailable tool: " +:+ call_label call) (List.find (is_called call) tools);
  validate_tool_capabilities tool.

Fixpoint validate_calls (tools : list McpToolInfo) (plan : CodeModePlan) : res unit :=
  match plan with
  | [] => Ok tt
  | call :: plan' => validate_planned_call tools call ;; validate_calls tools plan'
  end.

(** [CodeModePolicy::validate_plan]. *)
Definition validate_plan (plan : CodeModePlan) (tools : list McpToolInfo) : res unit :=
  let max_calls := Nat.max (cm_max_calls s) 1 in
  guard_res (negb (cm_max_parallel s =? 0)) "code mode max_parallel must be >= 1" ;;
  guard_res (negb (length plan =? 0)) "code mode plan must include at least one tool call" ;;
  guard_res (length plan <=? max_calls)
    ("code mode plan exceeds max_calls: " +:+ pretty (length plan) +:+ " > " +:+ pretty max_calls) ;;
  validate_calls tools plan.

Definition max_parallel : nat := Nat.max (cm_max_parallel s) 1.

(** A [Duration] is its nanoseconds. *)
Definition from_millis (ms : Z) : Z := (ms * 1000000)%Z.

Definition total_budget : Z := from_millis (Z.max (cm_max_runtime_ms s) 1).

Definition per_call_timeout (elapsed : Z) : Z :=
  let configured := from_millis (Z.max (cm_max_call_timeout_ms s) 1) in
  let remaining := Z.max 0 (total_budget - elapsed) in
  Z.min configured (if (remaining =? 0)%Z then from_millis 1 else remaining).

(** [truncate_result]: the value, whether it is cut, and the characters used so far. *)
Definition truncate_result (value : json) (used_chars : nat) : json * bool * nat :=
  let encoded := json_text_or "{}" value in
  let total_chars := chars_count encoded in
  let max_chars := cm_max_result_chars s in
  if max_chars <=? used_chars
  then (json_object [("truncated", json_string "(code mode output budget exhausted)")], true, used_chars)
  else
    let remain := max_chars - used_chars in
    if total_chars <=? remain then (value, false, used_chars + total_chars)
    else (json_object [("truncated", json_string (take_chars remain encoded +:+ "...(truncated)"))], true, max_chars).

(** ** The report *)

(** What came of a call, and whether its time was up. *)
Definition CallOutcome : Type := CodeModeToolCall * res json * bool.

(** The entry of an outcome, and the characters used so far. *)
Definition call_result (o : CallOutcome) (used_chars : nat) : CodeModeCallResult * nat :=
  let '(call, result, _) := o in
  match result with
  | Ok value =>
      let '(result_value, truncated, used_chars) := truncate_result value used_chars in
      ({| kr_server := kc_server call; kr_tool := kc_tool call; kr_ok := true; kr_result := Some result_value;
          kr_error := None; kr_truncated := truncated |}, used_chars)
  | Err e =>
      ({| kr_server := kc_server call; kr_tool := kc_tool call; kr_ok := false; kr_result := None;
          kr_error := Some e; kr_truncated := false |}, used_chars)
  end.

Fixpoint call_results (used_chars : nat) (os : list CallOutcome) : list CodeModeCallResult :=
  match os with
  | [] => []
  | o :: os' => let '(r, used_chars) := call_result o used_chars in r :: call_results used_chars os'
  end.

Definition failed (o : CallOutcome) : bool := negb (is_ok o.1.2).
Definition timed_out (o : CallOutcome) : bool := failed o && o.2.

Definition report_of (os : list CallOutcome) (elapsed_ms : Z) : CodeModeExecutionReport :=
  let calls := call_results 0 os in
  {| kp_calls := calls; kp_failed_calls := length (List.filter failed os);
     kp_timed_out_calls := length (List.filter timed_out os);
     kp_truncated_outputs := length (List.filter kr_truncated calls); kp_elapsed_ms := elapsed_ms |}.
End policy.

(** ** Execution *)

(** The turn, and what the service keeps of code mode. *)
Record CodeModeState : Type := {
  ks_turn : TurnState;
  ks_circuit : CodeModeCircuit;
  ks_counters : CodeModeCounters
}.

Abbreviation DB := (M CodeModeState).

Definition on_code_turn {A} : M TurnState A → DB A :=
  zoom ks_turn (λ t s, {| ks_turn := t; ks_circuit := ks_circuit s; ks_counters := ks_counters s |}).

Definition put_circuit (c : CodeModeCircuit) : DB unit :=
  s ← get_db; put_db {| ks_turn := ks_turn s; ks_circuit := c; ks_counters := ks_counters s |}.

Definition record_code_mode_counters (record : CodeModeAuditRecord) (force_shadow : bool) (change : CodeModeCircuitChange)
    : DB unit :=
  s ← get_db;
  put_db {| ks_turn := ks_turn s; ks_circuit := ks_circuit s;
            ks_counters := count_attempt record force_shadow change (ks_counters s) |}.

Definition next_code_mode_attempt (settings : AgentCodeModeSettings) : DB (option CodeModeAttempt) :=
  s ← get_db;
  let '(attempt, c) := next_attempt settings (ks_circuit s) in
  put_circuit c ;; mret attempt.

Definition update_code_mode_timeout_circuit (settings : AgentCodeModeSettings) (record : CodeModeAuditRecord)
    : DB CodeModeCircuitChange :=
  s ← get_db;
  let '(change, c) := update_circuit settings record (ks_circuit s) in
  put_circuit c ;; mret change.

(** [Instant::elapsed]. *)
Definition elapsed_since (started : Z) : DB Z := now ← now_nanos; mret (Z.max 0 (now - started)).

Definition as_parsed (call : CodeModeToolCall) : ParsedToolCall :=
  {| pc_server := kc_server call; pc_tool := kc_tool call; pc_arguments := kc_arguments call |}.

Section execution.
  Context (s : AgentCodeModeSettings).

Definition run_call (timeout : Z) (call : CodeModeToolCall) : DB CallOutcome :=
  n ← tick;
  let answer := tool_answer n (kc_server call) (kc_tool call) (kc_arguments call) in
  on_code_turn (note_called (as_parsed call) answer) ;;
  mret match answer with
       | Some result => (call, result, false)
       | None => (call, Err ("code mode tool call timeout after " +:+ pretty (timeout / 1000000)%Z +:+ "ms: " +:+
                               call_label call), true)
       end.

(** The calls of a batch run at the same time; their outcomes are kept in the plan's order. *)
Fixpoint run_batch (timeout : Z) (calls : list CodeModeToolCall) : DB (list CallOutcome) :=
  match calls with
  | [] => mret []
  | call :: calls' => o ← run_call timeout call; os ← run_batch timeout calls'; mret (o :: os)
  end.

Definition ensure_runtime_within_budget (started : Z) : DB unit :=
  elapsed ← elapsed_since started;
  ensure (elapsed <=? total_budget s)%Z "code mode execution exceeded runtime budget".

(** The batches; each has a call, so the number of calls is [fuel] enough. *)
Fixpoint run_batches (fuel : nat) (started : Z) (calls : list CodeModeToolCall) : DB (list CallOutcome) :=
  match fuel, calls with
  | S fuel', _ :: _ =>
      ensure_runtime_within_budget started ;;
      elapsed ← elapsed_since started;
      os ← run_batch (per_call_timeout s elapsed) (take (max_parallel s) calls);
      rest ← run_batches fuel' started (drop (max_parallel s) calls);
      mret (os ++ rest)
  | _, _ => mret []
  end.

(** [CodeModeExecutor::execute]. *)
Definition execute_plan (plan : CodeModePlan) (tools : list McpToolInfo) : DB CodeModeExecutionReport :=
  lift_res (validate_plan s plan tools) ;;
  started ← now_nanos;
  collected ← run_batches (length plan) started plan;
  elapsed ← elapsed_since started;
  mret (report_of s collected (elapsed / 1000000)).

(** The same, stopped for good after it began so many calls. *)
Definition execute_plan_until (calls : nat) (plan : CodeModePlan) (tools : list McpToolInfo) : DB unit :=
  lift_res (validate_plan s plan tools) ;;
  started ← now_nanos;
  run_batches (length plan) started (take calls plan) ;; mret tt.
End execution.

(** *** In a child process *)

Definition CODE_MODE_PROTOCOL_VERSION : N := 1.
Definition CODE_MODE_SUBPROCESS_MAX_PAYLOAD_BYTES : nat := N.to_nat (512 * 1024).

(** [u128::to_le_bytes]. *)
Fixpoint le_bytes (width : nat) (n : N) : list ascii :=
  match width with
  | O => []
  | S width' => ascii_of_N (n `mod` 256) :: le_bytes width' (n / 256)%N
  end.

(** A clock before 1970 counts as 0. *)
Definition subprocess_auth_token (now : Z) : string :=
  sha256_hex (of_bytes (le_bytes 16 (Z.to_N now) ++ process_identity)).

Definition generate_subprocess_auth_token : DB string := now ← now_nanos; mret (subprocess_auth_token now).

Definition allowed_tools (s : AgentCodeModeSettings) (tools : list McpToolInfo) : list CodeModeAllowedTool :=
  (λ tool, {| kl_server := mt_server tool; kl_tool := mt_name tool;
              kl_code_mode_capabilities := mt_code_mode_capabilities tool |}) <$> List.filter (allows_tool s) tools.

Definition sandbox_request (s : AgentCodeModeSettings) (plan : CodeModePlan) (tools : list McpToolInfo) (token : string)
    : CodeModeSandboxRequest :=
  {| kq_protocol_version := CODE_MODE_PROTOCOL_VERSION; kq_auth_token := token; kq_plan := plan;
     kq_allowed_tools := allowed_tools s tools; kq_settings := s |}.

Definition materialize_policy_tools (allowed : list CodeModeAllowedTool) : list McpToolInfo :=
  (λ tool, {| mt_server := kl_server tool; mt_name := kl_tool tool; mt_description := None;
              mt_input_schema := json_object [("type", json_string "object")];
              mt_code_mode_capabilities := kl_code_mode_capabilities tool |}) <$> allowed.

(** [expected_subprocess_auth_token]: the token in the child's environment. *)
Definition expected_subprocess_auth_token (env : string) : res string :=
  guard_res (negb (is_blank env)) "code mode subprocess auth token env is empty" ;; Ok env.

Definition validate_subprocess_request (req : CodeModeSandboxRequest) (expected_token : string) : res unit :=
  guard_res (kq_protocol_version req =? CODE_MODE_PROTOCOL_VERSION)%N
    ("unsupported code mode subprocess protocol version: " +:+ pretty (kq_protocol_version req) +:+ " (expected " +:+
     pretty CODE_MODE_PROTOCOL_VERSION +:+ ")") ;;
  guard_res (String.eqb (kq_auth_token req) expected_token) "code mode subprocess auth token mismatch".

(** [execute_subprocess_request], in the child. *)
Definition execute_subprocess_request (servers : res unit) (env : string) (req : CodeModeSandboxRequest)
    : DB CodeModeExecutionReport :=
  expected_token ← lift_res (expected_subprocess_auth_token env);
  lift_res (validate_subprocess_request req expected_token) ;;
  let policy_tools := materialize_policy_tools (kq_allowed_tools req) in
  lift_res servers ;;
  execute_plan (local_settings (kq_settings req)) (kq_plan req) policy_tools.

Definition response_of (result : res CodeModeExecutionReport) : CodeModeSandboxResponse :=
  match result with
  | Ok report => {| ko_ok := true; ko_report := Some report; ko_error := None |}
  | Err e => {| ko_ok := false; ko_report := None; ko_error := Some e |}
  end.

(** [run_subprocess_exec_from_stdin]: what the child writes to its output. *)
Definition run_subprocess_exec_from_stdin (servers : res unit) (env raw : string) : DB string :=
  ensure (String.length raw <=? CODE_MODE_SUBPROCESS_MAX_PAYLOAD_BYTES) "code mode subprocess payload too large" ;;
  request ← lift_res (request_parse (trim raw));
  result ← catch (execute_subprocess_request servers env request);
  lift_res (response_text (response_of result)).

(** What the child makes of the payload, and what the parent reads; a child that fails
    writes nothing. *)
Definition child_output (fate : ChildFate) (env raw : string) : DB string :=
  match fate with
  | ChildUnreachable e => throw e
  | ChildSlow calls =>
      (match request_parse (trim raw) with
       | Ok req => ignore_error (execute_plan_until (local_settings (kq_settings req)) calls (kq_plan req)
                                   (materialize_policy_tools (kq_allowed_tools req)))
       | Err _ => mret tt
       end) ;;
      throw "code mode subprocess timeout"
  | ChildRuns servers =>
      out ← catch (run_subprocess_exec_from_stdin servers env raw);
      match out with
      | Ok stdout => mret stdout
      | Err _ => throw "code mode subprocess exited with status"
      end
  end.

Definition execute_plan_via_subprocess (s : AgentCodeModeSettings) (plan : CodeModePlan) (tools : list McpToolInfo)
    : DB CodeModeExecutionReport :=
  auth_token ← generate_subprocess_auth_token;
  payload ← lift_res (request_text (sandbox_request s plan tools auth_token));
  ensure (String.length payload <=? CODE_MODE_SUBPROCESS_MAX_PAYLOAD_BYTES) "code mode subprocess request too large" ;;
  n ← tick;
  stdout ← child_output (child_fate n) auth_token payload;
  response ← lift_res (response_parse (trim stdout));
  if ko_ok response then lift_res (context_res "code mode subprocess response missing report" (ko_report response))
  else throw ("code mode subprocess execution failed: " +:+ default "unknown subprocess error" (ko_error response)).

(** *** The environment *)

Definition isolation_text (mode : CodeModeExecutionMode) : string :=
  match mode with Local => "InProcess" | Subprocess => "SubprocessNoSandbox" end.

(** [ExecutionEnvironment::execute] of the environment the settings choose. *)
Definition environment_execute (s : AgentCodeModeSettings) (plan : CodeModePlan) (tools : list McpToolInfo)
    : DB CodeModeExecutionReport :=
  match cm_execution_mode s with
  | Local => execute_plan s plan tools
  | Subprocess => execute_plan_via_subprocess s plan tools
  end.

(** ** Planning *)

Inductive CodeModePlanner : Type :=
| DisabledCodeModePlanner
| LlmCodeModePlanner (max_tools_in_prompt max_history_messages : nat).

Definition default_llm_planner : CodeModePlanner := LlmCodeModePlanner 48 8.

Definition with_limits (max_tools_in_prompt max_history_messages : nat) : CodeModePlanner :=
  LlmCodeModePlanner (Nat.max max_tools_in_prompt 1) (Nat.max max_history_messages 1).

Definition planner_name (planner : CodeModePlanner) : string :=
  match planner with DisabledCodeModePlanner => "disabled" | LlmCodeModePlanner _ _ => "llm-plan-v1" end.

Definition truncate_prompt_text (input : string) (max_chars : nat) : string :=
  if chars_count input <=? max_chars then input else take_chars max_chars input +:+ "...(truncated)".

Definition json_list_text (e : string) (l : list json) : res string :=
  match to_vec l with Ok b => Ok (of_bytes b) | Err _ => Err e end.

Definition build_tools_prompt_json (max_tools_in_prompt : nat) (tools : list McpToolInfo) : res string :=
  json_list_text "failed to serialize code mode planner tool defs" (tool_definition <$> take max_tools_in_prompt tools).

Definition history_entry (m : StoredMessage) : json :=
  json_object [("role", json_string (role_as_str (role m))); ("content", json_string (truncate_prompt_text (content m) 1200))].

Definition planner_prompt : string :=
  let field name value := dquoted name +:+ ":" +:+ value in
  join_with newline
    ["You are a secure MCP tool planner.";
     "Return ONLY a JSON object, no markdown, no explanations.";
     "Output schema:";
     "{" +:+ field "calls" ("[{" +:+ field "server" (dquoted "<server>") +:+ "," +:+ field "tool" (dquoted "<tool>") +:+ "," +:+
       field "arguments" "{...}" +:+ "}]") +:+ "}";
     "Rules:";
     "1) Use only tools listed in AVAILABLE_TOOLS_JSON.";
     "2) arguments must be a JSON object.";
     "3) Keep plan short and bounded.";
     "4) If no tool is required, return {" +:+ field "calls" "[]" +:+ "}."].

Definition planner_request (serialized_tools serialized_history : string) : list StoredMessage :=
  [{| role := System; content := planner_prompt |};
   {| role := User;
      content := "AVAILABLE_TOOLS_JSON: " +:+ serialized_tools +:+ newline +:+ "CONVERSATION_JSON: " +:+ serialized_history |}].

(** [build_plan]. *)
Definition build_plan (planner : CodeModePlanner) (history : list StoredMessage) (tools : list McpToolInfo)
    : DB (option CodeModePlan) :=
  match planner with
  | DisabledCodeModePlanner => mret None
  | LlmCodeModePlanner max_tools max_history =>
      match tools with
      | [] => mret None
      | _ =>
          let history_view := rev (take max_history (rev history)) in
          serialized_tools ← lift_res (build_tools_prompt_json max_tools tools);
          serialized_history ← lift_res (json_list_text "failed to serialize code mode planner history"
                                           (history_entry <$> history_view));
          let request := planner_request serialized_tools serialized_history in
          n ← tick;
          on_code_turn (note_asked request) ;;
          reply ← wrap_error "code mode planner completion failed" (lift_res (turn_complete n request));
          plan ← wrap_error "failed to parse code mode plan" (lift_res (parse_plan_from_reply reply));
          mret (if length plan =? 0 then None else Some plan)
      end
  end.

(** ** The completion *)

(** [code_mode_tool_call_record]. *)
Definition code_mode_tool_call_record (call : CodeModeCallResult) (iteration : nat) : ToolCallRecord :=
  {| tc_call_index := 0; tc_server := kr_server call; tc_tool := kr_tool call; tc_arguments := json_object [];
     tc_result := match kr_result call, kr_error call with
                  | Some result, _ => result
                  | None, Some error => json_object [("error", json_string error)]
                  | None, None => json_object [("error", json_string "code mode call returned no result")]
                  end;
     tc_ok := kr_ok call; tc_duration_ms := 0; tc_iteration := iteration |}.

Inductive CodeModeCompletion : Type :=
| Finished (text : string)
| PendingStream (text : string) (run : AgentRun).

Definition into_text (c : CodeModeCompletion) : string :=
  match c with Finished text | PendingStream text _ => text end.

Context (turn : TurnSettings) (source : TurnSource) (settings : AgentCodeModeSettings) (planner : CodeModePlanner).

(** The calls are recorded in the run one after the other. *)
Fixpoint record_calls (iteration : nat) (calls : list CodeModeCallResult) (run : AgentRun)
    : DB (AgentRun * list ToolCallRecord) :=
  match calls with
  | [] => mret (run, [])
  | call :: calls' =>
      '(run, record) ← on_code_turn (on_turn_harness (record_tool_call (code_mode_tool_call_record call iteration) run));
      '(run, records) ← record_calls (S iteration) calls' run;
      mret (run, record :: records)
  end.

Definition execution_message (execution : CodeModeExecutionReport) : StoredMessage :=
  {| role := System;
     content := "CODE_MODE_TOOL_RESULT_JSON:" +:+ newline +:+
       match to_vec execution with
       | Ok b => of_bytes b
       | Err _ => "{" +:+ dquoted "calls" +:+ ":[]," +:+ dquoted "failed_calls" +:+ ":0," +:+ dquoted "timed_out_calls" +:+ ":0}"
       end |}.

Definition finish_code_run (exit : AgentRunExit) (run : AgentRun) : DB AgentRun :=
  on_code_turn (on_turn_harness (finish_agent_run exit run)).

(** A failure closes the run. *)
Definition fail_run {A} (e : string) (run : AgentRun) : DB A := finish_code_run ExitInternalError run ;; throw e.

(** The answer from a report: the part of [complete_with_code_mode] behind the audit. *)
Definition answer_from_report (history : list StoredMessage) (execution : CodeModeExecutionReport)
    (defer_success_finish : bool) : DB CodeModeCompletion :=
  run ← on_code_turn (on_turn_harness (start_agent_run (ts_logger turn) (to_session_id source) (to_channel source)
          (to_user_id source) (default "unknown" turn_model)));
  '(run, tool_calls) ← record_calls 0 (kp_calls execution) run;
  let next_history := history ++ [execution_message execution] in
  asked ← catch (on_code_turn (complete_provider_for_run PlainCompletion run next_history));
  match asked with
  | Err _ => fail_run "provider completion failed after code mode execution" run
  | Ok (run, reply) =>
      verified ← catch (on_code_turn (verify_final_answer result_text turn source next_history reply tool_calls));
      match verified with
      | Err _ => fail_run "output verification failed after code mode execution" run
      | Ok reply =>
          let run := observe_run 0 run in
          if defer_success_finish then mret (PendingStream reply run)
          else finish_code_run (ExitFinalAnswer reply) run ;; mret (Finished reply)
      end
  end.

(** The audit of a plan that was executed, before the circuit has its say. *)
Definition execution_audit (force_shadow : bool) (planned_calls : nat) (execution : CodeModeExecutionReport) (elapsed : Z)
    : CodeModeAuditRecord :=
  let shadow_mode := cm_shadow_mode settings in
  {| ka_planner := planner_name planner; ka_used := negb shadow_mode && negb force_shadow;
     ka_fallback := shadow_mode || force_shadow;
     ka_reason := if shadow_mode then Some "shadow_mode enabled"
                  else if force_shadow then Some "timeout circuit probe" else None;
     ka_planned_calls := planned_calls; ka_executed_calls := length (kp_calls execution);
     ka_failed_calls := kp_failed_calls execution; ka_timed_out_calls := kp_timed_out_calls execution;
     ka_elapsed_ms := elapsed / 1000000 |}.

Definition set_audit (used fallback : bool) (reason : option string) (a : CodeModeAuditRecord) : CodeModeAuditRecord :=
  {| ka_planner := ka_planner a; ka_used := used; ka_fallback := fallback; ka_reason := reason;
     ka_planned_calls := ka_planned_calls a; ka_executed_calls := ka_executed_calls a; ka_failed_calls := ka_failed_calls a;
     ka_timed_out_calls := ka_timed_out_calls a; ka_elapsed_ms := ka_elapsed_ms a |}.

Definition audit_after (change : CodeModeCircuitChange) (force_shadow : bool) (a : CodeModeAuditRecord)
    : CodeModeAuditRecord :=
  match change with
  | CircuitOpened => set_audit false true (Some "timeout auto shadow circuit opened") a
  | CircuitClosed =>
      if force_shadow then set_audit (ka_used a) (ka_fallback a) (Some "timeout circuit probe succeeded; circuit closed") a
      else a
  | CircuitKept => a
  end.

(** [complete_with_code_mode]; the audit records are only logged. *)
Definition complete_with_code_mode (history : list StoredMessage) (tools : list McpToolInfo) (force_shadow : bool)
    (defer_success_finish : bool) : DB (option CodeModeCompletion) :=
  started ← now_nanos;
  let code_mode_tools := List.filter (allows_tool settings) tools in
  match code_mode_tools with
  | [] =>
      record_code_mode_counters (audit_fallback (planner_name planner) "no code mode tools allowed by capability policy")
        force_shadow CircuitKept ;;
      mret None
  | _ =>
      plan ← build_plan planner history code_mode_tools;
      match plan with
      | None =>
          record_code_mode_counters (audit_fallback (planner_name planner) "planner returned no plan") force_shadow CircuitKept ;;
          mret None
      | Some plan =>
          execution ← catch (environment_execute settings plan code_mode_tools);
          elapsed ← elapsed_since started;
          match execution with
          | Err e =>
              record_code_mode_counters
                {| ka_planner := planner_name planner; ka_used := false; ka_fallback := true;
                   ka_reason := Some (e +:+ "; isolation=" +:+ isolation_text (cm_execution_mode settings));
                   ka_planned_calls := length plan; ka_executed_calls := 0; ka_failed_calls := 0; ka_timed_out_calls := 0;
                   ka_elapsed_ms := elapsed / 1000000 |} force_shadow CircuitKept ;;
              mret None
          | Ok execution =>
              let audit := execution_audit force_shadow (length plan) execution elapsed in
              change ← update_code_mode_timeout_circuit settings audit;
              record_code_mode_counters (audit_after change force_shadow audit) force_shadow change ;;
              if cm_shadow_mode settings || force_shadow || (match change with CircuitOpened => true | _ => false end)
              then mret None
              else c ← answer_from_report history execution defer_success_finish; mret (Some c)
          end
      end
  end.

(** The attempt that a completion with tools begins with: [None] when the loop is to answer,
    also after a failure. *)
Definition try_code_mode (history : list StoredMessage) (tools : list McpToolInfo) (defer_success_finish : bool)
    : DB (option CodeModeCompletion) :=
  if negb (cm_enabled settings) then mret None
  else
    attempt ← next_code_mode_attempt settings;
    match attempt with
    | None => mret None
    | Some attempt =>
        r ← catch (complete_with_code_mode history tools (match attempt with ProbeAttempt => true | NormalAttempt => false end)
                     defer_success_finish);
        mret match r with Ok c => c | Err _ => None end
    end.
End code_mode.
