(* ===== verification/ToolLoopFacts.v ===== *)
(** * Facts about the tool loop

    A turn with tools ends, whatever the provider and the servers answer: it runs only
    offered tools with fitting arguments, it asks a bounded number of times, it closes the
    run it opened, and with an enforcing output verification the user sees nothing that
    was not verified against every call of the turn. *)

From S2P Require Import Prelude Text Strings Messages External Verifier OutputExit Domain Tables Replay Handlers.
From S2P Require Import MemBase TrajStore EvoStore Harness RunLog ToolLoop.

(** ** Chunks *)

Lemma substring_split n s :
  take_chars n s +:+
  String.substring (String.length (take_chars n s)) (String.length s - String.length (take_chars n s)) s = s.
Proof.
  revert n. induction s as [|a s IH]; intros n; [done|]. cbn [take_chars].
  destruct (is_cont a); [exact (f_equal (String a) (IH n))|].
  destruct n as [|n]; [|exact (f_equal (String a) (IH n))].
  change (take_chars 0 _) with "". cbn [String.length]. rewrite Nat.sub_0_r. apply (substring_full (String a s)).
Qed.

Lemma take_chars_nonempty n a s : 0 < n → 0 < String.length (take_chars n (String a s)).
Proof. intros H. cbn [take_chars]. destruct (is_cont a); [cbn; lia|]. destruct n; [lia|cbn; lia]. Qed.

Lemma chunks_concat fuel limit text :
  0 < limit → String.length text ≤ fuel → foldr String.append "" (chunk_chars fuel limit text) = text.
Proof.
  intros Hl. revert text. induction fuel as [|fuel IH]; intros text Hf; [by destruct text; [|cbn in Hf; lia]|].
  destruct text as [|a text]; [done|]. pose proof (take_chars_nonempty limit a text Hl) as Hn.
  pose proof (substring_split limit (String a text)) as Hs. cbn [chunk_chars foldr].
  rewrite IH; [exact Hs|]. apply (f_equal String.length) in Hs.
  rewrite string_length_app in Hs. lia.
Qed.

Lemma chunked_text_is_whole text max_chars :
  foldr String.append "" (chunk_text_for_stream_replay text max_chars) = text.
Proof. apply chunks_concat; lia. Qed.

Section facts.
  Context `{ENV : LoopEnv} `{DT : DateTimes} `{JP : !JsonParse} `{TV : !ToValue VerificationResult} `{JC : !JsonConfidence}.
  Context `{SLJ : Serialize (list json)} `{PV : TurnProvider} `{RT : !ToolRuntime} `{SR : StreamReceiver}.
  Context (result_text : OutputVerificationResult → option string).
  Context (settings : TurnSettings) (source : TurnSource) (kind : completion_kind) (tools : list McpToolInfo).
  Implicit Types s : TurnState.

(** ** What a piece of a turn did *)

(** A call of an offered tool with arguments of its schema. *)
Definition offered (call : ParsedToolCall) : Prop :=
  ∃ tool, tool ∈ tools ∧ mt_server tool = pc_server call ∧ mt_name tool = pc_tool call ∧
    conforms tool (pc_arguments call).

Definition call_key (call : ParsedToolCall) : string * string * json :=
  (pc_server call, pc_tool call, pc_arguments call).

Definition record_key (record : ToolCallRecord) : string * string * json :=
  (tc_server record, tc_tool record, tc_arguments record).

(** The record of an executed call: it counts as a success only if the server answered with a
    result, and then it has that result. *)
Definition recorded (call : ParsedToolCall * option (res json)) (record : ToolCallRecord) : Prop :=
  record_key record = call_key call.1 ∧
  (tc_ok record = true → ∃ value, call.2 = Some (Ok value) ∧
     tc_result record = truncate_json_value value (ts_max_tool_result_chars settings)).

(** Each of the calls has its record among the records, in order. *)
Definition calls_on_record (called : list (ParsedToolCall * option (res json))) (records : list ToolCallRecord) : Prop :=
  ∃ own, sublist own records ∧ Forall2 recorded called own.

Lemma calls_on_record_nil records : calls_on_record [] records.
Proof. exists []. split; [apply sublist_nil_l|constructor]. Qed.

Lemma calls_on_record_app l k a b : calls_on_record l a → calls_on_record k b → calls_on_record (l ++ k) (a ++ b).
Proof.
  intros (x & H1 & H2) (y & H3 & H4). exists (x ++ y). split; [by apply sublist_app|by apply Forall2_app].
Qed.

Lemma calls_on_record_length called records : calls_on_record called records → length called ≤ length records.
Proof. intros (own & H1%sublist_length & H2%Forall2_length). lia. Qed.

(** It asked at most [asks] times, and at most [rounds] times it tried a tool: the records
    grew from [before] to [after], with one for each call that was executed. *)
Record went (asks rounds : nat) (before after : list ToolCallRecord) (shown : list string) s s' : Prop := {
  we_asked : ∃ asked, tn_asked s' = tn_asked s ++ asked ∧ length asked ≤ asks;
  we_called : ∃ called records, tn_called s' = tn_called s ++ called ∧ after = before ++ records ∧
    Forall offered called.*1 ∧ calls_on_record called records ∧ length records ≤ rounds;
  we_shown : tn_shown s' = tn_shown s ++ shown
}.

Lemma went_trans asks rounds asks' rounds' a b c shown shown' s s1 s2 :
  went asks rounds a b shown s s1 → went asks' rounds' b c shown' s1 s2 →
  went (asks + asks') (rounds + rounds') a c (shown ++ shown') s s2.
Proof.
  intros [(a1 & A1 & A2) (c1 & r1 & C1 & C2 & C3 & C4 & C5) S1] [(a2 & B1 & B2) (c2 & r2 & D1 & D2 & D3 & D4 & D5) S2].
  split.
  - exists (a1 ++ a2). rewrite B1, A1, length_app, app_assoc. split; [done|lia].
  - exists (c1 ++ c2), (r1 ++ r2). rewrite D1, C1, D2, C2, !app_assoc, length_app, fmap_app.
    split_and!; [done|done|by apply Forall_app|by apply calls_on_record_app|lia].
  - by rewrite S2, S1, app_assoc.
Qed.

Lemma went_weaken asks rounds asks' rounds' a b shown s s' :
  went asks rounds a b shown s s' → asks ≤ asks' → rounds ≤ rounds' → went asks' rounds' a b shown s s'.
Proof.
  intros [(a1 & A1 & A2) (c1 & r1 & C1 & C2 & C3 & C4 & C5) S1] H1 H2.
  split; [exists a1; split; [done|lia]| |done]. exists c1, r1. split_and!; try done. lia.
Qed.

(** Only the stores changed. *)
Definition same_turn s s' : Prop :=
  tn_asked s' = tn_asked s ∧ tn_called s' = tn_called s ∧ tn_shown s' = tn_shown s.

#[local] Instance same_turn_preorder : PreOrder same_turn.
Proof. split; [done|]. intros a b c (H1 & H2 & H3) (G1 & G2 & G3). split_and!; congruence. Qed.

Lemma went_same a s s' : same_turn s s' → went 0 0 a a [] s s'.
Proof.
  intros (H1 & H2 & H3). split; [exists []|exists [], []|]; rewrite ?app_nil_r; [done| |done].
  split_and!; [done..|constructor|apply calls_on_record_nil|cbn; lia].
Qed.

Lemma harness_same {A} (m : M HarnessDb A) : stable same_turn (on_turn_harness m).
Proof. apply stable_zoom with (R := λ _ _, True); [done|]. by intros w. Qed.

(** *** The run is kept without failing *)

Lemma record_provider_infallible messages j reply run : infallible (record_provider_call messages j reply run).
Proof.
  unfold record_provider_call, log_provider_call. apply infallible_bind; [|done].
  destruct (rn_logger _); [|done]. destruct (negb _); [done|].
  by apply infallible_bind; [apply ignore_infallible|].
Qed.

Lemma record_tool_infallible record run : infallible (record_tool_call record run).
Proof.
  unfold record_tool_call, log_tool_call. cbv zeta. apply infallible_bind; [|by intros []].
  apply infallible_bind; [|done]. destruct (rn_started _); [|done]. destruct (rn_logger _); [apply ignore_infallible|done].
Qed.

Lemma finish_infallible exit run : infallible (finish_agent_run exit run).
Proof.
  unfold finish_agent_run, finish_run. destruct (ag_finished run); [done|]. destruct (exit_parts exit).
  apply infallible_bind; [|done]. destruct (rn_finished _); [done|]. cbv zeta. apply infallible_bind; [|done].
  destruct (rn_started _); [|done]. destruct (rn_logger _); [apply ignore_infallible|done].
Qed.

Lemma start_infallible logger session channel user model :
  infallible (start_agent_run logger session channel user model).
Proof.
  unfold start_agent_run, start_run, new_trajectory_id. apply infallible_bind; [|done].
  apply infallible_bind; [by apply infallible_bind|]. intros id. apply infallible_bind; [|done].
  destruct logger; [|done]. by apply infallible_bind; [apply infallible_catch|].
Qed.

Lemma wp_on_harness {A} (m : M HarnessDb A) (Q : res A → TurnState → Prop) s :
  infallible m → (∀ a s', same_turn s s' → Q (Ok a) s') → wp (on_turn_harness m) Q s.
Proof.
  intros Hm HQ. eapply wp_mono; [apply wp_infallible; [apply harness_same|by apply infallible_zoom]|].
  cbv beta. intros r s' (a & -> & Hs). by apply HQ.
Qed.

Lemma finish_agent_run_finishes exit run h :
  wp (finish_agent_run exit run) (λ r _, ∃ run', r = Ok run' ∧ ag_finished run' = true) h.
Proof.
  unfold finish_agent_run. destruct (ag_finished run) eqn:E; [wp_step; by exists run|]. destruct (exit_parts exit).
  wp_step. eapply wp_mono; [apply (wp_infallible (λ _ _, True)); [by intros w|]|].
  - unfold finish_run. destruct (rn_finished _); [done|]. cbv zeta. apply infallible_bind; [|done].
    destruct (rn_started _); [|done]. destruct (rn_logger _); [apply ignore_infallible|done].
  - cbv beta. intros r h' (run' & -> & _). wp_step. by eexists.
Qed.

Lemma wp_finish_with exit result run s :
  wp (finish_with exit result run)
     (λ r s', same_turn s s' ∧ ∃ run', r = Ok (run', result) ∧ ag_finished run' = true) s.
Proof.
  unfold finish_with. wp_step. eapply wp_mono.
  - apply (wp_and _ (λ _ s', same_turn s s') (λ r _, ∃ run', r = Ok run' ∧ ag_finished run' = true));
      [apply (wp_of_stable same_turn), harness_same|]. apply wp_zoom.
    exact (finish_agent_run_finishes exit run (tn_harness s)).
  - cbv beta. intros r s' [Hs (run' & -> & Hf)]. wp_step. split; [done|]. by exists run'.
Qed.

(** ** The pieces of the loop *)

Lemma wp_note_asked messages (Q : res unit → TurnState → Prop) s :
  (∀ s', tn_asked s' = tn_asked s ++ [messages] → tn_called s' = tn_called s → tn_shown s' = tn_shown s → Q (Ok tt) s') →
  wp (note_asked messages) Q s.
Proof. intros H. unfold note_asked. do 2 wp_step. apply wp_put_db, H; done. Qed.

Lemma went_asked messages a s s' :
  tn_asked s' = tn_asked s ++ [messages] → tn_called s' = tn_called s → tn_shown s' = tn_shown s → went 1 0 a a [] s s'.
Proof.
  intros H1 H2 H3. split; [by exists [messages]|exists [], []|by rewrite app_nil_r].
  rewrite !app_nil_r. split_and!; [done..|constructor|apply calls_on_record_nil|cbn; lia].
Qed.

Lemma wp_complete run messages a s :
  wp (complete_provider_for_run kind run messages) (λ r s', went 1 0 a a [] s s') s.
Proof.
  unfold complete_provider_for_run. wp_step. apply wp_tick. intros n. wp_step. apply wp_note_asked.
  intros s1 A1 A2 A3. pose proof (went_asked messages a s s1 A1 A2 A3) as Hw. do 2 wp_step.
  destruct (provider_reply kind n messages) as [reply|e]; [|done]. wp_step.
  apply wp_on_harness; [apply record_provider_infallible|]. intros run' s2 Hs. wp_step.
  exact (went_trans 1 0 0 0 _ _ _ [] [] _ _ _ Hw (went_same a s1 s2 Hs)).
Qed.

(** An answer as the exit let it out, given the calls of the turn. *)
Definition let_out (calls : list ToolCallRecord) (text : string) : Prop :=
  ∃ n history answer result,
    finalize result_text (output_exit settings n) (exit_request source history answer calls) = Ok result ∧
    ox_text result = text.

Lemma wp_verify history answer calls s :
  wp (verify_final_answer result_text settings source history answer calls)
     (λ r s', went 1 0 calls calls [] s s' ∧ if r is Ok text then let_out calls text else True) s.
Proof.
  unfold verify_final_answer. wp_step. apply wp_tick. intros n.
  assert (Hend : ∀ s1, went 1 0 calls calls [] s s1 →
    wp (result ← lift_res (finalize result_text (output_exit settings n) (exit_request source history answer calls));
        mret (ox_text result))
       (λ r s', went 1 0 calls calls [] s s' ∧ if r is Ok text then let_out calls text else True) s1).
  { intros s1 Hw. do 2 wp_step. destruct (finalize _ _ _) as [result|e] eqn:E; [|done]. wp_step. split; [done|].
    by exists n, history, answer, result. }
  wp_step. destruct (revision_asked _ _ _ _ _ _) as [messages|].
  - apply wp_note_asked. intros s1 A1 A2 A3. by apply Hend, (went_asked messages).
  - wp_step. apply Hend. eapply went_weaken; [by apply went_same|lia|lia].
Qed.

(** What of a replayed text was shown. *)
Lemma wp_show_all chunks s :
  wp (foreach chunks show)
     (λ r s', tn_asked s' = tn_asked s ∧ tn_called s' = tn_called s ∧
        ∃ shown, tn_shown s' = tn_shown s ++ shown ∧ shown `prefix_of` chunks ∧ (is_ok r = true → shown = chunks)) s.
Proof.
  induction chunks as [|c chunks IH] in s |- *; cbn [foreach].
  { wp_step. split_and!; [done..|]. exists []. by rewrite app_nil_r. }
  wp_step. unfold show. wp_step. apply wp_tick. intros n. destruct (receives n c).
  - do 2 wp_step. apply wp_put_db. eapply wp_mono; [apply IH|]. cbv beta. cbn.
    intros r s' (H1 & H2 & shown & H3 & H4 & H5). split_and!; [done..|]. exists (c :: shown).
    rewrite H3, <- app_assoc. split_and!; [done|by apply prefix_cons|]. intros Hr. by rewrite H5.
  - wp_step. split_and!; [done..|]. exists []. rewrite app_nil_r. split_and!; [done|apply prefix_nil|done].
Qed.

Definition replayed (text : string) : list string :=
  match kind with
  | PlainCompletion => []
  | StreamedCompletion => chunk_text_for_stream_replay text STREAM_REPLAY_CHUNK_CHARS
  end.

(** How a turn went that ended with [out] and showed [shown]. *)
Definition outcome (calls : list ToolCallRecord) (shown : list string) (out : res string) : Prop :=
  match out with
  | Ok text => let_out calls text ∧ shown = replayed text
  | Err _ => shown = [] ∨ ∃ text, let_out calls text ∧ shown `prefix_of` replayed text
  end.

Definition ended (asks rounds : nat) (calls : list ToolCallRecord) s (r : res turn_end) s' : Prop :=
  ∃ run out calls' shown, r = Ok (run, out) ∧ ag_finished run = true ∧ outcome calls' shown out ∧
    went asks rounds calls calls' shown s s'.

Lemma ended_after asks rounds asks' rounds' a b s s1 r s' :
  went asks rounds a b [] s s1 → ended asks' rounds' b s1 r s' → ended (asks + asks') (rounds + rounds') a s r s'.
Proof.
  intros Hw (run & out & calls' & shown & H1 & H2 & H3 & H4). exists run, out, calls', shown. split_and!; [done..|].
  exact (went_trans _ _ _ _ _ _ _ _ _ _ _ _ Hw H4).
Qed.

Lemma ended_weaken asks rounds asks' rounds' a s r s' :
  ended asks rounds a s r s' → asks ≤ asks' → rounds ≤ rounds' → ended asks' rounds' a s r s'.
Proof.
  intros (run & out & calls' & shown & H1 & H2 & H3 & H4) ??. exists run, out, calls', shown. split_and!; [done..|].
  by eapply went_weaken.
Qed.

Lemma wp_ends asks rounds exit out run calls shown s0 s :
  outcome calls shown out → went asks rounds calls calls shown s0 s →
  wp (finish_with exit out run) (ended asks rounds calls s0) s.
Proof.
  intros Ho Hw. eapply wp_mono; [apply wp_finish_with|]. cbv beta. intros r s' (Hs & run' & -> & Hf).
  exists run', out, calls, shown. split_and!; [done..|].
  pose proof (went_trans _ _ _ _ _ _ _ _ _ _ _ _ Hw (went_same calls s s' Hs)) as H. by rewrite !Nat.add_0_r, app_nil_r in H.
Qed.

Lemma wp_deliver exit after history reply calls run s :
  wp (deliver result_text settings source kind exit after history reply calls run) (ended 1 0 calls s) s.
Proof.
  unfold deliver. do 2 wp_step. eapply wp_mono; [apply wp_verify|]. cbv beta. intros [text|e] s1 [Hw Hl]; cycle 1.
  { apply (wp_ends _ _ _ _ _ _ []); [by left|done]. }
  wp_step. eapply wp_mono with (Q := λ r s2, ∃ x shown, r = Ok x ∧ went 1 0 calls calls shown s s2 ∧
      shown `prefix_of` replayed text ∧ (is_ok x = true → shown = replayed text)).
  - unfold replayed. destruct kind.
    + wp_step. exists (Ok tt), []. by split_and!.
    + wp_step. eapply wp_mono; [apply wp_show_all|]. cbv beta. intros x s2 (H1 & H2 & shown & H3 & H4 & H5).
      exists x, shown. split_and!; [done| |done..]. destruct Hw as [W1 W2 W3].
      split; rewrite ?H1, ?H2; [done..|]. by rewrite H3, W3, app_nil_r.
  - cbv beta. intros r s2 (x & shown & -> & H1 & H2 & H3). destruct x as [[]|e].
    + apply (wp_ends _ _ _ _ _ _ shown); [split; [done|by apply H3]|done].
    + apply (wp_ends _ _ _ _ _ _ shown); [right; by exists text|done].
Qed.

Lemma wp_last_request exit after_ask after_verify history calls run s :
  wp (last_request result_text settings source kind exit after_ask after_verify history calls run) (ended 2 0 calls s) s.
Proof.
  unfold last_request. do 2 wp_step. eapply wp_mono; [apply (wp_complete run history calls)|].
  cbv beta. intros [[run' reply]|e] s1 Hw.
  - eapply wp_mono; [apply wp_deliver|]. intros r s' H. exact (ended_after 1 0 1 0 _ _ _ _ _ _ Hw H).
  - apply (wp_ends _ _ _ _ _ _ []); [by left|]. by eapply went_weaken; [done|lia|].
Qed.

(** ** Rounds *)

Lemma wp_record record run s :
  wp (on_turn_harness (record_tool_call record run))
     (λ r s', same_turn s s' ∧ ∃ run' i, r = Ok (run', with_call_index i record)) s.
Proof.
  eapply wp_mono.
  - apply (wp_and _ (λ _ s', same_turn s s') (λ r _, ∃ run' i, r = Ok (run', with_call_index i record)));
      [apply (wp_of_stable same_turn), harness_same|].
    apply wp_zoom. unfold record_tool_call, log_tool_call. cbv zeta. do 2 wp_step.
    eapply wp_mono; [apply (wp_infallible (λ _ _, True)); [by intros w|]|].
    + destruct (rn_started _); [|done]. destruct (rn_logger _); [apply ignore_infallible|done].
    + cbv beta. intros r h' ([] & -> & _). do 2 wp_step. by eexists _, _.
  - by cbv beta.
Qed.

Lemma wp_execute_validated call iteration s :
  wp (execute_validated settings call iteration)
     (λ r s', ∃ answer, (∃ record message, r = Ok (record, message) ∧ recorded (call, answer) record) ∧
        tn_asked s' = tn_asked s ∧ tn_called s' = tn_called s ++ [(call, answer)] ∧ tn_shown s' = tn_shown s) s.
Proof.
  unfold execute_validated. wp_step. apply wp_tick. intros n. cbv zeta. wp_step. unfold note_called. do 2 wp_step. apply wp_put_db.
  wp_step. eexists. split; [|by split_and!]. destruct (tool_answer n _ _ _) as [[v|e]|]; do 2 eexists;
    (split; [done|]); (split; [done|]); [by exists v|done|done].
Qed.

Lemma went_rejected a record s s' : same_turn s s' → went 0 1 a (a ++ [record]) [] s s'.
Proof.
  intros (H1 & H2 & H3). split; rewrite ?H1, ?H2, ?H3; [exists []|exists [], [record]|]; rewrite ?app_nil_r; [done| |done].
  split_and!; [done..|constructor|apply calls_on_record_nil|cbn; lia].
Qed.

Lemma went_executed a call answer record s s' :
  tn_asked s' = tn_asked s → tn_called s' = tn_called s ++ [(call, answer)] → tn_shown s' = tn_shown s →
  offered call → recorded (call, answer) record → went 0 1 a (a ++ [record]) [] s s'.
Proof.
  intros H1 H2 H3 Ho Hk. split; rewrite ?H1, ?H2, ?H3; [exists []|exists [(call, answer)], [record]|]; rewrite ?app_nil_r; [done| |done].
  split_and!; [done..|by apply Forall_singleton|exists [record]; split; [done|by apply Forall2_cons_2; [|constructor]]|cbn; lia].
Qed.

Context `{JL : !JsonLaws}.

Lemma validated_offered call : validate_call tools call = None → offered call.
Proof.
  unfold validate_call. destruct (List.find _ _) as [tool|] eqn:E; [|done]. intros H.
  apply List.find_some in E as [Hin [Hs%String.eqb_eq Hn%String.eqb_eq]%andb_true_iff].
  exists tool. split_and!; [by apply list_elem_of_In|done..|]. apply passing_arguments_conform. by destruct (vr_passed _).
Qed.

Lemma wp_iterations left iteration retry_used history calls run s :
  wp (mcp_iterations result_text settings source kind tools left iteration retry_used history calls run)
     (ended (left + 2) left calls s) s.
Proof.
  induction left as [|left IH] in iteration, retry_used, history, calls, run, s |- *; cbn [mcp_iterations].
  { apply wp_last_request. }
  cbv zeta. do 2 wp_step. eapply wp_mono; [apply (wp_complete run history calls)|].
  cbv beta. intros [[run' reply]|e] s1 Hw; cycle 1.
  { apply (wp_ends _ _ _ _ _ _ []); [by left|]. by eapply went_weaken; [done|lia|lia]. }
  set (run1 := observe_run iteration run'). clearbody run1.
  assert (Hafter : ∀ (m : M TurnState turn_end) k l calls' s2, went 1 l calls calls' [] s s2 → k ≤ left + 2 →
    wp m (ended k left calls' s2) s2 → l ≤ 1 → wp m (ended (S left + 2) (S left) calls s) s2).
  { intros m k l calls' s2 H1 Hk H2 Hl. eapply wp_mono; [exact H2|]. intros r s' H.
    eapply ended_weaken; [exact (ended_after 1 l k left _ _ _ _ _ _ H1 H)|lia|lia]. }
  assert (Hblock : ∀ after verification calls' run2 l s2, went 1 l calls calls' [] s s2 → l ≤ 1 →
    wp (blocked result_text settings source kind after history reply verification calls' run2)
       (ended (S left + 2) (S left) calls s) s2).
  { intros after verification calls' run2 l s2 H1 Hl. apply (Hafter _ 2 l calls'); [done|lia| |done].
    eapply wp_mono; [apply wp_last_request|]. intros r s' H. by eapply ended_weaken; [exact H|lia|lia]. }
  assert (Hloop : ∀ i retry h calls' run2 l s2, went 1 l calls calls' [] s s2 → l ≤ 1 →
    wp (mcp_iterations result_text settings source kind tools left i retry h calls' run2)
       (ended (S left + 2) (S left) calls s) s2).
  { intros i retry h calls' run2 l s2 H1 Hl. by apply (Hafter _ (left + 2) l calls'). }
  destruct (parse_tool_call_attempt reply) as [call| |verification].
  - destruct (validate_call tools call) as [verification|] eqn:Ev.
    + wp_step. eapply wp_mono; [apply wp_record|]. cbv beta. intros r s2 (Hs & run2 & i & ->).
      assert (H1 : went 1 1 calls (calls ++ [with_call_index i (verification_failure_record call verification iteration)])
                     [] s s2) by exact (went_trans 1 0 0 1 _ _ _ [] [] _ _ _ Hw (went_rejected _ _ _ _ Hs)).
      destruct retry_used; [by apply (Hblock _ _ _ _ 1)|by apply (Hloop _ _ _ _ _ 1)].
    + wp_step. eapply wp_mono; [apply wp_execute_validated|]. cbv beta.
      intros r s2 (answer & (record & message & -> & Hk) & A1 & A2 & A3).
      set (failed := match ts_tool_verifier settings with Some _ => _ | None => _ end). clearbody failed.
      set (record' := match failed with Some _ => _ | None => record end).
      assert (Hk' : recorded (call, answer) record') by (unfold record'; destruct failed; [by split; [apply Hk|]|done]).
      clearbody record'. wp_step. eapply wp_mono; [apply wp_record|]. cbv beta. intros r s3 ((B1 & B2 & B3) & run2 & i & ->).
      assert (H1 : went 1 1 calls (calls ++ [with_call_index i record']) [] s s3).
      { refine (went_trans 1 0 0 1 _ _ _ [] [] _ _ _ Hw (went_executed _ call answer
          (with_call_index i record') _ _ _ _ _ (validated_offered _ Ev) Hk'));
          congruence. }
      destruct failed as [v|]; [|by apply (Hloop _ _ _ _ _ 1)].
      destruct (ts_tool_verification_mode settings), retry_used; first [by apply (Hblock _ _ _ _ 1)|by apply (Hloop _ _ _ _ _ 1)].
  - eapply wp_mono; [apply wp_deliver|]. intros r s' H.
    eapply ended_weaken; [exact (ended_after 1 0 1 0 _ _ _ _ _ _ Hw H)|lia|lia].
  - destruct retry_used; [by eapply (Hblock _ _ _ _ 0), Nat.le_0_1|by eapply (Hloop _ _ _ _ _ 0), Nat.le_0_1].
Qed.

Lemma wp_mcp_loop history s :
  wp (mcp_loop result_text settings source kind tools history)
     (λ r s', ended (Nat.max 1 (ts_max_iterations settings) + 2) (Nat.max 1 (ts_max_iterations settings)) [] s r s' ∨
        r = Err "failed to encode mcp tool list" ∧ s' = s) s.
Proof.
  unfold mcp_loop. wp_step. wp_step. destruct (build_mcp_system_prompt tools) as [prompt|e] eqn:E; cycle 1.
  { right. split; [|done]. unfold build_mcp_system_prompt in E. destruct (to_vec _); [done|]. by injection E as <-. }
  wp_step. apply wp_on_harness; [apply start_infallible|]. intros run s1 Hs. eapply wp_mono; [apply wp_iterations|].
  intros r s' H. left. exact (ended_after 0 0 _ _ _ _ _ _ _ _ (went_same [] s s1 Hs) H).
Qed.

(** ** Results *)

(** C26: Safety: a turn with tools executes only calls of the tools it was offered, with
    arguments that conform to the tool's input schema, whatever the provider replies; and
    it executes at most as many as its iterations. *)
Theorem only_offered_tools_run history s :
  wp (mcp_loop result_text settings source kind tools history)
     (λ _ s', ∃ called, tn_called s' = tn_called s ++ called ∧ length called ≤ Nat.max 1 (ts_max_iterations settings) ∧
        ∀ call, call ∈ called.*1 → ∃ tool, tool ∈ tools ∧ mt_server tool = pc_server call ∧
          mt_name tool = pc_tool call ∧ conforms tool (pc_arguments call)) s.
Proof.
  eapply wp_mono; [apply wp_mcp_loop|]. cbv beta. intros r s' [(run & out & calls & shown & _ & _ & _ & Hw)|[_ ->]]; cycle 1.
  { exists []. rewrite app_nil_r. split_and!; [done|cbn; lia|]. intros call Hc. by apply not_elem_of_nil in Hc. }
  destruct (we_called _ _ _ _ _ _ _ Hw) as (called & records & H1 & _ & H3 & H4 & H5). exists called.
  apply calls_on_record_length in H4. split_and!; [done|lia|]. by apply Forall_forall.
Qed.

(** C27: Termination: whatever the provider, the servers and the receiver do, a turn with
    tools ends after at most two requests more than its iterations, with an answer or an
    error and the run it opened closed; it refuses to start only when the tools cannot be
    written into the prompt, and then nothing has happened. *)
Theorem turn_ends_with_its_run_closed history s :
  wp (mcp_loop result_text settings source kind tools history)
     (λ r s', (∃ asked, tn_asked s' = tn_asked s ++ asked ∧ length asked ≤ Nat.max 1 (ts_max_iterations settings) + 2) ∧
        match r with
        | Ok (run, _) => ag_finished run = true
        | Err e => e = "failed to encode mcp tool list" ∧ s' = s
        end) s.
Proof.
  eapply wp_mono; [apply wp_mcp_loop|]. cbv beta. intros r s' [(run & out & calls & shown & -> & Hf & _ & Hw)|[-> ->]].
  - by destruct (we_asked _ _ _ _ _ _ _ Hw) as (asked & ? & ?); eauto.
  - split; [|done]. exists []. rewrite app_nil_r. split; [done|cbn; lia].
Qed.

(** An answer that may be shown, given the calls of the turn. *)
Definition trusted (calls : list ToolCallRecord) (text : string) : Prop :=
  reliable (verification_request (exit_request source [] text calls) text) ∨ text = unreliable_answer.

Lemma let_out_trusted calls text :
  ts_output_verifier settings = true → ts_output_mode settings = Block ∨ ts_output_mode settings = ReviseOnce →
  let_out calls text → trusted calls text.
Proof.
  intros Hv Hm (n & history & answer & result & H & <-).
  destruct (enforcing_exit_lets_out result_text (output_exit settings n) (exit_request source history answer calls) result
              Hv Hm H) as [[R1 R2 R3 R4]| ->]; [left; by split|by right].
Qed.

(** What the receiver saw of a turn that ended. *)
Lemma ended_shown asks rounds s r s' :
  ts_output_verifier settings = true → ts_output_mode settings = Block ∨ ts_output_mode settings = ReviseOnce →
  ended asks rounds [] s r s' →
  ∃ called calls shown,
    tn_called s' = tn_called s ++ called ∧ calls_on_record called calls ∧
    tn_shown s' = tn_shown s ++ shown ∧
    match r with
    | Ok (_, Ok text) => trusted calls text ∧
        (kind = StreamedCompletion → foldr String.append "" shown = text) ∧ (kind = PlainCompletion → shown = [])
    | _ => shown = [] ∨ kind = StreamedCompletion ∧
        ∃ text rest, trusted calls text ∧ foldr String.append "" (shown ++ rest) = text
    end.
Proof.
  intros Hv Hm (run & out & calls & shown & -> & _ & Ho & [_ (called & records & H1 & -> & _ & H4 & _) H5]).
  exists called, records, shown. split_and!; [done..|]. unfold outcome, replayed in Ho. destruct out as [text|e].
  - destruct Ho as [Ho ->]. split_and!; [by apply let_out_trusted| |]; intros ->; [apply chunked_text_is_whole|done].
  - destruct Ho as [->|(text & Ho & Hp)]; [by left|]. destruct kind; [left; by apply prefix_nil_inv in Hp|].
    right. split; [done|]. destruct Hp as [rest Hp]. exists text, rest. split; [by apply let_out_trusted|].
    rewrite <- Hp. apply chunked_text_is_whole.
Qed.

(** Safety: with output verification enforced, the receiver of a turn's stream sees
    only text that was verified against every tool call of the turn - one record at least
    for each call executed, as it ended, rejected calls included - or the fixed fallback: the answer
    itself, whole and in order, when the turn succeeds, and a beginning of such a text
    when it fails. *)
Theorem only_verified_text_is_streamed history s :
  ts_output_verifier settings = true → ts_output_mode settings = Block ∨ ts_output_mode settings = ReviseOnce →
  wp (mcp_loop result_text settings source kind tools history)
     (λ r s', ∃ called calls shown,
        tn_called s' = tn_called s ++ called ∧ calls_on_record called calls ∧
        tn_shown s' = tn_shown s ++ shown ∧
        match r with
        | Ok (_, Ok text) => trusted calls text ∧
            (kind = StreamedCompletion → foldr String.append "" shown = text) ∧ (kind = PlainCompletion → shown = [])
        | _ => shown = [] ∨ kind = StreamedCompletion ∧
            ∃ text rest, trusted calls text ∧ foldr String.append "" (shown ++ rest) = text
        end) s.
Proof.
  intros Hv Hm. eapply wp_mono; [apply wp_mcp_loop|]. cbv beta. intros r s' [H|[-> ->]]; [by eapply ended_shown|].
  exists [], [], []. rewrite !app_nil_r. split_and!; [done|apply calls_on_record_nil|done|by left].
Qed.
End facts.
