(* ===== verification/CodeModeFacts.v ===== *)
(** * Facts about code mode

    The circuit is open exactly while the last plans all timed out; a plan runs only as the
    policy admits it, here or in the child, and its results fit their budget; the counters
    agree with each other; and code mode answers only when neither the settings nor the
    circuit put it aside. *)

From S2P Require Import Prelude Text Strings Messages External Verifier OutputExit Domain Handlers MemBase Floats.
From S2P Require Import TrajStore EvoDomain EvoStore Harness RunLog ToolLoop ToolLoopFacts CodeMode.

(** ** The circuit *)

Section circuit.
  Context (s : AgentCodeModeSettings).

(** What happens to the circuit: a completion asks whether to try, a plan is audited. *)
Inductive circuit_event : Type := Asked | Audited (record : CodeModeAuditRecord).

Definition circuit_step (c : CodeModeCircuit) (e : circuit_event) : CodeModeCircuit :=
  match e with Asked => (next_attempt s c).2 | Audited record => (update_circuit s record c).2 end.

Definition alert (record : CodeModeAuditRecord) : bool :=
  should_warn_code_mode_timeouts record (normalized_timeout_warn_ratio s).

(** The alerts since the last plan without one, of the events latest first. *)
Fixpoint alerts_in_a_row (latest_first : list circuit_event) : nat :=
  match latest_first with
  | [] => 0
  | Asked :: earlier => alerts_in_a_row earlier
  | Audited record :: earlier => if alert record then S (alerts_in_a_row earlier) else 0
  end.

Definition threshold : nat := Nat.max (cm_timeout_auto_shadow_streak s) 1.

Definition tripped (latest_first : list circuit_event) : bool := threshold <=? alerts_in_a_row latest_first.

(** The times it was asked while it was tripped the last time. *)
Fixpoint asked_since_tripped (latest_first : list circuit_event) : nat :=
  match latest_first with
  | [] => 0
  | Asked :: earlier => if tripped earlier then S (asked_since_tripped earlier) else 0
  | Audited record :: earlier => if tripped latest_first then asked_since_tripped earlier else 0
  end.

Lemma threshold_pos : threshold ≠ 0.
Proof. unfold threshold. lia. Qed.

Lemma not_tripped_not_asked l : tripped l = false → asked_since_tripped l = 0.
Proof.
  destruct l as [|[|record] l]; intros H; [done|..]; cbn [asked_since_tripped].
  - change (tripped l = false) in H. by rewrite H.
  - by rewrite H.
Qed.

Lemma tripped_audit record l :
  tripped (Audited record :: l) = (alert record && (threshold <=? S (alerts_in_a_row l))).
Proof.
  unfold tripped. cbn [alerts_in_a_row]. destruct (alert record); [done|]. apply Nat.leb_gt. pose proof threshold_pos. lia.
Qed.

Lemma tripped_stays l : tripped l = true → threshold <=? S (alerts_in_a_row l) = true.
Proof. unfold tripped. rewrite !Nat.leb_le. lia. Qed.

Lemma circuit_of_events l :
  cm_timeout_auto_shadow_enabled s = true → cm_shadow_mode s = false →
  foldr (λ e c, circuit_step c e) closed_circuit l =
    {| kt_streak := alerts_in_a_row l; kt_open := tripped l; kt_probes := asked_since_tripped l |}.
Proof.
  intros He Hs. induction l as [|[|record] l IH]; cbn [foldr].
  - replace (tripped []) with false; [done|]. symmetry. apply Nat.leb_gt. pose proof threshold_pos. cbn. lia.
  - rewrite IH. cbn [circuit_step alerts_in_a_row asked_since_tripped]. unfold next_attempt. cbn [kt_open kt_streak kt_probes].
    change (tripped (Asked :: l)) with (tripped l). destruct (tripped l) eqn:E; cbn; [done|].
    f_equal. by apply not_tripped_not_asked.
  - rewrite IH. cbn [circuit_step asked_since_tripped]. rewrite tripped_audit. cbn [alerts_in_a_row].
    unfold update_circuit, next_code_mode_timeout_streak, should_open_code_mode_timeout_circuit. rewrite He, Hs.
    cbn [negb orb kt_streak kt_open kt_probes]. fold (alert record). fold threshold. destruct (alert record); cbn [andb].
    + destruct (threshold <=? S (alerts_in_a_row l)) eqn:Et; [done|]. rewrite andb_false_r. cbn [snd].
      destruct (tripped l) eqn:El; [by rewrite (tripped_stays l El) in Et|]. by rewrite not_tripped_not_asked.
    + replace (threshold <=? 0) with false by (symmetry; apply Nat.leb_gt; pose proof threshold_pos; lia).
      destruct (tripped l) eqn:El; [done|]. cbn. by rewrite not_tripped_not_asked.
Qed.

(** Equivalence with a specification on the history: with the automatic circuit on, it
    is open exactly when the last plans - as many as the configured streak, at least one -
    were all alerts, whatever asked in between; a completion asks code mode without
    condition while the circuit is closed, and while it is open every so many-th completion
    since it opened probes it and the others do not. *)
Theorem circuit_follows_the_alerts l :
  cm_timeout_auto_shadow_enabled s = true → cm_shadow_mode s = false →
  let c := foldr (λ e c, circuit_step c e) closed_circuit l in
  kt_open c = tripped l ∧
  (next_attempt s c).1 =
    if tripped l then
      if asked_since_tripped (Asked :: l) mod Nat.max (cm_timeout_auto_shadow_probe_every s) 1 =? 0
      then Some ProbeAttempt else None
    else Some NormalAttempt.
Proof.
  intros He Hs c. unfold c. rewrite circuit_of_events by done. split; [done|]. unfold next_attempt, should_probe_code_mode_timeout_circuit.
  cbn [kt_open kt_probes asked_since_tripped]. by destruct (tripped l).
Qed.
End circuit.

(** ** Running a plan *)

Section code_mode.
  Context `{ENV : LoopEnv} `{DT : DateTimes} `{JP : !JsonParse} `{TV : !ToValue VerificationResult} `{JC : !JsonConfidence}.
  Context `{SLJ : Serialize (list json)} `{PV : TurnProvider} `{RT : !ToolRuntime} `{SR : StreamReceiver}.
  Context `{SJ : !SandboxJson} `{CH : CodeModeHost} `{SER : !Serialize CodeModeExecutionReport}.
  Implicit Types (c : CodeModeState).

(** *** What is admitted *)

(** The capabilities of a tool are known and granted. *)
Definition within_capabilities (s : AgentCodeModeSettings) (tool : McpToolInfo) : Prop :=
  ∃ caps, mt_code_mode_capabilities tool = Some caps ∧
    (mc_network caps = true → cm_allow_network s = true) ∧
    (mc_filesystem caps = true → cm_allow_filesystem s = true) ∧
    (mc_env caps = true → cm_allow_env s = true).

Definition admitted_call (s : AgentCodeModeSettings) (tools : list McpToolInfo) (call : CodeModeToolCall) : Prop :=
  is_blank (kc_server call) = false ∧ is_blank (kc_tool call) = false ∧ is_kind JKObject (kc_arguments call) = true ∧
  ∃ tool, tool ∈ tools ∧ mt_server tool = kc_server call ∧ mt_name tool = kc_tool call ∧ within_capabilities s tool.

Definition admitted (s : AgentCodeModeSettings) (tools : list McpToolInfo) (plan : CodeModePlan) : Prop :=
  cm_max_parallel s ≠ 0 ∧ plan ≠ [] ∧ length plan ≤ Nat.max (cm_max_calls s) 1 ∧ Forall (admitted_call s tools) plan.

Lemma capabilities_exact s tool : validate_tool_capabilities s tool = Ok tt ↔ within_capabilities s tool.
Proof.
  unfold validate_tool_capabilities, within_capabilities. destruct (mt_code_mode_capabilities tool) as [[n f e]|]; cbn.
  - rewrite !guard_then_ok, guard_res_ok, !negb_true_iff, !andb_false_iff, !negb_false_iff. split.
    + intros (Hn & Hf & He). eexists. split; [done|]. cbn. split_and!; intros ->; naive_solver.
    + intros (caps & [= <-] & Hn & Hf & He). cbn in *. destruct n, f, e; naive_solver.
  - split; [done|by intros (? & ? & _)].
Qed.

Lemma validate_call_admitted s tools call :
  validate_planned_call s tools call = Ok tt → admitted_call s tools call.
Proof.
  unfold validate_planned_call. rewrite !guard_then_ok, negb_true_iff, orb_false_iff. intros ([H1 H2] & H3 & H4).
  destruct (List.find _ tools) as [tool|] eqn:Ef; [|done]. apply List.find_some in Ef as [Hin%list_elem_of_In Hc].
  apply andb_true_iff in Hc as [Hs%String.eqb_eq Hn%String.eqb_eq]. apply capabilities_exact in H4.
  do 2 (split; [done|]). split; [|by exists tool]. unfold as_object in H3. by destruct (is_kind JKObject _).
Qed.

Lemma validate_plan_admitted s plan tools : validate_plan s plan tools = Ok tt → admitted s tools plan.
Proof.
  unfold validate_plan. cbv zeta. rewrite !guard_then_ok, !negb_true_iff, !Nat.eqb_neq, Nat.leb_le.
  intros (H1 & H2 & H3 & H4). split; [done|]. split; [by intros ->|]. split; [done|]. clear -H4.
  induction plan as [|call plan IH]; [done|]. cbn [validate_calls] in H4. apply bind_ok in H4 as ([] & H1 & H2).
  constructor; [by apply validate_call_admitted|by apply IH].
Qed.

(** The tools a child is told of are the parent's. *)
Lemma materialized_admitted s tools plan :
  admitted s (materialize_policy_tools (allowed_tools s tools)) plan → admitted s tools plan.
Proof.
  intros (H1 & H2 & H3 & H4). do 3 (split; [done|]). eapply Forall_impl; [exact H4|]. cbv beta.
  intros call (B1 & B2 & B3 & tool & Hin & Hs & Hn & Hc). do 3 (split; [done|]).
  unfold materialize_policy_tools, allowed_tools in Hin. rewrite <- list_fmap_compose in Hin.
  apply list_elem_of_fmap in Hin as (t & -> & Ht). apply list_elem_of_In, List.filter_In in Ht as [Ht _].
  apply list_elem_of_In in Ht. by exists t.
Qed.

(** *** What is called *)

(** The call of an outcome, and what the server answered. *)
Definition outcome_call (o : CallOutcome) : CodeModeToolCall := o.1.1.
Definition outcome_answer (o : CallOutcome) : option (res json) := if timed_out o then None else Some o.1.2.

(** The calls were started and came to these outcomes, and nothing else of the service changed. *)
Definition only_ran (os : list CallOutcome) c c' : Prop :=
  ks_circuit c' = ks_circuit c ∧ ks_counters c' = ks_counters c ∧
  tn_harness (ks_turn c') = tn_harness (ks_turn c) ∧ tn_asked (ks_turn c') = tn_asked (ks_turn c) ∧
  tn_shown (ks_turn c') = tn_shown (ks_turn c) ∧
  tn_called (ks_turn c') = tn_called (ks_turn c) ++ ((λ o, (as_parsed (outcome_call o), outcome_answer o)) <$> os).

(** The calls were started, and nothing else of the service changed. *)
Definition only_called (called : list CodeModeToolCall) c c' : Prop :=
  ∃ os, outcome_call <$> os = called ∧ only_ran os c c'.

Lemma only_ran_nil c : only_ran [] c c.
Proof. do 5 (split; [done|]). by rewrite app_nil_r. Qed.

Lemma only_called_nil c : only_called [] c c.
Proof. exists []. split; [done|apply only_ran_nil]. Qed.

Lemma only_ran_app l k c c1 c2 : only_ran l c c1 → only_ran k c1 c2 → only_ran (l ++ k) c c2.
Proof.
  intros (A1 & A2 & A3 & A4 & A5 & A6) (B1 & B2 & B3 & B4 & B5 & B6).
  do 5 (split; [congruence|]). by rewrite B6, A6, fmap_app, app_assoc.
Qed.

Lemma wp_run_call timeout call c :
  wp (run_call timeout call) (λ r c', ∃ o, r = Ok o ∧ outcome_call o = call ∧ only_ran [o] c c') c.
Proof.
  unfold run_call. wp_step. apply wp_tick. intros n. cbv zeta. wp_step. apply wp_zoom. unfold note_called. do 2 wp_step.
  apply wp_put_db. wp_step.
  destruct (tool_answer n _ _ _) as [[v|e]|]; eexists; (split; [done|]); (split; [done|]); by do 5 (split; [done|]).
Qed.

Lemma wp_run_batch timeout calls c :
  wp (run_batch timeout calls) (λ r c', ∃ os, r = Ok os ∧ outcome_call <$> os = calls ∧ only_ran os c c') c.
Proof.
  revert c. induction calls as [|call calls IH]; intros c; cbn [run_batch].
  - wp_step. exists []. split; [done|]. split; [done|apply only_ran_nil].
  - wp_step. eapply wp_mono; [apply wp_run_call|]. cbv beta. intros r c1 (o & -> & Ho & H1). wp_step.
    eapply wp_mono; [apply IH|]. cbv beta. intros r c2 (os & -> & Hos & H2). wp_step.
    exists (o :: os). split; [done|]. split; [cbn; by rewrite Ho, Hos|]. exact (only_ran_app [o] _ _ _ _ H1 H2).
Qed.

Lemma wp_elapsed started (Q : res Z → CodeModeState → Prop) c : (∀ n, Q (Ok n) c) → wp (elapsed_since started) Q c.
Proof. intros H. unfold elapsed_since. wp_step. apply wp_now_nanos. intros n. by wp_step. Qed.

Lemma wp_run_batches s fuel started calls c :
  length calls ≤ fuel →
  wp (run_batches s fuel started calls)
     (λ r c', ∃ os, only_ran os c c' ∧ outcome_call <$> os `prefix_of` calls ∧
        if r is Ok os' then os' = os ∧ outcome_call <$> os = calls else True) c.
Proof.
  revert calls c. induction fuel as [|fuel IH]; intros calls c Hl; cbn [run_batches].
  { destruct calls; [|cbn in Hl; lia]. wp_step. exists []. split; [apply only_ran_nil|done]. }
  destruct calls as [|call calls]; [wp_step; exists []; split; [apply only_ran_nil|done]|].
  assert (Hb : length (drop (max_parallel s) (call :: calls)) ≤ fuel).
  { rewrite length_drop. cbn in Hl |- *. unfold max_parallel. lia. }
  revert Hb. generalize (call :: calls) as l. intros l Hb. wp_step. unfold ensure_runtime_within_budget. wp_step.
  apply wp_elapsed. intros e. wp_step.
  2: { exists []. split; [apply only_ran_nil|]. split; [apply prefix_nil|done]. }
  wp_step. apply wp_elapsed. intros e'. wp_step. eapply wp_mono; [apply wp_run_batch|]. cbv beta.
  intros r c1 (os & -> & Hos & H1). wp_step. eapply wp_mono; [by apply IH|]. cbv beta.
  intros r c2 (os' & H2 & Hp & Hr).
  assert (Hall : outcome_call <$> os ++ os' `prefix_of` l).
  { rewrite fmap_app, Hos. rewrite <- (take_drop (max_parallel s) l) at 2. by apply prefix_app. }
  destruct r as [os2|err]; [wp_step|]; (eexists; split; [exact (only_ran_app _ _ _ _ _ H1 H2)|]); (split; [done|]); [|done].
  destruct Hr as [-> Hr]. split; [done|]. rewrite fmap_app, Hos, Hr, take_drop. done.
Qed.

(** What a run of a plan does, whatever comes of it. *)
Definition ran (s : AgentCodeModeSettings) (tools : list McpToolInfo) (plan : CodeModePlan) c c' : Prop :=
  ∃ called, only_called called c c' ∧ called ⊆+ plan ∧ (called ≠ [] → admitted s tools plan).

Lemma ran_nothing s tools plan c : ran s tools plan c c.
Proof. exists []. split; [apply only_called_nil|]. split; [apply submseteq_nil_l|done]. Qed.

Lemma wp_execute_plan s plan tools c :
  wp (execute_plan s plan tools)
     (λ r c', ran s tools plan c c' ∧
        if r is Ok report then admitted s tools plan ∧
          ∃ os elapsed, only_ran os c c' ∧ outcome_call <$> os = plan ∧ report = report_of s os elapsed
        else True) c.
Proof.
  unfold execute_plan. do 2 wp_step. destruct (validate_plan s plan tools) as [[]|e] eqn:Ev; [|by split; [apply ran_nothing|]].
  apply validate_plan_admitted in Ev. wp_step. apply wp_now_nanos. intros started. wp_step.
  eapply wp_mono; [by apply wp_run_batches|]. cbv beta. intros r c' (os & Hc & Hp & Hr).
  assert (Hran : ran s tools plan c c').
  { exists (outcome_call <$> os). split; [by exists os|]. split; [|done]. destruct Hp as [rest ->]. by apply submseteq_inserts_r. }
  destruct r as [os'|e]; [|done]. destruct Hr as [-> Hr]. wp_step. apply wp_elapsed. intros elapsed. wp_step.
  split; [done|]. split; [done|]. by exists os, (elapsed / 1000000)%Z.
Qed.

Lemma wp_execute_plan_until s k plan tools c :
  wp (execute_plan_until s k plan tools) (λ _ c', ran s tools plan c c') c.
Proof.
  unfold execute_plan_until. do 2 wp_step. destruct (validate_plan s plan tools) as [[]|e] eqn:Ev; [|apply ran_nothing].
  apply validate_plan_admitted in Ev. wp_step. apply wp_now_nanos. intros started. wp_step.
  eapply wp_mono; [apply wp_run_batches; rewrite length_take; lia|]. cbv beta. intros r c' (os & Hc & Hp & _).
  assert (Hran : ran s tools plan c c').
  { exists (outcome_call <$> os). split; [by exists os|]. split; [|done].
    destruct (transitivity Hp (prefix_take plan k)) as [rest ->]. by apply submseteq_inserts_r. }
  destruct r; [by wp_step|done].
Qed.

(** The request of a plan is not read as anything else.  True of serde_json whenever the
    numbers of the plan are integers; of a fraction it may read another last digit. *)
Definition reads_back (s : AgentCodeModeSettings) (plan : CodeModePlan) (tools : list McpToolInfo) : Prop :=
  ∀ now t req, let request := sandbox_request s plan tools (subprocess_auth_token now) in
    request_text request = Ok t → request_parse (trim t) = Ok req → req = request.

Lemma local_execute s plan tools : execute_plan (local_settings s) plan tools = execute_plan s plan tools.
Proof. done. Qed.

Lemma local_execute_until s k plan tools : execute_plan_until (local_settings s) k plan tools = execute_plan_until s k plan tools.
Proof. done. Qed.

Lemma ran_materialized s tools plan c c' :
  ran s (materialize_policy_tools (allowed_tools s tools)) plan c c' → ran s tools plan c c'.
Proof. intros (called & H1 & H2 & H3). exists called. split_and!; [done..|]. intros Hne. by apply materialized_admitted, H3. Qed.

Lemma wp_child_output fate s plan tools now t c :
  let token := subprocess_auth_token now in
  reads_back s plan tools → request_text (sandbox_request s plan tools token) = Ok t →
  wp (child_output fate token t) (λ _ c', ran s tools plan c c') c.
Proof.
  intros token Hb Ht. destruct fate as [e|k|servers]; cbn [child_output].
  - wp_step. apply ran_nothing.
  - wp_step. destruct (request_parse (trim t)) as [req|e] eqn:Ep; [|by do 2 wp_step; apply ran_nothing].
    apply wp_ignore_error. rewrite (Hb now _ _ Ht Ep). cbn [kq_settings kq_plan kq_allowed_tools sandbox_request].
    rewrite local_execute_until. eapply wp_mono; [apply wp_execute_plan_until|]. cbv beta. intros _ c' H. wp_step.
    by apply ran_materialized.
  - do 2 wp_step. unfold run_subprocess_exec_from_stdin. do 2 wp_step; [|by wp_step; apply ran_nothing].
    do 2 wp_step. destruct (request_parse (trim t)) as [req|e] eqn:Ep; [|by wp_step; apply ran_nothing].
    rewrite (Hb now _ _ Ht Ep). do 2 wp_step. unfold execute_subprocess_request. do 2 wp_step.
    destruct (expected_subprocess_auth_token token) as [tk|e].
    2: { wp_step. destruct (response_text _); wp_step; apply ran_nothing. }
    do 2 wp_step. destruct (validate_subprocess_request _ tk) as [[]|e].
    2: { wp_step. destruct (response_text _); wp_step; apply ran_nothing. }
    cbv zeta. do 2 wp_step. destruct servers as [[]|e].
    2: { wp_step. destruct (response_text _); wp_step; apply ran_nothing. }
    cbn [kq_settings kq_plan kq_allowed_tools sandbox_request]. rewrite local_execute.
    eapply wp_mono; [apply wp_execute_plan|]. cbv beta. intros r c' [Hran _].
    apply ran_materialized in Hran. wp_step. by destruct (response_text _); wp_step.
Qed.

(** C23: Safety: whether a plan is executed in the process or in a child - one that runs
    slow, dies or cannot be reached included - the calls that are started are calls of the
    plan, none more often than planned; if any is started, the whole plan was admitted: it
    is no longer than the settings allow, and each of its calls has an object for its
    arguments and names an offered tool whose capabilities are declared and granted.
    Nothing else of the service changes. *)
Theorem plan_runs_as_admitted s plan tools c :
  reads_back s plan tools →
  wp (environment_execute s plan tools) (λ _ c', ran s tools plan c c') c.
Proof.
  intros Hb. unfold environment_execute. destruct (cm_execution_mode s).
  - eapply wp_mono; [apply wp_execute_plan|]. by intros r c' [H _].
  - unfold execute_plan_via_subprocess, generate_subprocess_auth_token. do 2 wp_step. apply wp_now_nanos. intros now. do 2 wp_step.
    wp_step. destruct (request_text _) as [t|e] eqn:Et; [|apply ran_nothing]. do 2 wp_step; [|apply ran_nothing].
    wp_step. apply wp_tick. intros n. wp_step. eapply wp_mono; [by apply wp_child_output|]. cbv beta.
    intros [stdout|e] c' Hran; [|done]. do 2 wp_step. destruct (response_parse _) as [resp|e]; [|done].
    by destruct (ko_ok resp); wp_step.
Qed.

(** *** The report *)

Lemma report_names s used os :
  (λ r, (kr_server r, kr_tool r, kr_ok r)) <$> call_results s used os =
  (λ o, (kc_server (outcome_call o), kc_tool (outcome_call o), negb (failed o))) <$> os.
Proof.
  revert used. induction os as [|[[call [value|e]] t] os IH]; intros used; [done| |]; cbn [call_results call_result].
  - destruct (truncate_result s value used) as [[v b] u]. by rewrite !fmap_cons, IH.
  - by rewrite !fmap_cons, IH.
Qed.

(** So many characters of a value are in a result. *)
Definition keeps (value : json) (r : CodeModeCallResult) (k : nat) : Prop :=
  let text := json_text_or "{}" value in
  (kr_truncated r = false ∧ kr_result r = Some value ∧ k = chars_count text) ∨
  (kr_truncated r = true ∧ k < chars_count text ∧
   kr_result r = Some (json_object [("truncated", json_string (take_chars k text +:+ "...(truncated)"))])) ∨
  (kr_truncated r = true ∧ k = 0 ∧
   kr_result r = Some (json_object [("truncated", json_string "(code mode output budget exhausted)")])).

(** An entry of the report says what came of the call; a failed one keeps nothing. *)
Definition reports (o : CallOutcome) (r : CodeModeCallResult) (k : nat) : Prop :=
  kr_server r = kc_server (outcome_call o) ∧ kr_tool r = kc_tool (outcome_call o) ∧
  match o.1.2 with
  | Ok value => kr_ok r = true ∧ kr_error r = None ∧ keeps value r k
  | Err e => kr_ok r = false ∧ kr_error r = Some e ∧ kr_result r = None ∧ kr_truncated r = false ∧ k = 0
  end.

Lemma truncate_keeps s value used call :
  used ≤ cm_max_result_chars s →
  let '(v, b, used') := truncate_result s value used in
  ∃ k, used' = used + k ∧ used' ≤ cm_max_result_chars s ∧ (b = true → used' = cm_max_result_chars s) ∧
    keeps value {| kr_server := kc_server call; kr_tool := kc_tool call; kr_ok := true; kr_result := Some v;
                   kr_error := None; kr_truncated := b |} k.
Proof.
  intros Hu. unfold truncate_result. cbv zeta. destruct (Nat.leb_spec (cm_max_result_chars s) used).
  { exists 0. split; [lia|]. split; [lia|]. split; [lia|]. by right; right. }
  destruct (Nat.leb_spec (chars_count (json_text_or "{}" value)) (cm_max_result_chars s - used)).
  - eexists. split; [done|]. split; [lia|]. split; [done|]. by left.
  - exists (cm_max_result_chars s - used). split; [lia|]. split; [lia|]. split; [done|]. right; left. split; [done|].
    by split; [lia|].
Qed.

Lemma results_report s used os :
  used ≤ cm_max_result_chars s →
  ∃ ks, Forall3 reports os (call_results s used os) ks ∧ used + sum_list ks ≤ cm_max_result_chars s ∧
    (existsb kr_truncated (call_results s used os) = true → used + sum_list ks = cm_max_result_chars s).
Proof.
  revert used. induction os as [|[[call [value|e]] t] os IH]; intros used Hu; cbn [call_results call_result].
  - exists []. split; [constructor|]. cbn. split; [lia|done].
  - pose proof (truncate_keeps s value used call Hu) as Hk. destruct (truncate_result s value used) as [[v b] u].
    destruct Hk as (k & -> & Hu' & Hb & Hk). destruct (IH _ Hu') as (ks & H1 & H2 & H3). exists (k :: ks).
    split; [by constructor; [split_and!|]|]. cbn [sum_list_with existsb kr_truncated] in *. unfold id in *.
    rewrite orb_true_iff. split; [lia|]. intros [->|Ht]; [|apply H3 in Ht; lia].
    specialize (Hb eq_refl). lia.
  - destruct (IH _ Hu) as (ks & H1 & H2 & H3). exists (0 :: ks). split; [by constructor; [split_and!|]|].
    cbn [sum_list_with existsb kr_truncated orb] in *. by split.
Qed.

Lemma failed_results s used os : length (List.filter failed os) = length (List.filter (λ r, negb (kr_ok r)) (call_results s used os)).
Proof.
  revert used. induction os as [|[[call [value|e]] t] os IH]; intros used; [done| |]; cbn [call_results call_result List.filter].
  - destruct (truncate_result s value used) as [[v b] u]. cbn. apply IH.
  - cbn. f_equal. apply IH.
Qed.

Lemma timed_out_failed os : length (List.filter timed_out os) ≤ length (List.filter failed os).
Proof.
  induction os as [|o os IH]; [done|]. cbn [List.filter]. unfold timed_out at 1. destruct (failed o), o.2; cbn; lia.
Qed.

(** Functional: when the executor returns a report, the plan was admitted and exactly
    its calls were started; the report has one entry for each call, in the order of the
    plan, with what came of it; its counts are those of its entries; and all its results
    together keep no more characters than the settings allow - exactly as many once a
    result had to be cut. *)
Theorem report_tells_the_plan s plan tools c :
  wp (execute_plan s plan tools)
     (λ r c', if r is Ok report then
        admitted s tools plan ∧ only_called plan c c' ∧
        kp_failed_calls report = length (List.filter (λ r, negb (kr_ok r)) (kp_calls report)) ∧
        kp_timed_out_calls report ≤ kp_failed_calls report ∧
        kp_truncated_outputs report = length (List.filter kr_truncated (kp_calls report)) ∧
        ∃ os ks, outcome_call <$> os = plan ∧ Forall3 reports os (kp_calls report) ks ∧
          sum_list ks ≤ cm_max_result_chars s ∧
          (existsb kr_truncated (kp_calls report) = true → sum_list ks = cm_max_result_chars s)
      else True) c.
Proof.
  eapply wp_mono; [apply wp_execute_plan|]. cbv beta. intros [report|e] c' [_ H]; [|done].
  destruct H as (Ha & os & elapsed & Hc & Hos & ->). split; [done|]. split; [by exists os|].
  cbn [report_of kp_calls kp_failed_calls kp_timed_out_calls kp_truncated_outputs].
  split; [apply failed_results|]. split; [apply timed_out_failed|]. split; [done|].
  destruct (results_report s 0 os (Nat.le_0_l _)) as (ks & H1 & H2 & H3). by exists os, ks.
Qed.

(** *** A child executes alike *)

(** An ASCII character that is no white space is left by [trim]. *)
Lemma trim_rev_keeps a k : ws1 a = false → byte_of a < 128 → trim_start_rev (k ++ [a]) ≠ [].
Proof.
  intros Hw Hb. unfold trim_start_rev. induction k as [|x k IH1 IH2 IH3] using trim_with_ind; cbn; [by rewrite Hw|].
  destruct (ws1 x); [exact IH1|]. destruct k as [|y k]; cbn.
  { unfold ws2. destruct (Nat.eqb_spec (byte_of a) 194); [lia|done]. }
  destruct (ws2 y x); [by eapply IH2|]. destruct k as [|z k]; cbn; [|by destruct (ws3 z y x); [eapply IH3|]].
  unfold ws3. destruct (Nat.eqb_spec (byte_of a) 225), (Nat.eqb_spec (byte_of a) 226), (Nat.eqb_spec (byte_of a) 227); try lia.
  done.
Qed.

Lemma not_blank a s : ws1 a = false → byte_of a < 128 → is_blank (String a s) = false.
Proof.
  intros Hw Hb. assert (Ht : trim_start (bytes (String a s)) = a :: bytes s).
  { unfold trim_start. rewrite trim_with_fix; [done|]. change (bytes (String a s)) with (a :: bytes s).
    generalize (bytes s). intros [|b [|c l]]; cbn; rewrite Hw; [done|..];
      unfold ws2, ws3; destruct (Nat.eqb_spec (byte_of a) 194), (Nat.eqb_spec (byte_of a) 225),
        (Nat.eqb_spec (byte_of a) 226), (Nat.eqb_spec (byte_of a) 227); try lia; done. }
  unfold is_blank, trim. rewrite Ht. cbn [rev]. pose proof (trim_rev_keeps a (rev (bytes s)) Hw Hb) as Hne.
  destruct (trim_start_rev _) as [|b l]; [done|]. cbn [rev]. by destruct (rev l).
Qed.

Lemma digest_not_blank t : sha256_digest (bytes t) ≠ [] → is_blank (sha256_hex t) = false.
Proof.
  unfold sha256_hex. destruct (sha256_digest (bytes t)) as [|b l]; [done|]. intros _. cbn [foldr].
  generalize (foldr (λ b acc, hex2 (Ascii.N_of_ascii b) +:+ acc) "" l). intros rest.
  destruct b as [[] [] [] [] [] [] [] []]; cbv -[is_blank]; by apply not_blank; [|cbv; lia].
Qed.

(** What the child makes of a tool it is told of. *)
Definition told (tool : McpToolInfo) : McpToolInfo :=
  {| mt_server := mt_server tool; mt_name := mt_name tool; mt_description := None;
     mt_input_schema := json_object [("type", json_string "object")];
     mt_code_mode_capabilities := mt_code_mode_capabilities tool |}.

Lemma find_materialized s call tools :
  Forall (λ tool, allows_tool s tool = true) tools →
  List.find (is_called call) (materialize_policy_tools (allowed_tools s tools)) = told <$> List.find (is_called call) tools.
Proof.
  unfold allowed_tools, materialize_policy_tools. induction 1 as [|tool tools Ht _ IH]; [done|].
  cbn [List.filter]. rewrite Ht, !fmap_cons. cbn [List.find]. change (is_called call _) with (is_called call tool) at 1.
  by destruct (is_called call tool).
Qed.

Lemma validate_materialized s plan tools :
  Forall (λ tool, allows_tool s tool = true) tools →
  validate_plan s plan (materialize_policy_tools (allowed_tools s tools)) = validate_plan s plan tools.
Proof.
  intros Ha. assert (Hc : validate_calls s (materialize_policy_tools (allowed_tools s tools)) plan = validate_calls s tools plan);
    [|by unfold validate_plan; rewrite Hc].
  induction plan as [|call plan IH]; [done|]. cbn [validate_calls]. rewrite IH. f_equal.
  unfold validate_planned_call. rewrite !guard_res_bind. rewrite find_materialized by done.
  destruct (negb _); [|done]. destruct (is_some (as_object _)); [|done]. by destruct (List.find _ tools).
Qed.

Lemma materialized_executes s plan tools :
  Forall (λ tool, allows_tool s tool = true) tools →
  execute_plan s plan (materialize_policy_tools (allowed_tools s tools)) = execute_plan s plan tools.
Proof. intros Ha. unfold execute_plan. by rewrite validate_materialized. Qed.

(** The JSON of a request fits and is read back, and so are responses. *)
Record sandbox_json_works (s : AgentCodeModeSettings) (plan : CodeModePlan) (tools : list McpToolInfo) : Prop := {
  sw_request now : let request := sandbox_request s plan tools (subprocess_auth_token now) in
    ∃ t, request_text request = Ok t ∧ String.length t ≤ CODE_MODE_SUBPROCESS_MAX_PAYLOAD_BYTES ∧
      request_parse (trim t) = Ok request;
  sw_response resp : ∃ t, response_text resp = Ok t ∧ response_parse (trim t) = Ok resp
}.

Lemma request_accepted s plan tools token : validate_subprocess_request (sandbox_request s plan tools token) token = Ok tt.
Proof. unfold validate_subprocess_request. cbn [kq_auth_token sandbox_request]. by rewrite String.eqb_refl. Qed.

Lemma works_reads_back s plan tools : sandbox_json_works s plan tools → reads_back s plan tools.
Proof.
  intros [Hw _] now t req request Ht Hp. destruct (Hw now) as (t' & Ht' & _ & Hp'). fold request in Ht', Hp'.
  rewrite Ht in Ht'. injection Ht' as <-. rewrite Hp in Hp'. by injection Hp'.
Qed.

(** Refinement: a child process that gets to its servers executes a plan as the process
    itself would, for the tools a completion gives it - those its settings allow: whatever
    is true of the result and the effects of the executor is true of the child's, only that
    an error has the child's words before it. *)
Theorem subprocess_executes_alike s plan tools (Q : res CodeModeExecutionReport → CodeModeState → Prop) c :
  Forall (λ tool, allows_tool s tool = true) tools →
  sandbox_json_works s plan tools →
  (∀ t, t ≠ "" → sha256_digest (bytes t) ≠ []) →
  (∀ n, child_fate n = ChildRuns (Ok tt)) →
  wp (execute_plan s plan tools) Q c →
  wp (execute_plan_via_subprocess s plan tools)
     (λ r c', ∃ r0, Q r0 c' ∧
        r = match r0 with Ok report => Ok report | Err e => Err ("code mode subprocess execution failed: " +:+ e) end) c.
Proof.
  intros Ha [Hreq Hresp] Hsha Hfate HQ. unfold execute_plan_via_subprocess, generate_subprocess_auth_token.
  do 2 wp_step. apply wp_now_nanos. intros now. wp_step.
  destruct (Hreq now) as (t & Et & Hlen & Ep).
  assert (Htoken : is_blank (subprocess_auth_token now) = false) by by apply digest_not_blank, Hsha.
  revert Et Ep Htoken. generalize (subprocess_auth_token now) as token. intros token Et Ep Htoken. apply Nat.leb_le in Hlen.
  rewrite Et. do 2 wp_step. do 2 wp_step; [|congruence]. wp_step. apply wp_tick. intros n. rewrite Hfate. cbn [child_output].
  do 2 wp_step. wp_step. unfold run_subprocess_exec_from_stdin. do 2 wp_step; [|congruence].
  rewrite Ep. do 4 wp_step. unfold execute_subprocess_request, expected_subprocess_auth_token. rewrite Htoken. do 2 wp_step.
  cbn [negb guard_res mbind res_bind]. rewrite request_accepted.
  repeat (wp_step; cbv beta iota zeta). cbn [kq_settings kq_plan kq_allowed_tools sandbox_request]. rewrite local_execute, materialized_executes by done.
  eapply wp_mono; [exact HQ|]. cbv beta. intros r c' Hr. wp_step.
  destruct (Hresp (response_of r)) as (out & Eo & Er). rewrite Eo.
  repeat wp_step. rewrite Er. repeat wp_step.
  destruct r as [report|e]; cbn; repeat wp_step; by eexists.
Qed.

(** ** The books *)

Section books.
  Context (result_text : OutputVerificationResult → option string) (turn : TurnSettings) (source : TurnSource).
  Context (settings : AgentCodeModeSettings) (planner : CodeModePlanner).

(** The circuit and the counters are as they were. *)
Definition same_books c c' : Prop := ks_circuit c' = ks_circuit c ∧ ks_counters c' = ks_counters c.

#[local] Instance same_books_preorder : PreOrder same_books.
Proof. split; [done|]. intros a b d [H1 H2] [H3 H4]. split; congruence. Qed.

Lemma code_turn_books {A} (m : M TurnState A) : stable same_books (on_code_turn m).
Proof. apply stable_zoom with (R := λ _ _, True); [done|by intros w]. Qed.

#[local] Hint Resolve code_turn_books : stab.

Lemma run_batch_books timeout calls : stable same_books (run_batch timeout calls).
Proof. induction calls as [|call calls IH]; cbn [run_batch]; [stable_go|]. unfold run_call. stable_go. Qed.

#[local] Hint Resolve run_batch_books : stab.

Lemma run_batches_books s fuel started calls : stable same_books (run_batches s fuel started calls).
Proof.
  revert calls. induction fuel as [|fuel IH]; intros [|call calls]; cbn [run_batches]; [stable_go..|].
  unfold ensure_runtime_within_budget, elapsed_since. stable_go.
Qed.

#[local] Hint Resolve run_batches_books : stab.

Lemma execute_books s plan tools : stable same_books (execute_plan s plan tools).
Proof. unfold execute_plan, elapsed_since. stable_go. Qed.

#[local] Hint Resolve execute_books : stab.

Lemma environment_books s plan tools : stable same_books (environment_execute s plan tools).
Proof.
  unfold environment_execute, execute_plan_via_subprocess, generate_subprocess_auth_token, child_output, execute_plan_until,
    run_subprocess_exec_from_stdin, execute_subprocess_request, elapsed_since. cbv zeta. stable_go.
Qed.

Lemma build_plan_books history tools : stable same_books (build_plan planner history tools).
Proof.
  unfold build_plan. cbv zeta. stable_go; apply stable_wrap_error; stable_go.
Qed.

Lemma record_calls_books i calls run : stable same_books (record_calls i calls run).
Proof. revert i run. induction calls as [|call calls IH]; intros i run; cbn [record_calls]; stable_go. Qed.

#[local] Hint Resolve environment_books build_plan_books record_calls_books : stab.

Lemma answer_books history execution d :
  stable same_books (answer_from_report result_text turn source history execution d).
Proof. unfold answer_from_report, fail_run, finish_code_run. cbv zeta. stable_go. Qed.

(** What an attempt enters into the books: nothing when planning fails; a fallback; or the
    audit of a plan that was executed, with the circuit's answer to it. *)
Definition entered (force_shadow : bool) (r : res (option CodeModeCompletion)) c c' : Prop :=
  (same_books c c' ∧ is_ok r = false) ∨
  (∃ audit, ka_used audit = false ∧ ka_fallback audit = true ∧ r = Ok None ∧ ks_circuit c' = ks_circuit c ∧
     ks_counters c' = count_attempt audit force_shadow CircuitKept (ks_counters c)) ∨
  (∃ planned execution elapsed,
     let audit := execution_audit settings planner force_shadow planned execution elapsed in
     let '(change, circuit) := update_circuit settings audit (ks_circuit c) in
     ks_circuit c' = circuit ∧
     ks_counters c' = count_attempt (audit_after change force_shadow audit) force_shadow change (ks_counters c) ∧
     (r = Ok None ∨ cm_shadow_mode settings = false ∧ force_shadow = false ∧ change ≠ CircuitOpened)).

Lemma entered_after force_shadow r c c1 c' : same_books c c1 → entered force_shadow r c1 c' → entered force_shadow r c c'.
Proof.
  intros [H1 H2]. unfold entered, same_books. by rewrite H1, H2.
Qed.

Lemma wp_fallback audit force_shadow c :
  ka_used audit = false → ka_fallback audit = true →
  wp (record_code_mode_counters audit force_shadow CircuitKept ;; mret None) (λ r c', entered force_shadow r c c') c.
Proof.
  intros H1 H2. wp_step. unfold record_code_mode_counters. do 2 wp_step. apply wp_put_db. wp_step. right; left.
  by exists audit.
Qed.

Lemma wp_attempt history tools force_shadow d c :
  wp (complete_with_code_mode result_text turn source settings planner history tools force_shadow d)
     (λ r c', entered force_shadow r c c') c.
Proof.
  unfold complete_with_code_mode. wp_step. apply wp_now_nanos. intros started. cbv zeta.
  destruct (List.filter _ tools) as [|tool allowed]; [by apply wp_fallback|].
  eapply (wp_bind_stable same_books); [apply build_plan_books|intros e c1 H1; by left|intros [plan|] c1 H1].
  2: { eapply wp_mono; [by apply wp_fallback|]. cbv beta. intros r c2. by apply entered_after. }
  eapply (wp_bind_stable same_books); [stable_go| |].
  { intros e c2 H2. left. split; [by etrans|done]. }
  intros execution c2 H2. assert (H02 : same_books c c2) by by etrans. wp_step. apply wp_elapsed. intros elapsed.
  destruct execution as [execution|e].
  2: { eapply wp_mono; [by apply wp_fallback|]. cbv beta. intros r c3. by apply entered_after. }
  eapply wp_mono; [|intros r c3; apply entered_after, H02]. clear c H1 H2 H02 c1. rename c2 into c.
  wp_step. unfold update_code_mode_timeout_circuit. do 2 wp_step.
  destruct (update_circuit settings _ (ks_circuit c)) as [change circuit] eqn:Eu. wp_step. unfold put_circuit. do 2 wp_step.
  apply wp_put_db. do 2 wp_step. unfold record_code_mode_counters. do 2 wp_step. apply wp_put_db. cbn [ks_turn ks_circuit ks_counters].
  set (c1 := {| ks_turn := _; ks_circuit := circuit |}).
  assert (Hdone : ∀ r c', same_books c1 c' →
    (r = Ok None ∨ cm_shadow_mode settings = false ∧ force_shadow = false ∧ change ≠ CircuitOpened) →
    entered force_shadow r c c').
  { intros r c' [H1 H2] Hr. right; right. exists (length plan), execution, elapsed. cbv zeta. rewrite Eu. by rewrite H1, H2. }
  destruct (_ || _) eqn:Eb.
  - wp_step. apply Hdone; [done|by left].
  - apply orb_false_iff in Eb as [[Es Ef]%orb_false_iff Ec].
    assert (Hr : cm_shadow_mode settings = false ∧ force_shadow = false ∧ change ≠ CircuitOpened)
      by (do 2 (split; [done|]); by destruct change).
    eapply (wp_bind_stable same_books); [apply answer_books|intros e c2 H2; apply Hdone; [done|by right]|].
    intros completion c2 H2. wp_step. apply Hdone; [done|by right].
Qed.

(** Every attempt is a use or a fallback, the circuit is open when it opened once more than
    it closed, and probes are fallbacks. *)
Definition books_balance c : Prop :=
  kn_attempts (ks_counters c) = kn_used (ks_counters c) + kn_fallback (ks_counters c) ∧
  kn_opened (ks_counters c) = kn_closed (ks_counters c) + Nat.b2n (kt_open (ks_circuit c)) ∧
  kn_probe_attempts (ks_counters c) ≤ kn_fallback (ks_counters c).

Lemma update_circuit_change audit circuit :
  let '(change, circuit') := update_circuit settings audit circuit in
  match change with
  | CircuitKept => kt_open circuit' = kt_open circuit
  | CircuitOpened => kt_open circuit = false ∧ kt_open circuit' = true
  | CircuitClosed => kt_open circuit = true ∧ kt_open circuit' = false
  end.
Proof.
  unfold update_circuit. destruct (_ || _); [done|]. cbv zeta. destruct (should_open_code_mode_timeout_circuit _ _).
  - by destruct (kt_open circuit) eqn:E.
  - by destruct (kt_open circuit) eqn:E, (should_warn_code_mode_timeouts _ _).
Qed.

Lemma count_balances used fallback audit force_shadow change c c' :
  ka_used audit = used → ka_fallback audit = fallback → used = negb fallback → (force_shadow = true → fallback = true) →
  ks_counters c' = count_attempt audit force_shadow change (ks_counters c) →
  match change with
  | CircuitKept => kt_open (ks_circuit c') = kt_open (ks_circuit c)
  | CircuitOpened => kt_open (ks_circuit c) = false ∧ kt_open (ks_circuit c') = true
  | CircuitClosed => kt_open (ks_circuit c) = true ∧ kt_open (ks_circuit c') = false
  end → books_balance c → books_balance c'.
Proof.
  intros Hu Hf Hx Hp Hk Ho (B1 & B2 & B3). unfold books_balance. rewrite Hk. unfold count_attempt.
  cbn [kn_attempts kn_used kn_fallback kn_opened kn_closed kn_probe_attempts]. rewrite Hu, Hf, Hx.
  split; [destruct fallback; cbn; lia|]. split; [|destruct force_shadow; [rewrite Hp by done|]; destruct fallback; cbn; lia].
  rewrite B2. destruct change; [rewrite Ho; cbn; lia|destruct Ho as [-> ->]; cbn; lia..].
Qed.

Lemma audit_is_use_or_fallback change force_shadow planned execution elapsed :
  let audit := audit_after change force_shadow (execution_audit settings planner force_shadow planned execution elapsed) in
  ka_used audit = negb (ka_fallback audit).
Proof. destruct change, force_shadow; cbn; by destruct (cm_shadow_mode settings). Qed.

Lemma probe_falls_back change force_shadow planned execution elapsed :
  force_shadow = true →
  ka_fallback (audit_after change force_shadow (execution_audit settings planner force_shadow planned execution elapsed)) = true.
Proof. intros ->. destruct change; cbn; by rewrite ?orb_true_r. Qed.

Lemma entered_balances force_shadow r c c' : entered force_shadow r c c' → books_balance c → books_balance c'.
Proof.
  intros [[[H1 H2] _]|[(audit & Hu & Hf & _ & Hc & Hk)|(planned & execution & elapsed & H)]] Hb.
  - unfold books_balance. by rewrite H1, H2.
  - by apply (count_balances false true audit force_shadow CircuitKept c); [..|rewrite Hc|].
  - cbv zeta in H. set (audit := execution_audit _ _ _ _ _ _) in H.
    pose proof (update_circuit_change audit (ks_circuit c)) as Hch. destruct (update_circuit _ _ _) as [change circuit].
    destruct H as (<- & Hk & _). eapply count_balances; [done|done| | |exact Hk|exact Hch|exact Hb].
    + apply audit_is_use_or_fallback.
    + apply probe_falls_back.
Qed.

(** Invariant of code mode: after any attempt, successful or not, every attempt that
    was counted is either a use or a fallback, every probe is a fallback, and the circuit
    is open exactly when it was opened once more than closed.  An answer comes from code
    mode only when it is enabled and neither in shadow mode nor taken out of use - the
    circuit was closed before and stayed closed - and then it was counted as a use. *)
Theorem code_mode_books_balance history tools d c :
  books_balance c →
  wp (try_code_mode result_text turn source settings planner history tools d)
     (λ r c', books_balance c' ∧ ∃ answer, r = Ok answer ∧
        (answer ≠ None → cm_enabled settings = true ∧ cm_shadow_mode settings = false ∧
           kt_open (ks_circuit c) = false ∧ kt_open (ks_circuit c') = false ∧
           kn_used (ks_counters c') = kn_used (ks_counters c) + 1)) c.
Proof.
  intros Hb. unfold try_code_mode. destruct (cm_enabled settings) eqn:Ee; cbn [negb].
  2: { wp_step. split; [done|]. by exists None. }
  wp_step. unfold next_code_mode_attempt. do 2 wp_step. unfold next_attempt. destruct (kt_open (ks_circuit c)) eqn:Eo; cbn [negb].
  - wp_step. unfold put_circuit. do 2 wp_step. apply wp_put_db. wp_step. set (c1 := {| ks_circuit := _ |}).
    assert (Hb1 : books_balance c1) by (revert Hb; unfold books_balance; cbn; by rewrite Eo).
    destruct (should_probe_code_mode_timeout_circuit _ _).
    + do 2 wp_step. eapply wp_mono; [apply wp_attempt|]. cbv beta. intros r c' H. wp_step.
      split; [by eapply entered_balances|]. exists (match r with Ok answer => answer | Err _ => None end). split; [done|].
      intros Hne. exfalso. destruct H as [[_ H]|[(_ & _ & _ & -> & _)|(? & ? & ? & H)]]; [by destruct r|done|].
      cbv zeta in H. destruct (update_circuit _ _ _). destruct H as (_ & _ & [->|(_ & Hf & _)]); done.
    + wp_step. split; [done|]. by exists None.
  - wp_step. unfold put_circuit. do 2 wp_step. apply wp_put_db. wp_step. set (c1 := {| ks_circuit := _ |}).
    assert (Hb1 : books_balance c1) by (revert Hb; unfold books_balance; cbn; by rewrite Eo).
    do 2 wp_step. eapply wp_mono; [apply wp_attempt|]. cbv beta. intros r c' H. wp_step.
    split; [by eapply entered_balances|]. exists (match r with Ok answer => answer | Err _ => None end). split; [done|].
    intros Hne. destruct H as [[_ H]|[(_ & _ & _ & -> & _)|(planned & execution & elapsed & H)]]; [by destruct r|done|].
    cbv zeta in H. set (audit := execution_audit _ _ _ _ _ _) in H.
    pose proof (update_circuit_change audit (ks_circuit c1)) as Hch. destruct (update_circuit _ _ _) as [change circuit].
    destruct H as (<- & Hk & [->|(Hs & _ & Hc)]); [done|]. cbn [c1 ks_circuit] in Hch.
    do 3 (split; [done|]). destruct change; [|done|by rewrite Eo in Hch; destruct Hch].
    split; [by rewrite Hch|]. rewrite Hk. cbn. by rewrite Hs.
Qed.
End books.

(** ** The answers of code mode *)

Section answers.
  Context (result_text : OutputVerificationResult → option string) (turn : TurnSettings) (source : TurnSource).
  Context (settings : AgentCodeModeSettings) (planner : CodeModePlanner).

(** Nothing was shown; calls may have been made. *)
Definition unshown c c' : Prop :=
  tn_shown (ks_turn c') = tn_shown (ks_turn c) ∧
  ∃ called, tn_called (ks_turn c') = tn_called (ks_turn c) ++ called.

#[local] Instance unshown_preorder : PreOrder unshown.
Proof.
  split; [intros c; split; [done|exists []; by rewrite app_nil_r]|].
  intros a b d [H1 [l Hl]] [H2 [k Hk]]. split; [congruence|]. exists (l ++ k). by rewrite Hk, Hl, app_assoc.
Qed.

(** Nothing was called or shown. *)
Definition quiet (t t' : TurnState) : Prop := tn_shown t' = tn_shown t ∧ tn_called t' = tn_called t.

#[local] Instance quiet_preorder : PreOrder quiet.
Proof. split; [done|]. intros a b d [H1 H2] [H3 H4]. split; congruence. Qed.

Lemma quiet_unshown t c : quiet (ks_turn c) t →
  unshown c {| ks_turn := t; ks_circuit := ks_circuit c; ks_counters := ks_counters c |}.
Proof. intros [H1 H2]. split; [done|]. exists []. by rewrite app_nil_r. Qed.

Lemma code_quiet {A} (m : M TurnState A) : stable quiet m → stable unshown (on_code_turn m).
Proof. intros H. apply stable_zoom with (R := quiet); [|done]. intros c t. apply quiet_unshown. Qed.

Lemma harness_quiet {A} (m : M HarnessDb A) : stable quiet (on_turn_harness m).
Proof. apply stable_zoom with (R := λ _ _, True); [done|by intros w]. Qed.

Lemma note_asked_quiet messages : stable quiet (note_asked messages).
Proof. by intros w. Qed.

#[local] Hint Resolve harness_quiet note_asked_quiet : stab.

Lemma complete_quiet kind run messages : stable quiet (complete_provider_for_run kind run messages).
Proof. unfold complete_provider_for_run. stable_go. Qed.

#[local] Hint Resolve code_quiet complete_quiet : stab.

Lemma note_called_unshown call answer : stable unshown (on_code_turn (note_called call answer)).
Proof. intros w. split; [done|]. by exists [(call, answer)]. Qed.

Lemma put_circuit_unshown circuit : stable unshown (put_circuit circuit).
Proof. intros w. split; [done|]. exists []. by rewrite app_nil_r. Qed.

Lemma counters_unshown audit force_shadow change : stable unshown (record_code_mode_counters audit force_shadow change).
Proof. intros w. split; [done|]. exists []. by rewrite app_nil_r. Qed.

#[local] Hint Resolve note_called_unshown put_circuit_unshown counters_unshown : stab.

Lemma run_batch_unshown timeout calls : stable unshown (run_batch timeout calls).
Proof. induction calls as [|call calls IH]; cbn [run_batch]; [stable_go|]. unfold run_call. stable_go. Qed.

#[local] Hint Resolve run_batch_unshown : stab.

Lemma run_batches_unshown s fuel started calls : stable unshown (run_batches s fuel started calls).
Proof.
  revert calls. induction fuel as [|fuel IH]; intros [|call calls]; cbn [run_batches]; [stable_go..|].
  unfold ensure_runtime_within_budget, elapsed_since. stable_go.
Qed.

#[local] Hint Resolve run_batches_unshown : stab.

Lemma execute_unshown s plan tools : stable unshown (execute_plan s plan tools).
Proof. unfold execute_plan, elapsed_since. stable_go. Qed.

#[local] Hint Resolve execute_unshown : stab.

Lemma environment_unshown s plan tools : stable unshown (environment_execute s plan tools).
Proof.
  unfold environment_execute, execute_plan_via_subprocess, generate_subprocess_auth_token, child_output, execute_plan_until,
    run_subprocess_exec_from_stdin, execute_subprocess_request, elapsed_since. cbv zeta. stable_go.
Qed.

Lemma build_plan_unshown history tools : stable unshown (build_plan planner history tools).
Proof. unfold build_plan. cbv zeta. stable_go; apply stable_wrap_error; stable_go. Qed.

Lemma record_calls_unshown i calls run : stable unshown (record_calls i calls run).
Proof. revert i run. induction calls as [|call calls IH]; intros i run; cbn [record_calls]; stable_go. Qed.

#[local] Hint Resolve environment_unshown build_plan_unshown record_calls_unshown : stab.

Lemma went_quiet n k a t t' : went turn [] n k a a [] t t' → quiet t t'.
Proof.
  intros [_ (called & records & H1 & H2 & _ & H4 & _) H3]. rewrite app_nil_r in H3. split; [done|].
  rewrite <- (app_nil_r a) in H2 at 1. apply app_inv_head in H2 as <-. apply calls_on_record_length in H4.
  destruct called; [|cbn in H4; lia]. by rewrite app_nil_r in H1.
Qed.

(** The text was let out by the verification. *)
Definition vouched (text : string) : Prop := ∃ calls, let_out result_text turn source calls text.

Lemma wp_answer history execution d c :
  wp (answer_from_report result_text turn source history execution d)
     (λ r c', unshown c c' ∧ if r is Ok a then vouched (into_text a) else True) c.
Proof.
  assert (Hfail : ∀ e run c1, unshown c c1 →
    wp (fail_run (A := CodeModeCompletion) e run) (λ r c', unshown c c' ∧ if r is Ok a then vouched (into_text a) else True) c1).
  { intros e run c1 H1. unfold fail_run, finish_code_run. eapply (wp_bind_stable unshown); [stable_go| |].
    - intros e' c2 H2. split; [by etrans|done].
    - intros run' c2 H2. wp_step. split; [by etrans|done]. }
  unfold answer_from_report. cbv zeta.
  eapply (wp_bind_stable unshown); [stable_go|intros e c1 H1; by split|intros run c1 H1].
  eapply (wp_bind_stable unshown); [stable_go|intros e c2 H2; split; [by etrans|done]|intros [run' records] c2 H2].
  assert (H02 : unshown c c2) by by etrans. clear H1 H2.
  eapply (wp_bind_stable unshown); [stable_go|intros e c3 H3; split; [by etrans|done]|intros asked c3 H3].
  assert (H03 : unshown c c3) by by etrans. clear H02 H3. destruct asked as [[run2 reply]|e]; [|by apply Hfail].
  do 2 wp_step. apply wp_zoom. eapply wp_mono; [apply wp_verify with (tools := [])|]. cbv beta. intros r t [Hw Hr].
  apply went_quiet in Hw. apply quiet_unshown in Hw. set (c4 := {| ks_turn := t |}) in *. clearbody c4.
  assert (H04 : unshown c c4) by by etrans. destruct r as [text|e]; [|by apply Hfail]. cbv zeta. destruct d.
  - wp_step. split; [done|]. by exists records.
  - unfold finish_code_run. eapply (wp_bind_stable unshown); [stable_go|intros e c5 H5; split; [by etrans|done]|].
    intros run3 c5 H5. wp_step. split; [by etrans|]. by exists records.
Qed.

Lemma wp_complete_vouched history tools force_shadow d c :
  wp (complete_with_code_mode result_text turn source settings planner history tools force_shadow d)
     (λ r c', unshown c c' ∧ if r is Ok (Some a) then vouched (into_text a) else True) c.
Proof.
  assert (Hnone : ∀ audit c1, unshown c c1 →
    wp (record_code_mode_counters audit force_shadow CircuitKept ;; mret None)
       (λ r c', unshown c c' ∧ if r is Ok (Some a) then vouched (into_text a) else True) c1).
  { intros audit c1 H1. eapply (wp_bind_stable unshown); [stable_go|intros e c2 H2; split; [by etrans|done]|].
    intros u c2 H2. wp_step. split; [by etrans|done]. }
  unfold complete_with_code_mode. wp_step. apply wp_now_nanos. intros started. cbv zeta.
  destruct (List.filter _ tools) as [|tool allowed]; [by apply Hnone|].
  eapply (wp_bind_stable unshown); [stable_go|intros e c1 H1; by split|intros [plan|] c1 H1; [|by apply Hnone]].
  eapply (wp_bind_stable unshown); [stable_go|intros e c2 H2; split; [by etrans|done]|intros execution c2 H2].
  assert (H02 : unshown c c2) by by etrans. clear H1 H2. wp_step. apply wp_elapsed. intros elapsed.
  destruct execution as [execution|e]; [|by apply Hnone].
  eapply (wp_bind_stable unshown).
  { unfold update_code_mode_timeout_circuit. stable_go. }
  { intros e c3 H3. split; [by etrans|done]. }
  intros change c3 H3. eapply (wp_bind_stable unshown); [stable_go|intros e c4 H4; split; [by do 2 (etrans; [done|])|done]|].
  intros u c4 H4. assert (H04 : unshown c c4) by by do 2 (etrans; [done|]). destruct (_ || _); [by wp_step|].
  wp_step. eapply wp_mono; [apply wp_answer|]. cbv beta. intros [a|e] c5 [H5 Ha]; [wp_step|]; (split; [by etrans|done]).
Qed.

Lemma wp_next_attempt c :
  wp (next_code_mode_attempt settings) (λ r c', unshown c c' ∧ ∃ attempt, r = Ok attempt) c.
Proof.
  unfold next_code_mode_attempt. do 2 wp_step. destruct (next_attempt _ _) as [attempt circuit]. wp_step.
  unfold put_circuit. do 2 wp_step. apply wp_put_db. wp_step. split; [|by exists attempt]. by apply (quiet_unshown (ks_turn c) c).
Qed.

(** An attempt shows nothing, and an answer it makes was let out by the verification. *)
Lemma wp_try_code_mode history tools d c :
  wp (try_code_mode result_text turn source settings planner history tools d)
     (λ r c', unshown c c' ∧ (cm_enabled settings = false → c' = c) ∧
        ∃ answer, r = Ok answer ∧ if answer is Some a then vouched (into_text a) else True) c.
Proof.
  unfold try_code_mode. destruct (cm_enabled settings); cbn [negb]; [|by wp_step; split; [|split; [|exists None]]].
  wp_step. eapply wp_mono; [apply wp_next_attempt|]. cbv beta. intros r c1 (H1 & attempt & ->).
  destruct attempt as [attempt|]; [|by wp_step; split; [|split; [|exists None]]].
  do 2 wp_step. eapply wp_mono; [apply wp_complete_vouched|]. cbv beta. intros r c2 [H2 Ha]. wp_step.
  split; [by etrans|]. split; [done|]. eexists. split; [done|]. by destruct r as [[a|]|e].
Qed.
(** *** What a plan's answer was verified against *)

(** Nothing was called or shown. *)
Definition silent c c' : Prop := quiet (ks_turn c) (ks_turn c').

#[local] Instance silent_preorder : PreOrder silent.
Proof. split; [done|]. intros a b d H1 H2. by apply (transitivity (R := quiet) H1 H2). Qed.

Lemma code_silent {A} (m : M TurnState A) : stable quiet m → stable silent (on_code_turn m).
Proof. intros H. by apply stable_zoom with (R := quiet). Qed.

Lemma verify_quiet history answer calls : stable quiet (verify_final_answer result_text turn source history answer calls).
Proof. unfold verify_final_answer. stable_go. Qed.

Lemma put_circuit_silent circuit : stable silent (put_circuit circuit).
Proof. by intros w. Qed.

Lemma counters_silent audit force_shadow change : stable silent (record_code_mode_counters audit force_shadow change).
Proof. by intros w. Qed.

#[local] Hint Resolve code_silent verify_quiet put_circuit_silent counters_silent : stab.

Lemma build_plan_silent history tools : stable silent (build_plan planner history tools).
Proof. unfold build_plan. cbv zeta. stable_go; apply stable_wrap_error; stable_go. Qed.

Lemma circuit_silent audit : stable silent (update_code_mode_timeout_circuit settings audit).
Proof. unfold update_code_mode_timeout_circuit. stable_go. Qed.

Lemma attempt_silent : stable silent (next_code_mode_attempt settings).
Proof. unfold next_code_mode_attempt. stable_go. Qed.

Lemma finish_silent exit run : stable silent (finish_code_run exit run).
Proof. unfold finish_code_run. stable_go. Qed.

#[local] Hint Resolve build_plan_silent circuit_silent attempt_silent finish_silent : stab.

(** The record made of an entry of a report. *)
Definition record_of (entry : CodeModeCallResult) (record : ToolCallRecord) : Prop :=
  tc_server record = kr_server entry ∧ tc_tool record = kr_tool entry ∧ tc_ok record = kr_ok entry.

Lemma wp_record_calls i calls run c :
  wp (record_calls i calls run)
     (λ r c', silent c c' ∧ ∃ run' records, r = Ok (run', records) ∧ Forall2 record_of calls records) c.
Proof.
  revert i run c. induction calls as [|call calls IH]; intros i run c; cbn [record_calls].
  { wp_step. split; [done|]. exists run, []. by split. }
  wp_step. apply wp_zoom. eapply wp_mono; [apply wp_record|]. cbv beta. intros r t ((_ & H1 & H2) & run1 & k & ->).
  wp_step. eapply wp_mono; [apply IH|]. cbv beta. intros r c2 (H3 & run2 & records & -> & Hr). wp_step.
  split; [etrans; [|exact H3]; by split|]. exists run2, (with_call_index k (code_mode_tool_call_record call i) :: records).
  split; [done|]. by constructor.
Qed.

Lemma wp_answer_verified history execution d c :
  wp (answer_from_report result_text turn source history execution d)
     (λ r c', silent c c' ∧ if r is Ok a then
        ∃ records, Forall2 record_of (kp_calls execution) records ∧ let_out result_text turn source records (into_text a)
      else True) c.
Proof.
  set (P := λ (r : res CodeModeCompletion) c', silent c c' ∧ _).
  assert (Hfail : ∀ e run c1, silent c c1 → wp (fail_run (A := CodeModeCompletion) e run) P c1).
  { intros e run c1 H1. unfold fail_run. eapply (wp_bind_stable silent); [stable_go| |].
    - intros e' c2 H2. split; [by etrans|done].
    - intros run' c2 H2. wp_step. split; [by etrans|done]. }
  unfold answer_from_report. cbv zeta.
  eapply (wp_bind_stable silent); [stable_go|intros e c1 H1; by split|intros run c1 H1].
  wp_step. eapply wp_mono; [apply wp_record_calls|]. cbv beta. intros r c2 (H2 & run' & records & -> & Hrec).
  eapply (wp_bind_stable silent); [stable_go|intros e c3 H3; split; [by do 2 (etrans; [done|])|done]|intros asked c3 H3].
  assert (H03 : silent c c3) by by do 2 (etrans; [done|]). clear H1 H2 H3.
  destruct asked as [[run2 reply]|e]; [|by apply Hfail].
  do 2 wp_step. apply wp_zoom.
  eapply wp_mono; [apply wp_and; [apply (wp_of_stable quiet), verify_quiet|apply wp_verify with (tools := [])]|].
  cbv beta. intros r t [Hq [_ Hr]]. set (c4 := {| ks_turn := t |}).
  assert (H04 : silent c c4) by (etrans; [exact H03|exact Hq]). clearbody c4.
  destruct r as [text|e]; [|by apply Hfail]. cbv zeta. destruct d.
  - wp_step. split; [done|]. by exists records.
  - eapply (wp_bind_stable silent); [stable_go|intros e c5 H5; split; [by etrans|done]|].
    intros run3 c5 H5. wp_step. split; [by etrans|]. by exists records.
Qed.

(** The record of a call that a plan ran: it counts as a success exactly when the server
    answered with a result in time. *)
Definition plan_recorded (run : ParsedToolCall * option (res json)) (record : ToolCallRecord) : Prop :=
  tc_server record = pc_server run.1 ∧ tc_tool record = pc_tool run.1 ∧
  (tc_ok record = true ↔ ∃ value, run.2 = Some (Ok value)).

Lemma reported_outcomes s used os records :
  Forall2 record_of (call_results s used os) records →
  Forall2 plan_recorded ((λ o, (as_parsed (outcome_call o), outcome_answer o)) <$> os) records.
Proof.
  revert used records. induction os as [|[[call result] late] os IH]; intros used records H; cbn [call_results] in H.
  { inversion H. constructor. }
  destruct (call_result s (call, result, late) used) as [entry used'] eqn:E.
  apply Forall2_cons_inv_l in H as (record & records' & (H1 & H2 & H3) & Hrest & ->).
  cbn [fmap list_fmap]. constructor; [|by eapply IH]. unfold plan_recorded. cbn [fst snd as_parsed outcome_call pc_server pc_tool].
  unfold outcome_answer, timed_out, failed. cbn [fst snd]. destruct result as [value|e]; cbn [call_result] in E.
  - destruct (truncate_result s value used) as [[v b] u]. injection E as <- <-. cbn in *. rewrite H1, H2, H3.
    split; [done|]. split; [done|]. split; [by exists value|done].
  - injection E as <- <-. cbn in *. rewrite H1, H2, H3. split; [done|]. split; [done|]. split; [done|].
    by destruct late; intros (value & [=]).
Qed.

(** The answer was let out against the records of all calls that ran. *)
Definition plan_verified (answer : CodeModeCompletion) c c' : Prop :=
  ∃ ran records, tn_called (ks_turn c') = tn_called (ks_turn c) ++ ran ∧ Forall2 plan_recorded ran records ∧
    let_out result_text turn source records (into_text answer).

Lemma wp_complete_verified history tools force_shadow d c :
  cm_execution_mode settings = Local →
  wp (complete_with_code_mode result_text turn source settings planner history tools force_shadow d)
     (λ r c', ∀ answer, r = Ok (Some answer) → plan_verified answer c c') c.
Proof.
  intros Hlocal.
  assert (Hnone : ∀ audit change c1, wp (record_code_mode_counters audit force_shadow change ;; mret None)
    (λ r c', ∀ answer, r = Ok (Some answer) → plan_verified answer c c') c1).
  { intros audit change c1. eapply (wp_bind_stable silent); [stable_go|done|]. intros u c2 _. by wp_step. }
  unfold complete_with_code_mode. wp_step. apply wp_now_nanos. intros started. cbv zeta.
  destruct (List.filter _ tools) as [|tool allowed]; [apply Hnone|].
  eapply (wp_bind_stable silent); [stable_go|done|intros [plan|] c1 [_ H1]; [|apply Hnone]].
  unfold environment_execute. rewrite Hlocal. do 2 wp_step.
  eapply wp_mono; [apply wp_execute_plan|]. cbv beta. intros execution c2 [_ H2]. wp_step. apply wp_elapsed. intros elapsed.
  destruct execution as [execution|e]; [|apply Hnone]. destruct H2 as (_ & os & spent & (_ & _ & _ & _ & _ & H2) & _ & ->).
  eapply (wp_bind_stable silent); [stable_go|done|intros change c3 [_ H3]].
  eapply (wp_bind_stable silent); [stable_go|done|intros u c4 [_ H4]]. destruct (_ || _); [by wp_step|].
  wp_step. eapply wp_mono; [apply wp_answer_verified|]. cbv beta. intros [a|e] c5 [[_ H5] Ha]; [|done].
  wp_step. intros answer [= <-]. destruct Ha as (records & Hr & Hl). eexists _, records.
  split; [rewrite H5, H4, H3, H2, H1; reflexivity|]. split; [exact (reported_outcomes settings 0 os records Hr)|done].
Qed.

(** C29: Safety: with output verification enforced, an answer that code mode gives after it ran
    its plan in the process was verified against one record for each call that ran, in the
    order they ran: the record names the call's server and tool, and counts as a success
    exactly when the server answered with a result in time.  (A child process runs the plan
    as the process would.) *)
Theorem plan_answer_is_verified history tools d c :
  cm_execution_mode settings = Local →
  ts_output_verifier turn = true → ts_output_mode turn = Block ∨ ts_output_mode turn = ReviseOnce →
  wp (try_code_mode result_text turn source settings planner history tools d)
     (λ r c', ∀ answer, r = Ok (Some answer) →
        ∃ ran records, tn_called (ks_turn c') = tn_called (ks_turn c) ++ ran ∧ Forall2 plan_recorded ran records ∧
          trusted source records (into_text answer)) c.
Proof.
  intros Hlocal Hv Hm. unfold try_code_mode. destruct (cm_enabled settings); cbn [negb]; [|by wp_step].
  eapply (wp_bind_stable silent); [stable_go|done|intros [attempt|] c1 [_ H1]; [|by wp_step]].
  do 2 wp_step. eapply wp_mono; [by apply wp_complete_verified|]. cbv beta. intros r c2 H. wp_step.
  intros answer Hr. destruct r as [[a|]|e]; [|done|done]. injection Hr as ->.
  destruct (H answer eq_refl) as (ran & records & E & Hrec & Hl). exists ran, records.
  split; [by rewrite E, H1|]. split; [done|]. by eapply let_out_trusted.
Qed.
End answers.
End code_mode.
