(* ===== verification/Swarm.v ===== *)
(** * The swarm of agents, in process

    src/service/swarm.rs: when a message starts a swarm, the recursion that lets an agent
    answer or delegate to children, the audit it leaves, and the mirror of its nodes in
    the loop engine.  A run is sequential: children are awaited one after the other, so
    the permits of its semaphore are a number.  [CompCut] is the deadline of the whole run
    passing while a completion is awaited. *)

From S2P Require Import Prelude Text Strings Messages External Verifier Domain Tables Signals Artifacts StoreBase.
From S2P Require Import StoreGoals StoreWork StoreExtend Engine MemBase TrajStore EvoStore Harness SwarmAudit.
From stdpp Require Import pretty.

Definition SWARM_LOOP_ACTOR : string := "internal:swarm".
Definition SWARM_NODE_HANDLER : string := "provider_analysis".
Definition SWARM_NODE_DURABLE_HANDLER : string := "swarm_node".

Record AgentSwarmSettings : Type := {
  sg_enabled : bool;
  sg_auto_detect : bool;
  sg_max_depth : nat;
  sg_max_agents : nat;
  sg_max_parallel : nat;
  sg_max_node_timeout_ms : N;
  sg_max_run_timeout_ms : N;
  sg_reply_summary_enabled : bool;
  sg_audit_retention_days : N;
  sg_durable_engine : bool;
  sg_reply_sync_wait_ms : N;
  sg_group_enabled : bool
}.

Definition default_swarm_settings : AgentSwarmSettings :=
  {| sg_enabled := true; sg_auto_detect := true; sg_max_depth := 3; sg_max_agents := 16;
     sg_max_parallel := 4; sg_max_node_timeout_ms := 20000; sg_max_run_timeout_ms := 90000;
     sg_reply_summary_enabled := true; sg_audit_retention_days := 30; sg_durable_engine := true;
     sg_reply_sync_wait_ms := 45000; sg_group_enabled := false |}.

Record SwarmAgentSpec : Type := {
  sa_task : string;
  sa_role_name : string;
  sa_role_definition : string;
  sa_nickname : option string
}.

Record SwarmNodeOutcome : Type := {
  so_agent_id : string;
  so_nickname : string;
  so_role_name : string;
  so_answer : string;
  so_status : AgentSwarmNodeExitStatus;
  so_partial : bool;
  so_failed : bool
}.

Record SwarmChildPlan : Type := {
  ch_task : string;
  ch_role_name : option string;
  ch_role_definition : option string;
  ch_nickname : option string
}.

Record SwarmNodePlanEnvelope : Type := {
  pl_mode : option string;
  pl_answer : option string;
  pl_children : option (list SwarmChildPlan)
}.

(** [IncomingMessage] of src/domain.rs, without the reply target. *)
Record IncomingMessage : Type := {
  im_channel : string;
  im_session_id : string;
  im_user_id : string;
  im_text : string;
  im_is_group_chat : bool
}.

(** ** Texts *)

(** [default_swarm_nickname]. *)
Definition default_swarm_nickname (role_name : string) (idx : nat) : string :=
  let name := to_ascii_lowercase (trim role_name) in
  let prefix :=
    if String.eqb name "frontend" then "FE" else if String.eqb name "backend" then "BE"
    else if String.eqb name "test" || String.eqb name "qa" then "QA"
    else if String.eqb name "research" then "RS" else if String.eqb name "orchestrator" then "ORCH"
    else "AG" in
  prefix +:+ "-" +:+ pretty idx.

Definition truncate_swarm_text (input : string) (max_chars : nat) : string :=
  let trimmed := trim input in
  if chars_count trimmed <=? max_chars then trimmed
  else take_chars (Nat.max 1 max_chars) trimmed +:+ "...(truncated)".

Definition swarm_hints : list string :=
  ["并行"; "拆分"; "多代理"; "子代理"; "swarm"; "subagent"; "frontend"; "backend"; "前端"; "后端"; "分工"; "协作";
   "pipeline"; "plan and execute"; "multi-step"; "多个步骤"].

Definition looks_like_swarm_task (text : string) : bool :=
  existsb (λ needle, contains needle (to_ascii_lowercase text)) swarm_hints.

(** The last [max_items] messages. *)
Definition last_messages (n : nat) (history : list StoredMessage) : list StoredMessage :=
  rev (take n (rev history)).

Definition sample_swarm_history (history : list StoredMessage) (max_items : nat) : list StoredMessage :=
  last_messages (Nat.max 1 max_items) history.

Definition bounded_swarm_input_history (history : list StoredMessage) : list StoredMessage :=
  (λ m, {| role := role m; content := truncate_swarm_text (content m) 400 |}) <$> sample_swarm_history history 8.

Definition lines (l : list string) : string := String.concat newline l.

Definition system (text : string) : StoredMessage := {| role := System; content := text |}.
Definition user (text : string) : StoredMessage := {| role := User; content := text |}.

Definition planner_instructions : string :=
  lines
    ["You are a hierarchical task planner."; "Return ONLY JSON.";
     "Schema: {" +:+ dquoted "mode" +:+ ":" +:+ dquoted "answer|delegate" +:+ "," +:+ dquoted "answer" +:+ ":" +:+
       dquoted "string" +:+ "," +:+ dquoted "children" +:+ ":[{" +:+ dquoted "task" +:+ ":" +:+ dquoted "string" +:+
       "," +:+ dquoted "role_name" +:+ ":" +:+ dquoted "string" +:+ "," +:+ dquoted "role_definition" +:+ ":" +:+
       dquoted "string" +:+ "," +:+ dquoted "nickname" +:+ ":" +:+ dquoted "string|optional" +:+ "}]}";
     "Rules:"; "- If task is simple, choose mode=answer and provide answer.";
     "- If task can be split and depth allows, choose mode=delegate with 1-4 children.";
     "- Do not output markdown."].

Definition build_swarm_planner_messages (history : list StoredMessage) (task role_name role_definition : string)
    (depth max_depth : nat) : list StoredMessage :=
  sample_swarm_history history 12 ++
  [system planner_instructions;
   user (lines ["CURRENT_DEPTH: " +:+ pretty depth; "MAX_DEPTH: " +:+ pretty max_depth; "ROLE: " +:+ role_name;
                "ROLE_DEFINITION: " +:+ role_definition; "TASK:"; trim task])].

Definition build_swarm_answer_messages (history : list StoredMessage) (task role_name role_definition : string)
    : list StoredMessage :=
  sample_swarm_history history 12 ++
  [system (lines ["You are the '" +:+ role_name +:+ "' agent."; "Role definition: " +:+ role_definition;
                  "Return the direct deliverable for your task."]);
   user (trim task)].

Definition GENERAL_DEFINITION : string := "负责当前子任务并输出可交付结果。".

Definition root_spec (text : string) : SwarmAgentSpec :=
  {| sa_task := text; sa_role_name := "orchestrator"; sa_role_definition := "负责分解子任务、并行调度并汇总子结果。";
     sa_nickname := Some "Orchestrator" |}.

(** [filter(|v| !v.trim().is_empty()).unwrap_or_else(..)]. *)
Definition nonblank_or (o : option string) (d : string) : string :=
  match o with Some v => if is_blank v then d else v | None => d end.

Definition child_spec (child : SwarmChildPlan) : SwarmAgentSpec :=
  {| sa_task := ch_task child; sa_role_name := nonblank_or (ch_role_name child) "general";
     sa_role_definition := nonblank_or (ch_role_definition child) GENERAL_DEFINITION;
     sa_nickname := ch_nickname child |}.

(** ** The state of a run *)

(** The counters shared by the nodes of a run. *)
Record SwarmCounts : Type := {
  sc_agents : nat;
  sc_success : nat;
  sc_partial : nat;
  sc_failed : nat;
  sc_timeout : nat;
  sc_skipped : nat
}.

Definition no_counts : SwarmCounts :=
  {| sc_agents := 0; sc_success := 0; sc_partial := 0; sc_failed := 0; sc_timeout := 0; sc_skipped := 0 |}.

(** The stores, the counters and free permits of the run, and the requests made to the
    provider so far. *)
Record SwarmState `{ENV : LoopEnv} : Type := {
  ss_harness : HarnessDb;
  ss_audit : SwarmDb;
  ss_counts : SwarmCounts;
  ss_permits : nat;
  ss_calls : list (list StoredMessage * bool)
}.

(** How a completion ends: a reply, a failure, the node's timeout, or the deadline of the
    run while it is awaited. *)
Inductive completion : Type :=
| CompReply (text : string)
| CompFailure (e : string)
| CompTimeout
| CompCut.

(** The provider at a moment; the flag asks for JSON. *)
Class SwarmProvider : Type := swarm_answer : nat → bool → list StoredMessage → completion.

(** [serde_json::from_value] at one type. *)
Class FromValue `{JsonValue} (T : Type) : Type := from_value : json → res T.

Inductive SwarmModelResult : Type :=
| ModelReply (text : string)
| ModelTimeout
| ModelFailure (e : string).

(** The deadline of the run has passed: whatever is awaited is dropped. *)
Definition RUN_CUT : string := "swarm run timeout".

Section swarm.
  Context `{ENV : LoopEnv} `{JP : !JsonParse} `{SLJ : Serialize (list json)} `{SP : SwarmProvider}.
  Context `{FP : !FromValue SwarmNodePlanEnvelope}.

Abbreviation DB := (M SwarmState).

Definition put_harness (h : HarnessDb) (s : SwarmState) : SwarmState :=
  {| ss_harness := h; ss_audit := ss_audit s; ss_counts := ss_counts s; ss_permits := ss_permits s;
     ss_calls := ss_calls s |}.

Definition put_audit (a : SwarmDb) (s : SwarmState) : SwarmState :=
  {| ss_harness := ss_harness s; ss_audit := a; ss_counts := ss_counts s; ss_permits := ss_permits s;
     ss_calls := ss_calls s |}.

Definition on_harness {A} : M HarnessDb A → DB A := zoom ss_harness put_harness.
Definition on_audit {A} : M SwarmDb A → DB A := zoom ss_audit put_audit.
Definition engine {A} (m : M Db A) : DB A := on_harness (on_loop m).

Definition count (f : SwarmCounts → SwarmCounts) : DB unit :=
  s ← get_db;
  put_db {| ss_harness := ss_harness s; ss_audit := ss_audit s; ss_counts := f (ss_counts s);
            ss_permits := ss_permits s; ss_calls := ss_calls s |}.

Definition add_counts (agents success partial failed timeout skipped : nat) (c : SwarmCounts) : SwarmCounts :=
  {| sc_agents := sc_agents c + agents; sc_success := sc_success c + success;
     sc_partial := sc_partial c + partial; sc_failed := sc_failed c + failed;
     sc_timeout := sc_timeout c + timeout; sc_skipped := sc_skipped c + skipped |}.

(** [next_agent_index]. *)
Definition next_agent_index : DB nat :=
  s ← get_db;
  count (add_counts 1 0 0 0 0 0) ;;
  mret (S (sc_agents (ss_counts s))).

(** [acquire_owned]: with no permit free the run waits until its deadline. *)
Definition acquire : DB unit :=
  s ← get_db;
  match ss_permits s with
  | O => throw RUN_CUT
  | S permits => put_db {| ss_harness := ss_harness s; ss_audit := ss_audit s; ss_counts := ss_counts s;
                           ss_permits := permits; ss_calls := ss_calls s |}
  end.

(** The permit is dropped. *)
Definition release : DB unit :=
  s ← get_db;
  put_db {| ss_harness := ss_harness s; ss_audit := ss_audit s; ss_counts := ss_counts s;
            ss_permits := S (ss_permits s); ss_calls := ss_calls s |}.

Definition log_call (messages : list StoredMessage) (json_mode : bool) : DB unit :=
  s ← get_db;
  put_db {| ss_harness := ss_harness s; ss_audit := ss_audit s; ss_counts := ss_counts s;
            ss_permits := ss_permits s; ss_calls := ss_calls s ++ [(messages, json_mode)] |}.

Definition swarm_complete_with_timeout (messages : list StoredMessage) (json_mode : bool)
    : DB SwarmModelResult :=
  acquire ;;
  n ← tick;
  log_call messages json_mode ;;
  match swarm_answer n json_mode messages with
  | CompCut => throw RUN_CUT
  | answer =>
      release ;;
      mret match answer with
           | CompReply text => ModelReply text
           | CompFailure e => ModelFailure e
           | _ => ModelTimeout
           end
  end.

Definition parse_flexible_json_value (reply : string) : option json :=
  text ← extract_json_payload (λ l, is_some (json_parse (of_bytes l))) (bytes (trim reply));
  json_parse (of_bytes text).

Definition build_swarm_merge_messages (history : list StoredMessage) (task role_name : string)
    (child_json : list json) : list StoredMessage :=
  let serialized := match to_vec child_json with Ok l => of_bytes l | Err _ => "[]" end in
  sample_swarm_history history 12 ++
  [system (lines ["You are the '" +:+ role_name +:+ "' parent agent.";
                  "Merge child results into one coherent final response for the task."]);
   user (lines ["PARENT_TASK:"; trim task; ""; "CHILD_RESULTS_JSON:"; serialized])].

(** ** The mirror in the loop engine *)

(** What a run keeps at hand; the engine and the goal of its mirror, if there is one. *)
Record SwarmRun : Type := {
  sr_run_id : string;
  sr_channel : string;
  sr_settings : AgentSwarmSettings;
  sr_engine : option LoopEngine;
  sr_goal : option string
}.

(** [(ms / 1000) as u32]. *)
Definition secs_u32 (ms : N) : N := ((ms / 1000) mod 2 ^ 32)%N.

Definition saturating_add_u32 (a b : N) : N := N.min (2 ^ 32 - 1) (a + b).

Definition clamp_n (lo hi n : N) : N := N.max lo (N.min hi n).

Definition node_lease_secs (settings : AgentSwarmSettings) : N :=
  clamp_n 1 3600 (saturating_add_u32 (secs_u32 (sg_max_node_timeout_ms settings)) 30).

(** [r.ok()]: errors are reported and dropped. *)
Definition attempt {S A} (m : M S A) : M S (option A) :=
  r ← catch m; mret match r with Ok a => Some a | Err _ => None end.

Definition opt_string (o : option string) : json := match o with Some v => json_string v | None => json_null end.

Definition node_step (run : SwarmRun) (spec : SwarmAgentSpec) (depth : nat) (parent agent_id : string)
    : WorkflowStep :=
  {| step_id := agent_id; step_handler := SWARM_NODE_HANDLER; step_effect := LocalWrite;
     step_input := json_object
       [("swarm_run_id", json_string (sr_run_id run)); ("parent_agent_id", json_string parent);
        ("depth", json_int (Z.of_nat depth)); ("task", json_string (truncate_swarm_text (sa_task spec) (N.to_nat 1024)));
        ("role_name", json_string (sa_role_name spec))];
     step_retry := {| max_attempts := 1; backoff_secs := 0 |} |}.

(** [claim_swarm_loop_node]. *)
Definition claim_swarm_loop_node (run : SwarmRun) (spec : SwarmAgentSpec) (depth : nat)
    (parent : option string) (agent_id : string) : DB (option WorkClaim) :=
  match sr_engine run, sr_goal run with
  | Some self, Some goal_id =>
      extended ← match parent with
                 | Some p =>
                     r ← attempt (engine (engine_extend_workflow self goal_id
                           [node_step run spec depth p agent_id] SWARM_LOOP_ACTOR));
                     mret (is_some r)
                 | None => mret true
                 end;
      if negb extended then mret None
      else
        claimed ← attempt (engine (engine_claim_work_item goal_id agent_id
                    ("swarm:" +:+ sr_run_id run) (node_lease_secs (sr_settings run)) SWARM_LOOP_ACTOR));
        mret (mjoin claimed)
  | _, _ => mret None
  end.

Definition fail_swarm_loop_node (claim : WorkClaim) (error : string) : DB unit :=
  ignore_error (engine (engine_fail_attempt claim error false SWARM_LOOP_ACTOR)).

Definition is_root_claim (claim : WorkClaim) : bool :=
  bool_decide ((json_get (wir_input (wc_item claim)) "swarm_root" ≫= json_as_bool) = Some true).

(** The artifact of the root's answer. *)
Definition root_artifact (run : SwarmRun) (claim : WorkClaim) (answer : string) : PublishArtifactRequest :=
  {| pa_kind := AnalysisReport; pa_name := "swarm-" +:+ sr_run_id run; pa_version := "1";
     pa_content := json_object
       [("swarm_run_id", json_string (sr_run_id run)); ("channel", json_string (sr_channel run));
        ("answer", json_string (truncate_swarm_text answer (N.to_nat 4096)))];
     pa_source_goal_id := Some (wir_goal_id (wc_item claim)); pa_parent_artifact_id := None |}.

Definition node_outcome (outcome : SwarmNodeOutcome) (artifact_ids : list string) : WorkOutcome :=
  {| out_summary := truncate_swarm_text (so_answer outcome) (N.to_nat 1024); out_artifact_ids := artifact_ids;
     out_evidence := json_object
       [("agent_id", json_string (so_agent_id outcome)); ("nickname", json_string (so_nickname outcome));
        ("role_name", json_string (so_role_name outcome));
        ("status", json_string (exit_status_as_str (so_status outcome)));
        ("partial", json_bool (so_partial outcome))];
     out_sleep_until := None; out_continuation := None |}.

Definition commit_swarm_loop_node (run : SwarmRun) (claim : WorkClaim) (outcome : SwarmNodeOutcome) : DB unit :=
  if so_failed outcome then fail_swarm_loop_node claim (exit_status_as_str (so_status outcome))
  else
    ignore_error (engine (
      artifact_ids ← (if is_root_claim claim && negb (is_blank (so_answer outcome)) then
                        published ← engine_publish_artifact (root_artifact run claim (so_answer outcome))
                                      SWARM_LOOP_ACTOR;
                        mret [ar_id published.1]
                      else mret []);
      checkpoint ← engine_prepare_checkpoint claim
        (wir_id (wc_item claim) +:+ ":" +:+ atr_id (wc_attempt claim) +:+ ":v1") true SWARM_LOOP_ACTOR;
      engine_commit_checkpoint claim (cpr_id checkpoint) (node_outcome outcome artifact_ids) SWARM_LOOP_ACTOR ;;
      engine_finish_attempt claim (cpr_id checkpoint) SWARM_LOOP_ACTOR)).

(** ** A node *)

(** The audit row of a node; [let _ =] drops an error. *)
Definition audit_node (run : SwarmRun) (agent_id : string) (parent : option string) (depth : nat)
    (nickname : string) (spec : SwarmAgentSpec) (state : AgentSwarmNodeState)
    (exit_status : option AgentSwarmNodeExitStatus) (summary error : option string)
    (started_at : Z) (finished_at : option Z) : DB unit :=
  ignore_error (on_audit (upsert_agent_swarm_node
    {| un_agent_id := agent_id; un_run_id := sr_run_id run; un_channel := sr_channel run;
       un_parent_agent_id := parent; un_depth := depth; un_nickname := nickname;
       un_role_name := sa_role_name spec; un_role_definition := sa_role_definition spec;
       un_task := sa_task spec; un_state := state; un_exit_status := exit_status;
       un_summary := summary; un_error := error; un_started_at := started_at;
       un_finished_at := finished_at |})).

(** What the planner of a node decides. *)
Inductive node_decision : Type :=
| Answer (seed : string)
| Delegate (children : list SwarmChildPlan)
| PlannerTimeout.

Definition plan_of_reply (reply : string) : option SwarmNodePlanEnvelope :=
  match parse_flexible_json_value reply with
  | Some v => match from_value v with Ok plan => Some plan | Err _ => None end
  | None => None
  end.

Definition decision_of_reply (reply : string) : node_decision :=
  match plan_of_reply reply with
  | Some plan =>
      if String.eqb (to_ascii_lowercase (default "answer" (pl_mode plan))) "delegate"
      then Delegate (default [] (pl_children plan)) else Answer (default "" (pl_answer plan))
  | None => Answer ""
  end.

Definition depth_limit (settings : AgentSwarmSettings) : nat := Nat.max 1 (sg_max_depth settings).
Definition agent_limit (settings : AgentSwarmSettings) : nat := Nat.max 1 (sg_max_agents settings).

Definition decide_node (run : SwarmRun) (history : list StoredMessage) (spec : SwarmAgentSpec) (depth : nat)
    : DB node_decision :=
  if depth_limit (sr_settings run) <=? depth then mret (Answer "")
  else
    r ← swarm_complete_with_timeout
      (build_swarm_planner_messages history (sa_task spec) (sa_role_name spec) (sa_role_definition spec) depth
        (sg_max_depth (sr_settings run))) true;
    mret match r with
         | ModelReply reply => decision_of_reply reply
         | ModelTimeout => PlannerTimeout
         | ModelFailure _ => Answer ""
         end.

(** The end of a node: its audit row, its counters, its outcome. *)
Definition exit_node (run : SwarmRun) (agent_id : string) (parent : option string) (depth : nat)
    (nickname : string) (spec : SwarmAgentSpec) (started_at : Z) (status : AgentSwarmNodeExitStatus)
    (answer summary : string) (error : option string) (partial failed : bool)
    (counts : SwarmCounts → SwarmCounts) : DB SwarmNodeOutcome :=
  finished ← unix_now;
  audit_node run agent_id parent depth nickname spec NodeExited (Some status) (Some summary) error
    started_at (Some finished) ;;
  count counts ;;
  mret {| so_agent_id := agent_id; so_nickname := nickname; so_role_name := sa_role_name spec;
          so_answer := answer; so_status := status; so_partial := partial; so_failed := failed |}.

(** The children one after the other, each under a permit. *)
Fixpoint run_children (exec : SwarmAgentSpec → DB SwarmNodeOutcome) (children : list SwarmChildPlan)
    : DB (list SwarmNodeOutcome) :=
  match children with
  | [] => mret []
  | child :: rest =>
      if is_blank (ch_task child) then run_children exec rest
      else
        acquire ;;
        outcome ← exec (child_spec child);
        release ;;
        outcomes ← run_children exec rest;
        mret (outcome :: outcomes)
  end.

Definition outcome_partial (o : SwarmNodeOutcome) : bool :=
  so_partial o || match so_status o with ExitPartial | ExitSkipped => true | _ => false end.

Definition child_result (o : SwarmNodeOutcome) : json :=
  json_object
    [("agent_id", json_string (so_agent_id o)); ("nickname", json_string (so_nickname o));
     ("role_name", json_string (so_role_name o)); ("status", json_string (exit_status_as_str (so_status o)));
     ("answer", json_string (truncate_swarm_text (so_answer o) 180))].

(** The answers put together when the merge fails. *)
Definition joined_answers (outcomes : list SwarmNodeOutcome) : string :=
  String.concat (newline +:+ newline)
    ((λ o, "[" +:+ so_nickname o +:+ "] " +:+ trim (so_answer o)) <$>
      List.filter (λ o, negb (is_blank (so_answer o))) outcomes).

Section node.
  Context (run : SwarmRun) (history : list StoredMessage).

(** The answer of a node without children. *)
Definition answer_node (agent_id : string) (parent : option string) (depth : nat) (nickname : string)
    (spec : SwarmAgentSpec) (started_at : Z) (seed : string) : DB SwarmNodeOutcome :=
  let leave := exit_node run agent_id parent depth nickname spec started_at in
  r ← (if is_blank seed then
         swarm_complete_with_timeout
           (build_swarm_answer_messages history (sa_task spec) (sa_role_name spec) (sa_role_definition spec)) false
       else mret (ModelReply seed));
  match r with
  | ModelReply answer =>
      leave ExitSuccess answer (truncate_swarm_text answer 240) None false false (add_counts 0 1 0 0 0 0)
  | ModelTimeout =>
      leave ExitTimeout "" "answer timeout" (Some "answer timeout") false true (add_counts 0 0 0 1 1 0)
  | ModelFailure e => leave ExitFailed "" "answer failed" (Some e) false true (add_counts 0 0 0 1 0 0)
  end.

(** The merge of the children's outcomes. *)
Definition merge_node (agent_id : string) (parent : option string) (depth : nat) (nickname : string)
    (spec : SwarmAgentSpec) (started_at : Z) (outcomes : list SwarmNodeOutcome) : DB SwarmNodeOutcome :=
  let any_failed := existsb so_failed outcomes in
  let any_partial := existsb outcome_partial outcomes in
  r ← swarm_complete_with_timeout
    (build_swarm_merge_messages history (sa_task spec) (sa_role_name spec) (child_result <$> outcomes)) false;
  let answer := match r with ModelReply text => text | _ => joined_answers outcomes end in
  let status := if any_failed then ExitPartial else ExitSuccess in
  exit_node run agent_id parent depth nickname spec started_at status answer (truncate_swarm_text answer 240) None
    (any_failed || any_partial) false
    (if any_failed || any_partial then add_counts 0 0 1 0 0 0 else add_counts 0 1 0 0 0 0).

(** [execute_swarm_node] with [execute_swarm_node_inner].  The inner function reports every
    failure as an outcome, so only the deadline of the run leaves the node unfinished. *)
Fixpoint execute_swarm_node (fuel : nat) (spec : SwarmAgentSpec) (depth : nat) (parent : option string)
    : DB SwarmNodeOutcome :=
  match fuel with
  | O => throw "swarm recursion"
  | S fuel' =>
      idx ← next_agent_index;
      let agent_id := sr_run_id run +:+ ":" +:+ pretty idx in
      claim ← claim_swarm_loop_node run spec depth parent agent_id;
      let nickname := nonblank_or (sa_nickname spec) (default_swarm_nickname (sa_role_name spec) idx) in
      started_at ← unix_now;
      outcome ← (
        if agent_limit (sr_settings run) <? idx then
          audit_node run agent_id parent depth nickname spec NodeExited (Some ExitSkipped)
            (Some "agent budget exceeded") None started_at (Some started_at) ;;
          count (add_counts 0 0 0 0 0 1) ;;
          mret {| so_agent_id := agent_id; so_nickname := nickname; so_role_name := sa_role_name spec;
                  so_answer := ""; so_status := ExitSkipped; so_partial := true; so_failed := false |}
        else
          audit_node run agent_id parent depth nickname spec NodeRunning None None None started_at None ;;
          decision ← decide_node run history spec depth;
          match decision with
          | PlannerTimeout =>
              exit_node run agent_id parent depth nickname spec started_at ExitTimeout "" "planner timeout"
                (Some "planner timeout") false true (add_counts 0 0 0 1 1 0)
          | Delegate ((_ :: _) as children) =>
              outcomes ← run_children (λ child, execute_swarm_node fuel' child (S depth) (Some agent_id)) children;
              merge_node agent_id parent depth nickname spec started_at outcomes
          | Delegate [] => answer_node agent_id parent depth nickname spec started_at ""
          | Answer seed => answer_node agent_id parent depth nickname spec started_at seed
          end);
      match claim with
      | Some claim => commit_swarm_loop_node run claim outcome
      | None => mret tt
      end ;;
      mret outcome
  end.
End node.

(** One level of recursion more than the depth limit. *)
Definition swarm_fuel (settings : AgentSwarmSettings) : nat := S (depth_limit settings).

(** ** Starting a run *)

Record SwarmActivationDecision : Type := { use_swarm : bool }.

Context `{FD : !FromValue SwarmActivationDecision}.

Definition activation_instructions : string :=
  lines
    ["You are a task routing classifier.";
     "Return ONLY JSON: {" +:+ dquoted "use_swarm" +:+ ":true|false}.";
     "Set use_swarm=true when task is broad, multi-domain, parallelizable, or asks for role separation.";
     "Set use_swarm=false for simple Q&A or single-step tasks."].

Definition messages_json (l : list StoredMessage) : string :=
  match to_vec l with Ok b => of_bytes b | Err _ => "[]" end.

(** [detect_swarm_activation]: the classifier's word, or the heuristic's. *)
Definition detect_swarm_activation (user_text : string) (history : list StoredMessage) : DB bool :=
  let base_decision := looks_like_swarm_task user_text in
  n ← tick;
  let messages :=
    [system activation_instructions;
     user (lines ["USER_TASK:"; trim user_text; ""; "RECENT_CONTEXT_JSON:"; messages_json (last_messages 8 history)])] in
  log_call messages true ;;
  mret match swarm_answer n true messages with
       | CompReply reply =>
           match parse_flexible_json_value reply with
           | Some v => match from_value v with Ok d => use_swarm d | Err _ => base_decision end
           | None => base_decision
           end
       | _ => base_decision
       end.

(** [format!("swarm-{now_ms}-{tick}")]. *)
Definition next_swarm_run_id : DB string :=
  count ← draw_id;
  now ← now_nanos;
  mret ("swarm-" +:+ pretty (Z.to_N (now / 1000000)) +:+ "-" +:+ pretty (count + 1)%N).

Definition message_value (m : StoredMessage) : json :=
  json_object [("role", json_string (role_as_str (role m))); ("content", json_string (content m))].

Definition history_value (l : list StoredMessage) : json := json_array (message_value <$> l).

(** [settings.max_agents.max(1) as u32]. *)
Definition max_nodes (settings : AgentSwarmSettings) : N := (N.of_nat (agent_limit settings) mod 2 ^ 32)%N.

Definition root_step (settings : AgentSwarmSettings) (run_id root_task : string) (history : list StoredMessage)
    (incoming : IncomingMessage) : WorkflowStep :=
  {| step_id := run_id +:+ ":1"; step_handler := SWARM_NODE_DURABLE_HANDLER; step_effect := LocalWrite;
     step_input := json_object
       [("swarm_root", json_bool true); ("max_nodes", json_int (Z.of_N (max_nodes settings)));
        ("swarm_run_id", json_string run_id);
        ("task", json_string (truncate_swarm_text root_task (N.to_nat 1024)));
        ("role_name", json_string "orchestrator");
        ("role_definition", json_string (sa_role_definition (root_spec root_task)));
        ("nickname", json_string "Orchestrator"); ("depth", json_int 0);
        ("history", history_value (bounded_swarm_input_history history));
        ("channel", json_string (im_channel incoming)); ("user_id", json_string (im_user_id incoming));
        ("session_id", json_string (im_session_id incoming))];
     step_retry := {| max_attempts := 1; backoff_secs := 0 |} |}.

Definition swarm_budget (settings : AgentSwarmSettings) : ExecutionBudget :=
  {| max_provider_calls := N.min ((2 * max_nodes settings) mod 2 ^ 32) 64;
     deadline_secs := clamp_n 1 86400 (saturating_add_u32 (secs_u32 (sg_max_run_timeout_ms settings)) 60);
     max_response_bytes := 1048576 |}.

Definition swarm_plan (settings : AgentSwarmSettings) (run_id root_task : string) (history : list StoredMessage)
    (incoming : IncomingMessage) : PlanGoalRequest :=
  {| plan_workflow := {| wf_steps := [root_step settings run_id root_task history incoming]; wf_edges := [];
                         wf_budget := swarm_budget settings |};
     plan_acceptance := [ArtifactExists "analysis_report"] |}.

Definition swarm_goal_request (settings : AgentSwarmSettings) (run_id root_task : string) : CreateGoalRequest :=
  {| cg_objective := "agent swarm run " +:+ run_id +:+ ": " +:+ truncate_swarm_text root_task (N.to_nat 480);
     cg_source_signal_ids := []; cg_request_id := Some ("swarm:" +:+ run_id);
     cg_internal_only := negb (sg_durable_engine settings) |}.

Definition create_swarm_goal (self : LoopEngine) (settings : AgentSwarmSettings) (run_id root_task : string)
    (history : list StoredMessage) (incoming : IncomingMessage) : M Db string :=
  goal ← engine_create_goal (swarm_goal_request settings run_id root_task) SWARM_LOOP_ACTOR;
  planned ← engine_plan_goal self (gr_id goal) (swarm_plan settings run_id root_task history incoming) SWARM_LOOP_ACTOR;
  engine_approve_goal self (gr_id goal)
    {| expected_goal_revision := gr_revision (pg_goal planned); expected_plan_hash := pg_plan_hash planned |}
    SWARM_LOOP_ACTOR ;;
  mret (gr_id goal).

(** [start_swarm_loop_projection]: the goal of the mirror, unless it cannot be set up. *)
Definition start_swarm_loop_projection (eng : option LoopEngine) (settings : AgentSwarmSettings)
    (run_id root_task : string) (history : list StoredMessage) (incoming : IncomingMessage) : DB (option string) :=
  match eng with
  | Some self => attempt (engine (create_swarm_goal self settings run_id root_task history incoming))
  | None => mret None
  end.

Definition finish_swarm_loop_projection (run : SwarmRun) : DB unit :=
  match sr_goal run with
  | Some goal_id => ignore_error (engine (engine_verify_goal goal_id SWARM_LOOP_ACTOR))
  | None => mret tt
  end.

Definition build_swarm_summary_suffix (run_id : string) (c : SwarmCounts) : string :=
  newline +:+ newline +:+
  lines ["[Agents Summary]"; "run_id: " +:+ run_id; "agents_total: " +:+ pretty (sc_agents c);
         "success: " +:+ pretty (sc_success c); "partial: " +:+ pretty (sc_partial c);
         "failed: " +:+ pretty (sc_failed c); "timeout: " +:+ pretty (sc_timeout c);
         "skipped: " +:+ pretty (sc_skipped c)].

(** ** The run in process *)

(** The status of a run whose root ended. *)
Definition run_status (c : SwarmCounts) (root : SwarmNodeOutcome) : AgentSwarmRunStatus :=
  let has_failures := (0 <? sc_failed c) || (0 <? sc_timeout c) in
  let has_partial := (0 <? sc_partial c) || (0 <? sc_skipped c) || so_partial root in
  if is_blank (so_answer root) || so_failed root then RunFailed
  else if has_failures || has_partial then RunPartial
  else RunCompleted.

(** The branch of [try_swarm_reply] that runs the swarm in process: the reply, the status,
    the error. *)
Definition run_in_process (run : SwarmRun) (text : string) (history : list StoredMessage)
    : DB (option string * AgentSwarmRunStatus * option string) :=
  r ← catch (execute_swarm_node run history (swarm_fuel (sr_settings run)) (root_spec text) 0 None);
  s ← get_db;
  mret match r with
       | Ok root => (Some (so_answer root), run_status (ss_counts s) root, None)
       | Err e => (None, RunFailed, Some e)
       end.
End swarm.
