(* ===== verification/Markdown.v ===== *)
(** * Telegram text

    src/channel/telegram_markdown.rs: a reply without its reasoning, in pieces of at most
    one message, each rendered as MarkdownV2 from the events of a CommonMark parser; what
    the pieces hold, and that text never turns into markup. *)

From S2P Require Import Prelude Text Strings.
From stdpp Require Import pretty.
From Stdlib Require Import Ascii.

(** ** The events of pulldown_cmark *)

Inductive CodeBlockKind : Type := IndentedCode | FencedCode (lang : string).

(** The tags the renderer tells apart. *)
Inductive Tag : Type :=
| TagParagraph | TagHeading | TagStrong | TagEmphasis | TagStrikethrough
| TagCodeBlock (kind : CodeBlockKind) | TagList (start : option N) | TagItem
| TagLink (dest_url : string) | TagBlockQuote | TagOther.

Inductive TagEnd : Type :=
| EndParagraph | EndHeading | EndStrong | EndEmphasis | EndStrikethrough
| EndCodeBlock | EndList | EndItem | EndLink | EndBlockQuote | EndOther.

Inductive Event : Type :=
| EvStart (tag : Tag)
| EvEnd (tag_end : TagEnd)
| EvText (text : string)
| EvCode (text : string)
| EvSoftBreak
| EvHardBreak
| EvRule
| EvTaskListMarker (checked : bool)
| EvHtml (html : string)
| EvInlineHtml (html : string)
| EvFootnoteReference (name : string)
| EvOther.

(** [Parser::new_ext] with strikethrough, task lists, tables and footnotes. *)
Class MarkdownParser : Type := markdown_events : string → list Event.

(** ** Escapes: the characters are ASCII, so the bytes tell them *)

Definition backquote : ascii := "`"%char.
Definition nl_char : ascii := ascii_of_nat 10.

Definition needs_markdown_v2_escape (ch : ascii) : bool :=
  existsb (Ascii.eqb ch) (bytes "\_*[]()~`>#+-=|{}.!").

(** A loop over the characters that escapes those of [p]. *)
Fixpoint escape_where (p : ascii → bool) (input : string) : string :=
  match input with
  | EmptyString => ""
  | String ch rest =>
      if p ch then String backslash (String ch (escape_where p rest))
      else String ch (escape_where p rest)
  end.

Definition code_special (ch : ascii) : bool := Ascii.eqb ch backslash || Ascii.eqb ch backquote.
Definition link_special (ch : ascii) : bool := Ascii.eqb ch backslash || Ascii.eqb ch ")"%char.

Definition escape_markdown_v2_code (input : string) : string := escape_where code_special input.

Definition escape_markdown_v2_link_destination (input : string) : string := escape_where link_special input.

Definition is_ascii_alphanumeric (a : ascii) : bool :=
  let n := byte_of a in
  ((48 <=? n) && (n <=? 57)) || ((65 <=? n) && (n <=? 90)) || ((97 <=? n) && (n <=? 122)).

Definition sanitize_code_fence_language (raw : string) : string :=
  of_bytes (List.filter (λ ch, is_ascii_alphanumeric ch || existsb (Ascii.eqb ch) (bytes "_-+.")) (bytes raw)).

(** ** Pieces *)

(** [cur] is the piece since [start], [count] its characters. *)
Fixpoint split_chunks_go (max_chars : nat) (cur : string) (count : nat) (input : string) : list string :=
  match input with
  | EmptyString => if String.eqb cur "" then [] else [cur]
  | String a rest =>
      if is_cont a then split_chunks_go max_chars (cur +:+ String a "") count rest
      else if count =? max_chars then cur :: split_chunks_go max_chars (String a "") 1 rest
      else split_chunks_go max_chars (cur +:+ String a "") (S count) rest
  end.

Definition split_text_chunks (input : string) (max_chars : nat) : list string :=
  split_chunks_go (Nat.max max_chars 1) "" 0 input.

(** The loop, with what is left, the reasoning and the body so far; each turn takes a tag off. *)
Fixpoint think_and_body (fuel : nat) (remaining : string) (think_parts : list string) (body : string)
    : list string * string :=
  match fuel with
  | O => (think_parts, body +:+ remaining)
  | S fuel' =>
      match split_once "<think>" remaining with
      | None => (think_parts, body +:+ remaining)
      | Some (before, remaining) =>
          match split_once "</think>" remaining with
          | Some (inside, remaining) => think_and_body fuel' remaining (think_parts ++ [inside]) (body +:+ before)
          | None => (think_parts ++ [remaining], body +:+ before)
          end
      end
  end.

Definition split_think_and_body (raw : string) : string * string :=
  let '(think_parts, body) := think_and_body (String.length raw) raw [] "" in
  (join_with (newline +:+ newline) think_parts, body).

(** ** The renderer *)

Record MarkdownListState : Type := { ml_ordered : bool; ml_next_index : N }.

(** The local variables of the loop; the stacks have their top first. *)
Record Render : Type := {
  rd_out : string;
  rd_line_start : bool;
  rd_quote_depth : nat;
  rd_in_code_block : bool;
  rd_list_stack : list MarkdownListState;
  rd_link_stack : list string
}.

Definition render_start : Render :=
  {| rd_out := ""; rd_line_start := true; rd_quote_depth := 0; rd_in_code_block := false;
     rd_list_stack := []; rd_link_stack := [] |}.

(** New values of [out] and [line_start]. *)
Definition with_out (out : string * bool) (r : Render) : Render :=
  {| rd_out := out.1; rd_line_start := out.2; rd_quote_depth := rd_quote_depth r;
     rd_in_code_block := rd_in_code_block r; rd_list_stack := rd_list_stack r; rd_link_stack := rd_link_stack r |}.

Definition with_code (b : bool) (r : Render) : Render :=
  {| rd_out := rd_out r; rd_line_start := rd_line_start r; rd_quote_depth := rd_quote_depth r;
     rd_in_code_block := b; rd_list_stack := rd_list_stack r; rd_link_stack := rd_link_stack r |}.

Definition with_quote (n : nat) (r : Render) : Render :=
  {| rd_out := rd_out r; rd_line_start := rd_line_start r; rd_quote_depth := n;
     rd_in_code_block := rd_in_code_block r; rd_list_stack := rd_list_stack r; rd_link_stack := rd_link_stack r |}.

Definition with_lists (l : list MarkdownListState) (r : Render) : Render :=
  {| rd_out := rd_out r; rd_line_start := rd_line_start r; rd_quote_depth := rd_quote_depth r;
     rd_in_code_block := rd_in_code_block r; rd_list_stack := l; rd_link_stack := rd_link_stack r |}.

Definition with_links (l : list string) (r : Render) : Render :=
  {| rd_out := rd_out r; rd_line_start := rd_line_start r; rd_quote_depth := rd_quote_depth r;
     rd_in_code_block := rd_in_code_block r; rd_list_stack := rd_list_stack r; rd_link_stack := l |}.

(** [out.push_str(s); line_start = false]. *)
Definition push_mark (s : string) (r : Render) : Render := with_out (rd_out r +:+ s, false) r.

Definition ensure_line_break (out : string) : string * bool :=
  ((if negb (String.eqb out "") && negb (ends_with out newline) then out +:+ newline else out), true).

Definition ensure_blank_line (out : string) : string * bool :=
  if String.eqb out "" then (out, true)
  else if ends_with out (newline +:+ newline) then (out, true)
  else if ends_with out newline then (out +:+ newline, true)
  else (out +:+ newline +:+ newline, true).

Fixpoint quote_prefix (quote_depth : nat) : string :=
  match quote_depth with O => "" | S n => "> " +:+ quote_prefix n end.

Definition maybe_push_quote_prefix (out : string) (line_start : bool) (quote_depth : nat) : string * bool :=
  if line_start && (0 <? quote_depth) then (out +:+ quote_prefix quote_depth, false) else (out, line_start).

(** The loop of [append_code_text] and [append_markdown_v2_text], which differ in what they
    escape. *)
Fixpoint append_escaped (p : ascii → bool) (quote_depth : nat) (input : string) (acc : string * bool)
    : string * bool :=
  match input with
  | EmptyString => acc
  | String ch rest =>
      append_escaped p quote_depth rest
        (if Ascii.eqb ch nl_char then (acc.1 +:+ newline, true)
         else let out := (maybe_push_quote_prefix acc.1 acc.2 quote_depth).1 in
              (out +:+ (if p ch then String backslash (String ch "") else String ch ""), false))
  end.

Definition append_code_text (r : Render) (input : string) (in_code_block : bool) : Render :=
  with_out (append_escaped (λ ch, in_code_block && code_special ch) (rd_quote_depth r) input
              (rd_out r, rd_line_start r)) r.

Definition append_markdown_v2_text (r : Render) (input : string) : Render :=
  with_out (append_escaped needs_markdown_v2_escape (rd_quote_depth r) input (rd_out r, rd_line_start r)) r.

Definition line_break (r : Render) : Render := with_out (ensure_line_break (rd_out r)) r.
Definition blank_line (r : Render) : Render := with_out (ensure_blank_line (rd_out r)) r.

Definition on_start (tag : Tag) (r : Render) : Render :=
  match tag with
  | TagParagraph => r
  | TagHeading => push_mark "*" (blank_line r)
  | TagStrong => push_mark "*" r
  | TagEmphasis => push_mark "_" r
  | TagStrikethrough => push_mark "~" r
  | TagCodeBlock kind =>
      let r := with_code true (blank_line r) in
      let fence := match kind with
                   | FencedCode lang => "```" +:+ sanitize_code_fence_language lang
                   | IndentedCode => "```"
                   end in
      with_out (rd_out r +:+ fence +:+ newline, true) r
  | TagList start =>
      let r := line_break r in
      with_lists ({| ml_ordered := bool_decide (is_Some start); ml_next_index := default 1%N start |}
                    :: rd_list_stack r) r
  | TagItem =>
      let r := line_break r in
      match rd_list_stack r with
      | top :: rest =>
          if ml_ordered top then
            with_lists ({| ml_ordered := true; ml_next_index := ml_next_index top + 1 |} :: rest)
              (push_mark (pretty (ml_next_index top) +:+ "\. ") r)
          else push_mark "• " r
      | [] => push_mark "• " r
      end
  | TagLink dest_url =>
      let r := push_mark "[" r in with_links (dest_url :: rd_link_stack r) r
  | TagBlockQuote => let r := line_break r in with_quote (S (rd_quote_depth r)) r
  | TagOther => r
  end.

Definition on_end (tag_end : TagEnd) (r : Render) : Render :=
  match tag_end with
  | EndParagraph => blank_line r
  | EndHeading => blank_line (push_mark "*" r)
  | EndStrong => push_mark "*" r
  | EndEmphasis => push_mark "_" r
  | EndStrikethrough => push_mark "~" r
  | EndCodeBlock =>
      let out := if ends_with (rd_out r) newline then rd_out r else rd_out r +:+ newline in
      blank_line (with_code false (with_out (out +:+ "```", false) r))
  | EndList => blank_line (with_lists (tail (rd_list_stack r)) r)
  | EndItem => line_break r
  | EndLink =>
      let dest := default "" (head (rd_link_stack r)) in
      push_mark ("](" +:+ escape_markdown_v2_link_destination dest +:+ ")") (with_links (tail (rd_link_stack r)) r)
  | EndBlockQuote => line_break (with_quote (pred (rd_quote_depth r)) r)
  | EndOther => r
  end.

Definition on_event (r : Render) (event : Event) : Render :=
  match event with
  | EvStart tag => on_start tag r
  | EvEnd tag_end => on_end tag_end r
  | EvText text => if rd_in_code_block r then append_code_text r text true else append_markdown_v2_text r text
  | EvCode text =>
      push_mark ("`" +:+ escape_markdown_v2_code text +:+ "`")
        (with_out (maybe_push_quote_prefix (rd_out r) (rd_line_start r) (rd_quote_depth r)) r)
  | EvSoftBreak | EvHardBreak => with_out (rd_out r +:+ newline, true) r
  | EvRule => blank_line (append_markdown_v2_text (blank_line r) "────────")
  | EvTaskListMarker checked => append_markdown_v2_text r (if checked then "☑ " else "☐ ")
  | EvHtml html | EvInlineHtml html => append_markdown_v2_text r html
  | EvFootnoteReference name => append_markdown_v2_text r ("[" +:+ name +:+ "]")
  | EvOther => r
  end.

Definition render_events (events : list Event) : Render := foldl on_event render_start events.

(** ** The parts of a message *)

Record TelegramRenderedText : Type := { rt_text : string; rt_parse_mode : option string }.

#[global] Instance rendered_eq_dec : EqDecision TelegramRenderedText.
Proof. solve_decision. Defined.

Section render.
  Context `{MP : MarkdownParser}.

Definition render_markdown_to_telegram_markdown_v2 (input : string) : string :=
  if is_blank input then "" else trim (rd_out (render_events (markdown_events input))).

Definition markdown_v2 (text : string) : TelegramRenderedText :=
  {| rt_text := text; rt_parse_mode := Some "MarkdownV2" |}.

Definition render_chunk (max_chars : nat) (chunk : string) : list TelegramRenderedText :=
  let rendered := render_markdown_to_telegram_markdown_v2 chunk in
  if is_blank rendered then []
  else if chars_count rendered <=? Nat.max max_chars 1 then [markdown_v2 rendered]
  else markdown_v2 <$> List.filter (λ split, negb (is_blank split))
                         (split_text_chunks rendered (Nat.max max_chars 1)).

Definition render_telegram_text_parts (raw : string) (max_chars : nat) : list TelegramRenderedText :=
  let '(think, body) := split_think_and_body raw in
  let source := if is_blank think then trim raw else trim body in
  if String.eqb source "" then []
  else split_text_chunks source (Nat.max (Nat.div (Nat.max max_chars 1) 2) 512) ≫= render_chunk max_chars.
End render.

(** ** Pieces are the whole text *)

Lemma split_chunks_whole max_chars cur count input :
  foldr String.append "" (split_chunks_go max_chars cur count input) = cur +:+ input.
Proof.
  revert cur count. induction input as [|a input IH]; intros cur count; cbn [split_chunks_go].
  - destruct (String.eqb_spec cur "") as [->|]; [done|]. done.
  - destruct (is_cont a); [rewrite IH; by rewrite <- string_app_assoc|].
    destruct (count =? max_chars); [cbn; by rewrite IH|]. rewrite IH. by rewrite <- string_app_assoc.
Qed.

Lemma chars_count_snoc s a :
  chars_count (s +:+ String a "") = (if is_cont a then chars_count s else S (chars_count s)).
Proof. rewrite chars_count_app. cbn. destruct (is_cont a); lia. Qed.

Lemma split_chunks_fit max_chars cur count input :
  0 < max_chars → chars_count cur = count → count ≤ max_chars →
  Forall (λ c, chars_count c ≤ max_chars) (split_chunks_go max_chars cur count input) ∧
  ∀ i c, split_chunks_go max_chars cur count input !! i = Some c →
    S i < length (split_chunks_go max_chars cur count input) → chars_count c = max_chars.
Proof.
  intros Hm. revert cur count. induction input as [|a input IH]; intros cur count Hc Hle; cbn [split_chunks_go].
  - destruct (String.eqb cur ""); [by split; [constructor|]|].
    split; [by repeat constructor; lia|]. intros [|i] c; cbn; [lia|done].
  - destruct (is_cont a) eqn:Ea.
    { apply IH; [|done]. by rewrite chars_count_snoc, Ea. }
    destruct (Nat.eqb_spec count max_chars) as [->|Hne].
    + destruct (IH (String a "") 1) as [H1 H2]; [cbn; by rewrite Ea|lia|].
      split; [constructor; [lia|done]|]. intros [|i] c; cbn; [by intros [= <-]|]. intros Hi Hl. apply (H2 i); [done|lia].
    + apply IH; [|lia]. rewrite chars_count_snoc, Ea. lia.
Qed.

(** ** The reasoning *)

(** A pattern whose first character occurs nowhere else in it. *)
Lemma starts_before c p s r :
  in_string c p = false → starts_with (s +:+ String c r) p = true → starts_with s p = true.
Proof.
  revert s. induction p as [|a p IH]; intros s Hp H; [apply starts_with_nil|].
  rewrite in_string_cons in Hp. apply orb_false_iff in Hp as [Hca Hp].
  destruct s as [|b s].
  - change (starts_with (String c r) (String a p) = true) in H. rewrite starts_with_cons in H.
    rewrite Ascii.eqb_sym, Hca in H. done.
  - change (starts_with (String b (s +:+ String c r)) (String a p) = true) in H.
    rewrite starts_with_cons in *. apply andb_true_iff in H as [-> H]. by apply IH.
Qed.

Lemma starts_with_self s r : starts_with (s +:+ r) s = true.
Proof.
  induction s as [|a s IH]; [apply starts_with_nil|].
  change (starts_with (String a (s +:+ r)) (String a s) = true). rewrite starts_with_cons, Ascii.eqb_refl. done.
Qed.

Lemma substring_all n s : String.length s ≤ n → String.substring 0 n s = s.
Proof. revert n. induction s as [|a s IH]; intros [|n]; cbn; intros; [done..|lia|]. by rewrite IH by lia. Qed.

Lemma substring_skip p r n : String.length r ≤ n → String.substring (String.length p) n (p +:+ r) = r.
Proof. intros Hn. induction p as [|a p IH]; [by apply substring_all|exact IH]. Qed.

Lemma split_once_here p r : split_once p (p +:+ r) = Some ("", r).
Proof.
  transitivity (Some ("", String.substring (String.length p) (String.length (p +:+ r)) (p +:+ r))).
  - pose proof (starts_with_self p r) as H. destruct (p +:+ r); cbn [split_once]; by rewrite H.
  - rewrite substring_skip; [done|]. rewrite string_length_app. lia.
Qed.

Lemma split_once_at c p s r :
  in_string c p = false → contains (String c p) s = false →
  split_once (String c p) (s +:+ String c p +:+ r) = Some (s, r).
Proof.
  intros Hp. induction s as [|a s IH]; intros Hs.
  - apply (split_once_here (String c p) r).
  - cbn [contains] in Hs. apply orb_false_iff in Hs as [Hs Hs'].
    change (String a s +:+ String c p +:+ r) with (String a (s +:+ String c p +:+ r)). cbn [split_once].
    destruct (starts_with (String a (s +:+ String c p +:+ r)) (String c p)) eqn:E.
    + exfalso. rewrite starts_with_cons in E, Hs. apply andb_true_iff in E as [E1 E2]. rewrite E1 in Hs.
      apply (starts_before c p s (p +:+ r)) in E2; [|done]. by rewrite E2 in Hs.
    + by rewrite IH.
Qed.

Lemma split_once_none sep s : sep ≠ "" → contains sep s = false → split_once sep s = None.
Proof.
  intros Hsep. induction s as [|a s IH]; cbn [contains split_once]; intros H; apply orb_false_iff in H as [-> H]; [done|].
  by rewrite IH.
Qed.

Definition think_block (inside : string) : string := "<think>" +:+ inside +:+ "</think>".

(** A reply with its reasoning in blocks between the pieces of its body. *)
Definition with_reasoning (pieces : list (string * string)) (last : string) : string :=
  foldr (λ '(before, inside) rest, before +:+ think_block inside +:+ rest) last pieces.

Lemma think_and_body_blocks pieces last fuel thinks body :
  Forall (λ p, contains "<think>" p.1 = false ∧ contains "</think>" p.2 = false) pieces →
  contains "<think>" last = false → length pieces ≤ fuel →
  think_and_body fuel (with_reasoning pieces last) thinks body =
    (thinks ++ pieces.*2, body +:+ foldr String.append "" pieces.*1 +:+ last).
Proof.
  intros Hp Hl. revert fuel thinks body. induction Hp as [|[before inside] pieces [Hb Hi] _ IH]; intros fuel thinks body Hf.
  - cbn [fmap list_fmap with_reasoning foldr]. rewrite app_nil_r.
    destruct fuel as [|fuel]; cbn [think_and_body]; [done|]. by rewrite split_once_none.
  - destruct fuel as [|fuel]; [cbn in Hf; lia|]. cbn [with_reasoning foldr think_and_body].
    unfold think_block. rewrite <- !string_app_assoc.
    change "<think>" with (String "<"%char "think>"). rewrite split_once_at by done.
    change "</think>" with (String "<"%char "/think>"). rewrite split_once_at by done.
    change (foldr _ last pieces) with (with_reasoning pieces last). rewrite IH by (cbn in Hf; lia).
    cbn [fmap list_fmap fst snd foldr]. rewrite <- app_assoc. cbn [app]. by rewrite <- !string_app_assoc.
Qed.

(** A reply whose body and reasoning use no tags themselves loses its reasoning and
    nothing else. *)
Lemma reasoning_is_removed pieces last :
  Forall (λ p, contains "<think>" p.1 = false ∧ contains "</think>" p.2 = false) pieces →
  contains "<think>" last = false →
  split_think_and_body (with_reasoning pieces last) =
    (join_with (newline +:+ newline) pieces.*2, foldr String.append "" pieces.*1 +:+ last).
Proof.
  intros Hp Hl. unfold split_think_and_body. rewrite think_and_body_blocks; [done..|].
  clear. induction pieces as [|[b i] pieces IH]; cbn [with_reasoning foldr length]; [lia|].
  unfold think_block. change (foldr _ last pieces) with (with_reasoning pieces last).
  rewrite !string_length_app. cbn. lia.
Qed.

(** ** What Telegram reads *)

(** A byte as part of the text, or as markup. *)
Inductive shown : Type := Lit (a : ascii) | Mark (a : ascii).

(** The rules of the Bot API for MarkdownV2, as its documentation lists them: the characters
    that mean markup in a text; inside code only the backquote does, inside the target of a
    link only the closing bracket. *)
Definition markup_in_text (a : ascii) : bool :=
  match a with
  | "_" | "*" | "[" | "]" | "(" | ")" | "~" | "`" | ">" | "#" | "+" | "-" | "=" | "|" | "{" | "}" | "." | "!" => true
  | _ => false
  end%char.

Definition markup_in_code (a : ascii) : bool := match a with "`"%char => true | _ => false end.
Definition markup_in_link (a : ascii) : bool := match a with ")"%char => true | _ => false end.

(** Any character with a code between 1 and 126 can follow a backslash. *)
Definition can_be_escaped (a : ascii) : bool := (1 <=? byte_of a) && (byte_of a <=? 126).

(** A character that can be escaped is text behind a backslash; the characters of [markup]
    mean markup otherwise. *)
Fixpoint read_v2 (markup : ascii → bool) (escaped : bool) (l : list ascii) : list shown :=
  match l with
  | [] => if escaped then [Lit backslash] else []
  | a :: l' =>
      if escaped then (if can_be_escaped a then [Lit a] else [Lit backslash; Lit a]) ++ read_v2 markup false l'
      else if Ascii.eqb a backslash then read_v2 markup true l'
      else (if markup a then Mark a else Lit a) :: read_v2 markup false l'
  end.

(** The characters that do not stand for themselves. *)
Definition v2_special (a : ascii) : bool := markup_in_text a || Ascii.eqb a backslash.

Lemma special_escaped a : v2_special a = true → can_be_escaped a = true.
Proof. destruct a as [[] [] [] [] [] [] [] []]; vm_compute; done. Qed.

Lemma needs_special a : needs_markdown_v2_escape a = true → v2_special a = true.
Proof. destruct a as [[] [] [] [] [] [] [] []]; vm_compute; done. Qed.

Lemma markup_needs a : markup_in_text a = true → needs_markdown_v2_escape a = true.
Proof. destruct a as [[] [] [] [] [] [] [] []]; vm_compute; done. Qed.

Lemma markup_code_special a : markup_in_code a = true → code_special a = true.
Proof. destruct a as [[] [] [] [] [] [] [] []]; vm_compute; done. Qed.

Lemma markup_link_special a : markup_in_link a = true → link_special a = true.
Proof. destruct a as [[] [] [] [] [] [] [] []]; vm_compute; done. Qed.

(** No backslash is left without its character, and each stands before one that needs it. *)
Fixpoint escapes_close (escaped : bool) (l : list ascii) : bool :=
  match l with
  | [] => negb escaped
  | a :: l' => if escaped then v2_special a && escapes_close false l'
               else escapes_close (Ascii.eqb a backslash) l'
  end.

Definition well_escaped (s : string) : bool := escapes_close false (bytes s).

Lemma read_app special l k : escapes_close false l = true →
  read_v2 special false (l ++ k) = read_v2 special false l ++ read_v2 special false k.
Proof.
  enough (∀ e, escapes_close e l = true → read_v2 special e (l ++ k) = read_v2 special e l ++ read_v2 special false k) by auto.
  induction l as [|a l IH]; intros e H; cbn [app read_v2 escapes_close] in *; [by destruct e|].
  destruct e; [apply andb_true_iff in H as [_ H]; rewrite IH by done; by rewrite app_assoc|].
  destruct (Ascii.eqb a backslash); rewrite IH; done.
Qed.

Lemma closes_app l k e : escapes_close e l = true → escapes_close e (l ++ k) = escapes_close false k.
Proof.
  revert e. induction l as [|a l IH]; intros e H; cbn in *; [by destruct e|].
  destruct e; [apply andb_true_iff in H as [-> H]; by apply IH|]. by apply IH.
Qed.

Lemma well_app s t : well_escaped s = true → well_escaped t = true → well_escaped (s +:+ t) = true.
Proof. unfold well_escaped. intros Hs Ht. rewrite bytes_app, closes_app; done. Qed.

Lemma well_plain s : in_string backslash s = false → well_escaped s = true.
Proof.
  unfold well_escaped. induction s as [|a s IH]; [done|]. rewrite in_string_cons. intros [Ha Hs]%orb_false_iff.
  change (escapes_close (Ascii.eqb a backslash) (bytes s) = true). rewrite Ascii.eqb_sym, Ha. by apply IH.
Qed.

Lemma read_escape special a l :
  v2_special a = true → read_v2 special false (backslash :: a :: l) = Lit a :: read_v2 special false l.
Proof. intros Ha%special_escaped. cbn. by rewrite Ha. Qed.

Lemma read_escaped p special input rest :
  p backslash = true → (∀ a, special a = true → p a = true) → (∀ a, p a = true → v2_special a = true) →
  read_v2 special false (bytes (escape_where p input) ++ rest) = (Lit <$> bytes input) ++ read_v2 special false rest.
Proof.
  intros Hb Hs Hp. induction input as [|a input IH]; [done|]. cbn [escape_where].
  destruct (p a) eqn:Ea.
  { etransitivity; [exact (read_escape special a _ (Hp a Ea))|exact (f_equal (cons (Lit a)) IH)]. }
  change (read_v2 special false (a :: bytes (escape_where p input) ++ rest) =
    Lit a :: (Lit <$> bytes input) ++ read_v2 special false rest). cbn [read_v2].
  destruct (Ascii.eqb_spec a backslash) as [->|_]; [congruence|].
  destruct (special a) eqn:E; [by rewrite (Hs a E) in Ea|]. by rewrite IH.
Qed.

Lemma well_escape a s : well_escaped (String backslash (String a s)) = v2_special a && well_escaped s.
Proof. reflexivity. Qed.

Lemma well_escape_where p input :
  p backslash = true → (∀ a, p a = true → v2_special a = true) →
  well_escaped (escape_where p input) = true.
Proof.
  intros Hb Hp. induction input as [|a input IH]; [done|]. cbn [escape_where]. destruct (p a) eqn:Ea.
  - by rewrite well_escape, Hp, IH.
  - change (escapes_close (Ascii.eqb a backslash) (bytes (escape_where p input)) = true).
    destruct (Ascii.eqb_spec a backslash) as [->|_]; [congruence|exact IH].
Qed.

Lemma code_needs_escape a : code_special a = true → v2_special a = true.
Proof. unfold code_special. intros [->%Ascii.eqb_eq| ->%Ascii.eqb_eq]%orb_true_iff; reflexivity. Qed.

Lemma link_needs_escape a : link_special a = true → v2_special a = true.
Proof. unfold link_special. intros [->%Ascii.eqb_eq| ->%Ascii.eqb_eq]%orb_true_iff; reflexivity. Qed.

(** What a text adds in a quote: each line after its marks. *)
Fixpoint quoted (special : ascii → bool) (quote_depth : nat) (line_start : bool) (l : list ascii) : list shown :=
  match l with
  | [] => []
  | a :: l' =>
      if Ascii.eqb a nl_char then Lit a :: quoted special quote_depth true l'
      else (if line_start then read_v2 special false (bytes (quote_prefix quote_depth)) else []) ++
           Lit a :: quoted special quote_depth false l'
  end.

Lemma prefix_plain n : well_escaped (quote_prefix n) = true.
Proof. induction n as [|n IH]; [done|]. exact IH. Qed.

Lemma maybe_prefix out line_start quote_depth :
  (maybe_push_quote_prefix out line_start quote_depth).1 =
    out +:+ (if line_start then quote_prefix quote_depth else "").
Proof.
  unfold maybe_push_quote_prefix. destruct line_start; cbn [andb fst]; [|by rewrite string_app_nil_r].
  destruct quote_depth; cbn [Nat.ltb Nat.leb fst]; [by rewrite string_app_nil_r|done].
Qed.

(** The text that [append_escaped] adds, and how it reads. *)
Lemma append_escaped_adds p special quote_depth input acc :
  p backslash = true → (∀ a, special a = true → p a = true) → special nl_char = false →
  (∀ a, p a = true → v2_special a = true) →
  ∃ added, (append_escaped p quote_depth input acc).1 = acc.1 +:+ added ∧ well_escaped added = true ∧
    read_v2 special false (bytes added) = quoted special quote_depth acc.2 (bytes input).
Proof.
  intros Hb Hs Hnl Hp. revert acc. induction input as [|a input IH]; intros [out ls]; cbn [append_escaped fst snd].
  { exists "". by rewrite string_app_nil_r. }
  change (bytes (String a input)) with (a :: bytes input). cbn [quoted].
  destruct (Ascii.eqb_spec a nl_char) as [->|Hn].
  - destruct (IH (out +:+ newline, true)) as (added & H1 & H2 & H3). exists (newline +:+ added).
    rewrite H1. cbn [fst snd]. split_and!; [by rewrite string_app_assoc|by apply well_app|].
    rewrite bytes_app, read_app by done. cbn [snd] in H3. rewrite H3.
    change (bytes newline) with [nl_char]. cbn [read_v2]. by rewrite Hnl.
  - rewrite maybe_prefix. set (pre := if ls then _ else ""). set (mid := if p a then _ else _).
    destruct (IH ((out +:+ pre) +:+ mid, false)) as (added & H1 & H2 & H3).
    assert (Hpre : well_escaped pre = true) by (subst pre; destruct ls; [apply prefix_plain|done]).
    assert (Hmid : well_escaped mid = true ∧ read_v2 special false (bytes mid) = [Lit a]).
    { subst mid. destruct (p a) eqn:Ea; [split; [by rewrite well_escape, Hp|exact (read_escape special a [] (Hp a Ea))]|].
      unfold well_escaped. cbn. destruct (Ascii.eqb_spec a backslash) as [->|_]; [congruence|].
      split; [done|]. destruct (special a) eqn:E; [by rewrite (Hs a E) in Ea|done]. }
    destruct Hmid as [Hw Hr]. exists (pre +:+ mid +:+ added). rewrite H1. cbn [fst snd].
    split_and!; [by rewrite !string_app_assoc|by repeat apply well_app|].
    rewrite !bytes_app, !read_app by done. cbn [snd] in H3. rewrite Hr, H3. subst pre. by destruct ls.
Qed.

Lemma quoted_flat special line_start l : quoted special 0 line_start l = Lit <$> l.
Proof. revert line_start. induction l as [|a l IH]; intros ls; cbn; [done|]. destruct (Ascii.eqb a nl_char), ls; cbn; by rewrite IH. Qed.

(** C35: Text stays text.  What a text, a piece of HTML, a piece of code or the target of a
    link adds to a message reads back, by the rules the Bot API gives for MarkdownV2, as exactly
    its own characters - behind the marks of the quotes it stands in - whatever it contains:
    it opens no markup and does not close the markup around it. *)
Theorem text_never_turns_into_markup r text :
  (∀ event, event ∈ [EvText text; EvHtml text; EvInlineHtml text] → rd_in_code_block r = false →
     ∃ added, rd_out (on_event r event) = rd_out r +:+ added ∧
       read_v2 markup_in_text false (bytes added) =
         quoted markup_in_text (rd_quote_depth r) (rd_line_start r) (bytes text)) ∧
  (rd_in_code_block r = true →
     ∃ added, rd_out (on_event r (EvText text)) = rd_out r +:+ added ∧
       read_v2 markup_in_code false (bytes added) =
         quoted markup_in_code (rd_quote_depth r) (rd_line_start r) (bytes text)) ∧
  (∃ before inside, rd_out (on_event r (EvCode text)) = before +:+ "`" +:+ inside +:+ "`" ∧
     read_v2 markup_in_code false (bytes (inside +:+ "`")) = (Lit <$> bytes text) ++ [Mark backquote]) ∧
  (head (rd_link_stack r) = Some text →
     ∃ inside, rd_out (on_event r (EvEnd EndLink)) = rd_out r +:+ "](" +:+ inside +:+ ")" ∧
       read_v2 markup_in_link false (bytes (inside +:+ ")")) = (Lit <$> bytes text) ++ [Mark ")"%char]).
Proof.
  split_and!.
  - intros event He Hc. destruct (append_escaped_adds needs_markdown_v2_escape markup_in_text
      (rd_quote_depth r) text (rd_out r, rd_line_start r)) as (added & H1 & _ & H2);
      [done|apply markup_needs|done|apply needs_special|].
    exists added. split; [|exact H2]. rewrite !elem_of_cons, elem_of_nil in He.
    destruct He as [->|[->|[->|[]]]]; cbn [on_event]; rewrite ?Hc; exact H1.
  - intros Hc. destruct (append_escaped_adds code_special markup_in_code
      (rd_quote_depth r) text (rd_out r, rd_line_start r)) as (added & H1 & _ & H2);
      [done|apply markup_code_special|done|apply code_needs_escape|].
    exists added. split; [|exact H2]. cbn [on_event]. rewrite Hc. exact H1.
  - exists (maybe_push_quote_prefix (rd_out r) (rd_line_start r) (rd_quote_depth r)).1, (escape_markdown_v2_code text).
    split; [reflexivity|]. rewrite bytes_app.
    apply read_escaped; [done|apply markup_code_special|apply code_needs_escape].
  - intros Hl. exists (escape_markdown_v2_link_destination text). split.
    + cbn [on_event on_end]. rewrite Hl. reflexivity.
    + rewrite bytes_app. apply read_escaped; [done|apply markup_link_special|apply link_needs_escape].
Qed.

(** ** A rendering leaves no escape open *)

Lemma digits_plain s a : digits s → a ∉ bytes "0123456789" → in_string a s = false.
Proof.
  unfold digits, in_string. intros H Ha. apply not_true_iff_false. rewrite existsb_exists.
  intros (b & Hb & ->%Ascii.eqb_eq). rewrite Forall_forall in H. apply Ha, H. by apply list_elem_of_In.
Qed.

Create HintDb well.
#[local] Hint Resolve well_app prefix_plain : well.
#[local] Hint Extern 1 (well_escaped _ = true) => reflexivity : well.

Definition well_rendered (r : Render) : Prop := well_escaped (rd_out r) = true.

Lemma well_push s r : well_rendered r → well_escaped s = true → well_rendered (push_mark s r).
Proof. apply (well_app (rd_out r) s). Qed.

Lemma well_line_break out : well_escaped out = true → well_escaped (ensure_line_break out).1 = true.
Proof. unfold ensure_line_break. case_match; cbn [fst]; auto with well. Qed.

Lemma well_blank_line out : well_escaped out = true → well_escaped (ensure_blank_line out).1 = true.
Proof. unfold ensure_blank_line. repeat case_match; cbn [fst]; auto with well. Qed.

Lemma well_break r : well_rendered r → well_rendered (line_break r).
Proof. apply well_line_break. Qed.

Lemma well_blank r : well_rendered r → well_rendered (blank_line r).
Proof. apply well_blank_line. Qed.

Lemma well_text r text : well_rendered r → well_rendered (append_markdown_v2_text r text).
Proof.
  unfold well_rendered. intros H.
  destruct (append_escaped_adds needs_markdown_v2_escape markup_in_text
    (rd_quote_depth r) text (rd_out r, rd_line_start r)) as (added & H1 & H2 & _);
    [done|apply markup_needs|done|apply needs_special|].
  cbn. rewrite H1. by apply well_app.
Qed.

Lemma well_code_text r text : well_rendered r → well_rendered (append_code_text r text true).
Proof.
  unfold well_rendered. intros H.
  destruct (append_escaped_adds code_special markup_in_code
    (rd_quote_depth r) text (rd_out r, rd_line_start r)) as (added & H1 & H2 & _);
    [done|apply markup_code_special|done|apply code_needs_escape|].
  change (well_escaped (append_escaped code_special (rd_quote_depth r) text (rd_out r, rd_line_start r)).1 = true).
  rewrite H1. by apply well_app.
Qed.

#[local] Hint Resolve well_push well_break well_blank well_text well_code_text : well.

Lemma lang_plain lang : in_string backslash (sanitize_code_fence_language lang) = false.
Proof.
  unfold in_string, sanitize_code_fence_language. rewrite bytes_of_bytes. apply not_true_iff_false.
  rewrite existsb_exists. intros (b & Hb & <-%Ascii.eqb_eq). apply filter_In in Hb as [_ Hb]. by vm_compute in Hb.
Qed.

Lemma well_start tag r : well_rendered r → well_rendered (on_start tag r).
Proof.
  intros H. destruct tag as [| | | | |kind|start| |dest| |]; cbn [on_start]; auto with well.
  - unfold well_rendered. cbn. apply well_app; [by apply well_blank|]. apply well_app; [|done].
    destruct kind; [done|]. apply well_app; [done|]. apply well_plain, lang_plain.
  - unfold well_rendered. cbn. by apply well_break.
  - destruct (rd_list_stack _) as [|top rest]; [by auto with well|]. destruct (ml_ordered top); [|by auto with well].
    apply (well_push _ (line_break r)); [by auto with well|]. apply well_app; [|done].
    apply well_plain, digits_plain; [apply pretty_N_digits|]. cbn. set_solver.
  - apply (well_push "[" r); done.
  - unfold well_rendered. cbn. by apply well_break.
Qed.

Lemma well_end tag_end r : well_rendered r → well_rendered (on_end tag_end r).
Proof.
  intros H. destruct tag_end; cbn [on_end]; auto with well.
  - apply well_blank. unfold well_rendered. cbn. apply well_app; [|done]. case_match; auto with well.
  - apply well_push; [exact H|]. repeat apply well_app; try done.
    apply well_escape_where; [done|apply link_needs_escape].
Qed.

Lemma well_event event r : well_rendered r → well_rendered (on_event r event).
Proof.
  intros H. destruct event; cbn [on_event]; auto using well_start, well_end with well.
  - destruct (rd_in_code_block r); auto with well.
  - apply well_push; [|repeat apply well_app; try done; apply well_escape_where; [done|apply code_needs_escape]].
    unfold well_rendered. cbn. rewrite maybe_prefix. apply well_app; [done|]. case_match; auto with well.
  - by apply (well_app (rd_out r) newline).
  - by apply (well_app (rd_out r) newline).
Qed.

Lemma well_events events r : well_rendered r → well_rendered (foldl on_event r events).
Proof. revert r. induction events as [|e events IH]; intros r H; [done|]. apply IH, well_event, H. Qed.

(** *** Trimming it *)

Definition plain (a : ascii) : Prop := v2_special a = false.

Lemma ws1_plain a : ws1 a = true → plain a.
Proof. destruct a as [[] [] [] [] [] [] [] []]; done. Qed.

Lemma high_plain a : 128 ≤ byte_of a → plain a.
Proof. destruct a as [[] [] [] [] [] [] [] []]; vm_compute; (done || lia). Qed.

Lemma ws2_plain a b : ws2 a b = true → plain a ∧ plain b.
Proof.
  unfold ws2. rewrite !andb_true_iff, orb_true_iff, !Nat.eqb_eq. intros H.
  split; apply high_plain; lia.
Qed.

Lemma ws3_plain a b c : ws3 a b c = true → plain a ∧ plain b ∧ plain c.
Proof.
  unfold ws3. cbv zeta. rewrite !orb_true_iff, !andb_true_iff, !orb_true_iff, !andb_true_iff, !Nat.eqb_eq, !Nat.leb_le.
  intros H. split_and!; apply high_plain; lia.
Qed.

(** What trimming drops at the front. *)
Lemma trim_with_drops w2 w3 s :
  (∀ a b, w2 a b = true → plain a ∧ plain b) → (∀ a b c, w3 a b c = true → plain a ∧ plain b ∧ plain c) →
  ∃ k, s = k ++ trim_with w2 w3 s ∧ Forall plain k.
Proof.
  intros H2 H3. induction s as [|a s IH1 IH2 IH3] using trim_with_ind; [by exists []|]. cbn.
  destruct (ws1 a) eqn:E1.
  { destruct IH1 as (k & Hk & Hp). exists (a :: k). cbn. rewrite <- Hk. eauto using ws1_plain. }
  destruct s as [|b s]; [by exists []|]. destruct (w2 a b) eqn:E2.
  { destruct (IH2 b s eq_refl) as (k & Hk & Hp). exists (a :: b :: k). cbn. rewrite <- Hk.
    destruct (H2 a b E2). split; [done|by repeat constructor]. }
  destruct s as [|c s]; [by exists []|]. destruct (w3 a b c) eqn:E3; [|by exists []].
  destruct (IH3 b c s eq_refl) as (k & Hk & Hp). exists (a :: b :: c :: k). cbn. rewrite <- Hk.
  destruct (H3 a b c E3) as (? & ? & ?). split; [done|by repeat constructor].
Qed.

Lemma closes_skip k l : Forall plain k → escapes_close false (k ++ l) = escapes_close false l.
Proof.
  induction 1 as [|a k Ha _ IH]; [done|]. cbn. destruct (Ascii.eqb_spec a backslash) as [->|_]; [done|exact IH].
Qed.

Lemma closes_cut e l k : Forall plain k → escapes_close e (l ++ k) = true → escapes_close e l = true.
Proof.
  intros Hk. revert e. induction l as [|a l IH]; intros e H; cbn in *.
  - destruct e; [|done]. destruct Hk as [|b k Hb _]; [done|].
    change (v2_special b && escapes_close false k = true) in H. by rewrite Hb in H.
  - destruct e; [|by apply IH]. apply andb_true_iff in H as [-> H]. by apply IH.
Qed.

Lemma well_trim s : well_escaped s = true → well_escaped (trim s) = true.
Proof.
  unfold well_escaped. rewrite trim_trim_bytes, bytes_of_bytes. unfold trim_bytes, trim_start, trim_start_rev.
  destruct (trim_with_drops ws2 ws3 (bytes s) ws2_plain ws3_plain) as (k & Hk & Hp).
  set (m := trim_with ws2 ws3 (bytes s)) in *. rewrite Hk, closes_skip by done.
  destruct (trim_with_drops (λ a b, ws2 b a) (λ a b c, ws3 c b a) (rev m)) as (k' & Hk' & Hp').
  { intros a b H%ws2_plain. tauto. } { intros a b c H%ws3_plain. tauto. }
  set (r := trim_with _ _ (rev m)) in *. intros H. apply (closes_cut false (rev r) (rev k')).
  { by apply Forall_rev. } rewrite <- rev_app_distr, <- Hk', rev_involutive. exact H.
Qed.

Section parts.
  Context `{MP : MarkdownParser}.

Lemma rendering_is_well input : well_escaped (render_markdown_to_telegram_markdown_v2 input) = true.
Proof.
  unfold render_markdown_to_telegram_markdown_v2. destruct (is_blank input); [done|].
  apply well_trim, well_events. done.
Qed.

(** A reply goes out in parts each of which Telegram takes: at most as many characters
    as a message may have, not blank, as MarkdownV2; and each part that is a whole rendering
    of its piece of the reply has every backslash before the character it escapes.  The
    pieces are the reply, without its reasoning if it has any, cut every so many
    characters. *)
Theorem parts_fit_a_message raw max_chars :
  let '(think, body) := split_think_and_body raw in
  let source := if is_blank think then trim raw else trim body in
  let pieces := split_text_chunks source (Nat.max (Nat.div (Nat.max max_chars 1) 2) 512) in
  foldr String.append "" pieces = source ∧
  render_telegram_text_parts raw max_chars = pieces ≫= render_chunk max_chars ∧
  ∀ part, part ∈ render_telegram_text_parts raw max_chars →
    chars_count (rt_text part) ≤ Nat.max max_chars 1 ∧ is_blank (rt_text part) = false ∧
    rt_parse_mode part = Some "MarkdownV2" ∧
    ∃ piece, piece ∈ pieces ∧ let rendered := render_markdown_to_telegram_markdown_v2 piece in
      if chars_count rendered <=? Nat.max max_chars 1
      then part = markdown_v2 rendered ∧ well_escaped (rt_text part) = true
      else rt_text part ∈ split_text_chunks rendered (Nat.max max_chars 1).
Proof.
  unfold render_telegram_text_parts. destruct (split_think_and_body raw) as [think body].
  set (source := if is_blank think then trim raw else trim body).
  set (n := Nat.max (Nat.div _ 2) 512). cbv zeta. split; [apply split_chunks_whole|].
  assert (Hs : (if String.eqb source "" then [] else split_text_chunks source n ≫= render_chunk max_chars) =
    split_text_chunks source n ≫= render_chunk max_chars) by (by destruct (String.eqb_spec source "") as [->|]).
  split; [exact Hs|]. rewrite Hs. intros part (piece & Hpart & Hpiece)%list_elem_of_bind.
  unfold render_chunk in Hpart. destruct (is_blank (render_markdown_to_telegram_markdown_v2 piece)) eqn:Eb;
    [by apply elem_of_nil in Hpart|].
  destruct (chars_count _ <=? Nat.max max_chars 1) eqn:Ec.
  - apply list_elem_of_singleton in Hpart as ->. split_and!; [by apply Nat.leb_le|done..|].
    exists piece. split; [done|]. rewrite Ec. split; [done|apply rendering_is_well].
  - apply list_elem_of_fmap in Hpart as (split & -> & Hsplit). rewrite list_elem_of_In in Hsplit.
    apply filter_In in Hsplit as [Hsplit Hb%negb_true_iff].
    apply list_elem_of_In in Hsplit. split_and!; [|done..|exists piece; split; [done|by rewrite Ec]].
    destruct (split_chunks_fit (Nat.max (Nat.max max_chars 1) 1) "" 0 (render_markdown_to_telegram_markdown_v2 piece))
      as [Hf _]; [lia|done|lia|]. rewrite Forall_forall in Hf. specialize (Hf _ Hsplit). cbn in *. lia.
Qed.
End parts.

(** ** What the rules do not cover *)

Definition TELEGRAM_MAX_TEXT_CHARS : nat := 4096.

(** A reader of plain text, and one of a block quote of depth 3 with lazy continuation lines. *)
Definition plain_text : MarkdownParser := λ s, [EvText s].

Definition lazy_quote : MarkdownParser := λ s,
  [EvStart TagBlockQuote; EvStart TagBlockQuote; EvStart TagBlockQuote; EvStart TagParagraph] ++
  (bytes (trim_start_matches ">" s) ≫= λ a, if Ascii.eqb a nl_char then [EvSoftBreak] else [EvText (String a "")]) ++
  [EvEnd EndParagraph; EvEnd EndBlockQuote; EvEnd EndBlockQuote; EvEnd EndBlockQuote].

(** An empty block of reasoning is not removed: the reply shows its tags. *)
Example empty_reasoning_is_shown :
  let P := plain_text in
  rt_text <$> render_telegram_text_parts "<think></think>Hi" TELEGRAM_MAX_TEXT_CHARS = ["<think\></think\>Hi"].
Proof. vm_compute. reflexivity. Qed.

(** Two pieces of a body can meet as a tag, which stays. *)
Example removal_makes_a_tag :
  split_think_and_body "<th<think>a</think>ink>b</think>c" = ("a", "<think>b</think>c").
Proof. vm_compute. reflexivity. Qed.

(** A rendering that is longer than a message is cut between a backslash and the character it
    escapes. *)
Example an_escape_is_cut :
  let P := lazy_quote in
  well_escaped <$> (rt_text <$> render_telegram_text_parts
    (">>>a!" +:+ String.concat "" (replicate 60 (newline +:+ "!"))) 512) = [false; true].
Proof. vm_compute. reflexivity. Qed.

(** A reader of [**word**] and [*word*], as pulldown_cmark takes them: strong, and emphasised. *)
Definition marked_word : MarkdownParser := λ s,
  match split_once "**" s with
  | Some ("", rest) =>
      match split_once "**" rest with Some (word, "") => [EvStart TagStrong; EvText word; EvEnd EndStrong] | _ => [EvText s] end
  | _ =>
      match split_once "*" s with
      | Some ("", rest) =>
          match split_once "*" rest with
          | Some (word, "") => [EvStart TagEmphasis; EvText word; EvEnd EndEmphasis]
          | _ => [EvText s]
          end
      | _ => [EvText s]
      end
  end.

(** What waits in the queue is rendered already, and is rendered once more when it is sent:
    strong text arrives emphasised. *)
Example queued_strong_arrives_emphasised :
  let P := marked_word in
  let render := render_markdown_to_telegram_markdown_v2 in
  render "**stop**" = "*stop*" ∧ render (render "**stop**") = "_stop_".
Proof. vm_compute. done. Qed.
