(* ===== verification/Delivery.v ===== *)
(** * Delivery to Telegram

    The sender of src/channel.rs with its queue of what could not be delivered, the sink of
    src/channel/telegram_stream.rs that shows a reply while it is made, and the session ids
    by which a reply finds its chat; what is sent, queued and shown. *)

From S2P Require Import Prelude Text Strings MemBase Outbox Markdown.
From stdpp Require Import pretty.
From Stdlib Require Import Ascii.

(** ** The Bot API *)

(** What a call answers: no response, an HTTP error, a body that does not decode, or
    [TelegramApiResponse]. *)
Inductive api_reply (A : Type) : Type :=
| NoResponse
| ErrorStatus
| Undecodable
| Body (ok : bool) (result : A) (description : option string).
Arguments NoResponse {A}.
Arguments ErrorStatus {A}.
Arguments Undecodable {A}.
Arguments Body {A} ok result description.

(** The end of every method of the sender. *)
Definition api_result {A} (method : string) (reply : api_reply A) : res A :=
  match reply with
  | NoResponse => Err ("failed to call telegram " +:+ method)
  | ErrorStatus => Err ("telegram " +:+ method +:+ " returned error")
  | Undecodable => Err ("failed to decode telegram " +:+ method +:+ " payload")
  | Body true result _ => Ok result
  | Body false _ description =>
      Err ("telegram " +:+ method +:+ " returned ok=false: " +:+ default "unknown error" description)
  end.

Definition inline_keyboard : Type := list (list (string * string)).

(** The payloads of [sendMessage], [sendMessageDraft] and [editMessageText]. *)
Record SendMessage : Type := {
  se_chat_id : Z;
  se_thread_id : option Z;
  se_reply_to : option Z;
  se_rendered : TelegramRenderedText;
  se_reply_markup : option inline_keyboard
}.

Record SendDraft : Type := {
  sd_chat_id : Z;
  sd_thread_id : option Z;
  sd_reply_to : option Z;
  sd_draft_id : Z;
  sd_rendered : TelegramRenderedText
}.

Record EditMessage : Type := {
  em_chat_id : Z;
  em_message_id : Z;
  em_rendered : TelegramRenderedText
}.

Class TelegramApi : Type := {
  api_send : nat → SendMessage → api_reply Z;
  api_draft : nat → SendDraft → api_reply bool;
  api_edit : nat → EditMessage → api_reply unit
}.

(** A call of the API with what came back. *)
Inductive TgCall : Type :=
| CallSend (payload : SendMessage) (r : res Z)
| CallDraft (payload : SendDraft) (r : res bool)
| CallEdit (payload : EditMessage) (r : res unit).

(** The process: whether a queue is attached, its tables, and the calls so far. *)
Record Telegram : Type := {
  tg_queue_attached : bool;
  tg_channel : ChannelDb;
  tg_calls : list TgCall
}.

Definition note_call (call : TgCall) (s : Telegram) : Telegram :=
  {| tg_queue_attached := tg_queue_attached s; tg_channel := tg_channel s; tg_calls := tg_calls s ++ [call] |}.

Definition with_channel (c : ChannelDb) (s : Telegram) : Telegram :=
  {| tg_queue_attached := tg_queue_attached s; tg_channel := c; tg_calls := tg_calls s |}.

(** ** Integers of 64 bits *)

Definition to_i64 (z : Z) : Z := let m := (z mod 2 ^ 64)%Z in if (m <? 2 ^ 63)%Z then m else (m - 2 ^ 64)%Z.

(** [i64::rotate_left]. *)
Definition rotate_left (z : Z) (n : Z) : Z :=
  let u := (z mod 2 ^ 64)%Z in
  to_i64 (Z.lor (Z.shiftl u n) (Z.shiftr u (64 - n))).

(** [i64::from_str]: an optional sign and decimal digits, within the range. *)
Definition digit_value (a : ascii) : option Z :=
  let n := Z.of_nat (byte_of a) in
  if ((48 <=? n) && (n <=? 57))%Z then Some (n - 48)%Z else None.

Fixpoint parse_digits (acc : Z) (l : list ascii) : option Z :=
  match l with
  | [] => Some acc
  | a :: l' => d ← digit_value a; parse_digits (acc * 10 + d)%Z l'
  end.

Definition in_i64 (z : Z) : option Z :=
  if ((- 2 ^ 63 <=? z) && (z <? 2 ^ 63))%Z then Some z else None.

Definition parse_i64 (s : string) : option Z :=
  match bytes s with
  | [] => None
  | a :: l =>
      let magnitude l := match l with [] => None | _ => parse_digits 0 l end in
      if Ascii.eqb a "-"%char then z ← magnitude l; in_i64 (- z)
      else if Ascii.eqb a "+"%char then z ← magnitude l; in_i64 z
      else z ← parse_digits 0 (a :: l); in_i64 z
  end.

(** ** Session ids *)

Definition telegram_session_id (chat_id : Z) (message_thread_id reply_to_message_id : option Z) : string :=
  match message_thread_id with
  | Some thread_id => "tg:" +:+ pretty chat_id +:+ ":thread:" +:+ pretty thread_id
  | None =>
      match reply_to_message_id with
      | Some reply_id => "tg:" +:+ pretty chat_id +:+ ":reply:" +:+ pretty reply_id
      | None => "tg:" +:+ pretty chat_id
      end
  end.

Record TelegramOutboundTarget : Type := {
  ot_chat_id : Z;
  ot_thread_id : option Z;
  ot_reply_to : option Z
}.

(** [s.split(':')]. *)
Fixpoint split_colon (cur s : string) : list string :=
  match s with
  | EmptyString => [cur]
  | String a s' => if Ascii.eqb a ":"%char then cur :: split_colon "" s' else split_colon (cur +:+ String a "") s'
  end.

(** The pairs that follow the chat. *)
Fixpoint target_pairs (parts : list string) (target : TelegramOutboundTarget) : TelegramOutboundTarget :=
  match parts with
  | kind :: value :: rest =>
      let parsed := parse_i64 value in
      target_pairs rest
        (if String.eqb kind "thread" then
           {| ot_chat_id := ot_chat_id target; ot_thread_id := parsed; ot_reply_to := ot_reply_to target |}
         else if String.eqb kind "reply" then
           {| ot_chat_id := ot_chat_id target; ot_thread_id := ot_thread_id target; ot_reply_to := parsed |}
         else target)
  | _ => target
  end.

Definition parse_telegram_outbound_target (session_id : string) : res TelegramOutboundTarget :=
  match Strings.strip_prefix "tg:" session_id with
  | None => Err "telegram channel_send session_id must start with 'tg:'"
  | Some rest =>
      let parts := split_colon "" rest in
      match head parts ≫= parse_i64 with
      | None => Err "telegram channel_send session_id has no numeric chat id"
      | Some chat_id =>
          Ok (target_pairs (tail parts) {| ot_chat_id := chat_id; ot_thread_id := None; ot_reply_to := None |})
      end
  end.

Section delivery.
  Context `{CLK : Clock} `{MP : MarkdownParser} `{API : TelegramApi}.

Abbreviation TG := (M Telegram).

(** ** The sender *)

Definition send_rendered_message_with_id (chat_id : Z) (message_thread_id reply_to_message_id : option Z)
    (rendered : TelegramRenderedText) (reply_markup : option inline_keyboard) : TG Z :=
  n ← tick;
  let payload := {| se_chat_id := chat_id; se_thread_id := message_thread_id; se_reply_to := reply_to_message_id;
                    se_rendered := rendered; se_reply_markup := reply_markup |} in
  let r := api_result "sendMessage" (api_send n payload) in
  s ← get_db;
  put_db (note_call (CallSend payload r) s) ;;
  lift_res r.

(** [truncate] of a reply to its first part, where one is needed. *)
Definition first_part (e text : string) : res TelegramRenderedText :=
  match render_telegram_text_parts text TELEGRAM_MAX_TEXT_CHARS with
  | first :: _ => Ok first
  | [] => Err e
  end.

Definition send_message_with_id (chat_id : Z) (message_thread_id reply_to_message_id : option Z) (text : string) : TG Z :=
  first ← lift_res (first_part "empty telegram message text" text);
  send_rendered_message_with_id chat_id message_thread_id reply_to_message_id first None.

Definition send_message_with_inline_keyboard (chat_id : Z) (message_thread_id reply_to_message_id : option Z)
    (text : string) (keyboard : inline_keyboard) : TG Z :=
  first ← lift_res (first_part "empty telegram message text" text);
  send_rendered_message_with_id chat_id message_thread_id reply_to_message_id first (Some keyboard).

Definition send_message_draft (chat_id : Z) (message_thread_id reply_to_message_id : option Z) (draft_id : Z)
    (text : string) : TG unit :=
  first ← lift_res (first_part "empty telegram message text for draft" text);
  n ← tick;
  let payload := {| sd_chat_id := chat_id; sd_thread_id := message_thread_id; sd_reply_to := reply_to_message_id;
                    sd_draft_id := draft_id; sd_rendered := first |} in
  let r := api_result "sendMessageDraft" (api_draft n payload) in
  s ← get_db;
  put_db (note_call (CallDraft payload r) s) ;;
  lift_res r ;; mret tt.

Definition edit_rendered_message (chat_id message_id : Z) (rendered : TelegramRenderedText) : TG unit :=
  n ← tick;
  let payload := {| em_chat_id := chat_id; em_message_id := message_id; em_rendered := rendered |} in
  let r := api_result "editMessageText" (api_edit n payload) in
  s ← get_db;
  put_db (note_call (CallEdit payload r) s) ;;
  lift_res r.

Definition edit_message (chat_id message_id : Z) (text : string) : TG unit :=
  first ← lift_res (first_part "empty telegram message text for edit" text);
  edit_rendered_message chat_id message_id first.

(** What cannot be sent now waits in the queue, if there is one. *)
Definition enqueue_failed (chat_id : Z) (message_thread_id reply_to_message_id : option Z) (text : string) : TG unit :=
  s ← get_db;
  if tg_queue_attached s then
    ignore_error (zoom tg_channel with_channel (enqueue
      {| eq_channel := "telegram"; eq_chat_id := chat_id; eq_thread_id := message_thread_id;
         eq_reply_to := reply_to_message_id; eq_text := text; eq_session_id := None |}))
  else mret tt.

(** The loop over the parts; only the first part is a reply. *)
Fixpoint send_parts (chat_id : Z) (message_thread_id part_reply_to : option Z)
    (parts : list TelegramRenderedText) (ids : list Z) : TG (list Z) :=
  match parts with
  | [] => mret ids
  | part :: rest =>
      sent ← catch (send_rendered_message_with_id chat_id message_thread_id part_reply_to part None);
      match sent with
      | Ok id => send_parts chat_id message_thread_id None rest (ids ++ [id])
      | Err err =>
          enqueue_failed chat_id message_thread_id part_reply_to
            (join_with (newline +:+ newline) (rt_text <$> parts)) ;;
          throw err
      end
  end.

Definition send_message_with_ids (chat_id : Z) (message_thread_id reply_to_message_id : option Z) (text : string)
    : TG (list Z) :=
  send_parts chat_id message_thread_id reply_to_message_id
    (render_telegram_text_parts text TELEGRAM_MAX_TEXT_CHARS) [].

Definition send_message (chat_id : Z) (message_thread_id reply_to_message_id : option Z) (text : string) : TG unit :=
  send_message_with_ids chat_id message_thread_id reply_to_message_id text ;; mret tt.

(** [ChannelOutboundSender::send]; the value is the chat of the evidence. *)
Definition channel_outbound_send (telegram_configured : bool) (channel session_id text : string) : TG Z :=
  if String.eqb channel "telegram" then
    ensure telegram_configured "telegram channel is not configured for outbound sends" ;;
    target ← lift_res (parse_telegram_outbound_target session_id);
    send_message (ot_chat_id target) (ot_thread_id target) (ot_reply_to target) text ;;
    mret (ot_chat_id target)
  else throw ("channel_send has no outbound sender for channel '" +:+ channel +:+ "'").

(** [ChannelOutboundSender::supports_channel]. *)
Definition supports_channel (telegram_configured : bool) (channel : string) : bool :=
  String.eqb channel "telegram" && telegram_configured.

(** ** The sink of a stream *)

Record TelegramStreamSink : Type := {
  sk_chat_id : Z;
  sk_thread_id : option Z;
  sk_reply_to : option Z;
  sk_prefer_draft : bool;
  sk_draft_supported : bool;
  sk_draft_id : Z;
  sk_min_edit_interval : Z;
  sk_message_id : option Z;
  sk_tail_message_ids : list Z;
  sk_pending_text : string;
  sk_rendered_parts : list TelegramRenderedText;
  sk_last_push : option Z
}.

Definition build_draft_id (nanos chat_id : Z) (message_thread_id : option Z) : Z :=
  let thread := default 0%Z message_thread_id in
  let mixed := Z.lxor (Z.lxor (to_i64 nanos) (rotate_left chat_id 11)) (rotate_left thread 19) in
  Z.max (Z.land (to_i64 (Z.abs mixed)) (2 ^ 31 - 1)) 1.

(** The sink and the process; a method leaves its sink behind also when it fails. *)
Record Streaming : Type := { st_sink : TelegramStreamSink; st_tg : Telegram }.

Abbreviation SINK := (M Streaming).

Definition on_tg {A} (m : TG A) : SINK A :=
  zoom st_tg (λ t s, {| st_sink := st_sink s; st_tg := t |}) m.

Definition set_sink (f : TelegramStreamSink → TelegramStreamSink) : SINK unit :=
  s ← get_db; put_db {| st_sink := f (st_sink s); st_tg := st_tg s |}.

Definition new_sink (nanos : Z) (chat_id : Z) (is_private_chat : bool) (message_thread_id reply_to_message_id : option Z)
    (prefer_draft : bool) (min_edit_interval : Z) : TelegramStreamSink :=
  {| sk_chat_id := chat_id; sk_thread_id := message_thread_id; sk_reply_to := reply_to_message_id;
     sk_prefer_draft := prefer_draft;
     sk_draft_supported := is_private_chat && bool_decide (reply_to_message_id = None);
     sk_draft_id := build_draft_id nanos chat_id message_thread_id; sk_min_edit_interval := min_edit_interval;
     sk_message_id := None; sk_tail_message_ids := []; sk_pending_text := ""; sk_rendered_parts := [];
     sk_last_push := None |}.

Definition no_drafts (k : TelegramStreamSink) : TelegramStreamSink :=
  {| sk_chat_id := sk_chat_id k; sk_thread_id := sk_thread_id k; sk_reply_to := sk_reply_to k;
     sk_prefer_draft := sk_prefer_draft k; sk_draft_supported := false; sk_draft_id := sk_draft_id k;
     sk_min_edit_interval := sk_min_edit_interval k; sk_message_id := sk_message_id k;
     sk_tail_message_ids := sk_tail_message_ids k; sk_pending_text := sk_pending_text k;
     sk_rendered_parts := sk_rendered_parts k; sk_last_push := sk_last_push k |}.

Definition with_pending (text : string) (k : TelegramStreamSink) : TelegramStreamSink :=
  {| sk_chat_id := sk_chat_id k; sk_thread_id := sk_thread_id k; sk_reply_to := sk_reply_to k;
     sk_prefer_draft := sk_prefer_draft k; sk_draft_supported := sk_draft_supported k; sk_draft_id := sk_draft_id k;
     sk_min_edit_interval := sk_min_edit_interval k; sk_message_id := sk_message_id k;
     sk_tail_message_ids := sk_tail_message_ids k; sk_pending_text := text;
     sk_rendered_parts := sk_rendered_parts k; sk_last_push := sk_last_push k |}.

Definition with_ids (message_id : option Z) (tails : list Z) (k : TelegramStreamSink) : TelegramStreamSink :=
  {| sk_chat_id := sk_chat_id k; sk_thread_id := sk_thread_id k; sk_reply_to := sk_reply_to k;
     sk_prefer_draft := sk_prefer_draft k; sk_draft_supported := sk_draft_supported k; sk_draft_id := sk_draft_id k;
     sk_min_edit_interval := sk_min_edit_interval k; sk_message_id := message_id;
     sk_tail_message_ids := tails; sk_pending_text := sk_pending_text k;
     sk_rendered_parts := sk_rendered_parts k; sk_last_push := sk_last_push k |}.

(** [self.rendered_parts = parts; self.last_push = Some(Instant::now())]. *)
Definition pushed (parts : list TelegramRenderedText) (now : Z) (k : TelegramStreamSink) : TelegramStreamSink :=
  {| sk_chat_id := sk_chat_id k; sk_thread_id := sk_thread_id k; sk_reply_to := sk_reply_to k;
     sk_prefer_draft := sk_prefer_draft k; sk_draft_supported := sk_draft_supported k; sk_draft_id := sk_draft_id k;
     sk_min_edit_interval := sk_min_edit_interval k; sk_message_id := sk_message_id k;
     sk_tail_message_ids := sk_tail_message_ids k; sk_pending_text := sk_pending_text k;
     sk_rendered_parts := parts; sk_last_push := Some now |}.

Definition record_push (parts : list TelegramRenderedText) : SINK unit :=
  now ← now_nanos; set_sink (pushed parts now).

Definition note_sent_message_ids (ids : list Z) (k : TelegramStreamSink) : TelegramStreamSink :=
  match sk_message_id k, ids with
  | None, first :: rest => with_ids (Some first) (sk_tail_message_ids k ++ rest) k
  | _, _ => with_ids (sk_message_id k) (sk_tail_message_ids k ++ ids) k
  end.

Definition sent_message_ids (k : TelegramStreamSink) : list Z :=
  option_list (sk_message_id k) ++ sk_tail_message_ids k.

Definition sink_parts (k : TelegramStreamSink) : list TelegramRenderedText :=
  render_telegram_text_parts (sk_pending_text k) TELEGRAM_MAX_TEXT_CHARS.

(** The loop over the parts after the first; [i] is the part's number. *)
Fixpoint flush_tails (i : nat) (tails : list TelegramRenderedText) : SINK unit :=
  match tails with
  | [] => mret tt
  | rendered_tail :: rest =>
      s ← get_db;
      let k := st_sink s in
      (match sk_tail_message_ids k !! (i - 1) with
       | Some msg_id =>
           if negb (bool_decide (sk_rendered_parts k !! i = Some rendered_tail)) then
             wrap_error "failed to edit telegram stream tail message"
               (on_tg (edit_rendered_message (sk_chat_id k) msg_id rendered_tail))
           else mret tt
       | None =>
           tail_id ← wrap_error "failed to send telegram stream tail message"
             (on_tg (send_rendered_message_with_id (sk_chat_id k) (sk_thread_id k) None rendered_tail None));
           set_sink (λ k, with_ids (sk_message_id k) (sk_tail_message_ids k ++ [tail_id]) k)
       end) ;;
      flush_tails (S i) rest
  end.

(** Sending or editing the messages themselves. *)
Definition flush_messages (parts : list TelegramRenderedText) : SINK unit :=
  match parts with
  | [] => mret tt
  | first :: rest =>
      s ← get_db;
      let k := st_sink s in
      (match sk_message_id k with
       | Some message_id =>
           if negb (bool_decide (head (sk_rendered_parts k) = Some first)) then
             wrap_error "failed to edit telegram stream message"
               (on_tg (edit_rendered_message (sk_chat_id k) message_id first))
           else mret tt
       | None =>
           message_id ← wrap_error "failed to send telegram stream message"
             (on_tg (send_rendered_message_with_id (sk_chat_id k) (sk_thread_id k) (sk_reply_to k) first None));
           set_sink (λ k, with_ids (Some message_id) (sk_tail_message_ids k) k)
       end) ;;
      flush_tails 1 rest ;;
      record_push parts
  end.

(** [last.elapsed() < self.min_edit_interval], read only when it matters. *)
Definition too_soon (force : bool) (last_push : option Z) (min_edit_interval : Z) : SINK bool :=
  match force, last_push with
  | false, Some last => now ← now_nanos; mret (Z.max 0 (now - last) <? min_edit_interval)%Z
  | _, _ => mret false
  end.

Definition flush (force : bool) : SINK unit :=
  s ← get_db;
  let k := st_sink s in
  if String.eqb (sk_pending_text k) "" then mret tt
  else
    soon ← too_soon force (sk_last_push k) (sk_min_edit_interval k);
    if soon : bool then mret tt
    else
      let parts := sink_parts k in
      if bool_decide (parts = []) || bool_decide (parts = sk_rendered_parts k) then mret tt
      else if sk_prefer_draft k && sk_draft_supported k && bool_decide (sk_message_id k = None) &&
              bool_decide (sk_tail_message_ids k = []) then
        drafted ← catch (on_tg (send_message_draft (sk_chat_id k) (sk_thread_id k) (sk_reply_to k)
                                  (sk_draft_id k) (sk_pending_text k)));
        match drafted with
        | Ok _ => record_push parts
        | Err _ => set_sink no_drafts ;; flush_messages parts
        end
      else flush_messages parts.

Definition on_delta (delta : string) : SINK unit :=
  if String.eqb delta "" then mret tt
  else
    set_sink (λ k, with_pending (sk_pending_text k +:+ delta) k) ;;
    ignore_error (flush false).

Definition flush_or_send (full_text : string) : SINK unit :=
  flushed ← catch (flush true);
  match flushed with
  | Ok _ => mret tt
  | Err _ =>
      s ← get_db;
      let k := st_sink s in
      sent_ids ← wrap_error "telegram stream fallback sendMessage failed"
        (on_tg (send_message_with_ids (sk_chat_id k) (sk_thread_id k) (sk_reply_to k) full_text));
      set_sink (note_sent_message_ids sent_ids) ;;
      record_push (sink_parts k)
  end.

Definition sink_finalize (full_text : string) : SINK unit :=
  if String.eqb full_text "" then mret tt
  else
    set_sink (with_pending full_text) ;;
    s ← get_db;
    let k := st_sink s in
    let parts := sink_parts k in
    let waiting_final_after_draft :=
      sk_prefer_draft k && sk_draft_supported k && bool_decide (sk_message_id k = None) in
    if negb (bool_decide (parts = [])) && bool_decide (parts = sk_rendered_parts k) && negb waiting_final_after_draft
    then mret tt
    else if waiting_final_after_draft then
      sent ← catch (on_tg (send_message_with_ids (sk_chat_id k) (sk_thread_id k) (sk_reply_to k) full_text));
      match sent with
      | Ok sent_ids => set_sink (note_sent_message_ids sent_ids) ;; record_push parts
      | Err _ => set_sink no_drafts ;; flush_or_send full_text
      end
    else flush_or_send full_text.

(** A stream: its deltas, then the whole text. *)
Definition show_stream (deltas : list string) (full_text : string) : SINK unit :=
  foreach deltas on_delta ;; sink_finalize full_text.
End delivery.

(** * What is delivered *)

(** ** The parts of a message *)

(** The calls that sent the parts, the first as the reply. *)
Fixpoint sends_of (chat_id : Z) (thread_id reply_to : option Z) (parts : list TelegramRenderedText) (ids : list Z)
    : list TgCall :=
  match parts, ids with
  | part :: parts', id :: ids' =>
      CallSend {| se_chat_id := chat_id; se_thread_id := thread_id; se_reply_to := reply_to;
                  se_rendered := part; se_reply_markup := None |} (Ok id)
        :: sends_of chat_id thread_id None parts' ids'
  | _, _ => []
  end.

(** The id of the next row of the queue, from a reading of the clock and the counter [OUT_SEQ]. *)
Definition next_out_id (ts : Z) (seq : N) : string := "out_" +:+ pretty ts +:+ "_" +:+ pad4 (seq mod 10000).

(** What is left to send is a new row of the queue under the next id; it is not stored when a
    row has that id already. *)
Definition queued_rest `{Clock} (seq : N) (attached : bool) (chat_id : Z) (thread_id reply_to : option Z) (text : string)
    (c c' : ChannelDb) : Prop :=
  if attached then
    ∃ ts now, clock_reading ts ∧ clock_reading now ∧
      if bool_decide (next_out_id ts seq ∈ qr_id <$> outbound_queue c) then c' = c
      else
        admissions c' = admissions c ∧ outbound_messages c' = outbound_messages c ∧
        outbound_queue c' = outbound_queue c ++
          [{| qr_id := next_out_id ts seq; qr_channel := "telegram"; qr_chat_id := chat_id; qr_thread_id := thread_id;
              qr_reply_to := reply_to; qr_text := text; qr_status := "pending"; qr_attempts := 0;
              qr_next_attempt_at := now; qr_last_error := None; qr_session_id := None; qr_created_at := now;
              qr_sent_at := None |}]
  else c' = c.

Section sender.
  Context `{CLK : Clock} `{MP : MarkdownParser} `{API : TelegramApi}.
  Implicit Types s : Telegram.

Lemma wp_send_rendered chat_id thread_id reply_to rendered markup (Q : res Z → Telegram → Prop) s :
  (∀ r, Q r (note_call (CallSend {| se_chat_id := chat_id; se_thread_id := thread_id; se_reply_to := reply_to;
                                   se_rendered := rendered; se_reply_markup := markup |} r) s)) →
  wp (send_rendered_message_with_id chat_id thread_id reply_to rendered markup) Q s.
Proof.
  intros H. unfold send_rendered_message_with_id. apply wp_bind, wp_tick. intros n.
  apply wp_bind, wp_get_db, wp_bind, wp_put_db, wp_lift_res, H.
Qed.

Lemma wp_edit_rendered chat_id message_id rendered (Q : res unit → Telegram → Prop) s :
  (∀ r, Q r (note_call (CallEdit {| em_chat_id := chat_id; em_message_id := message_id; em_rendered := rendered |} r) s)) →
  wp (edit_rendered_message chat_id message_id rendered) Q s.
Proof.
  intros H. unfold edit_rendered_message. apply wp_bind, wp_tick. intros n.
  apply wp_bind, wp_get_db, wp_bind, wp_put_db, wp_lift_res, H.
Qed.

Lemma wp_send_draft chat_id thread_id reply_to draft_id text first rest (Q : res unit → Telegram → Prop) s :
  render_telegram_text_parts text TELEGRAM_MAX_TEXT_CHARS = first :: rest →
  (∀ r, Q (r ← r; Ok tt) (note_call (CallDraft {| sd_chat_id := chat_id; sd_thread_id := thread_id; sd_reply_to := reply_to;
                                       sd_draft_id := draft_id; sd_rendered := first |} r) s)) →
  wp (send_message_draft chat_id thread_id reply_to draft_id text) Q s.
Proof.
  intros Hp H. unfold send_message_draft, first_part. rewrite Hp. apply wp_bind, wp_ret, wp_bind, wp_tick. intros n.
  apply wp_bind, wp_get_db, wp_bind, wp_put_db, wp_bind, wp_lift_res.
  specialize (H (api_result "sendMessageDraft" (api_draft n {| sd_chat_id := chat_id; sd_thread_id := thread_id;
    sd_reply_to := reply_to; sd_draft_id := draft_id; sd_rendered := first |}))).
  destruct (api_result _ _); [by apply wp_ret|exact H].
Qed.

(** The row that [enqueue] adds, unless its id is taken. *)
Lemma enqueue_run req w :
  ∃ ts now, clock_reading ts ∧ clock_reading now ∧
    let id := next_out_id ts (w_ids w) in let c := w_db w in
    w_db (enqueue req w).2 =
      if existsb (is_queued id) (outbound_queue c) then c
      else {| admissions := admissions c; outbound_messages := outbound_messages c;
              outbound_queue := outbound_queue c ++
                [{| qr_id := id; qr_channel := eq_channel req; qr_chat_id := eq_chat_id req;
                    qr_thread_id := eq_thread_id req; qr_reply_to := eq_reply_to req; qr_text := eq_text req;
                    qr_status := "pending"; qr_attempts := 0; qr_next_attempt_at := now;
                    qr_last_error := None; qr_session_id := eq_session_id req; qr_created_at := now;
                    qr_sent_at := None |}] |}.
Proof.
  exists (Z.max 0 (clock_nanos (w_tick w)) / 1000000000)%Z, (Z.max 0 (clock_nanos (w_tick w + 1)) / 1000000000)%Z.
  split; [by eexists|]. split; [by eexists|].
  unfold enqueue, sql_insert, unix_now, now_nanos, tick, draw_id, get_db, mbind, M_bind. cbn [fst snd mret M_ret w_db w_tick w_ids].
  unfold ensure. by destruct (existsb _ _).
Qed.

Lemma enqueue_failed_queues chat_id thread_id reply_to text w :
  let '(r, w') := enqueue_failed chat_id thread_id reply_to text w in
  r = Ok tt ∧ tg_calls (w_db w') = tg_calls (w_db w) ∧
  queued_rest (w_ids w) (tg_queue_attached (w_db w)) chat_id thread_id reply_to text
    (tg_channel (w_db w)) (tg_channel (w_db w')).
Proof.
  unfold enqueue_failed, mbind, M_bind, get_db, queued_rest.
  destruct (tg_queue_attached (w_db w)) eqn:Ha; [|done].
  set (req := Build_EnqueueTelegramOutboundRequest _ _ _ _ _ _). unfold ignore_error, zoom.
  set (wc := World (tg_channel (w_db w)) (w_tick w) (w_ids w)).
  destruct (enqueue_run req wc) as (ts & now & Hts & Hnow & He). cbv zeta in He. revert He.
  destruct (enqueue req wc) as [r wc']. cbn. intros He. split; [done|]. split; [done|].
  exists ts, now. split; [done|]. split; [done|]. rewrite He. clear.
  destruct (existsb _ _) eqn:Ee.
  - rewrite bool_decide_eq_true_2; [done|]. apply existsb_exists in Ee as (row & Hrow & Hid%String.eqb_eq).
    apply list_elem_of_fmap. exists row. split; [done|]. by apply list_elem_of_In.
  - rewrite bool_decide_eq_false_2; [done|]. intros (row & Hid & Hrow)%list_elem_of_fmap.
    apply not_true_iff_false in Ee. apply Ee, existsb_exists. exists row. split; [by apply list_elem_of_In|].
    by apply String.eqb_eq.
Qed.

(** What the loop over the parts has done when it ends. *)
Definition parts_sent chat_id thread_id reply_to (parts : list TelegramRenderedText) (ids : list Z) (seq : N) s
    (r : res (list Z)) (s' : Telegram) : Prop :=
  match r with
  | Ok ids' => ∃ sent, ids' = ids ++ sent ∧ length sent = length parts ∧ tg_channel s' = tg_channel s ∧
      tg_calls s' = tg_calls s ++ sends_of chat_id thread_id reply_to parts sent
  | Err err => ∃ sent part, parts !! length sent = Some part ∧
      let reply := match sent with [] => reply_to | _ => None end in
      tg_calls s' = tg_calls s ++ sends_of chat_id thread_id reply_to parts sent ++
        [CallSend {| se_chat_id := chat_id; se_thread_id := thread_id; se_reply_to := reply;
                     se_rendered := part; se_reply_markup := None |} (Err err)] ∧
      queued_rest seq (tg_queue_attached s) chat_id thread_id reply
        (join_with (newline +:+ newline) (rt_text <$> drop (length sent) parts)) (tg_channel s) (tg_channel s')
  end.

Lemma send_parts_run chat_id thread_id reply_to parts ids w :
  let '(r, w') := send_parts chat_id thread_id reply_to parts ids w in
  parts_sent chat_id thread_id reply_to parts ids (w_ids w) (w_db w) r (w_db w').
Proof.
  revert reply_to ids w. induction parts as [|part parts IH]; intros reply_to ids w; cbn [send_parts].
  - exists []. cbn [sends_of]. by rewrite !app_nil_r.
  - set (payload := {| se_chat_id := chat_id; se_thread_id := thread_id; se_reply_to := reply_to;
                       se_rendered := part; se_reply_markup := None |}).
    set (a := api_result "sendMessage" (api_send (w_tick w) payload)).
    set (w1 := World (note_call (CallSend payload a) (w_db w)) (w_tick w + 1) (w_ids w)).
    assert (Hs : send_rendered_message_with_id chat_id thread_id reply_to part None w = (a, w1)).
    { unfold send_rendered_message_with_id, mbind, M_bind, tick, get_db, put_db. cbn. fold payload a. by destruct a. }
    unfold mbind at 1, M_bind at 1, catch. rewrite Hs. cbn [fst snd]. destruct a as [id|err] eqn:Ea.
    + specialize (IH None (ids ++ [id]) w1). destruct (send_parts _ _ _ _ _ _) as [[ids'|err] w'].
      * destruct IH as (sent & -> & Hl & Hc & Hcalls). exists (id :: sent). rewrite <- app_assoc. cbn. rewrite Hl, Hcalls.
        cbn. by rewrite <- app_assoc.
      * destruct IH as (sent & p & Hp & Hc & Hq). exists (id :: sent), p. cbn. split; [done|].
        rewrite Hc. cbn. rewrite <- !app_assoc. split; by destruct sent.
    + pose proof (enqueue_failed_queues chat_id thread_id reply_to
        (join_with (newline +:+ newline) (rt_text <$> part :: parts)) w1) as Hq.
      unfold mbind at 1, M_bind at 1. destruct (enqueue_failed _ _ _ _ _) as [r w'].
      destruct Hq as (-> & Hc & Hq). exists [], part. split; [done|]. rewrite Hc. by split.
Qed.

Lemma send_parts_spec chat_id thread_id reply_to parts ids s :
  wp (send_parts chat_id thread_id reply_to parts ids)
    (λ r s', ∃ seq, parts_sent chat_id thread_id reply_to parts ids seq s r s') s.
Proof.
  intros w <-. pose proof (send_parts_run chat_id thread_id reply_to parts ids w) as H.
  destruct (send_parts _ _ _ _ _ _) as [r w']. by eexists.
Qed.

(** C34: A message is sent part by part, each once and in order, the first as the reply.
    When a part fails, the parts before it have been sent, the error is returned, and what
    is left - that part and all after it - is queued as one text, due at once, as the reply
    exactly if nothing was sent; without a queue nothing is stored.  Its row is named after the
    second and the next number of a counter up to ten thousand: the rest is lost exactly when
    the queue already has a row of that name. *)
Theorem undelivered_parts_are_queued chat_id thread_id reply_to text w :
  let parts := render_telegram_text_parts text TELEGRAM_MAX_TEXT_CHARS in
  let s := w_db w in
  let '(r, w') := send_message_with_ids chat_id thread_id reply_to text w in
  let s' := w_db w' in
  match r with
  | Ok ids => length ids = length parts ∧ tg_channel s' = tg_channel s ∧
      tg_calls s' = tg_calls s ++ sends_of chat_id thread_id reply_to parts ids
  | Err err => ∃ sent part, parts !! length sent = Some part ∧
      let reply := match sent with [] => reply_to | _ => None end in
      tg_calls s' = tg_calls s ++ sends_of chat_id thread_id reply_to parts sent ++
        [CallSend {| se_chat_id := chat_id; se_thread_id := thread_id; se_reply_to := reply;
                     se_rendered := part; se_reply_markup := None |} (Err err)] ∧
      queued_rest (w_ids w) (tg_queue_attached s) chat_id thread_id reply
        (join_with (newline +:+ newline) (rt_text <$> drop (length sent) parts)) (tg_channel s) (tg_channel s')
  end.
Proof.
  intros parts s. pose proof (send_parts_run chat_id thread_id reply_to parts [] w) as H.
  change (send_message_with_ids chat_id thread_id reply_to text w) with (send_parts chat_id thread_id reply_to parts [] w).
  destruct (send_parts _ _ _ _ _ _) as [[ids|err] w']; [|exact H]. by destruct H as (sent & -> & Hl & Hc & Hcalls).
Qed.
End sender.

(** ** What a stream shows *)

Definition call_ok (call : TgCall) : bool :=
  match call with
  | CallSend _ r => is_ok r
  | CallDraft _ r => is_ok r
  | CallEdit _ r => is_ok r
  end.

(** The ids of the messages sent. *)
Definition sent_ids (calls : list TgCall) : list Z :=
  omap (λ call, match call with CallSend _ (Ok id) => Some id | _ => None end) calls.

(** The messages of a chat after calls: a message shows what it was sent with or last edited to. *)
Definition show_call (chat : gmap Z TelegramRenderedText) (call : TgCall) : gmap Z TelegramRenderedText :=
  match call with
  | CallSend p (Ok id) => <[id := se_rendered p]> chat
  | CallEdit p (Ok _) => <[em_message_id p := em_rendered p]> chat
  | _ => chat
  end.

Definition chat_of (calls : list TgCall) : gmap Z TelegramRenderedText := foldl show_call ∅ calls.

(** The parts stand in the messages of the ids, in order. *)
Definition shows (parts : list TelegramRenderedText) (ids : list Z) (chat : gmap Z TelegramRenderedText) : Prop :=
  ∀ i part, parts !! i = Some part → ∃ id, ids !! i = Some id ∧ chat !! id = Some part.

Lemma shows_exactly parts ids chat :
  shows parts ids chat → length ids ≤ length parts → (λ id, chat !! id) <$> ids = Some <$> parts.
Proof.
  intros Hs Hl. apply list_eq. intros i. rewrite !list_lookup_fmap. destruct (parts !! i) as [p|] eqn:Hp.
  - destruct (Hs i p Hp) as (id & -> & Hid). cbn. by rewrite Hid.
  - apply lookup_ge_None in Hp. by rewrite (proj2 (lookup_ge_None ids i)) by lia.
Qed.

Lemma shows_edit i part T T' ids id chat :
  shows T ids chat → NoDup ids → ids !! i = Some id →
  (∀ j p, T' !! j = Some p → (j = i ∧ p = part) ∨ (j ≠ i ∧ T !! j = Some p)) →
  shows T' ids (<[id := part]> chat).
Proof.
  intros HT Hn Hid HT' j p Hj. destruct (HT' j p Hj) as [[-> ->]|[Hne Hp]].
  - exists id. by rewrite lookup_insert_eq.
  - destruct (HT j p Hp) as (id' & H1 & H2). exists id'. split; [done|].
    rewrite lookup_insert_ne; [done|]. intros <-. apply Hne. by apply (NoDup_lookup ids j i id).
Qed.

Lemma shows_send part T T' ids id chat :
  shows T ids chat → id ∉ ids →
  (∀ j p, T' !! j = Some p → (j = length ids ∧ p = part) ∨ (j ≠ length ids ∧ T !! j = Some p)) →
  shows T' (ids ++ [id]) (<[id := part]> chat).
Proof.
  intros HT Hid HT' j p Hj. destruct (HT' j p Hj) as [[-> ->]|[Hne Hp]].
  - exists id. by rewrite lookup_insert_eq, list_lookup_middle.
  - destruct (HT j p Hp) as (id' & H1 & H2). exists id'. split; [by apply lookup_app_l_Some|].
    rewrite lookup_insert_ne; [done|]. intros <-. apply Hid. by eapply list_elem_of_lookup_2.
Qed.

(** Of the parts to be, the first [i] stand already. *)
Definition target (i : nat) (parts rendered : list TelegramRenderedText) : list TelegramRenderedText :=
  take i parts ++ drop i rendered.

Lemma target_step i part parts rendered j p :
  parts !! i = Some part → target (S i) parts rendered !! j = Some p →
  (j = i ∧ p = part) ∨ (j ≠ i ∧ target i parts rendered !! j = Some p).
Proof.
  unfold target. intros Hi. pose proof (lookup_lt_Some _ _ _ Hi) as Hl.
  rewrite (take_S_r _ _ _ Hi), <- app_assoc. destruct (lt_eq_lt_dec j i) as [[Hj| ->]|Hj].
  - right. split; [lia|]. rewrite lookup_app_l in * by (rewrite length_take; lia). done.
  - rewrite lookup_app_r by (rewrite length_take; lia). rewrite length_take.
    replace (i - i `min` length parts) with 0 by lia. cbn. intros [= <-]. by left.
  - right. split; [lia|]. rewrite lookup_app_r in * by (rewrite length_take; lia). rewrite length_take in *.
    replace (j - i `min` length parts) with (S (j - S i)) in * by lia. cbn in *. rewrite lookup_drop in *.
    by replace (i + S (j - S i)) with (S i + (j - S i)) by lia.
Qed.

Lemma target_same i part parts rendered :
  parts !! i = Some part → rendered !! i = Some part → target (S i) parts rendered = target i parts rendered.
Proof.
  unfold target. intros Hi Hr. rewrite (take_S_r _ _ _ Hi), <- app_assoc. cbn.
  by rewrite (drop_S rendered part i).
Qed.

Section stream.
  Context `{CLK : Clock} `{MP : MarkdownParser} `{API : TelegramApi}.
  Implicit Types s : Streaming.

Definition calls_of s : list TgCall := tg_calls (st_tg s).

(** Every call so far succeeded, and Telegram gave each message an id of its own. *)
Definition valid s : Prop := Forall (λ c, call_ok c = true) (calls_of s) ∧ NoDup (sent_ids (calls_of s)).

#[local] Instance valid_dec s : Decision (valid s).
Proof. apply _. Defined.

Definition calls_grow : relation Streaming := λ s s', calls_of s `prefix_of` calls_of s'.

#[local] Instance calls_grow_preorder : PreOrder calls_grow.
Proof. split; [intros s; exists []; by rewrite app_nil_r|intros s s' s''; unfold calls_grow; apply transitivity]. Qed.

Lemma valid_before s s' : calls_grow s s' → valid s' → valid s.
Proof.
  intros [k Hk] [H1 H2]. unfold valid. rewrite Hk in *. unfold sent_ids in *. rewrite Forall_app in H1.
  rewrite omap_app, NoDup_app in H2. tauto.
Qed.

Lemma stable_on_tg {A} (m : M Telegram A) :
  stable (λ t t', tg_calls t `prefix_of` tg_calls t') m → stable calls_grow (on_tg m).
Proof. apply stable_zoom. by intros s t' H. Qed.

#[local] Instance tg_grow_preorder : PreOrder (λ t t', tg_calls t `prefix_of` tg_calls t').
Proof. split; [intros s; exists []; by rewrite app_nil_r|intros s s' s''; apply transitivity]. Qed.

Lemma send_grows chat thread reply rendered markup :
  stable (λ t t', tg_calls t `prefix_of` tg_calls t') (send_rendered_message_with_id chat thread reply rendered markup).
Proof. apply stable_of_wp. intros t. apply wp_send_rendered. intros r. by exists [CallSend {| se_chat_id := chat;
  se_thread_id := thread; se_reply_to := reply; se_rendered := rendered; se_reply_markup := markup |} r]. Qed.

Lemma edit_grows chat message_id rendered :
  stable (λ t t', tg_calls t `prefix_of` tg_calls t') (edit_rendered_message chat message_id rendered).
Proof. apply stable_of_wp. intros t. apply wp_edit_rendered. intros r. by eexists. Qed.

Lemma draft_grows chat thread reply draft_id text :
  stable (λ t t', tg_calls t `prefix_of` tg_calls t') (send_message_draft chat thread reply draft_id text).
Proof.
  unfold send_message_draft. apply stable_bind; [typeclasses eauto|by apply stable_lift_res; typeclasses eauto|].
  intros first. apply stable_bind; [typeclasses eauto|apply stable_tick; typeclasses eauto|]. intros n.
  apply stable_of_wp. intros t. apply wp_bind, wp_get_db, wp_bind, wp_put_db, wp_bind, wp_lift_res.
  destruct (api_result _ _); [apply wp_ret|]; by eexists.
Qed.

Lemma send_parts_grows chat thread reply parts ids :
  stable (λ t t', tg_calls t `prefix_of` tg_calls t') (send_parts chat thread reply parts ids).
Proof.
  apply stable_of_wp. intros t. eapply wp_mono; [apply send_parts_spec|]. intros [ids'|e] t'.
  - intros (seq & sent & _ & _ & _ & ->). by eexists.
  - intros (seq & sent & part & _ & Hc & _). rewrite Hc. by eexists.
Qed.

Lemma set_sink_grows f : stable calls_grow (set_sink f).
Proof. intros w. exists []. by rewrite app_nil_r. Qed.

#[local] Hint Extern 1 (stable calls_grow (on_tg _)) =>
  apply stable_on_tg; solve [apply send_grows|apply edit_grows|apply draft_grows|apply send_parts_grows] : stab.
#[local] Hint Resolve set_sink_grows stable_wrap_error : stab.

Lemma record_push_grows parts : stable calls_grow (record_push parts).
Proof. unfold record_push. stable_go. Qed.

Lemma too_soon_grows force last interval : stable calls_grow (too_soon force last interval).
Proof. unfold too_soon. stable_go. Qed.

#[local] Hint Resolve record_push_grows too_soon_grows : stab.

Lemma flush_tails_grows i tails : stable calls_grow (flush_tails i tails).
Proof.
  revert i. induction tails as [|t tails IH]; intros i; cbn [flush_tails]; [by apply stable_ret; typeclasses eauto|].
  stable_go.
Qed.

#[local] Hint Resolve flush_tails_grows : stab.

Lemma flush_messages_grows parts : stable calls_grow (flush_messages parts).
Proof. unfold flush_messages. stable_go. Qed.

#[local] Hint Resolve flush_messages_grows : stab.

Lemma flush_grows force : stable calls_grow (flush force).
Proof. unfold flush. stable_go. Qed.

#[local] Hint Resolve flush_grows : stab.

Lemma on_delta_grows delta : stable calls_grow (on_delta delta).
Proof. unfold on_delta. stable_go. Qed.

Lemma flush_or_send_grows text : stable calls_grow (flush_or_send text).
Proof. unfold flush_or_send. stable_go. Qed.

#[local] Hint Resolve on_delta_grows flush_or_send_grows : stab.

Lemma sink_finalize_grows text : stable calls_grow (sink_finalize text).
Proof. unfold sink_finalize. stable_go. Qed.

(** [smooth m J s]: as long as no call fails, neither does [m], and it ends in [J]. *)
Definition smooth {A} (m : M Streaming A) (J : A → Streaming → Prop) s : Prop :=
  wp m (λ r s', valid s' → ∃ a, r = Ok a ∧ J a s') s.

Lemma smooth_bind {A B} (m : M Streaming A) (f : A → M Streaming B) J K s :
  (∀ a, stable calls_grow (f a)) → smooth m J s → (∀ a s', valid s' → J a s' → smooth (f a) K s') →
  smooth (m ≫= f) K s.
Proof.
  intros Hf Hm HK. apply wp_bind. eapply wp_mono; [exact Hm|]. cbv beta. intros [a|e] s' HJ.
  - destruct (decide (valid s')) as [Hv|Hv].
    + destruct (HJ Hv) as (? & [= <-] & HJ'). by apply HK.
    + eapply wp_mono; [apply (wp_of_stable calls_grow _ s'), Hf|]. intros r s'' Hg Hv'.
      exfalso. by apply Hv, (valid_before s' s'').
  - intros Hv. by destruct (HJ Hv) as (? & [=] & _).
Qed.

Lemma smooth_ret {A} (a : A) (J : A → Streaming → Prop) s : J a s → smooth (mret a) J s.
Proof. intros H. apply wp_ret. eauto. Qed.

Lemma smooth_get_db (J : Streaming → Streaming → Prop) s : J s s → smooth get_db J s.
Proof. intros H. apply wp_get_db. eauto. Qed.

Lemma smooth_mono {A} (m : M Streaming A) (J J' : A → Streaming → Prop) s :
  smooth m J s → (∀ a s', valid s' → J a s' → J' a s') → smooth m J' s.
Proof.
  intros H HJ. eapply wp_mono; [exact H|]. cbv beta. intros r s' Hr Hv.
  destruct (Hr Hv) as (a & -> & Ha). eauto.
Qed.

Lemma smooth_wrap {A} e (m : M Streaming A) (J : A → Streaming → Prop) s : smooth m J s → smooth (wrap_error e m) J s.
Proof.
  intros H. apply wp_wrap_error. eapply wp_mono; [exact H|]. cbv beta. intros [a|e'] s' Hr; [done|].
  intros Hv. by destruct (Hr Hv) as (? & [=] & _).
Qed.

Lemma smooth_catch {A} (m : M Streaming A) (J : A → Streaming → Prop) s :
  smooth m J s → smooth (catch m) (λ r s', ∃ a, r = Ok a ∧ J a s') s.
Proof. intros H. apply wp_catch. eapply wp_mono; [exact H|]. cbv beta. intros r s' Hr Hv. exists r. auto. Qed.

Lemma smooth_ignore {A} (m : M Streaming A) (J : Streaming → Prop) s :
  smooth m (λ _, J) s → smooth (ignore_error m) (λ _, J) s.
Proof.
  intros H. apply wp_ignore_error. eapply wp_mono; [exact H|]. cbv beta. intros r s' Hr Hv.
  destruct (Hr Hv) as (a & _ & HJ). eauto.
Qed.

Lemma smooth_set_sink f (J : Streaming → Prop) s :
  J {| st_sink := f (st_sink s); st_tg := st_tg s |} → smooth (set_sink f) (λ _, J) s.
Proof. intros H. unfold smooth, set_sink. apply wp_bind, wp_get_db, wp_put_db. eauto. Qed.

(** One call more, which did not fail. *)
Definition after_call (call : TgCall) s : Streaming := {| st_sink := st_sink s; st_tg := note_call call (st_tg s) |}.

Lemma smooth_send chat thread reply rendered (J : Z → Streaming → Prop) s :
  (∀ id, let s' := after_call (CallSend {| se_chat_id := chat; se_thread_id := thread; se_reply_to := reply;
      se_rendered := rendered; se_reply_markup := None |} (Ok id)) s in valid s' → J id s') →
  smooth (on_tg (send_rendered_message_with_id chat thread reply rendered None)) J s.
Proof.
  intros H. apply wp_zoom, wp_send_rendered. intros [id|e] Hv; [exists id; split; [done|]; exact (H id Hv)|].
  destruct Hv as [Hv _]. unfold calls_of in Hv. cbn in Hv. by apply Forall_app in Hv as [_ [? _]%Forall_cons].
Qed.

Lemma smooth_edit chat message_id rendered (J : unit → Streaming → Prop) s :
  J tt (after_call (CallEdit {| em_chat_id := chat; em_message_id := message_id; em_rendered := rendered |} (Ok tt)) s) →
  smooth (on_tg (edit_rendered_message chat message_id rendered)) J s.
Proof.
  intros H. apply wp_zoom, wp_edit_rendered. intros [[]|e] Hv; [by exists tt|].
  destruct Hv as [Hv _]. unfold calls_of in Hv. cbn in Hv. by apply Forall_app in Hv as [_ [? _]%Forall_cons].
Qed.

(** A relation every computation respects holds as well. *)
Lemma smooth_and {A} (R : relation Streaming) (m : M Streaming A) (J : A → Streaming → Prop) s :
  stable R m → smooth m J s → smooth m (λ a s', J a s' ∧ R s s') s.
Proof.
  intros HR H w Hw Hv. destruct (H w Hw Hv) as (a & Ha & HJ). exists a. split; [done|]. split; [done|].
  rewrite <- Hw. apply HR.
Qed.

(** *** The text of the sink *)

Definition same_text : relation Streaming := λ s s', sk_pending_text (st_sink s') = sk_pending_text (st_sink s).

#[local] Instance same_text_preorder : PreOrder same_text.
Proof. split; repeat intro; unfold same_text in *; congruence. Qed.

Lemma on_tg_text {A} (m : M Telegram A) : stable same_text (on_tg m).
Proof. unfold on_tg. by apply (stable_zoom _ _ (λ _ _, True)). Qed.

Lemma set_sink_text f : (∀ k, sk_pending_text (f k) = sk_pending_text k) → stable same_text (set_sink f).
Proof. intros Hf w. apply Hf. Qed.

#[local] Hint Resolve on_tg_text : stab.
#[local] Hint Extern 1 (stable same_text (set_sink _)) => apply set_sink_text; done : stab.

Lemma record_push_text parts : stable same_text (record_push parts).
Proof. unfold record_push. stable_go. Qed.

Lemma too_soon_text force last interval : stable same_text (too_soon force last interval).
Proof. unfold too_soon. stable_go. Qed.

#[local] Hint Resolve record_push_text too_soon_text : stab.

Lemma flush_tails_text i tails : stable same_text (flush_tails i tails).
Proof.
  revert i. induction tails as [|t tails IH]; intros i; cbn [flush_tails]; [by apply stable_ret; typeclasses eauto|].
  stable_go.
Qed.

#[local] Hint Resolve flush_tails_text : stab.

Lemma flush_messages_text parts : stable same_text (flush_messages parts).
Proof. unfold flush_messages. stable_go. Qed.

#[local] Hint Resolve flush_messages_text : stab.

Lemma flush_text force : stable same_text (flush force).
Proof. unfold flush. stable_go. Qed.

(** *** The invariant of the sink *)

Section invariant.
  (** A bound on the messages sent. *)
  Context (most : nat).

Definition ids_of s : list Z := sent_message_ids (st_sink s).
Definition chat_now s : gmap Z TelegramRenderedText := chat_of (calls_of s).

(** The sink knows the messages it sent. *)
Record knows s : Prop := {
  kn_ids : ids_of s = sent_ids (calls_of s);
  kn_first : sk_message_id (st_sink s) = None → sk_tail_message_ids (st_sink s) = [];
  kn_count : length (ids_of s) ≤ most
}.

Definition drafting s : Prop :=
  sk_message_id (st_sink s) = None ∧ sk_prefer_draft (st_sink s) = true ∧ sk_draft_supported (st_sink s) = true.

(** It is still drafting, or what it rendered last stands in its messages. *)
Definition sink_inv s : Prop :=
  knows s ∧ (drafting s ∨ shows (sk_rendered_parts (st_sink s)) (ids_of s) (chat_now s)).

(** The first [i] parts stand, the later ones are as they were rendered before. *)
Record flushing (parts rendered : list TelegramRenderedText) (i : nat) s : Prop := {
  fl_knows : knows s;
  fl_first : is_Some (sk_message_id (st_sink s));
  fl_rendered : sk_rendered_parts (st_sink s) = rendered;
  fl_shows : shows (target i parts rendered) (ids_of s) (chat_now s)
}.

Lemma valid_nodup s : knows s → valid s → NoDup (ids_of s).
Proof. intros Hk [_ Hn]. by rewrite (kn_ids s Hk). Qed.

Lemma ids_after_call call s : ids_of (after_call call s) = ids_of s.
Proof. done. Qed.

Lemma calls_after_call call s : calls_of (after_call call s) = calls_of s ++ [call].
Proof. done. Qed.

Lemma chat_after_call call s : chat_now (after_call call s) = show_call (chat_now s) call.
Proof. unfold chat_now. rewrite calls_after_call. unfold chat_of. by rewrite foldl_app. Qed.

Lemma fresh_message_id payload id s :
  knows s → valid (after_call (CallSend payload (Ok id)) s) → id ∉ ids_of s.
Proof.
  intros Hk [_ Hn]. rewrite calls_after_call in Hn. unfold sent_ids in Hn. rewrite omap_app in Hn.
  apply NoDup_app in Hn as (_ & Hn & _). rewrite (kn_ids s Hk). intros Hid. apply (Hn id Hid). cbn. by left.
Qed.

Lemma knows_edit payload r s : knows s → knows (after_call (CallEdit payload r) s).
Proof.
  intros [H1 H2 H3]. split; [|exact H2|exact H3]. rewrite ids_after_call, calls_after_call, H1.
  unfold sent_ids. rewrite omap_app. cbn. by rewrite app_nil_r.
Qed.

Lemma edit_step parts rendered i part chat msg_id s :
  flushing parts rendered i s → valid s → parts !! i = Some part → ids_of s !! i = Some msg_id →
  flushing parts rendered (S i) (after_call (CallEdit {| em_chat_id := chat; em_message_id := msg_id; em_rendered := part |} (Ok tt)) s).
Proof.
  intros [Hk Hf Hr Hs] Hv Hp Hid. split; [by apply knows_edit|done|done|].
  rewrite ids_after_call, chat_after_call. cbn [show_call em_message_id em_rendered].
  eapply shows_edit; [exact Hs|by apply valid_nodup|exact Hid|]. intros j p. by apply target_step.
Qed.

Lemma send_step parts rendered i part payload id s :
  flushing parts rendered i s → length parts ≤ most →
  parts !! i = Some part → se_rendered payload = part → length (ids_of s) = i →
  valid (after_call (CallSend payload (Ok id)) s) →
  flushing parts rendered (S i)
    {| st_sink := with_ids (sk_message_id (st_sink s)) (sk_tail_message_ids (st_sink s) ++ [id]) (st_sink s);
       st_tg := note_call (CallSend payload (Ok id)) (st_tg s) |}.
Proof.
  intros [Hk [m Hm] Hr Hs] Hmost Hp <- Hl Hv. pose proof (fresh_message_id _ _ _ Hk Hv) as Hid.
  set (s' := Build_Streaming _ _).
  assert (Hids : ids_of s' = ids_of s ++ [id]) by (unfold ids_of, sent_message_ids; cbn; by rewrite app_assoc).
  split; [|cbn; by exists m|exact Hr|].
  - split; [|cbn; by rewrite Hm|rewrite Hids, length_app; cbn; apply lookup_lt_Some in Hp; lia].
    rewrite Hids, (kn_ids s Hk). change (calls_of s') with (calls_of s ++ [CallSend payload (Ok id)]).
    unfold sent_ids. by rewrite omap_app.
  - rewrite Hids. change (chat_now s') with (chat_now (after_call (CallSend payload (Ok id)) s)). rewrite chat_after_call.
    eapply shows_send; [exact Hs|exact Hid|]. rewrite Hl. intros j p. by apply target_step.
Qed.

Lemma tail_id i s : is_Some (sk_message_id (st_sink s)) → 1 ≤ i → sk_tail_message_ids (st_sink s) !! (i - 1) = ids_of s !! i.
Proof.
  intros [m Hm] Hi. unfold ids_of, sent_message_ids. rewrite Hm. destruct i as [|i]; [lia|].
  cbn. by rewrite Nat.sub_0_r.
Qed.

Lemma flush_tails_shows parts rendered i s :
  length parts ≤ most → 1 ≤ i → i ≤ length parts → flushing parts rendered i s → valid s →
  smooth (flush_tails i (drop i parts)) (λ _, flushing parts rendered (length parts)) s.
Proof.
  intros Hmost Hi Hl. remember (drop i parts) as rest eqn:Hrest. revert i s Hi Hl Hrest.
  induction rest as [|part rest IH]; intros i s Hi Hl Hrest Hf Hv; cbn [flush_tails].
  - apply smooth_ret. assert (i = length parts) as <-; [|done].
    apply (f_equal length) in Hrest. rewrite length_drop in Hrest. cbn in Hrest. lia.
  - assert (Hp : parts !! i = Some part) by (rewrite <- (Nat.add_0_r i), <- lookup_drop, <- Hrest; done).
    assert (Hrest' : rest = drop (S i) parts) by (rewrite (drop_S parts part i Hp) in Hrest; by injection Hrest).
    pose proof (lookup_lt_Some _ _ _ Hp) as Hlt.
    eapply (smooth_bind _ _ (λ a s', a = s ∧ s' = s)); [intros a; stable_go|by apply smooth_get_db|].
    intros a s' _ [-> ->]. cbv zeta.
    eapply (smooth_bind _ _ (λ _, flushing parts rendered (S i))); [intros a; stable_go| |].
    + rewrite (tail_id i s) by (done || apply Hf). destruct (ids_of s !! i) as [msg_id|] eqn:Hid.
      * case_bool_decide as Hsame; cbn [negb].
        { apply smooth_ret. destruct Hf as [Hk Hm Hr Hs]. split; try done. rewrite Hr in Hsame.
          by rewrite (target_same i part). }
        apply smooth_wrap, smooth_edit. by apply edit_step.
      * eapply (smooth_bind _ _ (λ id s', valid s' ∧ s' = after_call (CallSend
          {| se_chat_id := sk_chat_id (st_sink s); se_thread_id := sk_thread_id (st_sink s); se_reply_to := None;
             se_rendered := part; se_reply_markup := None |} (Ok id)) s)); [intros a; stable_go| |].
        { apply smooth_wrap, smooth_send. done. }
        intros id s' _ [Hv' ->]. apply smooth_set_sink.
        eapply (send_step parts rendered i part _ id s); [done|done|done|done| |exact Hv'].
        assert (length (ids_of s) ≤ i) by by apply lookup_ge_None.
        destruct (decide (length (ids_of s) = i)); [done|]. exfalso.
        destruct i as [|i]; [lia|]. destruct (parts !! i) as [q|] eqn:Hq; [|apply lookup_ge_None in Hq; lia].
        destruct (fl_shows _ _ _ _ Hf i q) as (id' & Hid' & _).
        { unfold target. rewrite lookup_app_l by (rewrite length_take; lia). rewrite lookup_take_lt by lia. done. }
        apply lookup_lt_Some in Hid'. lia.
    + intros [] s' Hv' Hf'. apply IH; [lia|lia|done|done|done].
Qed.

Lemma smooth_record_push parts (J : Streaming → Prop) s :
  (∀ now, J {| st_sink := pushed parts now (st_sink s); st_tg := st_tg s |}) → smooth (record_push parts) (λ _, J) s.
Proof.
  intros H. unfold smooth, record_push. apply wp_bind, wp_now_nanos. intros now. apply (smooth_set_sink (pushed parts now) J), H.
Qed.

(** The parts stand in the messages the sink knows. *)
Definition standing (parts : list TelegramRenderedText) s : Prop := knows s ∧ shows parts (ids_of s) (chat_now s).

Lemma standing_inv parts now s :
  standing parts s → sink_inv {| st_sink := pushed parts now (st_sink s); st_tg := st_tg s |} ∧
    standing parts {| st_sink := pushed parts now (st_sink s); st_tg := st_tg s |}.
Proof. intros [[K1 K2 K3] H]. split; [split; [done|by right]|done]. Qed.

Lemma flush_messages_shows parts s :
  length parts ≤ most → valid s → parts ≠ [] → knows s → shows (sk_rendered_parts (st_sink s)) (ids_of s) (chat_now s) →
  smooth (flush_messages parts) (λ _ s', sink_inv s' ∧ standing parts s') s.
Proof.
  intros Hmost Hv Hne Hk Hs. destruct parts as [|first rest]; [done|]. cbn [flush_messages].
  eapply (smooth_bind _ _ (λ a s', a = s ∧ s' = s)); [intros a; stable_go|by apply smooth_get_db|].
  intros a s' _ [-> ->]. cbv zeta.
  eapply (smooth_bind _ _ (λ _, flushing (first :: rest) (sk_rendered_parts (st_sink s)) 1)); [intros a; stable_go| |].
  - destruct (sk_message_id (st_sink s)) as [m|] eqn:Hm.
    + assert (Hf : flushing (first :: rest) (sk_rendered_parts (st_sink s)) 0 s) by (split; [done|by rewrite Hm|done|done]).
      case_bool_decide as Hsame; cbn [negb].
      * apply smooth_ret. destruct Hf as [_ Hf Hr Hs']. split; try done.
        rewrite (target_same 0 first); [done|done|]. by rewrite <- head_lookup.
      * apply smooth_wrap, smooth_edit. apply edit_step; [done|done|done|]. unfold ids_of, sent_message_ids. by rewrite Hm.
    + eapply (smooth_bind _ _ (λ id s', valid s' ∧ s' = after_call (CallSend
          {| se_chat_id := sk_chat_id (st_sink s); se_thread_id := sk_thread_id (st_sink s);
             se_reply_to := sk_reply_to (st_sink s); se_rendered := first; se_reply_markup := None |} (Ok id)) s));
        [intros a; stable_go|by apply smooth_wrap, smooth_send|].
      intros id s' _ [Hv' ->]. apply smooth_set_sink. pose proof (kn_first s Hk Hm) as Ht.
      assert (Hids : ids_of s = []) by (unfold ids_of, sent_message_ids; by rewrite Hm, Ht).
      set (s' := Build_Streaming _ _). set (payload := Build_SendMessage _ _ _ _ _) in *.
      assert (Hids' : ids_of s' = [id]) by (unfold ids_of, sent_message_ids; cbn; by rewrite Ht).
      split; [split|cbn; by eexists|done|].
      * rewrite Hids'. change (calls_of s') with (calls_of s ++ [CallSend payload (Ok id)]).
        unfold sent_ids. rewrite omap_app. fold (sent_ids (calls_of s)). by rewrite <- (kn_ids s Hk), Hids.
      * by intros [=].
      * rewrite Hids'. cbn in *. lia.
      * rewrite Hids'. change (chat_now s') with (chat_now (after_call (CallSend payload (Ok id)) s)).
        rewrite chat_after_call. cbn [show_call]. rewrite Hids in Hs.
        apply (shows_send first (sk_rendered_parts (st_sink s)) _ []); [done|set_solver|].
        intros j p. by apply (target_step 0 first (first :: rest)).
  - intros [] s1 Hv1 Hf1. eapply (smooth_bind _ _ (λ _, flushing (first :: rest) (sk_rendered_parts (st_sink s)) (length (first :: rest))));
      [intros a; stable_go|apply (flush_tails_shows (first :: rest) _ 1); [done|lia|cbn; lia|exact Hf1|exact Hv1]|].
    intros [] s2 Hv2 [Hk2 _ _ Hs2]. apply smooth_record_push. intros now. apply standing_inv. split; [done|].
    intros i p Hp. apply Hs2. unfold target. rewrite take_ge by done. by apply lookup_app_l_Some.
Qed.

Lemma drafting_dec s : sink_inv s →
  sk_prefer_draft (st_sink s) && sk_draft_supported (st_sink s) && bool_decide (sk_message_id (st_sink s) = None) = false →
  shows (sk_rendered_parts (st_sink s)) (ids_of s) (chat_now s).
Proof. intros [_ [(-> & -> & ->)|H]]; done. Qed.

Lemma smooth_too_soon force last interval s : smooth (too_soon force last interval) (λ b s', s' = s ∧ (force = true → b = false)) s.
Proof.
  unfold too_soon. destruct force; [by apply smooth_ret|]. destruct last; [|by apply smooth_ret].
  apply wp_bind, wp_now_nanos. intros now. apply wp_ret. intros _. by eexists.
Qed.

Lemma flush_shows force s :
  length (sink_parts (st_sink s)) ≤ most → valid s → sink_inv s →
  smooth (flush force) (λ _ s', sink_inv s' ∧ (force = true → sk_pending_text (st_sink s) ≠ "" →
    shows (sk_rendered_parts (st_sink s)) (ids_of s) (chat_now s) → ¬ drafting s →
    sink_parts (st_sink s) = [] ∨ standing (sink_parts (st_sink s)) s')) s.
Proof.
  intros Hmost Hv HI. unfold flush.
  eapply (smooth_bind _ _ (λ a s', a = s ∧ s' = s)); [intros a; stable_go|by apply smooth_get_db|].
  intros a s' _ [-> ->]. cbv zeta. destruct (String.eqb_spec (sk_pending_text (st_sink s)) "") as [Hp|Hp]; [by apply smooth_ret|].
  eapply smooth_bind; [intros a; stable_go|apply smooth_too_soon|]. intros soon s' _ [-> Hsoon]. cbv beta.
  destruct soon; [apply smooth_ret; split; [done|]; intros ->; by specialize (Hsoon eq_refl)|].
  case_bool_decide as Hnil; cbn [orb]; [apply smooth_ret; split; [done|by left]|].
  case_bool_decide as Hsame; cbn [orb].
  { apply smooth_ret. split; [done|]. intros _ _ Hs _. right. split; [apply HI|by rewrite Hsame]. }
  destruct (sk_prefer_draft (st_sink s) && _ && _) eqn:Hd; cbn [andb].
  - apply andb_true_iff in Hd as [[Hpref Hsup]%andb_true_iff Hmid%bool_decide_eq_true].
    assert (Hdr : drafting s) by done. pose proof (kn_first s (proj1 HI) Hmid) as Ht. rewrite bool_decide_eq_true_2 by done.
    destruct (sink_parts (st_sink s)) as [|first rest] eqn:Hparts; [done|].
    eapply (smooth_bind _ _ (λ r s', (∃ a, r = Ok a ∧ ∃ payload d, s' = after_call (CallDraft payload (Ok d)) s)));
      [intros a; stable_go| |].
    + apply smooth_catch. apply wp_zoom. eapply wp_send_draft; [exact Hparts|]. intros [d|e] Hv'.
      { exists tt. split; [done|]. by do 2 eexists. }
      destruct Hv' as [Hv' _]. unfold calls_of in Hv'. cbn in Hv'. by apply Forall_app in Hv' as [_ [? _]%Forall_cons].
    + intros r s' _ (a & -> & payload & d & ->). apply smooth_record_push. intros now. split; [|intros _ _ _ Hn; by destruct Hn].
      split; [|by left]. destruct HI as [[K1 K2 K3] _]. split; [|done|done]. unfold calls_of, sent_ids in *. cbn.
      rewrite omap_app. cbn. rewrite app_nil_r. exact K1.
  - eapply smooth_mono; [apply flush_messages_shows; [done|done|done|apply HI|by apply drafting_dec]|].
    intros [] s' _ [H1 H2]. split; [done|]. auto.
Qed.

Lemma pending_inv text s : sink_inv s → sink_inv {| st_sink := with_pending text (st_sink s); st_tg := st_tg s |}.
Proof. intros [[H1 H2 H3] H4]. split; [by split|exact H4]. Qed.

(** The parts of a text are not more than the bound. *)
Definition few_parts (text : string) : Prop :=
  length (render_telegram_text_parts text TELEGRAM_MAX_TEXT_CHARS) ≤ most.

Definition text_of s : string := sk_pending_text (st_sink s).

Lemma on_delta_keeps delta s : few_parts (text_of s +:+ delta) → valid s → sink_inv s →
  smooth (on_delta delta) (λ _ s', sink_inv s' ∧ text_of s' = text_of s +:+ delta) s.
Proof.
  intros Hf Hv HI. unfold on_delta. destruct (String.eqb_spec delta "") as [->|_].
  { apply smooth_ret. by rewrite string_app_nil_r. }
  eapply (smooth_bind _ _ (λ _ s', sink_inv s' ∧ text_of s' = text_of s +:+ delta)); [intros a; stable_go| |].
  { apply smooth_set_sink. split; [by apply pending_inv|done]. }
  intros [] s' Hv' [HI' Ht]. apply smooth_ignore.
  eapply smooth_mono; [apply smooth_and; [apply flush_text|apply flush_shows; [|done|done]]|].
  { unfold sink_parts. fold (text_of s'). by rewrite Ht. }
  intros [] s'' _ [[? _] Hs]. split; [done|]. unfold text_of, same_text in *. congruence.
Qed.

Lemma on_deltas_keep deltas s : (∀ k, few_parts (text_of s +:+ String.concat "" (take k deltas))) → valid s → sink_inv s →
  smooth (foreach deltas on_delta) (λ _, sink_inv) s.
Proof.
  revert s. induction deltas as [|d deltas IH]; intros s Hf Hv HI; cbn [foreach]; [by apply smooth_ret|].
  assert (Hcat : ∀ k, String.concat "" (take (S k) (d :: deltas)) = d +:+ String.concat "" (take k deltas)).
  { intros k. cbn. destruct (take k deltas); cbn; [by rewrite string_app_nil_r|done]. }
  eapply smooth_bind; [intros a; apply stable_foreach; [typeclasses eauto|apply on_delta_grows]|apply on_delta_keeps; [|done|done]|].
  { apply (Hf 1). }
  intros [] s' Hv' [HI' Ht]. apply IH; [|done|done]. intros k. rewrite Ht, <- string_app_assoc, <- Hcat. apply Hf.
Qed.

Lemma sends_show chat thread reply parts sent pre ids m :
  shows pre ids m → length pre = length ids → NoDup (ids ++ sent) → length sent = length parts →
  shows (pre ++ parts) (ids ++ sent) (foldl show_call m (sends_of chat thread reply parts sent)).
Proof.
  revert reply sent pre ids m. induction parts as [|part parts IH]; intros reply [|id sent] pre ids m Hs Hl Hn Hl'; try done.
  { by rewrite !app_nil_r. }
  cbn [sends_of foldl show_call]. rewrite !(cons_middle _ _ sent), (cons_middle part pre parts), !app_assoc.
  apply IH; [|rewrite !length_app; cbn; lia|by rewrite <- app_assoc|cbn in Hl'; lia].
  eapply shows_send; [exact Hs| |].
  - apply NoDup_app in Hn as (_ & Hn & _). intros Hid. apply (Hn id Hid). by left.
  - intros j p [Hj|[Hj Hp]]%lookup_app_Some; [right; split; [apply lookup_lt_Some in Hj; lia|done]|].
    apply list_lookup_singleton_Some in Hp as [Hj' <-]. left. split; [lia|done].
Qed.

Lemma sent_ids_of chat thread reply parts sent :
  length sent = length parts → sent_ids (sends_of chat thread reply parts sent) = sent.
Proof.
  revert reply sent. induction parts as [|part parts IH]; intros reply [|id sent] Hl; try done.
  unfold sent_ids. cbn. f_equal. apply IH. cbn in Hl. lia.
Qed.

Lemma finalize_shows full_text s :
  few_parts full_text → valid s → sink_inv s → full_text ≠ "" →
  let parts := render_telegram_text_parts full_text TELEGRAM_MAX_TEXT_CHARS in
  smooth (sink_finalize full_text) (λ _, standing parts) s.
Proof.
  intros Hmost Hv HI Hne parts. unfold sink_finalize. destruct (String.eqb_spec full_text "") as [|_]; [done|].
  eapply (smooth_bind _ _ (λ _ s', sink_inv s' ∧ sk_pending_text (st_sink s') = full_text)); [intros a; stable_go|by apply smooth_set_sink; split; [apply pending_inv|]|].
  clear s Hv HI. intros [] s Hv [HI Hpend].
  eapply (smooth_bind _ _ (λ a s', a = s ∧ s' = s)); [intros a; stable_go|by apply smooth_get_db|].
  intros a s' _ [-> ->]. cbv zeta.
  assert (Hparts : sink_parts (st_sink s) = parts) by (unfold sink_parts; by rewrite Hpend). rewrite Hparts.
  set (waiting := sk_prefer_draft (st_sink s) && _ && _).
  destruct (negb _ && _ && negb waiting) eqn:Hsame.
  { apply andb_true_iff in Hsame as [[_ Hsame%bool_decide_eq_true]%andb_true_iff Hw%negb_true_iff].
    apply smooth_ret. split; [apply HI|]. rewrite Hsame. by apply drafting_dec. }
  destruct waiting eqn:Hw.
  - apply andb_true_iff in Hw as [_ Hmid%bool_decide_eq_true]. pose proof (kn_first s (proj1 HI) Hmid) as Ht.
    assert (Hids : ids_of s = []) by (unfold ids_of, sent_message_ids; by rewrite Hmid, Ht).
    eapply (smooth_bind _ _ (λ r s', ∃ ids, r = Ok ids ∧ st_sink s' = st_sink s ∧ length ids = length parts ∧
      calls_of s' = calls_of s ++ sends_of (sk_chat_id (st_sink s)) (sk_thread_id (st_sink s)) (sk_reply_to (st_sink s)) parts ids ∧ valid s'));
      [intros a; stable_go| |].
    + eapply smooth_mono; [eapply smooth_catch|intros r s' _ H; exact H].
      apply wp_zoom. eapply wp_mono; [apply send_parts_spec|]. cbv beta.
      intros [ids|e] t' H Hv'.
      * exists ids. destruct H as (seq & sent & -> & Hl & _ & Hcalls). split_and!; done.
      * destruct H as (seq & sent & part & _ & Hc & _). destruct Hv' as [Hv' _]. unfold calls_of in Hv'. cbn in Hv'.
        rewrite Hc, app_assoc in Hv'. by apply Forall_app in Hv' as [_ [? _]%Forall_cons].
    + intros r s' _ (ids & -> & Hsink & Hl & Hc & Hv').
      eapply (smooth_bind _ _ (λ _, standing parts)); [intros a; stable_go| |].
      * apply smooth_set_sink. rewrite Hsink.
        set (s2 := Build_Streaming _ _).
        assert (Hids2 : ids_of s2 = ids).
        { unfold ids_of, sent_message_ids, s2, note_sent_message_ids. cbn. rewrite Hmid, Ht. by destruct ids. }
        assert (Hc2 : calls_of s2 = calls_of s') by done.
        assert (Hsent : sent_ids (calls_of s2) = ids).
        { rewrite Hc2, Hc. unfold sent_ids. rewrite omap_app. fold (sent_ids (calls_of s)).
          rewrite <- (kn_ids s (proj1 HI)), Hids. by apply sent_ids_of. }
        split; [split|].
        { by rewrite Hids2, Hsent. }
        { unfold s2, note_sent_message_ids. cbn. rewrite Hmid, Ht. by destruct ids. }
        { rewrite Hids2, Hl. exact Hmost. }
        rewrite Hids2. unfold chat_now. rewrite Hc2, Hc. unfold chat_of. rewrite foldl_app.
        apply (sends_show _ _ _ parts ids [] []); [done|done| |done]. cbn. rewrite <- Hsent, Hc2. apply Hv'.
      * intros [] s2 _ H2. apply smooth_record_push. intros now. exact (proj2 (standing_inv parts now s2 H2)).
  - unfold flush_or_send.
    assert (Hs : shows (sk_rendered_parts (st_sink s)) (ids_of s) (chat_now s)) by by apply drafting_dec.
    assert (Hnd : ¬ drafting s).
    { intros (H1 & H2 & H3). unfold waiting in Hw. by rewrite H1, H2, H3 in Hw. }
    eapply (smooth_bind _ _ (λ r s', ∃ a, r = Ok a ∧ _)); [intros a; stable_go|apply smooth_catch, (flush_shows true); by rewrite ?Hparts|].
    intros r s' _ (a & -> & [HI' _] & Hf). apply smooth_ret.
    rewrite <- Hparts. destruct Hf as [Hf|Hf]; [done|by rewrite Hpend|done|done| |exact Hf].
    rewrite Hf. split; [done|]. by intros i p Hp.
Qed.
End invariant.

(** C32: What a stream leaves in the chat.  However a reply comes in deltas - edited into
    messages, or shown as drafts first - when no call of the Bot API fails the sink ends
    without an error, remembers the id of every message it sent, and its first messages show
    the parts of the whole reply, one each and in order.  There are no more messages than the
    longest of the texts on the way had parts; so when no beginning of the stream has more parts
    than the reply, the messages are exactly the parts.  (Otherwise the messages behind stay as
    they are: [stale_tail_stays].) *)
Theorem stream_ends_showing_the_reply deltas full_text nanos chat_id is_private thread_id reply_to prefer_draft interval s :
  st_sink s = new_sink nanos chat_id is_private thread_id reply_to prefer_draft interval →
  calls_of s = [] → full_text ≠ "" →
  let parts_of text := render_telegram_text_parts text TELEGRAM_MAX_TEXT_CHARS in
  let beginning k := String.concat "" (take k deltas) in
  let parts := parts_of full_text in
  wp (show_stream deltas full_text) (λ r s',
    let ids := sent_message_ids (st_sink s') in
    let chat := chat_of (calls_of s') in
    valid s' → r = Ok tt ∧ ids = sent_ids (calls_of s') ∧ shows parts ids chat ∧
      (∀ n, length parts ≤ n → (∀ k, length (parts_of (beginning k)) ≤ n) → length ids ≤ n) ∧
      ((∀ k, length (parts_of (beginning k)) ≤ length parts) → (λ id, chat !! id) <$> ids = Some <$> parts)) s.
Proof.
  intros Hk Hc Hne parts_of beginning parts.
  assert (Hv : valid s) by (unfold valid; rewrite Hc; by repeat constructor).
  assert (Ht : text_of s = "") by (unfold text_of; by rewrite Hk).
  assert (H : ∀ n, length parts ≤ n → (∀ k, length (parts_of (beginning k)) ≤ n) →
    smooth (show_stream deltas full_text) (λ _, standing n parts) s).
  { intros n Hn Hb. assert (HI : sink_inv n s).
    { split; [split; [unfold ids_of; by rewrite Hk, Hc|by rewrite Hk|unfold ids_of; rewrite Hk; cbn; lia]|].
      right. rewrite Hk. by intros i p Hp. }
    eapply smooth_bind; [intros []; apply sink_finalize_grows|apply (on_deltas_keep n); [|done|done]|].
    { intros k. rewrite Ht. apply Hb. }
    intros [] s' Hv' HI'. by apply finalize_shows. }
  assert (Hsome : ∃ n, length parts ≤ n ∧ ∀ k, length (parts_of (beginning k)) ≤ n).
  { exists (Nat.max (length parts) (list_max ((λ k, length (parts_of (beginning k))) <$> seq 0 (S (length deltas))))).
    split; [lia|]. intros k.
    assert (Hk' : beginning k = beginning (Nat.min k (length deltas))).
    { unfold beginning. destruct (decide (k ≤ length deltas)); [by rewrite Nat.min_l by lia|].
      rewrite Nat.min_r by lia. by rewrite !take_ge by lia. }
    rewrite Hk'. set (l := _ <$> _). assert (Hin : length (parts_of (beginning (Nat.min k (length deltas)))) ∈ l).
    { apply list_elem_of_fmap. exists (Nat.min k (length deltas)). split; [done|]. apply elem_of_seq. lia. }
    pose proof (proj1 (list_max_le l (list_max l)) (le_n _)) as Hall. rewrite Forall_forall in Hall.
    specialize (Hall _ Hin). lia. }
  destruct Hsome as (n0 & Hn0 & Hb0). intros w Hw ids chat Hv'.
  destruct (H n0 Hn0 Hb0 w Hw Hv') as (a & Hr & [Hkn Hs]). split; [by destruct a|]. split; [apply Hkn|].
  assert (Hbound : ∀ n, length parts ≤ n → (∀ k, length (parts_of (beginning k)) ≤ n) → length ids ≤ n).
  { intros n Hn Hb. destruct (H n Hn Hb w Hw Hv') as (_ & _ & [Hkn' _]). apply (kn_count _ _ Hkn'). }
  split_and!; [exact Hs|exact Hbound|]. intros Hshort. specialize (Hbound _ (le_n _) Hshort).
  apply shows_exactly; [exact Hs|exact Hbound].
Qed.
End stream.

(** ** A session finds its chat *)

Lemma parse_digits_go n s : (0 < n)%N → ∃ k, (0 ≤ k)%Z ∧ ∀ acc,
  parse_digits acc (bytes (pretty_N_go n s)) = parse_digits (acc * k + Z.of_N n) (bytes s).
Proof.
  revert s. induction (N.lt_wf_0 n) as [n _ IH]; intros s Hn. rewrite pretty_N_go_step by done.
  assert (Hd : ∀ acc, parse_digits acc (bytes (String (pretty_N_char (n `mod` 10)) s)) =
    parse_digits (acc * 10 + Z.of_N (n `mod` 10)) (bytes s)).
  { intros acc. assert (Hm : (n `mod` 10 < 10)%N) by by apply N.mod_lt. revert Hm. generalize (n `mod` 10)%N. clear.
    intros m Hm. change (bytes (String (pretty_N_char m) s)) with (pretty_N_char m :: bytes s). cbn [parse_digits].
    assert (digit_value (pretty_N_char m) = Some (Z.of_N m)) as ->; [|done].
    destruct m as [|p]; [done|]. do 4 (destruct p as [p|p|]; try done; try lia). }
  destruct (decide (0 < n `div` 10)%N) as [Hq|Hq].
  - destruct (IH (n `div` 10)%N) with (s := String (pretty_N_char (n `mod` 10)) s) as (k & Hk & H); [by apply N.div_lt|done|].
    exists (k * 10)%Z. split; [lia|]. intros acc. rewrite H, Hd. f_equal.
    pose proof (N.div_mod n 10 ltac:(done)) as Hdm. apply (f_equal Z.of_N) in Hdm. rewrite N2Z.inj_add, N2Z.inj_mul in Hdm. lia.
  - exists 10%Z. split; [lia|]. intros acc. apply N.nlt_ge, N.le_0_r in Hq.
    pose proof (N.div_mod n 10 ltac:(done)) as Hdm. rewrite Hq in *. rewrite pretty_N_go_0, Hd. do 2 f_equal. lia.
Qed.

Lemma parse_digits_pretty (n : N) : parse_digits 0 (bytes (pretty n)) = Some (Z.of_N n).
Proof.
  unfold pretty, pretty_N. destruct (decide (n = 0%N)) as [->|Hn]; [done|].
  destruct (parse_digits_go n "") as (k & _ & H); [lia|]. by rewrite H.
Qed.

Lemma digits_first s a l : digits s → bytes s = a :: l → Ascii.eqb a "-"%char = false ∧ Ascii.eqb a "+"%char = false.
Proof.
  unfold digits. intros H E. rewrite E in H. apply Forall_cons in H as [H _]. cbn in H.
  rewrite !elem_of_cons, elem_of_nil in H. intuition subst; done.
Qed.

Lemma parse_i64_pretty (z : Z) : (- 2 ^ 63 <= z < 2 ^ 63)%Z → parse_i64 (pretty z) = Some z.
Proof.
  intros Hz. assert (Hin : in_i64 z = Some z).
  { unfold in_i64. by rewrite (proj2 (Z.leb_le _ _)), (proj2 (Z.ltb_lt _ _)) by lia. }
  assert (Hpos : ∀ p, pretty (N.pos p) ≠ "" ∧ ∃ a l, bytes (pretty (N.pos p)) = a :: l).
  { intros p. split; [apply pretty_nonempty|]. destruct (pretty (N.pos p)) as [|a s] eqn:E; [by destruct (pretty_nonempty (N.pos p))|].
    by exists a, (bytes s). }
  destruct z as [|p|p]; [done| |].
  - change (pretty (Z.pos p)) with (pretty (N.pos p)). unfold parse_i64.
    destruct (Hpos p) as (_ & a & l & E). pose proof (parse_digits_pretty (N.pos p)) as Hp. rewrite E in *.
    destruct (digits_first _ a l (pretty_N_digits (N.pos p)) E) as [-> ->]. rewrite Hp. cbn. exact Hin.
  - change (pretty (Z.neg p)) with ("-" +:+ pretty (N.pos p)). unfold parse_i64. rewrite bytes_app.
    destruct (Hpos p) as (_ & a & l & E). pose proof (parse_digits_pretty (N.pos p)) as Hp. rewrite E in *.
    change (bytes "-" ++ a :: l) with ("-"%char :: a :: l). cbn [Ascii.eqb Bool.eqb]. rewrite Hp. exact Hin.
Qed.

Lemma pretty_Z_no_colon (z : Z) : in_string ":" (pretty z) = false.
Proof.
  assert (H : ∀ n : N, in_string ":" (pretty n) = false).
  { intros n. apply digits_plain; [apply pretty_N_digits|]. cbn. set_solver. }
  destruct z as [|p|p]; [done|apply (H (N.pos p))|].
  change (pretty (Z.neg p)) with (String "-" (pretty (N.pos p))). rewrite in_string_cons. apply H.
Qed.

Lemma split_colon_app cur s r :
  in_string ":" s = false → split_colon cur (s +:+ ":" +:+ r) = (cur +:+ s) :: split_colon "" r.
Proof.
  revert cur. induction s as [|a s IH]; intros cur Hs.
  - cbn. by rewrite string_app_nil_r.
  - change (String a s +:+ ":" +:+ r) with (String a (s +:+ ":" +:+ r)). cbn [split_colon]. rewrite in_string_cons in Hs. apply orb_false_iff in Hs as [Ha Hs]. rewrite Ascii.eqb_sym, Ha.
    rewrite IH by done. by rewrite <- string_app_assoc.
Qed.

Lemma split_colon_end cur s : in_string ":" s = false → split_colon cur s = [cur +:+ s].
Proof.
  revert cur. induction s as [|a s IH]; intros cur Hs; cbn [split_colon]; [by rewrite string_app_nil_r|].
  rewrite in_string_cons in Hs. apply orb_false_iff in Hs as [Ha Hs]. rewrite Ascii.eqb_sym, Ha.
  rewrite IH by done. by rewrite <- string_app_assoc.
Qed.

Definition i64_range (z : Z) : Prop := (- 2 ^ 63 <= z < 2 ^ 63)%Z.

(** A session id names its chat.  A send to the session of a group message, or to the
    session its silent copy was kept in, goes to the chat of that message, to its thread
    when it has one and otherwise as a reply to the message it replied to. *)
Theorem session_names_its_chat chat_id thread_id reply_to suffix :
  i64_range chat_id → (∀ id, thread_id = Some id → i64_range id) → (∀ id, reply_to = Some id → i64_range id) →
  suffix ∈ [""; ":observe"] →
  parse_telegram_outbound_target (telegram_session_id chat_id thread_id reply_to +:+ suffix) =
    Ok {| ot_chat_id := chat_id; ot_thread_id := thread_id;
          ot_reply_to := match thread_id with Some _ => None | None => reply_to end |}.
Proof.
  intros Hc Ht Hr Hs.
  assert (Hprefix : ∀ r, Strings.strip_prefix "tg:" ("tg:" +:+ r) = Some r).
  { intros r. unfold Strings.strip_prefix. rewrite starts_with_self. f_equal.
    apply (substring_skip "tg:" r). rewrite string_length_app. cbn. lia. }
  assert (Hsuf : ∀ z : Z, ∃ rest, split_colon "" (pretty z +:+ suffix) = pretty z :: rest ∧ (rest = [] ∨ rest = ["observe"])).
  { intros z. rewrite !elem_of_cons, elem_of_nil in Hs. destruct Hs as [->|[->|[]]].
    - exists []. rewrite string_app_nil_r, split_colon_end by apply pretty_Z_no_colon. auto.
    - exists ["observe"]. change ":observe" with (":" +:+ "observe"). rewrite split_colon_app by apply pretty_Z_no_colon. auto. }
  unfold parse_telegram_outbound_target, telegram_session_id.
  destruct thread_id as [thread|]; [|destruct reply_to as [reply|]]; rewrite <- !string_app_assoc, Hprefix.
  - change ":thread:" with (":" +:+ "thread" +:+ ":"). rewrite <- !string_app_assoc, split_colon_app by apply pretty_Z_no_colon.
    rewrite split_colon_app by done. destruct (Hsuf thread) as (rest & -> & Hrest). cbn [head tail].
    change (Some ("" +:+ pretty chat_id) ≫= parse_i64) with (parse_i64 (pretty chat_id)). rewrite parse_i64_pretty by done.
    cbn. rewrite parse_i64_pretty by (by apply Ht). by destruct Hrest as [->| ->].
  - change ":reply:" with (":" +:+ "reply" +:+ ":"). rewrite <- !string_app_assoc, split_colon_app by apply pretty_Z_no_colon.
    rewrite split_colon_app by done. destruct (Hsuf reply) as (rest & -> & Hrest). cbn [head tail].
    change (Some ("" +:+ pretty chat_id) ≫= parse_i64) with (parse_i64 (pretty chat_id)). rewrite parse_i64_pretty by done.
    cbn. rewrite parse_i64_pretty by (by apply Hr). by destruct Hrest as [->| ->].
  - destruct (Hsuf chat_id) as (rest & -> & Hrest). cbn [head tail].
    change (Some (pretty chat_id) ≫= parse_i64) with (parse_i64 (pretty chat_id)). rewrite parse_i64_pretty by done.
    by destruct Hrest as [->| ->].
Qed.

(** A draft has an id that Telegram takes. *)
Lemma draft_id_in_range nanos chat_id thread_id : (1 <= build_draft_id nanos chat_id thread_id <= 2 ^ 31 - 1)%Z.
Proof.
  unfold build_draft_id. generalize (to_i64 (Z.abs (Z.lxor (Z.lxor (to_i64 nanos) (rotate_left chat_id 11))
    (rotate_left (default 0%Z thread_id) 19)))). intros x.
  assert (H : Z.land x (2 ^ 31 - 1) = (x mod 2 ^ 31)%Z) by (change (2 ^ 31 - 1)%Z with (Z.ones 31); by apply Z.land_ones).
  rewrite H. pose proof (Z.mod_pos_bound x (2 ^ 31) ltac:(lia)). lia.
Qed.

(** ** Runs *)

(** The API answers each call with its moment as the id, but for the moments of an outage. *)
Definition api_but (outage : nat → bool) : TelegramApi :=
  {| api_send n _ := if outage n then NoResponse else Body true (Z.of_nat n) None;
     api_draft n _ := if outage n then NoResponse else Body true true None;
     api_edit n _ := if outage n then NoResponse else Body true tt None |}.

Definition chat_process : Telegram := {| tg_queue_attached := true; tg_channel := empty_channel; tg_calls := [] |}.

Definition new_stream (prefer_draft : bool) : Streaming :=
  {| st_sink := new_sink 0 7 true None None prefer_draft 0; st_tg := chat_process |}.

(** What a stream came to: its result, the messages of the chat, and the texts in the queue. *)
Definition outcome (outage : nat → bool) (prefer_draft : bool) (deltas : list string) (full_text : string)
    : bool * list (Z * string) * list string :=
  let C : Clock := λ _, 0%Z in let P := plain_text in let A := api_but outage in
  let '(r, w) := show_stream deltas full_text (World (new_stream prefer_draft) 0 0) in
  (is_ok r, (λ p, (p.1, rt_text p.2)) <$> map_to_list (chat_of (tg_calls (st_tg (w_db w)))),
   qr_text <$> outbound_queue (tg_channel (st_tg (w_db w)))).

Example stream_is_edited :
  outcome (λ _, false) false ["Hello"; ", wor"; "ld."] "Hello, world." = (true, [(0%Z, "Hello, world\.")], []).
Proof. vm_compute. reflexivity. Qed.

(** After drafts, one failing call makes the final reply both sent and queued: the janitor
    of the queue will send it a second time. *)
Example final_reply_is_sent_twice :
  outcome (λ n, n =? 2) true ["Hi"] "Hi there" = (true, [(5%Z, "Hi there")], ["Hi there"]).
Proof. vm_compute. reflexivity. Qed.

(** An outage while the end of the reply renders as an earlier draft: the reply is neither
    sent nor queued, and the sink reports success. *)
Example final_reply_is_lost :
  outcome (λ n, (2 <=? n) && (n <=? 4)) true ["A"; "<"; "think>x"; "</think>"] "A<think>x</think>" = (true, [], []).
Proof. vm_compute. reflexivity. Qed.

(** A tag of reasoning that comes in two deltas makes the text on the way longer than the
    reply: its second message stays. *)
Example stale_tail_stays :
  let text := String.concat "" (replicate 2046 "a") in
  outcome (λ _, false) false [text +:+ "<thi"; "nk>x</think>"] (text +:+ "<think>x</think>") =
    (true, [(1%Z, "hi"); (0%Z, text)], []).
Proof. vm_compute. reflexivity. Qed.

Lemma stream_ends_showing_the_reply_witness :
  let C : Clock := λ _, 0%Z in let P := plain_text in let A := api_but (λ _, false) in
  let s := new_stream false in
  let deltas := ["Hel"; "lo."] in
  let parts_of text := render_telegram_text_parts text TELEGRAM_MAX_TEXT_CHARS in
  let beginning k := String.concat "" (take k deltas) in
  let parts := parts_of "Hello." in
  wp (show_stream deltas "Hello.") (λ r s',
    let ids := sent_message_ids (st_sink s') in
    let chat := chat_of (calls_of s') in
    valid s' → r = Ok tt ∧ ids = sent_ids (calls_of s') ∧ shows parts ids chat ∧
      (∀ n, length parts ≤ n → (∀ k, length (parts_of (beginning k)) ≤ n) → length ids ≤ n) ∧
      ((∀ k, length (parts_of (beginning k)) ≤ length parts) → (λ id, chat !! id) <$> ids = Some <$> parts)) s.
Proof.
  intros C P A s deltas parts_of beginning parts. apply (stream_ends_showing_the_reply ["Hel"; "lo."] "Hello." 0 7 true None None false 0 s);
    [reflexivity|reflexivity|done].
Defined.

Lemma session_names_its_chat_witness :
  parse_telegram_outbound_target (telegram_session_id (-1001234) None (Some 42%Z) +:+ ":observe") =
    Ok {| ot_chat_id := -1001234; ot_thread_id := None; ot_reply_to := Some 42%Z |}.
Proof.
  apply (session_names_its_chat (-1001234) None (Some 42%Z) ":observe").
  - split; [discriminate|reflexivity].
  - discriminate.
  - intros id [= <-]. split; [discriminate|reflexivity].
  - right. left.
Defined.
