(* ===== verification/SwarmDurable.v ===== *)
(** * The durable swarm

    The [swarm_node] handler of src/service/swarm.rs, which decides, answers, delegates or
    merges as one work item; the run that drives a goal of such items and the audit it
    mirrors; and the janitor that closes orphaned runs and delivers deferred replies.  The
    driving of the goal by concurrent workers is an argument, [drive]: it answers [None]
    when the synchronous window passes first. *)

From S2P Require Import Prelude Text Outbox Markdown Delivery Scheduler Strings Messages External Verifier Domain Tables Signals Artifacts StoreBase.
From S2P Require Import StoreGoals StoreWork StoreExtend Replay Engine Worker Handlers MemBase TrajStore EvoStore Harness RunLog SwarmAudit Swarm.
From stdpp Require Import pretty.

(** The input of a node's work item. *)
Record SwarmNodeInput : Type := {
  ni_task : string;
  ni_role_name : option string;
  ni_role_definition : option string;
  ni_nickname : option string;
  ni_depth : nat;
  ni_mode : option string;
  ni_parent_step_id : option string;
  ni_swarm_run_id : option string;
  ni_history : list StoredMessage;
  ni_swarm_root : bool;
  ni_swarm_terminal : bool;
  ni_channel : option string;
  ni_user_id : option string;
  ni_session_id : option string
}.

(** One trajectory per attempt; [nt_calls] is the index of its next frame. *)
Record SwarmNodeTrajectory : Type := {
  nt_logger : option TrajectoryLogger;
  nt_id : string;
  nt_session_id : string;
  nt_channel : string;
  nt_user_id : string;
  nt_calls : N
}.

(** The provider at a moment, within a number of milliseconds; the flag asks for JSON and
    [None] is the timeout. *)
Class NodeProvider : Type := {
  node_complete : nat → Z → bool → list StoredMessage → option (res string);
  node_model_name : option string
}.

(** What was sent: channel, session, text, key. *)
Record sent : Type := { st_channel : string; st_session : string; st_text : string; st_key : string }.

Section durable.
  Context `{ENV : LoopEnv} `{DT : DateTimes} `{JP : !JsonParse} `{SLJ : Serialize (list json)} `{NP : NodeProvider}.
  Context `{FP : !FromValue SwarmNodePlanEnvelope} `{FI : !FromValue SwarmNodeInput}.

(** ** The trajectory of an attempt *)

Abbreviation DB := (M HarnessDb).

Definition new_node_trajectory (logger : option TrajectoryLogger) (claim : WorkClaim) (input : SwarmNodeInput)
    : SwarmNodeTrajectory :=
  {| nt_logger := logger;
     nt_id := "swarm-node:" +:+ wir_id (wc_item claim) +:+ ":" +:+ atr_id (wc_attempt claim);
     nt_session_id := default "swarm" (ni_session_id input); nt_channel := default "swarm" (ni_channel input);
     nt_user_id := default "swarm" (ni_user_id input); nt_calls := 0 |}.

Definition start_node_trajectory (t : SwarmNodeTrajectory) (model : string) : DB unit :=
  match nt_logger t with
  | Some l => ignore_error (logger_start_trajectory l (nt_id t) (nt_session_id t) (nt_channel t) (nt_user_id t) model)
  | None => mret tt
  end.

Definition log_frame (t : SwarmNodeTrajectory) (messages : list StoredMessage) (json_mode : bool)
    (response : string) (model : option string) : DB SwarmNodeTrajectory :=
  match nt_logger t with
  | Some l =>
      ignore_error (logger_log_provider_frame l
        {| dr_trajectory_id := nt_id t; dr_call_index := nt_calls t; dr_model := default "unknown" model;
           dr_provider_fingerprint := ""; dr_request_messages := messages; dr_request_was_json := json_mode;
           dr_response := response; dr_capture := Full |}) ;;
      mret {| nt_logger := nt_logger t; nt_id := nt_id t; nt_session_id := nt_session_id t;
              nt_channel := nt_channel t; nt_user_id := nt_user_id t; nt_calls := nt_calls t + 1 |}
  | None => mret t
  end.

Definition finish_node_trajectory (t : SwarmNodeTrajectory) (answer : option string)
    (exit : TrajectoryExitReason) : DB unit :=
  match nt_logger t with
  | Some l => ignore_error (logger_finish_trajectory l (nt_id t) answer exit)
  | None => mret tt
  end.

(** ** The handler *)

Context (self : LoopEngine) (settings : AgentSwarmSettings) (logger : option TrajectoryLogger).

(** [(deadline - now).max(1).saturating_mul(1000)]. *)
Definition deadline_ms (deadline now : Z) : Z := i64_saturating_mul (Z.max 1 (deadline - now)) 1000.

Definition node_timeout_ms (deadline now : Z) : Z :=
  Z.min (Z.max 1 (Z.of_N (sg_max_node_timeout_ms settings))) (Z.max 1 (deadline_ms deadline now)).

(** [u32::try_from(reply.len()).unwrap_or(u32::MAX)]. *)
Definition reply_bytes (reply : string) : N := N.min (2 ^ 32 - 1) (N.of_nat (String.length reply)).

(** [complete]: one call within the budget of the goal. *)
Definition node_call (ctx : WorkHandlerContext) (messages : list StoredMessage) (json_mode : bool)
    (t : SwarmNodeTrajectory) : DB (SwarmModelResult * SwarmNodeTrajectory) :=
  let goal_id := atr_goal_id (wc_attempt (ctx_claim ctx)) in
  r ← catch (on_loop (reserve_provider_call goal_id));
  match r with
  | Err e => mret (ModelFailure e, t)
  | Ok reservation =>
      now ← unix_now;
      n ← tick;
      match node_complete n (node_timeout_ms (pb_deadline_at reservation) now) json_mode messages with
      | Some (Ok reply) =>
          ignore_error (on_loop (record_provider_response_bytes goal_id (reply_bytes reply))) ;;
          t' ← log_frame t messages json_mode reply node_model_name;
          mret (ModelReply reply, t')
      | Some (Err e) => mret (ModelFailure e, t)
      | None => mret (ModelTimeout, t)
      end
  end.

Definition swarm_node_outcome (answer status : string) (input : SwarmNodeInput) : WorkOutcome :=
  plain_outcome (truncate_swarm_text answer 240) []
    (json_object [("answer", json_string answer); ("status", json_string status);
                  ("nickname", opt_string (ni_nickname input)); ("role_name", opt_string (ni_role_name input));
                  ("depth", json_int (Z.of_nat (ni_depth input)))]).

Definition evidence_str (outcome : WorkOutcome) (key : string) : option string :=
  json_get (out_evidence outcome) key ≫= json_as_str.

Definition push_artifact (id : string) (o : WorkOutcome) : WorkOutcome :=
  {| out_summary := out_summary o; out_artifact_ids := out_artifact_ids o ++ [id]; out_evidence := out_evidence o;
     out_sleep_until := out_sleep_until o; out_continuation := out_continuation o |}.

Definition terminal_artifact (ctx : WorkHandlerContext) (run_id answer : string) : PublishArtifactRequest :=
  {| pa_kind := AnalysisReport; pa_name := "swarm-" +:+ run_id; pa_version := "1";
     pa_content := json_object
       [("swarm_run_id", json_string run_id); ("answer", json_string (truncate_swarm_text answer (N.to_nat 4096)))];
     pa_source_goal_id := Some (wir_goal_id (wc_item (ctx_claim ctx))); pa_parent_artifact_id := None |}.

Definition maybe_publish_terminal_artifact (ctx : WorkHandlerContext) (input : SwarmNodeInput)
    (outcome : WorkOutcome) : DB WorkOutcome :=
  let answer := default "" (evidence_str outcome "answer") in
  if negb (ni_swarm_root input || ni_swarm_terminal input) || is_blank answer then mret outcome
  else
    r ← catch (on_loop (engine_publish_artifact
          (terminal_artifact ctx (default "unknown" (ni_swarm_run_id input)) answer) SWARM_LOOP_ACTOR));
    mret match r with
         | Ok published => push_artifact (ar_id published.1) outcome
         | Err _ => outcome
         end.

Definition answer_outcome (ctx : WorkHandlerContext) (input : SwarmNodeInput) (role_name role_definition : string)
    (direct_answer : option string) (t : SwarmNodeTrajectory) : DB (WorkOutcome * SwarmNodeTrajectory) :=
  '(outcome, t) ← (
    let ask :=
      '(r, t) ← node_call ctx (build_swarm_answer_messages (ni_history input) (ni_task input) role_name role_definition)
                  false t;
      mret match r with
           | ModelReply answer => (swarm_node_outcome answer "success" input, t)
           | ModelTimeout => (swarm_node_outcome "" "timeout" input, t)
           | ModelFailure _ => (swarm_node_outcome "" "failed" input, t)
           end in
    match direct_answer with
    | Some answer => if is_blank answer then ask else mret (swarm_node_outcome answer "success" input, t)
    | None => ask
    end);
  outcome ← maybe_publish_terminal_artifact ctx input outcome;
  mret (outcome, t).

(** The upstream outcomes in the order of their step ids. *)
Definition upstream_sorted (ctx : WorkHandlerContext) : list (string * WorkOutcome) :=
  order_by (λ a b, String.leb a.1 b.1) (map_to_list (ctx_upstream ctx)).

Definition upstream_status (o : WorkOutcome) : string := default "success" (evidence_str o "status").

Definition upstream_answer (o : WorkOutcome) : string := default (out_summary o) (evidence_str o "answer").

Definition upstream_result (step_id : string) (o : WorkOutcome) : json :=
  json_object
    [("agent_id", json_string step_id); ("nickname", json_string (default step_id (evidence_str o "nickname")));
     ("role_name", json_string (default "general" (evidence_str o "role_name")));
     ("status", json_string (upstream_status o));
     ("answer", json_string (truncate_swarm_text (upstream_answer o) 180))].

Definition is_failed_status (status : string) : bool := String.eqb status "failed" || String.eqb status "timeout".

Definition aggregate_outcome (ctx : WorkHandlerContext) (input : SwarmNodeInput) (role_name : string)
    (t : SwarmNodeTrajectory) : DB (WorkOutcome * SwarmNodeTrajectory) :=
  let upstream := upstream_sorted ctx in
  let any_failed := existsb (λ p, is_failed_status (upstream_status p.2)) upstream in
  '(r, t) ← node_call ctx
    (build_swarm_merge_messages (ni_history input) (ni_task input) role_name
      ((λ p, upstream_result p.1 p.2) <$> upstream)) false t;
  let merged := match r with
                | ModelReply text => text
                | _ => String.concat (newline +:+ newline)
                    (trim <$> List.filter (λ a, negb (is_blank a)) ((λ p, upstream_answer p.2) <$> upstream))
                end in
  outcome ← maybe_publish_terminal_artifact ctx input
    (swarm_node_outcome merged (if any_failed then "partial" else "success") input);
  mret (outcome, t).

(** *** Delegation *)

Definition nonblank_child (c : SwarmChildPlan) : bool := negb (is_blank (ch_task c)).

Definition node_retry : RetryPolicy := {| max_attempts := 2; backoff_secs := 5 |}.

(** [input.depth + 1] of a [usize]. *)
Definition child_depth (input : SwarmNodeInput) : Z := Z.of_nat (S (ni_depth input)).

Definition child_step (own_step : string) (input : SwarmNodeInput) (history : json) (index : nat)
    (c : SwarmChildPlan) : WorkflowStep :=
  {| step_id := own_step +:+ ".c" +:+ pretty (S index); step_handler := SWARM_NODE_DURABLE_HANDLER;
     step_effect := LocalWrite;
     step_input := json_object
       [("task", json_string (truncate_swarm_text (ch_task c) (N.to_nat 1024)));
        ("role_name", json_string (nonblank_or (ch_role_name c) "general"));
        ("role_definition", json_string (nonblank_or (ch_role_definition c) GENERAL_DEFINITION));
        ("nickname", opt_string (ch_nickname c)); ("depth", json_int (child_depth input));
        ("parent_step_id", json_string own_step); ("swarm_run_id", opt_string (ni_swarm_run_id input));
        ("history", history); ("channel", opt_string (ni_channel input)); ("user_id", opt_string (ni_user_id input));
        ("session_id", opt_string (ni_session_id input))];
     step_retry := node_retry |}.

Definition aggregate_step (own_step : string) (input : SwarmNodeInput) (role_name : string) (history : json)
    (children : list string) : WorkflowStep :=
  {| step_id := own_step +:+ ".agg"; step_handler := SWARM_NODE_DURABLE_HANDLER; step_effect := LocalWrite;
     step_input := json_object
       [("mode", json_string "aggregate"); ("task", json_string (truncate_swarm_text (ni_task input) (N.to_nat 1024)));
        ("role_name", json_string role_name); ("depth", json_int (Z.of_nat (ni_depth input)));
        ("parent_step_id", json_string own_step); ("swarm_run_id", opt_string (ni_swarm_run_id input));
        ("history", history); ("depends_on", json_array (json_string <$> children));
        ("swarm_terminal", json_bool (ni_swarm_root input)); ("channel", opt_string (ni_channel input));
        ("user_id", opt_string (ni_user_id input)); ("session_id", opt_string (ni_session_id input))];
     step_retry := node_retry |}.

(** The children of a node and the aggregate behind them. *)
Definition delegation_steps (own_step : string) (input : SwarmNodeInput) (role_name : string)
    (children : list SwarmChildPlan) : list WorkflowStep :=
  let history := history_value (bounded_swarm_input_history (ni_history input)) in
  let steps := imap (child_step own_step input history) children in
  steps ++ [aggregate_step own_step input role_name history (step_id <$> steps)].

Definition delegated_outcome (own_step : string) (input : SwarmNodeInput) (children : list string) : WorkOutcome :=
  plain_outcome ("delegated to " +:+ pretty (length children) +:+ " children") []
    (json_object [("delegated", json_bool true); ("status", json_string "success");
                  ("aggregate_step_id", json_string (own_step +:+ ".agg"));
                  ("children_step_ids", json_array (json_string <$> children));
                  ("nickname", opt_string (ni_nickname input)); ("role_name", opt_string (ni_role_name input));
                  ("depth", json_int (Z.of_nat (ni_depth input)))]).

(** What the planner's reply asks for: a direct answer, or children. *)
Definition node_plan (reply : string) : option string * list SwarmChildPlan :=
  match plan_of_reply reply with
  | Some plan =>
      if String.eqb (to_ascii_lowercase (default "answer" (pl_mode plan))) "delegate"
      then (None, take 4 (List.filter nonblank_child (default [] (pl_children plan))))
      else (Some (default "" (pl_answer plan)), [])
  | None => (Some "", [])
  end.

(** The extension, tried once more after a failure. *)
Definition extend_twice (goal_id : string) (steps : list WorkflowStep) : DB (res (list WorkItemRecord)) :=
  first ← catch (on_loop (engine_extend_workflow self goal_id steps SWARM_LOOP_ACTOR));
  match first with
  | Ok items => mret (Ok items)
  | Err _ => catch (on_loop (engine_extend_workflow self goal_id steps SWARM_LOOP_ACTOR))
  end.

Definition delegate_node (ctx : WorkHandlerContext) (input : SwarmNodeInput) (role_name role_definition : string)
    (children : list SwarmChildPlan) (t : SwarmNodeTrajectory) : DB (WorkOutcome * SwarmNodeTrajectory) :=
  let own_step := wir_step_id (wc_item (ctx_claim ctx)) in
  let steps := delegation_steps own_step input role_name children in
  r ← extend_twice (atr_goal_id (wc_attempt (ctx_claim ctx))) steps;
  match r with
  | Ok _ => mret (delegated_outcome own_step input (step_id <$> take (length children) steps), t)
  | Err _ => answer_outcome ctx input role_name role_definition None t
  end.

Definition execute_inner (ctx : WorkHandlerContext) (input : SwarmNodeInput) (t : SwarmNodeTrajectory)
    : DB (WorkOutcome * SwarmNodeTrajectory) :=
  let role_name := nonblank_or (ni_role_name input) "general" in
  let role_definition := nonblank_or (ni_role_definition input) GENERAL_DEFINITION in
  if bool_decide (ni_mode input = Some "aggregate") then aggregate_outcome ctx input role_name t
  else if depth_limit settings <=? ni_depth input then answer_outcome ctx input role_name role_definition (Some "") t
  else
    '(r, t) ← node_call ctx
      (build_swarm_planner_messages (ni_history input) (ni_task input) role_name role_definition (ni_depth input)
        (sg_max_depth settings)) true t;
    match r with
    | ModelTimeout => mret (swarm_node_outcome "" "timeout" input, t)
    | ModelFailure _ => answer_outcome ctx input role_name role_definition (Some "") t
    | ModelReply reply =>
        match node_plan reply with
        | (direct_answer, []) => answer_outcome ctx input role_name role_definition direct_answer t
        | (_, children) => delegate_node ctx input role_name role_definition children t
        end
    end.

Definition node_exit (outcome : WorkOutcome) : TrajectoryExitReason :=
  let status := upstream_status outcome in
  if String.eqb status "timeout" then TrajStore.ExitTimeout
  else if String.eqb status "failed" then ToolError else FinalAnswer.

Definition swarm_node_execute (ctx : WorkHandlerContext) : DB WorkOutcome :=
  input ← context "invalid swarm_node input"
    (match from_value (wir_input (wc_item (ctx_claim ctx))) with Ok i => Some i | Err _ => None end);
  let t := new_node_trajectory logger (ctx_claim ctx) input in
  start_node_trajectory t (default "swarm" node_model_name) ;;
  r ← catch (execute_inner ctx input t);
  match r with
  | Ok (outcome, t) => finish_node_trajectory t (evidence_str outcome "answer") (node_exit outcome) ;; mret outcome
  | Err e => finish_node_trajectory t None InternalError ;; throw e
  end.

(** The worker sees the loop store; the other stores are at hand while the handler runs,
    and what it records about its trajectory there is not followed further. *)
Definition within {A} (rest : HarnessDb) (m : DB A) : M Db A :=
  zoom (λ s, put_loop s rest) (λ h _, hd_loop h) m.

Definition swarm_node_handler (rest : HarnessDb) : WorkHandler :=
  {| wh_name := SWARM_NODE_DURABLE_HANDLER; wh_effect_class := LocalWrite; wh_retryable := λ _, true;
     wh_replay_safe := true; wh_execute := λ ctx, within rest (swarm_node_execute ctx) |}.
End durable.

(** ** The run *)

(** An attempt to send a reply: whether it was reported as sent, and the calls it made. *)
Record attempt_to_send : Type := { at_message : sent; at_ok : bool; at_calls : list TgCall }.

(** A run with the Telegram side of the process, and the attempts so far. *)
Record ServiceState `{ENV : LoopEnv} : Type := {
  sv_swarm : SwarmState;
  sv_telegram : Telegram;
  sv_attempts : list attempt_to_send
}.

Section service.
  Context `{ENV : LoopEnv} `{DT : DateTimes} `{JP : !JsonParse} `{SLJ : Serialize (list json)} `{NP : NodeProvider}.
  Context `{SP : SwarmProvider} `{MP : MarkdownParser} `{API : TelegramApi}.
  Context `{FP : !FromValue SwarmNodePlanEnvelope} `{FI : !FromValue SwarmNodeInput}.
  Context `{FD : !FromValue SwarmActivationDecision}.

Abbreviation DB := (M SwarmState).

(** The concurrent workers, as far as they get before the synchronous window closes. *)
Context (drive : LoopWorker → string → nat → nat → DB (option (res ResumeReport))).

(** The configuration of the service; the sender is [ChannelOutboundSender::with_telegram]. *)
Context (eng : option LoopEngine) (settings : AgentSwarmSettings) (logger : option TrajectoryLogger).
Context (has_sender : bool).

Definition item_mode (item : WorkItemRecord) : option string := json_get (wir_input item) "mode" ≫= json_as_str.

(** [outcome_for]: the outcome of a step of the goal. *)
Definition outcome_for (report : ResumeReport) (sid : string) : DB (option WorkOutcome) :=
  match List.find (λ i, String.eqb (wir_step_id i) sid) (rr_work_items report) with
  | Some item => r ← attempt (engine (work_item_outcome (wir_id item))); mret (mjoin r)
  | None => mret None
  end.

Definition root_outcome (report : ResumeReport) (run_id : string) : DB (option WorkOutcome) :=
  aggregate ← outcome_for report (run_id +:+ ":1.agg");
  match aggregate with
  | Some outcome => mret (Some outcome)
  | None => outcome_for report (run_id +:+ ":1")
  end.

(** The text of a root outcome: its answer, or its summary. *)
Definition outcome_text (outcome : WorkOutcome) : string :=
  match evidence_str outcome "answer" with
  | Some answer => if is_blank answer then out_summary outcome else answer
  | None => out_summary outcome
  end.

(** The node row of a work item; aggregates have none. *)
Definition mirror_item (run_id channel : string) (item : WorkItemRecord) : option UpsertAgentSwarmNodeRequest :=
  match from_value (wir_input item) with
  | Err _ => None
  | Ok input =>
      if bool_decide (ni_mode input = Some "aggregate") then None
      else Some
        {| un_agent_id := wir_step_id item; un_run_id := run_id; un_channel := channel;
           un_parent_agent_id := ni_parent_step_id input; un_depth := ni_depth input;
           un_nickname := default (default_swarm_nickname (default "" (ni_role_name input))
                                     (S (N.to_nat (wir_ordinal item)))) (ni_nickname input);
           un_role_name := default "general" (ni_role_name input);
           un_role_definition := default GENERAL_DEFINITION (ni_role_definition input);
           un_task := ni_task input; un_state := NodeExited;
           un_exit_status := Some match wir_status item with
                                  | WSucceeded => ExitSuccess | WFailed => ExitFailed | _ => ExitSkipped end;
           un_summary := None; un_error := None; un_started_at := wir_created_at item;
           un_finished_at := Some (wir_created_at item) |}
  end.

Definition mirror_durable_swarm_audit (run_id channel : string) (report : ResumeReport) : DB unit :=
  foreach (rr_work_items report) (λ item,
    match mirror_item run_id channel item with
    | Some req => ignore_error (on_audit (upsert_agent_swarm_node req))
    | None => mret tt
    end).

(** What an item adds to the counters. *)
Definition count_item (item : WorkItemRecord) : DB unit :=
  if bool_decide (item_mode item = Some "aggregate") then mret tt
  else
    count (add_counts 1 0 0 0 0 0) ;;
    match wir_status item with
    | WSucceeded =>
        outcome ← attempt (engine (work_item_outcome (wir_id item)));
        let status := default "success" (mjoin outcome ≫= λ o, evidence_str o "status") in
        count (if String.eqb status "timeout" then add_counts 0 0 0 1 1 0
               else if String.eqb status "failed" then add_counts 0 0 0 1 0 0
               else if String.eqb status "partial" then add_counts 0 0 1 0 0 0
               else add_counts 0 1 0 0 0 0)
    | WFailed => count (add_counts 0 0 0 1 0 0)
    | _ => count (add_counts 0 0 0 0 0 1)
    end.

Definition run_timeout_ms : N := N.max 1 (sg_max_run_timeout_ms settings).
Definition sync_cap_ms : N := N.min run_timeout_ms (N.max 1 (sg_reply_sync_wait_ms settings)).

Definition max_rounds : nat := Nat.min 128 (agent_limit settings * 2 + 8).
Definition parallel : nat := Nat.max 1 (sg_max_parallel settings).

Definition run_result : Type := option string * AgentSwarmRunStatus * option string.

Definition failed_run (error : string) : run_result := (None, RunFailed, Some error).

Definition DEFERRED_ACK : string := "多智能体任务仍在后台运行，完成后我会把结果发给你。".
Definition BACKGROUND_ACK : string := "多智能体任务仍在后台运行。".
Definition NOTHING_TO_DELIVER : string := "多智能体任务结束，但没有产出可送达的结果。".

(** The worker of a run. *)
Definition swarm_worker (self : LoopEngine) (rest : HarnessDb) (run_id : string) : res LoopWorker :=
  let '(r, registry) := register (empty_registry ∅) (swarm_node_handler self settings logger rest) in
  match r with
  | Err e => Err ("handler registration failed: " +:+ e)
  | Ok _ =>
      match with_registry self registry ("swarm:" +:+ run_id) (node_lease_secs settings) with
      | Err e => Err ("worker setup failed: " +:+ e)
      | Ok worker => Ok worker
      end
  end.

(** What follows once the workers stopped or the window closed. *)
Definition conclude_durable (run_id channel goal_id : string) (run_error : option string) (deferred : bool)
    : DB run_result :=
  r ← catch (engine (engine_resume_goal goal_id SWARM_LOOP_ACTOR));
  match r with
  | Err e => mret (failed_run ("resume failed: " +:+ e))
  | Ok report =>
      root ← root_outcome report run_id;
      mirror_durable_swarm_audit run_id channel report ;;
      foreach (rr_work_items report) count_item ;;
      s ← get_db;
      let c := ss_counts s in
      let degraded := is_some run_error || (0 <? sc_failed c) || (0 <? sc_partial c) || (0 <? sc_skipped c) in
      match outcome_text <$> root with
      | None =>
          if deferred then
            let can_deliver := has_sender && supports_channel true channel in
            (if can_deliver then ignore_error (on_audit (set_swarm_run_awaiting_reply channel run_id true))
             else mret tt) ;;
            mret (Some (if can_deliver then DEFERRED_ACK else BACKGROUND_ACK), RunRunning, None)
          else mret (None, RunFailed, run_error)
      | Some text => mret (Some text, if degraded then RunPartial else RunCompleted, run_error)
      end
  end.

Definition run_swarm_durable (run_id channel goal_id : string) : DB run_result :=
  match eng with
  | None => mret (failed_run "loop engine not configured")
  | Some self =>
      s ← get_db;
      match swarm_worker self (ss_harness s) run_id with
      | Err e => mret (failed_run e)
      | Ok worker =>
          r ← drive worker goal_id parallel max_rounds;
          let '(run_error, deferred) :=
            match r with
            | Some (Ok _) => (None, false)
            | Some (Err e) => (Some ("goal run failed: " +:+ e), false)
            | None => if (run_timeout_ms <=? sync_cap_ms)%N then (Some RUN_CUT, false) else (None, true)
            end in
          conclude_durable run_id channel goal_id run_error deferred
      end
  end.

(** ** Answering a message *)

(** [SwarmExecutionShared] with fresh counters and permits. *)
Definition fresh_shared : DB unit :=
  s ← get_db;
  put_db {| ss_harness := ss_harness s; ss_audit := ss_audit s; ss_counts := no_counts; ss_permits := parallel;
            ss_calls := ss_calls s |}.

Definition audit_horizon (finished_at : Z) : Z :=
  let keep := i64_saturating_mul (Z.of_N (sg_audit_retention_days settings)) 86400 in
  i64_saturating_add finished_at (- Z.max 0 keep).

(** The part of [try_swarm_reply] behind the run. *)
Definition close_run (run : SwarmRun) (channel : string) (result : run_result) : DB (option string) :=
  let '(reply_text, status, error) := result in
  finished_at ← unix_now;
  (if bool_decide (status = RunRunning) then mret tt
   else ignore_error (on_audit (finish_agent_swarm_run channel (sr_run_id run) status finished_at error))) ;;
  finish_swarm_loop_projection run ;;
  (if (0 <? sg_audit_retention_days settings)%N
   then ignore_error (on_audit (cleanup_agent_swarm_audit channel (audit_horizon finished_at))) else mret tt) ;;
  s ← get_db;
  mret match reply_text with
       | None => None
       | Some text => Some (if sg_reply_summary_enabled settings
                            then text +:+ build_swarm_summary_suffix (sr_run_id run) (ss_counts s) else text)
       end.

Definition try_swarm_reply (incoming : IncomingMessage) (history : list StoredMessage) : DB (option string) :=
  if negb (sg_enabled settings) || (im_is_group_chat incoming && negb (sg_group_enabled settings)) then mret None
  else
    should_swarm ← (if sg_auto_detect settings then detect_swarm_activation (im_text incoming) history else mret true);
    if negb should_swarm then mret None
    else
      run_id ← next_swarm_run_id;
      started_at ← unix_now;
      on_audit (create_agent_swarm_run
        {| cw_run_id := run_id; cw_channel := im_channel incoming; cw_session_id := im_session_id incoming;
           cw_user_id := im_user_id incoming; cw_root_task := im_text incoming; cw_status := RunRunning;
           cw_started_at := started_at |}) ;;
      goal ← start_swarm_loop_projection eng settings run_id (im_text incoming) history incoming;
      fresh_shared ;;
      let run := {| sr_run_id := run_id; sr_channel := im_channel incoming; sr_settings := settings;
                    sr_engine := eng; sr_goal := goal |} in
      result ← (match goal with
                | Some goal_id =>
                    if sg_durable_engine settings then
                      r ← catch (run_swarm_durable run_id (im_channel incoming) goal_id);
                      mret match r with Ok v => v | Err _ => failed_run RUN_CUT end
                    else run_in_process run (im_text incoming) history
                | None => run_in_process run (im_text incoming) history
                end);
      close_run run (im_channel incoming) result.

(** ** The janitor *)

Abbreviation SV := (M ServiceState).

Definition on_swarm {A} : DB A → SV A :=
  zoom sv_swarm (λ s v, {| sv_swarm := s; sv_telegram := sv_telegram v; sv_attempts := sv_attempts v |}).

Definition on_telegram {A} : M Telegram A → SV A :=
  zoom sv_telegram (λ t v, {| sv_swarm := sv_swarm v; sv_telegram := t; sv_attempts := sv_attempts v |}).

(** [sender.send]; the attempt is noted with the calls it made. *)
Definition send_reply (m : sent) : SV (res Z) :=
  v ← get_db;
  r ← catch (on_telegram (channel_outbound_send true (st_channel m) (st_session m) (st_text m)));
  v' ← get_db;
  put_db {| sv_swarm := sv_swarm v'; sv_telegram := sv_telegram v';
            sv_attempts := sv_attempts v' ++
              [{| at_message := m; at_ok := is_ok r;
                  at_calls := drop (length (tg_calls (sv_telegram v))) (tg_calls (sv_telegram v')) |}] |} ;;
  mret r.

(** The goal of a run, once it has reached an end. *)
Definition terminal_goal (run_id : string) : DB (option GoalRecord) :=
  r ← attempt (engine (get_goal_by_request_id ("swarm:" +:+ run_id)));
  mret match mjoin r with
       | Some goal => if is_terminal (gr_status goal) then Some goal else None
       | None => None
       end.

(** A turn of the first loop of [reap_orphaned_swarm_runs]: 1 if the run was closed. *)
Definition reap_run (row : AgentSwarmRunRecord) : DB nat :=
  let run := rn_run row in
  goal ← terminal_goal (sw_run_id run);
  match goal with
  | None => mret 0
  | Some goal =>
      r ← catch (engine (engine_resume_goal (gr_id goal) SWARM_LOOP_ACTOR));
      match r with
      | Err _ => mret 0
      | Ok report =>
          mirror_durable_swarm_audit (sw_run_id run) (sw_channel run) report ;;
          now ← unix_now;
          let achieved := bool_decide (gr_status goal = Achieved) in
          ignore_error (on_audit (finish_agent_swarm_run (sw_channel run) (sw_run_id run)
            (if achieved then RunCompleted else RunFailed) now
            (if achieved then None else Some ("process restart: goal " +:+ goal_status_as_str (gr_status goal))))) ;;
          mret 1
      end
  end.

Fixpoint reap_runs (rows : list AgentSwarmRunRecord) : DB nat :=
  match rows with
  | [] => mret 0
  | row :: rest => n ← reap_run row; m ← reap_runs rest; mret (n + m)
  end.

Definition delivery_signal (run : swarm_run_row) (error : string) : CreateSignalRequest :=
  {| cs_kind := KManual; cs_trust := TInternal; cs_source := "internal:swarm-deliver";
     cs_external_id := Some ("swarm-deliver:" +:+ sw_run_id run);
     cs_content := "swarm run " +:+ sw_run_id run +:+ ": deferred reply delivery failed on channel " +:+
       sw_channel run +:+ ": " +:+ error;
     cs_metadata := [("channel", sw_channel run); ("run_id", sw_run_id run)] |}.

Definition settle_reply (run : swarm_run_row) : SV unit :=
  ignore_error (on_swarm (on_audit (set_swarm_run_awaiting_reply (sw_channel run) (sw_run_id run) false))).

(** A turn of the second loop. *)
Definition deliver_reply (row : AgentSwarmRunRecord) : SV unit :=
  let run := rn_run row in
  goal ← on_swarm (terminal_goal (sw_run_id run));
  match goal with
  | None => mret tt
  | Some goal =>
      if negb (supports_channel true (sw_channel run)) then settle_reply run
      else
        r ← catch (on_swarm (engine (engine_resume_goal (gr_id goal) SWARM_LOOP_ACTOR)));
        match r with
        | Err _ => mret tt
        | Ok report =>
            outcome ← on_swarm (root_outcome report (sw_run_id run));
            let text := match outcome_text <$> outcome with
                        | Some answer => if bool_decide (gr_status goal = Achieved) then answer else NOTHING_TO_DELIVER
                        | None => NOTHING_TO_DELIVER
                        end in
            delivered ← send_reply {| st_channel := sw_channel run; st_session := sw_session_id run; st_text := text;
                                      st_key := "swarm-reply:" +:+ sw_run_id run |};
            match delivered with
            | Ok _ => settle_reply run
            | Err error =>
                ignore_error (on_swarm (engine (engine_ingest_signal (delivery_signal run error) "internal:swarm")))
            end
        end
  end.

Definition reap_orphaned_swarm_runs : SV nat :=
  match eng with
  | None => mret 0
  | Some _ =>
      reaped ← on_swarm (rows ← on_audit (list_running_agent_swarm_runs 32); reap_runs rows);
      (if has_sender then
         rows ← on_swarm (on_audit (list_awaiting_reply_swarm_runs 32));
         foreach rows deliver_reply
       else mret tt) ;;
      mret reaped
  end.
End service.
