(* ===== verification/EvoEngine.v ===== *)
(** * The evolution engine: evaluation and deployment

    [EvolutionEngine] of src/harness/evolution.rs: the candidates it creates, the shadow
    evaluations it runs at once or step by step, and the approvals, activations and
    rollbacks it makes for an operator.  Its state is the store, the policy it serves and
    the status of the last cycle. *)

From S2P Require Import Prelude Text Messages External Verifier Domain Tables MemBase Floats.
From S2P Require Import TrajStore EvoDomain EvoStore Harness.

(** ** The engine and its state *)

(** What is fixed when the engine is built. *)
Record EvolutionEngine : Type := {
  en_gate_config : EvolutionGateConfig;
  en_benchmark_suite : option EvolutionBenchmarkSuite;
  en_max_source_trajectories : nat;
  en_max_evidence_chars : nat;
  en_has_harness_store : bool
}.

Record EvolutionCycleStatus : Type := {
  cy_running : bool;
  cy_last_started_at : option Z;
  cy_last_finished_at : option Z;
  cy_last_candidate_id : option string;
  cy_last_outcome : option string;
  cy_last_skip_reason : option string;
  cy_last_error : option string
}.

Definition idle_cycle : EvolutionCycleStatus :=
  {| cy_running := false; cy_last_started_at := None; cy_last_finished_at := None;
     cy_last_candidate_id := None; cy_last_outcome := None; cy_last_skip_reason := None;
     cy_last_error := None |}.

Record EngineState `{ENV : LoopEnv} : Type := {
  eg_store : HarnessDb;
  eg_policy : option ActiveEvolutionPolicy;
  eg_cycle : EvolutionCycleStatus
}.

(** The chat provider: its reply to a request, JSON or not, at a moment; whether the timer
    of a deadline goes off first; and its model. *)
Class EvolutionProvider : Type := {
  ep_complete : nat → bool → list StoredMessage → res string;
  ep_times_out : nat → Z → bool;
  ep_model_name : option string
}.

Inductive EvalStepOutcome : Type :=
| EvalProgress (completed_cases total_cases : nat) (response_bytes : N)
| EvalCompleted (evaluation : evaluation_row) (response_bytes : N).

Record ShadowEvalOutputs : Type := {
  so_baseline_outputs : gmap string string;
  so_candidate_outputs : gmap string string;
  so_baseline_candidate_id : option string;
  so_response_bytes : N
}.

(** [usize::checked_add] and [usize::MAX]. *)
Definition usize_max : N := 2 ^ 64 - 1.

Definition checked_add_usize (a b : N) : option N :=
  if (a + b <=? usize_max)%N then Some (a + b)%N else None.

Section engine.
  Context `{ENV : LoopEnv} `{DT : DateTimes} `{SER : Serialize edetails} `{FT : FloatText} `{HB : HourBucket}.
  Context `{JP : !JsonParse} `{EP : EvolutionProvider}.

Abbreviation DB := (M EngineState).

Definition put_store (h : HarnessDb) (s : EngineState) : EngineState :=
  {| eg_store := h; eg_policy := eg_policy s; eg_cycle := eg_cycle s |}.

Definition on_store {A} : M HarnessDb A → DB A := zoom eg_store put_store.

Definition store {A} (m : M EvoDb A) : DB A := on_store (on_evo m).

(** ** Construction *)

(** [EvolutionEngine::new]: the policy it will serve is the stored one. *)
Definition new_engine (gate_config : EvolutionGateConfig)
    : M HarnessDb (EvolutionEngine * option ActiveEvolutionPolicy) :=
  lift_res (validate_gate gate_config) ;;
  active ← on_evo active_policy;
  mret ({| en_gate_config := gate_config; en_benchmark_suite := None; en_max_source_trajectories := 20;
           en_max_evidence_chars := N.to_nat 8000; en_has_harness_store := false |}, active).

Definition with_harness_store (self : EvolutionEngine) : EvolutionEngine :=
  {| en_gate_config := en_gate_config self; en_benchmark_suite := en_benchmark_suite self;
     en_max_source_trajectories := en_max_source_trajectories self;
     en_max_evidence_chars := en_max_evidence_chars self; en_has_harness_store := true |}.

Definition with_benchmark_suite (suite : EvolutionBenchmarkSuite) (self : EvolutionEngine)
    : res EvolutionEngine :=
  validate_suite suite ;;
  Ok {| en_gate_config := en_gate_config self; en_benchmark_suite := Some suite;
        en_max_source_trajectories := en_max_source_trajectories self;
        en_max_evidence_chars := en_max_evidence_chars self;
        en_has_harness_store := en_has_harness_store self |}.

Definition with_evidence_limits (max_source_trajectories max_evidence_chars : nat)
    (self : EvolutionEngine) : EvolutionEngine :=
  {| en_gate_config := en_gate_config self; en_benchmark_suite := en_benchmark_suite self;
     en_max_source_trajectories := Nat.min (Nat.max max_source_trajectories 1) 100;
     en_max_evidence_chars := Nat.min (Nat.max max_evidence_chars 512) (N.to_nat 32000);
     en_has_harness_store := en_has_harness_store self |}.

(** [policy_runtime.active()] and [replace]. *)
Definition runtime_active : DB (option ActiveEvolutionPolicy) := s ← get_db; mret (eg_policy s).

Definition runtime_replace (policy : option ActiveEvolutionPolicy) : DB unit :=
  s ← get_db;
  put_db {| eg_store := eg_store s; eg_policy := policy; eg_cycle := eg_cycle s |}.

Definition require_human_actor (self : EvolutionEngine) (actor : EvolutionActor) : DB unit :=
  ensure (negb (gc_require_human_approval (en_gate_config self) && negb (is_human actor)))
    "a human actor is required by the evolution promotion policy".

(** ** Cases, feedback, candidates *)

Definition engine_upsert_eval_case (eval_case : EvolutionEvalCase) (actor : EvolutionActor) : DB unit :=
  label ← lift_res (audit_label actor);
  store (upsert_eval_case eval_case label).

Definition engine_record_feedback (draft : EvolutionFeedbackDraft) (actor : EvolutionActor)
    : DB feedback_row :=
  label ← lift_res (audit_label actor);
  on_store (record_feedback draft label).

Definition some_text (l : list string) : bool := existsb (λ v, negb (is_blank v)) l.

Definition seed_eval_case_from_trajectory (self : EvolutionEngine) (trajectory_id name : string)
    (input_override : option string) (assertions : EvolutionCaseAssertions) (weight : f64)
    (actor : EvolutionActor) : DB EvolutionEvalCase :=
  ensure (is_human actor) "seeding an eval case requires a human actor" ;;
  label ← lift_res (audit_label actor);
  ensure (en_has_harness_store self) "eval-case seeding requires a harness store" ;;
  trajectory ← on_store (on_traj (get_trajectory trajectory_id));
  ensure (match trajectory with Some _ => true | None => false end)
    ("trajectory '" +:+ trajectory_id +:+ "' does not exist") ;;
  input ← match input_override with
    | Some value =>
        if is_blank value then
          input ← on_store (trajectory_first_user_input trajectory_id);
          context "trajectory has no captured request frame; supply an explicit input" input
        else mret (trim value)
    | None =>
        input ← on_store (trajectory_first_user_input trajectory_id);
        context "trajectory has no captured request frame; supply an explicit input" input
    end;
  ensure (ea_require_json assertions ||
          match ea_max_output_chars assertions with Some _ => true | None => false end ||
          some_text (ea_required_substrings assertions) || some_text (ea_forbidden_substrings assertions))
    "seeded eval case needs at least one assertion" ;;
  id ← new_evolution_id "evcase";
  let eval_case := {| ec_id := id; ec_name := trim name; ec_input := input; ec_assertions := assertions;
                      ec_weight := weight; ec_enabled := false |} in
  lift_res (validate_case eval_case) ;;
  store (upsert_eval_case eval_case label) ;;
  store (record_audit_event None None "eval_case_seeded" label
    [("eval_case_id", EStr id); ("trajectory_id", EStr trajectory_id); ("name", EStr (trim name))]) ;;
  mret eval_case.

(** [sort] then [dedup]. *)
Fixpoint dedup (l : list string) : list string :=
  match l with
  | x :: (y :: _) as l' => if String.eqb x y then dedup l' else x :: dedup l'
  | _ => l
  end.

Definition cleaned_sources (ids : list string) : list string :=
  dedup (order_by String.leb (List.filter (λ id, negb (String.eqb id "")) (trim <$> ids))).

Definition create_candidate_with_fingerprint (self : EvolutionEngine) (prompt_patch rationale : string)
    (source_trajectory_ids : list string) (evidence_fingerprint : option string)
    (actor : EvolutionActor) : DB EvolutionCandidateRecord :=
  label ← lift_res (audit_label actor);
  active ← runtime_active;
  let source_trajectory_ids := cleaned_sources source_trajectory_ids in
  ensure (negb (en_max_source_trajectories self <? length source_trajectory_ids))
    "candidate source trajectories exceed the configured limit" ;;
  id ← new_evolution_id "candidate";
  patch ← lift_res (new_prompt_patch prompt_patch (gc_max_prompt_patch_chars (en_gate_config self)));
  store (create_candidate
    {| cd_id := id; cd_parent_candidate_id := ap_candidate_id <$> active;
       cd_evidence_fingerprint := evidence_fingerprint; cd_prompt_patch := patch;
       cd_rationale := rationale; cd_source_trajectory_ids := source_trajectory_ids |} label).

Definition engine_create_candidate (self : EvolutionEngine) (prompt_patch rationale : string)
    (source_trajectory_ids : list string) (actor : EvolutionActor) : DB EvolutionCandidateRecord :=
  create_candidate_with_fingerprint self prompt_patch rationale source_trajectory_ids None actor.

(** ** Shadow completions *)

Definition policy_parts : Type := option (string * string * PromptPatch).

Definition shadow_messages (eval_case : EvolutionEvalCase) (policy : policy_parts) : list StoredMessage :=
  match policy with
  | Some (candidate_id, deployment_id, prompt_patch) =>
      [{| role := System; content := render_evolution_policy_message candidate_id deployment_id prompt_patch |}]
  | None => []
  end ++ [{| role := User; content := ec_input eval_case |}].

Definition shadow_complete_with_deadline (eval_case : EvolutionEvalCase) (policy : policy_parts)
    (deadline : option Z) : DB string :=
  n ← tick;
  ensure (match deadline with Some at_ => negb (ep_times_out n at_) | None => true end)
    "evolution evaluation deadline exceeded" ;;
  lift_res (ep_complete n false (shadow_messages eval_case policy)).

(** One completion with its share of the byte budget. *)
Definition counted_complete (eval_case : EvolutionEvalCase) (policy : policy_parts) (deadline : option Z)
    (failure : string) (max_response_bytes response_bytes : N) : DB (string * N) :=
  output ← wrap_error failure (shadow_complete_with_deadline eval_case policy deadline);
  response_bytes ← context "evolution response byte count overflowed"
    (checked_add_usize response_bytes (N.of_nat (String.length output)));
  ensure (response_bytes <=? max_response_bytes)%N "evolution response byte budget exceeded" ;;
  mret (output, response_bytes).

Definition shadow_policy (candidate : EvolutionCandidateRecord) : policy_parts :=
  Some (cn_id candidate, "shadow-evaluation", cn_prompt_patch candidate).

Definition active_parts (active : option ActiveEvolutionPolicy) : policy_parts :=
  (λ p, (ap_candidate_id p, ap_deployment_id p, ap_prompt_patch p)) <$> active.

(** Both completions of a case. *)
Definition complete_case (eval_case : EvolutionEvalCase) (baseline : policy_parts)
    (candidate : EvolutionCandidateRecord) (deadline : option Z) (max_response_bytes response_bytes : N)
    : DB (string * string * N) :=
  '(baseline, response_bytes) ← counted_complete eval_case baseline deadline
    ("baseline eval case '" +:+ ec_id eval_case +:+ "' failed") max_response_bytes response_bytes;
  '(candidate_output, response_bytes) ← counted_complete eval_case (shadow_policy candidate) deadline
    ("candidate eval case '" +:+ ec_id eval_case +:+ "' failed") max_response_bytes response_bytes;
  mret (baseline, candidate_output, response_bytes).

(** ** Evaluation *)

Definition engine_actor : string := "system:evolution-engine".

Definition suite_cases (self : EvolutionEngine) : list EvolutionEvalCase :=
  match en_benchmark_suite self with Some suite => bs_cases suite | None => [] end.

(** No benchmark case carries the id of an operator's case. *)
Definition check_collisions (self : EvolutionEngine) (cases : list EvolutionEvalCase) : DB unit :=
  foreach (suite_cases self) (λ bench_case,
    ensure (negb (existsb (λ c, String.eqb (ec_id c) (ec_id bench_case)) cases))
      ("benchmark case id '" +:+ ec_id bench_case +:+ "' collides with an operator eval case")).

(** Records the evaluation of the collected outputs and moves the candidate on. *)
Definition finalize_shadow_evaluation (self : EvolutionEngine) (candidate : EvolutionCandidateRecord)
    (cases : list EvolutionEvalCase) (benchmark_suite : option EvolutionBenchmarkSuite)
    (outputs : ShadowEvalOutputs) : DB (evaluation_row * N) :=
  scorecard ← lift_res (score_with_benchmark cases benchmark_suite (so_baseline_outputs outputs)
                          (so_candidate_outputs outputs));
  let decision := decide_promotion (en_gate_config self) scorecard in
  id ← new_evolution_id "evaluation";
  evaluation ← store (record_evaluation
    {| vd_id := id; vd_candidate_id := cn_id candidate;
       vd_baseline_candidate_id := so_baseline_candidate_id outputs; vd_scorecard := scorecard;
       vd_decision := decision; vd_gate_config := en_gate_config self |});
  let '(next, details) := match decision with
    | DecisionReady =>
        (CandReady, [("evaluation_id", EStr (va_id evaluation));
                     ("candidate_score", EF64 (es_candidate_score (va_scorecard evaluation)));
                     ("score_delta", EF64 (es_score_delta (va_scorecard evaluation)))])
    | DecisionRejected reasons =>
        (CandRejected, [("evaluation_id", EStr (va_id evaluation)); ("reasons", EStrs reasons)])
    end in
  store (transition_candidate (cn_id candidate) CandEvaluating next engine_actor details) ;;
  mret (evaluation, so_response_bytes outputs).

(** The loop over all cases: outputs by case id and bytes spent. *)
Fixpoint collect_outputs (cases : list EvolutionEvalCase) (baseline : policy_parts)
    (candidate : EvolutionCandidateRecord) (deadline : option Z) (max_response_bytes : N)
    (baseline_outputs candidate_outputs : gmap string string) (response_bytes : N)
    : DB (gmap string string * gmap string string * N) :=
  match cases with
  | [] => mret (baseline_outputs, candidate_outputs, response_bytes)
  | case :: cases' =>
      '(base, cand, response_bytes) ← complete_case case baseline candidate deadline max_response_bytes response_bytes;
      collect_outputs cases' baseline candidate deadline max_response_bytes
        (<[ec_id case := base]> baseline_outputs) (<[ec_id case := cand]> candidate_outputs) response_bytes
  end.

Definition evaluate_candidate_inner (self : EvolutionEngine) (candidate : EvolutionCandidateRecord)
    (max_response_bytes : N) (deadline : option Z) : DB (evaluation_row * N) :=
  cases ← store (list_eval_cases true);
  check_collisions self cases ;;
  active ← runtime_active;
  '(baseline_outputs, candidate_outputs, response_bytes) ←
    collect_outputs (cases ++ suite_cases self) (active_parts active) candidate deadline
      max_response_bytes ∅ ∅ 0;
  finalize_shadow_evaluation self candidate cases (en_benchmark_suite self)
    {| so_baseline_outputs := baseline_outputs; so_candidate_outputs := candidate_outputs;
       so_baseline_candidate_id := ap_candidate_id <$> active; so_response_bytes := response_bytes |}.

Definition evaluable (candidate_id : string) (status : EvolutionCandidateStatus) : DB unit :=
  ensure (negb (bool_decide (status = CandEvaluating)))
    ("candidate '" +:+ candidate_id +:+ "' cannot be evaluated from status '" +:+
     candidate_status_as_str status +:+ "'").

Definition existing_candidate (candidate_id : string) : DB EvolutionCandidateRecord :=
  candidate ← store (get_candidate candidate_id);
  context ("evolution candidate '" +:+ candidate_id +:+ "' does not exist") candidate.

(** The engine's evaluation lock is held throughout. *)
Definition evaluate_candidate_with_limit (self : EvolutionEngine) (candidate_id : string)
    (max_response_bytes : N) (deadline : option Z) : DB (evaluation_row * N) :=
  candidate ← existing_candidate candidate_id;
  evaluable candidate_id (cn_status candidate) ;;
  store (transition_candidate candidate_id (cn_status candidate) CandEvaluating engine_actor
    [("model", EOpt ep_model_name)]) ;;
  result ← catch (evaluate_candidate_inner self candidate max_response_bytes deadline);
  match result with
  | Ok evaluation => mret evaluation
  | Err err =>
      ignore_error (store (transition_candidate candidate_id CandEvaluating CandFailed engine_actor
        [("error", EStr "shadow_evaluation_failed"); ("retryable", EBool true)])) ;;
      throw err
  end.

Definition evaluate_candidate (self : EvolutionEngine) (candidate_id : string) : DB evaluation_row :=
  '(evaluation, _) ← evaluate_candidate_with_limit self candidate_id usize_max None;
  mret evaluation.

Definition evaluate_candidate_bounded_until (self : EvolutionEngine) (candidate_id : string)
    (max_response_bytes : N) (deadline : option Z) : DB (evaluation_row * N) :=
  ensure (0 <? max_response_bytes)%N "evolution response byte budget must be positive" ;;
  evaluate_candidate_with_limit self candidate_id max_response_bytes deadline.

(** ** Evaluation step by step *)

(** The first step: the suite and the baseline are frozen in the cursor. *)
Definition start_eval_run (self : EvolutionEngine) (candidate_id : string) : DB EvolutionEvalRun :=
  candidate ← existing_candidate candidate_id;
  (if bool_decide (cn_status candidate = CandEvaluating) then
     store (transition_candidate candidate_id CandEvaluating CandFailed engine_actor
              [("error", EStr "stale evaluation reset")]) ;; mret tt
   else mret tt) ;;
  candidate ← (if bool_decide (cn_status candidate = CandEvaluating) then
                 again ← store (get_candidate candidate_id);
                 context "candidate disappeared mid-reset" again
               else mret candidate);
  evaluable candidate_id (cn_status candidate) ;;
  operator_cases ← store (list_eval_cases true);
  check_collisions self operator_cases ;;
  let all_cases := operator_cases ++ suite_cases self in
  ensure (negb (is_empty all_cases)) "evolution eval suite is empty" ;;
  active ← runtime_active;
  store (transition_candidate candidate_id (cn_status candidate) CandEvaluating engine_actor
    [("model", EOpt ep_model_name)]) ;;
  id ← new_evolution_id "evalrun";
  let run := {| ev_id := id; ev_candidate_id := candidate_id; ev_cases := all_cases;
                ev_benchmark_tail := length (suite_cases self); ev_baseline := active_parts active;
                ev_case_index := 0; ev_baseline_outputs := ∅; ev_candidate_outputs := ∅;
                ev_response_bytes := 0 |} in
  store (upsert_eval_run run) ;;
  mret run.

(** The cursor after one more case. *)
Definition advance_run (run : EvolutionEvalRun) (case : EvolutionEvalCase) (base cand : string)
    (response_bytes : N) : EvolutionEvalRun :=
  {| ev_id := ev_id run; ev_candidate_id := ev_candidate_id run; ev_cases := ev_cases run;
     ev_benchmark_tail := ev_benchmark_tail run; ev_baseline := ev_baseline run;
     ev_case_index := ev_case_index run + 1;
     ev_baseline_outputs := <[ec_id case := base]> (ev_baseline_outputs run);
     ev_candidate_outputs := <[ec_id case := cand]> (ev_candidate_outputs run);
     ev_response_bytes := response_bytes |}.

(** The suite of a cursor: its frozen cases under the label of the configured suite. *)
Definition frozen_suite (self : EvolutionEngine) (run : EvolutionEvalRun) : option EvolutionBenchmarkSuite :=
  if 0 <? ev_benchmark_tail run then
    (λ suite, {| bs_id := bs_id suite; bs_version := bs_version suite;
                 bs_cases := drop (length (ev_cases run) - ev_benchmark_tail run) (ev_cases run) |})
      <$> en_benchmark_suite self
  else None.

(** The last step: the outputs are scored and the cursor is cleared. *)
Definition finish_eval_run (self : EvolutionEngine) (candidate : EvolutionCandidateRecord)
    (candidate_id : string) (run : EvolutionEvalRun) : DB EvalStepOutcome :=
  '(evaluation, response_bytes) ← finalize_shadow_evaluation self candidate
    (take (length (ev_cases run) - ev_benchmark_tail run) (ev_cases run)) (frozen_suite self run)
    {| so_baseline_outputs := ev_baseline_outputs run; so_candidate_outputs := ev_candidate_outputs run;
       so_baseline_candidate_id := (λ p, p.1.1) <$> ev_baseline run;
       so_response_bytes := ev_response_bytes run |};
  store (clear_eval_run candidate_id) ;;
  mret (EvalCompleted evaluation response_bytes).

(** One step from a cursor. *)
Definition advance_eval_run (self : EvolutionEngine) (candidate_id : string)
    (max_response_bytes : N) (deadline : option Z) (run : EvolutionEvalRun) : DB EvalStepOutcome :=
  candidate ← existing_candidate candidate_id;
  case ← context "eval run case index out of range" (ev_cases run !! ev_case_index run);
  '(base, cand, response_bytes) ←
    complete_case case (ev_baseline run) candidate deadline max_response_bytes (ev_response_bytes run);
  let run := advance_run run case base cand response_bytes in
  if ev_case_index run <? length (ev_cases run) then
    store (upsert_eval_run run) ;;
    mret (EvalProgress (ev_case_index run) (length (ev_cases run)) (ev_response_bytes run))
  else finish_eval_run self candidate candidate_id run.

Definition run_evaluation_step (self : EvolutionEngine) (candidate_id : string)
    (max_response_bytes : N) (deadline : option Z) : DB EvalStepOutcome :=
  ensure (0 <? max_response_bytes)%N "evolution response byte budget must be positive" ;;
  cursor ← store (get_eval_run candidate_id);
  run ← match cursor with Some run => mret run | None => start_eval_run self candidate_id end;
  advance_eval_run self candidate_id max_response_bytes deadline run.

(** ** Decisions of the operator *)

Definition approve_candidate (self : EvolutionEngine) (candidate_id : string) (actor : EvolutionActor)
    (reason : string) : DB EvolutionCandidateRecord :=
  require_human_actor self actor ;;
  lift_res (validate_operator_reason "approval" reason) ;;
  latest ← store (latest_evaluation candidate_id);
  latest ← context ("candidate '" +:+ candidate_id +:+ "' has no evaluation") latest;
  ensure (decision_ready (va_decision latest))
    ("candidate '" +:+ candidate_id +:+ "' latest evaluation is not ready") ;;
  active ← runtime_active;
  ensure (bool_decide (va_baseline_candidate_id latest = ap_candidate_id <$> active))
    ("candidate '" +:+ candidate_id +:+
     "' was evaluated against a stale baseline; re-evaluate it before approval") ;;
  label ← lift_res (audit_label actor);
  store (transition_candidate candidate_id CandReady CandApproved label
    [("reason", EStr (trim reason)); ("evaluation_id", EStr (va_id latest))]).

Definition abandon_evaluation (self : EvolutionEngine) (candidate_id : string) (actor : EvolutionActor)
    (reason : string) : DB EvolutionCandidateRecord :=
  require_human_actor self actor ;;
  lift_res (validate_operator_reason "abandon" reason) ;;
  label ← lift_res (audit_label actor);
  store (transition_candidate candidate_id CandEvaluating CandFailed label
    [("reason", EStr (trim reason)); ("recovery", EStr "operator_abandoned_stale_evaluation")]).

Definition engine_activate_candidate (self : EvolutionEngine) (candidate_id : string)
    (actor : EvolutionActor) (reason : string) : DB deployment_row :=
  require_human_actor self actor ;;
  candidate ← existing_candidate candidate_id;
  label ← lift_res (audit_label actor);
  deployment ← store (activate_candidate candidate_id label reason);
  runtime_replace (Some {| ap_deployment_id := de_id deployment; ap_candidate_id := cn_id candidate;
                           ap_prompt_patch := cn_prompt_patch candidate |}) ;;
  mret deployment.

Definition engine_rollback_active (self : EvolutionEngine) (actor : EvolutionActor) (reason : string)
    : DB EvolutionRollbackResult :=
  require_human_actor self actor ;;
  label ← lift_res (audit_label actor);
  rollback ← store (rollback_active label reason);
  runtime_replace (rb_restored_policy rollback) ;;
  mret rollback.
End engine.
