(* ===== verification/EvoCycle.v ===== *)
(** * The evolution engine: proposals, outcome review, cycles

    The rest of [EvolutionEngine]: the evidence of failed runs from which a patch is
    proposed, the review of a deployment's outcome, and the cycle that reviews, proposes
    and evaluates.  A skipped cycle is an error of its own kind, here an outcome. *)

From S2P Require Import Prelude Text Strings Messages External Verifier Domain Tables MemBase Floats.
From S2P Require Import TrajStore EvoDomain EvoStore Harness EvoEngine.
From stdpp Require Import pretty.

Definition DEPLOYMENT_REVIEW_MIN_POST_SAMPLES : nat := 8.
Definition DEPLOYMENT_REVIEW_MAX_POST_SAMPLES : nat := 64.
Definition DEPLOYMENT_REVIEW_BASELINE_SAMPLES : nat := 32.
Definition DEPLOYMENT_REVIEW_REGRESSION_DROP : f64 := f64_of_Z 12.

(** [anyhow::Result] with [EvolutionCycleSkipped] told apart. *)
Inductive CycleOutcome (A : Type) : Type :=
| CycleDone (a : A)
| CycleSkipped (reason : string).
Arguments CycleDone {A} a.
Arguments CycleSkipped {A} reason.

(** ** Evidence *)

Record evidence_tool : Type := {
  et_server : string;
  et_tool : string;
  et_arguments : string;
  et_result : string
}.

Record evidence_run : Type := {
  ev_run_id : string;
  ev_run_channel : string;
  ev_run_model : string;
  ev_run_exit_reason : string;
  ev_run_score : option Z;
  ev_run_failed_tools : list evidence_tool;
  ev_run_feedback : list (f64 * list string * option string);
  ev_run_final_answer : option string
}.

Record evidence_candidate : Type := {
  ei_candidate_id : string;
  ei_status : string;
  ei_prompt_patch : string;
  ei_rationale : string
}.

Record evidence_rollback : Type := {
  eb_deployment_id : string;
  eb_candidate_id : string;
  eb_rolled_back_at : option Z;
  eb_rollback_reason : option string
}.

Record failure_evidence : Type := {
  fe_failed_runs : list evidence_run;
  fe_candidates : list evidence_candidate;
  fe_rollbacks : list evidence_rollback
}.

(** serde_json, at the types the engine prints and reads: the evidence object, a JSON
    value, one detail of an audit event, and a proposal with exactly its two fields. *)
Class EvolutionText `{JsonValue} : Type := {
  evidence_text : failure_evidence → string;
  json_text : json → string;
  detail_text : edetail → string;
  proposal_parse : string → res (string * string)
}.

Section cycle.
  Context `{ENV : LoopEnv} `{DT : DateTimes} `{SER : Serialize edetails} `{FT : FloatText} `{HB : HourBucket}.
  Context `{JP : !JsonParse} `{EP : EvolutionProvider} `{ET : !EvolutionText}.

Abbreviation DB := (M EngineState).

Definition trajectory_has_failure_signal (t : TrajectoryRecord) : bool :=
  negb (bool_decide (tj_exit_reason t = FinalAnswer)) ||
  existsb (λ c, negb (tc_ok c) || verification_failed c) (tj_tool_calls t) ||
  negb (answered (tj_final_answer t)).

Definition failed_tool (c : ToolCallRecord) : evidence_tool :=
  {| et_server := tc_server c; et_tool := tc_tool c;
     et_arguments := truncate_chars (json_text (tc_arguments c)) (N.to_nat 500);
     et_result := truncate_chars (json_text (tc_result c)) (N.to_nat 500) |}.

Definition feedback_of (id : string) (feedback : list feedback_row) : list feedback_row :=
  List.filter (λ f, String.eqb (fb_trajectory_id f) id) feedback.

Definition evidence_of_run (feedback : list feedback_row) (scores : gmap string Z) (t : TrajectoryRecord)
    : evidence_run :=
  {| ev_run_id := tj_id t; ev_run_channel := tj_channel t; ev_run_model := tj_model t;
     ev_run_exit_reason := exit_reason_as_str (tj_exit_reason t); ev_run_score := scores !! tj_id t;
     ev_run_failed_tools := failed_tool <$> List.filter (λ c, negb (tc_ok c)) (tj_tool_calls t);
     ev_run_feedback := (λ f, (fb_score f, fb_tags f, (λ c, truncate_chars c (N.to_nat 500)) <$> fb_comment f))
                          <$> feedback_of (tj_id t) feedback;
     ev_run_final_answer := (λ a, truncate_chars a (N.to_nat 500)) <$> tj_final_answer t |}.

Definition build_failure_evidence (trajectories : list TrajectoryRecord) (feedback : list feedback_row)
    (scores : gmap string Z) (prior_candidates : list evidence_candidate)
    (rollbacks : list evidence_rollback) (max_chars : nat) : string :=
  truncate_chars (evidence_text
    {| fe_failed_runs := evidence_of_run feedback scores <$> trajectories;
       fe_candidates := prior_candidates; fe_rollbacks := rollbacks |}) max_chars.

Definition evidence_fingerprint (evidence : string) : string := sha256_hex evidence.

Definition is_buried (c : EvolutionCandidateRecord) : bool :=
  match cn_status c with CandRejected | CandFailed => true | _ => false end.

Definition prior_candidate (c : EvolutionCandidateRecord) : evidence_candidate :=
  {| ei_candidate_id := cn_id c; ei_status := candidate_status_as_str (cn_status c);
     ei_prompt_patch := truncate_chars (pp_text (cn_prompt_patch c)) (N.to_nat 400);
     ei_rationale := truncate_chars (cn_rationale c) (N.to_nat 300) |}.

Definition rollback_evidence (d : deployment_row) : evidence_rollback :=
  {| eb_deployment_id := de_id d; eb_candidate_id := de_candidate_id d;
     eb_rolled_back_at := timestamp <$> de_rolled_back_at d;
     eb_rollback_reason := (λ r, truncate_chars r (N.to_nat 300)) <$> de_rollback_reason d |}.

(** ** Collecting failed runs *)

(** The keys of [feedback_by_trajectory], a [BTreeMap]. *)
Definition feedback_keys (feedback : list feedback_row) : list string :=
  order_by String.leb (remove_dups (fb_trajectory_id <$> feedback)).

(** The runs with negative feedback; the loop stops at the limit. *)
Fixpoint collect_flagged (limit : nat) (ids : list string) (failures : list TrajectoryRecord)
    : DB (list TrajectoryRecord) :=
  match ids with
  | [] => mret failures
  | id :: ids' =>
      if limit <=? length failures then mret failures
      else
        trajectory ← on_store (on_traj (get_trajectory id));
        collect_flagged limit ids' (failures ++ match trajectory with Some t => [t] | None => [] end)
  end.

(** [seen_trajectory_ids] holds the ids of the runs collected so far. *)
Fixpoint add_failed (limit : nat) (trajectories failures : list TrajectoryRecord) : list TrajectoryRecord :=
  match trajectories with
  | [] => failures
  | t :: rest =>
      if limit <=? length failures then failures
      else if trajectory_has_failure_signal t && negb (existsb (λ f, String.eqb (tj_id f) (tj_id t)) failures)
      then add_failed limit rest (failures ++ [t])
      else add_failed limit rest failures
  end.

Fixpoint collect_scores (failures : list TrajectoryRecord) (scores : gmap string Z)
    : DB (gmap string Z) :=
  match failures with
  | [] => mret scores
  | t :: rest =>
      card ← catch (on_store (on_traj (get_run_scorecard (tj_id t))));
      collect_scores rest
        match card with Ok (Some c) => <[tj_id t := sc_score c]> scores | _ => scores end
  end.

Definition any_trajectory (limit : nat) : TrajectoryFilter :=
  {| tf_session_id := None; tf_channel := None; tf_user_id := None; tf_exit_reason := None;
     tf_has_tool_errors := None; tf_limit := limit |}.

Definition by_id (a b : TrajectoryRecord) : bool := String.leb (tj_id a) (tj_id b).

(** The evidence of the latest failures, [None] when there are none. *)
Definition gather_evidence (self : EvolutionEngine) : DB (option (string * list string)) :=
  let limit := en_max_source_trajectories self in
  feedback ← on_store (list_feedback true (limit * 5));
  flagged ← collect_flagged limit (feedback_keys feedback) [];
  trajectories ← on_store (on_traj (query_trajectories (any_trajectory (limit * 5))));
  let failures := order_by by_id (add_failed limit trajectories flagged) in
  if is_empty failures then mret None
  else
    scores ← collect_scores failures ∅;
    candidates ← store (list_candidates 32);
    rollbacks ← store (list_recent_rollbacks 10);
    mret (Some (build_failure_evidence failures feedback scores
                  (prior_candidate <$> take 12 (List.filter is_buried candidates))
                  (rollback_evidence <$> rollbacks) (en_max_evidence_chars self),
                order_by String.leb (tj_id <$> failures))).

(** ** Proposing *)

Definition record_proposal_failure (fingerprint stage : string) : DB unit :=
  store (record_audit_event None None "proposal_failed" engine_actor
    [("evidence_fingerprint", EStr fingerprint); ("stage", EStr stage)]).

Definition proposal_instructions : string :=
  String.concat newline
    ["SELF_EVOLUTION_PROPOSAL_JSON";
     "Propose one bounded replacement system-prompt patch that addresses the observed failures.";
     "Return only JSON with schema: {" +:+ dquoted "prompt_patch" +:+ ":" +:+ dquoted "string" +:+ "," +:+
       dquoted "rationale" +:+ ":" +:+ dquoted "string" +:+ "}.";
     "Do not include MCP/code-mode control markers, secrets, tool permissions, or instructions to edit files.";
     "prior_interventions lists patches already rejected, failed, or rolled back; do not resurface the same approach."].

Definition proposal_messages (evidence : string) : list StoredMessage :=
  [{| role := System; content := proposal_instructions |}; {| role := User; content := evidence |}].

(** The provider's proposal; every failure is recorded with its stage. *)
Definition request_proposal (evidence fingerprint : string) : DB (string * string) :=
  n ← tick;
  match ep_complete n true (proposal_messages evidence) with
  | Err _ => record_proposal_failure fingerprint "provider" ;; throw "evolution proposal completion failed"
  | Ok reply =>
      if MAX_PROPOSAL_RESPONSE_CHARS <? chars_count reply then
        record_proposal_failure fingerprint "oversized_response" ;;
        throw "evolution proposal response exceeds 20000 characters"
      else
        match proposal_parse reply with
        | Err _ => record_proposal_failure fingerprint "invalid_response" ;;
                   throw "evolution proposal was not valid JSON"
        | Ok proposal => mret proposal
        end
  end.

Definition propose_from_trajectories (self : EvolutionEngine) : DB (CycleOutcome EvolutionCandidateRecord) :=
  ensure (en_has_harness_store self) "trajectory evidence source is not configured" ;;
  gathered ← gather_evidence self;
  match gathered with
  | None => mret (CycleSkipped "no failed trajectories are available for an evolution proposal")
  | Some (evidence, source_trajectory_ids) =>
      active ← runtime_active;
      let fingerprint := evidence_fingerprint evidence in
      existing ← store (find_candidate_by_evidence fingerprint);
      match existing with
      | Some existing =>
          if bool_decide (cn_status existing = CandDraft) then
            store (record_audit_event (Some (cn_id existing)) None "proposal_resumed" engine_actor
                     [("evidence_fingerprint", EStr fingerprint)]) ;;
            mret (CycleDone existing)
          else mret (CycleSkipped "no new failure evidence is available since the last evolution proposal")
      | None =>
          store (record_audit_event None None "proposal_started" engine_actor
            [("parent_candidate_id", EOpt (ap_candidate_id <$> active));
             ("evidence_fingerprint", EStr fingerprint);
             ("source_trajectory_ids", EStrs source_trajectory_ids)]) ;;
          '(prompt_patch, rationale) ← request_proposal evidence fingerprint;
          created ← catch (create_candidate_with_fingerprint self prompt_patch rationale
                             source_trajectory_ids (Some fingerprint) (SystemActor "evolution-engine"));
          match created with
          | Ok candidate => mret (CycleDone candidate)
          | Err err =>
              existing ← store (find_candidate_by_evidence fingerprint);
              match existing with
              | Some existing =>
                  store (record_audit_event (Some (cn_id existing)) None "proposal_deduplicated" engine_actor
                           [("evidence_fingerprint", EStr fingerprint)]) ;;
                  mret (CycleSkipped ("the failure evidence was claimed by candidate '" +:+ cn_id existing +:+ "'"))
              | None =>
                  record_proposal_failure fingerprint "candidate_validation_or_persistence" ;;
                  throw err
              end
          end
      end
  end.

(** ** The outcome of a deployment *)

Definition samples (since until : option Z) (ascending : bool) (limit : nat) : RunScorecardFilter :=
  {| rf_channel := None; rf_model := None; rf_since := since; rf_until := until; rf_min_score := None;
     rf_max_score := None; rf_ascending := ascending; rf_limit := limit |}.

Definition mean_score (cards : list RunScorecard) : f64 :=
  f64_div (f64_sum ((λ c, f64_of_Z (sc_score c)) <$> cards)) (f64_of_Z (Z.of_nat (length cards))).

Definition regression_details (d : deployment_row) (post baseline : list RunScorecard) : edetails :=
  [("baseline_mean_score", EF64 (mean_score baseline));
   ("baseline_samples", EInt (Z.of_nat (length baseline)));
   ("candidate_id", EStr (de_candidate_id d)); ("deployment_id", EStr (de_id d));
   ("post_mean_score", EF64 (mean_score post)); ("post_samples", EInt (Z.of_nat (length post)));
   ("regression_threshold", EF64 DEPLOYMENT_REVIEW_REGRESSION_DROP);
   ("score_drop", EF64 (f64_sub (mean_score baseline) (mean_score post)))].

Definition regression_signal (d : deployment_row) (post baseline : list RunScorecard) : CreateSignalRequest :=
  {| cs_kind := KDeploymentOutcome; cs_trust := TInternal; cs_source := "evolution:deployment-review";
     cs_external_id := Some ("deployment:" +:+ de_id d +:+ ":regression");
     cs_content :=
       "Active evolution deployment " +:+ de_id d +:+ " (candidate " +:+ de_candidate_id d +:+
       ") regressed: mean run score dropped " +:+ f64_fixed 1 (mean_score baseline) +:+ " -> " +:+
       f64_fixed 1 (mean_score post) +:+ " across " +:+ pretty (length post) +:+
       " post-activation runs (baseline n=" +:+ pretty (length baseline) +:+
       "). Consider an operator rollback.";
     cs_metadata := (λ p, (p.1, detail_text p.2)) <$> regression_details d post baseline |}.

(** Enough runs on both sides, and a drop of the mean beyond the threshold. *)
Definition regressed (post baseline : list RunScorecard) : bool :=
  negb (length post <? DEPLOYMENT_REVIEW_MIN_POST_SAMPLES) && negb (is_empty baseline) &&
  negb (f64_lt (f64_sub (mean_score baseline) (mean_score post)) DEPLOYMENT_REVIEW_REGRESSION_DROP).

Definition review_deployment_outcome (self : EvolutionEngine) : DB unit :=
  if negb (en_has_harness_store self) then mret tt
  else
    deployment ← store active_deployment;
    match deployment with
    | None => mret tt
    | Some d =>
        let activated := timestamp (de_activated_at d) in
        post ← on_store (on_traj (query_run_scorecards
          (samples (Some activated) None true DEPLOYMENT_REVIEW_MAX_POST_SAMPLES)));
        if length post <? DEPLOYMENT_REVIEW_MIN_POST_SAMPLES then mret tt
        else
          baseline ← on_store (on_traj (query_run_scorecards
            (samples None (Some activated) false DEPLOYMENT_REVIEW_BASELINE_SAMPLES)));
          if negb (regressed post baseline) then mret tt
          else
            store (record_audit_event (Some (de_candidate_id d)) (Some (de_id d)) "deployment_regressed"
                     engine_actor (regression_details d post baseline)) ;;
            on_store (emit_internal_signal (regression_signal d post baseline) engine_actor)
    end.

(** ** The cycle *)

Record EvolutionCycleResult : Type := {
  cr_candidate : EvolutionCandidateRecord;
  cr_evaluation : evaluation_row
}.

Definition run_cycle_inner (self : EvolutionEngine) : DB (CycleOutcome EvolutionCycleResult) :=
  ignore_error (review_deployment_outcome self) ;;
  cases ← store (list_eval_cases true);
  let enabled_eval_cases := length cases in
  ensure (negb (MAX_ENABLED_EVOLUTION_EVAL_CASES <? enabled_eval_cases))
    "enabled eval cases exceed the maximum of 50" ;;
  if enabled_eval_cases <? gc_min_eval_cases (en_gate_config self) then
    mret (CycleSkipped ("evolution eval suite is not ready: " +:+ pretty enabled_eval_cases +:+
      " enabled cases, " +:+ pretty (gc_min_eval_cases (en_gate_config self)) +:+ " required"))
  else
    proposed ← propose_from_trajectories self;
    match proposed with
    | CycleSkipped reason => mret (CycleSkipped reason)
    | CycleDone candidate =>
        evaluation ← evaluate_candidate self (cn_id candidate);
        candidate ← store (get_candidate (cn_id candidate));
        candidate ← context "evolution cycle candidate disappeared" candidate;
        mret (CycleDone {| cr_candidate := candidate; cr_evaluation := evaluation |})
    end.

Definition set_cycle (status : EvolutionCycleStatus) : DB unit :=
  s ← get_db;
  put_db {| eg_store := eg_store s; eg_policy := eg_policy s; eg_cycle := status |}.

(** The status of a cycle that started at [started] and ended at [finished]. *)
Definition cycle_finished (started finished : Z) (result : res (CycleOutcome EvolutionCycleResult))
    : EvolutionCycleStatus :=
  let status candidate outcome skip error :=
    {| cy_running := false; cy_last_started_at := Some started; cy_last_finished_at := Some finished;
       cy_last_candidate_id := candidate; cy_last_outcome := Some outcome;
       cy_last_skip_reason := skip; cy_last_error := error |} in
  match result with
  | Ok (CycleDone cycle) =>
      status (Some (cn_id (cr_candidate cycle))) (candidate_status_as_str (cn_status (cr_candidate cycle))) None None
  | Ok (CycleSkipped reason) => status None "skipped" (Some (truncate_chars reason (N.to_nat 1000))) None
  | Err err => status None "failed" None (Some (truncate_chars err (N.to_nat 1000)))
  end.

Definition run_cycle (self : EvolutionEngine) : DB (CycleOutcome EvolutionCycleResult) :=
  started ← now_nanos;
  set_cycle {| cy_running := true; cy_last_started_at := Some started; cy_last_finished_at := None;
               cy_last_candidate_id := None; cy_last_outcome := None; cy_last_skip_reason := None;
               cy_last_error := None |} ;;
  result ← catch (run_cycle_inner self);
  finished ← now_nanos;
  set_cycle (cycle_finished started finished result) ;;
  lift_res result.
End cycle.
