(* ===== verification/EngineFacts.v ===== *)
(** * Facts about the evolution engine

    Every method of the engine changes the evolution store only by the operations of the
    store; without a human it neither approves nor deploys.  So the policy the engine
    serves is always the stored one, and nothing goes live unattended.  An evaluation made a
    case at a time agrees with one made in one go. *)

From S2P Require Import Prelude Text Messages External Verifier Domain Tables MemBase Floats TrajStore.
From S2P Require Import EvoDomain EvoStore EvoFacts Harness EvoEngine EvoCycle.

Lemma stable_of_unit {S A} (R : relation S) (m : M S A) : stable R (unit_of m) → stable R m.
Proof. intros H w. specialize (H w). by rewrite unit_of_db in H. Qed.

Lemma op_where_stable {S Op} (exec : Op → M S unit) (P : Op → Prop) op :
  P op → stable (op_steps_where exec P) (exec op).
Proof. intros H w. apply rtc_once. by exists op, w. Qed.

Section engine_facts.
  Context `{ENV : LoopEnv} `{DT : DateTimes} `{SER : Serialize edetails} `{FT : FloatText} `{HB : HourBucket}.
  Context `{JP : !JsonParse} `{EP : EvolutionProvider} `{ET : !EvolutionText}.

(** ** The engine as a transition system *)

Inductive engine_op : Type :=
| GCase (eval_case : EvolutionEvalCase) (actor : EvolutionActor)
| GFeedback (draft : EvolutionFeedbackDraft) (actor : EvolutionActor)
| GSeed (trajectory_id name : string) (input : option string) (assertions : EvolutionCaseAssertions)
    (weight : f64) (actor : EvolutionActor)
| GCreate (prompt_patch rationale : string) (sources : list string) (actor : EvolutionActor)
| GEvaluate (candidate_id : string) (max_response_bytes : N) (deadline : option Z)
| GStep (candidate_id : string) (max_response_bytes : N) (deadline : option Z)
| GApprove (candidate_id : string) (actor : EvolutionActor) (reason : string)
| GAbandon (candidate_id : string) (actor : EvolutionActor) (reason : string)
| GActivate (candidate_id : string) (actor : EvolutionActor) (reason : string)
| GRollback (actor : EvolutionActor) (reason : string)
| GReview
| GCycle.

Definition engine_exec (self : EvolutionEngine) (op : engine_op) : M EngineState unit :=
  match op with
  | GCase eval_case actor => engine_upsert_eval_case eval_case actor
  | GFeedback draft actor => unit_of (engine_record_feedback draft actor)
  | GSeed trajectory_id name input assertions weight actor =>
      unit_of (seed_eval_case_from_trajectory self trajectory_id name input assertions weight actor)
  | GCreate prompt_patch rationale sources actor =>
      unit_of (engine_create_candidate self prompt_patch rationale sources actor)
  | GEvaluate candidate_id max_response_bytes deadline =>
      unit_of (evaluate_candidate_bounded_until self candidate_id max_response_bytes deadline)
  | GStep candidate_id max_response_bytes deadline =>
      unit_of (run_evaluation_step self candidate_id max_response_bytes deadline)
  | GApprove candidate_id actor reason => unit_of (approve_candidate self candidate_id actor reason)
  | GAbandon candidate_id actor reason => unit_of (abandon_evaluation self candidate_id actor reason)
  | GActivate candidate_id actor reason => unit_of (engine_activate_candidate self candidate_id actor reason)
  | GRollback actor reason => unit_of (engine_rollback_active self actor reason)
  | GReview => review_deployment_outcome self
  | GCycle => unit_of (run_cycle self)
  end.

(** Operations of the store that neither deploy nor approve. *)
Definition unattended_op (op : evo_op) : bool :=
  match op with
  | EActivate _ _ _ | ERollback _ _ | ETransition _ _ CandApproved _ _ => false
  | _ => true
  end.

(** ... and those that do not deploy. *)
Definition undeployed_op (op : evo_op) : bool := negb (is_deploy_op op).

Definition evo_of (s : EngineState) : EvoDb := hd_evo (eg_store s).

(** Operations on the cursors of evaluations. *)
Definition cursor_op (op : evo_op) : bool :=
  match op with ERun _ | EClear _ => true | _ => false end.

Section refine.
  Context (P : evo_op → bool) (HP : ∀ op, unattended_op op = true → cursor_op op = false → P op = true).

Definition quiet : relation EvoDb := op_steps_where evo_exec (λ op, P op = true).

Definition engine_quiet : relation EngineState := λ s s',
  quiet (evo_of s) (evo_of s') ∧ eg_policy s' = eg_policy s.

#[local] Instance quiet_preorder : PreOrder quiet.
Proof. unfold quiet, op_steps_where. apply _. Qed.

#[export] Instance engine_quiet_preorder : PreOrder engine_quiet.
Proof.
  split; [intros s; split; reflexivity|]. intros s1 s2 s3 [H1 E1] [H2 E2]. split; [by etrans|congruence].
Qed.

Lemma quiet_exec op : P op = true → stable quiet (evo_exec op).
Proof. apply (op_where_stable evo_exec (λ op, P op = true)). Qed.

Lemma quiet_transition candidate_id expected next actor details :
  P (ETransition candidate_id expected next actor details) = true →
  stable quiet (transition_candidate candidate_id expected next actor details).
Proof. intros H. apply stable_of_unit. by apply (quiet_exec (ETransition candidate_id expected next actor details)). Qed.

Lemma quiet_create draft actor value n :
  new_prompt_patch value n = Ok (cd_prompt_patch draft) → stable quiet (create_candidate draft actor).
Proof.
  intros H. apply stable_of_unit. destruct draft as [id parent fingerprint patch rationale sources]. cbn in H.
  assert (Hx : stable quiet (evo_exec (ECreate id parent fingerprint value n rationale sources actor)))
    by (apply quiet_exec; by apply HP).
  cbn [evo_exec] in Hx. rewrite H in Hx. exact Hx.
Qed.

Lemma quiet_case c actor : stable quiet (upsert_eval_case c actor).
Proof. by apply (quiet_exec (ECase c actor)), HP. Qed.

Lemma quiet_evaluation draft : stable quiet (record_evaluation draft).
Proof. by apply stable_of_unit, (quiet_exec (EEvaluation draft)), HP. Qed.

Lemma quiet_run run : P (ERun run) = true → stable quiet (upsert_eval_run run).
Proof. apply (quiet_exec (ERun run)). Qed.

Lemma quiet_clear id : P (EClear id) = true → stable quiet (clear_eval_run id).
Proof. apply (quiet_exec (EClear id)). Qed.

Lemma quiet_audit c d e a j : stable quiet (record_audit_event c d e a j).
Proof. by apply (quiet_exec (EAudit c d e a j)), HP. Qed.

(** The event inside a transaction is the event on its own. *)
Lemma quiet_insert_audit c d e a j : stable quiet (insert_audit_event c d e a j).
Proof.
  intros w. pose proof (quiet_audit c d e a j w) as H.
  assert (Herr : wp (insert_audit_event c d e a j) (λ r s', is_ok r = false → s' = w_db w) (w_db w)).
  { unfold insert_audit_event. wp_step. wp_step. destruct (validate_audit_fields e a); [|done].
    wp_step. wp_step. destruct (to_vec j); [|done]. do 2 wp_step; [|done]. do 3 wp_step. wp_step; [|done].
    by do 3 wp_step. }
  specialize (Herr w eq_refl). unfold record_audit_event, transaction, transaction_end, lift_res, mbind, M_bind in H.
  destruct (validate_audit_fields e a) as [[]|x] eqn:Ev.
  - cbn in H. destruct (insert_audit_event c d e a j w) as [[[]|x] w']; [exact H|]. cbn in Herr |- *.
    rewrite Herr; [reflexivity|done].
  - destruct (insert_audit_event c d e a j w) as [[[]|x'] w'] eqn:E; cbn in Herr |- *.
    + unfold insert_audit_event in E. by rewrite Ev in E.
    + rewrite Herr; [reflexivity|done].
Qed.

Lemma quiet_feedback row : stable quiet (sql_insert evolution_feedback (is_feedback (fb_id row)) row).
Proof. by apply (quiet_exec (EFeedback row)), HP. Qed.

Lemma quiet_read {A} (m : M EvoDb A) : stable eq m → stable quiet m.
Proof. intros H w. rewrite <- (H w). reflexivity. Qed.

Lemma stable_map_res {S A B} (R : relation S) `{!PreOrder R} (r : res (A)) (f : A → M S B) :
  (∀ a, stable R (f a)) → stable R (lift_res r ≫= f).
Proof. intros H. destruct r; [apply H|]. intros w; cbn; reflexivity. Qed.

Lemma read_get_candidate id : stable eq (get_candidate id).
Proof. unfold get_candidate. stable_go. Qed.

Lemma read_list_candidates n : stable eq (list_candidates n).
Proof. unfold list_candidates. stable_go. Qed.

Lemma read_fingerprint f : stable eq (find_candidate_by_evidence f).
Proof. unfold find_candidate_by_evidence. stable_go. Qed.

Lemma read_list_cases b : stable eq (list_eval_cases b).
Proof. unfold list_eval_cases. stable_go. Qed.

Lemma read_latest id : stable eq (latest_evaluation id).
Proof. unfold latest_evaluation. stable_go. Qed.

Lemma read_eval_run id : stable eq (get_eval_run id).
Proof. unfold get_eval_run. stable_go. Qed.

Lemma read_deployment : stable eq active_deployment.
Proof. unfold active_deployment. stable_go. Qed.

Lemma read_rollbacks n : stable eq (list_recent_rollbacks n).
Proof. unfold list_recent_rollbacks. stable_go. Qed.

#[local] Hint Resolve quiet_case quiet_evaluation quiet_audit quiet_insert_audit quiet_feedback : stab.
#[local] Hint Resolve read_get_candidate read_list_candidates read_fingerprint read_list_cases read_latest : stab.
#[local] Hint Resolve read_eval_run read_deployment read_rollbacks : stab.
#[local] Hint Extern 2 (stable quiet _) => apply quiet_read : stab.
#[local] Hint Extern 1 (stable quiet (transition_candidate _ _ _ _ _)) => apply quiet_transition, HP; reflexivity : stab.

(** ** Through the lenses *)

Definition harness_quiet : relation HarnessDb := λ h h', quiet (hd_evo h) (hd_evo h').

#[local] Instance harness_quiet_preorder : PreOrder harness_quiet.
Proof. split; [intros h; unfold harness_quiet; reflexivity|]. intros h1 h2 h3 H1 H2. unfold harness_quiet in *. by etrans. Qed.

Lemma quiet_loop {A} (m : M Db A) : stable harness_quiet (on_loop m).
Proof. apply stable_zoom with (R := λ _ _, True); [intros; unfold harness_quiet; reflexivity|]. by intros w. Qed.

Lemma quiet_traj {A} (m : M TrajDb A) : stable harness_quiet (on_traj m).
Proof. apply stable_zoom with (R := λ _ _, True); [intros; unfold harness_quiet; reflexivity|]. by intros w. Qed.

Lemma quiet_evo {A} (m : M EvoDb A) : stable quiet m → stable harness_quiet (on_evo m).
Proof. intros H. by apply stable_zoom with (R := quiet). Qed.

#[local] Hint Resolve quiet_loop quiet_traj : stab.
#[local] Hint Extern 1 (stable harness_quiet (on_evo _)) => apply quiet_evo; stable_go : stab.

Lemma quiet_record_feedback draft actor : stable harness_quiet (record_feedback draft actor).
Proof.
  unfold record_feedback, insert_feedback, maybe_emit_feedback_spike, emit_internal_signal. cbv zeta. stable_go.
Qed.

Lemma quiet_list_feedback b n : stable harness_quiet (list_feedback b n).
Proof. unfold list_feedback. stable_go. Qed.

Lemma quiet_first_input id : stable harness_quiet (trajectory_first_user_input id).
Proof. unfold trajectory_first_user_input. stable_go. Qed.

Lemma quiet_emit r a : stable harness_quiet (emit_internal_signal r a).
Proof. unfold emit_internal_signal. stable_go. Qed.

#[local] Hint Resolve quiet_record_feedback quiet_list_feedback quiet_first_input quiet_emit : stab.

Lemma engine_on_store {A} (m : M HarnessDb A) : stable harness_quiet m → stable engine_quiet (on_store m).
Proof. intros H. apply stable_zoom with (R := harness_quiet); [|done]. intros t s' Hq. by split. Qed.

Lemma engine_store {A} (m : M EvoDb A) : stable quiet m → stable engine_quiet (store m).
Proof. intros H. by apply engine_on_store, quiet_evo. Qed.

#[local] Hint Extern 1 (stable engine_quiet (store _)) => apply engine_store; stable_go : stab.
#[local] Hint Extern 1 (stable engine_quiet (on_store _)) => apply engine_on_store; stable_go : stab.

Lemma quiet_active : stable engine_quiet runtime_active.
Proof. unfold runtime_active. stable_go. Qed.

Lemma quiet_set_cycle c : stable engine_quiet (set_cycle c).
Proof. intros w. cbn. split; [reflexivity|done]. Qed.

Lemma quiet_evolution_id p : stable engine_quiet (new_evolution_id p).
Proof. intros w. cbn. reflexivity. Qed.

#[local] Hint Resolve quiet_active quiet_set_cycle quiet_evolution_id : stab.
#[local] Hint Extern 1 (stable engine_quiet (wrap_error _ _)) => apply stable_wrap_error; stable_go : stab.

(** ** The methods *)

Lemma quiet_complete case policy deadline e m n :
  stable engine_quiet (counted_complete case policy deadline e m n).
Proof. unfold counted_complete, shadow_complete_with_deadline. stable_go. Qed.

#[local] Hint Resolve quiet_complete : stab.

Lemma quiet_complete_case case baseline candidate deadline m n :
  stable engine_quiet (complete_case case baseline candidate deadline m n).
Proof. unfold complete_case. stable_go. Qed.

#[local] Hint Resolve quiet_complete_case : stab.

Lemma quiet_collect cases baseline candidate deadline m b c n :
  stable engine_quiet (collect_outputs cases baseline candidate deadline m b c n).
Proof. revert b c n. induction cases as [|case cases IH]; intros b c n; cbn [collect_outputs]; stable_go. Qed.

Lemma quiet_collisions self cases : stable engine_quiet (check_collisions self cases).
Proof. unfold check_collisions. stable_go. Qed.

Lemma quiet_finalize self candidate cases suite outputs :
  stable engine_quiet (finalize_shadow_evaluation self candidate cases suite outputs).
Proof.
  unfold finalize_shadow_evaluation. cbv zeta. do 3 (stable_step; [stable_go|]).
  destruct (decide_promotion _ _); stable_go.
Qed.

Lemma quiet_existing id : stable engine_quiet (existing_candidate id).
Proof. unfold existing_candidate. stable_go. Qed.

#[local] Hint Resolve quiet_collect quiet_collisions quiet_finalize quiet_existing : stab.

Lemma quiet_evaluate self id m deadline : stable engine_quiet (evaluate_candidate_with_limit self id m deadline).
Proof. unfold evaluate_candidate_with_limit, evaluate_candidate_inner, evaluable. stable_go. Qed.

#[local] Hint Resolve quiet_evaluate : stab.

Lemma quiet_step self id m deadline :
  (∀ op, cursor_op op = true → P op = true) → stable engine_quiet (run_evaluation_step self id m deadline).
Proof.
  intros Hc. unfold run_evaluation_step, advance_eval_run, finish_eval_run, start_eval_run, evaluable. cbv zeta. stable_go;
    apply engine_store; [by apply quiet_run, Hc..|by apply quiet_clear, Hc].
Qed.

Lemma quiet_create_candidate self patch rationale sources fingerprint actor :
  stable engine_quiet (create_candidate_with_fingerprint self patch rationale sources fingerprint actor).
Proof.
  unfold create_candidate_with_fingerprint. cbv zeta. do 2 (stable_step; [stable_go|]). stable_step. stable_step; [stable_go|]. apply stable_bind_res; [apply _|]. intros p Hp.
  apply engine_store. by eapply quiet_create.
Qed.

#[local] Hint Resolve quiet_create_candidate : stab.

Lemma quiet_collect_flagged limit ids failures : stable engine_quiet (collect_flagged limit ids failures).
Proof. revert failures. induction ids as [|id ids IH]; intros failures; cbn [collect_flagged]; stable_go. Qed.

Lemma quiet_collect_scores failures scores : stable engine_quiet (collect_scores failures scores).
Proof. revert scores. induction failures as [|t rest IH]; intros scores; cbn [collect_scores]; stable_go. Qed.

#[local] Hint Resolve quiet_collect_flagged quiet_collect_scores : stab.

Lemma quiet_propose self : stable engine_quiet (propose_from_trajectories self).
Proof.
  unfold propose_from_trajectories, gather_evidence, request_proposal, record_proposal_failure. cbv zeta. stable_go.
Qed.

Lemma quiet_review self : stable engine_quiet (review_deployment_outcome self).
Proof. unfold review_deployment_outcome. cbv zeta. stable_go. Qed.

#[local] Hint Resolve quiet_propose quiet_review : stab.

(** What an operator decides when the gate asks for a human. *)
Definition attended (op : engine_op) : bool :=
  match op with
  | GApprove _ actor _ | GActivate _ actor _ | GRollback actor _ => is_human actor
  | _ => false
  end.

Lemma require_human self actor {B} (f : unit → M EngineState B) :
  gc_require_human_approval (en_gate_config self) = true → is_human actor = false →
  stable engine_quiet (require_human_actor self actor ≫= f).
Proof.
  intros Hg Ha w. unfold require_human_actor. rewrite Hg, Ha. cbn. split; reflexivity.
Qed.

(** The methods that take no decision on a candidate. *)
Definition routine (op : engine_op) : bool :=
  match op with GApprove _ _ _ | GActivate _ _ _ | GRollback _ _ => false | _ => true end.

Definition is_step (op : engine_op) : bool := match op with GStep _ _ _ => true | _ => false end.

Lemma routine_quiet self op :
  routine op = true → (is_step op = true → ∀ op', cursor_op op' = true → P op' = true) →
  stable engine_quiet (engine_exec self op).
Proof.
  intros Ha Hc. destruct op; try discriminate Ha; cbn [engine_exec]; try apply stable_unit_of.
  - unfold engine_upsert_eval_case. stable_go.
  - unfold engine_record_feedback. stable_go.
  - unfold seed_eval_case_from_trajectory. cbv zeta. stable_go.
  - unfold engine_create_candidate. stable_go.
  - unfold evaluate_candidate_bounded_until. stable_go.
  - by apply quiet_step, Hc.
  - unfold abandon_evaluation, require_human_actor. stable_go.
  - stable_go.
  - unfold run_cycle, run_cycle_inner, evaluate_candidate. cbv zeta. stable_go.
Qed.

(** A method that is no operator's decision refines the quiet operations of the store. *)
Lemma unattended_quiet self op :
  gc_require_human_approval (en_gate_config self) = true → attended op = false →
  (∀ op, cursor_op op = true → P op = true) → stable engine_quiet (engine_exec self op).
Proof.
  intros Hg Ha Hc. destruct (routine op) eqn:Hr; [by apply routine_quiet|].
  destruct op; try discriminate Hr; cbn [engine_exec attended] in *; apply stable_unit_of; by apply require_human.
Qed.

Lemma approve_quiet self candidate_id actor reason :
  (∀ details a, P (ETransition candidate_id CandReady CandApproved a details) = true) →
  stable engine_quiet (approve_candidate self candidate_id actor reason).
Proof.
  intros H. unfold approve_candidate, require_human_actor. stable_go.
  apply engine_store, quiet_transition, H.
Qed.
End refine.

(** ** Nothing goes live unattended *)

(** A candidate approved now was approved before. *)
Definition approvals_kept (s s' : EvoDb) : Prop :=
  ∀ c', c' ∈ evo_candidates s' → ca_status c' = CandApproved →
    ∃ c, c ∈ evo_candidates s ∧ ca_id c = ca_id c' ∧ ca_status c = CandApproved.

#[local] Instance approvals_kept_preorder : PreOrder approvals_kept.
Proof.
  split; [intros s c Hc Hs; by exists c|]. intros s1 s2 s3 H1 H2 c3 Hc3 Hs3.
  destruct (H2 c3 Hc3 Hs3) as (c2 & Hc2 & E2 & Hs2). destruct (H1 c2 Hc2 Hs2) as (c1 & Hc1 & E1 & Hs1).
  exists c1. split_and!; [done|congruence|done].
Qed.

Lemma approvals_same s s' : evo_candidates s' = evo_candidates s → approvals_kept s s'.
Proof. intros E c Hc Hs. rewrite E in Hc. by exists c. Qed.

#[local] Hint Extern 3 (stable approvals_kept _) =>
  first [apply stable_sql_insert; [typeclasses eauto|intros ? _]
        |apply stable_sql_update; intros ?|apply stable_sql_delete; intros ?
        |apply stable_sql_upsert; [typeclasses eauto|intros ? _]]; by apply approvals_same : stab.

Lemma audit_approvals c d e a j : stable approvals_kept (insert_audit_event c d e a j).
Proof. unfold insert_audit_event. stable_go. Qed.

#[local] Hint Resolve audit_approvals : stab.

Lemma unattended_approvals op : unattended_op op = true → stable approvals_kept (evo_exec op).
Proof.
  destruct op; intros Hop; try discriminate Hop; cbn [evo_exec]; try apply stable_unit_of.
  - apply stable_bind; [apply _|stable_go|intros p]. apply stable_unit_of.
    unfold create_candidate, get_candidate. cbv zeta. stable_go.
    apply stable_sql_insert; [apply _|]. intros s _ c' [Hc|Hc]%elem_of_app Hs; [by exists c'|].
    apply list_elem_of_singleton in Hc as ->. done.
  - unfold transition_candidate, get_candidate. stable_go. apply stable_sql_update. intros s c' Hc Hs.
    apply elem_update_where in Hc as (c & Hc & ->). exists c.
    destruct (is_candidate _ c && _); [|done]. cbn in Hs. rewrite Hs in Hop. discriminate Hop.
  - unfold upsert_eval_case. stable_go.
  - unfold record_evaluation, get_evaluation. stable_go.
  - unfold upsert_eval_run. stable_go.
  - unfold clear_eval_run. stable_go.
  - unfold record_audit_event. stable_go.
  - stable_go.
Qed.

Lemma unattended_undeployed op : unattended_op op = true → is_deploy_op op = false.
Proof. by destruct op. Qed.

(** C19: Nothing goes live unattended: when the gate asks for human approval, whatever the
    engine does without a human - cycles, proposals, evaluations at once or in steps,
    reviews, and every decision attempted by the system itself - leaves the deployments,
    the active one and the policy being served as they are, and approves no candidate. *)
Theorem nothing_goes_live_unattended self s s' :
  gc_require_human_approval (en_gate_config self) = true →
  op_steps_where (engine_exec self) (λ op, attended op = false) s s' →
  evo_deployments (evo_of s') = evo_deployments (evo_of s) ∧ evo_active (evo_of s') = evo_active (evo_of s) ∧
  eg_policy s' = eg_policy s ∧
  ∀ c', c' ∈ evo_candidates (evo_of s') → ca_status c' = CandApproved →
    ∃ c, c ∈ evo_candidates (evo_of s) ∧ ca_id c = ca_id c' ∧ ca_status c = CandApproved.
Proof.
  intros Hg Hs. assert (Hc : ∀ op, cursor_op op = true → unattended_op op = true) by (by intros []).
  destruct (op_steps_where_preserve _ _ (engine_quiet unattended_op)
    (λ op H, unattended_quiet _ (λ _ H _, H) self op Hg H Hc) s s' Hs) as [Hq Hp].
  pose proof (op_steps_where_preserve _ _ same_deployments
    (λ op H, evo_exec_deployments op (unattended_undeployed op H)) _ _ Hq) as [H1 H2].
  pose proof (op_steps_where_preserve _ _ approvals_kept unattended_approvals _ _ Hq) as H3. auto.
Qed.

(** ** The served policy *)

(** The policy the engine serves is the stored one. *)
Definition serves_stored (s : EngineState) : Prop :=
  evo_inv (evo_of s) ∧ stored_policy (evo_of s) = Ok (eg_policy s).

Lemma quiet_serves s s' : engine_quiet undeployed_op s s' → serves_stored s → serves_stored s'.
Proof.
  intros [Hq Hp] [Hi Hs].
  pose proof (op_steps_where_preserve _ _ (keeps evo_inv) (λ op _, evo_exec_inv op) _ _ Hq Hi) as Hi'.
  split; [done|]. rewrite Hp, <- Hs. apply stored_policy_le; [done|done| |].
  - by apply (op_steps_preserve _ candidates_le evo_exec_candidates), (op_steps_where_steps _ _ _ _ Hq).
  - assert (Hd : same_deployments (evo_of s) (evo_of s')).
    { apply (op_steps_where_preserve _ _ same_deployments) in Hq; [done|].
      intros op Hop. apply evo_exec_deployments. by apply negb_true_iff. }
    destruct Hd as [Hd _]. unfold live_deployments. by rewrite Hd.
Qed.

Lemma wp_get_candidate id s :
  wp (get_candidate id) (λ r s', s' = s ∧ ∀ c, r = Ok (Some c) → ∃ row, row ∈ evo_candidates s ∧
      ca_id row = id ∧ cn_id c = id ∧ cn_status c = ca_status row ∧
      new_prompt_patch (ca_prompt_patch row) ABSOLUTE_MAX_PROMPT_PATCH_CHARS = Ok (cn_prompt_patch c)) s.
Proof.
  unfold get_candidate. do 2 wp_step. wp_step. split; [done|]. intros c. cbn [tget evolution_candidates].
  destruct (List.find _ _) as [row|] eqn:E; [|done]. apply List.find_some in E as [Hin Hid%String.eqb_eq].
  unfold optional. rewrite bind_ok. intros (x & Hx & [= ->]). unfold candidate_from_row in Hx.
  apply bind_ok in Hx as (patch & Hpatch & [= <-]). exists row. split_and!; try done. by apply list_elem_of_In.
Qed.

(** The state with another evolution store. *)
Lemma wp_store {A} (m : M EvoDb A) (Q : res A → EngineState → Prop) s :
  wp m (λ r e, Q r {| eg_store := put_evo e (eg_store s); eg_policy := eg_policy s; eg_cycle := eg_cycle s |})
     (evo_of s) → wp (store m) Q s.
Proof. intros H. apply wp_zoom, wp_zoom. exact H. Qed.

Lemma wp_existing id s :
  wp (existing_candidate id) (λ r s', s' = s ∧ ∀ c, r = Ok c → ∃ row, row ∈ evo_candidates (evo_of s) ∧
      ca_id row = id ∧ cn_id c = id ∧ cn_status c = ca_status row ∧
      new_prompt_patch (ca_prompt_patch row) ABSOLUTE_MAX_PROMPT_PATCH_CHARS = Ok (cn_prompt_patch c)) s.
Proof.
  assert (Es : {| eg_store := put_evo (evo_of s) (eg_store s); eg_policy := eg_policy s; eg_cycle := eg_cycle s |} = s)
    by (destruct s as [[] ? ?]; reflexivity).
  unfold existing_candidate. wp_step. apply wp_store. eapply wp_mono; [apply wp_get_candidate|]. cbv beta.
  intros r e [-> H]. rewrite Es. destruct r as [o|x]; [|done]. wp_step; (split; [done|]); [|done].
  intros c [= <-]. apply H. congruence.
Qed.

Lemma keeps_of_wp {S A} (I : S → Prop) (m : M S A) : (∀ s, I s → wp m (λ _ s', I s') s) → stable (keeps I) m.
Proof. intros H w Hi. by apply (H (w_db w) Hi w). Qed.

(** A deployment made from a candidate's row serves the candidate's patch. *)
Lemma pushed_policy s d row patch :
  evo_inv s → not_rolled_back d = true → row ∈ evo_candidates s → ca_id row = de_candidate_id d →
  new_prompt_patch (ca_prompt_patch row) ABSOLUTE_MAX_PROMPT_PATCH_CHARS = Ok patch →
  ∀ s', evo_inv s' → evo_candidates s' = evo_candidates s →
    live_deployments s' = d :: live_deployments s →
    stored_policy s' = Ok (Some {| ap_deployment_id := de_id d; ap_candidate_id := de_candidate_id d;
                                   ap_prompt_patch := patch |}).
Proof.
  intros Hi Hd Hrow Hid Hpatch s' Hi' Ec Hl.
  destruct (live_policy s' d Hi') as (c & policy & Hp & Hc & Hcid & Hpol & _); [rewrite Hl; left|].
  assert (c = row) as ->.
  { eapply (nodup_key_inj ca_id); [apply ei_candidates, Hi|by rewrite <- Ec|done|congruence]. }
  rewrite (stored_policy_head s' d (live_deployments s) row policy) by done.
  unfold policy_of in Hpol. rewrite Hpatch in Hpol. by injection Hpol as <-.
Qed.

Lemma wp_replace policy (Q : res unit → EngineState → Prop) s :
  Q (Ok tt) {| eg_store := eg_store s; eg_policy := policy; eg_cycle := eg_cycle s |} → wp (runtime_replace policy) Q s.
Proof. intros H w <-. exact H. Qed.

Lemma activate_serves self candidate_id actor reason :
  stable (keeps serves_stored) (engine_activate_candidate self candidate_id actor reason).
Proof.
  apply keeps_of_wp. intros s [Hi Hs]. unfold engine_activate_candidate, require_human_actor.
  do 2 wp_step; [|by split]. wp_step. eapply wp_mono; [apply wp_existing|]. cbv beta. intros r s0 [-> Hc].
  destruct r as [c|]; [|by split]. destruct (Hc c eq_refl) as (row & Hrow & Hid & Hcid & _ & Hpatch).
  do 2 wp_step. destruct (audit_label actor) as [label|]; [|by split]. wp_step. apply wp_store.
  pose proof (wp_of_stable _ _ (evo_of s) (activate_inv candidate_id label reason)) as Hinv.
  eapply wp_mono; [apply wp_and; [exact Hinv|by apply (wp_activate candidate_id label reason)]|]. cbv beta.
  intros r e [He Hr]. specialize (He Hi). destruct r as [d|x]; cbn in Hr.
  - destruct Hr as (id & now & arow & _ & _ & -> & ->). wp_step. apply wp_replace.
    wp_step. split; [exact He|]. cbn [eg_policy]. rewrite Hcid.
    change (de_id (deployment_from_row ?d)) with (de_id d).
    apply (pushed_policy (evo_of s) (new_deployment id candidate_id label reason now (evo_of s)) row);
      try done. exact (live_push (new_deployment id candidate_id label reason now (evo_of s)) (evo_of s) eq_refl).
  - destruct Hr as [-> _]. by split.
Qed.

Lemma rollback_serves self actor reason :
  stable (keeps serves_stored) (engine_rollback_active self actor reason).
Proof.
  apply keeps_of_wp. intros s [Hi Hs]. unfold engine_rollback_active, require_human_actor.
  do 2 wp_step; [|by split]. do 2 wp_step. destruct (audit_label actor) as [label|]; [|by split].
  wp_step. apply wp_store.
  pose proof (wp_of_stable _ _ (evo_of s) (rollback_inv label reason)) as Hinv.
  eapply wp_mono; [apply wp_and; [exact Hinv|by apply (wp_rollback label reason)]|]. cbv beta.
  intros r e [He Hr]. specialize (He Hi). destruct r as [res|x]; cbn in Hr.
  - destruct Hr as (d & ds & now & row & _ & -> & _ & _ & Hpol). wp_step. apply wp_replace. wp_step.
    by split.
  - destruct Hr as [-> _]. by split.
Qed.

Lemma engine_serves self op : stable (keeps serves_stored) (engine_exec self op).
Proof.
  assert (Hkeep : ∀ {A} (m : M EngineState A), stable (engine_quiet undeployed_op) m → stable (keeps serves_stored) m).
  { intros A m H w Hi. eapply quiet_serves; [apply H|done]. }
  assert (Hsub : ∀ op, unattended_op op = true → cursor_op op = false → undeployed_op op = true) by (by intros []).
  assert (Hcur : ∀ op, cursor_op op = true → undeployed_op op = true) by (by intros []).
  destruct (routine op) eqn:Hr; [apply Hkeep, routine_quiet; auto|].
  destruct op; try discriminate Hr; cbn [engine_exec]; apply stable_unit_of.
  - apply Hkeep. by apply approve_quiet.
  - apply activate_serves.
  - apply rollback_serves.
Qed.

(** C20: The engine serves what is stored: started on any store that operations can reach,
    and after any sequence of its own operations - failing or not, by humans or the system,
    under any clock and any provider - the policy it serves is the one the store would
    answer with, so a restart changes nothing. *)
Theorem served_policy_is_stored gate self0 p self w w' s :
  evo_reachable (hd_evo (w_db w)) → new_engine gate w = (Ok (self0, p), w') →
  op_steps (engine_exec self) {| eg_store := w_db w'; eg_policy := p; eg_cycle := idle_cycle |} s →
  stored_policy (evo_of s) = Ok (eg_policy s).
Proof.
  intros Hr Hn Hs.
  assert (H0 : serves_stored {| eg_store := w_db w'; eg_policy := p; eg_cycle := idle_cycle |}).
  { assert (Hw : wp (new_engine gate) (λ r h', h' = w_db w ∧ ∀ e q, r = Ok (e, q) →
        stored_policy (hd_evo (w_db w)) = Ok q) (w_db w)).
    { unfold new_engine. do 2 wp_step. destruct (validate_gate gate); [|done]. wp_step.
      apply wp_zoom. unfold active_policy. do 2 wp_step. wp_step.
      unfold stored_policy. destruct (optional _ _) as [q|e]; [wp_step|];
        (split; [by destruct (w_db w)|]); [|done]. by intros e' q' [= _ ->]. }
    specialize (Hw w eq_refl). rewrite Hn in Hw. cbn in Hw. destruct Hw as [E H].
    split; unfold evo_of; cbn; rewrite E; [by apply evo_reachable_inv|by eapply H]. }
  apply (op_steps_preserve _ (keeps serves_stored) (engine_serves self) _ _ Hs H0).
Qed.
End engine_facts.

(** * Facts about shadow evaluation

    An evaluation made in one go and one made a case at a time, with steps that fail and
    anything else happening in between, collect the same outputs and record the same
    scorecard and decision, when the provider answers the same request alike. *)

Lemma for_res_app {A St} (f : A → St → res St) l k (st : St) :
  for_res f (l ++ k) st = st' ← for_res f l st; for_res f k st'.
Proof. revert st. induction l as [|x l IH]; intros st; cbn; [done|]. destruct (f x st); [apply IH|done]. Qed.

Lemma wp_fails {S A B} (m : M S B) e (Q : res A → S → Prop) s :
  (∀ s', Q (Err e) s') → wp (ignore_error m ;; throw e) Q s.
Proof. intros H w Hw. unfold ignore_error, mbind, M_bind. destruct (m w) as [r w']. apply H. Qed.

Section eval_facts.
  Context `{ENV : LoopEnv} `{DT : DateTimes} `{SER : Serialize edetails} `{FT : FloatText} `{HB : HourBucket}.
  Context `{JP : !JsonParse} `{EP : EvolutionProvider} `{ET : !EvolutionText}.

(** ** The engine refines the store *)

Definition refines_store : relation EngineState := λ s s', op_steps evo_exec (evo_of s) (evo_of s').

#[export] Instance refines_store_preorder : PreOrder refines_store.
Proof.
  split; [intros s; apply rtc_refl|]. intros s1 s2 s3. unfold refines_store, op_steps. intros H H'. by etrans.
Qed.

Definition any_op (op : evo_op) : bool := true.

Lemma quiet_refines s s' P : engine_quiet P s s' → refines_store s s'.
Proof. intros [H _]. by eapply op_steps_where_steps. Qed.

Lemma refines_on_store op : stable refines_store (store (unit_of (evo_exec op))).
Proof.
  apply stable_zoom with (R := λ h h', op_steps evo_exec (hd_evo h) (hd_evo h')); [done|].
  apply stable_zoom with (R := op_steps evo_exec); [done|]. apply stable_unit_of, op_stable.
Qed.

Lemma refines_store_of {A} (m : M EvoDb A) op : unit_of m = evo_exec op → stable refines_store (store m).
Proof.
  intros E. apply stable_zoom with (R := λ h h', op_steps evo_exec (hd_evo h) (hd_evo h')); [done|].
  apply stable_zoom with (R := op_steps evo_exec); [done|]. apply stable_of_unit. rewrite E. apply op_stable.
Qed.

Lemma engine_refines self op : stable refines_store (engine_exec self op).
Proof.
  assert (Hq : ∀ {A} (m : M EngineState A), stable (engine_quiet any_op) m → stable refines_store m).
  { intros A m H w. eapply quiet_refines, H. }
  assert (Hr : ∀ p, stable refines_store (runtime_replace p)).
  { intros p w. apply rtc_refl. }
  destruct (routine op) eqn:E; [by apply Hq, routine_quiet|].
  destruct op; try discriminate E; cbn [engine_exec]; apply stable_unit_of.
  - by apply Hq, approve_quiet.
  - unfold engine_activate_candidate, require_human_actor. stable_go.
    + apply Hq. by apply quiet_existing.
    + by eapply (refines_store_of _ (EActivate _ _ _)).
  - unfold engine_rollback_active, require_human_actor. stable_go.
    by eapply (refines_store_of _ (ERollback _ _)).
Qed.

(** ** What keeps the cursors *)

Definition same_runs (s s' : EvoDb) : Prop := evo_runs s' = evo_runs s.

#[local] Instance same_runs_preorder : PreOrder same_runs.
Proof. split; [done|]. intros a b c. unfold same_runs. congruence. Qed.

#[local] Hint Extern 3 (stable same_runs _) =>
  first [apply stable_sql_insert; [typeclasses eauto|intros ? _]
        |apply stable_sql_update; intros ?|apply stable_sql_delete; intros ?
        |apply stable_sql_upsert; [typeclasses eauto|intros ? _]]; done : stab.

Lemma audit_runs c d e a j : stable same_runs (insert_audit_event c d e a j).
Proof. unfold insert_audit_event. stable_go. Qed.

Lemma set_active_runs id : stable same_runs (set_active id).
Proof.
  unfold set_active. apply stable_of_wp. intros s. wp_step. wp_step. wp_step. wp_step; [|done].
  by intros w <-.
Qed.

#[local] Hint Resolve audit_runs set_active_runs : stab.

Lemma evo_exec_runs op : cursor_op op = false → stable same_runs (evo_exec op).
Proof.
  destruct op; intros Hop; try discriminate Hop; cbn [evo_exec]; try apply stable_unit_of.
  - apply stable_bind; [apply _|stable_go|intros p]. apply stable_unit_of.
    unfold create_candidate, get_candidate. cbv zeta. stable_go.
  - unfold transition_candidate, get_candidate. stable_go.
  - unfold upsert_eval_case. stable_go.
  - unfold record_evaluation, get_evaluation. stable_go.
  - unfold activate_candidate, new_evolution_id. cbv zeta. stable_go.
  - unfold rollback_active. stable_go.
  - unfold record_audit_event. stable_go.
  - stable_go.
Qed.

Definition cursor (id : string) (s : EngineState) : option EvolutionEvalRun :=
  List.find (run_of id) (evo_runs (evo_of s)).

(** Neither the cursors nor the policy served change; candidates keep their patches. *)
Record frame (s s' : EngineState) : Prop := {
  fr_inv : evo_inv (evo_of s) → evo_inv (evo_of s');
  fr_candidates : candidates_le (evo_of s) (evo_of s');
  fr_runs : evo_runs (evo_of s') = evo_runs (evo_of s)
}.

Definition calm_op (op : evo_op) : bool := negb (cursor_op op).

Lemma calm_quiet op : unattended_op op = true → cursor_op op = false → calm_op op = true.
Proof. by intros _ H%negb_true_iff. Qed.

Lemma steps_inv s s' : op_steps evo_exec s s' → evo_inv s → evo_inv s'.
Proof. intros H. by apply (op_steps_preserve _ (keeps evo_inv) evo_exec_inv _ _ H). Qed.

Lemma steps_candidates s s' : op_steps evo_exec s s' → candidates_le s s'.
Proof. apply (op_steps_preserve _ candidates_le evo_exec_candidates). Qed.

Lemma quiet_frame s s' : engine_quiet calm_op s s' → frame s s'.
Proof.
  intros [H _]. pose proof (op_steps_where_steps _ _ _ _ H) as Hs. split.
  - by apply steps_inv.
  - by apply steps_candidates.
  - apply (op_steps_where_preserve evo_exec (λ op, calm_op op = true) same_runs) in H; [exact H|].
    intros op Hop. apply evo_exec_runs. by apply negb_true_iff.
Qed.

#[local] Instance frame_preorder : PreOrder frame.
Proof.
  split; [intros s; by split|]. intros s1 s2 s3 [A1 B1 C1] [A2 B2 C2]. split; [auto|by etrans|congruence].
Qed.

Lemma frame_of_quiet {A} (m : M EngineState A) : stable (engine_quiet calm_op) m → stable frame m.
Proof. intros H w. apply quiet_frame, H. Qed.

(** An operation other than a step of an evaluation. *)
Lemma frame_op self op : is_step op = false → stable frame (engine_exec self op).
Proof.
  intros Hs. destruct (routine op) eqn:E.
  { apply frame_of_quiet, routine_quiet; [exact calm_quiet|done|congruence]. }
  intros w. split.
  - apply steps_inv, engine_refines.
  - apply steps_candidates, engine_refines.
  - revert w. change (stable (λ s s', same_runs (evo_of s) (evo_of s')) (engine_exec self op)).
    assert (Hp : PreOrder (λ s s', same_runs (evo_of s) (evo_of s'))).
    { split; [by intros ?|]. intros ???. unfold same_runs. congruence. }
    assert (Hq : ∀ {A} (m : M EngineState A), stable (engine_quiet calm_op) m →
      stable (λ s s', same_runs (evo_of s) (evo_of s')) m) by (intros A m H w; by apply quiet_frame).
    assert (Hz : ∀ {A} (m : M EvoDb A), stable same_runs m →
      stable (λ s s', same_runs (evo_of s) (evo_of s')) (store m)).
    { intros A m H. apply stable_zoom with (R := λ h h', same_runs (hd_evo h) (hd_evo h')); [done|].
      by apply stable_zoom with (R := same_runs). }
    assert (Hr : ∀ p, stable (λ s s', same_runs (evo_of s) (evo_of s')) (runtime_replace p)) by (by intros p w).
    destruct op; try discriminate E; cbn [engine_exec]; apply stable_unit_of.
    + by apply Hq, approve_quiet.
    + unfold engine_activate_candidate, require_human_actor. stable_go.
      * by apply Hq, quiet_existing.
      * apply Hz, stable_of_unit. by apply (evo_exec_runs (EActivate _ _ _)).
    + unfold engine_rollback_active, require_human_actor. stable_go.
      apply Hz, stable_of_unit. by apply (evo_exec_runs (ERollback _ _)).
Qed.

(** ** What the completions return *)

Section replies.
  Context (reply : list StoredMessage → res string).
  Context (Hreply : ∀ n messages, ep_complete n false messages = reply messages).

(** The outputs collected so far: the baseline's, the candidate's, the bytes spent. *)
Definition collected : Type := gmap string string * gmap string string * N.

Definition answer_case (base cand : policy_parts) (case : EvolutionEvalCase) (acc : collected) : res collected :=
  let '(b, c, n) := acc in
  x ← reply (shadow_messages case base);
  y ← reply (shadow_messages case cand);
  Ok (<[ec_id case := x]> b, <[ec_id case := y]> c,
      n + N.of_nat (String.length x) + N.of_nat (String.length y))%N.

(** The outputs of a list of cases. *)
Definition answers (base cand : policy_parts) (cases : list EvolutionEvalCase) : collected → res collected :=
  for_res (answer_case base cand) cases.

Lemma wp_shadow case policy deadline s :
  wp (shadow_complete_with_deadline case policy deadline)
     (λ r s', s' = s ∧ ∀ x, r = Ok x → reply (shadow_messages case policy) = Ok x) s.
Proof using Hreply.
  unfold shadow_complete_with_deadline. wp_step. apply wp_tick. intros n. wp_step. wp_step; [|done].
  wp_step. split; [done|]. intros x Hx. by rewrite <- Hreply with (n := n).
Qed.

Lemma wp_counted case policy deadline e m n s :
  wp (counted_complete case policy deadline e m n)
     (λ r s', s' = s ∧ ∀ x n', r = Ok (x, n') →
        reply (shadow_messages case policy) = Ok x ∧ n' = (n + N.of_nat (String.length x))%N) s.
Proof using Hreply.
  unfold counted_complete. wp_step. apply wp_wrap_error. eapply wp_mono; [apply wp_shadow|]. cbv beta.
  intros [x|x] s1 [-> H]; [|done].
  wp_step. wp_step; [|done]. wp_step. wp_step; [|done]. wp_step. split; [done|]. intros y n' [= <- <-].
  split; [by apply H|]. unfold checked_add_usize in *. by case_match; simplify_eq.
Qed.

Lemma wp_complete_case case base candidate deadline m b c n s :
  wp (complete_case case base candidate deadline m n)
     (λ r s', s' = s ∧ ∀ x y n', r = Ok (x, y, n') →
        answer_case base (shadow_policy candidate) case (b, c, n) =
          Ok (<[ec_id case := x]> b, <[ec_id case := y]> c, n')) s.
Proof using Hreply.
  unfold complete_case. wp_step. eapply wp_mono; [apply wp_counted|]. cbv beta.
  intros [[x n1]|e] s1 [-> H1]; [|done]. destruct (H1 _ _ eq_refl) as [Hx ->].
  wp_step. eapply wp_mono; [apply wp_counted|]. cbv beta.
  intros [[y n2]|e] s2 [-> H2]; [|done]. destruct (H2 _ _ eq_refl) as [Hy ->].
  wp_step. split; [done|]. intros ??? [= <- <- <-]. unfold answer_case. by rewrite Hx, Hy.
Qed.

Lemma wp_collect_answers cases base candidate deadline m b c n s :
  wp (collect_outputs cases base candidate deadline m b c n)
     (λ r s', s' = s ∧ ∀ acc, r = Ok acc → answers base (shadow_policy candidate) cases (b, c, n) = Ok acc) s.
Proof using Hreply.
  revert b c n. induction cases as [|case cases IH]; intros b c n; cbn [collect_outputs].
  - wp_step. split; [done|]. by intros acc [= <-].
  - wp_step. eapply wp_mono; [apply wp_complete_case|]. cbv beta.
    intros [[[x y] n1]|e] s1 [-> H1]; [|done]. specialize (H1 _ _ _ eq_refl).
    eapply wp_mono; [apply IH|]. cbv beta. intros r s' [-> H]. split; [done|]. intros acc Hacc.
    unfold answers. cbn [for_res]. rewrite H1. by apply H.
Qed.

(** What an evaluation records of the outputs collected. *)
Definition records (self : EvolutionEngine) (cases : list EvolutionEvalCase)
    (suite : option EvolutionBenchmarkSuite) (outputs : ShadowEvalOutputs) (ev : evaluation_row) : Prop :=
  score_with_benchmark cases suite (so_baseline_outputs outputs) (so_candidate_outputs outputs)
    = Ok (va_scorecard ev) ∧
  va_decision ev = decide_promotion (en_gate_config self) (va_scorecard ev) ∧
  va_baseline_candidate_id ev = so_baseline_candidate_id outputs.

Lemma wp_record_evaluation draft s :
  wp (record_evaluation draft) (λ r s', ∀ ev, r = Ok ev → va_scorecard ev = vd_scorecard draft ∧
    va_decision ev = vd_decision draft ∧ va_baseline_candidate_id ev = vd_baseline_candidate_id draft) s.
Proof.
  unfold record_evaluation. wp_step. wp_step; [|done]. do 2 wp_step.
  destruct (validate_gate _) as [[]|]; [|done]. do 4 wp_step. cbv beta iota. do 2 wp_step; [|done].
  do 2 wp_step. do 2 wp_step; [|done]. do 2 wp_step. wp_step. wp_step; [|done].
  set (row := {| va_id := vd_id draft |}). eapply wp_mono.
  { apply wp_of_stable with (R := λ s1 s2, evo_evaluations s2 = evo_evaluations s1).
    assert (PreOrder (λ s1 s2 : EvoDb, evo_evaluations s2 = evo_evaluations s1))
      by (split; [by intros ?|intros ???; congruence]).
    unfold insert_audit_event. stable_go. apply stable_sql_insert; [apply _|]. by intros ? _. }
  cbv beta. intros [[]|] s1 Hs1; [|done]. unfold get_evaluation. do 3 wp_step.
  cbn [tget evolution_evaluations]. rewrite Hs1. cbn [tset evolution_evaluations evo_evaluations].
  rewrite (find_snoc_new _ _ row) by (try done; apply String.eqb_refl).
  wp_step. cbn [fmap option_fmap option_map]. wp_step; [|done]. simplify_eq. by intros ev [= <-].
Qed.

Lemma wp_finalize self candidate cases suite outputs s :
  wp (finalize_shadow_evaluation self candidate cases suite outputs)
     (λ r s', frame s s' ∧ ∀ ev n, r = Ok (ev, n) →
        records self cases suite outputs ev ∧ n = so_response_bytes outputs) s.
Proof.
  apply wp_and.
  { apply wp_of_stable, frame_of_quiet, quiet_finalize, calm_quiet. }
  unfold finalize_shadow_evaluation. cbv zeta. do 2 wp_step.
  destruct (score_with_benchmark _ _ _ _) as [card|] eqn:E; [|done]. wp_step.
  eapply wp_mono; [apply (wp_of_stable (λ _ _, True)); by intros w|]. cbv beta. intros [id|] s1 _; [|done].
  wp_step. apply wp_store. eapply wp_mono; [apply wp_record_evaluation|]. cbv beta.
  intros [ev|] h Hev; [|done]. destruct (Hev ev eq_refl) as (E1 & E2 & E3). cbn in E1, E2, E3.
  destruct (decide_promotion _ _) eqn:Ed; (wp_step; eapply wp_mono; [apply (wp_of_stable (λ _ _, True)); by intros w|];
    cbv beta; intros [c|] s2 _; [|done]; wp_step; intros ev' n [= <- <-];
    split; [|done]; unfold records; rewrite E1, E2, E3; by split_and!).
Qed.

(** ** What an evaluation is frozen to *)

Record frozen : Type := {
  fz_cases : list EvolutionEvalCase;
  fz_tail : nat;
  fz_base : policy_parts;
  fz_patch : PromptPatch
}.

Definition shadow_of (id : string) (patch : PromptPatch) : policy_parts := Some (id, "shadow-evaluation", patch).

Definition fz_suite (self : EvolutionEngine) (f : frozen) : option EvolutionBenchmarkSuite :=
  if (0 <? fz_tail f)%nat then
    (λ suite, {| bs_id := bs_id suite; bs_version := bs_version suite;
                 bs_cases := drop (length (fz_cases f) - fz_tail f) (fz_cases f) |}) <$> en_benchmark_suite self
  else None.

(** The candidate's row holds the patch being evaluated. *)
Definition has_patch (id : string) (patch : PromptPatch) (s : EngineState) : Prop :=
  ∃ row, row ∈ evo_candidates (evo_of s) ∧ ca_id row = id ∧
    new_prompt_patch (ca_prompt_patch row) ABSOLUTE_MAX_PROMPT_PATCH_CHARS = Ok patch.

(** What a complete evaluation records. *)
Definition finishes (self : EvolutionEngine) (id : string) (f : frozen) (ev : evaluation_row) (n : N) : Prop :=
  ∃ b c, answers (fz_base f) (shadow_of id (fz_patch f)) (fz_cases f) (∅, ∅, 0%N) = Ok (b, c, n) ∧
    records self (take (length (fz_cases f) - fz_tail f) (fz_cases f)) (fz_suite self f)
      {| so_baseline_outputs := b; so_candidate_outputs := c;
         so_baseline_candidate_id := (λ p, p.1.1) <$> fz_base f; so_response_bytes := n |} ev.

(** A cursor that has got so far. *)
Record on_track (id : string) (f : frozen) (run : EvolutionEvalRun) : Prop := {
  ot_id : ev_candidate_id run = id;
  ot_cases : ev_cases run = fz_cases f;
  ot_tail : ev_benchmark_tail run = fz_tail f;
  ot_base : ev_baseline run = fz_base f;
  ot_answers : answers (fz_base f) (shadow_of id (fz_patch f)) (take (ev_case_index run) (fz_cases f)) (∅, ∅, 0%N)
    = Ok (ev_baseline_outputs run, ev_candidate_outputs run, ev_response_bytes run)
}.

Record tracks (id : string) (f : frozen) (s : EngineState) : Prop := {
  tk_inv : evo_inv (evo_of s);
  tk_patch : has_patch id (fz_patch f) s;
  tk_cursor : ∃ run, cursor id s = Some run ∧ on_track id f run
}.

Lemma patch_kept id patch s s' : candidates_le (evo_of s) (evo_of s') → has_patch id patch s → has_patch id patch s'.
Proof.
  intros (new & l & E & H) (row & Hrow & Hid & Hp).
  apply list_elem_of_lookup in Hrow as [i Hi]. eapply Forall2_lookup_l in H as (row' & Hi' & Hle); [|exact Hi].
  exists row'. split_and!.
  - rewrite E. apply elem_of_app. left. by eapply list_elem_of_lookup_2.
  - destruct Hle as [Ei _]. congruence.
  - destruct Hle as (_ & Ep & _). by rewrite Ep.
Qed.

Lemma patch_unique id p q s : evo_inv (evo_of s) → has_patch id p s → has_patch id q s → p = q.
Proof.
  intros Hi (r & Hr & Er & Hp) (r' & Hr' & Er' & Hq).
  assert (r = r') as -> by (eapply (nodup_key_inj ca_id); [apply ei_candidates, Hi|done|done|congruence]).
  congruence.
Qed.

Lemma tracks_frame id f s s' : frame s s' → tracks id f s → tracks id f s'.
Proof.
  intros [H1 H2 H3] [K1 K2 K3]. split; [by apply H1|by eapply patch_kept|]. unfold cursor. by rewrite H3.
Qed.

(** ** Writing the cursor *)

Lemma find_put (run : EvolutionEvalRun) l id :
  List.find (run_of id) (if existsb (run_of (ev_candidate_id run)) l
     then update_where (run_of (ev_candidate_id run)) (λ _, run) l else l ++ [run]) =
  if String.eqb (ev_candidate_id run) id then Some run else List.find (run_of id) l.
Proof.
  set (k := ev_candidate_id run).
  assert (Hrun : ∀ i, run_of i run = String.eqb k i) by done.
  assert (Hk : ∀ x, run_of k x = true → run_of id x = String.eqb k id).
  { intros x Hx%String.eqb_eq. unfold run_of. by rewrite Hx. }
  destruct (existsb _ l) eqn:E.
  - unfold update_where. induction l as [|x l IH]; [done|]. cbn in *. destruct (run_of k x) eqn:Ex; cbn.
    + rewrite Hrun. rewrite (Hk x Ex). destruct (String.eqb k id) eqn:Ei; [done|].
      destruct (existsb (run_of k) l) eqn:El; [by apply IH|].
      clear -El. f_equal. induction l as [|y l IH]; [done|]. cbn in *. apply orb_false_iff in El as [-> El].
      by rewrite IH.
    + destruct (run_of id x) eqn:Ei; [|by apply IH]. destruct (String.eqb k id) eqn:Eki; [|done].
      apply String.eqb_eq in Eki as ->. by rewrite Ei in Ex.
  - induction l as [|x l IH]; cbn in *; [by rewrite Hrun|]. apply orb_false_iff in E as [Ex E].
    destruct (run_of id x) eqn:Ei; [|by apply IH]. destruct (String.eqb k id) eqn:Eki; [|done].
    apply String.eqb_eq in Eki as ->. by rewrite Ei in Ex.
Qed.

Lemma find_cleared id l id' :
  List.find (run_of id') (List.filter (λ r, negb (run_of id r)) l) =
  if String.eqb id id' then None else List.find (run_of id') l.
Proof.
  induction l as [|x l IH]; [by destruct (String.eqb id id')|]. cbn. destruct (run_of id x) eqn:E; cbn.
  - rewrite IH. destruct (String.eqb id id') eqn:Ei; [done|].
    apply String.eqb_eq in E. unfold run_of. by rewrite E, Ei.
  - rewrite IH. destruct (String.eqb id id') eqn:Ei; [|done]. apply String.eqb_eq in Ei as <-. by rewrite E.
Qed.

(** The cursors of the other candidates. *)
Definition others (id : string) : relation EngineState := λ s s',
  ∀ id', id' ≠ id → cursor id' s' = cursor id' s.

#[local] Instance others_preorder id : PreOrder (others id).
Proof. split; [done|]. intros s1 s2 s3 H1 H2 id' Hne. by rewrite H2, H1. Qed.

Lemma frame_others id s s' : frame s s' → others id s s'.
Proof. intros [_ _ H] id' _. unfold cursor. by rewrite H. Qed.

Lemma wp_put_run run s :
  wp (store (upsert_eval_run run)) (λ r s', others (ev_candidate_id run) s s' ∧
    (evo_inv (evo_of s) → evo_inv (evo_of s')) ∧ candidates_le (evo_of s) (evo_of s') ∧
    cursor (ev_candidate_id run) s' = if is_ok r then Some run else cursor (ev_candidate_id run) s) s.
Proof.
  apply wp_store. intros w Hw. set (e := w_db (upsert_eval_run run w).2).
  assert (Hs : op_steps evo_exec (evo_of s) e) by (rewrite <- Hw; apply (op_stable evo_exec (ERun run))).
  assert (Hf : ∀ id, List.find (run_of id) (evo_runs e) =
      if is_ok (upsert_eval_run run w).1 && String.eqb (ev_candidate_id run) id then Some run
      else List.find (run_of id) (evo_runs (evo_of s))).
  { intros id. revert w Hw e Hs. intros w Hw e _. unfold e. clear e. revert w Hw.
    change (wp (upsert_eval_run run) (λ r e, List.find (run_of id) (evo_runs e) =
      if is_ok r && String.eqb (ev_candidate_id run) id then Some run
      else List.find (run_of id) (evo_runs (evo_of s))) (evo_of s)).
    apply wp_sql_upsert; intros _; [done|]. cbn [tget tset evolution_eval_runs evo_runs is_ok andb]. apply find_put. }
  split_and!.
  - intros id' Hne. unfold cursor. cbn. fold e. rewrite Hf.
    assert (String.eqb (ev_candidate_id run) id' = false) as -> by (apply String.eqb_neq; congruence).
    by rewrite andb_false_r.
  - by apply steps_inv.
  - by apply steps_candidates.
  - unfold cursor. cbn. fold e. rewrite Hf, String.eqb_refl, andb_true_r. done.
Qed.

Lemma wp_clear_run id s :
  wp (store (clear_eval_run id)) (λ r s', r = Ok tt ∧ others id s s' ∧ cursor id s' = None) s.
Proof.
  apply wp_store. unfold clear_eval_run. wp_step. split; [done|].
  assert (Hf : ∀ id', List.find (run_of id') (List.filter (λ r, negb (run_of id r)) (evo_runs (evo_of s))) =
    if String.eqb id id' then None else List.find (run_of id') (evo_runs (evo_of s))) by (intros; apply find_cleared).
  split; [intros id' Hne|]; unfold cursor; cbn; rewrite Hf.
  - assert (String.eqb id id' = false) as -> by (apply String.eqb_neq; congruence). done.
  - by rewrite String.eqb_refl.
Qed.

(** ** A step *)

Lemma take_lookup_S {A} (l : list A) i x : l !! i = Some x → take (i + 1) l = take i l ++ [x].
Proof. intros H. rewrite Nat.add_1_r. by apply take_S_r. Qed.

Lemma on_track_advance id f run case x y n :
  on_track id f run → ev_cases run !! ev_case_index run = Some case →
  answer_case (fz_base f) (shadow_of id (fz_patch f)) case
    (ev_baseline_outputs run, ev_candidate_outputs run, ev_response_bytes run) =
    Ok (<[ec_id case := x]> (ev_baseline_outputs run), <[ec_id case := y]> (ev_candidate_outputs run), n) →
  on_track id f (advance_run run case x y n).
Proof.
  intros [T1 T2 T3 T4 T5] Hcase Ha. split; try done. cbn [advance_run ev_case_index ev_baseline_outputs
    ev_candidate_outputs ev_response_bytes]. rewrite T2 in Hcase. rewrite (take_lookup_S _ _ _ Hcase).
  unfold answers in *. rewrite for_res_app, T5. cbn [mbind for_res]. unfold mbind, res_bind.
  cbn [for_res]. by rewrite Ha.
Qed.

Definition completed (r : res EvalStepOutcome) : bool :=
  match r with Ok (EvalCompleted _ _) => true | _ => false end.

(** What a step leaves: the next cursor, or the evaluation recorded. *)
Definition stepped (self : EvolutionEngine) (id : string) (f : frozen) (r : res EvalStepOutcome)
    (s' : EngineState) : Prop :=
  match r with Ok (EvalCompleted ev n) => finishes self id f ev n | _ => tracks id f s' end.

Lemma wp_advance self id f run m deadline s :
  tracks id f s → cursor id s = Some run →
  wp (advance_eval_run self id m deadline run) (stepped self id f) s.
Proof using Hreply.
  intros Ht Hrun. pose proof Ht as [Hi Hp (run' & Hrun' & Hot)]. rewrite Hrun in Hrun'. injection Hrun' as <-.
  unfold advance_eval_run. wp_step. eapply wp_mono; [apply wp_existing|]. cbv beta. intros r s1 [-> Hc].
  destruct r as [candidate|]; [|exact Ht]. specialize (Hc _ eq_refl) as (row & Hrow & Hid & Hcid & _ & Hpatch).
  assert (Hcp : shadow_policy candidate = shadow_of id (fz_patch f)).
  { unfold shadow_policy, shadow_of. rewrite Hcid. do 2 f_equal.
    eapply patch_unique; [exact Hi| |exact Hp]. by exists row. }
  wp_step. wp_step; [|exact Ht]. rename a into case. wp_step.
  eapply wp_mono; [apply (wp_complete_case case (ev_baseline run) candidate deadline m
    (ev_baseline_outputs run) (ev_candidate_outputs run) (ev_response_bytes run))|].
  cbv beta. intros [[[x y] n]|] s1 [-> Ha]; [|exact Ht]. specialize (Ha _ _ _ eq_refl).
  rewrite (ot_base _ _ _ Hot), Hcp in Ha. pose proof (on_track_advance _ _ _ _ _ _ _ Hot H Ha) as Hot'.
  cbv zeta. set (run' := advance_run run case x y n) in *. destruct (_ <? _)%nat eqn:E.
  - wp_step. eapply wp_mono; [apply wp_put_run|]. cbv beta.
    rewrite (ot_id _ _ _ Hot'). intros r s' (_ & Hi' & Hle & Hcur).
    assert (Ht' : tracks id f s').
    { split; [by apply Hi'|by eapply patch_kept|]. destruct r; cbn in Hcur; [by exists run'|by exists run; rewrite Hcur]. }
    destruct r as [[]|]; [wp_step; exact Ht'|exact Ht'].
  - unfold finish_eval_run. wp_step. eapply wp_mono; [apply wp_finalize|]. cbv beta.
    intros [[ev n']|] s1 [Hf Hr]; [|by eapply tracks_frame]. destruct (Hr _ _ eq_refl) as [Hrec ->].
    wp_step. eapply wp_mono; [apply wp_clear_run|]. cbv beta. intros r s2 (-> & _ & _). wp_step.
    cbn [stepped so_response_bytes]. destruct Hot' as [T1 T2 T3 T4 T5]. exists (ev_baseline_outputs run'), (ev_candidate_outputs run').
    split.
    + rewrite <- T5. apply Nat.ltb_ge in E. rewrite T2 in E. by rewrite take_ge by lia.
    + unfold frozen_suite in Hrec. unfold fz_suite. by rewrite <- T2, <- T3, <- T4.
Qed.

(** ** The first step, and an evaluation in one go *)

Definition same_cases (s s' : EvoDb) : Prop := evo_cases s' = evo_cases s.

#[local] Instance same_cases_preorder : PreOrder same_cases.
Proof. split; [done|]. intros a b c. unfold same_cases. congruence. Qed.

Lemma transition_cases c e n a d : stable same_cases (transition_candidate c e n a d).
Proof.
  unfold transition_candidate, insert_audit_event, get_candidate. stable_go.
  - by apply stable_sql_update.
  - apply stable_sql_insert; [apply _|]. by intros s _.
Qed.

(** What a step freezes when it is the first. *)
Definition frozen_of (self : EvolutionEngine) (patch : PromptPatch) (s : EngineState) : frozen :=
  {| fz_cases := order_by case_order (List.filter ec_enabled (evo_cases (evo_of s))) ++ suite_cases self;
     fz_tail := length (suite_cases self); fz_base := active_parts (eg_policy s); fz_patch := patch |}.

(** The candidate is not being evaluated. *)
Definition idle_candidate (id : string) (s : EngineState) : Prop :=
  ∀ row, row ∈ evo_candidates (evo_of s) → ca_id row = id → ca_status row ≠ CandEvaluating.

(** A transition leaves the suite and the policy served. *)
Lemma wp_transition c e n a d s :
  wp (store (transition_candidate c e n a d)) (λ r s', frame s s' ∧
    evo_cases (evo_of s') = evo_cases (evo_of s) ∧ eg_policy s' = eg_policy s) s.
Proof.
  apply wp_and; [|apply wp_and].
  - apply wp_of_stable, frame_of_quiet, engine_store. by apply quiet_transition.
  - apply wp_store. apply (wp_of_stable same_cases), transition_cases.
  - apply wp_store. by intros w _.
Qed.

Lemma wp_list_cases s :
  wp (store (list_eval_cases true)) (λ r s', s' = s ∧
    r = Ok (order_by case_order (List.filter ec_enabled (evo_cases (evo_of s))))) s.
Proof. apply wp_store. unfold list_eval_cases. do 3 wp_step. split; [by destruct s as [[]]|done]. Qed.

Lemma wp_collisions self cases s : wp (check_collisions self cases) (λ r s', s' = s) s.
Proof.
  apply (wp_foreach _ _ (λ s', s' = s)); [done| |done]. intros x s' _ ->. by wp_step.
Qed.

Lemma wp_active s : wp runtime_active (λ r s', s' = s ∧ r = Ok (eg_policy s)) s.
Proof. unfold runtime_active. do 3 wp_step. done. Qed.

Lemma idle_of_row id s row :
  evo_inv (evo_of s) → row ∈ evo_candidates (evo_of s) → ca_id row = id →
  ca_status row ≠ CandEvaluating → idle_candidate id s.
Proof.
  intros Hi Hrow Hid Hst row' Hrow' Hid'.
  assert (row' = row) as -> by (eapply (nodup_key_inj ca_id); [apply ei_candidates, Hi|done|done|congruence]). done.
Qed.

Lemma suite_has_cases suite u : validate_suite suite = Ok u → bs_cases suite ≠ [].
Proof.
  unfold validate_suite. intros H E. rewrite E in H. cbn in H.
  by destruct (bounded_nonblank 64 (bs_id suite)), (bounded_nonblank 64 (bs_version suite)).
Qed.

Lemma wp_one_go self id m deadline s :
  evo_inv (evo_of s) →
  wp (evaluate_candidate_with_limit self id m deadline) (λ r _, ∀ ev n, r = Ok (ev, n) →
    idle_candidate id s ∧ ∃ patch, has_patch id patch s ∧ finishes self id (frozen_of self patch s) ev n) s.
Proof using Hreply.
  intros Hi. unfold evaluate_candidate_with_limit. wp_step. eapply wp_mono; [apply wp_existing|]. cbv beta.
  intros r s1 [-> Hc]. destruct r as [candidate|]; [|done].
  specialize (Hc _ eq_refl) as (row & Hrow & Hid & Hcid & Hst & Hpatch).
  unfold evaluable. do 2 wp_step; [|done]. apply negb_true_iff, bool_decide_eq_false in H as Hne.
  wp_step. eapply wp_mono; [apply wp_transition|]. cbv beta. intros [c|] s1 (_ & Ec & Ep); [|done].
  do 2 wp_step. unfold evaluate_candidate_inner. wp_step. eapply wp_mono; [apply wp_list_cases|]. cbv beta.
  intros r s2 [-> ->]. wp_step. eapply wp_mono; [apply wp_collisions|]. cbv beta. intros [[]|e1] s2 ->;
    [|by apply wp_fails].
  wp_step. eapply wp_mono; [apply wp_active|]. cbv beta. intros r s2 [-> ->].
  wp_step. eapply wp_mono; [apply wp_collect_answers|]. cbv beta.
  intros [[[b k] n]|e1] s2 [-> Ha]; [|by apply wp_fails]. specialize (Ha _ eq_refl).
  eapply wp_mono; [apply wp_finalize|]. cbv beta. intros [[ev n']|e1] s2 [_ Hr]; [|by apply wp_fails].
  destruct (Hr _ _ eq_refl) as [Hrec ->]. cbv iota. wp_step. intros ev' n' [= <- <-]. cbn [so_response_bytes].
  rewrite Hst in Hne. split; [by eapply idle_of_row|]. exists (cn_prompt_patch candidate). split; [by exists row|].
  exists b, k. rewrite Ec in Ha, Hrec. rewrite Ep in Ha, Hrec. unfold shadow_policy in Ha. rewrite Hcid in Ha.
  split; [exact Ha|]. revert Hrec. unfold frozen_of, fz_suite. cbn [fz_cases fz_tail fz_base].
  rewrite length_app, Nat.add_sub, take_app_length, drop_app_length. unfold records. cbn.
  unfold suite_cases. destruct (en_benchmark_suite self) as [suite|]; cbn.
  - destruct (bs_cases suite) as [|bc bcs] eqn:Eb; cbn.
    + intros [(? & Hv & _)%bind_ok _]. by apply suite_has_cases in Hv.
    + destruct suite; cbn in *; subst. by destruct (eg_policy s).
  - by destruct (eg_policy s).
Qed.

Lemma wp_start_run self id patch s :
  evo_inv (evo_of s) → idle_candidate id s → has_patch id patch s →
  wp (start_eval_run self id) (λ r s', match r with
    | Ok run => cursor id s' = Some run ∧ tracks id (frozen_of self patch s) s'
    | Err _ => cursor id s' = cursor id s end) s.
Proof.
  intros Hi Hidle Hp. unfold start_eval_run. wp_step. eapply wp_mono; [apply wp_existing|]. cbv beta.
  intros r s1 [-> Hc]. destruct r as [candidate|]; [|done].
  specialize (Hc _ eq_refl) as (row & Hrow & Hid & Hcid & Hst & Hpatch).
  assert (Hne : bool_decide (cn_status candidate = CandEvaluating) = false).
  { apply bool_decide_eq_false_2. rewrite Hst. by apply (Hidle row). }
  rewrite Hne. do 2 wp_step. wp_step. wp_step. unfold evaluable. wp_step. wp_step; [|done].
  wp_step. eapply wp_mono; [apply wp_list_cases|]. cbv beta. intros r s1 [-> ->].
  wp_step. eapply wp_mono; [apply wp_collisions|]. cbv beta. intros [[]|] s1 ->; [|done].
  do 2 wp_step; [|done]. wp_step. eapply wp_mono; [apply wp_active|]. cbv beta. intros r s1 [-> ->].
  wp_step. eapply wp_mono; [apply wp_transition|]. cbv beta. intros r s1 (Hf & _ & _).
  destruct r as [c|]; [|unfold cursor; by rewrite (fr_runs _ _ Hf)].
  wp_step. eapply wp_mono; [apply (wp_of_stable eq); unfold new_evolution_id; stable_go|]. cbv beta.
  intros [rid|] s2 <-; [|unfold cursor; by rewrite (fr_runs _ _ Hf)]. cbv zeta. wp_step.
  set (run := {| ev_id := rid |}). eapply wp_mono; [apply (wp_put_run run)|]. cbv beta.
  change (ev_candidate_id run) with id. intros r s2 (_ & Hi' & Hle & Hcur).
  destruct r as [[]|]; cbn [is_ok] in Hcur; [|by rewrite Hcur; unfold cursor; rewrite (fr_runs _ _ Hf)].
  wp_step. split; [done|]. split.
  - by apply Hi', (fr_inv _ _ Hf).
  - eapply patch_kept; [exact Hle|]. eapply patch_kept; [exact (fr_candidates _ _ Hf)|exact Hp].
  - exists run. by split.
Qed.

(** The first step of an evaluation. *)
Lemma wp_first_step self id patch m deadline s :
  evo_inv (evo_of s) → idle_candidate id s → has_patch id patch s → cursor id s = None →
  wp (run_evaluation_step self id m deadline) (λ r s',
    stepped self id (frozen_of self patch s) r s' ∨ completed r = false ∧ cursor id s' = None) s.
Proof using Hreply.
  intros Hi Hidle Hp Hn. unfold run_evaluation_step. do 2 wp_step; [|by right]. wp_step. apply wp_store.
  unfold get_eval_run. wp_step. change (List.find _ _) with (cursor id s). rewrite Hn.
  assert (Es : {| eg_store := put_evo (evo_of s) (eg_store s); eg_policy := eg_policy s; eg_cycle := eg_cycle s |} = s)
    by (destruct s as [[] ? ?]; reflexivity).
  rewrite Es. wp_step. eapply wp_mono; [by apply wp_start_run|]. cbv beta. intros [run|] s' Hr.
  - destruct Hr as [Hrun Ht]. eapply wp_mono; [by apply wp_advance|]. cbv beta. by left.
  - right. by rewrite Hr.
Qed.

(** A later one. *)
Lemma wp_tracked_step self id f m deadline s :
  tracks id f s → wp (run_evaluation_step self id m deadline) (stepped self id f) s.
Proof using Hreply.
  intros Ht. unfold run_evaluation_step. do 2 wp_step; [|exact Ht]. wp_step. apply wp_store.
  unfold get_eval_run. wp_step. change (List.find _ _) with (cursor id s).
  assert (Es : {| eg_store := put_evo (evo_of s) (eg_store s); eg_policy := eg_policy s; eg_cycle := eg_cycle s |} = s)
    by (destruct s as [[] ? ?]; reflexivity).
  rewrite Es. destruct (tk_cursor _ _ _ Ht) as (run & Hrun & _). rewrite Hrun. do 2 wp_step. by apply wp_advance.
Qed.

(** ** Steps for other candidates *)

Lemma others_put id run : ev_candidate_id run = id → stable (others id) (store (upsert_eval_run run)).
Proof. intros <-. apply stable_of_wp. intros s. eapply wp_mono; [apply wp_put_run|]. by intros r s' [H _]. Qed.

Lemma others_clear id : stable (others id) (store (clear_eval_run id)).
Proof. apply stable_of_wp. intros s. eapply wp_mono; [apply wp_clear_run|]. by intros r s' (_ & H & _). Qed.

Lemma others_quiet {A} id (m : M EngineState A) : stable (engine_quiet calm_op) m → stable (others id) m.
Proof. intros H w. apply frame_others, quiet_frame, H. Qed.

Lemma others_transition id c e n a d : stable (others id) (store (transition_candidate c e n a d)).
Proof. apply others_quiet, engine_store. by apply quiet_transition. Qed.

Lemma others_read {A} id (m : M EvoDb A) : stable eq m → stable (others id) (store m).
Proof. intros H. apply others_quiet, engine_store. by apply quiet_read. Qed.

#[local] Hint Resolve others_clear others_transition : stab.

Lemma others_advance self id m deadline run :
  ev_candidate_id run = id → stable (others id) (advance_eval_run self id m deadline run).
Proof.
  intros Hid. unfold advance_eval_run, finish_eval_run. cbv zeta. stable_go.
  - by apply others_quiet, quiet_existing.
  - by apply others_quiet, quiet_complete_case.
  - by apply others_put.
  - by apply others_quiet, quiet_finalize, calm_quiet.
Qed.

Lemma others_start self id : stable (others id) (start_eval_run self id).
Proof.
  unfold start_eval_run, evaluable, check_collisions, new_evolution_id. cbv zeta. stable_go;
    first [by apply others_put|by apply others_quiet, quiet_existing|by apply others_quiet, quiet_active
          |apply others_read, read_get_candidate|apply others_read, read_list_cases].
Qed.

Lemma start_run_id self id s :
  wp (start_eval_run self id) (λ r _, ∀ run, r = Ok run → ev_candidate_id run = id) s.
Proof.
  unfold start_eval_run, check_collisions. cbv zeta.
  repeat (apply (wp_bind_stable (λ _ _, True)); [by intros ?|by intros ? ? _ ?|clear s; intros ? s _]).
  wp_step. by intros run [= <-].
Qed.

Lemma others_step self id m deadline : stable (others id) (run_evaluation_step self id m deadline).
Proof.
  apply stable_of_wp. intros s. unfold run_evaluation_step. do 2 wp_step; [|done]. wp_step. apply wp_store.
  unfold get_eval_run. wp_step.
  assert (Es : {| eg_store := put_evo (evo_of s) (eg_store s); eg_policy := eg_policy s; eg_cycle := eg_cycle s |} = s)
    by (destruct s as [[] ? ?]; reflexivity).
  rewrite Es. destruct (List.find _ _) as [run|] eqn:E.
  - apply List.find_some in E as [_ E%String.eqb_eq]. do 2 wp_step. by apply wp_of_stable, others_advance.
  - wp_step. eapply wp_mono; [apply wp_and; [apply wp_of_stable, (others_start self id)|apply start_run_id]|].
    cbv beta. intros [run|] s1 [Ho Hid]; [|done]. specialize (Hid _ eq_refl).
    eapply wp_mono; [by apply wp_of_stable, others_advance|]. cbv beta. intros r s2 H2. by etrans.
Qed.

(** ** An evaluation under way *)

(** From [s0] the first step left a cursor; steps that do not complete, and anything but a
    step of this evaluation, follow. *)
Inductive under_way (self : EvolutionEngine) (id : string) (s0 : EngineState) : EngineState → Prop :=
| under_way_first m deadline w :
    w_db w = s0 → completed (run_evaluation_step self id m deadline w).1 = false →
    cursor id (w_db (run_evaluation_step self id m deadline w).2) ≠ None →
    under_way self id s0 (w_db (run_evaluation_step self id m deadline w).2)
| under_way_step m deadline w :
    under_way self id s0 (w_db w) → completed (run_evaluation_step self id m deadline w).1 = false →
    under_way self id s0 (w_db (run_evaluation_step self id m deadline w).2)
| under_way_other op w :
    under_way self id s0 (w_db w) → (∀ m deadline, op ≠ GStep id m deadline) →
    under_way self id s0 (w_db (engine_exec self op w).2).

Lemma tracks_other self id f op w :
  (∀ m deadline, op ≠ GStep id m deadline) → tracks id f (w_db w) → tracks id f (w_db (engine_exec self op w).2).
Proof.
  intros Hop Ht. destruct (is_step op) eqn:E.
  - destruct op; try discriminate E. destruct (decide (candidate_id = id)) as [->|Hne].
    { by destruct (Hop max_response_bytes deadline). }
    pose proof (engine_refines self (GStep candidate_id max_response_bytes deadline) w) as Hs.
    destruct Ht as [H1 H2 H3]. split.
    + by eapply steps_inv.
    + by eapply patch_kept; [apply steps_candidates|].
    + cbn [engine_exec]. rewrite unit_of_db. rewrite others_step by congruence. exact H3.
  - eapply tracks_frame; [by apply frame_op|exact Ht].
Qed.

Lemma under_way_tracks self id patch s0 s :
  evo_inv (evo_of s0) → idle_candidate id s0 → has_patch id patch s0 → cursor id s0 = None →
  under_way self id s0 s → tracks id (frozen_of self patch s0) s.
Proof using Hreply.
  intros Hi Hidle Hp Hn. induction 1 as [m deadline w Hw Hc Hcur|m deadline w _ IH Hc|op w _ IH Hop].
  - destruct (wp_first_step self id patch m deadline s0 Hi Hidle Hp Hn w Hw) as [H|[_ H]]; [|done].
    by destruct (run_evaluation_step self id m deadline w) as [[[]|] w'].
  - pose proof (wp_tracked_step self id _ m deadline _ IH w eq_refl) as H.
    by destruct (run_evaluation_step self id m deadline w) as [[[]|] w'].
  - by apply tracks_other.
Qed.

Lemma finishes_unique self id f ev ev' n n' :
  finishes self id f ev n → finishes self id f ev' n' →
  va_scorecard ev' = va_scorecard ev ∧ va_decision ev' = va_decision ev ∧
  va_baseline_candidate_id ev' = va_baseline_candidate_id ev ∧ n' = n.
Proof.
  intros (b & c & Ha & H1 & H2 & H3) (b' & c' & Ha' & H1' & H2' & H3'). rewrite Ha in Ha'.
  injection Ha' as <- <- <-. cbn in *. rewrite H1 in H1'. injection H1' as E. rewrite <- E in H2'.
  split_and!; congruence.
Qed.
End replies.

(** C21: Resumed evaluation agrees with evaluation in one go: with a provider that answers
    equal requests alike, an evaluation made a case at a time - with steps that fail and
    are retried, suites edited, policies deployed or rolled back and other candidates
    evaluated in between - records the scorecard, the decision, the baseline and the bytes
    spent that one evaluation in one go, made when it began, would have recorded. *)
Theorem resumed_evaluation_agrees (reply : list StoredMessage → res string) self id s0 m0 deadline0 w0 one n w0'
    m deadline w resumed n' w' :
  (∀ i messages, ep_complete i false messages = reply messages) →
  evo_reachable (evo_of s0) → cursor id s0 = None →
  w_db w0 = s0 → evaluate_candidate_bounded_until self id m0 deadline0 w0 = (Ok (one, n), w0') →
  w_db w = s0 ∨ under_way self id s0 (w_db w) →
  run_evaluation_step self id m deadline w = (Ok (EvalCompleted resumed n'), w') →
  va_scorecard resumed = va_scorecard one ∧ va_decision resumed = va_decision one ∧
  va_baseline_candidate_id resumed = va_baseline_candidate_id one ∧ n' = n.
Proof.
  intros Hreply Hr Hn Hw0 Hone Hs Hstep. pose proof (evo_reachable_inv _ Hr) as Hi.
  assert (H1 : wp (evaluate_candidate_bounded_until self id m0 deadline0) (λ r _, ∀ ev k, r = Ok (ev, k) →
    idle_candidate id s0 ∧ ∃ patch, has_patch id patch s0 ∧
      finishes reply self id (frozen_of self patch s0) ev k) s0).
  { unfold evaluate_candidate_bounded_until. do 2 wp_step; [|done]. by apply wp_one_go. }
  specialize (H1 w0 Hw0). rewrite Hone in H1.
  destruct (H1 _ _ eq_refl) as (Hidle & patch & Hp & Hf).
  apply (finishes_unique reply self id (frozen_of self patch s0)); [exact Hf|]. destruct Hs as [Hw|Hu].
  - destruct (wp_first_step reply Hreply self id patch m deadline s0 Hi Hidle Hp Hn w Hw) as [H|[H _]];
      rewrite Hstep in H; [exact H|done].
  - pose proof (under_way_tracks reply Hreply self id patch s0 _ Hi Hidle Hp Hn Hu) as Ht.
    pose proof (wp_tracked_step reply Hreply self id _ m deadline _ Ht w eq_refl) as H.
    rewrite Hstep in H. exact H.
Qed.
End eval_facts.
