(* ===== verification/MemWitnesses.v ===== *)
(** * The memory store's theorems at work

    Concrete stores, made by running operations from the empty one, and the theorems about
    jobs, the channel edge, conversations, recorded runs and the evolution applied to them. *)

From S2P Require Import Prelude Text Messages External Verifier Domain Tables Instances MemBase Jobs.
From S2P Require Import Outbox Conversation Floats SwarmAudit TrajStore TrajFacts EvoDomain EvoStore.
From S2P Require Import EvoFacts Harness RunLog RunFacts EvoEngine EvoCycle EngineFacts.

(** ** Running operations *)

Section run.
  Context {S Op : Type} (exec : Op → M S unit).

Definition run_op (n : nat) (op : Op) (s : S) : S := w_db (exec op (World s n (N.of_nat n))).2.

(** The operations one after the other, ten ticks of the clock apart. *)
Fixpoint run_ops (n : nat) (ops : list Op) (s : S) : S :=
  match ops with [] => s | op :: ops' => run_ops (n + 10) ops' (run_op n op s) end.

Lemma run_ops_steps n ops s : op_steps exec s (run_ops n ops s).
Proof.
  revert n s. induction ops as [|op ops IH]; intros n s; cbn [run_ops]; [apply rtc_refl|].
  eapply rtc_l; [|apply IH]. by exists op, (World s n (N.of_nat n)).
Qed.

Lemma run_ops_where (P : Op → Prop) n ops s : Forall P ops → op_steps_where exec P s (run_ops n ops s).
Proof.
  intros H. revert n s. induction H as [|op ops Hop _ IH]; intros n s; cbn [run_ops]; [apply rtc_refl|].
  eapply rtc_l; [|apply IH]. by exists op, (World s n (N.of_nat n)).
Qed.
End run.

(** ** Scheduler jobs *)

Definition a_job (id : string) (next_run : Z) : CreateTelegramSchedulerJobRequest :=
  {| cj_id := id; cj_channel := "telegram"; cj_chat_id := 7; cj_thread_id := None; cj_owner := 5;
     cj_status := JobActive; cj_task_kind := TaskReminder; cj_payload := "water the plants";
     cj_schedule_kind := KindOnce; cj_timezone := "UTC"; cj_run_at := Some next_run;
     cj_cron_expr := None; cj_policy_json := None; cj_next_run := Some next_run; cj_max_runs := None |}.

Definition completion (token : string) (completed : bool) : CompleteTelegramSchedulerJobRunRequest :=
  {| co_channel := "telegram"; co_chat_id := 7; co_job_id := "job-1"; co_lease_token := token;
     co_started_at := 110; co_finished_at := 111; co_next_run := None; co_mark_completed := completed |}.

Definition failure (token : string) : FailTelegramSchedulerJobRunRequest :=
  {| fj_channel := "telegram"; fj_chat_id := 7; fj_job_id := "job-1"; fj_lease_token := token;
     fj_started_at := 110; fj_finished_at := 111; fj_next_run := Some 200%Z; fj_pause_job := false;
     fj_error := "send failed" |}.

Definition two_jobs : JobsDb := run_ops job_exec 0 [JCreate (a_job "job-1" 100); JCreate (a_job "job-2" 90)] empty_jobs.

Lemma two_jobs_reachable : jobs_reachable two_jobs.
Proof. apply run_ops_steps. Qed.

Lemma claim_hands_out_due_jobs_witness :
  wp (claim_due_telegram_scheduler_jobs "telegram" 120 1 30 "lease-1")
     (λ r s', ∃ claimed, r = Ok claimed ∧ length claimed = 1) two_jobs.
Proof.
  eapply wp_mono; [apply (claim_hands_out_due_jobs (CLK := concrete_clock) "telegram" 120 1 30 "lease-1")|].
  - apply two_jobs_reachable.
  - intros j Hj. assert (H : jb_lease_token <$> jobs two_jobs = [None; None]) by (vm_compute; reflexivity).
    apply (list_elem_of_fmap_2 jb_lease_token) in Hj. rewrite H in Hj. set_solver.
  - cbv beta. intros r s' (chosen & t & _ & Hl & _ & _ & (claimed & -> & Hp) & _).
    exists claimed. split; [reflexivity|]. rewrite Hp, length_fmap, Hl. vm_compute. reflexivity.
Defined.

(** The first job was claimed, its lease ran out, and another worker claimed it. *)
Definition reclaimed_job : JobsDb :=
  run_ops job_exec 0 [JCreate (a_job "job-1" 100); JClaim "telegram" 120 1 30 "lease-1";
                      JClaim "telegram" 200 1 30 "lease-2"] empty_jobs.

Lemma lost_lease_settles_nothing_witness :
  let later := run_ops job_exec 40 [JComplete (completion "lease-2" false)] reclaimed_job in
  wp (complete_telegram_scheduler_job_run (completion "lease-1" true)) (λ r s, is_ok r = false ∧ s = later) later ∧
  wp (fail_telegram_scheduler_job_run (failure "lease-1")) (λ r s, is_ok r = false ∧ s = later) later.
Proof.
  intros later.
  assert (Hl : lost "telegram" 7 "job-1" "lease-1" reclaimed_job).
  { assert (E : forallb (λ j, negb (held "telegram" 7 "job-1" "lease-1" j)) (jobs reclaimed_job) = true)
      by (vm_compute; reflexivity).
    rewrite forallb_forall in E. intros j Hj Hh. apply held_spec in Hh.
    apply list_elem_of_In, E in Hj. rewrite Hh in Hj. discriminate Hj. }
  destruct (lost_lease_settles_nothing (CLK := concrete_clock) reclaimed_job later
    (completion "lease-1" true) (failure "lease-1")) as [H1 H2].
  - exact Hl.
  - exact Hl.
  - reflexivity.
  - apply run_ops_where. constructor; [|constructor]. intros [].
  - split; (eapply wp_mono; [first [exact H1|exact H2]|]); cbv beta; by intros r s [-> ->].
Defined.

Definition completed_job : JobsDb :=
  run_ops job_exec 0 [JCreate (a_job "job-1" 100); JClaim "telegram" 120 1 30 "lease-1";
                      JComplete (completion "lease-1" true)] empty_jobs.

Lemma finished_jobs_are_final_witness :
  let later := run_ops job_exec 40 [JStatus "telegram" 7 5 "job-1" JobActive;
                                    JClaim "telegram" 300 5 30 "lease-3"] completed_job in
  ∃ j, jobs completed_job !! 0 = Some j ∧ jobs later !! 0 = Some j.
Proof.
  intros later. destruct (jobs completed_job !! 0) as [j|] eqn:Ej; [|by vm_compute in Ej].
  exists j. split; [done|].
  assert (Hfin : job_finished <$> (jobs completed_job !! 0) = Some true) by (vm_compute; reflexivity).
  destruct (finished_jobs_are_final (CLK := concrete_clock) completed_job later 0 j) as [(j' & H & _ & _ & Hf) _];
    [apply run_ops_steps|apply run_ops_steps|exact Ej|].
  rewrite Ej in Hfin. injection Hfin as Hfin. by rewrite H, (Hf Hfin).
Defined.

(** ** The channel edge *)

#[local] Instance failing_send : OutboundSend := λ _ _, Err "timed out".

Lemma update_taken_up_at_most_thrice_witness :
  let again := EAdmit 7 "message" "{}" 5 in
  ∃ n, (times_taken_up 7 [again; again; again; again; again] (World empty_channel 0 0)).1 = Ok n ∧
       (Z.of_nat n ≤ TELEGRAM_ADMISSION_MAX_ATTEMPTS)%Z.
Proof.
  intros again. apply (update_taken_up_at_most_thrice (CLK := concrete_clock) (SEND := failing_send) 7).
  reflexivity.
Defined.

Definition a_message (text : string) : EnqueueTelegramOutboundRequest :=
  {| eq_channel := "telegram"; eq_chat_id := 7; eq_thread_id := None; eq_reply_to := None;
     eq_text := text; eq_session_id := None |}.

Definition queued_store : ChannelDb :=
  run_ops (λ op, unit_of (edge_exec op)) 0 [EEnqueue (a_message "hello"); EEnqueue (a_message "bye")] empty_channel.

Lemma drain_settles_or_puts_off_witness :
  wp drain_outbound_queue (λ r s', r = Ok tt) queued_store.
Proof.
  eapply wp_mono; [apply (drain_settles_or_puts_off (CLK := concrete_clock) (SEND := failing_send))|].
  - apply (bool_decide_eq_true_1 (NoDup (queue_ids queued_store))). vm_compute. reflexivity.
  - cbv beta. by intros r s' [-> _].
Defined.

(** ** Conversations *)

Definition said (text : string) : StoredMessage := {| role := User; content := text |}.

Definition talk : ConvDb :=
  run_ops conv_exec 0 [VAppend "tg:7" (said "hi"); VAppend "tg:8" (said "elsewhere"); VAppend "tg:7" (said "again")]
    empty_conv.

Lemma talk_reachable : conv_reachable talk.
Proof. apply run_ops_steps. Qed.

Lemma recent_messages_are_the_session_end_witness :
  wp (load_recent "tg:7" 1) (λ r s', s' = talk ∧ r = Ok [said "again"]) talk.
Proof.
  destruct (recent_messages_are_the_session_end (CLK := concrete_clock) "tg:7" 1 talk talk_reachable) as [H _].
  eapply wp_mono; [exact H|]. cbv beta. intros r s' [-> ->]. split; [reflexivity|]. vm_compute. reflexivity.
Defined.

Definition a_summary : CompactionSummaryUpsertRequest :=
  {| us_session_id := "tg:7"; us_strategy := "head_tail"; us_source_hash := "h1";
     us_source_message_ids := [1; 3]%Z; us_source_first_message_id := Some 1%Z;
     us_source_last_message_id := Some 3%Z; us_source_message_count := 2;
     us_summary := "greetings"; us_tokens_saved := 12 |}.

Lemma compaction_summary_roundtrip_witness :
  wp (upsert_compaction_summary a_summary ;; load_compaction_summary "tg:7" "head_tail" "h1")
     (λ r s', ∃ record, r = Ok (Some record) ∧ sm_summary record = "greetings") talk.
Proof.
  eapply wp_mono.
  { apply (compaction_summary_roundtrip (CLK := concrete_clock) a_summary talk talk_reachable);
      vm_compute; reflexivity. }
  cbv beta. intros r s' (record & -> & _ & _ & _ & _ & _ & H & _). by exists record.
Defined.

(** ** Recorded runs *)

#[export] Instance second_times : DateTimes := λ t, Some (t * 1000000000)%Z.

Definition a_call (index : nat) (ok : bool) : ToolCallRecord :=
  {| tc_call_index := index; tc_server := "files"; tc_tool := "read"; tc_arguments := VObject [];
     tc_result := VObject [("verification_failed", VBool (negb ok))]; tc_ok := ok; tc_duration_ms := 12;
     tc_iteration := index |}.

Definition runs : TrajDb :=
  run_ops traj_exec 0
    [TStart "traj-1" "tg:7" "telegram" "5" "m1"; TCall "traj-1" (a_call 0 true); TCall "traj-1" (a_call 1 false);
     TFinish "traj-1" (Some "done") FinalAnswer; TStart "traj-2" "tg:8" "telegram" "6" "m1"] empty_traj.

Lemma runs_reachable : traj_reachable runs.
Proof. apply run_ops_steps. Qed.

Definition a_run : TrajectoryRecord :=
  {| tj_id := "traj-1"; tj_session_id := "tg:7"; tj_channel := "telegram"; tj_user_id := "5";
     tj_started_at := 0; tj_finished_at := Some 30000000000%Z; tj_tool_calls := [a_call 0 true; a_call 1 false];
     tj_final_answer := Some "done"; tj_exit_reason := FinalAnswer; tj_model := "m1"; tj_total_tokens := None |}.

Lemma score_is_the_documented_formula_witness : sc_score (compute_run_scorecard a_run 40) = 78%Z.
Proof.
  destruct (score_is_the_documented_formula (ENV := concrete_env) a_run 40) as [-> _];
    [cbn; lia|vm_compute; reflexivity].
Defined.

Definition telegram_runs : TrajectoryFilter :=
  {| tf_session_id := None; tf_channel := Some "telegram"; tf_user_id := None; tf_exit_reason := None;
     tf_has_tool_errors := Some true; tf_limit := 10 |}.

Lemma listed_runs_are_the_runs_read_witness :
  wp (query_trajectories telegram_runs)
     (λ r s', s' = runs ∧ ∃ record, r = Ok [record] ∧
        wp (get_trajectory "traj-1") (λ r' s'', s'' = runs ∧ r' = Ok (Some record)) runs) runs.
Proof.
  eapply wp_mono.
  { apply (listed_runs_are_the_runs_read (ENV := concrete_env) (DT := second_times) runs telegram_runs runs_reachable).
    apply Forall_forall. intros r _. by eexists. }
  cbv beta. intros r s' (-> & records & -> & H). split; [reflexivity|].
  assert (E : tr_id <$> take (clamp_trajectory_query_limit (tf_limit telegram_runs))
    (order_by newest_started_first (List.filter (run_matches runs telegram_runs) (trajectories runs))) = ["traj-1"])
    by (vm_compute; reflexivity).
  destruct (take _ _) as [|row [|]]; [done| |done]. injection E as E.
  inversion H as [|? record ? ? Hrec Hrest]; subst. inversion Hrest; subst. exists record. split; [reflexivity|].
  by rewrite E in Hrec.
Defined.

(** ** A run that is followed *)

Definition runs_harness : HarnessDb := {| hd_loop := Tables.empty_db; hd_traj := runs; hd_evo := empty_evo |}.

Definition a_session : list run_event :=
  [RProvider [said "hi"] false "let me look"; RTool (a_call 7 true); RTool (a_call 7 false);
   RProvider [said "hi"] false "done"].

Lemma run_is_recorded_witness :
  wp (a ← run_session "tg:9" "telegram" "5" "m1" a_session (ExitFinalAnswer "done");
      record ← on_traj (get_trajectory (rn_id (ag_trajectory a)));
      mret (ag_trajectory a, record))
     (λ r h', ∃ run record, r = Ok (run, record) ∧
        (rn_started run = true → ∃ recorded, record = Some recorded ∧
           tc_call_index <$> tj_tool_calls recorded = [0; 1])) runs_harness.
Proof.
  eapply wp_mono.
  { apply (run_is_recorded (ENV := concrete_env) (DT := second_times) "tg:9" "telegram" "5" "m1" a_session
      (ExitFinalAnswer "done") runs_harness).
    - exact runs_reachable.
    - unfold a_session. repeat apply Forall_cons_2; try apply Forall_nil_2; cbn; unfold i64_max_z; (exact I || lia).
    - cbn. unfold i64_max_z. lia. }
  cbv beta. intros r h' (run & record & -> & H & _). exists run, record. split; [reflexivity|].
  intros Hs. destruct (H Hs) as (recorded & -> & _ & _ & _ & _ & _ & E & _). exists recorded.
  split; [reflexivity|]. rewrite E. reflexivity.
Defined.

(** * The evolution store's theorems at work

    A candidate taken from its draft to production and back, and the theorems about the
    evolution store applied to it. *)

#[export] Instance plain_details : Serialize edetails := λ l, Ok (bytes (String.concat "," (fst <$> l))).

Definition a_scorecard : EvolutionScorecard :=
  {| es_baseline_score := f64_zero; es_candidate_score := f64_of_Z 1; es_score_delta := f64_of_Z 1;
     es_regressions := 0; es_benchmark_regressions := 0; es_benchmark_suite := None;
     es_baseline_passed_cases := 0; es_candidate_passed_cases := 3; es_total_cases := 3;
     es_case_results := [] |}.

Definition an_evaluation (id candidate : string) (baseline : option string) : EvolutionEvaluationDraft :=
  {| vd_id := id; vd_candidate_id := candidate; vd_baseline_candidate_id := baseline;
     vd_scorecard := a_scorecard; vd_decision := DecisionReady; vd_gate_config := default_gate |}.

(** From the draft to the approval of a candidate evaluated against [baseline]. *)
Definition approve_ops (candidate : string) (baseline : option string) : list evo_op :=
  [ECreate candidate baseline None (candidate +:+ ": be brief") 4000 "shorter answers" [] "system:evolution";
   ETransition candidate CandDraft CandEvaluating "human:ops" [];
   EEvaluation (an_evaluation ("eval-" +:+ candidate) candidate baseline);
   ETransition candidate CandEvaluating CandReady "human:ops" [];
   ETransition candidate CandReady CandApproved "human:ops" []].

Definition approved_store : EvoDb := run_ops evo_exec 0 (approve_ops "c1" None) empty_evo.

Lemma approved_store_reachable : evo_reachable approved_store.
Proof. apply run_ops_steps. Qed.

Lemma activation_is_gated_witness :
  wp (activate_candidate "c1" "human:ops" "looks good")
     (activated "c1" "human:ops" "looks good" approved_store) approved_store ∧
  is_ok (activate_candidate "c1" "human:ops" "looks good" (World approved_store 90 9)).1 = true.
Proof.
  split.
  - apply (activation_is_gated (CLK := concrete_clock) (DT := second_times) (SER := plain_details)),
      approved_store_reachable.
  - vm_compute. reflexivity.
Defined.

(** The first candidate is active and a second one is approved against it. *)
Definition second_approved : EvoDb :=
  run_ops evo_exec 0 (approve_ops "c1" None ++ [EActivate "c1" "human:ops" "looks good"] ++
                      approve_ops "c2" (Some "c1")) empty_evo.

Lemma second_approved_reachable : evo_reachable second_approved.
Proof. apply run_ops_steps. Qed.

Lemma rollback_restores_the_previous_policy_witness :
  ∃ d w', activate_candidate "c2" "human:ops" "better" (World second_approved 200 20) = (Ok d, w') ∧
  let later := run_ops evo_exec 300 [EAudit (Some "c2") None "note" "human:ops" []] (w_db w') in
  wp (rollback_active "human:ops" "worse after all")
     (λ r s', ∀ res, r = Ok res → evo_active s' = evo_active second_approved) later.
Proof.
  destruct (activate_candidate "c2" "human:ops" "better" (World second_approved 200 20)) as [[d|e] w'] eqn:E;
    [|by vm_compute in E].
  exists d, w'. split; [reflexivity|]. intros later. eapply wp_mono.
  { apply (rollback_restores_the_previous_policy (CLK := concrete_clock) (DT := second_times)
      (SER := plain_details) "c2" "human:ops" "better" "human:ops" "worse after all"
      (World second_approved 200 20) d w').
    - exact second_approved_reachable.
    - exact E.
    - apply run_ops_where. by repeat constructor. }
  cbv beta. intros r s' H res ->. cbn [w_db] in H. destruct H as (_ & H & _). exact H.
Defined.

Lemma candidates_keep_their_patch_witness :
  let later := run_ops evo_exec 100 [EActivate "c1" "human:ops" "looks good";
                                     ETransition "c1" CandApproved CandEvaluating "human:ops" []] approved_store in
  ∀ c, c ∈ evo_candidates approved_store → ∃ c', c' ∈ evo_candidates later ∧ candidate_le c c'.
Proof.
  intros later c Hc.
  apply (candidates_keep_their_patch (CLK := concrete_clock) (DT := second_times) (SER := plain_details) approved_store);
    [apply run_ops_steps|exact Hc].
Defined.

Lemma evolution_tables_agree_witness : evo_inv second_approved.
Proof.
  apply (evolution_tables_agree (CLK := concrete_clock) (DT := second_times) (SER := plain_details)).
  exact second_approved_reachable.
Defined.

(** * The evolution engine's theorems at work

    An engine started on a store with an approved candidate: a human puts the candidate
    live, the system alone cannot, and an evaluation proceeds a case at a time. *)

#[export] Instance no_parse : @JsonParse value_json := λ _, None.
#[export] Instance minus_floats : FloatText := λ _, "-1".
#[export] Instance one_hour : HourBucket := λ _, "1970-01-01T00".

(** A provider that answers a policed request with [ok] and any other with [hello]. *)
#[export] Instance terse_provider : EvolutionProvider := {|
  ep_complete := λ _ _ messages, Ok (if (length messages =? 1)%nat then "hello" else "ok");
  ep_times_out := λ _ _, false;
  ep_model_name := Some "m1"
|}.

#[export] Instance plain_text : EvolutionText := {|
  evidence_text := λ _, "{}"; json_text := λ _, "null"; detail_text := λ _, "null";
  proposal_parse := λ _, Err "expected value"
|}.

Definition ops_harness : HarnessDb := {| hd_loop := empty_db; hd_traj := runs; hd_evo := approved_store |}.

Definition the_engine : EvolutionEngine :=
  {| en_gate_config := default_gate; en_benchmark_suite := None; en_max_source_trajectories := 20;
     en_max_evidence_chars := N.to_nat 8000; en_has_harness_store := false |}.

Definition started_engine : EngineState :=
  {| eg_store := ops_harness; eg_policy := None; eg_cycle := idle_cycle |}.

(** What the system tries on its own. *)
Definition unattended_ops : list engine_op :=
  [GCycle; GEvaluate "c1" 1000 None; GApprove "c1" (SystemActor "evolution-engine") "looks good";
   GActivate "c1" (SystemActor "evolution-engine") "looks good"; GReview].

Definition after_unattended : EngineState := run_ops (engine_exec the_engine) 400 unattended_ops started_engine.

Lemma nothing_goes_live_unattended_witness :
  evo_deployments (evo_of after_unattended) = [] ∧ eg_policy after_unattended = None.
Proof.
  destruct (nothing_goes_live_unattended the_engine started_engine after_unattended) as (H1 & _ & H3 & _).
  - reflexivity.
  - apply run_ops_where. by repeat constructor.
  - split; [|exact H3]. rewrite H1. vm_compute. reflexivity.
Defined.

(** What an operator does. *)
Definition attended_ops : list engine_op :=
  [GActivate "c1" (Human "ops") "looks good"; GCycle; GEvaluate "c1" 1000 None].

Definition before_start : world HarnessDb := World ops_harness 399 9.

Definition at_start : world HarnessDb := (new_engine default_gate before_start).2.

Definition after_attended : EngineState :=
  run_ops (engine_exec the_engine) 400 attended_ops
    {| eg_store := w_db at_start; eg_policy := None; eg_cycle := idle_cycle |}.

Lemma pair_of {A B} (p : A * B) a : p.1 = a → p = (a, p.2).
Proof. by intros <-; destruct p. Qed.

Lemma engine_starts : new_engine default_gate before_start = (Ok (the_engine, None), at_start).
Proof. unfold at_start. apply pair_of. vm_compute. reflexivity. Qed.

Lemma ops_harness_reachable : evo_reachable (hd_evo (w_db before_start)).
Proof. cbn [w_db hd_evo before_start ops_harness]. exact approved_store_reachable. Qed.

Lemma served_policy_is_stored_witness :
  stored_policy (evo_of after_attended) = Ok (eg_policy after_attended) ∧
  ap_candidate_id <$> eg_policy after_attended = Some "c1".
Proof.
  split; [|vm_compute; reflexivity].
  apply (served_policy_is_stored default_gate the_engine None the_engine before_start at_start after_attended).
  - exact ops_harness_reachable.
  - exact engine_starts.
  - apply run_ops_steps.
Defined.

(** ** An evaluation in two steps *)

Definition short_case (id : string) : EvolutionEvalCase :=
  {| ec_id := id; ec_name := id; ec_input := "hi";
     ec_assertions := {| ea_required_substrings := []; ea_forbidden_substrings := [];
                         ea_require_json := false; ea_max_output_chars := Some 3%N |};
     ec_weight := f64_of_Z 1; ec_enabled := true |}.

Definition drafted_store : EvoDb :=
  run_ops evo_exec 0 [ECreate "c1" None None "be brief" 4000 "shorter answers" [] "system:evolution";
                      ECase (short_case "greet") "human:ops"; ECase (short_case "part") "human:ops"] empty_evo.

Lemma drafted_store_reachable : evo_reachable drafted_store.
Proof. apply run_ops_steps. Qed.

Definition drafted_engine : EngineState :=
  {| eg_store := {| hd_loop := empty_db; hd_traj := runs; hd_evo := drafted_store |};
     eg_policy := None; eg_cycle := idle_cycle |}.

Definition drafted : world EngineState := World drafted_engine 500 50.

(** The first step, then an operator adds a case, then the second step. *)
Abbreviation first_step := (run_evaluation_step the_engine "c1" 1000 None drafted).
Abbreviation suite_edited :=
  ((engine_exec the_engine (GCase (short_case "thanks") (Human "ops")) first_step.2).2).
Abbreviation second_step := (run_evaluation_step the_engine "c1" 1000 None suite_edited).

Abbreviation one_go := (evaluate_candidate_bounded_until the_engine "c1" 1000 None drafted).

Lemma ok_pair {A W} (p : res A * W) : is_ok p.1 = true → ∃ a, p = (Ok a, p.2).
Proof. destruct p as [[a|] w]; [|done]. by exists a. Qed.

Lemma completed_pair {W} (p : res EvalStepOutcome * W) :
  completed p.1 = true → ∃ ev n, p = (Ok (EvalCompleted ev n), p.2).
Proof. destruct p as [[[|ev n]|] w]; try done. by exists ev, n. Qed.

Lemma second_step_completes : completed second_step.1 = true.
Proof. vm_compute. reflexivity. Qed.

Lemma one_go_evaluates : is_ok one_go.1 = true.
Proof. vm_compute. reflexivity. Qed.

Lemma first_step_unfinished : completed first_step.1 = false.
Proof. vm_compute. reflexivity. Qed.

Lemma first_step_cursor : bool_decide (ev_case_index <$> cursor "c1" (w_db first_step.2) = Some 1%nat) = true.
Proof. vm_compute. reflexivity. Qed.

Lemma edited_under_way : under_way the_engine "c1" drafted_engine (w_db suite_edited).
Proof.
  apply under_way_other; [|discriminate]. apply under_way_first; [reflexivity|exact first_step_unfinished|].
  intros Hn. pose proof first_step_cursor as Hc. rewrite Hn in Hc. discriminate Hc.
Qed.

Lemma nothing_started : cursor "c1" drafted_engine = None.
Proof. vm_compute. reflexivity. Qed.

Lemma resumed_evaluation_agrees_witness :
  ∃ one n resumed, one_go = (Ok (one, n), one_go.2) ∧ second_step = (Ok (EvalCompleted resumed n), second_step.2) ∧
    va_scorecard resumed = va_scorecard one.
Proof.
  destruct (ok_pair one_go one_go_evaluates) as [[one n] E1].
  destruct (completed_pair second_step second_step_completes) as (resumed & n' & E2).
  destruct (resumed_evaluation_agrees (λ messages, Ok (if (length messages =? 1)%nat then "hello" else "ok"))
    the_engine "c1" drafted_engine 1000 None drafted one n one_go.2 1000 None suite_edited resumed n' second_step.2)
    as (Hcard & _ & _ & ->).
  - reflexivity.
  - exact drafted_store_reachable.
  - exact nothing_started.
  - reflexivity.
  - exact E1.
  - right. exact edited_under_way.
  - exact E2.
  - exists one, n, resumed. split; [exact E1|]. split; [exact E2|exact Hcard].
Defined.
