(* ===== verification/SwarmFacts.v ===== *)
(** * Facts about a swarm run in process

    A run that is not cut by its deadline finishes every node it starts: the audit shows
    no node running, the counters add up, the permits are back.  It calls the provider at
    most twice per agent within the budget, and with more permits than levels of depth it
    never waits for a permit it holds itself. *)

From S2P Require Import Prelude Text Strings Outbox Markdown Delivery Messages External Verifier Domain Scheduler Tables.
From S2P Require Import Signals Artifacts StoreBase StoreGoals StoreWork StoreExtend Replay.
From S2P Require Import Engine Worker Handlers Order History Operations MemBase SwarmAudit TrajStore.
From S2P Require Import EvoStore Harness RunLog Swarm SwarmDurable.
From stdpp Require Import pretty.

Lemma attempt_infallible {S A} (m : M S A) : infallible (attempt m).
Proof. intros w. unfold attempt, catch, mbind, M_bind. by destruct (m w) as [[]]. Qed.

Section facts.
  Context `{ENV : LoopEnv} `{JP : !JsonParse} `{SLJ : Serialize (list json)} `{SP : SwarmProvider}.
  Context `{FP : !FromValue SwarmNodePlanEnvelope}.

(** ** What the pieces leave alone *)

(** Only the stores behind the engine change. *)
Definition mirror_only (s s' : SwarmState) : Prop :=
  ss_audit s' = ss_audit s ∧ ss_counts s' = ss_counts s ∧ ss_permits s' = ss_permits s ∧ ss_calls s' = ss_calls s.

#[local] Instance mirror_only_preorder : PreOrder mirror_only.
Proof. split; [done|]. intros a b c (H1 & H2 & H3 & H4) (G1 & G2 & G3 & G4). split_and!; congruence. Qed.

Lemma engine_mirror {A} (m : M Db A) : stable mirror_only (engine m).
Proof. apply stable_zoom with (R := λ _ _, True); [done|]. by intros w. Qed.

#[local] Hint Resolve engine_mirror : stab.

Lemma attempt_mirror {A} (m : M SwarmState A) : stable mirror_only m → stable mirror_only (attempt m).
Proof. intros H. unfold attempt. stable_go. Qed.

#[local] Hint Resolve attempt_mirror : stab.

Lemma claim_mirror run spec depth parent id : stable mirror_only (claim_swarm_loop_node run spec depth parent id).
Proof. unfold claim_swarm_loop_node. stable_go. Qed.

Lemma commit_mirror run claim outcome : stable mirror_only (commit_swarm_loop_node run claim outcome).
Proof. unfold commit_swarm_loop_node, fail_swarm_loop_node. stable_go. Qed.

Lemma claim_infallible run spec depth parent id : infallible (claim_swarm_loop_node run spec depth parent id).
Proof.
  unfold claim_swarm_loop_node. destruct (sr_engine run), (sr_goal run); try done. apply infallible_bind.
  - destruct parent; [|done]. by apply infallible_bind; [apply attempt_infallible|].
  - intros []; [|done]. by apply infallible_bind; [apply attempt_infallible|].
Qed.

Lemma commit_infallible run claim outcome : infallible (commit_swarm_loop_node run claim outcome).
Proof. unfold commit_swarm_loop_node, fail_swarm_loop_node. destruct (so_failed outcome); apply ignore_infallible. Qed.

Lemma wp_mirror {A} (m : M SwarmState A) s :
  stable mirror_only m → infallible m → wp m (λ r s', (∃ a, r = Ok a) ∧ mirror_only s s') s.
Proof.
  intros Hm Ht w <-. specialize (Ht w). split; [|apply Hm]. destruct (m w).1 as [a|]; [by exists a|done].
Qed.

(** ** The audit *)

(** The nodes shown as running. *)
Definition open (s : SwarmState) (id : string) : Prop :=
  ∃ n, n ∈ swarm_nodes (ss_audit s) ∧ nd_state n = NodeRunning ∧ nd_agent_id n = id.

Lemma wp_audit_node run id parent depth nickname spec state exit summary error started finished s :
  wp (audit_node run id parent depth nickname spec state exit summary error started finished)
     (λ r s', r = Ok tt ∧ ss_counts s' = ss_counts s ∧ ss_permits s' = ss_permits s ∧ ss_calls s' = ss_calls s ∧
        ∀ x, open s' x → if decide (x = id) then state = NodeRunning else open s x) s.
Proof.
  unfold audit_node. apply wp_ignore_error, wp_zoom. unfold upsert_agent_swarm_node. cbv zeta.
  wp_step. wp_step. apply wp_sql_upsert; [intros (y & _ & Hy)%existsb_exists; by rewrite andb_false_r in Hy|].
  intros _. split_and!; try done. intros x (n & Hn & Hst & Hid). cbn [ss_audit put_audit] in Hn.
  cbn [tget tset agent_swarm_nodes swarm_nodes] in Hn.
  assert (Hcase : n ∈ swarm_nodes (ss_audit s) ∧ is_node id n = false ∨ nd_agent_id n = id ∧ nd_state n = state).
  { destruct (existsb _ _) eqn:E; cbn [swarm_nodes] in Hn.
    - apply elem_update_where in Hn as (m & Hm & ->). destruct (is_node _ m) eqn:Em; [by right|by left].
    - apply elem_of_app in Hn as [Hn| ->%list_elem_of_singleton]; [|by right]. left. split; [done|].
      by apply (existsb_false _ _ E). }
  destruct Hcase as [[Hin Hne]|[Hx Hs]].
  - apply String.eqb_neq in Hne. rewrite decide_False by congruence. by exists n.
  - rewrite decide_True by congruence. congruence.
Qed.

(** ** Accounting *)

Definition closed (c : SwarmCounts) : nat := sc_success c + sc_partial c + sc_failed c + sc_skipped c.

(** What a piece of a run did: it spent at most [k] calls besides two for each agent it
    started within the limit; when it returned, the permits are back, every agent it
    started is closed - and [own] too -, and no other node is left running. *)
Record ran (limit k : nat) (own : option string) (live : Prop) (ok : bool) (s s' : SwarmState) : Prop := {
  ra_agents : sc_agents (ss_counts s) ≤ sc_agents (ss_counts s');
  ra_calls : length (ss_calls s') + 2 * Nat.min limit (sc_agents (ss_counts s)) ≤
             length (ss_calls s) + k + 2 * Nat.min limit (sc_agents (ss_counts s'));
  ra_permits : ok = true → ss_permits s' = ss_permits s;
  ra_closed : ok = true →
    sc_agents (ss_counts s') + closed (ss_counts s) + (if own is Some _ then 1 else 0) =
    sc_agents (ss_counts s) + closed (ss_counts s');
  ra_timeouts : ok = true →
    sc_timeout (ss_counts s') + sc_failed (ss_counts s) ≤ sc_timeout (ss_counts s) + sc_failed (ss_counts s');
  ra_open : ok = true → ∀ x, open s' x → open s x ∧ own ≠ Some x;
  ra_live : live → ok = true
}.

Lemma ran_trans limit k k' own (live live1 live2 : Prop) ok s s1 s2 :
  ran limit k None live1 true s s1 → ran limit k' own live2 ok s1 s2 → (live → live2) →
  ran limit (k + k') own live ok s s2.
Proof.
  intros [A1 A2 A3 A4 A5 A6 A7] [B1 B2 B3 B4 B5 B6 B7] Hl. split; try lia.
  - intros H. rewrite (B3 H). by apply A3.
  - intros H. specialize (A4 eq_refl). specialize (B4 H). cbn in A4. lia.
  - intros H. specialize (A5 eq_refl). specialize (B5 H). lia.
  - intros H x Hx. destruct (B6 H x Hx) as [H1 H2]. by destruct (A6 eq_refl x H1).
  - auto.
Qed.

Lemma ran_fail limit k k' own own' (live live1 : Prop) s s' :
  ran limit k own' live1 false s s' → (live → live1) → ran limit (k + k') own live false s s'.
Proof. intros [A1 A2 A3 A4 A5 A6 A7] Hl. split; try done; try lia. intros H. by specialize (A7 (Hl H)). Qed.

Lemma ran_weaken limit k k' own (live live' : Prop) ok s s' :
  ran limit k own live ok s s' → k ≤ k' → (live' → live) → ran limit k' own live' ok s s'.
Proof. intros [A1 A2 A3 A4 A5 A6 A7] Hk Hl. split; try done; try lia. auto. Qed.

Lemma ran_mirror limit s s' live : mirror_only s s' → ran limit 0 None live true s s'.
Proof.
  intros (H1 & H2 & H3 & H4). split; rewrite ?H2, ?H4; try done; try lia.
  intros _ x (n & Hn & Hst & Hid). split; [|done]. exists n. by rewrite <- H1.
Qed.

Lemma ran_refl limit s live : ran limit 0 None live true s s.
Proof. apply ran_mirror. by split_and!. Qed.

Lemma wp_ran_bind {A B} (m : M SwarmState A) (f : A → M SwarmState B) limit k k' own (live live1 : Prop) s :
  wp m (λ r s1, ran limit k None live1 (is_ok r) s s1 ∧
    ∀ a, r = Ok a → wp (f a) (λ r s', ran limit k' own live (is_ok r) s1 s') s1) s →
  (live → live1) → wp (m ≫= f) (λ r s', ran limit (k + k') own live (is_ok r) s s') s.
Proof.
  intros H Hl. apply wp_bind. eapply wp_mono; [exact H|]. cbv beta. intros [a|e] s1 [H1 H2].
  - eapply wp_mono; [by apply H2|]. cbv beta. intros r s2 H3. by eapply ran_trans.
  - by eapply ran_fail.
Qed.

(** The deadline of the run does not pass. *)
Definition uncut : Prop := ∀ n json_mode messages, swarm_answer n json_mode messages ≠ CompCut.

(** [s'] has one permit more. *)
Definition one_more_permit (s s' : SwarmState) : Prop :=
  ss_audit s' = ss_audit s ∧ ss_counts s' = ss_counts s ∧ ss_permits s' = S (ss_permits s) ∧ ss_calls s' = ss_calls s.

Lemma wp_acquire (Q : res unit → SwarmState → Prop) s :
  (ss_permits s = 0 → Q (Err RUN_CUT) s) → (∀ s', one_more_permit s' s → Q (Ok tt) s') → wp acquire Q s.
Proof.
  intros H0 H1. unfold acquire. do 2 wp_step. destruct (ss_permits s) as [|p] eqn:E; [by apply wp_throw, H0|].
  apply wp_put_db, H1. by repeat split.
Qed.

Lemma wp_release (Q : res unit → SwarmState → Prop) s :
  (∀ s', one_more_permit s s' → Q (Ok tt) s') → wp release Q s.
Proof. intros H. unfold release. do 2 wp_step. apply wp_put_db, H. by repeat split. Qed.

Lemma wp_log_call messages json_mode (Q : res unit → SwarmState → Prop) s :
  (∀ s', ss_audit s' = ss_audit s → ss_counts s' = ss_counts s → ss_permits s' = ss_permits s →
     length (ss_calls s') = length (ss_calls s) + 1 → Q (Ok tt) s') → wp (log_call messages json_mode) Q s.
Proof. intros H. unfold log_call. do 2 wp_step. apply wp_put_db, H; cbn; by rewrite ?length_app. Qed.

Lemma wp_count f (Q : res unit → SwarmState → Prop) s :
  (∀ s', ss_audit s' = ss_audit s → ss_counts s' = f (ss_counts s) → ss_permits s' = ss_permits s →
     ss_calls s' = ss_calls s → Q (Ok tt) s') → wp (count f) Q s.
Proof. intros H. unfold count. do 2 wp_step. apply wp_put_db, H; done. Qed.

Lemma open_same s s' x : ss_audit s' = ss_audit s → open s' x → open s x.
Proof. intros H (n & Hn & Hst & Hid). exists n. by rewrite <- H. Qed.

(** A piece that only spends one call. *)
Lemma ran_called limit (live : Prop) ok s s' :
  ss_audit s' = ss_audit s → ss_counts s' = ss_counts s → length (ss_calls s') ≤ length (ss_calls s) + 1 →
  (ok = true → ss_permits s' = ss_permits s) → (live → ok = true) → ran limit 1 None live ok s s'.
Proof.
  intros H1 H2 H3 H4 H5. split; rewrite ?H2; try done; try lia. intros _ x Hx. split; [by eapply open_same|done].
Qed.

Lemma wp_swarm_complete limit messages json_mode s :
  wp (swarm_complete_with_timeout messages json_mode)
     (λ r s', ran limit 1 None (uncut ∧ 0 < ss_permits s) (is_ok r) s s') s.
Proof.
  unfold swarm_complete_with_timeout. wp_step. apply wp_acquire.
  { intros H. apply ran_called; try done; cbn; lia. }
  intros s1 (A1 & A2 & A3 & A4). wp_step. apply wp_tick. intros n. wp_step. apply wp_log_call.
  intros s2 B1 B2 B3 B4.
  assert (Hran : ∀ a : SwarmModelResult, wp (release ;; mret a)
            (λ r s', ran limit 1 None (uncut ∧ 0 < ss_permits s) (is_ok r) s s') s2).
  { intros a. wp_step. apply wp_release. intros s3 (C1 & C2 & C3 & C4). wp_step.
    apply ran_called; rewrite ?C1, ?C2, ?C3, ?C4, ?B1, ?B2, ?B3, ?B4, ?A1, ?A2, ?A3, ?A4; try done; lia. }
  destruct (swarm_answer n json_mode messages) eqn:Ea; try apply Hran. wp_step.
  apply ran_called; rewrite ?B1, ?B2, ?B3, ?B4, ?A1, ?A2, ?A3, ?A4; try done; try lia.
  intros [Hu _]. by destruct (Hu _ _ _ Ea).
Qed.

(** What a node adds to the counters when it ends. *)
Definition closes_one (f : SwarmCounts → SwarmCounts) : Prop :=
  ∀ c, sc_agents (f c) = sc_agents c ∧ closed (f c) = closed c + 1 ∧
       sc_timeout (f c) + sc_failed c ≤ sc_timeout c + sc_failed (f c).

Lemma add_closes_one success partial failed timeout skipped :
  success + partial + failed + skipped = 1 → timeout ≤ failed →
  closes_one (add_counts 0 success partial failed timeout skipped).
Proof. intros H1 H2 c. unfold closed, add_counts. cbn. lia. Qed.

(** A node is shown as finished and is counted. *)
Lemma wp_close_node {A} limit run id parent depth nickname spec exit summary error started finished f
    (k : M SwarmState A) (Q : res A → SwarmState → Prop) s :
  closes_one f → (∀ s', ran limit 0 (Some id) True true s s' → wp k Q s') →
  wp (audit_node run id parent depth nickname spec NodeExited exit summary error started finished ;; count f ;; k) Q s.
Proof.
  intros Hf Hk. wp_step. eapply wp_mono; [apply wp_audit_node|]. cbv beta. intros r s1 (-> & A1 & A2 & A3 & A4).
  wp_step. apply wp_count. intros s2 B1 B2 B3 B4. apply Hk. destruct (Hf (ss_counts s)) as (F1 & F2 & F3).
  split; rewrite ?B2, ?B3, ?B4, ?A1, ?A2, ?A3, ?F1; try done; try lia. intros _ x Hx.
  apply (open_same s1) in Hx; [|done]. specialize (A4 x Hx). destruct (decide (x = id)); [done|]. split; [done|congruence].
Qed.

Lemma wp_exit_node limit run id parent depth nickname spec started status answer summary error partial failed f s :
  closes_one f →
  wp (exit_node run id parent depth nickname spec started status answer summary error partial failed f)
     (λ r s', ran limit 0 (Some id) True (is_ok r) s s') s.
Proof.
  intros Hf. unfold exit_node. do 2 wp_step. apply (wp_close_node limit); [done|]. intros s' ?. by wp_step.
Qed.

Lemma wp_start_node run id parent depth nickname spec started s :
  wp (audit_node run id parent depth nickname spec NodeRunning None None None started None)
     (λ r s', r = Ok tt ∧ ss_counts s' = ss_counts s ∧ ss_permits s' = ss_permits s ∧ ss_calls s' = ss_calls s ∧
        ∀ x, open s' x → x = id ∨ open s x) s.
Proof.
  eapply wp_mono; [apply wp_audit_node|]. cbv beta. intros r s' (H1 & H2 & H3 & H4 & H5). split_and!; try done.
  intros x Hx. specialize (H5 x Hx). destruct (decide (x = id)); auto.
Qed.

(** ** The nodes *)

Context (run : SwarmRun) (history : list StoredMessage) (limit : nat).

Lemma wp_answer_node id parent depth nickname spec started seed s :
  wp (answer_node run history id parent depth nickname spec started seed)
     (λ r s', ran limit 1 (Some id) (uncut ∧ 0 < ss_permits s) (is_ok r) s s') s.
Proof.
  unfold answer_node. cbv zeta.
  assert (Hend : ∀ r s1, wp (match r with
            | ModelReply answer => exit_node run id parent depth nickname spec started SwarmAudit.ExitSuccess answer
                (truncate_swarm_text answer 240) None false false (add_counts 0 1 0 0 0 0)
            | ModelTimeout => exit_node run id parent depth nickname spec started SwarmAudit.ExitTimeout "" "answer timeout"
                (Some "answer timeout") false true (add_counts 0 0 0 1 1 0)
            | ModelFailure e => exit_node run id parent depth nickname spec started SwarmAudit.ExitFailed "" "answer failed"
                (Some e) false true (add_counts 0 0 0 1 0 0)
            end) (λ r s', ran limit 0 (Some id) True (is_ok r) s1 s') s1).
  { intros [] s1; apply wp_exit_node, add_closes_one; lia. }
  eapply (wp_ran_bind _ _ limit 1 0 _ _ (uncut ∧ 0 < ss_permits s)); [|done].
  destruct (is_blank seed).
  - eapply wp_mono; [apply (wp_swarm_complete limit)|]. cbv beta. intros r s1 H1. split; [done|]. intros a _.
    eapply wp_mono; [apply Hend|]. cbv beta. intros r' s2 H2. by eapply ran_weaken.
  - wp_step. split; [apply ran_weaken with (k := 0) (live := True); [apply ran_refl|lia|done]|]. intros a _.
    eapply wp_mono; [apply Hend|]. cbv beta. intros r' s2 H2. by eapply ran_weaken.
Qed.

Lemma wp_merge_node id parent depth nickname spec started outcomes s :
  wp (merge_node run history id parent depth nickname spec started outcomes)
     (λ r s', ran limit 1 (Some id) (uncut ∧ 0 < ss_permits s) (is_ok r) s s') s.
Proof.
  unfold merge_node. cbv zeta. eapply (wp_ran_bind _ _ limit 1 0 _ _ (uncut ∧ 0 < ss_permits s)); [|done].
  eapply wp_mono; [apply (wp_swarm_complete limit)|]. cbv beta. intros r s1 H1. split; [done|]. intros a _.
  eapply wp_mono; [apply wp_exit_node; destruct (_ || _); apply add_closes_one; lia|]. cbv beta.
  intros r' s2 H2. by eapply ran_weaken.
Qed.

Lemma wp_decide_node spec depth s :
  wp (decide_node run history spec depth) (λ r s', ran limit 1 None (uncut ∧ 0 < ss_permits s) (is_ok r) s s' ∧
    ∀ c, r = Ok (Delegate c) → depth < depth_limit (sr_settings run)) s.
Proof.
  unfold decide_node. case_match eqn:E.
  - wp_step. split; [apply ran_weaken with (k := 0) (live := True); [apply ran_refl|lia|done]|]. intros c [=].
  - wp_step. eapply wp_mono; [apply (wp_swarm_complete limit)|]. cbv beta. intros [a|e] s1 H1; cbn in *.
    + wp_step. split; [done|]. intros c _. by apply Nat.leb_gt.
    + split; [done|]. intros c [=].
Qed.

(** With fuel for the levels below it and a permit for each, a node comes back. *)
Definition fits (fuel depth permits : nat) : Prop :=
  depth_limit (sr_settings run) - depth < fuel ∧ depth_limit (sr_settings run) - depth < permits.

Lemma wp_run_children exec (live : nat → Prop) children s :
  (∀ child s, wp (exec child) (λ r s', ran limit 0 None (live (ss_permits s)) (is_ok r) s s') s) →
  wp (run_children exec children)
     (λ r s', ran limit 0 None (0 < ss_permits s ∧ live (ss_permits s - 1)) (is_ok r) s s') s.
Proof.
  intros Hexec. induction children as [|child rest IH] in s |- *; cbn [run_children].
  { wp_step. apply ran_refl. }
  destruct (is_blank _); [apply IH|]. wp_step. apply wp_acquire.
  { intros H. split; try done; lia. }
  intros s1 (A1 & A2 & A3 & A4). wp_step. eapply wp_mono; [apply Hexec|]. cbv beta. intros [o|e] s2 H2; cbn in *.
  - wp_step. apply wp_release. intros s3 (C1 & C2 & C3 & C4). wp_step.
    assert (H3 : ran limit 0 None (0 < ss_permits s ∧ live (ss_permits s - 1)) true s s3).
    { destruct H2 as [B1 B2 B3 B4 B5 B6 B7]. rewrite <- A2, <- A4 in *. split; rewrite ?C2, ?C4; try done.
      - intros _. by rewrite C3, B3, A3.
      - intros _ x Hx. apply (open_same s2) in Hx; [|done]. destruct (B6 eq_refl x Hx). split; [|done].
        by apply (open_same s s1). }
    eapply wp_mono; [apply IH|]. cbv beta. intros r s4 H4.
    assert (H5 : ran limit (0 + 0) None (0 < ss_permits s ∧ live (ss_permits s - 1)) (is_ok r) s s4).
    { eapply ran_trans; [done|done|]. by rewrite (ra_permits _ _ _ _ _ _ _ H3). }
    destruct r as [os|e]; [by wp_step|done].
  - destruct H2 as [B1 B2 B3 B4 B5 B6 B7]. rewrite <- A2, <- A4 in *. split; try done.
    intros [Hp Hl]. apply B7. by replace (ss_permits s1) with (ss_permits s - 1) by lia.
Qed.

(** Starting a node: it is counted, and shown as running. *)
Lemma ran_node k id (live : Prop) ok s s1 s' :
  ss_counts s1 = add_counts 1 0 0 0 0 0 (ss_counts s) → ss_permits s1 = ss_permits s → ss_calls s1 = ss_calls s →
  (∀ x, open s1 x → x = id ∨ open s x) → k = 0 ∨ k ≤ 2 ∧ sc_agents (ss_counts s) < limit →
  ran limit k (Some id) live ok s1 s' → ran limit 0 None live ok s s'.
Proof.
  intros H1 H2 H3 H4 Hk [B1 B2 B3 B4 B5 B6 B7]. rewrite H1, H2, H3 in *. unfold closed, add_counts in *. cbn in *.
  split; try done; unfold closed; try lia.
  - intros Hok. specialize (B4 Hok). lia.
  - intros Hok. specialize (B5 Hok). lia.
  - intros Hok x Hx. destruct (B6 Hok x Hx) as [Hx1 Hne]. split; [|done]. by destruct (H4 x Hx1) as [->|].
Qed.
End facts.

Section run.
  Context `{ENV : LoopEnv} `{JP : !JsonParse} `{SLJ : Serialize (list json)} `{SP : SwarmProvider}.
  Context `{FP : !FromValue SwarmNodePlanEnvelope}.
  Context (run : SwarmRun) (history : list StoredMessage).

#[local] Hint Resolve claim_mirror commit_mirror : stab.

Abbreviation limit := (agent_limit (sr_settings run)).

Definition live_node (fuel depth permits : nat) : Prop := uncut ∧ fits run fuel depth permits.

(** The body of a node within the agent budget. *)
Lemma wp_node_body fuel id depth parent nickname spec started s :
  (∀ child depth parent s, wp (execute_swarm_node run history fuel child depth parent)
     (λ r s', ran limit 0 None (live_node fuel depth (ss_permits s)) (is_ok r) s s') s) →
  wp (decision ← decide_node run history spec depth;
      match decision with
      | PlannerTimeout =>
          exit_node run id parent depth nickname spec started SwarmAudit.ExitTimeout "" "planner timeout"
            (Some "planner timeout") false true (add_counts 0 0 0 1 1 0)
      | Delegate ((_ :: _) as children) =>
          outcomes ← run_children (λ child, execute_swarm_node run history fuel child (S depth) (Some id)) children;
          merge_node run history id parent depth nickname spec started outcomes
      | Delegate [] => answer_node run history id parent depth nickname spec started ""
      | Answer seed => answer_node run history id parent depth nickname spec started seed
      end)
     (λ r s', ran limit 2 (Some id) (live_node (S fuel) depth (ss_permits s)) (is_ok r) s s') s.
Proof.
  intros IH. set (live := live_node _ _ _).
  assert (Hpos : live → uncut ∧ 0 < ss_permits s) by (intros [? []]; split; [done|lia]).
  eapply (wp_ran_bind _ _ limit 1 1 _ live _); [|exact Hpos].
  eapply wp_mono; [apply (wp_decide_node run history limit)|]. cbv beta. intros r s1 [H1 Hd]. split; [done|].
  intros a ->. assert (Hp : ss_permits s1 = ss_permits s) by apply (ra_permits _ _ _ _ _ _ _ H1 eq_refl).
  assert (Hans : ∀ seed, wp (answer_node run history id parent depth nickname spec started seed)
            (λ r s', ran limit 1 (Some id) live (is_ok r) s1 s') s1).
  { intros seed. eapply wp_mono; [apply (wp_answer_node run history limit)|]. cbv beta. intros r s2 H2.
    eapply ran_weaken; [done|lia|]. by rewrite Hp. }
  destruct a as [seed|[|c children]|]; [apply Hans|apply Hans| |].
  - eapply (wp_ran_bind _ _ limit 0 1 _ live live); [|done].
    eapply wp_mono.
    + apply (wp_run_children limit _ (live_node fuel (S depth))). intros child s'. apply IH.
    + cbv beta. intros r s2 H2. split.
      * eapply ran_weaken; [done|lia|]. intros [Hu [Hf1 Hf2]]. rewrite Hp. specialize (Hd _ eq_refl).
        split; [lia|]. split; [done|]. split; lia.
      * intros os ->. eapply wp_mono; [apply (wp_merge_node run history limit)|]. cbv beta. intros r s3 H3.
        eapply ran_weaken; [done|lia|]. by rewrite (ra_permits _ _ _ _ _ _ _ H2 eq_refl), Hp.
  - eapply wp_mono; [apply wp_exit_node, add_closes_one; lia|]. cbv beta. intros r s2 H2.
    eapply ran_weaken; [done|lia|done].
Qed.

Lemma wp_execute fuel spec depth parent s :
  wp (execute_swarm_node run history fuel spec depth parent)
     (λ r s', ran limit 0 None (live_node fuel depth (ss_permits s)) (is_ok r) s s') s.
Proof.
  induction fuel as [|fuel IH] in spec, depth, parent, s |- *; cbn [execute_swarm_node].
  { wp_step. split; try done; try lia. intros [_ [[]%Nat.nlt_0_r _]]. }
  wp_step. unfold next_agent_index. do 2 wp_step. wp_step. apply wp_count. intros s1 A1 A2 A3 A4. wp_step.
  set (idx := S (sc_agents (ss_counts s))). set (id := sr_run_id run +:+ ":" +:+ pretty idx). cbv zeta.
  wp_step. eapply wp_mono; [apply wp_mirror; [apply claim_mirror|apply claim_infallible]|]. cbv beta.
  intros r s2 ([claim ->] & B1 & B2 & B3 & B4). do 2 wp_step.
  set (live := live_node _ _ _).
  wp_step. eapply wp_mono with (Q := λ r s3, ran limit 0 None live (is_ok r) s s3); last first.
  { cbv beta. intros [o|e] s3 H3; [|done].
    assert (Hend : wp (match claim with Some claim => commit_swarm_loop_node run claim o | None => mret tt end)
              (λ r s', r = Ok tt ∧ mirror_only s3 s') s3).
    { destruct claim as [claim|]; [|by wp_step].
      eapply wp_mono; [apply wp_mirror; [apply commit_mirror|apply commit_infallible]|]. by intros r s4 [[[] ->] ?]. }
    wp_step. eapply wp_mono; [exact Hend|]. cbv beta. intros r s4 [-> H4]. wp_step.
    eapply (ran_trans limit 0 0); [exact H3|by apply (ran_mirror limit _ _ live)|done]. }
  destruct (Nat.ltb_spec limit idx) as [Hskip|Hroom].
  - apply (wp_close_node limit); [apply add_closes_one; lia|]. intros s3 H3. wp_step.
    apply (ran_node limit 0 id live _ s s2); try congruence; [|by left|by eapply ran_weaken].
    intros x Hx. right. apply (open_same s s2); [congruence|done].
  - wp_step. eapply wp_mono; [apply wp_start_node|]. cbv beta. intros r s3 (-> & C1 & C2 & C3 & C4).
    eapply wp_mono; [by apply wp_node_body|]. cbv beta. intros r s4 H4.
    rewrite C2, B3, A3 in H4. fold live in H4. apply (ran_node limit 2 id live _ s s3); try congruence; try done.
    + intros x [->|Hx]%C4; [by left|right]. apply (open_same s s2); [congruence|done].
    + right. split; [lia|]. unfold idx in Hroom. lia.
Qed.

(** ** Results *)

(** A computation that fails only when the run is cut. *)
Definition cut_only {A} (m : M SwarmState A) : Prop := ∀ s, wp m (λ r _, if r is Err e then e = RUN_CUT else True) s.

Lemma cut_only_bind {A B} (m : M SwarmState A) (f : A → M SwarmState B) :
  cut_only m → (∀ a, cut_only (f a)) → cut_only (m ≫= f).
Proof.
  intros Hm Hf s. wp_step. eapply wp_mono; [apply Hm|]. cbv beta. intros [a|e] s1 H; [apply Hf|done].
Qed.

Lemma cut_only_infallible {A} (m : M SwarmState A) : infallible m → cut_only m.
Proof. intros H s w _. specialize (H w). by destruct (m w) as [[]]. Qed.

Lemma cut_only_acquire : cut_only acquire.
Proof. intros s. by apply wp_acquire. Qed.

Lemma cut_only_complete messages json_mode : cut_only (swarm_complete_with_timeout messages json_mode).
Proof.
  unfold swarm_complete_with_timeout. apply cut_only_bind; [apply cut_only_acquire|intros _].
  apply cut_only_bind; [by apply cut_only_infallible|intros n]. apply cut_only_bind; [by apply cut_only_infallible|intros _].
  destruct (swarm_answer _ _ _); try (by apply cut_only_infallible). intros s. by wp_step.
Qed.

Lemma cut_only_children exec children :
  (∀ child, cut_only (exec child)) → cut_only (run_children exec children).
Proof. intros H. induction children as [|c l IH]; cbn [run_children].
  - by apply cut_only_infallible.
  - destruct (is_blank _); [done|]. apply cut_only_bind; [apply cut_only_acquire|intros _].
    apply cut_only_bind; [apply H|intros o]. apply cut_only_bind; [by apply cut_only_infallible|intros _].
    apply cut_only_bind; [done|intros os]. by apply cut_only_infallible. Qed.

Lemma cut_only_ret {A B} (a : A) (f : A → M SwarmState B) : cut_only (f a) → cut_only (mret a ≫= f).
Proof. exact id. Qed.

Ltac cut_go := repeat lazymatch goal with
  | |- cut_only (mret _ ≫= _) => apply cut_only_ret
  | |- cut_only (_ ≫= _) => apply cut_only_bind; [|intros ?]
  | |- cut_only (match ?x with _ => _ end) => destruct x
  | |- cut_only acquire => apply cut_only_acquire
  | |- cut_only (swarm_complete_with_timeout _ _) => apply cut_only_complete
  | |- cut_only (claim_swarm_loop_node _ _ _ _ _) => apply cut_only_infallible, claim_infallible
  | |- cut_only (commit_swarm_loop_node _ _ _) => apply cut_only_infallible, commit_infallible
  | |- cut_only (ignore_error _) => apply cut_only_infallible, ignore_infallible
  | |- cut_only (run_children _ _) => apply cut_only_children; intros ?
  | |- cut_only _ => first [solve [eauto] | by apply cut_only_infallible]
  end.

(** The fuel of the recursion is enough for the levels below the depth limit. *)
Lemma cut_only_execute fuel spec depth parent :
  depth_limit (sr_settings run) - depth < fuel → cut_only (execute_swarm_node run history fuel spec depth parent).
Proof.
  induction fuel as [|fuel IH] in spec, depth, parent |- *; intros Hf; [lia|]. cbn [execute_swarm_node].
  unfold next_agent_index, exit_node, decide_node, merge_node, answer_node, audit_node. cbv zeta.
  destruct (Nat.leb_spec (depth_limit (sr_settings run)) depth).
  all: cut_go. all: apply IH; lia.
Qed.

Lemma wp_run_in_process text s :
  wp (run_in_process run text history)
     (λ r s', ∃ res, ran limit 0 None (live_node (swarm_fuel (sr_settings run)) 0 (ss_permits s)) (is_ok res) s s' ∧
        (if res is Err e then e = RUN_CUT else True) ∧
        r = Ok match res with
               | Ok root => (Some (so_answer root), run_status (ss_counts s') root, None)
               | Err e => (None, RunFailed, Some e)
               end) s.
Proof.
  unfold run_in_process. wp_step. wp_step.
  assert (Hcut : cut_only (execute_swarm_node run history (swarm_fuel (sr_settings run)) (root_spec text) 0 None)).
  { apply cut_only_execute. unfold swarm_fuel. lia. }
  eapply wp_mono; [apply wp_and; [apply wp_execute|apply Hcut]|]. cbv beta. intros r s1 [H1 H2].
  do 3 wp_step. exists r. done.
Qed.

(** C38: Invariant: a run of agents in process calls the provider at most twice for each
    agent it starts within the limit of agents; when it returns an answer, every agent
    it counted ended in exactly one of success, partial, failed or skipped, timeouts are
    among the failures, the permits are back and no node is left shown as running; and
    when it returns none, it failed because the run was cut. *)
Theorem swarm_run_accounts text s :
  ss_counts s = no_counts →
  wp (run_in_process run text history)
     (λ r s', let c := ss_counts s' in
        length (ss_calls s') ≤ length (ss_calls s) + 2 * Nat.min (agent_limit (sr_settings run)) (sc_agents c) ∧
        match r with
        | Ok (Some _, _, error) =>
            error = None ∧ sc_agents c = sc_success c + sc_partial c + sc_failed c + sc_skipped c ∧
            sc_timeout c ≤ sc_failed c ∧ ss_permits s' = ss_permits s ∧ ∀ id, open s' id → open s id
        | Ok (None, status, error) => status = RunFailed ∧ error = Some RUN_CUT
        | Err _ => False
        end) s.
Proof.
  intros H0. eapply wp_mono; [apply wp_run_in_process|]. cbv beta zeta.
  intros r s' (res & [R1 R2 R3 R4 R5 R6 R7] & Hcut & ->). rewrite H0 in *. cbn in *. split; [lia|].
  destruct res as [root|e]; [|by rewrite Hcut]. specialize (R4 eq_refl). specialize (R5 eq_refl). unfold closed in *. cbn in *.
  split_and!; [done|lia|lia|by apply R3|]. intros id Hid. by apply R6.
Qed.

(** C39: Liveness: while its deadline does not pass, a run with more permits than levels
    of delegation returns an answer: no agent waits for a permit that its own ancestors
    hold, and the recursion ends. *)
Theorem swarm_run_returns text s :
  (∀ n json_mode messages, swarm_answer n json_mode messages ≠ CompCut) →
  depth_limit (sr_settings run) < ss_permits s →
  wp (run_in_process run text history)
     (λ r s', ∃ answer status, r = Ok (Some answer, status, None)) s.
Proof.
  intros Hu Hp. eapply wp_mono; [apply wp_run_in_process|]. cbv beta. intros r s' (res & H1 & _ & ->).
  assert (Hlive : live_node (swarm_fuel (sr_settings run)) 0 (ss_permits s)).
  { split; [done|]. unfold fits, swarm_fuel. lia. }
  apply (ra_live _ _ _ _ _ _ _ H1) in Hlive. destruct res as [root|e]; [|done]. eauto.
Qed.
End run.

(** * Facts about the durable swarm

    The handler of a node changes the loop store by the engine's transactions only, never
    fails an item whose input it can read, and delegates within bounds; the counters of a
    run add up; the janitor closes runs whose goal ended and delivers a deferred reply. *)

Section handler.
  Context `{ENV : LoopEnv} `{DT : DateTimes} `{JP : !JsonParse} `{SLJ : Serialize (list json)} `{NP : NodeProvider}.
  Context `{FP : !FromValue SwarmNodePlanEnvelope} `{FI : !FromValue SwarmNodeInput}.
  Context (self : LoopEngine) (settings : AgentSwarmSettings) (logger : option TrajectoryLogger).

(** ** The handler takes the store's steps *)

Definition loop_steps : relation HarnessDb := λ h h', steps (hd_loop h) (hd_loop h').

#[local] Instance loop_steps_preorder : PreOrder loop_steps.
Proof. unfold loop_steps. split; [intros h; reflexivity|intros a b c H1 H2; by etrans]. Qed.

Lemma on_loop_steps {A} (m : M Db A) : stable steps m → stable loop_steps (on_loop m).
Proof. apply stable_zoom. by intros h s H. Qed.

Lemma on_traj_steps {A} (m : M TrajDb A) : stable loop_steps (on_traj m).
Proof. apply stable_zoom with (R := λ _ _, True); [intros h s _; unfold loop_steps; cbn; reflexivity|by intros w]. Qed.

Lemma extend_steps goal_id steps' actor : stable steps (engine_extend_workflow self goal_id steps' actor).
Proof. exact (proj1 (stable_void steps _) (exec_steps self (OExtendWorkflow goal_id steps' actor))). Qed.

#[local] Hint Resolve on_traj_steps : stab.
#[local] Hint Extern 1 (stable loop_steps (on_loop _)) => apply on_loop_steps; first [apply extend_steps | apply ingest_steps | op_step | atom_step] : stab.

Lemma start_steps t model : stable loop_steps (start_node_trajectory t model).
Proof. unfold start_node_trajectory, logger_start_trajectory. stable_go. Qed.

Lemma frame_steps t messages json_mode response model :
  stable loop_steps (log_frame t messages json_mode response model).
Proof. unfold log_frame, logger_log_provider_frame, record_provider_frame. stable_go. Qed.

Lemma finish_steps t answer exit : stable loop_steps (finish_node_trajectory t answer exit).
Proof. unfold finish_node_trajectory, logger_finish_trajectory, harness_finish_trajectory. stable_go. Qed.

#[local] Hint Resolve start_steps frame_steps finish_steps : stab.

Lemma node_call_steps ctx messages json_mode t : stable loop_steps (node_call settings ctx messages json_mode t).
Proof. unfold node_call. cbv zeta. stable_go. Qed.

Lemma terminal_steps ctx input outcome : stable loop_steps (maybe_publish_terminal_artifact ctx input outcome).
Proof. unfold maybe_publish_terminal_artifact. cbv zeta. stable_go. Qed.

#[local] Hint Resolve node_call_steps terminal_steps : stab.

Lemma answer_steps ctx input role_name definition direct t :
  stable loop_steps (answer_outcome settings ctx input role_name definition direct t).
Proof. unfold answer_outcome. cbv zeta. stable_go. Qed.

Lemma delegate_steps ctx input role_name definition children t :
  stable loop_steps (delegate_node self settings ctx input role_name definition children t).
Proof. pose proof answer_steps. unfold delegate_node, extend_twice. cbv zeta. stable_go. Qed.

#[local] Hint Resolve answer_steps delegate_steps : stab.

Lemma execute_steps ctx : stable loop_steps (swarm_node_execute self settings logger ctx).
Proof. unfold swarm_node_execute, execute_inner, aggregate_outcome. cbv zeta. stable_go. Qed.

Lemma within_steps {A} rest (m : M HarnessDb A) : stable loop_steps m → stable steps (within rest m).
Proof. apply stable_zoom. by intros s h H. Qed.

Lemma swarm_handler_steps rest : handler_steps (swarm_node_handler self settings logger rest).
Proof. intros ctx. apply within_steps, execute_steps. Qed.

Lemma swarm_worker_steps rest run_id worker :
  swarm_worker settings logger self rest run_id = Ok worker → worker_steps worker.
Proof.
  set (h := swarm_node_handler self settings logger rest). unfold swarm_worker. fold h.
  assert (Hreg : register (empty_registry ∅) h =
            (Ok tt, {| reg_handlers := {[SWARM_NODE_DURABLE_HANDLER := h]}; reg_allowlist := ∅ |})).
  { unfold register. cbn. by rewrite lookup_empty. }
  rewrite Hreg. unfold with_registry. rewrite !guard_res_bind.
  destruct (lease_ok _), (bounded_nonblank 160 ("swarm:" +:+ run_id)); try done. intros [= <-] name h'. unfold registry_get. cbn.
  intros [_ <-]%lookup_singleton_Some. apply swarm_handler_steps.
Qed.

(** ** The handler does not fail its item *)

Lemma catch_infallible {S A} (m : M S A) : infallible (catch m).
Proof. intros w. unfold catch. by destruct (m w). Qed.

Ltac infallible_go := repeat lazymatch goal with
  | |- infallible (_ ≫= _) => apply infallible_bind; [|intros ?]
  | |- infallible (match ?x with _ => _ end) => destruct x
  | |- infallible (ignore_error _) => apply ignore_infallible
  | |- infallible (catch _) => apply catch_infallible
  | |- infallible _ => first [solve [eauto] | done]
  end.

Lemma node_call_infallible ctx messages json_mode t : infallible (node_call settings ctx messages json_mode t).
Proof. unfold node_call, log_frame. cbv zeta. infallible_go. Qed.

Lemma answer_infallible ctx input role_name definition direct t :
  infallible (answer_outcome settings ctx input role_name definition direct t).
Proof. pose proof node_call_infallible. unfold answer_outcome, maybe_publish_terminal_artifact. cbv zeta. infallible_go. Qed.

Lemma inner_infallible ctx input t : infallible (execute_inner self settings ctx input t).
Proof.
  pose proof node_call_infallible. pose proof answer_infallible.
  unfold execute_inner, aggregate_outcome, delegate_node, extend_twice, maybe_publish_terminal_artifact.
  cbv zeta. infallible_go.
Qed.

(** Errors: whatever the provider answers or the engine refuses - budget, timeout,
    failed extension, failed artifact -, the handler of a swarm node produces an outcome
    for every input it can read, and it fails exactly on an input it cannot read. *)
Theorem node_failures_are_outcomes ctx w :
  is_ok (swarm_node_execute self settings logger ctx w).1 =
  is_ok (from_value (T := SwarmNodeInput) (wir_input (wc_item (ctx_claim ctx)))).
Proof.
  unfold swarm_node_execute. destruct (from_value _) as [input|e]; [|done]. cbn [is_ok].
  match goal with |- is_ok ((?m) w).1 = true => assert (H : infallible m); [|apply H] end.
  apply infallible_bind; [done|intros i]. apply infallible_bind; [unfold start_node_trajectory; infallible_go|intros []].
  match goal with |- infallible ?m => let H := fresh in enough (H : ∀ w, is_ok (m w).1 = true) by exact H end.
  intros w'. unfold mbind at 1, M_bind, catch.
  pose proof (inner_infallible ctx i (new_node_trajectory logger (ctx_claim ctx) i) w') as Ht.
  destruct (execute_inner _ _ _ _ _ w') as [[[outcome t]|e] w'']; [|done].
  assert (Hend : infallible (finish_node_trajectory t (evidence_str outcome "answer") (node_exit outcome) ;; mret outcome)).
  { unfold finish_node_trajectory. infallible_go. }
  exact (Hend w'').
Qed.
End handler.

(** ** The end of a durable run *)

Section service.
  Context `{ENV : LoopEnv} `{DT : DateTimes} `{MP : MarkdownParser} `{API : TelegramApi} `{FI : !FromValue SwarmNodeInput}.
  Context (settings : AgentSwarmSettings) (has_sender : bool).

#[local] Instance mirror_only_pre : PreOrder mirror_only := mirror_only_preorder.
#[local] Hint Resolve engine_mirror attempt_mirror : stab.

Definition is_agent (item : WorkItemRecord) : bool := negb (bool_decide (item_mode item = Some "aggregate")).

Lemma outcome_for_mirror report sid : stable mirror_only (outcome_for report sid).
Proof. unfold outcome_for. stable_go. Qed.

Lemma outcome_for_infallible report sid : infallible (outcome_for report sid).
Proof.
  unfold outcome_for. destruct (List.find _ _); [|done]. apply infallible_bind; [apply attempt_infallible|done].
Qed.

Lemma wp_root_outcome report run_id s :
  wp (root_outcome report run_id) (λ r s', (∃ o, r = Ok o) ∧ mirror_only s s') s.
Proof.
  apply wp_mirror.
  - pose proof outcome_for_mirror. unfold root_outcome. stable_go.
  - unfold root_outcome. apply infallible_bind; [apply outcome_for_infallible|]. intros []; [done|].
    apply outcome_for_infallible.
Qed.

(** What counting does to the counters. *)
Definition counted_more (agents : nat) (s s' : SwarmState) : Prop :=
  sc_agents (ss_counts s') = sc_agents (ss_counts s) + agents ∧
  closed (ss_counts s') = closed (ss_counts s) + agents ∧
  sc_timeout (ss_counts s') + sc_failed (ss_counts s) ≤ sc_timeout (ss_counts s) + sc_failed (ss_counts s').

Lemma wp_count_item item s :
  wp (count_item item) (λ r s', r = Ok tt ∧ ss_audit s' = ss_audit s ∧
        counted_more (if is_agent item then 1 else 0) s s') s.
Proof.
  unfold count_item, is_agent. destruct (bool_decide _); cbn [negb].
  { wp_step. split_and!; [done..|]. unfold counted_more. lia. }
  wp_step. apply wp_count. intros s1 A1 A2 A3 A4.
  assert (Hc : ∀ f s2, closes_one f → ss_audit s2 = ss_audit s1 → ss_counts s2 = ss_counts s1 →
            wp (count f) (λ r s', r = Ok tt ∧ ss_audit s' = ss_audit s ∧ counted_more 1 s s') s2).
  { intros f s2 Hf B1 B2. apply wp_count. intros s3 C1 C2 C3 C4. split_and!; [done|congruence|].
    destruct (Hf (ss_counts s2)) as (F1 & F2 & F3). unfold counted_more. rewrite C2, F1, F2.
    rewrite B2, A2 in *. unfold closed in *. cbn in *. lia. }
  destruct (wir_status item); try (apply Hc; [apply add_closes_one; lia|done..]).
  wp_step. eapply wp_mono; [apply wp_mirror; [apply attempt_mirror, engine_mirror|apply attempt_infallible]|].
  cbv beta. intros r s2 ([o ->] & B1 & B2 & B3 & B4). cbv zeta.
  apply Hc; [|done..]. repeat case_match; apply add_closes_one; lia.
Qed.

Lemma wp_count_items items s :
  wp (foreach items count_item) (λ r s', r = Ok tt ∧ ss_audit s' = ss_audit s ∧
        counted_more (length (List.filter is_agent items)) s s') s.
Proof.
  induction items as [|item l IH] in s |- *; cbn [foreach List.filter].
  { wp_step. split_and!; [done..|]. unfold counted_more. cbn. lia. }
  wp_step. eapply wp_mono; [apply wp_count_item|]. cbv beta. intros r s1 (-> & A1 & A2).
  eapply wp_mono; [apply IH|]. cbv beta. intros r s2 (-> & B1 & B2). split_and!; [done|congruence|].
  unfold counted_more in *. destruct (is_agent item); cbn [length]; lia.
Qed.

(** The runs of the audit with the flag of an owed reply. *)
Definition flags (a : SwarmDb) : list (string * string * bool) :=
  (λ r, (sw_run_id r, sw_channel r, sw_awaiting_reply r)) <$> swarm_runs a.

Definition same_flags (a a' : SwarmDb) : Prop := flags a' = flags a ∧ (swarm_inv a → swarm_inv a').

#[local] Instance same_flags_preorder : PreOrder same_flags.
Proof. split; [done|]. intros a b c [H1 H2] [G1 G2]. split; [congruence|auto]. Qed.

Lemma stable_both {S A} (R R' : relation S) (m : M S A) :
  stable R m → stable R' m → stable (λ s s', R s s' ∧ R' s s') m.
Proof. intros H H' w. split; [apply H|apply H']. Qed.

Lemma upsert_flags req : stable same_flags (upsert_agent_swarm_node req).
Proof.
  apply stable_both; [|apply (swarm_exec_inv (WNode req))].
  assert (PreOrder (λ a a' : SwarmDb, flags a' = flags a)) by (split; [done|intros ??? ? ?; congruence]).
  unfold upsert_agent_swarm_node. cbv zeta. stable_go. apply stable_sql_upsert; [done|].
  intros x _. by destruct (existsb _ _).
Qed.

Lemma finish_flags channel run_id status finished_at error :
  stable same_flags (finish_agent_swarm_run channel run_id status finished_at error).
Proof.
  apply stable_both; [|intros w; rewrite <- unit_of_db; apply (swarm_exec_inv (WFinish channel run_id status finished_at error))].
  assert (PreOrder (λ a a' : SwarmDb, flags a' = flags a)) by (split; [done|intros ??? ? ?; congruence]).
  unfold finish_agent_swarm_run. stable_go. apply stable_sql_update. intros x.
  by apply (fmap_update_where (λ r, (sw_run_id r, sw_channel r, sw_awaiting_reply r))).
Qed.

(** The audit keeps its flags, the counters their values. *)
Definition quiet_run : relation SwarmState := λ s s',
  same_flags (ss_audit s) (ss_audit s') ∧ ss_counts s' = ss_counts s.

#[local] Instance quiet_run_preorder : PreOrder quiet_run.
Proof.
  split; [by intros s; split|]. intros a b c [H1 H2] [G1 G2]. split; [by etrans|congruence].
Qed.

Lemma mirror_quiet {A} (m : M SwarmState A) : stable mirror_only m → stable quiet_run m.
Proof. intros H w. destruct (H w) as (H1 & H2 & _). split; [by rewrite H1|done]. Qed.

Lemma on_audit_quiet {A} (m : M SwarmDb A) : stable same_flags m → stable quiet_run (on_audit m).
Proof. apply stable_zoom. by intros s a H. Qed.

#[local] Hint Resolve upsert_flags finish_flags : stab.
#[local] Hint Extern 1 (stable quiet_run (on_audit _)) => apply on_audit_quiet : stab.
#[local] Hint Extern 1 (stable quiet_run (engine _)) => apply mirror_quiet, engine_mirror : stab.

Lemma mirror_audit_quiet run_id channel report : stable quiet_run (mirror_durable_swarm_audit run_id channel report).
Proof. unfold mirror_durable_swarm_audit. apply stable_foreach; [apply _|]. intros item. stable_go. Qed.

Lemma foreach_infallible {S A} (l : list A) (f : A → M S unit) : (∀ a, infallible (f a)) → infallible (foreach l f).
Proof. intros H. induction l; cbn [foreach]; [done|]. by apply infallible_bind. Qed.

Lemma mirror_audit_infallible run_id channel report : infallible (mirror_durable_swarm_audit run_id channel report).
Proof. apply foreach_infallible. intros item. destruct (mirror_item _ _ _); [apply ignore_infallible|done]. Qed.

Lemma wp_quiet (m : M SwarmState unit) s :
  stable quiet_run m → infallible m → wp m (λ r s', r = Ok tt ∧ quiet_run s s') s.
Proof.
  intros Hm Ht w <-. specialize (Ht w). split; [|apply Hm]. by destruct (m w).1 as [[]|].
Qed.

(** The run of that id and channel waits for its reply. *)
Definition owes_reply (channel run_id : string) (a : SwarmDb) : Prop :=
  ∀ r, r ∈ swarm_runs a → is_run channel run_id r = true → sw_awaiting_reply r = true.

Lemma wp_set_awaiting channel run_id awaiting a :
  wp (set_swarm_run_awaiting_reply channel run_id awaiting)
     (λ r a', r = Ok tt ∧ swarm_nodes a' = swarm_nodes a ∧
        ∃ now, swarm_runs a' = update_where (is_run channel run_id)
          (λ r, set_run (sw_status r) (sw_finished_at r) (sw_error r) awaiting now r) (swarm_runs a)) a.
Proof.
  unfold set_swarm_run_awaiting_reply. repeat (wp_step; cbv beta). split_and!; [done..|]. by eexists.
Qed.

(** Functional: what a durable run answers.  It is completed only if the workers ended
    without an error and no agent failed, was partial or was skipped; it is left running
    only when its window closed and no root outcome was there to answer with, and then
    the run is marked as owing its reply if the channel can be reached; and whenever the
    goal could be read, each of its agents is counted in exactly one way. *)
Theorem durable_run_concludes run_id channel goal_id run_error deferred s :
  ss_counts s = no_counts →
  wp (conclude_durable has_sender run_id channel goal_id run_error deferred)
     (λ r s', ∃ text status error, r = Ok (text, status, error) ∧
        let c := ss_counts s' in
        (status = RunCompleted → run_error = None ∧ sc_failed c = 0 ∧ sc_partial c = 0 ∧ sc_skipped c = 0) ∧
        (status = RunRunning → deferred = true ∧
           if has_sender && supports_channel true channel
           then text = Some DEFERRED_ACK ∧ owes_reply channel run_id (ss_audit s')
           else text = Some BACKGROUND_ACK) ∧
        (text = None ↔ status = RunFailed) ∧
        sc_agents c = sc_success c + sc_partial c + sc_failed c + sc_skipped c ∧ sc_timeout c ≤ sc_failed c) s.
Proof.
  intros H0. unfold conclude_durable. wp_step. wp_step.
  eapply wp_mono; [apply wp_of_stable, (engine_mirror (engine_resume_goal goal_id SWARM_LOOP_ACTOR))|].
  cbv beta. intros r s1 (A1 & A2 & _). destruct r as [report|e]; cbv beta iota.
  2:{ wp_step. rewrite A2, H0. unfold failed_run. eexists _, _, _. split; [done|]. cbn. by split_and!. }
  wp_step. eapply wp_mono; [apply wp_root_outcome|]. cbv beta. intros r s2 ([root ->] & B1 & B2 & _).
  wp_step. eapply wp_mono; [apply wp_quiet; [apply mirror_audit_quiet|apply mirror_audit_infallible]|].
  cbv beta. intros r s3 (-> & _ & C2). wp_step. eapply wp_mono; [apply wp_count_items|]. cbv beta.
  intros r s4 (-> & _ & D1 & D2 & D3). rewrite C2, B2, A2, H0 in *. cbn in D1, D2, D3. do 2 wp_step. cbv zeta.
  unfold closed in D2. assert (Hc : sc_agents (ss_counts s4) = sc_success (ss_counts s4) + sc_partial (ss_counts s4) +
    sc_failed (ss_counts s4) + sc_skipped (ss_counts s4) ∧ sc_timeout (ss_counts s4) ≤ sc_failed (ss_counts s4)) by lia.
  destruct root as [outcome|]; cbn [fmap option_fmap option_map].
  { wp_step. eexists _, _, _. split; [done|]. cbv zeta.
    match goal with |- context [if ?b then RunPartial else RunCompleted] => destruct b eqn:E end;
      split_and!; try done; try apply Hc; try (by split); intros _.
    apply orb_false_elim in E as [[[E1 E2]%orb_false_elim E3]%orb_false_elim E4].
    rewrite Nat.ltb_ge in E2, E3, E4. split_and!; try lia. by destruct run_error. }
  destruct deferred.
  2:{ wp_step. eexists _, _, _. split; [done|]. cbv zeta. split_and!; try done; try apply Hc; by split. }
  destruct (has_sender && supports_channel true channel).
  - wp_step. apply wp_ignore_error, wp_zoom. eapply wp_mono; [apply wp_set_awaiting|]. cbv beta.
    intros r a (-> & E1 & now & E2). wp_step. eexists _, _, _. split; [done|]. cbv zeta. cbn [ss_counts put_audit].
    split_and!; try done; try apply Hc; try (by split). intros _. split; [done|]. split; [done|]. cbn [ss_audit put_audit].
    intros x Hx Hr. rewrite E2 in Hx. apply elem_update_where in Hx as (y & Hy & ->).
    destruct (is_run channel run_id y) eqn:Ey; [done|]. by rewrite Ey in Hr.
  - wp_step. wp_step. wp_step. eexists _, _, _. split; [done|]. cbv zeta. split_and!; try done; try apply Hc; by split.
Qed.

(** ** The janitor *)

(** The goal of a run that reached an end. *)
Lemma wp_terminal_goal run_id s :
  wp (terminal_goal run_id) (λ r s', (∃ g, r = Ok g ∧
        (if g is Some goal then is_terminal (gr_status goal) = true else True)) ∧ mirror_only s s') s.
Proof.
  unfold terminal_goal. wp_step. eapply wp_mono; [apply wp_mirror; [apply attempt_mirror, engine_mirror|apply attempt_infallible]|].
  cbv beta. intros r s' ([g ->] & H). wp_step. split; [|done]. eexists. split; [done|].
  destruct (mjoin g) as [goal|]; [|done]. by destruct (is_terminal _) eqn:E.
Qed.

(** Safety: the janitor closes a run only when its goal has ended: it answers 1 and
    records the run as completed exactly when the goal was achieved and as failed
    otherwise, or answers 0 and leaves the runs as they were. *)
Theorem reaped_run_had_ended row s :
  wp (reap_run row)
     (λ r s', (r = Ok 0 ∧ swarm_runs (ss_audit s') = swarm_runs (ss_audit s)) ∨
        (r = Ok 1 ∧ ∃ goal now, is_terminal (gr_status goal) = true ∧
           swarm_runs (ss_audit s') =
           update_where (is_run (sw_channel (rn_run row)) (sw_run_id (rn_run row)))
             (λ r, set_run (if bool_decide (gr_status goal = Achieved) then RunCompleted else RunFailed) (Some now.1)
                (if bool_decide (gr_status goal = Achieved) then None
                 else Some ("process restart: goal " +:+ goal_status_as_str (gr_status goal)))
                (sw_awaiting_reply r) now.2 r)
             (swarm_runs (ss_audit s)))) s.
Proof.
  assert (Hruns : ∀ run_id channel report, stable (λ s s' : SwarmState, swarm_runs (ss_audit s') = swarm_runs (ss_audit s))
            (mirror_durable_swarm_audit run_id channel report)).
  { intros. assert (PreOrder (λ s s' : SwarmState, swarm_runs (ss_audit s') = swarm_runs (ss_audit s)))
      by (split; [done|intros ??? ? ?; congruence]).
    unfold mirror_durable_swarm_audit. apply stable_foreach; [done|]. intros item. stable_go.
    apply stable_zoom with (R := λ a a' : SwarmDb, swarm_runs a' = swarm_runs a); [done|].
    assert (PreOrder (λ a a' : SwarmDb, swarm_runs a' = swarm_runs a)) by (split; [done|intros ??? ? ?; congruence]).
    unfold upsert_agent_swarm_node. cbv zeta. stable_go. apply stable_sql_upsert; [done|]. intros x _.
    by destruct (existsb _ _). }
  unfold reap_run. cbv zeta. wp_step. eapply wp_mono; [apply wp_terminal_goal|]. cbv beta.
  intros r s1 [(g & -> & Hg) (A1 & _)]. destruct g as [goal|]; [|wp_step; left; by rewrite A1].
  wp_step. wp_step. eapply wp_mono; [apply wp_of_stable, (engine_mirror (engine_resume_goal (gr_id goal) SWARM_LOOP_ACTOR))|].
  cbv beta. intros r s2 (B1 & _). destruct r as [report|e]; cbv beta iota; [|wp_step; left; by rewrite B1, A1].
  wp_step. eapply wp_mono; [apply wp_and; [apply wp_quiet; [apply mirror_audit_quiet|apply mirror_audit_infallible]|
    apply wp_of_stable, Hruns]|]. cbv beta. intros r s3 [[-> _] C1]. do 2 wp_step. wp_step.
  apply wp_ignore_error, wp_zoom. unfold finish_agent_swarm_run. repeat (wp_step; cbv beta).
  right. split; [done|]. exists goal. eexists (_, _). split; [done|]. cbn. rewrite C1, B1, A1. reflexivity.
Qed.

(** *** Deferred replies *)

Definition reply_key (run : swarm_run_row) : string := "swarm-reply:" +:+ sw_run_id run.

Definition attempt_key (a : attempt_to_send) : string := st_key (at_message a).

(** The keys of the replies that were reported as sent. *)
Definition delivered (v : ServiceState) : list string := attempt_key <$> List.filter at_ok (sv_attempts v).

(** An attempt follows only failed ones of the same reply. *)
Definition retries_only (l : list attempt_to_send) : Prop :=
  ∀ i j a b, l !! i = Some a → l !! j = Some b → i < j → attempt_key a = attempt_key b → at_ok a = false.

(** A reply is tried again only while it was not reported as sent, and one that was is not
    owed any more. *)
Record replies_inv (v : ServiceState) : Prop := {
  ri_audit : swarm_inv (ss_audit (sv_swarm v));
  ri_retries : retries_only (sv_attempts v);
  ri_settled : ∀ run, run ∈ swarm_runs (ss_audit (sv_swarm v)) → reply_key run ∈ delivered v →
                      sw_awaiting_reply run = false
}.

Lemma retries_snoc l a :
  retries_only l → attempt_key a ∉ attempt_key <$> List.filter at_ok l → retries_only (l ++ [a]).
Proof.
  intros Hl Ha i j x y Hx Hy Hij Hk. apply lookup_app_Some in Hy as [Hy|[Hj Hy]].
  - apply lookup_app_Some in Hx as [Hx|[Hi _]]; [by eapply Hl|]. apply lookup_lt_Some in Hy. lia.
  - apply list_lookup_singleton_Some in Hy as [Hj' <-]. rewrite lookup_app_l in Hx by lia.
    apply not_true_iff_false. intros Hok. apply Ha. rewrite <- Hk. apply list_elem_of_fmap. exists x. split; [done|].
    apply list_elem_of_In, List.filter_In. split; [|done]. apply list_elem_of_lookup_2 in Hx. by apply list_elem_of_In.
Qed.

(** What an attempt did: it sent all parts of the text to the chat of the session, or the parts
    before one that failed, or nothing when the session names no chat. *)
Definition attempt_done (a : attempt_to_send) : Prop :=
  let m := at_message a in
  let parts := render_telegram_text_parts (st_text m) TELEGRAM_MAX_TEXT_CHARS in
  match parse_telegram_outbound_target (st_session m) with
  | Err _ => at_ok a = false ∧ at_calls a = []
  | Ok target =>
      let sends := sends_of (ot_chat_id target) (ot_thread_id target) (ot_reply_to target) parts in
      if at_ok a then ∃ ids, length ids = length parts ∧ at_calls a = sends ids
      else ∃ ids payload error, length ids < length parts ∧ at_calls a = sends ids ++ [CallSend payload (Err error)]
  end.

(** Whatever is sent is sent by the attempts that are noted. *)
Definition sends_by_attempts : relation ServiceState := λ v v',
  ∃ new, sv_attempts v' = sv_attempts v ++ new ∧ Forall attempt_done new ∧
    tg_calls (sv_telegram v') = tg_calls (sv_telegram v) ++ concat (at_calls <$> new).

#[local] Instance sends_by_attempts_preorder : PreOrder sends_by_attempts.
Proof.
  split; [intros v; exists []; cbn; by rewrite !app_nil_r|].
  intros u v w (n & A1 & A2 & A3) (m & B1 & B2 & B3). exists (n ++ m). rewrite B1, A1, B3, A3, fmap_app, concat_app.
  by rewrite <- !app_assoc, Forall_app.
Qed.

Lemma on_swarm_sends {A} (m : M SwarmState A) : stable sends_by_attempts (on_swarm m).
Proof.
  intros w. unfold on_swarm, zoom. destruct (m _) as [r w']. exists []. cbn. by rewrite !app_nil_r.
Qed.

Lemma wp_outbound_send session text t :
  wp (channel_outbound_send true "telegram" session text) (λ r t', ∃ new, tg_calls t' = tg_calls t ++ new ∧
    ∀ key, attempt_done {| at_message := {| st_channel := "telegram"; st_session := session; st_text := text; st_key := key |};
                           at_ok := is_ok r; at_calls := new |}) t.
Proof.
  unfold channel_outbound_send, attempt_done. cbn [at_message at_ok at_calls st_session st_text String.eqb Ascii.eqb Bool.eqb].
  change (String.eqb "telegram" "telegram") with true. cbv iota. apply wp_bind, wp_ret, wp_bind, wp_lift_res.
  destruct (parse_telegram_outbound_target session) as [target|e]; [|exists []; by rewrite app_nil_r].
  apply wp_bind. unfold send_message. apply wp_bind.
  eapply wp_mono; [apply send_parts_spec|]. cbv beta. intros [ids|e] t' (seq & Hs).
  - destruct Hs as (sent & -> & Hl & _ & Hc). apply wp_ret, wp_ret. eexists. split; [exact Hc|]. intros key. by exists sent.
  - destruct Hs as (sent & part & Hp & Hc & _). eexists. split; [exact Hc|]. intros key.
    exists sent. do 2 eexists. split; [by eapply lookup_lt_Some|done].
Qed.

Lemma wp_send_reply m v :
  st_channel m = "telegram" →
  wp (send_reply m) (λ r v', ∃ sent_it a, r = Ok sent_it ∧ sv_swarm v' = sv_swarm v ∧ sv_attempts v' = sv_attempts v ++ [a] ∧
    at_message a = m ∧ at_ok a = is_ok sent_it ∧ sends_by_attempts v v') v.
Proof.
  intros Hch. unfold send_reply. rewrite Hch. wp_step. wp_step. wp_step. apply wp_catch, wp_zoom.
  eapply wp_mono; [apply wp_outbound_send|]. cbv beta. intros r t' (new & Hc & Hdone). wp_step. wp_step. wp_step.
  apply wp_put_db. wp_step. cbn [sv_telegram sv_attempts sv_swarm]. rewrite Hc, drop_app_length.
  eexists r, _. split_and!; try done. exists [{| at_message := m; at_ok := is_ok r; at_calls := new |}].
  split; [done|]. split; [|cbn; by rewrite app_nil_r]. constructor; [|done].
  destruct m as [ch se te ke]. cbn in *. subst ch. apply Hdone.
Qed.

Lemma flags_row a a' run :
  flags a' = flags a → run ∈ swarm_runs a' →
  ∃ x, x ∈ swarm_runs a ∧ sw_run_id run = sw_run_id x ∧ sw_channel run = sw_channel x ∧
       sw_awaiting_reply run = sw_awaiting_reply x.
Proof.
  intros Hf Hr. assert (Hin : (sw_run_id run, sw_channel run, sw_awaiting_reply run) ∈ flags a').
  { apply list_elem_of_fmap. by exists run. }
  rewrite Hf in Hin. apply list_elem_of_fmap in Hin as (x & [= E1 E2 E3] & Hx). eauto 6.
Qed.

Lemma flags_settled a a' (keys : list string) :
  flags a' = flags a →
  (∀ run, run ∈ swarm_runs a → reply_key run ∈ keys → sw_awaiting_reply run = false) →
  ∀ run, run ∈ swarm_runs a' → reply_key run ∈ keys → sw_awaiting_reply run = false.
Proof.
  intros Hf H run Hr Hk.
  apply (flags_row a) in Hr as (x & Hx & E1 & _ & E2); [|done]. rewrite E2. apply H; [done|].
  unfold reply_key. by rewrite <- E1.
Qed.

(** What the janitor does besides sending. *)
Definition quiet_service : relation ServiceState := λ v v',
  same_flags (ss_audit (sv_swarm v)) (ss_audit (sv_swarm v')) ∧ sv_attempts v' = sv_attempts v.

Lemma quiet_replies v v' : quiet_service v v' → replies_inv v → replies_inv v'.
Proof.
  intros [[Hf Hi] Hs] [H1 H2 H3]. split; [by apply Hi| |]; unfold delivered in *; rewrite Hs; [done|].
  by eapply flags_settled.
Qed.

Lemma on_swarm_quiet {A} (m : M SwarmState A) : stable quiet_run m → stable quiet_service (on_swarm m).
Proof. apply stable_zoom. by intros v s [H _]. Qed.

Lemma wp_on_swarm {A} (m : M SwarmState A) (P : res A → Prop) v :
  wp m (λ r s', P r ∧ mirror_only (sv_swarm v) s') (sv_swarm v) →
  wp (on_swarm m) (λ r v', P r ∧ quiet_service v v') v.
Proof.
  intros H. apply wp_zoom. eapply wp_mono; [exact H|]. cbv beta. intros r s' [Hr (H1 & _)]. split; [done|].
  split; [cbn; by rewrite H1|done].
Qed.

(** The run is in the audit. *)
Definition recorded (run : swarm_run_row) (v : ServiceState) : Prop :=
  ∃ x, x ∈ swarm_runs (ss_audit (sv_swarm v)) ∧ sw_run_id x = sw_run_id run ∧ sw_channel x = sw_channel run.

Lemma quiet_recorded run v v' : quiet_service v v' → recorded run v → recorded run v'.
Proof.
  intros [[Hf _] _] (x & Hx & H1 & H2). apply (flags_row (ss_audit (sv_swarm v'))) in Hx as (y & Hy & E1 & E2 & _); [|done].
  exists y. split_and!; congruence.
Qed.

(** Settling a reply: the run no longer waits, the other runs stay as they were. *)
Lemma wp_settle_reply run v :
  swarm_inv (ss_audit (sv_swarm v)) → recorded run v →
  wp (settle_reply run) (λ r v', r = Ok tt ∧ sv_attempts v' = sv_attempts v ∧ swarm_inv (ss_audit (sv_swarm v')) ∧
    (∀ run', recorded run' v → recorded run' v') ∧
    ∀ x, x ∈ swarm_runs (ss_audit (sv_swarm v')) →
         (x ∈ swarm_runs (ss_audit (sv_swarm v)) ∧ reply_key x ≠ reply_key run) ∨ sw_awaiting_reply x = false) v.
Proof.
  intros H1 (z & Hz & Hid & Hch). unfold settle_reply. apply wp_ignore_error, wp_zoom, wp_zoom.
  assert (Hinv : stable (keeps swarm_inv) (set_swarm_run_awaiting_reply (sw_channel run) (sw_run_id run) false))
    by apply (swarm_exec_inv (WAwait (sw_channel run) (sw_run_id run) false)).
  eapply wp_mono; [apply wp_and; [apply wp_set_awaiting|apply (wp_of_stable _ _ _ Hinv)]|]. cbv beta.
  intros r a [(-> & E1 & now & E2) Hk]. cbn. split_and!; [done|done|by apply Hk| |].
  - intros run' (x & Hx & X1 & X2). unfold recorded. cbn. rewrite E2. unfold update_where.
    eexists. split; [apply list_elem_of_fmap; by exists x|]. by destruct (is_run _ _ x).
  - intros x Hx. rewrite E2 in Hx. apply elem_update_where in Hx as (y & Hy & ->).
    destruct (is_run _ _ y) eqn:Ey; [by right|left]. split; [done|]. unfold reply_key. intros Heq.
    assert (sw_run_id y = sw_run_id run) by (by injection Heq).
    assert (y = z) as ->.
    { eapply (nodup_key_inj sw_run_id); [apply H1|done|done|congruence]. }
    unfold is_run in Ey. by rewrite Hch, Hid, !String.eqb_refl in Ey.
Qed.

(** What one turn of the delivery does. *)
Definition delivers (run : swarm_run_row) (v v' : ServiceState) : Prop :=
  replies_inv v' ∧ (∀ run', recorded run' v → recorded run' v') ∧
  (delivered v' = delivered v ∨ delivered v' = delivered v ++ [reply_key run]).

Lemma quiet_delivers run v v' : replies_inv v → quiet_service v v' → delivers run v v'.
Proof.
  intros Hi Hq. split_and!; [by eapply quiet_replies|intros run'; by apply quiet_recorded|left].
  unfold delivered. by rewrite (proj2 Hq).
Qed.

Lemma delivers_quiet run v v1 v' : quiet_service v v1 → delivers run v1 v' → delivers run v v'.
Proof.
  intros Hq (H1 & H2 & H3). split_and!; [done|intros run' H; by apply H2, (quiet_recorded run' v)|].
  unfold delivered in *. by rewrite <- (proj2 Hq).
Qed.

Lemma delivered_snoc v v' a :
  sv_attempts v' = sv_attempts v ++ [a] → delivered v' = delivered v ++ (if at_ok a then [attempt_key a] else []).
Proof. intros H. unfold delivered. rewrite H, List.filter_app, fmap_app. cbn. by destruct (at_ok a). Qed.

Lemma wp_settled_delivers run v v1 :
  replies_inv v → recorded run v → reply_key run ∉ delivered v → sv_swarm v1 = sv_swarm v →
  retries_only (sv_attempts v1) →
  delivered v1 = delivered v ∨ delivered v1 = delivered v ++ [reply_key run] →
  wp (settle_reply run) (λ r v', r = Ok tt ∧ delivers run v v') v1.
Proof.
  intros Hi Hr Hk Hs Ho Hd.
  eapply wp_mono; [apply wp_settle_reply|].
  - rewrite Hs. apply Hi.
  - unfold recorded. by rewrite Hs.
  - cbv beta. intros r v' (-> & E1 & E2 & E3 & E4). rewrite Hs in *. split; [done|].
    assert (Hd' : delivered v' = delivered v1) by (unfold delivered; by rewrite E1).
    assert (Hsub : ∀ k, k ∈ delivered v1 → k ∈ delivered v ∨ k = reply_key run).
    { intros k. destruct Hd as [->| ->]; [by left|]. by intros [?| ->%list_elem_of_singleton]%elem_of_app; [left|right]. }
    split_and!; [split| |by rewrite Hd'].
    + done.
    + by rewrite E1.
    + intros x Hx Hkx. destruct (E4 x Hx) as [[Hin Hne]|]; [|done]. apply (ri_settled v Hi x Hin).
      rewrite Hd' in Hkx. by destruct (Hsub _ Hkx).
    + intros run' H. apply E3. unfold recorded in *. by rewrite Hs.
Qed.

Lemma wp_deliver_reply row v :
  replies_inv v → recorded (rn_run row) v → reply_key (rn_run row) ∉ delivered v →
  wp (deliver_reply row) (λ r v', r = Ok tt ∧ delivers (rn_run row) v v') v.
Proof.
  set (run := rn_run row). intros Hi Hr Hk. unfold deliver_reply. cbv zeta. fold run. wp_step.
  eapply wp_mono; [apply (wp_on_swarm _ (λ r, ∃ g, r = Ok g)); eapply wp_mono; [apply wp_terminal_goal|]|].
  { cbv beta. intros r s' [(g & -> & _) H]. eauto. }
  cbv beta. intros r v1 [[g ->] Q1]. destruct g as [goal|]; [|wp_step; split; [done|by apply quiet_delivers]].
  assert (Hi1 : replies_inv v1) by by eapply quiet_replies.
  assert (Hr1 : recorded run v1) by by eapply quiet_recorded.
  assert (Hk1 : reply_key run ∉ delivered v1) by (unfold delivered in *; by rewrite (proj2 Q1)).
  assert (Hback : ∀ v', delivers run v1 v' → delivers run v v') by (intros v'; by apply delivers_quiet).
  destruct (supports_channel true (sw_channel run)) eqn:Hch; cbn [negb].
  2:{ eapply wp_mono; [apply (wp_settled_delivers run v1 v1); auto; apply Hi1|]. cbv beta. intros r v' [-> H]. auto. }
  apply andb_true_iff in Hch as [Hch%String.eqb_eq _].
  wp_step. wp_step.
  eapply wp_mono; [apply (wp_on_swarm _ (λ _, True)); eapply wp_mono;
    [apply wp_of_stable, (engine_mirror (engine_resume_goal (gr_id goal) SWARM_LOOP_ACTOR))|by intros]|].
  cbv beta. intros r v2 [_ Q2]. destruct r as [report|e]; cbv beta iota.
  2:{ wp_step. split; [done|]. by apply Hback, quiet_delivers. }
  wp_step. eapply wp_mono; [apply (wp_on_swarm _ (λ r, ∃ o, r = Ok o)), wp_root_outcome|].
  cbv beta. intros r v3 [[o ->] Q3].
  assert (Q : quiet_service v1 v3).
  { destruct Q2 as [F2 S2], Q3 as [F3 S3]. split; [by etrans|congruence]. }
  assert (Hi3 : replies_inv v3) by by eapply quiet_replies.
  assert (Hr3 : recorded run v3) by by eapply quiet_recorded.
  assert (Hk3 : reply_key run ∉ delivered v3) by (unfold delivered in *; by rewrite (proj2 Q)).
  assert (Hback3 : ∀ v', delivers run v3 v' → delivers run v v').
  { intros v' H. by apply Hback, (delivers_quiet run v1 v3). }
  cbv zeta. wp_step. set (m := Build_sent _ _ _ _).
  eapply wp_mono; [apply (wp_send_reply m); exact Hch|]. cbv beta. intros r v4 (answer & a & -> & Hs & Ha & Hm & Hok & _).
  pose proof (delivered_snoc v3 v4 a Ha) as Hd. assert (Hka : attempt_key a = reply_key run) by (unfold attempt_key; by rewrite Hm).
  assert (Ho : retries_only (sv_attempts v4)).
  { rewrite Ha. apply retries_snoc; [apply Hi3|]. by rewrite Hka. }
  rewrite Hok, Hka in Hd. destruct answer as [receipt|error]; cbn [is_ok] in Hd.
  - eapply wp_mono; [apply (wp_settled_delivers run v3 v4); auto|]. cbv beta. intros r v' [-> H]. auto.
  - rewrite app_nil_r in Hd. apply wp_ignore_error. eapply wp_mono; [apply (wp_on_swarm _ (λ _, True)); eapply wp_mono;
      [apply wp_of_stable, engine_mirror|by intros]|].
    cbv beta. intros r v' [_ Q4]. split; [done|]. apply Hback3.
    assert (Hd4 : replies_inv v4).
    { destruct Hi3 as [I1 I2 I3]. split; [by rewrite Hs|done|]. rewrite Hs, Hd. exact I3. }
    destruct (quiet_delivers run v4 v' Hd4 Q4) as (D1 & D2 & D3). split_and!; [done| |by rewrite <- Hd].
    intros run' H. apply D2. unfold recorded in *. by rewrite Hs.
Qed.

Lemma wp_deliver_all rows v :
  replies_inv v → NoDup (reply_key ∘ rn_run <$> rows) →
  (∀ row, row ∈ rows → recorded (rn_run row) v ∧ reply_key (rn_run row) ∉ delivered v) →
  wp (foreach rows deliver_reply) (λ r v', r = Ok tt ∧ replies_inv v') v.
Proof.
  induction rows as [|row rows IH] in v |- *; cbn [foreach]; intros Hi Hn Hrows; [by wp_step|].
  apply NoDup_cons in Hn as [Hrow Hn]. destruct (Hrows row (list_elem_of_here _ _)) as [Hr Hk].
  wp_step. eapply wp_mono; [by apply wp_deliver_reply|]. cbv beta. intros r v1 (-> & Hi1 & Hrec & Hd).
  apply IH; [done|done|]. intros row' Hin. destruct (Hrows row' (list_elem_of_further _ _ _ Hin)) as [Hr' Hk'].
  split; [by apply Hrec|]. destruct Hd as [->| ->]; [done|].
  intros [?|Heq%list_elem_of_singleton]%elem_of_app; [done|]. apply Hrow. change (reply_key (rn_run row) ∈ (reply_key ∘ rn_run) <$> rows). rewrite <- Heq.
  apply list_elem_of_fmap. by exists row'.
Qed.

Lemma wp_list_awaiting limit a :
  swarm_inv a →
  wp (list_awaiting_reply_swarm_runs limit)
     (λ r a', a' = a ∧ ∃ rows, r = Ok rows ∧ NoDup (reply_key ∘ rn_run <$> rows) ∧
        ∀ row, row ∈ rows → rn_run row ∈ swarm_runs a ∧ sw_awaiting_reply (rn_run row) = true) a.
Proof.
  intros [Hn _ _]. unfold list_awaiting_reply_swarm_runs, counted. repeat (wp_step; cbv beta). split; [done|].
  set (sel := order_by oldest_run_first _). eexists. split; [done|].
  assert (Hperm : sel ≡ₚ List.filter sw_awaiting_reply (swarm_runs a)) by apply order_by_perm.
  assert (Hids : NoDup (sw_run_id <$> take limit sel)).
  { eapply sublist_NoDup; [|apply fmap_sublist, sublist_take]. rewrite Hperm. by apply nodup_key_filter. }
  split.
  - rewrite <- list_fmap_compose.
    rewrite (list_fmap_ext _ (String.append "swarm-reply:" ∘ sw_run_id)) by done. rewrite list_fmap_compose.
    apply NoDup_fmap_2; [|done]. intros x y. by intros [= ].
  - intros row (x & -> & Hx)%list_elem_of_fmap. cbn. apply elem_of_take in Hx as (i & Hx & _).
    apply list_elem_of_lookup_2 in Hx. rewrite Hperm in Hx.
    by apply list_elem_of_In, List.filter_In in Hx as [Hx%list_elem_of_In ?].
Qed.

Lemma reap_runs_quiet rows : stable quiet_run (reap_runs rows).
Proof.
  assert (Hgoal : ∀ run_id, stable quiet_run (terminal_goal run_id)).
  { intros run_id. apply mirror_quiet. unfold terminal_goal. stable_go. }
  pose proof mirror_audit_quiet.
  induction rows as [|row rows IH]; cbn [reap_runs]; [stable_go|]. apply stable_bind; [apply _| |].
  - unfold reap_run. cbv zeta. stable_go.
  - intros n. apply stable_bind; [apply _|done|intros m; stable_go].
Qed.

#[local] Hint Resolve on_swarm_sends : stab.

Lemma deliver_sends row : stable sends_by_attempts (deliver_reply row).
Proof.
  unfold deliver_reply. cbv zeta. apply stable_bind; [apply _|apply on_swarm_sends|]. intros [goal|]; [|stable_go].
  destruct (supports_channel true (sw_channel (rn_run row))) eqn:Hch; cbn [negb]; [|unfold settle_reply; stable_go].
  apply andb_true_iff in Hch as [Hch%String.eqb_eq _].
  apply stable_bind; [apply _|stable_go|]. intros [report|e]; [|stable_go].
  apply stable_bind; [apply _|stable_go|]. intros outcome. apply stable_bind; [apply _| |].
  - apply stable_of_wp. intros v. eapply wp_mono; [by apply wp_send_reply|]. cbv beta.
    by intros r v' (? & ? & _ & _ & _ & _ & _ & H).
  - intros [receipt|error]; unfold settle_reply; stable_go.
Qed.

#[local] Hint Resolve deliver_sends : stab.

Lemma sweep_sends eng : stable sends_by_attempts (reap_orphaned_swarm_runs eng has_sender).
Proof.
  unfold reap_orphaned_swarm_runs. destruct eng; [|stable_go]. apply stable_bind; [apply _|apply on_swarm_sends|].
  intros reaped. apply stable_bind; [apply _| |intros []; stable_go]. destruct has_sender; [|stable_go].
  apply stable_bind; [apply _|apply on_swarm_sends|]. intros rows. apply stable_foreach; [apply _|apply deliver_sends].
Qed.

Lemma sweep_keeps_replies eng : stable (keeps replies_inv) (reap_orphaned_swarm_runs eng has_sender).
Proof.
  apply stable_of_wp. intros v. unfold keeps. apply wp_imp. intros Hi. unfold reap_orphaned_swarm_runs.
  destruct eng; [|by wp_step]. wp_step.
  eapply wp_mono; [apply wp_of_stable, on_swarm_quiet|].
  { apply stable_bind; [apply _|apply on_audit_quiet; unfold list_running_agent_swarm_runs, counted; stable_go|].
    intros rows. apply reap_runs_quiet. }
  cbv beta. intros r v1 Q. assert (Hi1 : replies_inv v1) by by eapply quiet_replies.
  destruct r as [reaped|e]; [|done]. wp_step. destruct has_sender; [|by repeat wp_step]. wp_step.
  apply wp_zoom, wp_zoom. eapply wp_mono; [apply wp_list_awaiting, Hi1|]. cbv beta.
  intros r a [-> (rows & -> & Hn & Hrows)]. 
  match goal with |- wp _ _ ?v' => assert (v' = v1) as -> by (by destruct v1 as [[]]) end.
  eapply wp_mono; [apply wp_deliver_all; [done|done|]|].
  - intros row Hin. destruct (Hrows row Hin) as [H1 H2]. split; [by exists (rn_run row)|].
    intros Hd. by rewrite (ri_settled v1 Hi1 _ H1 Hd) in H2.
  - cbv beta. intros r v2 [-> H]. by wp_step.
Qed.

(** C40: Safety: over any number of sweeps of the janitor, as long as the audit tables can
    be written, the reply of a run is reported as sent at most once: it is tried again only
    when every attempt before failed, and a run whose reply was reported as sent no longer
    waits for it.  Nothing goes out but by these attempts.  One that is reported as sent has
    sent each part of the reply once, in order, to the chat of the session; one that is not
    has sent the parts before the one that failed - so the next sweep sends these again. *)
Theorem replies_are_reported_once eng :
  stable (λ v v', (replies_inv v → replies_inv v') ∧ sends_by_attempts v v') (reap_orphaned_swarm_runs eng has_sender).
Proof. intros w. split; [apply sweep_keeps_replies|apply sweep_sends]. Qed.
End service.
