(* ===== verification/SwarmWitnesses.v ===== *)
(** * The swarm's theorems at work, and deviations observed

    A provider that delegates once, a goal that is planned, approved and run by its
    durable handler, and what the code does at its limits. *)

From S2P Require Import Prelude Text Strings Outbox Markdown Delivery Messages External Verifier Domain Scheduler Tables Signals.
From S2P Require Import Artifacts StoreBase StoreGoals StoreWork StoreExtend Replay Engine Worker Handlers.
From S2P Require Import History Instances Scenario MemBase SwarmAudit TrajStore TrajFacts EvoDomain.
From S2P Require Import EvoStore Harness Swarm SwarmDurable EvoEngine EngineFacts MemWitnesses SwarmFacts.

(** The one JSON text the provider below writes. *)
#[local] Instance delegate_json : @JsonParse value_json :=
  λ s, if String.eqb s "{delegate}" then Some (VString "delegate") else None.

#[local] Instance plan_value : @FromValue value_json SwarmNodePlanEnvelope := λ v,
  match v with
  | VString "delegate" =>
      Ok {| pl_mode := Some "delegate"; pl_answer := None;
            pl_children := Some [{| ch_task := "part one"; ch_role_name := Some "backend";
                                    ch_role_definition := None; ch_nickname := None |}] |}
  | _ => Err "not a plan"
  end.

#[local] Instance values_text : Serialize (list value) := λ l, Ok (bytes (value_text (VArray l))).

(** The provider delegates when asked to plan. *)
#[local] Instance delegating : SwarmProvider := λ _ json_mode _, CompReply (if json_mode then "{delegate}" else "fine").

Definition small_swarm (max_parallel : nat) : AgentSwarmSettings :=
  {| sg_enabled := true; sg_auto_detect := true; sg_max_depth := 1; sg_max_agents := 16;
     sg_max_parallel := max_parallel; sg_max_node_timeout_ms := 20000; sg_max_run_timeout_ms := 90000;
     sg_reply_summary_enabled := true; sg_audit_retention_days := 30; sg_durable_engine := true;
     sg_reply_sync_wait_ms := 45000; sg_group_enabled := false |}.

Definition small_run (max_parallel : nat) : SwarmRun :=
  {| sr_run_id := "run-1"; sr_channel := "telegram"; sr_settings := small_swarm max_parallel; sr_engine := None;
     sr_goal := None |}.

Definition with_permits (permits : nat) : SwarmState :=
  {| ss_harness := empty_harness; ss_audit := empty_swarm; ss_counts := no_counts; ss_permits := permits; ss_calls := [] |}.

Definition two_agents : SwarmCounts :=
  {| sc_agents := 2; sc_success := 2; sc_partial := 0; sc_failed := 0; sc_timeout := 0; sc_skipped := 0 |}.

Lemma two_agents_run :
  let '(r, w) := run_in_process (small_run 2) "build it" [] (World (with_permits 2) 100 0) in
  r = Ok (Some "fine", RunCompleted, None) ∧ ss_counts (w_db w) = two_agents ∧ length (ss_calls (w_db w)) = 3.
Proof. vm_compute. done. Qed.

Lemma swarm_run_accounts_witness :
  let '(r, w) := run_in_process (small_run 2) "build it" [] (World (with_permits 2) 100 0) in
  r = Ok (Some "fine", RunCompleted, None) ∧ ss_permits (w_db w) = 2 ∧ sc_agents (ss_counts (w_db w)) = 2 ∧
  ∀ id, open (w_db w) id → open (with_permits 2) id.
Proof.
  pose proof (swarm_run_accounts (ENV := concrete_env) (small_run 2) [] "build it" (with_permits 2) eq_refl
    (World (with_permits 2) 100 0) eq_refl) as H.
  pose proof two_agents_run as Hrun. revert H Hrun. destruct (run_in_process _ _ _ _) as [r w]. cbn [fst snd].
  intros [_ H] (-> & Hc & _). destruct H as (_ & _ & _ & Hp & Ho). split; [reflexivity|]. rewrite Hc.
  split; [exact Hp|]. split; [reflexivity|exact Ho].
Defined.

Lemma swarm_run_returns_witness :
  ∃ answer status, (run_in_process (small_run 2) "build it" [] (World (with_permits 2) 100 0)).1 =
    Ok (Some answer, status, None).
Proof.
  apply (swarm_run_returns (ENV := concrete_env) (small_run 2) [] "build it" (with_permits 2)
    ltac:(intros n j m; destruct j; discriminate) ltac:(vm_compute; lia) (World (with_permits 2) 100 0) eq_refl).
Defined.

(** ** A single permit

    The parent's permit is held while its child waits for one, so the run above ends only
    at its deadline, although every call of the provider is answered. *)
Example single_permit_run_is_cut :
  (run_in_process (small_run 1) "build it" [] (World (with_permits 1) 100 0)).1 = Ok (None, RunFailed, Some RUN_CUT).
Proof. vm_compute. reflexivity. Qed.

(** ** A durable run *)

Definition string_field (v : value) (key : string) : option string :=
  match value_get v key with Some (VString s) => Some s | _ => None end.

#[local] Instance node_input_value : @FromValue value_json SwarmNodeInput := λ v,
  match string_field v "task" with
  | None => Err "missing field `task`"
  | Some task =>
      Ok {| ni_task := task; ni_role_name := string_field v "role_name";
            ni_role_definition := string_field v "role_definition"; ni_nickname := string_field v "nickname";
            ni_depth := match value_get v "depth" with Some (VNumber n) => Z.to_nat n | _ => 0 end;
            ni_mode := string_field v "mode"; ni_parent_step_id := string_field v "parent_step_id";
            ni_swarm_run_id := string_field v "swarm_run_id"; ni_history := [];
            ni_swarm_root := match value_get v "swarm_root" with Some (VBool b) => b | _ => false end;
            ni_swarm_terminal := match value_get v "swarm_terminal" with Some (VBool b) => b | _ => false end;
            ni_channel := string_field v "channel"; ni_user_id := string_field v "user_id";
            ni_session_id := string_field v "session_id" |}
  end.

#[local] Instance delegating_nodes : NodeProvider :=
  {| node_complete := λ _ _ json_mode _, Some (Ok (if json_mode then "{delegate}" else "fine"));
     node_model_name := Some "m1" |}.

Definition swarm_engine : LoopEngine :=
  {| external_write_policy := default_external_write; internal_policy := default_internal_policy |}.

Definition a_message : IncomingMessage :=
  {| im_channel := "telegram"; im_session_id := "tg:9"; im_user_id := "5"; im_text := "build it";
     im_is_group_chat := false |}.

(** The root item is claimed, delegates and is committed; then the window closes. *)
Definition delegate_root : M SwarmState (run_result) :=
  goal ← engine (create_swarm_goal swarm_engine (small_swarm 2) "run-1" "build it" [] a_message);
  claim ← engine (engine_claim_goal_work goal "w1" 60 SWARM_LOOP_ACTOR);
  match claim with
  | None => throw "no work"
  | Some claim =>
      checkpoint ← engine (engine_prepare_checkpoint claim (checkpoint_key claim) true SWARM_LOOP_ACTOR);
      outcome ← on_harness (swarm_node_execute swarm_engine (small_swarm 2) None
                  {| ctx_claim := claim; ctx_resume := None; ctx_upstream := ∅ |});
      engine (engine_commit_checkpoint claim (cpr_id checkpoint) outcome SWARM_LOOP_ACTOR) ;;
      engine (engine_finish_attempt claim (cpr_id checkpoint) SWARM_LOOP_ACTOR) ;;
      conclude_durable true "run-1" "telegram" goal None true
  end.

(** Neither child nor aggregate has run, but the root's bookkeeping is taken for the
    answer: the run is closed instead of being left to the janitor. *)
Example delegation_is_taken_for_the_answer :
  (delegate_root (World (with_permits 2) 100 0)).1 = Ok (Some "delegated to 1 children", RunPartial, None).
Proof. vm_compute. reflexivity. Qed.

(** ** Limits *)

Definition repeat_text (n : nat) (s : string) : string := String.concat "" (replicate n s).

Definition a_node : SwarmNodeInput :=
  {| ni_task := "t"; ni_role_name := None; ni_role_definition := None; ni_nickname := None; ni_depth := 0;
     ni_mode := None; ni_parent_step_id := None; ni_swarm_run_id := None; ni_history := []; ni_swarm_root := false;
     ni_swarm_terminal := false; ni_channel := None; ni_user_id := None; ni_session_id := None |}.

(** The whole answer goes into the evidence, which [outcome_validate] keeps within 16384
    bytes: a long answer is an invalid outcome, for which the worker fails the item for
    good. *)
Example long_answer_is_no_outcome :
  serialized_within 16384 (out_evidence (swarm_node_outcome (repeat_text 1700 "0123456789") "success" a_node)) = Ok false.
Proof. unfold swarm_node_outcome, plain_outcome, out_evidence. vm_compute. reflexivity. Qed.

(** The history kept for the 8 KiB limit of an input is bounded in characters. *)
Example multibyte_history_is_refused :
  (create_swarm_goal swarm_engine (small_swarm 2) "run-1" "build it"
     (replicate 8 (user (repeat_text 400 "字"))) a_message (World empty_db 100 0)).1 =
    Err "workflow step input cannot exceed 8192 bytes".
Proof. vm_compute. reflexivity. Qed.

(** ** Deferred replies *)

(** A reply of two parts whose second fails is reported as not sent, though its first part went
    out and the rest waits in the queue.  The run still waits for its reply: the next sweep
    sends both parts, and the queue will send the second once more. *)
Example failed_reply_starts_again :
  let P : MarkdownParser := Markdown.plain_text in let A : TelegramApi := api_but (λ n, n =? 101) in
  let reply := {| st_channel := "telegram"; st_session := "tg:9"; st_text := repeat_text 250 "0123456789";
                  st_key := "swarm-reply:run-1" |} in
  let v := {| sv_swarm := with_permits 2; sv_telegram := chat_process; sv_attempts := [] |} in
  let '(r, w) := (first ← send_reply reply; second ← send_reply reply; mret (is_ok first, is_ok second)) (World v 100 0) in
  r = Ok (false, true) ∧
  (String.length ∘ rt_text ∘ snd <$> map_to_list (chat_of (tg_calls (sv_telegram (w_db w))))) = [452; 2048; 2048] ∧
  (String.length ∘ qr_text <$> outbound_queue (tg_channel (sv_telegram (w_db w)))) = [452].
Proof. vm_compute. done. Qed.

(** A run whose window closed, waiting for its reply, and whose goal was canceled. *)
Definition awaiting_run : M SwarmState unit :=
  on_audit (create_agent_swarm_run
    {| cw_run_id := "run-1"; cw_channel := "telegram"; cw_session_id := "tg:9"; cw_user_id := "5"; cw_root_task := "build it";
       cw_status := RunRunning; cw_started_at := 100 |}) ;;
  goal ← engine (create_swarm_goal swarm_engine (small_swarm 2) "run-1" "build it" [] a_message);
  on_audit (set_swarm_run_awaiting_reply "telegram" "run-1" true) ;;
  unit_of (engine (cancel_goal goal "no" "operator:1")).

Definition waiting_service : ServiceState :=
  {| sv_swarm := w_db (awaiting_run (World (with_permits 2) 100 0)).2; sv_telegram := chat_process; sv_attempts := [] |}.

(** A sweep at a moment, while the Bot API is out until another. *)
Definition swept (now : nat) (v : ServiceState) : ServiceState :=
  w_db (reap_orphaned_swarm_runs (MP := Markdown.plain_text) (API := api_but (λ n, n <? 216)) (Some swarm_engine) true
          (World v now 0)).2.

(** The first sweep closes the run but cannot send its reply, the second sends it, and the
    third has nothing to send. *)
Lemma replies_are_reported_once_witness :
  let v := swept 400 (swept 300 (swept 200 waiting_service)) in
  at_ok <$> sv_attempts v = [false; true] ∧ replies_inv v.
Proof.
  cbv zeta. split; [vm_compute; reflexivity|].
  do 3 (unfold swept at 1;
    refine (proj1 (replies_are_reported_once (ENV := concrete_env) (MP := Markdown.plain_text) (API := api_but (λ n, n <? 216))
      true (Some swarm_engine) (World _ _ 0)) _); cbn [w_db]).
  split; [split; vm_compute; repeat constructor; set_solver|intros i j x y Hx; destruct i; discriminate Hx|].
  intros run _ Hd. by apply not_elem_of_nil in Hd.
Defined.

Lemma durable_run_concludes_witness :
  ss_counts (with_permits 2) = no_counts ∧
  wp (conclude_durable true "run-1" "telegram" "goal_1" None true)
     (λ r s', ∃ text status error, r = Ok (text, status, error) ∧ (text = None ↔ status = RunFailed)) (with_permits 2).
Proof.
  split; [reflexivity|]. eapply wp_mono.
  - apply (durable_run_concludes (ENV := concrete_env) true "run-1" "telegram" "goal_1" None true). reflexivity.
  - cbv beta. intros r s' (text & status & error & E & _ & _ & H & _). exists text, status, error. split; [exact E|exact H].
Defined.

(** * Observed deviations

    Runs of the model that end in a state the documentation of the code rules
    out.  Each is a closed computation of the transactions of History.v in the
    environment of Instances.v. *)

Definition goal_statuses (s : Db) : list GoalStatus := g_status <$> db_goals s.

(** ** An expired goal comes back

    The deadline passes while a worker holds the first item; the janitor fails the
    goal, and the worker then finishes. *)

Definition expired_store : Db :=
  play (at_step 3)
    [ Event 130 (λ s, AReserve (goal_id s)); claim_at 3990; Event 4000 (λ _, AExpire 10) ].

Definition finished_late_store : Db :=
  play expired_store
    [ Event 4010 (λ s, APrepare (nth_claim 0 s) "key-1" false "worker-1");
      Event 4020 (λ s, ACommit (nth_claim 0 s) (nth_checkpoint 0 s) outcome "worker-1");
      Event 4030 (λ s, AFinish (nth_claim 0 s) (nth_checkpoint 0 s) "worker-1") ].

(** [goal.expired] is documented as terminal; the next completion of the goal makes it
    active again, and its next item is handed out. *)
Example expired_goal_is_resurrected :
  goal_statuses expired_store = [Failed] ∧ goal_statuses finished_late_store = [Active] ∧
  (wi_status <$> db_work (play finished_late_store [claim_at 4040])) = [WSucceeded; WRunning].
Proof. vm_compute. done. Qed.

(** ** A paused goal cannot be canceled

    [cancel_goal] is documented to cancel a non-terminal goal. *)

Definition paused_store : Db :=
  play (at_step 4) [ Event 145 (λ s, APause (goal_id s) true (Some "hold") "operator") ].

Example paused_goal_refuses_cancel :
  goal_statuses paused_store = [Paused] ∧
  (cancel_goal "goal_1" "stop" "operator" (World paused_store 150 150)).1 =
    Err "goal is already terminal: paused".
Proof. vm_compute. done. Qed.

(** ** Cancelling turns superseded items into failed ones

    The first item fails for good, the goal is re-planned, so the second item becomes
    [canceled] ("auditable but out of every aggregate"), and the re-planned goal is
    then canceled. *)

Definition replanned_store : Db :=
  play (at_step 4)
    [ Event 150 (λ s, AFail (nth_claim 0 s) "boom" false "worker-1");
      Event 160 (λ s, AReplan (goal_id s) "try again" "operator");
      Event 170 (λ s, APlan (goal_id s) two_step_plan "operator") ].

Example cancel_fails_superseded_items :
  (wi_status <$> db_work replanned_store) = [WFailed; WCanceled] ∧
  (wi_status <$> db_work (play replanned_store
     [ Event 180 (λ s, ACancel (goal_id s) "stop" "operator") ])) = [WFailed; WFailed].
Proof. vm_compute. done. Qed.

(** ** A canceled goal with a committed checkpoint

    The cancel arrives between the commit of a checkpoint and the end of its attempt:
    the next recovery reconciles the checkpoint, whose outcome then counts for the
    goal, while its attempt and item are recorded as abandoned and failed. *)
Example canceled_commit_is_reconciled :
  let s := play (at_step 6)
    [ Event 165 (λ s, ACancel (goal_id s) "stop" "operator"); recover_at 170 ] in
  goal_statuses s = [Canceled] ∧ (wi_status <$> db_work s) = [WFailed; WFailed] ∧
  (at_status <$> db_attempts s) = [AAbandoned] ∧ (cp_phase <$> db_checkpoints s) = [Reconciled] ∧
  length (reconciled_outcomes s "goal_1") = 1.
Proof. vm_compute. done. Qed.

(** ** The fallback answer hides a tool failure

    An answer that does not disclose a failed tool is replaced by a fallback that does
    not disclose it either: the verifier rejects its own suggestion. *)
Example fallback_is_rejected `{JV : JsonValue} `{JP : !JsonParse} call :
  tool_failed call = true →
  or_passed (output_verify {| ov_final_answer := unreliable_answer; ov_recent_history := [];
    ov_tool_calls := [call]; ov_channel := ""; ov_required_format := None |}) = false.
Proof.
  intros H. apply not_true_iff_false. intros Hp. apply output_verify_exact in Hp as [_ _ Hd _].
  specialize (Hd call (list_elem_of_here _ _) H). vm_compute in Hd. discriminate.
Qed.

(** ** An abandoned evaluation cannot be made again step by step

    Abandoning moves the candidate from evaluating to failed and leaves the cursor.  The
    next step resumes it without moving the candidate back, so the last one scores and
    stores the evaluation and then fails on the candidate's status; every further step
    stores one more evaluation and fails again. *)
Abbreviation abandoned :=
  ((engine_exec the_engine (GAbandon "c1" (Human "ops") "stuck")
      (run_evaluation_step the_engine "c1" 1000 None drafted).2).2).
Abbreviation retried := ((run_evaluation_step the_engine "c1" 1000 None abandoned).2).
Abbreviation retried_again := ((run_evaluation_step the_engine "c1" 1000 None retried).2).

Example abandoned_evaluation_cannot_finish :
  (ca_status <$> evo_candidates (evo_of (w_db abandoned))) = [CandFailed] ∧
  bool_decide (cursor "c1" (w_db abandoned) = None) = false ∧
  completed (run_evaluation_step the_engine "c1" 1000 None abandoned).1 = false ∧
  completed (run_evaluation_step the_engine "c1" 1000 None retried).1 = false ∧
  length (evo_evaluations (evo_of (w_db retried_again))) = 2.
Proof. vm_compute. split_and!; reflexivity. Qed.

(** ** Feedback of one chat on the run of another

    The sessions of chat 12 are looked up by the prefix [tg:12], which those of chat 123
    have too. *)
Definition other_chat_runs : TrajDb :=
  run_ops traj_exec 0 [TStart "traj-9" "tg:123" "telegram" "5" "m1"; TFinish "traj-9" (Some "done") FinalAnswer] empty_traj.

Example prefix_matches_another_chat :
  match (latest_finished_trajectory "tg:12" 0 (World other_chat_runs 90 9)).1 with
  | Ok (Some run) => tj_session_id run = "tg:123"
  | _ => False
  end.
Proof. vm_compute. reflexivity. Qed.
