(* ===== verification/GroupRules.v ===== *)
(** * The rules of group chats

    src/channel/telegram_rules.rs: what a message says about whom it is meant for - a mention,
    a reply, a name the bot has learned - the score of a message, the names of people, and
    the context that tells the model who speaks; when a message is a mention, and what a
    decision depends on. *)

From S2P Require Import Prelude Text Strings MemBase Signals Skills Markdown.
From stdpp Require Import pretty.
From Stdlib Require Import Ascii.

(** [str::to_lowercase] and [char::is_alphabetic]: Unicode tables. *)
Class UnicodeText : Type := {
  lowercase : string → string;
  char_is_alphabetic : string → bool
}.

(** ** Types of src/channel.rs *)

Inductive TelegramGroupTriggerMode : Type := TriggerStrict | TriggerSmart.

#[global] Instance trigger_mode_eq_dec : EqDecision TelegramGroupTriggerMode.
Proof. solve_decision. Defined.

Definition parse_trigger_mode (raw : option string) : res TelegramGroupTriggerMode :=
  let value := to_ascii_lowercase (trim (default "strict" raw)) in
  if String.eqb value "strict" then Ok TriggerStrict
  else if String.eqb value "smart" then Ok TriggerSmart
  else Err ("unsupported telegram group trigger mode '" +:+ value +:+ "', expected strict|smart").

Record TelegramGroupTriggerSettings : Type := {
  gt_mode : TelegramGroupTriggerMode;
  gt_followup_window_secs : N;
  gt_cooldown_secs : N;
  gt_rule_min_score : Z
}.

Inductive GroupDecisionKind : Type := Respond | ObserveOnly | Ignore.

#[global] Instance decision_kind_eq_dec : EqDecision GroupDecisionKind.
Proof. solve_decision. Defined.

Record GroupDecision : Type := { gd_kind : GroupDecisionKind; gd_score : Z; gd_reasons : list string }.

Record GroupSignalInput : Type := {
  gs_mentioned : bool;
  gs_replied_to_bot : bool;
  gs_recent_bot_participation : bool;
  gs_alias_hit : bool;
  gs_vocative_alias_hit : bool;
  gs_has_question_marker : bool;
  gs_points_to_other_bot : bool;
  gs_low_signal_noise : bool;
  gs_cooldown_active : bool
}.

Record TelegramUser : Type := {
  us_id : Z;
  us_is_bot : option bool;
  us_username : option string;
  us_first_name : option string;
  us_last_name : option string
}.

Record TelegramReplyMessage : Type := {
  rm_message_id : Z;
  rm_from : option TelegramUser;
  rm_text : option string;
  rm_caption : option string
}.

Record TelegramGroupUserProfile : Type := {
  gp_preferred_name : string;
  gp_username : option string;
  gp_updated_at : N
}.

(** ** Characters *)

(** [set.contains(ch)] and [ch.is_whitespace()] for a character given by its bytes. *)
Definition one_of (set ch : string) : bool := existsb (String.eqb ch) (chars set).
Definition is_whitespace (ch : string) : bool := is_blank ch.

Fixpoint drop_chars (p : string → bool) (cs : list string) : list string :=
  match cs with
  | c :: cs' => if p c then drop_chars p cs' else cs
  | [] => []
  end.

Fixpoint take_until (p : string → bool) (cs : list string) : list string :=
  match cs with
  | c :: cs' => if p c then [] else c :: take_until p cs'
  | [] => []
  end.

Definition text_of (cs : list string) : string := String.concat "" cs.

(** [trim_start_matches], [trim_end_matches] and [trim_matches] with a predicate. *)
Definition trim_start_where (p : string → bool) (s : string) : string := text_of (drop_chars p (chars s)).
Definition trim_end_where (p : string → bool) (s : string) : string :=
  text_of (rev (drop_chars p (rev (chars s)))).
Definition trim_where (p : string → bool) (s : string) : string := trim_end_where p (trim_start_where p s).

Definition trim_at (s : string) : string := trim_start_where (String.eqb "@") (trim s).

(** What follows the last occurrence of a separator, with what is before it. *)
Fixpoint rsplit_once (sep s : string) : option (string * string) :=
  match s with
  | EmptyString => None
  | String a s' =>
      match rsplit_once sep s' with
      | Some (before, after) => Some (String a before, after)
      | None => if starts_with s sep then Some ("", String.substring (String.length sep) (String.length s) s) else None
      end
  end.

(** The marks the rules stop at, most of them written twice: in ASCII and in full width. *)
Definition name_marks : string := ",，。.!！？?;；:：()[]{}<>" +:+ dquote +:+ "'`~|/\ ".
Definition tail_marks : string := "，,。.!！？?;；:：()[]{}<>" +:+ dquote +:+ "'`~|/\-=".
Definition name_end_marks : string := "，,。.!！？?;；:：()[]{}<>" +:+ dquote +:+ "'`~|/\=".
Definition token_marks : string := ",，:：;；.!?！？()[]{}<>" +:+ dquote +:+ "'".

Section rules.
  Context `{UT : UnicodeText}.

(** ** What a message says *)

Definition message_contains_any_alias (text : string) (aliases : list string) : bool :=
  match aliases with
  | [] => false
  | _ =>
      let lowered := lowercase text in
      existsb (λ alias, let trimmed := lowercase (trim alias) in
                        negb (String.eqb trimmed "") && contains trimmed lowered) aliases
  end.

Definition message_has_question_marker (text : string) : bool :=
  contains "?" text || contains "？" text ||
  let tail := trim_end_where (one_of ("，,。.!！？?;；:：)）]】}》>" +:+ dquote +:+ "'`~|/\ ")) (trim text) in
  ends_with tail "吗" || ends_with tail "么".

Definition ascii_word_char (ch : string) : bool :=
  match ch with String a EmptyString => is_ascii_alphanumeric a || Ascii.eqb a "_"%char | _ => false end.

Definition message_mentions_other_handle (text bot_username : string) : bool :=
  let own := lowercase (trim_at bot_username) in
  if String.eqb own "" then false
  else
    let tokens := split_chars (λ ch, is_whitespace ch ||
      one_of (",.!?，。！？;:()[]{}<>" +:+ dquote +:+ "'") ch) "" (chars text) in
    existsb (λ name, negb (String.eqb name "") && negb (String.eqb name own))
      ((λ name, lowercase (trim_where (λ ch, negb (ascii_word_char ch)) name)) <$> omap (Strings.strip_prefix "@") tokens).

Definition is_low_signal_group_noise (text : string) : bool :=
  let compact := trim text in String.eqb compact "" || (chars_count compact <=? 2).

(** ** The decision *)

Definition evaluate_group_decision (mode : TelegramGroupTriggerMode) (input : GroupSignalInput) (min_score : Z)
    : GroupDecision :=
  if gs_mentioned input then {| gd_kind := Respond; gd_score := 100; gd_reasons := ["explicit_mention"] |}
  else if gs_replied_to_bot input then {| gd_kind := Respond; gd_score := 100; gd_reasons := ["reply_to_bot"] |}
  else if bool_decide (mode = TriggerStrict) then
    {| gd_kind := Ignore; gd_score := 0; gd_reasons := ["strict_no_explicit_trigger"] |}
  else
    let signal (b : bool) (weight : Z) (reason : string) (acc : Z * list string) :=
      if b then ((acc.1 + weight)%Z, acc.2 ++ [reason]) else acc in
    let '(score, reasons) :=
      signal (gs_low_signal_noise input) (-25)%Z "low_signal_noise" (
      signal (gs_points_to_other_bot input) (-35)%Z "points_to_other_bot" (
      signal (gs_has_question_marker input) 20%Z "question_marker" (
      signal (gs_vocative_alias_hit input) 75%Z "vocative_alias_hit" (
      signal (gs_alias_hit input) 25%Z "alias_hit" (
      signal (gs_recent_bot_participation input) 30%Z "recent_bot_participation" (0%Z, [])))))) in
    let min := Z.min (Z.max min_score 1) 100 in
    let observe_min := Z.max (Z.quot min 2) 30 in
    let kind := if (min <=? score)%Z then Respond else if (observe_min <=? score)%Z then ObserveOnly else Ignore in
    if gs_cooldown_active input && bool_decide (kind = Respond) && negb (gs_vocative_alias_hit input)
    then {| gd_kind := ObserveOnly; gd_score := score; gd_reasons := reasons ++ ["cooldown_active"] |}
    else {| gd_kind := kind; gd_score := score; gd_reasons := reasons |}.

Definition is_group_chat_type (kind : option string) : bool :=
  match to_ascii_lowercase <$> (trim <$> kind) with
  | Some v => String.eqb v "group" || String.eqb v "supergroup"
  | None => false
  end.

Definition is_reply_to_bot_message (reply : option TelegramReplyMessage) (bot_user_id : option Z) : bool :=
  match reply ≫= rm_from with
  | Some from => default false (us_is_bot from) || default false ((λ bot_id, (bot_id =? us_id from)%Z) <$> bot_user_id)
  | None => false
  end.

(** The score in halves: [Some(0.5)] is 1. *)
Definition feedback_marker_score (text : string) : option Z :=
  let marker := trim (text_of (List.filter (λ ch, negb (String.eqb ch "️")) (chars (trim text)))) in
  if existsb (String.eqb marker) ["👍"; "👍🏻"; "👍🏽"; "❤"; "💯"; "🙏"; "👌"; "+1"; "好"; "很好"] then Some 1%Z
  else if existsb (String.eqb marker) ["👎"; "👎🏻"; "👎🏽"; "💩"; "🤮"; "😡"; "🤬"; "👿"; "-1"; "差"; "垃圾"] then Some (-1)%Z
  else None.

(** ** Names *)

Definition normalize_telegram_username (raw : option string) : option string :=
  v ← trim_at <$> raw; if String.eqb v "" then None else Some v.

Definition no_names_ascii : list string :=
  ["me"; "myself"; "bot"; "robot"; "assistant"; "question"; "reply"; "answer"; "sleep"].
Definition no_names : list string :=
  ["我"; "我们"; "你"; "你们"; "他"; "她"; "它"; "大家"; "群友"; "机器人"; "助手"; "问题"; "一下"; "起床"; "看看"; "帮忙";
   "分析"; "解释"; "回复"; "回答"; "处理"; "来问"; "问下"].
Definition no_name_keywords : list string :=
  ["来问"; "请教"; "问题"; "帮忙"; "看看"; "分析"; "解释"; "回复"; "回答"; "处理"].

Definition carriage_return : string := String (ascii_of_nat 13) "".
Definition tabulator : string := String (ascii_of_nat 9) "".

Definition normalize_display_name (raw : string) : option string :=
  let normalized := trim (trim_where (one_of name_marks) (trim_at raw)) in
  if String.eqb normalized "" then None
  else
    let len := chars_count normalized in
    if negb ((1 <=? len) && (len <=? 24)) then None
    else if contains newline normalized || contains carriage_return normalized || contains tabulator normalized then None
    else if existsb (String.eqb (to_ascii_lowercase normalized)) no_names_ascii then None
    else if existsb (String.eqb normalized) no_names then None
    else if existsb (λ kw, contains kw normalized) no_name_keywords then None
    else Some normalized.

Definition full_name (first last : string) : string :=
  if negb (String.eqb first "") && negb (String.eqb last "") then first +:+ " " +:+ last
  else if negb (String.eqb first "") then first else last.

Definition derive_telegram_user_display_name (user : option TelegramUser) : option string :=
  match user with
  | None => None
  | Some user =>
      let first := trim (default "" (us_first_name user)) in
      let last := trim (default "" (us_last_name user)) in
      let named := if negb (String.eqb first "") || negb (String.eqb last "")
                   then normalize_display_name (full_name first last) else None in
      match named with
      | Some name => Some name
      | None =>
          match normalize_telegram_username (us_username user) with
          | Some username => normalize_display_name username
          | None => None
          end
      end
  end.

Definition extract_name_candidate_from_tail (tail : string) : option string :=
  let trimmed := trim_start_where (λ ch, is_whitespace ch || one_of tail_marks ch) tail in
  if String.eqb trimmed "" then None
  else normalize_display_name (text_of (take_until (λ ch, is_whitespace ch || one_of name_end_marks ch) (chars trimmed))).

(** The loop over the markers; the weak ones count in a short message or beside a correction. *)
Fixpoint try_markers (compact : string) (markers : list (string * bool)) : option string :=
  match markers with
  | [] => None
  | (marker, strong_signal) :: rest =>
      match rsplit_once marker compact with
      | None => try_markers compact rest
      | Some (_, tail) =>
          let allow_weak := (chars_count compact <=? 20) || contains "不是" compact || contains "别叫" compact ||
                            contains "叫错" compact in
          if negb strong_signal && negb allow_weak then try_markers compact rest
          else match extract_name_candidate_from_tail tail with
               | Some candidate => Some candidate
               | None => try_markers compact rest
               end
      end
  end.

Definition extract_realtime_name_correction (text : string) : option string :=
  let compact := trim text in
  if String.eqb compact "" then None
  else try_markers compact [("请叫我", true); ("叫我", true); ("我叫", false); ("我是", false)].

(** ** The context of a group message *)

Definition truncate_chars (input : string) (max_chars : nat) : string := take_chars (Nat.max max_chars 1) input.

Definition roster_line (entry : Z * TelegramGroupUserProfile) : string :=
  "uid=" +:+ pretty entry.1 +:+ " -> " +:+ gp_preferred_name entry.2 +:+
  match gp_username entry.2 with Some username => " (@" +:+ username +:+ ")" | None => "" end.

Definition reply_lines (reply : TelegramReplyMessage) : list string :=
  let quoted :=
    v ← match rm_text reply with Some t => Some t | None => rm_caption reply end;
    if String.eqb (trim v) "" then None else Some (truncate_chars (trim v) 220) in
  ["[被回复消息]"; "被回复消息ID: " +:+ pretty (rm_message_id reply)] ++
  match rm_from reply with
  | Some from =>
      [match derive_telegram_user_display_name (Some from) with
       | Some name => "被回复消息发送者: " +:+ name
       | None => "被回复消息发送者uid: " +:+ pretty (us_id from)
       end]
  | None => []
  end ++
  [match quoted with Some quoted => "被回复消息内容: " +:+ quoted | None => "被回复消息内容: <不可用>" end;
   "[/被回复消息]"].

Definition build_group_member_identity_context (raw_text : string) (reply_to_message : option TelegramReplyMessage)
    (sender_user_id : Z) (sender_profile : TelegramGroupUserProfile) (roster : list (Z * TelegramGroupUserProfile))
    (max_roster : nat) : string :=
  join_with newline (
    ["[群成员身份映射]"; "当前发言账号: uid=" +:+ pretty sender_user_id;
     "当前发言称呼: " +:+ gp_preferred_name sender_profile] ++
    match gp_username sender_profile with Some username => ["当前发言用户名: @" +:+ username] | None => [] end ++
    ["账号称呼映射:"] ++ (roster_line <$> take (Nat.max max_roster 1) roster) ++
    ["规则: 回复点名时，称呼必须和 uid 对应；若用户纠正称呼，立即使用最新称呼。"] ++
    match reply_to_message with Some reply => reply_lines reply | None => [] end ++
    ["原始消息: " +:+ trim raw_text; "[/群成员身份映射]"]).

(** ** Names of the bot *)

Definition normalize_alias_token (raw : string) : string :=
  lowercase (trim_where (λ ch, is_whitespace ch || one_of (token_marks +:+ "@") ch) (trim raw)).

Definition no_aliases : list string :=
  ["hi"; "hello"; "hey"; "你好"; "您好"; "请问"; "请教"; "bot"; "机器人"; "助手"; "我擦"; "卧槽"; "我去"; "wc"; "woc"].

(** U+4E00 .. U+9FFF as UTF-8. *)
Definition is_cjk (ch : string) : bool :=
  match ch with
  | String a (String b (String c EmptyString)) =>
      let n := byte_of a * 4096 + (byte_of b - 128) * 64 + (byte_of c - 128) in
      (228 * 4096 + 56 * 64 <=? n) && (n <=? 233 * 4096 + 63 * 64 + 63)
  | _ => false
  end.

Definition is_dynamic_alias_candidate (candidate bot_username : string) : bool :=
  if String.eqb candidate "" || starts_with candidate "@" || String.eqb candidate bot_username then false
  else
    let len := chars_count candidate in
    if negb ((1 <=? len) && (len <=? 16)) then false
    else if negb (existsb (λ ch, char_is_alphabetic ch || is_cjk ch) (chars candidate)) then false
    else negb (existsb (String.eqb candidate) no_aliases).

Definition normalize_dynamic_alias_candidate (candidate bot_username : string) : option string :=
  let normalized := normalize_alias_token candidate in
  if String.eqb normalized "" then None
  else
    let named :=
      '(_, tail) ← rsplit_once "叫" normalized;
      if String.eqb tail "" then None
      else name ← extract_name_candidate_from_tail tail;
           if is_dynamic_alias_candidate name bot_username then Some name else None in
    match named with
    | Some name => Some name
    | None => if is_dynamic_alias_candidate normalized bot_username then Some normalized else None
    end.

Definition add_alias_candidate (own : string) (candidate : option string) (out : list string) : list string :=
  match candidate ≫= λ c, normalize_dynamic_alias_candidate c own with
  | Some normalized => if bool_decide (normalized ∈ out) then out else out ++ [normalized]
  | None => out
  end.

(** The loop over the tokens: the neighbours of the bot's name. *)
Fixpoint neighbours (own : string) (before : option string) (tokens : list string) (out : list string) : list string :=
  match tokens with
  | [] => out
  | token :: rest =>
      neighbours own (Some token) rest
        (if String.eqb token own then add_alias_candidate own (head rest) (add_alias_candidate own before out) else out)
  end.

Definition extract_dynamic_alias_candidates (text bot_username : string) : list string :=
  let own := lowercase (trim_at bot_username) in
  if String.eqb own "" then []
  else
    let tokens := List.filter (λ v, negb (String.eqb v ""))
      (normalize_alias_token <$> split_chars (λ ch, is_whitespace ch || one_of token_marks ch) "" (chars text)) in
    match tokens with
    | [] => []
    | first :: _ =>
        match neighbours own None tokens [] with
        | [] => option_list (normalize_dynamic_alias_candidate first own)
        | out => out
        end
    end.

Definition is_vocative_follow_char (ch : string) : bool :=
  match ch with
  | String a EmptyString => (48 <=? byte_of a) && (byte_of a <=? 57)
  | _ => one_of "你您在来给帮说讲聊能可会要别快咋怎么吗呢呀啊哈吧啦喽" ch
  end.

(** The first character that ends an address, with what is before it. *)
Fixpoint address_end (before : list string) (cs : list string) : option (list string * string) :=
  match cs with
  | [] => None
  | ch :: cs' =>
      if is_whitespace ch || one_of tail_marks ch || (negb (bool_decide (before = [])) && is_vocative_follow_char ch)
      then Some (before, ch) else address_end (before ++ [ch]) cs'
  end.

Definition trim_start_text (s : string) : string := of_bytes (trim_start (bytes s)).

Definition extract_vocative_alias_candidate (text bot_username : string) : option string :=
  let own := lowercase (trim_at bot_username) in
  if String.eqb own "" then None
  else
    let compact := trim_start_text text in
    if String.eqb compact "" then None
    else
      '(before, sep) ← address_end [] (chars compact);
      if bool_decide (before = []) then None
      else if negb (existsb (String.eqb sep) ["，"; ","; "："; ":"; "！"; "!"; "？"; "?"]) && negb (is_vocative_follow_char sep)
      then None
      else
        let candidate := normalize_alias_token (text_of before) in
        if String.eqb candidate "" then None
        else
          _ ← normalize_display_name candidate;
          if is_dynamic_alias_candidate candidate own then Some candidate else None.

(** [sort_by_key] by the number of characters, the longest first. *)
Definition longer_first (a b : string) : bool := chars_count b <=? chars_count a.

Definition ends_address (next : option string) : bool :=
  match next with
  | None => true
  | Some ch => is_whitespace ch || one_of tail_marks ch || is_vocative_follow_char ch
  end.

Definition detect_vocative_learned_alias_prefix (text : string) (aliases : list string) : option string :=
  match aliases with
  | [] => None
  | _ =>
      let compact := trim_start_text text in
      if String.eqb compact "" then None
      else
        let compact_lowered := lowercase compact in
        let candidates := order_by longer_first
          (List.filter (λ v, negb (String.eqb v "")) ((λ v, lowercase (trim v)) <$> aliases)) in
        List.find (λ alias, starts_with compact_lowered alias &&
                            ends_address (chars compact !! chars_count alias)) candidates
  end.

(** ** Mentions *)

Definition is_mention_boundary (ch : option ascii) : bool :=
  match ch with
  | None => true
  | Some v => negb (is_ascii_alphanumeric v || Ascii.eqb v "_"%char)
  end.

Definition last_byte (s : string) (before : option ascii) : option ascii :=
  match last (bytes s) with Some a => Some a | None => before end.

(** The loop, from after the last occurrence; [before] is the byte in front. *)
Fixpoint mentions_from (fuel : nat) (needle : string) (before : option ascii) (hay : string) : bool :=
  match fuel with
  | O => false
  | S fuel' =>
      match Strings.split_once needle hay with
      | None => false
      | Some (skipped, rest) =>
          if is_mention_boundary (last_byte skipped before) && is_mention_boundary (head (bytes rest)) then true
          else mentions_from fuel' needle (last_byte needle None) rest
      end
  end.

Definition message_mentions_bot (text bot_username : string) : bool :=
  let username := to_ascii_lowercase (trim_at bot_username) in
  if String.eqb username "" then false
  else
    let hay := to_ascii_lowercase text in
    mentions_from (S (String.length hay)) ("@" +:+ username) None hay.
End rules.

(** * What the rules say *)

(** ** Occurrences *)

Lemma starts_with_splits n p s :
  starts_with s p = true → String.length s ≤ n → s = p +:+ String.substring (String.length p) n s.
Proof.
  revert s. induction p as [|a p IH]; intros s H Hn; [symmetry; by apply substring_all|].
  destruct s as [|b s]; [done|]. rewrite starts_with_cons in H.
  apply andb_true_iff in H as [->%Ascii.eqb_eq H].
  change (String b s = String b (p +:+ String.substring (String.length p) n s)). f_equal. apply IH; [done|cbn in Hn; lia].
Qed.

Lemma starts_with_split p s :
  starts_with s p = true → s = p +:+ String.substring (String.length p) (String.length s) s.
Proof. intros H. by apply starts_with_splits. Qed.

Lemma split_once_some sep s a b : Strings.split_once sep s = Some (a, b) → s = a +:+ sep +:+ b.
Proof.
  revert a. induction s as [|x s IH]; intros a; cbn [Strings.split_once].
  - destruct (starts_with "" sep) eqn:E; [|done]. intros [= <- <-]. by apply starts_with_split in E.
  - destruct (starts_with (String x s) sep) eqn:E.
    + intros [= <- <-]. by apply starts_with_split in E.
    + destruct (Strings.split_once sep s) as [[a' b']|]; [|done]. intros [= <- <-].
      exact (f_equal (String x) (IH a' eq_refl)).
Qed.

(** The first occurrence is found. *)
Lemma split_once_first sep p q :
  ∃ a b, Strings.split_once sep (p +:+ sep +:+ q) = Some (a, b) ∧ String.length a ≤ String.length p.
Proof.
  induction p as [|x p (a & b & H & Hl)].
  - exists "", q. split; [apply (split_once_here sep q)|done].
  - change (String x p +:+ sep +:+ q) with (String x (p +:+ sep +:+ q)). cbn [Strings.split_once].
    destruct (starts_with _ sep); [do 2 eexists; split; [done|cbn; lia]|]. rewrite H.
    exists (String x a), b. split; [done|cbn; lia].
Qed.

(** Two occurrences of [x :: m] do not overlap when [m] has no [x]. *)
Lemma apart {A} (x : A) m l1 r1 l2 r2 :
  x ∉ m → l1 ++ x :: m ++ r1 = l2 ++ x :: m ++ r2 → length l1 < length l2 →
  ∃ l, l2 = l1 ++ x :: m ++ l ∧ r1 = l ++ x :: m ++ r2.
Proof.
  intros Hx H Hl. apply app_eq_inv in H as [(k & -> & H)|(k & -> & H)]; [rewrite length_app in Hl; lia|].
  destruct k as [|y k]; [rewrite length_app in Hl; cbn in Hl; lia|]. injection H as <- H.
  apply app_eq_inv in H as [(k' & -> & H)|(k' & -> & H)]; [|by exists k'].
  destruct k' as [|y k']; [exists []; rewrite !app_nil_r in *; by subst|].
  injection H as <- _. exfalso. apply Hx. set_solver.
Qed.

Lemma last_byte_app s t b : last_byte (s +:+ t) b = last_byte t (last_byte s b).
Proof.
  unfold last_byte. rewrite bytes_app, last_app. destruct (last (bytes t)); [done|]. by destruct (last (bytes s)).
Qed.

Lemma last_byte_string a s b : last_byte (String a s) b = last_byte (String a s) None.
Proof.
  unfold last_byte. destruct (last (bytes (String a s))) eqn:E; [done|].
  apply last_None in E. done.
Qed.

Lemma no_at s : in_string "@" s = false → "@"%char ∉ bytes s.
Proof.
  intros H Hin. apply not_true_iff_false in H. apply H. unfold in_string. apply existsb_exists.
  exists "@"%char. by rewrite <- list_elem_of_In.
Qed.

Lemma mentions_from_spec fuel name before hay :
  in_string "@" name = false → String.length hay < fuel →
  mentions_from fuel ("@" +:+ name) before hay = true ↔
    ∃ skipped rest, hay = skipped +:+ ("@" +:+ name) +:+ rest ∧
      is_mention_boundary (last_byte skipped before) = true ∧ is_mention_boundary (head (bytes rest)) = true.
Proof.
  intros Hname. set (needle := "@" +:+ name).
  revert before hay. induction fuel as [|fuel IH]; intros before hay Hf; [lia|]. cbn [mentions_from].
  destruct (Strings.split_once needle hay) as [[s r]|] eqn:E.
  - apply split_once_some in E as Hhay.
    assert (Hr : String.length r < fuel).
    { rewrite Hhay, !string_length_app in Hf. unfold needle in Hf. rewrite string_length_app in Hf. cbn in Hf. lia. }
    destruct (is_mention_boundary (last_byte s before) && is_mention_boundary (head (bytes r))) eqn:Hb.
    { apply andb_true_iff in Hb as [H1 H2]. split; [|done]. intros _. by exists s, r. }
    rewrite (IH _ r Hr). split.
    + intros (s' & r' & -> & H1 & H2). exists (s +:+ needle +:+ s'), r'. split_and!; [|by rewrite !last_byte_app, (last_byte_string "@" name)|done].
      rewrite Hhay. by rewrite <- !string_app_assoc.
    + intros (s' & r' & Hocc & H1 & H2). 
      destruct (split_once_first needle s' r') as (s0 & r0 & E' & Hle). rewrite <- Hocc, E in E'. injection E' as <- <-.
      destruct (decide (String.length s = String.length s')) as [Hl|Hl].
      * exfalso. assert (s = s' ∧ r = r') as [-> ->]; [|by rewrite H1, H2 in Hb].
        assert (Hbytes : bytes s ++ bytes needle ++ bytes r = bytes s' ++ bytes needle ++ bytes r')
          by (rewrite <- !bytes_app; congruence).
        apply app_inj_1 in Hbytes as [Hs Hr']; [|by rewrite !bytes_length].
        apply app_inv_head in Hr'. split; by apply lower_bytes_inj.
      * assert (Hbytes : bytes s ++ "@"%char :: bytes name ++ bytes r = bytes s' ++ "@"%char :: bytes name ++ bytes r').
        { change (bytes s ++ bytes needle ++ bytes r = bytes s' ++ bytes needle ++ bytes r'). rewrite <- !bytes_app. congruence. }
        destruct (apart "@"%char (bytes name) _ _ _ _ (no_at name Hname) Hbytes) as (k & Hs' & Hr');
          [rewrite !bytes_length; lia|].
        exists (of_bytes k), r'. split_and!; [| |done].
        -- apply lower_bytes_inj. rewrite !bytes_app, bytes_of_bytes, Hr'. done.
        -- assert (s' = s +:+ needle +:+ of_bytes k) as Hs.
           { apply lower_bytes_inj. rewrite !bytes_app, bytes_of_bytes, Hs'. done. }
           rewrite Hs, !last_byte_app, (last_byte_string "@" name) in H1. exact H1.
  - split; [done|]. intros (s' & r' & -> & _). destruct (split_once_first needle s' r') as (a & b & E' & _). congruence.
Qed.

(** A message mentions the bot exactly when the bot's name after an at sign stands in
    it as a word of its own, whatever the case of the ASCII letters: no letter, digit or
    underscore directly before or after - also when other occurrences do not. *)
Theorem mention_is_a_word text bot_username :
  let name := to_ascii_lowercase (trim_at bot_username) in
  name ≠ "" → in_string "@" name = false →
  message_mentions_bot text bot_username = true ↔
    ∃ before after, to_ascii_lowercase text = before +:+ ("@" +:+ name) +:+ after ∧
      is_mention_boundary (last (bytes before)) = true ∧ is_mention_boundary (head (bytes after)) = true.
Proof.
  intros name Hne Hat. unfold message_mentions_bot. fold name. destruct (String.eqb_spec name "") as [|_]; [done|].
  rewrite mentions_from_spec by (done || lia).
  assert (H : ∀ s, last_byte s None = last (bytes s)) by (intros s; unfold last_byte; by destruct (last (bytes s))).
  by setoid_rewrite H.
Qed.

(** ** Calling the bot by a name *)

(** What is found first in sorted order is least of what could be found. *)
Lemma find_order_by {A} (le : A → A → bool) (p : A → bool) l x y :
  (∀ a b, le a b = false → le b a = true) → (∀ a b c, le a b = true → le b c = true → le a c = true) →
  List.find p (order_by le l) = Some x → y ∈ l → p y = true → le x y = true.
Proof.
  intros Htot Htrans Hf Hy Hp. rewrite <- (order_by_perm le l) in Hy.
  pose proof (order_by_sorted le Htot Htrans l) as Hs. revert Hf Hy. generalize (order_by le l), Hs. clear Hs l.
  intros l Hs. induction Hs as [|z l Hs IH Hz]; cbn; [done|]. destruct (p z) eqn:Ez.
  - intros [= <-] [->|Hy]%elem_of_cons; [|by rewrite Forall_forall in Hz; apply Hz].
    destruct (le z z) eqn:E; [done|]. by rewrite (Htot z z E) in E.
  - intros Hf [->|Hy]%elem_of_cons; [congruence|by apply IH].
Qed.

Section called.
  Context `{UT : UnicodeText}.

(** The text starts with one of the names, in any case, and the name ends there: before a
    space, a mark, one of the characters that go on after an address, or at the end. *)
Definition starts_by_name (text : string) (names : list string) (name : string) : Prop :=
  name ∈ (λ alias, lowercase (trim alias)) <$> names ∧ name ≠ "" ∧ trim_start_text text ≠ "" ∧
  starts_with (lowercase (trim_start_text text)) name = true ∧
  ends_address (chars (trim_start_text text) !! chars_count name) = true.

(** The name a text calls the bot by: the longest of the names it starts with, or else the word it
    starts with when that stands as an address and can be a name. *)
Definition called_by (text bot_username : string) (names : list string) (called : option string) : Prop :=
  (∃ name, called = Some name ∧ starts_by_name text names name ∧
     ∀ name', starts_by_name text names name' → chars_count name' ≤ chars_count name) ∨
  ((∀ name, ¬ starts_by_name text names name) ∧ called = extract_vocative_alias_candidate text bot_username).

Lemma detect_finds text names :
  match detect_vocative_learned_alias_prefix text names with
  | Some name => starts_by_name text names name ∧
      ∀ name', starts_by_name text names name' → chars_count name' ≤ chars_count name
  | None => ∀ name, ¬ starts_by_name text names name
  end.
Proof.
  unfold detect_vocative_learned_alias_prefix. destruct names as [|a l]; [intros name (H & _); by apply elem_of_nil in H|].
  set (names := a :: l). cbv zeta. destruct (String.eqb_spec (trim_start_text text) "") as [He|He].
  { intros name (_ & _ & H & _). done. }
  set (candidates := List.filter _ _). set (ok := λ alias, _ && _).
  assert (Hok : ∀ name, starts_by_name text names name ↔ name ∈ candidates ∧ ok name = true).
  { intros name. unfold starts_by_name. rewrite (list_elem_of_In candidates name). unfold candidates, ok.
    rewrite filter_In, <- list_elem_of_In, andb_true_iff, negb_true_iff, String.eqb_neq. tauto. }
  destruct (List.find ok (order_by longer_first candidates)) as [name|] eqn:Ef.
  - apply find_some in Ef as Hin. rewrite <- list_elem_of_In, (order_by_perm longer_first candidates), <- Hok in Hin. split; [done|].
    intros name' [Hin' Hok']%Hok.
    apply Nat.leb_le. apply (find_order_by longer_first ok candidates name name'); try done;
      unfold longer_first; intros *; rewrite ?Nat.leb_le, ?Nat.leb_gt; lia.
  - intros name [Hin Hp]%Hok. pose proof (find_none _ _ Ef name) as Hn. rewrite <- list_elem_of_In, (order_by_perm longer_first candidates) in Hn.
    rewrite Hn in Hp; done.
Qed.

Lemma called_name text bot_username names :
  called_by text bot_username names
    match detect_vocative_learned_alias_prefix text names with
    | Some name => Some name
    | None => extract_vocative_alias_candidate text bot_username
    end.
Proof. pose proof (detect_finds text names) as H. destruct (detect_vocative_learned_alias_prefix text names); [left; eauto|by right]. Qed.
End called.

(** ** The decision *)

Definition weight (b : bool) (w : Z) : Z := if b then w else 0.

(** What the signals of a message add up to. *)
Definition group_score (input : GroupSignalInput) : Z :=
  weight (gs_recent_bot_participation input) 30 + weight (gs_alias_hit input) 25 +
  weight (gs_vocative_alias_hit input) 75 + weight (gs_has_question_marker input) 20 -
  weight (gs_points_to_other_bot input) 35 - weight (gs_low_signal_noise input) 25.

Definition addressed (input : GroupSignalInput) : Prop :=
  gs_mentioned input = true ∨ gs_replied_to_bot input = true.

Definition within (lo hi z : Z) : Z := Z.min (Z.max z lo) hi.

Lemma decision_respond mode input min_score :
  gd_kind (evaluate_group_decision mode input min_score) = Respond ↔
    addressed input ∨ (mode = TriggerSmart ∧ (within 1 100 min_score <= group_score input)%Z ∧
      (gs_cooldown_active input = true → gs_vocative_alias_hit input = true)).
Proof.
  unfold evaluate_group_decision, addressed, within.
  destruct (gs_mentioned input); [cbn; tauto|]. destruct (gs_replied_to_bot input); [cbn; tauto|].
  destruct mode; [rewrite bool_decide_eq_true_2 by done; cbn; intuition done|].
  rewrite bool_decide_eq_false_2 by done. cbv zeta. set (min := Z.min _ 100).
  match goal with |- context [let '(_, _) := ?x in _] => assert (Hs : x.1 = group_score input); [|destruct x as [score reasons]] end.
  { unfold group_score. destruct (gs_recent_bot_participation input), (gs_alias_hit input), (gs_vocative_alias_hit input),
      (gs_has_question_marker input), (gs_points_to_other_bot input), (gs_low_signal_noise input); reflexivity. }
  cbn [fst] in Hs. subst score. destruct (Z.leb_spec min (group_score input)) as [Hm|Hm].
  - rewrite bool_decide_eq_true_2, andb_true_r by done.
    destruct (gs_cooldown_active input), (gs_vocative_alias_hit input); cbn; intuition (try discriminate; try lia).
  - rewrite bool_decide_eq_false_2 by (by destruct (_ <=? _)%Z). rewrite andb_false_r. cbn [andb gd_kind].
    destruct (_ <=? group_score input)%Z; intuition (try discriminate; try lia).
Qed.

(** What is not answered is kept from half the score on, but at least 30, and when only the
    pause stood against an answer. *)
Lemma decision_observe mode input min_score :
  let kind := gd_kind (evaluate_group_decision mode input min_score) in
  let min := within 1 100 min_score in
  kind = ObserveOnly ↔ kind ≠ Respond ∧ mode = TriggerSmart ∧
    (Z.min min (Z.max (min `quot` 2) 30) <= group_score input)%Z.
Proof.
  intros kind min. assert (Hr := decision_respond mode input min_score). fold kind min in Hr. revert Hr. unfold kind.
  unfold evaluate_group_decision, addressed, within.
  destruct (gs_mentioned input); [cbn; naive_solver|]. destruct (gs_replied_to_bot input); [cbn; naive_solver|].
  destruct mode; [rewrite bool_decide_eq_true_2 by done; cbn; naive_solver|].
  rewrite bool_decide_eq_false_2 by done. cbv zeta. fold (within 1 100 min_score) min.
  match goal with |- context [let '(_, _) := ?x in _] => assert (Hs : x.1 = group_score input); [|destruct x as [score reasons]] end.
  { unfold group_score. destruct (gs_recent_bot_participation input), (gs_alias_hit input), (gs_vocative_alias_hit input),
      (gs_has_question_marker input), (gs_points_to_other_bot input), (gs_low_signal_noise input); reflexivity. }
  cbn [fst] in Hs. subst score. intros _. replace (Z.min (Z.max min_score 1) 100) with min by done.
  destruct (Z.leb_spec min (group_score input)) as [Hm|Hm].
  - rewrite bool_decide_eq_true_2, andb_true_r by done.
    destruct (gs_cooldown_active input), (gs_vocative_alias_hit input); cbn; split; intros; try done; try naive_solver;
      split_and!; try done; lia.
  - rewrite bool_decide_eq_false_2 by (by destruct (_ <=? _)%Z). rewrite andb_false_r. cbn [andb gd_kind].
    destruct (Z.leb_spec (Z.max (min `quot` 2) 30) (group_score input)) as [Ho|Ho]; split; intros; try done.
    + split_and!; try done. lia.
    + destruct H as (_ & _ & H). lia.
Qed.
