(* ===== verification/Groups.v ===== *)
(** * Group messages

    src/channel/group_pipeline.rs: what the bot remembers of its groups - the names it is
    called, the names of people, when it spoke last - and how a group message is taken up:
    answered, kept silently, or ignored; with what is guaranteed about each. *)

From S2P Require Import Prelude Text Strings Messages MemBase Conversation Signals Recall Outbox Swarm Markdown Delivery GroupRules.
From stdpp Require Import pretty.
From Stdlib Require Import Ascii.

(** ** State *)

Record TelegramGroupRuntimeState : Type := {
  gr_last_bot_response : gmap Z N;
  gr_learned_aliases : gmap Z (gset string);
  gr_loaded_aliases : gset Z;
  gr_user_profiles : gmap Z (gmap Z TelegramGroupUserProfile);
  gr_loaded_profiles : gset Z
}.

(** The counters of group decisions in [TelegramPollingDiagState]. *)
Record GroupDiag : Type := {
  dg_messages_total : N;
  dg_respond_total : N;
  dg_observe_total : N;
  dg_ignore_total : N
}.

(** The process with the memory of its service. *)
Record GroupDb : Type := {
  gb_runtime : TelegramGroupRuntimeState;
  gb_diag : GroupDiag;
  gb_memory : ConvDb
}.

(** The elements of a [HashSet] come in an order of the process's own. *)
Class SetOrder : Type := set_order : nat → list string → list string.

Class SetOrderLaw (SO : SetOrder) : Prop := set_order_permutes n l : set_order n l ≡ₚ l.

Record TelegramMessage : Type := {
  tm_message_id : Z;
  tm_chat_id : Z;
  tm_chat_kind : option string;
  tm_from : option TelegramUser;
  tm_text : option string;
  tm_thread_id : option Z;
  tm_reply_to_message : option TelegramReplyMessage
}.

Inductive GroupProcessOutcome : Type := Continue (model_input_text : string) | Stop.

Record GroupPreparation : Type := {
  pr_sender_user_id : Z;
  pr_sender_profile : TelegramGroupUserProfile;
  pr_model_input_text : string;
  pr_now : N
}.

(** [GroupProcessContext] without the state it refers to. *)
Record GroupProcessContext : Type := {
  gc_channel_name : string;
  gc_message : TelegramMessage;
  gc_text : string;
  gc_replied_to_bot : bool;
  gc_bot_username : option string;
  gc_settings : TelegramGroupTriggerSettings
}.

Definition set_last_response (m : gmap Z N) (r : TelegramGroupRuntimeState) : TelegramGroupRuntimeState :=
  {| gr_last_bot_response := m; gr_learned_aliases := gr_learned_aliases r; gr_loaded_aliases := gr_loaded_aliases r;
     gr_user_profiles := gr_user_profiles r; gr_loaded_profiles := gr_loaded_profiles r |}.

Definition set_aliases (m : gmap Z (gset string)) (r : TelegramGroupRuntimeState) : TelegramGroupRuntimeState :=
  {| gr_last_bot_response := gr_last_bot_response r; gr_learned_aliases := m; gr_loaded_aliases := gr_loaded_aliases r;
     gr_user_profiles := gr_user_profiles r; gr_loaded_profiles := gr_loaded_profiles r |}.

Definition set_loaded_aliases (m : gset Z) (r : TelegramGroupRuntimeState) : TelegramGroupRuntimeState :=
  {| gr_last_bot_response := gr_last_bot_response r; gr_learned_aliases := gr_learned_aliases r; gr_loaded_aliases := m;
     gr_user_profiles := gr_user_profiles r; gr_loaded_profiles := gr_loaded_profiles r |}.

Definition set_profiles (m : gmap Z (gmap Z TelegramGroupUserProfile)) (r : TelegramGroupRuntimeState)
    : TelegramGroupRuntimeState :=
  {| gr_last_bot_response := gr_last_bot_response r; gr_learned_aliases := gr_learned_aliases r;
     gr_loaded_aliases := gr_loaded_aliases r; gr_user_profiles := m; gr_loaded_profiles := gr_loaded_profiles r |}.

Definition set_loaded_profiles (m : gset Z) (r : TelegramGroupRuntimeState) : TelegramGroupRuntimeState :=
  {| gr_last_bot_response := gr_last_bot_response r; gr_learned_aliases := gr_learned_aliases r;
     gr_loaded_aliases := gr_loaded_aliases r; gr_user_profiles := gr_user_profiles r; gr_loaded_profiles := m |}.

Definition MAX_LEARNED_ALIASES : nat := 24.

(** [map.entry(chat_id).or_default()]. *)
Definition aliases_of (chat_id : Z) (r : TelegramGroupRuntimeState) : gset string :=
  default ∅ (gr_learned_aliases r !! chat_id).

Definition profiles_of (chat_id : Z) (r : TelegramGroupRuntimeState) : gmap Z TelegramGroupUserProfile :=
  default ∅ (gr_user_profiles r !! chat_id).

Section groups.
  Context `{CLK : Clock} `{UT : UnicodeText} `{SO : SetOrder} `{ENV : MemoryEnv}.

Abbreviation G := (M GroupDb).

Definition in_memory {A} (m : M ConvDb A) : G A :=
  zoom gb_memory (λ c s, {| gb_runtime := gb_runtime s; gb_diag := gb_diag s; gb_memory := c |}) m.

Definition runtime : G TelegramGroupRuntimeState := s ← get_db; mret (gb_runtime s).

Definition set_runtime (f : TelegramGroupRuntimeState → TelegramGroupRuntimeState) : G unit :=
  s ← get_db; put_db {| gb_runtime := f (gb_runtime s); gb_diag := gb_diag s; gb_memory := gb_memory s |}.

(** [current_unix_timestamp]. *)
Definition current_unix_timestamp : G N := now ← unix_now; mret (Z.to_N now).

(** ** Bootstrap *)

(** The loop over the stored names. *)
Definition keep_alias (known : gset string) (alias : string) : gset string :=
  let normalized := normalize_alias_token alias in
  if String.eqb normalized "" || (MAX_LEARNED_ALIASES <=? size known) then known else {[normalized]} ∪ known.

Definition keep_profile (known : gmap Z TelegramGroupUserProfile) (profile : GroupUserProfileRecord)
    : gmap Z TelegramGroupUserProfile :=
  if is_blank (up_preferred_name profile) || (256 <=? size known) then known
  else <[up_user_id profile := {| gp_preferred_name := up_preferred_name profile;
                                  gp_username := normalize_telegram_username (up_username profile);
                                  gp_updated_at := Z.to_N (Z.max (up_updated_at profile) 0) |}]> known.

Definition bootstrap_aliases (channel_name : string) (chat_id : Z) : G unit :=
  loaded ← catch (wrap_error "failed to load telegram group aliases"
                    (in_memory (load_group_aliases channel_name chat_id 64)));
  set_runtime (λ r,
    let r := match loaded with
             | Ok stored => set_aliases (<[chat_id := foldl keep_alias (aliases_of chat_id r) stored]> (gr_learned_aliases r)) r
             | Err _ => r
             end in
    set_loaded_aliases ({[chat_id]} ∪ gr_loaded_aliases r) r).

Definition bootstrap_profiles (channel_name : string) (chat_id : Z) : G unit :=
  loaded ← catch (wrap_error "failed to load telegram group user profiles"
                    (in_memory (load_group_user_profiles channel_name chat_id 128)));
  set_runtime (λ r,
    let r := match loaded with
             | Ok stored => set_profiles (<[chat_id := foldl keep_profile (profiles_of chat_id r) stored]> (gr_user_profiles r)) r
             | Err _ => r
             end in
    set_loaded_profiles ({[chat_id]} ∪ gr_loaded_profiles r) r).

Definition bootstrap_group_runtime_state (channel_name : string) (chat_id : Z) : G unit :=
  r ← runtime;
  (if bool_decide (chat_id ∈ gr_loaded_aliases r) then mret tt else bootstrap_aliases channel_name chat_id) ;;
  (if bool_decide (chat_id ∈ gr_loaded_profiles r) then mret tt else bootstrap_profiles channel_name chat_id).

(** ** The speaker *)

(** The profile of the sender after this message, and whether it is to be stored. *)
Definition update_profile (observed_name : string) (observed_username corrected_name : option string) (now : N)
    (known : option TelegramGroupUserProfile) : TelegramGroupUserProfile * bool :=
  let p := default {| gp_preferred_name := observed_name; gp_username := observed_username; gp_updated_at := now |} known in
  let '(name, changed) := if is_blank (gp_preferred_name p) then (observed_name, true) else (gp_preferred_name p, false) in
  let '(username, changed) :=
    match gp_username p, observed_username with
    | None, Some u => (Some u, true)
    | u, _ => (u, changed)
    end in
  let '(name, changed) :=
    match corrected_name with
    | Some corrected => if String.eqb name corrected then (name, changed) else (corrected, true)
    | None => (name, changed)
    end in
  ({| gp_preferred_name := name; gp_username := username; gp_updated_at := now |}, changed).

(** Who spoke last comes first, then the smaller id. *)
Definition roster_before (a b : Z * TelegramGroupUserProfile) : bool :=
  (gp_updated_at b.2 <? gp_updated_at a.2)%N || ((gp_updated_at a.2 =? gp_updated_at b.2)%N && (a.1 <=? b.1)%Z).

Definition sender_id (message : TelegramMessage) : Z :=
  match tm_from message with Some u => us_id u | None => tm_chat_id message end.

Definition build_group_identity_context (channel_name : string) (message : TelegramMessage) (text : string)
    : G GroupPreparation :=
  let chat_id := tm_chat_id message in
  let sender_user_id := sender_id message in
  let sender_username := normalize_telegram_username (tm_from message ≫= us_username) in
  let sender_observed_name :=
    default ("用户" +:+ pretty sender_user_id) (derive_telegram_user_display_name (tm_from message)) in
  let corrected_name := extract_realtime_name_correction text in
  now ← current_unix_timestamp;
  r ← runtime;
  let '(profile, changed) :=
    update_profile sender_observed_name sender_username corrected_name now (profiles_of chat_id r !! sender_user_id) in
  let chat_profiles := <[sender_user_id := profile]> (profiles_of chat_id r) in
  set_runtime (λ r, set_profiles (<[chat_id := chat_profiles]> (gr_user_profiles r)) r) ;;
  (if changed : bool then
     ignore_error (wrap_error "failed to persist telegram group user profile"
       (in_memory (upsert_group_user_profile channel_name chat_id sender_user_id (gp_preferred_name profile) (gp_username profile))))
   else mret tt) ;;
  mret {| pr_sender_user_id := sender_user_id; pr_sender_profile := profile;
          pr_model_input_text :=
            build_group_member_identity_context text (tm_reply_to_message message) sender_user_id profile
              (order_by roster_before (map_to_list chat_profiles)) 8;
          pr_now := now |}.

(** ** Names of the bot *)

(** The loop over the new names: the names known then, and those added. *)
Fixpoint add_aliases (aliases : list string) (known : gset string) (newly_added : list string)
    : gset string * list string :=
  match aliases with
  | [] => (known, newly_added)
  | alias :: rest =>
      if MAX_LEARNED_ALIASES <=? size known then (known, newly_added)
      else if bool_decide (alias ∈ known) then add_aliases rest known newly_added
      else add_aliases rest ({[alias]} ∪ known) (newly_added ++ [alias])
  end.

Definition learn_group_alias_tokens (channel_name : string) (chat_id : Z) (aliases : list string) : G unit :=
  match aliases with
  | [] => mret tt
  | _ =>
      r ← runtime;
      let '(known, newly_added) := add_aliases aliases (aliases_of chat_id r) [] in
      set_runtime (λ r, set_aliases (<[chat_id := known]> (gr_learned_aliases r)) r) ;;
      match newly_added with
      | [] => mret tt
      | _ => ignore_error (wrap_error "failed to persist telegram group aliases"
               (in_memory (upsert_group_aliases channel_name chat_id newly_added)))
      end
  end.

Definition learn_group_aliases (channel_name text : string) (chat_id : Z) (bot_username : string) : G unit :=
  learn_group_alias_tokens channel_name chat_id (extract_dynamic_alias_candidates text bot_username).

(** ** Signals *)

(** Whether the bot spoke lately, whether it must pause, and the names it knows. *)
Definition load_group_runtime_signals (chat_id : Z) (now : N) (settings : TelegramGroupTriggerSettings)
    : G (bool * bool * list string) :=
  seed ← tick;
  r ← runtime;
  let elapsed := (λ last, (now - last)%N) <$> gr_last_bot_response r !! chat_id in
  mret (default false ((λ secs, (secs <=? gt_followup_window_secs settings)%N) <$> elapsed),
        default false ((λ secs, (secs <=? gt_cooldown_secs settings)%N) <$> elapsed),
        set_order seed (elements (aliases_of chat_id r))).

Definition record_group_decision_metrics (kind : GroupDecisionKind) : G unit :=
  s ← get_db;
  let d := gb_diag s in
  put_db {| gb_runtime := gb_runtime s;
            gb_diag :=
              {| dg_messages_total := dg_messages_total d;
                 dg_respond_total := dg_respond_total d + (if bool_decide (kind = Respond) then 1 else 0);
                 dg_observe_total := dg_observe_total d + (if bool_decide (kind = ObserveOnly) then 1 else 0);
                 dg_ignore_total := dg_ignore_total d + (if bool_decide (kind = Ignore) then 1 else 0) |}%N;
            gb_memory := gb_memory s |}.

(** [MessageService::observe]. *)
Definition observe (incoming : IncomingMessage) : G unit :=
  wrap_error "failed to persist observed user message"
    (in_memory (sqlite_append
      {| mw_session_id := im_session_id incoming; mw_user_id := im_user_id incoming; mw_channel := im_channel incoming;
         mw_message := {| role := User; content := im_text incoming |} |})).

Definition sender_text (message : TelegramMessage) : string := pretty (sender_id message).

(** [telegram_session_id] of a message. *)
Definition message_session (message : TelegramMessage) : string :=
  telegram_session_id (tm_chat_id message) (tm_thread_id message) (rm_message_id <$> tm_reply_to_message message).

(** ** The pipeline *)

Definition process_group_message (input : GroupProcessContext) : G GroupProcessOutcome :=
  let message := gc_message input in
  let text := gc_text input in
  let chat_id := tm_chat_id message in
  let settings := gc_settings input in
  bootstrap_group_runtime_state (gc_channel_name input) chat_id ;;
  prep ← build_group_identity_context (gc_channel_name input) message text;
  let bot_username := default "" (gc_bot_username input) in
  let named := negb (String.eqb bot_username "") in
  let mentioned := named && message_mentions_bot text bot_username in
  let has_question_marker := message_has_question_marker text in
  (if (mentioned || gc_replied_to_bot input) && named
   then learn_group_aliases (gc_channel_name input) text chat_id bot_username else mret tt) ;;
  signals ← load_group_runtime_signals chat_id (pr_now prep) settings;
  let '(recent_bot_participation, cooldown_active, learned_aliases) := signals in
  let points_to_other_bot := named && message_mentions_other_handle text bot_username in
  let low_signal_noise := is_low_signal_group_noise text in
  let vocative_alias_candidate :=
    if named then
      match detect_vocative_learned_alias_prefix text learned_aliases with
      | Some alias => Some alias
      | None => extract_vocative_alias_candidate text bot_username
      end
    else None in
  let vocative_alias_known :=
    match vocative_alias_candidate with
    | Some candidate => existsb (String.eqb candidate) learned_aliases
    | None => false
    end in
  let vocative_alias_hit :=
    bool_decide (gt_mode settings = TriggerSmart) && negb points_to_other_bot &&
    bool_decide (is_Some vocative_alias_candidate) && (vocative_alias_known || has_question_marker) in
  learned_aliases ← match vocative_alias_candidate with
    | Some candidate =>
        if vocative_alias_hit && negb vocative_alias_known then
          learn_group_alias_tokens (gc_channel_name input) chat_id [candidate] ;;
          mret (learned_aliases ++ [candidate])
        else mret learned_aliases
    | None => mret learned_aliases
    end;
  let decision := evaluate_group_decision (gt_mode settings)
    {| gs_mentioned := mentioned; gs_replied_to_bot := gc_replied_to_bot input;
       gs_recent_bot_participation := recent_bot_participation;
       gs_alias_hit := message_contains_any_alias text learned_aliases;
       gs_vocative_alias_hit := vocative_alias_hit; gs_has_question_marker := has_question_marker;
       gs_points_to_other_bot := points_to_other_bot; gs_low_signal_noise := low_signal_noise;
       gs_cooldown_active := cooldown_active |} (gt_rule_min_score settings) in
  record_group_decision_metrics (gd_kind decision) ;;
  match gd_kind decision with
  | Respond => mret (Continue (pr_model_input_text prep))
  | ObserveOnly =>
      let observe_session_id := message_session message +:+ ":observe" in
      wrap_error ("failed to persist telegram observe-only message (session=" +:+ observe_session_id +:+ ")")
        (observe {| im_channel := gc_channel_name input; im_session_id := observe_session_id;
                    im_user_id := sender_text message; im_text := pr_model_input_text prep;
                    im_is_group_chat := true |}) ;;
      mret Stop
  | Ignore => mret Stop
  end.
End groups.

(** * What happens to a group message *)

Definition counted_as (kind : GroupDecisionKind) (d d' : GroupDiag) : Prop :=
  dg_messages_total d' = dg_messages_total d ∧
  dg_respond_total d' = (dg_respond_total d + (if bool_decide (kind = Respond) then 1 else 0))%N ∧
  dg_observe_total d' = (dg_observe_total d + (if bool_decide (kind = ObserveOnly) then 1 else 0))%N ∧
  dg_ignore_total d' = (dg_ignore_total d + (if bool_decide (kind = Ignore) then 1 else 0))%N.

Section facts.
  Context `{CLK : Clock} `{UT : UnicodeText} `{SO : SetOrder} `{ENV : MemoryEnv} {SOL : SetOrderLaw SO}.
  Implicit Types s : GroupDb.

(** ** What preparing a message leaves alone *)

(** No message stored, nothing counted, and the bot's last words where they were. *)
Definition quiet : relation GroupDb := λ s s',
  db_messages (gb_memory s') = db_messages (gb_memory s) ∧ gb_diag s' = gb_diag s ∧
  gr_last_bot_response (gb_runtime s') = gr_last_bot_response (gb_runtime s).

#[local] Instance quiet_preorder : PreOrder quiet.
Proof. split; [by intros s|]. intros s t u (A & B & C) (D & E & F). unfold quiet. by rewrite D, E, F. Qed.

Definition same_messages : relation ConvDb := λ c c', db_messages c' = db_messages c.

#[local] Instance same_messages_preorder : PreOrder same_messages.
Proof. split; [by intros c|]. intros a b c H1 H2. unfold same_messages in *. congruence. Qed.

Lemma quiet_on_memory {A} (m : M ConvDb A) : stable same_messages m → stable quiet (in_memory m).
Proof. apply stable_zoom. by intros s c' H. Qed.

Lemma load_aliases_quiet channel chat_id limit : stable same_messages (load_group_aliases channel chat_id limit).
Proof. unfold load_group_aliases. stable_go. Qed.

Lemma load_profiles_quiet channel chat_id limit : stable same_messages (load_group_user_profiles channel chat_id limit).
Proof. unfold load_group_user_profiles. stable_go. Qed.

Lemma upsert_aliases_quiet channel chat_id aliases : stable same_messages (upsert_group_aliases channel chat_id aliases).
Proof.
  unfold upsert_group_aliases. destruct (List.filter _ _) as [|a l]; [stable_go|]. apply stable_transaction; [typeclasses eauto|].
  apply stable_bind; [typeclasses eauto|stable_go|]. intros now. apply stable_foreach; [typeclasses eauto|]. intros x.
  apply stable_bind; [typeclasses eauto| |intros ?; stable_go].
  apply stable_sql_insert_or_ignore; [typeclasses eauto|]. by intros c _.
Qed.

Lemma upsert_profile_quiet channel chat_id user_id name username :
  stable same_messages (upsert_group_user_profile channel chat_id user_id name username).
Proof.
  unfold upsert_group_user_profile. destruct (is_blank name); [stable_go|].
  apply stable_bind; [typeclasses eauto|stable_go|]. intros now.
  apply stable_sql_upsert; [typeclasses eauto|]. by intros c _.
Qed.

Lemma runtime_quiet : stable quiet runtime.
Proof. unfold runtime. stable_go. Qed.

Lemma set_runtime_quiet f :
  (∀ r, gr_last_bot_response (f r) = gr_last_bot_response r) → stable quiet (set_runtime f).
Proof. intros H w. cbn. split_and!; [done|done|apply H]. Qed.

#[local] Hint Resolve runtime_quiet stable_wrap_error : stab.
#[local] Hint Extern 1 (stable quiet (in_memory _)) => apply quiet_on_memory; solve
  [apply load_aliases_quiet|apply load_profiles_quiet|apply upsert_aliases_quiet|apply upsert_profile_quiet] : stab.
#[local] Hint Extern 1 (stable quiet (set_runtime _)) =>
  apply set_runtime_quiet; intros ?; repeat case_match; reflexivity : stab.

Lemma now_quiet : stable quiet current_unix_timestamp.
Proof. unfold current_unix_timestamp. stable_go. Qed.

#[local] Hint Resolve now_quiet : stab.

Lemma bootstrap_quiet channel chat_id : stable quiet (bootstrap_group_runtime_state channel chat_id).
Proof. unfold bootstrap_group_runtime_state, bootstrap_aliases, bootstrap_profiles. stable_go. Qed.

Lemma identity_quiet channel message text : stable quiet (build_group_identity_context channel message text).
Proof. unfold build_group_identity_context. stable_go. Qed.

Lemma learn_quiet channel chat_id aliases : stable quiet (learn_group_alias_tokens channel chat_id aliases).
Proof. unfold learn_group_alias_tokens. stable_go. Qed.

Lemma runtime_ok : infallible runtime.
Proof. by intros w. Qed.

Lemma bootstrap_ok channel chat_id : infallible (bootstrap_group_runtime_state channel chat_id).
Proof.
  unfold bootstrap_group_runtime_state. apply infallible_bind; [apply runtime_ok|]. intros r.
  apply infallible_bind; [|intros _]; case_bool_decide; try done;
    (apply infallible_bind; [apply infallible_catch|by intros loaded w]).
Qed.

Lemma learn_ok channel chat_id aliases : infallible (learn_group_alias_tokens channel chat_id aliases).
Proof.
  unfold learn_group_alias_tokens. destruct aliases; [done|]. apply infallible_bind; [apply runtime_ok|]. intros r.
  destruct (add_aliases _ _ _) as [known new]. apply infallible_bind; [by intros w|]. intros _.
  destruct new; [done|apply ignore_infallible].
Qed.

(** ** The names of the bot *)

Definition names_of (chat_id : Z) s : gset string := aliases_of chat_id (gb_runtime s).

Definition same_names : relation GroupDb := λ s s',
  gr_learned_aliases (gb_runtime s') = gr_learned_aliases (gb_runtime s).

#[local] Instance same_names_preorder : PreOrder same_names.
Proof. split; [by intros s|]. intros a b c H1 H2. unfold same_names in *. congruence. Qed.

Lemma names_on_memory {A} (m : M ConvDb A) : stable same_names (in_memory m).
Proof. intros w. unfold in_memory, zoom. by destruct (m _). Qed.

Lemma names_set_runtime f :
  (∀ r, gr_learned_aliases (f r) = gr_learned_aliases r) → stable same_names (set_runtime f).
Proof. intros H w. apply H. Qed.

#[local] Hint Resolve names_on_memory : stab.
#[local] Hint Extern 1 (stable same_names (set_runtime _)) =>
  apply names_set_runtime; intros ?; repeat case_match; reflexivity : stab.

Lemma profiles_names channel chat_id : stable same_names (bootstrap_profiles channel chat_id).
Proof. unfold bootstrap_profiles. stable_go. Qed.

Lemma identity_names channel message text : stable same_names (build_group_identity_context channel message text).
Proof. unfold build_group_identity_context, current_unix_timestamp, runtime. stable_go. Qed.

(** [new] is [old] with names of [added]: all of them, or as many as fit. *)
Definition grown (old added new : gset string) : Prop :=
  old ⊆ new ∧ new ⊆ old ∪ added ∧ (added ⊆ new ∨ MAX_LEARNED_ALIASES ≤ size new).

Lemma grown_full old added : MAX_LEARNED_ALIASES ≤ size old → grown old added old.
Proof. intros H. split_and!; [done|set_solver|by right]. Qed.

Lemma grown_step old x added new : grown ({[x]} ∪ old) added new → grown old ({[x]} ∪ added) new.
Proof. intros (H1 & H2 & H3). split_and!; [set_solver|set_solver|]. destruct H3; [left; set_solver|by right]. Qed.

Lemma grown_known old x added new : x ∈ old → grown old added new → grown old ({[x]} ∪ added) new.
Proof. intros Hx H. apply grown_step. by replace ({[x]} ∪ old) with old by set_solver. Qed.

(** The names that stored names stand for. *)
Definition normalized_names (stored : list string) : gset string :=
  list_to_set (List.filter (λ name, negb (String.eqb name "")) (normalize_alias_token <$> stored)).

Lemma keep_alias_full known stored : MAX_LEARNED_ALIASES ≤ size known → foldl keep_alias known stored = known.
Proof.
  intros H. induction stored as [|a stored IH]; [done|]. cbn [foldl].
  replace (keep_alias known a) with known; [done|]. unfold keep_alias.
  by rewrite (proj2 (Nat.leb_le _ _) H), orb_true_r.
Qed.

Lemma keep_aliases_grown stored known : grown known (normalized_names stored) (foldl keep_alias known stored).
Proof.
  revert known. induction stored as [|a stored IH]; intros known; [split_and!; set_solver|].
  destruct (decide (MAX_LEARNED_ALIASES ≤ size known)) as [Hf|Hf].
  { rewrite keep_alias_full by done. by apply grown_full. }
  cbn [foldl]. unfold normalized_names, keep_alias at 2. cbn [fmap list_fmap List.filter].
  rewrite (proj2 (Nat.leb_gt _ _)) by lia. rewrite orb_false_r.
  destruct (String.eqb (normalize_alias_token a) ""); cbn [negb]; [apply IH|]. apply grown_step, IH.
Qed.

Lemma add_aliases_grown aliases known newly_added :
  grown known (list_to_set aliases) (add_aliases aliases known newly_added).1.
Proof.
  revert known newly_added. induction aliases as [|a aliases IH]; intros known new; [split_and!; set_solver|].
  cbn [add_aliases]. destruct (Nat.leb_spec MAX_LEARNED_ALIASES (size known)); [by apply grown_full|].
  case_bool_decide; [by apply grown_known|]. apply grown_step, IH.
Qed.

(** The newest 64 names stored for a chat. *)
Definition stored_names (channel : string) (chat_id : Z) (c : ConvDb) : list string :=
  al_alias <$> take 64 (order_by newest_alias_first (List.filter (in_chat channel chat_id) (db_aliases c))).

(** The names at hand for a chat: those of the process, with the stored ones the first time. *)
Definition names_at_hand (channel : string) (chat_id : Z) s (names : gset string) : Prop :=
  if bool_decide (chat_id ∈ gr_loaded_aliases (gb_runtime s)) then names = names_of chat_id s
  else grown (names_of chat_id s) (normalized_names (stored_names channel chat_id (gb_memory s))) names.

Lemma bootstrap_names channel chat_id s :
  wp (bootstrap_group_runtime_state channel chat_id)
    (λ _ s', names_at_hand channel chat_id s (names_of chat_id s')) s.
Proof.
  assert (Hrest : ∀ s1, names_at_hand channel chat_id s (names_of chat_id s1) →
    wp (if bool_decide (chat_id ∈ gr_loaded_profiles (gb_runtime s)) then mret tt else bootstrap_profiles channel chat_id)
      (λ _ s', names_at_hand channel chat_id s (names_of chat_id s')) s1).
  { intros s1 H. eapply wp_mono; [apply (wp_of_stable same_names)|].
    - case_bool_decide; [stable_go|apply profiles_names].
    - intros r s' Hs. unfold names_of, aliases_of. by rewrite Hs. }
  unfold bootstrap_group_runtime_state. apply wp_bind, wp_bind, wp_get_db, wp_ret. cbv beta iota.
  apply wp_bind. destruct (decide (chat_id ∈ gr_loaded_aliases (gb_runtime s))) as [Hl|Hl].
  - rewrite (bool_decide_eq_true_2 _ Hl). apply wp_ret, Hrest. unfold names_at_hand. by rewrite bool_decide_eq_true_2.
  - rewrite (bool_decide_eq_false_2 _ Hl). unfold bootstrap_aliases. apply wp_bind, wp_catch, wp_wrap_error, wp_zoom.
    unfold load_group_aliases. apply wp_bind, wp_sql_select, wp_ret. cbv beta iota.
    apply wp_bind, wp_get_db, wp_put_db. apply Hrest. unfold names_at_hand. rewrite bool_decide_eq_false_2 by done.
    unfold names_of at 2, aliases_of. cbn. rewrite lookup_insert_eq. apply keep_aliases_grown.
Qed.

Lemma learn_names channel chat_id aliases s :
  wp (learn_group_alias_tokens channel chat_id aliases)
    (λ _ s', grown (names_of chat_id s) (list_to_set aliases) (names_of chat_id s')) s.
Proof.
  unfold learn_group_alias_tokens. destruct aliases as [|a l]; [apply wp_ret; split_and!; set_solver|].
  apply wp_bind, wp_bind, wp_get_db, wp_ret. cbv beta iota.
  pose proof (add_aliases_grown (a :: l) (names_of chat_id s) []) as H. fold (names_of chat_id s).
  destruct (add_aliases _ _ _) as [known new]. cbn [fst] in H.
  apply wp_bind, wp_bind, wp_get_db, wp_put_db. cbv beta iota.
  assert (Hk : ∀ s1, same_names
    {| gb_runtime := set_aliases (<[chat_id:=known]> (gr_learned_aliases (gb_runtime s))) (gb_runtime s);
       gb_diag := gb_diag s; gb_memory := gb_memory s |} s1 →
    grown (names_of chat_id s) (list_to_set (a :: l)) (names_of chat_id s1)).
  { intros s1 Hs. unfold names_of at 2, aliases_of. rewrite Hs. cbn. by rewrite lookup_insert_eq. }
  destruct new; [by apply wp_ret, Hk|].
  eapply wp_mono; [apply (wp_of_stable same_names); stable_go|]. intros r s' Hs. by apply Hk.
Qed.

(** ** The context that is given to the model *)

(** The text names the speaker by a profile of the chat, which follows a correction at once. *)
Definition in_context (input : GroupProcessContext) (text : string) : Prop :=
  ∃ profile profiles, let message := gc_message input in
    profiles !! sender_id message = Some profile ∧
    (∀ name, extract_realtime_name_correction (gc_text input) = Some name → gp_preferred_name profile = name) ∧
    text = build_group_member_identity_context (gc_text input) (tm_reply_to_message message) (sender_id message) profile
             (order_by roster_before (map_to_list profiles)) 8.

Lemma update_profile_corrected observed username name now known :
  gp_preferred_name (update_profile observed username (Some name) now known).1 = name.
Proof.
  unfold update_profile. repeat case_match; simplify_eq; cbn; try done; by apply String.eqb_eq.
Qed.

Lemma identity_spec input s :
  wp (build_group_identity_context (gc_channel_name input) (gc_message input) (gc_text input))
    (λ r s', quiet s s' ∧ same_names s s' ∧ ∃ prep t, r = Ok prep ∧ clock_reading t ∧ pr_now prep = Z.to_N t ∧
       in_context input (pr_model_input_text prep)) s.
Proof.
  set (channel := gc_channel_name input).
  apply wp_and; [apply (wp_of_stable quiet), identity_quiet|].
  apply wp_and; [apply (wp_of_stable same_names), identity_names|].
  unfold build_group_identity_context. cbv zeta.
  apply wp_bind, wp_bind, wp_unix_now_reading. intros now Hnow. apply wp_ret.
  apply wp_bind, wp_bind, wp_get_db, wp_ret.
  destruct (update_profile _ _ _ _ _) as [profile changed] eqn:Hp.
  apply wp_bind. unfold set_runtime at 1. apply wp_bind, wp_get_db, wp_put_db. apply wp_bind.
  set (profiles := <[_ := profile]> _).
  assert (H : in_context input (build_group_member_identity_context (gc_text input) (tm_reply_to_message (gc_message input))
    (sender_id (gc_message input)) profile (order_by roster_before (map_to_list profiles)) 8)).
  { exists profile, profiles. split_and!; [by apply lookup_insert_eq| |done].
    intros name Hn. rewrite Hn in Hp. apply (f_equal fst) in Hp. cbn in Hp. subst profile.
    apply update_profile_corrected. }
  destruct changed; [|apply wp_ret, wp_ret; eauto 6].
  apply wp_ignore_error. intros w _. cbv beta iota. apply wp_ret. eauto 6.
Qed.

(** ** The judgement *)

(** Whether the bot answered in the chat within [window]. *)
Definition answered_within (chat_id : Z) (now window : N) s : bool :=
  default false ((λ last, (now - last <=? window)%N) <$> gr_last_bot_response (gb_runtime s) !! chat_id).

Lemma answered_within_true chat_id now window s :
  answered_within chat_id now window s = true ↔
    ∃ last, gr_last_bot_response (gb_runtime s) !! chat_id = Some last ∧ (now - last <= window)%N.
Proof.
  unfold answered_within. destruct (_ !! chat_id) as [last|]; cbn; [|naive_solver].
  rewrite N.leb_le. naive_solver.
Qed.

Lemma signals_spec chat_id now settings s :
  wp (load_group_runtime_signals chat_id now settings) (λ r s', s' = s ∧ ∃ seed, r = Ok (
    answered_within chat_id now (gt_followup_window_secs settings) s,
    answered_within chat_id now (gt_cooldown_secs settings) s,
    set_order seed (elements (names_of chat_id s)))) s.
Proof.
  unfold load_group_runtime_signals. apply wp_bind, wp_tick. intros seed. apply wp_bind, wp_bind, wp_get_db, wp_ret, wp_ret.
  split; [done|]. exists seed. unfold answered_within. by destruct (gr_last_bot_response (gb_runtime s) !! chat_id).
Qed.

(** Learning names when the message is meant for the bot. *)
Lemma learn_when (b : bool) channel chat_id aliases s :
  wp (if b then learn_group_alias_tokens channel chat_id aliases else mret tt) (λ r s', r = Ok tt ∧ quiet s s' ∧
    if b then grown (names_of chat_id s) (list_to_set aliases) (names_of chat_id s')
    else names_of chat_id s' = names_of chat_id s) s.
Proof.
  destruct b; [|by apply wp_ret].
  eapply wp_mono; [apply wp_and; [apply (wp_infallible quiet); [apply learn_quiet|apply learn_ok]|apply learn_names]|].
  by intros r s' [([] & -> & H) H'].
Qed.

(** Learning the name a message calls the bot by. *)
Lemma learn_called (called : option string) (b : bool) channel chat_id names s :
  wp (match called with
      | Some c => if b then learn_group_alias_tokens channel chat_id [c] ;; mret (names ++ [c]) else mret names
      | None => mret names
      end)
    (λ r s', r = Ok (names ++ if b then option_list called else []) ∧ quiet s s') s.
Proof.
  destruct called as [c|]; [|apply wp_ret; destruct b; cbn; by rewrite app_nil_r].
  destruct b; [|apply wp_ret; by rewrite app_nil_r]. apply wp_bind.
  eapply wp_mono; [apply (wp_infallible quiet); [apply learn_quiet|apply learn_ok]|].
  intros r s' ([] & -> & H). by apply wp_ret.
Qed.

Lemma observe_spec incoming s :
  wp (observe incoming) (λ r s', r = Ok tt ∧ gb_diag s' = gb_diag s ∧ ∃ id at_unix,
    db_messages (gb_memory s') = db_messages (gb_memory s) ++
      [{| ms_id := id; ms_session_id := im_session_id incoming;
          ms_message := {| role := User; content := im_text incoming |}; ms_created_at := at_unix |}]) s.
Proof.
  unfold observe. apply wp_wrap_error, wp_zoom. unfold sqlite_append. apply wp_bind. unfold append.
  apply wp_bind, wp_unix_now. intros now _. apply wp_bind, wp_get_db, wp_sql_insert_free. cbv beta iota.
  destruct (is_blank _); [apply wp_ret; eauto|].
  apply wp_bind, wp_unix_now. intros created _. apply wp_bind, wp_now_nanos. intros nanos.
  unfold append_chunk. apply wp_sql_replace. eauto.
Qed.

(** A store in which a message has been counted as [kind]. *)
Lemma metrics_spec kind (Q : res unit → GroupDb → Prop) s :
  (∀ s', counted_as kind (gb_diag s) (gb_diag s') → gb_memory s' = gb_memory s → Q (Ok tt) s') →
  wp (record_group_decision_metrics kind) Q s.
Proof. intros H. unfold record_group_decision_metrics. apply wp_bind, wp_get_db, wp_put_db, H; done. Qed.

(** The names known when a message is judged: those at hand, and, when the message mentions the
    bot or replies to it, those it gives the bot. *)
Definition names_known (input : GroupProcessContext) s (names : gset string) : Prop :=
  let bot_username := default "" (gc_bot_username input) in
  let chat_id := tm_chat_id (gc_message input) in
  ∃ at_hand, names_at_hand (gc_channel_name input) chat_id s at_hand ∧
    if negb (String.eqb bot_username "") &&
       (message_mentions_bot (gc_text input) bot_username || gc_replied_to_bot input)
    then grown at_hand (list_to_set (extract_dynamic_alias_candidates (gc_text input) bot_username)) names
    else names = at_hand.

(** The signals of a message: what its text says, what the names known make of it, and when
    the bot last answered in the chat. *)
Record signals_read (input : GroupProcessContext) s (now : N) (names : gset string) (called : option string)
    (signals : GroupSignalInput) : Prop := {
  sr_called :
    if negb (String.eqb (default "" (gc_bot_username input)) "")
    then called_by (gc_text input) (default "" (gc_bot_username input)) (elements names) called
    else called = None;
  sr_mentioned : gs_mentioned signals = true ↔
    default "" (gc_bot_username input) ≠ "" ∧
    message_mentions_bot (gc_text input) (default "" (gc_bot_username input)) = true;
  sr_replied : gs_replied_to_bot signals = gc_replied_to_bot input;
  sr_question : gs_has_question_marker signals = message_has_question_marker (gc_text input);
  sr_other : gs_points_to_other_bot signals = true ↔
    default "" (gc_bot_username input) ≠ "" ∧
    message_mentions_other_handle (gc_text input) (default "" (gc_bot_username input)) = true;
  sr_noise : gs_low_signal_noise signals = is_low_signal_group_noise (gc_text input);
  sr_recent : gs_recent_bot_participation signals = true ↔
    ∃ last, gr_last_bot_response (gb_runtime s) !! tm_chat_id (gc_message input) = Some last ∧
      (now - last <= gt_followup_window_secs (gc_settings input))%N;
  sr_cooldown : gs_cooldown_active signals = true ↔
    ∃ last, gr_last_bot_response (gb_runtime s) !! tm_chat_id (gc_message input) = Some last ∧
      (now - last <= gt_cooldown_secs (gc_settings input))%N;
  sr_vocative : gs_vocative_alias_hit signals = true ↔
    gt_mode (gc_settings input) = TriggerSmart ∧ gs_points_to_other_bot signals = false ∧
    ∃ name, called = Some name ∧ (name ∈ names ∨ message_has_question_marker (gc_text input) = true);
  sr_alias : gs_alias_hit signals = true ↔
    ∃ name, (name ∈ names ∨ (called = Some name ∧ gs_vocative_alias_hit signals = true)) ∧
      lowercase (trim name) ≠ "" ∧ contains (lowercase (trim name)) (lowercase (gc_text input)) = true
}.

Lemma contains_any_alias text names :
  message_contains_any_alias text names = true ↔
    ∃ name, name ∈ names ∧ lowercase (trim name) ≠ "" ∧ contains (lowercase (trim name)) (lowercase text) = true.
Proof.
  unfold message_contains_any_alias. destruct names as [|a l]; [set_solver|]. rewrite existsb_exists. cbv zeta.
  setoid_rewrite andb_true_iff. setoid_rewrite negb_true_iff. setoid_rewrite String.eqb_neq.
  by setoid_rewrite list_elem_of_In.
Qed.

Lemma called_by_members text bot_username l k called :
  (∀ name, name ∈ l ↔ name ∈ k) → called_by text bot_username l called → called_by text bot_username k called.
Proof.
  intros H. assert (Hs : ∀ name, starts_by_name text l name ↔ starts_by_name text k name).
  { intros name. unfold starts_by_name. rewrite !list_elem_of_fmap. by setoid_rewrite H. }
  unfold called_by. intros [(name & -> & H1 & H2)|[H1 H2]].
  - left. exists name. split; [done|]. rewrite <- Hs. split; [done|]. intros name'. rewrite <- Hs. apply H2.
  - right. split; [|done]. intros name. rewrite <- Hs. apply H1.
Qed.

(** The signals the pipeline computes are those of the message. *)
Lemma signals_are_read input s now names seed :
  let text := gc_text input in
  let bot_username := default "" (gc_bot_username input) in
  let named := negb (String.eqb bot_username "") in
  let known := set_order seed (elements names) in
  let called := if named then
      match detect_vocative_learned_alias_prefix text known with
      | Some alias => Some alias
      | None => extract_vocative_alias_candidate text bot_username
      end
    else None in
  let is_known := match called with Some c => existsb (String.eqb c) known | None => false end in
  let other := named && message_mentions_other_handle text bot_username in
  let hit := bool_decide (gt_mode (gc_settings input) = TriggerSmart) && negb other &&
             bool_decide (is_Some called) && (is_known || message_has_question_marker text) in
  signals_read input s now names called
    {| gs_mentioned := named && message_mentions_bot text bot_username; gs_replied_to_bot := gc_replied_to_bot input;
       gs_recent_bot_participation :=
         answered_within (tm_chat_id (gc_message input)) now (gt_followup_window_secs (gc_settings input)) s;
       gs_alias_hit := message_contains_any_alias text (known ++ if hit && negb is_known then option_list called else []);
       gs_vocative_alias_hit := hit; gs_has_question_marker := message_has_question_marker text;
       gs_points_to_other_bot := other; gs_low_signal_noise := is_low_signal_group_noise text;
       gs_cooldown_active :=
         answered_within (tm_chat_id (gc_message input)) now (gt_cooldown_secs (gc_settings input)) s |}.
Proof.
  intros text bot_username named known called is_known other hit.
  assert (Hmem : ∀ name, name ∈ known ↔ name ∈ names).
  { intros name. unfold known. by rewrite set_order_permutes, elem_of_elements. }
  assert (Hknown : ∀ name, called = Some name → is_known = true ↔ name ∈ names).
  { intros name Hc. unfold is_known. rewrite Hc, existsb_exists, <- Hmem. setoid_rewrite <- list_elem_of_In.
    setoid_rewrite String.eqb_eq. naive_solver. }
  assert (Hnamed : ∀ b, named && b = true ↔ bot_username ≠ "" ∧ b = true).
  { intros b. unfold named. by rewrite andb_true_iff, negb_true_iff, String.eqb_neq. }
  assert (Hhit : hit = true ↔ gt_mode (gc_settings input) = TriggerSmart ∧ other = false ∧
    ∃ name, called = Some name ∧ (name ∈ names ∨ message_has_question_marker text = true)).
  { unfold hit. rewrite !andb_true_iff, orb_true_iff, !bool_decide_eq_true, negb_true_iff. split.
    - intros [[[Hm Ho] [name Hc]] Hk]. split_and!; [done|done|]. exists name. split; [done|]. by rewrite <- (Hknown name).
    - intros (Hm & Ho & name & Hc & Hk). rewrite (Hknown name) by done. eauto. }
  split; cbn [gs_mentioned gs_replied_to_bot gs_recent_bot_participation gs_alias_hit gs_vocative_alias_hit
    gs_has_question_marker gs_points_to_other_bot gs_low_signal_noise gs_cooldown_active]; fold text bot_username named;
    try done; try apply Hnamed; try apply answered_within_true; try exact Hhit.
  - unfold called. destruct named; [|done]. eapply called_by_members; [|apply called_name].
    intros name. by rewrite Hmem, elem_of_elements.
  - rewrite contains_any_alias. setoid_rewrite elem_of_app. setoid_rewrite Hmem. split.
    + intros (name & Hin & Hname). exists name. split; [|done]. destruct Hin as [Hin|Hin]; [by left|].
      destruct (hit && negb is_known) eqn:E; [|by apply elem_of_nil in Hin]. apply andb_true_iff in E as [E _].
      right. split; [|done]. destruct called; [|by apply elem_of_nil in Hin]. by apply list_elem_of_singleton in Hin as ->.
    + intros (name & Hin & Hname). exists name. split; [|done]. destruct Hin as [Hin|[Hc Hh]]; [by left|].
      destruct (decide (name ∈ names)) as [Hn|Hn]; [by left|right]. rewrite Hh.
      destruct is_known eqn:E; [by apply (Hknown name) in Hc; destruct Hn; apply Hc|]. rewrite Hc. by left.
Qed.

(** The end of the pipeline: what follows from the signals. *)
Lemma judged input s0 s signals prep :
  quiet s0 s → in_context input (pr_model_input_text prep) →
  let settings := gc_settings input in
  let message := gc_message input in
  let decision := evaluate_group_decision (gt_mode settings) signals (gt_rule_min_score settings) in
  wp (record_group_decision_metrics (gd_kind decision) ;;
      match gd_kind decision with
      | Respond => mret (Continue (pr_model_input_text prep))
      | ObserveOnly =>
          wrap_error ("failed to persist telegram observe-only message (session=" +:+
              (message_session message +:+ ":observe") +:+ ")")
            (observe {| im_channel := gc_channel_name input; im_session_id := message_session message +:+ ":observe";
                        im_user_id := sender_text message; im_text := pr_model_input_text prep;
                        im_is_group_chat := true |}) ;;
          mret Stop
      | Ignore => mret Stop
      end) (λ r s', ∃ text kind,
    (kind = Respond ↔ addressed signals ∨
      (gt_mode settings = TriggerSmart ∧ (within 1 100 (gt_rule_min_score settings) <= group_score signals)%Z ∧
       (gs_cooldown_active signals = true → gs_vocative_alias_hit signals = true))) ∧
    (kind = ObserveOnly ↔ kind ≠ Respond ∧ gt_mode settings = TriggerSmart ∧
      let min := within 1 100 (gt_rule_min_score settings) in
      (Z.min min (Z.max (min `quot` 2) 30) <= group_score signals)%Z) ∧
    in_context input text ∧ counted_as kind (gb_diag s0) (gb_diag s') ∧
    match kind with
    | Respond => r = Ok (Continue text) ∧ db_messages (gb_memory s') = db_messages (gb_memory s0)
    | Ignore => r = Ok Stop ∧ db_messages (gb_memory s') = db_messages (gb_memory s0)
    | ObserveOnly => r = Ok Stop ∧ ∃ id at_unix,
        db_messages (gb_memory s') = db_messages (gb_memory s0) ++
          [{| ms_id := id; ms_session_id := message_session message +:+ ":observe";
              ms_message := {| role := User; content := text |}; ms_created_at := at_unix |}]
    end) s.
Proof.
  intros (Hmsg & Hdiag & _) Htext settings message decision.
  set (kind := gd_kind _). assert (Hkind := decision_respond (gt_mode settings) signals (gt_rule_min_score settings)).
  fold decision in Hkind. fold kind in Hkind.
  assert (Hobserve := decision_observe (gt_mode settings) signals (gt_rule_min_score settings)).
  fold decision in Hobserve. fold kind in Hobserve. cbv zeta in Hobserve.
  apply wp_bind, metrics_spec. intros s6 Hcount Hmem. rewrite Hdiag in Hcount. rewrite <- Hmem in Hmsg.
  destruct kind eqn:Hk.
  - apply wp_ret. exists (pr_model_input_text prep), Respond. by repeat (split; [done|]).
  - apply wp_bind, wp_wrap_error. eapply wp_mono; [apply observe_spec|]. intros r7 s7 (-> & Hd & id & at_unix & Hrow). cbv beta iota.
    apply wp_ret. exists (pr_model_input_text prep), ObserveOnly.
    rewrite Hd. repeat (split; [done|]). exists id, at_unix. rewrite Hrow, Hmsg. done.
  - apply wp_ret. exists (pr_model_input_text prep), Ignore. by repeat (split; [done|]).
Qed.

(** What came of a message: [r] is the outcome and [s'] the process after it. *)
Definition message_outcome (input : GroupProcessContext) s (r : res GroupProcessOutcome) s' : Prop :=
  ∃ signals t names called text kind,
  let settings := gc_settings input in
  clock_reading t ∧ names_known input s names ∧ signals_read input s (Z.to_N t) names called signals ∧
  (kind = Respond ↔ addressed signals ∨
    (gt_mode settings = TriggerSmart ∧ (within 1 100 (gt_rule_min_score settings) <= group_score signals)%Z ∧
     (gs_cooldown_active signals = true → gs_vocative_alias_hit signals = true))) ∧
  (kind = ObserveOnly ↔ kind ≠ Respond ∧ gt_mode settings = TriggerSmart ∧
    let min := within 1 100 (gt_rule_min_score settings) in
    (Z.min min (Z.max (min `quot` 2) 30) <= group_score signals)%Z) ∧
  in_context input text ∧ counted_as kind (gb_diag s) (gb_diag s') ∧
  match kind with
  | Respond => r = Ok (Continue text) ∧ db_messages (gb_memory s') = db_messages (gb_memory s)
  | Ignore => r = Ok Stop ∧ db_messages (gb_memory s') = db_messages (gb_memory s)
  | ObserveOnly => r = Ok Stop ∧ ∃ id at_unix,
      db_messages (gb_memory s') = db_messages (gb_memory s) ++
        [{| ms_id := id; ms_session_id := message_session (gc_message input) +:+ ":observe";
            ms_message := {| role := User; content := text |}; ms_created_at := at_unix |}]
  end.


(** ** The names of the bot stay few *)

Definition few_names s : Prop :=
  map_Forall (λ _ names, size names ≤ MAX_LEARNED_ALIASES) (gr_learned_aliases (gb_runtime s)).

Lemma keep_alias_few known alias : size known ≤ MAX_LEARNED_ALIASES → size (keep_alias known alias) ≤ MAX_LEARNED_ALIASES.
Proof.
  intros H. unfold keep_alias. destruct (String.eqb _ ""); [done|]. cbn [orb].
  destruct (Nat.leb_spec MAX_LEARNED_ALIASES (size known)); [done|].
  pose proof (size_union_alt {[normalize_alias_token alias]} known) as Hu. rewrite size_singleton in Hu.
  pose proof (subseteq_size (known ∖ {[normalize_alias_token alias]}) known ltac:(set_solver)). lia.
Qed.

Lemma keep_aliases_few stored known :
  size known ≤ MAX_LEARNED_ALIASES → size (foldl keep_alias known stored) ≤ MAX_LEARNED_ALIASES.
Proof. revert known. induction stored as [|a stored IH]; intros known H; [done|]. by apply IH, keep_alias_few. Qed.

Lemma add_aliases_few aliases known newly_added :
  size known ≤ MAX_LEARNED_ALIASES → size (add_aliases aliases known newly_added).1 ≤ MAX_LEARNED_ALIASES.
Proof.
  revert known newly_added. induction aliases as [|a aliases IH]; intros known new H; [done|]. cbn [add_aliases].
  destruct (Nat.leb_spec MAX_LEARNED_ALIASES (size known)); [done|]. case_bool_decide; [by apply IH|]. apply IH.
  rewrite size_union by set_solver. rewrite size_singleton. lia.
Qed.

Lemma few_default s chat_id : few_names s → size (aliases_of chat_id (gb_runtime s)) ≤ MAX_LEARNED_ALIASES.
Proof.
  intros H. unfold aliases_of. destruct (_ !! chat_id) as [names|] eqn:E; [exact (H _ _ E)|]. cbn. rewrite size_empty. unfold MAX_LEARNED_ALIASES. lia.
Qed.

Lemma few_set_runtime f :
  (∀ s, few_names s → map_Forall (λ _ names, size names ≤ MAX_LEARNED_ALIASES) (gr_learned_aliases (f (gb_runtime s)))) →
  stable (keeps few_names) (set_runtime f).
Proof. intros H w Hw. cbn. by apply H. Qed.

Lemma few_on_memory {A} (m : M ConvDb A) : stable (keeps few_names) (in_memory m).
Proof. intros w H. unfold in_memory, zoom. destruct (m _). exact H. Qed.

#[local] Hint Resolve few_on_memory stable_wrap_error : stab.

Lemma few_bootstrap channel chat_id : stable (keeps few_names) (bootstrap_group_runtime_state channel chat_id).
Proof.
  unfold bootstrap_group_runtime_state, bootstrap_aliases, bootstrap_profiles, runtime. stable_go.
  - apply few_set_runtime. intros s H. cbn. case_match; cbn; [|exact H].
    apply map_Forall_insert_2; [|exact H]. by apply keep_aliases_few, few_default.
  - apply few_set_runtime. intros s H. cbn. by case_match.
Qed.

Lemma few_learn channel chat_id aliases : stable (keeps few_names) (learn_group_alias_tokens channel chat_id aliases).
Proof.
  unfold learn_group_alias_tokens. destruct aliases as [|a l]; [stable_go|]. apply stable_of_wp. intros s.
  apply wp_bind, wp_bind, wp_get_db, wp_ret. destruct (add_aliases (a :: l) _ _) as [known new] eqn:E.
  apply wp_bind, wp_bind, wp_get_db, wp_put_db. cbv beta iota.
  assert (H : few_names s → few_names
    {| gb_runtime := set_aliases (<[chat_id:=known]> (gr_learned_aliases (gb_runtime s))) (gb_runtime s);
       gb_diag := gb_diag s; gb_memory := gb_memory s |}).
  { intros H. apply map_Forall_insert_2; [|exact H].
    pose proof (add_aliases_few (a :: l) (aliases_of chat_id (gb_runtime s)) [] (few_default s chat_id H)) as Hf. by rewrite E in Hf. }
  destruct new; [by apply wp_ret|]. eapply wp_mono; [apply (wp_of_stable (keeps few_names)); stable_go|]. intros r s' Hk Hs. auto.
Qed.

#[local] Hint Resolve few_bootstrap few_learn : stab.

Lemma few_metrics kind : stable (keeps few_names) (record_group_decision_metrics kind).
Proof. intros w H. exact H. Qed.

Lemma few_observe incoming : stable (keeps few_names) (observe incoming).
Proof. unfold observe. stable_go. Qed.

#[local] Hint Resolve few_metrics few_observe : stab.
#[local] Hint Extern 1 (stable (keeps few_names) (set_runtime _)) => apply few_set_runtime; intros ? H; exact H : stab.

(** However many messages a group sends, at most 24 names of the bot are remembered for it. *)
Theorem names_stay_few input : stable (keeps few_names) (process_group_message input).
Proof.
  unfold process_group_message, build_group_identity_context, current_unix_timestamp, learn_group_aliases,
    load_group_runtime_signals, runtime.
  stable_go.
Qed.
End facts.

(** ** Runs *)

Definition ascii_text : UnicodeText :=
  {| lowercase := to_ascii_lowercase;
     char_is_alphabetic ch :=
       match ch with String a EmptyString => let n := byte_of (ascii_lower a) in (97 <=? n) && (n <=? 122) | _ => false end |}.

(** Names as people give them. *)
Example names_are_found :
  let U := ascii_text in
  extract_dynamic_alias_candidates "小绿，@myxiaomaolvbot 你看看这个" "myxiaomaolvbot" = ["小绿"; "你看看这个"] ∧
  extract_dynamic_alias_candidates "@myxiaomaolvbot 你叫驴哥，你知道吧" "myxiaomaolvbot" = ["驴哥"] ∧
  extract_vocative_alias_candidate "驴哥5分钟后提醒我喝水" "myxiaomaolvbot" = Some "驴哥" ∧
  extract_vocative_alias_candidate "大家，你们先聊，我晚点看。" "myxiaomaolvbot" = None ∧
  detect_vocative_learned_alias_prefix "驴哥你话太密了" ["驴哥"; "小绿"] = Some "驴哥" ∧
  extract_realtime_name_correction "请叫我阿青" = Some "阿青" ∧
  extract_realtime_name_correction "我是来问一个问题的" = None.
Proof. vm_compute. done. Qed.

Example mentions_are_words :
  message_mentions_bot "@xiaomaolv_bot，请回复" "xiaomaolv_bot" = true ∧
  message_mentions_bot "not-mention@xiaomaolv_botx" "xiaomaolv_bot" = false.
Proof. vm_compute. done. Qed.

(** The first word of any reply to the bot becomes a name of the bot. *)
Example a_reply_teaches_its_first_word :
  let U := ascii_text in
  extract_dynamic_alias_candidates "thanks, that works" "mybot" = ["thanks"] ∧
  message_contains_any_alias "no thanks needed" ["thanks"] = true.
Proof. vm_compute. done. Qed.

Lemma mention_is_a_word_witness :
  message_mentions_bot "ask @MyBot." "@MyBot" = true ↔
    ∃ before after, to_ascii_lowercase "ask @MyBot." = before +:+ ("@" +:+ "mybot") +:+ after ∧
      is_mention_boundary (last (bytes before)) = true ∧ is_mention_boundary (head (bytes after)) = true.
Proof. apply (mention_is_a_word "ask @MyBot." "@MyBot"); [discriminate|reflexivity]. Defined.

#[local] Instance memory_as_usual : MemoryEnv :=
  {| str_to_lowercase := to_ascii_lowercase; local_day_start _ _ := None; local_rfc3339 _ := None;
     default_hash _ secs _ := Z.to_N secs |}.

Definition list_order : SetOrder := λ _ l, l.

Lemma list_order_law : SetOrderLaw list_order.
Proof. intros n l. done. Qed.

Definition smart_group : TelegramGroupTriggerSettings :=
  {| gt_mode := TriggerSmart; gt_followup_window_secs := 180; gt_cooldown_secs := 20; gt_rule_min_score := 70 |}.

Definition group_text (text : string) : GroupProcessContext :=
  {| gc_channel_name := "telegram";
     gc_message := {| tm_message_id := 5; tm_chat_id := -7; tm_chat_kind := Some "group"; tm_from := None;
                      tm_text := Some text; tm_thread_id := None; tm_reply_to_message := None |};
     gc_text := text; gc_replied_to_bot := false; gc_bot_username := Some "mybot"; gc_settings := smart_group |}.

(** A process that answered in the group at second 100 and knows one name. *)
Definition just_answered : GroupDb :=
  {| gb_runtime := {| gr_last_bot_response := {[ (-7)%Z := 100%N ]}; gr_learned_aliases := {[ (-7)%Z := {[ "ava" ]} ]};
                      gr_loaded_aliases := {[ (-7)%Z ]}; gr_user_profiles := ∅; gr_loaded_profiles := {[ (-7)%Z ]} |};
     gb_diag := {| dg_messages_total := 0; dg_respond_total := 0; dg_observe_total := 0; dg_ignore_total := 0 |};
     gb_memory := empty_conv |}.


(** In the pause after an answer a question that names the bot is answered when it starts with
    the name, and only kept when the name stands at its end. *)
Example called_in_the_pause :
  let C : Clock := λ _, 110000000000%Z in let U := ascii_text in let O := list_order in
  let outcome text := match (process_group_message (group_text text) (World just_answered 0 0)).1 with
                      | Ok (Continue _) => true | _ => false end in
  outcome "ava, are you there?" = true ∧ outcome "are you there, ava?" = false.
Proof. vm_compute. done. Qed.
