(* ===== verification/Turn.v ===== *)
(** * A turn

    The pipeline of src/service.rs that answers a message: the message is stored, its
    context recalled, compacted and cut to the budget, the standing instructions are added,
    a swarm or a completion - by code mode, the tool loop or the provider alone - answers,
    and the answer is stored.  The memory is any backend; the skills
    that are loaded at a moment are an argument. *)

From S2P Require Import Prelude Text Strings Messages External Verifier OutputExit Domain Handlers MemBase Conversation Compactor.
From S2P Require Import TrajStore EvoDomain Harness RunLog SwarmAudit Swarm SwarmDurable Worker Engine ContextBudget TimeQuery ToolLoop CodeMode Recall Skills.
From stdpp Require Import pretty.
From Stdlib Require Import Ascii.

(** ** The skills of the service *)

Record AgentSkillsSettings : Type := {
  ks_enabled : bool;
  ks_max_selected : nat;
  ks_max_prompt_chars : nat;
  ks_match_min_score : f32;
  ks_llm_rerank_enabled : bool
}.

(** What the lock of [skills_runtime] guards at a moment, if there is a runtime. *)
Record ServiceSkills : Type := { kv_runtime : nat → option SkillRuntime; kv_settings : AgentSkillsSettings }.

Definition selection_settings (s : AgentSkillsSettings) : SkillRuntimeSelectionSettings :=
  {| ss_max_selected := ks_max_selected s; ss_max_prompt_chars := ks_max_prompt_chars s;
     ss_match_min_score := ks_match_min_score s |}.

(** ** The key of a compaction *)

Record CompactionSourceKey : Type := {
  sk_strategy : string;
  sk_source_hash : string;
  sk_source_message_ids : list Z;
  sk_source_first_message_id : option Z;
  sk_source_last_message_id : option Z;
  sk_source_message_count : nat
}.

Definition compaction_strategy_name (strategy : CompactionStrategy) : string :=
  match strategy with
  | HeadTail head_count tail_count => "head_tail:" +:+ pretty head_count +:+ ":" +:+ pretty tail_count
  | AgeBased max_age_days => "age_based:" +:+ pretty max_age_days
  | BudgetBased max_tokens => "budget_based:" +:+ pretty max_tokens
  end.

Definition nul : ascii := Ascii.zero.

(** [update_compaction_source_hash]: what it adds to the hasher. *)
Definition hash_field (label value : string) : list ascii :=
  bytes label ++ [nul] ++ bytes (pretty (String.length value)) ++ [nul] ++ bytes value ++ [nul].

Definition id_text (o : option Z) : string := match o with Some z => pretty z | None => "" end.

Definition message_fields (m : StoredMessage) : list ascii :=
  hash_field "message.role" (role_as_str (role m)) ++ hash_field "message.content" (content m).

Definition metadata_fields (m : CompactionMessageMetadata) : list ascii :=
  hash_field "metadata.source_id" (id_text (md_source_id m)) ++
  hash_field "metadata.created_at" (id_text (md_created_at m)).

(** Everything given to the hasher. *)
Definition source_bytes (history : list StoredMessage) (strategy : CompactionStrategy)
    (metadata : list CompactionMessageMetadata) : list ascii :=
  hash_field "strategy" (compaction_strategy_name strategy) ++
  hash_field "history_len" (pretty (length history)) ++
  concat (message_fields <$> history) ++ concat (metadata_fields <$> metadata).

Definition build_compaction_source_key `{SHA : Sha256} (history : list StoredMessage) (strategy : CompactionStrategy)
    (metadata : list CompactionMessageMetadata) : CompactionSourceKey :=
  let source_message_ids := omap md_source_id metadata in
  {| sk_strategy := compaction_strategy_name strategy;
     sk_source_hash := sha256_hex (of_bytes (source_bytes history strategy metadata));
     sk_source_message_ids := source_message_ids;
     sk_source_first_message_id := head source_message_ids;
     sk_source_last_message_id := last source_message_ids;
     sk_source_message_count := length history |}.

Definition default_metadata : CompactionMessageMetadata := {| md_source_id := None; md_created_at := None |}.

(** The first record of a message, and the records without it. *)
Fixpoint take_record (message : StoredMessage) (records : list StoredMessageRecord)
    : option (StoredMessageRecord * list StoredMessageRecord) :=
  match records with
  | [] => None
  | r :: records' =>
      if bool_decide (role (mr_message r) = role message) && String.eqb (content (mr_message r)) (content message)
      then Some (r, records')
      else (λ p, (p.1, r :: p.2)) <$> take_record message records'
  end.

Fixpoint align_compaction_metadata (history : list StoredMessage) (recent_records : list StoredMessageRecord)
    : list CompactionMessageMetadata :=
  match history with
  | [] => []
  | message :: history' =>
      match take_record message recent_records with
      | None => default_metadata :: align_compaction_metadata history' recent_records
      | Some (r, rest) =>
          {| md_source_id := Some (mr_id r); md_created_at := Some (mr_created_at r) |}
          :: align_compaction_metadata history' rest
      end
  end.

(** ** The state of the service *)

(** The MCP servers at a moment: the tools they list, and the built-in clock. *)
Class McpServers `{JsonValue} : Type := {
  list_tools : nat → res (list McpToolInfo);
  call_current_time : nat → json → res json
}.

Record AgentCompactionSettings : Type := {
  cg_enabled : bool;
  cg_strategy : CompactionStrategy;
  cg_head_count : nat;
  cg_tail_count : nat;
  cg_message_count_threshold : nat
}.

(** What of [MessageService] the pipeline reads; the compactor is there with its flag. *)
Record PipelineSettings `{ENV : LoopEnv} : Type := {
  se_turn : TurnSettings;
  se_max_recent_turns : nat;
  se_max_semantic_memories : nat;
  se_semantic_lookback_days : Z;
  se_mcp : bool;
  se_compaction : AgentCompactionSettings;
  se_compactor : option bool;
  se_context_window_tokens : N;
  se_context_reserved_tokens : N;
  se_context_memory_budget_ratio : N;
  se_context_min_recent_messages : nat;
  se_code_mode : AgentCodeModeSettings;
  se_code_mode_planner : CodeModePlanner
}.

(** [OutgoingMessage], without the reply target. *)
Record OutgoingMessage : Type := {
  om_channel : string;
  om_session_id : string;
  om_text : string
}.

Inductive PreparedTurn : Type :=
| Immediate (text : string)
| Ready (history : list StoredMessage).

Record CompletionOutcome : Type := { co_text : string; co_output_verified : bool }.

(** The memory, the stores, the policy served, what the turns asked, called and showed, and
    what is kept of code mode. *)
Record PipelineState `{ENV : LoopEnv} (S : Type) : Type := {
  pl_memory : S;
  pl_swarm : SwarmState;
  pl_policy : option ActiveEvolutionPolicy;
  pl_asked : list (list StoredMessage);
  pl_called : list (ParsedToolCall * option (res json));
  pl_shown : list string;
  pl_circuit : CodeModeCircuit;
  pl_counters : CodeModeCounters
}.
#[global] Arguments pl_memory {ENV S}.
#[global] Arguments pl_swarm {ENV S}.
#[global] Arguments pl_policy {ENV S}.
#[global] Arguments pl_asked {ENV S}.
#[global] Arguments pl_called {ENV S}.
#[global] Arguments pl_shown {ENV S}.
#[global] Arguments pl_circuit {ENV S}.
#[global] Arguments pl_counters {ENV S}.

Section pipeline.
  Context `{ENV : LoopEnv} `{DT : DateTimes} `{JP : !JsonParse} `{TV : !ToValue VerificationResult} `{JC : !JsonConfidence}.
  Context `{SLJ : Serialize (list json)} `{PV : TurnProvider} `{RT : !ToolRuntime} `{SR : StreamReceiver}.
  Context `{NP : NodeProvider} `{SP : SwarmProvider} `{FP : !FromValue SwarmNodePlanEnvelope} `{FI : !FromValue SwarmNodeInput}.
  Context `{FD : !FromValue SwarmActivationDecision} `{MS : !McpServers} `{PF : ParseF32}.
  Context `{SJ : !SandboxJson} `{CH : CodeModeHost} `{SER : !Serialize CodeModeExecutionReport}.
  Context (result_text : OutputVerificationResult → option string) (json_as_i64 : json → option Z).
  Context {S : Type} (memory : MemoryBackend S) (settings : PipelineSettings).
  (** The swarm's configuration, and the skills. *)
  Context (drive : LoopWorker → string → nat → nat → M SwarmState (option (res ResumeReport))).
  Context (eng : option LoopEngine) (swarm_settings : AgentSwarmSettings) (has_sender : bool).
  Context (service_skills : ServiceSkills).

Abbreviation DB := (M (PipelineState S)).

Definition turn_part (s : PipelineState S) : TurnState :=
  {| tn_harness := ss_harness (pl_swarm s); tn_asked := pl_asked s; tn_called := pl_called s; tn_shown := pl_shown s |}.

Definition put_turn (t : TurnState) (s : PipelineState S) : PipelineState S :=
  {| pl_memory := pl_memory s;
     pl_swarm := {| ss_harness := tn_harness t; ss_audit := ss_audit (pl_swarm s); ss_counts := ss_counts (pl_swarm s);
                    ss_permits := ss_permits (pl_swarm s); ss_calls := ss_calls (pl_swarm s) |};
     pl_policy := pl_policy s; pl_asked := tn_asked t; pl_called := tn_called t; pl_shown := tn_shown t;
     pl_circuit := pl_circuit s; pl_counters := pl_counters s |}.

Definition on_turn {A} : M TurnState A → DB A := zoom turn_part put_turn.

Definition on_memory {A} : M S A → DB A :=
  zoom pl_memory (λ m s, {| pl_memory := m; pl_swarm := pl_swarm s; pl_policy := pl_policy s; pl_asked := pl_asked s;
                            pl_called := pl_called s; pl_shown := pl_shown s; pl_circuit := pl_circuit s;
                            pl_counters := pl_counters s |}).

Definition on_swarm_part {A} : M SwarmState A → DB A :=
  zoom pl_swarm (λ w s, {| pl_memory := pl_memory s; pl_swarm := w; pl_policy := pl_policy s; pl_asked := pl_asked s;
                           pl_called := pl_called s; pl_shown := pl_shown s; pl_circuit := pl_circuit s;
                            pl_counters := pl_counters s |}).

Definition code_part (s : PipelineState S) : CodeModeState :=
  {| ks_turn := turn_part s; ks_circuit := pl_circuit s; ks_counters := pl_counters s |}.

Definition put_code (c : CodeModeState) (s : PipelineState S) : PipelineState S :=
  let s := put_turn (ks_turn c) s in
  {| pl_memory := pl_memory s; pl_swarm := pl_swarm s; pl_policy := pl_policy s; pl_asked := pl_asked s;
     pl_called := pl_called s; pl_shown := pl_shown s; pl_circuit := ks_circuit c; pl_counters := ks_counters c |}.

Definition on_code {A} : M CodeModeState A → DB A := zoom code_part put_code.

(** ** Compaction *)

Definition load_compaction_metadata (session_id : string) (history : list StoredMessage)
    : DB (list CompactionMessageMetadata) :=
  recent_records ← on_memory (mb_load_recent_records memory session_id (se_max_recent_turns settings));
  mret (align_compaction_metadata history recent_records).

(** The request that stores a summary. *)
Definition summary_request (session_id : string) (key : CompactionSourceKey) (result : CompactionResult)
    : CompactionSummaryUpsertRequest :=
  {| us_session_id := session_id; us_strategy := sk_strategy key; us_source_hash := sk_source_hash key;
     us_source_message_ids := sk_source_message_ids key;
     us_source_first_message_id := sk_source_first_message_id key;
     us_source_last_message_id := sk_source_last_message_id key;
     us_source_message_count := N.of_nat (sk_source_message_count key);
     us_summary := summary result; us_tokens_saved := N.of_nat (tokens_saved result) |}.

(** A failing read is taken for nothing read. *)
Definition apply_compaction (history : list StoredMessage) (session_id : string) : DB (list StoredMessage) :=
  let config := se_compaction settings in
  if negb (cg_enabled config) || (length history <? cg_message_count_threshold config) then mret history
  else match se_compactor settings with
  | None => mret history
  | Some compactor =>
      loaded ← catch (load_compaction_metadata session_id history);
      let metadata := match loaded with Ok m => m | Err _ => (λ _, default_metadata) <$> history end in
      let key := build_compaction_source_key history (cg_strategy config) metadata in
      now ← unix_now;
      let request := {| cr_messages := history; cr_strategy := cg_strategy config; cr_metadata := metadata;
                        cr_now_unix := Some now; cr_min_recent_messages := se_context_min_recent_messages settings |} in
      cached ← catch (on_memory (mb_load_compaction_summary memory session_id (sk_strategy key) (sk_source_hash key)));
      match cached with
      | Ok (Some record) => mret (compacted_messages (compact_with_summary now compactor request (sm_summary record)))
      | _ =>
          n ← tick;
          result ← lift_res (compact (turn_complete n) now compactor request);
          (if negb (is_blank (summary result)) && (0 <? tokens_saved result)
           then ignore_error (on_memory (mb_upsert_compaction_summary memory (summary_request session_id key result)))
           else mret tt) ;;
          mret (compacted_messages result)
      end
  end.

(** ** What is added to a history *)

Definition system_note (text : string) : StoredMessage := {| role := System; content := text |}.

Definition snapshot_skill_runtime : DB (option SkillRuntime) :=
  n ← tick; mret (if ks_enabled (kv_settings service_skills) then kv_runtime service_skills n else None).

Definition apply_skills_prompt (history : list StoredMessage) (query_text : string) : DB (list StoredMessage) :=
  runtime ← snapshot_skill_runtime;
  mret (match runtime with
        | None => history
        | Some runtime =>
            let settings := selection_settings (kv_settings service_skills) in
            match render_system_prompt (select runtime query_text settings) (ss_max_prompt_chars settings) with
            | Some prompt => history ++ [system_note prompt]
            | None => history
            end
        end).

Definition apply_evolution_policy (history : list StoredMessage) : DB (list StoredMessage) :=
  s ← get_db;
  mret (history ++
        match pl_policy s with
        | Some active => [system_note (render_evolution_policy_message (ap_candidate_id active) (ap_deployment_id active)
                                         (ap_prompt_patch active))]
        | None => []
        end).

(** The built-in clock, when MCP is enabled. *)
Definition current_time (hint : option TimezoneHint) : DB (option (res json)) :=
  if se_mcp settings then n ← tick; mret (Some (call_current_time n (build_builtin_time_tool_arguments hint)))
  else mret None.

Definition time_note (value : json) : StoredMessage :=
  system_note ("MCP_TOOL_RESULT_JSON:" +:+ newline +:+
    json_text_or ("{" +:+ dquoted "ok" +:+ ":false}")
      (json_object [("server", json_string "xiaomaolv_builtin"); ("tool", json_string "get_current_time");
                    ("ok", json_bool true); ("result", value)])).

Definition append_builtin_time_context_if_needed (history : list StoredMessage) (query_text : string)
    : DB (list StoredMessage) :=
  let user_text := extract_primary_user_text query_text in
  if negb (looks_like_time_query user_text) then mret history
  else
    r ← current_time (infer_timezone_from_time_query user_text);
    mret match r with Some (Ok value) => history ++ [time_note value] | _ => history end.

Definition try_answer_time_query_fast_path (query_text : string) : DB (option string) :=
  let user_text := extract_primary_user_text query_text in
  if negb (is_explicit_current_time_query user_text) then mret None
  else
    let hint := infer_timezone_from_time_query user_text in
    r ← current_time hint;
    mret match r with Some (Ok value) => Some (render_fast_time_answer json_as_i64 user_text value hint) | _ => None end.

(** ** Preparing a turn *)

Context (incoming : IncomingMessage).

Definition source_of : TurnSource :=
  {| to_session_id := im_session_id incoming; to_channel := im_channel incoming; to_user_id := im_user_id incoming |}.

Definition write_request (role : MessageRole) (text : string) : MemoryWriteRequest :=
  {| mw_session_id := im_session_id incoming; mw_user_id := im_user_id incoming; mw_channel := im_channel incoming;
     mw_message := {| role := role; content := text |} |}.

Definition context_request : MemoryContextRequest :=
  {| mq_session_id := im_session_id incoming; mq_user_id := im_user_id incoming; mq_channel := im_channel incoming;
     mq_query_text := im_text incoming; mq_max_recent_turns := se_max_recent_turns settings;
     mq_max_semantic_memories := se_max_semantic_memories settings;
     mq_semantic_lookback_days := se_semantic_lookback_days settings |}.

Definition verify_answer (history : list StoredMessage) (answer : string) : DB string :=
  on_turn (verify_final_answer result_text (se_turn settings) source_of history answer []).

Definition prepare_history : DB (list StoredMessage) :=
  history ← wrap_error "failed to load history" (on_memory (mb_load_context memory context_request));
  let config := se_compaction settings in
  history ← (if cg_enabled config && (cg_message_count_threshold config <=? length history) && is_some (se_compactor settings)
             then
               compacted ← catch (apply_compaction history (im_session_id incoming));
               mret match compacted with Ok h => h | Err _ => history end
             else mret history);
  let history := apply_context_budget history (se_context_window_tokens settings) (se_context_reserved_tokens settings)
                   (se_context_memory_budget_ratio settings) (se_context_min_recent_messages settings) in
  history ← apply_skills_prompt history (im_text incoming);
  history ← apply_evolution_policy history;
  append_builtin_time_context_if_needed history (im_text incoming).

Definition prepare_turn : DB PreparedTurn :=
  wrap_error "failed to persist user message" (on_memory (mb_append memory (write_request User (im_text incoming)))) ;;
  fast ← try_answer_time_query_fast_path (im_text incoming);
  match fast with
  | Some text => text ← verify_answer [{| role := User; content := im_text incoming |}] text; mret (Immediate text)
  | None =>
      history ← prepare_history;
      swarm ← on_swarm_part (try_swarm_reply drive eng swarm_settings (ts_logger (se_turn settings)) has_sender incoming history);
      match swarm with
      | Some swarm_text => text ← verify_answer history swarm_text; mret (Immediate text)
      | None => mret (Ready history)
      end
  end.

(** ** Answering *)

(** The tools of the turn; none when the servers cannot list them. *)
Definition offered_tools : DB (list McpToolInfo) :=
  if se_mcp settings then
    n ← tick; mret match list_tools n with Ok tools => tools | Err _ => [] end
  else mret [].

(** Code mode's attempt at a completion; a stream defers the end of its run. *)
Definition by_code_mode (stream : bool) (tools : list McpToolInfo) (history : list StoredMessage)
    : DB (option CodeModeCompletion) :=
  on_code (try_code_mode result_text (se_turn settings) source_of (se_code_mode settings) (se_code_mode_planner settings)
             history tools stream).

Definition complete_with_optional_mcp (history : list StoredMessage) : DB CompletionOutcome :=
  tools ← offered_tools;
  match tools with
  | [] =>
      text ← on_turn (complete_plain_provider (se_turn settings) source_of history);
      mret {| co_text := text; co_output_verified := false |}
  | _ =>
      code ← by_code_mode false tools history;
      match code with
      | Some completion => mret {| co_text := into_text completion; co_output_verified := true |}
      | None =>
          text ← on_turn (complete_with_mcp_loop result_text (se_turn settings) source_of PlainCompletion tools history);
          mret {| co_text := text; co_output_verified := true |}
      end
  end.

(** The answer of code mode is replayed before its run is finished. *)
Definition replay_completion (completion : CodeModeCompletion) : DB string :=
  match completion with
  | PendingStream text run =>
      shown ← catch (on_turn (replay_text text));
      match shown with
      | Err e => on_turn (on_turn_harness (finish_agent_run ExitInternalError run)) ;; throw e
      | Ok _ => on_turn (on_turn_harness (finish_agent_run (ExitFinalAnswer text) run)) ;; mret text
      end
  | Finished text => on_turn (replay_text text) ;; mret text
  end.

Definition complete_with_optional_mcp_stream (history : list StoredMessage) : DB string :=
  tools ← offered_tools;
  match tools with
  | [] => on_turn (complete_plain_provider_stream result_text (se_turn settings) source_of history)
  | _ =>
      code ← by_code_mode true tools history;
      match code with
      | Some completion => replay_completion completion
      | None => on_turn (complete_with_mcp_loop result_text (se_turn settings) source_of StreamedCompletion tools history)
      end
  end.

Definition persist_assistant_reply (text : string) : DB unit :=
  wrap_error "failed to persist assistant message" (on_memory (mb_append memory (write_request Assistant text))).

Definition reply (text : string) : DB OutgoingMessage :=
  persist_assistant_reply text ;;
  mret {| om_channel := im_channel incoming; om_session_id := im_session_id incoming; om_text := text |}.

Definition handle : DB OutgoingMessage :=
  prepared ← prepare_turn;
  match prepared with
  | Immediate text => reply text
  | Ready history =>
      completion ← complete_with_optional_mcp history;
      text ← (if co_output_verified completion then mret (co_text completion)
              else verify_answer history (co_text completion));
      reply text
  end.

Definition handle_stream : DB OutgoingMessage :=
  prepared ← prepare_turn;
  match prepared with
  | Immediate text =>
      (if String.eqb text "" then mret tt else on_turn (show text)) ;;
      reply text
  | Ready history =>
      text ← wrap_error "failed to process streaming completion with optional mcp"
               (complete_with_optional_mcp_stream history);
      reply text
  end.
End pipeline.
