(* ===== verification/TurnFacts.v ===== *)
(** * What a turn leaves behind

    Theorems about the pipeline of Turn.v: what of a turn is on record in the memory,
    whichever backend keeps it; that under an enforcing output verification nobody sees an
    unverified answer; and what the key of a stored compaction stands for. *)

From S2P Require Import Prelude Text Strings Messages External Verifier OutputExit Domain Handlers MemBase Conversation Compactor.
From S2P Require Import TrajStore EvoDomain Harness RunLog SwarmAudit Swarm SwarmDurable Worker Engine ContextBudget TimeQuery.
From S2P Require Import ToolLoop ToolLoopFacts CodeMode CodeModeFacts Recall Sidecar Turn.
From stdpp Require Import pretty.
From Stdlib Require Import Ascii.

(** ** What a memory promises *)

(** A backend keeps a log for each session: a message that was stored is at its end, one
    that was not may be, and nothing else is; the other operations leave the logs alone. *)
Class MemoryPromise {S} (B : MemoryBackend S) : Type := {
  session_log : string → S → list StoredMessage;
  promise_append req s :
    wp (mb_append B req) (λ r s', ∃ stored : bool, (is_ok r = true → stored = true) ∧
      ∀ session, session_log session s' = session_log session s ++
        (if stored && String.eqb (mw_session_id req) session then [mw_message req] else [])) s;
  promise_context req s :
    wp (mb_load_context B req) (λ _ s', ∀ session, session_log session s' = session_log session s) s;
  promise_records id limit s :
    wp (mb_load_recent_records B id limit) (λ _ s', ∀ session, session_log session s' = session_log session s) s;
  promise_summary id strategy hash s :
    wp (mb_load_compaction_summary B id strategy hash) (λ _ s', ∀ session, session_log session s' = session_log session s) s;
  promise_upsert req s :
    wp (mb_upsert_compaction_summary B req) (λ _ s', ∀ session, session_log session s' = session_log session s) s
}.

(** *** The SQLite backend keeps it *)

Definition same_logs (s s' : ConvDb) : Prop := ∀ session, session_messages session s' = session_messages session s.

#[local] Instance same_logs_preorder : PreOrder same_logs.
Proof. split; [done|]. intros a b c H1 H2 session. by rewrite H2, H1. Qed.

Section sqlite.
  Context `{CLK : Clock} `{ME : MemoryEnv}.

Lemma recent_same session limit : stable same_logs (recent_rows session limit).
Proof. unfold recent_rows. stable_go. Qed.

#[local] Hint Resolve recent_same : stab.

Lemma collect_same req topk limit min_score : stable same_logs (collect_local_keyword_candidates req topk limit min_score).
Proof.
  unfold collect_local_keyword_candidates, load_chunk_candidates. stable_go.
Qed.

Lemma upsert_same req : stable same_logs (upsert_compaction_summary req).
Proof.
  unfold upsert_compaction_summary. stable_go. apply stable_sql_upsert; [typeclasses eauto|]. done.
Qed.

#[local] Hint Resolve collect_same upsert_same : stab.

(** A relation that the rest of a computation keeps carries what was known over. *)
Lemma logged_then (rest : M ConvDb unit) id message s0 s :
  stable same_logs rest →
  (∀ session, session_messages session s = session_messages session s0 ++ (if String.eqb id session then [message] else [])) →
  wp rest (λ r s', ∃ stored : bool, (is_ok r = true → stored = true) ∧ ∀ session, session_messages session s' =
    session_messages session s0 ++ (if stored && String.eqb id session then [message] else [])) s.
Proof.
  intros Hr H. eapply wp_mono; [by apply (wp_of_stable same_logs)|]. cbv beta. intros r s' Hs. exists true.
  split; [done|]. intros session. by rewrite Hs, H.
Qed.

#[export] Instance sqlite_promise `{HO : HashOrder} : MemoryPromise SqliteMemoryBackend.
Proof.
  refine {| session_log := session_messages |}; cbn [SqliteMemoryBackend mb_append mb_load_context mb_load_recent_records
    mb_load_compaction_summary mb_upsert_compaction_summary]; intros *.
  - unfold sqlite_append. wp_step. eapply wp_mono; [apply append_logs|]. cbv beta. intros r s1 [-> H].
    apply logged_then; [|exact H]. unfold append_chunk. stable_go. by apply stable_sql_replace.
  - apply (wp_of_stable same_logs). unfold sqlite_load_context, load_recent. stable_go.
  - apply (wp_of_stable same_logs). unfold load_recent_records. stable_go.
  - apply (wp_of_stable same_logs). unfold load_compaction_summary. stable_go.
  - apply (wp_of_stable same_logs), upsert_same.
Defined.
End sqlite.

(** *** So does the hybrid one *)

Section hybrid.
  Context `{CLK : Clock} `{ME : MemoryEnv} `{SS : SidecarService} `{DJ : DocJson}.

Definition same_hybrid_logs (s s' : HybridState) : Prop := same_logs (hy_conv s) (hy_conv s').

#[local] Instance same_hybrid_logs_preorder : PreOrder same_hybrid_logs.
Proof. split; [done|]. intros a b c H1 H2 session. by rewrite (H2 session), (H1 session). Qed.

Lemma conv_same {A} (m : M ConvDb A) : stable same_logs m → stable same_hybrid_logs (on_conv m).
Proof. intros H. by apply stable_zoom with (R := same_logs). Qed.

#[local] Hint Resolve collect_same upsert_same recent_same : stab.
#[local] Hint Extern 1 (stable same_hybrid_logs (on_conv _)) => apply conv_same : stab.

Lemma spawn_same id doc : stable same_hybrid_logs (spawn_upsert id doc).
Proof. by intros w session. Qed.

Lemma query_same cfg req : stable same_hybrid_logs (sidecar_query cfg req).
Proof. unfold sidecar_query. cbv zeta. stable_go. Qed.

Lemma hits_same query min_score hits : stable same_hybrid_logs (hit_candidates query min_score hits).
Proof. induction hits; cbn [hit_candidates]; cbv zeta; stable_go; done. Qed.

#[local] Hint Resolve spawn_same query_same hits_same : stab.

#[export] Instance hybrid_promise `{HO : HashOrder} cfg options : MemoryPromise (HybridSqliteZvecMemoryBackend cfg options).
Proof.
  refine {| session_log := λ session s, session_messages session (hy_conv s) |};
    cbn [HybridSqliteZvecMemoryBackend mb_append mb_load_context mb_load_recent_records
    mb_load_compaction_summary mb_upsert_compaction_summary]; intros *.
  - unfold hybrid_append. wp_step. apply wp_zoom. eapply wp_mono; [apply append_logs|]. cbv beta. intros r s1 [-> H].
    eapply wp_mono.
    + apply (wp_of_stable same_hybrid_logs). unfold append_chunk_and_outbox. cbv zeta. stable_go.
      apply conv_same. stable_go; by apply stable_sql_replace.
    + cbv beta. intros r s' Hs. exists true. split; [done|]. intros session. by rewrite Hs, H.
  - apply (wp_of_stable same_hybrid_logs). unfold hybrid_load_context. cbv zeta. stable_go.
    + apply conv_same. unfold load_recent. stable_go.
  - apply (wp_of_stable same_hybrid_logs), conv_same. unfold load_recent_records. stable_go.
  - apply (wp_of_stable same_hybrid_logs), conv_same. unfold load_compaction_summary. stable_go.
  - apply (wp_of_stable same_hybrid_logs), conv_same, upsert_same.
Defined.
End hybrid.

(** ** The key of a stored compaction *)

Lemma id_text_inj o o' : id_text o = id_text o' → o = o'.
Proof.
  assert (H : ∀ z : Z, pretty z ≠ "").
  { intros [|p|p]; [done| |done]. apply (pretty_nonempty (N.pos p)). }
  destruct o as [z|], o' as [z'|]; cbn; [by intros ->%(inj pretty)|by intros ?%H|by intros []%eq_sym%H|done].
Qed.

(** *** Fields *)

Lemma bytes_inj s t : bytes s = bytes t → s = t.
Proof. intros H. by rewrite <- (of_bytes_bytes s), H, of_bytes_bytes. Qed.

(** Behind digits another character ends the number. *)
Lemma number_ends (stop : ascii) (n m : nat) x y :
  stop ∉ bytes "0123456789" → bytes (pretty n) ++ stop :: x = bytes (pretty m) ++ stop :: y → n = m ∧ x = y.
Proof.
  intros Hstop. pose proof (pretty_digits n) as Hn. pose proof (pretty_digits m) as Hm. unfold digits in *.
  intros H. assert (bytes (pretty n) = bytes (pretty m) ∧ x = y) as [He ->].
  - revert Hn Hm H. generalize (bytes (pretty n)), (bytes (pretty m)). intros l. induction l as [|a l IH]; intros [|b k] Hl Hk.
    + by intros [= ->].
    + intros [= <- _]. by apply Forall_cons in Hk as [? _].
    + intros [= -> _]. by apply Forall_cons in Hl as [? _].
    + apply Forall_cons in Hl as [_ Hl]. apply Forall_cons in Hk as [_ Hk]. intros [= -> H].
      by destruct (IH k Hl Hk H) as [-> ->].
  - split; [|done]. by apply bytes_inj, (inj pretty) in He.
Qed.

Lemma nul_no_digit : nul ∉ bytes "0123456789".
Proof. by apply (bool_decide_eq_true_1 _). Qed.

Lemma colon_no_digit : ":"%char ∉ bytes "0123456789".
Proof. by apply (bool_decide_eq_true_1 _). Qed.

Lemma hash_field_inj label v v' x y : hash_field label v ++ x = hash_field label v' ++ y → v = v' ∧ x = y.
Proof.
  unfold hash_field. rewrite <- !app_assoc. cbn. intros [= H]%app_inv_head. apply (number_ends _ _ _ _ _ nul_no_digit) in H as [Hl H].
  apply app_inj_1 in H as [Hv [= ->]]; [|by rewrite !bytes_length, Hl].
  split; [by apply bytes_inj|done].
Qed.

Lemma role_text_inj r r' : role_as_str r = role_as_str r' → r = r'.
Proof. by destruct r, r'. Qed.

Lemma message_fields_inj m m' x y : message_fields m ++ x = message_fields m' ++ y → m = m' ∧ x = y.
Proof.
  unfold message_fields. rewrite <- !app_assoc. intros [Hr [Hc ->]%hash_field_inj]%hash_field_inj. split; [|done].
  apply role_text_inj in Hr. destruct m, m'. by simplify_eq/=.
Qed.

Lemma metadata_fields_inj m m' x y : metadata_fields m ++ x = metadata_fields m' ++ y → m = m' ∧ x = y.
Proof.
  unfold metadata_fields. rewrite <- !app_assoc. intros [Hr%id_text_inj [Hc%id_text_inj ->]%hash_field_inj]%hash_field_inj.
  split; [|done]. destruct m, m'. by simplify_eq/=.
Qed.

Lemma messages_inj l l' x y :
  length l = length l' → concat (message_fields <$> l) ++ x = concat (message_fields <$> l') ++ y → l = l' ∧ x = y.
Proof.
  revert l'. induction l as [|m l IH]; intros [|m' l']; rewrite ?fmap_cons; cbn [concat]; try done. intros [= Hl]. rewrite <- !app_assoc.
  intros [-> H]%message_fields_inj. by apply IH in H as [-> ->].
Qed.

Lemma metadata_inj l l' : concat (metadata_fields <$> l) = concat (metadata_fields <$> l') → l = l'.
Proof.
  revert l'. induction l as [|m l IH]; intros [|m' l']; rewrite ?fmap_cons; cbn [concat]; try done. intros [-> H]%metadata_fields_inj. by rewrite (IH l' H).
Qed.

Lemma strategy_name_inj s s' : compaction_strategy_name s = compaction_strategy_name s' → s = s'.
Proof.
  destruct s as [h t|d|b], s' as [h' t'|d'|b']; cbn; try done; intros [= H].
  - apply (f_equal bytes) in H. rewrite !bytes_app in H. cbn in H. apply (number_ends _ _ _ _ _ colon_no_digit) in H as [-> H].
    apply bytes_inj, (inj pretty) in H. by subst.
  - apply (inj pretty d d') in H. by subst.
  - apply (inj pretty b b') in H. by subst.
Qed.

Lemma source_bytes_inj h s m h' s' m' : source_bytes h s m = source_bytes h' s' m' → h = h' ∧ s = s' ∧ m = m'.
Proof.
  unfold source_bytes. intros [Hs%strategy_name_inj [Hl%(inj pretty) H]%hash_field_inj]%hash_field_inj.
  apply messages_inj in H as [-> Hm%metadata_inj]; done.
Qed.

(** *** Digests *)

(** The bytes of a text of hexadecimal digits. *)
Definition hex_value (a : ascii) : N :=
  let n := Ascii.N_of_ascii a in if (n <? 58)%N then n - 48 else n - 87.

Fixpoint unhex (s : string) : list ascii :=
  match s with
  | String a (String b s') => Ascii.ascii_of_N (hex_value a * 16 + hex_value b) :: unhex s'
  | _ => []
  end.

Lemma unhex_hex l : unhex (foldr (λ b acc, hex2 (Ascii.N_of_ascii b) +:+ acc) "" l) = l.
Proof.
  induction l as [|a l IH]; [done|]. cbn [foldr]. set (t := foldr _ _ l) in *. clearbody t.
  transitivity (a :: unhex t); [|by rewrite IH]. clear IH. destruct a as [[] [] [] [] [] [] [] []]; reflexivity.
Qed.

(** Roundtrip: the hash under which a compaction is stored stands for its source: two
    sources with the same hash are the same strategy with the same numbers, the same
    messages in the same order and the same ids and times of their rows - or SHA-256 has
    a collision.  So a stored summary is never put in place of other messages. *)
Theorem source_hash_identifies_the_source `{SHA : Sha256} history strategy metadata history' strategy' metadata' :
  sk_source_hash (build_compaction_source_key history strategy metadata) =
  sk_source_hash (build_compaction_source_key history' strategy' metadata') →
  (history = history' ∧ strategy = strategy' ∧ metadata = metadata') ∨
  ∃ b b', b ≠ b' ∧ sha256_digest b = sha256_digest b'.
Proof.
  cbn [build_compaction_source_key sk_source_hash]. intros H. apply (f_equal unhex) in H. unfold sha256_hex in H. rewrite !unhex_hex, !bytes_of_bytes in H.
  destruct (decide (source_bytes history strategy metadata = source_bytes history' strategy' metadata')) as [He|Hne].
  - left. by apply source_bytes_inj.
  - right. by exists (source_bytes history strategy metadata), (source_bytes history' strategy' metadata').
Qed.

(** ** The turn *)

Section turn.
  Context `{ENV : LoopEnv} `{DT : DateTimes} `{JP : !JsonParse} `{TV : !ToValue VerificationResult} `{JC : !JsonConfidence}.
  Context `{SLJ : Serialize (list json)} `{PV : TurnProvider} `{RT : !ToolRuntime} `{SR : StreamReceiver}.
  Context `{NP : NodeProvider} `{SP : SwarmProvider} `{FP : !FromValue SwarmNodePlanEnvelope} `{FI : !FromValue SwarmNodeInput}.
  Context `{FD : !FromValue SwarmActivationDecision} `{MS : !McpServers} `{PF : ParseF32}.
  Context `{SJ : !SandboxJson} `{CH : CodeModeHost} `{SER : !Serialize CodeModeExecutionReport}.
  Context (result_text : OutputVerificationResult → option string) (json_as_i64 : json → option Z).
  Context {S : Type} (memory : MemoryBackend S) `{MP : !MemoryPromise memory} (settings : PipelineSettings).
  Context (drive : LoopWorker → string → nat → nat → M SwarmState (option (res ResumeReport))).
  Context (eng : option LoopEngine) (swarm_settings : AgentSwarmSettings) (has_sender : bool).
  Context (service_skills : ServiceSkills) (incoming : IncomingMessage).
  Implicit Types s : PipelineState S.

Abbreviation prepare_turn := (prepare_turn result_text json_as_i64 memory settings drive eng swarm_settings has_sender
  service_skills incoming).
Abbreviation handle := (handle result_text json_as_i64 memory settings drive eng swarm_settings has_sender
  service_skills incoming).
Abbreviation handle_stream := (handle_stream result_text json_as_i64 memory settings drive eng swarm_settings has_sender
  service_skills incoming).

(** *** The record *)

(** The logs grew by some messages of the session. *)
Definition logged (added : list StoredMessage) s s' : Prop :=
  ∀ session, session_log session (pl_memory s') =
    session_log session (pl_memory s) ++ (if String.eqb (im_session_id incoming) session then added else []).

Lemma logged_trans a b s s1 s2 : logged a s s1 → logged b s1 s2 → logged (a ++ b) s s2.
Proof.
  intros H1 H2 session. rewrite H2, H1, <- app_assoc. f_equal. by destruct (String.eqb _ _).
Qed.

#[local] Instance logged_nothing : PreOrder (logged []).
Proof.
  split.
  - intros s session. destruct (String.eqb _ _); by rewrite app_nil_r.
  - intros a b c H1 H2. exact (logged_trans [] [] a b c H1 H2).
Qed.

Lemma on_turn_logs {A} (m : M TurnState A) : stable (logged []) (on_turn m).
Proof.
  apply stable_zoom with (R := λ _ _, True); [|by intros w]. intros t s' _ session.
  destruct (String.eqb _ _); by rewrite app_nil_r.
Qed.

Lemma on_swarm_logs {A} (m : M SwarmState A) : stable (logged []) (on_swarm_part m).
Proof.
  apply stable_zoom with (R := λ _ _, True); [|by intros w]. intros t s' _ session.
  destruct (String.eqb _ _); by rewrite app_nil_r.
Qed.

Lemma on_memory_logs {A} (m : M S A) :
  (∀ k, wp m (λ _ k', ∀ session, session_log session k' = session_log session k) k) → stable (logged []) (on_memory m).
Proof.
  intros H. apply stable_zoom with (R := λ k k', ∀ session, session_log session k' = session_log session k).
  - intros s k Hs session. rewrite <- (Hs session). destruct (String.eqb _ _); by rewrite app_nil_r.
  - by apply stable_of_wp.
Qed.

Lemma on_code_logs {A} (m : M CodeModeState A) : stable (logged []) (on_code m).
Proof.
  apply stable_zoom with (R := λ _ _, True); [|by intros w]. intros t s' _ session.
  destruct (String.eqb _ _); by rewrite app_nil_r.
Qed.

#[local] Hint Resolve on_turn_logs on_swarm_logs on_code_logs : stab.
#[local] Hint Extern 1 (stable (logged []) (on_memory _)) => apply on_memory_logs; intros;
  first [apply promise_context | apply promise_records | apply promise_summary | apply promise_upsert] : stab.
#[local] Hint Extern 1 (stable (logged []) (wrap_error _ _)) => apply stable_wrap_error; stable_go : stab.

Lemma apply_compaction_logs history id : stable (logged []) (apply_compaction memory settings history id).
Proof. unfold apply_compaction, load_compaction_metadata. cbv zeta. stable_go. Qed.

Lemma current_time_logs hint : stable (logged []) (current_time settings hint).
Proof. unfold current_time. stable_go. Qed.

#[local] Hint Resolve apply_compaction_logs current_time_logs : stab.

Lemma prepare_history_logs : stable (logged []) (prepare_history memory settings service_skills incoming).
Proof.
  unfold prepare_history, apply_skills_prompt, snapshot_skill_runtime, apply_evolution_policy, append_builtin_time_context_if_needed.
  cbv zeta. stable_go.
Qed.

Lemma fast_path_logs text : stable (logged []) (try_answer_time_query_fast_path json_as_i64 settings text).
Proof. unfold try_answer_time_query_fast_path. cbv zeta. stable_go. Qed.

Lemma completing_logs history :
  stable (logged []) (complete_with_optional_mcp result_text settings incoming history) ∧
  stable (logged []) (complete_with_optional_mcp_stream result_text settings incoming history).
Proof.
  unfold complete_with_optional_mcp, complete_with_optional_mcp_stream, offered_tools, by_code_mode, replay_completion.
  split; stable_go.
Qed.

Lemma wp_stored role text s :
  wp (on_memory (mb_append memory (write_request incoming role text)))
     (λ r s', ∃ stored : bool, (is_ok r = true → stored = true) ∧
        logged (if stored then [{| role := role; content := text |}] else []) s s') s.
Proof.
  apply wp_zoom. eapply wp_mono; [apply promise_append|]. cbv beta. intros r k (stored & Hr & H). exists stored.
  split; [done|]. intros session. etrans; [exact (H session)|]. cbn [write_request mw_session_id mw_message].
  by destruct stored, (String.eqb _ _).
Qed.

(** The messages of the user and of the assistant. *)
Definition of_user : StoredMessage := {| role := User; content := im_text incoming |}.
Definition of_assistant (text : string) : StoredMessage := {| role := Assistant; content := text |}.

Lemma wp_prepared s :
  wp prepare_turn (λ r s', ∃ stored : bool, (is_ok r = true → stored = true) ∧
    logged (if stored then [of_user] else []) s s') s.
Proof.
  unfold Turn.prepare_turn. wp_step. apply wp_wrap_error. eapply wp_mono; [apply wp_stored|]. cbv beta.
  intros [[]|e] s1 (stored & Hr & Hs1); [|by exists stored]. rewrite (Hr eq_refl) in Hs1.
  eapply wp_mono; [apply (wp_of_stable (logged []))|].
  - pose proof (fast_path_logs (im_text incoming)). pose proof prepare_history_logs. unfold verify_answer. stable_go.
  - cbv beta. intros r s2 Hs2. exists true. split; [done|]. exact (logged_trans [of_user] [] _ _ _ Hs1 Hs2).
Qed.

Lemma wp_reply text s :
  wp (reply memory incoming text) (λ r s', match r with
    | Ok out => om_text out = text ∧ om_session_id out = im_session_id incoming ∧ logged [of_assistant text] s s'
    | Err _ => logged [] s s' ∨ logged [of_assistant text] s s'
    end) s.
Proof.
  unfold reply, persist_assistant_reply. wp_step. apply wp_wrap_error. eapply wp_mono; [apply wp_stored|]. cbv beta.
  intros [[]|e] s1 ([] & Hr & Hs); [by wp_step|by discriminate (Hr eq_refl)|by right|by left].
Qed.

(** What of a turn is in the log of its session. *)
Definition on_record (r : res OutgoingMessage) (added : list StoredMessage) : Prop :=
  match r with
  | Ok out => om_session_id out = im_session_id incoming ∧ added = [of_user; of_assistant (om_text out)]
  | Err _ => ∃ text, added `prefix_of` [of_user; of_assistant text]
  end.

Definition recorded s (r : res OutgoingMessage) s' : Prop := ∃ added, logged added s s' ∧ on_record r added.

Lemma nothing_recorded e s s' : logged [of_user] s s' → recorded s (Err e) s'.
Proof. intros H. exists [of_user]. split; [done|]. exists "". by exists [of_assistant ""]. Qed.

Lemma reply_recorded s text s1 : logged [of_user] s s1 → wp (reply memory incoming text) (λ r s', recorded s r s') s1.
Proof.
  intros H1. eapply wp_mono; [apply wp_reply|]. cbv beta. intros [out|e] s2.
  - intros (<- & H2 & H3). exists [of_user; of_assistant (om_text out)]. split; [|done].
    exact (logged_trans [of_user] _ _ _ _ H1 H3).
  - intros [H2|H2]; [by apply nothing_recorded, (logged_trans [of_user] [] _ s1)|].
    exists [of_user; of_assistant text]. split; [exact (logged_trans [of_user] _ _ _ _ H1 H2)|by exists text].
Qed.

(** Whatever answers, the reply to it is recorded behind the user's message. *)
Lemma then_reply (answer : M (PipelineState S) string) s s1 :
  logged [of_user] s s1 → stable (logged []) answer →
  wp (text ← answer; reply memory incoming text) (λ r s', recorded s r s') s1.
Proof.
  intros H1 Ha. eapply (wp_bind_stable (logged [])); [exact Ha|intros e s2 H2|intros text s2 H2].
  - by apply nothing_recorded, (logged_trans [of_user] [] _ s1).
  - apply reply_recorded, (logged_trans [of_user] [] _ s1); done.
Qed.

(** C30: Functional: a turn, streamed or not, is on record in any memory that keeps its
    promise: when it answers, the log of its session grew by the user's message and then
    exactly the text of the answer; when it fails, by nothing more than a beginning of
    such a pair; and no other session's log changed - whatever the provider, the servers,
    the swarm and the receiver did. *)
Theorem turn_is_on_record s :
  wp handle (λ r s', recorded s r s') s ∧ wp handle_stream (λ r s', recorded s r s') s.
Proof.
  assert (Hnot : ∀ e s' stored, logged (if stored : bool then [of_user] else []) s s' → recorded s (Err e) s').
  { intros e s' [] H; [by apply nothing_recorded|]. exists []. split; [done|]. exists "". apply prefix_nil. }
  split; [unfold Turn.handle|unfold Turn.handle_stream]; wp_step; (eapply wp_mono; [apply wp_prepared|]); cbv beta;
    intros [prepared|e] s1 (stored & Hr & Hs); try (by eapply Hnot); rewrite (Hr eq_refl) in Hs;
    destruct prepared as [text|history].
  - by apply reply_recorded.
  - eapply (wp_bind_stable (logged [])); [apply completing_logs|intros e s2 H2|intros completion s2 H2].
    + by apply nothing_recorded, (logged_trans [of_user] [] _ s1).
    + apply then_reply; [by apply (logged_trans [of_user] [] _ s1)|]. unfold verify_answer. stable_go.
  - eapply (wp_bind_stable (logged [])); [stable_go|intros e s2 H2|intros u s2 H2].
    + by apply nothing_recorded, (logged_trans [of_user] [] _ s1).
    + by apply reply_recorded, (logged_trans [of_user] [] _ s1).
  - apply then_reply; [done|]. apply stable_wrap_error, completing_logs.
Qed.

(** *** The answers *)

(** What the turns called and showed. *)
Definition same_calls s s' : Prop := pl_called s' = pl_called s ∧ pl_shown s' = pl_shown s.

#[local] Instance same_calls_preorder : PreOrder same_calls.
Proof. split; [done|]. intros a b c [H1 H2] [H3 H4]. split; congruence. Qed.

Lemma on_memory_calls {A} (m : M S A) : stable same_calls (on_memory m).
Proof. apply stable_zoom with (R := λ _ _, True); [done|by intros w]. Qed.

Lemma on_swarm_calls {A} (m : M SwarmState A) : stable same_calls (on_swarm_part m).
Proof. apply stable_zoom with (R := λ _ _, True); [done|by intros w]. Qed.

#[local] Hint Resolve on_memory_calls on_swarm_calls : stab.
#[local] Hint Extern 1 (stable same_calls (wrap_error _ _)) => apply stable_wrap_error; stable_go : stab.

Lemma prepare_history_calls : stable same_calls (prepare_history memory settings service_skills incoming).
Proof.
  unfold prepare_history, apply_compaction, load_compaction_metadata, apply_skills_prompt, snapshot_skill_runtime, apply_evolution_policy,
    append_builtin_time_context_if_needed, current_time.
  cbv zeta. stable_go.
Qed.

Lemma fast_path_calls text : stable same_calls (try_answer_time_query_fast_path json_as_i64 settings text).
Proof. unfold try_answer_time_query_fast_path, current_time. cbv zeta. stable_go. Qed.

Lemma offered_tools_calls : stable same_calls (offered_tools (S := S) settings).
Proof. unfold offered_tools. stable_go. Qed.

Lemma reply_calls text : stable same_calls (reply memory incoming text).
Proof. unfold reply, persist_assistant_reply. stable_go. Qed.

(** The output verification is enforced. *)
Definition enforced : Prop :=
  ts_output_verifier (se_turn settings) = true ∧
  (ts_output_mode (se_turn settings) = Block ∨ ts_output_mode (se_turn settings) = ReviseOnce).

Abbreviation trusted := (trusted (source_of incoming)).
Abbreviation joined := (foldr String.append "").

(** The tool calls executed and the deltas shown on the way to a result, with the record of how
    each call ended, those of code mode aside; [all] tells a stream from an answer that shows
    nothing on its way. *)
Definition answered (all : bool) (r : res string) s s' : Prop :=
  ∃ aside called calls shown,
    pl_called s' = pl_called s ++ aside ++ called ∧ (cm_enabled (se_code_mode settings) = false → aside = []) ∧
    calls_on_record (se_turn settings) called calls ∧
    pl_shown s' = pl_shown s ++ shown ∧
    match r with
    | Ok text => trusted calls text ∧ (if all then joined shown = text else shown = [])
    | Err _ => shown = [] ∨ all = true ∧ ∃ text rest, trusted calls text ∧ joined (shown ++ rest) = text
    end.

(** Nothing was shown, and only code mode called tools. *)
Definition before s s' : Prop :=
  pl_shown s' = pl_shown s ∧
  ∃ aside, pl_called s' = pl_called s ++ aside ∧ (cm_enabled (se_code_mode settings) = false → aside = []).

Lemma same_before s s' : same_calls s s' → before s s'.
Proof. intros [H1 H2]. split; [done|]. exists []. by rewrite app_nil_r. Qed.

#[local] Instance before_preorder : PreOrder before.
Proof.
  split; [intros s; by apply same_before|]. intros a b c [H1 (l & Hl & El)] [H2 (k & Hk & Ek)].
  split; [congruence|]. exists (l ++ k). split; [by rewrite Hk, Hl, app_assoc|]. intros H. by rewrite El, Ek.
Qed.

#[local] Hint Resolve same_before : core.

Lemma answered_before all r s s1 s' : before s s1 → answered all r s1 s' → answered all r s s'.
Proof.
  intros [H2 (l & H1 & Hl)] (aside & called & calls & shown & E1 & E2 & E3 & E4 & E5).
  rewrite H1, <- app_assoc in E1. rewrite H2 in E4. exists (l ++ aside), called, calls, shown. rewrite <- app_assoc.
  split; [done|]. split; [|done]. intros H. by rewrite Hl, E2.
Qed.

Lemma failed_before all e s s' : before s s' → answered all (Err e) s s'.
Proof.
  intros [H2 (l & H1 & Hl)]. exists l, [], [], []. rewrite !app_nil_r. do 2 (split; [done|]).
  split; [apply calls_on_record_nil|]. split; [done|by left].
Qed.

(** An answer that was verified before anything of it is shown. *)
Lemma answered_vouched text calls s s1 : before s s1 → trusted calls text → answered false (Ok text) s s1.
Proof.
  intros [H2 (l & H1 & Hl)] Ht. exists l, [], calls, []. rewrite !app_nil_r. do 2 (split; [done|]).
  split; [apply calls_on_record_nil|]. by split.
Qed.

Lemma wp_verify_answer history answer s :
  enforced →
  wp (verify_answer result_text settings incoming history answer)
     (λ r s', same_calls s s' ∧ if r is Ok text then trusted [] text else True) s.
Proof.
  intros [He1 He2]. apply wp_zoom. eapply wp_mono; [apply wp_verify with (tools := [])|].
  cbv beta. intros r t ([_ (called & records & H1 & H2 & _ & H4 & _) H3] & H).
  destruct records; [|done]. apply calls_on_record_length in H4. destruct called; [|cbn in H4; lia]. rewrite app_nil_r in H1, H3.
  split; [by split|]. destruct r as [text|]; [|done]. by eapply let_out_trusted.
Qed.

Context `{JL : !JsonLaws}.

Definition streams (kind : completion_kind) : bool :=
  match kind with PlainCompletion => false | StreamedCompletion => true end.

(** How a turn ended, in the whole state. *)
Lemma ended_answered kind tools asks rounds s t r t' :
  enforced → tn_called t = pl_called s → tn_shown t = pl_shown s →
  ended result_text (se_turn settings) (source_of incoming) kind tools asks rounds [] t r t' →
  match r with
  | Ok (_, result) => wp (lift_res result) (λ r t', answered (streams kind) r s (put_turn t' s)) t'
  | Err e => answered (streams kind) (Err e) s (put_turn t' s)
  end.
Proof.
  intros [He1 He2] Hc Hs (called & calls & shown & H1 & H2 & H3 & H4)%ended_shown; [|done..]. rewrite Hc in H1.
  rewrite Hs in H3. destruct r as [[run [text|e]]|e]; cbv beta iota in H4 |- *; try wp_step; exists [], called, calls, shown; do 4 (split; [done|]).
  - destruct H4 as (Ht & Hj & Hp). split; [done|]. destruct kind; [by apply Hp|by apply Hj].
  - destruct H4 as [->|[-> H4]]; [by left|by right].
  - destruct H4 as [->|[-> H4]]; [by left|by right].
Qed.

Lemma wp_looped kind tools history s :
  enforced →
  wp (on_turn (complete_with_mcp_loop result_text (se_turn settings) (source_of incoming) kind tools history))
     (λ r s', answered (streams kind) r s s') s.
Proof.
  intros He. apply wp_zoom. unfold complete_with_mcp_loop. wp_step. eapply wp_mono; [by apply wp_mcp_loop|]. cbv beta.
  intros r t' [H|[-> ->]]; [|by apply failed_before, same_before]. eapply ended_answered in H; [|done..].
  by destruct r as [[run out]|e].
Qed.

Lemma wp_plain_stream history s :
  enforced →
  wp (on_turn (complete_plain_provider_stream result_text (se_turn settings) (source_of incoming) history))
     (λ r s', answered true r s s') s.
Proof.
  intros He. unfold complete_plain_provider_stream. apply wp_zoom. wp_step. apply wp_on_harness; [apply start_infallible|].
  intros run t (_ & Hc & Hs).
  assert (H : wp ('(_, result) ← last_request result_text (se_turn settings) (source_of incoming) StreamedCompletion
      ExitFinalAnswer "" "" history [] run; lift_res result) (λ r t', answered true r s (put_turn t' s)) t).
  { wp_step. eapply wp_mono; [apply wp_last_request with (tools := [])|]. cbv beta. intros r t' H.
    apply (ended_answered _ _ _ _ s t) in H; [|done..]. by destruct r as [[run' out]|e]. }
  destruct He as [_ [He|He]]; rewrite He; exact H.
Qed.

(** A completion without tools calls and shows nothing. *)
Lemma plain_calls history : stable same_calls (on_turn (S := S) (complete_plain_provider (se_turn settings) (source_of incoming) history)).
Proof.
  apply stable_zoom with (R := λ t t', tn_called t' = tn_called t ∧ tn_shown t' = tn_shown t); [done|].
  set (R := λ t t' : TurnState, _). assert (PreOrder R).
  { split; [done|]. intros a b c [H1 H2] [H3 H4]. split; congruence. }
  assert (Hh : ∀ A (m : M HarnessDb A), stable R (on_turn_harness m)).
  { intros A m. apply stable_zoom with (R := λ _ _, True); [done|by intros w]. }
  assert (Hn : ∀ messages, stable R (note_asked messages)) by by intros messages w.
  unfold complete_plain_provider, complete_provider_for_run, finish_with. stable_go; done.
Qed.

(** An answer on its way: what is known of it, and that nothing was called or shown yet. *)
Lemma wp_prepared_answer s :
  enforced →
  wp prepare_turn (λ r s', same_calls s s' ∧ if r is Ok (Immediate text) then trusted [] text else True) s.
Proof.
  intros He. assert (Hv : ∀ history answer s0, same_calls s s0 →
    wp (text ← verify_answer result_text settings incoming history answer; mret (Immediate text))
       (λ r s', same_calls s s' ∧ if r is Ok (Immediate text) then trusted [] text else True) s0).
  { intros history answer s0 Hs0. wp_step. eapply wp_mono; [by apply wp_verify_answer|]. cbv beta.
    intros [text|e] s' [Hs' Ht]; [wp_step|]; (split; [by etrans|done]). }
  unfold Turn.prepare_turn. eapply (wp_bind_stable same_calls); [stable_go|by split|intros u s1 H1].
  eapply (wp_bind_stable same_calls); [apply fast_path_calls|intros e s2 H2; split; [by etrans|done]|intros fast s2 H2].
  assert (H02 : same_calls s s2) by by etrans. clear H1 H2. destruct fast as [text|]; [by apply Hv|].
  eapply (wp_bind_stable same_calls); [apply prepare_history_calls|intros e s3 H3; split; [by etrans|done]|intros history s3 H3].
  eapply (wp_bind_stable same_calls); [stable_go|intros e s4 H4; split; [|done]|intros swarm s4 H4].
  - by do 2 (etrans; [done|]).
  - assert (H04 : same_calls s s4) by by do 2 (etrans; [done|]).
    destruct swarm as [text|]; [by apply Hv|]. wp_step. by split.
Qed.

Definition answer_text (r : res OutgoingMessage) : res string :=
  match r with Ok out => Ok (om_text out) | Err e => Err e end.

(** The reply carries the answer, or fails after it. *)
Lemma answered_reply all text s s1 :
  answered all (Ok text) s s1 →
  wp (reply memory incoming text) (λ r s', answered all (answer_text r) s s') s1.
Proof.
  intros (aside & called & calls & shown & H1 & Ha & H2 & H3 & H4 & H5).
  eapply wp_mono; [apply (wp_and _ (λ _ s', same_calls s1 s') _ _ (wp_of_stable _ _ _ (reply_calls text)) (wp_reply text s1))|].
  cbv beta. intros r s2 [[E1 E2] H]. exists aside, called, calls, shown. rewrite E1, E2. do 4 (split; [done|]).
  destruct r as [out|e]; cbn; [by destruct H as [-> _]|]. destruct all; [|by left]. right. split; [done|].
  exists text, []. by rewrite app_nil_r.
Qed.

Lemma nothing_shown text s s1 : trusted [] text → same_calls s s1 → answered false (Ok text) s s1.
Proof. intros Ht H. by apply (answered_vouched _ []); [apply same_before|]. Qed.

(** *** Code mode *)

(** The state under code mode, and what of it the turn keeps. *)
Lemma code_before s c :
  unshown (code_part s) c → (cm_enabled (se_code_mode settings) = false → c = code_part s) → before s (put_code c s).
Proof.
  intros [H1 [called H2]] Hoff. split; [exact H1|]. exists called. split; [exact H2|]. intros Hd. rewrite Hoff in H2 by done.
  rewrite <- (app_nil_r (tn_called _)) in H2 at 1. by apply app_inv_head in H2.
Qed.

Lemma wp_by_code_mode stream tools history s :
  enforced →
  wp (by_code_mode result_text settings incoming stream tools history)
     (λ r s', before s s' ∧ ∃ answer, r = Ok answer ∧
        if answer is Some completion then ∃ calls, trusted calls (into_text completion) else True) s.
Proof.
  intros [He1 He2]. apply wp_zoom. eapply wp_mono; [apply wp_try_code_mode|]. cbv beta.
  intros r c (Hc & Hoff & answer & -> & Ha). split; [by apply code_before|]. exists answer. split; [done|].
  destruct answer as [completion|]; [|done]. destruct Ha as [calls Ha]. exists calls. by eapply let_out_trusted.
Qed.

Lemma wp_completion history s :
  enforced →
  wp (complete_with_optional_mcp result_text settings incoming history)
     (λ r s', match r with
              | Ok c => if co_output_verified c then answered false (Ok (co_text c)) s s' else same_calls s s'
              | Err e => answered false (Err e) s s'
              end) s.
Proof.
  intros He. unfold complete_with_optional_mcp.
  eapply (wp_bind_stable same_calls); [apply offered_tools_calls|intros e s1 H1; by apply failed_before, same_before|].
  intros [|tool tools] s1 H1.
  - eapply (wp_bind_stable same_calls); [apply plain_calls|intros e s2 H2; apply failed_before, same_before; by etrans|].
    intros text s2 H2. wp_step. cbn. by etrans.
  - wp_step. eapply wp_mono; [by apply wp_by_code_mode|]. cbv beta. intros r s2 (H2 & answer & -> & Ha).
    assert (H02 : before s s2) by (etrans; [by apply same_before|done]). destruct answer as [completion|].
    { wp_step. destruct Ha as [calls Ha]. by apply (answered_vouched _ calls). }
    wp_step. eapply wp_mono; [by apply wp_looped|]. cbv beta. intros [text|e] s3 H3; [wp_step|]; by eapply answered_before.
Qed.

Lemma answered_after all r s s1 s2 : answered all r s s1 → same_calls s1 s2 → answered all r s s2.
Proof.
  intros (aside & called & calls & shown & H1 & Ha & H2 & H3 & H4) [E1 E2]. exists aside, called, calls, shown.
  by rewrite E1, E2.
Qed.

(** A stream that fails after it showed its answer. *)
Lemma answered_cut text e s s1 : answered true (Ok text) s s1 → answered true (Err e) s s1.
Proof.
  intros (aside & called & calls & shown & H1 & Ha & H2 & H3 & H4 & H5). exists aside, called, calls, shown.
  do 4 (split; [done|]). right. split; [done|]. exists text, []. by rewrite app_nil_r.
Qed.

Lemma wp_replay text calls s s1 :
  before s s1 → trusted calls text →
  wp (on_turn (S := S) (replay_text text))
     (λ r s', match r with Ok _ => answered true (Ok text) s s' | Err _ => ∀ e, answered true (Err e) s s' end) s1.
Proof.
  intros [H2 (l & H1 & Hl)] Ht. apply wp_zoom. eapply wp_mono; [apply wp_show_all|]. cbv beta.
  intros r t (_ & Hc & shown & Hs & Hp & Hr). rewrite <- (chunked_text_is_whole text STREAM_REPLAY_CHUNK_CHARS) in Ht.
  set (chunks := chunk_text_for_stream_replay _ _) in *.
  assert (Hall : ∀ r', match r' with Ok t0 => trusted calls t0 ∧ joined shown = t0 | Err _ => shown = [] ∨
      true = true ∧ ∃ t0 rest, trusted calls t0 ∧ joined (shown ++ rest) = t0 end → answered true r' s (put_turn t s1)).
  { intros r' Hr'. exists l, [], calls, shown. rewrite app_nil_r. split; [etrans; [exact Hc|exact H1]|]. split; [done|].
    split; [apply calls_on_record_nil|]. split; [etrans; [exact Hs|cbn; by rewrite H2]|exact Hr']. }
  destruct r as [u|e]; [|intros e']; apply Hall.
  - rewrite <- (chunked_text_is_whole text STREAM_REPLAY_CHUNK_CHARS). fold chunks. by rewrite (Hr eq_refl).
  - right. split; [done|]. destruct Hp as [rest Hp]. exists (joined chunks), rest. by rewrite <- Hp.
Qed.

Lemma wp_replay_completion completion calls s s1 :
  before s s1 → trusted calls (into_text completion) →
  wp (replay_completion completion) (λ r s', answered true r s s') s1.
Proof.
  intros Hb Ht. destruct completion as [text|text run]; cbn [replay_completion into_text] in *; wp_step.
  - eapply wp_mono; [by apply (wp_replay _ calls)|]. cbv beta. intros [u|e] s2 H2; [by wp_step|apply H2].
  - wp_step. eapply wp_mono; [by apply (wp_replay _ calls)|]. cbv beta.
    assert (Hf : ∀ exit, stable same_calls (on_turn (S := S) (on_turn_harness (finish_agent_run exit run)))).
    { intros exit. apply stable_zoom with (R := λ t t', tn_called t' = tn_called t ∧ tn_shown t' = tn_shown t); [done|].
      apply stable_zoom with (R := λ _ _, True); [done|by intros w]. }
    intros [u|e] s2 H2; (eapply (wp_bind_stable same_calls); [apply Hf| |]); intros a s3 H3; try wp_step;
      (eapply answered_after; [|done]); [by eapply answered_cut|exact H2|apply H2..].
Qed.

Lemma wp_completion_stream history s :
  enforced →
  wp (complete_with_optional_mcp_stream result_text settings incoming history) (λ r s', answered true r s s') s.
Proof.
  intros He. unfold complete_with_optional_mcp_stream.
  eapply (wp_bind_stable same_calls); [apply offered_tools_calls|intros e s1 H1; by apply failed_before, same_before|].
  intros [|tool tools] s1 H1.
  - eapply wp_mono; [by apply wp_plain_stream|]. intros r s2 H2. eapply answered_before; [by apply same_before|done].
  - wp_step. eapply wp_mono; [by apply wp_by_code_mode|]. cbv beta. intros r s2 (H2 & answer & -> & Ha).
    assert (H02 : before s s2) by (etrans; [by apply same_before|done]). destruct answer as [completion|].
    { destruct Ha as [calls Ha]. by eapply wp_replay_completion. }
    eapply wp_mono; [by apply (wp_looped StreamedCompletion)|]. intros r s3 H3. by eapply answered_before.
Qed.

(** [sink.on_delta] with the whole text. *)
Lemma wp_shown text s s1 :
  trusted [] text → same_calls s s1 →
  wp (if String.eqb text "" then mret tt else on_turn (S := S) (show text))
     (λ r s', match r with Ok _ => answered true (Ok text) s s' | Err e => answered true (Err e) s s' end) s1.
Proof.
  intros Ht [H1 H2]. destruct (String.eqb_spec text "") as [->|_].
  - wp_step. exists [], [], [], []. rewrite !app_nil_r. split_and!; [done|done|apply calls_on_record_nil|done|done|done].
  - apply wp_zoom. unfold show. wp_step. apply wp_tick. intros n. destruct (receives n text).
    + do 2 wp_step. apply wp_put_db. exists [], [], [], [text]. rewrite app_nil_r. cbn. rewrite H1, H2, string_app_nil_r.
      split_and!; [done|done|apply calls_on_record_nil|done..].
    + wp_step. by apply failed_before, same_before.
Qed.

End turn.
