(* ===== verification/TurnWitnesses.v ===== *)
(** * The turn's theorems at work

    A streamed turn in which the provider looks a note up before it answers, in the tool
    loop and by code mode; recall and the sidecar; a plan in a child process; and runs that
    end where the code meets its limits. *)

From Stdlib Require Import Ascii.

From S2P Require Import Prelude Text Strings Messages External Verifier OutputExit Domain Tables Replay Handlers.
From S2P Require Import Instances Witnesses MemBase TrajStore EvoStore Harness RunLog MemWitnesses ToolLoop ToolLoopFacts Floats Conversation Recall Skills Sidecar.
From S2P Require Import Compactor EvoDomain SwarmAudit Swarm SwarmDurable Worker Engine ContextBudget TimeQuery CodeMode CodeModeFacts Turn TurnFacts.

Definition search_call : value :=
  VObject [("server", VString "notes"); ("tool", VString "search");
           ("arguments", VObject [("query", VString "tea")])].

(** The one JSON text the provider below writes. *)
#[local] Instance call_json : @JsonParse value_json :=
  λ s, if String.eqb s "{call}" then Some search_call else None.

#[local] Instance verification_value : @ToValue value_json VerificationResult := λ v, Ok (VBool (vr_passed v)).
#[local] Instance confidence_value : @JsonConfidence value_json := λ n, VNumber (Z.of_nat n).
#[local] Instance tool_list_text : Serialize (list value) := λ l, Ok (bytes (value_text (VArray l))).

Definition answer_now (messages : list StoredMessage) : string :=
  match last messages with
  | Some m => if starts_with (content m) "MCP_TOOL_RESULT_JSON" || starts_with (content m) "CODE_MODE_TOOL_RESULT_JSON" then "You wrote about tea." else "{call}"
  | None => ""
  end.

#[local] Instance note_provider : TurnProvider :=
  {| turn_complete := λ _ messages, Ok (answer_now messages);
     turn_stream := λ _ messages, ([answer_now messages], Ok "");
     turn_model := Some "m1" |}.

#[local] Instance note_server : @ToolRuntime value_json :=
  {| tool_answer := λ _ _ _ _, Some (Ok (VString "a note on tea")); tool_duration := λ _, 3%N |}.

#[local] Instance attentive : StreamReceiver := λ _ _, true.

Definition strict_turn (mode : OutputVerificationMode) : TurnSettings :=
  {| ts_logger := Some {| lg_enabled := true |}; ts_max_iterations := 3; ts_max_tool_result_chars := 1000;
     ts_call_timeout_secs := 30; ts_tool_verifier := None; ts_tool_verification_mode := VerifyRetry;
     ts_output_verifier := true; ts_output_mode := mode; ts_output_llm_enabled := false;
     ts_output_max_prompt_chars := 500; ts_output_max_result_chars := 500 |}.

Definition a_source : TurnSource := {| to_session_id := "tg:9"; to_channel := "telegram"; to_user_id := "5" |}.

Definition quiet_turn : TurnState := {| tn_harness := empty_harness; tn_asked := []; tn_called := []; tn_shown := [] |}.

Definition question : list StoredMessage := [{| role := User; content := "what did I write about?" |}].

Abbreviation note_turn :=
  (mcp_loop (λ _, None) (strict_turn Block) a_source StreamedCompletion [search_tool] question
     (World quiet_turn 100 0)).

Lemma note_turn_answers :
  let '(r, w) := note_turn in
  (if r is Ok (_, answer) then answer = Ok "You wrote about tea." else False) ∧ tn_shown (w_db w) = ["You wrote about tea."] ∧
  length (tn_asked (w_db w)) = 2 ∧ length (tn_called (w_db w)) = 1.
Proof. vm_compute. done. Qed.

Lemma only_offered_tools_run_witness :
  let '(_, w) := note_turn in
  length (tn_called (w_db w)) = 1 ∧
  ∀ call, call ∈ (tn_called (w_db w)).*1 → ∃ tool, tool ∈ [search_tool] ∧ conforms tool (pc_arguments call).
Proof.
  pose proof (only_offered_tools_run (ENV := concrete_env) (λ _, None) (strict_turn Block) a_source StreamedCompletion
    [search_tool] question quiet_turn (World quiet_turn 100 0) eq_refl) as H.
  pose proof note_turn_answers as Ha. revert H Ha. destruct (mcp_loop _ _ _ _ _ _ _) as [r w].
  cbn [fst snd]. intros (called & H1 & _ & H2) (_ & _ & _ & Hc). split; [exact Hc|]. intros call Hin.
  rewrite H1 in Hin. destruct (H2 call Hin) as (tool & Ht & _ & _ & Hf). exists tool. split; assumption.
Defined.

Lemma turn_ends_with_its_run_closed_witness :
  let '(r, w) := note_turn in
  length (tn_asked (w_db w)) ≤ 5 ∧ (∃ run out, r = Ok (run, out) ∧ ag_finished run = true).
Proof.
  pose proof (turn_ends_with_its_run_closed (ENV := concrete_env) (λ _, None) (strict_turn Block) a_source
    StreamedCompletion [search_tool] question quiet_turn (World quiet_turn 100 0) eq_refl) as H.
  pose proof note_turn_answers as Ha. revert H Ha. destruct (mcp_loop _ _ _ _ _ _ _) as [r w].
  cbn [fst snd]. intros [(asked & H1 & H2) H3] (Ha & _). rewrite H1. split; [exact H2|].
  destruct r as [[run out]|e]; [|destruct Ha]. exists run, out. split; [reflexivity|exact H3].
Defined.

Lemma only_verified_text_is_streamed_witness :
  let '(r, w) := note_turn in
  ∃ calls run, r = Ok (run, Ok "You wrote about tea.") ∧ calls ≠ [] ∧
    trusted (ENV := concrete_env) a_source calls (foldr String.append "" (tn_shown (w_db w))).
Proof.
  pose proof (only_verified_text_is_streamed (ENV := concrete_env) (λ _, None) (strict_turn Block) a_source
    StreamedCompletion [search_tool] question quiet_turn eq_refl (or_introl eq_refl) (World quiet_turn 100 0) eq_refl) as H.
  pose proof note_turn_answers as Ha. revert H Ha. destruct (mcp_loop _ _ _ _ _ _ _) as [r w].
  cbn [fst snd]. intros (called & calls & shown & H1 & H2 & H3 & H4) (Ha & _ & _ & Hc).
  destruct r as [[run [text|e]]|e]; [|discriminate Ha|destruct Ha]. injection Ha as ->. destruct H4 as (H4 & H5 & _).
  exists calls, run. split; [reflexivity|]. split.
  - intros ->. apply calls_on_record_length in H2. rewrite H1 in Hc. cbn in H2, Hc. lia.
  - rewrite H3. cbn [tn_shown quiet_turn app]. rewrite (H5 eq_refl). exact H4.
Defined.

(** ** Recall *)

#[local] Instance plain_memory : MemoryEnv :=
  {| str_to_lowercase := to_ascii_lowercase;
     local_day_start := λ now days, Some ((now / 86400 - days) * 86400)%Z;
     local_rfc3339 := λ _, None;
     default_hash := λ _ secs _, Z.to_N secs |}.

#[local] Instance last_first : HashOrder := λ _ l, rev l.

#[local] Instance last_first_law : HashOrderLaw last_first.
Proof. intros n l. symmetry. apply Permutation_rev. Qed.

Definition remembered (text source : string) (score : f32) (at_time : Z) : RankedMemoryCandidate :=
  {| rc_text := text; rc_score := score; rc_source := source; rc_created_at := at_time |}.

(** A text found twice, one that is recent, one that is not good enough. *)
Definition found : list RankedMemoryCandidate :=
  [remembered "Likes  tea" "vec" (f32_lit 1 2) 10; remembered "hello" "vec" (f32_lit 9 10) 30;
   remembered "noise" "vec" (f32_lit 1 100) 40].

Definition found_locally : list RankedMemoryCandidate :=
  [remembered "likes tea" "kw" (f32_lit 7 10) 20; remembered "owns a cat" "kw" (f32_lit 6 10) 5].

Definition greeting : list StoredMessage := [{| role := User; content := "Hello" |}].

Lemma merge_keeps_the_best_witness :
  rc_text <$> kept_candidates 0 greeting found found_locally 1 (f32_lit 18 100) = ["Likes  tea"] ∧
  ∀ k, k ∈ kept_candidates 0 greeting found found_locally 1 (f32_lit 18 100) →
    f64_lt (rc_score k) (f32_lit 6 10) = false.
Proof.
  pose proof (merge_keeps_the_best 0 greeting found found_locally 1 420 (f32_lit 18 100) ltac:(vm_compute; reflexivity)
    ltac:(repeat constructor)) as (_ & _ & _ & _ & _ & H).
  assert (Hk : rc_text <$> kept_candidates 0 greeting found found_locally 1 (f32_lit 18 100) = ["Likes  tea"])
    by (vm_compute; reflexivity).
  split; [exact Hk|].
  destruct (H (remembered "owns a cat" "kw" (f32_lit 6 10) 5)) as [(k & Hin & Hkey & _)|[_ Hall]].
  - vm_compute. do 4 right. left.
  - split; [vm_compute; reflexivity|]. split; [vm_compute; discriminate|]. vm_compute. intros Hin.
    repeat (apply elem_of_cons in Hin as [Hin|Hin]; [discriminate Hin|]). by apply not_elem_of_nil in Hin.
  - exfalso. destruct (kept_candidates _ _ _ _ _ _) as [|k1 [|k2 l]] eqn:E; try discriminate Hk.
    apply list_elem_of_singleton in Hin as ->. injection Hk as Hk. unfold memory_key in Hkey. rewrite Hk in Hkey.
    vm_compute in Hkey. discriminate Hkey.
  - intros k Hin. apply (Hall k Hin).
Defined.

Definition written (text : string) : MemoryWriteRequest :=
  {| mw_session_id := "tg:7"; mw_user_id := "u1"; mw_channel := "telegram";
     mw_message := {| role := User; content := text |} |}.

Definition asked_for (query : string) : MemoryContextRequest :=
  {| mq_session_id := "tg:7"; mq_user_id := "u1"; mq_channel := "telegram"; mq_query_text := query;
     mq_max_recent_turns := 1; mq_max_semantic_memories := 2; mq_semantic_lookback_days := 30 |}.

Definition kept_chunk (id user text : string) : MemoryChunkRecord :=
  {| ck_id := id; ck_session_id := "tg:7"; ck_user_id := user; ck_channel := "telegram"; ck_role := User; ck_text := text;
     ck_created_at := 0 |}.

Definition tea_notes : ConvDb :=
  run_ops conv_exec 0
    [VAppend "tg:7" {| role := User; content := "hi" |}; VChunk (kept_chunk "a" "u1" "green tea at noon");
     VChunk (kept_chunk "b" "u2" "green tea at night")] empty_conv.

Lemma recall_stays_with_its_user_witness :
  wp (sqlite_load_context (asked_for "green tea"))
     (λ r s', s' = tea_notes ∧ ∃ memories, (length memories ≤ 2)%nat ∧
        r = Ok ((memory_message 420 <$> memories) ++ [{| role := User; content := "hi" |}]) ∧
        ∀ m, m ∈ memories → rc_text m ≠ "green tea at night") tea_notes.
Proof.
  eapply wp_mono.
  { apply (recall_stays_with_its_user (CLK := concrete_clock) (asked_for "green tea") tea_notes).
    apply run_ops_steps. }
  cbv beta. intros r s' (-> & memories & -> & H1 & H2). split; [reflexivity|]. exists memories. split; [exact H1|].
  split; [do 2 f_equal; vm_compute; reflexivity|]. intros m Hm. destruct (H2 m Hm) as (c & Hc & Hu & _ & ->).
  revert Hu. cbn [asked_for mq_user_id]. vm_compute in Hc. intros Hu.
  repeat (apply elem_of_cons in Hc as [->|Hc]; [revert Hu; vm_compute; congruence|]). by apply not_elem_of_nil in Hc.
Defined.

(** ** The sidecar *)

(** The chunk stored for a text at a second, and its document. *)
Definition stored_doc (text : string) (secs : Z) : SidecarMemoryDoc :=
  doc_of_chunk (chunk_of (written text) ("mem-" +:+ hex (Z.to_N secs)) secs).

#[local] Instance doc_eq_dec : EqDecision SidecarMemoryDoc.
Proof.
  assert (EqDecision f32) by (intros x y; unfold Decision; repeat decide equality). solve_decision.
Defined.

#[local] Instance two_docs : DocJson :=
  {| doc_text := λ d, if decide (d = stored_doc "refused" 1) then Ok "{1}"
                      else if decide (d = stored_doc "taken" 11) then Ok "{2}" else Err "not these";
     doc_parse := λ t, if String.eqb t "{1}" then Ok (stored_doc "refused" 1)
                       else if String.eqb t "{2}" then Ok (stored_doc "taken" 11) else Err "malformed" |}.

#[local] Instance two_docs_law : DocJsonLaw two_docs.
Proof.
  intros d t. cbn [doc_text doc_parse two_docs]. destruct (decide _) as [->|_]; [by intros [= <-]|].
  destruct (decide _) as [->|_]; [by intros [= <-]|done].
Qed.

(** A sidecar that refuses one text until a moment. *)
Definition choosy (until : nat) : SidecarService :=
  {| sidecar_takes := λ n d, if String.eqb (sd_text d) "refused" && (n <? until) then Err "422" else Ok tt;
     sidecar_answers := λ _ _ _ _, Err "closed" |}.

Definition two_texts : list hybrid_op := [HyAppend (written "refused"); HyAppend (written "taken"); HyTask 0; HyRestart].

Definition run_hybrid (until : nat) (ops : list hybrid_op) : HybridState :=
  run_ops (hybrid_exec (SS := choosy until)) 0 ops empty_hybrid.

(** No step of a run replaces a chunk. *)
Fixpoint chunks_kept `{SS : SidecarService} (n : nat) (ops : list hybrid_op) (s : HybridState) : Prop :=
  match ops with
  | [] => True
  | op :: ops' =>
      let s' := run_op hybrid_exec n op s in
      take (length (db_chunks (hy_conv s))) (db_chunks (hy_conv s')) = db_chunks (hy_conv s) ∧ chunks_kept (n + 10) ops' s'
  end.

Lemma run_hybrid_reachable `{SS : SidecarService} n ops s :
  hybrid_reachable s → chunks_kept n ops s → hybrid_reachable (run_ops hybrid_exec n ops s).
Proof.
  revert n s. induction ops as [|op ops IH]; intros n s Hs; [done|]. cbn [run_ops chunks_kept].
  intros [Hc Hk]. apply IH; [|exact Hk]. eapply rtc_r; [exact Hs|].
  split; [by exists op, (World s n (N.of_nat n))|]. intros c Hin. rewrite <- Hc in Hin.
  rewrite <- (take_drop (length (db_chunks (hy_conv s)))). apply elem_of_app. by left.
Qed.

Lemma no_memory_is_lost_to_the_sidecar_witness :
  let s := run_hybrid 1000 two_texts in
  hy_taken s = [] ∧ ∃ o, o ∈ db_outbox (hy_conv s) ∧ doc_parse (ob_doc_json o) = Ok (stored_doc "taken" 11).
Proof.
  intros s. assert (Hs : hybrid_reachable (SS := choosy 1000) s).
  { apply (run_hybrid_reachable (SS := choosy 1000) 0 two_texts empty_hybrid); [apply rtc_refl|vm_compute; repeat split]. }
  destruct (no_memory_is_lost_to_the_sidecar (SS := choosy 1000) s Hs) as [H _].
  assert (Ht : hy_taken s = []) by (vm_compute; reflexivity). split; [exact Ht|].
  destruct (H (chunk_of (written "taken") "mem-b" 11)) as [Hin|(o & Ho & _ & Hd)].
  - vm_compute. right. left.
  - exfalso. rewrite Ht in Hin. by apply not_elem_of_nil in Hin.
  - exists o. split; [exact Ho|]. rewrite Hd. vm_compute. reflexivity.
Defined.

Lemma reconciler_catches_up_witness :
  let s := run_hybrid 0 two_texts in
  length (db_outbox (hy_conv s)) = 1 ∧
  wp (hybrid_reconcile (SS := choosy 0) 1)
     (λ r s', r = Ok 1 ∧ ∀ c, c ∈ db_chunks (hy_conv s') → doc_of_chunk c ∈ hy_taken s') s.
Proof.
  intros s. assert (Hl : length (db_outbox (hy_conv s)) = 1) by (vm_compute; reflexivity). split; [exact Hl|].
  eapply wp_mono.
  { apply (reconciler_catches_up (SS := choosy 0) 1 s).
    - apply (run_hybrid_reachable (SS := choosy 0) 0 two_texts empty_hybrid); [apply rtc_refl|vm_compute; repeat split].
    - intros n doc. cbn [sidecar_takes choosy]. by destruct (String.eqb _ _).
    - rewrite Hl. apply le_n. }
  cbv beta. intros r s' (-> & _ & H). rewrite Hl. split; [reflexivity|exact H].
Defined.

(** A document the sidecar refuses for good keeps a newer one from it: the oldest rows are
    tried again and again, and a round takes only as many as its limit. *)
Example refused_document_blocks_newer :
  let s := run_hybrid 1000
    [HyAppend (written "refused"); HyAppend (written "taken"); HyRestart; HyReconcile 1; HyReconcile 1; HyReconcile 1] in
  hy_taken s = [] ∧ (ob_chunk_id <$> db_outbox (hy_conv s)) = ["mem-1"; "mem-b"] ∧
  sidecar_takes (SidecarService := choosy 1000) 0 (stored_doc "taken" 11) = Ok tt.
Proof. vm_compute. repeat split. Qed.

(** ** The turn *)

#[local] Instance no_plan : @FromValue value_json SwarmNodePlanEnvelope := λ _, Err "not a plan".
#[local] Instance no_input : @FromValue value_json SwarmNodeInput := λ _, Err "not an input".
#[local] Instance no_decision : @FromValue value_json SwarmActivationDecision := λ _, Err "not a decision".
#[local] Instance no_nodes : NodeProvider := {| node_complete := λ _ _ _ _, None; node_model_name := None |}.
#[local] Instance no_swarm_provider : SwarmProvider := λ _ _ _, CompFailure "offline".
#[local] Instance no_scores : ParseF32 := λ _, None.

#[local] Instance healthy_child : CodeModeHost := {| process_identity := []; child_fate := λ _, ChildRuns (Ok tt) |}.

#[local] Instance no_sandbox : @SandboxJson value_json :=
  {| request_text := λ _, Err "too deep"; request_parse := λ _, Err "malformed"; response_text := λ _, Err "too deep";
     response_parse := λ _, Err "malformed" |}.

#[local] Instance report_text : Serialize (@CodeModeExecutionReport value_json) :=
  λ r, Ok (bytes (value_text (VNumber (Z.of_nat (kp_failed_calls r))))).

(** Two calls at most, one at a time, of tools that may need files. *)
Definition code_settings (mode : CodeModeExecutionMode) : AgentCodeModeSettings :=
  {| cm_enabled := true; cm_shadow_mode := false; cm_max_calls := 2; cm_max_parallel := 1; cm_max_runtime_ms := 60000;
     cm_max_call_timeout_ms := 1200; cm_timeout_warn_ratio := f64_lit 4 10; cm_timeout_auto_shadow_enabled := true;
     cm_timeout_auto_shadow_probe_every := 2; cm_timeout_auto_shadow_streak := 2; cm_max_result_chars := 20;
     cm_execution_mode := mode; cm_subprocess_timeout_secs := 8; cm_allow_network := false; cm_allow_filesystem := true;
     cm_allow_env := false |}.

#[local] Instance note_tools : @McpServers value_json :=
  {| list_tools := λ _, Ok [search_tool]; call_current_time := λ _ _, Err "no clock" |}.

Definition swarm_off : AgentSwarmSettings :=
  {| sg_enabled := false; sg_auto_detect := true; sg_max_depth := 1; sg_max_agents := 1; sg_max_parallel := 1;
     sg_max_node_timeout_ms := 1; sg_max_run_timeout_ms := 1; sg_reply_summary_enabled := false;
     sg_audit_retention_days := 1; sg_durable_engine := false; sg_reply_sync_wait_ms := 1; sg_group_enabled := false |}.

Definition service_settings (mcp : bool) (compaction_from : nat) : PipelineSettings :=
  {| se_turn := strict_turn Block; se_max_recent_turns := 20; se_max_semantic_memories := 2;
     se_semantic_lookback_days := 30; se_mcp := mcp;
     se_compaction := {| cg_enabled := true; cg_strategy := HeadTail 1 1; cg_head_count := 1; cg_tail_count := 1;
                        cg_message_count_threshold := compaction_from |};
     se_compactor := Some true; se_context_window_tokens := 0; se_context_reserved_tokens := 0;
     se_context_memory_budget_ratio := 0; se_context_min_recent_messages := 1; se_code_mode := default_code_mode;
     se_code_mode_planner := default_llm_planner |}.

Definition fresh_service (memory : ConvDb) : PipelineState ConvDb :=
  {| pl_memory := memory;
     pl_swarm := {| ss_harness := empty_harness; ss_audit := empty_swarm; ss_counts := no_counts; ss_permits := 0; ss_calls := [] |};
     pl_policy := None; pl_asked := []; pl_called := []; pl_shown := []; pl_circuit := closed_circuit; pl_counters := zero_counters |}.

Definition serving (skills : SkillRuntime) : ServiceSkills :=
  {| kv_runtime := λ _, Some skills;
     kv_settings := {| ks_enabled := true; ks_max_selected := 3; ks_max_prompt_chars := N.to_nat 8000;
       ks_match_min_score := f32_lit 45 100; ks_llm_rerank_enabled := false |} |}.

Definition no_skills : ServiceSkills := serving [].

Definition said_to_service (text : string) : IncomingMessage :=
  {| im_channel := "telegram"; im_session_id := "tg:9"; im_user_id := "5"; im_text := text; im_is_group_chat := false |}.

Definition no_drive : LoopWorker → string → nat → nat → M SwarmState (option (res ResumeReport)) := λ _ _ _ _, mret None.

Abbreviation stream_notes :=
  (handle_stream (λ _, None) (λ _, None) SqliteMemoryBackend (service_settings true 50) no_drive None swarm_off false
     no_skills (said_to_service "what did I write about?")).

Lemma streamed_notes :
  let '(r, w) := stream_notes (World (fresh_service empty_conv) 100 0) in
  answer_text r = Ok "You wrote about tea." ∧ pl_shown (w_db w) = ["You wrote about tea."] ∧
  length (pl_called (w_db w)) = 1.
Proof. vm_compute. repeat split. Qed.

Lemma turn_is_on_record_witness :
  let '(r, w) := stream_notes (World (fresh_service empty_conv) 100 0) in
  session_messages "tg:9" (pl_memory (w_db w)) =
    [{| role := User; content := "what did I write about?" |}; {| role := Assistant; content := "You wrote about tea." |}].
Proof.
  pose proof (turn_is_on_record (λ _, None) (λ _, None) SqliteMemoryBackend (service_settings true 50) no_drive None
    swarm_off false no_skills (said_to_service "what did I write about?") (fresh_service empty_conv)) as [_ H].
  specialize (H (World (fresh_service empty_conv) 100 0) eq_refl).
  pose proof streamed_notes as Ha. revert H Ha. destruct (stream_notes _) as [r w]. cbn [fst snd].
  intros (added & H1 & H2) (Ha & _). destruct r as [out|e]; [|discriminate Ha]. injection Ha as Ha.
  destruct H2 as [_ ->]. etrans; [exact (H1 "tg:9")|]. rewrite Ha. reflexivity.
Defined.


Lemma source_hash_identifies_the_source_witness :
  sk_source_hash (build_compaction_source_key greeting (HeadTail 1 1) [default_metadata]) ≠
  sk_source_hash (build_compaction_source_key greeting (HeadTail 1 2) [default_metadata]) ∧
  ([default_metadata] = [default_metadata] ∨ ∃ b b' : list Ascii.ascii, b ≠ b' ∧ b = b').
Proof.
  split; [vm_compute; discriminate|].
  destruct (source_hash_identifies_the_source (SHA := λ l, l) greeting (HeadTail 1 1) [default_metadata] greeting (HeadTail 1 1)
    [default_metadata] eq_refl) as [(_ & _ & H)|(b & b' & H1 & H2)]; [left; exact H|right; exists b, b'; split; assumption].
Defined.

(** *** What the code does at its limits *)

#[local] Instance wordy_provider : TurnProvider :=
  {| turn_complete := λ _ _, Ok "A long and friendly answer that goes on for quite a while so that it is worth a summary, and then some more words follow it until it is really long, because the note put in its place has words of its own.";
     turn_stream := λ _ _, ([], Err "not used"); turn_model := None |}.

Definition talk_to (n : nat) (settings : PipelineSettings) (skills : SkillRuntime) (text : string)
    (s : PipelineState ConvDb) : PipelineState ConvDb :=
  w_db (handle (PV := wordy_provider) (λ _, None) (λ _, None) SqliteMemoryBackend settings no_drive None swarm_off false
     (serving skills) (said_to_service text) (World s n (N.of_nat n))).2.

(** Every turn stores a summary of its own: the key of a summary covers the message of the
    turn, so no later turn finds it. *)
Example stored_summaries_are_never_found :
  let turn n text := talk_to n (service_settings false 3) [] text in
  let s := turn 30 "three" (turn 20 "two" (turn 10 "one" (fresh_service empty_conv))) in
  let s' := turn 50 "five" (turn 40 "four" s) in
  length (db_summaries (pl_memory s)) = 1 ∧ length (db_summaries (pl_memory s')) = 3.
Proof. vm_compute. split; reflexivity. Qed.

(** A skill that is always on. *)
Definition verse_skill : SkillRuntimeEntry :=
  {| sr_id := "poet"; sr_enabled := true; sr_mode := SkillAlways; sr_name := "Poet"; sr_description := "answers in verse";
     sr_tags := []; sr_content := "Always answer in verse, and never of prices."; sr_token_set := ∅ |}.

(** A window of 60 tokens, and a request that has more: the prompt of the skills comes
    after the budget. *)
Example skills_exceed_the_window :
  let settings := {| se_turn := strict_turn Block; se_max_recent_turns := 20; se_max_semantic_memories := 0;
     se_semantic_lookback_days := 30; se_mcp := false; se_compaction := se_compaction (service_settings false 50);
     se_compactor := None; se_context_window_tokens := 60; se_context_reserved_tokens := 10;
     se_context_memory_budget_ratio := 20; se_context_min_recent_messages := 1; se_code_mode := default_code_mode;
     se_code_mode_planner := default_llm_planner |} in
  (total_tokens <$> pl_asked (talk_to 10 settings [verse_skill] "hello" (fresh_service empty_conv))) = [77%N].
Proof. vm_compute. reflexivity. Qed.

(** A message cut to 13 tokens has 18: the mark behind the cut is not counted. *)
Example truncation_overshoots :
  let long := {| role := User; content := "one two three four five six seven eight nine ten eleven twelve thirteen" |} in
  message_tokens (truncate_message_to_token_budget long 13) = 18%N.
Proof. vm_compute. reflexivity. Qed.

(** ** Code mode *)

Definition audited (timed_out : nat) : circuit_event :=
  Audited {| ka_planner := "llm-plan-v1"; ka_used := true; ka_fallback := false; ka_reason := None; ka_planned_calls := 2;
             ka_executed_calls := 2; ka_failed_calls := timed_out; ka_timed_out_calls := timed_out; ka_elapsed_ms := 5 |}.

(** Two plans with timeouts open the circuit; the second completion after that probes. *)
Lemma circuit_follows_the_alerts_witness :
  let c := foldr (λ e c, circuit_step (code_settings Local) c e) closed_circuit [Asked; audited 1; audited 2; Asked; audited 0] in
  kt_open c = true ∧ (next_attempt (code_settings Local) c).1 = Some ProbeAttempt.
Proof.
  destruct (circuit_follows_the_alerts (code_settings Local) [Asked; audited 1; audited 2; Asked; audited 0] eq_refl eq_refl)
    as [H1 H2]. split; [rewrite H1; vm_compute; reflexivity|rewrite H2; vm_compute; reflexivity].
Defined.

(** *** JSON that is read back *)

(** An environment whose JSON values carry nothing. *)
Definition unit_json : JsonValue :=
  {| json := unit; json_eq_dec := _; json_get := λ _ _, None; json_as_bool := λ _, None; json_as_str := λ _, None;
     json_as_u64 := λ _, None; json_as_array := λ _, None; json_object_keys := λ _, Some []; json_as_i64 := λ _, None;
     json_string := λ _, tt; json_null := tt; json_int := λ _, tt; json_bool := λ _, tt; json_array := λ _, tt;
     json_object := λ _, tt; json_insert := λ _ _ _, tt; json_kind := λ _, JKObject |}.

Definition unit_env : LoopEnv :=
  {| env_json := unit_json; env_clock := concrete_clock; env_sha := λ l, l; env_unicode := ascii_unicode;
     env_ser_json := λ _, Ok []; env_ser_string := λ _, Ok []; env_ser_pair := λ _, Ok []; env_ser_metadata := λ _, Ok [];
     env_ser_workflow := λ _, Ok []; env_ser_plan := λ _, Ok []; env_ser_effects := λ _, Ok [];
     env_ser_acceptance := λ _, Ok []; env_ser_budget := λ _, Ok []; env_ser_signal := λ _, Ok [];
     env_ser_messages := λ _, Ok []; env_ser_request := λ _, Ok [] |}.

Definition unit_tool : @McpToolInfo unit_json :=
  {| mt_server := "notes"; mt_name := "search"; mt_description := None; mt_input_schema := (tt : @json unit_json);
     mt_code_mode_capabilities := Some {| mc_network := false; mc_filesystem := true; mc_env := false |} |}.

Definition unit_call : @CodeModeToolCall unit_json :=
  {| kc_server := "notes"; kc_tool := "search"; kc_arguments := (tt : @json unit_json) |}.

Definition unit_plan : @CodeModePlan unit_json := [unit_call; unit_call].

(** A number as a text of binary digits. *)
Fixpoint bits (p : positive) : string :=
  match p with xH => "1" | xO p => String "0"%char (bits p) | xI p => String "1"%char (bits p) end.

Fixpoint of_bits (s : string) : option positive :=
  match s with
  | EmptyString => None
  | String a s' =>
      match of_bits s' with
      | None => if Ascii.eqb a "1"%char then Some xH else None
      | Some p => Some (if Ascii.eqb a "1"%char then xI p else xO p)
      end
  end.

Lemma of_bits_bits p : of_bits (bits p) = Some p.
Proof. induction p as [p IH|p IH|]; cbn; [by rewrite IH..|done]. Qed.

#[local] Instance result_eq_dec : EqDecision (@CodeModeCallResult unit_json).
Proof. solve_decision. Defined.

#[local] Instance result_countable : Countable (@CodeModeCallResult unit_json).
Proof.
  refine (inj_countable' (λ r, (kr_truncated r, kr_ok r, kr_result r : option unit, kr_error r, kr_tool r, kr_server r))
    (λ '(f, c, d, e, b, a), {| kr_server := a; kr_tool := b; kr_ok := c; kr_result := d : option (@json unit_json);
                               kr_error := e; kr_truncated := f |}) _). by intros [].
Defined.

#[local] Instance report_eq_dec : EqDecision (@CodeModeExecutionReport unit_json).
Proof. solve_decision. Defined.

#[local] Instance report_countable : Countable (@CodeModeExecutionReport unit_json).
Proof.
  refine (inj_countable' (λ r, (kp_failed_calls r, kp_timed_out_calls r, kp_truncated_outputs r, kp_elapsed_ms r, kp_calls r))
    (λ '(b, c, d, e, a), {| kp_calls := a; kp_failed_calls := b; kp_timed_out_calls := c; kp_truncated_outputs := d;
                            kp_elapsed_ms := e |}) _). by intros [].
Defined.

#[local] Instance response_eq_dec : EqDecision (@CodeModeSandboxResponse unit_json).
Proof. solve_decision. Defined.

#[local] Instance response_countable : Countable (@CodeModeSandboxResponse unit_json).
Proof.
  refine (inj_countable' (λ r, (ko_ok r, ko_error r, ko_report r))
    (λ '(a, c, b), {| ko_ok := a; ko_report := b; ko_error := c |}) _). by intros [].
Defined.

(** The request of one plan is known by its token; a response is a number. *)
Definition unit_sandbox : @SandboxJson unit_json :=
  {| request_text := λ r, Ok (kq_auth_token r);
     request_parse := λ t, Ok (sandbox_request (ENV := unit_env) (code_settings Subprocess) unit_plan [unit_tool] t);
     response_text := λ r, Ok (bits (countable.encode r));
     response_parse := λ t, match of_bits t ≫= countable.decode with Some r => Ok r | None => Err "malformed" end |}.

(** ASCII characters that are no white space stay. *)
Definition plain (a : Ascii.ascii) : Prop := ws1 a = false ∧ byte_of a < 128.

Lemma plain_starts l : Forall plain l →
  starts_ws ws2 ws3 l = false ∧ starts_ws (λ a b, ws2 b a) (λ a b c, ws3 c b a) l = false.
Proof.
  assert (H2 : ∀ a b, plain a → ws2 a b = false).
  { intros a b [_ H]. unfold ws2. destruct (Nat.eqb_spec (byte_of a) 194); [lia|done]. }
  assert (H3 : ∀ a b c, plain a → ws3 a b c = false).
  { intros a b c [_ H]. unfold ws3. destruct (Nat.eqb_spec (byte_of a) 225), (Nat.eqb_spec (byte_of a) 226),
      (Nat.eqb_spec (byte_of a) 227); try lia; done. }
  intros Hl. destruct l as [|a [|b [|c l]]]; [done|..]; apply Forall_cons in Hl as [Ha Hl]; cbn [starts_ws]; rewrite (proj1 Ha);
    [done|..]; apply Forall_cons in Hl as [Hb Hl]; rewrite !H2 by done; [done|].
  apply Forall_cons in Hl as [Hc _]. by rewrite !H3.
Qed.

Lemma trim_plain s : Forall plain (bytes s) → trim s = s.
Proof.
  intros H. unfold trim, trim_start, trim_start_rev. rewrite (trim_with_fix ws2 ws3 (bytes s)) by exact (proj1 (plain_starts _ H)).
  rewrite trim_with_fix by exact (proj2 (plain_starts _ (List.Forall_rev H))). by rewrite rev_involutive, of_bytes_bytes.
Qed.

Lemma bits_plain p : Forall plain (bytes (bits p)).
Proof. induction p; cbn; constructor; try done; split; [done|cbv; lia|done|cbv; lia|done|cbv; lia]. Qed.

(** Hexadecimal digits. *)
Lemma hex_plain l : let text := foldr (λ b acc, hex2 (Ascii.N_of_ascii b) +:+ acc) "" l in
  Forall plain (bytes text) ∧ String.length text = 2 * length l.
Proof.
  induction l as [|b l [IH1 IH2]]; [by split|]. cbv zeta in *. cbn [foldr]. revert IH1 IH2.
  generalize (foldr (λ b acc, hex2 (Ascii.N_of_ascii b) +:+ acc) "" l). intros rest H1 H2.
  assert (Hb : ∃ x y, hex2 (N_of_ascii b) = String x (String y "") ∧ plain x ∧ plain y).
  { destruct b as [[] [] [] [] [] [] [] []]; do 2 eexists; (split; [vm_compute; reflexivity|]); repeat split; cbv; lia. }
  destruct Hb as (x & y & -> & Hx & Hy). split; [|change (S (S (String.length rest)) = 2 * S (length l)); lia]. by do 2 (apply Forall_cons_2; [done|]).
Qed.

Lemma le_bytes_length width n : length (le_bytes width n) = width.
Proof. revert n. induction width as [|width IH]; intros n; cbn; [done|]. by rewrite IH. Qed.

Lemma unit_json_works :
  sandbox_json_works (ENV := unit_env) (SJ := unit_sandbox) (code_settings Subprocess) unit_plan [unit_tool].
Proof.
  split.
  - intros now request. exists (subprocess_auth_token (ENV := unit_env) now). split; [done|].
    destruct (hex_plain (le_bytes 16 (Z.to_N now) ++ [])) as [Hp Hl].
    assert (Ht : subprocess_auth_token (ENV := unit_env) now =
      foldr (λ b acc, hex2 (Ascii.N_of_ascii b) +:+ acc) "" (le_bytes 16 (Z.to_N now) ++ [])).
    { unfold subprocess_auth_token, sha256_hex. by rewrite bytes_of_bytes. }
    unfold request. cbn [request_parse unit_sandbox]. split.
    + rewrite Ht, Hl, length_app, le_bytes_length. apply Nat.leb_le. vm_compute. reflexivity.
    + rewrite trim_plain; [done|]. by rewrite Ht.
  - intros resp. exists (bits (countable.encode resp)). split; [done|]. cbn [response_parse unit_sandbox].
    rewrite trim_plain by apply bits_plain. rewrite of_bits_bits. cbn. by rewrite decode_encode.
Qed.

#[local] Instance unit_provider : TurnProvider :=
  {| turn_complete := λ _ _, Ok "Done."; turn_stream := λ _ _, ([], Ok "Done."); turn_model := None |}.

#[local] Instance unit_runtime : @ToolRuntime unit_json :=
  {| tool_answer := λ _ _ _ _, Some (Ok (tt : @json unit_json)); tool_duration := λ _, 1%N |}.

Definition unit_code : CodeModeState (ENV := unit_env) :=
  {| ks_turn := {| tn_harness := empty_harness; tn_asked := []; tn_called := []; tn_shown := [] |};
     ks_circuit := closed_circuit; ks_counters := zero_counters |}.

Abbreviation in_child fate :=
  (environment_execute (ENV := unit_env) (SJ := unit_sandbox)
     (CH := {| process_identity := []; child_fate := λ _, fate |}) (code_settings Subprocess) unit_plan [unit_tool]).

(** A child that is cut off after its first call. *)
Lemma plan_runs_as_admitted_witness :
  let '(r, w) := in_child (ChildSlow 1) (World unit_code 0 0) in
  r = Err "code mode subprocess timeout" ∧ length (tn_called (ks_turn (w_db w))) = 1 ∧
  admitted (ENV := unit_env) (code_settings Subprocess) [unit_tool] unit_plan.
Proof.
  pose proof (plan_runs_as_admitted (ENV := unit_env) (SJ := unit_sandbox)
    (CH := {| process_identity := []; child_fate := λ _, ChildSlow 1 |}) (code_settings Subprocess) unit_plan [unit_tool] unit_code
    (works_reads_back _ _ _ unit_json_works) (World unit_code 0 0) eq_refl) as H.
  assert (Ha : let '(r, w) := in_child (ChildSlow 1) (World unit_code 0 0) in
    r = Err "code mode subprocess timeout" ∧ length (tn_called (ks_turn (w_db w))) = 1) by (vm_compute; split; reflexivity).
  revert H Ha. destruct (in_child (ChildSlow 1) (World unit_code 0 0)) as [r w]. cbn [fst snd].
  intros (called & (os & Hos & _ & _ & _ & _ & _ & Hc) & _ & H) [Hr Hn]. split; [exact Hr|]. split; [exact Hn|]. apply H. intros ->.
  apply fmap_nil_inv in Hos as ->. rewrite Hc in Hn. discriminate Hn.
Defined.

Abbreviation by_child :=
  (execute_plan_via_subprocess (ENV := unit_env) (SJ := unit_sandbox) (code_settings Subprocess) unit_plan [unit_tool]).

Lemma subprocess_executes_alike_witness :
  let '(r, w) := by_child (World unit_code 0 0) in
  is_ok r = true ∧ only_called (ENV := unit_env) unit_plan unit_code (w_db w).
Proof.
  pose proof (subprocess_executes_alike (ENV := unit_env) (SJ := unit_sandbox) (code_settings Subprocess) unit_plan [unit_tool]
    (λ r c', if r is Ok _ then only_called (ENV := unit_env) unit_plan unit_code c' else True) unit_code
    ltac:(repeat constructor) unit_json_works ltac:(intros [] Hne; [destruct (Hne eq_refl)|discriminate]) ltac:(intros n; reflexivity)
    ltac:(eapply wp_mono; [apply wp_execute_plan|]; intros [report|e] c' [_ Hr]; [destruct Hr as (_ & os & el & H1 & H2 & _); exists os; by split|exact I])
    (World unit_code 0 0) eq_refl) as H.
  assert (Ha : let '(r, w) := by_child (World unit_code 0 0) in is_ok r = true) by (vm_compute; reflexivity).
  revert H Ha.
  destruct (by_child (World unit_code 0 0)) as [r w]. cbn [fst snd].
  intros (r0 & H & ->) Ha. destruct r0 as [report|e]; [|discriminate Ha]. split; [reflexivity|exact H].
Defined.

(** *** Code mode in a turn *)

Definition code_turn (settings : AgentCodeModeSettings) (notes : TurnProvider) :=
  try_code_mode (PV := notes) (λ _, None) (strict_turn Block) a_source settings default_llm_planner question [search_tool] true.

Definition fresh_code : CodeModeState := {| ks_turn := quiet_turn; ks_circuit := closed_circuit; ks_counters := zero_counters |}.

Abbreviation code_notes := (code_turn (code_settings Local) note_provider (World fresh_code 100 0)).

Lemma code_mode_books_balance_witness :
  let '(r, w) := code_notes in
  (∃ run, r = Ok (Some (PendingStream "You wrote about tea." run))) ∧ kn_used (ks_counters (w_db w)) = 1 ∧
  books_balance (w_db w).
Proof.
  pose proof (code_mode_books_balance (PV := note_provider) (λ _, None) (strict_turn Block) a_source (code_settings Local)
    default_llm_planner question [search_tool] true fresh_code ltac:(repeat split; constructor) (World fresh_code 100 0) eq_refl) as H.
  assert (Ha : let '(r, _) := code_notes in
    match r with Ok (Some (PendingStream text _)) => text = "You wrote about tea." | _ => False end) by (vm_compute; reflexivity).
  revert H Ha. unfold code_turn. destruct (try_code_mode _ _ _ _ _ _ _ _ _) as [r w]. cbn [fst snd].
  intros (Hb & answer & -> & Hu) Ha. destruct answer as [[text|text run]|]; [destruct Ha| |destruct Ha].
  cbv beta iota in Ha. rewrite Ha. split; [exists run; reflexivity|]. split; [|exact Hb].
  destruct (Hu ltac:(discriminate)) as (_ & _ & _ & _ & Hk). rewrite Hk. reflexivity.
Defined.

Lemma plan_answer_is_verified_witness :
  let '(r, w) := code_notes in
  ∃ ran record, tn_called (ks_turn (w_db w)) = [ran] ∧ plan_recorded ran record ∧
    trusted (ENV := concrete_env) a_source [record] "You wrote about tea.".
Proof.
  pose proof (plan_answer_is_verified (PV := note_provider) (λ _, None) (strict_turn Block) a_source (code_settings Local)
    default_llm_planner question [search_tool] true fresh_code eq_refl eq_refl (or_introl eq_refl) (World fresh_code 100 0) eq_refl) as H.
  assert (Ha : let '(r, w) := code_notes in
    match r with Ok (Some a) => into_text a = "You wrote about tea." | _ => False end ∧
    length (tn_called (ks_turn (w_db w))) = 1) by (vm_compute; split; reflexivity).
  revert H Ha. unfold code_turn. destruct (try_code_mode _ _ _ _ _ _ _ _ _) as [r w]. cbn [fst snd].
  intros H [Ha Hn]. destruct r as [[answer|]|e]; [|destruct Ha..].
  destruct (H answer eq_refl) as (ran & records & Hc & Hr & Ht). rewrite Hc in Hn |- *. rewrite Ha in Ht.
  destruct ran as [|x [|y l]]; [discriminate Hn| |discriminate Hn].
  inversion Hr as [|x' record l' records' Hx Hnil]; subst. inversion Hnil; subst.
  exists x, record. split; [reflexivity|]. split; assumption.
Defined.

(** In shadow mode, which is to audit only, the tools of the plan run all the same, and the
    tool loop runs them again. *)
Definition shadow_settings : AgentCodeModeSettings :=
  {| cm_enabled := true; cm_shadow_mode := true; cm_max_calls := 2; cm_max_parallel := 1; cm_max_runtime_ms := 60000;
     cm_max_call_timeout_ms := 1200; cm_timeout_warn_ratio := f64_lit 4 10; cm_timeout_auto_shadow_enabled := false;
     cm_timeout_auto_shadow_probe_every := 5; cm_timeout_auto_shadow_streak := 3; cm_max_result_chars := 20;
     cm_execution_mode := Local; cm_subprocess_timeout_secs := 8; cm_allow_network := false; cm_allow_filesystem := true;
     cm_allow_env := false |}.

Example shadow_mode_runs_the_tools :
  let '(r, w) := code_turn shadow_settings note_provider (World fresh_code 100 0) in
  r = Ok None ∧ length (tn_called (ks_turn (w_db w))) = 1.
Proof. vm_compute. split; reflexivity. Qed.

(** The call of a plan is on record, and verified, without its arguments. *)
Example code_mode_record_drops_arguments :
  let '(_, w) := code_notes in
  (pc_arguments <$> (tn_called (ks_turn (w_db w))).*1) = [VObject [("query", VString "tea")]] ∧
  (tl_arguments <$> tool_calls (hd_traj (tn_harness (ks_turn (w_db w))))) = [VObject []].
Proof. vm_compute. split; reflexivity. Qed.

(** An attempt whose planning fails is not counted. *)
Definition mute_provider : TurnProvider :=
  {| turn_complete := λ _ _, Err "offline"; turn_stream := λ _ _, ([], Err "offline"); turn_model := None |}.

Example failed_planning_is_no_attempt :
  let '(r, w) := code_turn (code_settings Local) mute_provider (World fresh_code 100 0) in
  r = Ok None ∧ length (tn_asked (ks_turn (w_db w))) = 1 ∧ kn_attempts (ks_counters (w_db w)) = 0.
Proof. vm_compute. repeat split. Qed.
